(* ===== verification/_CoqProject ===== *)
-Q . S2P
Prelude.v
Label.v
Compute.v
Types.v
Delta.v
Bundle.v
Merkle.v
Epoch.v
Identity.v
Store.v
MemStore.v
MemTags.v
MemEdge.v
MemIdentity.v
MemNamespace.v
MemUpload.v
Gc.v
Transaction.v
Events.v
Clock.v
Tid.v
Cid.v
AtCbor.v
MstNode.v
Mst.v
Car.v
AtCommit.v
Frame.v
Http.v
Text.v
OciBlob.v
OciManifest.v
OciUpload.v
OciTags.v
GitRefs.v
GitDelta.v
GitGraph.v
GitPack.v
GitProtocol.v
GitFetch.v
GitPush.v
Auth.v
NsLayer.v
DateTime.v
SigV4.v
S3Xml.v
SigLayer.v
S3List.v
S3Policy.v
S3Objects.v
S3Multipart.v
S3Buckets.v
Aead.v
RedbTable.v
RedbTags.v
RedbBlob.v
RedbEdge.v
RedbUpload.v
RedbVersions.v
RedbEpoch.v
RedbNamespace.v
RedbIdentity.v
NixRefs.v
NixInfo.v
NixServer.v
Counter.v
DistEdge.v
DistGc.v
DistMore.v
Akd.v
IdFrame.v
IdentityHttp.v
Compose.v
