(* ===== verification/Prelude.v ===== *)
(** * Verification of the kappa registry: content-addressed storage, its formats, protocols and access control

    The program is a Rust workspace, [src/crates/].  Its core is the crate
    [kappa-core]: labels (kappas) that name content by its hash, a store of
    blobs, tags, edges, epochs, namespaces, uploads and identities behind the
    trait [KappaStore], and the formats objects travel in.  Protocol modules put
    that store behind the OCI, Git, S3, Nix and AT Protocol interfaces and behind the
    registry's own endpoints; the server authorizes each request first.

    ** How the parts interact

    Bytes are hashed into labels; every write to a store goes through content
    whose label was verified; tags and edges point at labels; an epoch root is a
    Merkle commitment to a namespace's tags, chained to the previous one; garbage
    collection keeps what tags and epochs reach; transactions stage blobs and
    promote them through the verified ingest of any store; bundles carry blobs,
    possibly as deltas, between stores; identity records (assertions,
    revocations, watermarks, successions) are resolved against each other, and
    successions decide who may transfer a namespace.  A request passes the
    server's authorization layer, which reads capability and delegation edges
    from the store, and then a module's handler, which runs store operations one
    after another and answers with a status.

    ** Files, in dependency order

    Of [kappa-core/src/]:
    - [Prelude]: bytes, fixed-width integers, the three-way [outcome] ([Ok],
      [Err], [Panic]), string operations, stable sorting; tactics [osimpl] and
      [inv_ok].
    - [Label]: [kappa/label.rs] and [kappa/path.rs]: axes, [KappaLabel] as its
      135-byte buffer and length, parsing, printing, complement, blob paths.
    - [Compute]: [kappa/compute.rs] and [verified.rs]: one-shot, streaming and
      multi-axis hashing, [verify_kappa], [VerifiedContent].  The hash functions
      are the class [HashCrates] with laws [HashCratesLaws] (digest lengths, hex
      text, incremental hashing equals one-shot hashing).
    - [Types]: [types.rs]: namespaces, relations, records, key hashes.
    - [Delta], [Bundle]: [delta.rs] and [bundle.rs], encoders and decoders.
    - [Merkle], [Epoch]: [merkle.rs]; [epoch.rs] with [canonical.rs], over the
      dCBOR codec as the class [Dcbor] with laws [DcborLaws].
    - [Identity]: [identity/*.rs], the verifier dispatch of [crypto/mod.rs] and
      the anchors of [crypto/anchor.rs], over [SignatureCrates].
    - [Store]: [store/mod.rs]: the effect monad [M], the blob interface
      [KappaBlobs] with its promises [KappaBlobsLaws], and the trait's default
      methods, proved against the interface.
    - [MemStore], [MemTags], [MemEdge], [MemIdentity], [MemNamespace],
      [MemUpload]: [store/memory/mod.rs] and [store/memory/edge.rs].  The struct
      [InMemoryStore] is the record [store], one field per map, the blob
      directory being the map [fs]; each method is a state transformer.
      [MemStore] discharges [KappaBlobsLaws] for it.
    - [Gc]: [gc.rs].  [Transaction]: [transaction.rs].  [Events]: [events.rs].
      [Clock]: [clock/ntp_lamport.rs] and [membership.rs].
      [Counter]: [counter.rs], also as a step relation of concurrent callers, and
      [version.rs].

    Of [kappa-module-atproto/src/]:
    - [Tid]: [tid.rs], the generator also as a step relation of concurrent
      callers.  [Cid]: [cid.rs].  [AtCbor]: the CBOR heads shared by the
      encoders.  [MstNode], [Mst]: [mst.rs]; a block store is the class
      [BlockStore] with laws [BlockStoreLaws], discharged for the in-memory one.
      [Car]: [car.rs].  [AtCommit]: [commit.rs], [dag_cbor.rs] and the commit
      reader of [xrpc.rs].

    Of the modules that serve requests:
    - [Frame]: which parts of the store each operation leaves alone, and how much
      room (sequence numbers, epochs) a series of operations needs.
    - [Http]: requests ([Cx]), responses, the monad [Handler] of a handler, JSON
      values over [JsonCrates], and [kappa-module-oci/src/helpers.rs].
    - [OciBlob], [OciManifest], [OciUpload], [OciTags]: [blob.rs],
      [manifests.rs], [upload.rs], [tags.rs] and [referrers.rs] of
      [kappa-module-oci/src/].
    - [GitRefs], [GitDelta]: [refs.rs] and the delta codec of [ingest.rs] of
      [kappa-module-git/src/].
    - [GitGraph], [GitPack]: the object graph of [protocol.rs] with
      [envelope.rs], and packs ([packgen.rs], [ingest.rs]), over the crates'
      hashing, zlib and pack reader as [GixCrates] and [PackCrates].
      [GitProtocol]: the handlers of [protocol.rs] and [hooks.rs] over packet
      lines as [PktCrates]; [GitFetch] and [GitPush] prove what they do.
    - [Auth]: [auth.rs], the request classes of [ratelimit.rs] and
      [layers/auth.rs] of [kappa-server/src/], proved against the class
      [AuthorityStore], which the in-memory store implements.
    - [DistEdge], [DistGc], [Compose]: [edge.rs] (with [lib.rs]), [gc.rs] with
      [cascade.rs], and [compose.rs] of [kappa-module-distribution/src/];
      [DistMore]: its filters, schemas, sequences, namespaces, bundles,
      reconciliation and transactions.
    - [Text]: searching, splitting and trimming of strings, shared by the modules.
      [NsLayer]: [layers/namespace.rs] of [kappa-server/src/], with the loop in
      which a rewritten request runs through the layers again.
    - [DateTime]: [clock/mod.rs] of [kappa-core/src/], over [ChronoCrate].
      [SigV4]: [crypto/sigv4.rs] of [kappa-core/src/], over the MAC as
      [MacCrates].  [SigLayer]: [layers/sigv4.rs] of [kappa-server/src/].
    - [S3Xml], [S3List]: [xml.rs] and [list.rs] of [kappa-module-s3/src/].
      [S3Policy], [S3Objects], [S3Multipart], [S3Buckets]: the S3 handlers of
      [kappa-server/src/main.rs], with its policies, multipart uploads and
      lifecycle task.  Object versions are the class [KappaVersions], with the
      trait's default methods as the instance the in-memory store uses.
    - [NixRefs], [NixInfo]: [refs.rs], and [narinfo.rs] with [sign.rs], of
      [kappa-module-nix/src/], over decompression as a parameter.  [NixServer]: the
      Nix routes of [kappa-server/src/main.rs], with the key resolvers of
      [resolvers.rs] and [identity/resolver.rs].
    - [Akd]: [kappa-akd/src/lib.rs], over the directory of the akd library as
      [AkdDirectory] with [AkdDirectoryLaws].  [IdFrame]: what store operations
      leave of the identity index.  [IdentityHttp]: the handlers of
      [kappa-module-identity/src/lib.rs], with [identity/handle.rs].

    Of the encrypted and the persistent store:
    - [Aead]: [crypto/aead.rs] and [crypto/kms.rs] of [kappa-core/src/],
      [frame_reader.rs] and [encrypted.rs] of [kappa-store-redb/src/], over the
      cipher as [AeadCrate] with [AeadLaws] and key derivation as [DeriveKey].
    - [RedbTable]: the database of [kappa-store-redb/src/]: tables are finite maps,
      a transaction commits or leaves nothing, a scan visits keys in order.
      [RedbTags]: [tag.rs], sequences, metadata, the assertion index.
      [RedbBlob]: [blob.rs], ingest and opening; the unencrypted store discharges
      [KappaBlobsLaws].  [RedbEdge], [RedbVersions], [RedbEpoch],
      [RedbNamespace]: the files of those names.  [RedbUpload]: the uploads of
      [lib.rs].  [RedbIdentity]: its bindings and successions, [credentials.rs].

    ** What the theorems show

    - Formats: labels parse and print inversely; bundles, deltas, epoch roots,
      search trees, archives and identifiers round-trip; decoders on arbitrary
      input end in a verified result or an error, and the inputs on which they
      panic are characterised; the two delta decoders agree on every input.
    - Hashing: streaming, multi-axis and one-shot hashing agree; verification
      accepts exactly the content's addresses; Merkle roots and proofs and the
      roots of search trees bind their contents: two that agree are equal, or two
      of the inputs hashed collide under SHA-256.
    - Store: the verified ingest is correct for every implementation of the blob
      interface; tags, batches, sequences and epochs behave as specified; edge
      indexes stay in step with the edges, which makes queries sound and
      complete; the namespace registry is a state machine whose reachable states
      keep aliases valid and records under their owner's control; upload sessions
      refine lists of parts; succession resolution terminates.
    - Garbage collection keeps what is live, deletes the rest and terminates;
      transactions account for every staged byte; the event log refines the full
      history of events.
    - Endpoints: each handler's status and effect on every branch: push and pull
      of blobs and manifests, range reads, paged listings, upload sessions from
      start to completion, conditional tag writes, reference updates, edges,
      namespace sweeps and compositions.
    - Git: packs carry exactly their objects from store to store whatever deltas
      are chosen; a fetch is closed and delivers to the client what it asked for,
      from request lines to ingested objects; a push changes references all or
      none and reports what it did, a declined one changes none.
    - S3: an object put, or uploaded in parts, is the object a GET returns;
      listings are complete over their pages; policies decide by their matching
      statements; a lifecycle pass deletes exactly what has expired; a signed
      request or stream is accepted exactly with the signatures of its secret.
      The layer in front rewrites a request at most once, and a Git push reaches
      its handler only with a ground to write to its repository.
    - Persistence: encrypted blobs read back whole and by range; the tables of
      tags refine a map and those of namespaces the registry in memory; edge
      indexes stay in step; histories of versions stay ordered; the ingest with
      links equals the trait's default; uploads, epochs and credentials do what
      they promise, and an epoch advance of an encrypted store never returns.
    - Nix: a narinfo reads back from its text; an archive is accepted with the hash
      and the references claimed, and is then served as it was sent; references
      are found across chunk borders.
    - Identity endpoints: whatever resolves was signed by its asserter; an accepted
      revocation leaves nothing valid of what it revokes; a succession takes both
      keys; a claimed handle resolves.  The key directory survives a restart from
      its checkpoint, and its lookups of published labels fail.
    - A counter with one user never repeats a value, whatever file operations fail.
    - Access: every grant of the authorization layer has a ground and nobody with
      a direct ground is refused; a claim of authority passes only for its own
      maker, so the edge endpoint keeps authority edges self-asserted.
    - Concurrency: [Transaction], [Events], [Counter] and [Tid] split the operations that
      take their locks in several steps; race theorems exhibit interleavings that
      break a limit, lose an event or overwrite a tag, and the identifiers of
      [Tid] increase under every interleaving.
    - Divergences from what comments or documentation say are theorems too, such
      as the lossy COPY size, the odd-leaf duplication, the path of an unchecked
      algorithm name, the watermark of a compromised key, the query that leaves
      every namespace open, or the sweep that deletes other namespaces' blobs.

    ** Bounds and fuel

    Integers that the code keeps at a width are [Z] with [wrap] at the casts; an
    overflow the code does not guard is [Panic], as with overflow checks on.
    Loops that are not structural take fuel: the delta loops the length of their
    input, the varint encoders 10 rounds for 64 bits, the Merkle loops the number
    of leaves, the epoch and CBOR readers the number of bytes, succession and
    symbolic references 10 turns, delegation chains 6, the walk to a namespace's
    ancestors the length of its name, for all of which running out is proved
    impossible or is the code's own limit; the garbage collectors take it as an
    argument, with a sufficient amount for each finite graph in their theorems.

    ** What is not modelled

    Disk and network failures, logging, and the concrete hash, signature, CBOR,
    JSON and compression libraries (parameters with the documented behaviour the
    code relies on as named laws, each with a concrete instance).  A task run on
    another thread is a call that completes.  The server's start-up,
    its other routes and background
    tasks, the AT Protocol request handlers and sessions, the event streams, Git
    LFS, the wrapper of the reconciliation library, and the key files and signature schemes of
    [kappa-core] ([crypto/keystore.rs], [ecdsa.rs], [frost.rs]) are left out.
    Concurrency is modelled only where an operation releases its lock
    half-way; elsewhere a store operation is one atomic step.

    This file, the prelude: bytes, strings, integers, outcomes, sorting. *)

From stdpp Require Export base tactics list gmap numbers strings pretty sorting.
From Stdlib Require Export ZArith Lia Strings.Byte.

Open Scope Z_scope.

(** * Bytes and strings

    A [Vec<u8>] or [&[u8]] is a [list byte].  A Rust [String] is its UTF-8
    bytes: equality, ordering, [starts_with], [find] of an ASCII character and
    [format!] are byte-wise operations, so strings share the type. *)
Abbreviation bytes := (list byte).
Abbreviation rstr := (list byte).

Definition b2z (b : byte) : Z := Z.of_N (Byte.to_N b).

Definition z2b (z : Z) : byte :=
  match Byte.of_N (Z.to_N (z mod 256)) with
  | Some b => b
  | None => x00
  end.

(** The bytes of an ASCII literal. *)
Definition rs (s : string) : rstr := String.list_byte_of_string s.
Arguments rs _%_string.

#[export] Instance byte_eq_dec : EqDecision byte.
Proof.
  refine (λ x y, cast_if (decide (Byte.to_N x = Byte.to_N y))).
  - abstract (apply (inj Some); rewrite <- !Byte.of_to_N; congruence).
  - abstract congruence.
Defined.

#[export] Instance byte_countable : Countable byte :=
  inj_countable Byte.to_N Byte.of_N Byte.of_to_N.

#[export] Instance byte_inhabited : Inhabited byte := populate x00.

Lemma b2z_range b : 0 ≤ b2z b < 256.
Proof. unfold b2z. pose proof (Byte.to_N_bounded b). lia. Qed.

Lemma b2z_z2b z : b2z (z2b z) = z mod 256.
Proof.
  unfold z2b, b2z. pose proof (Z.mod_pos_bound z 256 ltac:(lia)).
  destruct (Byte.of_N (Z.to_N (z mod 256))) as [b|] eqn:E.
  - apply Byte.to_of_N in E. rewrite E. lia.
  - apply Byte.of_N_None_iff in E. lia.
Qed.

Lemma b2z_inj a b : b2z a = b2z b → a = b.
Proof.
  unfold b2z. intros H. apply N2Z.inj in H.
  apply (inj Some). rewrite <- !Byte.of_to_N. congruence.
Qed.

Lemma z2b_b2z b : z2b (b2z b) = b.
Proof.
  apply b2z_inj. rewrite b2z_z2b. apply Z.mod_small, b2z_range.
Qed.

Lemma b2z_z2b_small z : 0 ≤ z < 256 → b2z (z2b z) = z.
Proof. intros. rewrite b2z_z2b. by apply Z.mod_small. Qed.

Lemma z2b_mod z : z2b (z mod 256) = z2b z.
Proof. apply b2z_inj. rewrite !b2z_z2b. by rewrite Z.mod_mod. Qed.

(** * Machine integers *)

Definition u16_max : Z := 65535.
Definition u32_max : Z := 4294967295.
Definition u64_max : Z := 18446744073709551615.
(** [usize] and [isize] are 64 bits wide on the supported targets. *)
Definition usize_max : Z := u64_max.
Definition isize_max : Z := 9223372036854775807.

(** [as u32], [as u64], [wrapping_*]: truncation to the low [w] bits. *)
Definition wrap (w : Z) (z : Z) : Z := z mod 2 ^ w.

Abbreviation zlen l := (Z.of_nat (length l)).

(** Big-endian integers of [n] bytes: [to_be_bytes] and [from_be_bytes]. *)
Fixpoint to_be (n : nat) (v : Z) : bytes :=
  match n with
  | O => []
  | S n' => to_be n' (v / 256) ++ [z2b v]
  end.

Definition from_be (bs : bytes) : Z :=
  fold_left (λ acc b, acc * 256 + b2z b) bs 0.

Lemma length_to_be n v : length (to_be n v) = n.
Proof. revert v. induction n as [|n IH]; intros v; simpl; [done|].
  rewrite length_app, IH. simpl. lia. Qed.

Lemma from_be_snoc bs b : from_be (bs ++ [b]) = from_be bs * 256 + b2z b.
Proof. unfold from_be. by rewrite fold_left_app. Qed.

Lemma from_to_be n v : 0 ≤ v < 256 ^ Z.of_nat n → from_be (to_be n v) = v.
Proof.
  revert v. induction n as [|n IH]; intros v Hv.
  - change (256 ^ Z.of_nat 0) with 1 in Hv. unfold from_be. simpl. lia.
  - simpl to_be. rewrite from_be_snoc.
    rewrite Nat2Z.inj_succ, Z.pow_succ_r in Hv by lia.
    rewrite IH.
    + rewrite b2z_z2b. pose proof (Z.div_mod v 256). lia.
    + split; [apply Z.div_pos; lia|]. apply Z.div_lt_upper_bound; lia.
Qed.

Lemma from_be_range bs : 0 ≤ from_be bs < 256 ^ zlen bs.
Proof.
  induction bs as [|b bs IH] using rev_ind; [unfold from_be; simpl; lia|].
  rewrite from_be_snoc, length_app. simpl.
  rewrite Nat2Z.inj_add. rewrite Z.pow_add_r by lia.
  change (256 ^ Z.of_nat 1) with 256.
  pose proof (b2z_range b). nia.
Qed.

Lemma to_from_be bs : to_be (length bs) (from_be bs) = bs.
Proof.
  induction bs as [|b bs IH] using rev_ind; [done|].
  rewrite from_be_snoc, length_app, Nat.add_1_r. cbn [to_be].
  pose proof (b2z_range b). f_equal.
  - rewrite Z.div_add_l, (Z.div_small (b2z b)), Z.add_0_r by lia. done.
  - f_equal. apply b2z_inj. rewrite b2z_z2b, Z.add_comm, Z.mod_add by lia. by apply Z.mod_small.
Qed.

(** Bits shifted in below others. *)
Lemma lor_disjoint a s v : 0 ≤ s → 0 ≤ v < 2 ^ s → Z.lor (a * 2 ^ s) v = a * 2 ^ s + v.
Proof.
  intros Hs Hv. rewrite <- Z.add_lor_land. assert (Z.land (a * 2 ^ s) v = 0) as ->; [|lia].
  apply Z.bits_inj'. intros n Hn. rewrite Z.land_spec, Z.bits_0. destruct (Z.lt_ge_cases n s).
  - by rewrite Z.mul_pow2_bits_low.
  - rewrite <- (Z.mod_small v (2 ^ s)) by done. by rewrite Z.mod_pow2_bits_high, andb_false_r by lia.
Qed.

(** [(bits << s) | v] on [u32], observed through its low bits. *)
Lemma shift_in_mod p s bits v : 0 ≤ s → s ≤ p ≤ 32 → 0 ≤ v < 2 ^ s →
  Z.lor (wrap 32 (Z.shiftl bits s)) v mod 2 ^ p = (bits mod 2 ^ (p - s)) * 2 ^ s + v.
Proof.
  intros Hs Hp Hv. unfold wrap. rewrite Z.shiftl_mul_pow2 by done.
  assert (∀ q, s ≤ q → 2 ^ q = 2 ^ (q - s) * 2 ^ s) as Hpow.
  { intros q Hq. rewrite <- Z.pow_add_r by lia. f_equal. lia. }
  rewrite (Hpow 32), Z.mul_mod_distr_r, lor_disjoint by lia.
  set (low := bits mod 2 ^ (32 - s)).
  assert (low mod 2 ^ (p - s) = bits mod 2 ^ (p - s)) as <-.
  { apply Z.mod_mod_divide. exists (2 ^ (32 - p)).
    rewrite <- Z.pow_add_r by lia. f_equal. lia. }
  symmetry. apply Z.mod_unique with (low / 2 ^ (p - s)).
  - left. rewrite (Hpow p) by lia. pose proof (Z.mod_pos_bound low (2 ^ (p - s)) ltac:(lia)). nia.
  - rewrite (Hpow p) by lia. pose proof (Z.div_mod low (2 ^ (p - s)) ltac:(lia)). nia.
Qed.

(** * Outcomes of Rust code

    A function returning [Result<A, E>] either returns [Ok], returns [Err], or
    panics.  [Panic] is kept apart from [Err]: an error is a value the caller
    handles, a panic unwinds past it. *)
Inductive outcome (E A : Type) : Type :=
| Ok (a : A)
| Err (e : E)
| Panic.
Arguments Ok {E A} a.
Arguments Err {E A} e.
Arguments Panic {E A}.

#[export] Instance outcome_eq_dec `{EqDecision E, EqDecision A} : EqDecision (outcome E A).
Proof. solve_decision. Defined.

#[export] Instance outcome_ret E : MRet (outcome E) := λ A a, Ok a.
#[export] Instance outcome_bind E : MBind (outcome E) := λ A B f m,
  match m with
  | Ok a => f a
  | Err e => Err e
  | Panic => Panic
  end.

(** [map_err] and [ok_or]. *)
Definition map_err {E F A} (f : E → F) (m : outcome E A) : outcome F A :=
  match m with
  | Ok a => Ok a
  | Err e => Err (f e)
  | Panic => Panic
  end.

Definition ok_or {E A} (o : option A) (e : E) : outcome E A :=
  match o with
  | Some a => Ok a
  | None => Err e
  end.

(** [Option::unwrap] inside a function returning a [Result]. *)
Definition unwrap {E A} (o : option A) : outcome E A :=
  match o with
  | Some a => Ok a
  | None => Panic
  end.

Definition is_ok {E A} (m : outcome E A) : bool :=
  match m with Ok _ => true | _ => false end.

Lemma bind_ok_inv {E A B} (m : outcome E A) (f : A → outcome E B) b :
  (m ≫= f) = Ok b ↔ ∃ a, m = Ok a ∧ f a = Ok b.
Proof. destruct m; simpl; naive_solver. Qed.

Lemma map_err_ok_inv {E F A} (f : E → F) (m : outcome E A) a :
  map_err f m = Ok a ↔ m = Ok a.
Proof. destruct m; simpl; naive_solver. Qed.

Lemma ok_or_ok_inv {E A} (o : option A) (e : E) a :
  ok_or o e = Ok a ↔ o = Some a.
Proof. destruct o; simpl; naive_solver. Qed.

Lemma unwrap_ok_inv {E A} (o : option A) a :
  unwrap (E := E) o = Ok a ↔ o = Some a.
Proof. destruct o; simpl; naive_solver. Qed.

(** Evaluate the monad only, leaving the program's own functions folded. *)
Ltac osimpl := cbn [mbind outcome_bind mret outcome_ret unwrap ok_or map_err].
Tactic Notation "osimpl" "in" hyp(H) :=
  cbn [mbind outcome_bind mret outcome_ret unwrap ok_or map_err] in H.

(** Decompose a successful computation into the steps it is made of. *)
Ltac inv_ok :=
  repeat match goal with
  | H : (_ ≫= _) = Ok _ |- _ =>
      apply bind_ok_inv in H; destruct H as (? & ? & H)
  | H : map_err _ _ = Ok _ |- _ => apply map_err_ok_inv in H
  | H : ok_or _ _ = Ok _ |- _ => apply ok_or_ok_inv in H
  | H : unwrap _ = Ok _ |- _ => apply unwrap_ok_inv in H
  | H : Ok _ = Ok _ |- _ => injection H as H
  | H : Err _ = Ok _ |- _ => discriminate H
  | H : Panic = Ok _ |- _ => discriminate H
  | H : (if ?c then Err _ else _) = Ok _ |- _ =>
      let E := fresh "Hc" in destruct c eqn:E; [discriminate H|]
  | H : (if ?c then Panic else _) = Ok _ |- _ =>
      let E := fresh "Hc" in destruct c eqn:E; [discriminate H|]
  | H : (if ?c then _ else Err _) = Ok _ |- _ =>
      let E := fresh "Hc" in destruct c eqn:E; [|discriminate H]
  | H : (let '(_, _) := ?p in _) = Ok _ |- _ => destruct p
  end; simplify_eq.

(** * Searching and slicing strings *)

(** [iter().position(f)]. *)
Fixpoint position {A} (f : A → bool) (l : list A) : option nat :=
  match l with
  | [] => None
  | x :: l' => if f x then Some O else S <$> position f l'
  end.

(** [s.find(c)] and [s.split_once(c)] for an ASCII character. *)
Definition find_char (c : byte) (s : rstr) : option nat :=
  position (λ b, bool_decide (b = c)) s.

Definition split_once (c : byte) (s : rstr) : option (rstr * rstr) :=
  i ← find_char c s; Some (take i s, drop (S i) s).

Definition starts_with (p s : rstr) : bool := bool_decide (p `prefix_of` s).

Definition ends_with (p s : rstr) : bool := bool_decide (p `suffix_of` s).

Lemma drop_middle {A} (pre : list A) x post : drop (S (length pre)) (pre ++ x :: post) = post.
Proof.
  rewrite cons_middle, app_assoc, drop_app_length'; [done|]. rewrite length_app. simpl. lia.
Qed.

Lemma take_middle {A} (pre : list A) x post : take (S (length pre)) (pre ++ x :: post) = pre ++ [x].
Proof.
  rewrite cons_middle, app_assoc, take_app_length'; [done|]. rewrite length_app. simpl. lia.
Qed.

Lemma position_app_ne {A} (f : A → bool) (pre : list A) x post :
  Forall (λ y, f y = false) pre → f x = true →
  position f (pre ++ x :: post) = Some (length pre).
Proof.
  induction 1 as [|y pre Hy _ IH]; intros Hx; simpl; [by rewrite Hx|].
  rewrite Hy, (IH Hx). done.
Qed.

Lemma position_Some {A} (f : A → bool) l i :
  position f l = Some i ↔
  ∃ pre x post, l = pre ++ x :: post ∧ length pre = i ∧ f x = true ∧
                Forall (λ y, f y = false) pre.
Proof.
  split.
  - revert i. induction l as [|y l IH]; intros i; simpl; [done|].
    destruct (f y) eqn:Hy.
    + intros [= <-]. by exists [], y, l.
    + intros (j & Hj & ->)%fmap_Some.
      destruct (IH j Hj) as (pre & x & post & -> & <- & Hx & Hpre).
      exists (y :: pre), x, post. eauto.
  - intros (pre & x & post & -> & <- & Hx & Hpre). by apply position_app_ne.
Qed.

Lemma find_char_app c pre post :
  c ∉ pre → find_char c (pre ++ c :: post) = Some (length pre).
Proof.
  intros Hpre. apply position_app_ne; [|by rewrite bool_decide_eq_true].
  apply Forall_forall. intros y Hy. apply bool_decide_eq_false. congruence.
Qed.

Lemma find_char_Some c s i :
  find_char c s = Some i ↔
  ∃ pre post, s = pre ++ c :: post ∧ length pre = i ∧ c ∉ pre.
Proof.
  split.
  - intros (pre & x & post & -> & Hi & Hx & Hpre)%position_Some.
    apply bool_decide_eq_true in Hx as ->. exists pre, post.
    repeat split; [done|]. rewrite Forall_forall in Hpre. intros Hc.
    specialize (Hpre _ Hc). by apply bool_decide_eq_false in Hpre.
  - intros (pre & post & -> & <- & Hc). by apply find_char_app.
Qed.

Lemma split_once_app c pre post :
  c ∉ pre → split_once c (pre ++ c :: post) = Some (pre, post).
Proof.
  intros Hc. unfold split_once. rewrite find_char_app by done. simpl.
  by rewrite take_app_length, drop_middle.
Qed.

(** [&l[i..j]] with both ends in range. *)
Definition slice (l : bytes) (i j : nat) : bytes := take (j - i) (drop i l).

Lemma slice_app (pre m rest : bytes) i j :
  i = length pre → j = (length pre + length m)%nat → slice (pre ++ m ++ rest) i j = m.
Proof.
  intros -> ->. unfold slice. rewrite drop_app_length.
  replace (length pre + length m - length pre)%nat with (length m) by lia. apply take_app_length.
Qed.

(** * UTF-8 validation ([std::str::from_utf8], Unicode table 3-7) *)

Definition in_range (lo hi : Z) (b : byte) : bool := (lo <=? b2z b) && (b2z b <=? hi).

Fixpoint utf8_valid (s : bytes) : bool :=
  match s with
  | [] => true
  | b0 :: r0 =>
      if in_range 0x00 0x7F b0 then utf8_valid r0
      else match r0 with
      | [] => false
      | b1 :: r1 =>
          if in_range 0xC2 0xDF b0 then in_range 0x80 0xBF b1 && utf8_valid r1
          else match r1 with
          | [] => false
          | b2 :: r2 =>
              if in_range 0xE0 0xEF b0 then
                (if bool_decide (b2z b0 = 0xE0) then in_range 0xA0 0xBF b1
                 else if bool_decide (b2z b0 = 0xED) then in_range 0x80 0x9F b1
                 else in_range 0x80 0xBF b1)
                && in_range 0x80 0xBF b2 && utf8_valid r2
              else match r2 with
              | [] => false
              | b3 :: r3 =>
                  in_range 0xF0 0xF4 b0
                  && (if bool_decide (b2z b0 = 0xF0) then in_range 0x90 0xBF b1
                      else if bool_decide (b2z b0 = 0xF4) then in_range 0x80 0x8F b1
                      else in_range 0x80 0xBF b1)
                  && in_range 0x80 0xBF b2 && in_range 0x80 0xBF b3 && utf8_valid r3
              end
          end
      end
  end.

Definition is_ascii (b : byte) : bool := in_range 0x00 0x7F b.

Lemma utf8_valid_ascii s : forallb is_ascii s = true → utf8_valid s = true.
Proof.
  induction s as [|b s IH]; simpl; [done|].
  intros [Hb Hs]%andb_prop. unfold is_ascii in Hb. rewrite Hb. auto.
Qed.

(** * Ordering of strings and stable sorting *)

(** [Ord] on strings and byte slices: lexicographic by byte value. *)
Fixpoint bytes_leb (a b : bytes) : bool :=
  match a, b with
  | [], _ => true
  | _ :: _, [] => false
  | x :: a', y :: b' =>
      if b2z x <? b2z y then true
      else if b2z y <? b2z x then false
      else bytes_leb a' b'
  end.

Definition bytes_le (a b : bytes) : Prop := bytes_leb a b = true.

Lemma bytes_leb_refl a : bytes_leb a a = true.
Proof. induction a as [|x a IH]; simpl; [done|]. by rewrite Z.ltb_irrefl. Qed.

Lemma bytes_leb_total a b : bytes_leb a b = true ∨ bytes_leb b a = true.
Proof.
  revert b. induction a as [|x a IH]; intros [|y b]; simpl; auto.
  destruct (b2z x <? b2z y) eqn:E1; auto.
  destruct (b2z y <? b2z x) eqn:E2; auto.
Qed.

Lemma bytes_leb_antisym a b : bytes_leb a b = true → bytes_leb b a = true → a = b.
Proof.
  revert b. induction a as [|x a IH]; intros [|y b]; simpl; try done.
  destruct (Z.ltb_spec (b2z x) (b2z y)), (Z.ltb_spec (b2z y) (b2z x)); try done; try lia.
  intros H1 H2. f_equal; [apply b2z_inj; lia|auto].
Qed.

Lemma bytes_leb_trans a b c :
  bytes_leb a b = true → bytes_leb b c = true → bytes_leb a c = true.
Proof.
  revert b c. induction a as [|x a IH]; intros [|y b] [|z c]; simpl; try done.
  destruct (Z.ltb_spec (b2z x) (b2z y)), (Z.ltb_spec (b2z y) (b2z x)),
    (Z.ltb_spec (b2z y) (b2z z)), (Z.ltb_spec (b2z z) (b2z y)),
    (Z.ltb_spec (b2z x) (b2z z)), (Z.ltb_spec (b2z z) (b2z x)); try done; try lia; eauto.
Qed.

#[export] Instance bytes_le_dec : RelDecision bytes_le := λ a b, decide (bytes_leb a b = true).
#[export] Instance bytes_le_total : Total bytes_le := bytes_leb_total.
#[export] Instance bytes_le_trans : Transitive bytes_le := bytes_leb_trans.
#[export] Instance bytes_le_antisym : AntiSymm (=) bytes_le := bytes_leb_antisym.
#[export] Instance bytes_le_refl : Reflexive bytes_le := bytes_leb_refl.

(** [a < b] on strings. *)
Definition bytes_ltb (a b : bytes) : bool := negb (bytes_leb b a).
Definition bytes_lt (a b : bytes) : Prop := bytes_ltb a b = true.

#[export] Instance bytes_lt_dec : RelDecision bytes_lt := λ a b, decide (bytes_ltb a b = true).

Lemma bytes_lt_alt a b : bytes_lt a b ↔ bytes_le a b ∧ a ≠ b.
Proof.
  unfold bytes_lt, bytes_ltb, bytes_le. rewrite negb_true_iff. split.
  - intros Hba. destruct (bytes_leb_total a b) as [Hab|Hab]; [|congruence]. split; [done|].
    intros ->. rewrite bytes_leb_refl in Hba. done.
  - intros [Hab Hne]. destruct (bytes_leb b a) eqn:Hba; [|done]. by destruct Hne; apply bytes_leb_antisym.
Qed.

#[export] Instance bytes_lt_trans : Transitive bytes_lt.
Proof.
  intros a b c [Hab Nab]%bytes_lt_alt [Hbc Nbc]%bytes_lt_alt. apply bytes_lt_alt. split; [by etrans|].
  intros ->. by apply Nab, (anti_symm bytes_le).
Qed.

#[export] Instance bytes_lt_irrefl : Irreflexive bytes_lt.
Proof. intros a [_ Ha]%bytes_lt_alt. done. Qed.

Lemma bytes_le_lt_trans a b c : bytes_le a b → bytes_lt b c → bytes_lt a c.
Proof.
  intros Hab [Hbc Nbc]%bytes_lt_alt. apply bytes_lt_alt. split; [by etrans|].
  intros ->. by apply Nbc, (anti_symm bytes_le).
Qed.

Lemma bytes_lt_le_trans a b c : bytes_lt a b → bytes_le b c → bytes_lt a c.
Proof.
  intros [Hab Nab]%bytes_lt_alt Hbc. apply bytes_lt_alt. split; [by etrans|].
  intros ->. by apply Nab, (anti_symm bytes_le).
Qed.

Lemma bytes_lt_trichotomy a b : bytes_lt a b ∨ a = b ∨ bytes_lt b a.
Proof.
  rewrite !bytes_lt_alt. destruct (decide (a = b)) as [->|Hne]; [auto|].
  destruct (bytes_leb_total a b); [left|right; right]; split; auto.
Qed.

(** Lexicographic comparison goes through a common prefix, and is decided by a
    difference in prefixes of equal length. *)
Lemma bytes_leb_app_l p a b : bytes_leb (p ++ a) (p ++ b) = bytes_leb a b.
Proof. induction p as [|x p IH]; simpl; [done|]. by rewrite Z.ltb_irrefl. Qed.

Lemma bytes_lt_app_l p a b : bytes_lt (p ++ a) (p ++ b) ↔ bytes_lt a b.
Proof. unfold bytes_lt, bytes_ltb. by rewrite bytes_leb_app_l. Qed.

Lemma bytes_lt_app_r a b x y : length a = length b → bytes_lt a b → bytes_lt (a ++ x) (b ++ y).
Proof.
  unfold bytes_lt, bytes_ltb. revert b. induction a as [|c a IH]; intros [|d b] Hl; try done.
  simpl. destruct (b2z d <? b2z c); [done|]. destruct (b2z c <? b2z d); [done|]. apply IH. by injection Hl.
Qed.

(** [slice::sort_by] is a stable sort: equal keys keep their order. *)
Section stable_sort.
Context {A : Type} (le : A → A → bool).

Fixpoint sort_insert (x : A) (l : list A) : list A :=
  match l with
  | [] => [x]
  | y :: l' => if le x y then x :: y :: l' else y :: sort_insert x l'
  end.

Definition sort_by (l : list A) : list A := foldr sort_insert [] l.

Lemma sort_insert_perm x l : sort_insert x l ≡ₚ x :: l.
Proof.
  induction l as [|y l IH]; simpl; [done|].
  destruct (le x y); [done|]. rewrite IH. apply Permutation_swap.
Qed.

Lemma sort_by_perm l : sort_by l ≡ₚ l.
Proof.
  induction l as [|x l IH]; simpl; [done|].
  rewrite sort_insert_perm. by rewrite IH.
Qed.

Lemma length_sort_by l : length (sort_by l) = length l.
Proof. apply Permutation_length, sort_by_perm. Qed.

Lemma elem_of_sort_by x l : x ∈ sort_by l ↔ x ∈ l.
Proof. by rewrite sort_by_perm. Qed.

Context (le_total : ∀ x y, le x y = true ∨ le y x = true)
        (le_trans : ∀ x y z, le x y = true → le y z = true → le x z = true).

Lemma sort_insert_sorted x l :
  StronglySorted (λ a b, le a b = true) l →
  StronglySorted (λ a b, le a b = true) (sort_insert x l).
Proof using le_total le_trans.
  induction 1 as [|y l Hl IH Hy]; simpl; [repeat constructor|].
  destruct (le x y) eqn:E.
  - constructor; [by constructor|]. constructor; [done|].
    eapply Forall_impl; [exact Hy|]. eauto.
  - constructor; [done|]. rewrite sort_insert_perm. constructor; [|done].
    destruct (le_total x y); congruence.
Qed.

Lemma sort_by_sorted l : StronglySorted (λ a b, le a b = true) (sort_by l).
Proof using le_total le_trans.
  induction l as [|x l IH]; simpl; [constructor|]. by apply sort_insert_sorted.
Qed.
End stable_sort.

(** [Vec<String>::sort] and [Vec::dedup]. *)
Definition sort_strings (l : list rstr) : list rstr := sort_by bytes_leb l.

Fixpoint dedup (l : list rstr) : list rstr :=
  match l with
  | x :: (y :: _) as tl => if decide (x = y) then dedup tl else x :: dedup tl
  | _ => l
  end.

Definition sort_dedup (l : list rstr) : list rstr := dedup (sort_strings l).

Lemma elem_of_dedup x l : x ∈ dedup l ↔ x ∈ l.
Proof.
  induction l as [|a l IH]; [done|]. destruct l as [|b l]; [done|].
  simpl in *. case_decide as E.
  - subst. rewrite IH. set_solver.
  - set_solver.
Qed.

Lemma elem_of_sort_dedup x l : x ∈ sort_dedup l ↔ x ∈ l.
Proof.
  unfold sort_dedup, sort_strings. by rewrite elem_of_dedup, elem_of_sort_by.
Qed.

Lemma sort_strings_sorted l : StronglySorted bytes_le (sort_strings l).
Proof. apply sort_by_sorted; [apply bytes_leb_total|apply bytes_leb_trans]. Qed.

Lemma dedup_sorted_NoDup l : StronglySorted bytes_le l → NoDup (dedup l).
Proof.
  induction 1 as [|a l Hl IH Ha]; [constructor|].
  destruct l as [|b l]; [simpl; apply NoDup_singleton|].
  change (dedup (a :: b :: l)) with (if decide (a = b) then dedup (b :: l) else a :: dedup (b :: l)).
  case_decide as E; [done|]. constructor; [|done].
  rewrite elem_of_dedup. intros Hin. apply elem_of_cons in Hin as [->|Hin]; [done|].
  apply StronglySorted_inv in Hl as [_ Hb].
  rewrite Forall_forall in Ha, Hb. apply E.
  apply (anti_symm bytes_le); [apply Ha; set_solver|by apply Hb].
Qed.

Lemma NoDup_sort_dedup l : NoDup (sort_dedup l).
Proof. apply dedup_sorted_NoDup, sort_strings_sorted. Qed.

(** [to_string] of an unsigned integer. *)
Definition dec (z : Z) : rstr := rs (pretty z).

Lemma pretty_go_digits x s : forallb (in_range 48 57) (rs s) = true →
  forallb (in_range 48 57) (rs (pretty_N_go x s)) = true.
Proof.
  revert s. induction (N.lt_wf_0 x) as [x _ IH]. intros s Hs.
  destruct (decide (0 < x)%N) as [Hx|Hx].
  - rewrite pretty_N_go_step by done. apply IH; [apply N.div_lt; lia|]. unfold rs in *. cbn [String.list_byte_of_string String.list_ascii_of_string map forallb].
    apply andb_true_intro. split; [|exact Hs]. unfold pretty_N_char. by repeat case_match.
  - replace x with 0%N by lia. by rewrite pretty_N_go_0.
Qed.

Lemma dec_digits n : 0 ≤ n → forallb (in_range 48 57) (dec n) = true.
Proof.
  intros Hn. unfold dec. destruct n as [|p|p]; [done| |lia]. change (forallb (in_range 48 57) (rs (pretty_N (N.pos p))) = true).
  unfold pretty_N. case_decide; [done|]. by apply pretty_go_digits.
Qed.

(** * Generic lemmas *)

(** Induction two elements at a time, the shape of [chunks_exact(2)]. *)
Lemma list_pair_ind {A} (P : list A → Prop) :
  P [] → (∀ x, P [x]) → (∀ x y l, P l → P (x :: y :: l)) → ∀ l, P l.
Proof.
  intros H0 H1 H2. fix IH 1. intros [|x [|y l]]; [done|apply H1|]. apply H2, IH.
Qed.

(** A decidable fact about a small integer is checked by evaluation. *)
Lemma forall_small (n : nat) (P : Z → bool) :
  forallb P (seqZ 0 (Z.of_nat n)) = true → ∀ z, 0 ≤ z < Z.of_nat n → P z = true.
Proof.
  rewrite forallb_forall. intros H z Hz. apply H, list_elem_of_In, elem_of_seqZ. lia.
Qed.

Lemma forall_byte (P : byte → bool) :
  forallb (λ z, P (z2b z)) (seqZ 0 256) = true → ∀ b, P b = true.
Proof.
  intros H b. rewrite <- (z2b_b2z b). apply (forall_small 256 (λ z, P (z2b z)) H).
  apply b2z_range.
Qed.

Lemma list_filter_all {A} (P : A → Prop) `{∀ x, Decision (P x)} (l : list A) :
  (∀ x, x ∈ l → P x) → filter P l = l.
Proof.
  induction l as [|x l IH]; intros Hl; [done|].
  rewrite filter_cons_True by set_solver. f_equal. set_solver.
Qed.

Lemma list_filter_none {A} (P : A → Prop) `{∀ x, Decision (P x)} (l : list A) :
  (∀ x, x ∈ l → ¬ P x) → filter P l = [].
Proof.
  induction l as [|x l IH]; intros Hl; [done|].
  rewrite filter_cons_False by set_solver. set_solver.
Qed.
