(* ===== verification/Label.v ===== *)
(** Kappa-labels: [kappa-core/src/kappa/label.rs] and [kappa/path.rs].

    The axis enumeration, the fixed-buffer label with its parser and its
    bitwise complement, and the blob path layout derived from a label.  The
    invariant [label_wf] is what every constructor of a label establishes. *)

From S2P Require Import Prelude.

Open Scope Z_scope.

(** * Axes *)

Inductive Axis := Sha1 | Sha256 | Blake3 | Sha512 | Sha3_256 | Keccak256.

#[export] Instance Axis_eq_dec : EqDecision Axis.
Proof. solve_decision. Defined.

Definition axis_as_str (a : Axis) : rstr :=
  match a with
  | Sha1 => rs "sha1"
  | Sha256 => rs "sha256"
  | Blake3 => rs "blake3"
  | Sha512 => rs "sha512"
  | Sha3_256 => rs "sha3-256"
  | Keccak256 => rs "keccak256"
  end.

Definition axis_hex_digits (a : Axis) : Z :=
  match a with
  | Sha1 => 40
  | Sha256 | Blake3 | Sha3_256 | Keccak256 => 64
  | Sha512 => 128
  end.

Definition axis_digest_bytes (a : Axis) : Z := axis_hex_digits a / 2.

Definition axis_label_len (a : Axis) : Z := zlen (axis_as_str a) + 1 + axis_hex_digits a.

Definition axis_parse (s : rstr) : option Axis :=
  if decide (s = rs "sha1") then Some Sha1
  else if decide (s = rs "sha256") then Some Sha256
  else if decide (s = rs "blake3") then Some Blake3
  else if decide (s = rs "sha512") then Some Sha512
  else if decide (s = rs "sha3-256") then Some Sha3_256
  else if decide (s = rs "keccak256") then Some Keccak256
  else None.

(** * Errors *)

Inductive LabelError :=
| BadLength (got : Z)
| NoColon
| UnknownAxis
| BadHex (pos : Z) (b : byte)
| WrongDigitCount (expected got : Z)
| CollisionDetected
| DigestMismatch (expected computed axis : rstr).

#[export] Instance LabelError_eq_dec : EqDecision LabelError.
Proof. solve_decision. Defined.

(** * Hex digits *)

Definition HEX : bytes := rs "0123456789abcdef".

Definition hex_digit (n : Z) : byte := nth (Z.to_nat n) HEX x00.

(** The guard [matches!(b, b'0'..=b'9' | b'a'..=b'f')]. *)
Definition is_lower_hex (b : byte) : bool := in_range 48 57 b || in_range 97 102 b.

Definition hex_nibble (b : byte) : option Z :=
  if in_range 48 57 b then Some (b2z b - 48)
  else if in_range 97 102 b then Some (b2z b - 97 + 10)
  else None.

(** The two digits a byte is written as: [HEX[b >> 4]], [HEX[b & 0x0f]]. *)
Definition hex_of_byte (v : Z) : bytes :=
  [hex_digit (Z.shiftr v 4); hex_digit (Z.land v 15)].

Definition hex_of_bytes (bs : bytes) : bytes := bs ≫= λ b, hex_of_byte (b2z b).

(** * The label *)

Definition COLON : byte := x3a.

Record KappaLabel := mkLabel { lbl_buf : bytes; lbl_len : Z }.

#[export] Instance KappaLabel_eq_dec : EqDecision KappaLabel.
Proof. solve_decision. Defined.

(** [let mut buf = [0u8; 135]; buf[..s.len()].copy_from_slice(s)]: the copy
    panics when the slice is longer than the buffer. *)
Definition fill_buf (s : bytes) : bytes := s ++ replicate (135 - length s) x00.

(** The loop over [hex_part.iter().enumerate()]: the first non-hex byte. *)
Fixpoint check_hex (start : Z) (hex : bytes) : outcome LabelError unit :=
  match hex with
  | [] => Ok ()
  | b :: hex' => if is_lower_hex b then check_hex (start + 1) hex' else Err (BadHex start b)
  end.

Definition label_parse (s : rstr) : outcome LabelError KappaLabel :=
  if negb ((45 <=? zlen s) && (zlen s <=? 135)) then Err (BadLength (zlen s)) else
  colon ← ok_or (find_char COLON s) NoColon;
  axis ← ok_or (axis_parse (take colon s)) UnknownAxis;
  let expected_hex := axis_hex_digits axis in
  let hex_part := drop (S colon) s in
  if negb (zlen hex_part =? expected_hex)
  then Err (WrongDigitCount expected_hex (zlen hex_part)) else
  _ ← check_hex (Z.of_nat colon + 1) hex_part;
  Ok (mkLabel (fill_buf s) (wrap 8 (zlen s))).

(** [as_str]: slices the buffer and unwraps the UTF-8 check. *)
Definition label_as_str (k : KappaLabel) : outcome LabelError rstr :=
  let s := take (Z.to_nat (lbl_len k)) (lbl_buf k) in
  if (zlen (lbl_buf k) <? lbl_len k) then Panic
  else if utf8_valid s then Ok s else Panic.

Definition label_axis (k : KappaLabel) : outcome LabelError rstr :=
  s ← label_as_str k;
  i ← unwrap (find_char COLON s);
  Ok (take i s).

Definition label_axis_enum (k : KappaLabel) : outcome LabelError Axis :=
  a ← label_axis k;
  unwrap (axis_parse a).

Definition label_hex_digest (k : KappaLabel) : outcome LabelError rstr :=
  s ← label_as_str k;
  i ← unwrap (find_char COLON s);
  Ok (drop (S i) s).

(** The [chunks_exact(2)] loop of [complement]: a trailing odd byte is left
    out, a byte that is not a hex digit panics. *)
Fixpoint complement_pairs (hex : bytes) : outcome LabelError bytes :=
  match hex with
  | c1 :: c2 :: rest =>
      hi ← unwrap (hex_nibble c1);
      lo ← unwrap (hex_nibble c2);
      let byte := Z.lor (Z.shiftl hi 4) lo in
      let comp := Z.lxor byte 255 in
      rest' ← complement_pairs rest;
      Ok (hex_of_byte comp ++ rest')
  | _ => Ok []
  end.

Definition label_complement (k : KappaLabel) : outcome LabelError KappaLabel :=
  if (zlen (lbl_buf k) <? lbl_len k) then Panic else
  let s := take (Z.to_nat (lbl_len k)) (lbl_buf k) in
  colon ← unwrap (find_char COLON s);
  let prefix_len := S colon in
  hex ← complement_pairs (drop prefix_len s);
  Ok (mkLabel (fill_buf (take prefix_len s ++ hex)) (lbl_len k)).

(** * Paths *)

Inductive PathError := Rejected_label (kappa : rstr) | Rejected_short (kappa : rstr)
                     | Rejected_nonhex (kappa : rstr).

Definition SLASH : byte := x2f.

(** [Path::join] on Unix: an absolute argument replaces the base. *)
Definition path_join (p q : rstr) : rstr :=
  match q with
  | c :: _ => if decide (c = SLASH) then q
              else match last p with
                   | Some d => if decide (d = SLASH) then p ++ q else p ++ SLASH :: q
                   | None => q
                   end
  | [] => match last p with
          | Some d => if decide (d = SLASH) then p else p ++ [SLASH]
          | None => []
          end
  end.

(** [split_kappa]: [colon == kappa.len() - 1] cannot underflow, the string
    holds a colon. *)
Definition split_kappa (kappa : rstr) : option (rstr * rstr) :=
  colon ← find_char COLON kappa;
  if bool_decide (colon = O) || bool_decide (colon = length kappa - 1)%nat then None
  else Some (take colon kappa, drop (S colon) kappa).

Definition axis_of (kappa : rstr) : option rstr := fst <$> split_once COLON kappa.

Definition blob_path_for (root kappa : rstr) : outcome PathError rstr :=
  '(algo, hex) ← ok_or (split_kappa kappa) (Rejected_label kappa);
  if (zlen hex <? 4) then Err (Rejected_short kappa) else
  if negb (forallb is_lower_hex hex) then Err (Rejected_nonhex kappa) else
  Ok (path_join (path_join (path_join (path_join root algo) (take 2 hex))
                           (take 2 (drop 2 hex))) hex).

(** * Well-formed labels *)

Definition label_text (ax : Axis) (hex : rstr) : rstr := axis_as_str ax ++ COLON :: hex.

Definition valid_digits (ax : Axis) (hex : rstr) : Prop :=
  zlen hex = axis_hex_digits ax ∧ forallb is_lower_hex hex = true.

Definition label_of (ax : Axis) (hex : rstr) : KappaLabel :=
  mkLabel (fill_buf (label_text ax hex)) (zlen (label_text ax hex)).

(** What every constructor of a label establishes. *)
Definition label_wf (k : KappaLabel) : Prop :=
  ∃ ax hex, valid_digits ax hex ∧ k = label_of ax hex.

Create Rewrite HintDb label.

Lemma axis_parse_as_str a : axis_parse (axis_as_str a) = Some a.
Proof. by destruct a. Qed.

Lemma axis_parse_Some s a : axis_parse s = Some a ↔ s = axis_as_str a.
Proof.
  split; [|intros ->; apply axis_parse_as_str].
  unfold axis_parse. intros H. repeat case_decide; simplify_eq; done.
Qed.

Lemma axis_as_str_inj a b : axis_as_str a = axis_as_str b → a = b.
Proof. intros H. apply (inj Some). by rewrite <- !axis_parse_as_str, H. Qed.

Lemma colon_notin_axis a : COLON ∉ axis_as_str a.
Proof. destruct a; apply (bool_decide_unpack _); by vm_compute. Qed.

Lemma slash_notin_axis a : SLASH ∉ axis_as_str a.
Proof. destruct a; apply (bool_decide_unpack _); by vm_compute. Qed.

Lemma length_axis a : (4 ≤ length (axis_as_str a) ≤ 9)%nat.
Proof. destruct a; vm_compute; split; lia. Qed.

Lemma axis_ascii a : forallb is_ascii (axis_as_str a) = true.
Proof. by destruct a. Qed.

Lemma find_colon_label ax hex :
  find_char COLON (label_text ax hex) = Some (length (axis_as_str ax)).
Proof. apply find_char_app, colon_notin_axis. Qed.

Lemma take_axis_label ax hex :
  take (length (axis_as_str ax)) (label_text ax hex) = axis_as_str ax.
Proof. apply take_app_length. Qed.

Lemma drop_axis_label ax hex :
  drop (S (length (axis_as_str ax))) (label_text ax hex) = hex.
Proof. apply drop_middle. Qed.

Lemma length_label_text ax hex :
  zlen (label_text ax hex) = zlen (axis_as_str ax) + 1 + zlen hex.
Proof. unfold label_text. rewrite length_app. simpl. lia. Qed.

Lemma label_text_len ax hex :
  valid_digits ax hex → zlen (label_text ax hex) = axis_label_len ax.
Proof. intros [H _]. rewrite length_label_text, H. done. Qed.

Lemma axis_label_len_range ax : 45 ≤ axis_label_len ax ≤ 135.
Proof. destruct ax; vm_compute; split; congruence. Qed.

#[export] Hint Rewrite find_colon_label take_axis_label drop_axis_label
  axis_parse_as_str : label.

Lemma check_hex_ok start hex :
  check_hex start hex = Ok () ↔ forallb is_lower_hex hex = true.
Proof.
  revert start. induction hex as [|b hex IH]; intros start; simpl; [done|].
  destruct (is_lower_hex b); simpl; [apply IH|done].
Qed.

Lemma lower_hex_ascii hex : forallb is_lower_hex hex = true → forallb is_ascii hex = true.
Proof.
  induction hex as [|b hex IH]; simpl; [done|].
  intros [Hb Hh]%andb_prop. rewrite IH by done.
  unfold is_lower_hex, is_ascii, in_range in *. lia.
Qed.

Lemma lower_hex_not c hex :
  is_lower_hex c = false → forallb is_lower_hex hex = true → c ∉ hex.
Proof.
  intros Hc Hh Hin. rewrite forallb_forall in Hh.
  rewrite Hh in Hc; [done|]. by apply list_elem_of_In.
Qed.

Lemma label_text_inj ax ax' hex hex' :
  label_text ax hex = label_text ax' hex' → ax = ax' ∧ hex = hex'.
Proof.
  intros H. pose proof (find_colon_label ax hex) as Hf.
  rewrite H, find_colon_label in Hf. injection Hf as Hlen.
  apply app_inj_1 in H as [Ha Hb]; [|done]. simplify_eq.
  split; [by apply axis_as_str_inj|done].
Qed.

Lemma find_char_take c s i :
  find_char c s = Some i → s = take i s ++ c :: drop (S i) s.
Proof.
  intros (pre & post & -> & <- & _)%find_char_Some.
  by rewrite take_app_length, drop_middle.
Qed.

(** [parse] accepts exactly the texts [<axis>:<lowercase hex>] with the
    axis's digit count, and builds the padded buffer from them. *)
Lemma label_parse_ok s k :
  label_parse s = Ok k ↔
  ∃ ax hex, s = label_text ax hex ∧ valid_digits ax hex ∧ k = label_of ax hex.
Proof.
  split.
  - unfold label_parse. intros H. inv_ok.
    match goal with H : find_char _ _ = Some ?i |- _ => rename i into n; rename H into Hf end.
    match goal with H : axis_parse _ = Some ?a |- _ => rename a into ax; rename H into Ha end.
    apply axis_parse_Some in Ha. pose proof (find_char_take _ _ _ Hf) as Hs.
    rewrite Ha in Hs. change (s = label_text ax (drop (S n) s)) in Hs. exists ax, (drop (S n) s).
    match goal with H : check_hex _ _ = Ok ?u |- _ => destruct u; apply check_hex_ok in H end.
    apply negb_false_iff, Z.eqb_eq in Hc0.
    split_and!; [done|split; done|].
    apply negb_false_iff, andb_prop in Hc as [? ?].
    unfold label_of. rewrite <- Hs. f_equal.
    unfold wrap. apply Z.mod_small. change (2 ^ 8) with 256. lia.
  - intros (ax & hex & -> & Hv & ->). unfold label_parse.
    pose proof (label_text_len _ _ Hv) as Hl. pose proof (axis_label_len_range ax).
    rewrite !Hl. rewrite (proj2 (Z.leb_le 45 _)), (proj2 (Z.leb_le _ 135)) by lia. simpl.
    autorewrite with label. simpl. autorewrite with label. simpl.
    autorewrite with label. destruct Hv as [Hd Hh].
    rewrite Hd, Z.eqb_refl. simpl. rewrite (proj2 (check_hex_ok _ _)) by done. simpl.
    unfold label_of. rewrite Hl. f_equal. f_equal. unfold wrap.
    apply Z.mod_small. change (2 ^ 8) with 256. lia.
Qed.

Lemma label_parse_no_panic s : label_parse s ≠ Panic.
Proof.
  unfold label_parse. destruct (negb _); [done|].
  destruct (find_char _ _); simpl; [|done]. destruct (axis_parse _); simpl; [|done].
  destruct (negb _); [done|].
  assert (∀ st hex, check_hex st hex ≠ Panic) as Hp.
  { intros st hex. revert st. induction hex; intros st; simpl; [done|].
    destruct (is_lower_hex _); auto. }
  specialize (Hp (Z.of_nat n + 1) (drop (S n) s)).
  by destruct (check_hex _ _).
Qed.

Lemma label_text_ascii ax hex :
  valid_digits ax hex → utf8_valid (label_text ax hex) = true.
Proof.
  intros [_ Hh]. apply utf8_valid_ascii. unfold label_text.
  rewrite forallb_app, axis_ascii. simpl. by apply lower_hex_ascii.
Qed.

Lemma lbl_slice ax hex :
  take (Z.to_nat (lbl_len (label_of ax hex))) (lbl_buf (label_of ax hex)) = label_text ax hex.
Proof. unfold label_of, fill_buf. simpl. rewrite Nat2Z.id. apply take_app_length. Qed.

Lemma lbl_len_le ax hex : (zlen (lbl_buf (label_of ax hex)) <? lbl_len (label_of ax hex)) = false.
Proof. unfold label_of, fill_buf. cbn [lbl_buf lbl_len]. rewrite length_app. apply Z.ltb_ge. lia. Qed.

Lemma label_as_str_of ax hex :
  valid_digits ax hex → label_as_str (label_of ax hex) = Ok (label_text ax hex).
Proof.
  intros Hv. unfold label_as_str. rewrite lbl_len_le, lbl_slice.
  by rewrite label_text_ascii.
Qed.

Lemma label_axis_of ax hex :
  valid_digits ax hex → label_axis (label_of ax hex) = Ok (axis_as_str ax).
Proof.
  intros Hv. unfold label_axis. rewrite label_as_str_of by done. simpl.
  autorewrite with label. simpl. by autorewrite with label.
Qed.

Lemma label_axis_enum_of ax hex :
  valid_digits ax hex → label_axis_enum (label_of ax hex) = Ok ax.
Proof.
  intros Hv. unfold label_axis_enum. rewrite label_axis_of by done. simpl.
  by autorewrite with label.
Qed.

Lemma label_hex_digest_of ax hex :
  valid_digits ax hex → label_hex_digest (label_of ax hex) = Ok hex.
Proof.
  intros Hv. unfold label_hex_digest. rewrite label_as_str_of by done. simpl.
  autorewrite with label. simpl. by autorewrite with label.
Qed.

(** * Hex digits and the complement *)

Lemma hex_nibble_digit n :
  0 ≤ n < 16 → hex_nibble (hex_digit n) = Some n ∧ is_lower_hex (hex_digit n) = true.
Proof.
  intros Hn.
  pose proof (forall_small 16 (λ n, bool_decide (hex_nibble (hex_digit n) = Some n)
                                   && is_lower_hex (hex_digit n)) eq_refl n Hn) as H.
  apply andb_prop in H as [H1 H2]. by apply bool_decide_eq_true in H1.
Qed.

Lemma lower_hex_nibble b :
  is_lower_hex b = true → ∃ n, hex_nibble b = Some n ∧ 0 ≤ n < 16 ∧ hex_digit n = b.
Proof.
  intros Hb.
  pose proof (forall_byte (λ b, negb (is_lower_hex b) ||
    match hex_nibble b with
    | Some n => (0 <=? n) && (n <? 16) && bool_decide (hex_digit n = b)
    | None => false
    end) eq_refl b) as H.
  cbv beta in H. rewrite Hb in H. simpl in H. destruct (hex_nibble b) as [n|]; [|done].
  apply andb_prop in H as [[H1 H2]%andb_prop H3%bool_decide_eq_true].
  exists n. repeat split; [lia|lia|done].
Qed.

Lemma complement_nibbles hi lo :
  0 ≤ hi < 16 → 0 ≤ lo < 16 →
  let comp := Z.lxor (Z.lor (Z.shiftl hi 4) lo) 255 in
  Z.shiftr comp 4 = 15 - hi ∧ Z.land comp 15 = 15 - lo.
Proof.
  intros Hhi Hlo comp.
  pose proof (forall_small 16 (λ hi, forallb (λ lo,
    let comp := Z.lxor (Z.lor (Z.shiftl hi 4) lo) 255 in
    (Z.shiftr comp 4 =? 15 - hi) && (Z.land comp 15 =? 15 - lo)) (seqZ 0 16))
    eq_refl hi Hhi) as H.
  pose proof (forall_small 16 _ H lo Hlo) as H'.
  apply andb_prop in H' as [H1%Z.eqb_eq H2%Z.eqb_eq]. done.
Qed.

Lemma hex_of_complement hi lo :
  0 ≤ hi < 16 → 0 ≤ lo < 16 →
  hex_of_byte (Z.lxor (Z.lor (Z.shiftl hi 4) lo) 255)
  = [hex_digit (15 - hi); hex_digit (15 - lo)].
Proof.
  intros Hhi Hlo. unfold hex_of_byte.
  destruct (complement_nibbles hi lo Hhi Hlo) as [-> ->]. done.
Qed.

(** Complementing hex digits keeps them hex digits and is an involution. *)
Lemma complement_pairs_inv hex :
  Nat.Even (length hex) → forallb is_lower_hex hex = true →
  ∃ hex', complement_pairs hex = Ok hex' ∧ length hex' = length hex ∧
          forallb is_lower_hex hex' = true ∧ complement_pairs hex' = Ok hex.
Proof.
  induction hex as [|c|c1 c2 hex IH] using list_pair_ind; intros He Hh.
  - by exists [].
  - destruct He as [k Hk]. simpl in Hk. lia.
  - simpl in Hh. apply andb_prop in Hh as [H1 [H2 Hh]%andb_prop].
    destruct (lower_hex_nibble _ H1) as (hi & E1 & R1 & D1).
    destruct (lower_hex_nibble _ H2) as (lo & E2 & R2 & D2).
    destruct IH as (hex' & Hc & Hl & Hv & Hb); [|done|].
    { destruct He as [k Hk]. exists (k - 1)%nat. simpl in Hk. lia. }
    destruct (hex_nibble_digit (15 - hi)) as [N1 L1]; [lia|].
    destruct (hex_nibble_digit (15 - lo)) as [N2 L2]; [lia|].
    exists (hex_digit (15 - hi) :: hex_digit (15 - lo) :: hex').
    cbn [complement_pairs]. rewrite E1, E2, Hc, N1, N2, Hb. osimpl.
    rewrite !hex_of_complement by lia. simpl. rewrite L1, L2, Hl, Hv.
    replace (15 - (15 - hi)) with hi by lia. replace (15 - (15 - lo)) with lo by lia.
    by rewrite D1, D2.
Qed.

Lemma axis_hex_digits_even ax (hex : rstr) : zlen hex = axis_hex_digits ax → Nat.Even (length hex).
Proof. intros H. exists (Z.to_nat (axis_hex_digits ax / 2)). destruct ax; simpl in *; lia. Qed.

Lemma take_S_axis_label ax hex :
  take (S (length (axis_as_str ax))) (label_text ax hex) = axis_as_str ax ++ [COLON].
Proof. apply take_middle. Qed.

Lemma label_complement_of ax hex :
  valid_digits ax hex →
  ∃ hex', valid_digits ax hex' ∧ complement_pairs hex = Ok hex' ∧
          complement_pairs hex' = Ok hex ∧
          label_complement (label_of ax hex) = Ok (label_of ax hex').
Proof.
  intros [Hd Hh].
  destruct (complement_pairs_inv hex) as (hex' & Hc & Hl & Hv & Hb);
    [by eapply axis_hex_digits_even|done|].
  exists hex'. split_and!; [split; [lia|done]|done..|].
  unfold label_complement. rewrite lbl_len_le, lbl_slice. autorewrite with label.
  simpl. rewrite take_S_axis_label. autorewrite with label. rewrite Hc. simpl.
  unfold label_of. f_equal. f_equal.
  - unfold label_text. by rewrite <- app_assoc.
  - cbn [lbl_len]. rewrite !length_label_text. lia.
Qed.

(** * Paths of blobs *)

Lemma split_kappa_label ax hex :
  hex ≠ [] → split_kappa (label_text ax hex) = Some (axis_as_str ax, hex).
Proof.
  intros Hne. unfold split_kappa. autorewrite with label. simpl.
  pose proof (length_axis ax). pose proof (length_label_text ax hex). assert (0 < length hex)%nat by (destruct hex; [done|cbn; lia]).
  rewrite !bool_decide_eq_false_2 by lia. simpl. by autorewrite with label.
Qed.

Lemma path_join_rel p q c d :
  last p = Some c → c ≠ SLASH → head q = Some d → d ≠ SLASH →
  path_join p q = p ++ SLASH :: q.
Proof.
  intros Hp Hc Hq Hd. destruct q as [|x q]; [done|]. simpl in Hq. simplify_eq.
  unfold path_join. rewrite decide_False by done. rewrite Hp.
  by rewrite decide_False.
Qed.

(** The prefix a relative component is appended to. *)
Definition dir_prefix (root : rstr) : rstr :=
  match last root with
  | Some d => if decide (d = SLASH) then root else root ++ [SLASH]
  | None => []
  end.

Lemma path_join_dir root q c :
  head q = Some c → c ≠ SLASH → path_join root q = dir_prefix root ++ q.
Proof.
  intros Hq Hc. destruct q as [|x q]; [done|]. simpl in Hq. simplify_eq.
  unfold path_join, dir_prefix. rewrite decide_False by done.
  destruct (last root); [|done]. case_decide; [done|]. by rewrite <- app_assoc.
Qed.

Lemma axis_no_slash_ends ax :
  (∃ c, head (axis_as_str ax) = Some c ∧ c ≠ SLASH) ∧
  (∃ c, last (axis_as_str ax) = Some c ∧ c ≠ SLASH).
Proof. destruct ax; split; (eexists; split; [reflexivity|done]). Qed.

Lemma hex_no_slash hex i c :
  forallb is_lower_hex hex = true → hex !! i = Some c → c ≠ SLASH.
Proof.
  intros Hh Hi ->. apply (lower_hex_not SLASH hex); [done|done|].
  by eapply list_elem_of_lookup_2.
Qed.

Lemma last_app_cons {A} (p : list A) x q : last (p ++ x :: q) = last (x :: q).
Proof. rewrite last_app. destruct (last (x :: q)) eqn:E; [done|]. by apply last_None in E. Qed.

Lemma forallb_sublist_of {A} (f : A → bool) l l' :
  l' ⊆ l → forallb f l = true → forallb f l' = true.
Proof.
  rewrite !forallb_forall. intros Hsub Hl x Hx. apply Hl.
  apply list_elem_of_In, Hsub. by apply list_elem_of_In.
Qed.

(** Joining hex digits to a path that does not end in a slash. *)
Lemma path_join_hex p h c :
  last p = Some c → c ≠ SLASH → forallb is_lower_hex h = true → h ≠ [] →
  path_join p h = p ++ SLASH :: h ∧
  ∃ d, last (p ++ SLASH :: h) = Some d ∧ d ≠ SLASH.
Proof.
  intros Hp Hc Hh Hne. destruct h as [|x q]; [done|]. split.
  - eapply path_join_rel; [done..|]. by eapply (hex_no_slash (x :: q) 0).
  - rewrite last_app_cons, last_cons_cons.
    destruct (last (x :: q)) as [d|] eqn:Hl; [|by apply last_None in Hl].
    exists d. split; [done|].
    apply last_Some in Hl as [l' Hl']. eapply (hex_no_slash _ (length l')); [exact Hh|].
    rewrite Hl'. by apply list_lookup_middle.
Qed.

Definition label_path (root : rstr) (ax : Axis) (hex : rstr) : rstr :=
  dir_prefix root ++ axis_as_str ax ++ SLASH :: take 2 hex
    ++ SLASH :: take 2 (drop 2 hex) ++ SLASH :: hex.

Lemma valid_digits_len ax hex : valid_digits ax hex → (40 ≤ length hex)%nat.
Proof. intros [H _]. destruct ax; simpl in H; lia. Qed.

(** Digits of any length from four on make a path. *)
Lemma blob_path_for_hex root ax hex :
  (4 ≤ length hex)%nat → forallb is_lower_hex hex = true →
  blob_path_for root (label_text ax hex) = Ok (label_path root ax hex).
Proof.
  intros Hlen Hh. assert (hex ≠ []) as Hne by (intros ->; cbn in Hlen; lia).
  unfold blob_path_for. rewrite split_kappa_label by done. osimpl. rewrite Hh.
  rewrite (proj2 (Z.ltb_ge (zlen hex) 4)) by lia. simpl negb. cbv iota.
  destruct (axis_no_slash_ends ax) as [(c & Hc & Hc') (d & Hl & Hd')].
  rewrite (path_join_dir root _ c) by done.
  destruct (axis_as_str ax) as [|a0 at0] eqn:Eax; [done|]. rewrite <- Eax in *.
  assert (forallb is_lower_hex (take 2 hex) = true ∧ take 2 hex ≠ [] ∧
          forallb is_lower_hex (take 2 (drop 2 hex)) = true ∧ take 2 (drop 2 hex) ≠ [])
    as (H1 & N1 & H2 & N2).
  { split_and!.
    - eapply forallb_sublist_of; [apply subseteq_take|exact Hh].
    - intros E%(f_equal length). rewrite length_take in E. cbn [length] in E. lia.
    - eapply forallb_sublist_of; [|exact Hh]. by rewrite subseteq_take, subseteq_drop.
    - intros E%(f_equal length). rewrite length_take, length_drop in E. cbn [length] in E. lia. }
  assert (last (dir_prefix root ++ axis_as_str ax) = Some d) as L0.
  { rewrite last_app, Hl. done. }
  destruct (path_join_hex _ _ _ L0 Hd' H1 N1) as [-> (d1 & L1 & D1)].
  destruct (path_join_hex _ _ _ L1 D1 H2 N2) as [-> (d2 & L2 & D2)].
  destruct (path_join_hex _ hex _ L2 D2 Hh) as [-> _].
  { done. }
  unfold label_path. by rewrite <- !app_assoc.
Qed.

Lemma blob_path_for_label root ax hex :
  valid_digits ax hex →
  blob_path_for root (label_text ax hex) = Ok (label_path root ax hex).
Proof. intros Hv. pose proof (valid_digits_len _ _ Hv). apply blob_path_for_hex; [lia|apply Hv]. Qed.

Lemma app_slash_inj (a b c d : rstr) :
  SLASH ∉ a → SLASH ∉ c → a ++ SLASH :: b = c ++ SLASH :: d → a = c ∧ b = d.
Proof.
  intros Ha Hc H.
  pose proof (split_once_app SLASH a b Ha) as H1.
  rewrite H, split_once_app in H1 by done. by simplify_eq.
Qed.

Lemma label_path_hex_inj root ax ax' hex hex' :
  forallb is_lower_hex hex = true → forallb is_lower_hex hex' = true →
  label_path root ax hex = label_path root ax' hex' → ax = ax' ∧ hex = hex'.
Proof.
  intros Hh Hh' H. unfold label_path in H. apply (inj (dir_prefix root ++.)) in H.
  assert (∀ h n i, forallb is_lower_hex h = true → SLASH ∉ take n (drop i h)) as Hs.
  { intros h n i Hx. apply lower_hex_not; [done|].
    eapply forallb_sublist_of; [|exact Hx]. by rewrite subseteq_take, subseteq_drop. }
  apply app_slash_inj in H as [Ha H]; [|apply slash_notin_axis..].
  apply app_slash_inj in H as [_ H]; [|by apply (Hs _ 2%nat 0%nat)..].
  apply app_slash_inj in H as [_ H]; [|by apply Hs..].
  split; [by apply axis_as_str_inj|done].
Qed.

Lemma label_path_inj root ax ax' hex hex' :
  valid_digits ax hex → valid_digits ax' hex' →
  label_path root ax hex = label_path root ax' hex' → ax = ax' ∧ hex = hex'.
Proof. intros [_ Hh] [_ Hh']. by apply label_path_hex_inj. Qed.

(** * Properties *)

(** Parsing and printing a label are inverse: [parse] accepts a string
    exactly when it is the text of a well-formed label, and it returns that
    label; it never panics. *)
Theorem label_parse_print s :
  label_parse s ≠ Panic ∧
  ∀ k, label_parse s = Ok k ↔ label_wf k ∧ label_as_str k = Ok s.
Proof.
  split; [apply label_parse_no_panic|]. intros k. rewrite label_parse_ok. split.
  - intros (ax & hex & -> & Hv & ->). split; [by exists ax, hex|by apply label_as_str_of].
  - intros [(ax & hex & Hv & ->) Hs]. rewrite label_as_str_of in Hs by done.
    injection Hs as <-. by exists ax, hex.
Qed.

Lemma check_hex_err start hex e :
  check_hex start hex = Err e →
  ∃ pre b post, hex = pre ++ b :: post ∧ e = BadHex (start + zlen pre) b ∧
                is_lower_hex b = false ∧ forallb is_lower_hex pre = true.
Proof.
  revert start. induction hex as [|c hex IH]; intros start; simpl; [done|].
  destruct (is_lower_hex c) eqn:Hc.
  - intros (pre & b & post & -> & -> & Hb & Hpre)%IH. exists (c :: pre), b, post.
    simpl. rewrite Hc. split_and!; try done. f_equal. lia.
  - intros [= <-]. exists [], c, hex. simpl. by rewrite Z.add_0_r.
Qed.

(** Every error of [parse] reports what is wrong with the string: the
    length outside 45..=135, the missing colon, a prefix that is no axis, the
    digit counts, or the position and value of the first byte that is no
    lower-case hex digit.  The two errors of hashing are never returned. *)
Theorem label_parse_error s e (H : label_parse s = Err e) :
  match e with
  | BadLength got => got = zlen s ∧ ¬ (45 ≤ zlen s ≤ 135)
  | NoColon => COLON ∉ s
  | UnknownAxis => ∃ pre post, s = pre ++ COLON :: post ∧ ∀ ax, pre ≠ axis_as_str ax
  | WrongDigitCount expected got =>
      ∃ ax hex, s = label_text ax hex ∧ expected = axis_hex_digits ax ∧
                got = zlen hex ∧ got ≠ expected
  | BadHex pos b =>
      ∃ ax pre post, s = label_text ax (pre ++ b :: post) ∧
        pos = zlen (axis_as_str ax) + 1 + zlen pre ∧
        is_lower_hex b = false ∧ forallb is_lower_hex pre = true
  | CollisionDetected | DigestMismatch _ _ _ => False
  end.
Proof.
  unfold label_parse in H. destruct (negb _) eqn:Hc.
  { simplify_eq. split; [done|]. lia. }
  destruct (find_char COLON s) as [n|] eqn:Hf; osimpl in H; simplify_eq.
  2: { intros Hin. apply list_elem_of_split_l in Hin as (l1 & l2 & -> & Hn).
       by rewrite find_char_app in Hf. }
  pose proof (find_char_take _ _ _ Hf) as Hs.
  destruct (axis_parse (take n s)) as [ax|] eqn:Ha; osimpl in H; simplify_eq.
  2: { exists (take n s), (drop (S n) s). split; [done|]. intros ax E.
       rewrite E, axis_parse_as_str in Ha. done. }
  apply axis_parse_Some in Ha. rewrite Ha in Hs.
  destruct (negb (_ =? _)) eqn:Hd; simplify_eq.
  { exists ax, (drop (S n) s). split_and!; [done..|]. lia. }
  assert (n = length (axis_as_str ax)) as Hn.
  { rewrite <- Ha, length_take. apply find_char_Some in Hf as (p & q & -> & <- & _).
    rewrite length_app. lia. }
  destruct (check_hex _ _) eqn:He; osimpl in H; simplify_eq.
  apply check_hex_err in He as (pre & b & post & E & -> & Hb & Hpre).
  exists ax, pre, post. unfold label_text. rewrite <- E. split_and!; try done; lia.
Qed.

Lemma label_parse_error_witness :
  ∃ pre post, rs "md5-md5-md5:0123456789012345678901234567890123456789"
              = pre ++ COLON :: post ∧ ∀ ax, pre ≠ axis_as_str ax.
Proof.
  exact (label_parse_error (rs "md5-md5-md5:0123456789012345678901234567890123456789")
           UnknownAxis eq_refl).
Defined.

(** The complement of a well-formed label is a well-formed label of the same
    axis and the same length, and complementing twice gives the label back. *)
Theorem label_complement_involutive k (H : label_wf k) :
  ∃ k', label_complement k = Ok k' ∧ label_wf k' ∧ lbl_len k' = lbl_len k ∧
        label_axis k' = label_axis k ∧ label_hex_digest k' ≠ label_hex_digest k ∧
        label_complement k' = Ok k.
Proof.
  destruct H as (ax & hex & Hv & ->).
  destruct (label_complement_of ax hex Hv) as (hex' & Hv' & E1 & E2 & Hc).
  exists (label_of ax hex'). split_and!.
  - done.
  - by exists ax, hex'.
  - cbn [lbl_len label_of]. by rewrite !label_text_len.
  - by rewrite !label_axis_of.
  - rewrite !label_hex_digest_of by done. intros [= ->].
    pose proof (valid_digits_len _ _ Hv) as Hlen. destruct Hv as [_ Hh].
    destruct hex as [|c1 [|c2 hex]]; try (simpl in Hlen; lia).
    simpl in Hh. apply andb_prop in Hh as [H1 [H2 _]%andb_prop].
    destruct (lower_hex_nibble _ H1) as (hi & N1 & R1 & D1).
    destruct (lower_hex_nibble _ H2) as (lo & N2 & R2 & _).
    cbn [complement_pairs] in E1. rewrite N1, N2 in E1. osimpl in E1.
    destruct (complement_pairs hex); osimpl in E1; try discriminate.
    rewrite hex_of_complement in E1 by done. simpl in E1. injection E1 as E1 _ _.
    destruct (hex_nibble_digit (15 - hi)) as [N3 _]; [lia|].
    rewrite E1, N1 in N3. simplify_eq. lia.
  - destruct (label_complement_of ax hex' Hv') as (hex'' & _ & E3 & _ & Hc').
    rewrite Hc'. congruence.
Qed.

Definition sample_hex : rstr := rs "00ff12ab00ff12ab00ff12ab00ff12ab00ff12ab".

Lemma label_complement_involutive_witness :
  label_wf (label_of Sha1 sample_hex) ∧
  ∃ k', label_complement (label_of Sha1 sample_hex) = Ok k' ∧ label_wf k'.
Proof.
  assert (label_wf (label_of Sha1 sample_hex)) as H.
  { exists Sha1, sample_hex. split; [split|]; reflexivity. }
  destruct (label_complement_involutive _ H) as (k' & H1 & H2 & _). eauto.
Defined.

(** The blob path of a valid label lies below the store root, in the
    directory of its axis and two shard levels, and no two valid labels share
    a path. *)
Theorem blob_path_for_valid root s (H : is_ok (label_parse s) = true) :
  ∃ ax hex, s = label_text ax hex ∧
    blob_path_for root s = Ok (dir_prefix root ++ axis_as_str ax ++ SLASH :: take 2 hex
                               ++ SLASH :: take 2 (drop 2 hex) ++ SLASH :: hex) ∧
    ∀ s', is_ok (label_parse s') = true →
          blob_path_for root s' = blob_path_for root s → s' = s.
Proof.
  assert (∀ t, is_ok (label_parse t) = true → ∃ ax hex, t = label_text ax hex ∧ valid_digits ax hex)
    as Hsh.
  { intros t Ht. destruct (label_parse t) as [k| |] eqn:E; try done.
    apply label_parse_ok in E as (ax & hex & -> & Hv & _). eauto. }
  destruct (Hsh s H) as (ax & hex & -> & Hv). exists ax, hex.
  rewrite blob_path_for_label by done. split_and!; [done..|].
  intros s' (ax' & hex' & -> & Hv')%Hsh. rewrite blob_path_for_label by done.
  intros [= E]. apply label_path_inj in E as [-> ->]; done.
Qed.

Lemma blob_path_for_valid_witness :
  is_ok (label_parse (label_text Sha1 sample_hex)) = true ∧
  ∃ ax hex, label_text Sha1 sample_hex = label_text ax hex.
Proof.
  split; [reflexivity|].
  destruct (blob_path_for_valid (rs "/data/blobs") (label_text Sha1 sample_hex) eq_refl)
    as (ax & hex & H & _). eauto.
Defined.

(** Only the digest part of a label is validated before it becomes a path.
    An algorithm part that is an absolute path replaces the store root, whatever
    the root is. *)
Theorem blob_path_for_absolute_algo root algo hex
  (Ha : head algo = Some SLASH) (Hc : COLON ∉ algo)
  (Hh : forallb is_lower_hex hex = true) (Hl : (4 ≤ length hex)%nat) :
  blob_path_for root (algo ++ COLON :: hex) = blob_path_for [] (algo ++ COLON :: hex) ∧
  is_ok (blob_path_for root (algo ++ COLON :: hex)) = true.
Proof.
  unfold blob_path_for, split_kappa. rewrite find_char_app by done. simpl mbind.
  destruct algo as [|c algo]; [done|]. simpl in Ha. injection Ha as ->.
  rewrite bool_decide_eq_false_2 by done.
  rewrite bool_decide_eq_false_2 by (rewrite length_app; simpl; lia). simpl orb. cbv iota.
  rewrite take_app_length, drop_middle. osimpl. rewrite Hh. rewrite (proj2 (Z.ltb_ge (zlen hex) 4)) by lia. simpl negb. cbv iota.
  assert (∀ r, path_join r (SLASH :: algo) = SLASH :: algo) as Hj by done.
  by rewrite !Hj.
Qed.

Lemma blob_path_for_absolute_algo_witness :
  blob_path_for (rs "/data/blobs") (rs "/etc:abcd") = Ok (rs "/etc/ab/cd/abcd").
Proof.
  assert (COLON ∉ rs "/etc") as Hc by (apply (bool_decide_unpack _); by vm_compute).
  change (rs "/etc:abcd") with (rs "/etc" ++ COLON :: rs "abcd").
  rewrite (proj1 (blob_path_for_absolute_algo (rs "/data/blobs") (rs "/etc") (rs "abcd")
             eq_refl Hc eq_refl ltac:(vm_compute; lia))).
  reflexivity.
Defined.
