(* ===== verification/Compute.v ===== *)
(** Hash computation and verified content: [kappa-core/src/kappa/compute.rs]
    and [kappa-core/src/verified.rs].

    The hash algorithms, the hex encoder and the incremental hashers are crates
    outside the repository: they are the class [HashCrates], and what the code
    relies on is the class [HashCratesLaws]. *)

From S2P Require Import Prelude Label.

Open Scope Z_scope.

(** * The hash crates *)

Class HashCrates := {
  sha256_digest : bytes → bytes;
  sha512_digest : bytes → bytes;
  blake3_hash : bytes → bytes;
  sha3_256_digest : bytes → bytes;
  keccak256_digest : bytes → bytes;
  (** [Sha1Checked::try_digest]: the hash and [has_collision()]. *)
  sha1_try_digest : bytes → bytes * bool;
  (** [hex::encode] and [blake3::Hash::to_hex]. *)
  hex_encode : bytes → rstr;
  (** Incremental hashers: [new], [update], [finalize]. *)
  inc_state : Axis → Type;
  inc_new : ∀ a, inc_state a;
  inc_update : ∀ {a}, inc_state a → bytes → inc_state a;
  inc_finalize : ∀ {a}, inc_state a → bytes;
  inc_has_collision : inc_state Sha1 → bool;
}.

Definition digest_of `{HashCrates} (a : Axis) (content : bytes) : bytes :=
  match a with
  | Sha1 => fst (sha1_try_digest content)
  | Sha256 => sha256_digest content
  | Blake3 => blake3_hash content
  | Sha512 => sha512_digest content
  | Sha3_256 => sha3_256_digest content
  | Keccak256 => keccak256_digest content
  end.

(** Whether hashing under an axis is refused: only the collision detection of
    SHA-1 refuses content. *)
Definition hash_refused `{HashCrates} (a : Axis) (content : bytes) : bool :=
  match a with Sha1 => snd (sha1_try_digest content) | _ => false end.

(** Documented behaviour of the crates: output sizes, lower-case hex, and that
    incremental hashing of chunks is hashing of their concatenation. *)
Class HashCratesLaws `{HashCrates} : Prop := {
  digest_length : ∀ a c, zlen (digest_of a c) = axis_digest_bytes a;
  hex_encode_spec : ∀ bs, hex_encode bs = hex_of_bytes bs;
  inc_digest : ∀ a chunks,
    inc_finalize (fold_left inc_update chunks (inc_new a)) = digest_of a (concat chunks);
  inc_collision : ∀ chunks,
    inc_has_collision (fold_left inc_update chunks (inc_new Sha1))
    = snd (sha1_try_digest (concat chunks));
}.

(** * Streaming proofs *)

Record StreamingVerificationProof := mkProof {
  proof_primary : rstr;
  proof_additional : list (rstr * rstr);
}.

Definition proof_single (kappa : rstr) : StreamingVerificationProof := mkProof kappa [].
Definition proof_multi (primary : rstr) (additional : list (rstr * rstr)) :=
  mkProof primary additional.
Definition proof_kappa (p : StreamingVerificationProof) : rstr := proof_primary p.
Definition proof_axis (p : StreamingVerificationProof) : rstr :=
  match split_once COLON (proof_primary p) with
  | Some (a, _) => a
  | None => rs "sha256"
  end.
Definition proof_additional_kappas (p : StreamingVerificationProof) : list rstr :=
  snd <$> proof_additional p.
Definition proof_into_parts (p : StreamingVerificationProof) : rstr * list (rstr * rstr) :=
  (proof_primary p, proof_additional p).

(** One call of [Read::read]: some bytes (none at end of file) or an error. *)
Definition read_result : Type := bytes + rstr.

Section compute.
Context `{HashCrates}.

(** * One-shot hashing *)

(** The shared body: the prefix is copied and the digest written as hex. *)
Definition hash_label (prefix : rstr) (hash : bytes) (len : Z) : KappaLabel :=
  mkLabel (fill_buf (prefix ++ hex_of_bytes hash)) len.

Definition KappaLabel_sha256 (content : bytes) : KappaLabel :=
  hash_label (rs "sha256:") (sha256_digest content) 71.
Definition KappaLabel_blake3 (content : bytes) : KappaLabel :=
  hash_label (rs "blake3:") (blake3_hash content) 71.
Definition KappaLabel_sha512 (content : bytes) : KappaLabel :=
  hash_label (rs "sha512:") (sha512_digest content) 135.
Definition KappaLabel_sha3_256 (content : bytes) : KappaLabel :=
  hash_label (rs "sha3-256:") (sha3_256_digest content) 73.
Definition KappaLabel_keccak256 (content : bytes) : KappaLabel :=
  hash_label (rs "keccak256:") (keccak256_digest content) 74.
Definition KappaLabel_sha1 (content : bytes) : outcome LabelError KappaLabel :=
  let '(hash, has_collision) := sha1_try_digest content in
  if has_collision : bool then Err CollisionDetected
  else Ok (hash_label (rs "sha1:") hash 45).

Definition compute_kappa (axis : rstr) (content : bytes) : outcome LabelError KappaLabel :=
  if decide (axis = rs "sha1") then KappaLabel_sha1 content
  else if decide (axis = rs "sha256") then Ok (KappaLabel_sha256 content)
  else if decide (axis = rs "blake3") then Ok (KappaLabel_blake3 content)
  else if decide (axis = rs "sha3-256") then Ok (KappaLabel_sha3_256 content)
  else if decide (axis = rs "keccak256") then Ok (KappaLabel_keccak256 content)
  else if decide (axis = rs "sha512") then Ok (KappaLabel_sha512 content)
  else Err UnknownAxis.

Definition verify_kappa (kappa : rstr) (content : bytes) : outcome LabelError bool :=
  parsed ← label_parse kappa;
  axis ← label_axis parsed;
  computed ← compute_kappa axis content;
  s ← label_as_str computed;
  Ok (bool_decide (s = kappa)).

(** [KappaLabel::sha256(bytes).as_str().to_string()]; the UTF-8 check of
    [as_str] passes, see [kappa_from_bytes_as_str]. *)
Definition kappa_from_bytes (content : bytes) : rstr :=
  let k := KappaLabel_sha256 content in take (Z.to_nat (lbl_len k)) (lbl_buf k).

Definition sha256_raw (content : bytes) : bytes := sha256_digest content.

(** * Streaming hashing *)

(** The read loop: feed every chunk to the hasher until end of file. *)
Fixpoint read_loop {S} (update : S → bytes → S) (axis : rstr) (reader : list read_result)
  (h : S) : outcome LabelError S :=
  match reader with
  | [] => Ok h
  | inr e :: _ => Err (DigestMismatch [] e axis)
  | inl chunk :: reader' =>
      if decide (length chunk = 0)%nat then Ok h
      else read_loop update axis reader' (update h chunk)
  end.

Definition stream_axis (a : Axis) (reader : list read_result)
  : outcome LabelError StreamingVerificationProof :=
  h ← read_loop inc_update (axis_as_str a) reader (inc_new a);
  Ok (proof_single (axis_as_str a ++ COLON :: hex_encode (inc_finalize h))).

Definition streaming_compute_kappa (axis : rstr) (reader : list read_result)
  : outcome LabelError StreamingVerificationProof :=
  if decide (axis = rs "sha256") then stream_axis Sha256 reader
  else if decide (axis = rs "sha512") then stream_axis Sha512 reader
  else if decide (axis = rs "blake3") then stream_axis Blake3 reader
  else if decide (axis = rs "sha3-256") then stream_axis Sha3_256 reader
  else if decide (axis = rs "keccak256") then stream_axis Keccak256 reader
  else if decide (axis = rs "sha1") then
    h ← read_loop inc_update axis reader (inc_new Sha1);
    if inc_has_collision h then Err CollisionDetected
    else Ok (proof_single (rs "sha1:" ++ hex_encode (inc_finalize h)))
  else Err UnknownAxis.

(** The six [Option<Hasher>] variables. *)
Definition hashers : Type := ∀ a, option (inc_state a).

(** [sha256_h.get_or_insert_with(Sha256::new)]. *)
Definition get_or_insert (hs : hashers) (a : Axis) : hashers :=
  λ b, if decide (a = b) then Some (default (inc_new b) (hs b)) else hs b.

Fixpoint init_hashers (axes : list rstr) (hs : hashers) : outcome LabelError hashers :=
  match axes with
  | [] => Ok hs
  | axis :: axes' =>
      a ← ok_or (axis_parse axis) UnknownAxis;
      init_hashers axes' (get_or_insert hs a)
  end.

Definition update_all (hs : hashers) (chunk : bytes) : hashers :=
  λ a, (λ h, inc_update h chunk) <$> hs a.

(** The finalizers, in the order the code runs them. *)
Definition finalize_order : list Axis := [Sha256; Sha512; Blake3; Sha3_256; Keccak256; Sha1].

Definition finalize_one (hs : hashers) (a : Axis) : outcome LabelError (list (rstr * rstr)) :=
  match hs a with
  | None => Ok []
  | Some h =>
      let refused :=
        match a return inc_state a → bool with
        | Sha1 => λ h, inc_has_collision h
        | _ => λ _, false
        end h in
      if refused then Err CollisionDetected
      else Ok [(axis_as_str a, axis_as_str a ++ COLON :: hex_encode (inc_finalize h))]
  end.

Fixpoint finalize_all (hs : hashers) (order : list Axis)
  : outcome LabelError (list (rstr * rstr)) :=
  match order with
  | [] => Ok []
  | a :: order' =>
      r ← finalize_one hs a;
      rs ← finalize_all hs order';
      Ok (r ++ rs)
  end.

Definition streaming_compute_multi (axes : list rstr) (reader : list read_result)
  : outcome LabelError StreamingVerificationProof :=
  hs0 ← init_hashers axes (λ _, None);
  hs ← read_loop update_all (rs "multi") reader hs0;
  results ← finalize_all hs finalize_order;
  if bool_decide (results = []) then Err UnknownAxis else
  primary_axis ← unwrap (head axes);
  let primary_idx := default O (position (λ r, bool_decide (fst r = primary_axis)) results) in
  '(_, primary_kappa) ← unwrap (results !! primary_idx);
  Ok (proof_multi primary_kappa (take primary_idx results ++ drop (S primary_idx) results)).

(** * Verified content *)

Record VerifiedContent := mkVerified { vc_label : KappaLabel; vc_content : bytes }.

Definition VerifiedContent_compute (axis : Axis) (content : bytes)
  : outcome LabelError VerifiedContent :=
  label ← compute_kappa (axis_as_str axis) content;
  Ok (mkVerified label content).

Definition VerifiedContent_verify (claimed : rstr) (content : bytes)
  : outcome LabelError VerifiedContent :=
  label ← label_parse claimed;
  matches ← verify_kappa claimed content;
  if negb matches then
    axis ← label_axis label;
    computed ← compute_kappa axis content;
    s ← label_as_str computed;
    Err (DigestMismatch claimed s axis)
  else Ok (mkVerified label content).

(** [kappa()] and [axis()]. *)
Definition vc_kappa (v : VerifiedContent) : outcome LabelError rstr := label_as_str (vc_label v).
Definition vc_axis (v : VerifiedContent) : outcome LabelError Axis := label_axis_enum (vc_label v).
End compute.

(** * What the functions compute *)

Section facts.
Context `{HashCratesLaws}.

Definition digest_hex (a : Axis) (content : bytes) : rstr := hex_of_bytes (digest_of a content).

(** The address of content under an axis. *)
Definition kappa_text (a : Axis) (content : bytes) : rstr := label_text a (digest_hex a content).

Lemma hex_of_byte_valid v :
  0 ≤ v < 256 → forallb is_lower_hex (hex_of_byte v) = true ∧ length (hex_of_byte v) = 2%nat.
Proof.
  intros Hv. split; [|done].
  pose proof (forall_small 256 (λ v, forallb is_lower_hex (hex_of_byte v)) eq_refl v Hv). done.
Qed.

Lemma hex_of_bytes_valid bs :
  forallb is_lower_hex (hex_of_bytes bs) = true ∧ zlen (hex_of_bytes bs) = 2 * zlen bs.
Proof.
  induction bs as [|b bs [IH1 IH2]]; [done|]. unfold hex_of_bytes in *. rewrite bind_cons.
  destruct (hex_of_byte_valid (b2z b) (b2z_range b)) as [H1 H2].
  rewrite forallb_app, H1, IH1, length_app, H2. simpl length. lia.
Qed.

Lemma digest_hex_valid a c : valid_digits a (digest_hex a c).
Proof.
  destruct (hex_of_bytes_valid (digest_of a c)) as [H1 H2]. split; [|done].
  unfold digest_hex. rewrite H2, digest_length. by destruct a.
Qed.

Lemma hash_label_of a c prefix len :
  prefix = axis_as_str a ++ [COLON] → len = axis_label_len a →
  hash_label prefix (digest_of a c) len = label_of a (digest_hex a c).
Proof.
  intros -> ->. unfold hash_label, label_of.
  rewrite (label_text_len _ _ (digest_hex_valid a c)). unfold label_text, digest_hex.
  by rewrite <- app_assoc.
Qed.

(** Dispatch on an axis token computes the label of the digest. *)
Lemma compute_kappa_axis a c :
  compute_kappa (axis_as_str a) c =
  if hash_refused a c then Err CollisionDetected else Ok (label_of a (digest_hex a c)).
Proof.
  destruct a.
  - unfold compute_kappa, hash_refused. rewrite decide_True by done. unfold KappaLabel_sha1.
    rewrite <- (hash_label_of Sha1 c (rs "sha1:") 45) by done. simpl digest_of.
    destruct (sha1_try_digest c) as [h []]; done.
  - simpl hash_refused. cbv iota. by rewrite <- (hash_label_of Sha256 c (rs "sha256:") 71).
  - simpl hash_refused. cbv iota. by rewrite <- (hash_label_of Blake3 c (rs "blake3:") 71).
  - simpl hash_refused. cbv iota. by rewrite <- (hash_label_of Sha512 c (rs "sha512:") 135).
  - simpl hash_refused. cbv iota. by rewrite <- (hash_label_of Sha3_256 c (rs "sha3-256:") 73).
  - simpl hash_refused. cbv iota. by rewrite <- (hash_label_of Keccak256 c (rs "keccak256:") 74).
Qed.

Lemma compute_kappa_unknown s c : axis_parse s = None → compute_kappa s c = Err UnknownAxis.
Proof.
  intros Hs. unfold compute_kappa, axis_parse in *. repeat case_decide; done.
Qed.

Lemma kappa_text_parse a c : label_parse (kappa_text a c) = Ok (label_of a (digest_hex a c)).
Proof.
  apply label_parse_ok. exists a, (digest_hex a c). split_and!; [done| |done].
  apply digest_hex_valid.
Qed.

Lemma kappa_from_bytes_text c : kappa_from_bytes c = kappa_text Sha256 c.
Proof.
  unfold kappa_from_bytes. cbv zeta. unfold KappaLabel_sha256.
  change (sha256_digest c) with (digest_of Sha256 c).
  rewrite (hash_label_of Sha256) by done. apply lbl_slice.
Qed.

Lemma kappa_from_bytes_as_str c : label_as_str (KappaLabel_sha256 c) = Ok (kappa_from_bytes c).
Proof.
  rewrite kappa_from_bytes_text. unfold KappaLabel_sha256.
  change (sha256_digest c) with (digest_of Sha256 c).
  rewrite (hash_label_of Sha256) by done. apply label_as_str_of, digest_hex_valid.
Qed.

(** What [verify_kappa] does on each kind of input. *)
Lemma verify_kappa_cases s c :
  match label_parse s with
  | Ok _ => ∃ ax hex, s = label_text ax hex ∧ valid_digits ax hex ∧
      verify_kappa s c = if hash_refused ax c then Err CollisionDetected
                         else Ok (bool_decide (s = kappa_text ax c))
  | Err e => verify_kappa s c = Err e
  | Panic => False
  end.
Proof.
  destruct (label_parse s) as [k|e|] eqn:E.
  - pose proof E as (ax & hex & -> & Hv & ->)%label_parse_ok. exists ax, hex.
    split_and!; [done..|]. unfold verify_kappa. rewrite E. osimpl.
    rewrite label_axis_of by done. osimpl. rewrite compute_kappa_axis.
    destruct (hash_refused ax c); osimpl; [done|].
    rewrite label_as_str_of by apply digest_hex_valid. osimpl.
    f_equal. apply bool_decide_ext. unfold kappa_text. naive_solver.
  - unfold verify_kappa. by rewrite E.
  - by apply label_parse_no_panic in E.
Qed.

Lemma verify_kappa_true s c :
  verify_kappa s c = Ok true ↔ ∃ a, s = kappa_text a c ∧ hash_refused a c = false.
Proof.
  split.
  - intros Hv. pose proof (verify_kappa_cases s c) as Hc.
    destruct (label_parse s); [|congruence|done].
    destruct Hc as (ax & hex & -> & _ & Hc). rewrite Hc in Hv. exists ax.
    destruct (hash_refused ax c); [done|]. injection Hv as Hv%bool_decide_eq_true. done.
  - intros (a & -> & Hr). pose proof (verify_kappa_cases (kappa_text a c) c) as Hc.
    rewrite kappa_text_parse in Hc. destruct Hc as (ax & hex & E & _ & ->).
    apply label_text_inj in E as [<- _]. rewrite Hr. by rewrite bool_decide_eq_true_2.
Qed.
End facts.

(** * Streaming computes what one-shot hashing computes *)

(** The chunks a reader delivers before end of file, or its first error. *)
Fixpoint read_chunks (reader : list read_result) : outcome rstr (list bytes) :=
  match reader with
  | [] => Ok []
  | inr e :: _ => Err e
  | inl chunk :: reader' =>
      if decide (length chunk = 0)%nat then Ok []
      else cs ← read_chunks reader'; Ok (chunk :: cs)
  end.

Section streaming.
Context `{HashCratesLaws}.

Lemma read_loop_chunks {S} (update : S → bytes → S) axis reader h :
  read_loop update axis reader h =
  match read_chunks reader with
  | Ok chunks => Ok (fold_left update chunks h)
  | Err e => Err (DigestMismatch [] e axis)
  | Panic => Panic
  end.
Proof.
  revert h. induction reader as [|[chunk|e] reader IH]; intros h; simpl; [done| |done].
  case_decide; [done|]. rewrite IH. by destruct (read_chunks reader).
Qed.

Lemma read_chunks_no_panic reader : read_chunks reader ≠ Panic.
Proof.
  induction reader as [|[chunk|e] reader IH]; simpl; [done| |done].
  case_decide; [done|]. by destruct (read_chunks reader).
Qed.

Lemma stream_axis_spec a reader :
  stream_axis a reader =
  match read_chunks reader with
  | Ok chunks => Ok (proof_single (kappa_text a (concat chunks)))
  | Err e => Err (DigestMismatch [] e (axis_as_str a))
  | Panic => Panic
  end.
Proof.
  unfold stream_axis. rewrite read_loop_chunks.
  destruct (read_chunks reader); osimpl; try done.
  by rewrite inc_digest, hex_encode_spec.
Qed.

Lemma streaming_compute_kappa_axis a reader :
  streaming_compute_kappa (axis_as_str a) reader =
  match read_chunks reader with
  | Ok chunks => if hash_refused a (concat chunks) then Err CollisionDetected
                 else Ok (proof_single (kappa_text a (concat chunks)))
  | Err e => Err (DigestMismatch [] e (axis_as_str a))
  | Panic => Panic
  end.
Proof.
  destruct a; try apply stream_axis_spec.
  unfold streaming_compute_kappa. simpl. rewrite read_loop_chunks.
  destruct (read_chunks reader) as [cs| |]; osimpl; try done.
  rewrite inc_collision, inc_digest, hex_encode_spec. simpl.
  destruct (snd _); done.
Qed.

Lemma streaming_compute_kappa_unknown s reader :
  axis_parse s = None → streaming_compute_kappa s reader = Err UnknownAxis.
Proof.
  intros Hs. unfold streaming_compute_kappa, axis_parse in *. repeat case_decide; done.
Qed.

(** Multi-axis hashing, one lemma per phase. *)
Lemma init_hashers_spec l hs :
  ∃ hs', init_hashers (axis_as_str <$> l) hs = Ok hs' ∧
    ∀ b, hs' b = if decide (b ∈ l) then Some (default (inc_new b) (hs b)) else hs b.
Proof.
  revert hs. induction l as [|a l IH]; intros hs; cbn [init_hashers fmap list_fmap].
  - exists hs. split; [done|]. intros b. rewrite decide_False; set_solver.
  - rewrite axis_parse_as_str. osimpl.
    destruct (IH (get_or_insert hs a)) as (hs' & -> & Hhs). exists hs'. split; [done|].
    intros b. rewrite Hhs. unfold get_or_insert.
    destruct (decide (b ∈ l)); destruct (decide (a = b)) as [->|];
      (rewrite decide_True by set_solver) || (rewrite decide_False by set_solver); done.
Qed.

Lemma update_all_fold chunks hs a :
  fold_left update_all chunks hs a = (λ h, fold_left inc_update chunks h) <$> hs a.
Proof.
  revert hs. induction chunks as [|c cs IH]; intros hs; simpl; [by destruct (hs a)|].
  rewrite IH. unfold update_all. by destruct (hs a).
Qed.

Definition axis_entry (content : bytes) (a : Axis) : rstr * rstr :=
  (axis_as_str a, kappa_text a content).

Lemma finalize_one_spec (hs : hashers) (l : list Axis) chunks a :
  hs a = (if decide (a ∈ l) then Some (fold_left inc_update chunks (inc_new a)) else None) →
  finalize_one hs a =
  if decide (a ∈ l) then
    if hash_refused a (concat chunks) then Err CollisionDetected
    else Ok [axis_entry (concat chunks) a]
  else Ok [].
Proof.
  intros Ha. unfold finalize_one. rewrite Ha. destruct (decide (a ∈ l)); [|done].
  unfold axis_entry, kappa_text, digest_hex, label_text.
  rewrite inc_digest, hex_encode_spec. destruct a; try done.
  rewrite inc_collision. simpl. by destruct (snd _).
Qed.

Lemma finalize_all_spec (hs : hashers) (l : list Axis) chunks order :
  (∀ a, hs a = if decide (a ∈ l) then Some (fold_left inc_update chunks (inc_new a)) else None) →
  finalize_all hs order =
  if existsb (λ a, bool_decide (a ∈ l) && hash_refused a (concat chunks)) order
  then Err CollisionDetected
  else Ok (axis_entry (concat chunks) <$> filter (.∈ l) order).
Proof.
  intros Hhs. induction order as [|a order IH]; [done|].
  cbn [finalize_all existsb]. rewrite (finalize_one_spec hs l chunks a (Hhs a)), filter_cons.
  destruct (decide (a ∈ l)); [rewrite bool_decide_eq_true_2 by done|rewrite bool_decide_eq_false_2 by done].
  - destruct (hash_refused a _); osimpl; [done|]. rewrite IH. simpl.
    destruct (existsb _ order); done.
  - osimpl. rewrite IH. simpl. destruct (existsb _ order); done.
Qed.

Lemma remove_primary (l : list Axis) a0 content :
  NoDup l → a0 ∈ l →
  ∃ i, position (λ r, bool_decide (fst r = axis_as_str a0)) (axis_entry content <$> l) = Some i ∧
       (axis_entry content <$> l) !! i = Some (axis_entry content a0) ∧
       take i (axis_entry content <$> l) ++ drop (S i) (axis_entry content <$> l)
       = axis_entry content <$> filter (λ a, a ≠ a0) l.
Proof.
  intros Hnd Hin. apply list_elem_of_split_l in Hin as (pre & post & -> & Hpre).
  apply NoDup_app in Hnd as (_ & _ & Hpost). apply NoDup_cons in Hpost as [Hpost _].
  exists (length pre). rewrite fmap_app, fmap_cons.
  rewrite <- (length_fmap (axis_entry content) pre). split_and!.
  - apply position_app_ne; [|by rewrite bool_decide_eq_true].
    apply Forall_fmap, Forall_forall. intros a Ha. simpl. apply bool_decide_eq_false.
    intros ->%axis_as_str_inj. done.
  - by apply list_lookup_middle.
  - rewrite take_app_length, drop_middle.
    rewrite filter_app, filter_cons_False, <- fmap_app by naive_solver. f_equal. f_equal.
    + symmetry. apply list_filter_all. intros a Ha ->. done.
    + symmetry. apply list_filter_all. intros a Ha ->. done.
Qed.
End streaming.

(** * A concrete instance

    A digest that pads or truncates its input, for evaluating the model. *)
Definition pad_digest (n : nat) (content : bytes) : bytes := take n (content ++ replicate n x00).

#[export] Instance sample_crates : HashCrates := {|
  sha256_digest := pad_digest 32;
  sha512_digest := pad_digest 64;
  blake3_hash := pad_digest 32;
  sha3_256_digest := pad_digest 32;
  keccak256_digest := pad_digest 32;
  sha1_try_digest c := (pad_digest 20 c, bool_decide (c = rs "collision"));
  hex_encode := hex_of_bytes;
  inc_state _ := bytes;
  inc_new _ := [];
  inc_update _ st chunk := st ++ chunk;
  inc_finalize a st :=
    pad_digest (match a with Sha1 => 20 | Sha512 => 64 | _ => 32 end) st;
  inc_has_collision st := bool_decide (st = rs "collision");
|}.

Lemma fold_left_app_concat (chunks : list bytes) (st : bytes) :
  fold_left (λ st chunk, st ++ chunk) chunks st = st ++ concat chunks.
Proof.
  revert st. induction chunks as [|c cs IH]; intros st; simpl; [by rewrite app_nil_r|].
  rewrite IH. by rewrite <- app_assoc.
Qed.

#[export] Instance sample_crates_laws : HashCratesLaws.
Proof.
  split.
  - intros a c. assert (∀ n, length (pad_digest n c) = n) as Hp.
    { intros n. unfold pad_digest. rewrite length_take, length_app, length_replicate. lia. }
    destruct a; simpl digest_of; by rewrite Hp.
  - done.
  - intros a chunks. cbn [inc_finalize inc_update inc_new sample_crates].
    rewrite fold_left_app_concat. by destruct a.
  - intros chunks. cbn [inc_has_collision inc_update inc_new sample_crates].
    by rewrite fold_left_app_concat.
Qed.

(** * Properties *)

(** [verify_kappa] answers [true] exactly when the claimed label is the
    content's address under one of the six axes and the content is not refused
    by SHA-1 collision detection; on malformed labels it returns the parser's
    error, and it never panics. *)
Theorem verify_kappa_correct `{HashCratesLaws} s c :
  (verify_kappa s c = Ok true ↔ ∃ a, s = kappa_text a c ∧ hash_refused a c = false) ∧
  (∀ e, label_parse s = Err e → verify_kappa s c = Err e) ∧
  verify_kappa s c ≠ Panic.
Proof.
  split_and!.
  - apply verify_kappa_true.
  - intros e E. pose proof (verify_kappa_cases s c) as Hc. by rewrite E in Hc.
  - pose proof (verify_kappa_cases s c) as Hc. destruct (label_parse s); [|congruence|done].
    destruct Hc as (ax & hex & _ & _ & ->). by destruct (hash_refused ax c).
Qed.

Lemma verify_kappa_correct_witness :
  verify_kappa (kappa_text Blake3 (rs "hello")) (rs "hello") = Ok true.
Proof.
  apply (proj1 (verify_kappa_correct (kappa_text Blake3 (rs "hello")) (rs "hello"))).
  exists Blake3. split; reflexivity.
Defined.

(** Hashing a stream chunk by chunk gives the label one-shot hashing of the
    whole content gives, for each axis and for every way the reader splits the
    content; a read error becomes a [DigestMismatch] error, SHA-1 collisions are
    refused, and unknown axes are rejected without reading. *)
Theorem streaming_compute_kappa_correct `{HashCratesLaws} axis reader :
  streaming_compute_kappa axis reader =
  match axis_parse axis, read_chunks reader with
  | None, _ => Err UnknownAxis
  | Some _, Err e => Err (DigestMismatch [] e axis)
  | Some _, Panic => Panic
  | Some _, Ok chunks =>
      label ← compute_kappa axis (concat chunks);
      s ← label_as_str label;
      Ok (proof_single s)
  end.
Proof.
  destruct (axis_parse axis) as [a|] eqn:Ha.
  - apply axis_parse_Some in Ha as ->. rewrite streaming_compute_kappa_axis.
    destruct (read_chunks reader) as [chunks|e|]; try done.
    rewrite compute_kappa_axis. destruct (hash_refused a _); [done|]. osimpl.
    rewrite label_as_str_of by apply digest_hex_valid. done.
  - by apply streaming_compute_kappa_unknown.
Qed.

Lemma streaming_compute_kappa_correct_witness :
  streaming_compute_kappa (rs "sha1") [inl (rs "ab"); inl (rs "c"); inl []; inr (rs "late")]
  = Ok (proof_single (kappa_text Sha1 (rs "abc"))).
Proof. rewrite streaming_compute_kappa_correct. reflexivity. Defined.

Lemma finalize_order_complete a : a ∈ finalize_order.
Proof. destruct a; apply (bool_decide_unpack _); by vm_compute. Qed.

Lemma finalize_order_NoDup : NoDup finalize_order.
Proof. apply (bool_decide_unpack _). by vm_compute. Qed.

(** The multi-axis pass returns the first requested axis as primary and every
    other requested axis once, each with the label one-shot hashing gives. *)
Theorem streaming_compute_multi_correct `{HashCratesLaws} a0 (axs : list Axis) reader chunks
  (Hr : read_chunks reader = Ok chunks)
  (Hc : Sha1 ∈ a0 :: axs → hash_refused Sha1 (concat chunks) = false) :
  streaming_compute_multi (axis_as_str <$> a0 :: axs) reader =
  Ok (proof_multi (kappa_text a0 (concat chunks))
        (axis_entry (concat chunks) <$>
           filter (λ a, a ≠ a0) (filter (.∈ a0 :: axs) finalize_order))).
Proof.
  unfold streaming_compute_multi.
  destruct (init_hashers_spec (a0 :: axs) (λ _, None)) as (hs0 & -> & Hhs0). osimpl.
  rewrite read_loop_chunks, Hr. osimpl.
  assert (∀ a, fold_left update_all chunks hs0 a =
    if decide (a ∈ a0 :: axs) then Some (fold_left inc_update chunks (inc_new a)) else None) as Hhs.
  { intros a. rewrite update_all_fold, Hhs0. by destruct (decide (a ∈ a0 :: axs)). }
  rewrite (finalize_all_spec _ (a0 :: axs) chunks finalize_order Hhs).
  destruct (existsb _ finalize_order) eqn:Hex.
  { apply existsb_exists in Hex as (a & _ & [Ha%bool_decide_eq_true Hra]%andb_prop).
    destruct a; try done. rewrite Hc in Hra; done. }
  osimpl.
  destruct (remove_primary (filter (.∈ a0 :: axs) finalize_order) a0 (concat chunks))
    as (i & Hpos & Hi & Hrest).
  { apply NoDup_filter, finalize_order_NoDup. }
  { apply list_elem_of_filter. split; [set_solver|apply finalize_order_complete]. }
  rewrite bool_decide_eq_false_2 by (intros E; rewrite E in Hi; done).
  change (head (axis_as_str <$> a0 :: axs)) with (Some (axis_as_str a0)). osimpl.
  rewrite Hpos. cbn [default from_option id]. rewrite Hi. osimpl.
  unfold axis_entry at 1. by rewrite Hrest.
Qed.

Lemma streaming_compute_multi_correct_witness :
  streaming_compute_multi [rs "blake3"; rs "sha256"; rs "blake3"] [inl (rs "ab"); inl (rs "c")]
  = Ok (proof_multi (kappa_text Blake3 (rs "abc")) [(rs "sha256", kappa_text Sha256 (rs "abc"))]).
Proof.
  rewrite (streaming_compute_multi_correct Blake3 [Sha256; Blake3]
             [inl (rs "ab"); inl (rs "c")] [rs "ab"; rs "c"]).
  - reflexivity.
  - reflexivity.
  - intros _. reflexivity.
Defined.

(** Content that passed [VerifiedContent::verify] or was built by
    [VerifiedContent::compute] carries its own address: the label is a
    well-formed label equal to the hash of the content, and under [verify] it is
    the claimed one. *)
Theorem verified_content_sound `{HashCratesLaws} v :
  (∀ claimed c, VerifiedContent_verify claimed c = Ok v →
     vc_content v = c ∧ vc_kappa v = Ok claimed ∧
     ∃ a, vc_axis v = Ok a ∧ claimed = kappa_text a c) ∧
  (∀ a c, VerifiedContent_compute a c = Ok v →
     vc_content v = c ∧ vc_axis v = Ok a ∧ vc_kappa v = Ok (kappa_text a c)).
Proof.
  split.
  - intros claimed c Hv. unfold VerifiedContent_verify in Hv. inv_ok.
    destruct x0; simpl in Hv; [|inv_ok]. inv_ok.
    match goal with H : verify_kappa _ _ = Ok true |- _ => apply verify_kappa_true in H as (a & -> & _) end.
    rewrite kappa_text_parse in *. simplify_eq. simpl. split_and!.
    + done.
    + unfold vc_kappa. simpl. apply label_as_str_of, digest_hex_valid.
    + exists a. split; [|done]. unfold vc_axis. simpl. apply label_axis_enum_of, digest_hex_valid.
  - intros a c Hv. unfold VerifiedContent_compute in Hv. rewrite compute_kappa_axis in Hv.
    destruct (hash_refused a c); inv_ok. simpl. split_and!.
    + done.
    + unfold vc_axis. simpl. apply label_axis_enum_of, digest_hex_valid.
    + unfold vc_kappa. simpl. apply label_as_str_of, digest_hex_valid.
Qed.

Lemma verified_content_sound_witness :
  ∃ v, VerifiedContent_verify (kappa_text Sha512 (rs "x")) (rs "x") = Ok v ∧
       vc_kappa v = Ok (kappa_text Sha512 (rs "x")).
Proof.
  destruct (VerifiedContent_verify (kappa_text Sha512 (rs "x")) (rs "x")) as [v| |] eqn:E;
    [|vm_compute in E; discriminate E..].
  exists v. split; [done|]. by apply (proj1 (verified_content_sound v) _ _ E).
Defined.
