(* ===== verification/Types.v ===== *)
(** Types: the core data types of [kappa-core/src/types.rs], with namespace
    references, edge relations and the parsers and hashes defined on them. *)

From S2P Require Import Prelude Label Compute.

(** * Namespace references *)

Inductive ProtocolHint := HOci | HS3 | HGit | HKappaDistribution | HNix | HNone.

Record NamespaceRef := mkNs {
  ns_uuid : bytes;
  ns_display_name : option rstr;
  ns_protocol : option ProtocolHint;
}.

Definition NamespaceRef_new (uuid : bytes) : NamespaceRef := mkNs uuid None None.
Definition with_name (uuid : bytes) (name : rstr) : NamespaceRef := mkNs uuid (Some name) None.
Definition with_protocol (ns : NamespaceRef) (p : ProtocolHint) : NamespaceRef :=
  mkNs (ns_uuid ns) (ns_display_name ns) (Some p).

(** [as_str]; the source's documentation promises ["ns:{hex_uuid}"] without a
    display name, the code returns the empty string. *)
Definition ns_as_str (ns : NamespaceRef) : rstr :=
  match ns_display_name ns with
  | Some name => name
  | None => []
  end.

(** [PartialEq] and [Hash]: the UUID alone. *)
#[export] Instance ns_equiv : Equiv NamespaceRef := λ a b, ns_uuid a = ns_uuid b.
Definition ns_eqb (a b : NamespaceRef) : bool := bool_decide (ns_uuid a = ns_uuid b).

(** [uuid[i] = (uuid[i] & mask) | bits]. *)
Definition set_bits (uuid : bytes) (i : nat) (mask bits : Z) : bytes :=
  alter (λ b, z2b (Z.lor (Z.land (b2z b) mask) bits)) i uuid.

(** [blake3::keyed_hash(key, input)]. *)
Class KeyedHash := { keyed_hash : bytes → bytes → bytes }.
Class KeyedHashLaws `{KeyedHash} : Prop := {
  keyed_hash_length : ∀ k x, length (keyed_hash k x) = 32%nat;
}.

Section namespace.
Context `{HashCrates} `{KeyedHash}.

Definition uuid_hex (ns : NamespaceRef) : rstr := hex_encode (ns_uuid ns).

(** [Display]. *)
Definition ns_display (ns : NamespaceRef) : rstr :=
  match ns_display_name ns with
  | Some name => name
  | None => rs "ns:" ++ hex_encode (ns_uuid ns)
  end.

Definition deterministic (name : rstr) : NamespaceRef :=
  let key := blake3_hash (rs "kappa-namespace-uuid") in
  let hash := keyed_hash key name in
  let uuid := take 16 hash in
  let uuid := set_bits uuid 6 0x0F 0x80 in
  let uuid := set_bits uuid 8 0x3F 0x80 in
  mkNs uuid (Some name) None.

(** [generate] at time [ms], with the eight bytes the random source fills in. *)
Definition generate (ms : Z) (random : bytes) (name : rstr) : NamespaceRef :=
  let uuid := replicate 16 x00 in
  let uuid := drop 2 (to_be 8 (wrap 64 ms)) ++ drop 6 uuid in
  let uuid := set_bits uuid 6 0x0F 0x70 in
  let uuid := take 8 uuid ++ random in
  let uuid := set_bits uuid 8 0x3F 0x80 in
  mkNs uuid (Some name) None.
End namespace.

Definition ALIASES_NS : bytes :=
  [x00; x00; x00; x00; x00; x00; x80; x00; x80; x00; x6b; x61; x70; x70; x61; x00].
Definition HANDLES_NS : bytes :=
  [x00; x00; x00; x00; x00; x01; x80; x00; x80; x00; x6b; x61; x70; x70; x61; x00].
Definition aliases_ns : NamespaceRef := with_name ALIASES_NS (rs "_aliases").
Definition handles_ns : NamespaceRef := with_name HANDLES_NS (rs "_handles").

(** * Errors *)

(** [Io] and [Canonical] wrap errors of other crates, kept as their text. *)
Inductive StoreError :=
| SIo (e : rstr)
| SNotFound (what : rstr)
| SConflict (what : rstr)
| SRejected (what : rstr)
| SCanonical (e : rstr).

#[export] Instance StoreError_eq_dec : EqDecision StoreError.
Proof. solve_decision. Defined.

(** * Tags *)

Record TagEntry := mkTag { te_name : rstr; te_kappa : rstr; te_version : Z }.
Record TagUpdate := mkTagUpdate { tu_name : rstr; tu_kappa : rstr; tu_expected_version : option Z }.

(** * Edges *)

Inductive EdgeRelation :=
| Owns | ComposedOf | Assertion | Revocation | Capability | RecoveryShare | EpochRootRel
| AkdTreeNode | ChunkManifest | WitnessReceipt | OffloadReceipt | DerivedFrom | CertifiedBy
| EvidenceProvenance | SectionOf | RefersTo | Delegation.

#[export] Instance EdgeRelation_eq_dec : EqDecision EdgeRelation.
Proof. solve_decision. Defined.

Definition relation_as_str (r : EdgeRelation) : rstr :=
  match r with
  | Owns => rs "owns"
  | ComposedOf => rs "composed-of"
  | Assertion => rs "assertion"
  | Revocation => rs "revocation"
  | Capability => rs "capability"
  | RecoveryShare => rs "recovery-share"
  | EpochRootRel => rs "epoch-root"
  | AkdTreeNode => rs "akd-tree-node"
  | ChunkManifest => rs "chunk-manifest"
  | WitnessReceipt => rs "witness-receipt"
  | OffloadReceipt => rs "offload-receipt"
  | DerivedFrom => rs "derived-from"
  | CertifiedBy => rs "certified-by"
  | EvidenceProvenance => rs "evidence-provenance"
  | SectionOf => rs "section-of"
  | RefersTo => rs "refers-to"
  | Delegation => rs "delegation"
  end.

Definition relation_parse (s : rstr) : option EdgeRelation :=
  if decide (s = rs "owns") then Some Owns
  else if decide (s = rs "composed-of") then Some ComposedOf
  else if decide (s = rs "assertion") then Some Assertion
  else if decide (s = rs "revocation") then Some Revocation
  else if decide (s = rs "capability") then Some Capability
  else if decide (s = rs "recovery-share") then Some RecoveryShare
  else if decide (s = rs "epoch-root") then Some EpochRootRel
  else if decide (s = rs "akd-tree-node") then Some AkdTreeNode
  else if decide (s = rs "chunk-manifest") then Some ChunkManifest
  else if decide (s = rs "witness-receipt") then Some WitnessReceipt
  else if decide (s = rs "witness-of") then Some WitnessReceipt
  else if decide (s = rs "offload-receipt") then Some OffloadReceipt
  else if decide (s = rs "derived-from") then Some DerivedFrom
  else if decide (s = rs "derives-from") then Some DerivedFrom
  else if decide (s = rs "certified-by") then Some CertifiedBy
  else if decide (s = rs "evidence-provenance") then Some EvidenceProvenance
  else if decide (s = rs "section-of") then Some SectionOf
  else if decide (s = rs "refers-to") then Some RefersTo
  else if decide (s = rs "delegation") then Some Delegation
  else None.

Definition gc_reachable (r : EdgeRelation) : bool :=
  match r with
  | Owns => true
  | ComposedOf => true
  | Assertion => true
  | Revocation => true
  | Capability => true
  | RecoveryShare => true
  | EpochRootRel => true
  | AkdTreeNode => true
  | ChunkManifest => true
  | WitnessReceipt => true
  | OffloadReceipt => true
  | DerivedFrom => true
  | CertifiedBy => true
  | EvidenceProvenance => true
  | SectionOf => true
  | RefersTo => true
  | Delegation => true
  end.

Record DelegationScope := mkScope {
  dsc_namespaces : list rstr;
  dsc_operations : list rstr;
  dsc_expires_at_ms : option Z;
  dsc_delegation_depth : Z;
}.

Record Edge := mkEdge {
  e_source : rstr;
  e_target : rstr;
  e_relation : EdgeRelation;
  e_asserter : rstr;
  e_value_kappa : option rstr;
  e_metadata : option bytes;
}.

#[export] Instance Edge_eq_dec : EqDecision Edge.
Proof. solve_decision. Defined.

Inductive Direction := Outbound | Inbound.

Record EdgeQuery := mkQuery {
  q_anchor : rstr;
  q_direction : Direction;
  q_relation : option EdgeRelation;
  q_asserter : option rstr;
}.

(** * Epoch mutations *)

Inductive MutationOp :=
| TagSet | TagDelete | EdgePut | EdgeDelete | AssertionPublish | RevocationPublish
| AnchorOrigin | BlobPut | BlobDelete.

#[export] Instance MutationOp_eq_dec : EqDecision MutationOp.
Proof. solve_decision. Defined.

Record EpochMutation := mkMutation {
  em_op : MutationOp;
  em_namespace : rstr;
  em_tag_name : rstr;
  em_old_kappa : option rstr;
  em_new_kappa : option rstr;
}.

(** * Federation *)

Inductive FederationMode := FedDisabled | FedActive | FedPassive.
Inductive ConflictResolution := CRReject | CRAcceptAll | CRVersionWins.

Record FederationConfig := mkFed {
  fc_mode : FederationMode;
  fc_peers : list rstr;
  fc_sync_interval_secs : Z;
  fc_conflict_resolution : ConflictResolution;
}.

Definition FederationConfig_default : FederationConfig := mkFed FedDisabled [] 300 CRReject.

(** * Request-scoped types *)

Inductive ResolvedNamespace :=
| RExists (ns : NamespaceRef)
| RNotFound (name protocol : rstr)
| RNoNamespace.

Inductive DetectedOperation := OpRead | OpWrite | OpWriteDiscovery.

Definition is_write (op : DetectedOperation) : bool :=
  match op with OpWrite | OpWriteDiscovery => true | OpRead => false end.

Inductive NamespaceError := NENotFound (name : rstr) | NENoNamespace.

Definition expect_exists (r : ResolvedNamespace) : outcome NamespaceError NamespaceRef :=
  match r with
  | RExists ns => Ok ns
  | RNotFound name _ => Err (NENotFound name)
  | RNoNamespace => Err NENoNamespace
  end.

Definition name_if_missing (r : ResolvedNamespace) : option (rstr * rstr) :=
  match r with
  | RNotFound name protocol => Some (name, protocol)
  | _ => None
  end.

(** * Attestation digests *)

Inductive AttestationDigest := Md5 | Crc32 | Crc32c | Crc64Nvme.

Definition attestation_as_str (d : AttestationDigest) : rstr :=
  match d with
  | Md5 => rs "md5"
  | Crc32 => rs "crc32"
  | Crc32c => rs "crc32c"
  | Crc64Nvme => rs "crc64nvme"
  end.

(** The checksum crates; [crc_checksum] returns a [u64] for every algorithm. *)
Class ChecksumCrates := {
  md5_digest : bytes → bytes;
  crc_checksum : AttestationDigest → bytes → Z;
}.

Definition attestation_compute `{ChecksumCrates} (d : AttestationDigest) (content : bytes) : bytes :=
  match d with
  | Md5 => md5_digest content
  | Crc32 => to_be 4 (wrap 32 (crc_checksum Crc32 content))
  | Crc32c => to_be 4 (wrap 32 (crc_checksum Crc32c content))
  | Crc64Nvme => to_be 8 (crc_checksum Crc64Nvme content)
  end.

(** * Versioning *)

Inductive VersioningState := Unversioned | VEnabled | VSuspended.

Record VersionEntry := mkVersion {
  ve_version_id : rstr;
  ve_kappa : option rstr;
  ve_is_delete_marker : bool;
  ve_timestamp_ms : Z;
  ve_size : Z;
  ve_etag : option rstr;
}.

Record DeleteResult := mkDeleteResult { dr_version_id : rstr; dr_is_delete_marker : bool }.

(** * Key hashes *)

(** [u64::from_le_bytes] of the first eight bytes. *)
Definition from_le (bs : bytes) : Z := from_be (rev bs).

Definition namespace_hash `{HashCrates} (ns : rstr) : Z := from_le (take 8 (blake3_hash ns)).
Definition item_hash `{HashCrates} (name : rstr) : Z := namespace_hash name.

(** * Properties *)

#[export] Instance ns_equivalence : Equivalence (≡@{NamespaceRef}).
Proof. unfold equiv, ns_equiv. split; [by intros ?|by intros ?? ->|by intros ??? -> ->]. Qed.

#[export] Instance ns_uuid_proper : Proper ((≡) ==> (=)) ns_uuid.
Proof. by intros ???. Qed.

#[export] Instance uuid_hex_proper `{HashCrates} : Proper ((≡) ==> (=)) uuid_hex.
Proof. intros ?? E. unfold uuid_hex. by rewrite E. Qed.

(** The attestation digest has the width of its algorithm. *)
Lemma attestation_compute_length `{ChecksumCrates} d content :
  d ≠ Md5 →
  length (attestation_compute d content) = match d with Crc64Nvme => 8%nat | _ => 4%nat end.
Proof. by destruct d; intros; cbn [attestation_compute]; rewrite ?length_to_be. Qed.

(** The relation parser accepts exactly the canonical names and the two
    documented aliases, and inverts [as_str]; distinct relations have distinct
    names. *)
Theorem relation_parse_spec s r :
  relation_parse s = Some r ↔
  s = relation_as_str r ∨ (s = rs "witness-of" ∧ r = WitnessReceipt)
    ∨ (s = rs "derives-from" ∧ r = DerivedFrom).
Proof.
  split.
  - unfold relation_parse. repeat (case_decide; [intros [= <-]; by auto|]). done.
  - intros [-> | [[-> ->] | [-> ->]]]; [|reflexivity..]. destruct r; reflexivity.
Qed.

Definition nibble_check (mask bits hi : Z) (z : Z) : bool :=
  Z.shiftr (b2z (z2b (Z.lor (Z.land z mask) bits))) 4 =? hi.

Lemma version_nibble b bits hi :
  forallb (nibble_check 0x0F bits hi) (seqZ 0 256) = true →
  Z.shiftr (b2z (z2b (Z.lor (Z.land (b2z b) 0x0F) bits))) 4 = hi.
Proof.
  intros Hc. apply Z.eqb_eq.
  exact (forall_small 256 (nibble_check 0x0F bits hi) Hc (b2z b) (b2z_range b)).
Qed.

Definition uuid_version (uuid : bytes) : option Z := (λ b, Z.shiftr (b2z b) 4) <$> uuid !! 6%nat.

Lemma set_bits_version uuid b : uuid !! 6%nat = Some b →
  uuid_version (set_bits uuid 6 0x0F 0x80) = Some 8 ∧ uuid_version (set_bits uuid 6 0x0F 0x70) = Some 7.
Proof.
  intros Hb. unfold uuid_version, set_bits. rewrite !list_lookup_alter_eq, Hb. cbn [fmap option_fmap option_map].
  split; f_equal; apply version_nibble; vm_compute; reflexivity.
Qed.

(** System namespaces derived from a name are version-8 UUIDs of 16 bytes
    and freshly generated ones are version 7, whatever the clock and the random
    source return: a generated namespace never takes the UUID of a system
    namespace or one of the two compiled-in registries. *)
Theorem generated_namespace_fresh `{HashCrates} `{KeyedHashLaws} ms random name sysname
  (Hr : length random = 8%nat) :
  length (ns_uuid (deterministic sysname)) = 16%nat ∧
  length (ns_uuid (generate ms random name)) = 16%nat ∧
  generate ms random name ≢ deterministic sysname ∧
  generate ms random name ≢ aliases_ns ∧ generate ms random name ≢ handles_ns.
Proof.
  assert (length (ns_uuid (deterministic sysname)) = 16%nat) as Hlen.
  { cbn [ns_uuid deterministic]. unfold set_bits.
    rewrite !length_alter, length_take, keyed_hash_length. done. }
  assert (uuid_version (ns_uuid (deterministic sysname)) = Some 8) as Hd.
  { cbn [ns_uuid deterministic]. unfold uuid_version at 1. unfold set_bits at 1.
    rewrite list_lookup_alter_ne by done. fold (uuid_version (set_bits (take 16 (keyed_hash (blake3_hash (rs "kappa-namespace-uuid")) sysname)) 6 0x0F 0x80)).
    destruct (lookup_lt_is_Some_2 (take 16 (keyed_hash (blake3_hash (rs "kappa-namespace-uuid")) sysname)) 6) as [b Hb].
    { rewrite length_take, keyed_hash_length. lia. }
    by apply (set_bits_version _ _ Hb). }
  assert (uuid_version (ns_uuid (generate ms random name)) = Some 7) as Hg.
  { cbn [ns_uuid generate]. unfold uuid_version. unfold set_bits at 1.
    rewrite list_lookup_alter_ne, lookup_app_l by (vm_compute; done || lia).
    rewrite lookup_take_lt by lia. unfold set_bits. rewrite list_lookup_alter_eq.
    rewrite lookup_app_r by (rewrite length_drop, length_to_be; lia).
    rewrite length_drop, length_to_be. cbn. f_equal. }
  assert (length (ns_uuid (generate ms random name)) = 16%nat) as Hglen.
  { cbn [ns_uuid generate]. unfold set_bits.
    rewrite length_alter, length_app, length_take, length_alter, length_app, length_drop, length_to_be, Hr.
    done. }
  split_and!; [done|done| | |]; unfold equiv, ns_equiv; intros E; rewrite E in Hg; [congruence|discriminate Hg..].
Qed.

#[export] Instance sample_keyed : KeyedHash := {| keyed_hash _ x := pad_digest 32 x |}.
#[export] Instance sample_keyed_laws : KeyedHashLaws.
Proof.
  split. intros k x. cbn. unfold pad_digest. rewrite length_take, length_app, length_replicate. lia.
Qed.

Lemma generated_namespace_fresh_witness :
  generate 1700000000000 (rs "abcdefgh") (rs "team/app") ≢ deterministic (rs "_root").
Proof.
  apply (generated_namespace_fresh 1700000000000 (rs "abcdefgh") (rs "team/app") (rs "_root")).
  reflexivity.
Defined.
