(* ===== verification/Delta.v ===== *)
(** Delta: the Git-compatible binary delta codec of [kappa-core/src/delta.rs].

    [compute_delta] scans the target against a fingerprint index of the base and
    emits COPY and INSERT instructions; [apply_delta] replays them.  The file
    gives both, the instruction language between them, and the round trip. *)

From S2P Require Import Prelude.

(** * Data *)

Inductive DeltaError :=
| Truncated (what : rstr)
| VarintOverflow
| BaseSizeMismatch (expected got : Z)
| CopyOutOfBounds (offset size base_len : Z)
| ReservedOpcode
| ResultSizeMismatch (expected got : Z).

Definition BLOCK_SIZE : nat := 16.
Definition THRESHOLD_PERCENT : nat := 75.

(** * Varints *)

(** One turn of the loop per seven bits: ten turns cover a [usize]. *)
Fixpoint encode_varint_loop (fuel : nat) (v : Z) : bytes :=
  match fuel with
  | O => []
  | S fuel' =>
      let byte := Z.land v 0x7f in
      let v' := Z.shiftr v 7 in
      if 0 <? v' then z2b (Z.lor byte 0x80) :: encode_varint_loop fuel' v'
      else [z2b byte]
  end.

Definition encode_varint (value : Z) : bytes := encode_varint_loop 10 value.

(** The loop walks [data] from [*pos]; [rest] is what lies from there on. *)
Fixpoint decode_varint_loop (rest : bytes) (pos : nat) (value shift : Z)
  : outcome DeltaError (Z * nat) :=
  match rest with
  | [] => Err (Truncated (rs "varint"))
  | byte :: rest' =>
      let pos := S pos in
      let value := Z.lor value (wrap 64 (Z.shiftl (Z.land (b2z byte) 0x7f) shift)) in
      if Z.land (b2z byte) 0x80 =? 0 then Ok (value, pos)
      else
        let shift := shift + 7 in
        if 63 <? shift then Err VarintOverflow
        else decode_varint_loop rest' pos value shift
  end.

Definition decode_varint (data : bytes) (pos : nat) : outcome DeltaError (Z * nat) :=
  decode_varint_loop (drop pos data) pos 0 0.

(** * Computing a delta *)

Definition fnv1a (block : bytes) : Z :=
  fold_left (λ hash b, wrap 64 (Z.lxor hash (b2z b) * 0x100000001b3)) block 0xcbf29ce484222325.

(** The fingerprint index: every block of the base, offsets in increasing order. *)
Definition index_push (base : bytes) (index : gmap Z (list nat)) (i : nat) : gmap Z (list nat) :=
  let fp := fnv1a (slice base i (i + BLOCK_SIZE)) in
  <[fp := default [] (index !! fp) ++ [i]]> index.

Definition build_index (base : bytes) : gmap Z (list nat) :=
  if (BLOCK_SIZE <=? length base)%nat then
    fold_left (index_push base) (seq 0 (S (length base - BLOCK_SIZE))) ∅
  else ∅.

(** The inner [while]: how far both slices agree. *)
Fixpoint extend_match (b t : bytes) : nat :=
  match b, t with
  | x :: b', y :: t' => if decide (x = y) then S (extend_match b' t') else O
  | _, _ => O
  end.

Definition consider_offset (base target : bytes) (pos : nat) (best : nat * nat) (base_off : nat)
  : nat * nat :=
  let '(best_offset, best_len) := best in
  if decide (slice base base_off (base_off + BLOCK_SIZE) = slice target pos (pos + BLOCK_SIZE)) then
    let len := (BLOCK_SIZE + extend_match (drop (base_off + BLOCK_SIZE) base)
                                          (drop (pos + BLOCK_SIZE) target))%nat in
    if (best_len <? len)%nat then (base_off, len) else (best_offset, best_len)
  else (best_offset, best_len).

Definition best_match (base target : bytes) (index : gmap Z (list nat)) (pos : nat) : nat * nat :=
  if (pos + BLOCK_SIZE <=? length target)%nat then
    let fp := fnv1a (slice target pos (pos + BLOCK_SIZE)) in
    match index !! fp with
    | Some offsets => fold_left (consider_offset base target pos) offsets (O, O)
    | None => (O, O)
    end
  else (O, O).

(** Drain the buffer in runs of at most 127; a turn removes at least one byte. *)
Fixpoint flush_inserts_loop (fuel : nat) (instructions buf : bytes) : bytes :=
  match fuel with
  | O => instructions
  | S fuel' =>
      match buf with
      | [] => instructions
      | _ =>
          let n := Nat.min (length buf) 127 in
          flush_inserts_loop fuel' (instructions ++ z2b (Z.of_nat n) :: take n buf) (drop n buf)
      end
  end.

(** Returns the instructions; the buffer is left empty. *)
Definition flush_inserts (instructions buf : bytes) : bytes :=
  flush_inserts_loop (length buf) instructions buf.

(** [if v & mask != 0 { cmd |= bit; extra.push((v >> shift) & 0xff) }]. *)
Definition push_byte (v mask shift bit : Z) (st : Z * bytes) : Z * bytes :=
  let '(cmd, extra) := st in
  if Z.land v mask =? 0 then (cmd, extra)
  else (Z.lor cmd bit, extra ++ [z2b (Z.land (Z.shiftr v shift) 0xff)]).

Definition emit_copy (instructions : bytes) (offset size : Z) : bytes :=
  let off := wrap 32 offset in
  let st := push_byte off 0xff 0 0x01 (0x80, []) in
  let st := push_byte off 0xff00 8 0x02 st in
  let st := push_byte off 0xff0000 16 0x04 st in
  let st := push_byte off 0xff000000 24 0x08 st in
  let sz := if size =? 0x10000 then 0 else wrap 32 size in
  let st := push_byte sz 0xff 0 0x10 st in
  let st := push_byte sz 0xff00 8 0x20 st in
  let '(cmd, extra) := push_byte sz 0xff0000 16 0x40 st in
  instructions ++ z2b cmd :: extra.

(** The scan; every turn advances [pos], so [length target] turns are enough. *)
Fixpoint scan (fuel : nat) (base target : bytes) (index : gmap Z (list nat))
  (instructions insert_buf : bytes) (pos : nat) : bytes :=
  match fuel with
  | O => flush_inserts instructions insert_buf
  | S fuel' =>
      match target !! pos with
      | None => flush_inserts instructions insert_buf
      | Some b =>
          let '(best_offset, best_len) := best_match base target index pos in
          if (BLOCK_SIZE <=? best_len)%nat then
            let instructions := flush_inserts instructions insert_buf in
            let instructions := emit_copy instructions (Z.of_nat best_offset) (Z.of_nat best_len) in
            scan fuel' base target index instructions [] (pos + best_len)
          else
            let insert_buf := insert_buf ++ [b] in
            if (length insert_buf =? 127)%nat then
              scan fuel' base target index (flush_inserts instructions insert_buf) [] (S pos)
            else scan fuel' base target index instructions insert_buf (S pos)
      end
  end.

Definition compute_delta (base target : bytes) : option bytes :=
  if bool_decide (base = []) || bool_decide (target = [])
     || (length target <? BLOCK_SIZE)%nat then None
  else
    let index := build_index base in
    let instructions := scan (length target) base target index [] [] 0 in
    let delta := encode_varint (zlen base) ++ encode_varint (zlen target) ++ instructions in
    if zlen target * Z.of_nat THRESHOLD_PERCENT / 100 <=? zlen delta then None else Some delta.

(** * Applying a delta *)

(** [if cmd & bit != 0 { acc |= (delta[pos] as usize) << shift; pos += 1 }]. *)
Definition read_arg (delta : bytes) (cmd bit shift : Z) (what : rstr) (st : Z * nat)
  : outcome DeltaError (Z * nat) :=
  let '(acc, pos) := st in
  if Z.land cmd bit =? 0 then Ok (acc, pos)
  else
    b ← ok_or (delta !! pos) (Truncated what);
    Ok (Z.lor acc (Z.shiftl (b2z b) shift), S pos).

(** One instruction at [pos]. *)
Definition apply_step (base delta : bytes) (pos : nat) (cmd : byte) (out : bytes)
  : outcome DeltaError (nat * bytes) :=
  let cmd := b2z cmd in
  let pos := S pos in
  if cmd =? 0 then Err ReservedOpcode
  else if negb (Z.land cmd 0x80 =? 0) then
    st ← read_arg delta cmd 0x01 0 (rs "copy offset") (0, pos);
    st ← read_arg delta cmd 0x02 8 (rs "copy offset") st;
    st ← read_arg delta cmd 0x04 16 (rs "copy offset") st;
    '(offset, pos) ← read_arg delta cmd 0x08 24 (rs "copy offset") st;
    st ← read_arg delta cmd 0x10 0 (rs "copy size") (0, pos);
    st ← read_arg delta cmd 0x20 8 (rs "copy size") st;
    '(size, pos) ← read_arg delta cmd 0x40 16 (rs "copy size") st;
    let size := if size =? 0 then 0x10000 else size in
    if zlen base <? offset + size then Err (CopyOutOfBounds offset size (zlen base))
    else Ok (pos, out ++ slice base (Z.to_nat offset) (Z.to_nat (offset + size)))
  else
    let n := Z.to_nat cmd in
    if (length delta <? pos + n)%nat then Err (Truncated (rs "insert data"))
    else Ok ((pos + n)%nat, out ++ slice delta pos (pos + n)).

(** The instruction loop; a turn consumes at least the opcode.  Running out of
    fuel is a [Panic], which [apply_delta_outcome] excludes. *)
Fixpoint apply_loop (fuel : nat) (base delta : bytes) (pos : nat) (out : bytes)
  : outcome DeltaError bytes :=
  match delta !! pos with
  | None => Ok out
  | Some cmd =>
      match fuel with
      | O => Panic
      | S fuel' =>
          '(pos, out) ← apply_step base delta pos cmd out;
          apply_loop fuel' base delta pos out
      end
  end.

(** [Vec::with_capacity] panics when the capacity exceeds [isize::MAX] bytes. *)
Definition apply_delta (base delta : bytes) : outcome DeltaError bytes :=
  '(base_size, pos) ← decode_varint delta 0;
  '(result_size, pos) ← decode_varint delta pos;
  if negb (zlen base =? base_size) then Err (BaseSizeMismatch base_size (zlen base))
  else if isize_max <? result_size then Panic
  else
    out ← apply_loop (length delta) base delta pos [];
    if negb (zlen out =? result_size) then Err (ResultSizeMismatch result_size (zlen out))
    else Ok out.

(** * Varint round trip *)

Definition low7_facts (x : Z) : bool :=
  (Z.land (Z.lor x 128) 127 =? x) && negb (Z.land (Z.lor x 128) 128 =? 0)
  && (Z.lor x 128 <? 256) && (0 <=? Z.lor x 128) && (Z.land x 127 =? x) && (Z.land x 128 =? 0).

Lemma low7_check x : 0 ≤ x < 128 → low7_facts x = true.
Proof. apply (forall_small 128). vm_compute. reflexivity. Qed.

Lemma land_ones_mod v n : 0 ≤ n → Z.land v (2 ^ n - 1) = v mod 2 ^ n.
Proof. intros. rewrite <- Z.land_ones by done. f_equal. rewrite Z.ones_equiv. lia. Qed.

Lemma land_127 v : Z.land v 127 = v mod 128.
Proof. apply (land_ones_mod v 7). lia. Qed.

Lemma land_255 v : Z.land v 255 = v mod 256.
Proof. apply (land_ones_mod v 8). lia. Qed.

(** Low bits below, high bits above. *)
Lemma lor_split v k s s' : 0 ≤ v → 0 ≤ k → 0 ≤ s → s' = s + k →
  Z.lor (Z.shiftl (v mod 2 ^ k) s) (Z.shiftl (Z.shiftr v k) s') = Z.shiftl v s.
Proof.
  intros Hv Hk Hs ->. apply Z.bits_inj'. intros n Hn.
  rewrite Z.lor_spec, !Z.shiftl_spec by lia.
  destruct (decide (n < s)).
  - rewrite !(Z.testbit_neg_r _ (_ - _)) by lia. done.
  - rewrite Z.testbit_mod_pow2 by lia. destruct (Z.ltb_spec (n - s) k).
    + rewrite (Z.testbit_neg_r _ (n - (s + k))) by lia. by rewrite orb_false_r.
    + rewrite Z.shiftr_spec by lia. simpl. f_equal. lia.
Qed.

Lemma decode_encode_loop fuel v rest pos acc shift :
  0 ≤ v < 2 ^ (7 * Z.of_nat fuel) → (0 < fuel)%nat → 0 ≤ shift → v * 2 ^ shift < 2 ^ 64 →
  decode_varint_loop (encode_varint_loop fuel v ++ rest) pos acc shift
  = Ok (Z.lor acc (Z.shiftl v shift), (pos + length (encode_varint_loop fuel v))%nat).
Proof.
  revert v pos acc shift.
  induction fuel as [|fuel IH]; intros v pos acc shift Hv Hf Hs Hov; [lia|].
  cbn [encode_varint_loop]. cbv zeta.
  assert (0 ≤ v mod 128 < 128) as Hlow by (apply Z.mod_pos_bound; lia).
  pose proof (low7_check _ Hlow) as Hc. unfold low7_facts in Hc.
  repeat match type of Hc with _ && _ = true => apply andb_prop in Hc as [Hc ?] end.
  pose proof (Z.pow_pos_nonneg 2 shift ltac:(lia) Hs) as Hp.
  assert (v mod 128 ≤ v) as Hle by (apply Z.mod_le; lia).
  assert (wrap 64 (Z.shiftl (v mod 128) shift) = Z.shiftl (v mod 128) shift) as Hw.
  { unfold wrap. rewrite Z.shiftl_mul_pow2 by done. apply Z.mod_small. nia. }
  assert (Z.shiftr v 7 = v / 128) as Hsh by (by rewrite Z.shiftr_div_pow2).
  rewrite land_127. destruct (Z.ltb_spec 0 (Z.shiftr v 7)) as [Hv'|Hv'].
  - cbn [app decode_varint_loop]. rewrite b2z_z2b_small by lia.
    replace (Z.land (Z.lor (v mod 128) 128) 127) with (v mod 128) by lia. rewrite Hw.
    destruct (Z.eqb_spec (Z.land (Z.lor (v mod 128) 128) 128) 0); [lia|].
    assert (shift + 7 ≤ 63).
    { destruct (decide (shift + 7 ≤ 63)) as [|Hgt]; [done|]. exfalso.
      assert (128 ≤ v) by (rewrite Hsh in Hv'; pose proof (Z.mul_div_le v 128); lia).
      assert (2 ^ 57 ≤ 2 ^ shift) by (apply Z.pow_le_mono_r; lia).
      change (2 ^ 64) with (128 * 2 ^ 57) in Hov. nia. }
    destruct (Z.ltb_spec 63 (shift + 7)); [lia|].
    rewrite IH; [..|lia|].
    + f_equal. f_equal; [|cbn [length]; lia].
      rewrite <- Z.lor_assoc. f_equal.
      change 128 with (2 ^ 7). apply lor_split; lia.
    + rewrite Hsh. split; [apply Z.div_pos; lia|]. apply Z.div_lt_upper_bound; [lia|].
      rewrite Nat2Z.inj_succ in Hv. replace (7 * Z.succ (Z.of_nat fuel)) with (7 + 7 * Z.of_nat fuel) in Hv by lia.
      rewrite Z.pow_add_r in Hv by lia. change (2 ^ 7) with 128 in Hv. lia.
    + destruct fuel; [|lia]. change (2 ^ (7 * Z.of_nat 1)) with 128 in Hv.
      rewrite Hsh, Z.div_small in Hv' by lia. lia.
    + rewrite Hsh, Z.pow_add_r by lia. change (2 ^ 7) with 128.
      pose proof (Z.mul_div_le v 128 ltac:(lia)). nia.
  - assert (v mod 128 = v) as Hv128.
    { apply Z.mod_small. rewrite Hsh in Hv'. split; [lia|].
      destruct (decide (v < 128)); [done|]. pose proof (Z.div_le_lower_bound v 128 1). lia. }
    cbn [app decode_varint_loop]. rewrite b2z_z2b_small by lia.
    replace (Z.land (v mod 128) 127) with (v mod 128) by lia. rewrite Hw, Hv128.
    rewrite <- Hv128 at 1. destruct (Z.eqb_spec (Z.land (v mod 128) 128) 0); [|lia].
    f_equal. f_equal. cbn [length]. lia.
Qed.

Lemma decode_varint_encode pre v rest :
  0 ≤ v < 2 ^ 64 →
  decode_varint (pre ++ encode_varint v ++ rest) (length pre)
  = Ok (v, length (pre ++ encode_varint v)).
Proof.
  intros Hv. unfold decode_varint. rewrite drop_app_length.
  unfold encode_varint. rewrite decode_encode_loop.
  - rewrite Z.lor_0_l, Z.shiftl_0_r, length_app. done.
  - split; [lia|]. transitivity (2 ^ 64); [lia|done].
  - lia.
  - done.
  - rewrite Z.pow_0_r. lia.
Qed.

(** * The instruction language *)

Inductive instr :=
| ICopy (offset size : nat)
| IInsert (literal : bytes).

Definition encode_instr (i : instr) : bytes :=
  match i with
  | ICopy o n => emit_copy [] (Z.of_nat o) (Z.of_nat n)
  | IInsert lit => z2b (zlen lit) :: lit
  end.

(** What replaying an instruction appends to the output. *)
Definition run_instr (base : bytes) (i : instr) : bytes :=
  match i with
  | ICopy o n => slice base o (o + n)
  | IInsert lit => lit
  end.

(** The instructions the wire format can carry: a 32-bit offset, a non-zero
    24-bit size, at most 127 literal bytes. *)
Definition instr_ok (base : bytes) (i : instr) : Prop :=
  match i with
  | ICopy o n => (o + n ≤ length base)%nat ∧ 0 < Z.of_nat n < 2 ^ 24 ∧ Z.of_nat o < 2 ^ 32
  | IInsert lit => (0 < length lit ≤ 127)%nat
  end.

Definition encode_instrs (l : list instr) : bytes := concat (encode_instr <$> l).
Definition run_instrs (base : bytes) (l : list instr) : bytes := concat (run_instr base <$> l).

Lemma encode_instrs_app l1 l2 : encode_instrs (l1 ++ l2) = encode_instrs l1 ++ encode_instrs l2.
Proof. unfold encode_instrs. by rewrite fmap_app, concat_app. Qed.

Lemma run_instrs_app base l1 l2 :
  run_instrs base (l1 ++ l2) = run_instrs base l1 ++ run_instrs base l2.
Proof. unfold run_instrs. by rewrite fmap_app, concat_app. Qed.

Lemma emit_copy_app ins o n : emit_copy ins o n = ins ++ emit_copy [] o n.
Proof. unfold emit_copy. by destruct (push_byte _ 0xff0000 16 0x40 _). Qed.

(** The byte of [v] at [shift], and its encoding: absent when zero. *)
Definition byte_at (v shift : Z) : Z := Z.land (Z.shiftr v shift) 0xff.
Definition arg_bytes (v shift : Z) : bytes :=
  if byte_at v shift =? 0 then [] else [z2b (byte_at v shift)].
Definition arg_bit (v shift bit : Z) : Z := if byte_at v shift =? 0 then 0 else bit.

Lemma byte_at_range v shift : 0 ≤ byte_at v shift < 256.
Proof. unfold byte_at. rewrite land_255. apply Z.mod_pos_bound. lia. Qed.

Lemma land_mask_byte v shift : 0 ≤ shift →
  Z.land v (Z.shiftl 0xff shift) = Z.shiftl (byte_at v shift) shift.
Proof.
  intros Hs. apply Z.bits_inj'. intros n Hn. unfold byte_at.
  rewrite Z.land_spec, !Z.shiftl_spec by lia.
  destruct (decide (n < shift)).
  - rewrite !(Z.testbit_neg_r _ (n - shift)) by lia. apply andb_false_r.
  - rewrite Z.land_spec, Z.shiftr_spec by lia. by replace (n - shift + shift) with n by lia.
Qed.

Lemma push_byte_spec v mask shift bit cmd extra :
  0 ≤ shift → mask = Z.shiftl 0xff shift →
  push_byte v mask shift bit (cmd, extra)
  = (Z.lor cmd (arg_bit v shift bit), extra ++ arg_bytes v shift).
Proof.
  intros Hs ->. unfold push_byte, arg_bit, arg_bytes. rewrite land_mask_byte by done.
  fold (byte_at v shift).
  assert ((Z.shiftl (byte_at v shift) shift =? 0) = (byte_at v shift =? 0)) as ->.
  { apply eq_iff_eq_true. rewrite !Z.eqb_eq, Z.shiftl_eq_0_iff by lia. done. }
  destruct (byte_at v shift =? 0); [|done]. by rewrite Z.lor_0_r, app_nil_r.
Qed.

(** The opcode of a copy, from which bytes of the arguments are non-zero. *)
Definition copy_cmd (off sz : Z) : Z :=
  Z.lor (Z.lor (Z.lor (Z.lor (Z.lor (Z.lor (Z.lor 0x80
    (arg_bit off 0 0x01)) (arg_bit off 8 0x02)) (arg_bit off 16 0x04)) (arg_bit off 24 0x08))
    (arg_bit sz 0 0x10)) (arg_bit sz 8 0x20)) (arg_bit sz 16 0x40).

Definition stored_size (size : Z) : Z := if size =? 0x10000 then 0 else wrap 32 size.

Lemma emit_copy_spec offset size :
  let off := wrap 32 offset in let sz := stored_size size in
  emit_copy [] offset size =
  z2b (copy_cmd off sz) ::
    arg_bytes off 0 ++ arg_bytes off 8 ++ arg_bytes off 16 ++ arg_bytes off 24 ++
    arg_bytes sz 0 ++ arg_bytes sz 8 ++ arg_bytes sz 16.
Proof.
  cbv zeta. unfold emit_copy. fold (stored_size size).
  rewrite !push_byte_spec by done. cbn [app]. by rewrite <- !app_assoc.
Qed.

Definition cmd_bit_facts (cmd : Z) (l : list (Z * Z)) : bool :=
  (0 <? cmd) && (cmd <? 256) && negb (Z.land cmd 0x80 =? 0)
  && forallb (λ '(bit, a), Bool.eqb (Z.land cmd bit =? 0) (a =? 0)) l.

Lemma copy_cmd_bits off sz :
  cmd_bit_facts (copy_cmd off sz)
    [(0x01, arg_bit off 0 0x01); (0x02, arg_bit off 8 0x02); (0x04, arg_bit off 16 0x04);
     (0x08, arg_bit off 24 0x08); (0x10, arg_bit sz 0 0x10); (0x20, arg_bit sz 8 0x20);
     (0x40, arg_bit sz 16 0x40)] = true.
Proof.
  unfold copy_cmd, arg_bit.
  repeat match goal with |- context [if ?b then _ else _] => destruct b end; reflexivity.
Qed.

(** Reading an argument byte back: skipped exactly when it is zero. *)
Lemma read_arg_spec pre v shift rest cmd bit what acc :
  (Z.land cmd bit =? 0) = (byte_at v shift =? 0) →
  read_arg (pre ++ arg_bytes v shift ++ rest) cmd bit shift what (acc, length pre)
  = Ok (Z.lor acc (Z.shiftl (byte_at v shift) shift), length (pre ++ arg_bytes v shift)).
Proof.
  intros Hb. unfold read_arg, arg_bytes. rewrite Hb.
  destruct (Z.eqb_spec (byte_at v shift) 0) as [->|_].
  - by rewrite Z.shiftl_0_l, Z.lor_0_r, app_nil_r.
  - cbn [app]. rewrite list_lookup_middle by done. osimpl.
    rewrite b2z_z2b_small by apply byte_at_range.
    rewrite length_app. simpl. by rewrite Nat.add_1_r.
Qed.

Lemma bytes24 v : 0 ≤ v < 2 ^ 24 →
  Z.lor (Z.lor (Z.shiftl (byte_at v 0) 0) (Z.shiftl (byte_at v 8) 8)) (Z.shiftl (byte_at v 16) 16) = v.
Proof.
  intros Hv. unfold byte_at. rewrite !land_255, Z.shiftr_0_r. change 256 with (2 ^ 8).
  rewrite <- Z.lor_assoc.
  rewrite (Z.mod_small (Z.shiftr v 16)).
  - replace (Z.shiftr v 16) with (Z.shiftr (Z.shiftr v 8) 8) by (by rewrite Z.shiftr_shiftr).
    rewrite (lor_split (Z.shiftr v 8) 8 8 16); [|apply Z.shiftr_nonneg; lia|lia..].
    rewrite (lor_split v 8 0 8) by lia. by rewrite Z.shiftl_0_r.
  - rewrite Z.shiftr_div_pow2 by lia. split; [apply Z.div_pos; lia|].
    apply Z.div_lt_upper_bound; [lia|]. change (2 ^ 16 * 2 ^ 8) with (2 ^ 24). lia.
Qed.

Lemma bytes32 v : 0 ≤ v < 2 ^ 32 →
  Z.lor (Z.lor (Z.lor (Z.shiftl (byte_at v 0) 0) (Z.shiftl (byte_at v 8) 8))
    (Z.shiftl (byte_at v 16) 16)) (Z.shiftl (byte_at v 24) 24) = v.
Proof.
  intros Hv. unfold byte_at. rewrite !land_255, Z.shiftr_0_r. change 256 with (2 ^ 8).
  rewrite <- !Z.lor_assoc.
  rewrite (Z.mod_small (Z.shiftr v 24)).
  - replace (Z.shiftr v 24) with (Z.shiftr (Z.shiftr v 16) 8) by (by rewrite Z.shiftr_shiftr).
    rewrite (lor_split (Z.shiftr v 16) 8 16 24); [|apply Z.shiftr_nonneg; lia|lia..].
    replace (Z.shiftr v 16) with (Z.shiftr (Z.shiftr v 8) 8) by (by rewrite Z.shiftr_shiftr).
    rewrite (lor_split (Z.shiftr v 8) 8 8 16); [|apply Z.shiftr_nonneg; lia|lia..].
    rewrite (lor_split v 8 0 8) by lia. by rewrite Z.shiftl_0_r.
  - rewrite Z.shiftr_div_pow2 by lia. split; [apply Z.div_pos; lia|].
    apply Z.div_lt_upper_bound; [lia|]. change (2 ^ 24 * 2 ^ 8) with (2 ^ 32). lia.
Qed.

Lemma read_arg_at delta pre v shift rest cmd bit what acc :
  delta = pre ++ arg_bytes v shift ++ rest →
  Bool.eqb (Z.land cmd bit =? 0) (arg_bit v shift bit =? 0) = true → bit ≠ 0 →
  read_arg delta cmd bit shift what (acc, length pre)
  = Ok (Z.lor acc (Z.shiftl (byte_at v shift) shift), length (pre ++ arg_bytes v shift)).
Proof.
  intros -> Hb%eqb_prop Hbit. apply read_arg_spec. rewrite Hb. unfold arg_bit.
  destruct (byte_at v shift =? 0); [done|]. by apply Z.eqb_neq.
Qed.

(** * Replaying encoded instructions *)

Lemma stored_size_spec n : 0 < n < 2 ^ 24 →
  0 ≤ stored_size n < 2 ^ 24 ∧ (if stored_size n =? 0 then 0x10000 else stored_size n) = n.
Proof.
  intros Hn. unfold stored_size. destruct (Z.eqb_spec n 0x10000) as [->|]; [done|].
  unfold wrap. rewrite Z.mod_small by lia. rewrite (proj2 (Z.eqb_neq _ _)) by lia. lia.
Qed.

Lemma apply_step_copy base pre o n rest out :
  instr_ok base (ICopy o n) →
  let delta := pre ++ emit_copy [] (Z.of_nat o) (Z.of_nat n) ++ rest in
  ∃ cmd, delta !! length pre = Some cmd ∧
    apply_step base delta (length pre) cmd out
    = Ok (length (pre ++ emit_copy [] (Z.of_nat o) (Z.of_nat n)), out ++ slice base o (o + n)).
Proof.
  intros (Hlen & Hn & Ho) delta. subst delta. rewrite emit_copy_spec.
  set (off := wrap 32 _). set (sz := stored_size _).
  assert (off = Z.of_nat o) as Hoff by (apply Z.mod_small; lia).
  assert (0 ≤ off < 2 ^ 32) as Hoffr by lia.
  destruct (stored_size_spec (Z.of_nat n) Hn) as [Hsz Hn']. fold sz in Hsz, Hn'.
  clearbody off sz.
  pose proof (copy_cmd_bits off sz) as Hc. unfold cmd_bit_facts in Hc.
  cbn [forallb] in Hc. rewrite !andb_true_iff in Hc.
  destruct Hc as (((Hc0%Z.ltb_lt & Hc1%Z.ltb_lt) & Hcopy) & B0 & B1 & B2 & B3 & B4 & B5 & B6 & _).
  exists (z2b (copy_cmd off sz)). cbn [app]. split; [by apply list_lookup_middle|].
  unfold apply_step. cbv zeta. rewrite b2z_z2b_small by lia.
  rewrite (proj2 (Z.eqb_neq _ _)) by lia. rewrite Hcopy.
  replace (S (length pre)) with (length (pre ++ [z2b (copy_cmd off sz)]))
    by (rewrite length_app; simpl; lia).
  assert (∃ delta, delta = pre ++ z2b (copy_cmd off sz) ::
    (arg_bytes off 0 ++ arg_bytes off 8 ++ arg_bytes off 16 ++ arg_bytes off 24 ++
     arg_bytes sz 0 ++ arg_bytes sz 8 ++ arg_bytes sz 16) ++ rest) as (delta & Hd) by eauto.
  rewrite <- Hd. rewrite (cons_middle _ pre), app_assoc, <- !app_assoc in Hd.
  erewrite read_arg_at; [|rewrite Hd, <- !app_assoc; reflexivity|done|done]. osimpl.
  erewrite read_arg_at; [|rewrite Hd, <- !app_assoc; reflexivity|done|done]. osimpl.
  erewrite read_arg_at; [|rewrite Hd, <- !app_assoc; reflexivity|done|done]. osimpl.
  erewrite read_arg_at; [|rewrite Hd, <- !app_assoc; reflexivity|done|done]. osimpl.
  erewrite read_arg_at; [|rewrite Hd, <- !app_assoc; reflexivity|done|done]. osimpl.
  erewrite read_arg_at; [|rewrite Hd, <- !app_assoc; reflexivity|done|done]. osimpl.
  erewrite read_arg_at; [|rewrite Hd, <- !app_assoc; reflexivity|done|done]. osimpl.
  clear B0 B1 B2 B3 B4 B5 B6 Hd Hcopy. rewrite !Z.lor_0_l, bytes32, bytes24 by done. rewrite Hn', Hoff. rewrite (proj2 (Z.ltb_ge _ _)) by lia.
  rewrite <- Nat2Z.inj_add, !Nat2Z.id. f_equal. f_equal.
  clear. rewrite !length_app. cbn [length]. rewrite !length_app. lia.
Qed.

Lemma apply_step_insert base pre lit rest out :
  instr_ok base (IInsert lit) →
  let delta := pre ++ (z2b (zlen lit) :: lit) ++ rest in
  apply_step base delta (length pre) (z2b (zlen lit)) out
  = Ok (length (pre ++ z2b (zlen lit) :: lit), out ++ lit).
Proof.
  intros Hl delta. cbn in Hl. unfold apply_step. cbv zeta. rewrite b2z_z2b_small by lia.
  rewrite (proj2 (Z.eqb_neq _ _)) by lia.
  assert (low7_facts (zlen lit) = true) as Hc by (apply low7_check; lia).
  unfold low7_facts in Hc. rewrite !andb_true_iff in Hc. destruct Hc as [_ ->]. cbn [negb].
  rewrite Nat2Z.id. subst delta.
  rewrite (proj2 (Nat.ltb_ge _ _)) by (rewrite !length_app; cbn [length]; lia).
  f_equal. f_equal; [rewrite !length_app; cbn [length]; lia|].
  f_equal. unfold slice. cbn [app]. rewrite drop_middle.
  replace (S (length pre) + length lit - S (length pre))%nat with (length lit) by lia.
  apply take_app_length.
Qed.

Lemma apply_step_instr base pre i rest out :
  instr_ok base i →
  let delta := pre ++ encode_instr i ++ rest in
  ∃ cmd, delta !! length pre = Some cmd ∧
    apply_step base delta (length pre) cmd out
    = Ok (length (pre ++ encode_instr i), out ++ run_instr base i).
Proof.
  destruct i as [o n|lit]; intros Hok; [by apply apply_step_copy|].
  exists (z2b (zlen lit)). split; [by apply list_lookup_middle|by apply apply_step_insert].
Qed.

Lemma apply_loop_instrs base l fuel pre out :
  Forall (instr_ok base) l → (length l ≤ fuel)%nat →
  apply_loop fuel base (pre ++ encode_instrs l) (length pre) out = Ok (out ++ run_instrs base l).
Proof.
  intros Hl. revert fuel pre out. induction Hl as [|i l Hi Hl IH]; intros fuel pre out Hf.
  - unfold encode_instrs, run_instrs. cbn [fmap list_fmap concat]. rewrite !app_nil_r.
    destruct fuel; cbn [apply_loop]; by rewrite lookup_ge_None_2.
  - destruct fuel as [|fuel]; [simpl in Hf; lia|].
    change (encode_instrs (i :: l)) with (encode_instr i ++ encode_instrs l).
    change (run_instrs base (i :: l)) with (run_instr base i ++ run_instrs base l).
    destruct (apply_step_instr base pre i (encode_instrs l) out Hi) as (cmd & Hcmd & Hstep).
    cbn [apply_loop]. rewrite Hcmd, Hstep. osimpl.
    rewrite (app_assoc pre), IH by (simpl in Hf; lia). by rewrite app_assoc.
Qed.

Lemma length_encode_instrs l : (length l ≤ length (encode_instrs l))%nat.
Proof.
  induction l as [|i l IH]; [done|].
  change (encode_instrs (i :: l)) with (encode_instr i ++ encode_instrs l).
  rewrite length_app. enough (0 < length (encode_instr i))%nat by (simpl; lia).
  destruct i as [o n|]; cbn [encode_instr length]; [rewrite emit_copy_spec; cbn [length]|]; lia.
Qed.

(** * What the encoder emits *)

Lemma slice_length (l : bytes) i n : (i + n ≤ length l)%nat → length (slice l i (i + n)) = n.
Proof. intros. unfold slice. rewrite length_take, length_drop. lia. Qed.

Lemma slice_split (l : bytes) i n m :
  slice l i (i + (n + m)) = slice l i (i + n) ++ take m (drop (i + n) l).
Proof.
  unfold slice. replace (i + (n + m) - i)%nat with (n + m)%nat by lia.
  replace (i + n - i)%nat with n by lia.
  by rewrite <- take_take_drop, drop_drop.
Qed.

Lemma extend_match_spec b t : take (extend_match b t) b = take (extend_match b t) t
  ∧ (extend_match b t ≤ length b)%nat ∧ (extend_match b t ≤ length t)%nat.
Proof.
  revert t. induction b as [|x b IH]; intros [|y t]; cbn [extend_match]; [split_and!; simpl; lia || done..|].
  case_decide as E; [|split_and!; simpl; lia || done]. subst.
  destruct (IH t) as (H1 & H2 & H3). simpl. rewrite H1. split_and!; [done|lia..].
Qed.

(** A match found: equal slices of base and target, both in range. *)
Definition match_ok (base target : bytes) (pos : nat) (m : nat * nat) : Prop :=
  (fst m + snd m ≤ length base)%nat ∧ (pos + snd m ≤ length target)%nat ∧
  slice base (fst m) (fst m + snd m) = slice target pos (pos + snd m).

Lemma consider_offset_ok base target pos best o :
  (o + BLOCK_SIZE ≤ length base)%nat → (pos + BLOCK_SIZE ≤ length target)%nat →
  (snd best = O ∨ match_ok base target pos best) →
  let best' := consider_offset base target pos best o in
  snd best' = O ∨ match_ok base target pos best'.
Proof.
  destruct best as [bo bl]. intros Ho Hp Hb. unfold consider_offset.
  case_decide as E; [|done].
  destruct (_ <? _)%nat; [|done]. right. unfold match_ok. cbn [fst snd].
  destruct (extend_match_spec (drop (o + BLOCK_SIZE) base) (drop (pos + BLOCK_SIZE) target))
    as (H1 & H2 & H3). rewrite !length_drop in H2, H3.
  split_and!; [lia..|]. by rewrite !slice_split, E, H1.
Qed.

Definition index_ok (base : bytes) (index : gmap Z (list nat)) : Prop :=
  ∀ fp offs o, index !! fp = Some offs → o ∈ offs → (o + BLOCK_SIZE ≤ length base)%nat.

Lemma build_index_ok base : index_ok base (build_index base).
Proof.
  unfold build_index. destruct (Nat.leb_spec BLOCK_SIZE (length base)); [|by intros ???].
  assert (∀ l ix, index_ok base ix → (∀ i, i ∈ l → (i + BLOCK_SIZE ≤ length base)%nat) →
    index_ok base (fold_left (index_push base) l ix)) as Hf.
  { induction l as [|i l IH]; intros ix Hix Hl; [done|]. cbn [fold_left]. apply IH; [|set_solver].
    intros fp offs o. unfold index_push. rewrite lookup_insert_Some.
    intros [[<- <-]|[_ Hfp]] Ho; [|by eapply Hix].
    apply elem_of_app in Ho as [Ho|Ho]; [|set_solver].
    destruct (ix !! _) as [offs|] eqn:E; [by eapply Hix|]. by apply elem_of_nil in Ho. }
  apply Hf; [by intros ???|]. intros i Hi%elem_of_seq. lia.
Qed.

Lemma best_match_ok base target index pos :
  index_ok base index →
  snd (best_match base target index pos) = O ∨
  match_ok base target pos (best_match base target index pos).
Proof.
  intros Hix. unfold best_match.
  destruct (Nat.leb_spec (pos + BLOCK_SIZE) (length target)) as [Hp|]; [|by left].
  destruct (index !! _) as [offs|] eqn:E; [|by left].
  assert (∀ o, o ∈ offs → (o + BLOCK_SIZE ≤ length base)%nat) as Ho by eauto.
  clear E. assert (∀ best, snd best = O ∨ match_ok base target pos best →
    snd (fold_left (consider_offset base target pos) offs best) = O ∨
    match_ok base target pos (fold_left (consider_offset base target pos) offs best)) as Hf.
  { induction offs as [|o offs IH]; intros best Hb; [done|]. cbn [fold_left].
    apply IH; [set_solver|]. apply consider_offset_ok; [set_solver|done|done]. }
  apply Hf. by left.
Qed.

Lemma flush_inserts_instrs base ins buf :
  ∃ l, flush_inserts ins buf = ins ++ encode_instrs l ∧
       Forall (instr_ok base) l ∧ run_instrs base l = buf.
Proof.
  unfold flush_inserts.
  assert (∀ fuel ins buf, (length buf ≤ fuel)%nat → ∃ l,
    flush_inserts_loop fuel ins buf = ins ++ encode_instrs l ∧
    Forall (instr_ok base) l ∧ run_instrs base l = buf) as Hf; [|by apply Hf].
  induction fuel as [|fuel IH]; intros ins' [|b buf'] Hl; simpl in Hl;
    [exists []; by rewrite app_nil_r|lia|exists []; by rewrite app_nil_r|].
  cbn [flush_inserts_loop]. set (n := Nat.min _ 127).
  assert (0 < n ≤ 127)%nat as Hn by (subst n; simpl; lia).
  assert (n ≤ length (b :: buf'))%nat as Hn' by (subst n; lia). clearbody n.
  destruct (IH (ins' ++ z2b (Z.of_nat n) :: take n (b :: buf')) (drop n (b :: buf')))
    as (l & -> & Hok & Hrun).
  { rewrite length_drop. simpl. lia. }
  assert (length (take n (b :: buf')) = n) as Ht by (rewrite length_take; lia).
  exists (IInsert (take n (b :: buf')) :: l). split_and!.
  - change (encode_instrs (?i :: l)) with (encode_instr i ++ encode_instrs l).
    cbn [encode_instr]. by rewrite Ht, <- app_assoc.
  - constructor; [|done]. cbn [instr_ok]. lia.
  - change (run_instrs base (?i :: l)) with (run_instr base i ++ run_instrs base l).
    rewrite Hrun. apply take_drop.
Qed.

(** The sizes the copy instruction can carry. *)
Definition delta_sized (base target : bytes) : Prop :=
  zlen base < 2 ^ 32 ∧ Z.min (zlen base) (zlen target) < 2 ^ 24.

Lemma drop_snoc_lookup (l : bytes) i b buf :
  l !! i = Some b → (buf ++ [b]) ++ drop (S i) l = buf ++ drop i l.
Proof. intros Hb. by rewrite <- app_assoc, (drop_S _ _ _ Hb). Qed.

Lemma scan_instrs base target index fuel ins buf pos :
  delta_sized base target → index_ok base index → (length target - pos ≤ fuel)%nat →
  ∃ l, scan fuel base target index ins buf pos = ins ++ encode_instrs l ∧
       Forall (instr_ok base) l ∧ run_instrs base l = buf ++ drop pos target.
Proof.
  intros [Hs1 Hs2] Hix.
  assert (∀ ins buf pos, (length target ≤ pos)%nat → ∃ l,
    flush_inserts ins buf = ins ++ encode_instrs l ∧
    Forall (instr_ok base) l ∧ run_instrs base l = buf ++ drop pos target) as Hend.
  { intros ins' buf' pos' Hp. rewrite drop_ge, app_nil_r by done. apply flush_inserts_instrs. }
  revert ins buf pos. induction fuel as [|fuel IH]; intros ins buf pos Hf; [apply Hend; lia|].
  cbn [scan]. destruct (target !! pos) as [b|] eqn:Hb; [|apply Hend; by apply lookup_ge_None].
  pose proof (lookup_lt_Some _ _ _ Hb) as Hpos.
  destruct (best_match base target index pos) as [bo bl] eqn:Hbest.
  pose proof (best_match_ok base target index pos Hix) as Hok. rewrite Hbest in Hok.
  destruct (Nat.leb_spec BLOCK_SIZE bl) as [Hbl|_].
  - destruct Hok as [Hz|(Hm1 & Hm2 & Hm3)]; unfold BLOCK_SIZE in *; cbn [fst snd] in *; [lia|].
    destruct (flush_inserts_instrs base ins buf) as (l1 & -> & Hok1 & Hrun1).
    rewrite emit_copy_app.
    destruct (IH ((ins ++ encode_instrs l1) ++ emit_copy [] (Z.of_nat bo) (Z.of_nat bl)) [] (pos + bl)%nat)
      as (l2 & -> & Hok2 & Hrun2); [lia|].
    exists (l1 ++ ICopy bo bl :: l2). rewrite encode_instrs_app, run_instrs_app.
    change (encode_instrs (?i :: l2)) with (encode_instr i ++ encode_instrs l2).
    change (run_instrs base (?i :: l2)) with (run_instr base i ++ run_instrs base l2).
    split_and!.
    + cbn [encode_instr]. by rewrite <- !app_assoc.
    + apply Forall_app. split; [done|]. constructor; [|done]. cbn [instr_ok]. lia.
    + rewrite Hrun1, Hrun2. cbn [run_instr app]. rewrite Hm3. f_equal. unfold slice.
      replace (pos + bl - pos)%nat with bl by lia. rewrite <- (drop_drop _ bl pos). apply take_drop.
  - destruct (_ =? _)%nat.
    + destruct (flush_inserts_instrs base ins (buf ++ [b])) as (l1 & -> & Hok1 & Hrun1).
      destruct (IH (ins ++ encode_instrs l1) [] (S pos)) as (l2 & -> & Hok2 & Hrun2); [lia|].
      exists (l1 ++ l2). rewrite encode_instrs_app, run_instrs_app, Hrun1, Hrun2.
      split_and!; [by rewrite app_assoc|by apply Forall_app|by apply drop_snoc_lookup].
    + destruct (IH ins (buf ++ [b]) (S pos)) as (l2 & -> & Hok2 & Hrun2); [lia|].
      exists l2. split_and!; [done..|]. rewrite Hrun2. by apply drop_snoc_lookup.
Qed.

Lemma apply_delta_instrs base l :
  Forall (instr_ok base) l → zlen base < 2 ^ 64 → zlen (run_instrs base l) ≤ isize_max →
  apply_delta base (encode_varint (zlen base) ++ encode_varint (zlen (run_instrs base l))
                    ++ encode_instrs l) = Ok (run_instrs base l).
Proof.
  intros Hok Hb Ht. unfold apply_delta, isize_max in *.
  pose proof (decode_varint_encode [] (zlen base)
    (encode_varint (zlen (run_instrs base l)) ++ encode_instrs l) ltac:(lia)) as E.
  cbn [app length] in E. rewrite E. osimpl.
  rewrite decode_varint_encode by lia. osimpl.
  rewrite Z.eqb_refl. cbn [negb]. rewrite (proj2 (Z.ltb_ge _ _)) by done.
  rewrite app_assoc, apply_loop_instrs; [|done|].
  - osimpl. cbn [app]. by rewrite Z.eqb_refl.
  - etransitivity; [apply length_encode_instrs|]. rewrite !length_app. lia.
Qed.

Lemma compute_delta_instrs base target d :
  delta_sized base target → compute_delta base target = Some d →
  ∃ l, d = encode_varint (zlen base) ++ encode_varint (zlen target) ++ encode_instrs l ∧
       Forall (instr_ok base) l ∧ run_instrs base l = target.
Proof.
  intros Hs. unfold compute_delta. destruct (_ || _); [done|].
  destruct (scan_instrs base target (build_index base) (length target) [] [] 0)
    as (l & -> & Hok & Hrun); [done|apply build_index_ok|lia|].
  destruct (_ <=? _); [done|]. intros [= <-]. exists l. cbn [app] in *. by rewrite drop_0 in Hrun.
Qed.

(** * Properties *)

(** C11: replaying the delta [compute_delta] produced against its base gives the
    target back, for a base under 4 GiB and a base or target under 16 MiB (the
    widths of a COPY instruction's offset and size). *)
Theorem delta_roundtrip base target d
  (Hs : delta_sized base target) (Ht : zlen target ≤ isize_max)
  (Hd : compute_delta base target = Some d) :
  apply_delta base d = Ok target.
Proof.
  destruct (compute_delta_instrs _ _ _ Hs Hd) as (l & -> & Hok & <-).
  destruct Hs. apply apply_delta_instrs; [done|lia|done].
Qed.

Lemma delta_roundtrip_witness :
  apply_delta (rs "the quick brown fox jumps over the lazy dog")
    (default [] (compute_delta (rs "the quick brown fox jumps over the lazy dog")
       (rs "that quick brown fox jumps over the lazy dog!")))
  = Ok (rs "that quick brown fox jumps over the lazy dog!").
Proof.
  apply delta_roundtrip; [|vm_compute; discriminate|vm_compute; reflexivity].
  split; vm_compute; reflexivity.
Defined.

(** Reading never moves the cursor back. *)
Lemma read_arg_pos delta cmd bit shift what st r :
  read_arg delta cmd bit shift what st = Ok r → (snd st ≤ snd r)%nat.
Proof.
  destruct st as [acc pos]. unfold read_arg. destruct (_ =? 0); intros H; inv_ok; simpl; lia.
Qed.

Lemma read_arg_no_panic delta cmd bit shift what st :
  read_arg delta cmd bit shift what st ≠ Panic.
Proof. destruct st. unfold read_arg. destruct (_ =? 0); [done|]. by destruct (delta !! n). Qed.

Lemma apply_step_progress base delta pos cmd out :
  match apply_step base delta pos cmd out with
  | Ok (pos', out') => (pos < pos')%nat ∧ ∃ tail, out' = out ++ tail
  | Err _ => True
  | Panic => False
  end.
Proof.
  unfold apply_step. destruct (_ =? 0); [done|]. destruct (negb _).
  - repeat match goal with
    | |- context [read_arg ?d ?c ?b ?s ?w ?st] =>
        let E := fresh "E" in
        pose proof (read_arg_no_panic d c b s w st);
        destruct (read_arg d c b s w st) as [[]| |] eqn:E; osimpl; [apply read_arg_pos in E|done|done]
    end.
    destruct (_ <? _); [done|]. simpl in *. split; [lia|eauto].
  - destruct (_ <? _)%nat; [done|]. split; [lia|eauto].
Qed.

Lemma apply_loop_no_panic base delta fuel pos out :
  (length delta - pos ≤ fuel)%nat → apply_loop fuel base delta pos out ≠ Panic.
Proof.
  revert pos out. induction fuel as [|fuel IH]; intros pos out Hf; cbn [apply_loop];
    destruct (delta !! pos) as [cmd|] eqn:E; try done; apply lookup_lt_Some in E; [lia|].
  pose proof (apply_step_progress base delta pos cmd out) as Hp.
  destruct (apply_step base delta pos cmd out) as [[pos' out']| |]; [|done|done].
  osimpl. apply IH. lia.
Qed.

Lemma decode_varint_no_panic data pos : decode_varint data pos ≠ Panic.
Proof.
  unfold decode_varint. generalize (drop pos data) as l. intros l.
  enough (∀ pos v s, decode_varint_loop l pos v s ≠ Panic) by done. clear pos.
  induction l as [|b l IH]; intros pos v s; cbn [decode_varint_loop]; [done|].
  destruct (_ =? 0); [done|]. destruct (_ <? _); [done|]. apply IH.
Qed.

(** [apply_delta] on any base and any delta terminates with a result of
    exactly the declared size or with an error; it panics only when the delta
    declares a result larger than [isize::MAX], which the delta's author
    chooses. *)
Theorem apply_delta_outcome base delta :
  match apply_delta base delta with
  | Ok out => ∃ bs p rs p', decode_varint delta 0 = Ok (bs, p) ∧ decode_varint delta p = Ok (rs, p')
                ∧ bs = zlen base ∧ rs = zlen out
  | Err _ => True
  | Panic => ∃ p rs p', decode_varint delta 0 = Ok (zlen base, p)
                ∧ decode_varint delta p = Ok (rs, p') ∧ isize_max < rs
  end.
Proof.
  unfold apply_delta.
  pose proof (decode_varint_no_panic delta 0).
  destruct (decode_varint delta 0) as [[bs p]| |] eqn:E1; osimpl; [|done|done].
  pose proof (decode_varint_no_panic delta p).
  destruct (decode_varint delta p) as [[rs' p']| |] eqn:E2; osimpl; [|done|done].
  destruct (Z.eqb_spec (zlen base) bs) as [<-|]; cbn [negb]; [|done].
  destruct (Z.ltb_spec isize_max rs') as [Hlt|_]; [by exists p, rs', p'|].
  pose proof (apply_loop_no_panic base delta (length delta) p' [] ltac:(lia)).
  destruct (apply_loop (length delta) base delta p' []) as [out| |]; osimpl; [|done|done].
  destruct (Z.eqb_spec (zlen out) rs') as [<-|]; cbn [negb]; [|done]. by exists (zlen base), p, (zlen out), p'.
Qed.

(** A COPY of 2^24 bytes is written exactly like a COPY of 2^16 bytes, at
    every offset: bits 24 and up of the size are dropped, so a delta with such a
    match does not replay to its target. *)
Theorem emit_copy_size_truncated instructions offset :
  emit_copy instructions offset (2 ^ 24) = emit_copy instructions offset (2 ^ 16).
Proof. by rewrite !(emit_copy_app instructions), !emit_copy_spec. Qed.
