(* ===== verification/Bundle.v ===== *)
(** Bundle: the KBND wire format for bulk transfer, [kappa-core/src/bundle.rs].

    The encoder picks delta bases in a sliding window, orders bases before the
    entries that need them and appends a SHA-256 trailer; the decoder checks the
    trailer, resolves deltas and verifies every entry against its label. *)

From S2P Require Import Prelude Label Compute Delta.

(** * Data *)

Definition MAGIC : bytes := rs "KBND".
Definition VERSION : byte := x01.
Definition ENTRY_TYPE_FULL : byte := x01.
Definition ENTRY_TYPE_DELTA : byte := x02.
Definition FLAG_HAS_DELTAS : byte := x01.
Definition DELTA_WINDOW_SIZE : nat := 10.
Definition DECODE_MAX_BYTES : Z := 268435456.

Inductive BundleError :=
| BTruncated (what : rstr)
| TrailerMismatch
| KappaMismatch (kappa : rstr)
| DeltaInNoDeltaBundle
| DecodeLimitExceeded
| UnsupportedEntryType (t : byte)
| UnresolvableBase (kappa : rstr)
| BDelta (e : DeltaError)
| BLabel (e : LabelError)
| BInvalid (msg : rstr).

(** [None] when there is no resolver, else the resolver. *)
Definition BaseResolver : Type := option (rstr → option bytes).

Record BundleEntry := mkEntry { be_kappa : rstr; be_content : bytes }.

Section bundle.
Context `{HashCrates}.

(** * Encoding *)

Record EntryPlan := mkPlan {
  plan_kappa : rstr;
  plan_content : bytes;
  plan_delta_base : option (nat * bytes);
}.

(** The best delta so far against candidate [ci]: strictly shorter wins. *)
Definition consider_base (content : bytes) (best : option (nat * bytes))
  (cand : nat * (nat * rstr * bytes)) : option (nat * bytes) :=
  let '(ci, (_, _, base)) := cand in
  match compute_delta base content with
  | None => best
  | Some d =>
      match best with
      | None => Some (ci, d)
      | Some (_, prev) => if (length d <? length prev)%nat then Some (ci, d) else best
      end
  end.

(** [indexed.iter().enumerate()]. *)
Definition enumerate {A} (l : list A) : list (nat * A) := imap pair l.

Definition plan_entry (indexed : list (nat * rstr * bytes)) (idx : nat)
  (o : nat * rstr * bytes) : EntryPlan :=
  let '(_, kappa, content) := o in
  let window_start := (idx - DELTA_WINDOW_SIZE)%nat in
  let candidates := drop window_start (take idx (enumerate indexed)) in
  mkPlan kappa content (fold_left (consider_base content) candidates None).

Definition make_plans (indexed : list (nat * rstr * bytes)) : list EntryPlan :=
  imap (plan_entry indexed) indexed.

(** Emission order: entries without a base first. *)
Definition emit_roots (st : list nat * list bool) (p : nat * EntryPlan) : list nat * list bool :=
  let '(order, emitted) := st in
  let '(i, plan) := p in
  match plan_delta_base plan with
  | None => (order ++ [i], <[i := true]> emitted)
  | Some _ => (order, emitted)
  end.

(** One turn of the inner loop: emit [i] if its base has been emitted. *)
Definition emit_ready (plans : list EntryPlan) (st : list nat * list bool * bool) (i : nat)
  : list nat * list bool * bool :=
  let '(order, emitted, progress) := st in
  if default false (emitted !! i) then st
  else
    match plans !! i ≫= plan_delta_base with
    | Some (base_idx, _) =>
        if default false (emitted !! base_idx) then (order ++ [i], <[i := true]> emitted, true)
        else st
    | None => st
    end.

Fixpoint emit_passes (n : nat) (plans : list EntryPlan) (st : list nat * list bool)
  : list nat * list bool :=
  match n with
  | O => st
  | S n' =>
      let '(order, emitted) := st in
      let '(order, emitted, progress) :=
        fold_left (emit_ready plans) (seq 0 (length plans)) (order, emitted, false) in
      if progress : bool then emit_passes n' plans (order, emitted) else (order, emitted)
  end.

Definition emit_order (plans : list EntryPlan) : list nat * list bool :=
  let st := fold_left emit_roots (enumerate plans) ([], replicate (length plans) false) in
  let '(order, emitted) := emit_passes (length plans) plans st in
  (order ++ (fst <$> filter (λ p, snd p = false) (enumerate emitted)), emitted).

(** The fields of an entry. *)
Definition put_kappa (k : rstr) : bytes := to_be 2 (wrap 16 (zlen k)) ++ k.
Definition put_content (c : bytes) : bytes := to_be 8 (wrap 64 (zlen c)) ++ c.
Definition put_full (kappa : rstr) (content : bytes) : bytes :=
  [ENTRY_TYPE_FULL] ++ put_kappa kappa ++ put_content content.
Definition put_delta (kappa base_kappa : rstr) (delta_bytes : bytes) : bytes :=
  [ENTRY_TYPE_DELTA] ++ put_kappa kappa ++ put_kappa base_kappa ++ put_content delta_bytes.

Definition header (flags : byte) (count : nat) : bytes :=
  MAGIC ++ [VERSION; flags] ++ to_be 4 (wrap 32 (Z.of_nat count)).

(** The emission of one entry; the indices come from [order] and are in range. *)
Definition put_entry (plans : list EntryPlan) (emitted : list bool) (idx : nat) : bytes :=
  match plans !! idx with
  | None => []
  | Some plan =>
      match plan_delta_base plan with
      | Some (base_idx, delta_bytes) =>
          if default false (emitted !! base_idx) then
            match plans !! base_idx with
            | Some bp => put_delta (plan_kappa plan) (plan_kappa bp) delta_bytes
            | None => []
            end
          else put_full (plan_kappa plan) (plan_content plan)
      | None => put_full (plan_kappa plan) (plan_content plan)
      end
  end.

Definition with_trailer (out : bytes) : bytes := out ++ sha256_digest out.

Definition encode_full_only (objects : list (rstr * bytes)) : bytes :=
  with_trailer (header x00 (length objects) ++ concat ((λ '(k, c), put_full k c) <$> objects)).

(** [sort_by_key(|b| Reverse(b.2.len()))]: stable, longest content first. *)
Definition by_len_desc (a b : nat * rstr * bytes) : bool := (length b.2 <=? length a.2)%nat.

Definition encode (objects : list (rstr * bytes)) (use_deltas : bool) : bytes :=
  if negb use_deltas || (length objects <? 2)%nat then encode_full_only objects
  else
    let indexed := sort_by by_len_desc (imap (λ i '(k, c), (i, k, c)) objects) in
    let plans := make_plans indexed in
    let '(order, emitted) := emit_order plans in
    let has_any_delta := existsb (λ p, bool_decide (is_Some (plan_delta_base p))) plans in
    let flags := if has_any_delta then FLAG_HAS_DELTAS else x00 in
    with_trailer (header flags (length plans) ++ concat (put_entry plans emitted <$> order)).

(** * Decoding *)

(** [p[pos..pos + n]] after the length check. *)
Definition parse_kappa_field (p : bytes) (pos : nat) : outcome BundleError (rstr * nat) :=
  if (length p <? pos + 2)%nat then Err (BTruncated (rs "kappa length"))
  else
    let kl := Z.to_nat (from_be (slice p pos (pos + 2))) in
    let pos := (pos + 2)%nat in
    if (length p <? pos + kl)%nat then Err (BTruncated (rs "kappa"))
    else
      let k := slice p pos (pos + kl) in
      if utf8_valid k then Ok (k, (pos + kl)%nat) else Err (BInvalid (rs "kappa not UTF-8")).

(** [*pos + cl] overflows [usize] for a length near 2^64: a panic with overflow
    checks, and without them the sum wraps below [*pos], passes the check and
    makes the slice's start exceed its end, which panics as well. *)
Definition parse_content_field (p : bytes) (pos : nat) : outcome BundleError (bytes * nat) :=
  if (length p <? pos + 8)%nat then Err (BTruncated (rs "content length"))
  else
    let cl := from_be (slice p pos (pos + 8)) in
    let pos := (pos + 8)%nat in
    if usize_max <? Z.of_nat pos + cl then Panic
    else if zlen p <? Z.of_nat pos + cl then Err (BTruncated (rs "content"))
    else Ok (slice p pos (pos + Z.to_nat cl), (pos + Z.to_nat cl)%nat).

Definition parse_full_entry (p : bytes) (pos : nat) : outcome BundleError (rstr * bytes * nat) :=
  '(kappa, pos) ← parse_kappa_field p pos;
  '(content, pos) ← parse_content_field p pos;
  Ok (kappa, content, pos).

Definition parse_delta_entry (p : bytes) (pos : nat)
  : outcome BundleError (rstr * rstr * bytes * nat) :=
  '(kappa, pos) ← parse_kappa_field p pos;
  '(base_kappa, pos) ← parse_kappa_field p pos;
  '(delta_bytes, pos) ← parse_content_field p pos;
  Ok (kappa, base_kappa, delta_bytes, pos).

Definition verify_entry_kappa (kappa : rstr) (content : bytes) : outcome BundleError () :=
  match verify_kappa kappa content with
  | Ok true => Ok ()
  | Ok false => Err (KappaMismatch kappa)
  | Err e => Err (BLabel e)
  | Panic => Panic
  end.

Record decode_state := mkDecode {
  ds_pos : nat;
  ds_entries : list BundleEntry;
  ds_index : gmap rstr bytes;
  ds_total : Z;
}.

(** The tail both branches share: count, verify, index and push the entry. *)
Definition accept_entry (st : decode_state) (pos : nat) (kappa : rstr) (content : bytes)
  : outcome BundleError decode_state :=
  let total_bytes := Z.min usize_max (ds_total st + zlen content) in
  if DECODE_MAX_BYTES <? total_bytes then Err DecodeLimitExceeded
  else
    _ ← verify_entry_kappa kappa content;
    Ok (mkDecode pos (ds_entries st ++ [mkEntry kappa content])
          (<[kappa := content]> (ds_index st)) total_bytes).

Definition decode_entry (payload : bytes) (flags : byte) (resolve_base : BaseResolver)
  (st : decode_state) : outcome BundleError decode_state :=
  entry_type ← ok_or (payload !! ds_pos st) (BTruncated (rs "entry"));
  let pos := S (ds_pos st) in
  if decide (entry_type = ENTRY_TYPE_FULL) then
    '(kappa, content, pos) ← parse_full_entry payload pos;
    accept_entry st pos kappa content
  else if decide (entry_type = ENTRY_TYPE_DELTA) then
    if Z.land (b2z flags) (b2z FLAG_HAS_DELTAS) =? 0 then Err DeltaInNoDeltaBundle
    else
      '(kappa, base_kappa, delta_bytes, pos) ← parse_delta_entry payload pos;
      base ← ok_or
        match ds_index st !! base_kappa with
        | Some b => Some b
        | None => f ← resolve_base; f base_kappa
        end (UnresolvableBase base_kappa);
      content ← map_err BDelta (apply_delta base delta_bytes);
      accept_entry st pos kappa content
  else Err (UnsupportedEntryType entry_type).

Fixpoint decode_entries (n : nat) (payload : bytes) (flags : byte) (resolve_base : BaseResolver)
  (st : decode_state) : outcome BundleError decode_state :=
  match n with
  | O => Ok st
  | S n' =>
      st ← decode_entry payload flags resolve_base st;
      decode_entries n' payload flags resolve_base st
  end.

Definition decode (data : bytes) (resolve_base : BaseResolver)
  : outcome BundleError (list BundleEntry) :=
  if (length data <? 10 + 32)%nat then Err (BTruncated (rs "header+trailer"))
  else
    let payload := take (length data - 32) data in
    let trailer := drop (length data - 32) data in
    if negb (bool_decide (sha256_digest payload = trailer)) then Err TrailerMismatch
    else if negb (bool_decide (take 4 data = MAGIC)) then Err (BInvalid (rs "bad bundle magic"))
    else if negb (bool_decide (data !! 4%nat = Some VERSION)) then
      Err (BInvalid (rs "unsupported bundle version"))
    else
      flags ← unwrap (data !! 5%nat);
      let entry_count := from_be (slice data 6 10) in
      st ← decode_entries (Z.to_nat entry_count) payload flags resolve_base
             (mkDecode 10 [] ∅ 0);
      Ok (ds_entries st).
End bundle.

(** * Parsing what was written *)

Section proofs.
Context `{HashCratesLaws}.

(** A label as it travels: short and ASCII. *)
Definition wire_label (k : rstr) : Prop := zlen k < 2 ^ 16 ∧ utf8_valid k = true.

Lemma kappa_text_wire a c : wire_label (kappa_text a c).
Proof.
  split.
  - pose proof (label_text_len a _ (digest_hex_valid a c)) as Hl. fold (kappa_text a c) in Hl.
    rewrite Hl. by destruct a.
  - apply label_text_ascii, digest_hex_valid.
Qed.

Lemma parse_kappa_put pre k rest :
  wire_label k →
  parse_kappa_field (pre ++ put_kappa k ++ rest) (length pre) = Ok (k, length (pre ++ put_kappa k)).
Proof.
  intros [Hk Hu]. unfold parse_kappa_field, put_kappa.
  rewrite (proj2 (Nat.ltb_ge _ _)) by (rewrite !length_app, length_to_be; lia).
  rewrite <- app_assoc, (slice_app pre) by (rewrite ?length_to_be; done).
  unfold wrap. rewrite from_to_be by (apply Z.mod_pos_bound; lia).
  rewrite Z.mod_small by lia. rewrite Nat2Z.id.
  rewrite (proj2 (Nat.ltb_ge _ _)) by (rewrite !length_app, length_to_be; lia).
  rewrite (app_assoc pre), slice_app by (rewrite !length_app, length_to_be; lia).
  rewrite Hu. do 2 f_equal. rewrite !length_app, length_to_be. lia.
Qed.

Lemma parse_content_put pre c rest :
  zlen (pre ++ put_content c ++ rest) ≤ usize_max →
  parse_content_field (pre ++ put_content c ++ rest) (length pre)
  = Ok (c, length (pre ++ put_content c)).
Proof.
  unfold parse_content_field, put_content. intros Hlen.
  rewrite !length_app, length_to_be in Hlen. unfold usize_max, u64_max in *.
  rewrite (proj2 (Nat.ltb_ge _ _)) by (rewrite !length_app, length_to_be; lia).
  rewrite <- app_assoc, (slice_app pre) by (rewrite ?length_to_be; done).
  unfold wrap. rewrite from_to_be by (apply Z.mod_pos_bound; lia).
  rewrite Z.mod_small by lia.
  rewrite (proj2 (Z.ltb_ge _ _)) by lia.
  rewrite (proj2 (Z.ltb_ge _ _)) by (rewrite !length_app, length_to_be; lia).
  rewrite Nat2Z.id.
  rewrite (app_assoc pre), slice_app by (rewrite !length_app, length_to_be; lia).
  do 2 f_equal. rewrite !length_app, length_to_be. lia.
Qed.

(** * Entries on the wire *)

Inductive wire :=
| WFull (kappa : rstr) (content : bytes)
| WDelta (kappa base_kappa : rstr) (delta content : bytes).

Definition put_wire (w : wire) : bytes :=
  match w with
  | WFull k c => put_full k c
  | WDelta k bk d _ => put_delta k bk d
  end.

Definition wire_entry (w : wire) : BundleEntry :=
  match w with WFull k c | WDelta k _ _ c => mkEntry k c end.

(** An entry whose label is the address of its content. *)
Definition entry_addressed (e : BundleEntry) : Prop :=
  ∃ a, be_kappa e = kappa_text a (be_content e) ∧ hash_refused a (be_content e) = false.

Definition wire_ok (has_deltas : bool) (index : gmap rstr bytes) (w : wire) : Prop :=
  entry_addressed (wire_entry w) ∧
  match w with
  | WFull _ _ => True
  | WDelta _ bk d c => has_deltas = true ∧ wire_label bk ∧
      ∃ base, index !! bk = Some base ∧ apply_delta base d = Ok c
  end.

(** Each entry is fine given the entries before it. *)
Fixpoint wires_ok (has_deltas : bool) (index : gmap rstr bytes) (ws : list wire) : Prop :=
  match ws with
  | [] => True
  | w :: ws' => wire_ok has_deltas index w ∧
      wires_ok has_deltas (<[be_kappa (wire_entry w) := be_content (wire_entry w)]> index) ws'
  end.

Definition total_content (l : list BundleEntry) : Z := foldr (λ e n, zlen (be_content e) + n) 0 l.

Lemma total_content_nonneg l : 0 ≤ total_content l.
Proof. induction l; simpl; lia. Qed.

Lemma verify_entry_addressed e :
  entry_addressed e ↔ verify_entry_kappa (be_kappa e) (be_content e) = Ok ().
Proof.
  unfold verify_entry_kappa. split.
  - intros (a & Hk & Hr). rewrite (proj2 (verify_kappa_true _ _)); [done|]. by exists a.
  - destruct (verify_kappa _ _) as [[]| |] eqn:E; try done. intros _.
    by apply verify_kappa_true in E.
Qed.

Definition flags_of (has_deltas : bool) : byte := if has_deltas then FLAG_HAS_DELTAS else x00.

Lemma accept_entry_ok st pos e :
  entry_addressed e → 0 ≤ ds_total st →
  ds_total st + zlen (be_content e) ≤ DECODE_MAX_BYTES →
  accept_entry st pos (be_kappa e) (be_content e)
  = Ok (mkDecode pos (ds_entries st ++ [e]) (<[be_kappa e := be_content e]> (ds_index st))
          (ds_total st + zlen (be_content e))).
Proof.
  intros Ha Hz Ht. unfold accept_entry, DECODE_MAX_BYTES, usize_max, u64_max in *.
  rewrite Z.min_r by lia. rewrite (proj2 (Z.ltb_ge _ _)) by lia.
  rewrite (proj1 (verify_entry_addressed e) Ha). osimpl. by destruct e.
Qed.

Lemma decode_entry_wire hd rb pre w rest st :
  let payload := pre ++ put_wire w ++ rest in
  let e := wire_entry w in
  zlen payload ≤ usize_max → wire_ok hd (ds_index st) w → ds_pos st = length pre →
  0 ≤ ds_total st → ds_total st + zlen (be_content e) ≤ DECODE_MAX_BYTES →
  decode_entry payload (flags_of hd) rb st
  = Ok (mkDecode (length (pre ++ put_wire w)) (ds_entries st ++ [e])
          (<[be_kappa e := be_content e]> (ds_index st)) (ds_total st + zlen (be_content e))).
Proof.
  intros payload e Hlen (Ha & Hw) Hpos Hz Ht.
  pose proof (accept_entry_ok st (length (pre ++ put_wire w)) e Ha Hz Ht) as Hacc.
  assert (wire_label (be_kappa e)) as Hk by (destruct Ha as (a & E & _); unfold e; rewrite E; apply kappa_text_wire).
  unfold decode_entry. rewrite Hpos. subst payload.
  destruct w as [k c|k bk d c]; cbn [put_wire] in *.
  - unfold put_full in *.
    assert (∀ l, (pre ++ ([ENTRY_TYPE_FULL] ++ l) ++ rest) !! length pre = Some ENTRY_TYPE_FULL)
      as -> by (intros; by apply list_lookup_middle). osimpl.
    rewrite decide_True by done. unfold parse_full_entry.
    replace (S (length pre)) with (length (pre ++ [ENTRY_TYPE_FULL])) by (rewrite length_app; simpl; lia).
    rewrite <- !app_assoc, (app_assoc pre) in Hlen |- *.
    rewrite parse_kappa_put by done. osimpl. rewrite (app_assoc _ (put_kappa k)) in Hlen |- *.
    rewrite parse_content_put by done. osimpl.
    rewrite <- Hacc. f_equal. by rewrite <- !app_assoc.
  - destruct Hw as (-> & Hbk & base & Hbase & Happ).
    unfold put_delta in *.
    assert (∀ l, (pre ++ ([ENTRY_TYPE_DELTA] ++ l) ++ rest) !! length pre = Some ENTRY_TYPE_DELTA)
      as -> by (intros; by apply list_lookup_middle). osimpl.
    rewrite decide_False by done. rewrite decide_True by done.
    change (Z.land (b2z (flags_of true)) (b2z FLAG_HAS_DELTAS) =? 0) with false. cbv iota.
    unfold parse_delta_entry.
    replace (S (length pre)) with (length (pre ++ [ENTRY_TYPE_DELTA])) by (rewrite length_app; simpl; lia).
    rewrite <- !app_assoc, (app_assoc pre) in Hlen |- *.
    rewrite parse_kappa_put by done. osimpl. rewrite (app_assoc _ (put_kappa k)) in Hlen |- *.
    rewrite parse_kappa_put by done. osimpl. rewrite (app_assoc _ (put_kappa bk)) in Hlen |- *.
    rewrite parse_content_put by done. osimpl.
    rewrite Hbase. osimpl. rewrite Happ. osimpl.
    rewrite <- Hacc. f_equal. by rewrite <- !app_assoc.
Qed.

Lemma decode_entries_wires hd rb ws pre st :
  let payload := pre ++ concat (put_wire <$> ws) in
  zlen payload ≤ usize_max → wires_ok hd (ds_index st) ws → ds_pos st = length pre →
  0 ≤ ds_total st → ds_total st + total_content (wire_entry <$> ws) ≤ DECODE_MAX_BYTES →
  ∃ st', decode_entries (length ws) payload (flags_of hd) rb st = Ok st' ∧
         ds_entries st' = ds_entries st ++ (wire_entry <$> ws).
Proof.
  revert pre st. induction ws as [|w ws IH]; intros pre st payload Hlen Hok Hpos Hz Ht.
  - exists st. by rewrite app_nil_r.
  - subst payload. rewrite !fmap_cons in *. cbn [concat length decode_entries total_content foldr] in *.
    destruct Hok as [Hw Hws]. fold (total_content (wire_entry <$> ws)) in Ht.
    pose proof (total_content_nonneg (wire_entry <$> ws)).
    rewrite decode_entry_wire by (done || lia). osimpl. rewrite app_assoc in Hlen |- *.
    match goal with |- context [decode_entries _ _ _ _ ?st2] =>
      destruct (IH (pre ++ put_wire w) st2) as (st' & -> & Hst') end;
      [done..|cbn [ds_total]; lia|cbn [ds_total]; lia|].
    exists st'. split; [done|]. rewrite Hst'. simpl. by rewrite <- app_assoc.
Qed.
End proofs.

(** * The emission order: bases before deltas *)

Section order.
Context (plans : list EntryPlan).
Let n := length plans.

Definition delta_of (i : nat) : option (nat * bytes) := plans !! i ≫= plan_delta_base.

(** Every entry with a base comes after its base. *)
Definition bases_first (order : list nat) : Prop :=
  ∀ pre i post b d, order = pre ++ i :: post → delta_of i = Some (b, d) → b ∈ pre.

Definition emit_inv (order : list nat) (emitted : list bool) : Prop :=
  length emitted = n ∧ NoDup order ∧ (∀ i, emitted !! i = Some true ↔ i ∈ order) ∧
  bases_first order.

Lemma bases_first_snoc order i :
  bases_first order → (∀ b d, delta_of i = Some (b, d) → b ∈ order) → bases_first (order ++ [i]).
Proof.
  intros Ho Hi pre j post b d Heq Hj.
  destruct post as [|x post _] using rev_ind.
  - apply app_inj_tail in Heq as [-> ->]. eauto.
  - rewrite app_comm_cons, app_assoc in Heq. apply app_inj_tail in Heq as [-> _]. eauto.
Qed.

Lemma emit_push order emitted i :
  emit_inv order emitted → (i < n)%nat → i ∉ order →
  (∀ b d, delta_of i = Some (b, d) → b ∈ order) →
  emit_inv (order ++ [i]) (<[i := true]> emitted).
Proof.
  intros (Hl & Hnd & Hem & Hb) Hi Hni Hbase. split_and!.
  - by rewrite length_insert.
  - apply NoDup_app. split_and!; [done|set_solver|apply NoDup_singleton].
  - intros j. rewrite elem_of_app, list_elem_of_singleton, <- Hem, list_lookup_insert_Some.
    destruct (decide (i = j)); naive_solver lia.
  - by apply bases_first_snoc.
Qed.

Lemma default_emitted order emitted i :
  emit_inv order emitted → default false (emitted !! i) = true ↔ i ∈ order.
Proof.
  intros (_ & _ & Hem & _). rewrite <- Hem. destruct (emitted !! i) as [[]|]; simpl; naive_solver.
Qed.

Lemma emit_roots_fold l order emitted :
  emit_inv order emitted → NoDup (fst <$> l) →
  (∀ i p, (i, p) ∈ l → plans !! i = Some p ∧ i ∉ order) →
  let st := fold_left emit_roots l (order, emitted) in
  emit_inv st.1 st.2 ∧ (∀ i, i ∈ order → i ∈ st.1) ∧
  (∀ i p, (i, p) ∈ l → plan_delta_base p = None → i ∈ st.1).
Proof.
  revert order emitted. induction l as [|[i p] l IH]; intros order emitted Hinv Hnd Hl; cbn [fold_left].
  { simpl. split_and!; [done|done|set_solver]. }
  rewrite fmap_cons, NoDup_cons in Hnd. destruct Hnd as [Hi Hnd]. cbn [fst] in Hi.
  assert (∀ j q, (j, q) ∈ l → j ≠ i) as Hne.
  { intros j q Hj ->. apply Hi, list_elem_of_fmap. by exists (i, q). }
  destruct (Hl i p) as [Hp Hni]; [set_solver|].
  cbn [emit_roots]. destruct (plan_delta_base p) as [bd|] eqn:Hb.
  - destruct (IH order emitted Hinv Hnd) as (H1 & H2 & H3); [set_solver|].
    split_and!; [done|done|]. intros j q [Hj|Hj]%elem_of_cons Hq; [|by eapply H3]. naive_solver.
  - destruct (IH (order ++ [i]) (<[i:=true]> emitted)) as (H1 & H2 & H3).
    + apply emit_push; [done|by eapply lookup_lt_Some|done|].
      intros b d. unfold delta_of. rewrite Hp. simpl. by rewrite Hb.
    + done.
    + intros j q Hj. destruct (Hl j q) as [? ?]; [set_solver|]. split; [done|]. set_solver.
    + split_and!; [done|intros; apply H2; set_solver|].
      intros j q [Hj|Hj]%elem_of_cons Hq; [|by eapply H3]. apply H2. simplify_eq. set_solver.
Qed.

Lemma enumerate_elem {A} (l : list A) i x : (i, x) ∈ enumerate l ↔ l !! i = Some x.
Proof.
  unfold enumerate. rewrite list_elem_of_lookup. setoid_rewrite list_lookup_imap_Some.
  split; [intros (j & y & ? & [= -> ->]); done|eauto].
Qed.

Lemma enumerate_fst {A} (l : list A) : fst <$> enumerate l = seq 0 (length l).
Proof. unfold enumerate. by rewrite fmap_imap, (imap_seq_0 _ id), list_fmap_id. Qed.

(** Bases are chosen among earlier entries. *)
Definition bases_before : Prop := ∀ i b d, delta_of i = Some (b, d) → (b < i)%nat.

Definition roots_emitted (order : list nat) : Prop :=
  ∀ i, (i < n)%nat → delta_of i = None → i ∈ order.

Lemma emit_pass (Hbb : bases_before) order emitted pr k :
  emit_inv order emitted → roots_emitted order → (k ≤ n)%nat →
  let st := fold_left (emit_ready plans) (seq 0 k) (order, emitted, pr) in
  emit_inv st.1.1 st.1.2 ∧ (∀ i, i ∈ order → i ∈ st.1.1) ∧ (∀ i, (i < k)%nat → i ∈ st.1.1).
Proof.
  intros Hinv Hr. induction k as [|k IH]; intros Hk.
  { simpl. split_and!; [done|done|lia]. }
  destruct IH as (H1 & H2 & H3); [lia|]. cbv zeta. rewrite seq_S, fold_left_app. cbn [fold_left].
  destruct (fold_left _ (seq 0 k) _) as [[order' emitted'] pr']. cbn [fst snd] in *.
  unfold emit_ready. destruct (default false (emitted' !! (0 + k)%nat)) eqn:Hem.
  { apply (default_emitted _ _ _ H1) in Hem. split_and!; [done..|]. intros i Hi.
    destruct (decide (i = k)) as [->|]; [done|apply H3; lia]. }
  assert (k ∉ order') as Hnk.
  { intros Hin. apply (default_emitted _ _ _ H1) in Hin. simpl in Hem. congruence. }
  fold (delta_of (0 + k)). destruct (delta_of (0 + k)) as [[b d]|] eqn:Hd.
  - assert (b ∈ order') as Hb by (apply H3; by apply Hbb in Hd).
    rewrite (proj2 (default_emitted _ _ _ H1) Hb). simpl in *. split_and!.
    + apply emit_push; [done|lia|done|]. naive_solver.
    + set_solver.
    + intros i Hi. destruct (decide (i = k)) as [->|]; [set_solver|].
      apply elem_of_app. left. apply H3. lia.
  - exfalso. apply Hnk, H2, Hr; [lia|done].
Qed.

Lemma emit_passes_all (Hbb : bases_before) m order emitted :
  emit_inv order emitted → roots_emitted order → (0 < m)%nat ∨ (∀ i, (i < n)%nat → i ∈ order) →
  let st := emit_passes m plans (order, emitted) in
  emit_inv st.1 st.2 ∧ ∀ i, (i < n)%nat → i ∈ st.1.
Proof.
  revert order emitted. induction m as [|m IH]; intros order emitted Hinv Hr Hm; cbn [emit_passes].
  { simpl. split; [done|]. destruct Hm as [?|?]; [lia|done]. }
  destruct (emit_pass Hbb order emitted false n Hinv Hr (le_n _)) as (H1 & H2 & H3).
  unfold n in *.
  destruct (fold_left _ _ _) as [[order' emitted'] []]; cbn [fst snd] in *; [|done].
  apply IH; [done| |by right]. intros i Hi Hd. apply H2, Hr; done.
Qed.

Lemma emit_order_spec (Hbb : bases_before) :
  let st := emit_order plans in
  emit_inv st.1 st.2 ∧ st.1 ≡ₚ seq 0 n ∧ ∀ i, (i < n)%nat → st.2 !! i = Some true.
Proof.
  assert (emit_inv [] (replicate n false)) as Hinit.
  { split_and!; [by rewrite length_replicate|by apply NoDup_nil| |intros [] ????; done].
    intros i. rewrite lookup_replicate. set_solver. }
  unfold emit_order.
  destruct (emit_roots_fold (enumerate plans) [] (replicate n false)) as (H1 & _ & H3).
  { done. } { rewrite enumerate_fst. apply NoDup_seq. }
  { intros i p Hi%enumerate_elem. split; [done|set_solver]. }
  fold n. destruct (fold_left emit_roots _ _) as [order0 emitted0]. cbn [fst snd] in *.
  assert (roots_emitted order0) as Hr.
  { intros i Hi Hd. destruct (lookup_lt_is_Some_2 plans i Hi) as [p Hp].
    apply (H3 i p); [by apply enumerate_elem|]. unfold delta_of in Hd. by rewrite Hp in Hd. }
  destruct (emit_passes_all Hbb n order0 emitted0 H1 Hr) as [Hinv Hall].
  { destruct n; [right; lia|left; lia]. }
  destruct (emit_passes n plans _) as [order emitted]. cbn [fst snd] in *.
  assert (filter (λ p, snd p = false) (enumerate emitted) = []) as ->.
  { apply list_filter_none. intros [i e] Hi%enumerate_elem. simpl. intros ->.
    destruct Hinv as (Hl & _ & Hem & _). apply lookup_lt_Some in Hi as Hlt. rewrite Hl in Hlt.
    apply Hall, Hem in Hlt. congruence. }
  rewrite app_nil_r. destruct Hinv as (Hl & Hnd & Hem & Hb). split_and!; [done| |].
  - apply NoDup_Permutation; [done|apply NoDup_seq|]. intros i. rewrite elem_of_seq.
    split; [|intros; apply Hall; lia]. intros Hi%Hem%lookup_lt_Some. rewrite Hl in Hi. lia.
  - intros i Hi. by apply Hem, Hall.
Qed.
End order.

(** * Encoding is laying out wire entries *)

Section encoding.
Context `{HashCratesLaws}.

Lemma length_header f k : length (header f k) = 10%nat.
Proof. unfold header. rewrite !length_app, length_to_be. done. Qed.

(** The decoder inverts the framing of a sequence of good entries. *)
Lemma decode_wires hd rb ws :
  wires_ok hd ∅ ws → Z.of_nat (length ws) < 2 ^ 32 →
  total_content (wire_entry <$> ws) ≤ DECODE_MAX_BYTES →
  let out := header (flags_of hd) (length ws) ++ concat (put_wire <$> ws) in
  zlen out ≤ usize_max → decode (with_trailer out) rb = Ok (wire_entry <$> ws).
Proof.
  intros Hok Hn Ht out Hlen. assert (zlen (sha256_digest out) = 32) as Hd by exact (digest_length Sha256 out).
  assert (length (sha256_digest out) = 32%nat) as Hd' by lia.
  assert (10 ≤ length out)%nat as Hout by (subst out; rewrite length_app, length_header; lia).
  unfold decode, with_trailer. rewrite length_app, Hd'.
  rewrite (proj2 (Nat.ltb_ge _ _)) by lia.
  rewrite Nat.add_sub, take_app_length, drop_app_length.
  rewrite bool_decide_eq_true_2 by done. cbn [negb].
  assert (∀ i, (i < 10)%nat → (out ++ sha256_digest out) !! i = header (flags_of hd) (length ws) !! i) as Hl.
  { intros i Hi. rewrite lookup_app_l by lia. subst out. rewrite lookup_app_l; [done|].
    rewrite length_header. lia. }
  rewrite !Hl by lia.
  assert (take 4 (out ++ sha256_digest out) = MAGIC) as -> by reflexivity.
  rewrite bool_decide_eq_true_2 by done. cbn [negb].
  rewrite bool_decide_eq_true_2 by reflexivity. cbn [negb].
  change (header (flags_of hd) (length ws) !! 5%nat) with (Some (flags_of hd)). osimpl.
  assert (slice (out ++ sha256_digest out) 6 10 = to_be 4 (wrap 32 (Z.of_nat (length ws)))) as ->.
  { subst out. unfold header. rewrite <- !app_assoc, 2!(app_assoc MAGIC).
    rewrite slice_app; [done|done|]. by rewrite length_to_be. }
  unfold wrap. rewrite from_to_be by (apply Z.mod_pos_bound; lia).
  rewrite Z.mod_small, Nat2Z.id by lia.
  destruct (decode_entries_wires hd rb ws (header (flags_of hd) (length ws)) (mkDecode 10 [] ∅ 0))
    as (st & Hdec & Hst); [done|done|by rewrite length_header|done|done|].
  fold out in Hdec. rewrite Hdec. osimpl. by rewrite Hst.
Qed.

Definition wire_of (plans : list EntryPlan) (i : nat) : wire :=
  match plans !! i with
  | None => WFull [] []
  | Some p =>
      match plan_delta_base p with
      | Some (b, d) => WDelta (plan_kappa p) (default [] (plan_kappa <$> plans !! b)) d (plan_content p)
      | None => WFull (plan_kappa p) (plan_content p)
      end
  end.

Definition plan_be (p : EntryPlan) : BundleEntry := mkEntry (plan_kappa p) (plan_content p).

Lemma wire_of_entry plans i p : plans !! i = Some p → wire_entry (wire_of plans i) = plan_be p.
Proof. intros Hp. unfold wire_of. rewrite Hp. by destruct (plan_delta_base p) as [[]|]. Qed.

(** What the planner guarantees of its plans. *)
Record plans_ok (plans : list EntryPlan) : Prop := {
  po_before : bases_before plans;
  po_addressed : ∀ p, p ∈ plans → entry_addressed (plan_be p);
  po_functional : ∀ p q, p ∈ plans → q ∈ plans → plan_kappa p = plan_kappa q →
    plan_content p = plan_content q;
  po_delta : ∀ i b d p, plans !! i = Some p → plan_delta_base p = Some (b, d) →
    ∃ q, plans !! b = Some q ∧ apply_delta (plan_content q) d = Ok (plan_content p);
}.

Definition has_deltas (plans : list EntryPlan) : bool :=
  existsb (λ p, bool_decide (is_Some (plan_delta_base p))) plans.

Lemma put_entry_wire plans emitted i :
  plans_ok plans → (i < length plans)%nat → (∀ j, (j < length plans)%nat → emitted !! j = Some true) →
  put_entry plans emitted i = put_wire (wire_of plans i).
Proof.
  intros Hok Hi Hem. unfold put_entry, wire_of. destruct (lookup_lt_is_Some_2 plans i Hi) as [p Hp].
  rewrite Hp. destruct (plan_delta_base p) as [[b d]|] eqn:Hd; [|done].
  destruct (po_delta _ Hok _ _ _ _ Hp Hd) as (q & Hq & _). pose proof (lookup_lt_Some _ _ _ Hq).
  by rewrite Hem, Hq.
Qed.

Lemma wires_ok_order plans post pre index :
  plans_ok plans → bases_first plans (pre ++ post) →
  (∀ i, i ∈ pre ++ post → (i < length plans)%nat) →
  (∀ j q, j ∈ pre → plans !! j = Some q → index !! plan_kappa q = Some (plan_content q)) →
  wires_ok (has_deltas plans) index (wire_of plans <$> post).
Proof.
  intros Hok. revert pre index. induction post as [|i post IH]; intros pre index Hbf Hlt Hix; [done|].
  rewrite fmap_cons. cbn [wires_ok].
  destruct (lookup_lt_is_Some_2 plans i) as [p Hp]; [apply Hlt; set_solver|].
  pose proof (list_elem_of_lookup_2 _ _ _ Hp) as Hin.
  rewrite (wire_of_entry _ _ _ Hp). split.
  - split; [rewrite (wire_of_entry _ _ _ Hp); by apply (po_addressed _ Hok)|].
    unfold wire_of. rewrite Hp. destruct (plan_delta_base p) as [[b d]|] eqn:Hd; [|done].
    destruct (po_delta _ Hok _ _ _ _ Hp Hd) as (q & Hq & Happ). rewrite Hq. cbn [fmap option_fmap option_map default from_option].
    split_and!.
    + apply existsb_exists. exists p. split; [by apply list_elem_of_In|]. rewrite Hd. by apply bool_decide_eq_true.
    + destruct (po_addressed _ Hok q) as (a & Ha & _); [by eapply list_elem_of_lookup_2|].
      cbn in Ha. unfold id. rewrite Ha. apply kappa_text_wire.
    + exists (plan_content q). split; [|done]. unfold id. eapply Hix; [|done].
      eapply Hbf; [done|]. unfold delta_of. by rewrite Hp.
  - apply (IH (pre ++ [i])); [by rewrite <- app_assoc|by rewrite <- app_assoc|].
    cbn [plan_be be_kappa be_content]. intros j q Hj Hq.
    destruct (decide (plan_kappa q = plan_kappa p)) as [E|E].
    + rewrite E, lookup_insert_eq. f_equal. apply (po_functional _ Hok); [done|by eapply list_elem_of_lookup_2|done].
    + rewrite lookup_insert_ne by done. apply elem_of_app in Hj as [Hj|Hj]; [by eapply Hix|].
      apply list_elem_of_singleton in Hj as ->. congruence.
Qed.

Lemma total_content_perm l l' : l ≡ₚ l' → total_content l = total_content l'.
Proof. induction 1; simpl; lia. Qed.

Lemma fmap_seq_lookup {A B} (f : nat → B) (g : A → B) (l : list A) :
  (∀ i x, l !! i = Some x → f i = g x) → f <$> seq 0 (length l) = g <$> l.
Proof.
  intros Hf. apply list_eq. intros i. rewrite !list_lookup_fmap.
  destruct (l !! i) as [x|] eqn:Hx.
  - rewrite lookup_seq_lt by (by eapply lookup_lt_Some). simpl. f_equal. auto.
  - apply lookup_ge_None in Hx. by rewrite lookup_seq_ge.
Qed.

(** Plans laid out in emission order decode to the planned entries. *)
Lemma decode_plans plans rb :
  plans_ok plans → Z.of_nat (length plans) < 2 ^ 32 →
  total_content (plan_be <$> plans) ≤ DECODE_MAX_BYTES →
  let '(order, emitted) := emit_order plans in
  let out := header (flags_of (has_deltas plans)) (length plans)
             ++ concat (put_entry plans emitted <$> order) in
  zlen out ≤ usize_max → ∃ es, decode (with_trailer out) rb = Ok es ∧ es ≡ₚ plan_be <$> plans.
Proof.
  intros Hok Hn Ht. pose proof (emit_order_spec plans (po_before _ Hok)) as Hspec.
  destruct (emit_order plans) as [order emitted]. cbn [fst snd] in Hspec.
  destruct Hspec as ((_ & _ & _ & Hbf) & Hperm & Hem).
  assert (∀ i, i ∈ order → (i < length plans)%nat) as Hlt.
  { intros i. rewrite Hperm, elem_of_seq. lia. }
  assert (put_entry plans emitted <$> order = put_wire <$> (wire_of plans <$> order)) as ->.
  { rewrite <- list_fmap_compose. apply list_fmap_ext. intros ? i Hi. simpl.
    apply put_entry_wire; [done| |done]. apply Hlt. by eapply list_elem_of_lookup_2. }
  assert (wire_entry <$> (wire_of plans <$> order) ≡ₚ plan_be <$> plans) as Hes.
  { rewrite Hperm, <- list_fmap_compose. apply Permutation_refl'. apply fmap_seq_lookup.
    intros i x Hx. by apply wire_of_entry. }
  assert (length plans = length (wire_of plans <$> order)) as Hlen.
  { by rewrite length_fmap, Hperm, length_seq. }
  rewrite Hlen. intros out Hout. eexists. split; [|exact Hes].
  apply decode_wires; [|by rewrite <- Hlen|by rewrite (total_content_perm _ _ Hes)|done].
  apply (wires_ok_order _ _ []); [done|done|done|]. set_solver.
Qed.
End encoding.

(** * What the planner produces *)

Section planning.
Context `{HashCratesLaws}.

Lemma pick_base_ok content cands best ci d :
  fold_left (consider_base content) cands best = Some (ci, d) →
  best = Some (ci, d) ∨ ∃ o, (ci, o) ∈ cands ∧ compute_delta o.2 content = Some d.
Proof.
  revert best. induction cands as [|[cj [[j k] base]] cands IH]; intros best; cbn [fold_left]; [by left|].
  intros [Hb|(o & Ho & Hd)]%IH; [|right; set_solver].
  unfold consider_base in Hb. destruct (compute_delta base content) as [d'|] eqn:E; [|by left].
  assert ((cj, d') = (ci, d) → ∃ o, (ci, o) ∈ (cj, (j, k, base)) :: cands ∧ compute_delta o.2 content = Some d)
    as Hnew by (intros [= -> ->]; exists (j, k, base); set_solver).
  destruct best as [[bi prev]|]; [|right; naive_solver].
  destruct (_ <? _)%nat; [right|left]; naive_solver.
Qed.

Lemma make_plans_lookup indexed i :
  make_plans indexed !! i = plan_entry indexed i <$> indexed !! i.
Proof. apply list_lookup_imap. Qed.

Lemma plan_entry_fields indexed i o :
  plan_kappa (plan_entry indexed i o) = o.1.2 ∧ plan_content (plan_entry indexed i o) = o.2.
Proof. by destruct o as [[]]. Qed.

Lemma plan_entry_base indexed i o b d :
  plan_delta_base (plan_entry indexed i o) = Some (b, d) →
  (b < i)%nat ∧ ∃ o', indexed !! b = Some o' ∧ compute_delta o'.2 o.2 = Some d.
Proof.
  destruct o as [[j k] c]. cbn [plan_entry plan_delta_base].
  intros [|(o' & Ho' & Hd)]%pick_base_ok; [done|].
  assert ((b, o') ∈ take i (enumerate indexed)) as Ht.
  { eapply subseteq_drop, Ho'. }
  apply list_elem_of_lookup in Ht as (m & Hm). apply lookup_take_Some in Hm as [Hm Hlt].
  unfold enumerate in Hm. apply list_lookup_imap_Some in Hm as (o2 & Ho2 & [= -> ->]). eauto.
Qed.

(** The objects a caller may bundle: each under the address of its content, no
    label shared by different contents, contents under 16 MiB and 256 MiB in
    all. *)
Record bundle_objects (objects : list (rstr * bytes)) : Prop := {
  bo_addressed : ∀ k c, (k, c) ∈ objects → entry_addressed (mkEntry k c);
  bo_functional : ∀ k c c', (k, c) ∈ objects → (k, c') ∈ objects → c = c';
  bo_size : ∀ k c, (k, c) ∈ objects → zlen c < 2 ^ 24;
  bo_count : zlen objects < 2 ^ 32;
  bo_total : total_content ((λ '(k, c), mkEntry k c) <$> objects) ≤ DECODE_MAX_BYTES;
}.

Lemma make_plans_ok objects indexed :
  bundle_objects objects → (∀ o, o ∈ indexed → (o.1.2, o.2) ∈ objects) →
  plans_ok (make_plans indexed).
Proof.
  intros Hbo Hin.
  assert (∀ p, p ∈ make_plans indexed → (plan_kappa p, plan_content p) ∈ objects) as Hp.
  { intros p (i & Hi)%list_elem_of_lookup. rewrite make_plans_lookup in Hi.
    apply fmap_Some in Hi as (o & Ho & ->). destruct (plan_entry_fields indexed i o) as [-> ->].
    apply Hin. by eapply list_elem_of_lookup_2. }
  split.
  - intros i b d. unfold delta_of. rewrite make_plans_lookup.
    destruct (indexed !! i) as [o|]; [|done]. simpl. by intros [? _]%plan_entry_base.
  - intros p ?%Hp. by apply (bo_addressed _ Hbo).
  - intros p q Hpp Hq E. apply Hp in Hpp, Hq. rewrite E in Hpp. by eapply (bo_functional _ Hbo).
  - intros i b d p Hi Hd. rewrite make_plans_lookup in Hi. apply fmap_Some in Hi as (o & Ho & ->).
    destruct (plan_entry_base _ _ _ _ _ Hd) as (Hb & o' & Ho' & Hdelta).
    exists (plan_entry indexed b o'). rewrite make_plans_lookup, Ho'. split; [done|].
    destruct (plan_entry_fields indexed b o') as [_ ->], (plan_entry_fields indexed i o) as [_ ->].
    assert (zlen o.2 < 2 ^ 24 ∧ zlen o'.2 < 2 ^ 24) as [H1 H2].
    { split; eapply (bo_size _ Hbo), Hin, list_elem_of_lookup_2; eauto. }
    destruct (compute_delta_instrs o'.2 o.2 d) as (l & -> & Hok & Hrun); [split; lia|done|].
    rewrite <- Hrun. rewrite <- Hrun in H1. apply apply_delta_instrs; [done|lia|unfold isize_max; lia].
Qed.

Lemma make_plans_entries indexed :
  plan_be <$> make_plans indexed = (λ o, mkEntry o.1.2 o.2) <$> indexed.
Proof.
  apply list_eq. intros i. rewrite !list_lookup_fmap, make_plans_lookup.
  destruct (indexed !! i) as [[[]]|]; done.
Qed.

Lemma decode_full_only objects rb :
  (∀ k c, (k, c) ∈ objects → entry_addressed (mkEntry k c)) → zlen objects < 2 ^ 32 →
  let es := (λ '(k, c), mkEntry k c) <$> objects in
  total_content es ≤ DECODE_MAX_BYTES →
  zlen (encode_full_only objects) ≤ usize_max →
  decode (encode_full_only objects) rb = Ok es.
Proof.
  intros Ha Hn es Ht. unfold encode_full_only.
  set (ws := (λ '(k, c), WFull k c) <$> objects).
  assert (((λ '(k, c), put_full k c) <$> objects) = put_wire <$> ws) as ->.
  { subst ws. rewrite <- list_fmap_compose. apply list_fmap_ext. by intros ? [] _. }
  assert (wire_entry <$> ws = es) as Hes.
  { subst ws es. rewrite <- list_fmap_compose. apply list_fmap_ext. by intros ? [] _. }
  replace (length objects) with (length ws) by (subst ws; by rewrite length_fmap).
  change x00 with (flags_of false). intros Hlen. rewrite decode_wires.
  - by rewrite Hes.
  - assert (∀ index, wires_ok false index ws) as Hok; [|done].
    subst ws. clear -Ha. induction objects as [|[k c] objects IH]; intros index; [done|].
    rewrite fmap_cons. cbn [wires_ok]. split; [|apply IH; set_solver].
    split; [|done]. apply Ha. set_solver.
  - subst ws. by rewrite length_fmap.
  - by rewrite Hes.
  - unfold with_trailer in Hlen. rewrite length_app in Hlen. lia.
Qed.

(** Sorting by size only reorders the objects. *)
Lemma indexed_perm objects :
  (λ o : nat * rstr * bytes, (o.1.2, o.2)) <$>
    sort_by by_len_desc (imap (λ i '(k, c), (i, k, c)) objects) ≡ₚ objects.
Proof.
  rewrite sort_by_perm, fmap_imap. apply Permutation_refl'.
  apply list_eq. intros i. rewrite list_lookup_imap. by destruct (objects !! i) as [[]|].
Qed.
End planning.

(** * Properties *)

(** The encoder's choices, with or without deltas, are undone by the decoder. *)
Lemma bundle_decodes `{HashCratesLaws} objects use_deltas rb
  (Hbo : bundle_objects objects)
  (Hlen : zlen (encode objects use_deltas) ≤ usize_max) :
  ∃ entries, decode (encode objects use_deltas) rb = Ok entries ∧
    entries ≡ₚ (λ '(k, c), mkEntry k c) <$> objects ∧
    (use_deltas = false → entries = (λ '(k, c), mkEntry k c) <$> objects).
Proof.
  unfold encode in *. destruct (negb use_deltas || _) eqn:Hud.
  { eexists. split; [|done]. apply decode_full_only; [apply Hbo..|done]. }
  set (indexed := sort_by by_len_desc _) in *.
  assert (plans_ok (make_plans indexed)) as Hok.
  { apply (make_plans_ok objects); [done|]. intros o Ho. rewrite <- (indexed_perm objects).
    by apply (list_elem_of_fmap_2 (λ o : nat * rstr * bytes, (o.1.2, o.2))). }
  assert (plan_be <$> make_plans indexed ≡ₚ (λ '(k, c), mkEntry k c) <$> objects) as Hes.
  { rewrite make_plans_entries. rewrite <- (indexed_perm objects) at 1.
    by rewrite <- list_fmap_compose. }
  assert (length (make_plans indexed) = length objects) as Hn.
  { apply Permutation_length in Hes. by rewrite !length_fmap in Hes. }
  pose proof (decode_plans (make_plans indexed) rb Hok) as Hdec.
  destruct (emit_order (make_plans indexed)) as [order emitted].
  destruct Hdec as (es & Hdec & Hperm).
  - rewrite Hn. apply Hbo.
  - rewrite (total_content_perm _ _ Hes). apply Hbo.
  - fold (has_deltas (make_plans indexed)) in Hlen. fold (flags_of (has_deltas (make_plans indexed))) in Hlen.
    unfold with_trailer in Hlen. rewrite length_app in Hlen. lia.
  - exists es. split_and!; [exact Hdec|by rewrite Hperm|by destruct use_deltas].
Qed.


Definition sample_text : bytes := rs "a shared prefix long enough for a copy instruction".
Definition sample_objects : list (rstr * bytes) :=
  [(kappa_text Blake3 (rs "x"), rs "x");
   (kappa_text Sha256 sample_text, sample_text);
   (kappa_text Sha256 (rs "!" ++ sample_text), rs "!" ++ sample_text)].


Definition decoded_ok `{HashCrates} (st : decode_state) : Prop :=
  Forall entry_addressed (ds_entries st) ∧
  ds_total st = total_content (ds_entries st) ∧ ds_total st ≤ DECODE_MAX_BYTES.

Lemma total_content_app l1 l2 : total_content (l1 ++ l2) = total_content l1 + total_content l2.
Proof. induction l1 as [|e l1 IH]; simpl; [done|]. rewrite IH. lia. Qed.

Lemma accept_entry_sound `{HashCratesLaws} st pos kappa content st' :
  decoded_ok st → accept_entry st pos kappa content = Ok st' →
  decoded_ok st' ∧ length (ds_entries st') = S (length (ds_entries st)).
Proof.
  intros (Hall & Htot & Hmax) Hst. unfold accept_entry in Hst. inv_ok.
  apply Z.ltb_ge in Hc. unfold DECODE_MAX_BYTES, usize_max, u64_max in *.
  split; [split_and!|]; cbn [ds_entries ds_total].
  - apply Forall_app. split; [done|]. apply Forall_singleton.
    apply verify_entry_addressed. by match goal with u : () |- _ => destruct u end.
  - rewrite total_content_app. cbn [total_content foldr be_content]. lia.
  - done.
  - rewrite length_app. simpl. lia.
Qed.

Lemma decode_entry_sound `{HashCratesLaws} payload flags rb st st' :
  decoded_ok st → decode_entry payload flags rb st = Ok st' →
  decoded_ok st' ∧ length (ds_entries st') = S (length (ds_entries st)).
Proof.
  intros Hok Hst. unfold decode_entry in Hst.
  apply bind_ok_inv in Hst as (t & _ & Hst). cbv zeta in Hst.
  destruct (decide _); [|destruct (decide _); [|done]]; inv_ok; by eapply accept_entry_sound.
Qed.

Lemma decode_entries_sound `{HashCratesLaws} n payload flags rb st st' :
  decoded_ok st → decode_entries n payload flags rb st = Ok st' →
  decoded_ok st' ∧ length (ds_entries st') = (n + length (ds_entries st))%nat.
Proof.
  revert st. induction n as [|n IH]; intros st Hok Hst; cbn [decode_entries] in Hst; inv_ok; [done|].
  match goal with H1 : decode_entry _ _ _ _ = Ok _ |- _ => apply decode_entry_sound in H1 as [H1 Hl]; [|done] end.
  apply IH in Hst as [? ->]; [|done]. split; [done|lia].
Qed.

(** C38: whatever a bundle contains and whatever bases the resolver supplies, the
    decoder only ever returns entries whose label is the address of their
    content, as many as the header announced, of at most 256 MiB in all, from a
    payload whose SHA-256 is the trailer. *)
Theorem bundle_decode_sound `{HashCratesLaws} data rb entries
  (Hd : decode data rb = Ok entries) :
  Forall entry_addressed entries ∧ total_content entries ≤ DECODE_MAX_BYTES ∧
  zlen entries = from_be (slice data 6 10) ∧
  ∃ payload, data = payload ++ sha256_digest payload.
Proof.
  unfold decode in Hd. cbv zeta in Hd.
  repeat match type of Hd with (if ?c then Err _ else _) = _ =>
    let E := fresh "E" in destruct c eqn:E; [done|] end.
  inv_ok.
  match goal with HD : decode_entries _ _ _ _ _ = Ok _ |- _ =>
    apply decode_entries_sound in HD as [(Hall & Htot & Hmax) Hcount] end; [|by split].
  split_and!; [done|lia| |].
  - rewrite Hcount. cbn [ds_entries length]. pose proof (from_be_range (slice data 6 10)). lia.
  - exists (take (length data - 32) data). apply negb_false_iff, bool_decide_eq_true in E0.
    rewrite E0. symmetry. apply take_drop.
Qed.

Lemma bundle_decode_sound_witness :
  Forall entry_addressed [mkEntry (kappa_text Blake3 (rs "x")) (rs "x")].
Proof.
  apply (bundle_decode_sound (encode_full_only [(kappa_text Blake3 (rs "x"), rs "x")]) None).
  vm_compute. reflexivity.
Defined.

(** A one-entry payload whose content length field is 2^64 - 1. *)
Definition overflow_payload : bytes :=
  header x00 1 ++ [ENTRY_TYPE_FULL] ++ put_kappa (rs "k") ++ replicate 8 xff.

(** A bundle whose content length field is 2^64 - 1 makes the decoder panic
    instead of returning [Truncated]: [*pos + cl] is computed before it is
    checked. *)
Theorem bundle_decode_length_overflow `{HashCratesLaws} rb :
  decode (with_trailer overflow_payload) rb = Panic.
Proof.
  assert (length (sha256_digest overflow_payload) = 32%nat) as Hd.
  { pose proof (digest_length Sha256 overflow_payload) as E. change (axis_digest_bytes Sha256) with 32 in E.
    change (digest_of Sha256 overflow_payload) with (sha256_digest overflow_payload) in E. lia. }
  unfold decode, with_trailer. rewrite length_app, Hd.
  rewrite Nat.add_sub, take_app_length, drop_app_length.
  rewrite bool_decide_eq_true_2 by done.
  generalize (sha256_digest overflow_payload). intros tr. reflexivity.
Qed.
