(* ===== verification/Merkle.v ===== *)
(** Merkle: the binary Merkle tree of [kappa-core/src/merkle.rs].

    Roots, inclusion proofs and their verification over SHA-256, with the
    completeness of proofs and their binding up to SHA-256 collisions. *)

From S2P Require Import Prelude Label Compute.

Definition LEAF_PREFIX : byte := x00.
Definition NODE_PREFIX : byte := x01.

(** A 32-byte array is a list of bytes whose length is kept by [is_digest]. *)
Section merkle.
Context `{HashCrates}.

Definition hash_leaf (data : bytes) : bytes :=
  let hasher := inc_new Sha256 in
  let hasher := inc_update hasher [LEAF_PREFIX] in
  let hasher := inc_update hasher data in
  inc_finalize hasher.

Definition hash_node (left right : bytes) : bytes :=
  let hasher := inc_new Sha256 in
  let hasher := inc_update hasher [NODE_PREFIX] in
  let hasher := inc_update hasher left in
  let hasher := inc_update hasher right in
  inc_finalize hasher.

(** The inner [while i < level.len()]: pairs, the odd last one with itself. *)
Fixpoint next_level (level : list bytes) : list bytes :=
  match level with
  | a :: b :: rest => hash_node a b :: next_level rest
  | [a] => [hash_node a a]
  | [] => []
  end.

(** [while level.len() > 1]; a turn shortens the level, so the number of leaves
    is fuel enough (see [root_loop_singleton]). *)
Fixpoint root_loop (fuel : nat) (level : list bytes) : list bytes :=
  match fuel with
  | O => level
  | S fuel' => if (1 <? length level)%nat then root_loop fuel' (next_level level) else level
  end.

Definition merkle_root (leaves : list bytes) : option bytes :=
  if bool_decide (leaves = []) then None
  else let level := hash_leaf <$> leaves in head (root_loop (length level) level).

(** The sibling of [idx], itself at the odd end of a level; both lookups are in
    range. *)
Definition sibling_of (level : list bytes) (idx : nat) : bytes :=
  let sibling_idx := if Nat.even idx then S idx else (idx - 1)%nat in
  match level !! sibling_idx with
  | Some s => s
  | None => default [] (level !! idx)
  end.

Fixpoint proof_loop (fuel : nat) (level : list bytes) (idx : nat) : list (bytes * bool) :=
  match fuel with
  | O => []
  | S fuel' =>
      if (1 <? length level)%nat then
        (sibling_of level idx, negb (Nat.even idx))
          :: proof_loop fuel' (next_level level) (Nat.div2 idx)
      else []
  end.

Definition merkle_proof (leaves : list bytes) (index : nat) : option (list (bytes * bool)) :=
  if bool_decide (leaves = []) || (length leaves <=? index)%nat then None
  else let level := hash_leaf <$> leaves in Some (proof_loop (length level) level index).

Definition verify_step (current : bytes) (step : bytes * bool) : bytes :=
  let '(sibling, is_left) := step in
  if is_left : bool then hash_node sibling current else hash_node current sibling.

Definition merkle_verify (root leaf_data : bytes) (proof : list (bytes * bool)) : bool :=
  bool_decide (fold_left verify_step proof (hash_leaf leaf_data) = root).
End merkle.

(** * Levels *)

Section facts.
Context `{HashCratesLaws}.

Definition is_digest (h : bytes) : Prop := length h = 32%nat.

(** Two different inputs among [inputs] with the same SHA-256. *)
Definition sha256_collides (inputs : list bytes) : Prop :=
  ∃ x y, x ∈ inputs ∧ y ∈ inputs ∧ x ≠ y ∧ sha256_digest x = sha256_digest y.

Lemma sha256_collides_mono l l' : l ⊆ l' → sha256_collides l → sha256_collides l'.
Proof. intros Hsub (x & y & Hx & Hy & ?). exists x, y. split_and!; auto; tauto. Qed.

(** What is hashed to build the levels of a tree, and along a proof. *)
Fixpoint node_inputs (level : list bytes) : list bytes :=
  match level with
  | a :: b :: rest => (NODE_PREFIX :: a ++ b) :: node_inputs rest
  | [a] => [NODE_PREFIX :: a ++ a]
  | [] => []
  end.

Fixpoint level_inputs (fuel : nat) (level : list bytes) : list bytes :=
  match fuel with
  | O => []
  | S fuel => if (1 <? length level)%nat then node_inputs level ++ level_inputs fuel (next_level level) else []
  end.

Definition tree_inputs (leaves : list bytes) : list bytes :=
  (cons LEAF_PREFIX <$> leaves) ++ level_inputs (length leaves) (hash_leaf <$> leaves).

Definition step_input (current : bytes) (step : bytes * bool) : bytes :=
  if step.2 then NODE_PREFIX :: step.1 ++ current else NODE_PREFIX :: current ++ step.1.

Fixpoint path_inputs (current : bytes) (proof : list (bytes * bool)) : list bytes :=
  match proof with
  | [] => []
  | step :: proof => step_input current step :: path_inputs (verify_step current step) proof
  end.

Definition proof_inputs (data : bytes) (proof : list (bytes * bool)) : list bytes :=
  (LEAF_PREFIX :: data) :: path_inputs (hash_leaf data) proof.

Lemma hash_leaf_spec data : hash_leaf data = sha256_digest (LEAF_PREFIX :: data).
Proof.
  unfold hash_leaf. pose proof (inc_digest Sha256 [[LEAF_PREFIX]; data]) as E.
  cbn [fold_left concat app] in E. rewrite app_nil_r in E. exact E.
Qed.

Lemma hash_node_spec l r : hash_node l r = sha256_digest (NODE_PREFIX :: l ++ r).
Proof.
  unfold hash_node. pose proof (inc_digest Sha256 [[NODE_PREFIX]; l; r]) as E.
  cbn [fold_left concat app] in E. rewrite app_nil_r in E. exact E.
Qed.

Lemma sha256_is_digest x : is_digest (sha256_digest x).
Proof.
  unfold is_digest. pose proof (digest_length Sha256 x) as E.
  change (axis_digest_bytes Sha256) with 32 in E.
  change (digest_of Sha256 x) with (sha256_digest x) in E. lia.
Qed.

Lemma hash_leaf_digest data : is_digest (hash_leaf data).
Proof. rewrite hash_leaf_spec. apply sha256_is_digest. Qed.

Lemma hash_node_digest l r : is_digest (hash_node l r).
Proof. rewrite hash_node_spec. apply sha256_is_digest. Qed.

(** Hashes of known inputs determine what was hashed, or there is a collision. *)
Lemma hash_leaf_inj L a b : LEAF_PREFIX :: a ∈ L → LEAF_PREFIX :: b ∈ L →
  hash_leaf a = hash_leaf b → a = b ∨ sha256_collides L.
Proof.
  rewrite !hash_leaf_spec. intros Ha Hb E. destruct (decide (a = b)); [by left|right].
  exists (LEAF_PREFIX :: a), (LEAF_PREFIX :: b). split_and!; [done..| |done]. congruence.
Qed.

Lemma hash_node_inj L l r l' r' :
  is_digest l → is_digest l' → NODE_PREFIX :: l ++ r ∈ L → NODE_PREFIX :: l' ++ r' ∈ L →
  hash_node l r = hash_node l' r' → (l = l' ∧ r = r') ∨ sha256_collides L.
Proof.
  rewrite !hash_node_spec. intros Hl Hl' Hi Hi' E.
  destruct (decide (l ++ r = l' ++ r')) as [Ha|Ha].
  - left. apply app_inj_1 in Ha; [done|]. unfold is_digest in *. congruence.
  - right. exists (NODE_PREFIX :: l ++ r), (NODE_PREFIX :: l' ++ r'). split_and!; [done..| |done]. congruence.
Qed.

Lemma next_level_digests level : Forall is_digest (next_level level).
Proof.
  induction level as [|x|x y l IH] using list_pair_ind; cbn [next_level]; [done|..];
    constructor; auto using hash_node_digest.
Qed.

Lemma length_next_level level : length (next_level level) = Nat.div2 (S (length level)).
Proof.
  induction level as [|x|x y l IH] using list_pair_ind; [done..|]. cbn [next_level length].
  rewrite IH. done.
Qed.

Lemma next_level_shorter level :
  (1 < length level)%nat → (0 < length (next_level level) < length level)%nat.
Proof.
  rewrite length_next_level. intros Hl. pose proof (Nat.div2_odd (S (length level))) as E.
  destruct (Nat.odd (S (length level))); cbn [Nat.b2n] in E; lia.
Qed.

Lemma root_loop_singleton fuel level :
  (0 < length level ≤ S fuel)%nat → length (root_loop fuel level) = 1%nat.
Proof.
  revert level. induction fuel as [|fuel IH]; intros level Hl; cbn [root_loop]; [lia|].
  destruct (Nat.ltb_spec 1 (length level)) as [Hgt|]; [|lia].
  apply IH. pose proof (next_level_shorter level Hgt). lia.
Qed.

(** The parent of the node at [idx]. *)
Lemma next_level_parent level idx x :
  level !! idx = Some x →
  next_level level !! Nat.div2 idx = Some (verify_step x (sibling_of level idx, negb (Nat.even idx))).
Proof.
  revert idx. induction level as [|a|a b l IH] using list_pair_ind; intros idx Hx; [done| |].
  - destruct idx; [|done]. by simplify_eq/=.
  - destruct idx as [|[|idx]]; [by simplify_eq/=..|].
    transitivity (next_level l !! Nat.div2 idx); [done|]. rewrite (IH idx Hx).
    change (Nat.even (S (S idx))) with (Nat.even idx). do 3 f_equal. unfold sibling_of.
    destruct (Nat.even idx) eqn:Hev.
    + cbn [Nat.even]. rewrite Hev. done.
    + cbn [Nat.even]. rewrite Hev. destruct idx; [done|]. cbn. by rewrite Nat.sub_0_r.
Qed.

(** Following a generated proof reaches the root. *)
Lemma proof_loop_root fuel level idx x :
  (length level ≤ S fuel)%nat → level !! idx = Some x →
  head (root_loop fuel level) = Some (fold_left verify_step (proof_loop fuel level idx) x).
Proof.
  revert level idx x. induction fuel as [|fuel IH]; intros level idx x Hl Hx;
    pose proof (lookup_lt_Some _ _ _ Hx); cbn [root_loop proof_loop].
  - destruct level as [|y [|]]; [done| |simpl in Hl; lia]. by destruct idx; simplify_eq/=.
  - destruct (Nat.ltb_spec 1 (length level)) as [Hgt|Hle].
    + cbn [fold_left]. apply IH; [|by apply next_level_parent].
      pose proof (next_level_shorter level Hgt). lia.
    + destruct level as [|y [|]]; [done| |simpl in Hle; lia]. by destruct idx; simplify_eq/=.
Qed.

(** A level determines the one below it, given its length. *)
Lemma next_level_inj L l l' :
  Forall is_digest l → Forall is_digest l' → length l = length l' →
  node_inputs l ⊆ L → node_inputs l' ⊆ L →
  next_level l = next_level l' → l = l' ∨ sha256_collides L.
Proof.
  revert l'. induction l as [|x|x y l IH] using list_pair_ind; intros [|x' [|y' l']] Hd Hd' Hlen Hi Hi' E;
    try done; try (by left); cbn [next_level node_inputs] in *; inversion Hd; inversion Hd'; subst.
  - injection E as E. apply (hash_node_inj L) in E as [[-> _]|E]; auto; set_solver.
  - injection E as E1 E2. inversion Hlen.
    apply (hash_node_inj L) in E1 as [[-> ->]|E1]; [|by right|auto|auto|set_solver|set_solver].
    destruct (IH l') as [->|?]; auto; [by eapply Forall_inv_tail..|set_solver|set_solver].
Qed.

Lemma root_loop_inj L fuel l l' :
  Forall is_digest l → Forall is_digest l' → length l = length l' → (length l ≤ S fuel)%nat →
  (0 < length l)%nat → level_inputs fuel l ⊆ L → level_inputs fuel l' ⊆ L →
  head (root_loop fuel l) = head (root_loop fuel l') → l = l' ∨ sha256_collides L.
Proof.
  revert l l'. induction fuel as [|fuel IH]; intros l l' Hd Hd' Hlen Hf Hpos Hi Hi' E; cbn [root_loop level_inputs] in *.
  - destruct l as [|? []], l' as [|? []]; simplify_eq/=; auto; lia.
  - rewrite <- Hlen in E, Hi'. destruct (Nat.ltb_spec 1 (length l)) as [Hgt|Hle].
    + pose proof (next_level_shorter l Hgt).
      destruct (IH (next_level l) (next_level l')) as [E'|?]; auto using next_level_digests;
        [by rewrite !length_next_level, Hlen|lia|lia|set_solver|set_solver|].
      apply (next_level_inj L) in E'; auto; set_solver.
    + destruct l as [|? []], l' as [|? []]; simplify_eq/=; auto; lia.
Qed.

(** Walking the same directions from two starts to the same end. *)
Lemma verify_path_inj L p q x y :
  snd <$> p = snd <$> q → Forall (is_digest ∘ fst) p → Forall (is_digest ∘ fst) q →
  is_digest x → is_digest y → path_inputs x p ⊆ L → path_inputs y q ⊆ L →
  fold_left verify_step p x = fold_left verify_step q y → (x = y ∧ p = q) ∨ sha256_collides L.
Proof.
  revert q x y. induction p as [|[s d] p IH]; intros [|[t e] q] x y Hdir Hp Hq Hx Hy Hi Hi' E; try done; [by left|].
  cbn [fmap list_fmap snd fold_left path_inputs] in *. injection Hdir as -> Hdir.
  inversion Hp as [|? ? Hs Hp']. inversion Hq as [|? ? Ht Hq']. subst. simpl in Hs, Ht.
  assert (∀ a s b, is_digest (verify_step a (s, b))) as Hv
    by (intros ?? []; apply hash_node_digest).
  destruct (IH q (verify_step x (s, e)) (verify_step y (t, e)) Hdir Hp' Hq' (Hv _ _ _) (Hv _ _ _))
    as [[E' ->]|?]; [set_solver|set_solver|done| |by right].
  destruct e; cbn [verify_step step_input fst snd] in *; apply (hash_node_inj L) in E' as [[-> ->]|?]; auto; set_solver.
Qed.

Lemma sibling_of_digest level idx :
  Forall is_digest level → (idx < length level)%nat → is_digest (sibling_of level idx).
Proof.
  intros Hd [x Hx]%lookup_lt_is_Some_2. unfold sibling_of.
  rewrite Hx. case_match; [eapply (Forall_lookup_1 _ _ _ _ Hd); eassumption|].
  exact (Forall_lookup_1 _ _ _ _ Hd Hx).
Qed.

Lemma proof_loop_digests fuel level idx :
  Forall is_digest level → (idx < length level)%nat →
  Forall (is_digest ∘ fst) (proof_loop fuel level idx).
Proof.
  revert level idx. induction fuel as [|fuel IH]; intros level idx Hd Hi; cbn [proof_loop]; [done|].
  destruct (_ <? _)%nat; [|done]. constructor; [by apply sibling_of_digest|].
  apply IH; [apply next_level_digests|].
  destruct (lookup_lt_is_Some_2 _ _ Hi) as [x Hx]. apply next_level_parent in Hx.
  by eapply lookup_lt_Some.
Qed.
Lemma merkle_root_None leaves : merkle_root leaves = None ↔ leaves = [].
Proof.
  unfold merkle_root. case_bool_decide as E; [done|]. split; [|done].
  pose proof (root_loop_singleton (length (hash_leaf <$> leaves)) (hash_leaf <$> leaves)) as Hs.
  rewrite length_fmap in *. destruct (root_loop _ _); [|done]. intros _.
  destruct leaves; [done|]. simpl in Hs. lia.
Qed.

Lemma merkle_proof_verifies leaves index data :
  leaves !! index = Some data →
  ∃ root proof, merkle_root leaves = Some root ∧ merkle_proof leaves index = Some proof ∧
    merkle_verify root data proof = true.
Proof.
  intros E. pose proof (lookup_lt_Some _ _ _ E). unfold merkle_root, merkle_proof.
  rewrite bool_decide_eq_false_2 by (intros ->; done). cbn [orb].
  rewrite (proj2 (Nat.leb_gt _ _)) by done.
  rewrite (proof_loop_root _ _ index (hash_leaf data));
    [|rewrite length_fmap; lia|by rewrite list_lookup_fmap, E].
  eexists _, _. split_and!; [done..|]. by apply bool_decide_eq_true.
Qed.
End facts.

(** * Properties *)

(** For every leaf of every non-empty tree, [merkle_proof] produces a proof
    that [merkle_verify] accepts against the [merkle_root]; out of range there is
    no proof, and only the empty tree has no root. *)
Theorem merkle_complete `{HashCratesLaws} leaves index :
  match leaves !! index with
  | Some data => ∃ root proof, merkle_root leaves = Some root ∧
      merkle_proof leaves index = Some proof ∧ merkle_verify root data proof = true
  | None => merkle_proof leaves index = None
  end ∧ (merkle_root leaves = None ↔ leaves = []).
Proof.
  split; [|apply merkle_root_None]. destruct (leaves !! index) as [data|] eqn:E.
  - by apply merkle_proof_verifies.
  - apply lookup_ge_None in E. unfold merkle_proof.
    rewrite (proj2 (Nat.leb_le _ _)) by done. by rewrite orb_true_r.
Qed.

Lemma merkle_complete_witness :
  ∃ root proof, merkle_root [rs "a"; rs "b"; rs "c"] = Some root ∧
    merkle_proof [rs "a"; rs "b"; rs "c"] 2 = Some proof ∧ merkle_verify root (rs "c") proof = true.
Proof. exact (proj1 (merkle_complete [rs "a"; rs "b"; rs "c"] 2)). Defined.

(** C37: two trees with equally many leaves and the same root have the same
    leaves, unless two of the inputs hashed to build them collide. *)
Theorem merkle_root_binding `{HashCratesLaws} leaves leaves' root
  (Hlen : length leaves = length leaves')
  (Hr : merkle_root leaves = Some root) (Hr' : merkle_root leaves' = Some root) :
  leaves = leaves' ∨ sha256_collides (tree_inputs leaves ++ tree_inputs leaves').
Proof.
  set (L := tree_inputs leaves ++ tree_inputs leaves').
  unfold merkle_root in *. case_bool_decide; [done|]. case_bool_decide; [done|].
  assert (∀ l : list bytes, Forall is_digest (hash_leaf <$> l)) as Hd.
  { intros l. apply Forall_fmap, Forall_forall. intros x _. apply hash_leaf_digest. }
  rewrite !length_fmap in *. rewrite <- Hlen, <- Hr in Hr'.
  destruct (root_loop_inj L (length leaves) (hash_leaf <$> leaves) (hash_leaf <$> leaves')) as [E|?];
    [done|done|by rewrite !length_fmap|rewrite length_fmap; lia
    |rewrite length_fmap; destruct leaves; simpl; [done|lia]
    |unfold L, tree_inputs; set_solver|unfold L, tree_inputs; rewrite <- Hlen; set_solver|congruence| |by right].
  assert (∀ x, x ∈ leaves → LEAF_PREFIX :: x ∈ L) as Hin.
  { intros x Hx. unfold L, tree_inputs. rewrite !elem_of_app, list_elem_of_fmap. left. left. eauto. }
  assert (∀ x, x ∈ leaves' → LEAF_PREFIX :: x ∈ L) as Hin'.
  { intros x Hx. unfold L, tree_inputs. rewrite !elem_of_app, !list_elem_of_fmap. right. left. eauto. }
  clearbody L. clear -E Hin Hin' H0. revert leaves' E Hin'.
  induction leaves as [|x l IH]; intros [|y l'] E Hin'; try done; [by left|].
  rewrite !fmap_cons in E. injection E as [-> | ?]%(hash_leaf_inj L) E; [|by right|apply Hin; by left|apply Hin'; by left].
  destruct (IH (λ z Hz, Hin z (list_elem_of_further _ _ _ Hz)) _ E (λ z Hz, Hin' z (list_elem_of_further _ _ _ Hz))) as [->|?]; auto.
Qed.

Lemma merkle_root_binding_witness :
  [rs "a"; rs "b"; rs "c"] = [rs "a"; rs "b"; rs "c"] ∨
  sha256_collides (tree_inputs [rs "a"; rs "b"; rs "c"] ++ tree_inputs [rs "a"; rs "b"; rs "c"]).
Proof.
  eapply (merkle_root_binding [rs "a"; rs "b"; rs "c"] [rs "a"; rs "b"; rs "c"]);
    vm_compute; reflexivity.
Defined.

(** An accepted proof that takes the directions of leaf [index] is the proof
    the tree generates, and the disclosed data is that leaf, unless an input
    hashed along the accepted proof collides with one along the leaf's own. *)
Theorem merkle_verify_sound `{HashCratesLaws} leaves index root leaf data proof proof'
  (Hr : merkle_root leaves = Some root) (Hp : merkle_proof leaves index = Some proof)
  (Hleaf : leaves !! index = Some leaf)
  (Hdir : snd <$> proof' = snd <$> proof) (Hd : Forall (is_digest ∘ fst) proof')
  (Hv : merkle_verify root data proof' = true) :
  (data = leaf ∧ proof' = proof) ∨ sha256_collides (proof_inputs data proof' ++ proof_inputs leaf proof).
Proof.
  unfold merkle_proof in Hp. destruct (bool_decide (leaves = []) || _) eqn:E; [done|].
  apply orb_false_iff in E as [_ Hi%Nat.leb_gt]. unfold merkle_root in Hr.
  destruct (bool_decide _); [done|]. injection Hp as Hp.
  rewrite (proof_loop_root _ _ index (hash_leaf leaf)) in Hr;
    [|rewrite length_fmap; lia|by rewrite list_lookup_fmap, Hleaf].
  injection Hr as <-. apply bool_decide_eq_true in Hv. rewrite Hp in Hv.
  remember (proof_inputs data proof' ++ proof_inputs leaf proof) as L eqn:HL.
  destruct (verify_path_inj L _ _ (hash_leaf data) (hash_leaf leaf) Hdir Hd) as [[E E2]|Hcol];
    [|apply hash_leaf_digest|apply hash_leaf_digest| | |done| |by right].
  - rewrite <- Hp. apply proof_loop_digests; [|by rewrite length_fmap].
    apply Forall_fmap, Forall_forall. intros y _. apply hash_leaf_digest.
  - rewrite HL. unfold proof_inputs. set_solver.
  - rewrite HL. unfold proof_inputs. set_solver.
  - apply (hash_leaf_inj L) in E as [E|Hcol]; [by left|by right|rewrite HL; unfold proof_inputs; set_solver..].
Qed.

Lemma merkle_verify_sound_witness :
  let leaves := [rs "a"; rs "b"; rs "c"] in
  let proof := default [] (merkle_proof leaves 1) in
  (rs "b" = rs "b" ∧ proof = proof) ∨ sha256_collides (proof_inputs (rs "b") proof ++ proof_inputs (rs "b") proof).
Proof.
  intros leaves proof.
  apply (merkle_verify_sound leaves 1 (default [] (merkle_root leaves)) (rs "b") (rs "b") proof proof).
  - vm_compute; reflexivity.
  - vm_compute; reflexivity.
  - reflexivity.
  - reflexivity.
  - repeat constructor.
  - vm_compute; reflexivity.
Defined.

(** Repeating the last leaf of a tree with an odd number of leaves leaves the
    root unchanged: the domain-separation prefixes do not make the root bind the
    number of leaves. *)
Theorem merkle_root_odd_duplicate `{HashCratesLaws} leaves x
  (Hodd : Nat.even (length leaves) = true) (Hne : leaves ≠ []) :
  merkle_root (leaves ++ [x]) = merkle_root (leaves ++ [x; x]).
Proof.
  assert (next_level (hash_leaf <$> leaves ++ [x]) = next_level (hash_leaf <$> leaves ++ [x; x])) as E.
  { clear Hne. induction leaves as [|a|a b l IH] using list_pair_ind; [done|done|].
    rewrite <- !app_comm_cons, !fmap_cons. cbn [next_level]. f_equal. by apply IH. }
  assert (∀ l fuel fuel', (0 < length l ≤ S fuel)%nat → (length l ≤ S fuel')%nat →
    root_loop fuel l = root_loop fuel' l) as Hfuel.
  { clear. intros l fuel. revert l. induction fuel as [|fuel IH]; intros l [|fuel'] H1 H2; cbn [root_loop];
      try done; destruct (Nat.ltb_spec 1 (length l)) as [Hgt|]; try done; try lia.
    pose proof (next_level_shorter l Hgt). apply IH; lia. }
  unfold merkle_root. rewrite !bool_decide_eq_false_2 by (by destruct leaves).
  f_equal. destruct leaves as [|a l]; [done|]. rewrite !length_fmap, !length_app.
  cbn [length].
  cbn [Nat.add root_loop]. rewrite !length_fmap, !length_app. cbn [length].
  rewrite !(proj2 (Nat.ltb_lt _ _)) by lia. rewrite E.
  apply Hfuel; rewrite length_next_level, length_fmap, length_app; cbn [length];
    pose proof (Nat.div2_odd (S (S (length l) + 2))) as Hdiv;
    destruct (Nat.odd (S (S (length l) + 2))); cbn [Nat.b2n] in Hdiv; lia.
Qed.

Lemma merkle_root_odd_duplicate_witness :
  merkle_root [rs "a"; rs "b"; rs "c"] = merkle_root [rs "a"; rs "b"; rs "c"; rs "c"].
Proof. apply (merkle_root_odd_duplicate [rs "a"; rs "b"] (rs "c")); [reflexivity|discriminate]. Defined.
