(* ===== verification/Epoch.v ===== *)
(** Epoch: signed epoch roots, [kappa-core/src/epoch.rs] and
    [kappa-core/src/canonical.rs].

    An epoch root is a Merkle tree over seven dCBOR leaves with a length-prefixed
    serialization.  The dCBOR crate is the class [Dcbor]. *)

From S2P Require Import Prelude Label Compute Types Merkle.

(** * The dCBOR crate *)

Class Dcbor := {
  cbor : Type;
  (** [Into<CBOR>] for the types used here. *)
  cbor_of_text : rstr → cbor;
  cbor_of_u64 : Z → cbor;
  cbor_null : cbor;
  cbor_of_bytes : bytes → cbor;
  cbor_of_mutation : EpochMutation → cbor;
  cbor_of_tag : TagEntry → cbor;
  (** [to_cbor_data], and [try_from_data] with its error text. *)
  to_cbor_data : cbor → bytes;
  try_from_data : bytes → cbor + rstr;
  (** [String::try_from], [u64::try_from], the [Null] case, [as_byte_string]. *)
  text_of_cbor : cbor → rstr + rstr;
  u64_of_cbor : cbor → Z + rstr;
  is_null : cbor → bool;
  as_byte_string : cbor → option bytes;
  (** Text in Unicode normalization form C. *)
  is_nfc : rstr → bool;
}.

(** Documented behaviour: canonical data decodes to the value it encodes (text
    is stored in NFC), and conversions invert each other. *)
Class DcborLaws `{Dcbor} : Prop := {
  decode_text : ∀ s, is_nfc s = true → try_from_data (to_cbor_data (cbor_of_text s)) = inl (cbor_of_text s);
  decode_u64 : ∀ n, 0 ≤ n ≤ u64_max → try_from_data (to_cbor_data (cbor_of_u64 n)) = inl (cbor_of_u64 n);
  decode_null : try_from_data (to_cbor_data cbor_null) = inl cbor_null;
  decode_bytes : ∀ b, try_from_data (to_cbor_data (cbor_of_bytes b)) = inl (cbor_of_bytes b);
  text_conv : ∀ s, text_of_cbor (cbor_of_text s) = inl s;
  u64_conv : ∀ n, 0 ≤ n ≤ u64_max → u64_of_cbor (cbor_of_u64 n) = inl n;
  bytes_conv : ∀ b, as_byte_string (cbor_of_bytes b) = Some b;
  null_is_null : is_null cbor_null = true;
  text_not_null : ∀ s, is_null (cbor_of_text s) = false;
}.

(** * Canonical serialization *)

Inductive CanonicalError := CDecode (e : rstr) | CConversion (e : rstr).

(** [e.to_string()]. *)
Definition canonical_error_str (e : CanonicalError) : rstr :=
  match e with
  | CDecode e => rs "canonical decode error: " ++ e
  | CConversion e => rs "canonical conversion error: " ++ e
  end.

Definition canonical_bytes `{Dcbor} {T} (into : T → cbor) (value : T) : bytes :=
  to_cbor_data (into value).

Definition from_canonical `{Dcbor} {T} (try_from : cbor → T + rstr) (data : bytes)
  : outcome CanonicalError T :=
  match try_from_data data with
  | inr e => Err (CDecode e)
  | inl c =>
      match try_from c with
      | inr e => Err (CConversion e)
      | inl v => Ok v
      end
  end.

(** [Into<CBOR>] of the other codable types, whose encoders are derived. *)
Class IntoCbor `{Dcbor} (T : Type) := into_cbor : T → cbor.

Definition kappa_from_value `{HashCrates} `{IntoCbor T} (value : T) : rstr :=
  kappa_from_bytes (canonical_bytes into_cbor value).

(** * Epoch roots *)

Definition EPOCH_LEAF_COUNT : nat := 7.

Record EpochRootFields := mkEpochFields {
  f_namespace : rstr;
  f_epoch_number : Z;
  f_prev_root_kappa : option rstr;
  f_state_root : bytes;
  f_mutations_root : bytes;
  f_timestamp_ms : Z;
  f_signer_anchor : rstr;
}.

(** The fields together with what [build] derives and [with_signature] adds. *)
Record EpochRoot := mkEpochRoot {
  er_fields : EpochRootFields;
  er_root_hash : bytes;
  er_signature : bytes;
  er_leaves : list bytes;
}.

Inductive EpochError := MalformedLeafData (msg : rstr).

Section epoch.
Context `{HashCrates} `{Dcbor}.

Definition encode_leaves (f : EpochRootFields) : list bytes :=
  [ canonical_bytes cbor_of_text (f_namespace f);
    canonical_bytes cbor_of_u64 (f_epoch_number f);
    match f_prev_root_kappa f with
    | Some k => canonical_bytes cbor_of_text k
    | None => to_cbor_data cbor_null
    end;
    to_cbor_data (cbor_of_bytes (f_state_root f));
    to_cbor_data (cbor_of_bytes (f_mutations_root f));
    canonical_bytes cbor_of_u64 (f_timestamp_ms f);
    canonical_bytes cbor_of_text (f_signer_anchor f) ].

(** [expect] on the root of a non-empty list of leaves. *)
Definition build (f : EpochRootFields) : outcome EpochError EpochRoot :=
  let leaves := encode_leaves f in
  root_hash ← unwrap (merkle_root leaves);
  Ok (mkEpochRoot f root_hash [] leaves).

Definition with_signature (e : EpochRoot) (signature : bytes) : EpochRoot :=
  mkEpochRoot (er_fields e) (er_root_hash e) signature (er_leaves e).

Definition put_leaf (leaf : bytes) : bytes := to_be 4 (wrap 32 (zlen leaf)) ++ leaf.

Definition to_leaf_bytes (e : EpochRoot) : bytes :=
  concat (put_leaf <$> er_leaves e) ++
  (if bool_decide (er_signature e = []) then [] else put_leaf (er_signature e)).

Definition epoch_kappa (e : EpochRoot) : rstr := kappa_from_bytes (to_leaf_bytes e).

(** The parsing loop; a turn consumes the four bytes of a length at least.
    [cursor + len] stays below 2^64 since [len] is a [u32]. *)
Fixpoint parse_leaves (fuel : nat) (data : bytes) (cursor : nat) (leaves : list bytes)
  : outcome EpochError (list bytes) :=
  if (length data <=? cursor)%nat then Ok leaves
  else
    match fuel with
    | O => Panic
    | S fuel' =>
        if (length data <? cursor + 4)%nat then
          Err (MalformedLeafData (rs "truncated length prefix"))
        else
          let len := from_be (slice data cursor (cursor + 4)) in
          let cursor := (cursor + 4)%nat in
          if zlen data <? Z.of_nat cursor + len then
            Err (MalformedLeafData (rs "truncated leaf data"))
          else
            let len := Z.to_nat len in
            parse_leaves fuel' data (cursor + len) (leaves ++ [slice data cursor (cursor + len)])
    end.

(** [leaves[i]]. *)
Definition leaf_at (leaves : list bytes) (i : nat) : outcome EpochError bytes := unwrap (leaves !! i).

Definition decode_leaf {T} (try_from : cbor → T + rstr) (leaf : bytes) : outcome EpochError T :=
  map_err (λ e, MalformedLeafData (canonical_error_str e)) (from_canonical try_from leaf).

(** [CBOR::try_from_data(leaf).map_err(..)]. *)
Definition cbor_leaf (leaf : bytes) : outcome EpochError cbor :=
  match try_from_data leaf with
  | inl c => Ok c
  | inr e => Err (MalformedLeafData e)
  end.

Definition decode_prev (leaf : bytes) : outcome EpochError (option rstr) :=
  c ← cbor_leaf leaf;
  if is_null c then Ok None else s ← decode_leaf text_of_cbor leaf; Ok (Some s).

(** [r[..n].copy_from_slice(&b[..n])] on a zeroed 32-byte array, [n = min 32]. *)
Definition copy32 (b : bytes) : bytes :=
  let n := Nat.min 32 (length b) in take n b ++ replicate (32 - n) x00.

(** 7 entries: unsigned; 8 entries: the last one is the signature. *)
Definition split_signature (leaves : list bytes) : outcome EpochError (list bytes * bytes) :=
  if decide (length leaves = S EPOCH_LEAF_COUNT) then
    sig ← unwrap (last leaves);
    Ok (take EPOCH_LEAF_COUNT leaves, sig)
  else if decide (length leaves = EPOCH_LEAF_COUNT) then Ok (leaves, [])
  else Err (MalformedLeafData (rs "expected 7 or 8 entries, got " ++ dec (zlen leaves))).

Definition decode_fields (leaves : list bytes) : outcome EpochError EpochRootFields :=
  l0 ← leaf_at leaves 0; namespace ← decode_leaf text_of_cbor l0;
  l1 ← leaf_at leaves 1; epoch_number ← decode_leaf u64_of_cbor l1;
  l2 ← leaf_at leaves 2; prev_root_kappa ← decode_prev l2;
  l3 ← leaf_at leaves 3; c3 ← cbor_leaf l3;
  state_root ← ok_or (as_byte_string c3) (MalformedLeafData (rs "state_root not a byte string"));
  l4 ← leaf_at leaves 4; c4 ← cbor_leaf l4;
  mutations_root ←
    ok_or (as_byte_string c4) (MalformedLeafData (rs "mutations_root not a byte string"));
  l5 ← leaf_at leaves 5; timestamp_ms ← decode_leaf u64_of_cbor l5;
  l6 ← leaf_at leaves 6; signer_anchor ← decode_leaf text_of_cbor l6;
  Ok (mkEpochFields namespace epoch_number prev_root_kappa (copy32 state_root)
        (copy32 mutations_root) timestamp_ms signer_anchor).

Definition from_leaf_bytes (data : bytes) : outcome EpochError EpochRoot :=
  leaves ← parse_leaves (length data) data 0 [];
  '(leaves, signature) ← split_signature leaves;
  root_hash ← ok_or (merkle_root leaves) (MalformedLeafData (rs "empty leaves"));
  fields ← decode_fields leaves;
  Ok (mkEpochRoot fields root_hash signature leaves).

Definition proof_for_leaf (e : EpochRoot) (leaf_index : nat) : option (list (bytes * bool)) :=
  if (EPOCH_LEAF_COUNT <=? leaf_index)%nat then None else merkle_proof (er_leaves e) leaf_index.

Definition verify_leaf (e : EpochRoot) (leaf_data : bytes) (proof : list (bytes * bool)) : bool :=
  merkle_verify (er_root_hash e) leaf_data proof.

Definition mutations_merkle_root (mutations : list EpochMutation) : bytes :=
  if bool_decide (length mutations = O) then replicate 32 x00
  else
    let encoded := canonical_bytes cbor_of_mutation <$> mutations in
    default (replicate 32 x00) (merkle_root encoded).

Definition state_merkle_root (sorted_tags : list TagEntry) : bytes :=
  if bool_decide (length sorted_tags = O) then replicate 32 x00
  else
    let encoded := canonical_bytes cbor_of_tag <$> sorted_tags in
    default (replicate 32 x00) (merkle_root encoded).
End epoch.

(** * Length-prefixed leaves *)

Section leaves.
Context `{HashCratesLaws} `{DcborLaws}.

Definition leaf_sized (l : bytes) : Prop := zlen l < 2 ^ 32.

Lemma length_put_leaf l : length (put_leaf l) = (4 + length l)%nat.
Proof. unfold put_leaf. by rewrite length_app, length_to_be. Qed.

Lemma parse_leaves_step fuel pre l rest acc :
  leaf_sized l →
  let data := pre ++ put_leaf l ++ rest in
  parse_leaves (S fuel) data (length pre) acc
  = parse_leaves fuel data (length (pre ++ put_leaf l)) (acc ++ [l]).
Proof.
  intros Hl data. unfold leaf_sized in Hl.
  assert (length data = length pre + 4 + length l + length rest)%nat as Hlen.
  { subst data. rewrite !length_app, length_put_leaf. lia. }
  assert (from_be (slice data (length pre) (length pre + 4)) = zlen l) as Hn.
  { subst data. unfold put_leaf. rewrite <- app_assoc, slice_app by (rewrite ?length_to_be; done).
    unfold wrap. rewrite from_to_be by (apply Z.mod_pos_bound; lia). apply Z.mod_small. lia. }
  assert (slice data (length pre + 4) (length pre + 4 + length l) = l) as Hsl.
  { subst data. unfold put_leaf. rewrite <- app_assoc, (app_assoc pre).
    rewrite slice_app; [done|rewrite length_app, length_to_be; lia..]. }
  cbn [parse_leaves].
  rewrite (proj2 (Nat.leb_gt _ _)), (proj2 (Nat.ltb_ge _ _)), Hn by lia. cbv zeta.
  rewrite (proj2 (Z.ltb_ge _ _)) by lia. rewrite Nat2Z.id, Hsl. f_equal.
  rewrite length_app, length_put_leaf. lia.
Qed.

Lemma parse_leaves_put fuel ls pre acc :
  Forall leaf_sized ls → (length ls ≤ fuel)%nat →
  parse_leaves fuel (pre ++ concat (put_leaf <$> ls)) (length pre) acc = Ok (acc ++ ls).
Proof.
  intros Hls. revert fuel pre acc. induction Hls as [|l ls Hl Hls IH]; intros fuel pre acc Hf.
  - cbn [fmap list_fmap concat]. rewrite !app_nil_r.
    destruct fuel; cbn [parse_leaves]; by rewrite Nat.leb_refl.
  - destruct fuel as [|fuel]; [simpl in Hf; lia|]. rewrite fmap_cons. cbn [concat].
    rewrite parse_leaves_step by done.
    rewrite (app_assoc pre), IH by (simpl in Hf; lia). by rewrite <- app_assoc.
Qed.

Lemma take_slice (l : bytes) i n : take n (drop i l) = slice l i (i + n).
Proof. unfold slice. by replace (i + n - i)%nat with n by lia. Qed.

(** What was parsed serializes back to the input. *)
Lemma parse_leaves_inv fuel data cursor acc r :
  parse_leaves fuel data cursor acc = Ok r →
  ∃ ls, r = acc ++ ls ∧ drop cursor data = concat (put_leaf <$> ls).
Proof.
  revert cursor acc. induction fuel as [|fuel IH]; intros cursor acc; cbn [parse_leaves];
    destruct (Nat.leb_spec (length data) cursor) as [Hc|Hc]; try done.
  1,2: intros [= <-]; exists []; by rewrite app_nil_r, drop_ge.
  destruct (Nat.ltb_spec (length data) (cursor + 4)) as [|H4]; [done|].
  destruct (Z.ltb_spec (zlen data) (Z.of_nat (cursor + 4) + from_be (slice data cursor (cursor + 4)))) as [|Hlen];
    [done|].
  intros (ls & -> & Hrest)%IH. eexists (_ :: ls). rewrite <- app_assoc. split; [done|].
  rewrite fmap_cons. cbn [concat]. rewrite <- Hrest.
  assert (length (slice data cursor (cursor + 4)) = 4%nat) as H4'.
  { unfold slice. rewrite length_take, length_drop. lia. }
  pose proof (from_be_range (slice data cursor (cursor + 4))) as Hr. rewrite H4' in Hr.
  set (n := from_be (slice data cursor (cursor + 4))) in *.
  unfold put_leaf, wrap.
  assert (length (slice data (cursor + 4) (cursor + 4 + Z.to_nat n)) = Z.to_nat n) as Hn.
  { unfold slice. rewrite length_take, length_drop. lia. }
  rewrite Hn, Z2Nat.id, Z.mod_small by lia.
  assert (to_be 4 n = slice data cursor (cursor + 4)) as ->.
  { subst n. rewrite <- H4' at 1. apply to_from_be. }
  rewrite <- !take_slice, <- (drop_drop _ _ (cursor + 4)), <- (drop_drop _ _ cursor), <- app_assoc, !take_drop. done.
Qed.

Lemma parse_leaves_no_panic fuel data cursor acc :
  (length data - cursor ≤ fuel)%nat → parse_leaves fuel data cursor acc ≠ Panic.
Proof.
  revert cursor acc. induction fuel as [|fuel IH]; intros cursor acc Hf; cbn [parse_leaves];
    destruct (Nat.leb_spec (length data) cursor); try done; [lia|].
  destruct (_ <? _)%nat; [done|]. destruct (_ <? _); [done|]. apply IH. lia.
Qed.

(** * Building *)

Lemma build_ok f :
  ∃ root, merkle_root (encode_leaves f) = Some root ∧
    build f = Ok (mkEpochRoot f root [] (encode_leaves f)).
Proof.
  destruct (merkle_root (encode_leaves f)) as [root|] eqn:E; [|by apply merkle_root_None in E].
  exists root. split; [done|]. unfold build. by rewrite E.
Qed.

(** Fields the serialization keeps: NFC text, [u64] numbers, 32-byte roots and
    leaves whose length fits 32 bits. *)
Record fields_ok (f : EpochRootFields) : Prop := {
  fo_namespace : is_nfc (f_namespace f) = true;
  fo_epoch : 0 ≤ f_epoch_number f ≤ u64_max;
  fo_prev : ∀ k, f_prev_root_kappa f = Some k → is_nfc k = true;
  fo_state : length (f_state_root f) = 32%nat;
  fo_mutations : length (f_mutations_root f) = 32%nat;
  fo_timestamp : 0 ≤ f_timestamp_ms f ≤ u64_max;
  fo_signer : is_nfc (f_signer_anchor f) = true;
  fo_leaves : Forall leaf_sized (encode_leaves f);
}.

Lemma decode_leaf_text s : is_nfc s = true →
  decode_leaf text_of_cbor (canonical_bytes cbor_of_text s) = Ok s.
Proof.
  intros Hs. unfold decode_leaf, from_canonical, canonical_bytes.
  by rewrite decode_text, text_conv.
Qed.

Lemma decode_leaf_u64 n : 0 ≤ n ≤ u64_max →
  decode_leaf u64_of_cbor (canonical_bytes cbor_of_u64 n) = Ok n.
Proof.
  intros Hn. unfold decode_leaf, from_canonical, canonical_bytes.
  by rewrite decode_u64, u64_conv.
Qed.

Lemma decode_prev_leaf p : (∀ k, p = Some k → is_nfc k = true) →
  decode_prev match p with
    | Some k => canonical_bytes cbor_of_text k
    | None => to_cbor_data cbor_null
    end = Ok p.
Proof.
  intros Hp. unfold decode_prev, cbor_leaf. destruct p as [k|].
  - rewrite decode_leaf_text by auto. unfold canonical_bytes. rewrite decode_text by auto. osimpl.
    by rewrite text_not_null.
  - rewrite decode_null. osimpl. by rewrite null_is_null.
Qed.

Lemma copy32_id b : length b = 32%nat → copy32 b = b.
Proof. intros Hb. unfold copy32. rewrite Hb, take_ge by (rewrite Hb; done). apply app_nil_r. Qed.

(** Decoding the seven leaves gives the fields back. *)
Lemma from_leaf_bytes_leaves f sig root data :
  fields_ok f → merkle_root (encode_leaves f) = Some root →
  parse_leaves (length data) data 0 []
  = Ok (encode_leaves f ++ (if bool_decide (sig = []) then [] else [sig])) →
  from_leaf_bytes data = Ok (mkEpochRoot f root sig (encode_leaves f)).
Proof.
  intros Hf Hroot Hparse. unfold from_leaf_bytes. rewrite Hparse. osimpl.
  assert (split_signature (encode_leaves f ++ (if bool_decide (sig = []) then [] else [sig]))
          = Ok (encode_leaves f, sig)) as -> by (by case_bool_decide; subst).
  osimpl. rewrite Hroot. osimpl.
  assert (decode_fields (encode_leaves f) = Ok f) as ->; [|done].
  unfold decode_fields, leaf_at, encode_leaves. cbn [lookup list_lookup]. osimpl.
  destruct Hf. rewrite !decode_leaf_text, !decode_leaf_u64, decode_prev_leaf by done. osimpl.
  unfold cbor_leaf. rewrite !decode_bytes. osimpl. rewrite !bytes_conv. osimpl.
  rewrite !copy32_id by done. by destruct f.
Qed.

(** With seven leaves in hand, decoding the fields cannot panic. *)
Lemma decode_fields_no_panic leaves :
  length leaves = EPOCH_LEAF_COUNT → decode_fields leaves ≠ Panic.
Proof.
  intros Hl. do 7 (destruct leaves as [|? leaves]; [done|]). destruct leaves; [|done].
  assert (∀ T (g : cbor → T + rstr) l, decode_leaf g l ≠ Panic) as Hd.
  { intros T g l'. unfold decode_leaf, from_canonical. destruct (try_from_data l') as [c|]; [|done].
    by destruct (g c). }
  assert (∀ l, cbor_leaf l ≠ Panic) as Hc by (intros l'; unfold cbor_leaf; by destruct (try_from_data l')).
  assert (∀ l, decode_prev l ≠ Panic) as Hp.
  { intros l'. unfold decode_prev. pose proof (Hc l'). destruct (cbor_leaf l') as [c| |]; [|done|done].
    osimpl. destruct (is_null c); [done|]. pose proof (Hd _ text_of_cbor l').
    by destruct (decode_leaf text_of_cbor l'). }
  unfold decode_fields, leaf_at. cbn [lookup list_lookup]. osimpl.
  repeat match goal with
  | |- (?m ≫= _) ≠ Panic =>
      let Hm := fresh in
      assert (m ≠ Panic) as Hm by (apply Hd || apply Hc || apply Hp || by destruct (as_byte_string _));
      destruct m; [osimpl|done|done]; clear Hm
  end; done.
Qed.
End leaves.

Lemma split_signature_inv ls leaves sig :
  split_signature ls = Ok (leaves, sig) →
  length leaves = EPOCH_LEAF_COUNT ∧ ((ls = leaves ∧ sig = []) ∨ ls = leaves ++ [sig]).
Proof.
  unfold split_signature. case_decide as E; [|case_decide; intros; inv_ok; auto].
  destruct ls as [|l ls _] using rev_ind; [done|]. rewrite length_app, Nat.add_1_r in E. injection E as E.
  rewrite last_snoc. osimpl. rewrite take_app_length' by done. intros [= <- <-]. auto.
Qed.

Lemma split_signature_no_panic ls : split_signature ls ≠ Panic.
Proof.
  unfold split_signature. case_decide as E; [|by case_decide].
  destruct ls as [|l ls _] using rev_ind; [done|]. by rewrite last_snoc.
Qed.

Lemma from_leaf_bytes_no_panic `{HashCratesLaws} `{Dcbor} data : from_leaf_bytes data ≠ Panic.
Proof.
  unfold from_leaf_bytes.
  destruct (parse_leaves (length data) data 0 []) as [ls| |] eqn:Hp; osimpl;
    [|done|by apply parse_leaves_no_panic in Hp; [|lia]].
  pose proof (split_signature_no_panic ls). destruct (split_signature ls) as [[leaves sig]| |] eqn:Hs; osimpl; [|done|done].
  apply split_signature_inv in Hs as [H7 _]. destruct (merkle_root leaves); osimpl; [|done].
  pose proof (decode_fields_no_panic leaves H7). by destruct (decode_fields leaves).
Qed.

(** * A concrete dCBOR stand-in

    One tag byte and a payload, for evaluating the model. *)
Inductive sample_cbor := SText (s : rstr) | SNum (n : Z) | SNull | SBytes (b : bytes).

#[export] Instance sample_dcbor : Dcbor := {|
  cbor := sample_cbor;
  cbor_of_text := SText;
  cbor_of_u64 := SNum;
  cbor_null := SNull;
  cbor_of_bytes := SBytes;
  cbor_of_mutation m := SText (em_tag_name m);
  cbor_of_tag t := SText (te_name t);
  to_cbor_data c :=
    match c with
    | SText s => x60 :: s | SNum n => x00 :: to_be 8 n | SNull => [xf6] | SBytes b => x40 :: b
    end;
  try_from_data d :=
    match d with
    | x60 :: s => inl (SText s) | x00 :: n => inl (SNum (from_be n))
    | [xf6] => inl SNull | x40 :: b => inl (SBytes b) | _ => inr (rs "malformed")
    end;
  text_of_cbor c := match c with SText s => inl s | _ => inr (rs "wrong type") end;
  u64_of_cbor c := match c with SNum n => inl n | _ => inr (rs "wrong type") end;
  is_null c := match c with SNull => true | _ => false end;
  as_byte_string c := match c with SBytes b => Some b | _ => None end;
  is_nfc _ := true;
|}.

#[export] Instance sample_dcbor_laws : DcborLaws.
Proof.
  split; try done. intros n Hn. unfold u64_max in Hn. cbn [try_from_data to_cbor_data cbor_of_u64 sample_dcbor].
  do 2 f_equal. apply from_to_be. change (256 ^ Z.of_nat 8) with 18446744073709551616. lia.
Qed.

(** * Properties *)

(** An epoch root built from its fields and signed survives serialization:
    [from_leaf_bytes] of [to_leaf_bytes] is the same root, with the same fields,
    Merkle hash, signature and leaves. *)
Theorem epoch_roundtrip `{HashCratesLaws} `{DcborLaws} f signature
  (Hf : fields_ok f) (Hs : leaf_sized signature) :
  ∃ e, build f = Ok e ∧ er_fields e = f ∧
    from_leaf_bytes (to_leaf_bytes (with_signature e signature)) = Ok (with_signature e signature).
Proof.
  destruct (build_ok f) as (root & Hroot & ->). eexists. split_and!; [done..|].
  unfold with_signature. cbn [er_fields er_root_hash er_leaves].
  apply from_leaf_bytes_leaves; [done|done|]. unfold to_leaf_bytes. cbn [er_leaves er_signature].
  set (ls := encode_leaves f ++ (if bool_decide (signature = []) then [] else [signature])).
  assert (concat (put_leaf <$> encode_leaves f) ++
          (if bool_decide (signature = []) then [] else put_leaf signature)
          = concat (put_leaf <$> ls)) as ->.
  { subst ls. rewrite fmap_app, concat_app. case_bool_decide; [done|].
    cbn [fmap list_fmap concat]. by rewrite app_nil_r. }
  apply (parse_leaves_put _ ls []).
  - apply Forall_app. split; [apply Hf|]. case_bool_decide; [done|]. by apply Forall_singleton.
  - clearbody ls. clear. induction ls as [|l ls IH]; [done|]. rewrite fmap_cons. cbn [concat length].
    rewrite length_app, length_put_leaf. lia.
Qed.

Definition sample_fields : EpochRootFields :=
  mkEpochFields (rs "team/app") 3 (Some (rs "prev")) (replicate 32 xaa) (replicate 32 xbb) 1700 (rs "anchor").

Lemma epoch_roundtrip_witness :
  ∃ e, build sample_fields = Ok e ∧ er_fields e = sample_fields ∧
    from_leaf_bytes (to_leaf_bytes (with_signature e (rs "sig"))) = Ok (with_signature e (rs "sig")).
Proof.
  apply epoch_roundtrip; [|reflexivity].
  split; [done|split; vm_compute; discriminate|done|done|done|split; vm_compute; discriminate|done|].
  repeat constructor.
Defined.

(** Whatever bytes [from_leaf_bytes] accepts, the result has seven leaves and
    the Merkle root of exactly those leaves, and serializes back to the input;
    the one other accepted form appends a zero-length signature entry, which
    reads as unsigned.  The parser always terminates without panicking. *)
Theorem from_leaf_bytes_sound `{HashCratesLaws} `{Dcbor} data :
  match from_leaf_bytes data with
  | Ok e => length (er_leaves e) = EPOCH_LEAF_COUNT ∧
      merkle_root (er_leaves e) = Some (er_root_hash e) ∧
      (data = to_leaf_bytes e ∨ (er_signature e = [] ∧ data = to_leaf_bytes e ++ replicate 4 x00))
  | Err _ => True
  | Panic => False
  end.
Proof.
  unfold from_leaf_bytes.
  destruct (parse_leaves (length data) data 0 []) as [ls| |] eqn:Hp; osimpl;
    [|done|by apply parse_leaves_no_panic in Hp; [|lia]].
  apply parse_leaves_inv in Hp as (ls' & -> & Hdata). cbn [app] in *. rewrite drop_0 in Hdata.
  destruct (split_signature ls') as [[leaves sig]| |] eqn:Hsplit; osimpl;
    [|done|by destruct (split_signature_no_panic ls')].
  apply split_signature_inv in Hsplit as (H7 & Hls).
  destruct (merkle_root leaves) as [root|] eqn:Hroot; osimpl; [|done].
  pose proof (decode_fields_no_panic leaves H7).
  destruct (decode_fields leaves) as [f| |]; osimpl; [|done|done].
  split_and!; [done|done|]. unfold to_leaf_bytes. cbn [er_leaves er_signature].
  destruct Hls as [[-> ->] | ->]; [left|case_bool_decide as Es; [right|left]].
  - by rewrite Hdata, app_nil_r.
  - split; [done|]. rewrite Hdata, Es, fmap_app, concat_app, !app_nil_r. done.
  - rewrite Hdata, fmap_app, concat_app. cbn [fmap list_fmap concat]. by rewrite app_nil_r.
Qed.

Lemma from_leaf_bytes_sound_witness :
  ∃ e, from_leaf_bytes (concat (put_leaf <$> encode_leaves sample_fields)) = Ok e ∧
    length (er_leaves e) = EPOCH_LEAF_COUNT ∧ merkle_root (er_leaves e) = Some (er_root_hash e).
Proof.
  pose proof (from_leaf_bytes_sound (concat (put_leaf <$> encode_leaves sample_fields))) as H.
  destruct (from_leaf_bytes (concat (put_leaf <$> encode_leaves sample_fields))) as [e| |] eqn:E;
    [|vm_compute in E; discriminate E..].
  exists e. split; [reflexivity|]. exact (conj (proj1 H) (proj1 (proj2 H))).
Defined.

(** Selective disclosure: each of the seven leaves of a built epoch root has
    a proof its [verify_leaf] accepts, and there is none beyond them. *)
Theorem epoch_selective_disclosure `{HashCratesLaws} `{Dcbor} f e i
  (He : build f = Ok e) :
  match er_leaves e !! i with
  | Some leaf => ∃ proof, proof_for_leaf e i = Some proof ∧ verify_leaf e leaf proof = true
  | None => proof_for_leaf e i = None
  end.
Proof.
  destruct (build_ok f) as (root & Hroot & Hb). rewrite Hb in He. injection He as <-.
  cbn [er_leaves]. unfold proof_for_leaf, verify_leaf. cbn [er_leaves er_root_hash].
  destruct (encode_leaves f !! i) as [leaf|] eqn:Hi.
  - pose proof (lookup_lt_Some _ _ _ Hi) as Hlt. unfold EPOCH_LEAF_COUNT.
    rewrite (proj2 (Nat.leb_gt _ _)) by done.
    destruct (merkle_proof_verifies _ _ _ Hi) as (root' & proof & Hr & Hp & Hv).
    rewrite Hroot in Hr. simplify_eq. eauto.
  - apply lookup_ge_None in Hi. by rewrite (proj2 (Nat.leb_le _ _)) by done.
Qed.

Lemma epoch_selective_disclosure_witness :
  ∃ e proof, build sample_fields = Ok e ∧ proof_for_leaf e 2 = Some proof ∧
    verify_leaf e (x60 :: rs "prev") proof = true.
Proof.
  destruct (build sample_fields) as [e| |] eqn:E; [|vm_compute in E; discriminate E..].
  pose proof (epoch_selective_disclosure sample_fields e 2 E) as H.
  vm_compute in E. injection E as <-. destruct H as (proof & H1 & H2).
  eexists _, proof. split; [reflexivity|]. split; [exact H1|exact H2].
Defined.
