(* ===== verification/Identity.v ===== *)
(** Identity: assertions, revocations, watermarks and their resolution, trust
    positions and peer probing: [kappa-core/src/identity/] with the verifier
    dispatch and anchors of [kappa-core/src/crypto/mod.rs] and
    [crypto/anchor.rs]. *)

From S2P Require Import Prelude Label Compute Types Merkle Epoch.

(** * Records *)

Record IdentityAssertion := mkAssertion {
  as_asserter : rstr;
  as_subject : rstr;
  as_facet : rstr;
  as_value : bytes;
  as_basis : rstr;
  as_valid_from_ms : Z;
  as_valid_until_ms : option Z;
  as_signature : bytes;
}.

(** The subset of assertion fields that are signed. *)
Record SignableAssertion := mkSignable {
  sa_asserter : rstr;
  sa_subject : rstr;
  sa_facet : rstr;
  sa_value : bytes;
  sa_basis : rstr;
  sa_valid_from_ms : Z;
  sa_valid_until_ms : option Z;
}.

Definition signable_of (a : IdentityAssertion) : SignableAssertion :=
  mkSignable (as_asserter a) (as_subject a) (as_facet a) (as_value a) (as_basis a)
    (as_valid_from_ms a) (as_valid_until_ms a).

Inductive RevocationReason :=
| RKeyCompromise | RSuperseded | RErroneous | RPrivilegeWithdrawn | RCessationOfOperation.

Definition reason_as_str (r : RevocationReason) : rstr :=
  match r with
  | RKeyCompromise => rs "key-compromise"
  | RSuperseded => rs "superseded"
  | RErroneous => rs "erroneous"
  | RPrivilegeWithdrawn => rs "privilege-withdrawn"
  | RCessationOfOperation => rs "cessation-of-operation"
  end.

Record RevocationRec := mkRevocation {
  rv_asserter : rstr;
  rv_assertion_kappa : rstr;
  rv_reason : RevocationReason;
  rv_revoked_at_ms : Z;
  rv_signature : bytes;
}.

Definition revocation_unsigned (r : RevocationRec) : RevocationRec :=
  mkRevocation (rv_asserter r) (rv_assertion_kappa r) (rv_reason r) (rv_revoked_at_ms r) [].

Record Watermark := mkWatermark {
  wm_asserter : rstr;
  wm_invalidate_before_ms : Z;
  wm_reason : rstr;
  wm_set_at_ms : Z;
}.

Definition invalidates (w : Watermark) (valid_from_ms : Z) : bool :=
  valid_from_ms <? wm_invalidate_before_ms w.

Record IdentityBinding := mkBinding {
  ib_source : rstr;
  ib_target : rstr;
  ib_method : rstr;
  ib_trust_level : Z;
  ib_verified_at_ms : Z;
}.

#[export] Instance IdentityBinding_eq_dec : EqDecision IdentityBinding.
Proof. solve_decision. Defined.

Record IdentitySuccession := mkSuccession {
  is_old_anchor : rstr;
  is_new_anchor : rstr;
  is_reason : rstr;
  is_effective_at_ms : Z;
  is_old_signature : bytes;
  is_new_signature : bytes;
}.

Definition succession_unsigned (s : IdentitySuccession) : IdentitySuccession :=
  mkSuccession (is_old_anchor s) (is_new_anchor s) (is_reason s) (is_effective_at_ms s) [] [].

(** * Signatures and anchors *)

Inductive CryptoError :=
| UnsupportedAlgorithm (a : rstr)
| InvalidKey
| InvalidSignature
| OtherCrypto (msg : rstr).

Definition crypto_error_str (e : CryptoError) : rstr :=
  match e with
  | UnsupportedAlgorithm a => rs "unsupported algorithm: " ++ a
  | InvalidKey => rs "invalid key"
  | InvalidSignature => rs "invalid signature"
  | OtherCrypto msg => msg
  end.

Inductive VerifierKind :=
| Ed25519Verifier | P256EcdsaVerifier | K256EcdsaVerifier | P256SchnorrVerifier | K256SchnorrVerifier.

Definition verifier_for (algorithm : rstr) : outcome CryptoError VerifierKind :=
  if decide (algorithm = rs "ed25519") then Ok Ed25519Verifier
  else if decide (algorithm = rs "frost-ed25519") then Ok Ed25519Verifier
  else if decide (algorithm = rs "p256") then Ok P256EcdsaVerifier
  else if decide (algorithm = rs "k256") then Ok K256EcdsaVerifier
  else if decide (algorithm = rs "frost-p256") then Ok P256SchnorrVerifier
  else if decide (algorithm = rs "frost-secp256k1") then Ok K256SchnorrVerifier
  else Err (UnsupportedAlgorithm algorithm).

(** The signature crates behind the verifiers: key, message, signature. *)
Class SignatureCrates := {
  sig_verify : VerifierKind → bytes → bytes → bytes → bool + CryptoError;
}.

(** The input of anchor derivation. *)
Record AnchorInput := mkAnchorInput { ai_algorithm : rstr; ai_public_key : bytes }.

(** * Resolution *)

Record ResolutionResult := mkResolution {
  res_valid : list IdentityAssertion;
  res_revoked : list (IdentityAssertion * RevocationRec);
  res_watermarked : list (IdentityAssertion * Watermark);
}.

Section identity.
Context `{HashCrates} `{Dcbor}.
Context `{!IntoCbor IdentityAssertion} `{!IntoCbor SignableAssertion} `{!IntoCbor AnchorInput}
        `{!IntoCbor RevocationRec} `{!IntoCbor IdentitySuccession}.

Definition assertion_signable_bytes (a : IdentityAssertion) : bytes :=
  canonical_bytes into_cbor (signable_of a).
Definition revocation_signable_bytes (r : RevocationRec) : bytes :=
  canonical_bytes into_cbor (revocation_unsigned r).
Definition succession_signable_bytes (s : IdentitySuccession) : bytes :=
  canonical_bytes into_cbor (succession_unsigned s).

Definition compute_anchor (algorithm : rstr) (public_key : bytes) : rstr :=
  kappa_from_value (mkAnchorInput algorithm public_key).

Definition asserter_from_signature `{SignatureCrates} (algorithm : rstr)
  (public_key message signature : bytes) : outcome CryptoError rstr :=
  verifier ← verifier_for algorithm;
  match sig_verify verifier public_key message signature with
  | inl true => Ok (compute_anchor algorithm public_key)
  | inl false => Err InvalidSignature
  | inr e => Err e
  end.

Definition assertion_kappa (a : IdentityAssertion) : rstr :=
  kappa_from_bytes (canonical_bytes into_cbor a).

(** One turn of the resolution loop. *)
Definition resolve_one (revocations : list RevocationRec) (watermarks : list Watermark) (at_ms : Z)
  (res : ResolutionResult) (a : IdentityAssertion) : ResolutionResult :=
  if at_ms <? as_valid_from_ms a then res
  else if match as_valid_until_ms a with Some until => until <? at_ms | None => false end then res
  else
    match List.find (λ r, bool_decide (rv_assertion_kappa r = assertion_kappa a)
                          && bool_decide (rv_asserter r = as_asserter a)) revocations with
    | Some r => mkResolution (res_valid res) (res_revoked res ++ [(a, r)]) (res_watermarked res)
    | None =>
        match List.find (λ w, bool_decide (wm_asserter w = as_asserter a)
                              && invalidates w (as_valid_from_ms a)) watermarks with
        | Some w => mkResolution (res_valid res) (res_revoked res) (res_watermarked res ++ [(a, w)])
        | None => mkResolution (res_valid res ++ [a]) (res_revoked res) (res_watermarked res)
        end
    end.

Definition resolve_at (assertions : list IdentityAssertion) (revocations : list RevocationRec)
  (watermarks : list Watermark) (at_ms : Z) : ResolutionResult :=
  fold_left (resolve_one revocations watermarks at_ms) assertions (mkResolution [] [] []).

Definition resolve_all (assertions : list IdentityAssertion) (revocations : list RevocationRec)
  (watermarks : list Watermark) : ResolutionResult :=
  resolve_at assertions revocations watermarks u64_max.

Definition filter_valid (res : ResolutionResult) (asserter_filter : option (rstr → bool))
  : ResolutionResult :=
  match asserter_filter with
  | Some f => mkResolution (filter (λ a, f (as_asserter a) = true) (res_valid res))
                (res_revoked res) (res_watermarked res)
  | None => res
  end.

Definition resolve_all_filtered (assertions : list IdentityAssertion)
  (revocations : list RevocationRec) (watermarks : list Watermark)
  (asserter_filter : option (rstr → bool)) : ResolutionResult :=
  filter_valid (resolve_all assertions revocations watermarks) asserter_filter.

Definition resolve_at_filtered (assertions : list IdentityAssertion)
  (revocations : list RevocationRec) (watermarks : list Watermark) (at_ms : Z)
  (asserter_filter : option (rstr → bool)) : ResolutionResult :=
  filter_valid (resolve_at assertions revocations watermarks at_ms) asserter_filter.

(** * Audience labels *)

Definition derive_audience_label (subject audience_id : rstr) : rstr :=
  hex_encode (blake3_hash (subject ++ rs ":" ++ audience_id)).
End identity.

(** * Trust positions and probing *)

Inductive DegradeReason := DSignatureInvalid | DAnchorMismatch | DEquivocation | DMalformedResponse.

Definition degrade_as_str (r : DegradeReason) : rstr :=
  match r with
  | DSignatureInvalid => rs "signature-invalid"
  | DAnchorMismatch => rs "anchor-mismatch"
  | DEquivocation => rs "equivocation"
  | DMalformedResponse => rs "malformed-response"
  end.

Inductive TrustPosition :=
| Unprobed
| Standalone
| Federated (verified_peers : Z)
| Degraded (reason : DegradeReason) (reachable verified : Z).

Definition position_as_str (p : TrustPosition) : rstr :=
  match p with
  | Unprobed => rs "unprobed"
  | Standalone => rs "standalone"
  | Federated _ => rs "federated"
  | Degraded _ _ _ => rs "degraded"
  end.

Definition is_faulted (p : TrustPosition) : bool :=
  match p with Degraded _ _ _ => true | _ => false end.

Record PeerRecord := mkPeer {
  pr_endpoint : rstr;
  pr_asserter_anchor : rstr;
  pr_last_epoch : Z;
  pr_state_root : rstr;
}.

Record PeerEpochResponse := mkPeerResponse {
  per_anchor : rstr;
  per_algorithm : rstr;
  per_epoch_number : Z;
  per_root_kappa : rstr;
  per_signature : bytes;
  per_public_key : bytes;
}.

Inductive ProbeError := PTransport (msg : rstr) | PVerification (e : CryptoError).

Inductive ProbeResult :=
| PVerified (peer : PeerRecord)
| PSignatureInvalid (who : rstr)
| PEquivocation (peer : rstr) (epoch : Z) (local_root remote_root : rstr)
| PUnreachable (msg : rstr).

(** The message a peer signs. *)
Definition probe_message (namespace root_kappa : rstr) (epoch_number : Z) : bytes :=
  namespace ++ [x0a] ++ root_kappa ++ [x0a] ++ dec epoch_number.

(** [probe_peer], given what the transport returned. *)
Definition probe_peer `{HashCrates} `{Dcbor} `{SignatureCrates}
  (fetched : PeerEpochResponse + ProbeError) (endpoint namespace : rstr)
  (local_epoch : option EpochRoot) : ProbeResult :=
  match fetched with
  | inr (PTransport msg) => PUnreachable msg
  | inr (PVerification e) => PSignatureInvalid (crypto_error_str e)
  | inl r =>
      match verifier_for (per_algorithm r) with
      | Ok verifier =>
          match sig_verify verifier (per_public_key r)
                  (probe_message namespace (per_root_kappa r) (per_epoch_number r))
                  (per_signature r) with
          | inl true =>
              let verified := PVerified (mkPeer endpoint (per_anchor r) (per_epoch_number r)
                                           (per_root_kappa r)) in
              match local_epoch with
              | Some local =>
                  if bool_decide (f_epoch_number (er_fields local) = per_epoch_number r)
                     && negb (bool_decide (epoch_kappa local = per_root_kappa r))
                  then PEquivocation (per_anchor r) (per_epoch_number r) (epoch_kappa local)
                         (per_root_kappa r)
                  else verified
              | None => verified
              end
          | inl false => PSignatureInvalid (per_anchor r)
          | inr e => PSignatureInvalid (crypto_error_str e)
          end
      | _ => PSignatureInvalid (rs "unsupported algorithm: " ++ per_algorithm r)
      end
  end.

(** The counters of [update_from_probes]. *)
Record probe_counts := mkCounts {
  pc_verified : Z;
  pc_unreachable : Z;
  pc_sig_invalid : Z;
  pc_equivocations : Z;
}.

Definition count_probe (c : probe_counts) (r : ProbeResult) : probe_counts :=
  match r with
  | PVerified _ => mkCounts (pc_verified c + 1) (pc_unreachable c) (pc_sig_invalid c) (pc_equivocations c)
  | PUnreachable _ => mkCounts (pc_verified c) (pc_unreachable c + 1) (pc_sig_invalid c) (pc_equivocations c)
  | PSignatureInvalid _ => mkCounts (pc_verified c) (pc_unreachable c) (pc_sig_invalid c + 1) (pc_equivocations c)
  | PEquivocation _ _ _ _ => mkCounts (pc_verified c) (pc_unreachable c) (pc_sig_invalid c) (pc_equivocations c + 1)
  end.

(** [update_from_probes] on the node's current position. *)
Definition update_from_probes (position : TrustPosition) (results : list ProbeResult) : TrustPosition :=
  match results with
  | [] => position
  | _ =>
      let c := fold_left count_probe results (mkCounts 0 0 0 0) in
      let total := zlen results in
      if 0 <? pc_equivocations c then
        Degraded DEquivocation (pc_verified c + pc_sig_invalid c) (pc_verified c)
      else if 0 <? pc_sig_invalid c then
        Degraded DSignatureInvalid (pc_verified c + pc_sig_invalid c) (pc_verified c)
      else if 0 <? pc_verified c then Federated (pc_verified c)
      else if pc_unreachable c =? total then Standalone
      else Unprobed
  end.

(** * Resolution: what each assertion becomes *)

Section resolution.
Context `{HashCrates} `{Dcbor} `{!IntoCbor IdentityAssertion}.
Context (revocations : list RevocationRec) (watermarks : list Watermark) (at_ms : Z).

(** In force at [at_ms] as far as its own validity window goes. *)
Definition in_window (a : IdentityAssertion) : Prop :=
  as_valid_from_ms a ≤ at_ms ∧ ∀ until, as_valid_until_ms a = Some until → at_ms ≤ until.

Definition revokes (a : IdentityAssertion) (r : RevocationRec) : Prop :=
  rv_assertion_kappa r = assertion_kappa a ∧ rv_asserter r = as_asserter a.

Definition watermarks_out (a : IdentityAssertion) (w : Watermark) : Prop :=
  wm_asserter w = as_asserter a ∧ as_valid_from_ms a < wm_invalidate_before_ms w.

Lemma find_Some_inv {A} (f : A → bool) l x : List.find f l = Some x → x ∈ l ∧ f x = true.
Proof. intros [Hin Hf]%find_some. split; [by apply list_elem_of_In|done]. Qed.

Lemma find_None_inv {A} (f : A → bool) l x : List.find f l = None → x ∈ l → f x = false.
Proof. intros Hn Hx. apply (find_none _ _ Hn). by apply list_elem_of_In. Qed.

Lemma revokes_check a r :
  bool_decide (rv_assertion_kappa r = assertion_kappa a)
  && bool_decide (rv_asserter r = as_asserter a) = true ↔ revokes a r.
Proof. rewrite andb_true_iff, !bool_decide_eq_true. done. Qed.

Lemma watermarks_out_check a w :
  bool_decide (wm_asserter w = as_asserter a) && invalidates w (as_valid_from_ms a) = true
  ↔ watermarks_out a w.
Proof. unfold invalidates. rewrite andb_true_iff, bool_decide_eq_true, Z.ltb_lt. done. Qed.

(** The fate of one assertion, appended to the result so far. *)
Inductive fate (a : IdentityAssertion) : ResolutionResult → ResolutionResult → Prop :=
| fate_out res : ¬ in_window a → fate a res res
| fate_revoked res r : in_window a → r ∈ revocations → revokes a r →
    fate a res (mkResolution (res_valid res) (res_revoked res ++ [(a, r)]) (res_watermarked res))
| fate_watermarked res w : in_window a → (∀ r, r ∈ revocations → ¬ revokes a r) →
    w ∈ watermarks → watermarks_out a w →
    fate a res (mkResolution (res_valid res) (res_revoked res) (res_watermarked res ++ [(a, w)]))
| fate_valid res : in_window a → (∀ r, r ∈ revocations → ¬ revokes a r) →
    (∀ w, w ∈ watermarks → ¬ watermarks_out a w) →
    fate a res (mkResolution (res_valid res ++ [a]) (res_revoked res) (res_watermarked res)).

Lemma resolve_one_fate res a : fate a res (resolve_one revocations watermarks at_ms res a).
Proof.
  unfold resolve_one. destruct (Z.ltb_spec at_ms (as_valid_from_ms a)) as [Hlt|Hle].
  { apply fate_out. unfold in_window. lia. }
  destruct (match as_valid_until_ms a with Some until => until <? at_ms | None => false end) eqn:Hu.
  { apply fate_out. intros [_ Hw]. destruct (as_valid_until_ms a) as [u|]; [|done].
    apply Z.ltb_lt in Hu. specialize (Hw u eq_refl). lia. }
  assert (in_window a) as Hw.
  { split; [done|]. intros u E. rewrite E in Hu. by apply Z.ltb_ge in Hu. }
  destruct (List.find _ revocations) as [r|] eqn:Hr.
  { apply find_Some_inv in Hr as [Hin Hr]. apply fate_revoked; [done..|by apply revokes_check]. }
  assert (∀ r, r ∈ revocations → ¬ revokes a r) as Hnr.
  { intros r Hin Hrev%revokes_check. apply (find_None_inv _ _ _ Hr) in Hin. congruence. }
  destruct (List.find _ watermarks) as [w|] eqn:Hwm.
  - apply find_Some_inv in Hwm as [Hin Hwm]. apply fate_watermarked; [done..|by apply watermarks_out_check].
  - apply fate_valid; [done..|]. intros w Hin Hwo%watermarks_out_check.
    apply (find_None_inv _ _ _ Hwm) in Hin. congruence.
Qed.

(** Membership in the three lists after the loop. *)
Definition classified (assertions : list IdentityAssertion) (res : ResolutionResult) : Prop :=
  (∀ a, a ∈ res_valid res ↔ a ∈ assertions ∧ in_window a ∧
     (∀ r, r ∈ revocations → ¬ revokes a r) ∧ (∀ w, w ∈ watermarks → ¬ watermarks_out a w)) ∧
  (∀ a, a ∈ (fst <$> res_revoked res) ↔ a ∈ assertions ∧ in_window a ∧
     ∃ r, r ∈ revocations ∧ revokes a r) ∧
  (∀ a, a ∈ (fst <$> res_watermarked res) ↔ a ∈ assertions ∧ in_window a ∧
     (∀ r, r ∈ revocations → ¬ revokes a r) ∧ ∃ w, w ∈ watermarks ∧ watermarks_out a w) ∧
  (∀ a r, (a, r) ∈ res_revoked res → r ∈ revocations ∧ revokes a r) ∧
  (∀ a w, (a, w) ∈ res_watermarked res → w ∈ watermarks ∧ watermarks_out a w).

Lemma classify_keep {A} (P : A → Prop) (X l : list A) a :
  (∀ b, b ∈ X ↔ b ∈ l ∧ P b) → ¬ P a → ∀ b, b ∈ X ↔ b ∈ l ++ [a] ∧ P b.
Proof.
  intros HX Ha b. rewrite HX, elem_of_app, list_elem_of_singleton. naive_solver.
Qed.

Lemma classify_push {A} (P : A → Prop) (X l : list A) a :
  (∀ b, b ∈ X ↔ b ∈ l ∧ P b) → P a → ∀ b, b ∈ X ++ [a] ↔ b ∈ l ++ [a] ∧ P b.
Proof.
  intros HX Ha b. rewrite !elem_of_app, HX, !list_elem_of_singleton. naive_solver.
Qed.

Lemma resolve_at_classified assertions :
  classified assertions (resolve_at assertions revocations watermarks at_ms).
Proof.
  unfold resolve_at. induction assertions as [|a l IH] using rev_ind.
  { split_and!; cbn; set_solver. }
  rewrite fold_left_app. cbn [fold_left]. set (res := fold_left _ l _) in *. clearbody res.
  destruct IH as (Hv & Hr & Hw & Hr' & Hw').
  destruct (resolve_one_fate res a) as [res Hout|res r Hin Hrin Hrev|res w Hin Hnr Hwin Hwo|res Hin Hnr Hnw];
    unfold classified; cbn [res_valid res_revoked res_watermarked]; rewrite ?fmap_app;
    (split_and!;
     [first [apply (classify_push _ _ _ _ Hv)|apply (classify_keep _ _ _ _ Hv)]
     |first [apply (classify_push _ _ _ _ Hr)|apply (classify_keep _ _ _ _ Hr)]
     |first [apply (classify_push _ _ _ _ Hw)|apply (classify_keep _ _ _ _ Hw)]
     |intros b x; rewrite ?elem_of_app, ?list_elem_of_singleton; first [by apply Hr'|intros [?|[= -> ->]]; auto]
     |intros b x; rewrite ?elem_of_app, ?list_elem_of_singleton; first [by apply Hw'|intros [?|[= -> ->]]; auto]]);
    try tauto; try naive_solver.
Qed.
End resolution.

(** * Counting probe results *)

Definition count_of (f : ProbeResult → bool) (l : list ProbeResult) : Z :=
  zlen (List.filter f l).

Definition probe_ok (r : ProbeResult) : bool := match r with PVerified _ => true | _ => false end.
Definition probe_unreachable (r : ProbeResult) : bool := match r with PUnreachable _ => true | _ => false end.
Definition probe_bad_sig (r : ProbeResult) : bool := match r with PSignatureInvalid _ => true | _ => false end.
Definition probe_equivocates (r : ProbeResult) : bool :=
  match r with PEquivocation _ _ _ _ => true | _ => false end.

Lemma count_probe_fold results c :
  fold_left count_probe results c =
  mkCounts (pc_verified c + count_of probe_ok results)
    (pc_unreachable c + count_of probe_unreachable results)
    (pc_sig_invalid c + count_of probe_bad_sig results)
    (pc_equivocations c + count_of probe_equivocates results).
Proof.
  revert c. induction results as [|r l IH]; intros c; cbn [fold_left].
  - unfold count_of. destruct c; cbn. by rewrite !Z.add_0_r.
  - rewrite IH. unfold count_of. destruct r, c; cbn -[Z.of_nat]; f_equal; lia.
Qed.

Lemma count_total results :
  count_of probe_ok results + count_of probe_unreachable results
  + count_of probe_bad_sig results + count_of probe_equivocates results = zlen results.
Proof.
  unfold count_of. induction results as [|r l IH]; [done|]. destruct r; cbn -[Z.of_nat]; lia.
Qed.

Lemma count_nonneg f l : 0 ≤ count_of f l.
Proof. unfold count_of. lia. Qed.

Lemma count_pos f l : 0 < count_of f l ↔ ∃ r, r ∈ l ∧ f r = true.
Proof.
  unfold count_of. split.
  - intros Hl. destruct (List.filter f l) as [|r k] eqn:E; [simpl in Hl; lia|].
    exists r. rewrite list_elem_of_In. apply filter_In. rewrite E. by left.
  - intros (r & Hr & Hf). assert (In r (List.filter f l)) as Hin by (by apply filter_In; rewrite <- list_elem_of_In).
    destruct (List.filter f l); [done|]. simpl. lia.
Qed.

Lemma update_from_probes_nonempty position results :
  results ≠ [] →
  update_from_probes position results =
    let v := count_of probe_ok results in
    let b := count_of probe_bad_sig results in
    if 0 <? count_of probe_equivocates results then Degraded DEquivocation (v + b) v
    else if 0 <? b then Degraded DSignatureInvalid (v + b) v
    else if 0 <? v then Federated v
    else if count_of probe_unreachable results =? zlen results then Standalone
    else Unprobed.
Proof.
  intros Hne.
  assert (update_from_probes position results =
    let c := fold_left count_probe results (mkCounts 0 0 0 0) in
    if 0 <? pc_equivocations c then
      Degraded DEquivocation (pc_verified c + pc_sig_invalid c) (pc_verified c)
    else if 0 <? pc_sig_invalid c then
      Degraded DSignatureInvalid (pc_verified c + pc_sig_invalid c) (pc_verified c)
    else if 0 <? pc_verified c then Federated (pc_verified c)
    else if pc_unreachable c =? zlen results then Standalone
    else Unprobed) as -> by (by destruct results).
  by rewrite count_probe_fold.
Qed.

(** * Properties *)

(** At any time, every assertion in its validity window ends in exactly the
    list its evidence puts it in: revoked when a revocation by its own asserter
    names it, otherwise watermarked when a watermark of its asserter lies after
    its start, otherwise valid; assertions outside their window appear nowhere.
    An asserter filter only restricts the valid list. *)
Theorem resolve_at_correct `{HashCrates} `{Dcbor} `{!IntoCbor IdentityAssertion}
  assertions revocations watermarks at_ms asserter_filter :
  classified revocations watermarks at_ms assertions
    (resolve_at assertions revocations watermarks at_ms) ∧
  ∀ a, a ∈ res_valid (resolve_at_filtered assertions revocations watermarks at_ms (Some asserter_filter)) ↔
    a ∈ res_valid (resolve_at assertions revocations watermarks at_ms) ∧
    asserter_filter (as_asserter a) = true.
Proof.
  split; [apply resolve_at_classified|]. intros a. unfold resolve_at_filtered, filter_valid. cbn [res_valid].
  rewrite list_elem_of_filter. tauto.
Qed.

(** Evidence against assertions is grow-only: learning more revocations or
    watermarks never turns an assertion valid. *)
Theorem resolve_at_antitone `{HashCrates} `{Dcbor} `{!IntoCbor IdentityAssertion}
  assertions revs revs' wms wms' at_ms a
  (Hr : revs ⊆ revs') (Hw : wms ⊆ wms')
  (Ha : a ∈ res_valid (resolve_at assertions revs' wms' at_ms)) :
  a ∈ res_valid (resolve_at assertions revs wms at_ms).
Proof.
  destruct (resolve_at_classified revs' wms' at_ms assertions) as (H1 & _).
  destruct (resolve_at_classified revs wms at_ms assertions) as (H2 & _).
  apply H2. apply H1 in Ha as (? & ? & Hnr & Hnw). split_and!; [done..| |]; intros x Hx; auto.
Qed.

#[export] Instance sample_into_cbor : IntoCbor IdentityAssertion := λ a, SText (as_subject a).

Definition sample_assertion : IdentityAssertion :=
  mkAssertion (rs "alice") (rs "bob") (rs "role") (rs "admin") (rs "self-asserted") 10 None [].

Lemma resolve_at_antitone_witness :
  sample_assertion ∈ res_valid (resolve_at [sample_assertion] [] [] 20).
Proof.
  apply (resolve_at_antitone [sample_assertion] [] []
           [] [mkWatermark (rs "alice") 5 (rs "rotation") 6]).
  - set_solver.
  - set_solver.
  - vm_compute. left.
Defined.

(** [resolve_all] resolves at the end of time, so every assertion with an
    expiry before [u64::MAX] is missing from all three lists, although it may be
    in force now. *)
Theorem resolve_all_drops_expiring `{HashCrates} `{Dcbor} `{!IntoCbor IdentityAssertion}
  assertions revs wms a until
  (Hu : as_valid_until_ms a = Some until) (Hlt : until < u64_max) :
  (a ∉ res_valid (resolve_all assertions revs wms)) ∧
  (a ∉ (fst <$> res_revoked (resolve_all assertions revs wms))) ∧
  a ∉ (fst <$> res_watermarked (resolve_all assertions revs wms)).
Proof.
  destruct (resolve_at_classified revs wms u64_max assertions) as (Hv & Hrev & Hwm & _).
  assert (¬ in_window u64_max a) as Hout by (intros [_ Hw]; specialize (Hw _ Hu); lia).
  unfold resolve_all. rewrite Hv, Hrev, Hwm. tauto.
Qed.

Lemma resolve_all_drops_expiring_witness :
  let a := mkAssertion (rs "alice") (rs "bob") (rs "role") [] (rs "self-asserted") 0 (Some 1000) [] in
  (a ∉ res_valid (resolve_all [a] [] [])) ∧ a ∈ res_valid (resolve_at [a] [] [] 500).
Proof.
  intros a. split; [|vm_compute; left].
  apply (resolve_all_drops_expiring [a] [] [] a 1000); reflexivity.
Defined.

(** A probe reports [Verified] exactly when the peer answered, its algorithm
    is supported, its signature over the namespace, root and epoch verifies, and
    it does not contradict the local root of the same epoch; the record then
    carries the answer's values. *)
Theorem probe_peer_verified `{HashCrates} `{Dcbor} `{SignatureCrates} fetched endpoint namespace local p :
  probe_peer fetched endpoint namespace local = PVerified p ↔
  ∃ r v, fetched = inl r ∧ verifier_for (per_algorithm r) = Ok v ∧
    sig_verify v (per_public_key r)
      (probe_message namespace (per_root_kappa r) (per_epoch_number r)) (per_signature r) = inl true ∧
    (∀ l, local = Some l → f_epoch_number (er_fields l) = per_epoch_number r →
       epoch_kappa l = per_root_kappa r) ∧
    p = mkPeer endpoint (per_anchor r) (per_epoch_number r) (per_root_kappa r).
Proof.
  unfold probe_peer. split.
  - destruct fetched as [r|[]]; [|done..]. destruct (verifier_for (per_algorithm r)) as [v| |] eqn:Hv; [|done..].
    destruct (sig_verify v _ _ _) as [[]|] eqn:Hs; [|done..]. intros Hp. exists r, v.
    destruct local as [l|].
    + destruct (bool_decide (f_epoch_number (er_fields l) = per_epoch_number r) && _) eqn:E; [done|].
      injection Hp as <-. split_and!; [done..| |done]. intros l' [= <-] He.
      rewrite bool_decide_eq_true_2 in E by done. by apply negb_false_iff, bool_decide_eq_true in E.
    + injection Hp as <-. split_and!; [done..|]. by intros.
  - intros (r & v & -> & Hv & Hs & Hl & ->). rewrite Hv, Hs. destruct local as [l|]; [|done].
    case_bool_decide as He; [|done]. by rewrite (bool_decide_eq_true_2 _ (Hl l eq_refl He)).
Qed.

(** The anchor a peer claims is not tied to the key it signs with: whatever
    verifies under one claimed anchor verifies under any other. *)
Theorem probe_peer_anchor_unbound `{HashCrates} `{Dcbor} `{SignatureCrates} r endpoint namespace local p anchor
  (Hp : probe_peer (inl r) endpoint namespace local = PVerified p) :
  probe_peer (inl (mkPeerResponse anchor (per_algorithm r) (per_epoch_number r) (per_root_kappa r)
                     (per_signature r) (per_public_key r))) endpoint namespace local
  = PVerified (mkPeer endpoint anchor (pr_last_epoch p) (pr_state_root p)).
Proof.
  unfold probe_peer in *. cbn [per_algorithm per_public_key per_root_kappa per_epoch_number per_signature per_anchor].
  destruct (verifier_for _); [|done..]. destruct (sig_verify _ _ _ _) as [[]|]; [|done..].
  destruct local as [l|]; [destruct (_ && _); [done|]|]; by injection Hp as <-.
Qed.

#[export] Instance sample_signatures : SignatureCrates := {| sig_verify _ _ m s := inl (bool_decide (m = s)) |}.

Lemma probe_peer_anchor_unbound_witness :
  probe_peer (inl (mkPeerResponse (rs "mallory") (rs "ed25519") 3 (rs "root")
                     (probe_message (rs "ns") (rs "root") 3) [])) (rs "http://peer") (rs "ns") None
  = PVerified (mkPeer (rs "http://peer") (rs "mallory") 3 (rs "root")).
Proof.
  apply (probe_peer_anchor_unbound
    (mkPeerResponse (rs "alice") (rs "ed25519") 3 (rs "root") (probe_message (rs "ns") (rs "root") 3) [])
    (rs "http://peer") (rs "ns") None (mkPeer (rs "http://peer") (rs "alice") 3 (rs "root")) (rs "mallory")).
  reflexivity.
Defined.

(** The position after a round of probes: degraded exactly when some peer
    equivocated or failed signature verification (equivocation first),
    standalone when every peer was unreachable, federated with the number of
    verified peers otherwise, unchanged without probes; a round never resets the
    node to unprobed. *)
Theorem update_from_probes_correct position results :
  match update_from_probes position results with
  | Degraded reason _ verified =>
      (results = [] ∧ is_faulted position = true) ∨
      (verified = count_of probe_ok results ∧
       ((reason = DEquivocation ∧ ∃ r, r ∈ results ∧ probe_equivocates r = true) ∨
        (reason = DSignatureInvalid ∧ (∀ r, r ∈ results → probe_equivocates r = false) ∧
         ∃ r, r ∈ results ∧ probe_bad_sig r = true)))
  | Federated n => results = [] ∨ (n = count_of probe_ok results ∧ 0 < n ∧
      ∀ r, r ∈ results → probe_ok r = true ∨ probe_unreachable r = true)
  | Standalone => results = [] ∨ ∀ r, r ∈ results → probe_unreachable r = true
  | Unprobed => results = []
  end.
Proof.
  destruct (decide (results = [])) as [->|Hne]; [destruct position; simpl; auto|].
  rewrite (update_from_probes_nonempty _ _ Hne). cbv zeta.
  cbn [pc_verified pc_unreachable pc_sig_invalid pc_equivocations]. pose proof (count_total results) as Htot.
  assert (∀ f, count_of f results ≤ 0 → ∀ r, r ∈ results → f r = false) as Hnone.
  { intros f Hf r Hr. destruct (f r) eqn:E; [|done].
    assert (0 < count_of f results) by (apply count_pos; eauto). lia. }
  pose proof (count_nonneg probe_ok results). pose proof (count_nonneg probe_unreachable results).
  pose proof (count_nonneg probe_bad_sig results). pose proof (count_nonneg probe_equivocates results).
  destruct (Z.ltb_spec 0 (count_of probe_equivocates results)) as [He|He].
  { right. split; [done|]. left. split; [done|]. by apply count_pos. }
  destruct (Z.ltb_spec 0 (count_of probe_bad_sig results)) as [Hb|Hb].
  { right. split; [done|]. right. split_and!; [done| |by apply count_pos]. by apply Hnone. }
  destruct (Z.ltb_spec 0 (count_of probe_ok results)) as [Hv|Hv].
  - right. split_and!; [done..|]. intros r Hr. pose proof (Hnone _ He r Hr). pose proof (Hnone _ Hb r Hr).
    destruct r; simpl in *; auto; done.
  - rewrite (proj2 (Z.eqb_eq _ _)) by lia. right. intros r Hr.
    pose proof (Hnone _ He r Hr). pose proof (Hnone _ Hb r Hr). pose proof (Hnone _ Hv r Hr).
    by destruct r.
Qed.

(** Audience labels are computed from the subject and audience joined by a
    colon, so moving a colon-separated part from one to the other gives the same
    label: different audiences can share a label. *)
Theorem audience_label_ambiguous `{HashCrates} subject part audience :
  derive_audience_label (subject ++ rs ":" ++ part) audience
  = derive_audience_label subject (part ++ rs ":" ++ audience).
Proof. unfold derive_audience_label. by rewrite <- !app_assoc. Qed.

(** [asserter_from_signature] names an asserter only after the signature
    verified, and the anchor it returns is derived from the very key and
    algorithm that verified. *)
Theorem asserter_from_signature_sound `{HashCrates} `{Dcbor} `{!IntoCbor AnchorInput} `{SignatureCrates}
  algorithm public_key message signature anchor :
  asserter_from_signature algorithm public_key message signature = Ok anchor ↔
  ∃ v, verifier_for algorithm = Ok v ∧ sig_verify v public_key message signature = inl true ∧
    anchor = compute_anchor algorithm public_key.
Proof.
  unfold asserter_from_signature. rewrite bind_ok_inv. split.
  - intros (v & Hv & Hs). exists v. destruct (sig_verify _ _ _ _) as [[]|]; naive_solver.
  - intros (v & Hv & Hs & ->). exists v. by rewrite Hs.
Qed.
