(* ===== verification/Store.v ===== *)
(** Store: the storage trait of [kappa-core/src/store/mod.rs].

    [KappaBlobs] is the blob half of the trait with [KappaBlobsLaws] stating what
    an implementation promises; the trait's default methods are defined, and
    their properties proved, against that interface alone. *)

From S2P Require Import Prelude Label Compute Types.

(** * Effects

    A store operation reads and writes the store and may fail; the changes made
    before an error stay. *)
Definition M (St A : Type) : Type := St → St * outcome StoreError A.

#[export] Instance M_ret St : MRet (M St) := λ A a s, (s, Ok a).
#[export] Instance M_bind St : MBind (M St) := λ A B f m s,
  match m s with
  | (s', Ok a) => f a s'
  | (s', Err e) => (s', Err e)
  | (s', Panic) => (s', Panic)
  end.

Definition throw {St A} (e : StoreError) : M St A := λ s, (s, Err e).
Definition lift {St A} (m : outcome StoreError A) : M St A := λ s, (s, m).
Definition gets {St A} (f : St → A) : M St A := λ s, (s, Ok (f s)).
Definition asks {St A} (f : St → outcome StoreError A) : M St A := λ s, (s, f s).
Definition modify {St} (f : St → St) : M St () := λ s, (f s, Ok ()).
Arguments throw {St A} e _ /.
Arguments lift {St A} m _ /.
Arguments gets {St A} f _ /.
Arguments asks {St A} f _ /.
Arguments modify {St} f _ /.

Lemma M_bind_ok {St A B} (m : M St A) (f : A → M St B) s s' b :
  (m ≫= f) s = (s', Ok b) ↔ ∃ s1 a, m s = (s1, Ok a) ∧ f a s1 = (s', Ok b).
Proof.
  unfold mbind, M_bind. destruct (m s) as [s1 [a|e|]]; naive_solver.
Qed.

(** Decompose a successful run. *)
Ltac inv_run :=
  repeat match goal with
  | H : (_ ≫= _) _ = (_, Ok _) |- _ => apply M_bind_ok in H; destruct H as (? & ? & ? & H)
  | H : mret _ _ = (_, Ok _) |- _ => injection H; clear H; intros; subst
  | H : lift _ _ = (_, Ok _) |- _ => unfold lift in H; injection H; clear H; intros; subst
  end.

(** * Error texts ([to_string()]) *)

Definition label_error_str (e : LabelError) : rstr :=
  match e with
  | BadLength got => rs "length " ++ dec got ++ rs " not in 45..=135"
  | NoColon => rs "no colon separator"
  | UnknownAxis => rs "unrecognized axis token"
  | BadHex pos b => rs "non-hex byte 0x" ++ hex_of_byte (b2z b) ++ rs " at position " ++ dec pos
  | WrongDigitCount expected got =>
      rs "expected " ++ dec expected ++ rs " hex digits, got " ++ dec got
  | CollisionDetected => rs "SHA-1 collision detected, content rejected"
  | DigestMismatch expected computed axis =>
      rs "digest mismatch on axis " ++ axis ++ rs ": expected " ++ expected
      ++ rs ", computed " ++ computed
  end.

Definition reject_label {A} (m : outcome LabelError A) : outcome StoreError A :=
  map_err (λ e, SRejected (label_error_str e)) m.

(** [blob_path_for] with its [StoreError::Rejected] texts. *)
Definition path_error (e : PathError) : StoreError :=
  match e with
  | Rejected_label k => SRejected (rs "invalid kappa-label: " ++ k)
  | Rejected_short k => SRejected (rs "kappa digest too short: " ++ k)
  | Rejected_nonhex k => SRejected (rs "non-hex character in digest: " ++ k)
  end.

(** * Records of the trait *)

Record IngestResult := mkIngest {
  ir_kappa : rstr;
  ir_newly_stored : bool;
  ir_additional_kappas : list rstr;
  ir_etag : option rstr;
}.

Definition IngestResult_new (kappa : rstr) (newly_stored : bool) : IngestResult :=
  mkIngest kappa newly_stored [] None.
Definition with_additional (r : IngestResult) (additional : list rstr) : IngestResult :=
  mkIngest (ir_kappa r) (ir_newly_stored r) additional (ir_etag r).
Definition with_etag (r : IngestResult) (etag : rstr) : IngestResult :=
  mkIngest (ir_kappa r) (ir_newly_stored r) (ir_additional_kappas r) (Some etag).

Record NamespaceRecord := mkNsRecord {
  nr_uuid_hex : rstr;
  nr_owner : rstr;
  nr_created_at_ms : Z;
  nr_protocol : option rstr;
  nr_aliases : list rstr;
  nr_tombstoned : bool;
}.

(** * The blob interface *)

Class KappaBlobs (St : Type) := {
  mandatory_axes : list Axis;
  blob_put_verified : VerifiedContent → M St bool;
  blob_get : rstr → St → outcome StoreError bytes;
  blob_delete : rstr → M St ();
}.

(** Content that went through [VerifiedContent]'s constructors. *)
Definition verified_ok `{HashCrates} (v : VerifiedContent) : Prop :=
  ∃ a, vc_label v = label_of a (digest_hex a (vc_content v)) ∧ hash_refused a (vc_content v) = false.

(** What callers rely on: an invariant every operation keeps, under which
    reading by a label gives content with that address; a put makes its label
    readable and a delete makes it unreadable, leaving other labels alone. *)
Class KappaBlobsLaws (St : Type) `{HashCrates} `{KappaBlobs St} : Type := {
  store_inv : St → Prop;
  put_total : ∀ v s, store_inv s → verified_ok v → ∃ s' b, blob_put_verified v s = (s', Ok b);
  put_inv : ∀ v s s' r, store_inv s → verified_ok v → blob_put_verified v s = (s', r) → store_inv s';
  get_addressed : ∀ a hex s c, store_inv s → valid_digits a hex →
    blob_get (label_text a hex) s = Ok c → label_text a hex = kappa_text a c;
  put_get : ∀ v s s' b k, store_inv s → verified_ok v → blob_put_verified v s = (s', Ok b) →
    vc_kappa v = Ok k → ∃ c, blob_get k s' = Ok c;
  put_get_other : ∀ v s s' r a hex, store_inv s → verified_ok v → blob_put_verified v s = (s', r) →
    valid_digits a hex → vc_kappa v ≠ Ok (label_text a hex) →
    blob_get (label_text a hex) s' = blob_get (label_text a hex) s;
  put_new : ∀ v s s' b k, store_inv s → verified_ok v → blob_put_verified v s = (s', Ok b) →
    vc_kappa v = Ok k → (b = false ↔ is_ok (blob_get k s) = true);
  delete_inv : ∀ k s s' r, store_inv s → blob_delete k s = (s', r) → store_inv s';
  delete_get : ∀ a hex s s', valid_digits a hex → blob_delete (label_text a hex) s = (s', Ok ()) →
    blob_get (label_text a hex) s' = Err (SNotFound (label_text a hex));
  delete_get_other : ∀ a hex a' hex' s s' r, valid_digits a hex → valid_digits a' hex' →
    label_text a hex ≠ label_text a' hex' → blob_delete (label_text a hex) s = (s', r) →
    blob_get (label_text a' hex') s' = blob_get (label_text a' hex') s;
}.

(** * Default methods *)

Section defaults.
Context {St : Type} `{HashCrates} `{KappaBlobs St}.

(** The loop over the mandatory axes that differ from the client's. *)
Fixpoint put_additional (client_axis : Axis) (content : bytes) (axes : list Axis) : M St (list rstr) :=
  match axes with
  | [] => mret []
  | axis :: axes' =>
      if decide (axis = client_axis) then put_additional client_axis content axes'
      else
        additional ← lift (reject_label (VerifiedContent_compute axis content));
        additional_kappa ← lift (reject_label (vc_kappa additional));
        _ ← blob_put_verified additional;
        rest ← put_additional client_axis content axes';
        mret (additional_kappa :: rest)
  end.

Definition ingest_verified (claimed : rstr) (content : bytes) : M St IngestResult :=
  verified ← lift (reject_label (VerifiedContent_verify claimed content));
  client_axis ← lift (reject_label (vc_axis verified));
  kappa ← lift (reject_label (vc_kappa verified));
  newly_stored ← blob_put_verified verified;
  additional_kappas ← put_additional client_axis content mandatory_axes;
  mret (with_additional (IngestResult_new kappa newly_stored) additional_kappas).

Definition ingest_compute (axis : Axis) (content : bytes) : M St IngestResult :=
  verified ← lift (reject_label (VerifiedContent_compute axis content));
  kappa ← lift (reject_label (vc_kappa verified));
  newly_stored ← blob_put_verified verified;
  additional_kappas ← put_additional axis content mandatory_axes;
  mret (with_additional (IngestResult_new kappa newly_stored) additional_kappas).

Definition blob_get_verified (kappa : rstr) (s : St) : outcome StoreError bytes :=
  content ← blob_get kappa s;
  match verify_kappa kappa content with
  | Ok true => Ok content
  | Ok false => Err (SRejected (rs "integrity failure: content at " ++ kappa
                                ++ rs " does not match its address"))
  | Err e => Err (SRejected (rs "integrity check failed for " ++ kappa ++ rs ": "
                             ++ label_error_str e))
  | Panic => Panic
  end.

Definition blob_put_computed (content : bytes) : M St rstr :=
  result ← ingest_compute Sha256 content;
  mret (ir_kappa result).
End defaults.

(** * What the defaults guarantee *)

Section laws.
Context {St : Type} `{HashCratesLaws} `{KappaBlobs St} `{!KappaBlobsLaws St}.

Lemma verified_ok_kappa v a c :
  vc_label v = label_of a (digest_hex a c) → vc_kappa v = Ok (kappa_text a c).
Proof. intros E. unfold vc_kappa. rewrite E. apply label_as_str_of, digest_hex_valid. Qed.

Lemma compute_verified a c :
  hash_refused a c = false →
  VerifiedContent_compute a c = Ok (mkVerified (label_of a (digest_hex a c)) c).
Proof. intros Hr. unfold VerifiedContent_compute. by rewrite compute_kappa_axis, Hr. Qed.

Lemma compute_refused a c :
  hash_refused a c = true → VerifiedContent_compute a c = Err CollisionDetected.
Proof. intros Hr. unfold VerifiedContent_compute. by rewrite compute_kappa_axis, Hr. Qed.

Lemma mkVerified_ok a c :
  hash_refused a c = false → verified_ok (mkVerified (label_of a (digest_hex a c)) c).
Proof. by exists a. Qed.

(** The labels of [content] that can be read back from [s]. *)
Definition stored_under (s : St) (content : bytes) (k : rstr) : Prop :=
  ∃ a c, k = kappa_text a content ∧ blob_get k s = Ok c ∧ kappa_text a c = k.

Lemma put_stored v s s' b a c :
  store_inv s → vc_label v = label_of a (digest_hex a c) → vc_content v = c →
  hash_refused a c = false → blob_put_verified v s = (s', Ok b) →
  store_inv s' ∧ stored_under s' c (kappa_text a c).
Proof.
  intros Hs Hl Hc Hr Hp. assert (verified_ok v) as Hv by (exists a; by rewrite Hc).
  pose proof (put_inv _ _ _ _ Hs Hv Hp) as Hs'. split; [done|].
  destruct (put_get _ _ _ _ _ Hs Hv Hp (verified_ok_kappa _ _ _ Hl)) as [c' Hc'].
  exists a, c'. split_and!; [done..|]. symmetry.
  by eapply (get_addressed a (digest_hex a c)); [|apply digest_hex_valid|].
Qed.

(** Storing other content keeps what is stored. *)
Lemma put_keeps v s s' r content k :
  store_inv s → verified_ok v → blob_put_verified v s = (s', r) →
  stored_under s content k → stored_under s' content k.
Proof.
  intros Hs Hv Hp (a & c & -> & Hget & Hk).
  destruct (decide (vc_kappa v = Ok (kappa_text a content))) as [E|E].
  - destruct (put_total v s Hs Hv) as (s1 & b & Hb). rewrite Hb in Hp. injection Hp as <- <-.
    destruct (put_get _ _ _ _ _ Hs Hv Hb E) as [c' Hc']. exists a, c'. split_and!; [done..|].
    symmetry. eapply (get_addressed a (digest_hex a content)); [|apply digest_hex_valid|exact Hc'].
    by eapply put_inv.
  - exists a, c. split_and!; [done| |done].
    unfold kappa_text in *. rewrite <- Hget. by eapply put_get_other; [| | |apply digest_hex_valid|].
Qed.

Lemma put_additional_spec client c axes s :
  store_inv s → (∀ a, a ∈ axes → hash_refused a c = false) →
  ∃ s', put_additional client c axes s
        = (s', Ok ((λ a, kappa_text a c) <$> filter (λ a, a ≠ client) axes)) ∧ store_inv s' ∧
    (∀ a, a ∈ axes → a ≠ client → stored_under s' c (kappa_text a c)) ∧
    (∀ content k, stored_under s content k → stored_under s' content k).
Proof.
  revert s. induction axes as [|axis axes IH]; intros s Hs Hr; cbn [put_additional].
  { exists s. split_and!; [done..|set_solver|done]. }
  case_decide as E.
  - destruct (IH s Hs) as (s' & -> & Hs' & Hnew & Hkeep); [set_solver|]. exists s'.
    rewrite filter_cons_False by naive_solver. split_and!; [done..| |done]. set_solver.
  - assert (hash_refused axis c = false) as Hrf by set_solver.
    rewrite (compute_verified axis c Hrf).
    set (v := mkVerified (label_of axis (digest_hex axis c)) c).
    assert (verified_ok v) as Hv by exact (mkVerified_ok axis c Hrf).
    assert (vc_kappa v = Ok (kappa_text axis c)) as Hk by exact (verified_ok_kappa v axis c eq_refl).
    destruct (put_total v s Hs Hv) as (s1 & b & Hb).
    destruct (put_stored v s s1 b axis c Hs eq_refl eq_refl Hrf Hb) as [Hs1 Hst].
    destruct (IH s1 Hs1) as (s' & Hrun & Hs' & Hnew & Hkeep); [set_solver|]. exists s'.
    unfold mbind, M_bind, mret, M_ret, lift, reject_label. cbn [map_err]. rewrite Hk. cbn [map_err].
    rewrite Hb, Hrun. rewrite filter_cons_True by done. split_and!; [done|done| |].
    + intros a [->|Ha]%elem_of_cons Hne; auto.
    + intros content k Hkk. apply Hkeep. exact (put_keeps v s s1 _ _ _ Hs Hv Hb Hkk).
Qed.
(** Storing content under one axis and then under the mandatory ones. *)
Lemma put_with_additional client c s :
  store_inv s → hash_refused client c = false →
  (∀ a, a ∈ mandatory_axes → hash_refused a c = false) →
  let v := mkVerified (label_of client (digest_hex client c)) c in
  ∃ s1 s' b, blob_put_verified v s = (s1, Ok b) ∧
    put_additional client c mandatory_axes s1
      = (s', Ok ((λ a, kappa_text a c) <$> filter (λ a, a ≠ client) mandatory_axes)) ∧
    store_inv s' ∧
    (∀ a, a = client ∨ a ∈ mandatory_axes → stored_under s' c (kappa_text a c)) ∧
    (∀ content k, stored_under s content k → stored_under s' content k).
Proof.
  intros Hs Hr Hm v. assert (verified_ok v) as Hv by exact (mkVerified_ok _ _ Hr).
  destruct (put_total v s Hs Hv) as (s1 & b & Hb).
  destruct (put_stored v s s1 b client c Hs eq_refl eq_refl Hr Hb) as [Hs1 Hst].
  destruct (put_additional_spec client c mandatory_axes s1 Hs1 Hm) as (s' & Hrun & Hs' & Hnew & Hkeep).
  exists s1, s', b. split_and!; [done..| |].
  - intros a Ha. destruct (decide (a = client)) as [->|Hne]; [auto|]. apply Hnew; naive_solver.
  - intros content k Hk. apply Hkeep. exact (put_keeps v s s1 _ _ _ Hs Hv Hb Hk).
Qed.

Lemma ingest_compute_spec axis c s :
  store_inv s → hash_refused axis c = false →
  (∀ a, a ∈ mandatory_axes → hash_refused a c = false) →
  ∃ s' b, ingest_compute axis c s
    = (s', Ok (mkIngest (kappa_text axis c) b
                ((λ a, kappa_text a c) <$> filter (λ a, a ≠ axis) mandatory_axes) None)) ∧
    store_inv s' ∧
    (∀ a, a = axis ∨ a ∈ mandatory_axes → stored_under s' c (kappa_text a c)) ∧
    (∀ content k, stored_under s content k → stored_under s' content k).
Proof.
  intros Hs Hr Hm. destruct (put_with_additional axis c s Hs Hr Hm) as (s1 & s' & b & Hput & Hadd & Hs' & Hst & Hkeep).
  exists s', b. split; [|done].
  unfold ingest_compute, mbind, M_bind, mret, M_ret, lift, reject_label.
  rewrite (compute_verified axis c Hr). cbn [map_err]. rewrite (verified_ok_kappa (mkVerified (label_of axis (digest_hex axis c)) c) axis c eq_refl).
  cbn [map_err]. by rewrite Hput, Hadd.
Qed.

Lemma ingest_verified_spec client c s :
  store_inv s → hash_refused client c = false →
  (∀ a, a ∈ mandatory_axes → hash_refused a c = false) →
  ∃ s' b, ingest_verified (kappa_text client c) c s
    = (s', Ok (mkIngest (kappa_text client c) b
                ((λ a, kappa_text a c) <$> filter (λ a, a ≠ client) mandatory_axes) None)) ∧
    store_inv s' ∧
    (∀ a, a = client ∨ a ∈ mandatory_axes → stored_under s' c (kappa_text a c)) ∧
    (∀ content k, stored_under s content k → stored_under s' content k).
Proof.
  intros Hs Hr Hm.
  assert (VerifiedContent_verify (kappa_text client c) c
          = Ok (mkVerified (label_of client (digest_hex client c)) c)) as Hv.
  { unfold VerifiedContent_verify. rewrite kappa_text_parse. osimpl.
    rewrite (proj2 (verify_kappa_true _ _)) by eauto. done. }
  destruct (put_with_additional client c s Hs Hr Hm) as (s1 & s' & b & Hput & Hadd & Hs' & Hst & Hkeep).
  set (v := mkVerified _ c) in *.
  assert (vc_axis v = Ok client) as Hax by apply label_axis_enum_of, digest_hex_valid.
  assert (vc_kappa v = Ok (kappa_text client c)) as Hk by exact (verified_ok_kappa v client c eq_refl).
  exists s', b. split; [|done].
  unfold ingest_verified, mbind, M_bind, mret, M_ret, lift, reject_label.
  rewrite Hv. cbn [map_err]. rewrite Hax, Hk. cbn [map_err]. by rewrite Hput, Hadd.
Qed.

(** A claim that does not verify changes nothing. *)
Lemma ingest_verified_rejects claimed content s :
  verify_kappa claimed content ≠ Ok true → ∃ e, ingest_verified claimed content s = (s, Err (SRejected e)).
Proof.
  intros Hf. unfold ingest_verified, mbind, M_bind, lift, reject_label.
  pose proof (verify_kappa_cases claimed content) as Hc. unfold VerifiedContent_verify.
  destruct (label_parse claimed) as [l|e|] eqn:Hp; [|by eexists|done].
  osimpl. destruct Hc as (ax & hex & -> & Hv & Hvk). rewrite Hvk in *.
  destruct (hash_refused ax content) eqn:Hr; [by eexists|]. osimpl.
  case_bool_decide; [done|]. cbn [negb].
  apply label_parse_ok in Hp as (ax' & hex' & E & Hv' & ->). rewrite label_axis_of by done. osimpl.
  apply label_text_inj in E as [-> ->]; [|done..]. rewrite compute_kappa_axis, Hr. osimpl.
  rewrite label_as_str_of by apply digest_hex_valid. by eexists.
Qed.

(** A verified ingest reports whether its label was readable before. *)
Lemma ingest_verified_new claimed c s s' r :
  store_inv s → ingest_verified claimed c s = (s', Ok r) →
  ir_newly_stored r = negb (is_ok (blob_get claimed s)).
Proof.
  intros Hs Hrun. destruct (decide (verify_kappa claimed c = Ok true)) as [Hv|Hv].
  2:{ destruct (ingest_verified_rejects claimed c s Hv) as [e E]. congruence. }
  apply verify_kappa_true in Hv as (a & -> & Hr).
  assert (VerifiedContent_verify (kappa_text a c) c = Ok (mkVerified (label_of a (digest_hex a c)) c)) as Hv.
  { unfold VerifiedContent_verify. rewrite kappa_text_parse. osimpl.
    rewrite (proj2 (verify_kappa_true _ _)) by eauto. done. }
  set (v := mkVerified _ c) in *. assert (verified_ok v) as Hok by exact (mkVerified_ok a c Hr).
  assert (vc_kappa v = Ok (kappa_text a c)) as Hk by exact (verified_ok_kappa v a c eq_refl).
  assert (vc_axis v = Ok a) as Hax by apply label_axis_enum_of, digest_hex_valid.
  revert Hrun. unfold ingest_verified, mbind, M_bind, mret, M_ret, lift, reject_label.
  rewrite Hv. cbn [map_err]. rewrite Hax, Hk. cbn [map_err].
  destruct (put_total v s Hs Hok) as (s1 & b & Hb). rewrite Hb.
  destruct (put_additional _ _ _ s1) as [s2 [adds| |]]; [|done..]. intros [= <- <-]. cbn [ir_newly_stored].
  pose proof (put_new _ _ _ _ _ Hs Hok Hb Hk) as Hn. cbn. destruct b, (is_ok _); cbn; naive_solver.
Qed.
End laws.

(** * Properties *)

(** C1: for any implementation of the blob interface: a verified ingest whose
    claim is the content's address succeeds, reports the claimed label, and
    leaves the content readable under the claim and under every mandatory axis;
    a claim that is not the content's address is rejected with the store
    untouched. *)
Theorem ingest_verified_correct {St} `{HashCratesLaws} `{KappaBlobs St} `{!KappaBlobsLaws St}
  claimed content (s : St)
  (Hs : store_inv s) (Hm : ∀ a, a ∈ mandatory_axes → hash_refused a content = false) :
  (∀ client, claimed = kappa_text client content → hash_refused client content = false →
     ∃ s' b, ingest_verified claimed content s
       = (s', Ok (mkIngest claimed b
                   ((λ a, kappa_text a content) <$> filter (λ a, a ≠ client) mandatory_axes) None)) ∧
       store_inv s' ∧
       (∀ a, a = client ∨ a ∈ mandatory_axes → stored_under s' content (kappa_text a content))) ∧
  (verify_kappa claimed content ≠ Ok true → ∃ e, ingest_verified claimed content s = (s, Err (SRejected e))).
Proof.
  split.
  - intros client -> Hr. destruct (ingest_verified_spec client content s Hs Hr Hm) as (s' & b & Hrun & Hs' & Hst & _).
    by exists s', b.
  - apply ingest_verified_rejects.
Qed.
