(* ===== verification/MemStore.v ===== *)
(** MemStore: the state of [InMemoryStore] and its blob and metadata operations,
    [kappa-core/src/store/memory/mod.rs].

    The struct's maps are the fields of [store]; the blobs on disk are the map
    [fs] from paths to contents.  Locks delimit atomic operations: each operation
    is one state transformer.  Disk failures are not modelled. *)

From S2P Require Import Prelude Label Compute Types Merkle Epoch Identity Store.

(** An upload in progress; [created_at] is a monotonic clock reading in
    nanoseconds. *)
Record UploadSession := mkUpload {
  us_namespace : rstr;
  us_data : bytes;
  us_max_size : Z;
  us_created_at : Z;
  us_part_digests : list (Z * bytes * Z);
}.

(** [MemoryStoreConfig], fixed for the life of a store. *)
Class MemoryStoreConfig := {
  blob_root : rstr;
  upload_timeout_secs : option Z;
}.

(** [InMemoryStore]: readings of the clocks are arguments of the operations that
    take them. *)
Record store := mkStore {
  fs : gmap rstr bytes;
  tags : gmap (bytes * Z) TagEntry;
  meta : gmap (Z * Z) bytes;
  ns_meta : gmap (bytes * Z * Z) (list rstr);
  edges : gmap (bytes * Z) Edge;
  fwd_index : gmap (bytes * Z) (list rstr);
  rev_index : gmap (bytes * Z) (list rstr);
  rel_index : gmap (bytes * Z) (list rstr);
  asr_index : gmap (bytes * Z) (list rstr);
  sequences : gmap (bytes * Z) Z;
  epoch_roots : gmap rstr EpochRoot;
  current_epochs : gmap bytes rstr;
  uploads : gmap rstr UploadSession;
  compression_records : gmap rstr (rstr * rstr * bytes * Z);
  identity_bindings : gmap rstr (list IdentityBinding);
  identity_successions : gmap rstr rstr;
  assertion_inbound : gmap rstr (list rstr);
  ns_aliases : gmap rstr bytes;
  ns_records : gmap bytes NamespaceRecord;
}.

Definition empty_store : store :=
  mkStore ∅ ∅ ∅ ∅ ∅ ∅ ∅ ∅ ∅ ∅ ∅ ∅ ∅ ∅ ∅ ∅ ∅ ∅ ∅.

(** Field updates. *)
Definition set_fs (f : gmap rstr bytes → gmap rstr bytes) (s : store) : store :=
  mkStore (f (fs s)) (tags s) (meta s) (ns_meta s) (edges s) (fwd_index s) (rev_index s) (rel_index s) (asr_index s) (sequences s) (epoch_roots s) (current_epochs s) (uploads s) (compression_records s) (identity_bindings s) (identity_successions s) (assertion_inbound s) (ns_aliases s) (ns_records s).
Definition set_tags (f : gmap (bytes * Z) TagEntry → gmap (bytes * Z) TagEntry) (s : store) : store :=
  mkStore (fs s) (f (tags s)) (meta s) (ns_meta s) (edges s) (fwd_index s) (rev_index s) (rel_index s) (asr_index s) (sequences s) (epoch_roots s) (current_epochs s) (uploads s) (compression_records s) (identity_bindings s) (identity_successions s) (assertion_inbound s) (ns_aliases s) (ns_records s).
Definition set_meta (f : gmap (Z * Z) bytes → gmap (Z * Z) bytes) (s : store) : store :=
  mkStore (fs s) (tags s) (f (meta s)) (ns_meta s) (edges s) (fwd_index s) (rev_index s) (rel_index s) (asr_index s) (sequences s) (epoch_roots s) (current_epochs s) (uploads s) (compression_records s) (identity_bindings s) (identity_successions s) (assertion_inbound s) (ns_aliases s) (ns_records s).
Definition set_ns_meta (f : gmap (bytes * Z * Z) (list rstr) → gmap (bytes * Z * Z) (list rstr)) (s : store) : store :=
  mkStore (fs s) (tags s) (meta s) (f (ns_meta s)) (edges s) (fwd_index s) (rev_index s) (rel_index s) (asr_index s) (sequences s) (epoch_roots s) (current_epochs s) (uploads s) (compression_records s) (identity_bindings s) (identity_successions s) (assertion_inbound s) (ns_aliases s) (ns_records s).
Definition set_edges (f : gmap (bytes * Z) Edge → gmap (bytes * Z) Edge) (s : store) : store :=
  mkStore (fs s) (tags s) (meta s) (ns_meta s) (f (edges s)) (fwd_index s) (rev_index s) (rel_index s) (asr_index s) (sequences s) (epoch_roots s) (current_epochs s) (uploads s) (compression_records s) (identity_bindings s) (identity_successions s) (assertion_inbound s) (ns_aliases s) (ns_records s).
Definition set_fwd_index (f : gmap (bytes * Z) (list rstr) → gmap (bytes * Z) (list rstr)) (s : store) : store :=
  mkStore (fs s) (tags s) (meta s) (ns_meta s) (edges s) (f (fwd_index s)) (rev_index s) (rel_index s) (asr_index s) (sequences s) (epoch_roots s) (current_epochs s) (uploads s) (compression_records s) (identity_bindings s) (identity_successions s) (assertion_inbound s) (ns_aliases s) (ns_records s).
Definition set_rev_index (f : gmap (bytes * Z) (list rstr) → gmap (bytes * Z) (list rstr)) (s : store) : store :=
  mkStore (fs s) (tags s) (meta s) (ns_meta s) (edges s) (fwd_index s) (f (rev_index s)) (rel_index s) (asr_index s) (sequences s) (epoch_roots s) (current_epochs s) (uploads s) (compression_records s) (identity_bindings s) (identity_successions s) (assertion_inbound s) (ns_aliases s) (ns_records s).
Definition set_rel_index (f : gmap (bytes * Z) (list rstr) → gmap (bytes * Z) (list rstr)) (s : store) : store :=
  mkStore (fs s) (tags s) (meta s) (ns_meta s) (edges s) (fwd_index s) (rev_index s) (f (rel_index s)) (asr_index s) (sequences s) (epoch_roots s) (current_epochs s) (uploads s) (compression_records s) (identity_bindings s) (identity_successions s) (assertion_inbound s) (ns_aliases s) (ns_records s).
Definition set_asr_index (f : gmap (bytes * Z) (list rstr) → gmap (bytes * Z) (list rstr)) (s : store) : store :=
  mkStore (fs s) (tags s) (meta s) (ns_meta s) (edges s) (fwd_index s) (rev_index s) (rel_index s) (f (asr_index s)) (sequences s) (epoch_roots s) (current_epochs s) (uploads s) (compression_records s) (identity_bindings s) (identity_successions s) (assertion_inbound s) (ns_aliases s) (ns_records s).
Definition set_sequences (f : gmap (bytes * Z) Z → gmap (bytes * Z) Z) (s : store) : store :=
  mkStore (fs s) (tags s) (meta s) (ns_meta s) (edges s) (fwd_index s) (rev_index s) (rel_index s) (asr_index s) (f (sequences s)) (epoch_roots s) (current_epochs s) (uploads s) (compression_records s) (identity_bindings s) (identity_successions s) (assertion_inbound s) (ns_aliases s) (ns_records s).
Definition set_epoch_roots (f : gmap rstr EpochRoot → gmap rstr EpochRoot) (s : store) : store :=
  mkStore (fs s) (tags s) (meta s) (ns_meta s) (edges s) (fwd_index s) (rev_index s) (rel_index s) (asr_index s) (sequences s) (f (epoch_roots s)) (current_epochs s) (uploads s) (compression_records s) (identity_bindings s) (identity_successions s) (assertion_inbound s) (ns_aliases s) (ns_records s).
Definition set_current_epochs (f : gmap bytes rstr → gmap bytes rstr) (s : store) : store :=
  mkStore (fs s) (tags s) (meta s) (ns_meta s) (edges s) (fwd_index s) (rev_index s) (rel_index s) (asr_index s) (sequences s) (epoch_roots s) (f (current_epochs s)) (uploads s) (compression_records s) (identity_bindings s) (identity_successions s) (assertion_inbound s) (ns_aliases s) (ns_records s).
Definition set_uploads (f : gmap rstr UploadSession → gmap rstr UploadSession) (s : store) : store :=
  mkStore (fs s) (tags s) (meta s) (ns_meta s) (edges s) (fwd_index s) (rev_index s) (rel_index s) (asr_index s) (sequences s) (epoch_roots s) (current_epochs s) (f (uploads s)) (compression_records s) (identity_bindings s) (identity_successions s) (assertion_inbound s) (ns_aliases s) (ns_records s).
Definition set_compression_records (f : gmap rstr (rstr * rstr * bytes * Z) → gmap rstr (rstr * rstr * bytes * Z)) (s : store) : store :=
  mkStore (fs s) (tags s) (meta s) (ns_meta s) (edges s) (fwd_index s) (rev_index s) (rel_index s) (asr_index s) (sequences s) (epoch_roots s) (current_epochs s) (uploads s) (f (compression_records s)) (identity_bindings s) (identity_successions s) (assertion_inbound s) (ns_aliases s) (ns_records s).
Definition set_identity_bindings (f : gmap rstr (list IdentityBinding) → gmap rstr (list IdentityBinding)) (s : store) : store :=
  mkStore (fs s) (tags s) (meta s) (ns_meta s) (edges s) (fwd_index s) (rev_index s) (rel_index s) (asr_index s) (sequences s) (epoch_roots s) (current_epochs s) (uploads s) (compression_records s) (f (identity_bindings s)) (identity_successions s) (assertion_inbound s) (ns_aliases s) (ns_records s).
Definition set_identity_successions (f : gmap rstr rstr → gmap rstr rstr) (s : store) : store :=
  mkStore (fs s) (tags s) (meta s) (ns_meta s) (edges s) (fwd_index s) (rev_index s) (rel_index s) (asr_index s) (sequences s) (epoch_roots s) (current_epochs s) (uploads s) (compression_records s) (identity_bindings s) (f (identity_successions s)) (assertion_inbound s) (ns_aliases s) (ns_records s).
Definition set_assertion_inbound (f : gmap rstr (list rstr) → gmap rstr (list rstr)) (s : store) : store :=
  mkStore (fs s) (tags s) (meta s) (ns_meta s) (edges s) (fwd_index s) (rev_index s) (rel_index s) (asr_index s) (sequences s) (epoch_roots s) (current_epochs s) (uploads s) (compression_records s) (identity_bindings s) (identity_successions s) (f (assertion_inbound s)) (ns_aliases s) (ns_records s).
Definition set_ns_aliases (f : gmap rstr bytes → gmap rstr bytes) (s : store) : store :=
  mkStore (fs s) (tags s) (meta s) (ns_meta s) (edges s) (fwd_index s) (rev_index s) (rel_index s) (asr_index s) (sequences s) (epoch_roots s) (current_epochs s) (uploads s) (compression_records s) (identity_bindings s) (identity_successions s) (assertion_inbound s) (f (ns_aliases s)) (ns_records s).
Definition set_ns_records (f : gmap bytes NamespaceRecord → gmap bytes NamespaceRecord) (s : store) : store :=
  mkStore (fs s) (tags s) (meta s) (ns_meta s) (edges s) (fwd_index s) (rev_index s) (rel_index s) (asr_index s) (sequences s) (epoch_roots s) (current_epochs s) (uploads s) (compression_records s) (identity_bindings s) (identity_successions s) (assertion_inbound s) (ns_aliases s) (f (ns_records s)).

(** [entry(k).or_default().push(x)]. *)
Definition push_at {K A} `{Countable K} (k : K) (x : A) (m : gmap K (list A)) : gmap K (list A) :=
  <[k := default [] (m !! k) ++ [x]]> m.

Section memory.
Context `{HashCrates} `{MemoryStoreConfig}.

(** * Blobs *)

Definition blob_path (kappa : rstr) : outcome StoreError rstr :=
  map_err path_error (blob_path_for blob_root kappa).

(** [path.with_extension("tmp")] of a file name without a dot. *)
Definition tmp_path (path : rstr) : rstr := path ++ rs ".tmp".

(** Write to a temporary file, then rename it over [path]. *)
Definition write_atomically (path : rstr) (content : bytes) (m : gmap rstr bytes) : gmap rstr bytes :=
  let m := <[tmp_path path := content]> m in
  <[path := content]> (delete (tmp_path path) m).

Definition mem_blob_put_verified (verified : VerifiedContent) : M store bool :=
  kappa ← lift (reject_label (vc_kappa verified));
  let content := vc_content verified in
  path ← lift (blob_path kappa);
  present ← gets (λ s, bool_decide (is_Some (fs s !! path)));
  if present : bool then mret false
  else
    _ ← modify (set_fs (write_atomically path content));
    mret true.

Definition mem_blob_get (kappa : rstr) (s : store) : outcome StoreError bytes :=
  path ← blob_path kappa;
  ok_or (fs s !! path) (SNotFound kappa).

Definition blob_exists (kappa : rstr) (s : store) : outcome StoreError bool :=
  path ← blob_path kappa;
  Ok (bool_decide (is_Some (fs s !! path))).

Definition mem_blob_delete (kappa : rstr) : M store () :=
  path ← lift (blob_path kappa);
  modify (set_fs (delete path)).

Definition blob_size (kappa : rstr) (s : store) : outcome StoreError Z :=
  path ← blob_path kappa;
  content ← ok_or (fs s !! path) (SNotFound kappa);
  Ok (zlen content).

(** [seek] refuses an offset above [i64::MAX], the buffer's allocation panics
    above [isize::MAX]; one [read] fills it up to the end of the file. *)
Definition blob_get_range (kappa : rstr) (offset length : Z) (s : store) : outcome StoreError bytes :=
  path ← blob_path kappa;
  content ← ok_or (fs s !! path) (SNotFound kappa);
  if isize_max <? offset then Err (SIo (rs "Invalid argument (os error 22)"))
  else if isize_max <? length then Panic
  else Ok (take (Z.to_nat (Z.min length (zlen content - offset))) (drop (Z.to_nat (Z.min offset (zlen content))) content)).

(** Components of a path below the root. *)
Fixpoint split_slash (cur : rstr) (p : rstr) : list rstr :=
  match p with
  | [] => [cur]
  | c :: p' => if decide (c = SLASH) then cur :: split_slash [] p' else split_slash (cur ++ [c]) p'
  end.

(** The label a directory walk reports for a file: three directory levels under
    the root, then the file, temporary files skipped. *)
Definition listed_label (path : rstr) : option rstr :=
  let root := dir_prefix blob_root in
  if starts_with root path then
    match split_slash [] (drop (length root) path) with
    | [algo; _; _; name] => if ends_with (rs ".tmp") name then None else Some (algo ++ rs ":" ++ name)
    | _ => None
    end
  else None.

Definition blob_list (s : store) : outcome StoreError (list rstr) :=
  Ok (sort_strings (omap (λ '(path, _), listed_label path) (map_to_list (fs s)))).

#[export] Instance mem_blobs : KappaBlobs store := {|
  mandatory_axes := [Sha256];
  blob_put_verified := mem_blob_put_verified;
  blob_get := mem_blob_get;
  blob_delete := mem_blob_delete;
|}.

(** * Blob metadata *)

Definition meta_key (kappa key : rstr) : Z * Z := (item_hash kappa, item_hash key).

Definition blob_put_meta (kappa key : rstr) (value : bytes) : M store () :=
  modify (set_meta (<[meta_key kappa key := value]>)).

Definition blob_get_meta (kappa key : rstr) (s : store) : outcome StoreError bytes :=
  ok_or (meta s !! meta_key kappa key) (SNotFound (rs "meta " ++ kappa ++ rs ":" ++ key)).

Definition blob_delete_meta (kappa key : rstr) : M store () :=
  modify (set_meta (delete (meta_key kappa key))).

(** * Namespaces on first use *)

Definition ensure_namespace (ns : NamespaceRef) : M store () :=
  let uuid := ns_uuid ns in
  known ← gets (λ s, bool_decide (is_Some (ns_records s !! uuid)));
  if known : bool then mret ()
  else
    let name := default [] (ns_display_name ns) in
    _ ← modify (set_ns_records (<[uuid := mkNsRecord (uuid_hex ns) [] 0 None
                                    (if decide (name = []) then [] else [name]) false]>));
    if decide (name = []) then mret () else modify (set_ns_aliases (<[name := uuid]>)).

(** * Namespace-scoped metadata *)

Definition meta_set (ns : NamespaceRef) (kappa key value : rstr) : M store () :=
  _ ← ensure_namespace ns;
  modify (set_ns_meta (push_at (ns_uuid ns, item_hash key, item_hash value) kappa)).

Definition meta_query (ns : NamespaceRef) (key value : rstr) (s : store) : outcome StoreError (list rstr) :=
  let uuid := ns_uuid ns in
  if decide (value = []) then
    let key_hash := item_hash key in
    let hits := filter (λ '((u, kh, _), _), u = uuid ∧ kh = key_hash) (map_to_list (ns_meta s)) in
    Ok (sort_dedup (concat (snd <$> hits)))
  else
    match ns_meta s !! (uuid, item_hash key, item_hash value) with
    | Some kappas => Ok (sort_dedup kappas)
    | None => Ok []
    end.
End memory.

(** * The invariant of the blob directory *)

Section blobs.
Context `{HashCratesLaws} `{MemoryStoreConfig}.

(** Every file lies at the path of its content's address under some axis. *)
Definition fs_ok (m : gmap rstr bytes) : Prop :=
  ∀ path c, m !! path = Some c → ∃ a, path = label_path blob_root a (digest_hex a c).

Lemma blob_path_label a hex :
  valid_digits a hex → blob_path (label_text a hex) = Ok (label_path blob_root a hex).
Proof. intros Hv. unfold blob_path. by rewrite blob_path_for_label. Qed.

(** Whatever can be read under a label of an axis is there under its own digest. *)
Lemma get_on_axis a hex s c : fs_ok (fs s) → mem_blob_get (label_text a hex) s = Ok c → hex = digest_hex a c.
Proof.
  intros Hs. unfold mem_blob_get, blob_path. destruct (blob_path_for blob_root (label_text a hex)) as [p| |] eqn:Ep; [|done..].
  intros Hg. osimpl in Hg. apply ok_or_ok_inv in Hg. destruct (Hs _ _ Hg) as [a' Hp]. unfold blob_path_for in Ep.
  destruct (decide (hex = [])) as [->|Hne].
  { unfold split_kappa, label_text in Ep. rewrite find_char_app in Ep by apply colon_notin_axis. cbn [mbind option_bind] in Ep.
    rewrite (bool_decide_eq_true_2 (_ = _ - 1)%nat), orb_true_r in Ep by (rewrite length_app; cbn; lia). done. }
  rewrite split_kappa_label in Ep by done. osimpl in Ep. case_match eqn:El; [done|]. destruct (forallb is_lower_hex hex) eqn:Eh; [|done].
  apply Z.ltb_ge in El. assert (blob_path_for blob_root (label_text a hex) = Ok p) as Ep'.
  { unfold blob_path_for. rewrite split_kappa_label by done. osimpl. rewrite (proj2 (Z.ltb_ge _ _)) by lia. by rewrite Eh. }
  rewrite blob_path_for_hex in Ep' by (lia || done). injection Ep' as <-.
  apply label_path_hex_inj in Hp as [-> ->]; [done..|]. apply digest_hex_valid.
Qed.

Lemma last_hex hex : forallb is_lower_hex hex = true → hex ≠ [] →
  ∃ c, last hex = Some c ∧ is_lower_hex c = true.
Proof.
  intros Hh Hne. destruct (last hex) as [c|] eqn:E; [|by apply last_None in E].
  exists c. split; [done|]. apply last_Some in E as [l ->]. rewrite forallb_app in Hh.
  apply andb_prop in Hh as [_ Hh]. simpl in Hh. by rewrite andb_true_r in Hh.
Qed.

Lemma label_path_last a hex : valid_digits a hex →
  ∃ c, last (label_path blob_root a hex) = Some c ∧ is_lower_hex c = true.
Proof.
  intros Hv. pose proof (valid_digits_len _ _ Hv). destruct Hv as [_ Hh].
  destruct (last_hex hex Hh) as (c & Hc & Hx); [intros ->; simpl in *; lia|]. exists c. split; [|done].
  assert (label_path blob_root a hex = (dir_prefix blob_root ++ axis_as_str a ++ SLASH :: take 2 hex
    ++ SLASH :: take 2 (drop 2 hex) ++ [SLASH]) ++ hex) as ->.
  { unfold label_path. repeat (rewrite <- app_assoc || rewrite <- app_comm_cons). done. }
  by rewrite last_app, Hc.
Qed.

Lemma tmp_path_not_label p a hex : valid_digits a hex → tmp_path p ≠ label_path blob_root a hex.
Proof.
  intros Hv E. destruct (label_path_last a hex Hv) as (c & Hc & Hx). rewrite <- E in Hc.
  unfold tmp_path in Hc. rewrite last_app in Hc. simpl in Hc. by injection Hc as <-.
Qed.

Lemma write_atomically_lookup p c m q :
  q ≠ tmp_path p → write_atomically p c m !! q = if decide (q = p) then Some c else m !! q.
Proof.
  intros Hq. unfold write_atomically. case_decide as E; [subst; by rewrite lookup_insert_eq|].
  rewrite lookup_insert_ne, lookup_delete_ne, lookup_insert_ne by congruence. done.
Qed.

Lemma write_atomically_ok m a c :
  fs_ok m → fs_ok (write_atomically (label_path blob_root a (digest_hex a c)) c m).
Proof.
  intros Hm p c' Hp. set (path := label_path _ _ _) in *.
  destruct (decide (p = tmp_path path)) as [->|Hne].
  { exfalso. unfold write_atomically in Hp.
    rewrite lookup_insert_ne, lookup_delete_eq in Hp; [done|]. subst path.
    intros E. symmetry in E. by eapply tmp_path_not_label, E; apply digest_hex_valid. }
  rewrite write_atomically_lookup in Hp by done. case_decide as E; [|by eapply Hm].
  injection Hp as <-. by exists a.
Qed.

Lemma fs_set f s : fs (set_fs f s) = f (fs s).
Proof. done. Qed.

(** What a put of verified content does. *)
Lemma mem_put_spec v s a :
  vc_label v = label_of a (digest_hex a (vc_content v)) →
  let path := label_path blob_root a (digest_hex a (vc_content v)) in
  mem_blob_put_verified v s =
    if decide (is_Some (fs s !! path)) then (s, Ok false)
    else (set_fs (write_atomically path (vc_content v)) s, Ok true).
Proof.
  intros Hl path. unfold mem_blob_put_verified, mbind, M_bind, mret, M_ret, lift, gets, modify, reject_label.
  unfold vc_kappa. rewrite Hl, label_as_str_of by apply digest_hex_valid. cbn [map_err].
  rewrite blob_path_label by apply digest_hex_valid. fold path.
  case_decide as E; [by rewrite bool_decide_eq_true_2|by rewrite bool_decide_eq_false_2].
Qed.

#[export] Program Instance mem_blobs_laws : KappaBlobsLaws store := {| store_inv s := fs_ok (fs s) |}.
Next Obligation.
  intros v s Hs (a & Hl & _). cbn. rewrite (mem_put_spec _ _ a) by done. case_decide; eauto.
Qed.
Next Obligation.
  intros v s s' r Hs (a & Hl & _). cbn. rewrite (mem_put_spec _ _ a) by done.
  case_decide; intros [= <- <-]; [done|]. cbn. by apply write_atomically_ok.
Qed.
Next Obligation.
  intros a hex s c Hs Hv. cbn. unfold mem_blob_get. rewrite blob_path_label by done. osimpl.
  intros Hc%ok_or_ok_inv. destruct (Hs _ _ Hc) as [a' Hp].
  apply label_path_inj in Hp as [-> ->]; [done|done|apply digest_hex_valid].
Qed.
Next Obligation.
  intros v s s' b k Hs (a & Hl & _). cbn. rewrite (mem_put_spec _ _ a) by done.
  rewrite (verified_ok_kappa _ _ _ Hl). intros Hp [= <-]. unfold mem_blob_get, kappa_text.
  rewrite blob_path_label by apply digest_hex_valid. osimpl.
  case_decide as E; injection Hp as <- <-; [destruct E as [c ->]; by eexists|].
  cbn. rewrite write_atomically_lookup, decide_True by done || (intros E'; symmetry in E'; by eapply tmp_path_not_label, E'; apply digest_hex_valid).
  by eexists.
Qed.
Next Obligation.
  intros v s s' r a hex Hs (av & Hl & _). cbn. rewrite (mem_put_spec _ _ av) by done.
  intros Hp Hv Hne. unfold mem_blob_get. rewrite blob_path_label by done. osimpl.
  case_decide as E; injection Hp as <- <-; [done|]. cbn.
  rewrite write_atomically_lookup by (intros E'; symmetry in E'; by eapply tmp_path_not_label, E').
  rewrite decide_False; [done|]. intros E'. apply Hne. rewrite (verified_ok_kappa _ _ _ Hl).
  apply label_path_inj in E' as [-> ->]; [done|done|apply digest_hex_valid].
Qed.
Next Obligation.
  intros v s s' b k Hs (a & Hl & _). cbn. rewrite (mem_put_spec _ _ a) by done.
  rewrite (verified_ok_kappa _ _ _ Hl). intros Hp [= <-]. unfold mem_blob_get, kappa_text.
  rewrite blob_path_label by apply digest_hex_valid. osimpl.
  case_decide as E; injection Hp as <- <-.
  - destruct E as [c ->]. done.
  - apply eq_None_not_Some in E. by rewrite E.
Qed.
Next Obligation.
  intros k s s' r Hs. cbn. unfold mem_blob_delete, mbind, M_bind, lift, modify.
  destruct (blob_path k) as [p| |]; intros [= <- <-]; [|done|done]. intros q c. cbn.
  rewrite lookup_delete_Some. intros [_ Hq]. by eapply Hs.
Qed.
Next Obligation.
  intros a hex s s' Hv. cbn. unfold mem_blob_delete, mem_blob_get, mbind, M_bind, lift, modify.
  rewrite blob_path_label by done. intros [= <-]. cbn. by rewrite lookup_delete_eq.
Qed.
Next Obligation.
  intros a hex a' hex' s s' r Hv Hv' Hne. cbn. unfold mem_blob_delete, mem_blob_get, mbind, M_bind, lift, modify.
  rewrite !blob_path_label by done. intros [= <- <-]. cbn. rewrite lookup_delete_ne; [done|].
  intros E. apply Hne. apply label_path_inj in E as [-> ->]; done.
Qed.
End blobs.

(** [ensure_namespace] succeeds and touches the namespace tables alone. *)
Lemma ensure_namespace_run `{HashCrates} ns s :
  ∃ f g, ensure_namespace ns s = (set_ns_aliases f (set_ns_records g s), Ok ()).
Proof.
  unfold ensure_namespace, mbind, M_bind, gets, modify, mret, M_ret.
  destruct (bool_decide _); [exists id, id; by destruct s|].
  case_decide; [by eexists id, _|by eexists _, _].
Qed.

(** * Listing *)

Lemma split_slash_last cur x : SLASH ∉ x → split_slash cur x = [cur ++ x].
Proof.
  revert cur. induction x as [|c x IH]; intros cur Hx; cbn [split_slash]; [by rewrite app_nil_r|].
  rewrite decide_False by set_solver. rewrite IH by set_solver. by rewrite <- app_assoc.
Qed.

Lemma split_slash_app cur x rest :
  SLASH ∉ x → split_slash cur (x ++ SLASH :: rest) = (cur ++ x) :: split_slash [] rest.
Proof.
  revert cur. induction x as [|c x IH]; intros cur Hx; cbn [split_slash app].
  - by rewrite decide_True, app_nil_r.
  - rewrite decide_False by set_solver. rewrite IH by set_solver. by rewrite <- app_assoc.
Qed.

Section listing.
Context `{HashCratesLaws} `{MemoryStoreConfig}.

Lemma listed_label_path a hex :
  valid_digits a hex → listed_label (label_path blob_root a hex) = Some (label_text a hex).
Proof.
  intros Hv. destruct (label_path_last a hex Hv) as (c & Hc & Hx).
  pose proof (valid_digits_len _ _ Hv) as Hlen. destruct Hv as [_ Hh].
  assert (∀ n i, SLASH ∉ take n (drop i hex)) as Hs.
  { intros n i. apply lower_hex_not; [done|]. eapply forallb_sublist_of; [|exact Hh].
    by rewrite subseteq_take, subseteq_drop. }
  unfold listed_label, label_path, starts_with.
  rewrite bool_decide_eq_true_2 by apply prefix_app_r, reflexivity || eexists; try done.
  rewrite drop_app_length, split_slash_app by apply slash_notin_axis.
  rewrite split_slash_app by apply (Hs 2%nat 0%nat).
  rewrite split_slash_app by apply Hs.
  rewrite split_slash_last by (apply lower_hex_not; done). cbn [app].
  assert (ends_with (rs ".tmp") hex = false) as ->.
  { apply bool_decide_eq_false. intros [pre E].
    destruct (last_hex hex Hh) as (d & Hd & Hxd); [intros ->; simpl in *; lia|].
    rewrite E, last_app in Hd. simpl in Hd. by injection Hd as <-. }
  done.
Qed.

Lemma blob_list_spec s :
  fs_ok (fs s) → ∃ ls, blob_list s = Ok ls ∧ StronglySorted bytes_le ls ∧
    ∀ k, k ∈ ls ↔ ∃ a c, k = kappa_text a c ∧ mem_blob_get k s = Ok c.
Proof.
  intros Hs. eexists. split; [done|]. split; [apply sort_strings_sorted|]. intros k.
  unfold sort_strings. rewrite elem_of_sort_by, list_elem_of_omap. split.
  - intros ([p c] & Hin & Hl). apply elem_of_map_to_list in Hin.
    destruct (Hs _ _ Hin) as [a ->]. rewrite listed_label_path in Hl by apply digest_hex_valid.
    injection Hl as <-. exists a, c. split; [done|]. unfold mem_blob_get.
    rewrite blob_path_label by apply digest_hex_valid. osimpl. by rewrite Hin.
  - intros (a & c & -> & Hget). unfold mem_blob_get, kappa_text in Hget.
    rewrite blob_path_label in Hget by apply digest_hex_valid. osimpl in Hget.
    apply ok_or_ok_inv in Hget. exists (label_path blob_root a (digest_hex a c), c).
    split; [by apply elem_of_map_to_list|]. apply listed_label_path, digest_hex_valid.
Qed.
End listing.

(** * Properties *)

(** On a store whose files are content-addressed, which every blob operation
    preserves, [blob_list] is the sorted list of exactly the labels [blob_get]
    can read, temporary files left out. *)
Theorem blob_list_correct `{HashCratesLaws} `{MemoryStoreConfig} s (Hs : fs_ok (fs s)) :
  ∃ ls, blob_list s = Ok ls ∧ StronglySorted bytes_le ls ∧
    ∀ k, k ∈ ls ↔ ∃ a c, k = kappa_text a c ∧ mem_blob_get k s = Ok c.
Proof. exact (blob_list_spec s Hs). Qed.

#[export] Instance sample_config : MemoryStoreConfig :=
  {| blob_root := rs "/var/blobs"; upload_timeout_secs := Some 3600 |}.

Definition sample_store : store := (ingest_compute Blake3 (rs "hello") empty_store).1.

Lemma sample_store_ok : fs_ok (fs sample_store).
Proof.
  destruct (ingest_compute_spec Blake3 (rs "hello") empty_store) as (s' & b & E & Hs' & _).
  - by intros p c Hp.
  - reflexivity.
  - intros a Ha. apply list_elem_of_singleton in Ha as ->. reflexivity.
  - unfold sample_store. by rewrite E.
Qed.

Lemma blob_list_correct_witness :
  ∃ ls, blob_list sample_store = Ok ls ∧ kappa_text Blake3 (rs "hello") ∈ ls.
Proof.
  destruct (blob_list_correct sample_store sample_store_ok) as (ls & H1 & _ & H3).
  exists ls. split; [exact H1|]. apply H3. exists Blake3, (rs "hello"). split; reflexivity.
Defined.

(** [ingest_verified] on the in-memory store. *)
Lemma ingest_verified_correct_witness :
  ∃ s' b, ingest_verified (kappa_text Blake3 (rs "hello")) (rs "hello") sample_store
    = (s', Ok (mkIngest (kappa_text Blake3 (rs "hello")) b [kappa_text Sha256 (rs "hello")] None)) ∧
    stored_under s' (rs "hello") (kappa_text Sha256 (rs "hello")).
Proof.
  assert (store_inv sample_store) as Hs by exact sample_store_ok.
  destruct (ingest_verified_correct (kappa_text Blake3 (rs "hello")) (rs "hello") sample_store Hs) as [Hok _].
  { intros a Ha. apply list_elem_of_singleton in Ha as ->. reflexivity. }
  destruct (Hok Blake3 eq_refl eq_refl) as (s' & b & Hrun & _ & Hst). exists s', b.
  split; [exact Hrun|]. apply Hst. right. by apply list_elem_of_singleton.
Defined.

(** First use of a namespace takes over the unscoped alias of its display
    name: whatever namespace the alias named before, it now names this one. *)
Theorem ensure_namespace_takes_alias `{HashCrates} ns name s
  (Hn : ns_display_name ns = Some name) (Hne : name ≠ [])
  (Hu : ns_records s !! ns_uuid ns = None) :
  ns_aliases (ensure_namespace ns s).1 !! name = Some (ns_uuid ns) ∧
  ∀ other, other ≠ name → ns_aliases (ensure_namespace ns s).1 !! other = ns_aliases s !! other.
Proof.
  unfold ensure_namespace, mbind, M_bind, gets, modify, mret, M_ret.
  rewrite bool_decide_eq_false_2 by (rewrite Hu; by intros [? [=]]). rewrite Hn. cbn [default from_option id].
  rewrite !(decide_False (P := name = [])) by done. cbn.
  split; [by rewrite lookup_insert_eq|]. intros other Ho. by rewrite lookup_insert_ne.
Qed.

Lemma ensure_namespace_takes_alias_witness :
  let victim := replicate 16 x01 in
  let s := set_ns_aliases (<[rs "team/app" := victim]>) empty_store in
  ns_aliases s !! rs "team/app" = Some victim ∧
  ns_aliases (ensure_namespace (deterministic (rs "team/app")) s).1 !! rs "team/app"
  = Some (ns_uuid (deterministic (rs "team/app"))).
Proof.
  intros victim s. split; [reflexivity|].
  apply (ensure_namespace_takes_alias (deterministic (rs "team/app")) (rs "team/app") s);
    [reflexivity|discriminate|reflexivity].
Defined.
