(* ===== verification/MemTags.v ===== *)
(** MemTags: tags, sequences and epochs of [InMemoryStore],
    [kappa-core/src/store/memory/mod.rs]. *)

From S2P Require Import Prelude Label Compute Types Merkle Epoch Identity Store MemStore.

(** [x + 1] on a [u64]; the overflow check of a debug build panics. *)
Definition incr_u64 (x : Z) : outcome StoreError Z :=
  if x =? u64_max then Panic else Ok (x + 1).

Section tags.
Context `{HashCrates}.

Definition tag_key (ns : NamespaceRef) (name : rstr) : bytes * Z := (ns_uuid ns, item_hash name).

(** [tags.get(&key).map(|e| e.version + 1).unwrap_or(1)]. *)
Definition next_version (key : bytes * Z) (s : store) : outcome StoreError Z :=
  match tags s !! key with
  | Some e => incr_u64 (te_version e)
  | None => Ok 1
  end.

Definition put_tag (key : bytes * Z) (name kappa : rstr) : M store Z :=
  version ← asks (next_version key);
  _ ← modify (set_tags (<[key := mkTag name kappa version]>));
  mret version.

Definition tag_set (ns : NamespaceRef) (name kappa : rstr) : M store Z :=
  _ ← ensure_namespace ns;
  put_tag (tag_key ns name) name kappa.

Definition tag_get (ns : NamespaceRef) (name : rstr) (s : store) : outcome StoreError TagEntry :=
  ok_or (tags s !! tag_key ns name) (SNotFound (ns_display ns ++ rs "/" ++ name)).

Definition tag_delete (ns : NamespaceRef) (name : rstr) : M store () :=
  modify (set_tags (delete (tag_key ns name))).

(** [entries.sort_by(|a, b| a.name.cmp(&b.name))]. *)
Definition tag_name_le (a b : TagEntry) : bool := bytes_leb (te_name a) (te_name b).

Definition ns_tags (ns : NamespaceRef) (s : store) : list TagEntry :=
  snd <$> filter (λ '((u, _), _), u = ns_uuid ns) (map_to_list (tags s)).

Definition collect_sorted_tags (ns : NamespaceRef) (s : store) : list TagEntry :=
  sort_by tag_name_le (ns_tags ns s).

Definition tag_list (ns : NamespaceRef) (s : store) : outcome StoreError (list TagEntry) :=
  Ok (collect_sorted_tags ns s).

Definition tag_prefix (ns : NamespaceRef) (prefix : rstr) (s : store)
  : outcome StoreError (list TagEntry) :=
  Ok (sort_by tag_name_le (filter (λ e, starts_with prefix (te_name e) = true) (ns_tags ns s))).

(** The first pass of the batch: every expected version is the current one. *)
Fixpoint check_updates (uuid : bytes) (updates : list TagUpdate) (s : store) : outcome StoreError () :=
  match updates with
  | [] => Ok ()
  | u :: rest =>
      match tu_expected_version u with
      | Some expected =>
          let current := match tags s !! (uuid, item_hash (tu_name u)) with
                         | Some e => te_version e
                         | None => 0
                         end in
          if expected =? current then check_updates uuid rest s
          else Err (SConflict (rs "tag " ++ tu_name u ++ rs ": expected version " ++ dec expected
                               ++ rs " but current is " ++ dec current))
      | None => check_updates uuid rest s
      end
  end.

Fixpoint apply_updates (uuid : bytes) (updates : list TagUpdate) : M store () :=
  match updates with
  | [] => mret ()
  | u :: rest =>
      _ ← put_tag (uuid, item_hash (tu_name u)) (tu_name u) (tu_kappa u);
      apply_updates uuid rest
  end.

Definition tag_set_batch (ns : NamespaceRef) (updates : list TagUpdate) : M store () :=
  _ ← ensure_namespace ns;
  let uuid := ns_uuid ns in
  _ ← asks (check_updates uuid updates);
  apply_updates uuid updates.

(** * Sequences *)

Definition bump_sequence (key : bytes * Z) : M store Z :=
  counter ← asks (λ s, incr_u64 (default 0 (sequences s !! key)));
  _ ← modify (set_sequences (<[key := counter]>));
  mret counter.

Definition sequence_next (ns : NamespaceRef) (name : rstr) : M store Z :=
  _ ← ensure_namespace ns;
  bump_sequence (tag_key ns name).

Definition sequence_current (ns : NamespaceRef) (name : rstr) (s : store) : outcome StoreError Z :=
  Ok (default 0 (sequences s !! tag_key ns name)).
End tags.

(** * Epochs *)

Section epochs.
Context `{HashCrates} `{Dcbor} `{MemoryStoreConfig}.

Definition epoch_error_str (e : EpochError) : rstr :=
  match e with MalformedLeafData msg => rs "malformed epoch leaf data: " ++ msg end.

(** The cached pointer, else the persisted tag, which is then cached. *)
Definition epoch_current (ns : NamespaceRef) : M store (option rstr) :=
  let uuid := ns_uuid ns in
  cached ← gets (λ s, current_epochs s !! uuid);
  match cached with
  | Some k => mret (Some k)
  | None =>
      found ← gets (tag_get ns (rs "_epoch/current"));
      match found with
      | Ok entry =>
          _ ← modify (set_current_epochs (<[uuid := te_kappa entry]>));
          mret (Some (te_kappa entry))
      | Err (SNotFound _) => mret None
      | Err e => throw e
      | Panic => lift Panic
      end
  end.

(** [epoch_advance] at time [now_ms]. *)
Definition epoch_advance (now_ms : Z) (ns : NamespaceRef) (mutations : list EpochMutation)
  : M store rstr :=
  _ ← ensure_namespace ns;
  epoch_number ← bump_sequence (tag_key ns (rs "_epoch"));
  prev_root_kappa ← epoch_current ns;
  sorted_tags ← gets (collect_sorted_tags ns);
  let state_root := state_merkle_root sorted_tags in
  let mutations_root := mutations_merkle_root mutations in
  epoch_root ← lift (map_err (λ e, SIo (epoch_error_str e))
    (build (mkEpochFields (ns_display ns) epoch_number prev_root_kappa state_root mutations_root
              now_ms [])));
  let kappa := epoch_kappa epoch_root in
  _ ← ingest_compute Sha256 (to_leaf_bytes epoch_root);
  _ ← modify (set_epoch_roots (<[kappa := epoch_root]>));
  _ ← modify (set_current_epochs (<[ns_uuid ns := kappa]>));
  _ ← tag_set ns (rs "_epoch/current") kappa;
  mret kappa.

Definition epoch_get (kappa : rstr) : M store EpochRoot :=
  cached ← gets (λ s, epoch_roots s !! kappa);
  match cached with
  | Some root => mret root
  | None =>
      blob ← asks (blob_get kappa);
      root ← lift (map_err (λ e, SIo (epoch_error_str e)) (from_leaf_bytes blob));
      _ ← modify (set_epoch_roots (<[kappa := root]>));
      mret root
  end.
End epochs.

(** * Running the tag operations *)

(** Unfold the effect monad in a goal or hypothesis. *)
Ltac run := unfold mbind, M_bind, mret, M_ret, throw, lift, gets, asks, modify.
Ltac run_in H := unfold mbind, M_bind, mret, M_ret, throw, lift, gets, asks, modify in H.

(** Case on [ensure_namespace], whose only effect is on the namespace tables. *)
Ltac do_ensure ns s :=
  let f := fresh "f" in let g := fresh "g" in let E := fresh "E" in
  destruct (ensure_namespace_run ns s) as (f & g & E); try rewrite E.

Lemma incr_u64_ok x y : incr_u64 x = Ok y ↔ x ≠ u64_max ∧ y = x + 1.
Proof. unfold incr_u64. destruct (Z.eqb_spec x u64_max); naive_solver. Qed.

Section tag_facts.
Context `{HashCrates}.

(** The version a key is at, zero when absent. *)
Definition version_at (s : store) (key : bytes * Z) : Z :=
  match tags s !! key with Some e => te_version e | None => 0 end.

Lemma next_version_ok key s v :
  next_version key s = Ok v → v = version_at s key + 1.
Proof. unfold next_version, version_at. destruct (tags s !! key); [|naive_solver]. by intros [_ ->]%incr_u64_ok. Qed.

Lemma put_tag_run key name kappa s :
  put_tag key name kappa s =
  match next_version key s with
  | Ok v => (set_tags (<[key := mkTag name kappa v]>) s, Ok v)
  | Err e => (s, Err e)
  | Panic => (s, Panic)
  end.
Proof. unfold put_tag. run. by destruct (next_version key s). Qed.

Lemma next_version_cases key s :
  (∃ v, next_version key s = Ok v) ∨ next_version key s = Panic.
Proof.
  unfold next_version. destruct (tags s !! key) as [e|]; [|eauto]. unfold incr_u64.
  destruct (te_version e =? u64_max); eauto.
Qed.

(** Entries sit under the hash of their name and count from one. *)
Definition tags_wf (s : store) : Prop :=
  ∀ u h e, tags s !! (u, h) = Some e → item_hash (te_name e) = h ∧ 1 ≤ te_version e ≤ u64_max.

Lemma put_tag_wf u name kappa s s' r :
  tags_wf s → put_tag (u, item_hash name) name kappa s = (s', r) → tags_wf s'.
Proof.
  intros Hw. rewrite put_tag_run. destruct (next_version_cases (u, item_hash name) s) as [[v Hv]|Hv];
    rewrite Hv; intros [= <- <-]; [|done].
  intros u' h e. cbn [tags set_tags]. rewrite lookup_insert_Some.
  intros [[[= <- <-] <-]|[_ He]]; [|by eapply Hw]. cbn. split; [done|].
  unfold next_version in Hv. destruct (tags s !! (u, item_hash name)) as [e|] eqn:E.
  - apply incr_u64_ok in Hv as [Hne ->]. destruct (Hw _ _ _ E). lia.
  - injection Hv as <-. done.
Qed.

Lemma tag_set_run ns name kappa s s' v :
  tag_set ns name kappa s = (s', Ok v) →
  tags s' = <[tag_key ns name := mkTag name kappa v]> (tags s) ∧ v = version_at s (tag_key ns name) + 1 ∧
  fs s' = fs s ∧ sequences s' = sequences s ∧ current_epochs s' = current_epochs s ∧
  epoch_roots s' = epoch_roots s.
Proof.
  unfold tag_set. do_ensure ns s. unfold mbind, M_bind. rewrite E, put_tag_run.
  destruct (next_version _ _) as [w| |] eqn:Hv; [|done..]. intros [= <- <-].
  apply next_version_ok in Hv. done.
Qed.

(** Number of updates that write a key. *)
Definition touches (uuid : bytes) (key : bytes * Z) (u : TagUpdate) : Prop :=
  key = (uuid, item_hash (tu_name u)).
#[global] Instance touches_dec uuid key u : Decision (touches uuid key u).
Proof. unfold touches. apply _. Defined.

Lemma apply_updates_run uuid updates s s' :
  apply_updates uuid updates s = (s', Ok ()) →
  ∀ key, tags s' !! key =
    match last (filter (touches uuid key) updates) with
    | Some u => Some (mkTag (tu_name u) (tu_kappa u)
                        (version_at s key + zlen (filter (touches uuid key) updates)))
    | None => tags s !! key
    end.
Proof.
  revert s. induction updates as [|u l IH]; intros s; cbn [apply_updates].
  { run. by intros [= <-]. }
  unfold mbind, M_bind. rewrite put_tag_run. set (k := (uuid, item_hash (tu_name u))).
  destruct (next_version k s) as [v| |] eqn:Hv; [|done..]. apply next_version_ok in Hv.
  intros Hrun key. rewrite (IH _ Hrun key). cbn [tags set_tags]. unfold version_at at 1. cbn [tags set_tags].
  destruct (decide (touches uuid key u)) as [Ht|Ht].
  - rewrite filter_cons_True by done. rewrite Ht. fold k. rewrite lookup_insert_eq, last_cons. subst v.
    destruct (last (filter _ l)) as [u'|] eqn:E; cbn [te_version length].
    + do 2 f_equal. lia.
    + apply last_None in E. rewrite E. cbn. do 2 f_equal.
  - rewrite filter_cons_False by done. rewrite lookup_insert_ne by (intros E; by apply Ht).
    done.
Qed.

(** The writes never fail; they panic only when a version leaves [u64]. *)
Lemma apply_updates_fails uuid updates s s' r :
  apply_updates uuid updates s = (s', r) →
  match r with
  | Ok _ => True
  | Err _ => False
  | Panic => ∃ key, u64_max < version_at s key + zlen (filter (touches uuid key) updates)
  end.
Proof.
  revert s. induction updates as [|u l IH]; intros s; cbn [apply_updates].
  { run. by intros [= <- <-]. }
  unfold mbind, M_bind. rewrite put_tag_run. set (k := (uuid, item_hash (tu_name u))).
  destruct (next_version k s) as [v| |] eqn:Hv.
  - apply next_version_ok in Hv. intros Hr%IH. destruct r; [done..|]. destruct Hr as [key Hk].
    exists key. unfold version_at at 1 in Hk. cbn [tags set_tags] in Hk.
    destruct (decide (touches uuid key u)) as [Ht|Ht].
    + rewrite filter_cons_True by done. rewrite Ht in *. fold k in Hk |- *.
      rewrite lookup_insert_eq in Hk. cbn [te_version length] in *. lia.
    + rewrite filter_cons_False by done. rewrite lookup_insert_ne in Hk by (intros E; by apply Ht). done.
  - destruct (next_version_cases k s) as [[? Hc]|Hc]; congruence.
  - intros [= <- <-]. exists k. rewrite filter_cons_True by done. cbn [length].
    unfold next_version in Hv. unfold version_at. destruct (tags s !! k) as [e|]; [|done].
    unfold incr_u64 in Hv. destruct (Z.eqb_spec (te_version e) u64_max); [lia|done].
Qed.

Lemma check_updates_spec uuid updates s :
  match check_updates uuid updates s with
  | Ok _ => ∀ u v, u ∈ updates → tu_expected_version u = Some v →
              v = version_at s (uuid, item_hash (tu_name u))
  | Err e => (∃ msg, e = SConflict msg) ∧ ∃ u v, u ∈ updates ∧ tu_expected_version u = Some v ∧
              v ≠ version_at s (uuid, item_hash (tu_name u))
  | Panic => False
  end.
Proof.
  induction updates as [|u l IH]; cbn [check_updates]; [set_solver|].
  destruct (tu_expected_version u) as [ex|] eqn:Hex.
  - fold (version_at s (uuid, item_hash (tu_name u))). destruct (Z.eqb_spec ex (version_at s (uuid, item_hash (tu_name u)))).
    + destruct (check_updates uuid l s); [|set_solver|done]. intros u' v [->|Hu]%elem_of_cons; naive_solver.
    + split; [eauto|]. exists u, ex. set_solver.
  - destruct (check_updates uuid l s); [|set_solver|done]. intros u' v [->|Hu]%elem_of_cons; naive_solver.
Qed.

(** Stable sorting by a key without ties is insensitive to the input order. *)
Lemma sort_by_name_perm l l' :
  NoDup (te_name <$> l) → l ≡ₚ l' → sort_by tag_name_le l = sort_by tag_name_le l'.
Proof.
  intros Hnd Hp.
  assert (∀ k, StronglySorted (λ a b, tag_name_le a b = true) (sort_by tag_name_le k)) as Hs.
  { intros k. apply sort_by_sorted; unfold tag_name_le.
    - intros x y. apply bytes_leb_total.
    - intros x y z. apply bytes_leb_trans. }
  assert (∀ x y, x ∈ sort_by tag_name_le l → y ∈ sort_by tag_name_le l → te_name x = te_name y → x = y) as Hinj.
  { intros x y Hx Hy E. rewrite elem_of_sort_by in Hx, Hy.
    apply list_elem_of_lookup in Hx as [i Hi], Hy as [j Hj].
    assert (i = j) as ->; [|congruence].
    eapply (NoDup_lookup _ _ _ (te_name x) Hnd); [by rewrite list_lookup_fmap, Hi|by rewrite list_lookup_fmap, Hj, E]. }
  assert (sort_by tag_name_le l ≡ₚ sort_by tag_name_le l') as Hpp by (by rewrite !sort_by_perm).
  revert Hinj Hpp. generalize (Hs l) (Hs l'). generalize (sort_by tag_name_le l) (sort_by tag_name_le l').
  clear. intros k k' Hk. revert k'. induction Hk as [|x k Hk IH Hx]; intros k' Hk' Hinj Hp.
  { by apply Permutation_nil_l in Hp. }
  destruct Hk' as [|y k' Hk' Hy]; [by apply Permutation_nil_r in Hp|].
  assert (x = y) as ->.
  { assert (y ∈ x :: k) as Hyin by (rewrite Hp; set_solver).
    assert (x ∈ y :: k') as Hxin by (rewrite <- Hp; set_solver).
    apply elem_of_cons in Hyin as [->|Hyin]; [done|]. apply elem_of_cons in Hxin as [->|Hxin]; [done|].
    apply Hinj; [set_solver|set_solver|]. rewrite Forall_forall in Hx, Hy.
    apply bytes_leb_antisym; [apply (Hx y Hyin)|apply (Hy x Hxin)]. }
  f_equal. apply IH; [done| |by apply Permutation_cons_inv in Hp].
  intros a b Ha Hb E. apply Hinj; [by right..|done].
Qed.

Lemma ns_tags_elem ns s e :
  e ∈ ns_tags ns s ↔ ∃ h, tags s !! (ns_uuid ns, h) = Some e.
Proof.
  unfold ns_tags. rewrite list_elem_of_fmap. split.
  - intros ([[u h] e'] & -> & Hin). apply list_elem_of_filter in Hin as [-> Hin]. apply elem_of_map_to_list in Hin. eauto.
  - intros [h Hh]. exists ((ns_uuid ns, h), e). split; [done|]. apply list_elem_of_filter. split; [done|].
    by apply elem_of_map_to_list.
Qed.

Lemma ns_tags_names ns s : tags_wf s → NoDup (te_name <$> ns_tags ns s).
Proof.
  intros Hw. unfold ns_tags. rewrite <- list_fmap_compose. apply NoDup_fmap_2_strong.
  - intros [[u h] e] [[u' h'] e'] Hin Hin' E. simpl in E.
    apply list_elem_of_filter in Hin as [-> Hin], Hin' as [-> Hin'].
    apply elem_of_map_to_list in Hin, Hin'.
    destruct (Hw _ _ _ Hin) as [<- _], (Hw _ _ _ Hin') as [<- _]. rewrite E in *. congruence.
  - apply NoDup_filter, NoDup_map_to_list.
Qed.
End tag_facts.

(** * Running the epoch operations *)

Section epoch_facts.
Context `{HashCratesLaws} `{Dcbor} `{MemoryStoreConfig}.

Lemma bump_sequence_run key s s' n :
  bump_sequence key s = (s', Ok n) →
  n = default 0 (sequences s !! key) + 1 ∧ s' = set_sequences (<[key := n]>) s.
Proof.
  unfold bump_sequence. run. destruct (incr_u64 _) as [m| |] eqn:E; [|done..].
  intros [= <- <-]. apply incr_u64_ok in E as [_ ->]. done.
Qed.

(** The pointer [epoch_current] reports. *)
Definition current_pointer (ns : NamespaceRef) (s : store) : option rstr :=
  match current_epochs s !! ns_uuid ns with
  | Some k => Some k
  | None => te_kappa <$> tags s !! tag_key ns (rs "_epoch/current")
  end.

Lemma epoch_current_run ns s :
  ∃ f, epoch_current ns s = (set_current_epochs f s, Ok (current_pointer ns s)) ∧
       current_pointer ns (set_current_epochs f s) = current_pointer ns s.
Proof.
  unfold epoch_current, current_pointer, tag_get. run.
  destruct (current_epochs s !! ns_uuid ns) as [k|] eqn:E.
  { exists id. change (current_epochs (set_current_epochs id s)) with (current_epochs s).
    rewrite E. by destruct s. }
  destruct (tags s !! tag_key ns (rs "_epoch/current")) as [e|] eqn:Ht; cbn [ok_or].
  - exists (<[ns_uuid ns := te_kappa e]>). split; [done|].
    cbn [current_epochs set_current_epochs]. by rewrite lookup_insert_eq.
  - exists id. split; [by destruct s|].
    change (current_epochs (set_current_epochs id s)) with (current_epochs s).
    change (tags (set_current_epochs id s)) with (tags s). by rewrite E, Ht.
Qed.

(** Ingesting leaves everything but the files alone. *)
Lemma mem_put_frame v s s' r : mem_blob_put_verified v s = (s', r) → ∃ f, s' = set_fs f s.
Proof.
  unfold mem_blob_put_verified. run. destruct (reject_label (vc_kappa v)) as [k| |].
  2,3: intros [= <- <-]; exists id; by destruct s.
  destruct (blob_path k) as [p| |]; cbn -[set_fs].
  2,3: intros [= <- <-]; exists id; by destruct s.
  destruct (bool_decide _); intros [= <- <-]; [exists id; by destruct s|by eexists].
Qed.

Lemma put_additional_frame c content axes s s' r :
  put_additional c content axes s = (s', r) → ∃ f, s' = set_fs f s.
Proof.
  revert s s' r. induction axes as [|a axes IH]; intros s s' r; cbn [put_additional].
  { run. intros [= <- <-]. exists id. by destruct s. }
  case_decide; [apply IH|]. unfold mbind, M_bind at 1, lift at 1.
  destruct (reject_label (VerifiedContent_compute a content)) as [v| |].
  2,3: intros [= <- <-]; exists id; by destruct s.
  unfold M_bind at 1, lift at 1. destruct (reject_label (vc_kappa v)) as [k| |].
  2,3: intros [= <- <-]; exists id; by destruct s.
  unfold M_bind at 1. destruct (blob_put_verified v s) as [s1 r1] eqn:Hp.
  apply mem_put_frame in Hp as [f1 ->]. destruct r1 as [b| |].
  2,3: intros [= <- <-]; eauto.
  unfold M_bind. destruct (put_additional c content axes (set_fs f1 s)) as [s2 r2] eqn:Hr.
  apply IH in Hr as [f2 ->].
  destruct r2; intros [= <- <-]; by exists (λ m, f2 (f1 m)).
Qed.

Lemma ingest_compute_frame a content s s' r :
  ingest_compute a content s = (s', r) → ∃ f, s' = set_fs f s.
Proof.
  unfold ingest_compute. unfold mbind, M_bind at 1, lift at 1.
  destruct (reject_label (VerifiedContent_compute a content)) as [v| |].
  2,3: intros [= <- <-]; exists id; by destruct s.
  unfold M_bind at 1, lift at 1. destruct (reject_label (vc_kappa v)) as [k| |].
  2,3: intros [= <- <-]; exists id; by destruct s.
  unfold M_bind at 1. destruct (blob_put_verified v s) as [s1 r1] eqn:Hp.
  apply mem_put_frame in Hp as [f1 ->]. destruct r1 as [b| |].
  2,3: intros [= <- <-]; eauto.
  unfold M_bind. destruct (put_additional a content mandatory_axes (set_fs f1 s)) as [s2 r2] eqn:Hr.
  apply put_additional_frame in Hr as [f2 ->].
  destruct r2; intros [= <- <-]; by exists (λ m, f2 (f1 m)).
Qed.

Lemma ingest_verified_frame claimed content s s' r :
  ingest_verified claimed content s = (s', r) → ∃ f, s' = set_fs f s.
Proof.
  unfold ingest_verified. unfold mbind, M_bind at 1, lift at 1.
  destruct (reject_label (VerifiedContent_verify claimed content)) as [v| |].
  2,3: intros [= <- <-]; exists id; by destruct s.
  unfold M_bind at 1, lift at 1. destruct (reject_label (vc_axis v)) as [a| |].
  2,3: intros [= <- <-]; exists id; by destruct s.
  unfold M_bind at 1, lift at 1. destruct (reject_label (vc_kappa v)) as [k| |].
  2,3: intros [= <- <-]; exists id; by destruct s.
  unfold M_bind at 1. destruct (blob_put_verified v s) as [s1 r1] eqn:Hp.
  apply mem_put_frame in Hp as [f1 ->]. destruct r1 as [b| |].
  2,3: intros [= <- <-]; eauto.
  unfold M_bind. destruct (put_additional a content mandatory_axes (set_fs f1 s)) as [s2 r2] eqn:Hr.
  apply put_additional_frame in Hr as [f2 ->].
  destruct r2; intros [= <- <-]; by exists (λ m, f2 (f1 m)).
Qed.
End epoch_facts.

(** * Properties *)

(** A successful [tag_set] is read back exactly, with the version one above
    what the name was at; every tag of another namespace or of a name with
    another hash is untouched. *)
Theorem tag_set_get `{HashCrates} ns name kappa s s' v
  (Hrun : tag_set ns name kappa s = (s', Ok v)) :
  tag_get ns name s' = Ok (mkTag name kappa v) ∧
  v = match tag_get ns name s with Ok e => te_version e + 1 | _ => 1 end ∧
  ∀ ns' name', tag_key ns' name' ≠ tag_key ns name → tag_get ns' name' s' = tag_get ns' name' s.
Proof.
  apply tag_set_run in Hrun as (Ht & -> & _). unfold tag_get. rewrite Ht, lookup_insert_eq. split_and!.
  - done.
  - unfold version_at. by destruct (tags s !! _).
  - intros ns' name' Hne. by rewrite lookup_insert_ne.
Qed.

Lemma tag_set_get_witness :
  ∃ s', tag_set (with_name (replicate 16 x07) (rs "ns")) (rs "latest") (rs "k1") empty_store = (s', Ok 1) ∧
    tag_get (with_name (replicate 16 x07) (rs "ns")) (rs "latest") s' = Ok (mkTag (rs "latest") (rs "k1") 1).
Proof.
  assert ((tag_set (with_name (replicate 16 x07) (rs "ns")) (rs "latest") (rs "k1") empty_store).2 = Ok 1)
    as Hr by (vm_compute; reflexivity).
  destruct (tag_set (with_name (replicate 16 x07) (rs "ns")) (rs "latest") (rs "k1") empty_store) as [s' r] eqn:E.
  cbn [snd] in Hr. subst r.
  exists s'. split; [done|]. apply (tag_set_get _ _ _ _ _ _ E).
Defined.

(** Names with the same 64-bit hash share one entry: setting the second
    replaces the first, and reading the first returns the second's entry. *)
Theorem tag_hash_collision `{HashCrates} ns n1 n2 k1 k2 s s1 s2 v1 v2
  (Hc : item_hash n1 = item_hash n2)
  (H1 : tag_set ns n1 k1 s = (s1, Ok v1)) (H2 : tag_set ns n2 k2 s1 = (s2, Ok v2)) :
  tag_get ns n1 s2 = Ok (mkTag n2 k2 v2).
Proof.
  apply tag_set_run in H2 as (Ht & _). unfold tag_get, tag_key in *. by rewrite Hc, Ht, lookup_insert_eq.
Qed.

(** Under the sample hash, names that agree on eight bytes collide. *)
Lemma tag_hash_collision_witness :
  let ns := with_name (replicate 16 x07) (rs "ns") in
  ∃ s2, tag_get ns (rs "release-1") s2 = Ok (mkTag (rs "release-2") (rs "kb") 2).
Proof.
  intros ns.
  assert ((tag_set ns (rs "release-1") (rs "ka") empty_store).2 = Ok 1) as Hr1 by (vm_compute; reflexivity).
  assert ((tag_set ns (rs "release-2") (rs "kb") (tag_set ns (rs "release-1") (rs "ka") empty_store).1).2 = Ok 2)
    as Hr2 by (vm_compute; reflexivity).
  destruct (tag_set ns (rs "release-1") (rs "ka") empty_store) as [s1 r1] eqn:E1. cbn [fst snd] in *. subst r1.
  destruct (tag_set ns (rs "release-2") (rs "kb") s1) as [s2 r2] eqn:E2. cbn [snd] in Hr2. subst r2.
  exists s2. refine (tag_hash_collision ns _ _ _ _ _ _ _ _ _ _ E1 E2). vm_compute. reflexivity.
Defined.

(** [tag_set_batch] is atomic: with a version conflict no tag changes; on
    success every expected version was current, each name the batch writes ends
    at its last update's label with one version step per update, and no other
    tag changes.  A panic means that some version would leave [u64]. *)
Theorem tag_set_batch_atomic `{HashCrates} ns updates s :
  match tag_set_batch ns updates s with
  | (s', Ok _) =>
      (∀ u v, u ∈ updates → tu_expected_version u = Some v → v = version_at s (ns_uuid ns, item_hash (tu_name u))) ∧
      ∀ key, tags s' !! key =
        match last (filter (touches (ns_uuid ns) key) updates) with
        | Some u => Some (mkTag (tu_name u) (tu_kappa u)
                            (version_at s key + zlen (filter (touches (ns_uuid ns) key) updates)))
        | None => tags s !! key
        end
  | (s', Err e) => tags s' = tags s ∧ (∃ msg, e = SConflict msg) ∧
      ∃ u v, u ∈ updates ∧ tu_expected_version u = Some v ∧ v ≠ version_at s (ns_uuid ns, item_hash (tu_name u))
  | (_, Panic) => ∃ key, u64_max < version_at s key + zlen (filter (touches (ns_uuid ns) key) updates)
  end.
Proof.
  unfold tag_set_batch. do_ensure ns s. unfold mbind, M_bind. rewrite E. unfold asks.
  pose proof (check_updates_spec (ns_uuid ns) updates (set_ns_aliases f (set_ns_records g s))) as Hc.
  destruct (check_updates _ _ _) as [[]|e|]; [|by destruct Hc|done].
  destruct (apply_updates (ns_uuid ns) updates _) as [s' [[]|e|]] eqn:Ha.
  - split; [exact Hc|]. intros key. rewrite (apply_updates_run _ _ _ _ Ha key). done.
  - by apply apply_updates_fails in Ha.
  - by apply apply_updates_fails in Ha.
Qed.

(** [tag_list] returns exactly the namespace's tags, each once, in strictly
    increasing name order, and the result does not depend on the order in which
    the hash map is iterated. *)
Theorem tag_list_correct `{HashCrates} ns s (Hw : tags_wf s) :
  ∃ l, tag_list ns s = Ok l ∧
    StronglySorted (λ a b, bytes_le (te_name a) (te_name b)) l ∧ NoDup (te_name <$> l) ∧
    (∀ e, e ∈ l ↔ tag_get ns (te_name e) s = Ok e) ∧
    ∀ visited, visited ≡ₚ ns_tags ns s → sort_by tag_name_le visited = l.
Proof.
  eexists. split; [done|]. unfold collect_sorted_tags. split_and!.
  - apply (sort_by_sorted tag_name_le); unfold tag_name_le.
    + intros x y. apply bytes_leb_total.
    + intros x y z. apply bytes_leb_trans.
  - rewrite sort_by_perm. by apply ns_tags_names.
  - intros e. rewrite elem_of_sort_by, ns_tags_elem. unfold tag_get. rewrite ok_or_ok_inv. split.
    + intros [h Hh]. destruct (Hw _ _ _ Hh) as [Hi _]. unfold tag_key. by rewrite Hi.
    + intros Ht. by exists (item_hash (te_name e)).
  - intros visited Hv. symmetry. apply sort_by_name_perm; [by apply ns_tags_names|by symmetry].
Qed.

Lemma tag_list_correct_witness :
  let ns := with_name (replicate 16 x07) (rs "ns") in
  ∃ l, tag_list ns (tag_set ns (rs "v2") (rs "k2") (tag_set ns (rs "v1") (rs "k1") empty_store).1).1 = Ok l ∧
    StronglySorted (λ a b, bytes_le (te_name a) (te_name b)) l.
Proof.
  intros ns.
  destruct (tag_list_correct ns (tag_set ns (rs "v2") (rs "k2") (tag_set ns (rs "v1") (rs "k1") empty_store).1).1)
    as (l & H1 & H2 & _).
  - destruct (tag_set ns (rs "v1") (rs "k1") empty_store) as [s1 r1] eqn:E1.
    cbn [fst]. destruct (tag_set ns (rs "v2") (rs "k2") s1) as [s2 r2] eqn:E2. cbn [fst].
    assert (∀ n k s s' r, tags_wf s → tag_set ns n k s = (s', r) → tags_wf s') as Hp.
    { clear. intros n k s s' r Hw. unfold tag_set. do_ensure ns s. unfold mbind, M_bind. rewrite E.
      by apply put_tag_wf. }
    eapply Hp; [|exact E2]. eapply Hp; [|exact E1]. by intros u h e He.
  - exists l. split; [exact H1|exact H2].
Defined.

(** [sequence_next] returns the successor of [sequence_current], which it
    then becomes; other sequences and all tags keep their values. *)
Theorem sequence_next_correct `{HashCrates} ns name s s' n
  (Hrun : sequence_next ns name s = (s', Ok n)) :
  (∃ c, sequence_current ns name s = Ok c ∧ n = c + 1) ∧ sequence_current ns name s' = Ok n ∧
  (∀ ns' name', tag_key ns' name' ≠ tag_key ns name →
     sequence_current ns' name' s' = sequence_current ns' name' s) ∧ tags s' = tags s.
Proof.
  unfold sequence_next in Hrun. destruct (ensure_namespace_run ns s) as (f & g & E).
  unfold mbind, M_bind in Hrun. rewrite E in Hrun. unfold bump_sequence in Hrun. run_in Hrun.
  destruct (incr_u64 _) as [m| |] eqn:Hi; [|done..]. injection Hrun as <- <-.
  apply incr_u64_ok in Hi as [_ ->]. unfold sequence_current. cbn. split_and!.
  - eauto.
  - by rewrite lookup_insert_eq.
  - intros ns' name' Hne. by rewrite lookup_insert_ne.
  - done.
Qed.

Lemma sequence_next_correct_witness :
  let ns := with_name (replicate 16 x07) (rs "ns") in
  ∃ s', sequence_next ns (rs "q") empty_store = (s', Ok 1) ∧ sequence_current ns (rs "q") s' = Ok 1.
Proof.
  intros ns. assert ((sequence_next ns (rs "q") empty_store).2 = Ok 1) as Hr by (vm_compute; reflexivity).
  destruct (sequence_next ns (rs "q") empty_store) as [s' r] eqn:E. cbn [snd] in Hr. subst r.
  exists s'. split; [done|]. apply (sequence_next_correct _ _ _ _ _ E).
Defined.

(** Advancing a namespace's epoch appends to its chain: the new root is
    numbered one past the sequence, points back to the previous current root,
    commits to the tags before the advance and to the mutations, is stored under
    the SHA-256 address of its serialization, is what [epoch_get] returns, and
    becomes what [epoch_current] reports. *)
Theorem epoch_advance_chain `{HashCratesLaws} `{Dcbor} `{MemoryStoreConfig} now_ms ns mutations s s' k
  (Hrun : epoch_advance now_ms ns mutations s = (s', Ok k)) :
  ∃ e, build (mkEpochFields (ns_display ns) (default 0 (sequences s !! tag_key ns (rs "_epoch")) + 1)
                (current_pointer ns s) (state_merkle_root (collect_sorted_tags ns s))
                (mutations_merkle_root mutations) now_ms []) = Ok e ∧
    k = kappa_text Sha256 (to_leaf_bytes e) ∧
    (epoch_get k s').2 = Ok e ∧ current_pointer ns s' = Some k ∧
    (epoch_current ns s').2 = Ok (Some k) ∧
    sequences s' !! tag_key ns (rs "_epoch") = Some (default 0 (sequences s !! tag_key ns (rs "_epoch")) + 1).
Proof.
  unfold epoch_advance in Hrun. destruct (ensure_namespace_run ns s) as (f & g & E).
  apply M_bind_ok in Hrun as (s1 & [] & E1 & Hrun). rewrite E in E1. injection E1 as <-.
  apply M_bind_ok in Hrun as (s2 & n & E2 & Hrun). apply bump_sequence_run in E2 as [Hn ->].
  apply M_bind_ok in Hrun as (s3 & prev & E3 & Hrun).
  destruct (epoch_current_run ns (set_sequences (<[tag_key ns (rs "_epoch") := n]>)
    (set_ns_aliases f (set_ns_records g s)))) as (fc & Hc & Hcp). rewrite Hc in E3. injection E3 as <- <-.
  apply M_bind_ok in Hrun as (s4 & tgs & E4 & Hrun). injection E4 as <- <-. cbv zeta in Hrun.
  apply M_bind_ok in Hrun as (s5 & e & E5 & Hrun). unfold lift in E5. apply pair_eq in E5 as [<- Hb].
  apply map_err_ok_inv in Hb. exists e.
  apply M_bind_ok in Hrun as (s6 & ir & E6 & Hrun). apply ingest_compute_frame in E6 as [ff ->].
  apply M_bind_ok in Hrun as (s7 & [] & E7 & Hrun). injection E7 as <-.
  apply M_bind_ok in Hrun as (s8 & [] & E8 & Hrun). injection E8 as <-.
  apply M_bind_ok in Hrun as (s9 & v & E9 & Hrun). injection Hrun as <- <-.
  apply tag_set_run in E9 as (Ht & _ & _ & Hseq & Hcur & Her). cbn [sequences current_epochs epoch_roots set_sequences
    set_current_epochs set_epoch_roots set_fs] in Hseq, Hcur, Her.
  assert (current_pointer ns s9 = Some (epoch_kappa e)) as Hptr.
  { unfold current_pointer. rewrite Hcur. by rewrite lookup_insert_eq. }
  split_and!.
  - rewrite <- Hb. by rewrite Hn.
  - unfold epoch_kappa. apply kappa_from_bytes_text.
  - unfold epoch_get. run. by rewrite Her, lookup_insert_eq.
  - done.
  - destruct (epoch_current_run ns s9) as (fl & -> & _). simpl. by rewrite Hptr.
  - rewrite Hseq, lookup_insert_eq. by rewrite Hn.
Qed.

Lemma epoch_advance_chain_witness :
  let ns := with_name (replicate 16 x07) (rs "ns") in
  ∃ s' k, epoch_advance 1000 ns [] empty_store = (s', Ok k) ∧ current_pointer ns s' = Some k.
Proof.
  intros ns.
  assert (is_ok (epoch_advance 1000 ns [] empty_store).2 = true) as Hr by (vm_compute; reflexivity).
  destruct (epoch_advance 1000 ns [] empty_store) as [s' [k| |]] eqn:E; [|discriminate Hr..].
  exists s', k. split; [reflexivity|].
  destruct (epoch_advance_chain _ _ _ _ _ _ E) as (e & _ & _ & _ & Hp & _). exact Hp.
Defined.
