(* ===== verification/MemEdge.v ===== *)
(** MemEdge: edges of [InMemoryStore], [kappa-core/src/store/memory/edge.rs].

    Edges are stored by the hash of their first address, with four indexes by
    source, target, relation and asserter.  The invariant [edge_inv] ties the
    indexes to the edges. *)

From S2P Require Import Prelude Label Compute Types Merkle Epoch Identity Store MemStore MemTags.

(** [TryFrom<CBOR>] of an edge, generated by the codec's derive macro. *)
Class EdgeFromCbor `{Dcbor} := edge_of_cbor : cbor → Edge + rstr.

Definition relation_index (r : EdgeRelation) : Z :=
  match r with
  | Owns => 0
  | ComposedOf => 1
  | Assertion => 2
  | Revocation => 3
  | Capability => 4
  | RecoveryShare => 5
  | EpochRootRel => 6
  | AkdTreeNode => 7
  | ChunkManifest => 8
  | WitnessReceipt => 9
  | OffloadReceipt => 10
  | DerivedFrom => 11
  | CertifiedBy => 12
  | EvidenceProvenance => 13
  | SectionOf => 14
  | RefersTo => 15
  | Delegation => 16
  end.

(** The relations mirrored in the inbound assertion index. *)
Definition inbound_relations : list EdgeRelation := [Assertion; Revocation; Capability; Delegation].

(** Same source, target, relation and asserter. *)
Definition same_edge (a b : Edge) : Prop :=
  e_source a = e_source b ∧ e_target a = e_target b ∧ e_relation a = e_relation b ∧
  e_asserter a = e_asserter b.
#[export] Instance same_edge_dec a b : Decision (same_edge a b).
Proof. unfold same_edge. apply _. Defined.

Section edges.
Context `{HashCrates} `{Dcbor} `{!IntoCbor Edge} `{MemoryStoreConfig}.

Definition edge_kappa (edge : Edge) : rstr := kappa_from_bytes (canonical_bytes into_cbor edge).

(** The upsert scan: the first indexed edge of the same identity. *)
Fixpoint find_same (uuid : bytes) (edge : Edge) (m : gmap (bytes * Z) Edge) (kappas : list rstr)
  : option (Z * Edge) :=
  match kappas with
  | [] => None
  | ek :: rest =>
      match m !! (uuid, item_hash ek) with
      | Some existing =>
          if decide (same_edge existing edge) then Some (item_hash ek, existing)
          else find_same uuid edge m rest
      | None => find_same uuid edge m rest
      end
  end.

Definition indexed_at (index : gmap (bytes * Z) (list rstr)) (key : bytes * Z) : list rstr :=
  default [] (index !! key).

(** Index a new edge in all four indexes. *)
Definition index_edge (uuid : bytes) (edge : Edge) (ek : rstr) (s : store) : store :=
  set_asr_index (push_at (uuid, item_hash (e_asserter edge)) ek)
    (set_rel_index (push_at (uuid, relation_index (e_relation edge)) ek)
       (set_rev_index (push_at (uuid, item_hash (e_target edge)) ek)
          (set_fwd_index (push_at (uuid, item_hash (e_source edge)) ek) s))).

Definition edge_put (ns : NamespaceRef) (edge : Edge) : M store () :=
  _ ← ensure_namespace ns;
  let edge_bytes := canonical_bytes into_cbor edge in
  let ek := kappa_from_bytes edge_bytes in
  _ ← ingest_compute Sha256 edge_bytes;
  let uuid := ns_uuid ns in
  existing ← gets (λ s, find_same uuid edge (edges s)
                          (indexed_at (fwd_index s) (uuid, item_hash (e_source edge))));
  match existing with
  | Some (ekh, ex) =>
      if decide (e_value_kappa ex = e_value_kappa edge ∧ e_metadata ex = e_metadata edge)
      then mret ()
      else modify (set_edges (<[(uuid, ekh) := edge]>))
  | None =>
      _ ← modify (set_edges (<[(uuid, item_hash ek) := edge]>));
      _ ← modify (index_edge uuid edge ek);
      if decide (e_relation edge ∈ inbound_relations) then
        modify (set_assertion_inbound
          (push_at (e_target edge ++ [x00] ++ relation_as_str (e_relation edge)) ek))
      else mret ()
  end.

(** [edge_put_batch], the trait's default. *)
Fixpoint edge_put_batch (ns : NamespaceRef) (es : list Edge) : M store () :=
  match es with
  | [] => mret ()
  | e :: rest => _ ← edge_put ns e; edge_put_batch ns rest
  end.

Definition query_matches (q : EdgeQuery) (e : Edge) : bool :=
  match q_relation q with Some r => bool_decide (e_relation e = r) | None => true end
  && match q_asserter q with Some a => bool_decide (e_asserter e = a) | None => true end.

Definition edge_query (ns : NamespaceRef) (q : EdgeQuery) (s : store) : outcome StoreError (list Edge) :=
  let uuid := ns_uuid ns in
  let anchor_hash := item_hash (q_anchor q) in
  let kappas := match q_direction q with
                | Outbound => indexed_at (fwd_index s) (uuid, anchor_hash)
                | Inbound => indexed_at (rev_index s) (uuid, anchor_hash)
                end in
  Ok (filter (λ e, query_matches q e = true)
        (omap (λ ek, edges s !! (uuid, item_hash ek)) kappas)).

(** [vec.retain(|k| k != kappa)] where the key is present. *)
Definition retain_ne (key : bytes * Z) (kappa : rstr) (index : gmap (bytes * Z) (list rstr))
  : gmap (bytes * Z) (list rstr) :=
  alter (filter (λ k, k ≠ kappa)) key index.

Definition unindex_edge (uuid : bytes) (edge : Edge) (ek : rstr) (s : store) : store :=
  set_asr_index (retain_ne (uuid, item_hash (e_asserter edge)) ek)
    (set_rel_index (retain_ne (uuid, relation_index (e_relation edge)) ek)
       (set_rev_index (retain_ne (uuid, item_hash (e_target edge)) ek)
          (set_fwd_index (retain_ne (uuid, item_hash (e_source edge)) ek) s))).

(** The first candidate with the given source, target and relation. *)
Fixpoint find_edge (uuid : bytes) (source target : rstr) (relation : EdgeRelation)
  (m : gmap (bytes * Z) Edge) (kappas : list rstr) : option rstr :=
  match kappas with
  | [] => None
  | ek :: rest =>
      match m !! (uuid, item_hash ek) with
      | Some e =>
          if decide (e_source e = source ∧ e_target e = target ∧ e_relation e = relation)
          then Some ek else find_edge uuid source target relation m rest
      | None => find_edge uuid source target relation m rest
      end
  end.

Definition edge_delete (ns : NamespaceRef) (source target : rstr) (relation : EdgeRelation) : M store () :=
  let uuid := ns_uuid ns in
  found ← gets (λ s, find_edge uuid source target relation (edges s)
                       (indexed_at (fwd_index s) (uuid, item_hash source)));
  match found with
  | None => mret ()
  | Some ek =>
      removed ← gets (λ s, edges s !! (uuid, item_hash ek));
      _ ← modify (set_edges (delete (uuid, item_hash ek)));
      _ ← match removed with
          | Some edge => modify (unindex_edge uuid edge ek)
          | None => mret ()
          end;
      blob_delete ek
  end.
End edges.

(** * The index invariant *)

Inductive index_kind := Fwd | Rev | Rel | Asr.

Definition idx (s : store) (i : index_kind) : gmap (bytes * Z) (list rstr) :=
  match i with Fwd => fwd_index s | Rev => rev_index s | Rel => rel_index s | Asr => asr_index s end.

Section invariant.
Context `{HashCrates}.

Definition ikey (i : index_kind) (e : Edge) : Z :=
  match i with
  | Fwd => item_hash (e_source e)
  | Rev => item_hash (e_target e)
  | Rel => relation_index (e_relation e)
  | Asr => item_hash (e_asserter e)
  end.

Definition at_idx (s : store) (i : index_kind) (u : bytes) (k : Z) : list rstr :=
  indexed_at (idx s i) (u, k).

(** Every edge is in all four indexes under one name, every indexed name leads
    to an edge with that key, names are told apart by their hash, and no two
    edges of a namespace have the same identity. *)
Record edge_inv (s : store) : Prop := {
  ei_complete : ∀ u h e, edges s !! (u, h) = Some e →
    ∃ ek, item_hash ek = h ∧ ∀ i, ek ∈ at_idx s i u (ikey i e);
  ei_sound : ∀ i u k ek, ek ∈ at_idx s i u k →
    ∃ e, edges s !! (u, item_hash ek) = Some e ∧ ikey i e = k;
  ei_names : ∀ i j u k l ek ek', ek ∈ at_idx s i u k → ek' ∈ at_idx s j u l →
    item_hash ek = item_hash ek' → ek = ek';
  ei_unique : ∀ u h h' e e', edges s !! (u, h) = Some e → edges s !! (u, h') = Some e' →
    same_edge e e' → h = h';
}.

Lemma same_edge_ikey a b i : same_edge a b → ikey i a = ikey i b.
Proof. intros (H1 & H2 & H3 & H4). destruct i; cbn; congruence. Qed.

Lemma same_edge_sym a b : same_edge a b → same_edge b a.
Proof. intros (H1 & H2 & H3 & H4). by split_and!. Qed.

Lemma same_edge_trans a b c : same_edge a b → same_edge b c → same_edge a c.
Proof. intros (? & ? & ? & ?) (? & ? & ? & ?). split_and!; congruence. Qed.

Lemma find_same_Some u e m ks h ex :
  find_same u e m ks = Some (h, ex) →
  ∃ ek, ek ∈ ks ∧ h = item_hash ek ∧ m !! (u, h) = Some ex ∧ same_edge ex e.
Proof.
  induction ks as [|ek ks IH]; cbn [find_same]; [done|].
  destruct (m !! (u, item_hash ek)) as [x|] eqn:E; [|intros (? & ? & ?)%IH; set_solver].
  case_decide; [|intros (? & ? & ?)%IH; set_solver]. intros [= <- <-]. exists ek. set_solver.
Qed.

Lemma find_same_None u e m ks ek x :
  find_same u e m ks = None → ek ∈ ks → m !! (u, item_hash ek) = Some x → ¬ same_edge x e.
Proof.
  induction ks as [|k ks IH]; cbn [find_same]; [set_solver|].
  intros Hf [->|Hin]%elem_of_cons Hx.
  - rewrite Hx in Hf. by case_decide.
  - destruct (m !! (u, item_hash k)); [case_decide; [done|]|]; auto.
Qed.

Lemma find_edge_Some u src tgt rel m ks ek :
  find_edge u src tgt rel m ks = Some ek →
  ek ∈ ks ∧ ∃ e, m !! (u, item_hash ek) = Some e ∧ e_source e = src ∧ e_target e = tgt ∧ e_relation e = rel.
Proof.
  induction ks as [|k ks IH]; cbn [find_edge]; [done|].
  destruct (m !! (u, item_hash k)) as [x|] eqn:E; [|intros [? ?]%IH; set_solver].
  case_decide; [|intros [? ?]%IH; set_solver]. intros [= <-]. split; [set_solver|]. naive_solver.
Qed.

Lemma find_edge_None u src tgt rel m ks ek e :
  find_edge u src tgt rel m ks = None → ek ∈ ks → m !! (u, item_hash ek) = Some e →
  ¬ (e_source e = src ∧ e_target e = tgt ∧ e_relation e = rel).
Proof.
  induction ks as [|k ks IH]; cbn [find_edge]; [set_solver|].
  intros Hf [->|Hin]%elem_of_cons Hx.
  - rewrite Hx in Hf. by case_decide.
  - destruct (m !! (u, item_hash k)); [case_decide; [done|]|]; auto.
Qed.

(** ** Replacing an edge in place *)
Lemma edge_inv_replace s u h ex e :
  edge_inv s → edges s !! (u, h) = Some ex → same_edge ex e →
  edge_inv (set_edges (<[(u, h) := e]>) s).
Proof.
  intros [I1 I2 I3 I4] Hex Hse.
  assert (∀ u' h' x, <[(u, h) := e]> (edges s) !! (u', h') = Some x →
    ∃ y, edges s !! (u', h') = Some y ∧ same_edge y x) as Hold.
  { intros u' h' x. rewrite lookup_insert_Some. intros [[[= <- <-] <-]|[_ Hx]]; eauto.
    exists x. split; [done|]. by split_and!. }
  split; cbn [edges set_edges].
  - intros u' h' x Hx. destruct (Hold _ _ _ Hx) as (y & Hy & Hyx).
    destruct (I1 _ _ _ Hy) as (ek & Hek & Hi). exists ek. split; [done|]. intros i.
    rewrite <- (same_edge_ikey _ _ i Hyx). apply Hi.
  - intros i u' k ek Hek. destruct (I2 _ _ _ _ Hek) as (y & Hy & Hk).
    destruct (decide ((u, h) = (u', item_hash ek))) as [E|E].
    + exists e. rewrite E, lookup_insert_eq. split; [done|]. rewrite <- Hk, E in *.
      rewrite Hex in Hy. injection Hy as <-. symmetry. by apply same_edge_ikey.
    + exists y. by rewrite lookup_insert_ne.
  - exact I3.
  - intros u' h1 h2 x1 x2 H1 H2 Hs. destruct (Hold _ _ _ H1) as (y1 & Hy1 & Hs1), (Hold _ _ _ H2) as (y2 & Hy2 & Hs2).
    apply (I4 _ _ _ _ _ Hy1 Hy2). eapply same_edge_trans; [exact Hs1|].
    eapply same_edge_trans; [exact Hs|]. by apply same_edge_sym.
Qed.

(** ** Adding an edge *)
Definition insert_edge (u : bytes) (e : Edge) (ek : rstr) (s : store) : store :=
  index_edge u e ek (set_edges (<[(u, item_hash ek) := e]>) s).

Lemma push_at_elem (m : gmap (bytes * Z) (list rstr)) key key' x y :
  y ∈ indexed_at (push_at key x m) key' ↔ y ∈ indexed_at m key' ∨ (key = key' ∧ y = x).
Proof.
  unfold indexed_at, push_at. destruct (decide (key = key')) as [->|Hne].
  - rewrite lookup_insert_eq. cbn. rewrite elem_of_app, list_elem_of_singleton. naive_solver.
  - rewrite lookup_insert_ne by done. naive_solver.
Qed.

Lemma insert_edge_at u e ek s i u' k x :
  x ∈ at_idx (insert_edge u e ek s) i u' k ↔ x ∈ at_idx s i u' k ∨ (u = u' ∧ ikey i e = k ∧ x = ek).
Proof. destruct i; unfold at_idx, insert_edge; cbn [idx ikey]; cbn -[push_at]; rewrite push_at_elem; naive_solver. Qed.

Lemma edge_inv_insert s u e ek :
  edge_inv s → edges s !! (u, item_hash ek) = None →
  (∀ h x, edges s !! (u, h) = Some x → ¬ same_edge x e) →
  edge_inv (insert_edge u e ek s).
Proof.
  intros [I1 I2 I3 I4] Hnone Hnew.
  assert (∀ i u' k x, x ∈ at_idx s i u' k → u = u' → item_hash x ≠ item_hash ek) as Hfresh.
  { intros i u' k x Hx <- E. destruct (I2 _ _ _ _ Hx) as (y & Hy & _). rewrite E in Hy. congruence. }
  split; change (edges (insert_edge u e ek s)) with (<[(u, item_hash ek) := e]> (edges s)).
  - intros u' h x. rewrite lookup_insert_Some. intros [[[= <- <-] <-]|[Hne Hx]].
    + exists ek. split; [done|]. intros i. apply insert_edge_at. auto.
    + destruct (I1 _ _ _ Hx) as (ek' & Hek' & Hi). exists ek'. split; [done|]. intros i.
      apply insert_edge_at. auto.
  - intros i u' k x [Hx|(<- & <- & ->)]%insert_edge_at.
    + destruct (I2 _ _ _ _ Hx) as (y & Hy & Hk). exists y. rewrite lookup_insert_ne; [done|].
      intros [= -> E]. by eapply Hfresh.
    + exists e. by rewrite lookup_insert_eq.
  - intros i j u' k l x y [Hx|(<- & <- & ->)]%insert_edge_at [Hy|(? & <- & ->)]%insert_edge_at E; subst; try done.
    + by eapply I3.
    + exfalso. by eapply Hfresh.
    + exfalso. eapply Hfresh; [exact Hy|done|]. by symmetry.
  - intros u' h1 h2 x1 x2. rewrite !lookup_insert_Some.
    intros [[[= <- <-] <-]|[Hn1 H1]] [[[= <-] <-]|[Hn2 H2]] Hs; [done| | |by eapply I4].
    + exfalso. eapply Hnew; [exact H2|]. by apply same_edge_sym.
    + subst. exfalso. by eapply Hnew.
Qed.

(** ** Removing an edge *)
Definition remove_edge (u : bytes) (e : Edge) (ek : rstr) (s : store) : store :=
  unindex_edge u e ek (set_edges (delete (u, item_hash ek)) s).

Lemma retain_ne_elem (m : gmap (bytes * Z) (list rstr)) key key' x y :
  y ∈ indexed_at (retain_ne key x m) key' ↔ y ∈ indexed_at m key' ∧ (key = key' → y ≠ x).
Proof.
  unfold indexed_at, retain_ne. destruct (decide (key = key')) as [->|Hne].
  - rewrite lookup_alter_eq. destruct (m !! key'); cbn; [|set_solver]. rewrite list_elem_of_filter. naive_solver.
  - rewrite lookup_alter_ne by done. naive_solver.
Qed.

Lemma remove_edge_at u e ek s i u' k x :
  x ∈ at_idx (remove_edge u e ek s) i u' k ↔ x ∈ at_idx s i u' k ∧ (u = u' → ikey i e = k → x ≠ ek).
Proof. destruct i; unfold at_idx, remove_edge; cbn [idx ikey]; cbn -[retain_ne]; rewrite retain_ne_elem; naive_solver. Qed.

Lemma edge_inv_remove s u e ek k0 :
  edge_inv s → ek ∈ at_idx s Fwd u k0 → edges s !! (u, item_hash ek) = Some e →
  edge_inv (remove_edge u e ek s).
Proof.
  intros [I1 I2 I3 I4] Hin He.
  split; change (edges (remove_edge u e ek s)) with (delete (u, item_hash ek) (edges s)).
  - intros u' h x [Hne Hx]%lookup_delete_Some. destruct (I1 _ _ _ Hx) as (n & Hn & Hi).
    exists n. split; [done|]. intros i. apply remove_edge_at. split; [apply Hi|]. intros <- _ ->. congruence.
  - intros i u' k x [Hx Hne]%remove_edge_at. destruct (I2 _ _ _ _ Hx) as (y & Hy & Hk). exists y.
    split; [|done]. apply lookup_delete_Some. split; [|done]. intros [= <- E].
    apply Hne; [done| |by eapply I3]. rewrite <- E in Hy. congruence.
  - intros i j u' k l x y [Hx _]%remove_edge_at [Hy _]%remove_edge_at. by eapply I3.
  - intros u' h1 h2 x1 x2 [_ H1]%lookup_delete_Some [_ H2]%lookup_delete_Some. by eapply I4.
Qed.
End invariant.

Lemma edge_inv_frame `{HashCrates} s s' :
  edges s' = edges s → (∀ i, idx s' i = idx s i) → edge_inv s → edge_inv s'.
Proof.
  intros He Hi [I1 I2 I3 I4]. assert (∀ i u k, at_idx s' i u k = at_idx s i u k) as Ha.
  { intros i u k. unfold at_idx. by rewrite Hi. }
  split.
  - intros u h e. rewrite He. intros Hx. destruct (I1 _ _ _ Hx) as (ek & Hk & Hall).
    exists ek. split; [done|]. intros i. by rewrite Ha.
  - intros i u k ek. rewrite Ha, He. apply I2.
  - intros i j u k l ek ek'. rewrite !Ha. apply I3.
  - intros u h h' e e'. rewrite He. apply I4.
Qed.

Lemma edge_inv_inbound `{HashCrates} f s : edge_inv s → edge_inv (set_assertion_inbound f s).
Proof. apply edge_inv_frame; [done|by intros []]. Qed.

Lemma insert_edge_edges `{HashCrates} u e ek s :
  edges (insert_edge u e ek s) = <[(u, item_hash ek) := e]> (edges s).
Proof. done. Qed.

Section running.
Context `{HashCratesLaws} `{Dcbor} `{!IntoCbor Edge} `{MemoryStoreConfig}.

(** The key of a new edge is free, or taken by an edge of the same identity: its
    64-bit hash does not collide with another edge's. *)
Definition slot_ok (s : store) (ns : NamespaceRef) (e : Edge) : Prop :=
  ∀ x, edges s !! (ns_uuid ns, item_hash (edge_kappa e)) = Some x → same_edge x e.

(** The store after the namespace check and the ingest of the edge's bytes. *)
Lemma edge_put_run ns e s s' :
  edge_put ns e s = (s', Ok ()) →
  ∃ s0, edges s0 = edges s ∧ (∀ i, idx s0 i = idx s i) ∧
    match find_same (ns_uuid ns) e (edges s0) (at_idx s0 Fwd (ns_uuid ns) (item_hash (e_source e))) with
    | Some (h, ex) =>
        s' = if decide (e_value_kappa ex = e_value_kappa e ∧ e_metadata ex = e_metadata e) then s0
             else set_edges (<[(ns_uuid ns, h) := e]>) s0
    | None => ∃ f, s' = set_assertion_inbound f (insert_edge (ns_uuid ns) e (edge_kappa e) s0)
    end.
Proof.
  unfold edge_put. intros Hrun. destruct (ensure_namespace_run ns s) as (f & g & E).
  apply M_bind_ok in Hrun as (s1 & [] & E1 & Hrun). rewrite E in E1. injection E1 as <-. cbv zeta in Hrun.
  apply M_bind_ok in Hrun as (s2 & ir & E2 & Hrun). apply ingest_compute_frame in E2 as [ff ->].
  exists (set_fs ff (set_ns_aliases f (set_ns_records g s))).
  split; [done|split; [by intros []|]].
  apply M_bind_ok in Hrun as (s3 & ex & E3 & Hrun). unfold gets in E3. apply pair_eq in E3 as [<- E3].
  injection E3 as E3. subst ex. unfold at_idx, idx.
  destruct (find_same _ _ _ _) as [[h ex]|].
  - destruct (decide _); injection Hrun as <-; reflexivity.
  - run_in Hrun. destruct (decide _); injection Hrun as <-; [by eexists|].
    exists id. by destruct s.
Qed.

Lemma edge_delete_run ns src tgt rel s s' :
  edge_delete ns src tgt rel s = (s', Ok ()) →
  match find_edge (ns_uuid ns) src tgt rel (edges s) (at_idx s Fwd (ns_uuid ns) (item_hash src)) with
  | None => s' = s
  | Some ek => ∃ e path, edges s !! (ns_uuid ns, item_hash ek) = Some e ∧ blob_path ek = Ok path ∧
      s' = set_fs (delete path) (remove_edge (ns_uuid ns) e ek s)
  end.
Proof.
  unfold edge_delete, at_idx, idx. run. destruct (find_edge _ _ _ _ _ _) as [ek|] eqn:Hf; [|by intros [= <-]].
  apply find_edge_Some in Hf as (_ & e & He & _). rewrite He. cbn [blob_delete mem_blobs]. unfold mem_blob_delete. run.
  destruct (blob_path ek) as [p| |] eqn:Hp; [|done..]. intros [= <-]. by exists e, p.
Qed.
End running.

(** * Properties *)

Lemma edge_put_spec `{HashCratesLaws} `{Dcbor} `{!IntoCbor Edge} `{MemoryStoreConfig} ns e s s' :
  edge_inv s → slot_ok s ns e → edge_put ns e s = (s', Ok ()) →
  edge_inv s' ∧ (∃ h, edges s' !! (ns_uuid ns, h) = Some e) ∧
  (∀ u h x, edges s' !! (u, h) = Some x → x = e ∨ edges s !! (u, h) = Some x) ∧
  (∀ u h x, edges s !! (u, h) = Some x → (u = ns_uuid ns ∧ same_edge x e) ∨ edges s' !! (u, h) = Some x).
Proof.
  intros Hinv Hslot Hrun. apply edge_put_run in Hrun as (s0 & He & Hi & Hrun).
  assert (edge_inv s0) as Hinv0 by (by eapply edge_inv_frame).
  unfold slot_ok in Hslot. rewrite <- He in *. clear He Hi Hinv.
  destruct (find_same _ _ _ _) as [[h ex]|] eqn:Hf.
  - apply find_same_Some in Hf as (ek & _ & -> & Hex & Hsame). case_decide as Heq; subst s'.
    + assert (ex = e) as ->. { destruct ex, e, Hsame as (?&?&?&?), Heq; simpl in *; congruence. }
      split_and!; eauto.
    + split_and!; [by eapply edge_inv_replace| | |]; cbn [edges set_edges].
      * exists (item_hash ek). by rewrite lookup_insert_eq.
      * intros u h x. rewrite lookup_insert_Some. naive_solver.
      * intros u h x Hx. destruct (decide ((ns_uuid ns, item_hash ek) = (u, h))) as [[= <- <-]|Hne].
        -- left. split; [done|]. congruence.
        -- right. by rewrite lookup_insert_ne.
  - destruct Hrun as [f ->].
    assert (∀ h x, edges s0 !! (ns_uuid ns, h) = Some x → ¬ same_edge x e) as Hnew.
    { intros h x Hx Hs. destruct (ei_complete _ Hinv0 _ _ _ Hx) as (ek & <- & Hi).
      specialize (Hi Fwd). rewrite (same_edge_ikey _ _ Fwd Hs) in Hi.
      exact (find_same_None _ _ _ _ _ _ Hf Hi Hx Hs). }
    assert (edges s0 !! (ns_uuid ns, item_hash (edge_kappa e)) = None) as Hnone.
    { apply eq_None_not_Some. intros [x Hx]. exact (Hnew _ _ Hx (Hslot _ Hx)). }
    assert (edge_inv (insert_edge (ns_uuid ns) e (edge_kappa e) s0)) as Hins by by apply edge_inv_insert.
    apply (edge_inv_inbound f) in Hins. cbn [edges set_assertion_inbound]. rewrite insert_edge_edges.
    revert Hnew Hnone Hins. generalize (edge_kappa e). intros ek Hnew Hnone Hins.
    split_and!; [exact Hins|..].
    + exists (item_hash ek). by rewrite lookup_insert_eq.
    + intros u h x. rewrite lookup_insert_Some. naive_solver.
    + intros u h x Hx. right. rewrite lookup_insert_ne; [done|]. congruence.
Qed.

(** Under the index invariant an edge query is sound and complete: it returns
    exactly the namespace's edges whose source (outbound) or target (inbound)
    has the anchor's hash and which pass the relation and asserter filters. *)
Theorem edge_query_correct `{HashCrates} ns q s (Hinv : edge_inv s) :
  ∃ es, edge_query ns q s = Ok es ∧
    ∀ e, e ∈ es ↔
      (∃ h, edges s !! (ns_uuid ns, h) = Some e) ∧
      match q_direction q with
      | Outbound => item_hash (e_source e) = item_hash (q_anchor q)
      | Inbound => item_hash (e_target e) = item_hash (q_anchor q)
      end ∧
      (∀ r, q_relation q = Some r → e_relation e = r) ∧ (∀ a, q_asserter q = Some a → e_asserter e = a).
Proof.
  eexists. split; [done|]. intros e. rewrite list_elem_of_filter, list_elem_of_omap.
  assert (query_matches q e = true ↔
    (∀ r, q_relation q = Some r → e_relation e = r) ∧ (∀ a, q_asserter q = Some a → e_asserter e = a)) as ->.
  { unfold query_matches. rewrite andb_true_iff.
    destruct (q_relation q), (q_asserter q); rewrite ?bool_decide_eq_true; naive_solver. }
  set (i := match q_direction q with Outbound => Fwd | Inbound => Rev end).
  assert (match q_direction q with
          | Outbound => indexed_at (fwd_index s) (ns_uuid ns, item_hash (q_anchor q))
          | Inbound => indexed_at (rev_index s) (ns_uuid ns, item_hash (q_anchor q))
          end = at_idx s i (ns_uuid ns) (item_hash (q_anchor q))) as ->
    by (unfold i; by destruct (q_direction q)).
  assert (match q_direction q with
          | Outbound => item_hash (e_source e) = item_hash (q_anchor q)
          | Inbound => item_hash (e_target e) = item_hash (q_anchor q)
          end ↔ ikey i e = item_hash (q_anchor q)) as -> by (unfold i; by destruct (q_direction q)).
  assert ((∃ ek, ek ∈ at_idx s i (ns_uuid ns) (item_hash (q_anchor q)) ∧
             edges s !! (ns_uuid ns, item_hash ek) = Some e) ↔
          (∃ h, edges s !! (ns_uuid ns, h) = Some e) ∧ ikey i e = item_hash (q_anchor q)) as ->; [|tauto].
  split.
  - intros (ek & Hek & He). split; [eauto|]. destruct (ei_sound _ Hinv _ _ _ _ Hek) as (e' & He' & Hk). congruence.
  - intros [[h Hh] Hk]. destruct (ei_complete _ Hinv _ _ _ Hh) as (ek & <- & Hall). exists ek.
    rewrite <- Hk. auto.
Qed.

(** C6: storing an edge keeps the indexes and the edges in step, replaces at most
    the one stored edge of the same identity and changes no other edge, and from
    then on every query at either end of the edge that its filters let through
    returns it. *)
Theorem edge_put_correct `{HashCratesLaws} `{Dcbor} `{!IntoCbor Edge} `{MemoryStoreConfig} ns e s s'
  (Hinv : edge_inv s) (Hslot : slot_ok s ns e) (Hrun : edge_put ns e s = (s', Ok ())) :
  edge_inv s' ∧
  (∀ u h x, edges s' !! (u, h) = Some x → x = e ∨ edges s !! (u, h) = Some x) ∧
  (∀ u h x, edges s !! (u, h) = Some x → (u = ns_uuid ns ∧ same_edge x e) ∨ edges s' !! (u, h) = Some x) ∧
  (∀ q, q_anchor q = match q_direction q with Outbound => e_source e | Inbound => e_target e end →
     query_matches q e = true → ∃ es, edge_query ns q s' = Ok es ∧ e ∈ es).
Proof.
  destruct (edge_put_spec ns e s s' Hinv Hslot Hrun) as (Hinv' & Hin & Hnew & Hold).
  split_and!; [done|done|done|]. intros q Hq Hm. destruct (edge_query_correct ns q s' Hinv') as (es & E & Hes).
  exists es. split; [done|]. apply Hes. split; [done|]. split; [by destruct (q_direction q); rewrite Hq|].
  unfold query_matches in Hm. apply andb_prop in Hm as [H1' H2'].
  split; intros x Hx; rewrite Hx in *; by eapply bool_decide_eq_true.
Qed.

(** Deleting an edge keeps the index invariant; it removes one edge with the
    given source, target and relation, from the edges and from all indexes, and
    does nothing when there is none. *)
Theorem edge_delete_correct `{HashCratesLaws} `{MemoryStoreConfig} ns src tgt rel s s'
  (Hinv : edge_inv s) (Hrun : edge_delete ns src tgt rel s = (s', Ok ())) :
  edge_inv s' ∧
  ((s' = s ∧ ∀ h e, edges s !! (ns_uuid ns, h) = Some e →
      ¬ (e_source e = src ∧ e_target e = tgt ∧ e_relation e = rel)) ∨
   ∃ h e, edges s !! (ns_uuid ns, h) = Some e ∧ e_source e = src ∧ e_target e = tgt ∧ e_relation e = rel ∧
     edges s' = delete (ns_uuid ns, h) (edges s)).
Proof.
  apply edge_delete_run in Hrun. destruct (find_edge _ _ _ _ _ _) as [ek|] eqn:Hf.
  - destruct Hrun as (e & p & He & _ & ->).
    apply find_edge_Some in Hf as (Hin & e' & He' & H1' & H2' & H3'). rewrite He in He'. injection He' as <-.
    split; [|right; by exists (item_hash ek), e].
    eapply edge_inv_frame; [..|by eapply (edge_inv_remove s _ e ek)]; [done|by intros []].
  - subst s'. split; [done|]. left. split; [done|]. intros h e He Hm.
    destruct (ei_complete _ Hinv _ _ _ He) as (ek & <- & Hall). specialize (Hall Fwd). cbn [ikey] in Hall.
    destruct Hm as (E & Hm). rewrite E in Hall. exact (find_edge_None _ _ _ _ _ _ _ _ Hf Hall He (conj E Hm)).
Qed.

(** The blob of a deleted edge is removed even when another namespace has
    the same edge: that namespace still lists the edge, whose bytes are gone. *)
Theorem edge_delete_shared_blob `{HashCratesLaws} `{Dcbor} `{!IntoCbor Edge} `{MemoryStoreConfig}
  ns ns' e s s'
  (Hne : ns_uuid ns ≠ ns_uuid ns')
  (Hf : find_edge (ns_uuid ns) (e_source e) (e_target e) (e_relation e) (edges s)
          (at_idx s Fwd (ns_uuid ns) (item_hash (e_source e))) = Some (edge_kappa e))
  (Hother : edges s !! (ns_uuid ns', item_hash (edge_kappa e)) = Some e)
  (Hrun : edge_delete ns (e_source e) (e_target e) (e_relation e) s = (s', Ok ())) :
  edges s' !! (ns_uuid ns', item_hash (edge_kappa e)) = Some e ∧
  blob_get (edge_kappa e) s' = Err (SNotFound (edge_kappa e)).
Proof.
  apply edge_delete_run in Hrun. rewrite Hf in Hrun. destruct Hrun as (e' & p & He' & Hp & ->). split.
  - change (delete (ns_uuid ns, item_hash (edge_kappa e)) (edges s) !! (ns_uuid ns', item_hash (edge_kappa e)) = Some e).
    rewrite lookup_delete_ne; [done|congruence].
  - cbn [blob_get mem_blobs]. unfold mem_blob_get. rewrite Hp. osimpl. cbn [fs set_fs]. by rewrite lookup_delete_eq.
Qed.

(** * Witnesses *)

#[export] Instance sample_edge_cbor : IntoCbor Edge := λ e, SText (e_source e ++ [x00] ++ e_target e).

Definition sample_edge : Edge :=
  mkEdge (rs "a") (rs "b") Owns (rs "c") None None.

Lemma empty_edge_inv `{HashCrates} : edge_inv empty_store.
Proof.
  assert (∀ i u k, at_idx empty_store i u k = []) as Ha by (by intros []).
  split; intros *; rewrite ?Ha; cbn [edges empty_store]; rewrite ?lookup_empty; set_solver.
Qed.

Definition sample_ns : NamespaceRef := with_name (replicate 16 x00) (rs "n").
Definition sample_ns2 : NamespaceRef := with_name (replicate 16 x01) (rs "m").

Definition sample_edge_store : store :=
  insert_edge (ns_uuid sample_ns) sample_edge (edge_kappa sample_edge)
    (insert_edge (ns_uuid sample_ns2) sample_edge (edge_kappa sample_edge) empty_store).

Lemma sample_edge_inv : edge_inv sample_edge_store.
Proof.
  apply edge_inv_insert; [apply edge_inv_insert; [apply empty_edge_inv|done|done]| |];
    rewrite ?insert_edge_edges.
  - rewrite lookup_insert_ne; done.
  - intros h x [[[=] _]|[_ ?]]%lookup_insert_Some. done.
Qed.

Lemma edge_put_correct_witness : ∃ s',
  edge_put sample_ns sample_edge empty_store = (s', Ok ()) ∧ edge_inv s' ∧
  ∃ es, edge_query sample_ns (mkQuery (rs "b") Inbound None None) s' = Ok es ∧ sample_edge ∈ es.
Proof.
  assert ((edge_put sample_ns sample_edge empty_store).2 = Ok ()) as Hr by (vm_compute; reflexivity).
  destruct (edge_put sample_ns sample_edge empty_store) as [s' r] eqn:E. cbn [snd] in Hr. subst r.
  destruct (edge_put_correct sample_ns sample_edge empty_store s') as (H1 & _ & _ & H2).
  - apply empty_edge_inv.
  - intros x Hx. discriminate Hx.
  - exact E.
  - exists s'. split; [reflexivity|]. split; [exact H1|]. apply H2; reflexivity.
Defined.

Lemma edge_query_correct_witness :
  ∃ es, edge_query sample_ns (mkQuery (rs "a") Outbound (Some Owns) None) sample_edge_store = Ok es ∧
    sample_edge ∈ es.
Proof.
  destruct (edge_query_correct sample_ns (mkQuery (rs "a") Outbound (Some Owns) None)
    sample_edge_store sample_edge_inv) as (es & E & Hes).
  exists es. split; [exact E|]. apply Hes. split; [|split; [reflexivity|]].
  - exists (item_hash (edge_kappa sample_edge)). unfold sample_edge_store. rewrite insert_edge_edges.
    apply lookup_insert_eq.
  - split; [intros r [= <-]; reflexivity|discriminate].
Defined.

Lemma edge_delete_correct_witness : ∃ s',
  edge_delete sample_ns (rs "a") (rs "b") Owns sample_edge_store = (s', Ok ()) ∧ edge_inv s'.
Proof.
  assert ((edge_delete sample_ns (rs "a") (rs "b") Owns sample_edge_store).2 = Ok ()) as Hr
    by (vm_compute; reflexivity).
  destruct (edge_delete sample_ns (rs "a") (rs "b") Owns sample_edge_store) as [s' r] eqn:E.
  cbn [snd] in Hr. subst r. exists s'. split; [reflexivity|].
  exact (proj1 (edge_delete_correct sample_ns (rs "a") (rs "b") Owns sample_edge_store s' sample_edge_inv E)).
Defined.

Lemma edge_delete_shared_blob_witness : ∃ s',
  edge_delete sample_ns (rs "a") (rs "b") Owns sample_edge_store = (s', Ok ()) ∧
  edges s' !! (ns_uuid sample_ns2, item_hash (edge_kappa sample_edge)) = Some sample_edge ∧
  blob_get (edge_kappa sample_edge) s' = Err (SNotFound (edge_kappa sample_edge)).
Proof.
  assert ((edge_delete sample_ns (rs "a") (rs "b") Owns sample_edge_store).2 = Ok ()) as Hr
    by (vm_compute; reflexivity).
  destruct (edge_delete sample_ns (rs "a") (rs "b") Owns sample_edge_store) as [s' r] eqn:E.
  cbn [snd] in Hr. subst r. exists s'. split; [reflexivity|].
  apply (edge_delete_shared_blob sample_ns sample_ns2 sample_edge sample_edge_store s').
  - discriminate.
  - vm_compute. reflexivity.
  - unfold sample_edge_store. rewrite !insert_edge_edges. rewrite lookup_insert_ne by discriminate.
    apply lookup_insert_eq.
  - exact E.
Defined.
