(* ===== verification/MemIdentity.v ===== *)
(** MemIdentity: the identity tables of [InMemoryStore]: the inbound assertion
    index, identity bindings and identity successions,
    [kappa-core/src/store/memory/mod.rs] lines 1052 to 1257. *)

From S2P Require Import Prelude Label Compute Types Merkle Epoch Identity Store MemStore MemTags.

(** [let _ = op;]: the operation runs, its error is dropped. *)
Definition ignore {St A} (m : M St A) : M St () := λ s,
  match m s with
  | (s', Panic) => (s', Panic)
  | (s', _) => (s', Ok ())
  end.

(** * The inbound assertion index *)

Definition inbound_key (subject facet : rstr) : rstr := subject ++ [x00] ++ facet.

Definition assertion_index_put (subject facet assertion_kappa : rstr) : M store () :=
  modify (set_assertion_inbound (push_at (inbound_key subject facet) assertion_kappa)).

Definition assertion_index_query_subject (subject : rstr) (s : store) : outcome StoreError (list rstr) :=
  let prefix := subject ++ [x00] in
  let hits := filter (λ e, starts_with prefix e.1 = true) (map_to_list (assertion_inbound s)) in
  Ok (sort_dedup (concat (snd <$> hits))).

(** * Bindings *)

(** Latest verification first. *)
Definition later_verified (a b : IdentityBinding) : bool := ib_verified_at_ms b <=? ib_verified_at_ms a.

Fixpoint upsert_binding (binding : IdentityBinding) (l : list IdentityBinding) : list IdentityBinding :=
  match l with
  | [] => [binding]
  | existing :: rest =>
      if decide (ib_target existing = ib_target binding) then
        (if decide (ib_method existing ≠ ib_method binding
                    ∨ ib_trust_level existing ≠ ib_trust_level binding
                    ∨ ib_verified_at_ms existing ≠ ib_verified_at_ms binding)
         then binding else existing) :: rest
      else existing :: upsert_binding binding rest
  end.

Section identity_store.
Context `{HashCrates} `{KeyedHash} `{Dcbor} `{MemoryStoreConfig}.
Context `{!IntoCbor IdentityBinding} `{!IntoCbor IdentitySuccession} `{!IntoCbor Watermark}.

Definition identity_binding_put (ns : NamespaceRef) (binding : IdentityBinding) : M store rstr :=
  let kappa := kappa_from_value binding in
  _ ← modify (set_identity_bindings (λ m,
        <[ib_source binding :=
            sort_by later_verified (upsert_binding binding (default [] (m !! ib_source binding)))]> m));
  mret kappa.

Definition identity_binding_get (subject : rstr) (s : store) : outcome StoreError (list IdentityBinding) :=
  Ok (default [] (identity_bindings s !! subject)).

Definition identity_binding_delete (ns : NamespaceRef) (subject target : rstr) : M store () :=
  modify (set_identity_bindings (λ m,
    match m !! subject with
    | None => m
    | Some bs =>
        match filter (λ b, ib_target b ≠ target) bs with
        | [] => delete subject m
        | bs' => <[subject := bs']> m
        end
    end)).

Definition identity_binding_list_by_asserter (asserter : rstr) (s : store)
  : outcome StoreError (list IdentityBinding) :=
  Ok (concat ((λ e, filter (λ b, ib_target b = asserter) (snd e)) <$> map_to_list (identity_bindings s))).

(** * Successions *)

(** The watermark a succession sets on its old anchor. *)
Definition succession_watermark (now_ms : Z) (succession : IdentitySuccession) : Watermark :=
  let watermark_ts := if decide (is_reason succession = rs "key-compromise") then 0
                      else is_effective_at_ms succession in
  mkWatermark (is_old_anchor succession) watermark_ts (is_reason succession ++ rs " succession") now_ms.

Definition identity_succession_put (now_ms : Z) (succession : IdentitySuccession) : M store rstr :=
  if decide (is_old_anchor succession = is_new_anchor succession)
  then throw (SRejected (rs "cannot succeed to self"))
  else
    let kappa := kappa_from_value succession in
    _ ← modify (set_identity_successions (<[is_old_anchor succession := is_new_anchor succession]>));
    let wm_bytes := canonical_bytes into_cbor (succession_watermark now_ms succession) in
    let wm_kappa := kappa_from_bytes wm_bytes in
    _ ← ignore (ingest_verified wm_kappa wm_bytes);
    let anchor_ns := deterministic (is_old_anchor succession) in
    _ ← ensure_namespace anchor_ns;
    let wm_tag := rs "watermark/" ++ wm_kappa in
    _ ← ignore (tag_set anchor_ns wm_tag wm_kappa);
    mret kappa.
End identity_store.

Definition cycle_error (at_ : rstr) : StoreError := SRejected (rs "succession cycle detected at " ++ at_).
Definition too_long_error : StoreError := SRejected (rs "succession chain exceeds 10 hops").

(** The loop of [identity_succession_resolve]; [Panic] when the fuel runs out,
    which 10 turns of it rule out. *)
Fixpoint resolve_loop (fuel : nat) (succ : gmap rstr rstr) (current : rstr) (visited : list rstr)
  : outcome StoreError rstr :=
  match fuel with
  | O => Panic
  | S fuel =>
      match succ !! current with
      | Some next =>
          if decide (next ∈ visited) then Err (cycle_error next)
          else if decide (10 ≤ length visited)%nat then Err too_long_error
          else resolve_loop fuel succ next (next :: visited)
      | None => Ok current
      end
  end.

Definition identity_succession_resolve (anchor : rstr) (s : store) : outcome StoreError rstr :=
  resolve_loop 10 (identity_successions s) anchor [anchor].

Fixpoint chain_loop (fuel : nat) (succ : gmap rstr rstr) (chain : list rstr) (current : rstr)
  (visited : list rstr) : outcome StoreError (list rstr) :=
  match fuel with
  | O => Panic
  | S fuel =>
      match succ !! current with
      | Some next =>
          if decide (next ∈ visited) then Err (cycle_error next)
          else if decide (10 ≤ length visited)%nat then Err too_long_error
          else chain_loop fuel succ (chain ++ [next]) next (next :: visited)
      | None => Ok chain
      end
  end.

Definition identity_succession_chain (anchor : rstr) (s : store) : outcome StoreError (list rstr) :=
  chain_loop 10 (identity_successions s) [anchor] anchor [anchor].

(** * Succession paths *)

(** [hops m n a c]: following successors [n] times from [a] leads to [c]. *)
Inductive hops (m : gmap rstr rstr) : nat → rstr → rstr → Prop :=
| hops_zero a : hops m 0 a a
| hops_step n a b c : m !! a = Some b → hops m n b c → hops m (S n) a c.

Section paths.
Context (m : gmap rstr rstr).

Lemma hops_trans n k a b c : hops m n a b → hops m k b c → hops m (n + k) a c.
Proof. induction 1; cbn; [done|]. intros. econstructor; eauto. Qed.

(** The end of a maximal path and its length are determined. *)
Lemma hops_unique n n' a c c' :
  hops m n a c → m !! c = None → hops m n' a c' → m !! c' = None → n = n' ∧ c = c'.
Proof.
  intros Hn. revert n'. induction Hn as [a|n a b c Hb Hn IH]; intros n' Hc Hn' Hc'.
  - destruct Hn'; [done|congruence].
  - destruct Hn' as [|n' a b' c' Hb' Hn']; [congruence|]. rewrite Hb in Hb'. injection Hb' as <-.
    destruct (IH _ Hc Hn' Hc'). naive_solver.
Qed.

Lemma resolve_loop_sound fuel current visited c :
  (1 ≤ length visited ≤ 10)%nat → resolve_loop fuel m current visited = Ok c →
  ∃ n, (n + length visited ≤ 10)%nat ∧ hops m n current c ∧ m !! c = None.
Proof.
  revert current visited. induction fuel as [|fuel IH]; intros current visited Hlen; cbn [resolve_loop]; [done|].
  destruct (m !! current) as [next|] eqn:E.
  - case_decide; [done|]. case_decide; [done|]. intros Hr.
    apply IH in Hr as (n & Hle & Hn & Hc); [|cbn; lia]. cbn in Hle.
    exists (S n). split; [lia|]. split; [by econstructor|done].
  - intros [= <-]. exists 0%nat. split; [lia|]. split; [constructor|done].
Qed.

Lemma resolve_loop_complete n fuel current visited c :
  hops m n current c → m !! c = None → (n < fuel)%nat → (n + length visited ≤ 10)%nat →
  (∀ v, v ∈ visited → ∃ k, hops m k v current) →
  resolve_loop fuel m current visited = Ok c.
Proof.
  intros Hn Hc. revert fuel visited.
  induction Hn as [a|n a b c Hb Hn IH]; intros fuel visited Hf Hlen Hv; (destruct fuel as [|fuel]; [lia|]);
    cbn [resolve_loop]; [by rewrite Hc|]. rewrite Hb.
  rewrite decide_False; [rewrite decide_False by lia; apply IH; [done|lia|cbn; lia|]|].
  - intros v [->|Hin]%elem_of_cons; [exists 0%nat; constructor|].
    destruct (Hv v Hin) as [k Hk]. exists (k + 1)%nat. eapply hops_trans; [exact Hk|].
    econstructor; [exact Hb|constructor].
  - intros Hin. destruct (Hv b Hin) as [k Hk].
    destruct (hops_unique (k + S n) n b c c) as [E _]; [|done..|lia].
    eapply hops_trans; [exact Hk|]. by econstructor.
Qed.

Lemma resolve_loop_fuel fuel current visited :
  (length visited + fuel = 11)%nat → resolve_loop fuel m current visited = Panic → fuel = 0%nat.
Proof.
  revert current visited. induction fuel as [|fuel IH]; intros current visited Hlen; cbn [resolve_loop]; [done|].
  destruct (m !! current); [|done]. case_decide; [done|]. case_decide as Hlt; [done|].
  intros Hp. apply IH in Hp; [|cbn; lia]. lia.
Qed.

(** [l] is the list of anchors along a path. *)
Definition linked (l : list rstr) : Prop :=
  ∀ i x y, l !! i = Some x → l !! S i = Some y → m !! x = Some y.

Lemma linked_snoc l x y : linked (l ++ [x]) → m !! x = Some y → linked ((l ++ [x]) ++ [y]).
Proof.
  intros Hl Hxy i a b Ha Hb. apply lookup_app_Some in Hb as [Hb|[Hge Hb]].
  - apply (Hl i); [|done]. apply lookup_lt_Some in Hb. by rewrite lookup_app_l in Ha by lia.
  - rewrite length_app in *. cbn in *. apply list_lookup_singleton_Some in Hb as [Hi <-].
    assert (i = length l) as -> by lia. rewrite lookup_app_l in Ha by (rewrite length_app; cbn; lia).
    rewrite lookup_app_r, Nat.sub_diag in Ha by lia. injection Ha as <-. done.
Qed.

Lemma chain_loop_resolve fuel pre current visited :
  linked (pre ++ [current]) →
  match resolve_loop fuel m current visited with
  | Ok c => ∃ l, chain_loop fuel m (pre ++ [current]) current visited = Ok l ∧
              (pre ++ [current]) `prefix_of` l ∧ last l = Some c ∧ linked l
  | Err e => chain_loop fuel m (pre ++ [current]) current visited = Err e
  | Panic => chain_loop fuel m (pre ++ [current]) current visited = Panic
  end.
Proof.
  revert pre current visited. induction fuel as [|fuel IH]; intros pre current visited Hl; cbn [resolve_loop chain_loop]; [done|].
  destruct (m !! current) as [next|] eqn:E.
  - case_decide; [done|]. case_decide; [done|].
    specialize (IH (pre ++ [current]) next (next :: visited) (linked_snoc _ _ _ Hl E)).
    destruct (resolve_loop fuel m next (next :: visited)) as [c|e|]; [|done..].
    destruct IH as (l & -> & Hp & Hrest). exists l. split; [done|]. split; [|done].
    etrans; [|exact Hp]. by apply prefix_app_r.
  - exists (pre ++ [current]). split_and!; [done..| |done]. by rewrite last_snoc.
Qed.
End paths.

(** * Binding lists *)

(** Each subject's bindings carry the subject as source and one entry per
    target, the latest verification first. *)
Definition bindings_wf (s : store) : Prop :=
  ∀ subject bs, identity_bindings s !! subject = Some bs →
    NoDup (ib_target <$> bs) ∧ (∀ b, b ∈ bs → ib_source b = subject) ∧
    StronglySorted (λ a b, later_verified a b = true) bs.

Lemma upsert_binding_perm b l :
  NoDup (ib_target <$> l) → (∀ x, x ∈ l → ib_source x = ib_source b) →
  upsert_binding b l ≡ₚ b :: filter (λ x, ib_target x ≠ ib_target b) l.
Proof.
  induction l as [|x l IH]; intros Hnd Hsrc; cbn [upsert_binding]; [done|].
  cbn in Hnd. apply NoDup_cons in Hnd as [Hx Hnd]. case_decide as E.
  - rewrite filter_cons_False by tauto.
    assert (filter (λ y, ib_target y ≠ ib_target b) l = l) as ->.
    { apply list_filter_all. intros y Hy Ey. apply Hx. rewrite E, <- Ey. by apply list_elem_of_fmap_2. }
    apply reflexive_eq. f_equal. case_decide as Hd; [done|].
    assert (ib_source x = ib_source b) by (apply Hsrc; set_solver).
    destruct x as [xs xt xm xl xv], b as [bs bt bm bl bv]; cbn in *.
    destruct (decide (xm = bm)), (decide (xl = bl)), (decide (xv = bv)); try tauto; congruence.
  - rewrite filter_cons_True, IH by (done || set_solver). apply Permutation_swap.
Qed.

Lemma later_verified_sorted l :
  StronglySorted (λ a b, later_verified a b = true) (sort_by later_verified l).
Proof. apply sort_by_sorted; unfold later_verified; [intros x y|intros x y z]; lia. Qed.

(** * Properties *)

(** Recording a binding keeps the bindings well formed: the subject's list
    becomes its bindings to other targets plus this one, latest verification
    first, so a re-verification replaces the earlier record of the same pair;
    other subjects keep their bindings. *)
Theorem identity_binding_put_correct `{HashCrates} `{Dcbor} `{!IntoCbor IdentityBinding} ns b s s' k old
  (Hwf : bindings_wf s) (Hold : identity_binding_get (ib_source b) s = Ok old)
  (Hrun : identity_binding_put ns b s = (s', Ok k)) :
  bindings_wf s' ∧ k = kappa_from_value b ∧
  (∃ bs, identity_binding_get (ib_source b) s' = Ok bs ∧
     bs ≡ₚ b :: filter (λ x, ib_target x ≠ ib_target b) old ∧
     ∀ latest, head bs = Some latest → ∀ x, x ∈ bs → ib_verified_at_ms x ≤ ib_verified_at_ms latest) ∧
  (∀ subject, subject ≠ ib_source b → identity_binding_get subject s' = identity_binding_get subject s).
Proof.
  injection Hrun as <- <-. injection Hold as <-.
  set (l := default [] (identity_bindings s !! ib_source b)).
  assert (NoDup (ib_target <$> l) ∧ ∀ x, x ∈ l → ib_source x = ib_source b) as [Hnd Hsrc].
  { unfold l. destruct (identity_bindings s !! ib_source b) as [bs|] eqn:E; cbn; [|split; [constructor|set_solver]].
    destruct (Hwf _ _ E) as (? & ? & _). done. }
  pose proof (upsert_binding_perm b l Hnd Hsrc) as Hp.
  unfold identity_binding_get. cbn [identity_bindings set_identity_bindings]. split_and!.
  - intros subject bs. cbn [identity_bindings set_identity_bindings]. rewrite lookup_insert_Some.
    intros [[<- <-]|[_ Hbs]]; [|by apply Hwf]. fold l. split_and!.
    + rewrite sort_by_perm, Hp. cbn. apply NoDup_cons. split.
      { rewrite list_elem_of_fmap. by intros (x & E & [Hx _]%list_elem_of_filter). }
      eapply sublist_NoDup; [exact Hnd|apply fmap_sublist, sublist_filter].
    + intros x. rewrite elem_of_sort_by, Hp, elem_of_cons, list_elem_of_filter. naive_solver.
    + apply later_verified_sorted.
  - done.
  - exists (sort_by later_verified (upsert_binding b l)). rewrite lookup_insert_eq. split; [done|].
    split; [by rewrite sort_by_perm|]. intros latest Hh x Hx.
    pose proof (later_verified_sorted (upsert_binding b l)) as Hs.
    destruct (sort_by later_verified (upsert_binding b l)) as [|y bs]; [done|]. injection Hh as ->.
    apply StronglySorted_inv in Hs as [_ Hs]. rewrite Forall_forall in Hs.
    apply elem_of_cons in Hx as [->|Hx]; [done|]. specialize (Hs _ Hx). unfold later_verified in Hs. lia.
  - intros subject Hne. by rewrite lookup_insert_ne.
Qed.

#[export] Instance sample_binding_cbor : IntoCbor IdentityBinding := λ b, SText (ib_source b).

Lemma identity_binding_put_correct_witness :
  let b1 := mkBinding (rs "a") (rs "x") (rs "dns") 1 10 in
  let b2 := mkBinding (rs "a") (rs "x") (rs "dns") 2 20 in
  let s := set_identity_bindings (<[rs "a" := [b1]]>) empty_store in
  ∃ s' k, identity_binding_put (deterministic (rs "n")) b2 s = (s', Ok k) ∧
    ∃ bs, identity_binding_get (rs "a") s' = Ok bs ∧ bs ≡ₚ [b2].
Proof.
  intros b1 b2 s. set (s' := (identity_binding_put (deterministic (rs "n")) b2 s).1).
  exists s', (kappa_from_value b2). split; [reflexivity|].
  destruct (identity_binding_put_correct (deterministic (rs "n")) b2 s s' (kappa_from_value b2) [b1]) as (_ & _ & (bs & E & Hp & _) & _).
  - intros subject bs Hbs. unfold s in Hbs. cbn [identity_bindings set_identity_bindings empty_store] in Hbs.
    apply lookup_insert_Some in Hbs as [[<- <-]|[_ Hbs]]; [|discriminate Hbs].
    split; [apply NoDup_singleton|]. split; [intros b Hb; apply list_elem_of_singleton in Hb as ->; reflexivity|].
    constructor; constructor.
  - reflexivity.
  - reflexivity.
  - exists bs. split; [exact E|exact Hp].
Defined.

(** Resolving an anchor through its successions always ends within the
    loop's ten turns, and gives the last anchor of the chain exactly when the
    chain has an end at most nine successions away; otherwise it is an error.
    The chain query gives the whole path in the same cases. *)
Theorem succession_resolve_correct anchor s :
  (∀ c, identity_succession_resolve anchor s = Ok c ↔
     ∃ n, (n ≤ 9)%nat ∧ hops (identity_successions s) n anchor c ∧ identity_successions s !! c = None) ∧
  match identity_succession_resolve anchor s with
  | Ok c => ∃ l, identity_succession_chain anchor s = Ok l ∧ head l = Some anchor ∧ last l = Some c ∧
              ∀ i x y, l !! i = Some x → l !! S i = Some y → identity_successions s !! x = Some y
  | Err e => identity_succession_chain anchor s = Err e
  | Panic => False
  end.
Proof.
  unfold identity_succession_resolve, identity_succession_chain.
  set (m := identity_successions s). split.
  - intros c. split.
    + intros Hr. apply resolve_loop_sound in Hr as (n & Hle & Hn & Hc); [|cbn; lia].
      cbn in Hle. exists n. split; [lia|done].
    + intros (n & Hle & Hn & Hc). eapply resolve_loop_complete; [exact Hn|exact Hc|lia|cbn; lia|].
      intros v ->%list_elem_of_singleton. exists 0%nat. constructor.
  - pose proof (chain_loop_resolve m 10 [] anchor [anchor]) as Hch.
    pose proof (resolve_loop_fuel m 10 anchor [anchor] eq_refl) as Hf.
    destruct (resolve_loop 10 m anchor [anchor]) as [c|e|]; [|apply Hch; intros [|i] x y Hx Hy; done|discriminate (Hf eq_refl)].
    destruct Hch as (l & Hl & [tl ->] & Hlast & Hlink); [intros [|i] x y Hx Hy; done|].
    exists (anchor :: tl). done.
Qed.

(** A succession for a compromised key records a watermark that voids
    nothing: adding it to the watermarks leaves the resolution of every set of
    assertions unchanged, whatever is asserted under the compromised anchor. *)
Theorem compromise_voids_nothing `{HashCrates} `{Dcbor} `{!IntoCbor IdentityAssertion}
  now_ms succession assertions revocations watermarks at_ms
  (Hr : is_reason succession = rs "key-compromise") (Ht : ∀ a, a ∈ assertions → 0 ≤ as_valid_from_ms a) :
  resolve_at assertions revocations (watermarks ++ [succession_watermark now_ms succession]) at_ms
  = resolve_at assertions revocations watermarks at_ms.
Proof.
  unfold resolve_at. generalize (mkResolution [] [] []).
  induction assertions as [|a l IH]; intros res; cbn [fold_left]; [done|].
  rewrite <- IH by set_solver. f_equal. unfold resolve_one.
  assert (List.find (λ w, bool_decide (wm_asserter w = as_asserter a) && invalidates w (as_valid_from_ms a))
            (watermarks ++ [succession_watermark now_ms succession])
          = List.find (λ w, bool_decide (wm_asserter w = as_asserter a) && invalidates w (as_valid_from_ms a))
              watermarks) as ->; [|done].
  clear IH. induction watermarks as [|w ws IHw]; cbn [app List.find]; [|by rewrite IHw].
  assert (invalidates (succession_watermark now_ms succession) (as_valid_from_ms a) = false) as ->.
  { unfold invalidates, succession_watermark. rewrite decide_True by done. cbn.
    apply Z.ltb_ge, Ht. set_solver. }
  by rewrite andb_false_r.
Qed.

Lemma compromise_voids_nothing_witness :
  let stolen := mkSuccession (rs "old") (rs "new") (rs "key-compromise") 5000 [] [] in
  let forged := mkAssertion (rs "old") (rs "s") (rs "f") (rs "v") (rs "b") 100 None [] in
  resolve_at [forged] [] [succession_watermark 6000 stolen] 7000 = resolve_at [forged] [] [] 7000.
Proof.
  intros stolen forged.
  apply (compromise_voids_nothing 6000 stolen [forged] [] [] 7000); [reflexivity|].
  intros a Ha. apply list_elem_of_singleton in Ha as ->. unfold forged. cbn. lia.
Defined.
