(* ===== verification/MemNamespace.v ===== *)
(** MemNamespace: the namespace registry of [InMemoryStore],
    [kappa-core/src/store/memory/mod.rs] lines 587 to 818 and [alias_key].

    Every alias names a recorded namespace, and only a namespace's owner (or,
    for a transfer, the owner's successor) can change its record. *)

From S2P Require Import Prelude Label Compute Types Merkle Epoch Identity Store MemStore MemTags MemIdentity.

Definition alias_key (name : rstr) (protocol : option rstr) : rstr :=
  match protocol with
  | Some p => p ++ rs ":" ++ name
  | None => name
  end.

Definition alias_not_found (key : rstr) : StoreError := SNotFound (rs "namespace alias: " ++ key).
Definition record_not_found (uuid : bytes) : StoreError :=
  SNotFound (rs "namespace record: " ++ hex_encode uuid).

(** [namespace_create] at time [now_ms], with the readings [gen_ms] and [random]
    that [NamespaceRef::generate] takes. *)
Definition namespace_create (now_ms gen_ms : Z) (random : bytes) (name owner : rstr) (protocol : option rstr)
  : M store NamespaceRef :=
  let key := alias_key name protocol in
  taken ← gets (λ s, bool_decide (is_Some (ns_aliases s !! key)));
  if taken : bool then throw (SConflict (rs "namespace alias already exists: " ++ key))
  else
    let ns := generate gen_ms random name in
    let uuid := ns_uuid ns in
    _ ← modify (set_ns_aliases (<[key := uuid]>));
    _ ← modify (set_ns_records (<[uuid := mkNsRecord (uuid_hex ns) owner now_ms protocol [name] false]>));
    mret ns.

Definition namespace_resolve (name : rstr) (protocol : option rstr) (s : store)
  : outcome StoreError NamespaceRef :=
  let key := alias_key name protocol in
  uuid ← ok_or (ns_aliases s !! key) (alias_not_found key);
  Ok (with_name uuid name).

Definition namespace_resolve_or_create (now_ms gen_ms : Z) (random : bytes) (name owner : rstr)
  (protocol : option rstr) : M store NamespaceRef := λ s,
  match namespace_resolve name protocol s with
  | Ok ns => (s, Ok ns)
  | Err (SNotFound _) =>
      match namespace_create now_ms gen_ms random name owner protocol s with
      | (s', Ok ns) => (s', Ok ns)
      | (s', Err (SConflict _)) => (s', namespace_resolve name protocol s')
      | (s', Err e) => (s', Err e)
      | (s', Panic) => (s', Panic)
      end
  | Err e => (s, Err e)
  | Panic => (s, Panic)
  end.

(** [a.aliases.first().cmp(&b.aliases.first())], [None] first. *)
Definition first_alias_le (a b : NamespaceRecord) : bool :=
  match head (nr_aliases a), head (nr_aliases b) with
  | None, _ => true
  | Some _, None => false
  | Some x, Some y => bytes_leb x y
  end.

Definition namespace_list (protocol : option rstr) (s : store) : outcome StoreError (list NamespaceRecord) :=
  let records := snd <$> map_to_list (ns_records s) in
  Ok (sort_by first_alias_le
        (filter (λ r, match protocol with Some p => bool_decide (nr_protocol r = Some p) | None => true end = true)
           records)).

Definition namespace_exists (name : rstr) (protocol : option rstr) (s : store) : outcome StoreError bool :=
  Ok (bool_decide (is_Some (ns_aliases s !! alias_key name protocol))).

Definition set_aliases (f : list rstr → list rstr) (r : NamespaceRecord) : NamespaceRecord :=
  mkNsRecord (nr_uuid_hex r) (nr_owner r) (nr_created_at_ms r) (nr_protocol r) (f (nr_aliases r)) (nr_tombstoned r).
Definition set_owner (owner : rstr) (r : NamespaceRecord) : NamespaceRecord :=
  mkNsRecord (nr_uuid_hex r) owner (nr_created_at_ms r) (nr_protocol r) (nr_aliases r) (nr_tombstoned r).
Definition set_tombstoned (r : NamespaceRecord) : NamespaceRecord :=
  mkNsRecord (nr_uuid_hex r) (nr_owner r) (nr_created_at_ms r) (nr_protocol r) (nr_aliases r) true.

(** [only owner {owner} {who} {action}, actor is {actor}] *)
Definition owner_error (what owner actor : rstr) : StoreError :=
  SRejected (rs "only owner " ++ owner ++ what ++ rs ", actor is " ++ actor).

Definition namespace_rename (old_name new_name actor : rstr) (protocol : option rstr) : M store () :=
  let old_key := alias_key old_name protocol in
  let new_key := alias_key new_name protocol in
  uuid ← asks (λ s, ok_or (ns_aliases s !! old_key) (alias_not_found old_key));
  taken ← gets (λ s, bool_decide (is_Some (ns_aliases s !! new_key)));
  if taken : bool then throw (SConflict (rs "target alias already exists: " ++ new_key))
  else
    record ← gets (λ s, ns_records s !! uuid);
    _ ← match record with
        | Some r =>
            if decide (nr_owner r = actor) then
              modify (set_ns_records (<[uuid := set_aliases
                (λ l, filter (λ a, a ≠ old_name) l ++ [new_name]) r]>))
            else throw (owner_error (rs " can rename") (nr_owner r) actor)
        | None => mret ()
        end;
    modify (set_ns_aliases (λ m, <[new_key := uuid]> (delete old_key m))).

Definition namespace_add_alias (uuid : bytes) (alias actor : rstr) (protocol : option rstr) : M store () :=
  let key := alias_key alias protocol in
  taken ← gets (λ s, bool_decide (is_Some (ns_aliases s !! key)));
  if taken : bool then throw (SConflict (rs "alias already exists: " ++ key))
  else
    r ← asks (λ s, ok_or (ns_records s !! uuid) (record_not_found uuid));
    if decide (nr_owner r = actor) then
      _ ← modify (set_ns_records (<[uuid := set_aliases
            (λ l, if decide (alias ∈ l) then l else l ++ [alias]) r]>));
      modify (set_ns_aliases (<[key := uuid]>))
    else throw (owner_error (rs " can add alias") (nr_owner r) actor).

Definition namespace_transfer (uuid : bytes) (new_owner actor : rstr) : M store () :=
  r ← asks (λ s, ok_or (ns_records s !! uuid) (record_not_found uuid));
  _ ← (if decide (nr_owner r = actor) then mret ()
       else
         resolved ← asks (identity_succession_resolve (nr_owner r));
         if decide (resolved = actor) then mret ()
         else throw (owner_error (rs " (or successor) can transfer") (nr_owner r) actor));
  modify (set_ns_records (<[uuid := set_owner new_owner r]>)).

Definition namespace_info (name : rstr) (protocol : option rstr) (s : store)
  : outcome StoreError NamespaceRecord :=
  let key := alias_key name protocol in
  uuid ← ok_or (ns_aliases s !! key) (alias_not_found key);
  ok_or (ns_records s !! uuid) (record_not_found uuid).

(** The alias keys [namespace_delete] removes for a record. *)
Definition delete_keys (r : NamespaceRecord) : list rstr :=
  concat ((λ a, a :: match nr_protocol r with Some p => [p ++ rs ":" ++ a] | None => [] end) <$> nr_aliases r).

Definition namespace_delete (name actor : rstr) (protocol : option rstr) : M store () :=
  let key := alias_key name protocol in
  uuid ← asks (λ s, ok_or (ns_aliases s !! key) (alias_not_found key));
  r ← asks (λ s, ok_or (ns_records s !! uuid) (record_not_found uuid));
  if decide (nr_owner r = actor) then
    _ ← modify (set_ns_aliases (λ m, foldl (λ m k, delete k m) m (delete_keys r)));
    modify (set_ns_records (<[uuid := set_tombstoned r]>))
  else throw (owner_error (rs " can delete") (nr_owner r) actor).

(** * The registry as a state machine *)

Inductive ns_op :=
| OpEnsure (ns : NamespaceRef)
| OpCreate (now_ms gen_ms : Z) (random : bytes) (name owner : rstr) (protocol : option rstr)
| OpResolveOrCreate (now_ms gen_ms : Z) (random : bytes) (name owner : rstr) (protocol : option rstr)
| OpRename (old_name new_name actor : rstr) (protocol : option rstr)
| OpAddAlias (uuid : bytes) (alias actor : rstr) (protocol : option rstr)
| OpTransfer (uuid : bytes) (new_owner actor : rstr)
| OpDelete (name actor : rstr) (protocol : option rstr).

Definition run_ns_op (op : ns_op) (s : store) : store :=
  match op with
  | OpEnsure ns => (ensure_namespace ns s).1
  | OpCreate now ms rnd name owner p => (namespace_create now ms rnd name owner p s).1
  | OpResolveOrCreate now ms rnd name owner p => (namespace_resolve_or_create now ms rnd name owner p s).1
  | OpRename old new actor p => (namespace_rename old new actor p s).1
  | OpAddAlias u alias actor p => (namespace_add_alias u alias actor p s).1
  | OpTransfer u new actor => (namespace_transfer u new actor s).1
  | OpDelete name actor p => (namespace_delete name actor p s).1
  end.

(** The UUID a creation draws is not in use. *)
Definition draws_fresh (op : ns_op) (s : store) : Prop :=
  match op with
  | OpCreate _ ms rnd name _ _ | OpResolveOrCreate _ ms rnd name _ _ =>
      ns_records s !! ns_uuid (generate ms rnd name) = None
  | _ => True
  end.

(** Who may change the record [r] with this operation. *)
Definition authorised (op : ns_op) (s : store) (r : NamespaceRecord) : Prop :=
  match op with
  | OpRename _ _ actor _ | OpAddAlias _ _ actor _ | OpDelete _ actor _ => nr_owner r = actor
  | OpTransfer _ _ actor =>
      nr_owner r = actor ∨ identity_succession_resolve (nr_owner r) s = Ok actor
  | _ => False
  end.

(** Aliases lead to records. *)
Definition alias_inv (s : store) : Prop :=
  ∀ key uuid, ns_aliases s !! key = Some uuid → is_Some (ns_records s !! uuid).

(** Reachable from the empty registry; every creation draws a fresh UUID. *)
Inductive ns_reachable : store → Prop :=
| ns_start s : ns_aliases s = ∅ → ns_reachable s
| ns_next op s : ns_reachable s → draws_fresh op s → ns_reachable (run_ns_op op s).

(** * What one operation does to the tables *)

(** New aliases lead to records; records stay, and change only by those allowed. *)
Definition step_ok (op : ns_op) (s s' : store) : Prop :=
  (∀ key u, ns_aliases s' !! key = Some u → ns_aliases s !! key = Some u ∨ is_Some (ns_records s' !! u)) ∧
  (∀ u r, ns_records s !! u = Some r →
     ns_records s' !! u = Some r ∨ is_Some (ns_records s' !! u) ∧ authorised op s r).

Lemma step_ok_refl op s : step_ok op s s.
Proof. split; auto. Qed.

Lemma step_ok_insert op s s' key uuid r' :
  (∀ k u, ns_aliases s' !! k = Some u → ns_aliases s !! k = Some u ∨ (k = key ∧ u = uuid)) →
  ns_records s' = <[uuid := r']> (ns_records s) →
  (∀ r, ns_records s !! uuid = Some r → authorised op s r) →
  step_ok op s s'.
Proof.
  intros Ha Hr Hauth. split.
  - intros k u [?|[-> ->]]%Ha; [by left|right]. rewrite Hr, lookup_insert_eq. eauto.
  - intros u r Hur. rewrite Hr. destruct (decide (uuid = u)) as [<-|Hne].
    + right. rewrite lookup_insert_eq. eauto.
    + left. by rewrite lookup_insert_ne.
Qed.

Lemma step_ok_inv op s s' : step_ok op s s' → alias_inv s → alias_inv s'.
Proof.
  intros [Ha Hr] Hinv key u [Hk|?]%Ha; [|done]. destruct (Hinv _ _ Hk) as [r Hur].
  destruct (Hr _ _ Hur) as [->|[? _]]; eauto.
Qed.

Lemma foldl_delete_lookup (ks : list rstr) (m : gmap rstr bytes) k :
  foldl (λ m k, delete k m) m ks !! k = if decide (k ∈ ks) then None else m !! k.
Proof.
  revert m. induction ks as [|x ks IH]; intros m; cbn [foldl].
  - by rewrite decide_False by set_solver.
  - rewrite IH. destruct (decide (k ∈ ks)) as [Hk|Hk]; [by rewrite decide_True by set_solver|].
    destruct (decide (k = x)) as [->|Hne].
    + by rewrite lookup_delete_eq, decide_True by set_solver.
    + by rewrite lookup_delete_ne, decide_False by set_solver.
Qed.

Lemma create_step op now ms rnd name owner p s :
  ns_records s !! ns_uuid (generate ms rnd name) = None →
  step_ok op s (namespace_create now ms rnd name owner p s).1.
Proof.
  intros Hf. unfold namespace_create. run. destruct (bool_decide _); [apply step_ok_refl|].
  cbn [fst]. eapply (step_ok_insert _ _ _ (alias_key name p)); [|done|].
  - intros k u. cbn [ns_aliases set_ns_aliases set_ns_records]. rewrite lookup_insert_Some. naive_solver.
  - intros r Hr. congruence.
Qed.

Lemma run_ns_op_step op s : alias_inv s → draws_fresh op s → step_ok op s (run_ns_op op s).
Proof.
  intros Hinv Hf. destruct op as [ns|now ms rnd name owner p|now ms rnd name owner p|old new actor p|u alias actor p|u new actor|name actor p];
    cbn [run_ns_op draws_fresh] in *.
  - unfold ensure_namespace. run. destruct (bool_decide _) eqn:E; [apply step_ok_refl|].
    apply bool_decide_eq_false in E. rewrite <- eq_None_not_Some in E.
    case_decide; cbn [fst]; (eapply (step_ok_insert _ _ _ (default [] (ns_display_name ns)) (ns_uuid ns));
      [|done|intros r Hr; congruence]); intros k u; cbn [ns_aliases set_ns_aliases set_ns_records]; [auto|].
    rewrite lookup_insert_Some. naive_solver.
  - by apply create_step.
  - unfold namespace_resolve_or_create. destruct (namespace_resolve name p s) as [|[]|]; try apply step_ok_refl.
    pose proof (create_step (OpResolveOrCreate now ms rnd name owner p) now ms rnd name owner p s Hf) as Hc.
    by destruct (namespace_create now ms rnd name owner p s) as [s' [?|[]|]].
  - unfold namespace_rename. run. destruct (ns_aliases s !! alias_key old p) as [u|] eqn:Hu; [|apply step_ok_refl].
    cbn [ok_or]. destruct (bool_decide _); [apply step_ok_refl|]. destruct (ns_records s !! u) as [r|] eqn:Hr.
    + case_decide as Ho; [|apply step_ok_refl]. cbn [fst].
      eapply (step_ok_insert _ _ _ (alias_key new p) u); [|done|intros r' Hr'; cbn; congruence].
      intros k v. cbn [ns_aliases set_ns_aliases set_ns_records]. rewrite lookup_insert_Some, lookup_delete_Some. naive_solver.
    + destruct (Hinv _ _ Hu) as [r Hr']. congruence.
  - unfold namespace_add_alias. run. destruct (bool_decide _); [apply step_ok_refl|].
    destruct (ns_records s !! u) as [r|] eqn:Hr; cbn [ok_or]; [|apply step_ok_refl].
    case_decide as Ho; [|apply step_ok_refl]. cbn [fst].
    eapply (step_ok_insert _ _ _ (alias_key alias p) u); [|done|intros r' Hr'; cbn; congruence].
    intros k v. cbn [ns_aliases set_ns_aliases set_ns_records]. rewrite lookup_insert_Some. naive_solver.
  - unfold namespace_transfer. run. destruct (ns_records s !! u) as [r|] eqn:Hr; cbn [ok_or]; [|apply step_ok_refl].
    assert ((∀ r', ns_records s !! u = Some r' → authorised (OpTransfer u new actor) s r') →
      step_ok (OpTransfer u new actor) s (set_ns_records (<[u := set_owner new r]>) s)) as Hok.
    { intros Ha. eapply (step_ok_insert _ _ _ [] u); [|done|exact Ha]. auto. }
    case_decide as Ho; [apply Hok; intros r' Hr'; left; congruence|].
    destruct (identity_succession_resolve (nr_owner r) s) as [c|e|] eqn:Hc; [|apply step_ok_refl..].
    case_decide as Hca; [|apply step_ok_refl]. apply Hok. intros r' Hr'. right. congruence.
  - unfold namespace_delete. run. destruct (ns_aliases s !! alias_key name p) as [u|]; [|apply step_ok_refl].
    cbn [ok_or]. destruct (ns_records s !! u) as [r|] eqn:Hr; cbn [ok_or]; [|apply step_ok_refl].
    case_decide as Ho; [|apply step_ok_refl]. cbn [fst].
    eapply (step_ok_insert _ _ _ [] u); [|done|intros r' Hr'; cbn; congruence].
    intros k v. cbn [ns_aliases set_ns_aliases set_ns_records]. rewrite foldl_delete_lookup. case_decide; auto; done.
Qed.

Lemma ns_reachable_inv s : ns_reachable s → alias_inv s.
Proof.
  induction 1 as [s Hs|op s Hs IH Hf]; [intros k u; by rewrite Hs|].
  eapply step_ok_inv; [by apply run_ns_op_step|done].
Qed.
(** * Properties *)

(** C10: from the empty registry, whatever namespace operations run (each drawing
    unused UUIDs), every alias leads to a record, so the record of a name that
    exists is always found; and one more operation leaves every existing record
    in place and changes it only for its owner, or for the owner's successor
    when it is a transfer. *)
Theorem namespace_registry_safe s op
  (Hs : ns_reachable s) (Hf : draws_fresh op s) :
  (∀ name p, namespace_exists name p s = Ok true → ∃ r, namespace_info name p s = Ok r) ∧
  (∀ u r, ns_records s !! u = Some r →
     ns_records (run_ns_op op s) !! u = Some r ∨
     is_Some (ns_records (run_ns_op op s) !! u) ∧ authorised op s r).
Proof.
  pose proof (ns_reachable_inv s Hs) as Hinv. split; [|apply run_ns_op_step; done].
  intros name p He. unfold namespace_exists in He. injection He as [u Hu]%bool_decide_eq_true.
  destruct (Hinv _ _ Hu) as [r Hr]. exists r. unfold namespace_info. rewrite Hu. osimpl. by rewrite Hr.
Qed.

Definition sample_registry : store :=
  run_ns_op (OpCreate 1 1 (rs "abcdefgh") (rs "team/app") (rs "alice") None) empty_store.

Lemma namespace_registry_safe_witness :
  ∃ r, namespace_info (rs "team/app") None sample_registry = Ok r ∧ nr_owner r = rs "alice" ∧
    ns_records (run_ns_op (OpRename (rs "team/app") (rs "x") (rs "mallory") None) sample_registry)
      !! ns_uuid (generate 1 (rs "abcdefgh") (rs "team/app")) = Some r.
Proof.
  destruct (namespace_registry_safe sample_registry (OpRename (rs "team/app") (rs "x") (rs "mallory") None))
    as [H1 H2].
  - apply ns_next; [apply ns_start; reflexivity|reflexivity].
  - exact I.
  - destruct (H1 (rs "team/app") None) as [r Hr]; [vm_compute; reflexivity|].
    assert (nr_owner <$> (match namespace_info (rs "team/app") None sample_registry with
                          | Ok r => Some r | _ => None end) = Some (rs "alice")) as Ho
      by (vm_compute; reflexivity).
    rewrite Hr in Ho. injection Ho as Ho. exists r. split; [exact Hr|]. split; [exact Ho|].
    destruct (H2 (ns_uuid (generate 1 (rs "abcdefgh") (rs "team/app"))) r) as [E|[_ E]]; [|exact E|].
    + change (ns_records sample_registry !! ns_uuid (generate 1 (rs "abcdefgh") (rs "team/app")) = Some r).
      unfold namespace_info in Hr. vm_compute in Hr. injection Hr as <-. vm_compute. reflexivity.
    + cbn [authorised] in E. rewrite Ho in E. discriminate E.
Defined.

(** Creating a namespace under a free alias succeeds and makes exactly that
    alias resolve to it, with a record owned by the creator; a taken alias is a
    conflict that changes nothing; resolve-or-create always succeeds, and twice
    in a row gives the same namespace. *)
Theorem namespace_create_correct now ms rnd name owner p s :
  (ns_aliases s !! alias_key name p = None →
     ∃ s', namespace_create now ms rnd name owner p s = (s', Ok (generate ms rnd name)) ∧
       namespace_info name p s' = Ok (mkNsRecord (uuid_hex (generate ms rnd name)) owner now p [name] false) ∧
       (∃ ns, namespace_resolve name p s' = Ok ns ∧ ns ≡ generate ms rnd name) ∧
       ∀ name' p', alias_key name' p' ≠ alias_key name p →
         namespace_resolve name' p' s' = namespace_resolve name' p' s) ∧
  (is_Some (ns_aliases s !! alias_key name p) →
     ∃ msg, namespace_create now ms rnd name owner p s = (s, Err (SConflict msg))) ∧
  (∃ s' ns, namespace_resolve_or_create now ms rnd name owner p s = (s', Ok ns) ∧
     ∀ now' ms' rnd' owner', ∃ ns',
       namespace_resolve_or_create now' ms' rnd' name owner' p s' = (s', Ok ns') ∧ ns' ≡ ns).
Proof.
  assert (ns_aliases s !! alias_key name p = None →
     ∃ s', namespace_create now ms rnd name owner p s = (s', Ok (generate ms rnd name)) ∧
       namespace_info name p s' = Ok (mkNsRecord (uuid_hex (generate ms rnd name)) owner now p [name] false) ∧
       (∃ ns, namespace_resolve name p s' = Ok ns ∧ ns ≡ generate ms rnd name) ∧
       ∀ name' p', alias_key name' p' ≠ alias_key name p →
         namespace_resolve name' p' s' = namespace_resolve name' p' s) as Hcreate.
  { intros Hn. unfold namespace_create. run. rewrite Hn. cbn [is_Some].
    rewrite bool_decide_eq_false_2 by (by intros [? [=]]). eexists. split; [done|].
    unfold namespace_info, namespace_resolve. cbn [ns_aliases ns_records set_ns_aliases set_ns_records].
    rewrite lookup_insert_eq. osimpl. rewrite lookup_insert_eq. split_and!; [done|by eexists|].
    intros name' p' Hne. by rewrite lookup_insert_ne. }
  split_and!.
  - exact Hcreate.
  - intros Hs. unfold namespace_create. run. rewrite bool_decide_eq_true_2 by done. by eexists.
  - unfold namespace_resolve_or_create. destruct (ns_aliases s !! alias_key name p) as [u|] eqn:Hu.
    + unfold namespace_resolve at 1. rewrite Hu. osimpl. eexists _, _. split; [done|]. intros.
      unfold namespace_resolve at 1. rewrite Hu. osimpl. by eexists.
    + destruct (Hcreate eq_refl) as (s' & Hc & _ & (ns & Hr & Hns) & _).
      unfold namespace_resolve at 1. rewrite Hu. osimpl. rewrite Hc. eexists _, _. split; [done|].
      intros. rewrite Hr. by eexists.
Qed.

(** Deleting a namespace that was registered under a protocol also removes
    the unscoped alias of the same name, even when that alias belongs to another
    namespace, whose owner did not act. *)
Theorem namespace_delete_takes_alias name p actor s s' victim u r
  (Hu : ns_aliases s !! alias_key name (Some p) = Some u) (Hr : ns_records s !! u = Some r)
  (Hname : name ∈ nr_aliases r) (Hv : ns_aliases s !! name = Some victim) (Hne : victim ≠ u)
  (Hrun : namespace_delete name actor (Some p) s = (s', Ok ())) :
  namespace_exists name None s = Ok true ∧ namespace_exists name None s' = Ok false ∧
  ns_records s' !! victim = ns_records s !! victim.
Proof.
  unfold namespace_delete in Hrun. run_in Hrun. rewrite Hu in Hrun. cbn [ok_or] in Hrun.
  rewrite Hr in Hrun. cbn [ok_or] in Hrun. case_decide; [|done]. injection Hrun as <-.
  unfold namespace_exists, alias_key. cbn [ns_aliases ns_records set_ns_aliases set_ns_records].
  rewrite Hv, foldl_delete_lookup, decide_True.
  - rewrite bool_decide_eq_true_2, bool_decide_eq_false_2 by (by eexists || by intros [? [=]]).
    by rewrite lookup_insert_ne.
  - unfold delete_keys. apply list_elem_of_In, in_concat. eexists.
    split; [apply list_elem_of_In; exact (list_elem_of_fmap_2 _ _ _ Hname)|by left].
Qed.

Lemma namespace_delete_takes_alias_witness :
  let s1 := run_ns_op (OpCreate 1 1 (rs "abcdefgh") (rs "app") (rs "alice") None) empty_store in
  let s2 := run_ns_op (OpCreate 2 2 (rs "ijklmnop") (rs "app") (rs "bob") (Some (rs "oci"))) s1 in
  ∃ s3, namespace_delete (rs "app") (rs "bob") (Some (rs "oci")) s2 = (s3, Ok ()) ∧
    namespace_exists (rs "app") None s2 = Ok true ∧ namespace_exists (rs "app") None s3 = Ok false.
Proof.
  intros s1 s2.
  assert ((namespace_delete (rs "app") (rs "bob") (Some (rs "oci")) s2).2 = Ok ()) as Hok
    by (vm_compute; reflexivity).
  destruct (namespace_delete (rs "app") (rs "bob") (Some (rs "oci")) s2) as [s3 r] eqn:E.
  cbn [snd] in Hok. subst r. exists s3. split; [reflexivity|].
  destruct (namespace_delete_takes_alias (rs "app") (rs "oci") (rs "bob") s2 s3
    (ns_uuid (generate 1 (rs "abcdefgh") (rs "app"))) (ns_uuid (generate 2 (rs "ijklmnop") (rs "app")))
    (mkNsRecord (uuid_hex (generate 2 (rs "ijklmnop") (rs "app"))) (rs "bob") 2 (Some (rs "oci")) [rs "app"] false))
    as (H1 & H2 & _); [vm_compute; reflexivity|vm_compute; reflexivity|apply list_elem_of_singleton; reflexivity
      |vm_compute; reflexivity|vm_compute; discriminate|exact E|].
  split; [exact H1|exact H2].
Defined.
