(* ===== verification/MemUpload.v ===== *)
(** MemUpload: streaming uploads and compression records of [InMemoryStore],
    [kappa-core/src/store/memory/mod.rs] lines 822 to 1050 and
    [decompress_bytes].

    A session is a growing byte string; [upload_inv] ties it to the list of parts
    it was put together from.  The readings of the monotonic clock are arguments,
    in nanoseconds. *)

From S2P Require Import Prelude Label Compute Types Merkle Epoch Identity Store MemStore MemTags.

(** The [md5] and decompression crates. *)
Class TransferCrates := {
  md5_digest : bytes → bytes;
  zstd_decode_all : bytes → bytes + rstr;
  xz_read_to_end : bytes → bytes + rstr;
  bz_read_to_end : bytes → bytes + rstr;
}.

(** The read buffer of [streaming_compute_kappa]. *)
Definition READ_BUF : nat := Z.to_nat 16384.

(** [created_at.elapsed() > Duration::from_secs(timeout)]. *)
Definition older_than (now timeout : Z) (session : UploadSession) : bool :=
  timeout * 1000000000 <? Z.max 0 (now - us_created_at session).

(** * Upload sessions *)

Section uploads.
Context `{HashCrates} `{TransferCrates} `{MemoryStoreConfig}.

Definition expired (now : Z) (session : UploadSession) : bool :=
  match upload_timeout_secs with
  | Some timeout => older_than now timeout session
  | None => false
  end.

Definition upload_begin (now : Z) (id : rstr) (namespace : NamespaceRef) (max_size : Z) : M store rstr :=
  _ ← modify (set_uploads (<[id := mkUpload (ns_display namespace) [] max_size now []]>));
  mret id.

(** [part_digests.len() as u32 + 1]. *)
Definition next_part_number (digests : list (Z * bytes * Z)) : outcome StoreError Z :=
  if decide (wrap 32 (zlen digests) = u32_max) then Panic else Ok (wrap 32 (zlen digests) + 1).

Definition upload_not_found (id : rstr) : StoreError := SNotFound (rs "upload " ++ id).
Definition upload_expired (id : rstr) : StoreError := SNotFound (rs "upload " ++ id ++ rs " expired").

Definition upload_put_part (now : Z) (upload_id : rstr) (offset : Z) (data : bytes) : M store Z :=
  found ← gets (λ s, uploads s !! upload_id);
  match found with
  | None => throw (upload_not_found upload_id)
  | Some session =>
      if expired now session then
        _ ← modify (set_uploads (delete upload_id));
        throw (upload_expired upload_id)
      else if negb (offset =? zlen (us_data session)) then
        throw (SConflict (rs "out-of-order: expected offset " ++ dec (zlen (us_data session))
                          ++ rs ", got " ++ dec offset))
      else
        let new_len := zlen (us_data session) + zlen data in
        if (0 <? us_max_size session) && (us_max_size session <? new_len) then
          throw (SRejected (rs "upload exceeds max size " ++ dec (us_max_size session)))
        else
          let md5_bytes := md5_digest data in
          part_number ← lift (next_part_number (us_part_digests session));
          let session' := mkUpload (us_namespace session) (us_data session ++ data) (us_max_size session)
                            (us_created_at session)
                            (us_part_digests session ++ [(part_number, md5_bytes, zlen data)]) in
          _ ← modify (set_uploads (<[upload_id := session']>));
          mret (zlen (us_data session'))
  end.

(** The reads of a cursor over [content] into a 16 KiB buffer. *)
Fixpoint cursor_reads (fuel : nat) (content : bytes) : list read_result :=
  match fuel with
  | O => []
  | S fuel =>
      match content with
      | [] => [inl []]
      | _ => inl (take READ_BUF content) :: cursor_reads fuel (drop READ_BUF content)
      end
  end.
Definition cursor (content : bytes) : list read_result := cursor_reads (S (length content)) content.

Definition claimed_axis (claimed_digest : option rstr) : rstr :=
  match claimed_digest with
  | Some d => match split_once COLON d with Some (a, _) => a | None => rs "sha256" end
  | None => rs "sha256"
  end.

Definition upload_complete (now : Z) (upload_id : rstr) (claimed_digest : option rstr) : M store IngestResult :=
  session ← asks (λ s, ok_or (uploads s !! upload_id) (upload_not_found upload_id));
  _ ← modify (set_uploads (delete upload_id));
  if expired now session then throw (upload_expired upload_id)
  else
    let content := us_data session in
    proof ← lift (reject_label (streaming_compute_kappa (claimed_axis claimed_digest) (cursor content)));
    let mismatch := match claimed_digest with
                    | Some claimed => bool_decide (proof_kappa proof ≠ claimed)
                    | None => false
                    end in
    if mismatch then
      throw (SRejected (rs "digest mismatch: expected " ++ default [] claimed_digest
                        ++ rs ", computed " ++ proof_kappa proof))
    else ingest_verified (proof_kappa proof) content.

Definition upload_abort (upload_id : rstr) : M store () := modify (set_uploads (delete upload_id)).

(** The lookup shared by the two queries: an expired session is dropped. *)
Definition live_session (now : Z) (upload_id : rstr) : M store (option UploadSession) :=
  found ← gets (λ s, uploads s !! upload_id);
  match found with
  | Some session =>
      if expired now session then _ ← modify (set_uploads (delete upload_id)); mret None
      else mret (Some session)
  | None => mret None
  end.

Definition upload_bytes_received (now : Z) (upload_id : rstr) : M store (option Z) :=
  session ← live_session now upload_id;
  mret ((λ s, zlen (us_data s)) <$> session).

Definition upload_namespace (now : Z) (upload_id : rstr) : M store (option rstr) :=
  session ← live_session now upload_id;
  mret (us_namespace <$> session).

Definition QUOTE : byte := x22.

Definition upload_part_info (upload_id : rstr) (s : store) : list (Z * rstr * Z) :=
  match uploads s !! upload_id with
  | Some session =>
      (λ '(pn, md5, size), (pn, QUOTE :: hex_encode md5 ++ [QUOTE], size)) <$> us_part_digests session
  | None => []
  end.

Definition upload_evict_expired (now timeout_secs : Z) : M store Z :=
  before ← gets (λ s, Z.of_nat (size (uploads s)));
  _ ← modify (set_uploads (filter (λ e, older_than now timeout_secs e.2 = false)));
  after ← gets (λ s, Z.of_nat (size (uploads s)));
  mret (before - after).

(** * Compressed content *)

Definition ingest_compressed (uncompressed_hash : rstr) (compressed_content : bytes) (compression : rstr)
  (uncompressed_size : Z) : M store IngestResult :=
  let kappa := kappa_from_bytes compressed_content in
  path ← lift (blob_path kappa);
  present ← gets (λ s, bool_decide (is_Some (fs s !! path)));
  _ ← (if present : bool then mret () else modify (set_fs (write_atomically path compressed_content)));
  _ ← modify (set_compression_records
        (<[uncompressed_hash := (kappa, compression, compressed_content, uncompressed_size)]>));
  mret (IngestResult_new kappa true).

Definition decompress_bytes (data : bytes) (algorithm : rstr) : outcome StoreError bytes :=
  let wrapped (tag : rstr) (r : bytes + rstr) :=
    match r with inl out => Ok out | inr e => Err (SIo (tag ++ rs ": " ++ e)) end in
  if decide (algorithm = rs "none") then Ok data
  else if decide (algorithm = rs "zstd") then wrapped (rs "zstd") (zstd_decode_all data)
  else if decide (algorithm = rs "xz" ∨ algorithm = rs "lzma") then wrapped (rs "xz") (xz_read_to_end data)
  else if decide (algorithm = rs "bzip2") then wrapped (rs "bzip2") (bz_read_to_end data)
  else Err (SRejected (rs "unsupported compression: " ++ algorithm)).

Definition blob_open_compressed (uncompressed_hash : rstr) (s : store) : outcome StoreError bytes :=
  entry ← ok_or (compression_records s !! uncompressed_hash) (SNotFound uncompressed_hash);
  let '(_, _, compressed, _) := entry in Ok compressed.

Definition blob_open_decompressed (uncompressed_hash : rstr) (s : store) : outcome StoreError bytes :=
  entry ← ok_or (compression_records s !! uncompressed_hash) (SNotFound uncompressed_hash);
  let '(_, algo, compressed, _) := entry in decompress_bytes compressed algo.
End uploads.

(** * Sessions and their parts *)

Section sessions.
Context `{HashCratesLaws} `{TransferCrates} `{MemoryStoreConfig}.

(** The session holds exactly the given parts, in order, numbered from one, and
    respects its size limit. *)
Record upload_inv (parts : list bytes) (session : UploadSession) : Prop := {
  ui_data : us_data session = concat parts;
  ui_digests : us_part_digests session
    = imap (λ i p, (Z.of_nat i + 1, md5_digest p, zlen p)) parts;
  ui_max : 0 < us_max_size session → zlen (us_data session) ≤ us_max_size session;
}.

Lemma upload_inv_snoc parts session data n :
  upload_inv parts session → zlen parts < u32_max →
  next_part_number (us_part_digests session) = Ok n →
  (0 < us_max_size session → zlen (us_data session) + zlen data ≤ us_max_size session) →
  upload_inv (parts ++ [data])
    (mkUpload (us_namespace session) (us_data session ++ data) (us_max_size session) (us_created_at session)
       (us_part_digests session ++ [(n, md5_digest data, zlen data)])).
Proof.
  intros [Hd Hp Hm] Hlen Hn Hfit. split; cbn [us_data us_part_digests us_max_size].
  - by rewrite Hd, concat_app, concat_cons, app_nil_r.
  - unfold next_part_number in Hn. case_decide as E; [done|]. injection Hn as <-.
    rewrite Hp, imap_app. f_equal. cbn. do 2 f_equal. f_equal. rewrite Nat.add_0_r.
    rewrite length_imap. unfold wrap. rewrite Z.mod_small; [done|]. unfold u32_max in Hlen. change (2 ^ 32) with 4294967296.
    lia.
  - intros H'. rewrite length_app. specialize (Hfit H'). lia.
Qed.

(** Reading a cursor to its end gives the content back. *)
Lemma cursor_reads_concat fuel content :
  (length content < fuel)%nat → ∃ cs, read_chunks (cursor_reads fuel content) = Ok cs ∧ concat cs = content.
Proof.
  revert content. induction fuel as [|fuel IH]; intros content Hf; [lia|]. cbn [cursor_reads].
  destruct content as [|b content]; [by exists []|]. cbn [read_chunks].
  assert (0 < READ_BUF)%nat as Hb by (unfold READ_BUF; lia).
  rewrite decide_False by (rewrite length_take; cbn [length]; lia).
  destruct (IH (drop READ_BUF (b :: content))) as (cs & Hcs & Hc); [rewrite length_drop; cbn [length] in *; lia|].
  rewrite Hcs. osimpl. eexists. split; [done|]. cbn [concat]. rewrite Hc. apply take_drop.
Qed.

Lemma stream_cursor axis content :
  streaming_compute_kappa axis (cursor content) =
  match axis_parse axis with
  | None => Err UnknownAxis
  | Some a => if hash_refused a content then Err CollisionDetected else Ok (proof_single (kappa_text a content))
  end.
Proof.
  destruct (axis_parse axis) as [a|] eqn:Ha; [|by apply streaming_compute_kappa_unknown].
  apply axis_parse_Some in Ha as ->. rewrite streaming_compute_kappa_axis.
  destruct (cursor_reads_concat (S (length content)) content) as (cs & Hcs & Hc); [lia|].
  unfold cursor. by rewrite Hcs, Hc.
Qed.
End sessions.

(** * Properties *)

(** A part is accepted exactly when its session is live, the part starts
    where the data received so far ends, and the total stays within the limit;
    then it is appended, counted and numbered, and the new total is reported.
    An expired session is dropped; any other refusal changes nothing.  Other
    sessions are never touched. *)
Theorem upload_put_part_correct `{HashCratesLaws} `{TransferCrates} `{MemoryStoreConfig}
  now id offset data s s' r session parts
  (Hs : uploads s !! id = Some session) (Hinv : upload_inv parts session)
  (Hlen : zlen parts < u32_max) (Hrun : upload_put_part now id offset data s = (s', r)) :
  (∀ id', id' ≠ id → uploads s' !! id' = uploads s !! id') ∧
  if expired now session then uploads s' !! id = None ∧ r = Err (upload_expired id)
  else if decide (offset = zlen (concat parts) ∧
                  (0 < us_max_size session → zlen (concat parts) + zlen data ≤ us_max_size session))
  then r = Ok (zlen (concat (parts ++ [data]))) ∧
       ∃ session', uploads s' !! id = Some session' ∧ upload_inv (parts ++ [data]) session'
  else s' = s ∧ ∃ e, r = Err e.
Proof.
  unfold upload_put_part in Hrun. run_in Hrun. rewrite Hs in Hrun. destruct (expired now session).
  { injection Hrun as <- <-. cbn [uploads set_uploads]. rewrite lookup_delete_eq. split; [|done].
    intros id' Hne. by rewrite lookup_delete_ne. }
  rewrite (ui_data _ _ Hinv) in Hrun.
  destruct (Z.eqb_spec offset (zlen (concat parts))) as [->|Hoff]; cbn [negb] in Hrun.
  2:{ injection Hrun as <- <-. split; [done|]. rewrite decide_False by tauto. eauto. }
  destruct ((0 <? us_max_size session) && (us_max_size session <? zlen (concat parts) + zlen data)) eqn:Hmax.
  { injection Hrun as <- <-. split; [done|]. apply andb_true_iff in Hmax as [H1'%Z.ltb_lt H2'%Z.ltb_lt].
    rewrite decide_False by (intros [_ Hf]; specialize (Hf H1'); lia). eauto. }
  assert (0 < us_max_size session → zlen (concat parts) + zlen data ≤ us_max_size session) as Hfit.
  { intros Hpos. apply andb_false_iff in Hmax as [?%Z.ltb_ge|?%Z.ltb_ge]; lia. }
  rewrite decide_True by done. destruct (next_part_number (us_part_digests session)) as [n| |] eqn:Hn.
  - injection Hrun as <- <-. cbn [uploads set_uploads us_data]. rewrite lookup_insert_eq.
    split; [intros id' Hne; by rewrite lookup_insert_ne|].
    split; [by rewrite concat_app, concat_cons, app_nil_r|]. eexists. split; [done|].
    rewrite <- (ui_data _ _ Hinv) in *. by eapply upload_inv_snoc.
  - unfold next_part_number in Hn. by case_decide.
  - exfalso. unfold next_part_number in Hn. case_decide as E; [|done]. revert E.
    rewrite (ui_digests _ _ Hinv), length_imap. unfold wrap. rewrite Z.mod_small; [lia|].
    unfold u32_max in Hlen. change (2 ^ 32) with 4294967296. lia.
Qed.

(** Completing an upload consumes the session in every case.  Without a
    claim, or with a claim that is the address of the received bytes, the bytes
    are stored and readable under the claimed (or SHA-256) address and every
    mandatory one; any other claim is rejected and no blob is written. *)
Theorem upload_complete_correct `{HashCratesLaws} `{TransferCrates} `{MemoryStoreConfig}
  now id claimed s s' r session
  (Hs : uploads s !! id = Some session) (Hfs : fs_ok (fs s))
  (Hm : ∀ a, a ∈ mandatory_axes → hash_refused a (us_data session) = false)
  (Hlive : expired now session = false) (Hrun : upload_complete now id claimed s = (s', r)) :
  uploads s' = delete id (uploads s) ∧
  (∀ client, claimed = Some (kappa_text client (us_data session)) ∨ claimed = None ∧ client = Sha256 →
     hash_refused client (us_data session) = false →
     fs_ok (fs s') ∧ (∃ b, r = Ok (mkIngest (kappa_text client (us_data session)) b
       ((λ a, kappa_text a (us_data session)) <$> filter (λ a, a ≠ client) mandatory_axes) None)) ∧
     (∀ a, a = client ∨ a ∈ mandatory_axes → stored_under s' (us_data session) (kappa_text a (us_data session)))) ∧
  (∀ d, claimed = Some d → verify_kappa d (us_data session) ≠ Ok true →
     fs s' = fs s ∧ ∃ e, r = Err (SRejected e)).
Proof.
  unfold upload_complete in Hrun. run_in Hrun. rewrite Hs in Hrun. cbn [ok_or] in Hrun. rewrite Hlive in Hrun.
  rewrite stream_cursor in Hrun. split_and!.
  - destruct (axis_parse _) as [a|]; [|by injection Hrun as <- <-].
    destruct (hash_refused a _); [by injection Hrun as <- <-|]. cbn [reject_label map_err proof_kappa proof_primary proof_single] in Hrun.
    destruct (match claimed with Some _ => _ | None => _ end); [by injection Hrun as <- <-|].
    apply ingest_verified_frame in Hrun as [f ->]. done.
  - intros client Hc Hr.
    assert (axis_parse (claimed_axis claimed) = Some client) as Ha.
    { destruct Hc as [-> | [-> ->] ]; [|done]. cbn [claimed_axis]. unfold kappa_text, label_text.
      rewrite split_once_app by apply colon_notin_axis. apply axis_parse_as_str. }
    rewrite Ha, Hr in Hrun. cbn [reject_label map_err proof_kappa proof_primary proof_single] in Hrun.
    destruct (match claimed with Some _ => _ | None => _ end) eqn:Emis.
    { destruct Hc as [-> | [-> ->] ]; [|done]. by apply bool_decide_eq_true in Emis. }
    assert (store_inv (set_uploads (delete id) s)) as Hsi by exact Hfs.
    destruct (ingest_verified_spec client (us_data session) (set_uploads (delete id) s) Hsi Hr Hm)
      as (s2 & b & E & Hs2 & Hst & _).
    rewrite E in Hrun. injection Hrun as <- <-. split_and!; [exact Hs2|by eexists|exact Hst].
  - intros d -> Hv. cbn [claimed_axis] in Hrun. destruct (axis_parse _) as [a|]; [|injection Hrun as <- <-; by eauto].
    destruct (hash_refused a _) eqn:Hr; [injection Hrun as <- <-; by eauto|].
    cbn [reject_label map_err proof_kappa proof_primary proof_single] in Hrun.
    case_bool_decide as Hne; [injection Hrun as <- <-; by eauto|].
    destruct Hv. apply verify_kappa_true. eauto.
Qed.

#[export] Instance sample_transfer : TransferCrates := {|
  md5_digest := pad_digest 16; zstd_decode_all := inl; xz_read_to_end := inl; bz_read_to_end := inl |}.

Definition sample_upload : UploadSession :=
  mkUpload (rs "n") (rs "hello") 10 0 [(1, pad_digest 16 (rs "hello"), 5)].

Definition sample_upload_store : store := set_uploads (<[rs "u" := sample_upload]>) empty_store.

Lemma upload_put_part_correct_witness : ∃ s' session',
  upload_put_part 0 (rs "u") 5 (rs " you") sample_upload_store = (s', Ok 9) ∧
  uploads s' !! rs "u" = Some session' ∧ upload_inv [rs "hello"; rs " you"] session'.
Proof.
  assert ((upload_put_part 0 (rs "u") 5 (rs " you") sample_upload_store).2 = Ok 9) as Hr
    by (vm_compute; reflexivity).
  destruct (upload_put_part 0 (rs "u") 5 (rs " you") sample_upload_store) as [s' r] eqn:E. cbn [snd] in Hr. subst r.
  destruct (upload_put_part_correct 0 (rs "u") 5 (rs " you") sample_upload_store s' (Ok 9) sample_upload [rs "hello"])
    as [_ H2].
  - unfold sample_upload_store. cbn [uploads set_uploads]. apply lookup_insert_eq.
  - split; [reflexivity|reflexivity|intros _; vm_compute; discriminate].
  - vm_compute. reflexivity.
  - exact E.
  - change (expired 0 sample_upload) with false in H2. cbv iota in H2.
    destruct (decide _) as [Hd|Hd] in H2.
    + destruct H2 as [_ (session' & Hl & Hi)]. exists s', session'. split; [reflexivity|]. split; [exact Hl|exact Hi].
    + destruct Hd. split; [reflexivity|intros _; vm_compute; discriminate].
Defined.

Lemma upload_complete_correct_witness : ∃ s' r,
  upload_complete 0 (rs "u") (Some (kappa_text Blake3 (rs "hello"))) sample_upload_store = (s', r) ∧
  stored_under s' (rs "hello") (kappa_text Sha256 (rs "hello")).
Proof.
  destruct (upload_complete 0 (rs "u") (Some (kappa_text Blake3 (rs "hello"))) sample_upload_store)
    as [s' r] eqn:E.
  exists s', r. split; [reflexivity|].
  destruct (upload_complete_correct 0 (rs "u") (Some (kappa_text Blake3 (rs "hello"))) sample_upload_store s' r
    sample_upload) as (_ & H2 & _).
  - unfold sample_upload_store. cbn [uploads set_uploads]. apply lookup_insert_eq.
  - intros path c Hp. discriminate Hp.
  - intros a Ha. destruct a; vm_compute; reflexivity.
  - reflexivity.
  - exact E.
  - apply (H2 Blake3); [left; reflexivity|vm_compute; reflexivity|right; apply list_elem_of_singleton; reflexivity].
Defined.

(** After storing compressed content under an uncompressed hash, both views
    open, decompression apart, on exactly that content, for every hash and
    algorithm; but the plain existence and size queries do not see the record:
    they answer as before, so a hash that was absent stays absent. *)
Theorem ingest_compressed_views `{HashCratesLaws} `{TransferCrates} `{MemoryStoreConfig}
  a hex content algo size s s' res
  (Hv : valid_digits a hex) (Hne : label_text a hex ≠ kappa_text Sha256 content)
  (Hrun : ingest_compressed (label_text a hex) content algo size s = (s', Ok res)) :
  ir_kappa res = kappa_text Sha256 content ∧
  blob_open_compressed (label_text a hex) s' = Ok content ∧
  blob_open_decompressed (label_text a hex) s' = decompress_bytes content algo ∧
  blob_exists (label_text a hex) s' = blob_exists (label_text a hex) s ∧
  blob_size (label_text a hex) s' = blob_size (label_text a hex) s.
Proof.
  unfold ingest_compressed in Hrun. rewrite kappa_from_bytes_text in Hrun. unfold kappa_text in *.
  pose proof (digest_hex_valid Sha256 content) as Hd. rewrite blob_path_label in Hrun by done. run_in Hrun.
  unfold blob_open_compressed, blob_open_decompressed, blob_exists, blob_size.
  rewrite blob_path_label by done. osimpl.
  assert (fs s' !! label_path blob_root a hex = fs s !! label_path blob_root a hex ∧
    compression_records s' !! label_text a hex
      = Some (label_text Sha256 (digest_hex Sha256 content), algo, content, size) ∧
    ir_kappa res = label_text Sha256 (digest_hex Sha256 content)) as (Hf & Hc & Hk).
  { destruct (bool_decide _); injection Hrun as <- <-; cbn [fs compression_records set_fs set_compression_records];
      (split; [|split; [apply lookup_insert_eq|done]]); [done|].
    rewrite write_atomically_lookup, decide_False; [done| |].
    - intros E. apply Hne. apply label_path_inj in E as [-> ->]; done.
    - intros E. symmetry in E. by eapply tmp_path_not_label, E. }
  rewrite Hf, Hc. osimpl. done.
Qed.

Lemma ingest_compressed_views_witness : ∃ s' res,
  ingest_compressed (kappa_text Sha256 (rs "plain")) (rs "packed") (rs "zstd") 5 empty_store = (s', Ok res) ∧
  blob_open_compressed (kappa_text Sha256 (rs "plain")) s' = Ok (rs "packed") ∧
  blob_exists (kappa_text Sha256 (rs "plain")) s' = Ok false.
Proof.
  destruct (ingest_compressed (kappa_text Sha256 (rs "plain")) (rs "packed") (rs "zstd") 5 empty_store)
    as [s' r] eqn:E.
  assert ((ingest_compressed (kappa_text Sha256 (rs "plain")) (rs "packed") (rs "zstd") 5 empty_store).2
          = Ok (IngestResult_new (kappa_text Sha256 (rs "packed")) true)) as Hr by (vm_compute; reflexivity).
  rewrite E in Hr. cbn [snd] in Hr. subst r. eexists _, _. split; [reflexivity|].
  destruct (ingest_compressed_views Sha256 (digest_hex Sha256 (rs "plain")) (rs "packed") (rs "zstd") 5
    empty_store s' (IngestResult_new (kappa_text Sha256 (rs "packed")) true)) as (_ & H2 & _ & H4 & _).
  - apply digest_hex_valid.
  - vm_compute. discriminate.
  - exact E.
  - split; [exact H2|]. unfold kappa_text. rewrite H4. vm_compute. reflexivity.
Defined.
