(* ===== verification/Gc.v ===== *)
(** Gc: garbage collection, [kappa-core/src/gc.rs], on the in-memory store.

    The walk over the edges is a breadth-first search with fuel; [bfs_correct]
    gives a bound on the fuel for every finite graph.  Sizes are added up without
    a width: the files of one disk fit in 64 bits. *)

From S2P Require Import Prelude Label Compute Types Merkle Epoch Identity Store MemStore MemTags MemIdentity MemNamespace.

(** [hex::decode]. *)
Class HexDecode := hex_decode : rstr → option bytes.
Class HexDecodeLaws `{HexDecode} : Prop := {
  hex_decode_encode : ∀ bs, hex_decode (hex_of_bytes bs) = Some bs;
}.

Record GcResult := mkGcResult {
  objects_scanned : Z;
  objects_reachable : Z;
  objects_collected : Z;
  bytes_freed : Z;
}.

(** * Reachability *)

(** The loop of [compute_reachable]; [None] when the fuel runs out. *)
Fixpoint bfs (fuel : nat) (resolve_edges : rstr → list rstr) (reachable : gset rstr) (queue : list rstr)
  : option (gset rstr) :=
  match fuel, queue with
  | _, [] => Some reachable
  | O, _ => None
  | S fuel, kappa :: queue =>
      if decide (kappa ∈ reachable) then bfs fuel resolve_edges reachable queue
      else
        let reachable := {[ kappa ]} ∪ reachable in
        bfs fuel resolve_edges reachable (queue ++ filter (λ t, t ∉ reachable) (resolve_edges kappa))
  end.

Definition compute_reachable (fuel : nat) (root_kappas : list rstr) (resolve_edges : rstr → list rstr)
  : option (gset rstr) :=
  bfs fuel resolve_edges ∅ root_kappas.

Section gc.
Context `{HashCrates} `{Dcbor} `{MemoryStoreConfig} `{HexDecode}.

(** * The root set *)

(** The epoch chain from [epoch_kappa] back; a link that cannot be read ends it. *)
Fixpoint walk_epochs (fuel : nat) (epoch_kappa : option rstr) : M store (list rstr) :=
  match epoch_kappa, fuel with
  | None, _ => mret []
  | Some _, O => lift Panic
  | Some ek, S fuel => λ s,
      match epoch_get ek s with
      | (s', Ok root) =>
          (rest ← walk_epochs fuel (f_prev_root_kappa (er_fields root)); mret (ek :: rest)) s'
      | (s', Err _) => (s', Ok [ek])
      | (s', Panic) => (s', Panic)
      end
  end.

(** The namespace a record describes, if its UUID is well formed. *)
Definition record_ns (record : NamespaceRecord) : option NamespaceRef :=
  let uuid := default [] (hex_decode (nr_uuid_hex record)) in
  if decide (length uuid = 16)%nat then Some (with_name uuid (default [] (head (nr_aliases record))))
  else None.

Fixpoint collect_roots (fuel : nat) (records : list NamespaceRecord) : M store (list rstr) :=
  match records with
  | [] => mret []
  | record :: records =>
      match record_ns record with
      | None => collect_roots fuel records
      | Some ns =>
          tags ← asks (tag_list ns);
          current ← epoch_current ns;
          chain ← walk_epochs fuel current;
          rest ← collect_roots fuel records;
          mret ((te_kappa <$> tags) ++ chain ++ rest)
      end
  end.

Definition build_root_set (fuel : nat) : M store (list rstr) :=
  namespaces ← asks (namespace_list None);
  roots ← collect_roots fuel namespaces;
  mret (sort_dedup roots).

(** * The sweep *)

Fixpoint sweep_blobs (reachable : gset rstr) (blobs : list rstr) : M store (Z * Z) :=
  match blobs with
  | [] => mret (0, 0)
  | kappa :: blobs =>
      if decide (kappa ∈ reachable) then sweep_blobs reachable blobs
      else
        size ← gets (λ s, match blob_size kappa s with Ok n => n | _ => 0 end);
        _ ← blob_delete kappa;
        r ← sweep_blobs reachable blobs;
        mret (1 + r.1, size + r.2)
  end.

Definition sweep (fuel : nat) (resolve_edges : rstr → list rstr) : M store GcResult :=
  roots ← build_root_set fuel;
  reachable ← lift (unwrap (compute_reachable fuel roots resolve_edges));
  all_blobs ← asks blob_list;
  r ← sweep_blobs reachable all_blobs;
  mret (mkGcResult (zlen all_blobs) (Z.of_nat (size reachable)) r.1 r.2).
End gc.

(** * The search finds exactly what is reachable *)

Lemma filter_ext_in {A} (P Q : A → Prop) `{∀ x, Decision (P x), ∀ x, Decision (Q x)} (l : list A) :
  (∀ x, x ∈ l → P x ↔ Q x) → filter P l = filter Q l.
Proof.
  induction l as [|x l IH]; intros Hl; [done|]. destruct (decide (P x)).
  - rewrite !filter_cons_True by (try apply Hl; set_solver). f_equal. apply IH. set_solver.
  - rewrite !filter_cons_False by (rewrite <- ?Hl; set_solver). apply IH. set_solver.
Qed.

Section search.
Context (resolve : rstr → list rstr).

Definition edge (a b : rstr) : Prop := b ∈ resolve a.
Definition reaches (roots : list rstr) (k : rstr) : Prop := ∃ r, r ∈ roots ∧ rtc edge r k.

(** The loop invariant: what is reached is reachable, and what is reachable is
    reached or ahead of the queue. *)
Lemma bfs_sound fuel R Q R' : bfs fuel resolve R Q = Some R' →
  R ⊆ R' ∧ (∀ k, k ∈ R' → k ∈ R ∨ reaches Q k) ∧
  ((∀ a b, a ∈ R → edge a b → b ∈ R ∨ b ∈ Q) → (∀ q, q ∈ Q → q ∈ R') ∧ ∀ a b, a ∈ R' → edge a b → b ∈ R').
Proof.
  revert R Q. induction fuel as [|fuel IH]; intros R [|q Q]; cbn [bfs]; intros Hrun; try done.
  1,2: injection Hrun as <-; set_solver.
  case_decide as Hq.
  - apply IH in Hrun as (H1 & H2 & H3). split_and!; [done| |].
    + intros k Hk. destruct (H2 k Hk) as [?|(r & Hr & ?)]; [by left|right]. exists r. set_solver.
    + intros Hcl. destruct H3 as [H3 H4]; [set_solver|]. split; [set_solver|done].
  - apply IH in Hrun as (H1 & H2 & H3). split_and!; [set_solver| |].
    + intros k Hk. destruct (H2 k Hk) as [Hin|(r & Hr & Hrk)].
      * apply elem_of_union in Hin as [->%elem_of_singleton|?]; [right|by left]. exists q. split; [set_solver|done].
      * right. apply elem_of_app in Hr as [Hr|Hr]; [exists r; set_solver|].
        apply list_elem_of_filter in Hr as [_ Hr]. exists q. split; [set_solver|]. by eapply rtc_l.
    + intros Hcl. destruct H3 as [H3 H4].
      * intros a b [->%elem_of_singleton|Ha]%elem_of_union Hab.
        -- destruct (decide (b ∈ {[ q ]} ∪ R)); [by left|right]. apply elem_of_app. right.
           by apply list_elem_of_filter.
        -- destruct (Hcl _ _ Ha Hab) as [?|[->|?]%elem_of_cons]; set_solver.
      * split; [|done]. intros x [->|Hx]%elem_of_cons; [apply H1; set_solver|apply H3; set_solver].
Qed.

Lemma compute_reachable_exact fuel roots R :
  compute_reachable fuel roots resolve = Some R → ∀ k, k ∈ R ↔ reaches roots k.
Proof.
  intros Hrun. apply bfs_sound in Hrun as (_ & H2 & H3). destruct H3 as [H3 H4]; [set_solver|].
  intros k. split; [intros [?|?]%H2; set_solver|]. intros (r & Hr%H3 & Hrk).
  induction Hrk as [|a b c Hab _ IH]; [done|]. apply IH. by eapply H4.
Qed.

(** ** Fuel *)

(** Edges still to be pushed from the members of [U] not yet reached. *)
Definition pending (U : list rstr) (R : gset rstr) : nat :=
  sum_list ((λ k, length (resolve k)) <$> filter (λ k, k ∉ R) U).

Lemma pending_insert U R q : NoDup U → q ∈ U → q ∉ R →
  (pending U ({[ q ]} ∪ R) + length (resolve q) = pending U R)%nat.
Proof.
  unfold pending. induction U as [|u U IH]; [set_solver|]. intros [Hu Hnd]%NoDup_cons Hq HqR.
  apply elem_of_cons in Hq as [<-|Hq].
  - rewrite filter_cons_False by set_solver. rewrite filter_cons_True by done. cbn.
    assert (filter (λ k, k ∉ {[ q ]} ∪ R) U = filter (λ k, k ∉ R) U) as ->; [|lia].
    apply filter_ext_in. intros k Hk. set_solver.
  - assert (u ≠ q) by set_solver. destruct (decide (u ∈ R)).
    + rewrite !filter_cons_False by set_solver. by apply IH.
    + rewrite !filter_cons_True by set_solver. cbn. rewrite <- IH by done. lia.
Qed.

Lemma bfs_total U fuel R Q :
  NoDup U → (∀ a b, a ∈ U → edge a b → b ∈ U) → (∀ q, q ∈ Q → q ∈ U) →
  (length Q + pending U R ≤ fuel)%nat → is_Some (bfs fuel resolve R Q).
Proof.
  intros Hnd Hcl. revert R Q. induction fuel as [|fuel IH]; intros R [|q Q] HQ Hf; cbn [bfs]; try by eexists.
  { cbn in Hf. lia. }
  cbn [length] in Hf. case_decide as Hq; [apply IH; [set_solver|lia]|]. apply IH.
  - intros x [Hx|Hx]%elem_of_app; [set_solver|]. apply list_elem_of_filter in Hx as [_ Hx].
    eapply Hcl; [|exact Hx]. set_solver.
  - rewrite length_app. pose proof (pending_insert U R q Hnd ltac:(set_solver) Hq).
    pose proof (length_filter (λ t, t ∉ {[ q ]} ∪ R) (resolve q)). lia.
Qed.
End search.

(** * The root set holds every tag and every epoch *)

Section roots.
Context `{HashCratesLaws} `{Dcbor} `{MemoryStoreConfig} `{HexDecodeLaws}.

(** The epoch root [epoch_get] finds, cached or stored. *)
Definition epoch_view (s : store) (k : rstr) : option EpochRoot :=
  match epoch_roots s !! k with
  | Some r => Some r
  | None =>
      match blob_get k s with
      | Ok blob => match from_leaf_bytes blob with Ok r => Some r | _ => None end
      | _ => None
      end
  end.

(** [k] is on the epoch chain that starts at [start]. *)
Inductive on_chain (s : store) : rstr → rstr → Prop :=
| chain_here k : on_chain s k k
| chain_back start root prev k : epoch_view s start = Some root →
    f_prev_root_kappa (er_fields root) = Some prev → on_chain s prev k → on_chain s start k.

(** The chain from [start] ends after at most [n] links. *)
Inductive chain_ends (s : store) : nat → option rstr → Prop :=
| ends_none n : chain_ends s n None
| ends_missing n k : epoch_view s k = None → chain_ends s (S n) (Some k)
| ends_link n k root : epoch_view s k = Some root →
    chain_ends s n (f_prev_root_kappa (er_fields root)) → chain_ends s (S n) (Some k).

(** Equal but for the caches of the epoch pointers and roots. *)
Record gc_frame (s s' : store) : Prop := {
  gf_fs : fs s' = fs s;
  gf_tags : tags s' = tags s;
  gf_records : ns_records s' = ns_records s;
  gf_view : ∀ k, epoch_view s' k = epoch_view s k;
  gf_pointer : ∀ u, current_pointer u s' = current_pointer u s;
}.

#[global] Instance gc_frame_preorder : PreOrder gc_frame.
Proof.
  split; [by split|]. intros s1 s2 s3 [? ? ? Hv1 Hp1] [? ? ? Hv2 Hp2]. split; try congruence; intros x.
Qed.

Lemma gc_frame_chain s s' a k : gc_frame s s' → on_chain s' a k ↔ on_chain s a k.
Proof.
  intros Hf. split; induction 1 as [|? ? ? ? Hv ? ? ?]; try constructor.
  - rewrite (gf_view _ _ Hf) in Hv. by econstructor.
  - rewrite <- (gf_view _ _ Hf) in Hv. by econstructor.
Qed.

Lemma gc_frame_ends s s' n k : gc_frame s s' → chain_ends s n k → chain_ends s' n k.
Proof.
  intros Hf. induction 1 as [|? ? Hv|? ? ? Hv ? IH]; [constructor|..];
    rewrite <- (gf_view _ _ Hf) in Hv; [by constructor|by econstructor].
Qed.

Lemma epoch_get_run k s : ∃ s', gc_frame s s' ∧
  ∃ r, epoch_get k s = (s', r) ∧ r ≠ Panic ∧
    match r with Ok root => epoch_view s k = Some root | _ => epoch_view s k = None end.
Proof.
  unfold epoch_get, epoch_view. run. destruct (epoch_roots s !! k) as [root|] eqn:Hc.
  { exists s. split; [reflexivity|]. by eexists. }
  destruct (blob_get k s) as [blob|e|] eqn:Hb.
  - pose proof (from_leaf_bytes_no_panic blob) as Hnp. destruct (from_leaf_bytes blob) as [root|e|] eqn:Hl; [|..|done].
    + exists (set_epoch_roots (<[k := root]>) s). split; [|by eexists].
      split; try done. intros k'. unfold epoch_view. cbn [epoch_roots set_epoch_roots].
      destruct (decide (k = k')) as [<-|Hne].
      * by rewrite lookup_insert_eq, Hc, Hb, Hl.
      * by rewrite lookup_insert_ne.
    + exists s. split; [reflexivity|]. by eexists.
  - exists s. split; [reflexivity|]. by eexists.
  - exfalso. cbn [blob_get mem_blobs] in Hb. unfold mem_blob_get, blob_path, blob_path_for in Hb.
    destruct (split_kappa k) as [[algo hex]|]; [|done]. osimpl in Hb.
    destruct (zlen hex <? 4); [done|]. destruct (negb _); [done|]. osimpl in Hb. by destruct (fs s !! _).
Qed.

Lemma walk_epochs_run n fuel ek s :
  chain_ends s n ek → (n ≤ fuel)%nat → ∃ s' l, walk_epochs fuel ek s = (s', Ok l) ∧ gc_frame s s' ∧
    ∀ k, k ∈ l ↔ ∃ start, ek = Some start ∧ on_chain s start k.
Proof.
  revert n ek s. induction fuel as [|fuel IH]; intros n ek s Hn Hle; cbn [walk_epochs].
  { destruct Hn; [|lia..]. exists s, []. split_and!; [done|reflexivity|]. set_solver. }
  destruct Hn as [n|n ek Hv|n ek root Hv Hn].
  { exists s, []. split_and!; [done|reflexivity|]. set_solver. }
  all: destruct (epoch_get_run ek s) as (s1 & Hf & r & -> & Hnp & Hr); destruct r as [root'|e|]; try done;
    rewrite Hv in Hr; try done.
  - exists s1, [ek]. split_and!; [done..|]. intros k. rewrite list_elem_of_singleton. split.
    + intros ->. exists ek. split; [done|constructor].
    + intros (start & [= <-] & Hc). destruct Hc as [|start root prev k Hv' _ _]; [done|congruence].
  - injection Hr as <-.
    destruct (IH n (f_prev_root_kappa (er_fields root)) s1) as (s2 & l & Hw & Hf2 & Hl);
      [by eapply gc_frame_ends|lia|].
    run. rewrite Hw. exists s2, (ek :: l). split_and!; [done|by transitivity s1|]. intros k.
    rewrite elem_of_cons, Hl. split.
    + intros [->|(start & Hp & Hc)]; [exists ek; split; [done|constructor]|].
      exists ek. split; [done|]. exact (chain_back s ek root start k Hv Hp (proj1 (gc_frame_chain _ _ _ _ Hf) Hc)).
    + intros (start & [= <-] & Hc). destruct Hc as [|start root' prev k Hv' Hp Hc]; [by left|right].
      rewrite Hv in Hv'. injection Hv' as <-. exists prev. split; [done|].
      exact (proj2 (gc_frame_chain _ _ _ _ Hf) Hc).
Qed.

(** Tagged in the namespace, or on its epoch chain. *)
Definition root_of (s : store) (ns : NamespaceRef) (k : rstr) : Prop :=
  (∃ h e, tags s !! (ns_uuid ns, h) = Some e ∧ te_kappa e = k) ∨
  (∃ start, current_pointer ns s = Some start ∧ on_chain s start k).

Lemma gc_frame_root s s' ns k : gc_frame s s' → root_of s' ns k ↔ root_of s ns k.
Proof.
  intros Hf. unfold root_of. rewrite (gf_tags _ _ Hf), (gf_pointer _ _ Hf).
  assert ((∃ start, current_pointer ns s = Some start ∧ on_chain s' start k) ↔
          (∃ start, current_pointer ns s = Some start ∧ on_chain s start k)) as ->; [|done].
  by setoid_rewrite (gc_frame_chain _ _ _ _ Hf).
Qed.

Lemma epoch_current_frame ns s : ∃ s', epoch_current ns s = (s', Ok (current_pointer ns s)) ∧ gc_frame s s'.
Proof.
  destruct (epoch_current_run ns s) as (f & Hrun & _). exists (set_current_epochs f s). split; [done|].
  split; try done. intros u. revert Hrun. unfold epoch_current, current_pointer, tag_get. run.
  destruct (current_epochs s !! ns_uuid ns) as [k|] eqn:E.
  { intros Hs. apply (f_equal (λ x, current_epochs x.1)) in Hs. cbn [fst current_epochs set_current_epochs] in Hs. cbn [current_epochs tags set_current_epochs]. by rewrite <- Hs. }
  destruct (tags s !! tag_key ns (rs "_epoch/current")) as [e|] eqn:Ht; cbn [ok_or];
    intros Hs; apply (f_equal (λ x, current_epochs x.1)) in Hs; cbn [fst current_epochs set_current_epochs] in Hs; cbn [current_epochs tags set_current_epochs]; rewrite <- Hs; [|done].
  destruct (decide (ns_uuid ns = ns_uuid u)) as [E'|Hne].
  - unfold tag_key in *. rewrite <- E', lookup_insert_eq, E, Ht. done.
  - by rewrite lookup_insert_ne.
Qed.

Lemma collect_roots_run fuel records s :
  (∀ rec ns, rec ∈ records → record_ns rec = Some ns → chain_ends s fuel (current_pointer ns s)) →
  ∃ s' l, collect_roots fuel records s = (s', Ok l) ∧ gc_frame s s' ∧
    ∀ k, k ∈ l ↔ ∃ rec ns, rec ∈ records ∧ record_ns rec = Some ns ∧ root_of s ns k.
Proof.
  revert s. induction records as [|rec records IH]; intros s Hends; cbn [collect_roots].
  { exists s, []. split_and!; [done|reflexivity|]. set_solver. }
  destruct (record_ns rec) as [ns|] eqn:Hns.
  2:{ destruct (IH s) as (s' & l & -> & Hf & Hl); [set_solver|]. exists s', l. split_and!; [done..|].
      intros k. rewrite Hl. split; [set_solver|]. intros (r & n & [->|Hr]%elem_of_cons & Hn & Hk); [congruence|eauto]. }
  run. unfold tag_list at 1. destruct (epoch_current_frame ns s) as (s1 & -> & Hf1).
  destruct (walk_epochs_run fuel fuel (current_pointer ns s) s1) as (s2 & chain & -> & Hf2 & Hchain);
    [eapply gc_frame_ends; [done|]; eapply Hends; [by left|done]|lia|].
  assert (gc_frame s s2) as Hf12 by (by transitivity s1).
  destruct (IH s2) as (s3 & rest & -> & Hf3 & Hrest).
  { intros r n Hr Hn. rewrite (gf_pointer _ _ Hf12). eapply gc_frame_ends; [done|]. eapply Hends; [by right|done]. }
  eexists s3, _. split; [reflexivity|]. split; [by transitivity s2|]. intros k.
  rewrite !elem_of_app, Hchain, Hrest.
  assert (k ∈ te_kappa <$> collect_sorted_tags ns s ↔
    ∃ h e, tags s !! (ns_uuid ns, h) = Some e ∧ te_kappa e = k) as ->.
  { rewrite list_elem_of_fmap. unfold collect_sorted_tags. setoid_rewrite elem_of_sort_by.
    setoid_rewrite ns_tags_elem. naive_solver. }
  assert ((∃ start, current_pointer ns s = Some start ∧ on_chain s1 start k) ↔
          (∃ start, current_pointer ns s = Some start ∧ on_chain s start k)) as ->.
  { by setoid_rewrite (gc_frame_chain _ _ _ _ Hf1). }
  rewrite <- Logic.or_assoc. fold (root_of s ns k). split.
  - intros [Hk|(r & n & Hr & Hn & Hk)]; [exists rec, ns; set_solver|].
    exists r, n. split; [by right|]. split; [done|]. by apply (gc_frame_root s s2).
  - intros (r & n & [->|Hr]%elem_of_cons & Hn & Hk); [left; congruence|right].
    exists r, n. split_and!; [done..|]. by apply (gc_frame_root s s2).
Qed.
End roots.

(** * What a sweep deletes *)

Section sweeping.
Context `{HashCratesLaws} `{Dcbor} `{MemoryStoreConfig} `{HexDecodeLaws}.

Lemma mem_get_cases a hex s : valid_digits a hex →
  (∃ c, blob_get (label_text a hex) s = Ok c) ∨
  blob_get (label_text a hex) s = Err (SNotFound (label_text a hex)).
Proof.
  intros Hv. cbn [blob_get mem_blobs]. unfold mem_blob_get. rewrite blob_path_label by done. osimpl.
  destruct (fs s !! _) as [c|]; [left; by exists c|by right].
Qed.

Lemma sweep_blobs_run R blobs s :
  (∀ k, k ∈ blobs → ∃ a hex, k = label_text a hex ∧ valid_digits a hex) →
  ∃ s' f b, sweep_blobs R blobs s = (s', Ok (zlen (filter (λ k, k ∉ R) blobs), b)) ∧ s' = set_fs f s ∧
    ∀ a hex, valid_digits a hex → blob_get (label_text a hex) s' =
      if decide (label_text a hex ∈ filter (λ k, k ∉ R) blobs)
      then Err (SNotFound (label_text a hex)) else blob_get (label_text a hex) s.
Proof.
  revert s. induction blobs as [|k blobs IH]; intros s Hb; cbn [sweep_blobs].
  { exists s, id, 0. split_and!; [done|by destruct s|]. intros a hex Hv. by rewrite decide_False by set_solver. }
  case_decide as Hk.
  { rewrite filter_cons_False by naive_solver. apply IH. set_solver. }
  rewrite filter_cons_True by done. destruct (Hb k) as (a & hex & -> & Hv); [by left|]. run.
  destruct (blob_delete (label_text a hex) s) as [s1 r] eqn:Hd.
  assert (r = Ok () ∧ ∃ f, s1 = set_fs f s) as [-> [f1 ->] ].
  { revert Hd. cbn [blob_delete mem_blobs]. unfold mem_blob_delete. rewrite blob_path_label by done. run.
    intros [= <- <-]. eauto. }
  destruct (IH (set_fs f1 s)) as (s' & f & b & Hrun & -> & Hget); [set_solver|]. rewrite Hrun.
  eexists _, (λ m, f (f1 m)), _. split; [|split; [reflexivity|]].
  { cbn [fst snd length]. f_equal. f_equal. f_equal. lia. }
  intros a' hex' Hv'. change (set_fs (λ m, f (f1 m)) s) with (set_fs f (set_fs f1 s)). rewrite Hget by done.
  destruct (decide (label_text a' hex' = label_text a hex)) as [E|Hne].
  - rewrite (decide_True (P := _ ∈ _ :: _)) by (rewrite E; by left). case_decide; [done|].
    rewrite E. by eapply delete_get.
  - destruct (decide (label_text a' hex' ∈ filter (λ k, k ∉ R) blobs)).
    + by rewrite decide_True by (by right).
    + rewrite decide_False by (rewrite elem_of_cons; tauto). by eapply delete_get_other; [exact Hv|exact Hv'| |exact Hd].
Qed.

(** Tagged or on an epoch chain in some recorded namespace. *)
Definition is_root (s : store) (k : rstr) : Prop :=
  ∃ u rec, ns_records s !! u = Some rec ∧ root_of s (NamespaceRef_new u) k.

(** Records carry the UUID they are filed under. *)
Definition records_wf (s : store) : Prop :=
  ∀ u rec, ns_records s !! u = Some rec → nr_uuid_hex rec = hex_encode u ∧ length u = 16%nat.

Lemma record_ns_wf s u rec : records_wf s → ns_records s !! u = Some rec →
  ∃ ns, record_ns rec = Some ns ∧ ns_uuid ns = u.
Proof.
  intros Hw Hr. destruct (Hw _ _ Hr) as [Hh Hl]. unfold record_ns.
  rewrite Hh, hex_encode_spec, hex_decode_encode. cbn [default from_option id]. rewrite decide_True by done. by eexists.
Qed.

Lemma root_of_uuid s ns ns' k : ns_uuid ns = ns_uuid ns' → root_of s ns k ↔ root_of s ns' k.
Proof. intros E. unfold root_of, current_pointer, tag_key. by rewrite E. Qed.

Lemma build_root_set_run fuel s :
  records_wf s →
  (∀ u rec, ns_records s !! u = Some rec → chain_ends s fuel (current_pointer (NamespaceRef_new u) s)) →
  ∃ s' roots, build_root_set fuel s = (s', Ok roots) ∧ gc_frame s s' ∧ NoDup roots ∧
    ∀ k, k ∈ roots ↔ is_root s k.
Proof.
  intros Hw Hends. unfold build_root_set. run. unfold namespace_list.
  set (records := sort_by first_alias_le _).
  assert (∀ rec, rec ∈ records ↔ ∃ u, ns_records s !! u = Some rec) as Hrec.
  { intros rec. unfold records. rewrite elem_of_sort_by, list_filter_all by done.
    rewrite list_elem_of_fmap. split.
    - intros ([u r] & -> & Hin%elem_of_map_to_list). by exists u.
    - intros [u Hu]. exists (u, rec). split; [done|]. by apply elem_of_map_to_list. }
  destruct (collect_roots_run fuel records s) as (s' & l & Hrun & Hf & Hl).
  { intros rec ns [u Hu]%Hrec Hns. destruct (record_ns_wf s u rec Hw Hu) as (ns' & Hns' & Hu').
    assert (ns' = ns) as -> by congruence. assert (current_pointer ns s = current_pointer (NamespaceRef_new u) s) as ->.
    { unfold current_pointer, tag_key. by rewrite Hu'. }
    by eapply Hends. }
  rewrite Hrun. exists s', (sort_dedup l). split_and!; [done|done|apply NoDup_sort_dedup|].
  intros k. rewrite elem_of_sort_dedup, Hl. split.
  - intros (rec & ns & [u Hu]%Hrec & Hns & Hk). exists u, rec. split; [done|].
    destruct (record_ns_wf s u rec Hw Hu) as (ns' & Hns' & Hu'). assert (ns' = ns) as -> by congruence.
    by apply (root_of_uuid s ns (NamespaceRef_new u)).
  - intros (u & rec & Hu & Hk). destruct (record_ns_wf s u rec Hw Hu) as (ns & Hns & Hu').
    exists rec, ns. split_and!; [apply Hrec; eauto|done|].
    by apply (root_of_uuid s ns (NamespaceRef_new u)).
Qed.
End sweeping.

(** * Properties *)

(** With fuel for the vertices and edges of any finite graph that contains
    the roots and is closed under the edges, the breadth-first walk ends, and
    returns exactly the labels reachable from the roots; cycles are no obstacle. *)
Theorem compute_reachable_correct resolve roots U fuel
  (Hnd : NoDup U) (Hroots : ∀ r, r ∈ roots → r ∈ U) (Hclosed : ∀ a b, a ∈ U → b ∈ resolve a → b ∈ U)
  (Hfuel : (length roots + sum_list ((λ k, length (resolve k)) <$> U) ≤ fuel)%nat) :
  ∃ R, compute_reachable fuel roots resolve = Some R ∧
    ∀ k, k ∈ R ↔ ∃ r, r ∈ roots ∧ rtc (λ a b, b ∈ resolve a) r k.
Proof.
  destruct (bfs_total resolve U fuel ∅ roots Hnd Hclosed Hroots) as [R HR].
  { unfold pending. rewrite list_filter_all by set_solver. done. }
  exists R. split; [exact HR|]. exact (compute_reachable_exact resolve fuel roots R HR).
Qed.

Lemma compute_reachable_correct_witness :
  let resolve k := if decide (k = rs "a") then [rs "b"] else if decide (k = rs "b") then [rs "a"] else [] in
  ∃ R, compute_reachable 3 [rs "a"] resolve = Some R ∧ rs "b" ∈ R.
Proof.
  intros resolve.
  destruct (compute_reachable_correct resolve [rs "a"] [rs "a"; rs "b"] 3) as (R & HR & Hin).
  - apply (bool_decide_unpack _). vm_compute. exact I.
  - intros r Hr. apply list_elem_of_singleton in Hr as ->. by left.
  - intros a b Ha Hb. apply elem_of_cons in Ha as [->|Ha]; [|apply list_elem_of_singleton in Ha as ->];
      apply list_elem_of_singleton in Hb as ->; [right; by left|by left].
  - vm_compute. lia.
  - exists R. split; [exact HR|]. apply Hin. exists (rs "a"). split; [by left|].
    apply rtc_once. by left.
Defined.

(** C3: a garbage collection on a content-addressed store whose epoch chains
    end, with fuel for a finite graph closed under the edges, completes; every
    blob reachable from a tag or from an epoch of a recorded namespace reads
    exactly as before, every other blob is gone, and tags and namespaces are
    untouched. *)
Theorem sweep_correct `{HashCratesLaws} `{Dcbor} `{MemoryStoreConfig} `{HexDecodeLaws} fuel resolve U s
  (Hfs : fs_ok (fs s)) (Hw : records_wf s)
  (Hends : ∀ u rec, ns_records s !! u = Some rec → chain_ends s fuel (current_pointer (NamespaceRef_new u) s))
  (Hnd : NoDup U) (Hroots : ∀ r, is_root s r → r ∈ U) (Hclosed : ∀ a b, a ∈ U → b ∈ resolve a → b ∈ U)
  (Hfuel : (length U + sum_list ((λ k, length (resolve k)) <$> U) ≤ fuel)%nat) :
  ∃ s' res, sweep fuel resolve s = (s', Ok res) ∧ tags s' = tags s ∧ ns_records s' = ns_records s ∧
    ∀ a hex, valid_digits a hex →
      let k := label_text a hex in
      let live := ∃ r, is_root s r ∧ rtc (λ x y, y ∈ resolve x) r k in
      (live → blob_get k s' = blob_get k s) ∧ (¬ live → blob_get k s' = Err (SNotFound k)).
Proof.
  destruct (build_root_set_run fuel s Hw Hends) as (s1 & roots & Hb & Hf & Hndr & Hr).
  destruct (bfs_total resolve U fuel ∅ roots Hnd Hclosed) as [R HR].
  { intros q Hq. by apply Hroots, Hr. }
  { unfold pending. rewrite list_filter_all by set_solver.
    assert (length roots ≤ length U)%nat; [|lia].
    apply submseteq_length, NoDup_submseteq; [done|]. intros q Hq. by apply Hroots, Hr. }
  pose proof (compute_reachable_exact resolve fuel roots R HR) as Hex.
  assert (fs_ok (fs s1)) as Hfs1 by (by rewrite (gf_fs _ _ Hf)).
  destruct (blob_list_spec s1 Hfs1) as (ls & Hls & _ & Hin).
  destruct (sweep_blobs_run R ls s1) as (s' & f & b & Hsw & -> & Hget).
  { intros k (a & c & -> & _)%Hin. exists a, (digest_hex a c). split; [done|apply digest_hex_valid]. }
  unfold sweep. run. rewrite Hb. unfold compute_reachable. rewrite HR. cbn [unwrap]. rewrite Hls, Hsw.
  eexists _, _. split; [reflexivity|]. split; [exact (gf_tags _ _ Hf)|]. split; [exact (gf_records _ _ Hf)|].
  intros a hex Hv. set (k := label_text a hex). set (live := ∃ r, _). specialize (Hget a hex Hv). fold k in Hget. rewrite Hget.
  assert (k ∈ R ↔ live) as Hlive.
  { rewrite Hex. unfold reaches, live. by setoid_rewrite Hr. }
  assert (blob_get k s1 = blob_get k s) as Hsame by (cbn; unfold mem_blob_get; by rewrite (gf_fs _ _ Hf)).
  split; intros Hl.
  - rewrite decide_False by (rewrite list_elem_of_filter; tauto). exact Hsame.
  - case_decide as Hd; [done|]. destruct (mem_get_cases a hex s1 Hv) as [[c Hc]|Hn]; [|exact Hn].
    destruct Hd. apply list_elem_of_filter. split; [tauto|]. apply Hin. exists a, c. split; [|exact Hc].
    by eapply (get_addressed a hex s1 c).
Qed.

(** Two hex digits per byte. *)
Fixpoint decode_pairs (s : rstr) : option bytes :=
  match s with
  | [] => Some []
  | a :: b :: rest =>
      match hex_nibble a, hex_nibble b, decode_pairs rest with
      | Some x, Some y, Some bs => Some (z2b (16 * x + y) :: bs)
      | _, _, _ => None
      end
  | _ => None
  end.

#[export] Instance sample_hex_decode : HexDecode := decode_pairs.
#[export] Instance sample_hex_decode_laws : HexDecodeLaws.
Proof.
  split. unfold hex_decode, sample_hex_decode, hex_of_bytes.
  induction bs as [|b bs IH]; [done|]. rewrite bind_cons.
  assert (∀ rest, decode_pairs (hex_of_byte (b2z b) ++ rest) = cons b <$> decode_pairs rest) as ->.
  { intros rest. cbn [hex_of_byte app decode_pairs].
    assert (match hex_nibble (hex_digit (Z.shiftr (b2z b) 4)), hex_nibble (hex_digit (Z.land (b2z b) 15)) with
            | Some x, Some y => bool_decide (z2b (16 * x + y) = b) | _, _ => false end = true) as Hb.
    { revert b. apply forall_byte. vm_compute. done. }
    destruct (hex_nibble (hex_digit (Z.shiftr (b2z b) 4))) as [x|], (hex_nibble (hex_digit (Z.land (b2z b) 15))) as [y|];
      try done. apply bool_decide_eq_true in Hb as ->.
    by destruct (decode_pairs rest). }
  by rewrite IH.
Qed.

(** One tag on the BLAKE3 label of content that is also stored under SHA-256. *)
Definition sample_gc_ns : bytes := replicate 16 x07.
Definition sample_gc_store : store :=
  set_tags (<[(sample_gc_ns, item_hash (rs "latest"))
              := mkTag (rs "latest") (kappa_text Blake3 (rs "hello")) 1]>)
    (set_ns_records (<[sample_gc_ns := mkNsRecord (hex_encode sample_gc_ns) [] 0 None [rs "n"] false]>)
       sample_store).

Lemma sweep_correct_witness :
  ∃ s' res, sweep 1 (λ _, []) sample_gc_store = (s', Ok res) ∧
    blob_get (kappa_text Blake3 (rs "hello")) s' = Ok (rs "hello").
Proof.
  assert (∀ u rec, ns_records sample_gc_store !! u = Some rec → u = sample_gc_ns ∧
            rec = mkNsRecord (hex_encode sample_gc_ns) [] 0 None [rs "n"] false) as Hrec.
  { intros u rec Hr. unfold sample_gc_store in Hr. cbn [ns_records set_tags set_ns_records] in Hr.
    apply lookup_insert_Some in Hr as [[<- <-]|[_ Hr]]; [split; reflexivity|].
    assert (ns_records sample_store = ∅) as E by (vm_compute; reflexivity). rewrite E in Hr. discriminate Hr. }
  assert (current_pointer (NamespaceRef_new sample_gc_ns) sample_gc_store = None) as Hp by (vm_compute; reflexivity).
  destruct (sweep_correct 1 (λ _, []) [kappa_text Blake3 (rs "hello")] sample_gc_store)
    as (s' & res & Hrun & _ & _ & Hk).
  - exact sample_store_ok.
  - intros u rec Hr. apply Hrec in Hr as [-> ->]. split; reflexivity.
  - intros u rec Hr. apply Hrec in Hr as [-> _]. rewrite Hp. constructor.
  - apply NoDup_singleton.
  - intros r (u & rec & Hr & Hroot). apply Hrec in Hr as [-> _].
    destruct Hroot as [(h & e & Ht & <-)|(start & Hs & _)]; [|rewrite Hp in Hs; discriminate Hs].
    unfold sample_gc_store in Ht. cbn [tags set_tags set_ns_records] in Ht.
    apply lookup_insert_Some in Ht as [[_ <-]|[_ Ht]]; [by left|].
    assert (tags sample_store = ∅) as E by (vm_compute; reflexivity). rewrite E in Ht. discriminate Ht.
  - intros a b _ Hb. apply elem_of_nil in Hb. destruct Hb.
  - cbn. lia.
  - exists s', res. split; [exact Hrun|].
    destruct (Hk Blake3 (digest_hex Blake3 (rs "hello")) (digest_hex_valid Blake3 (rs "hello"))) as [Hlive _].
    unfold kappa_text. rewrite Hlive; [vm_compute; reflexivity|].
    exists (kappa_text Blake3 (rs "hello")). split; [|apply rtc_refl].
    exists sample_gc_ns, (mkNsRecord (hex_encode sample_gc_ns) [] 0 None [rs "n"] false).
    split; [unfold sample_gc_store; apply lookup_insert_eq|]. left.
    exists (item_hash (rs "latest")), (mkTag (rs "latest") (kappa_text Blake3 (rs "hello")) 1).
    split; [unfold sample_gc_store; apply lookup_insert_eq|reflexivity].
Defined.
