(* ===== verification/Transaction.v ===== *)
(** Transaction: quarantine staging and promotion, [kappa-core/src/transaction.rs].

    The staging directories are maps from paths to contents.  [put] takes the
    manager's locks several times; [put_step] splits it at those points, so that
    interleavings of concurrent calls are schedules of steps.  Disk failures and
    the overflow of byte counts above the machine's address space are not
    modelled. *)

From S2P Require Import Prelude Label Compute Types Store MemStore.

Inductive TransactionError :=
| TxnIo (msg : rstr)
| TxnNotFound
| AtCapacity (max : Z)
| PerTxnLimitExceeded (max : Z)
| GlobalLimitExceeded (max : Z)
| TxnDigestMismatch (kappa : rstr)
| TxnInvalidLabel (kappa reason : rstr).

(** [StoreError]'s display form. *)
Definition store_error_str (e : StoreError) : rstr :=
  match e with
  | SIo e => rs "io error: " ++ e
  | SNotFound what => rs "not found: " ++ what
  | SConflict what => rs "conflict: " ++ what
  | SRejected what => rs "rejected: " ++ what
  | SCanonical e => rs "canonical error: " ++ e
  end.

Record TransactionState := mkTxn {
  tx_ns : rstr;
  tx_created_at : Z;
  tx_staging_bytes : Z;
  tx_dir_created : bool;
}.

(** The limits a manager is built with. *)
Class TxnLimits := {
  max_concurrent : Z;
  max_bytes_per_txn : Z;
  max_bytes_global : Z;
  txn_timeout_secs : Z;
}.

Record manager := mkManager {
  active : gmap rstr TransactionState;
  active_count : Z;
  total_staging_bytes : Z;
  staging : gmap rstr (gmap rstr bytes);
}.

(** [TransactionManager::new] after removing every leftover staging directory. *)
Definition new_manager : manager := mkManager ∅ 0 0 ∅.

(** * Paths *)

(** [blob_path_in], relative to the staging directory. *)
Definition blob_path_in (kappa : rstr) : rstr :=
  let '(axis, hex) := default (rs "unknown", rs "00") (split_once COLON kappa) in
  let shard := if decide (2 ≤ length hex)%nat then take 2 hex else rs "xx" in
  rs "blobs/" ++ axis ++ rs "/" ++ shard ++ rs "/" ++ kappa.

(** The label [list_staged_blobs] reports for a file. *)
Definition staged_label (path : rstr) : option rstr :=
  match split_slash [] path with
  | [root; _; _; name] =>
      if decide (root = rs "blobs") then
        if ends_with (rs ".meta") name || ends_with (rs ".tmp") name then None
        else if decide (COLON ∈ name) then Some name else None
      else None
  | _ => None
  end.

Definition staged_le (a b : rstr * bytes) : bool := bytes_leb a.1 b.1.

(** The staged blobs with their contents, sorted by label. *)
Definition list_staged_blobs (dir : gmap rstr bytes) : list (rstr * bytes) :=
  sort_by staged_le (omap (λ '(p, c), k ← staged_label p; Some (k, c)) (map_to_list dir)).

Section manager.
Context `{HashCrates} `{TxnLimits}.

Definition staging_dir (txn_id : rstr) (m : manager) : gmap rstr bytes := default ∅ (staging m !! txn_id).

Definition begin (id : rstr) (now : Z) (ns : rstr) (m : manager) : manager * outcome TransactionError rstr :=
  if max_concurrent <=? active_count m then (m, Err (AtCapacity max_concurrent))
  else
    (mkManager (<[id := mkTxn ns now 0 false]> (active m)) (active_count m + 1) (total_staging_bytes m) (staging m),
     Ok id).

(** ** Putting a blob *)

Definition put_verify (kappa : rstr) (content : bytes) : outcome TransactionError () :=
  match verify_kappa kappa content with
  | Ok true => Ok ()
  | Ok false => Err (TxnDigestMismatch kappa)
  | Err e => Err (TxnInvalidLabel kappa (label_error_str e))
  | Panic => Panic
  end.

(** The two limit checks. *)
Definition put_check (txn_id : rstr) (content : bytes) (m : manager) : outcome TransactionError () :=
  state ← ok_or (active m !! txn_id) TxnNotFound;
  if max_bytes_per_txn <? tx_staging_bytes state + zlen content
  then Err (PerTxnLimitExceeded max_bytes_per_txn)
  else if max_bytes_global <? total_staging_bytes m + zlen content
  then Err (GlobalLimitExceeded max_bytes_global)
  else Ok ().

(** Create the staging directory on first use. *)
Definition put_mkdir (txn_id : rstr) (m : manager) : manager * outcome TransactionError () :=
  match active m !! txn_id with
  | None => (m, Err TxnNotFound)
  | Some state =>
      if tx_dir_created state then (m, Ok ())
      else
        (mkManager (<[txn_id := mkTxn (tx_ns state) (tx_created_at state) (tx_staging_bytes state) true]> (active m))
           (active_count m) (total_staging_bytes m)
           (<[txn_id := staging_dir txn_id m]> (staging m)),
         Ok ())
  end.

(** Write the file unless it is there; [true] when it was written. *)
Definition put_write (txn_id kappa : rstr) (content : bytes) (m : manager) : manager * bool :=
  let dir := staging_dir txn_id m in
  let path := blob_path_in kappa in
  match dir !! path with
  | Some _ => (m, false)
  | None =>
      (mkManager (active m) (active_count m) (total_staging_bytes m)
         (<[txn_id := write_atomically path content dir]> (staging m)), true)
  end.

(** The byte counters. *)
Definition put_account (txn_id : rstr) (content : bytes) (m : manager) : manager :=
  mkManager
    (alter (λ st, mkTxn (tx_ns st) (tx_created_at st) (tx_staging_bytes st + zlen content) (tx_dir_created st))
       txn_id (active m))
    (active_count m) (total_staging_bytes m + zlen content) (staging m).

Definition put (txn_id kappa : rstr) (content : bytes) (m : manager) : manager * outcome TransactionError bool :=
  match put_verify kappa content with
  | Err e => (m, Err e)
  | Panic => (m, Panic)
  | Ok () =>
      match put_check txn_id content m with
      | Err e => (m, Err e)
      | Panic => (m, Panic)
      | Ok () =>
          match put_mkdir txn_id m with
          | (m1, Ok ()) =>
              match put_write txn_id kappa content m1 with
              | (m2, false) => (m2, Ok false)
              | (m2, true) => (put_account txn_id content m2, Ok true)
              end
          | (m1, Err e) => (m1, Err e)
          | (m1, Panic) => (m1, Panic)
          end
      end
  end.

(** ** Ending a transaction *)

Definition cleanup (txn_id : rstr) (m : manager) : manager :=
  match active m !! txn_id with
  | Some _ => mkManager (delete txn_id (active m)) (active_count m - 1) (total_staging_bytes m) (staging m)
  | None => m
  end.

(** [remove_dir_all] and [fetch_sub]. *)
Definition drop_staging (txn_id : rstr) (staging_bytes : Z) (m : manager) : manager :=
  mkManager (active m) (active_count m) (wrap 64 (total_staging_bytes m - staging_bytes))
    (delete txn_id (staging m)).

Definition abort (txn_id : rstr) (m : manager) : manager * outcome TransactionError () :=
  match active m !! txn_id with
  | None => (m, Err TxnNotFound)
  | Some state => (cleanup txn_id (drop_staging txn_id (tx_staging_bytes state) m), Ok ())
  end.

Definition txn_expired (now : Z) (state : TransactionState) : bool :=
  txn_timeout_secs <? Z.max 0 (now - tx_created_at state) / 1000000000.

Definition evict_expired (now : Z) (m : manager) : manager * Z :=
  let to_remove := fst <$> filter (λ e, txn_expired now e.2 = true) (map_to_list (active m)) in
  (foldl (λ m id, (abort id m).1) m to_remove, zlen to_remove).

(** Promote the staged blobs one by one into the main store. *)
Fixpoint promote {St} `{KappaBlobs St} (staged : list (rstr * bytes)) (s : St)
  : St * outcome TransactionError (list rstr) :=
  match staged with
  | [] => (s, Ok [])
  | (kappa, content) :: rest =>
      match ingest_verified kappa content s with
      | (s1, Ok _) =>
          match promote rest s1 with
          | (s2, Ok l) => (s2, Ok (kappa :: l))
          | (s2, Err e) => (s2, Err e)
          | (s2, Panic) => (s2, Panic)
          end
      | (s1, Err e) => (s1, Err (TxnIo (store_error_str e)))
      | (s1, Panic) => (s1, Panic)
      end
  end.

Definition commit {St} `{KappaBlobs St} (txn_id : rstr) (m : manager) (main_store : St)
  : manager * St * outcome TransactionError (list rstr) :=
  match active m !! txn_id with
  | None => (m, main_store, Err TxnNotFound)
  | Some state =>
      if tx_dir_created state then
        match promote (list_staged_blobs (staging_dir txn_id m)) main_store with
        | (s', Ok promoted) =>
            (cleanup txn_id (drop_staging txn_id (tx_staging_bytes state) m), s', Ok promoted)
        | (s', Err e) => (m, s', Err e)
        | (s', Panic) => (m, s', Panic)
        end
      else (cleanup txn_id m, main_store, Ok [])
  end.

(** * Interleavings *)

(** Where a thread is inside [put]: the points between lock acquisitions. *)
Inductive put_pc := PutCheck | PutMkdir | PutWrite | PutAccount | PutDone (r : outcome TransactionError bool).

Definition put_step (txn_id kappa : rstr) (content : bytes) (pc : put_pc) (m : manager) : manager * put_pc :=
  match pc with
  | PutCheck =>
      match put_verify kappa content with
      | Ok () =>
          match put_check txn_id content m with
          | Ok () => (m, PutMkdir)
          | Err e => (m, PutDone (Err e))
          | Panic => (m, PutDone Panic)
          end
      | Err e => (m, PutDone (Err e))
      | Panic => (m, PutDone Panic)
      end
  | PutMkdir =>
      match put_mkdir txn_id m with
      | (m1, Ok ()) => (m1, PutWrite)
      | (m1, Err e) => (m1, PutDone (Err e))
      | (m1, Panic) => (m1, PutDone Panic)
      end
  | PutWrite =>
      match put_write txn_id kappa content m with
      | (m2, false) => (m2, PutDone (Ok false))
      | (m2, true) => (m2, PutAccount)
      end
  | PutAccount => (put_account txn_id content m, PutDone (Ok true))
  | PutDone r => (m, PutDone r)
  end.

(** A concurrent call and its progress. *)
Record thread := mkThread { th_txn : rstr; th_kappa : rstr; th_content : bytes; th_pc : put_pc }.

(** Run the threads in the order the schedule gives, one step each time. *)
Fixpoint run_schedule (schedule : list nat) (threads : list thread) (m : manager) : manager * list thread :=
  match schedule with
  | [] => (m, threads)
  | i :: schedule =>
      match threads !! i with
      | Some t =>
          let '(m', pc') := put_step (th_txn t) (th_kappa t) (th_content t) (th_pc t) m in
          run_schedule schedule (<[i := mkThread (th_txn t) (th_kappa t) (th_content t) pc']> threads) m'
      | None => run_schedule schedule threads m
      end
  end.
End manager.

(** * Sums over maps *)

Definition msum {K V} `{Countable K} (f : V → Z) (m : gmap K V) : Z := map_fold (λ _ v acc, f v + acc) 0 m.

Section msum.
Context {K V : Type} `{Countable K} (f : V → Z).

Lemma msum_insert (m : gmap K V) k v : m !! k = None → msum f (<[k := v]> m) = f v + msum f m.
Proof. intros Hk. unfold msum. rewrite map_fold_insert_L; [done| |done]. intros. lia. Qed.

Lemma msum_delete (m : gmap K V) k v : m !! k = Some v → msum f (delete k m) = msum f m - f v.
Proof. intros Hk. rewrite <- (insert_delete_id m k v Hk) at 2. rewrite msum_insert by apply lookup_delete_eq. lia. Qed.

Lemma msum_update (m : gmap K V) k v v' : m !! k = Some v → msum f (<[k := v']> m) = msum f m - f v + f v'.
Proof.
  intros Hk. rewrite <- insert_delete_eq, msum_insert by apply lookup_delete_eq. rewrite (msum_delete _ _ _ Hk). lia.
Qed.

Lemma msum_nonneg (m : gmap K V) : (∀ v, 0 ≤ f v) → 0 ≤ msum f m.
Proof.
  intros Hf. induction m as [|k v m Hk IH] using map_ind; [done|]. rewrite msum_insert by done.
  specialize (Hf v). lia.
Qed.

Lemma msum_le (m : gmap K V) k v : (∀ v, 0 ≤ f v) → m !! k = Some v → f v ≤ msum f m.
Proof. intros Hf Hk. pose proof (msum_delete m k v Hk). pose proof (msum_nonneg (delete k m) Hf). lia. Qed.
End msum.

(** * Accounting *)

Section accounting.
Context `{HashCratesLaws} `{TxnLimits}.

(** A staged file lies at the path of its content's label. *)
Definition dir_ok (dir : gmap rstr bytes) : Prop :=
  ∀ p c, dir !! p = Some c → ∃ a, p = blob_path_in (kappa_text a c) ∧ hash_refused a c = false.

(** The counters agree with what is on disk, and all limits hold. *)
Record txn_inv (m : manager) : Prop := {
  ti_count : active_count m = Z.of_nat (size (active m));
  ti_max : active_count m ≤ Z.max 0 max_concurrent;
  ti_bytes : ∀ id st, active m !! id = Some st → tx_staging_bytes st = msum (λ c, zlen c) (staging_dir id m);
  ti_per_txn : ∀ id st, active m !! id = Some st → tx_staging_bytes st ≤ Z.max 0 max_bytes_per_txn;
  ti_total : total_staging_bytes m = msum tx_staging_bytes (active m);
  ti_global : total_staging_bytes m ≤ Z.max 0 max_bytes_global;
  ti_dirs : ∀ id dir, staging m !! id = Some dir →
    dir_ok dir ∧ ∃ st, active m !! id = Some st ∧ tx_dir_created st = true;
}.

Lemma new_manager_inv : txn_inv new_manager.
Proof. split; cbn; try done; try lia. Qed.

Lemma begin_inv id now ns m :
  txn_inv m → active m !! id = None → txn_inv (begin id now ns m).1.
Proof.
  intros [I1 I2 I3 I4 I5 I6 I7] Hid. unfold begin. destruct (Z.leb_spec max_concurrent (active_count m)); [by split|].
  assert (staging m !! id = None) as Hs.
  { apply eq_None_not_Some. intros [d Hd]. destruct (I7 _ _ Hd) as (_ & st & Hst & _). congruence. }
  split; cbn [fst active active_count total_staging_bytes staging]; unfold staging_dir; cbn [staging].
  - rewrite map_size_insert_None by done. lia.
  - lia.
  - intros i st [[<- <-]|[Hne Hi]]%lookup_insert_Some; [|by apply I3]. by rewrite Hs.
  - intros i st [[<- <-]|[Hne Hi]]%lookup_insert_Some; [cbn; lia|by eapply I4].
  - rewrite msum_insert by done. cbn. lia.
  - done.
  - intros i d Hd. destruct (I7 _ _ Hd) as (Hok & st & Hst & Hc). split; [done|]. exists st.
    rewrite lookup_insert_ne by congruence. done.
Qed.

Lemma msum_nonneg_in (d : gmap rstr TransactionState) :
  (∀ i st, d !! i = Some st → 0 ≤ tx_staging_bytes st) → 0 ≤ msum tx_staging_bytes d.
Proof.
  induction d as [|k v d Hk IH] using map_ind; intros Hd; [done|]. rewrite msum_insert by done.
  assert (0 ≤ tx_staging_bytes v) by (by eapply (Hd k); rewrite lookup_insert_eq).
  assert (0 ≤ msum tx_staging_bytes d); [|lia]. apply IH. intros i st Hi. apply (Hd i).
  rewrite lookup_insert_ne by congruence. done.
Qed.

Lemma tx_staging_nonneg m : txn_inv m → ∀ id st, active m !! id = Some st → 0 ≤ tx_staging_bytes st.
Proof. intros Hm id st Hst. rewrite (ti_bytes _ Hm _ _ Hst). apply msum_nonneg. lia. Qed.

(** [max_bytes_global] is a [usize]. *)
Context (Husize : max_bytes_global ≤ u64_max).

Lemma blob_path_in_label a hex : valid_digits a hex →
  blob_path_in (label_text a hex) = rs "blobs/" ++ axis_as_str a ++ rs "/" ++ take 2 hex ++ rs "/" ++ label_text a hex.
Proof.
  intros Hv. pose proof (valid_digits_len _ _ Hv). unfold blob_path_in, label_text at 1.
  rewrite split_once_app by apply colon_notin_axis. cbn [default from_option id].
  rewrite decide_True by lia. done.
Qed.

Lemma blob_path_in_last a hex : valid_digits a hex →
  ∃ c, last (blob_path_in (label_text a hex)) = Some c ∧ is_lower_hex c = true.
Proof.
  intros Hv. rewrite blob_path_in_label by done. pose proof (valid_digits_len _ _ Hv). destruct Hv as [_ Hh].
  destruct (last_hex hex Hh) as (c & Hc & Hx); [intros ->; cbn in *; lia|]. exists c. split; [|done].
  unfold label_text. rewrite !last_app. cbn [last]. rewrite last_cons, Hc. done.
Qed.

Lemma dir_ok_tmp dir p : dir_ok dir → dir !! tmp_path p = None.
Proof.
  intros Hd. apply eq_None_not_Some. intros [c Hc]. destruct (Hd _ _ Hc) as (a & E & _).
  destruct (blob_path_in_last a (digest_hex a c) (digest_hex_valid a c)) as (x & Hx & Hhex).
  unfold kappa_text in E. rewrite <- E in Hx. unfold tmp_path in Hx. rewrite last_app in Hx. by injection Hx as <-.
Qed.

Lemma write_staged dir p c : dir_ok dir → write_atomically p c dir = <[p := c]> dir.
Proof.
  intros Hd. unfold write_atomically. rewrite delete_insert_id by by apply dir_ok_tmp. done.
Qed.

Lemma put_mkdir_inv id m m1 : txn_inv m → put_mkdir id m = (m1, Ok ()) →
  txn_inv m1 ∧ staging_dir id m1 = staging_dir id m ∧ total_staging_bytes m1 = total_staging_bytes m ∧
  ∃ st st1, active m !! id = Some st ∧ active m1 !! id = Some st1 ∧
    tx_staging_bytes st1 = tx_staging_bytes st ∧ tx_dir_created st1 = true.
Proof.
  intros Hm. unfold put_mkdir. destruct (active m !! id) as [st|] eqn:Hst; [|done].
  destruct (tx_dir_created st) eqn:Hdc; intros [= <-].
  { split; [done|]. split_and!; [done..|]. by exists st, st. }
  destruct Hm as [I1 I2 I3 I4 I5 I6 I7].
  assert (staging m !! id = None) as Hs.
  { apply eq_None_not_Some. intros [d Hd]. destruct (I7 _ _ Hd) as (_ & st' & Hst' & Hc). congruence. }
  unfold staging_dir; cbn [staging active active_count total_staging_bytes]. rewrite lookup_insert_eq. split.
  2:{ rewrite Hs. split_and!; [done..|]. eexists _, _. split; [done|]. by rewrite lookup_insert_eq. }
  split; unfold staging_dir; cbn [staging active active_count total_staging_bytes]; try done.
  - rewrite map_size_insert_Some by eauto. done.
  - intros i st' [[<- <-]|[Hne Hi]]%lookup_insert_Some.
    + rewrite lookup_insert_eq. cbn. rewrite Hs. by rewrite (I3 _ _ Hst); unfold staging_dir; rewrite Hs.
    + rewrite lookup_insert_ne by done. by apply I3.
  - intros i st' [[<- <-]|[Hne Hi]]%lookup_insert_Some; [exact (I4 _ _ Hst)|by eapply I4].
  - rewrite (msum_update _ _ _ st) by done. cbn. lia.
  - intros i d [[<- <-]|[Hne Hi]]%lookup_insert_Some.
    + rewrite Hs. cbn. split; [by intros p c|]. eexists. by rewrite lookup_insert_eq.
    + destruct (I7 _ _ Hi) as (Hok & st' & Hst' & Hc). split; [done|]. exists st'. by rewrite lookup_insert_ne.
Qed.

(** Writing a verified blob within the limits and counting it. *)
Lemma put_write_inv id a content m m1 st :
  txn_inv m → hash_refused a content = false → active m !! id = Some st → tx_dir_created st = true →
  tx_staging_bytes st + zlen content ≤ max_bytes_per_txn →
  total_staging_bytes m + zlen content ≤ max_bytes_global →
  put_write id (kappa_text a content) content m = (m1, true) → txn_inv (put_account id content m1).
Proof.
  intros Hm Hr Hst Hdc Hper Hglob. unfold put_write.
  assert (dir_ok (staging_dir id m)) as Hdir.
  { unfold staging_dir. destruct (staging m !! id) as [d|] eqn:Hd; [|by intros p c].
    by destruct (ti_dirs _ Hm _ _ Hd). }
  destruct (staging_dir id m !! _) as [?|] eqn:Hnew; [done|]. intros [= <-]. rewrite write_staged by done.
  destruct Hm as [I1 I2 I3 I4 I5 I6 I7]. unfold put_account; cbn [staging active active_count total_staging_bytes].
  assert (alter (λ st, mkTxn (tx_ns st) (tx_created_at st) (tx_staging_bytes st + zlen content) (tx_dir_created st))
            id (active m)
          = <[id := mkTxn (tx_ns st) (tx_created_at st) (tx_staging_bytes st + zlen content) (tx_dir_created st)]>
              (active m)) as -> by (apply map_eq; intros i; destruct (decide (i = id)) as [->|];
    [by rewrite lookup_alter_eq, lookup_insert_eq, Hst|by rewrite lookup_alter_ne, lookup_insert_ne by done]).
  split; unfold staging_dir; cbn [staging active active_count total_staging_bytes]; try done; try lia.
  - rewrite map_size_insert_Some by eauto. done.
  - intros i st' [[<- <-]|[Hne Hi]]%lookup_insert_Some.
    + rewrite lookup_insert_eq. cbn. rewrite msum_insert by done. rewrite (I3 _ _ Hst). unfold staging_dir. lia.
    + rewrite lookup_insert_ne by done. by apply I3.
  - intros i st' [[<- <-]|[Hne Hi]]%lookup_insert_Some; [cbn; lia|by eapply I4].
  - rewrite (msum_update _ _ _ st) by done. cbn. lia.
  - intros i d [[<- <-]|[Hne Hi]]%lookup_insert_Some.
    + split; [|eexists; by rewrite lookup_insert_eq].
      intros p c [[<- <-]|[_ Hp]]%lookup_insert_Some; [by exists a|]. exact (Hdir _ _ Hp).
    + destruct (I7 _ _ Hi) as (Hok & st' & Hst' & Hc). split; [done|]. exists st'. by rewrite lookup_insert_ne.
Qed.

Lemma put_inv id kappa content m : txn_inv m → txn_inv (put id kappa content m).1.
Proof.
  intros Hm. unfold put. destruct (put_verify kappa content) as [[]|e|] eqn:Hv; [|done..].
  destruct (put_check id content m) as [[]|e|] eqn:Hc; [|done..].
  assert (∃ a, kappa = kappa_text a content ∧ hash_refused a content = false) as (a & -> & Hr).
  { apply verify_kappa_true. unfold put_verify in Hv. by destruct (verify_kappa _ _) as [[]| |]. }
  destruct (put_mkdir id m) as [m1 [[]|e|]] eqn:Hmk.
  - destruct (put_mkdir_inv _ _ _ Hm Hmk) as (Hm1 & Hdir & Htot & st & st1 & Hst & Hst1 & Hb & Hdc).
    unfold put_check in Hc. rewrite Hst in Hc. osimpl in Hc.
    destruct (Z.ltb_spec max_bytes_per_txn (tx_staging_bytes st + zlen content)); [done|].
    destruct (Z.ltb_spec max_bytes_global (total_staging_bytes m + zlen content)); [done|].
    destruct (put_write id (kappa_text a content) content m1) as [m2 []] eqn:Hw; cbn [fst].
    + by eapply put_write_inv; [exact Hm1|exact Hr|exact Hst1|exact Hdc|lia|lia|exact Hw].
    + unfold put_write in Hw. destruct (staging_dir id m1 !! _); [|done]. by injection Hw as <-.
  - unfold put_mkdir in Hmk. destruct (active m !! id) as [st|]; [|by injection Hmk as <- <-].
    by destruct (tx_dir_created st).
  - unfold put_mkdir in Hmk. destruct (active m !! id) as [st|]; [|done]. by destruct (tx_dir_created st).
Qed.

(** Ending a transaction gives its slot and its bytes back. *)
Lemma end_inv id st m : txn_inv m → active m !! id = Some st →
  txn_inv (cleanup id (drop_staging id (tx_staging_bytes st) m)).
Proof.
  intros Hm Hst. pose proof (tx_staging_nonneg m Hm) as Hnn.
  assert (0 ≤ msum tx_staging_bytes (delete id (active m))) as Hrest.
  { apply msum_nonneg_in. intros i st' [_ Hi]%lookup_delete_Some. by eapply Hnn. }
  destruct Hm as [I1 I2 I3 I4 I5 I6 I7]. specialize (Hnn _ _ Hst).
  rewrite (msum_delete _ _ _ _ Hst) in Hrest. unfold cleanup, drop_staging. cbn [active]. rewrite Hst.
  assert (0 < size (active m))%nat.
  { destruct (size (active m)) eqn:E; [|lia]. apply map_size_empty_inv in E. rewrite E in Hst. done. }
  assert (wrap 64 (total_staging_bytes m - tx_staging_bytes st) = total_staging_bytes m - tx_staging_bytes st) as Hw.
  { unfold wrap, u64_max in *. apply Z.mod_small. change (2 ^ 64) with 18446744073709551616. lia. }
  split; unfold staging_dir; cbn [staging active active_count total_staging_bytes]; rewrite ?Hw.
  - rewrite map_size_delete_Some by eauto. lia.
  - lia.
  - intros i st' [Hne Hi]%lookup_delete_Some. rewrite lookup_delete_ne by done. by apply I3.
  - intros i st' [Hne Hi]%lookup_delete_Some. by eapply I4.
  - rewrite (msum_delete _ _ _ _ Hst). lia.
  - lia.
  - intros i d [Hne Hi]%lookup_delete_Some. destruct (I7 _ _ Hi) as (Hok & st' & Hst' & Hc). split; [done|].
    exists st'. by rewrite lookup_delete_ne.
Qed.

Lemma abort_inv id m : txn_inv m → txn_inv (abort id m).1.
Proof.
  intros Hm. unfold abort. destruct (active m !! id) as [st|] eqn:Hst; [|done]. by apply end_inv.
Qed.

Lemma evict_inv now m : txn_inv m → txn_inv (evict_expired now m).1.
Proof.
  unfold evict_expired. cbn [fst]. generalize (fst <$> filter (λ e, txn_expired now e.2 = true) (map_to_list (active m))).
  intros ids. revert m. induction ids as [|i ids IH]; intros m Hm; [done|]. cbn [foldl]. by apply IH, abort_inv.
Qed.

(** Nothing was staged: the slot is free, and there were no bytes to give back. *)
Lemma cleanup_no_dir id st m : txn_inv m → active m !! id = Some st → tx_dir_created st = false →
  cleanup id m = cleanup id (drop_staging id (tx_staging_bytes st) m).
Proof.
  intros Hm Hst Hdc. assert (staging m !! id = None) as Hs.
  { apply eq_None_not_Some. intros [d Hd]. destruct (ti_dirs _ Hm _ _ Hd) as (_ & st' & Hst' & Hc). congruence. }
  assert (tx_staging_bytes st = 0) as Hz by (rewrite (ti_bytes _ Hm _ _ Hst); unfold staging_dir; by rewrite Hs).
  assert (wrap 64 (total_staging_bytes m) = total_staging_bytes m) as Hw.
  { pose proof (ti_total _ Hm). pose proof (ti_global _ Hm).
    assert (0 ≤ total_staging_bytes m).
    { rewrite (ti_total _ Hm). apply msum_nonneg_in, tx_staging_nonneg, Hm. }
    unfold wrap, u64_max in *. apply Z.mod_small. change (2 ^ 64) with 18446744073709551616. lia. }
  unfold cleanup, drop_staging. cbn [active active_count total_staging_bytes staging].
  rewrite Hst, Hz, Z.sub_0_r, Hw, (delete_id (staging m)) by done. done.
Qed.

Lemma commit_inv {St} `{KappaBlobs St} id m (s : St) : txn_inv m → txn_inv (commit id m s).1.1.
Proof.
  intros Hm. unfold commit. destruct (active m !! id) as [st|] eqn:Hst; [|done].
  destruct (tx_dir_created st) eqn:Hdc.
  - destruct (promote _ s) as [s' [l|e|]]; [|done..]. by apply end_inv.
  - cbn [fst]. rewrite (cleanup_no_dir id st m Hm Hst Hdc). by apply end_inv.
Qed.
End accounting.

(** * Promotion *)

Section promotion.
Context `{HashCratesLaws} `{TxnLimits}.

Lemma label_text_notin c a hex : valid_digits a hex →
  c ∉ axis_as_str a → c ≠ COLON → is_lower_hex c = false → c ∉ label_text a hex.
Proof.
  intros [_ Hh] Ha Hc Hx. unfold label_text. rewrite elem_of_app, elem_of_cons. intros [Hin|[Hin|Hin]]; [done..|].
  by apply (lower_hex_not c hex Hx Hh).
Qed.

Definition DOT : byte := x2e.

Lemma label_no_suffix suffix a hex : valid_digits a hex → DOT ∈ suffix → ends_with suffix (label_text a hex) = false.
Proof.
  intros Hv Hd. apply bool_decide_eq_false. intros [pre E].
  apply (label_text_notin DOT a hex Hv); [|done|done|rewrite E; set_solver].
  destruct a; apply (bool_decide_unpack _); vm_compute; done.
Qed.

Lemma staged_label_path a hex :
  valid_digits a hex → staged_label (blob_path_in (label_text a hex)) = Some (label_text a hex).
Proof.
  intros Hv. rewrite blob_path_in_label by done.
  assert (SLASH ∉ take 2 hex) as Hs.
  { apply lower_hex_not; [done|]. eapply forallb_sublist_of; [|exact (proj2 Hv)]. by rewrite subseteq_take. }
  assert (SLASH ∉ label_text a hex) as Hsl by (apply label_text_notin; [done|apply slash_notin_axis|done|done]).
  unfold staged_label.
  change (rs "blobs/" ++ axis_as_str a ++ rs "/" ++ take 2 hex ++ rs "/" ++ label_text a hex)
    with (rs "blobs" ++ SLASH :: (axis_as_str a ++ SLASH :: (take 2 hex ++ SLASH :: label_text a hex))).
  rewrite split_slash_app by (apply (bool_decide_unpack _); vm_compute; done).
  rewrite split_slash_app by apply slash_notin_axis. rewrite split_slash_app, split_slash_last by done. cbn [app].
  rewrite decide_True by done.
  rewrite !label_no_suffix by (done || (apply (bool_decide_unpack _); vm_compute; done)). cbn [orb].
  rewrite decide_True; [done|]. unfold label_text. set_solver.
Qed.

Lemma list_staged_elem dir k c : dir_ok dir →
  (k, c) ∈ list_staged_blobs dir ↔ dir !! blob_path_in k = Some c ∧ ∃ a, k = kappa_text a c ∧ hash_refused a c = false.
Proof.
  intros Hd. unfold list_staged_blobs. rewrite elem_of_sort_by, list_elem_of_omap. split.
  - intros ([p c'] & Hin%elem_of_map_to_list & E). destruct (Hd _ _ Hin) as (a & -> & Hr).
    unfold kappa_text in E. rewrite staged_label_path in E by apply digest_hex_valid.
    injection E as <- <-. split; [done|]. by exists a.
  - intros (Hin & a & -> & Hr). exists (blob_path_in (kappa_text a c), c).
    split; [by apply elem_of_map_to_list|]. unfold kappa_text. by rewrite staged_label_path by apply digest_hex_valid.
Qed.

Lemma staged_sorted dir : StronglySorted bytes_le (fst <$> list_staged_blobs dir).
Proof.
  assert (StronglySorted (λ a b, staged_le a b = true) (list_staged_blobs dir)) as Hs.
  { apply sort_by_sorted; unfold staged_le; intros; [apply bytes_leb_total|by eapply bytes_leb_trans]. }
  induction Hs as [|x l Hs IH Hx]; cbn; constructor; [done|]. apply Forall_fmap.
  by eapply Forall_impl; [exact Hx|].
Qed.

(** Promotion into any store that keeps the blob interface's promises. *)
Lemma promote_run {St} `{KappaBlobs St} `{!KappaBlobsLaws St} l (s : St) :
  store_inv s →
  (∀ k c, (k, c) ∈ l → (∃ a, k = kappa_text a c ∧ hash_refused a c = false) ∧
     ∀ a, a ∈ mandatory_axes → hash_refused a c = false) →
  ∃ s', promote l s = (s', Ok (fst <$> l)) ∧ store_inv s' ∧
    (∀ k c, (k, c) ∈ l → stored_under s' c k) ∧
    (∀ content k, stored_under s content k → stored_under s' content k).
Proof.
  revert s. induction l as [|[k c] l IH]; intros s Hs Hl; cbn [promote].
  { exists s. split_and!; [done..|set_solver|done]. }
  destruct (Hl k c) as [(a & -> & Hr) Hm]; [by left|].
  destruct (ingest_verified_spec a c s Hs Hr Hm) as (s1 & b & -> & Hs1 & Hst & Hkeep).
  destruct (IH s1 Hs1) as (s' & -> & Hs' & Hnew & Hkeep'); [intros; apply Hl; by right|].
  exists s'. split_and!; [done..| |].
  - intros k' c' [[= -> ->]|Hin]%elem_of_cons; [|by apply Hnew]. apply Hkeep', Hst. by left.
  - intros content k' Hk'. by apply Hkeep', Hkeep.
Qed.
End promotion.

(** The steps of [put] after its checks, on a fresh path of an open transaction. *)
Lemma put_rest `{HashCratesLaws} `{TxnLimits} id k c m st :
  active m !! id = Some st → dir_ok (staging_dir id m) → staging_dir id m !! blob_path_in k = None →
  ∃ m1 m2, put_mkdir id m = (m1, Ok ()) ∧ put_write id k c m1 = (m2, true) ∧
    let m3 := put_account id c m2 in
    total_staging_bytes m3 = total_staging_bytes m + zlen c ∧ is_Some (active m3 !! id) ∧
    staging_dir id m3 = <[blob_path_in k := c]> (staging_dir id m).
Proof.
  intros Hst Hd Hn.
  assert (∃ m1, put_mkdir id m = (m1, Ok ()) ∧ total_staging_bytes m1 = total_staging_bytes m ∧
    is_Some (active m1 !! id) ∧ staging_dir id m1 = staging_dir id m) as (m1 & Hmk & Ht & Ha & Hsd).
  { unfold put_mkdir. rewrite Hst. destruct (tx_dir_created st); eexists; (split; [done|]); [by rewrite Hst|].
    cbn [active total_staging_bytes]. unfold staging_dir. cbn [staging]. rewrite !lookup_insert_eq. eauto. }
  exists m1. unfold put_write. rewrite Hsd, Hn. eexists. split; [done|]. split; [done|]. cbv zeta.
  unfold put_account. cbn [total_staging_bytes active]. split; [by rewrite Ht|].
  split; [by rewrite lookup_alter_eq, fmap_is_Some|].
  unfold staging_dir at 1. cbn [staging]. rewrite lookup_insert_eq. cbn. by apply write_staged.
Qed.

(** Managers reachable by any sequence of complete calls; transaction ids are
    fresh. *)
Inductive txn_reach `{HashCrates} `{TxnLimits} (St : Type) `{KappaBlobs St} : manager → Prop :=
| reach_new : txn_reach St new_manager
| reach_begin id now ns m : txn_reach St m → active m !! id = None → txn_reach St (begin id now ns m).1
| reach_put id kappa content m : txn_reach St m → txn_reach St (put id kappa content m).1
| reach_commit id m (s : St) : txn_reach St m → txn_reach St (commit id m s).1.1
| reach_abort id m : txn_reach St m → txn_reach St (abort id m).1
| reach_evict now m : txn_reach St m → txn_reach St (evict_expired now m).1.

(** * Properties *)

(** C9: after any sequence of complete calls, each transaction's byte count is the
    total size of the files staged for it and within the per-transaction limit,
    the global count is the sum of these and within the global limit, the number
    of active transactions is counted exactly and within the maximum, and every
    staged file is content-addressed under an open transaction. *)
Theorem transaction_accounting `{HashCratesLaws} `{TxnLimits} (St : Type) `{KappaBlobs St} m
  (Husize : max_bytes_global ≤ u64_max) (Hm : txn_reach St m) :
  txn_inv m.
Proof.
  induction Hm; [apply new_manager_inv|by apply begin_inv|by apply put_inv|by apply commit_inv
    |by apply abort_inv|by apply evict_inv].
Qed.

(** Committing an open transaction into any store that keeps the promises of
    the blob interface succeeds: every staged blob is promoted, in label order,
    and can be read under its label, blobs that were there stay, and the
    transaction is closed with its staging directory gone. *)
Theorem commit_promotes_all {St} `{HashCratesLaws} `{TxnLimits} `{KappaBlobs St} `{!KappaBlobsLaws St}
  id m (s : St) st
  (Hm : txn_inv m) (Hst : active m !! id = Some st) (Hs : store_inv s)
  (Hr : ∀ p c a, staging_dir id m !! p = Some c → a ∈ mandatory_axes → hash_refused a c = false) :
  ∃ m' s' promoted, commit id m s = (m', s', Ok promoted) ∧
    active m' = delete id (active m) ∧ staging m' !! id = None ∧
    StronglySorted bytes_le promoted ∧ store_inv s' ∧
    (∀ k c, staging_dir id m !! blob_path_in k = Some c → (∃ a, k = kappa_text a c) →
       k ∈ promoted ∧ stored_under s' c k) ∧
    (∀ content k, stored_under s content k → stored_under s' content k).
Proof.
  assert (dir_ok (staging_dir id m)) as Hdir.
  { unfold staging_dir. destruct (staging m !! id) as [d|] eqn:Hd; [|by intros p c].
    by destruct (ti_dirs _ Hm _ _ Hd). }
  unfold commit. rewrite Hst. destruct (tx_dir_created st) eqn:Hdc.
  - destruct (promote_run (list_staged_blobs (staging_dir id m)) s Hs) as (s' & -> & Hs' & Hnew & Hkeep).
    { intros k c [Hin Ha]%list_staged_elem; [|done]. split; [done|]. intros a Hax. by eapply Hr. }
    eexists _, s', _. split; [reflexivity|]. unfold cleanup, drop_staging. cbn [active]. rewrite Hst.
    cbn [active staging]. rewrite lookup_delete_eq. split_and!; [done|done| |done| |done].
    + apply staged_sorted.
    + intros k c Hin Ha. assert ((k, c) ∈ list_staged_blobs (staging_dir id m)) as Hk.
      { apply list_staged_elem; [done|]. split; [done|]. destruct (Hdir _ _ Hin) as (b & E & Hb). exists b.
        split; [|done]. destruct Ha as [a ->].
        apply (f_equal staged_label) in E. unfold kappa_text in *.
        rewrite !staged_label_path in E by apply digest_hex_valid. by injection E. }
      split; [exact (list_elem_of_fmap_2 fst _ _ Hk)|by apply Hnew].
  - assert (staging m !! id = None) as Hns.
    { apply eq_None_not_Some. intros [d Hd]. destruct (ti_dirs _ Hm _ _ Hd) as (_ & st' & Hst' & Hc). congruence. }
    eexists _, s, []. split; [reflexivity|]. unfold cleanup. rewrite Hst. cbn [active staging].
    split_and!; [done|done|constructor|done| |done].
    intros k c. unfold staging_dir. by rewrite Hns.
Qed.

(** The limits are checked before, and counted after, the write, under
    separate locks: two concurrent puts that each fit can both pass the check
    and together take the global count over its limit. *)
Theorem put_race_overshoots `{HashCratesLaws} `{TxnLimits} id a1 a2 c1 c2 m st
  (Hm : txn_inv m) (Hst : active m !! id = Some st)
  (Hr1 : hash_refused a1 c1 = false) (Hr2 : hash_refused a2 c2 = false)
  (Hne : kappa_text a1 c1 ≠ kappa_text a2 c2)
  (Hn1 : staging_dir id m !! blob_path_in (kappa_text a1 c1) = None)
  (Hn2 : staging_dir id m !! blob_path_in (kappa_text a2 c2) = None)
  (Hc1 : put_check id c1 m = Ok ()) (Hc2 : put_check id c2 m = Ok ())
  (Hover : max_bytes_global < total_staging_bytes m + zlen c1 + zlen c2) :
  ∃ m' t1 t2,
    run_schedule [0; 1; 0; 0; 0; 1; 1; 1]%nat
      [mkThread id (kappa_text a1 c1) c1 PutCheck; mkThread id (kappa_text a2 c2) c2 PutCheck] m = (m', [t1; t2]) ∧
    th_pc t1 = PutDone (Ok true) ∧ th_pc t2 = PutDone (Ok true) ∧
    max_bytes_global < total_staging_bytes m'.
Proof.
  assert (put_verify (kappa_text a1 c1) c1 = Ok () ∧ put_verify (kappa_text a2 c2) c2 = Ok ()) as [Hv1 Hv2].
  { unfold put_verify. by rewrite !(proj2 (verify_kappa_true _ _)) by eauto. }
  cbn [run_schedule lookup list_lookup insert list_insert]. cbn [put_step th_txn th_kappa th_content th_pc].
  rewrite Hv1, Hc1. cbn [run_schedule lookup list_lookup insert list_insert put_step th_txn th_kappa th_content th_pc].
  rewrite Hv2, Hc2. cbn [run_schedule lookup list_lookup insert list_insert put_step th_txn th_kappa th_content th_pc].
  assert (dir_ok (staging_dir id m)) as Hdir.
  { unfold staging_dir. destruct (staging m !! id) as [d|] eqn:Hd; [|by intros p c].
    by destruct (ti_dirs _ Hm _ _ Hd). }
  destruct (put_rest id (kappa_text a1 c1) c1 m st Hst Hdir Hn1) as (m1 & m2 & -> & Hw & Ht & [st2 Ha] & Hsd).
  cbn [put_step]. rewrite Hw. cbn [put_step]. set (m3 := put_account id c1 m2) in *.
  destruct (put_rest id (kappa_text a2 c2) c2 m3 st2 Ha) as (m4 & m5 & -> & Hw' & Ht' & _ & _).
  { rewrite Hsd. intros p c [[<- <-]|[_ Hp]]%lookup_insert_Some; [by exists a1|by apply Hdir]. }
  { rewrite Hsd, lookup_insert_ne; [done|]. intros E. apply (f_equal staged_label) in E. unfold kappa_text in *.
    rewrite !staged_label_path in E by apply digest_hex_valid. by injection E. }
  cbn [put_step]. rewrite Hw'. cbn [put_step]. eexists _, _, _. split; [reflexivity|]. split_and!; [done..|]. lia.
Qed.

(** * Witnesses *)

#[export] Instance sample_limits : TxnLimits :=
  {| max_concurrent := 4; max_bytes_per_txn := 10; max_bytes_global := 10; txn_timeout_secs := 60 |}.

Definition sample_txn : manager := (begin (rs "t") 0 (rs "n") new_manager).1.
Definition sample_staged : manager := (put (rs "t") (kappa_text Sha256 (rs "hello")) (rs "hello") sample_txn).1.

Lemma sample_txn_inv : txn_inv sample_txn.
Proof. apply begin_inv; [apply new_manager_inv|reflexivity]. Qed.

Lemma transaction_accounting_witness :
  txn_inv sample_staged ∧ total_staging_bytes sample_staged = 5.
Proof.
  split; [|vm_compute; reflexivity].
  apply (transaction_accounting store sample_staged); [discriminate|].
  apply reach_put, reach_begin; [apply reach_new|reflexivity].
Defined.

Lemma commit_promotes_all_witness :
  ∃ m' s' promoted, commit (rs "t") sample_staged empty_store = (m', s', Ok promoted) ∧
    kappa_text Sha256 (rs "hello") ∈ promoted ∧
    stored_under s' (rs "hello") (kappa_text Sha256 (rs "hello")).
Proof.
  assert (store_inv empty_store) as Hs by (intros p c Hp; discriminate Hp).
  assert (txn_inv sample_staged) as Hm by (apply put_inv; exact sample_txn_inv).
  destruct (commit_promotes_all (rs "t") sample_staged empty_store (mkTxn (rs "n") 0 5 true) Hm)
    as (m' & s' & promoted & Hc & _ & _ & _ & _ & Hall & _).
  - vm_compute. reflexivity.
  - exact Hs.
  - intros p c a _ Ha. apply list_elem_of_singleton in Ha as ->. reflexivity.
  - exists m', s', promoted. split; [exact Hc|].
    apply (Hall (kappa_text Sha256 (rs "hello")) (rs "hello")); [vm_compute; reflexivity|].
    exists Sha256. reflexivity.
Defined.

Lemma put_race_overshoots_witness :
  ∃ m' t1 t2,
    run_schedule [0; 1; 0; 0; 0; 1; 1; 1]%nat
      [mkThread (rs "t") (kappa_text Sha256 (rs "aaaaaa")) (rs "aaaaaa") PutCheck;
       mkThread (rs "t") (kappa_text Sha256 (rs "bbbbbb")) (rs "bbbbbb") PutCheck] sample_txn = (m', [t1; t2]) ∧
    10 < total_staging_bytes m'.
Proof.
  destruct (put_race_overshoots (rs "t") Sha256 Sha256 (rs "aaaaaa") (rs "bbbbbb") sample_txn
    (mkTxn (rs "n") 0 0 false) sample_txn_inv) as (m' & t1 & t2 & Hrun & _ & _ & Hlt);
    [vm_compute; reflexivity|reflexivity|reflexivity|vm_compute; discriminate|vm_compute; reflexivity
    |vm_compute; reflexivity|vm_compute; reflexivity|vm_compute; reflexivity|vm_compute; reflexivity|].
  exists m', t1, t2. split; [exact Hrun|exact Hlt].
Defined.
