(* ===== verification/Events.v ===== *)
(** Events: the bounded event log, [kappa-core/src/events.rs].

    [emit] draws a sequence number from an atomic counter before it takes the
    lock on the log; [draw] and [append] are these two steps, so that
    interleavings of concurrent emitters are schedules of them.  The abstract
    specification is the history of all events of a namespace: the log keeps a
    suffix of it. *)

From S2P Require Import Prelude.

Definition MAX_EVENTS_PER_NAMESPACE : Z := 10000.

Inductive TagEventOp := OpSet | OpDel | OpSetIf | OpBatchItem | OpSymbolic.

Definition event_op_as_str (op : TagEventOp) : rstr :=
  match op with
  | OpSet => rs "tag_set"
  | OpDel => rs "tag_delete"
  | OpSetIf => rs "tag_set_if"
  | OpBatchItem => rs "tag_batch_item"
  | OpSymbolic => rs "tag_symbolic"
  end.

Record TagEvent := mkEvent {
  ev_namespace : rstr;
  ev_name : rstr;
  ev_value : option rstr;
  ev_prev_value : option rstr;
  ev_epoch : Z;
  ev_mtime_ms : Z;
  ev_operation : TagEventOp;
  ev_sequence : Z;
}.

Record event_log := mkLog { log : gmap rstr (list TagEvent); next_sequence : Z }.

Definition new_log : event_log := mkLog ∅ 1.

Definition with_sequence (n : Z) (e : TagEvent) : TagEvent :=
  mkEvent (ev_namespace e) (ev_name e) (ev_value e) (ev_prev_value e) (ev_epoch e) (ev_mtime_ms e)
    (ev_operation e) n.

Definition ns_events (namespace : rstr) (l : event_log) : list TagEvent := default [] (log l !! namespace).

(** [self.sequence.fetch_add(1)]. *)
Definition draw (l : event_log) : event_log * Z :=
  (mkLog (log l) (wrap 64 (next_sequence l + 1)), next_sequence l).

(** Under the lock: evict the oldest at capacity, then push. *)
Definition append (e : TagEvent) (l : event_log) : event_log :=
  let events := ns_events (ev_namespace e) l in
  let events := if MAX_EVENTS_PER_NAMESPACE <=? zlen events then tail events else events in
  mkLog (<[ev_namespace e := events ++ [e]]> (log l)) (next_sequence l).

Definition emit (e : TagEvent) (l : event_log) : event_log :=
  let '(l, n) := draw l in append (with_sequence n e) l.

Definition recent (namespace : rstr) (limit : nat) (l : event_log) : list TagEvent :=
  take limit (reverse (ns_events namespace l)).

Definition since_sequence (namespace : rstr) (after : Z) (l : event_log) : list TagEvent :=
  filter (λ e, after < ev_sequence e) (ns_events namespace l).

Definition compact (retain_after : Z) (l : event_log) : event_log * Z :=
  let retain := filter (λ e, retain_after < ev_sequence e) in
  (mkLog (retain <$> log l) (next_sequence l),
   map_fold (λ _ events removed, removed + (zlen events - zlen (retain events))) 0 (log l)).

Definition oldest_sequence (l : event_log) : Z :=
  match omap (λ e : rstr * list TagEvent, ev_sequence <$> head e.2) (map_to_list (log l)) with
  | [] => 0
  | x :: rest => foldr Z.min x rest
  end.

(** * Refinement of the full history *)

Inductive log_op := Emit (e : TagEvent) | Compact (retain_after : Z).

Definition run_log_op (op : log_op) (l : event_log) : event_log :=
  match op with
  | Emit e => emit e l
  | Compact n => (compact n l).1
  end.

(** The abstract state: every event ever emitted, numbered from one. *)
Definition record_op (op : log_op) (history : list TagEvent) : list TagEvent :=
  match op with
  | Emit e => history ++ [with_sequence (zlen history + 1) e]
  | Compact _ => history
  end.

Definition ns_history (namespace : rstr) (history : list TagEvent) : list TagEvent :=
  filter (λ e, ev_namespace e = namespace) history.

(** The log holds, for each namespace, a suffix of its history, within bounds. *)
Record log_refines (history : list TagEvent) (l : event_log) : Prop := {
  lr_next : next_sequence l = zlen history + 1;
  lr_numbers : ev_sequence <$> history = seqZ 1 (zlen history);
  lr_suffix : ∀ ns, ns_events ns l `suffix_of` ns_history ns history;
  lr_bound : ∀ ns, zlen (ns_events ns l) ≤ MAX_EVENTS_PER_NAMESPACE;
}.

Lemma new_log_refines : log_refines [] new_log.
Proof. by split. Qed.

(** Sequence numbers increase along the history. *)
Definition increasing (l : list TagEvent) : Prop := StronglySorted (λ a b, ev_sequence a < ev_sequence b) l.

Lemma seqZ_increasing l m : ev_sequence <$> l = seqZ m (zlen l) → increasing l.
Proof.
  revert m. induction l as [|e l IH]; intros m E; [constructor|]. cbn [length] in E.
  rewrite Nat2Z.inj_succ, seqZ_cons, Z.pred_succ in E by lia. injection E as E1 E2.
  change (ev_sequence <$> l = seqZ (Z.succ m) (zlen l)) in E2. constructor; [by eapply IH|].
  apply Forall_forall. intros x Hx. assert (ev_sequence x ∈ ev_sequence <$> l) as Hin by by apply list_elem_of_fmap_2.
  rewrite E2 in Hin. apply elem_of_seqZ in Hin. lia.
Qed.

Lemma increasing_sublist l k : l `sublist_of` k → increasing k → increasing l.
Proof.
  intros Hs. induction Hs as [|x l k Hs IH|x l k Hs IH]; intros Hk; [constructor|..];
    apply StronglySorted_inv in Hk as [Hk Hx]; [|by apply IH].
  constructor; [by apply IH|]. rewrite Forall_forall in *. intros y Hy. apply Hx. by eapply sublist_subseteq.
Qed.

(** Keeping the numbers above a bound of an increasing list keeps a suffix. *)
Lemma increasing_filter_suffix n l : increasing l → filter (λ e, n < ev_sequence e) l `suffix_of` l.
Proof.
  induction l as [|x l IH]; intros Hl; [done|]. apply StronglySorted_inv in Hl as [Hl Hx].
  destruct (decide (n < ev_sequence x)) as [Hn|Hn].
  - rewrite filter_cons_True by done. rewrite list_filter_all; [done|].
    rewrite Forall_forall in Hx. intros y Hy. specialize (Hx y Hy). lia.
  - rewrite filter_cons_False by done. apply suffix_cons_r, IH, Hl.
Qed.

Lemma suffix_sublist {A} (l k : list A) : l `suffix_of` k → l `sublist_of` k.
Proof. intros [pre ->]. by apply sublist_inserts_l. Qed.

Lemma refines_increasing history l ns : log_refines history l → increasing (ns_events ns l).
Proof.
  intros Hr. eapply increasing_sublist; [apply suffix_sublist, (lr_suffix _ _ Hr)|].
  eapply increasing_sublist; [apply sublist_filter|]. eapply seqZ_increasing, lr_numbers, Hr.
Qed.

Lemma ns_events_insert ns ns' events m n :
  ns_events ns (mkLog (<[ns' := events]> m) n) = if decide (ns = ns') then events else ns_events ns (mkLog m n).
Proof.
  unfold ns_events. cbn [log]. case_decide as E; [subst; by rewrite lookup_insert_eq|by rewrite lookup_insert_ne].
Qed.

Lemma emit_refines history l e :
  log_refines history l → zlen history + 1 < u64_max → log_refines (record_op (Emit e) history) (emit e l).
Proof.
  intros [I1 I2 I3 I4] Hb. cbn [record_op]. unfold emit, draw, append. cbn [next_sequence log].
  rewrite I1. split; cbn [next_sequence].
  - rewrite length_app. cbn [length]. unfold wrap. unfold u64_max in Hb.
    rewrite Z.mod_small; [lia|]. change (2 ^ 64) with 18446744073709551616. lia.
  - rewrite fmap_app, I2, length_app. cbn [length fmap list_fmap with_sequence ev_sequence].
    replace (Z.of_nat (length history + 1)) with (zlen history + 1) by lia.
    rewrite seqZ_app by lia. f_equal. rewrite seqZ_cons by lia. rewrite seqZ_nil by lia. f_equal. lia.
  - intros ns. unfold ns_history. rewrite filter_app, ns_events_insert. cbn [with_sequence ev_namespace].
    fold (ns_history ns history). case_decide as E.
    + subst ns. rewrite filter_cons_True by done. cbn [filter list_filter]. apply suffix_app.
      destruct (Z.leb_spec MAX_EVENTS_PER_NAMESPACE
        (zlen (ns_events (ev_namespace e) (mkLog (log l) (wrap 64 (zlen history + 1 + 1)))))); [|apply I3].
      etrans; [|apply (I3 (ev_namespace e))]. unfold ns_events. cbn [log].
      destruct (default [] (log l !! ev_namespace e)); [done|by eexists [_]].
    + rewrite filter_cons_False by (cbn; congruence). cbn [filter list_filter]. rewrite app_nil_r. apply I3.
  - intros ns. rewrite ns_events_insert. case_decide as E; [|apply I4]. rewrite length_app. cbn [length].
    destruct (Z.leb_spec MAX_EVENTS_PER_NAMESPACE
      (zlen (ns_events (ev_namespace (with_sequence (zlen history + 1) e))
               (mkLog (log l) (wrap 64 (zlen history + 1 + 1)))))) as [Hge|Hlt]; [|lia].
    specialize (I4 (ev_namespace e)). unfold ns_events in *. cbn [log with_sequence ev_namespace] in *.
    destruct (default [] (log l !! ev_namespace e)) as [|x t]; cbn [tail length] in *;
      unfold MAX_EVENTS_PER_NAMESPACE in *; lia.
Qed.

Lemma compact_refines history l n : log_refines history l → log_refines history (compact n l).1.
Proof.
  intros Hr. assert (∀ ns, ns_events ns (compact n l).1 = filter (λ e, n < ev_sequence e) (ns_events ns l)) as Hns.
  { intros ns. unfold ns_events, compact. cbn [fst log]. rewrite lookup_fmap. by destruct (log l !! ns). }
  split; [apply Hr|apply Hr| |].
  - intros ns. rewrite Hns. etrans; [|apply (lr_suffix _ _ Hr)]. by apply increasing_filter_suffix, (refines_increasing history).
  - intros ns. rewrite Hns. pose proof (lr_bound _ _ Hr ns).
    pose proof (length_filter (λ e, n < ev_sequence e) (ns_events ns l)). lia.
Qed.

Lemma increasing_app_disjoint pre l e : increasing (pre ++ l) → e ∈ pre → e ∉ l.
Proof.
  induction pre as [|x pre IH]; intros Hs He; [set_solver|]. cbn in Hs. apply StronglySorted_inv in Hs as [Hs Hx].
  apply elem_of_cons in He as [->|He]; [|by apply IH]. rewrite Forall_forall in Hx. intros Hl.
  specialize (Hx x ltac:(set_solver)). lia.
Qed.

Fixpoint run_ops (ops : list log_op) (l : event_log) : event_log :=
  match ops with [] => l | op :: ops => run_ops ops (run_log_op op l) end.
Fixpoint record_ops (ops : list log_op) (h : list TagEvent) : list TagEvent :=
  match ops with [] => h | op :: ops => record_ops ops (record_op op h) end.

Lemma run_ops_refines ops h l :
  log_refines h l → zlen h + zlen ops + 1 < u64_max → log_refines (record_ops ops h) (run_ops ops l).
Proof.
  revert h l. induction ops as [|op ops IH]; intros h l Hr Hb; [done|]. cbn [run_ops record_ops]. cbn [length] in Hb.
  apply IH; destruct op as [e|n]; cbn [run_log_op record_op].
  - apply emit_refines; [done|lia].
  - by apply compact_refines.
  - rewrite length_app. cbn [length]. lia.
  - lia.
Qed.

(** * Properties *)


Definition sample_event (ns name : rstr) : TagEvent := mkEvent ns name None None 1 0 OpSet 0.


(** Two emitters that interleave between drawing a number and appending lose
    an event for a client that follows the log: the client sees the later number
    first, and asking for what comes after it never returns the other event,
    which is in the log all the same. *)
Theorem emit_race_skips_event e1 e2 l
  (Hns : ev_namespace e1 = ev_namespace e2) (Hroom : zlen (ns_events (ev_namespace e1) l) + 1 < MAX_EVENTS_PER_NAMESPACE)
  (Hseq : 0 ≤ next_sequence l ∧ next_sequence l + 1 < u64_max) :
  let '(l1, n1) := draw l in
  let '(l2, n2) := draw l1 in
  let seen_at := append (with_sequence n2 e2) l2 in
  let final := append (with_sequence n1 e1) seen_at in
  with_sequence n2 e2 ∈ since_sequence (ev_namespace e1) n1 seen_at ∧
  with_sequence n1 e1 ∈ ns_events (ev_namespace e1) final ∧
  with_sequence n1 e1 ∉ since_sequence (ev_namespace e1) n2 final ∧
  ns_events (ev_namespace e1) final
  = ns_events (ev_namespace e1) l ++ [with_sequence n2 e2; with_sequence n1 e1].
Proof.
  unfold draw. cbn [log next_sequence].
  assert (wrap 64 (next_sequence l + 1) = next_sequence l + 1) as ->.
  { unfold wrap, u64_max in *. apply Z.mod_small. change (2 ^ 64) with 18446744073709551616. lia. }
  set (n := next_sequence l) in *. set (m := wrap 64 _).
  assert (ns_events (ev_namespace e1) (append (with_sequence (n + 1) e2) (mkLog (log l) m))
          = ns_events (ev_namespace e1) l ++ [with_sequence (n + 1) e2]) as E1.
  { unfold append. cbn [log with_sequence ev_namespace]. rewrite ns_events_insert, decide_True by done.
    rewrite <- Hns. f_equal. destruct (Z.leb_spec MAX_EVENTS_PER_NAMESPACE (zlen (ns_events (ev_namespace e1) (mkLog (log l) m)))) as [Hle|]; [|done].
    unfold ns_events in *. cbn [log] in *. lia. }
  assert (ns_events (ev_namespace e1)
            (append (with_sequence n e1) (append (with_sequence (n + 1) e2) (mkLog (log l) m)))
          = ns_events (ev_namespace e1) l ++ [with_sequence (n + 1) e2; with_sequence n e1]) as E2.
  { unfold append at 1. cbn [with_sequence ev_namespace]. rewrite ns_events_insert, decide_True by done.
    rewrite E1. destruct (Z.leb_spec MAX_EVENTS_PER_NAMESPACE
      (zlen (ns_events (ev_namespace e1) l ++ [with_sequence (n + 1) e2]))) as [Hle|].
    - rewrite length_app in Hle. cbn [length] in Hle. lia.
    - by rewrite <- app_assoc. }
  unfold since_sequence. rewrite E1, E2. split_and!.
  - apply list_elem_of_filter. cbn [with_sequence ev_sequence]. split; [lia|set_solver].
  - set_solver.
  - rewrite list_elem_of_filter. cbn [with_sequence ev_sequence]. lia.
  - done.
Qed.

Lemma emit_race_skips_event_witness :
  with_sequence 1 (sample_event (rs "a") (rs "x"))
    ∉ since_sequence (rs "a") 2
        (append (with_sequence 1 (sample_event (rs "a") (rs "x")))
           (append (with_sequence 2 (sample_event (rs "a") (rs "y"))) (mkLog ∅ 3))).
Proof.
  apply (emit_race_skips_event (sample_event (rs "a") (rs "x")) (sample_event (rs "a") (rs "y")) new_log);
    [reflexivity|vm_compute; reflexivity|split; vm_compute; [discriminate|reflexivity]].
Defined.
