(* ===== verification/Clock.v ===== *)
(** Clock: the hybrid clock [kappa-core/src/clock/ntp_lamport.rs] and the cluster
    membership [kappa-core/src/membership.rs]. *)

From S2P Require Import Prelude.

(** * The hybrid clock *)

Record ClockState := mkClock { last_physical_ms : Z; logical : Z }.

Definition new_clock : ClockState := mkClock 0 0.

(** [now_ms] when the system clock reads [physical]; the [u32] counter panics
    when it overflows. *)
Definition now_ms (physical : Z) (st : ClockState) : ClockState * outcome unit Z :=
  let encode st := Z.lor (wrap 64 (Z.shiftl (last_physical_ms st) 16)) (Z.land (logical st) 0xFFFF) in
  if last_physical_ms st <? physical then
    let st := mkClock physical 0 in (st, Ok (encode st))
  else if logical st =? u32_max then (st, Panic)
  else
    let st := mkClock (last_physical_ms st) (logical st + 1) in (st, Ok (encode st)).

(** The timestamps of consecutive calls, given the readings of the system clock. *)
Fixpoint readings (physicals : list Z) (st : ClockState) : list Z :=
  match physicals with
  | [] => []
  | p :: ps => match now_ms p st with (st', Ok t) => t :: readings ps st' | _ => [] end
  end.

(** Physical time fits in 48 bits, the counter in 16. *)
Definition clock_fits (st : ClockState) : Prop :=
  0 ≤ last_physical_ms st < 2 ^ 48 ∧ 0 ≤ logical st < 2 ^ 16.

Definition stamp (st : ClockState) : Z := last_physical_ms st * 2 ^ 16 + logical st.

Lemma encode_stamp st : clock_fits st →
  Z.lor (wrap 64 (Z.shiftl (last_physical_ms st) 16)) (Z.land (logical st) 0xFFFF) = stamp st.
Proof.
  intros [Hp Hl]. unfold stamp, wrap. rewrite Z.shiftl_mul_pow2 by lia.
  change 0xFFFF with (Z.ones 16). rewrite Z.land_ones by lia. rewrite (Z.mod_small (logical st)) by done.
  rewrite Z.mod_small by (change (2 ^ 64) with (2 ^ 48 * 2 ^ 16); nia).
  rewrite <- Z.add_lor_land. assert (Z.land (last_physical_ms st * 2 ^ 16) (logical st) = 0) as ->; [|lia].
  apply Z.bits_inj'. intros n Hn. rewrite Z.land_spec, Z.bits_0. destruct (Z.lt_ge_cases n 16).
  - by rewrite Z.mul_pow2_bits_low.
  - destruct (Z.eq_dec (logical st) 0) as [->|Hnz]; [by rewrite Z.bits_0, andb_false_r|].
    rewrite (Z.bits_above_log2 (logical st)), andb_false_r; [done|lia|].
    assert (Z.log2 (logical st) < 16); [|lia]. apply Z.log2_lt_pow2; lia.
Qed.

(** One call: while the counter has room the stamp grows. *)
Lemma now_ms_step p st :
  clock_fits st → p < 2 ^ 48 → (p ≤ last_physical_ms st → logical st + 1 < 2 ^ 16) →
  ∃ st', now_ms p st = (st', Ok (stamp st')) ∧ clock_fits st' ∧ stamp st < stamp st' ∧
    last_physical_ms st' = Z.max p (last_physical_ms st) ∧
    logical st' = if last_physical_ms st <? p then 0 else logical st + 1.
Proof.
  intros [Hp Hl] Hp' Hroom. unfold now_ms. destruct (Z.ltb_spec (last_physical_ms st) p) as [Hlt|Hge].
  - exists (mkClock p 0). assert (clock_fits (mkClock p 0)) as Hf by (unfold clock_fits; cbn; lia).
    rewrite (encode_stamp _ Hf). split_and!; [done|done| |cbn; lia|done]. unfold stamp. cbn [last_physical_ms logical].
    change (2 ^ 16) with 65536 in *. lia.
  - unfold u32_max. change (2 ^ 16) with 65536 in *. specialize (Hroom Hge).
    destruct (Z.eqb_spec (logical st) 4294967295); [lia|].
    set (st' := mkClock (last_physical_ms st) (logical st + 1)).
    assert (clock_fits st') as Hf by (unfold clock_fits, st'; cbn [last_physical_ms logical]; change (2 ^ 16) with 65536; lia).
    exists st'. rewrite (encode_stamp _ Hf). split_and!; [done|done| |cbn; lia|done].
    unfold stamp, st'. cbn [last_physical_ms logical]. lia.
Qed.

(** * Membership *)

Inductive MemberRole := Voter | Learner.

#[export] Instance MemberRole_eq_dec : EqDecision MemberRole.
Proof. solve_decision. Defined.

Record MemberRecord := mkMember {
  mr_anchor : rstr;
  mr_endpoint : rstr;
  mr_joined_at_ms : Z;
  mr_role : MemberRole;
}.

Record MembershipState := mkMembership { members : list MemberRecord; ms_epoch : Z }.

Definition new_membership : MembershipState := mkMembership [] 0.

Definition voters (m : MembershipState) : list MemberRecord := filter (λ r, mr_role r = Voter) (members m).
Definition voter_count (m : MembershipState) : nat := length (voters m).
Definition quorum_size (m : MembershipState) : nat := (voter_count m / 2 + 1)%nat.

Definition is_member (anchor : rstr) (m : MembershipState) : bool :=
  existsb (λ r, bool_decide (mr_anchor r = anchor)) (members m).

(** The epoch is a [u64]; incrementing it past its maximum panics. *)
Definition next_epoch (e : Z) : outcome unit Z := if decide (e = u64_max) then Panic else Ok (e + 1).

Definition add_member (record : MemberRecord) (m : MembershipState) : outcome unit MembershipState :=
  if is_member (mr_anchor record) m then Ok m
  else epoch ← next_epoch (ms_epoch m); Ok (mkMembership (members m ++ [record]) epoch).

Definition remove_member (anchor : rstr) (m : MembershipState) : outcome unit MembershipState :=
  let kept := filter (λ r, mr_anchor r ≠ anchor) (members m) in
  if decide (length kept < length (members m))%nat then
    epoch ← next_epoch (ms_epoch m); Ok (mkMembership kept epoch)
  else Ok (mkMembership kept (ms_epoch m)).

(** Each anchor is listed once. *)
Definition membership_wf (m : MembershipState) : Prop := NoDup (mr_anchor <$> members m).

Inductive membership_reach : MembershipState → Prop :=
| mreach_new : membership_reach new_membership
| mreach_add r m m' : membership_reach m → add_member r m = Ok m' → membership_reach m'
| mreach_remove a m m' : membership_reach m → remove_member a m = Ok m' → membership_reach m'.

Lemma is_member_spec a m : is_member a m = true ↔ a ∈ mr_anchor <$> members m.
Proof.
  unfold is_member. rewrite existsb_exists, list_elem_of_fmap. split.
  - intros (r & Hr & E%bool_decide_eq_true). exists r. split; [done|]. by apply list_elem_of_In.
  - intros (r & -> & Hr). exists r. split; [by apply list_elem_of_In|]. by apply bool_decide_eq_true.
Qed.

Lemma membership_reach_wf m : membership_reach m → membership_wf m.
Proof.
  induction 1 as [|r m m' _ IH Hadd|a m m' _ IH Hrem]; unfold membership_wf in *; [constructor|..].
  - unfold add_member in Hadd. destruct (is_member (mr_anchor r) m) eqn:Hm; [by injection Hadd as <-|].
    destruct (next_epoch _); [|done..]. injection Hadd as <-. cbn [members]. rewrite fmap_app.
    apply NoDup_app. split; [done|]. split; [|apply NoDup_singleton].
    intros x Hx ->%list_elem_of_singleton. apply is_member_spec in Hx. congruence.
  - unfold remove_member in Hrem.
    assert (NoDup (mr_anchor <$> filter (λ r, mr_anchor r ≠ a) (members m))) as Hnd.
    { eapply sublist_NoDup; [exact IH|apply fmap_sublist, sublist_filter]. }
    case_decide; [destruct (next_epoch _); [|done..]|]; by injection Hrem as <-.
Qed.

(** * Properties *)

(** While the system clock reads below 2^48 and stalls or steps back for
    fewer than 65,535 calls in a row, the clock's timestamps strictly increase,
    whatever the system clock does. *)
Theorem clock_monotonic ps st
  (Hfit : clock_fits st) (Hp : ∀ p, p ∈ ps → p < 2 ^ 48)
  (Hroom : logical st + zlen ps < 2 ^ 16) :
  length (readings ps st) = length ps ∧ StronglySorted Z.lt (stamp st :: readings ps st).
Proof.
  revert st Hfit Hroom. induction ps as [|p ps IH]; intros st Hfit Hroom; cbn [readings].
  { split; [done|]. repeat constructor. }
  cbn [length] in Hroom. destruct (now_ms_step p st Hfit) as (st' & -> & Hfit' & Hlt & _ & Hl'); [set_solver|lia|].
  destruct (IH ltac:(set_solver) st' Hfit') as [Hlen Hs].
  { rewrite Hl'. destruct Hfit as [_ [Hl0 _] ]. destruct (last_physical_ms st <? p); lia. }
  split; [cbn; lia|]. constructor; [exact Hs|].
  apply StronglySorted_inv in Hs as [_ Hall]. constructor; [done|].
  eapply Forall_impl; [exact Hall|]. intros x Hx. cbn in Hx. lia.
Qed.

Lemma clock_monotonic_witness :
  StronglySorted Z.lt (stamp new_clock :: readings [1700000000000; 1700000000000; 1600000000000] new_clock).
Proof.
  apply (clock_monotonic [1700000000000; 1700000000000; 1600000000000] new_clock).
  - split; split; vm_compute; discriminate || reflexivity.
  - intros p Hp. repeat (apply elem_of_cons in Hp as [->|Hp]; [reflexivity|]). apply elem_of_nil in Hp. destruct Hp.
  - reflexivity.
Defined.

(** At the 65,536th call within one millisecond the masked counter wraps and
    the timestamp goes back by 65,535, although the counter itself has room. *)
Theorem clock_wraps_backwards p phys
  (Hphys : 0 ≤ phys < 2 ^ 48) (Hp : p ≤ phys) :
  let st := mkClock phys 0xFFFF in
  ∃ st', now_ms p st = (st', Ok (stamp st - 0xFFFF)) ∧ logical st' = 0x10000.
Proof.
  intros st. unfold now_ms, st. cbn [last_physical_ms logical]. destruct (Z.ltb_spec phys p); [lia|].
  change (65535 =? u32_max) with false. cbv iota. exists (mkClock phys 0x10000). split; [|reflexivity].
  pose proof (encode_stamp (mkClock phys 0)) as E. unfold stamp in *. cbn [last_physical_ms logical] in *.
  change (Z.land (65535 + 1) 65535) with (Z.land 0 65535). rewrite E by (unfold clock_fits; cbn; lia).
  do 2 f_equal. lia.
Qed.

Lemma clock_wraps_backwards_witness :
  ∃ st', now_ms 5 (mkClock 5 0xFFFF) = (st', Ok (stamp (mkClock 5 0xFFFF) - 0xFFFF)) ∧ logical st' = 0x10000.
Proof. apply (clock_wraps_backwards 5 5); [split; [discriminate|reflexivity]|discriminate]. Defined.

(** In every membership reached by adding and removing members, two groups
    of voters that each reach the quorum size have a voter in common. *)
Theorem quorums_intersect m q1 q2
  (Hm : membership_reach m) (Hn1 : NoDup q1) (Hn2 : NoDup q2)
  (H1 : ∀ a, a ∈ q1 → a ∈ mr_anchor <$> voters m) (H2 : ∀ a, a ∈ q2 → a ∈ mr_anchor <$> voters m)
  (Hq1 : (quorum_size m ≤ length q1)%nat) (Hq2 : (quorum_size m ≤ length q2)%nat) :
  ∃ a, a ∈ q1 ∧ a ∈ q2.
Proof.
  apply membership_reach_wf in Hm.
  destruct (decide (Exists (λ a, a ∈ q2) q1)) as [He|Hne]; [by apply Exists_exists in He|exfalso].
  assert (NoDup (q1 ++ q2)) as Hnd.
  { apply NoDup_app. split; [done|]. split; [|done]. intros a Ha1 Ha2. apply Hne, Exists_exists. eauto. }
  assert (length (q1 ++ q2) ≤ length (mr_anchor <$> voters m))%nat as Hle.
  { apply submseteq_length, NoDup_submseteq; [done|]. intros a [Ha|Ha]%elem_of_app; auto. }
  rewrite length_app, length_fmap in Hle. unfold quorum_size, voter_count in *.
  pose proof (Nat.div_mod_eq (length (voters m)) 2). pose proof (Nat.mod_upper_bound (length (voters m)) 2). lia.
Qed.

Lemma quorums_intersect_witness :
  let v n := mkMember n [] 0 Voter in
  let m := mkMembership [v (rs "a"); v (rs "b"); v (rs "c")] 3 in
  ∃ x, x ∈ [rs "a"; rs "b"] ∧ x ∈ [rs "b"; rs "c"].
Proof.
  intros v m. apply (quorums_intersect m).
  - apply (mreach_add (v (rs "c")) (mkMembership [v (rs "a"); v (rs "b")] 2)); [|vm_compute; reflexivity].
    apply (mreach_add (v (rs "b")) (mkMembership [v (rs "a")] 1)); [|vm_compute; reflexivity].
    apply (mreach_add (v (rs "a")) new_membership); [apply mreach_new|vm_compute; reflexivity].
  - apply (bool_decide_unpack _). vm_compute. exact I.
  - apply (bool_decide_unpack _). vm_compute. exact I.
  - intros x Hx. apply elem_of_cons in Hx as [->|Hx]; [|apply list_elem_of_singleton in Hx as ->];
      apply (bool_decide_unpack _); vm_compute; exact I.
  - intros x Hx. apply elem_of_cons in Hx as [->|Hx]; [|apply list_elem_of_singleton in Hx as ->];
      apply (bool_decide_unpack _); vm_compute; exact I.
  - vm_compute. lia.
  - vm_compute. lia.
Defined.
