(* ===== verification/Tid.v ===== *)
(** Tid: timestamp identifiers of the AT Protocol module,
    [kappa-module-atproto/src/tid.rs]: the sort-ordered base-32 alphabet, the
    generator with its compare-and-swap loop, parsing and validation. *)

From S2P Require Import Prelude Label Compute.

(** * The alphabet *)

Definition S32_CHAR : list byte := rs "234567abcdefghijklmnopqrstuvwxyz".

Definition TID_LEN : nat := 13.

(** [S32_CHAR[c]]; callers index below 32. *)
Definition s32_char (c : Z) : byte := default x00 (S32_CHAR !! Z.to_nat c).

(** The digits of the loop, least significant first; thirteen turns exhaust a
    [u64]. *)
Fixpoint s32_digits (fuel : nat) (n : Z) : list byte :=
  match fuel with
  | O => []
  | S fuel => if 0 <? n then s32_char (n mod 32) :: s32_digits fuel (n / 32) else []
  end.

Definition s32_encode (n : Z) : rstr :=
  if n =? 0 then [] else reverse (s32_digits 13 n).

Definition s32_value (b : byte) : Z :=
  if in_range 0x32 0x37 b then b2z b - 0x32
  else if in_range 0x61 0x7A b then b2z b - 0x61 + 6
  else 0.

(** [n = n * 32 + val] on a [u64]; the overflow check panics. *)
Fixpoint s32_decode_loop (n : Z) (s : rstr) : outcome Z Z :=
  match s with
  | [] => Ok n
  | b :: s =>
      let n := n * 32 + s32_value b in
      if u64_max <? n then Panic else s32_decode_loop n s
  end.

Definition s32_decode (s : rstr) : outcome Z Z := s32_decode_loop 0 s.

(** * Construction and parsing *)

Definition tid_from_parts (timestamp clock_id : Z) : rstr :=
  let ts_str := s32_encode timestamp in
  let ck_str := s32_encode clock_id in
  replicate (11 - length ts_str) (s32_char 0) ++ ts_str
  ++ replicate (2 - length ck_str) (s32_char 0) ++ ck_str.

(** [s.replace('-', "")]. *)
Definition remove_dashes (s : rstr) : rstr := filter (λ b, b ≠ x2d) s.

(** [&s[..i]] and [&s[i..]] panic inside a multi-byte character. *)
Definition is_char_boundary (s : rstr) (i : nat) : bool :=
  match s !! i with
  | Some b => negb (in_range 0x80 0xBF b)
  | None => (i =? length s)%nat
  end.

(** The error is [TidError::InvalidLength]. *)
Definition parse_tid (s : rstr) : outcome Z (Z * Z) :=
  let clean := remove_dashes s in
  if negb (length clean =? TID_LEN)%nat then Err (zlen clean)
  else if negb (is_char_boundary clean 11) then Panic
  else
    timestamp ← s32_decode (take 11 clean);
    clock_id ← s32_decode (slice clean 11 13);
    Ok (timestamp, wrap 8 clock_id).

Definition is_s32_byte (b : byte) : bool := in_range 0x32 0x37 b || in_range 0x61 0x7A b.

Definition is_valid_tid (s : rstr) : bool :=
  let clean := remove_dashes s in
  (length clean =? TID_LEN)%nat && forallb is_s32_byte clean.

(** * The generator *)

Record TidGenerator := mkTidGen { clock_id : Z; last_timestamp : Z }.

Definition TidGenerator_new `{HashCrates} (node_anchor : rstr) : TidGenerator :=
  mkTidGen (Z.land (b2z (default x00 (sha256_digest node_anchor !! 0%nat))) 0x1F) 0.

Definition with_clock_id (clock_id : Z) : TidGenerator := mkTidGen (Z.land clock_id 0x1F) 0.

(** [if now_us > prev { now_us } else { prev + 1 }] on [u64]. *)
Definition candidate (now_us prev : Z) : outcome Z Z :=
  if prev <? now_us then Ok now_us
  else if prev =? u64_max then Panic else Ok (prev + 1).

(** A call that no other call interrupts. *)
Definition tid_next (now_us : Z) (g : TidGenerator) : TidGenerator * outcome Z rstr :=
  match candidate now_us (last_timestamp g) with
  | Ok ts => (mkTidGen (clock_id g) ts, Ok (tid_from_parts ts (clock_id g)))
  | Err e => (g, Err e)
  | Panic => (g, Panic)
  end.

(** Calls of several threads: a thread reads the clock, then alternates between
    loading the shared timestamp and the compare-and-swap, which may also fail
    spuriously. *)
Inductive caller :=
| Started (now_us : Z)
| Loaded (now_us prev : Z).

Record tid_system := mkTidSys {
  generator : TidGenerator;
  callers : gmap nat caller;
  emitted : list rstr;
}.

Inductive tid_step : tid_system → tid_system → Prop :=
| tid_start i now g cs out :
    cs !! i = None → 0 ≤ now ≤ u64_max →
    tid_step (mkTidSys g cs out) (mkTidSys g (<[i := Started now]> cs) out)
| tid_load i now g cs out :
    cs !! i = Some (Started now) →
    tid_step (mkTidSys g cs out) (mkTidSys g (<[i := Loaded now (last_timestamp g)]> cs) out)
| tid_cas_ok i now prev ts g cs out :
    cs !! i = Some (Loaded now prev) → last_timestamp g = prev → candidate now prev = Ok ts →
    tid_step (mkTidSys g cs out)
      (mkTidSys (mkTidGen (clock_id g) ts) (delete i cs) (out ++ [tid_from_parts ts (clock_id g)]))
| tid_cas_fail i now prev g cs out :
    cs !! i = Some (Loaded now prev) →
    tid_step (mkTidSys g cs out) (mkTidSys g (<[i := Started now]> cs) out).

Definition tid_init (clock_id : Z) : tid_system := mkTidSys (with_clock_id clock_id) ∅ [].

(** * Facts about the digits *)

(** [n] in base 32 with exactly [w] digits. *)
Fixpoint s32_fixed (w : nat) (n : Z) : rstr :=
  match w with
  | O => []
  | S w => s32_fixed w (n / 32) ++ [s32_char (n mod 32)]
  end.

Lemma length_s32_fixed w n : length (s32_fixed w n) = w.
Proof. revert n. induction w as [|w IH]; intros n; cbn [s32_fixed]; [done|]. rewrite length_app, IH. cbn. lia. Qed.

Definition s32_char_ok (c : Z) : bool :=
  (s32_value (s32_char c) =? c) && is_s32_byte (s32_char c) && is_ascii (s32_char c)
  && bool_decide (s32_char c ≠ x2d).

Lemma s32_char_spec c : 0 ≤ c < 32 →
  s32_value (s32_char c) = c ∧ is_s32_byte (s32_char c) = true ∧ s32_char c ≠ x2d.
Proof.
  intros Hc. pose proof (forall_small 32 s32_char_ok ltac:(vm_compute; reflexivity) c Hc) as H.
  unfold s32_char_ok in H. rewrite !andb_true_iff, Z.eqb_eq, bool_decide_eq_true in H. tauto.
Qed.

Lemma s32_char_lt c d : 0 ≤ c < 32 → 0 ≤ d < 32 → c < d → b2z (s32_char c) < b2z (s32_char d).
Proof.
  intros Hc Hd. pose proof (forall_small 32
    (λ c, forallb (λ d, negb (c <? d) || (b2z (s32_char c) <? b2z (s32_char d))) (seqZ 0 32))
    ltac:(vm_compute; reflexivity) c Hc) as H. cbv beta in H. rewrite forallb_forall in H.
  specialize (H d). rewrite <- list_elem_of_In, elem_of_seqZ, orb_true_iff, negb_true_iff, Z.ltb_ge, Z.ltb_lt in H.
  lia.
Qed.

Lemma pow32_S w : 32 ^ Z.of_nat (S w) = 32 * 32 ^ Z.of_nat w.
Proof. rewrite Nat2Z.inj_succ, Z.pow_succ_r by lia. done. Qed.

Lemma div32_range w n : 0 ≤ n < 32 ^ Z.of_nat (S w) → 0 ≤ n / 32 < 32 ^ Z.of_nat w.
Proof.
  rewrite pow32_S. intros Hn. split; [apply Z.div_pos; lia|]. apply Z.div_lt_upper_bound; lia.
Qed.

Lemma s32_digits_fixed w fuel n :
  (w ≤ fuel)%nat → 0 ≤ n < 32 ^ Z.of_nat w →
  (length (s32_digits fuel n) ≤ w)%nat ∧
  reverse (s32_digits fuel n ++ replicate (w - length (s32_digits fuel n)) (s32_char 0)) = s32_fixed w n.
Proof.
  revert fuel n. induction w as [|w IH]; intros fuel n Hf Hn.
  { assert (n = 0) as -> by (change (32 ^ Z.of_nat 0) with 1 in Hn; lia). by destruct fuel. }
  destruct fuel as [|fuel]; [lia|]. cbn [s32_digits s32_fixed].
  destruct (IH fuel (n / 32)) as [Hl Hr]; [lia|by apply div32_range|].
  destruct (Z.ltb_spec 0 n) as [Hpos|Hz].
  - cbn [length app]. split; [lia|]. rewrite Nat.sub_succ, reverse_cons. by rewrite Hr.
  - assert (n = 0) as -> by lia. split; [cbn; lia|].
    assert (s32_digits fuel (0 / 32) = []) as E by by destruct fuel. rewrite E in Hr.
    cbn [length app] in Hr |- *. rewrite Nat.sub_0_r in *. cbn [replicate]. by rewrite reverse_cons, Hr.
Qed.

(** Padding an encoding gives the digits of a fixed width. *)
Lemma s32_encode_fixed w n :
  (w ≤ 13)%nat → 0 ≤ n < 32 ^ Z.of_nat w →
  replicate (w - length (s32_encode n)) (s32_char 0) ++ s32_encode n = s32_fixed w n.
Proof.
  intros Hw Hn. destruct (s32_digits_fixed w 13 n Hw Hn) as [_ Hr].
  assert (s32_encode n = reverse (s32_digits 13 n)) as ->.
  { unfold s32_encode. destruct (Z.eqb_spec n 0) as [->|]; done. }
  rewrite reverse_app in Hr. rewrite length_reverse, <- Hr. f_equal. symmetry. apply reverse_replicate.
Qed.

Lemma tid_from_parts_fixed ts ck : 0 ≤ ts < 32 ^ 11 → 0 ≤ ck < 32 ^ 2 →
  tid_from_parts ts ck = s32_fixed 11 ts ++ s32_fixed 2 ck.
Proof.
  intros Hts Hck. unfold tid_from_parts. rewrite app_assoc. f_equal; apply s32_encode_fixed; (lia || done).
Qed.

Lemma s32_fixed_Forall w n : 0 ≤ n → Forall (λ b, is_s32_byte b = true ∧ b ≠ x2d) (s32_fixed w n).
Proof.
  revert n. induction w as [|w IH]; intros n Hn; cbn [s32_fixed]; [constructor|].
  apply Forall_app. split; [apply IH, Z.div_pos; lia|]. constructor; [|constructor].
  apply s32_char_spec, Z.mod_pos_bound. lia.
Qed.

Lemma s32_decode_fixed w acc n rest :
  0 ≤ acc → 0 ≤ n < 32 ^ Z.of_nat w → acc * 32 ^ Z.of_nat w + n ≤ u64_max →
  s32_decode_loop acc (s32_fixed w n ++ rest) = s32_decode_loop (acc * 32 ^ Z.of_nat w + n) rest.
Proof.
  revert n rest. induction w as [|w IH]; intros n rest Ha Hn Hmax.
  { cbn [s32_fixed app]. change (32 ^ Z.of_nat 0) with 1 in *. f_equal. lia. }
  pose proof (div32_range _ _ Hn) as Hd. pose proof (Z.mod_pos_bound n 32 ltac:(lia)) as Hm.
  pose proof (Z.div_mod n 32 ltac:(lia)) as Hdm.
  cbn [s32_fixed]. rewrite pow32_S in *. rewrite <- app_assoc, IH by lia. cbn [app s32_decode_loop].
  destruct (s32_char_spec (n mod 32) Hm) as [-> _].
  replace ((acc * 32 ^ Z.of_nat w + n / 32) * 32 + n mod 32) with (acc * (32 * 32 ^ Z.of_nat w) + n) by lia.
  destruct (Z.ltb_spec u64_max (acc * (32 * 32 ^ Z.of_nat w) + n)); [lia|done].
Qed.

Lemma s32_fixed_lt w a b :
  0 ≤ a → a < b → b < 32 ^ Z.of_nat w → bytes_lt (s32_fixed w a) (s32_fixed w b).
Proof.
  revert a b. induction w as [|w IH]; intros a b Ha Hab Hb.
  { change (32 ^ Z.of_nat 0) with 1 in Hb. lia. }
  pose proof (Z.div_mod a 32 ltac:(lia)). pose proof (Z.div_mod b 32 ltac:(lia)).
  pose proof (Z.mod_pos_bound a 32 ltac:(lia)). pose proof (Z.mod_pos_bound b 32 ltac:(lia)).
  pose proof (div32_range w b ltac:(lia)). cbn [s32_fixed].
  destruct (decide (a / 32 = b / 32)) as [E|Hne].
  - rewrite E. apply bytes_lt_app_l. unfold bytes_lt, bytes_ltb. simpl.
    pose proof (s32_char_lt (a mod 32) (b mod 32) ltac:(lia) ltac:(lia) ltac:(lia)).
    destruct (Z.ltb_spec (b2z (s32_char (b mod 32))) (b2z (s32_char (a mod 32)))); [lia|].
    destruct (Z.ltb_spec (b2z (s32_char (a mod 32))) (b2z (s32_char (b mod 32)))); [done|lia].
  - apply bytes_lt_app_r; [by rewrite !length_s32_fixed|]. apply IH; [apply Z.div_pos; lia| |lia].
    assert (a / 32 ≤ b / 32) by (apply Z.div_le_mono; lia). lia.
Qed.

(** * Properties *)

(** A timestamp fits in the eleven digits reserved for it. *)
Definition ts_fits (ts : Z) : Prop := 0 ≤ ts < 32 ^ 11.

Lemma remove_dashes_id s : Forall (λ b, is_s32_byte b = true ∧ b ≠ x2d) s → remove_dashes s = s.
Proof. intros Hs. apply list_filter_all. rewrite Forall_forall in Hs. intros x Hx. by apply Hs. Qed.

Lemma tid_fixed_Forall ts ck : 0 ≤ ts → 0 ≤ ck →
  Forall (λ b, is_s32_byte b = true ∧ b ≠ x2d) (s32_fixed 11 ts ++ s32_fixed 2 ck).
Proof. intros. apply Forall_app. split; by apply s32_fixed_Forall. Qed.

Lemma is_s32_byte_boundary b : is_s32_byte b = true → in_range 0x80 0xBF b = false.
Proof.
  intros Hb. pose proof (forall_byte (λ b, negb (is_s32_byte b) || negb (in_range 0x80 0xBF b))
    ltac:(vm_compute; reflexivity) b) as H. cbv beta in H. rewrite Hb in H. by apply negb_true_iff in H.
Qed.

(** Identifiers of a generator are thirteen characters of the alphabet and parse
    back to their timestamp and clock number. *)
Lemma tid_roundtrip_parts ts ck : ts_fits ts → 0 ≤ ck < 32 →
  is_valid_tid (tid_from_parts ts ck) = true ∧ parse_tid (tid_from_parts ts ck) = Ok (ts, ck).
Proof.
  intros Hts Hck. unfold ts_fits in Hts. rewrite tid_from_parts_fixed by lia.
  pose proof (tid_fixed_Forall ts ck ltac:(lia) ltac:(lia)) as Hall.
  assert (length (s32_fixed 11 ts ++ s32_fixed 2 ck) = TID_LEN) as Hl
    by (by rewrite length_app, !length_s32_fixed).
  unfold is_valid_tid, parse_tid. rewrite remove_dashes_id, Hl, Nat.eqb_refl by done. split.
  { apply forallb_forall. intros b Hb. rewrite Forall_forall in Hall. apply Hall. by apply list_elem_of_In. }
  cbn [negb]. destruct (is_char_boundary _ _) eqn:Hbd.
  2:{ unfold is_char_boundary in Hbd. destruct (_ !! 11%nat) as [b|] eqn:Hb.
      - apply negb_false_iff in Hbd. apply list_elem_of_lookup_2 in Hb. rewrite Forall_forall in Hall.
        destruct (Hall b Hb) as [Hb' _]. apply is_s32_byte_boundary in Hb'. congruence.
      - apply lookup_ge_None in Hb. rewrite Hl in Hb. unfold TID_LEN in Hb. lia. }
  cbn [negb]. unfold slice. rewrite take_app_length', drop_app_length' by (by rewrite length_s32_fixed).
  rewrite take_ge by (rewrite length_s32_fixed; lia). unfold s32_decode.
  pose proof (s32_decode_fixed 11 0 ts [] ltac:(lia) ltac:(done)) as H11.
  pose proof (s32_decode_fixed 2 0 ck [] ltac:(lia)) as H2. rewrite !app_nil_r in *.
  rewrite H11 by (change (32 ^ Z.of_nat 11) with 36028797018963968 in *; change (32 ^ 11) with 36028797018963968 in *; unfold u64_max; lia).
  osimpl. rewrite H2 by (change (32 ^ Z.of_nat 2) with 1024; unfold u64_max; lia).
  unfold wrap. rewrite !Z.mul_0_l, !Z.add_0_l. cbn [s32_decode_loop]. osimpl. by rewrite Z.mod_small by lia.
Qed.

Lemma tid_from_parts_lt ts ts' ck ck' : ts_fits ts → ts_fits ts' → 0 ≤ ck < 32 → 0 ≤ ck' < 32 → ts < ts' →
  bytes_lt (tid_from_parts ts ck) (tid_from_parts ts' ck').
Proof.
  unfold ts_fits. intros. rewrite !tid_from_parts_fixed by lia.
  apply bytes_lt_app_r; [by rewrite !length_s32_fixed|]. apply s32_fixed_lt; [lia..|]. change (Z.of_nat 11) with 11. lia.
Qed.

Lemma candidate_ok now prev ts : candidate now prev = Ok ts → prev < ts.
Proof.
  unfold candidate. destruct (Z.ltb_spec prev now); [by intros [= <-]|].
  destruct (prev =? u64_max); [done|]. intros [= <-]. lia.
Qed.

Lemma clock_id_range z : 0 ≤ Z.land z 0x1F < 32.
Proof. change 0x1F with (Z.ones 5). rewrite Z.land_ones by lia. apply Z.mod_pos_bound. lia. Qed.

(** What every reachable system satisfies: the identifiers handed out are those
    of an increasing sequence of timestamps ending at the shared one. *)
Definition tid_inv (sys : tid_system) : Prop :=
  0 ≤ clock_id (generator sys) < 32 ∧ 0 ≤ last_timestamp (generator sys) ∧
  ∃ tss, emitted sys = (λ ts, tid_from_parts ts (clock_id (generator sys))) <$> tss ∧
    StronglySorted Z.lt tss ∧ Forall (λ ts, 0 < ts ≤ last_timestamp (generator sys)) tss.

Lemma StronglySorted_snoc {A} (R : relation A) l x :
  StronglySorted R l → Forall (λ y, R y x) l → StronglySorted R (l ++ [x]).
Proof.
  induction 1 as [|y l Hl IH Hy]; intros Hx; cbn [app]; [repeat constructor|].
  apply Forall_cons_1 in Hx as [Hyx Hx]. constructor; [by apply IH|]. apply Forall_app. split; [done|by constructor].
Qed.

Lemma tid_step_inv sys sys' : tid_step sys sys' → tid_inv sys → tid_inv sys'.
Proof.
  intros [] Hinv; [exact Hinv|exact Hinv| |exact Hinv].
  destruct Hinv as (Hck & Hlast & tss & Hem & Hsort & Hle). cbn [generator emitted] in *.
  match goal with H : candidate _ _ = Ok _ |- _ => apply candidate_ok in H as Hlt end. subst.
  unfold tid_inv. cbn [generator emitted clock_id last_timestamp]. split_and!; [lia..|].
  exists (tss ++ [ts]). rewrite fmap_app. split_and!; [done|..].
  - apply StronglySorted_snoc; [done|]. eapply Forall_impl; [exact Hle|]. cbn. lia.
  - apply Forall_app. split; [eapply Forall_impl; [exact Hle|cbn; lia]|]. repeat constructor; lia.
Qed.

Lemma tid_reach_inv ck sys : rtc tid_step (tid_init ck) sys → tid_inv sys.
Proof.
  intros Hr. assert (tid_inv (tid_init ck)) as H0.
  { split_and!; [apply clock_id_range..|cbn; lia|]. exists []. split_and!; [done|constructor|constructor]. }
  revert H0. induction Hr as [|x y z Hxy _ IH]; [done|]. intros Hx. by eapply IH, tid_step_inv.
Qed.

(** C39: however the calls of any number of threads interleave, the identifiers a
    generator hands out strictly increase as strings, so no two are equal, and
    each parses back to the generator's clock number. *)
Theorem tid_concurrent_monotonic ck sys
  (Hreach : rtc tid_step (tid_init ck) sys) (Hfit : ts_fits (last_timestamp (generator sys))) :
  StronglySorted bytes_lt (emitted sys) ∧
  ∀ tid, tid ∈ emitted sys → is_valid_tid tid = true ∧ ∃ ts, parse_tid tid = Ok (ts, Z.land ck 0x1F).
Proof.
  assert (clock_id (generator sys) = Z.land ck 0x1F) as Hck.
  { change (Z.land ck 0x1F) with (clock_id (generator (tid_init ck))).
    clear Hfit. revert Hreach. generalize (tid_init ck). induction 1 as [|x y z Hxy _ IH]; [done|].
    rewrite IH. by destruct Hxy. }
  destruct (tid_reach_inv ck sys Hreach) as (Hr & Hl & tss & -> & Hsort & Hle).
  assert (Forall ts_fits tss) as Hfits.
  { eapply Forall_impl; [exact Hle|]. unfold ts_fits in *. cbn. lia. }
  clear Hle. split.
  - induction Hsort as [|ts tss Hs IH Hlt]; cbn [fmap list_fmap]; [constructor|].
    apply Forall_cons_1 in Hfits as [Hts Hfits]. constructor; [by apply IH|].
    apply Forall_fmap, Forall_forall. intros ts' Hin. rewrite Forall_forall in Hlt, Hfits. cbn.
    apply tid_from_parts_lt; auto.
  - intros tid (ts & -> & Hin)%list_elem_of_fmap. rewrite Forall_forall in Hfits.
    destruct (tid_roundtrip_parts ts (clock_id (generator sys))) as [Hv Hp]; [by apply Hfits|done|].
    split; [exact Hv|]. exists ts. by rewrite Hp, Hck.
Qed.

(** Two threads that read the same clock and race on the swap. *)
Lemma tid_concurrent_monotonic_witness : ∃ sys,
  rtc tid_step (tid_init 17) sys ∧ length (emitted sys) = 2%nat ∧ StronglySorted bytes_lt (emitted sys).
Proof.
  pose (now := 1700000000000000).
  pose (g0 := with_clock_id 17). pose (g1 := mkTidGen 17 now). pose (g2 := mkTidGen 17 (now + 1)).
  pose (t1 := tid_from_parts now 17). pose (t2 := tid_from_parts (now + 1) 17).
  assert (rtc tid_step (tid_init 17) (mkTidSys g2 (delete 1%nat (<[1%nat := Loaded now now]>
    (<[1%nat := Started now]> (delete 0%nat (<[1%nat := Loaded now 0]> (<[0%nat := Loaded now 0]>
      (<[1%nat := Started now]> (<[0%nat := Started now]> ∅)))))))) [t1; t2])) as Hreach.
  { eapply rtc_l; [apply (tid_start 0 now); [done|vm_compute; split; discriminate]|].
    eapply rtc_l; [apply (tid_start 1 now); [done|vm_compute; split; discriminate]|].
    eapply rtc_l; [apply (tid_load 0 now); reflexivity|].
    eapply rtc_l; [apply (tid_load 1 now); reflexivity|].
    eapply rtc_l; [apply (tid_cas_ok 0 now 0 now); reflexivity|].
    eapply rtc_l; [apply (tid_cas_fail 1 now 0); reflexivity|].
    eapply rtc_l; [apply (tid_load 1 now); reflexivity|].
    eapply rtc_l; [apply (tid_cas_ok 1 now now (now + 1)); reflexivity|]. apply rtc_refl. }
  eexists. split; [exact Hreach|]. split; [reflexivity|].
  apply (tid_concurrent_monotonic 17 _ Hreach). split; [vm_compute; discriminate|vm_compute; reflexivity].
Defined.

(** Every request makes a generator of its own: two that read the same clock
    hand out the same identifier. *)
Theorem fresh_generators_collide ck now : 0 < now →
  ∃ tid, (tid_next now (with_clock_id ck)).2 = Ok tid ∧
    ∀ g, g = with_clock_id ck → (tid_next now g).2 = Ok tid ∧ last_timestamp (tid_next now g).1 = now.
Proof.
  intros Hnow. eexists. unfold tid_next, candidate. cbn [last_timestamp with_clock_id clock_id].
  split; [by rewrite (proj2 (Z.ltb_lt 0 now))|]. intros g ->. cbn [last_timestamp with_clock_id].
  by rewrite (proj2 (Z.ltb_lt 0 now)).
Qed.

(** Thirteen bytes with a character across offset eleven: [parse_tid] panics on
    an input that [is_valid_tid] rejects. *)
Theorem parse_tid_panics : ∃ s, is_valid_tid s = false ∧ utf8_valid s = true ∧ parse_tid s = Panic.
Proof. exists (rs "2222222222" ++ [xc3; xa9; x32]). vm_compute. split_and!; reflexivity. Qed.
