(* ===== verification/Cid.v ===== *)
(** Cid: content identifiers of the AT Protocol module,
    [kappa-module-atproto/src/cid.rs]: the 36-byte form, its base-32 text and
    verification. *)

From S2P Require Import Prelude Label Compute.

Definition CID_VERSION : byte := x01.
Definition DAG_CBOR_CODEC : byte := x71.
Definition SHA2_256_CODE : byte := x12.
Definition SHA2_256_LEN : byte := x20.

Inductive CidError := UnsupportedMultibase | InvalidBase32 | TooShort.

(** * Base 32 *)

Definition B32_ALPHA : list byte := rs "abcdefghijklmnopqrstuvwxyz234567".

(** [B32_ALPHA[idx]]; the index is masked to five bits. *)
Definition b32_char (idx : Z) : byte := default x00 (B32_ALPHA !! Z.to_nat idx).

(** [while nbits >= 5]; at most twelve bits are pending, so two turns suffice. *)
Fixpoint b32_emit (fuel : nat) (bits nbits : Z) (out : rstr) : Z * Z * rstr :=
  match fuel with
  | O => (bits, nbits, out)
  | S fuel =>
      if 5 <=? nbits then
        let nbits := nbits - 5 in
        b32_emit fuel bits nbits (out ++ [b32_char (Z.land (Z.shiftr bits nbits) 0x1F)])
      else (bits, nbits, out)
  end.

Definition b32_push (st : Z * Z * rstr) (b : byte) : Z * Z * rstr :=
  let '(bits, nbits, out) := st in
  b32_emit 2 (Z.lor (wrap 32 (Z.shiftl bits 8)) (b2z b)) (nbits + 8) out.

Definition base32_lower_encode (data : bytes) : rstr :=
  let '(bits, nbits, out) := fold_left b32_push data (0, 0, []) in
  if 0 <? nbits then out ++ [b32_char (Z.land (wrap 32 (Z.shiftl bits (5 - nbits))) 0x1F)] else out.

Definition b32_value (c : byte) : option Z :=
  if in_range 0x61 0x7A c then Some (b2z c - 0x61)
  else if in_range 0x32 0x37 c then Some (b2z c - 0x32 + 26)
  else None.

Fixpoint b32_decode_loop (s : rstr) (bits nbits : Z) (out : bytes) : option bytes :=
  match s with
  | [] => Some out
  | c :: s =>
      val ← b32_value c;
      let bits := Z.lor (wrap 32 (Z.shiftl bits 5)) val in
      let nbits := nbits + 5 in
      if 8 <=? nbits then
        let nbits := nbits - 8 in
        b32_decode_loop s bits nbits (out ++ [z2b (Z.shiftr bits nbits)])
      else b32_decode_loop s bits nbits out
  end.

Definition base32_lower_decode (s : rstr) : option bytes := b32_decode_loop s 0 0 [].

(** * Identifiers *)

Section cid.
Context `{HashCrates}.

Definition cid_for_cbor (data : bytes) : bytes :=
  [CID_VERSION; DAG_CBOR_CODEC; SHA2_256_CODE; SHA2_256_LEN] ++ sha256_digest data.

Definition cid_to_string (cid : bytes) : rstr := rs "b" ++ base32_lower_encode cid.

Definition cid_from_string (s : rstr) : outcome CidError bytes :=
  if negb (starts_with (rs "b") s) then Err UnsupportedMultibase
  else ok_or (base32_lower_decode (drop 1 s)) InvalidBase32.

Definition verify_cid (cid data : bytes) : bool :=
  if negb (length cid =? 36)%nat then false else bool_decide (cid = cid_for_cbor data).

Definition cid_digest (cid : bytes) : option bytes :=
  if (36 <=? length cid)%nat && bool_decide (cid !! 0%nat = Some CID_VERSION)
     && bool_decide (cid !! 2%nat = Some SHA2_256_CODE)
  then Some (slice cid 4 36) else None.
End cid.

(** * Facts *)

(** The number a list of five-bit digits denotes. *)
Definition value32 (vals : list Z) : Z := fold_left (λ acc v, acc * 32 + v) vals 0.

Definition digits32 (vals : list Z) : Prop := Forall (λ v, 0 ≤ v < 32) vals.

Lemma value32_snoc vals v : value32 (vals ++ [v]) = value32 vals * 32 + v.
Proof. unfold value32. by rewrite fold_left_app. Qed.

Lemma b32_value_char v : 0 ≤ v < 32 → b32_value (b32_char v) = Some v.
Proof.
  intros Hv. pose proof (forall_small 32
    (λ v, match b32_value (b32_char v) with Some w => w =? v | None => false end)
    ltac:(vm_compute; reflexivity) v Hv) as E. cbv beta in E.
  destruct (b32_value (b32_char v)) as [w|]; [|done]. by apply Z.eqb_eq in E as ->.
Qed.

(** Splitting off five bits. *)
Lemma split_bits bits n : 0 ≤ n →
  bits mod 2 ^ (n + 5) = (Z.land (Z.shiftr bits n) 0x1F) * 2 ^ n + bits mod 2 ^ n.
Proof.
  intros Hn. change 0x1F with (Z.ones 5). rewrite Z.land_ones, Z.shiftr_div_pow2 by lia.
  rewrite Z.pow_add_r, Z.rem_mul_r by lia. change (2 ^ 5) with 32. lia.
Qed.

Lemma land31_range z : 0 ≤ Z.land z 0x1F < 32.
Proof. change 0x1F with (Z.ones 5). rewrite Z.land_ones by lia. apply Z.mod_pos_bound. lia. Qed.

(** [out] holds the digits of the high bits of [n], a number of [total] bits;
    the [nbits] low ones are pending in [bits]. *)
Definition pending (n total bits nbits : Z) (out : rstr) : Prop :=
  ∃ vals, out = b32_char <$> vals ∧ digits32 vals ∧ total = 5 * zlen vals + nbits ∧
    n = value32 vals * 2 ^ nbits + bits mod 2 ^ nbits.

Lemma b32_emit_pending n total bits nbits out :
  0 ≤ nbits < 15 → pending n total bits nbits out →
  let '(bits', nbits', out') := b32_emit 2 bits nbits out in
  0 ≤ nbits' < 5 ∧ pending n total bits' nbits' out'.
Proof.
  assert (∀ nbits out, 5 ≤ nbits → pending n total bits nbits out →
    pending n total bits (nbits - 5) (out ++ [b32_char (Z.land (Z.shiftr bits (nbits - 5)) 0x1F)])) as Hone.
  { intros nb o Hnb (vals & -> & Hd & Ht & Hn). exists (vals ++ [Z.land (Z.shiftr bits (nb - 5)) 0x1F]).
    split_and!; [by rewrite fmap_app| |rewrite length_app; cbn; lia|].
    - apply Forall_app. split; [done|]. constructor; [apply land31_range|constructor].
    - rewrite value32_snoc, Hn. pose proof (split_bits bits (nb - 5) ltac:(lia)) as Hs.
      replace (nb - 5 + 5) with nb in Hs by lia. rewrite Hs.
      replace (2 ^ nb) with (2 ^ (nb - 5) * 32); [lia|]. change 32 with (2 ^ 5).
      rewrite <- Z.pow_add_r by lia. f_equal. lia. }
  intros Hnb Hp. cbn [b32_emit]. destruct (Z.leb_spec 5 nbits); [|split; [lia|done]].
  destruct (Z.leb_spec 5 (nbits - 5)); (split; [lia|]); auto using Z.le_refl.
Qed.

Lemma b32_encode_pending data :
  let '(bits, nbits, out) := fold_left b32_push data (0, 0, []) in
  0 ≤ nbits < 5 ∧ pending (from_be data) (8 * zlen data) bits nbits out.
Proof.
  induction data as [|b data IH] using rev_ind.
  { cbn. split; [lia|]. exists []. split_and!; [done|constructor|done|done]. }
  rewrite fold_left_app. cbn [fold_left].
  destruct (fold_left b32_push data _) as [[bits nbits] out]. destruct IH as [Hnb (vals & -> & Hd & Ht & Hn)].
  unfold b32_push. apply b32_emit_pending; [lia|]. exists vals. pose proof (b2z_range b).
  split_and!; [done|done|rewrite length_app; cbn; lia|].
  rewrite from_be_snoc, Hn, shift_in_mod by (change (2 ^ 8) with 256; lia).
  rewrite Z.add_simpl_r, Z.pow_add_r by lia. change (2 ^ 8) with 256. lia.
Qed.

(** An encoding is the digits of the data followed by zero bits up to a digit. *)
Lemma base32_encode_digits data : ∃ vals pad,
  base32_lower_encode data = b32_char <$> vals ∧ digits32 vals ∧ 0 ≤ pad < 5 ∧
  5 * zlen vals = 8 * zlen data + pad ∧ value32 vals = from_be data * 2 ^ pad.
Proof.
  unfold base32_lower_encode. pose proof (b32_encode_pending data) as Hp.
  destruct (fold_left b32_push data _) as [[bits nbits] out]. destruct Hp as [Hnb (vals & -> & Hd & Ht & Hn)].
  destruct (Z.ltb_spec 0 nbits).
  - exists (vals ++ [Z.land (wrap 32 (Z.shiftl bits (5 - nbits))) 0x1F]), (5 - nbits).
    split_and!; [by rewrite fmap_app| |lia|lia|rewrite length_app; cbn; lia|].
    + apply Forall_app. split; [done|]. constructor; [apply land31_range|constructor].
    + rewrite value32_snoc, Hn. change 0x1F with (Z.ones 5). rewrite Z.land_ones by lia.
      pose proof (shift_in_mod 5 (5 - nbits) bits 0 ltac:(lia) ltac:(lia) ltac:(lia)) as Hs.
      rewrite Z.lor_0_r in Hs. rewrite Hs. replace (5 - (5 - nbits)) with nbits by lia.
      rewrite Z.mul_add_distr_r, <- Z.mul_assoc, <- Z.pow_add_r by lia.
      replace (nbits + (5 - nbits)) with 5 by lia. change (2 ^ 5) with 32. lia.
  - assert (nbits = 0) as -> by lia. exists vals, 0. rewrite Hn, Z.mod_1_r. split_and!; [done..|lia|lia|lia].
Qed.

Lemma b32_decode_digits done_ vals bits nbits out :
  digits32 vals → 0 ≤ nbits < 8 → 8 * zlen out + nbits = 5 * done_ →
  ∃ res, b32_decode_loop (b32_char <$> vals) bits nbits out = Some res ∧
    zlen res = 5 * (done_ + zlen vals) / 8 ∧
    from_be res = ((from_be out * 2 ^ nbits + bits mod 2 ^ nbits) * 32 ^ zlen vals + value32 vals)
                  / 2 ^ ((5 * (done_ + zlen vals)) mod 8).
Proof.
  intros Hd. revert done_ bits nbits out. induction Hd as [|v vals Hv Hd IH]; intros k bits nbits out Hnb Hk.
  - exists out. cbn [fmap list_fmap b32_decode_loop length]. split; [done|].
    rewrite Z.add_0_r, <- Hk. change (32 ^ Z.of_nat 0) with 1. unfold value32. cbn [fold_left].
    rewrite (Z.add_comm (8 * _)), (Z.mul_comm 8), Z.mod_add, Z.div_add by lia.
    rewrite (Z.mod_small nbits), (Z.div_small nbits) by lia. split; [lia|].
    rewrite Z.mul_1_r, Z.add_0_r, Z.div_add_l by lia.
    rewrite (Z.div_small (bits mod 2 ^ nbits)); [lia|]. apply Z.mod_pos_bound. lia.
  - cbn [fmap list_fmap b32_decode_loop]. rewrite b32_value_char by done. cbn [mbind option_bind].
    set (bits' := Z.lor (wrap 32 (Z.shiftl bits 5)) v).
    assert (value32 (v :: vals) = v * 32 ^ zlen vals + value32 vals) as Hval.
    { unfold value32. cbn [fold_left]. rewrite Z.mul_0_l, Z.add_0_l. generalize v. clear.
      induction vals as [|w vals IH] using rev_ind; intros v; cbn; [lia|].
      rewrite !fold_left_app. cbn [fold_left]. rewrite IH, length_app. cbn [length].
      rewrite Nat2Z.inj_add, Z.pow_add_r by lia. change (32 ^ Z.of_nat 1) with 32. lia. }
    assert (∀ p, 5 ≤ p ≤ 32 → bits' mod 2 ^ p = (bits mod 2 ^ (p - 5)) * 32 + v) as Hm.
    { intros p Hp. unfold bits'. rewrite shift_in_mod by (change (2 ^ 5) with 32; lia). done. }
    assert (from_be out * 2 ^ nbits * 32 = from_be out * 2 ^ (nbits + 5)) as Hpow.
    { rewrite Z.pow_add_r by lia. change (2 ^ 5) with 32. lia. }
    pose proof (Hm (nbits + 5) ltac:(lia)) as Hm5. rewrite Z.add_simpl_r in Hm5.
    cbn [length]. rewrite Nat2Z.inj_succ, Z.pow_succ_r, Hval by lia.
    destruct (Z.leb_spec 8 (nbits + 5)).
    + destruct (IH (k + 1) bits' (nbits + 5 - 8) (out ++ [z2b (Z.shiftr bits' (nbits + 5 - 8))])) as (res & Hr & Hl & Hb);
        [lia|rewrite length_app; cbn; lia|]. exists res.
      split; [done|]. rewrite Hl, Hb. split; [f_equal; lia|].
      replace (k + 1 + zlen vals) with (k + Z.succ (zlen vals)) by lia. f_equal. rewrite from_be_snoc, b2z_z2b.
      assert (bits' mod 2 ^ (nbits + 5) = (Z.shiftr bits' (nbits + 5 - 8) mod 256) * 2 ^ (nbits + 5 - 8)
        + bits' mod 2 ^ (nbits + 5 - 8)) as Hs.
      { rewrite Z.shiftr_div_pow2 by lia. replace (nbits + 5) with ((nbits + 5 - 8) + 8) at 1 by lia.
        rewrite Z.pow_add_r, Z.rem_mul_r by lia. change (2 ^ 8) with 256. lia. }
      assert (2 ^ (nbits + 5) = 256 * 2 ^ (nbits + 5 - 8)) as H8.
      { change 256 with (2 ^ 8). rewrite <- Z.pow_add_r by lia. f_equal. lia. }
      rewrite H8 in Hpow. nia.
    + destruct (IH (k + 1) bits' (nbits + 5) out) as (res & Hr & Hl & Hb); [lia..|]. exists res.
      split; [done|]. rewrite Hl, Hb. split; [f_equal; lia|].
      replace (k + 1 + zlen vals) with (k + Z.succ (zlen vals)) by lia. f_equal. nia.
Qed.

Lemma length_cid `{HashCratesLaws} data : length (cid_for_cbor data) = 36%nat.
Proof.
  assert (zlen (sha256_digest data) = 32) as Hd by exact (digest_length Sha256 data).
  unfold cid_for_cbor. rewrite length_app. cbn [length]. lia.
Qed.

Lemma cid_inj `{HashCrates} data data' :
  cid_for_cbor data = cid_for_cbor data' → sha256_digest data = sha256_digest data'.
Proof. by intros ?%(app_inv_head _). Qed.

(** * Properties *)

(** The text of an identifier of any length parses back to its bytes: the
    32-bit accumulators of the encoder and the decoder lose nothing, and the
    final partial digit is padded and dropped consistently. *)
Theorem cid_string_roundtrip cid : cid_from_string (cid_to_string cid) = Ok cid.
Proof.
  unfold cid_from_string, cid_to_string, starts_with.
  rewrite bool_decide_eq_true_2 by (by eexists). cbn [negb].
  change (drop 1 (rs "b" ++ base32_lower_encode cid)) with (base32_lower_encode cid).
  destruct (base32_encode_digits cid) as (vals & pad & -> & Hd & Hpad & Hlen & Hval).
  unfold base32_lower_decode.
  destruct (b32_decode_digits 0 vals 0 0 [] Hd ltac:(lia) ltac:(done)) as (res & -> & Hrl & Hrb).
  cbn [ok_or]. f_equal. replace (5 * (0 + zlen vals)) with (8 * zlen cid + pad) in Hrl, Hrb by lia.
  assert ((8 * zlen cid + pad) / 8 = zlen cid) as E1 by (Z.div_mod_to_equations; lia).
  assert ((8 * zlen cid + pad) mod 8 = pad) as E2 by (Z.div_mod_to_equations; lia).
  rewrite E1 in Hrl. rewrite E2, Hval in Hrb.
  assert (from_be [] * 2 ^ 0 + 0 mod 2 ^ 0 = 0) as E0 by done. rewrite E0, Z.mul_0_l, Z.add_0_l, Z.div_mul in Hrb by lia.
  rewrite <- (to_from_be res), <- (to_from_be cid), Hrb. f_equal. lia.
Qed.

(** The computed identifier of a block verifies, discloses the digest, and an
    identifier that verifies two blocks exhibits a SHA-256 collision. *)
Theorem verify_cid_correct `{HashCratesLaws} cid data :
  verify_cid cid data = true ↔ cid = cid_for_cbor data.
Proof.
  unfold verify_cid. split.
  - destruct (length cid =? 36)%nat; [|done]. cbn [negb]. apply bool_decide_eq_true.
  - intros ->. rewrite length_cid. by apply bool_decide_eq_true.
Qed.
