(* ===== verification/AtCbor.v ===== *)
(** AtCbor: the hand-written DAG-CBOR heads shared by the AT Protocol module
    ([kappa-module-atproto/src/mst.rs], [dag_cbor.rs], [commit.rs], [car.rs])
    and the facts its encoders and decoders rest on. *)

From S2P Require Import Prelude.

(** A head with its length in the first byte, in one byte or in two; longer
    lengths are truncated to sixteen bits.  [major] is the type in the top three
    bits: [0x40] bytes, [0x60] text, [0x80] array. *)
Definition cbor_head (major len : Z) : bytes :=
  if len <? 24 then [z2b (Z.lor major len)]
  else if len <? 256 then [z2b (major + 0x18); z2b len]
  else [z2b (major + 0x19); z2b (Z.shiftr len 8); z2b len].

Definition CBOR_NULL : byte := xf6.

Definition encode_cbor_text (s : rstr) : bytes := cbor_head 0x60 (zlen s) ++ s.
Definition encode_cbor_bytes (data : bytes) : bytes := cbor_head 0x40 (zlen data) ++ data.
Definition encode_cbor_array_header (len : Z) : bytes := cbor_head 0x80 len.

(** Tag 42 and a byte string with the identity multibase prefix. *)
Definition encode_cbor_cid (cid : bytes) : bytes :=
  [xd8; z2b 42] ++ cbor_head 0x40 (1 + zlen cid) ++ [x00] ++ cid.

(** The first byte of an item: [b >> 5] and [b & 0x1F]. *)
Definition major_of (b : byte) : Z := Z.shiftr (b2z b) 5.
Definition additional_of (b : byte) : Z := Z.land (b2z b) 0x1F.

(** Stripping the multibase prefix. *)
Definition strip_multibase (cid_bytes : bytes) : bytes :=
  match cid_bytes with
  | b :: rest => if decide (b = x00) then rest else cid_bytes
  | [] => []
  end.

(** * Facts *)

Definition is_major (m : Z) : Prop := 0 ≤ m < 8.

Lemma head_byte m a : is_major m → 0 ≤ a < 32 →
  major_of (z2b (m * 32 + a)) = m ∧ additional_of (z2b (m * 32 + a)) = a.
Proof.
  intros Hm Ha. unfold is_major in Hm. unfold major_of, additional_of. rewrite b2z_z2b_small by lia.
  rewrite Z.shiftr_div_pow2 by lia. change 0x1F with (Z.ones 5). rewrite Z.land_ones by lia.
  change (2 ^ 5) with 32. split; Z.div_mod_to_equations; lia.
Qed.

(** The shapes of a head of type [m]. *)
Lemma cbor_head_shape m len : is_major m → 0 ≤ len < 65536 →
  ∃ b ext, cbor_head (m * 32) len = b :: ext ∧ major_of b = m ∧
    ((additional_of b = len ∧ len < 24 ∧ ext = []) ∨
     (additional_of b = 24 ∧ ext = [z2b len] ∧ 24 ≤ len < 256) ∨
     (additional_of b = 25 ∧ ext = [z2b (Z.shiftr len 8); z2b len] ∧ 256 ≤ len)).
Proof.
  intros Hm Hl. unfold cbor_head. destruct (Z.ltb_spec len 24).
  - change 32 with (2 ^ 5). rewrite lor_disjoint by lia. change (2 ^ 5) with 32.
    destruct (head_byte m len Hm ltac:(lia)) as [H1 H2]. eexists _, []. split_and!; [done..|]. left. done.
  - destruct (Z.ltb_spec len 256).
    + destruct (head_byte m 24 Hm ltac:(lia)) as [H1 H2]. eexists _, _. split_and!; [done..|]. right. left. split_and!; (done || lia).
    + destruct (head_byte m 25 Hm ltac:(lia)) as [H1 H2]. eexists _, _. split_and!; [done..|]. right. right. done.
Qed.

Lemma be16_value len : 0 ≤ len < 65536 →
  Z.lor (Z.shiftl (b2z (z2b (Z.shiftr len 8))) 8) (b2z (z2b len)) = len.
Proof.
  intros Hl. rewrite !b2z_z2b, Z.shiftr_div_pow2, Z.shiftl_mul_pow2 by lia.
  rewrite lor_disjoint by (try lia; apply Z.mod_pos_bound; lia).
  change (2 ^ 8) with 256. rewrite (Z.mod_small (len / 256)) by (Z.div_mod_to_equations; lia).
  Z.div_mod_to_equations; lia.
Qed.

(** * Readers

    A reader takes the data and a position and returns a value and the position
    after it; [reads p enc a] says it consumes the encoding [enc] of [a] wherever
    it stands. *)
Definition reader (E A : Type) : Type := bytes → nat → outcome E (A * nat).

Definition reads {E A} (p : reader E A) (enc : bytes) (a : A) : Prop :=
  ∀ pre rest, p (pre ++ enc ++ rest) (length pre) = Ok (a, (length pre + length enc)%nat).

(** The rest of the data once [enc] is consumed. *)
Lemma reads_at {E A} (p : reader E A) enc a data pos pre rest :
  reads p enc a → data = pre ++ enc ++ rest → pos = length pre →
  p data pos = Ok (a, (pos + length enc)%nat).
Proof. intros Hr -> ->. apply Hr. Qed.

Lemma lookup_at (data pre : bytes) b rest pos :
  data = pre ++ b :: rest → pos = length pre → data !! pos = Some b.
Proof. intros -> ->. by rewrite lookup_app_r, Nat.sub_diag by lia. Qed.

Lemma slice_at (data pre m rest : bytes) i j :
  data = pre ++ m ++ rest → i = length pre → j = (i + length m)%nat → slice data i j = m.
Proof. intros -> -> ->. by apply slice_app. Qed.

Lemma strip_multibase_cid cid : strip_multibase ([x00] ++ cid) = cid.
Proof. cbn. by rewrite decide_True. Qed.

(** Injectivity of the encodings, within sixteen-bit lengths. *)
Definition len16 {A} (l : list A) : Prop := zlen l < 65536.

Lemma cbor_head_inj m len len' x y : is_major m → 0 ≤ len < 65536 → 0 ≤ len' < 65536 →
  cbor_head (m * 32) len ++ x = cbor_head (m * 32) len' ++ y → len = len' ∧ x = y.
Proof.
  intros Hm Hl Hl' E.
  destruct (cbor_head_shape m len Hm Hl) as (b & ext & E1 & _ & H1).
  destruct (cbor_head_shape m len' Hm Hl') as (b' & ext' & E2 & _ & H2).
  rewrite E1, E2 in E. cbn [app] in E. injection E as <- E.
  destruct H1 as [(A1 & L1 & ->)|[(A1 & -> & L1)|(A1 & -> & L1)]],
    H2 as [(A2 & L2 & ->)|[(A2 & -> & L2)|(A2 & -> & L2)]]; try lia; cbn [app] in E.
  - split; [lia|done].
  - injection E as E0 E. split; [|done].
    rewrite <- (b2z_z2b_small len), <- (b2z_z2b_small len') by lia. by rewrite E0.
  - injection E as E0 E3 E. split; [|done].
    rewrite <- (be16_value len), <- (be16_value len') by lia. by rewrite E0, E3.
Qed.

Lemma encode_cbor_text_inj s s' x y : len16 s → len16 s' →
  encode_cbor_text s ++ x = encode_cbor_text s' ++ y → s = s' ∧ x = y.
Proof.
  unfold len16, encode_cbor_text. intros Hs Hs' E. rewrite <- !app_assoc in E.
  apply (cbor_head_inj 3) in E as [Hl E]; [|done|lia|lia]. apply app_inj_1 in E; [done|lia].
Qed.

Lemma encode_cbor_bytes_inj s s' x y : len16 s → len16 s' →
  encode_cbor_bytes s ++ x = encode_cbor_bytes s' ++ y → s = s' ∧ x = y.
Proof.
  unfold len16, encode_cbor_bytes. intros Hs Hs' E. rewrite <- !app_assoc in E.
  apply (cbor_head_inj 2) in E as [Hl E]; [|done|lia|lia]. apply app_inj_1 in E; [done|lia].
Qed.

Lemma encode_cbor_cid_inj s s' x y : zlen s < 65535 → zlen s' < 65535 →
  encode_cbor_cid s ++ x = encode_cbor_cid s' ++ y → s = s' ∧ x = y.
Proof.
  unfold encode_cbor_cid. intros Hs Hs' E. rewrite <- !app_assoc in E. cbn [app] in E.
  injection E as E. apply (cbor_head_inj 2) in E as [Hl E]; [|done|lia|lia].
  injection E as E. apply app_inj_1 in E; [done|lia].
Qed.

(** Readers compose. *)
Lemma reads_bind {E A B} (p : reader E A) (f : A → reader E B) ea a eb b :
  reads p ea a → reads (f a) eb b →
  reads (λ data pos, p data pos ≫= λ '(a, pos), f a data pos) (ea ++ eb) b.
Proof.
  intros Hp Hf pre rest. rewrite <- app_assoc, (Hp pre (eb ++ rest)). osimpl.
  rewrite app_assoc, <- length_app, (Hf (pre ++ ea) rest). do 2 f_equal. rewrite !length_app. lia.
Qed.

Lemma reads_ret {E A} (a : A) : reads (λ _ pos, Ok (E := E) (a, pos)) [] a.
Proof. intros pre rest. cbn. by rewrite Nat.add_0_r. Qed.

(** A reader that starts by looking at a byte. *)
Lemma reads_byte {E A} (e : outcome E (A * nat)) (f : byte → reader E A) b enc a :
  reads (f b) enc a →
  reads (λ data pos, match data !! pos with None => e | Some b => f b data (S pos) end) (b :: enc) a.
Proof.
  intros Hf pre rest. cbn [app]. rewrite (lookup_at _ pre b (enc ++ rest)) by done.
  specialize (Hf (pre ++ [b]) rest). rewrite length_app, <- app_assoc in Hf. cbn [length app] in Hf.
  rewrite Nat.add_1_r in Hf. rewrite Hf. do 2 f_equal. cbn. lia.
Qed.

Lemma reads_equiv {E A} (p q : reader E A) enc a :
  (∀ data pos, p data pos = q data pos) → reads q enc a → reads p enc a.
Proof. intros Hpq Hq pre rest. by rewrite Hpq. Qed.

Lemma reads_nil {E A} (p : reader E A) enc a : reads p (enc ++ []) a → reads p enc a.
Proof. by rewrite app_nil_r. Qed.

(** The two-byte head drops the high bits of a longer length. *)
Theorem array_header_truncates n : 256 ≤ n → encode_cbor_array_header (n + 65536) = encode_cbor_array_header n.
Proof.
  intros Hn. unfold encode_cbor_array_header, cbor_head.
  rewrite !(proj2 (Z.ltb_ge _ 24)), !(proj2 (Z.ltb_ge _ 256)) by lia. do 2 f_equal.
  - apply b2z_inj. rewrite !b2z_z2b, !Z.shiftr_div_pow2 by lia. change (2 ^ 8) with 256. Z.div_mod_to_equations; lia.
  - f_equal. apply b2z_inj. rewrite !b2z_z2b. Z.div_mod_to_equations; lia.
Qed.
