(* ===== verification/MstNode.v ===== *)
(** MstNode: the encoding of Merkle search tree nodes,
    [kappa-module-atproto/src/mst.rs]: keys, layers, and the CBOR writer and
    reader of a node. *)

From S2P Require Import Prelude Label Compute Cid AtCbor.

Inductive MstError :=
| InvalidKey (key : rstr)
| KeyExists (key : rstr)
| KeyNotFound (key : rstr)
| InvalidNode (msg : rstr)
| BlockNotFound.

(** * Keys *)

Definition MAX_KEY_LEN : Z := 1024.

Definition is_valid_mst_char (b : byte) : bool :=
  in_range 0x61 0x7A b || in_range 0x41 0x5A b || in_range 0x30 0x39 b
  || bool_decide (b ∈ rs "_~-:.").

(** [key.split('/')]: the parts between the separators, one more than their
    number. *)
Fixpoint split_char (c : byte) (s : rstr) : list rstr :=
  match s with
  | [] => [[]]
  | b :: s' =>
      if decide (b = c) then [] :: split_char c s'
      else match split_char c s' with
           | part :: rest => (b :: part) :: rest
           | [] => [[b]]
           end
  end.

Definition is_valid_mst_key (key : rstr) : bool :=
  if MAX_KEY_LEN <? zlen key then false
  else match split_char x2f key with
       | [p0; p1] =>
           negb (bool_decide (p0 = []) || bool_decide (p1 = []))
           && (forallb is_valid_mst_char p0 && forallb is_valid_mst_char p1)
       | _ => false
       end.

(** * Layers *)

(** The loop over the digest: each byte adds up to four two-bit zero chunks and
    the first non-zero chunk ends it. *)
Fixpoint count_zeros (hash : bytes) (zeros : nat) : nat :=
  match hash with
  | [] => zeros
  | byte :: hash =>
      if negb (b2z byte <? 64) then zeros
      else if negb (b2z byte <? 16) then S zeros
      else if negb (b2z byte <? 4) then S (S zeros)
      else if negb (b2z byte =? 0) then S (S (S zeros))
      else count_zeros hash (S (S (S (S zeros))))
  end.

Definition leading_zeros `{HashCrates} (key : rstr) : nat := count_zeros (sha256_digest key) 0.

(** * Nodes *)

Record MstEntry := mkEntry {
  prefix_len : nat;
  key_suffix : bytes;
  value : bytes;
  tree : option bytes;
}.

(** The unsigned integer head of this file: one, two, three or nine bytes. *)
Definition encode_cbor_uint (n : Z) : bytes :=
  if n <? 24 then [z2b n]
  else if n <? 256 then [x18; z2b n]
  else if n <? 65536 then [x19; z2b (Z.shiftr n 8); z2b n]
  else x1b :: to_be 8 n.

Definition encode_opt_cid (cid : option bytes) : bytes :=
  match cid with
  | Some cid => encode_cbor_cid cid
  | None => [CBOR_NULL]
  end.

Definition encode_tree_entry (e : MstEntry) : bytes :=
  [xa4]
  ++ [x61; x6b] ++ encode_cbor_bytes (key_suffix e)
  ++ [x61; x70] ++ encode_cbor_uint (Z.of_nat (prefix_len e))
  ++ [x61; x74] ++ encode_opt_cid (tree e)
  ++ [x61; x76] ++ encode_cbor_cid (value e).

Definition encode_node (left : option bytes) (entries : list MstEntry) : bytes :=
  [xa2]
  ++ [x61; x65] ++ encode_cbor_array_header (zlen entries) ++ concat (encode_tree_entry <$> entries)
  ++ [x61; x6c] ++ encode_opt_cid left.

(** * Reading *)

Definition invalid {A} (msg : string) : outcome MstError A := Err (InvalidNode (rs msg)).
Arguments invalid {A} msg%_string.

Definition read_cbor_length (additional : Z) : reader MstError nat := λ data pos,
  if additional <? 24 then Ok (Z.to_nat additional, pos)
  else if additional =? 24 then
    match data !! pos with
    | None => invalid "truncated length"
    | Some l => Ok (Z.to_nat (b2z l), S pos)
    end
  else if additional =? 25 then
    match data !! pos, data !! S pos with
    | Some h, Some l => Ok (Z.to_nat (Z.lor (Z.shiftl (b2z h) 8) (b2z l)), S (S pos))
    | _, _ => invalid "truncated length"
    end
  else invalid "unsupported CBOR length".

(** [&data[pos..pos + len]], after the check against the end. *)
Definition read_slice (len : nat) (msg : string) : reader MstError bytes := λ data pos,
  if (length data <? pos + len)%nat then invalid msg
  else Ok (slice data pos (pos + len), (pos + len)%nat).
Arguments read_slice len msg%_string.

Definition read_cbor_text : reader MstError rstr := λ data pos,
  match data !! pos with
  | None => invalid "truncated text"
  | Some b =>
      if negb (major_of b =? 3) then invalid "expected text string"
      else
        '(len, pos) ← read_cbor_length (additional_of b) data (S pos);
        '(s, pos) ← read_slice len "text extends past end" data pos;
        if utf8_valid s then Ok (s, pos) else invalid "invalid UTF-8"
  end.

Definition read_cbor_cid_value : reader MstError bytes := λ data pos,
  match data !! pos, data !! S pos with
  | Some t, Some t' =>
      if bool_decide (t = xd8) && (b2z t' =? 42) then
        let pos := S (S pos) in
        match data !! pos with
        | None => invalid "truncated CID bytes"
        | Some b =>
            if negb (major_of b =? 2) then invalid "expected byte string for CID"
            else
              '(len, pos) ← read_cbor_length (additional_of b) data (S pos);
              '(cid_bytes, pos) ← read_slice len "CID data extends past end" data pos;
              Ok (strip_multibase cid_bytes, pos)
        end
      else invalid "expected CID tag 42"
  | _, _ => invalid "truncated CID tag"
  end.

Definition read_nullable_cid : reader MstError (option bytes) := λ data pos,
  match data !! pos with
  | None => invalid "truncated nullable CID"
  | Some b =>
      if decide (b = CBOR_NULL) then Ok (None, S pos)
      else '(cid, pos) ← read_cbor_cid_value data pos; Ok (Some cid, pos)
  end.

Definition read_cbor_uint : reader MstError Z := λ data pos,
  match data !! pos with
  | None => invalid "truncated uint"
  | Some b =>
      let additional := additional_of b in
      if negb (major_of b =? 0) then invalid "expected unsigned int"
      else if additional <? 24 then Ok (additional, S pos)
      else if additional =? 24 then
        match data !! S pos with
        | None => invalid "truncated uint"
        | Some v => Ok (b2z v, S (S pos))
        end
      else if additional =? 25 then
        match data !! S pos, data !! S (S pos) with
        | Some h, Some l => Ok (Z.lor (Z.shiftl (b2z h) 8) (b2z l), S (S (S pos)))
        | _, _ => invalid "truncated uint"
        end
      else invalid "unsupported uint size"
  end.

Definition read_cbor_bytestring : reader MstError bytes := λ data pos,
  match data !! pos with
  | None => invalid "truncated bytes"
  | Some b =>
      if negb (major_of b =? 2) then invalid "expected byte string"
      else
        '(len, pos) ← read_cbor_length (additional_of b) data (S pos);
        read_slice len "bytes extend past end" data pos
  end.

(** [(24..=27).contains(&additional)]: the extra bytes of a long head. *)
Definition long_head (additional : Z) : nat :=
  if (24 <=? additional) && (additional <=? 27) then Z.to_nat (Z.shiftl 1 (additional - 24)) else 0.

(** [for _ in 0..n]. *)
Fixpoint skip_many (skip : reader MstError ()) (n : nat) : reader MstError () := λ data pos,
  match n with
  | O => Ok ((), pos)
  | S n => '(_, pos) ← skip data pos; skip_many skip n data pos
  end.

(** The recursion goes past the byte it looked at, so the length of the data
    bounds its depth. *)
Fixpoint skip_cbor (fuel : nat) : reader MstError () := λ data pos,
  match fuel with
  | O => invalid "truncated skip"
  | S fuel =>
      match data !! pos with
      | None => invalid "truncated skip"
      | Some b =>
          let major := major_of b in
          let additional := additional_of b in
          let pos := S pos in
          if (major =? 2) || (major =? 3) then
            '(len, pos) ← read_cbor_length additional data pos; Ok ((), (pos + len)%nat)
          else if major =? 4 then
            '(len, pos) ← read_cbor_length additional data pos;
            skip_many (skip_cbor fuel) len data pos
          else if major =? 5 then
            '(len, pos) ← read_cbor_length additional data pos;
            skip_many (skip_cbor fuel) (2 * len) data pos
          else if major =? 6 then skip_cbor fuel data (pos + long_head additional)%nat
          else Ok ((), (pos + long_head additional)%nat)
      end
  end.

(** The entry map; [copy_from_slice] needs 36 bytes, a right subtree of another
    length is dropped. *)
Fixpoint read_entry_fields (n : nat) (e : MstEntry) : reader MstError MstEntry := λ data pos,
  match n with
  | O => Ok (e, pos)
  | S n =>
      '(key, pos) ← read_cbor_text data pos;
      if decide (key = rs "p") then
        '(p, pos) ← read_cbor_uint data pos;
        read_entry_fields n (mkEntry (Z.to_nat p) (key_suffix e) (value e) (tree e)) data pos
      else if decide (key = rs "k") then
        '(k, pos) ← read_cbor_bytestring data pos;
        read_entry_fields n (mkEntry (prefix_len e) k (value e) (tree e)) data pos
      else if decide (key = rs "v") then
        '(cid, pos) ← read_cbor_cid_value data pos;
        if (length cid =? 36)%nat then
          read_entry_fields n (mkEntry (prefix_len e) (key_suffix e) cid (tree e)) data pos
        else invalid "value CID wrong length"
      else if decide (key = rs "t") then
        '(t, pos) ← read_nullable_cid data pos;
        read_entry_fields n (mkEntry (prefix_len e) (key_suffix e) (value e)
          (c ← t; if (length c =? 36)%nat then Some c else None)) data pos
      else
        '(_, pos) ← skip_cbor (length data) data pos;
        read_entry_fields n e data pos
  end.

Definition read_tree_entry : reader MstError MstEntry := λ data pos,
  match data !! pos with
  | None => invalid "truncated entry"
  | Some b =>
      if negb (major_of b =? 5) then invalid "expected map for entry"
      else read_entry_fields (Z.to_nat (additional_of b)) (mkEntry 0 [] (replicate 36 x00) None) data (S pos)
  end.

Fixpoint read_entries (n : nat) (entries : list MstEntry) : reader MstError (list MstEntry) := λ data pos,
  match n with
  | O => Ok (entries, pos)
  | S n => '(e, pos) ← read_tree_entry data pos; read_entries n (entries ++ [e]) data pos
  end.

Definition read_entries_array : reader MstError (list MstEntry) := λ data pos,
  match data !! pos with
  | None => invalid "truncated entries array"
  | Some b =>
      if negb (major_of b =? 4) then invalid "expected array for entries"
      else
        '(arr_len, pos) ← read_cbor_length (additional_of b) data (S pos);
        read_entries arr_len [] data pos
  end.

Fixpoint decode_fields (n : nat) (left : option bytes) (entries : list MstEntry)
  : reader MstError (option bytes * list MstEntry) := λ data pos,
  match n with
  | O => Ok ((left, entries), pos)
  | S n =>
      '(key, pos) ← read_cbor_text data pos;
      if decide (key = rs "e") then
        '(entries, pos) ← read_entries_array data pos; decode_fields n left entries data pos
      else if decide (key = rs "l") then
        '(l, pos) ← read_nullable_cid data pos; decode_fields n l entries data pos
      else
        '(_, pos) ← skip_cbor (length data) data pos; decode_fields n left entries data pos
  end.

Definition decode_node (data : bytes) : outcome MstError (option bytes * list MstEntry) :=
  match data !! 0%nat with
  | None => invalid "empty data"
  | Some b =>
      if negb (major_of b =? 5) then invalid "expected CBOR map"
      else '(node, _) ← decode_fields (Z.to_nat (additional_of b)) None [] data 1%nat; Ok node
  end.

(** * Facts *)

Lemma reads_length m len b ext : is_major m → 0 ≤ len < 65536 → cbor_head (m * 32) len = b :: ext →
  major_of b = m ∧ reads (read_cbor_length (additional_of b)) ext (Z.to_nat len).
Proof.
  intros Hm Hl E. destruct (cbor_head_shape m len Hm Hl) as (b' & ext' & E' & Hmaj & H).
  rewrite E in E'. injection E' as <- <-. split; [done|]. intros pre rest. unfold read_cbor_length.
  destruct H as [(-> & Hlt & ->)|[(-> & -> & Hr)|(-> & -> & Hr)]]; cbn [Z.ltb Z.eqb Z.compare Pos.compare Pos.compare_cont Pos.eqb].
  - rewrite (proj2 (Z.ltb_lt _ _)) by done. cbn. by rewrite Nat.add_0_r.
  - cbn [app]. rewrite (lookup_at _ pre (z2b len) rest) by done.
    rewrite b2z_z2b_small by lia. cbn. by rewrite Nat.add_1_r.
  - cbn [app]. rewrite (lookup_at _ pre (z2b (Z.shiftr len 8)) (z2b len :: rest)) by done.
    rewrite (lookup_at _ (pre ++ [z2b (Z.shiftr len 8)]) (z2b len) rest);
      [|by rewrite <- app_assoc|rewrite length_app; cbn; lia].
    rewrite be16_value by lia. do 2 f_equal. cbn. lia.
Qed.

Lemma reads_slice s msg : reads (read_slice (length s) msg) s s.
Proof.
  intros pre rest. unfold read_slice. rewrite !length_app.
  rewrite (proj2 (Nat.ltb_ge _ _)) by lia. do 2 f_equal. by apply slice_app.
Qed.

Lemma reads_text s : len16 s → utf8_valid s = true → reads read_cbor_text (encode_cbor_text s) s.
Proof.
  unfold len16, encode_cbor_text. intros Hl Hu. change 0x60 with (3 * 32).
  destruct (cbor_head_shape 3 (zlen s)) as (b & ext & E & _); [done|lia|].
  destruct (reads_length 3 (zlen s) b ext) as [Hm Hr]; [done|lia|done|]. rewrite E. cbn [app].
  apply (reads_byte (invalid "truncated text") (λ b data pos, _)). rewrite Hm. cbn [Z.eqb Pos.eqb negb].
  apply (reads_bind _ _ _ _ _ _ Hr). rewrite Nat2Z.id. apply reads_nil.
  apply (reads_bind _ _ _ _ _ _ (reads_slice s _)). rewrite Hu. apply reads_ret.
Qed.

Lemma reads_bytestring s : len16 s → reads read_cbor_bytestring (encode_cbor_bytes s) s.
Proof.
  unfold len16, encode_cbor_bytes. intros Hl. change 0x40 with (2 * 32).
  destruct (cbor_head_shape 2 (zlen s)) as (b & ext & E & _); [done|lia|].
  destruct (reads_length 2 (zlen s) b ext) as [Hm Hr]; [done|lia|done|]. rewrite E. cbn [app].
  apply (reads_byte (invalid "truncated bytes") (λ b data pos, _)). rewrite Hm. cbn [Z.eqb Pos.eqb negb].
  apply (reads_bind _ _ _ _ _ _ Hr). rewrite Nat2Z.id. apply reads_slice.
Qed.

Lemma reads_cid cid : zlen cid < 65535 → reads read_cbor_cid_value (encode_cbor_cid cid) cid.
Proof.
  intros Hl. unfold encode_cbor_cid. change 0x40 with (2 * 32).
  destruct (cbor_head_shape 2 (1 + zlen cid)) as (b & ext & E & _); [done|lia|].
  destruct (reads_length 2 (1 + zlen cid) b ext) as [Hm Hr]; [done|lia|done|]. rewrite E.
  intros pre rest. cbn [app].
  assert (reads (λ data pos, '(len, pos) ← read_cbor_length (additional_of b) data pos;
     '(cid_bytes, pos) ← read_slice len "CID data extends past end" data pos;
     Ok (strip_multibase cid_bytes, pos)) (ext ++ (x00 :: cid) ++ []) cid) as Hbody.
  { apply (reads_bind _ _ _ _ _ _ Hr). replace (Z.to_nat (1 + zlen cid)) with (length (x00 :: cid)) by (cbn; lia).
    apply (reads_bind _ _ _ _ _ _ (reads_slice (x00 :: cid) _)).
    pose proof (strip_multibase_cid cid) as Hs. cbn [app] in Hs. rewrite Hs. apply reads_ret. }
  rewrite app_nil_r in Hbody. unfold read_cbor_cid_value.
  specialize (Hbody (pre ++ [xd8; z2b 42; b]) rest). rewrite <- !app_assoc in Hbody. cbn [app] in Hbody.
  rewrite <- !app_assoc. cbn [app].
  rewrite (lookup_at _ pre xd8 (z2b 42 :: b :: ext ++ x00 :: cid ++ rest)) by done.
  rewrite (lookup_at _ (pre ++ [xd8]) (z2b 42) (b :: ext ++ x00 :: cid ++ rest))
    by (rewrite <- ?app_assoc, ?length_app; cbn; (done || lia)).
  rewrite (lookup_at _ (pre ++ [xd8; z2b 42]) b (ext ++ x00 :: cid ++ rest))
    by (rewrite <- ?app_assoc, ?length_app; cbn; (done || lia)).
  rewrite Hm. rewrite length_app in Hbody. cbn [length] in Hbody.
  replace (length pre + 3)%nat with (S (S (S (length pre)))) in Hbody by lia.
  change (bool_decide (xd8 = xd8) && (b2z (z2b 42) =? 42)) with true. cbn [Z.eqb Pos.eqb negb].
  rewrite Hbody. do 2 f_equal. rewrite !length_app. cbn [length]. rewrite !length_app. cbn [length]. lia.
Qed.

Lemma encode_cbor_cid_head cid : ∃ l, encode_cbor_cid cid = xd8 :: l.
Proof. by eexists. Qed.

Lemma reads_nullable cid : (∀ c, cid = Some c → zlen c < 65535) → reads read_nullable_cid (encode_opt_cid cid) cid.
Proof.
  destruct cid as [cid|]; intros Hl; cbn [encode_opt_cid].
  - intros pre rest. unfold read_nullable_cid. destruct (encode_cbor_cid_head cid) as [l El].
    rewrite (lookup_at _ pre xd8 (l ++ rest)) by (by rewrite ?El). cbn [decide].
    destruct (decide (xd8 = CBOR_NULL)); [done|]. rewrite (reads_cid cid (Hl _ eq_refl) pre rest). done.
  - intros pre rest. unfold read_nullable_cid. cbn [app]. rewrite (lookup_at _ pre CBOR_NULL rest) by done.
    rewrite decide_True by done. do 2 f_equal. cbn. lia.
Qed.

Lemma reads_uint n : 0 ≤ n < 65536 → reads read_cbor_uint (encode_cbor_uint n) n.
Proof.
  intros Hn pre rest. unfold encode_cbor_uint, read_cbor_uint.
  destruct (Z.ltb_spec n 24) as [H24|H24]; [|destruct (Z.ltb_spec n 256); [|rewrite (proj2 (Z.ltb_lt n 65536)) by lia]].
  - destruct (head_byte 0 n) as [Hm Ha]; [done|lia|]. rewrite Z.mul_0_l, Z.add_0_l in Hm, Ha.
    cbn [app]. rewrite (lookup_at _ pre (z2b n) rest), Hm, Ha by done. cbn [Z.eqb negb].
    rewrite (proj2 (Z.ltb_lt n 24)) by done. do 2 f_equal. cbn. lia.
  - cbn [app]. rewrite (lookup_at _ pre x18 (z2b n :: rest)) by done.
    rewrite (lookup_at _ (pre ++ [x18]) (z2b n) rest) by (rewrite <- ?app_assoc, ?length_app; cbn; (done || lia)).
    change (major_of x18) with 0. change (additional_of x18) with 24. cbn -[b2z z2b length].
    rewrite b2z_z2b_small by lia. do 2 f_equal. cbn. lia.
  - cbn [app]. rewrite (lookup_at _ pre x19 (z2b (Z.shiftr n 8) :: z2b n :: rest)) by done.
    rewrite (lookup_at _ (pre ++ [x19]) (z2b (Z.shiftr n 8)) (z2b n :: rest)) by (rewrite <- ?app_assoc, ?length_app; cbn; (done || lia)).
    rewrite (lookup_at _ (pre ++ [x19; z2b (Z.shiftr n 8)]) (z2b n) rest) by (rewrite <- ?app_assoc, ?length_app; cbn; (done || lia)).
    change (major_of x19) with 0. change (additional_of x19) with 25. cbn -[b2z z2b length Z.lor Z.shiftl Z.shiftr].
    rewrite be16_value by lia. do 2 f_equal. cbn. lia.
Qed.

Lemma reads_key c : is_ascii c = true → reads read_cbor_text [x61; c] [c].
Proof.
  intros Hc. change [x61; c] with (encode_cbor_text [c]). apply reads_text; [done|].
  apply utf8_valid_ascii. cbn [forallb]. by rewrite Hc.
Qed.

(** One field of an entry each. *)
Ltac field_step c Hr :=
  cbn [read_entry_fields]; apply (reads_bind _ _ _ _ _ _ (reads_key c eq_refl));
  repeat (case_decide; [try done|try done]); apply (reads_bind _ _ _ _ _ _ Hr).

Lemma reads_field_k n e k enc r : len16 k →
  reads (read_entry_fields n (mkEntry (prefix_len e) k (value e) (tree e))) enc r →
  reads (read_entry_fields (S n) e) ([x61; x6b] ++ encode_cbor_bytes k ++ enc) r.
Proof. intros Hk Hr. by field_step x6b (reads_bytestring k Hk). Qed.

Lemma reads_field_p n e p enc r : Z.of_nat p < 65536 →
  reads (read_entry_fields n (mkEntry p (key_suffix e) (value e) (tree e))) enc r →
  reads (read_entry_fields (S n) e) ([x61; x70] ++ encode_cbor_uint (Z.of_nat p) ++ enc) r.
Proof. intros Hp Hr. field_step x70 (reads_uint (Z.of_nat p) ltac:(lia)). by rewrite Nat2Z.id. Qed.

Lemma reads_field_t n e t enc r : (∀ c, t = Some c → length c = 36%nat) →
  reads (read_entry_fields n (mkEntry (prefix_len e) (key_suffix e) (value e) t)) enc r →
  reads (read_entry_fields (S n) e) ([x61; x74] ++ encode_opt_cid t ++ enc) r.
Proof.
  intros Ht Hr. assert (∀ c, t = Some c → zlen c < 65535) as Ht' by (intros c Hc; rewrite (Ht c Hc); lia).
  field_step x74 (reads_nullable t Ht'). destruct t as [c|]; cbn [mbind option_bind]; [|done].
  by rewrite (Ht c eq_refl).
Qed.

Lemma reads_field_v n e v enc r : length v = 36%nat →
  reads (read_entry_fields n (mkEntry (prefix_len e) (key_suffix e) v (tree e))) enc r →
  reads (read_entry_fields (S n) e) ([x61; x76] ++ encode_cbor_cid v ++ enc) r.
Proof. intros Hv Hr. field_step x76 (reads_cid v ltac:(lia)). by rewrite Hv. Qed.

(** An entry the format can carry. *)
Record entry_wf (e : MstEntry) : Prop := {
  ew_prefix : Z.of_nat (prefix_len e) < 65536;
  ew_suffix : len16 (key_suffix e);
  ew_value : length (value e) = 36%nat;
  ew_tree : ∀ c, tree e = Some c → length c = 36%nat;
}.

Lemma reads_tree_entry e : entry_wf e → reads read_tree_entry (encode_tree_entry e) e.
Proof.
  intros [Hp Hk Hv Ht]. unfold encode_tree_entry. rewrite <- (app_nil_r (encode_cbor_cid _)).
  apply (reads_byte (invalid "truncated entry") (λ b data pos, _)).
  change (major_of xa4) with 5. change (Z.to_nat (additional_of xa4)) with 4%nat. cbn [Z.eqb Pos.eqb negb].
  apply reads_field_k; [done|]. apply reads_field_p; [done|]. apply reads_field_t; [done|].
  apply reads_field_v; [done|]. cbn. destruct e. apply reads_ret.
Qed.

Lemma reads_entries es acc : Forall entry_wf es →
  reads (read_entries (length es) acc) (concat (encode_tree_entry <$> es)) (acc ++ es).
Proof.
  intros Hes. revert acc. induction Hes as [|e es He Hes IH]; intros acc; cbn [length read_entries fmap list_fmap concat].
  - rewrite app_nil_r. apply reads_ret.
  - apply (reads_bind _ _ _ _ _ _ (reads_tree_entry e He)). rewrite (cons_middle e acc es), (app_assoc acc [e] es). apply IH.
Qed.

Lemma reads_entries_array es : len16 es → Forall entry_wf es →
  reads read_entries_array (encode_cbor_array_header (zlen es) ++ concat (encode_tree_entry <$> es)) es.
Proof.
  unfold len16, encode_cbor_array_header. intros Hl Hes. change 0x80 with (4 * 32).
  destruct (cbor_head_shape 4 (zlen es)) as (b & ext & E & _); [done|lia|].
  destruct (reads_length 4 (zlen es) b ext) as [Hm Hr]; [done|lia|done|]. rewrite E. cbn [app].
  apply (reads_byte (invalid "truncated entries array") (λ b data pos, _)). rewrite Hm. cbn [Z.eqb Pos.eqb negb].
  apply (reads_bind _ _ _ _ _ _ Hr). rewrite Nat2Z.id. by apply reads_entries.
Qed.

Record node_wf (left : option bytes) (entries : list MstEntry) : Prop := {
  nw_left : ∀ c, left = Some c → length c = 36%nat;
  nw_count : len16 entries;
  nw_entries : Forall entry_wf entries;
}.

Lemma decode_encode_node left es : node_wf left es → decode_node (encode_node left es) = Ok (left, es).
Proof.
  intros [Hl Hn Hes]. unfold decode_node, encode_node. cbn [app lookup list_lookup].
  change (major_of xa2) with 5. change (Z.to_nat (additional_of xa2)) with 2%nat. cbn [Z.eqb Pos.eqb negb].
  assert (∀ c, left = Some c → zlen c < 65535) as Hl' by (intros c Hc; rewrite (Hl c Hc); lia).
  assert (reads (decode_fields 2 None [])
    ([x61; x65] ++ (encode_cbor_array_header (zlen es) ++ concat (encode_tree_entry <$> es))
     ++ [x61; x6c] ++ encode_opt_cid left ++ []) (left, es)) as Hr.
  { cbn [decode_fields]. apply (reads_bind _ _ _ _ _ _ (reads_key x65 eq_refl)).
    case_decide; [|done]. apply (reads_bind _ _ _ _ _ _ (reads_entries_array es Hn Hes)).
    apply (reads_bind _ _ _ _ _ _ (reads_key x6c eq_refl)). case_decide; [done|]. case_decide; [|done].
    apply (reads_bind _ _ _ _ _ _ (reads_nullable left Hl')). apply reads_ret. }
  specialize (Hr [xa2] []). rewrite !app_nil_r, <- app_assoc in Hr. cbn [app length] in Hr. rewrite Hr. done.
Qed.

(** Readers move forward. *)
Lemma read_length_forward a data pos len pos' :
  read_cbor_length a data pos = Ok (len, pos') → (pos ≤ pos')%nat.
Proof.
  unfold read_cbor_length, invalid. intros E.
  destruct (a <? 24); [injection E as _ <-; lia|]. destruct (a =? 24).
  { destruct (data !! pos); [|done]. injection E as _ <-. lia. }
  destruct (a =? 25); [|done]. destruct (data !! pos), (data !! S pos); try done. injection E as _ <-. lia.
Qed.

Lemma skip_many_forward skip n data pos u pos' :
  (∀ p u p', skip data p = Ok (u, p') → (p ≤ p')%nat) →
  skip_many skip n data pos = Ok (u, pos') → (pos ≤ pos')%nat.
Proof.
  intros Hs. revert pos. induction n as [|n IH]; intros pos; cbn [skip_many]; [by intros [= _ <-]|].
  destruct (skip data pos) as [[u1 p1]| |] eqn:E; osimpl; [|done..]. intros Hr%IH. apply Hs in E. lia.
Qed.

Lemma skip_cbor_forward fuel data pos u pos' : skip_cbor fuel data pos = Ok (u, pos') → (S pos ≤ pos')%nat.
Proof.
  revert pos u pos'. induction fuel as [|fuel IH]; intros pos u pos'; cbn [skip_cbor]; [done|].
  assert (∀ p u p', skip_cbor fuel data p = Ok (u, p') → (p ≤ p')%nat) as IH' by (intros p u' p' E%IH; lia).
  destruct (data !! pos) as [b|]; [|done].
  destruct ((major_of b =? 2) || (major_of b =? 3)); [|destruct (major_of b =? 4); [|destruct (major_of b =? 5)]].
  1-3: destruct (read_cbor_length _ _ _) as [[len p]| |] eqn:El; osimpl; [|done..];
    apply read_length_forward in El.
  - intros [= _ <-]. lia.
  - intros E%skip_many_forward; [lia|done].
  - intros E%skip_many_forward; [lia|done].
  - destruct (major_of b =? 6); [intros E%IH; lia|]. intros [= _ <-]. lia.
Qed.

Lemma skip_many_ext skip skip' n data pos :
  (∀ p, (pos ≤ p)%nat → skip data p = skip' data p) →
  (∀ p u p', skip data p = Ok (u, p') → (p ≤ p')%nat) →
  skip_many skip n data pos = skip_many skip' n data pos.
Proof.
  intros He Hf. revert pos He. induction n as [|n IH]; intros pos He; cbn [skip_many]; [done|].
  rewrite <- He by lia. destruct (skip data pos) as [[u p]| |] eqn:E; osimpl; [|done..].
  apply IH. intros q Hq. apply He. apply Hf in E. lia.
Qed.

(** Running out of fuel is running out of data: the depth allowed by the length
    of the data is never the reason skipping stops. *)
Lemma skip_cbor_fuel data f f' pos :
  (length data ≤ pos + f)%nat → (length data ≤ pos + f')%nat →
  skip_cbor f data pos = skip_cbor f' data pos.
Proof.
  revert f' pos. induction f as [|f IH]; intros f' pos Hf Hf'.
  { cbn [skip_cbor]. destruct f' as [|f']; [done|]. cbn [skip_cbor].
    by rewrite (proj2 (lookup_ge_None data pos)) by lia. }
  destruct f' as [|f']; [cbn [skip_cbor]; by rewrite (proj2 (lookup_ge_None data pos)) by lia|].
  cbn [skip_cbor]. destruct (data !! pos) as [b|]; [|done].
  assert (∀ p, (S pos ≤ p)%nat → skip_cbor f data p = skip_cbor f' data p) as He by (intros; apply IH; lia).
  assert (∀ p u p', skip_cbor f data p = Ok (u, p') → (p ≤ p')%nat) as Hfw
    by (intros p u p' E%skip_cbor_forward; lia).
  destruct ((major_of b =? 2) || (major_of b =? 3)); [done|].
  destruct (major_of b =? 4); [|destruct (major_of b =? 5); [|destruct (major_of b =? 6); [apply He; lia|done]]].
  all: destruct (read_cbor_length _ _ _) as [[len p]| |] eqn:El; osimpl; [|done..];
    apply read_length_forward in El; apply skip_many_ext; [intros; apply He; lia|done].
Qed.
