(* ===== verification/Mst.v ===== *)
(** Mst: the Merkle search tree, [kappa-module-atproto/src/mst.rs]: the map of
    records, its serialization into content-addressed nodes by layer, and diffs.

    [BlockStore] is the trait the tree is written through; the theorems about
    serialization are proved against its laws, which [MemoryBlockStore] has. *)

From S2P Require Import Prelude Label Compute Merkle Cid AtCbor MstNode.

(** * Block storage *)

Class BlockStore (St : Type) := {
  bs_get : bytes → St → option bytes;
  bs_put : bytes → St → St * bytes;
}.

(** A put returns the identifier of the data and makes it readable under it,
    leaving other identifiers alone. *)
Class BlockStoreLaws (St : Type) `{HashCrates} `{BlockStore St} : Prop := {
  bs_put_cid : ∀ d s, (bs_put d s).2 = cid_for_cbor d;
  bs_put_get : ∀ d s, bs_get (cid_for_cbor d) (bs_put d s).1 = Some d;
  bs_put_other : ∀ d s c, c ≠ cid_for_cbor d → bs_get c (bs_put d s).1 = bs_get c s;
}.

Definition MemoryBlockStore : Type := gmap bytes bytes.

#[export] Instance memory_blocks `{HashCrates} : BlockStore MemoryBlockStore := {|
  bs_get cid blocks := if negb (length cid =? 36)%nat then None else blocks !! cid;
  bs_put data blocks := (<[cid_for_cbor data := data]> blocks, cid_for_cbor data);
|}.

(** * The map of records *)

Abbreviation Mst := (gmap rstr bytes).

Definition mst_new : Mst := ∅.

Definition mst_insert (key : rstr) (value : bytes) (m : Mst) : outcome MstError Mst :=
  if negb (is_valid_mst_key key) then Err (InvalidKey key)
  else if bool_decide (is_Some (m !! key)) then Err (KeyExists key)
  else Ok (<[key := value]> m).

Definition mst_update (key : rstr) (value : bytes) (m : Mst) : outcome MstError Mst :=
  if negb (bool_decide (is_Some (m !! key))) then Err (KeyNotFound key)
  else Ok (<[key := value]> m).

Definition mst_delete (key : rstr) (m : Mst) : outcome MstError (Mst * bytes) :=
  match m !! key with
  | Some v => Ok (delete key m, v)
  | None => Err (KeyNotFound key)
  end.

Definition mst_get (key : rstr) (m : Mst) : option bytes := m !! key.
Definition mst_len (m : Mst) : nat := size m.
Definition mst_is_empty (m : Mst) : bool := bool_decide (m = ∅).

(** Iteration of a [BTreeMap]: increasing keys. *)
Definition kv_le (a b : rstr * bytes) : bool := bytes_leb a.1 b.1.
Definition mst_iter (m : Mst) : list (rstr * bytes) := sort_by kv_le (map_to_list m).

(** * Serialization *)

Fixpoint count_prefix_len (a b : rstr) : nat :=
  match a, b with
  | x :: a, y :: b => if decide (x = y) then S (count_prefix_len a b) else 0
  | _, _ => 0
  end.

(** A key with its value and its layer. *)
Definition keyed : Type := rstr * bytes * nat.

(** [while i < end && keys[i].2 < layer]: the keys skipped and those left. *)
Fixpoint split_lower (layer : nat) (keys : list keyed) : list keyed * list keyed :=
  match keys with
  | (k, v, l) :: rest =>
      if (l <? layer)%nat then let '(lower, rest) := split_lower layer rest in ((k, v, l) :: lower, rest)
      else ([], keys)
  | [] => ([], [])
  end.

Section build.
Context `{HashCrates} {St : Type} `{BlockStore St}.

(** The store and [all_blocks]. *)
Definition build_state : Type := St * list (bytes * bytes).

(** The main loop over [keys[i..end]]; [sub] builds a subtree of the keys in
    between.  Each turn drops a key at least. *)
Fixpoint leaves_loop (fuel layer : nat) (sub : list keyed → build_state → build_state * option bytes)
  (prev_key : rstr) (keys : list keyed) (node_entries : list MstEntry) (st : build_state)
  : build_state * list MstEntry :=
  match fuel, keys with
  | S fuel, (key, value, l) :: rest =>
      if decide (l = layer) then
        let prefix_len := count_prefix_len prev_key key in
        let key_suffix := drop prefix_len key in
        let '(lower, rest) := split_lower layer rest in
        let '(st, right_subtree) := sub lower st in
        leaves_loop fuel layer sub key rest
          (node_entries ++ [mkEntry prefix_len key_suffix value right_subtree]) st
      else leaves_loop fuel layer sub prev_key rest node_entries st
  | _, _ => (st, node_entries)
  end.

Definition put_block (node_bytes : bytes) (st : build_state) : build_state * bytes :=
  let '(store, cid) := bs_put node_bytes st.1 in
  ((store, st.2 ++ [(cid, node_bytes)]), cid).

(** [build_subtree] on the window [keys[start..end]]. *)
Fixpoint build_subtree (layer : nat) (keys : list keyed) (st : build_state) : build_state * bytes :=
  let sub := match layer with
             | O => λ _ st, (st, None)
             | S below => λ lower st,
                 if decide (lower = []) then (st, None)
                 else let '(st, cid) := build_subtree below lower st in (st, Some cid)
             end in
  let '(lower, rest) := split_lower layer keys in
  let '(st, left_subtree) := sub lower st in
  let '(st, node_entries) := leaves_loop (length rest) layer sub [] rest [] st in
  put_block (encode_node left_subtree node_entries) st.

Definition with_layer (kv : rstr * bytes) : keyed := (kv.1, kv.2, leading_zeros kv.1).

Definition write_to_store (m : Mst) (store : St) : St * (bytes * list (bytes * bytes)) :=
  if mst_is_empty m then
    let '(st, cid) := put_block (encode_node None []) (store, []) in (st.1, (cid, st.2))
  else
    let keys := with_layer <$> mst_iter m in
    let max_layer := foldr Nat.max 0%nat (snd <$> keys) in
    let '(st, root) := build_subtree max_layer keys (store, []) in
    (st.1, (root, st.2)).
End build.

(** * Diffs *)

Record MstDiff := mkDiff {
  created : list (rstr * bytes);
  updated : list (rstr * bytes * bytes);
  deleted : list (rstr * bytes);
}.

Definition mst_diff (self other : Mst) : MstDiff :=
  mkDiff
    (omap (λ '(k, v), match other !! k with None => Some (k, v) | Some _ => None end) (mst_iter self))
    (omap (λ '(k, v), match other !! k with
                      | Some old => if decide (old ≠ v) then Some (k, old, v) else None
                      | None => None
                      end) (mst_iter self))
    (omap (λ '(k, v), match self !! k with None => Some (k, v) | Some _ => None end) (mst_iter other)).

(** * Reading a tree back (specification)

    [read_tree] reads a node by its identifier, checks that the block has it, and
    lists the records of the subtree in order, rebuilding each key from the key
    before it in the node. *)
Fixpoint read_leaves (child : option bytes → option (list (rstr * bytes))) (prev : rstr) (es : list MstEntry)
  : option (list (rstr * bytes)) :=
  match es with
  | [] => Some []
  | e :: es =>
      let key := take (prefix_len e) prev ++ key_suffix e in
      t ← child (tree e); rest ← read_leaves child key es; Some ((key, value e) :: t ++ rest)
  end.

Fixpoint read_tree `{HashCrates} (fuel : nat) (get : bytes → option bytes) (cid : bytes)
  : option (list (rstr * bytes)) :=
  match fuel with
  | O => None
  | S fuel =>
      let child c := match c with Some c => read_tree fuel get c | None => Some [] end in
      data ← get cid;
      if decide (cid = cid_for_cbor data) then
        match decode_node data with
        | Ok (l, entries) => first ← child l; rest ← read_leaves child [] entries; Some (first ++ rest)
        | _ => None
        end
      else None
  end.

Definition read_child `{HashCrates} (fuel : nat) (get : bytes → option bytes) (c : option bytes) :=
  match c with Some c => read_tree fuel get c | None => Some [] end.

(** * Facts *)

Lemma count_prefix_take a b : take (count_prefix_len a b) a = take (count_prefix_len a b) b.
Proof.
  revert b. induction a as [|x a IH]; intros [|y b]; cbn [count_prefix_len take]; [done..|].
  case_decide as E; [|done]. subst. cbn [take]. by rewrite IH.
Qed.

Lemma count_prefix_le a b : (count_prefix_len a b ≤ length b)%nat.
Proof.
  revert b. induction a as [|x a IH]; intros [|y b]; cbn [count_prefix_len length]; [lia..|].
  case_decide; [|lia]. specialize (IH b). lia.
Qed.

(** Prefix compression is undone with the previous key. *)
Lemma prefix_decompress prev key :
  take (count_prefix_len prev key) prev ++ drop (count_prefix_len prev key) key = key.
Proof. by rewrite count_prefix_take, take_drop. Qed.

Lemma split_lower_spec layer keys lower rest : split_lower layer keys = (lower, rest) →
  keys = lower ++ rest ∧ Forall (λ k : keyed, (k.2 < layer)%nat) lower ∧
  (∀ k, head rest = Some k → (layer ≤ k.2)%nat).
Proof.
  revert lower rest. induction keys as [|[[k v] l] keys IH]; intros lower rest; cbn [split_lower].
  { intros [= <- <-]. done. }
  destruct (Nat.ltb_spec l layer) as [Hlt|Hge].
  - destruct (split_lower layer keys) as [lo re]. intros [= <- <-].
    destruct (IH lo re eq_refl) as (-> & Hlo & Hre). split_and!; [done| |done]. by constructor.
  - intros [= <- <-]. split_and!; [done|done|]. by intros k' [= <-].
Qed.

(** A key and value the format can carry. *)
Definition keyed_ok (k : keyed) : Prop := len16 k.1.1 ∧ length k.1.2 = 36%nat.

Definition kvs (keys : list keyed) : list (rstr * bytes) := fst <$> keys.

Section facts.
Context `{HashCratesLaws} {St : Type} `{!BlockStore St} `{!BlockStoreLaws St}.

Abbreviation state := (build_state (St := St)).

(** A block read back, among those written during the build. *)
Definition written (st : state) (c : bytes) : option bytes :=
  d ← bs_get c st.1; if decide (d ∈ st.2.*2) then Some d else None.

Definition collided (st : state) : Prop := sha256_collides st.2.*2.

(** Written blocks that verify stay readable, short of a collision among them. *)
Definition extends (st st' : state) : Prop :=
  st.2.*2 ⊆ st'.2.*2 ∧
  ∀ c d, written st c = Some d → c = cid_for_cbor d → written st' c = Some d ∨ collided st'.

Lemma extends_refl st : extends st st.
Proof. split; [done|]. intros c d Hc _. by left. Qed.

Lemma extends_collided st st' : extends st st' → collided st → collided st'.
Proof. intros [Hsub _]. apply sha256_collides_mono, Hsub. Qed.

Lemma extends_trans s1 s2 s3 : extends s1 s2 → extends s2 s3 → extends s1 s3.
Proof.
  intros [Hs12 H12] H23. split; [etrans; [done|apply H23]|]. intros c d Hc Hd.
  destruct (H12 c d Hc Hd); [by apply H23|]. right. by eapply extends_collided.
Qed.

Lemma written_Some st c d : written st c = Some d ↔ bs_get c st.1 = Some d ∧ d ∈ st.2.*2.
Proof.
  unfold written. destruct (bs_get c st.1) as [e|]; cbn [mbind option_bind]; [|by naive_solver].
  case_decide; naive_solver.
Qed.

Lemma put_block_spec data st st' cid : put_block data st = (st', cid) →
  cid = cid_for_cbor data ∧ extends st st' ∧ written st' cid = Some data ∧ st'.2 = st.2 ++ [(cid, data)].
Proof.
  unfold put_block. destruct (bs_put data st.1) as [s c] eqn:E. intros [= <- <-].
  pose proof (bs_put_cid data st.1) as Hc. pose proof (bs_put_get data st.1) as Hg.
  pose proof (bs_put_other data st.1) as Ho. rewrite E in Hc, Hg, Ho. cbn in Hc, Hg, Ho. subst c.
  assert (data ∈ (st.2 ++ [(cid_for_cbor data, data)]).*2) as Hin
    by (rewrite fmap_app, elem_of_app; right; by left).
  split_and!; [done| |by apply written_Some|done]. split; cbn [snd].
  { rewrite fmap_app. set_solver. }
  intros c d [Hd Hdin]%written_Some ->. destruct (decide (d = data)) as [->|Hne].
  { left. by apply written_Some. }
  assert (d ∈ (st.2 ++ [(cid_for_cbor data, data)]).*2) as Hdin' by (rewrite fmap_app; set_solver).
  destruct (decide (cid_for_cbor d = cid_for_cbor data)) as [Ec|Ec].
  - right. exists d, data. split_and!; [done..|]. by apply cid_inj.
  - left. apply written_Some. cbn [fst snd]. by rewrite Ho.
Qed.

Lemma read_leaves_mono (child child' : option bytes → option (list (rstr * bytes))) (P : Prop) prev es r :
  (∀ c t, child c = Some t → child' c = Some t ∨ P) →
  read_leaves child prev es = Some r → read_leaves child' prev es = Some r ∨ P.
Proof.
  intros Hc. revert prev r. induction es as [|e es IH]; intros prev r; cbn [read_leaves]; [by left|].
  destruct (child (tree e)) as [t|] eqn:Et; [|done]. cbn [mbind option_bind].
  destruct (read_leaves child _ es) as [rest|] eqn:Er; [|done]. cbn [mbind option_bind]. intros [= <-].
  destruct (Hc _ _ Et) as [->|]; [|by right]. destruct (IH _ _ Er) as [E|]; [|by right].
  left. cbn [mbind option_bind]. by rewrite E.
Qed.

Lemma read_tree_mono fuel s s' cid r : extends s s' →
  read_tree fuel (written s) cid = Some r →
  read_tree fuel (written s') cid = Some r ∨ collided s'.
Proof.
  intros [Hsub Hext]. revert cid r. induction fuel as [|fuel IH]; intros cid r; cbn [read_tree]; [done|].
  assert (∀ c t, read_child fuel (written s) c = Some t →
    read_child fuel (written s') c = Some t ∨ collided s') as Hchild.
  { intros [c|] t; cbn [read_child]; [apply IH|by left]. }
  destruct (written s cid) as [data|] eqn:Hg; [|done]. cbn [mbind option_bind].
  destruct (decide (cid = cid_for_cbor data)) as [Hcid|]; [|done].
  destruct (Hext cid data Hg Hcid) as [->|]; [|by right]. cbn [mbind option_bind].
  rewrite decide_True by done. destruct (decode_node data) as [[l es]| |]; [|done..].
  change (match l with Some c => read_tree fuel (written s) c | None => Some [] end)
    with (read_child fuel (written s) l).
  change (match l with Some c => read_tree fuel (written s') c | None => Some [] end)
    with (read_child fuel (written s') l).
  destruct (read_child fuel (written s) l) as [first|] eqn:El; [|done]. cbn [mbind option_bind].
  destruct (Hchild _ _ El) as [->|]; [|by right]. cbn [mbind option_bind].
  change (λ c, match c with Some c => read_tree fuel (written s) c | None => Some [] end)
    with (read_child fuel (written s)).
  change (λ c, match c with Some c => read_tree fuel (written s') c | None => Some [] end)
    with (read_child fuel (written s')).
  destruct (read_leaves (read_child fuel (written s)) [] es) as [rest|] eqn:Er; [|done].
  intros [= <-]. destruct (read_leaves_mono _ _ _ _ _ _ Hchild Er) as [->|]; [by left|by right].
Qed.

Lemma read_child_mono fuel s s' c r : extends s s' →
  read_child fuel (written s) c = Some r →
  read_child fuel (written s') c = Some r ∨ collided s'.
Proof. intros He. destruct c as [c|]; cbn [read_child]; [by apply read_tree_mono|by left]. Qed.

(** What building the subtrees below [layer] promises to the loop. *)
Definition sub_spec (layer : nat) (sub : list keyed → build_state → build_state (St := St) * option bytes) : Prop :=
  ∀ lower st st' c, Forall keyed_ok lower → len16 lower → Forall (λ k : keyed, (k.2 < layer)%nat) lower →
    sub lower st = (st', c) →
    extends st st' ∧ (∀ c', c = Some c' → length c' = 36%nat) ∧
    (read_child layer (written st') c = Some (kvs lower) ∨ collided st').

Lemma leaves_loop_spec fuel layer sub prev keys es0 st st' es :
  sub_spec layer sub → (length keys ≤ fuel)%nat → Forall keyed_ok keys → len16 keys →
  Forall (λ k : keyed, (k.2 ≤ layer)%nat) keys → (∀ k, head keys = Some k → (layer ≤ k.2)%nat) →
  leaves_loop fuel layer sub prev keys es0 st = (st', es) →
  ∃ new, es = es0 ++ new ∧ extends st st' ∧ Forall entry_wf new ∧ (length new ≤ length keys)%nat ∧
    (read_leaves (read_child layer (written st')) prev new = Some (kvs keys) ∨ collided st').
Proof.
  intros Hsub. revert prev keys es0 st. induction fuel as [|fuel IH]; intros prev keys es0 st Hf Hok Hn Hle Hhd Hrun.
  { destruct keys; [|cbn in Hf; lia]. injection Hrun as <- <-. exists [].
    rewrite app_nil_r. split_and!; [done|apply extends_refl|constructor|done|by left]. }
  destruct keys as [|[[k v] l] rest]; cbn [leaves_loop] in Hrun.
  { injection Hrun as <- <-. exists [].
    rewrite app_nil_r. split_and!; [done|apply extends_refl|constructor|done|by left]. }
  assert (l = layer) as ->.
  { specialize (Hhd _ eq_refl). apply Forall_cons_1 in Hle as [Hl _]. cbn in *. lia. }
  rewrite decide_True in Hrun by done.
  destruct (split_lower layer rest) as [lower rest'] eqn:Hsp.
  apply split_lower_spec in Hsp as (-> & Hlow & Hhd').
  destruct (sub lower st) as [st1 c] eqn:Hs.
  apply Forall_cons_1 in Hok as [[Hk Hv] [Hok1 Hok2]%Forall_app]. apply Forall_cons_1 in Hle as [_ [_ Hle2]%Forall_app].
  unfold len16 in Hn. cbn [length] in Hn, Hf. rewrite length_app in Hn, Hf.
  destruct (Hsub lower st st1 c) as (He1 & Hc & Hr1); [done|unfold len16; lia|done|done|].
  apply IH in Hrun as (new & -> & He2 & Hwf & Hlen & Hr2); [|lia|done|unfold len16; lia|done|done].
  set (e := mkEntry (count_prefix_len prev k) (drop (count_prefix_len prev k) k) v c).
  exists (e :: new). rewrite <- app_assoc. split_and!.
  - done.
  - by eapply extends_trans.
  - constructor; [|done]. pose proof (count_prefix_le prev k). unfold len16 in *. cbn in Hk, Hv.
    split; cbn; [lia|unfold len16; rewrite length_drop; lia|done|done].
  - cbn [length]. rewrite length_app. lia.
  - destruct Hr1 as [Hr1|]; [|right; by eauto using extends_collided]. destruct Hr2 as [Hr2|]; [|right; by eauto using extends_collided].
    destruct (read_child_mono _ _ _ _ _ He2 Hr1) as [Hr1'|]; [|right; by eauto using extends_collided]. left.
    cbn [read_leaves prefix_len key_suffix tree value e]. rewrite prefix_decompress.
    unfold e. cbn [tree]. rewrite Hr1'. cbn [mbind option_bind]. rewrite Hr2. cbn [mbind option_bind].
    unfold kvs. by rewrite fmap_cons, fmap_app.
Qed.

(** Encoding and storing a node whose parts are readable. *)
Lemma put_node_spec layer left_ es kv0 kv1 st st' cid : node_wf left_ es →
  (read_child layer (written st) left_ = Some kv0 ∨ collided st) →
  (read_leaves (read_child layer (written st)) [] es = Some kv1 ∨ collided st) →
  put_block (encode_node left_ es) st = (st', cid) →
  extends st st' ∧ length cid = 36%nat ∧
  (read_tree (S layer) (written st') cid = Some (kv0 ++ kv1) ∨ collided st').
Proof.
  intros Hwf Hr0 Hr1 (-> & He & Hg & _)%put_block_spec. split_and!; [done|apply length_cid|].
  destruct Hr0 as [Hr0|]; [|right; by eauto using extends_collided]. destruct Hr1 as [Hr1|]; [|right; by eauto using extends_collided].
  destruct (read_child_mono _ _ _ _ _ He Hr0) as [Hr0'|]; [|right; by eauto using extends_collided].
  destruct (read_leaves_mono _ _ _ _ _ _ (λ c t, read_child_mono layer _ _ c t He) Hr1) as [Hr1'|]; [|right; by eauto using extends_collided].
  left. cbn [read_tree]. rewrite Hg. cbn [mbind option_bind]. rewrite decide_True by done.
  rewrite (decode_encode_node _ _ Hwf). fold (read_child layer (written st') left_). rewrite Hr0'.
  cbn [mbind option_bind]. fold (read_child layer (written st')). rewrite Hr1'. done.
Qed.

Lemma build_subtree_spec layer keys st st' cid :
  Forall keyed_ok keys → len16 keys → Forall (λ k : keyed, (k.2 ≤ layer)%nat) keys →
  build_subtree layer keys st = (st', cid) →
  extends st st' ∧ length cid = 36%nat ∧
  (read_tree (S layer) (written st') cid = Some (kvs keys) ∨ collided st').
Proof.
  revert keys st st' cid. induction layer as [layer IH] using lt_wf_ind. intros keys st st' cid Hok Hn Hle Hrun.
  set (sub := match layer with
              | O => λ _ st, (st, None)
              | S below => λ lower st,
                 if decide (lower = []) then (st, None)
                 else let '(st, cid) := build_subtree below lower st in (st, Some cid)
             end).
  assert (sub_spec layer sub) as Hsub.
  { intros lower s s' c Hlok Hln Hlow. unfold sub. destruct layer as [|below].
    - intros [= <- <-]. destruct lower as [|k lower]; [|apply Forall_cons_1 in Hlow; lia].
      split_and!; [apply extends_refl|done|by left].
    - destruct (decide (lower = [])) as [->|Hne].
      { intros [= <- <-]. split_and!; [apply extends_refl|done|by left]. }
      destruct (build_subtree below lower s) as [s1 c1] eqn:E. intros [= <- <-].
      apply IH in E as (He & Hl & Hr); [|lia|done|done|eapply Forall_impl; [exact Hlow|cbn; lia]].
      split_and!; [done|by intros c' [= <-]|done]. }
  assert (build_subtree layer keys st =
    let '(lower, rest) := split_lower layer keys in let '(st, left_subtree) := sub lower st in
    let '(st, node_entries) := leaves_loop (length rest) layer sub [] rest [] st in
    put_block (encode_node left_subtree node_entries) st) as Hun by (unfold sub; by destruct layer).
  rewrite Hun in Hrun. clear Hun. clearbody sub.
  destruct (split_lower layer keys) as [lower rest] eqn:Hsp. apply split_lower_spec in Hsp as (-> & Hlow & Hhd).
  unfold len16 in Hn. rewrite length_app in Hn. apply Forall_app in Hok as [Hok1 Hok2]. apply Forall_app in Hle as [_ Hle2].
  destruct (sub lower st) as [st1 c] eqn:Hs. destruct (Hsub lower st st1 c) as (He1 & Hc & Hr1); [done|unfold len16; lia|done|done|].
  destruct (leaves_loop _ _ _ _ _ _ _) as [st2 es] eqn:Hl.
  apply leaves_loop_spec in Hl as (new & -> & He2 & Hwf & Hlen & Hr2); [|done|done|done|unfold len16; lia|done|done].
  cbn [app] in Hrun. apply (put_node_spec layer _ _ (kvs lower) (kvs rest)) in Hrun as (He3 & Hcid & Hr3).
  - split_and!; [eapply extends_trans; [exact He1|]; by eapply extends_trans|done|]. unfold kvs. by rewrite fmap_app.
  - split; [done|unfold len16; lia|done].
  - destruct Hr1 as [Hr1|]; [|right; by eauto using extends_collided]. by eapply read_child_mono.
  - done.
Qed.
End facts.

#[export] Instance memory_blocks_laws `{HashCratesLaws} : BlockStoreLaws MemoryBlockStore.
Proof.
  split.
  - done.
  - intros d s. cbn [bs_get bs_put memory_blocks fst]. rewrite length_cid. apply lookup_insert_eq.
  - intros d s c Hc. cbn [bs_get bs_put memory_blocks fst]. destruct (length c =? 36)%nat; [|done]. cbn [negb]. apply (lookup_insert_ne (M := gmap bytes)); congruence.
Qed.

(** Reachable trees hold valid keys and 36-byte identifiers. *)
Definition mst_wf (m : Mst) : Prop :=
  map_Forall (λ k v, is_valid_mst_key k = true ∧ length v = 36%nat) m.

Inductive mst_reach : Mst → Prop :=
| mst_r_new : mst_reach mst_new
| mst_r_insert m m' k v : mst_reach m → length v = 36%nat → mst_insert k v m = Ok m' → mst_reach m'
| mst_r_update m m' k v : mst_reach m → length v = 36%nat → mst_update k v m = Ok m' → mst_reach m'
| mst_r_delete m m' k v : mst_reach m → mst_delete k m = Ok (m', v) → mst_reach m'.

Lemma mst_reach_wf m : mst_reach m → mst_wf m.
Proof.
  induction 1 as [|m m' k v _ IH Hv Hi|m m' k v _ IH Hv Hu|m m' k v _ IH Hd].
  - apply map_Forall_empty.
  - unfold mst_insert in Hi. destruct (is_valid_mst_key k) eqn:Hk; [|done]. cbn [negb] in Hi.
    case_bool_decide; [done|]. injection Hi as <-. by apply map_Forall_insert_2.
  - unfold mst_update in Hu. case_bool_decide as Hs; [|done]. injection Hu as <-. destruct Hs as [v0 Hv0].
    apply map_Forall_insert_2; [|done]. split; [by apply (IH k v0)|done].
  - unfold mst_delete in Hd. destruct (m !! k); [|done]. injection Hd as <- _. by apply map_Forall_delete.
Qed.

Lemma mst_iter_perm m : mst_iter m ≡ₚ map_to_list m.
Proof. apply sort_by_perm. Qed.

Lemma mst_iter_elem m k v : (k, v) ∈ mst_iter m ↔ m !! k = Some v.
Proof. rewrite mst_iter_perm. apply elem_of_map_to_list. Qed.

Lemma mst_iter_sorted m : StronglySorted (λ a b, bytes_le a.1 b.1) (mst_iter m).
Proof.
  apply (sort_by_sorted kv_le); unfold kv_le; [intros x y; apply bytes_leb_total|intros x y z; apply bytes_leb_trans].
Qed.

Lemma mst_iter_inj m m' : mst_iter m = mst_iter m' → m = m'.
Proof.
  intros E. apply map_eq. intros k. apply option_eq. intros v. rewrite <- !mst_iter_elem. by rewrite E.
Qed.

Lemma valid_key_len k : is_valid_mst_key k = true → len16 k.
Proof.
  unfold is_valid_mst_key, len16, MAX_KEY_LEN. destruct (Z.ltb_spec 1024 (zlen k)); [done|lia].
Qed.

Lemma with_layer_ok `{HashCrates} m : mst_wf m → Forall keyed_ok (with_layer <$> mst_iter m).
Proof.
  intros Hw. apply Forall_fmap, Forall_forall. intros [k v] Hin. apply mst_iter_elem in Hin.
  destruct (Hw k v Hin) as [Hk Hv]. split; [by apply valid_key_len|done].
Qed.

Lemma with_layer_kvs `{HashCrates} l : kvs (with_layer <$> l) = l.
Proof.
  unfold kvs. rewrite <- list_fmap_compose. rewrite <- (list_fmap_id l) at 2. apply list_fmap_ext.
  intros i [k v] _. done.
Qed.

Lemma le_max_layer (keys : list keyed) :
  Forall (λ k : keyed, (k.2 ≤ foldr Nat.max 0 (snd <$> keys))%nat) keys.
Proof.
  induction keys as [|k keys IH]; [constructor|]. cbn [fmap list_fmap foldr]. constructor; [lia|].
  eapply Forall_impl; [exact IH|]. cbn. lia.
Qed.

Lemma length_mst_iter m : length (mst_iter m) = size m.
Proof. etrans; [apply Permutation_length, mst_iter_perm|apply (length_map_to_list (M := gmap rstr))]. Qed.

Section tree.
Context `{HashCratesLaws} {St : Type} `{!BlockStore St} `{!BlockStoreLaws St}.

Lemma write_to_store_spec m s s' root blocks : mst_wf m → Z.of_nat (size m) < 65536 →
  write_to_store m s = (s', (root, blocks)) →
  (∃ fuel, read_tree fuel (written (s', blocks)) root = Some (mst_iter m)) ∨ sha256_collides blocks.*2.
Proof.
  intros Hw Hn. unfold write_to_store, mst_is_empty. case_bool_decide as Hm.
  - destruct (put_block (encode_node None []) (s, [])) as [[s1 b1] c] eqn:E. intros [= <- <- <-].
    apply (put_node_spec 0 None [] [] []) in E as (He & _ & Hr);
      [|by split|by left|by left].
    subst m. destruct Hr as [Hr|]; [|by right]. left. exists 1%nat. exact Hr.
  - destruct (build_subtree _ _ _) as [[s1 b1] c] eqn:E. intros [= <- <- <-].
    apply build_subtree_spec in E as (He & _ & Hr);
      [|by apply with_layer_ok|unfold len16; rewrite length_fmap, length_mst_iter; lia|apply le_max_layer].
    rewrite with_layer_kvs in Hr. destruct Hr as [Hr|]; [|by right]. left. eexists. exact Hr.
Qed.
End tree.

(** The nodes written do not depend on the store they are written to. *)
Section independent.
Context `{HashCratesLaws} {St St' : Type} `{!BlockStore St} `{!BlockStoreLaws St}
  `{!BlockStore St'} `{!BlockStoreLaws St'}.

Definition same_build {A} (r : build_state (St := St) * A) (r' : build_state (St := St') * A) : Prop :=
  r.2 = r'.2 ∧ r.1.2 = r'.1.2.

Lemma put_block_same d (st : build_state (St := St)) (st' : build_state (St := St')) :
  st.2 = st'.2 → same_build (put_block d st) (put_block d st').
Proof.
  intros E. unfold put_block. destruct (bs_put d st.1) as [s1 c1] eqn:E1, (bs_put d st'.1) as [s2 c2] eqn:E2.
  pose proof (bs_put_cid d st.1) as Hx1. pose proof (bs_put_cid d st'.1) as Hx2. rewrite E1 in Hx1. rewrite E2 in Hx2.
  cbn in Hx1, Hx2. subst. split; cbn; [done|by rewrite E].
Qed.

Lemma leaves_loop_same fuel layer sub sub' prev keys es st st' :
  (∀ lower (st : build_state (St := St)) (st' : build_state (St := St')),
    st.2 = st'.2 → same_build (sub lower st) (sub' lower st')) →
  st.2 = st'.2 →
  same_build (leaves_loop fuel layer sub prev keys es st) (leaves_loop fuel layer sub' prev keys es st').
Proof.
  intros Hsub. revert prev keys es st st'. induction fuel as [|fuel IH]; intros prev keys es st st' E; [done|].
  destruct keys as [|[[k v] l] rest]; cbn [leaves_loop]; [done|]. case_decide; [|by apply IH].
  destruct (split_lower layer rest) as [lower rest']. pose proof (Hsub lower st st' E) as [Hx1 Hx2].
  destruct (sub lower st) as [s1 c1], (sub' lower st') as [s2 c2]. cbn in Hx1, Hx2. subst c2. by apply IH.
Qed.

Lemma build_subtree_same layer keys (st : build_state (St := St)) (st' : build_state (St := St')) :
  st.2 = st'.2 → same_build (build_subtree layer keys st) (build_subtree layer keys st').
Proof.
  revert keys st st'. induction layer as [|below IH]; intros keys st st' E; cbn [build_subtree].
  - destruct (split_lower 0 keys) as [lower rest].
    pose proof (leaves_loop_same (length rest) 0 (λ _ st, (st, None)) (λ _ st, (st, None)) [] rest [] st st'
      ltac:(by intros) E) as [Hx1 Hx2].
    destruct (leaves_loop _ _ _ _ _ _ st) as [s1 e1], (leaves_loop _ _ _ _ _ _ st') as [s2 e2].
    cbn in Hx1, Hx2. subst e2. by apply put_block_same.
  - destruct (split_lower (S below) keys) as [lower rest].
    set (sub := λ (lower : list keyed) (st : build_state (St := St)), if decide (lower = []) then (st, None)
      else let '(st, cid) := build_subtree below lower st in (st, Some cid)).
    set (sub' := λ (lower : list keyed) (st : build_state (St := St')), if decide (lower = []) then (st, None)
      else let '(st, cid) := build_subtree below lower st in (st, Some cid)).
    assert (∀ lower (st : build_state (St := St)) (st' : build_state (St := St')),
      st.2 = st'.2 → same_build (sub lower st) (sub' lower st')) as Hsub.
    { intros lo s s' Es. unfold sub, sub'. destruct (decide (lo = [])); [by split|].
      pose proof (IH lo s s' Es) as [Hx1 Hx2]. destruct (build_subtree below lo s), (build_subtree below lo s').
      cbn in Hx1, Hx2. subst. by split. }
    pose proof (Hsub lower st st' E) as [Hx1 Hx2].
    change (if decide (lower = []) then (st, None) else _) with (sub lower st).
    change (if decide (lower = []) then (st', None) else _) with (sub' lower st').
    destruct (sub lower st) as [s1 c1], (sub' lower st') as [s2 c2]. cbn in Hx1, Hx2. subst c2.
    fold sub sub'. pose proof (leaves_loop_same (length rest) (S below) sub sub' [] rest [] s1 s2 Hsub Hx2) as [Hx3 Hx4].
    destruct (leaves_loop _ _ sub _ _ _ s1) as [s3 e3], (leaves_loop _ _ sub' _ _ _ s2) as [s4 e4].
    cbn in Hx3, Hx4. subst e4. by apply put_block_same.
Qed.

Lemma write_to_store_same m (s : St) (s' : St') : (write_to_store m s).2 = (write_to_store m s').2.
Proof.
  unfold write_to_store. destruct (mst_is_empty m).
  - pose proof (put_block_same (encode_node None []) (s, []) (s', []) eq_refl) as [Hx1 Hx2].
    destruct (put_block _ (s, [])) as [[s1 b1] c1], (put_block _ (s', [])) as [[s2 b2] c2]. cbn in *. congruence.
  - pose proof (build_subtree_same (foldr Nat.max 0%nat (snd <$> (with_layer <$> mst_iter m)))
      (with_layer <$> mst_iter m) (s, []) (s', []) eq_refl) as [Hx1 Hx2].
    destruct (build_subtree _ _ (s, [])) as [[s1 b1] c1], (build_subtree _ _ (s', [])) as [[s2 b2] c2].
    cbn in *. congruence.
Qed.
End independent.

(** More fuel reads the same tree. *)
Lemma read_leaves_weaken (child child' : option bytes → option (list (rstr * bytes))) prev es r :
  (∀ c t, child c = Some t → child' c = Some t) →
  read_leaves child prev es = Some r → read_leaves child' prev es = Some r.
Proof.
  intros Hc. revert prev r. induction es as [|e es IH]; intros prev r; cbn [read_leaves]; [done|].
  destruct (child (tree e)) as [t|] eqn:Et; [|done]. rewrite (Hc _ _ Et). cbn [mbind option_bind].
  destruct (read_leaves child _ es) as [rest|] eqn:Er; [|done]. by rewrite (IH _ _ Er).
Qed.

Lemma read_tree_fuel `{HashCrates} f f' get c r : (f ≤ f')%nat →
  read_tree f get c = Some r → read_tree f' get c = Some r.
Proof.
  revert f' c r. induction f as [|f IH]; intros f' c r Hle; [done|]. destruct f' as [|f']; [lia|].
  cbn [read_tree]. destruct (get c) as [data|]; [|done]. cbn [mbind option_bind]. case_decide; [|done].
  destruct (decode_node data) as [[l es]| |]; [|done..].
  assert (∀ c t, match c with Some c => read_tree f get c | None => Some [] end = Some t →
    match c with Some c => read_tree f' get c | None => Some [] end = Some t) as Hc.
  { intros [c'|] t; [apply IH; lia|done]. }
  destruct (match l with Some c => read_tree f get c | None => Some [] end) as [t|] eqn:El; [|done].
  rewrite (Hc _ _ El). cbn [mbind option_bind].
  destruct (read_leaves _ [] es) as [rest|] eqn:Er; [|done]. intros Hr.
  rewrite (read_leaves_weaken _ _ _ _ _ Hc Er). exact Hr.
Qed.

(** Reading through a larger store. *)
Lemma read_tree_getter `{HashCrates} f (get get' : bytes → option bytes) c r :
  (∀ c d, get c = Some d → get' c = Some d) →
  read_tree f get c = Some r → read_tree f get' c = Some r.
Proof.
  intros Hg. revert c r. induction f as [|f IH]; intros c r; [done|].
  cbn [read_tree]. destruct (get c) as [data|] eqn:Ec; [|done]. rewrite (Hg _ _ Ec).
  cbn [mbind option_bind]. case_decide; [|done].
  destruct (decode_node data) as [[l es]| |]; [|done..].
  assert (∀ c t, read_child f get c = Some t → read_child f get' c = Some t) as Hc.
  { intros [c'|] t; [apply IH|done]. }
  fold (read_child f get l) (read_child f get) (read_child f get' l) (read_child f get').
  destruct (read_child f get l) as [t|] eqn:El; [|done]. rewrite (Hc _ _ El). cbn [mbind option_bind].
  destruct (read_leaves _ [] es) as [rest|] eqn:Er; [|done]. intros Hr.
  rewrite (read_leaves_weaken _ _ _ _ _ Hc Er). exact Hr.
Qed.

(** What one identifier reads as in two stores, whose blocks are among [L]. *)
Section binding.
Context `{HashCratesLaws} (L : list bytes) (get get' : bytes → option bytes).
Hypothesis get_in : ∀ c d, get c = Some d → d ∈ L.
Hypothesis get_in' : ∀ c d, get' c = Some d → d ∈ L.

Lemma read_leaves_bind child child' prev es r r' :
  (∀ c t t', child c = Some t → child' c = Some t' → t = t' ∨ sha256_collides L) →
  read_leaves child prev es = Some r → read_leaves child' prev es = Some r' → r = r' ∨ sha256_collides L.
Proof.
  intros Hc. revert prev r r'. induction es as [|e es IH]; intros prev r r'; cbn [read_leaves].
  { intros [= <-] [= <-]. by left. }
  destruct (child (tree e)) as [t|] eqn:Et; [|done]. destruct (child' (tree e)) as [t'|] eqn:Et'; [|done].
  cbn [mbind option_bind]. destruct (read_leaves child _ es) as [q|] eqn:Er; [|done].
  destruct (read_leaves child' _ es) as [q'|] eqn:Er'; [|done]. intros [= <-] [= <-].
  destruct (Hc _ _ _ Et Et') as [->|]; [|by right]. destruct (IH _ _ _ Er Er') as [->|]; [by left|by right].
Qed.

Lemma read_tree_bind f c r r' :
  read_tree f get c = Some r → read_tree f get' c = Some r' → r = r' ∨ sha256_collides L.
Proof.
  revert c r r'. induction f as [|f IH]; intros c r r'; [done|]. cbn [read_tree].
  destruct (get c) as [d|] eqn:Ec; [|done]. destruct (get' c) as [d'|] eqn:Ec'; [|done]. cbn [mbind option_bind].
  destruct (decide (c = cid_for_cbor d)) as [->|]; [|done]. case_decide as Ed; [|done].
  destruct (decide (d = d')) as [<-|Hne].
  2:{ intros _ _. right. exists d, d'. split_and!; [by eapply get_in|by eapply get_in'|done|by apply cid_inj]. }
  destruct (decode_node d) as [[l es]| |]; [|done..].
  assert (∀ c t t', read_child f get c = Some t → read_child f get' c = Some t' → t = t' ∨ sha256_collides L) as Hc.
  { intros [c'|] t t'; [apply IH|]. intros [= <-] [= <-]. by left. }
  fold (read_child f get l) (read_child f get) (read_child f get' l) (read_child f get').
  destruct (read_child f get l) as [t|] eqn:El; [|done]. destruct (read_child f get' l) as [t'|] eqn:El'; [|done].
  cbn [mbind option_bind]. destruct (read_leaves (read_child f get) [] es) as [q|] eqn:Er; [|done].
  destruct (read_leaves (read_child f get') [] es) as [q'|] eqn:Er'; [|done]. intros [= <-] [= <-].
  destruct (Hc _ _ _ El El') as [->|]; [|by right].
  destruct (read_leaves_bind _ _ _ _ _ _ Hc Er Er') as [->|]; [by left|by right].
Qed.
End binding.

(** * Properties *)


(** The root identifier binds the records: two maps written to any two
    stores get the same root only if they are equal, unless two of the blocks
    the two writes produced collide under SHA-256. *)
Theorem mst_root_binding `{HashCratesLaws} {St St'} `{!BlockStore St} `{!BlockStoreLaws St} `{!BlockStore St'}
  `{!BlockStoreLaws St'} m m' (s : St) (s' : St')
  (Hm : mst_reach m) (Hm' : mst_reach m') (Hn : Z.of_nat (size m) < 65536) (Hn' : Z.of_nat (size m') < 65536)
  (Hroot : (write_to_store m s).2.1 = (write_to_store m' s').2.1) :
  m = m' ∨ sha256_collides ((write_to_store m s).2.2.*2 ++ (write_to_store m' s').2.2.*2).
Proof.
  destruct (write_to_store m s) as [s1 [r1 b1]] eqn:E1, (write_to_store m' s') as [s2 [r2 b2]] eqn:E2.
  cbn [fst snd] in *. subst r2. set (L := b1.*2 ++ b2.*2).
  apply write_to_store_spec in E1 as [[f1 R1]|C1]; [|right; eapply sha256_collides_mono, C1; set_solver|by apply mst_reach_wf|done].
  apply write_to_store_spec in E2 as [[f2 R2]|C2]; [|right; eapply sha256_collides_mono, C2; set_solver|by apply mst_reach_wf|done].
  apply (read_tree_fuel _ (f1 + f2)%nat) in R1, R2; [|lia..].
  assert (∀ c d, written (s1, b1) c = Some d → d ∈ L) as H1 by (intros c d [_ ?]%written_Some; apply elem_of_app; auto).
  assert (∀ c d, written (s2, b2) c = Some d → d ∈ L) as H2 by (intros c d [_ ?]%written_Some; apply elem_of_app; auto).
  destruct (read_tree_bind L _ _ H1 H2 _ _ _ _ R1 R2) as [E|]; [left|by right].
  by apply mst_iter_inj.
Qed.

Definition sample_cid (b : byte) : bytes := replicate 36 b.

(** Keys on two layers of the sample hash. *)
Definition sample_mst : Mst :=
  <[rs "0/x" := sample_cid x01]> (<[rs "a/2" := sample_cid x02]> (<[rs "a/1" := sample_cid x03]> mst_new)).

Lemma sample_mst_reach : mst_reach sample_mst.
Proof.
  assert (∀ m k v, mst_reach m → length v = 36%nat → is_valid_mst_key k = true → m !! k = None →
    mst_reach (<[k := v]> m)) as Hins.
  { intros m k v Hm Hv Hk Hn. eapply (mst_r_insert m _ k v Hm Hv). unfold mst_insert. rewrite Hk. cbn [negb].
    rewrite bool_decide_eq_false_2; [done|]. rewrite Hn. by intros [? ?]. }
  unfold sample_mst. repeat (apply Hins; [|reflexivity|vm_compute; reflexivity|vm_compute; reflexivity]).
  apply mst_r_new.
Defined.


Lemma mst_root_binding_witness :
  let blocks := (write_to_store sample_mst (∅ : MemoryBlockStore)).2.2.*2 in
  sample_mst = sample_mst ∨ sha256_collides (blocks ++ blocks).
Proof.
  exact (mst_root_binding sample_mst sample_mst (∅ : MemoryBlockStore) (∅ : MemoryBlockStore)
    sample_mst_reach sample_mst_reach eq_refl eq_refl eq_refl).
Defined.

(** * Diffs *)

(** A diff applied to the map it was computed against. *)
Definition apply_diff (d : MstDiff) (m : gmap rstr bytes) : gmap rstr bytes :=
  list_to_map (created d) ∪ (list_to_map ((λ u : rstr * bytes * bytes, (u.1.1, u.2)) <$> updated d)
    ∪ foldr (λ kv m, delete kv.1 m) m (deleted d)).

Lemma NoDup_omap_keys {B} (f : rstr * bytes → option B) (key : B → rstr) m :
  (∀ k v b, f (k, v) = Some b → key b = k) → NoDup (key <$> omap f (mst_iter m)).
Proof.
  intros Hf. assert (NoDup (fst <$> mst_iter m)) as Hnd.
  { rewrite (mst_iter_perm m). apply NoDup_fst_map_to_list. }
  induction (mst_iter m) as [|[k v] l IH]; [constructor|]. cbn [fmap list_fmap] in Hnd. apply NoDup_cons in Hnd as [Hk Hnd].
  change (omap f ((k, v) :: l)) with (match f (k, v) with Some b => b :: omap f l | None => omap f l end).
  destruct (f (k, v)) as [b|] eqn:Eb; [|by apply IH]. rewrite fmap_cons. constructor; [|by apply IH].
  rewrite (Hf _ _ _ Eb). intros (b' & -> & Hb')%list_elem_of_fmap. apply list_elem_of_omap in Hb' as ([k' v'] & Hin & E').
  apply Hk. rewrite (Hf _ _ _ E'). apply list_elem_of_fmap. by exists (k', v').
Qed.

Lemma foldr_delete_lookup (l : list (rstr * bytes)) (m : gmap rstr bytes) k :
  foldr (λ kv m, delete kv.1 m) m l !! k = if decide (k ∈ l.*1) then None else m !! k.
Proof.
  induction l as [|[k0 v0] l IH]; cbn [foldr fmap list_fmap]; [done|].
  destruct (decide (k0 = k)) as [->|Hne].
  - rewrite lookup_delete_eq. rewrite decide_True; [done|]. apply elem_of_cons. by left.
  - rewrite lookup_delete_ne, IH by done. destruct (decide (k ∈ l.*1)) as [Hk|Hk].
    + rewrite decide_True; [done|]. apply elem_of_cons. by right.
    + rewrite decide_False; [done|]. intros [->|]%elem_of_cons; done.
Qed.

(** The diff between two trees turns the old one into the new one. *)
Theorem mst_diff_applies (self other : gmap rstr bytes) : apply_diff (mst_diff self other) other = self.
Proof.
  apply map_eq. intros k. unfold apply_diff. rewrite !lookup_union, foldr_delete_lookup.
  set (cr := list_to_map (created _) : gmap rstr bytes). set (up := list_to_map _ : gmap rstr bytes).
  assert (∀ v, cr !! k = Some v ↔ self !! k = Some v ∧ other !! k = None) as Hcr.
  { intros v. unfold cr. rewrite <- elem_of_list_to_map
      by (apply NoDup_omap_keys; intros k' v' b; cbn; destruct (other !! k'); [done|by intros [= <-]]).
    cbn [created mst_diff]. rewrite list_elem_of_omap. setoid_rewrite <- mst_iter_elem. split.
    - intros ([k' v'] & Hin & E). destruct (other !! k') eqn:Eo; [done|]. by injection E as -> ->.
    - intros [Hin Ho]. exists (k, v). by rewrite Ho. }
  assert (∀ v, up !! k = Some v ↔ self !! k = Some v ∧ ∃ o, other !! k = Some o ∧ o ≠ v) as Hup.
  { intros v. unfold up. rewrite <- elem_of_list_to_map.
    2:{ rewrite <- list_fmap_compose. apply NoDup_omap_keys. intros k' v' [[a b] c]. cbn.
        destruct (other !! k'); [|done]. case_decide; [|done]. by intros [= <- <- <-]. }
    cbn [updated mst_diff]. rewrite list_elem_of_fmap. setoid_rewrite list_elem_of_omap.
    rewrite <- mst_iter_elem. split.
    - intros ([[a b] c] & E & [k' v'] & Hin & Eu). destruct (other !! k') as [o|] eqn:Eo; [|done].
      case_decide; [|done]. injection Eu as -> -> ->. injection E as -> ->. eauto.
    - intros [Hin (o & Ho & Hne)]. exists (k, o, v). split; [done|]. exists (k, v). rewrite Ho. by rewrite decide_True. }
  assert (k ∈ (deleted (mst_diff self other)).*1 ↔ self !! k = None ∧ is_Some (other !! k)) as Hdel.
  { cbn [deleted mst_diff]. rewrite list_elem_of_fmap. setoid_rewrite list_elem_of_omap. split.
    - intros ([k0 v0] & -> & [k' v'] & Hin%mst_iter_elem & E). destruct (self !! k') eqn:Es; [done|].
      injection E as -> ->. split; [done|by exists v0].
    - intros [Hs [v Hv]]. exists (k, v). split; [done|]. exists (k, v). by rewrite mst_iter_elem, Hs. }
  destruct (cr !! k) as [v|].
  { destruct (proj1 (Hcr v) eq_refl) as [-> _]. by destruct (up !! k), (decide _), (other !! k). }
  destruct (up !! k) as [v|].
  { destruct (proj1 (Hup v) eq_refl) as [-> _]. by destruct (decide _), (other !! k). }
  case_decide as Hd; [by apply Hdel in Hd as [-> _]|].
  destruct (self !! k) as [v|], (other !! k) as [o|]; cbn; try done.
  - destruct (decide (o = v)) as [->|Hne]; [done|]. exfalso. specialize (Hup v). naive_solver.
  - specialize (Hcr v). naive_solver.
  - destruct Hd. apply Hdel. eauto.
Qed.
