(* ===== verification/Car.v ===== *)
(** Car: content-addressable archives, [kappa-module-atproto/src/car.rs]: the
    varint, the hand-written CBOR header and the block sequence. *)

From S2P Require Import Prelude Label Compute Cid AtCbor.

Inductive CarError :=
| Truncated (msg : rstr)
| BlockTooLarge (len : Z)
| InvalidHeader
| UnsupportedVersion (v : Z)
| TooManyRoots (n : nat)
| InvalidCid
| VarintOverflow.

Record CarBlock := mkBlock { cb_cid : bytes; cb_bytes : bytes }.

Definition MAX_BLOCK_SIZE : Z := 256 * 1024 * 1024.
Definition MAX_ROOTS : nat := 16.

Definition truncated {A} (msg : string) : outcome CarError A := Err (Truncated (rs msg)).
Arguments truncated {A} msg%_string.

(** * Varints (unsigned LEB128) *)

(** Ten turns write any [u64]. *)
Fixpoint varint_loop (fuel : nat) (n : Z) : bytes :=
  match fuel with
  | O => []
  | S fuel =>
      let byte := Z.land n 0x7F in
      let n := Z.shiftr n 7 in
      if n =? 0 then [z2b byte] else z2b (Z.lor byte 0x80) :: varint_loop fuel n
  end.

Definition encode_varint (n : Z) : bytes := varint_loop 10 n.

(** [n |= ((byte & 0x7F) as u64) << shift] drops the bits past 64. *)
Fixpoint read_varint_loop (fuel : nat) (n shift : Z) : reader CarError Z := λ data pos,
  match fuel with
  | O => Err VarintOverflow
  | S fuel =>
      match data !! pos with
      | None => truncated "varint"
      | Some byte =>
          let n := Z.lor n (wrap 64 (Z.shiftl (Z.land (b2z byte) 0x7F) shift)) in
          if b2z byte <? 0x80 then Ok (n, S pos)
          else
            let shift := shift + 7 in
            if 63 <? shift then Err VarintOverflow else read_varint_loop fuel n shift data (S pos)
      end
  end.

(** The shift passes 63 after ten bytes. *)
Definition read_varint : reader CarError Z := read_varint_loop 10 0 0.

(** * The header *)

Definition encode_cbor_string (s : rstr) : bytes :=
  (if zlen s <? 24 then [z2b (Z.lor 0x60 (zlen s))] else [x78; z2b (zlen s)]) ++ s.

Definition encode_car_header (root : option bytes) : bytes :=
  [xa2] ++ encode_cbor_string (rs "roots")
  ++ match root with
     | Some cid => [x81; xd8; z2b 42] ++ cbor_head 0x40 (1 + zlen cid) ++ [x00] ++ cid
     | None => [x80]
     end
  ++ encode_cbor_string (rs "version") ++ [x01].

(** The length of a string: in the first byte or in the next one. *)
Definition read_len8 (bad : CarError) (msg : string) (additional : Z) : reader CarError nat := λ data pos,
  if additional <? 24 then Ok (Z.to_nat additional, pos)
  else if additional =? 24 then
    match data !! pos with
    | None => truncated msg
    | Some l => Ok (Z.to_nat (b2z l), S pos)
    end
  else Err bad.
Arguments read_len8 bad msg%_string additional.

Definition car_slice (len : nat) (msg : string) : reader CarError bytes := λ data pos,
  if (length data <? pos + len)%nat then truncated msg
  else Ok (slice data pos (pos + len), (pos + len)%nat).
Arguments car_slice len msg%_string.

Definition read_cbor_string : reader CarError rstr := λ data pos,
  match data !! pos with
  | None => truncated "CBOR string"
  | Some b =>
      if negb (major_of b =? 3) then Err InvalidHeader
      else
        '(len, pos) ← read_len8 InvalidHeader "CBOR string length" (additional_of b) data (S pos);
        '(s, pos) ← car_slice len "CBOR string data" data pos;
        if utf8_valid s then Ok (s, pos) else Err InvalidHeader
  end.

Definition read_cbor_cid : reader CarError bytes := λ data pos,
  match data !! pos, data !! S pos with
  | Some t, Some t' =>
      if bool_decide (t = xd8) && (b2z t' =? 42) then
        match data !! S (S pos) with
        | None => truncated "CBOR CID bytes"
        | Some b =>
            if negb (major_of b =? 2) then Err InvalidCid
            else
              '(len, pos) ← read_len8 InvalidCid "CBOR CID length" (additional_of b) data (S (S (S pos)));
              '(cid_bytes, pos) ← car_slice len "CBOR CID data" data pos;
              Ok (strip_multibase cid_bytes, pos)
        end
      else Err InvalidCid
  | _, _ => truncated "CBOR CID tag"
  end.

Fixpoint car_skip_many (skip : reader CarError ()) (n : nat) : reader CarError () := λ data pos,
  match n with
  | O => Ok ((), pos)
  | S n => '(_, pos) ← skip data pos; car_skip_many skip n data pos
  end.

(** The depth of the recursion is bounded by the length of the data. *)
Fixpoint car_skip_value (fuel : nat) : reader CarError () := λ data pos,
  match fuel with
  | O => truncated "CBOR value"
  | S fuel =>
      match data !! pos with
      | None => truncated "CBOR value"
      | Some b =>
          let major := major_of b in
          let additional := additional_of b in
          let pos := S pos in
          if (major =? 2) || (major =? 3) then
            '(len, pos) ← read_len8 InvalidHeader "skip len" additional data pos; Ok ((), (pos + len)%nat)
          else if major =? 4 then car_skip_many (car_skip_value fuel) (Z.to_nat additional) data pos
          else if major =? 5 then car_skip_many (car_skip_value fuel) (2 * Z.to_nat additional) data pos
          else if major =? 6 then car_skip_value fuel data pos
          else if (major <? 2) && (24 <=? additional) && (additional <=? 27) then
            Ok ((), (pos + Z.to_nat (Z.shiftl 1 (additional - 24)))%nat)
          else Ok ((), pos)
      end
  end.

Fixpoint read_roots (n : nat) (roots : list bytes) : reader CarError (list bytes) := λ data pos,
  match n with
  | O => Ok (roots, pos)
  | S n => '(cid, pos) ← read_cbor_cid data pos; read_roots n (roots ++ [cid]) data pos
  end.

Fixpoint header_fields (n : nat) (roots : list bytes) (found_version : bool)
  : reader CarError (list bytes * bool) := λ data pos,
  match n with
  | O => Ok ((roots, found_version), pos)
  | S n =>
      '(key, pos) ← read_cbor_string data pos;
      if decide (key = rs "roots") then
        match data !! pos with
        | None => Err InvalidHeader
        | Some b =>
            let arr_len := Z.to_nat (additional_of b) in
            if negb (major_of b =? 4) then Err InvalidHeader
            else if (MAX_ROOTS <? arr_len)%nat then Err (TooManyRoots arr_len)
            else
              '(roots, pos) ← read_roots arr_len roots data (S pos);
              header_fields n roots found_version data pos
        end
      else if decide (key = rs "version") then
        match data !! pos with
        | None => Err InvalidHeader
        | Some v =>
            if negb (b2z v =? 1) then Err (UnsupportedVersion (b2z v))
            else header_fields n roots true data (S pos)
        end
      else
        '(_, pos) ← car_skip_value (length data) data pos;
        header_fields n roots found_version data pos
  end.

Definition decode_car_header (data : bytes) : outcome CarError (list bytes) :=
  match data !! 0%nat with
  | None => Err InvalidHeader
  | Some b =>
      if negb (major_of b =? 5) then Err InvalidHeader
      else if negb (additional_of b <? 24) then Err InvalidHeader
      else
        '((roots, found_version), _) ← header_fields (Z.to_nat (additional_of b)) [] false data 1%nat;
        if found_version : bool then Ok roots else Err InvalidHeader
  end.

(** * Blocks *)

(** [pos + n] on [usize]; the overflow check panics. *)
Definition add_usize {E} (pos : nat) (n : Z) : outcome E Z :=
  if usize_max <? Z.of_nat pos + n then Panic else Ok (Z.of_nat pos + n).

Definition detect_cid_len (data : bytes) : outcome CarError nat :=
  match data with
  | [] => truncated "empty CID"
  | b :: _ =>
      if decide (b = x01) then
        '(_, pos) ← read_varint data 1%nat;
        '(_, pos) ← read_varint data pos;
        '(hash_len, pos) ← read_varint data pos;
        pos ← add_usize pos hash_len;
        if zlen data <? pos then truncated "CID hash extends past block" else Ok (Z.to_nat pos)
      else if decide (b = x12) then
        match data !! 1%nat with
        | None => truncated "CIDv0 too short"
        | Some l =>
            let pos := 2 + b2z l in
            if zlen data <? pos then truncated "CIDv0 hash extends past block" else Ok (Z.to_nat pos)
        end
      else Err InvalidCid
  end.

Definition put_car_block (b : CarBlock) : bytes :=
  encode_varint (zlen (cb_cid b) + zlen (cb_bytes b)) ++ cb_cid b ++ cb_bytes b.

Definition encode_car (root : option bytes) (blocks : list CarBlock) : bytes :=
  let header := encode_car_header root in
  encode_varint (zlen header) ++ header ++ concat (put_car_block <$> blocks).

(** The loop over the blocks; every turn consumes a byte at least. *)
Fixpoint decode_blocks (fuel : nat) (data : bytes) (pos : nat) (blocks : list CarBlock)
  : outcome CarError (list CarBlock) :=
  match fuel with
  | O => Ok blocks
  | S fuel =>
      if (pos <? length data)%nat then
        '(block_len, pos) ← read_varint data pos;
        if MAX_BLOCK_SIZE <? block_len then Err (BlockTooLarge block_len)
        else if zlen data <? Z.of_nat pos + block_len then truncated "block extends past end of data"
        else
          let fin := (pos + Z.to_nat block_len)%nat in
          cid_len ← detect_cid_len (slice data pos fin);
          decode_blocks fuel data fin
            (blocks ++ [mkBlock (slice data pos (pos + cid_len)) (slice data (pos + cid_len) fin)])
      else Ok blocks
  end.

Definition decode_car (data : bytes) : outcome CarError (list bytes * list CarBlock) :=
  '(header_len, pos) ← read_varint data 0%nat;
  fin ← add_usize pos header_len;
  if zlen data <? fin then truncated "header extends past end of data"
  else
    let fin := Z.to_nat fin in
    roots ← decode_car_header (slice data pos fin);
    blocks ← decode_blocks (length data) data fin [];
    Ok (roots, blocks).

(** * Facts *)

Lemma lor_high_bit r : 0 ≤ r < 128 → Z.lor r 0x80 = 128 + r.
Proof. intros Hr. rewrite Z.lor_comm. exact (lor_disjoint 1 7 r ltac:(lia) Hr). Qed.

Lemma reads_varint_loop fuel n acc shift :
  (1 ≤ fuel ≤ 10)%nat → shift = 7 * (10 - Z.of_nat fuel) → 0 ≤ acc < 2 ^ shift → 0 ≤ n < 2 ^ (64 - shift) →
  reads (read_varint_loop fuel acc shift) (varint_loop fuel n) (acc + n * 2 ^ shift).
Proof.
  revert n acc shift. induction fuel as [|fuel IH]; intros n acc shift Hf Hs Ha Hn; [lia|].
  cbn [varint_loop read_varint_loop]. change 0x7F with (Z.ones 7). rewrite Z.land_ones, Z.shiftr_div_pow2 by lia.
  change (2 ^ 7) with 128. pose proof (Z.mod_pos_bound n 128 ltac:(lia)) as Hm. pose proof (Z.div_mod n 128 ltac:(lia)) as Hdm.
  assert (2 ^ 64 = 2 ^ (64 - shift) * 2 ^ shift) as Hp by (rewrite <- Z.pow_add_r by lia; f_equal; lia).
  assert (∀ b, b mod 128 = n mod 128 → Z.lor acc (wrap 64 (Z.shiftl (Z.land b (Z.ones 7)) shift)) = acc + (n mod 128) * 2 ^ shift) as Hlor.
  { intros b Hb. rewrite Z.land_ones, Z.shiftl_mul_pow2 by lia. change (2 ^ 7) with 128. rewrite Hb. unfold wrap.
    rewrite (Z.mod_small (_ * _)).
    - rewrite Z.lor_comm, lor_disjoint by lia. lia.
    - rewrite Hp. nia. }
  destruct (Z.eqb_spec (n / 128) 0) as [Hz|Hz].
  - apply (reads_byte (truncated "varint") (λ byte data pos, _)). rewrite b2z_z2b_small by lia.
    rewrite (proj2 (Z.ltb_lt (n mod 128) 128)), Hlor by (rewrite ?Z.mod_mod; lia).
    assert (n mod 128 = n) as -> by lia. apply reads_ret.
  - apply (reads_byte (truncated "varint") (λ byte data pos, _)).
    rewrite (lor_high_bit (n mod 128)) by done.
    rewrite b2z_z2b_small by lia. rewrite (proj2 (Z.ltb_ge (128 + n mod 128) 128)) by lia.
    rewrite Hlor by (Z.div_mod_to_equations; lia).
    assert (128 ≤ n) by (Z.div_mod_to_equations; lia).
    assert (shift + 7 ≤ 63).
    { destruct (Z.le_gt_cases (shift + 7) 63) as [|Hgt]; [done|]. assert (64 - shift ≤ 7) as Hle by lia.
      pose proof (Z.pow_le_mono_r 2 _ _ ltac:(lia) Hle) as Hpw. change (2 ^ 7) with 128 in Hpw. lia. }
    rewrite (proj2 (Z.ltb_ge 63 (shift + 7))) by lia.
    assert (2 ^ (64 - shift) = 2 ^ (64 - (shift + 7)) * 128) as Hp7.
    { change 128 with (2 ^ 7). rewrite <- Z.pow_add_r by lia. f_equal. lia. }
    assert (2 ^ (shift + 7) = 2 ^ shift * 128) as Hs7 by (rewrite Z.pow_add_r by lia; done).
    replace (acc + n * 2 ^ shift) with (acc + n mod 128 * 2 ^ shift + n / 128 * 2 ^ (shift + 7)) by (rewrite Hs7; nia).
    apply IH; [lia|lia|rewrite Hs7; nia|]. split; [apply Z.div_pos; lia|]. apply Z.div_lt_upper_bound; lia.
Qed.

Lemma reads_varint n : 0 ≤ n ≤ u64_max → reads read_varint (encode_varint n) n.
Proof.
  intros Hn. pose proof (reads_varint_loop 10 n 0 0) as Hr. rewrite Z.mul_1_r, Z.add_0_l in Hr.
  apply Hr; [lia|done|lia|]. unfold u64_max in Hn. change (2 ^ (64 - 0)) with 18446744073709551616. lia.
Qed.

Lemma encode_varint_nonempty n : (1 ≤ length (encode_varint n))%nat.
Proof. unfold encode_varint. cbn [varint_loop]. destruct (_ =? 0); cbn; lia. Qed.

Lemma reads_car_slice s msg : reads (car_slice (length s) msg) s s.
Proof.
  intros pre rest. unfold car_slice. rewrite !length_app.
  rewrite (proj2 (Nat.ltb_ge _ _)) by lia. do 2 f_equal. by apply slice_app.
Qed.

Lemma reads_cbor_string s : zlen s < 24 → utf8_valid s = true → reads read_cbor_string (encode_cbor_string s) s.
Proof.
  intros Hl Hu. unfold encode_cbor_string. rewrite (proj2 (Z.ltb_lt _ _)) by done. cbn [app].
  change 0x60 with (3 * 2 ^ 5). rewrite lor_disjoint by lia. change (2 ^ 5) with 32.
  destruct (head_byte 3 (zlen s)) as [Hm Ha]; [done|lia|].
  apply (reads_byte (truncated "CBOR string") (λ b data pos, _)). rewrite Hm, Ha. cbn [Z.eqb Pos.eqb negb].
  unfold read_len8. rewrite (proj2 (Z.ltb_lt _ _)), Nat2Z.id by done. osimpl. apply reads_nil.
  apply (reads_bind _ _ _ _ _ _ (reads_car_slice s _)). rewrite Hu. apply reads_ret.
Qed.

Lemma reads_car_len bad msg m len b ext : is_major m → 0 ≤ len < 256 → cbor_head (m * 32) len = b :: ext →
  major_of b = m ∧ reads (read_len8 bad msg (additional_of b)) ext (Z.to_nat len).
Proof.
  intros Hm Hl E. destruct (cbor_head_shape m len Hm ltac:(lia)) as (b' & ext' & E' & Hmaj & H).
  rewrite E in E'. injection E' as <- <-. split; [done|]. intros pre rest. unfold read_len8.
  destruct H as [(-> & Hlt & ->)|[(-> & -> & Hr)|(_ & _ & Hr)]]; [..|lia].
  - rewrite (proj2 (Z.ltb_lt _ _)) by done. cbn. by rewrite Nat.add_0_r.
  - change (24 <? 24) with false. change (24 =? 24) with true. cbn [app].
    rewrite (lookup_at _ pre (z2b len) rest) by done. rewrite b2z_z2b_small by lia. cbn. by rewrite Nat.add_1_r.
Qed.

Lemma reads_car_cid cid : zlen cid < 255 →
  reads read_cbor_cid ([xd8; z2b 42] ++ cbor_head 0x40 (1 + zlen cid) ++ [x00] ++ cid) cid.
Proof.
  intros Hl. change 0x40 with (2 * 32).
  destruct (cbor_head_shape 2 (1 + zlen cid)) as (b & ext & E & _); [done|lia|].
  destruct (reads_car_len InvalidCid "CBOR CID length" 2 (1 + zlen cid) b ext) as [Hm Hr]; [done|lia|done|]. rewrite E.
  intros pre rest. cbn [app].
  assert (reads (λ data pos, '(len, pos) ← read_len8 InvalidCid "CBOR CID length" (additional_of b) data pos;
     '(cid_bytes, pos) ← car_slice len "CBOR CID data" data pos;
     Ok (strip_multibase cid_bytes, pos)) (ext ++ (x00 :: cid) ++ []) cid) as Hbody.
  { apply (reads_bind _ _ _ _ _ _ Hr). replace (Z.to_nat (1 + zlen cid)) with (length (x00 :: cid)) by (cbn; lia).
    apply (reads_bind _ _ _ _ _ _ (reads_car_slice (x00 :: cid) _)).
    pose proof (strip_multibase_cid cid) as Hs. cbn [app] in Hs. rewrite Hs. apply reads_ret. }
  rewrite app_nil_r in Hbody. unfold read_cbor_cid.
  specialize (Hbody (pre ++ [xd8; z2b 42; b]) rest). rewrite <- !app_assoc in Hbody. cbn [app] in Hbody.
  rewrite <- !app_assoc. cbn [app].
  rewrite (lookup_at _ pre xd8 (z2b 42 :: b :: ext ++ x00 :: cid ++ rest)) by done.
  rewrite (lookup_at _ (pre ++ [xd8]) (z2b 42) (b :: ext ++ x00 :: cid ++ rest))
    by (rewrite <- ?app_assoc, ?length_app; cbn; (done || lia)).
  rewrite (lookup_at _ (pre ++ [xd8; z2b 42]) b (ext ++ x00 :: cid ++ rest))
    by (rewrite <- ?app_assoc, ?length_app; cbn; (done || lia)).
  rewrite Hm. rewrite length_app in Hbody. cbn [length] in Hbody.
  replace (length pre + 3)%nat with (S (S (S (length pre)))) in Hbody by lia.
  change (bool_decide (xd8 = xd8) && (b2z (z2b 42) =? 42)) with true. cbn [Z.eqb Pos.eqb negb].
  rewrite Hbody. do 2 f_equal. rewrite !length_app. cbn [length]. rewrite !length_app. cbn [length]. lia.
Qed.

Definition roots_of (root : option bytes) : list bytes := match root with Some c => [c] | None => [] end.

(** The version field, after the roots. *)
Lemma reads_version n roots enc r :
  reads (header_fields n roots true) enc r →
  reads (header_fields (S n) roots false) (encode_cbor_string (rs "version") ++ [x01] ++ enc) r.
Proof.
  intros Hr. cbn [header_fields].
  apply (reads_bind _ _ _ _ _ _ (reads_cbor_string (rs "version") ltac:(done) ltac:(done))).
  case_decide; [done|]. case_decide; [|done].
  apply (reads_byte (Err InvalidHeader) (λ v data pos, _)). by change (negb (b2z x01 =? 1)) with false.
Qed.

Lemma reads_roots n root enc r : (∀ c, root = Some c → zlen c < 255) →
  reads (header_fields n (roots_of root) false) enc r →
  reads (header_fields (S n) [] false) (encode_cbor_string (rs "roots")
    ++ match root with
       | Some cid => [x81; xd8; z2b 42] ++ cbor_head 0x40 (1 + zlen cid) ++ [x00] ++ cid
       | None => [x80]
       end ++ enc) r.
Proof.
  intros Hl Hr. cbn [header_fields].
  apply (reads_bind _ _ _ _ _ _ (reads_cbor_string (rs "roots") ltac:(done) ltac:(done))).
  case_decide; [|done]. destruct root as [cid|]; cbn [roots_of] in Hr.
  - apply (reads_byte (Err InvalidHeader) (λ b data pos, _)).
    change (Z.to_nat (additional_of x81)) with 1%nat. change (negb (major_of x81 =? 4)) with false.
    change (MAX_ROOTS <? 1)%nat with false. cbv iota.
    apply (reads_bind (read_roots 1 []) (λ roots, header_fields n roots false)
      ([xd8; z2b 42] ++ cbor_head 0x40 (1 + zlen cid) ++ [x00] ++ cid) [cid] enc r); [|done].
    cbn [read_roots app]. apply reads_nil.
    apply (reads_bind _ (λ c (_ : bytes) pos, Ok ([c], pos)) _ _ _ _ (reads_car_cid cid (Hl _ eq_refl))).
    apply reads_ret.
  - apply (reads_byte (Err InvalidHeader) (λ b data pos, _)).
    change (Z.to_nat (additional_of x80)) with 0%nat. change (negb (major_of x80 =? 4)) with false.
    by change (MAX_ROOTS <? 0)%nat with false.
Qed.

Lemma decode_encode_header root : (∀ c, root = Some c → zlen c < 255) →
  decode_car_header (encode_car_header root) = Ok (roots_of root).
Proof.
  intros Hl. unfold decode_car_header, encode_car_header. cbn [app lookup list_lookup].
  change (negb (major_of xa2 =? 5)) with false. change (negb (additional_of xa2 <? 24)) with false.
  change (Z.to_nat (additional_of xa2)) with 2%nat. cbv iota.
  assert (reads (header_fields 0 (roots_of root) true) [] (roots_of root, true)) as H0 by apply reads_ret.
  apply reads_version, (reads_roots _ root _ _ Hl) in H0. specialize (H0 [xa2] []).
  rewrite !app_nil_r in H0. cbn [app length] in H0. rewrite H0. done.
Qed.

(** An identifier whose length shows from its first bytes. *)
Definition cid_delimited (cid : bytes) : Prop := ∀ rest, detect_cid_len (cid ++ rest) = Ok (length cid).

Lemma cid_for_cbor_delimited `{HashCratesLaws} data : cid_delimited (cid_for_cbor data).
Proof.
  intros rest. assert (zlen (sha256_digest data) = 32) as Hd by exact (digest_length Sha256 data).
  set (all := cid_for_cbor data ++ rest).
  assert (∀ n pre, 0 ≤ n < 128 → (∃ post, all = pre ++ z2b n :: post) →
    read_varint all (length pre) = Ok (n, S (length pre))) as Hv.
  { intros n pre Hn [post Hall]. assert (encode_varint n = [z2b n]) as He.
    { unfold encode_varint. cbn [varint_loop]. change 0x7F with (Z.ones 7). rewrite Z.land_ones, Z.shiftr_div_pow2 by lia.
      change (2 ^ 7) with 128. rewrite (Z.div_small n), (Z.mod_small n) by lia. done. }
    pose proof (reads_varint n ltac:(unfold u64_max; lia) pre post) as Hr. rewrite He in Hr. cbn [app length] in Hr.
    rewrite Hall, Hr. do 2 f_equal. lia. }
  assert (all = x01 :: z2b 0x71 :: z2b 0x12 :: z2b 0x20 :: sha256_digest data ++ rest) as Hall by done.
  unfold detect_cid_len. rewrite Hall at 1. rewrite decide_True by done.
  change 1%nat with (length [x01]). rewrite (Hv 0x71 [x01]) by (try lia; by eexists). osimpl.
  change (S (length [x01])) with (length [x01; z2b 0x71]). rewrite (Hv 0x12) by (try lia; by eexists). osimpl.
  change (S (length [x01; z2b 0x71])) with (length [x01; z2b 0x71; z2b 0x12]). rewrite (Hv 0x20) by (try lia; by eexists). osimpl.
  unfold add_usize. change (usize_max <? _) with false. cbv iota. osimpl.
  assert (length (cid_for_cbor data) = 36%nat) as Hl by apply length_cid.
  change (Z.of_nat (S (length [x01; z2b 113; z2b 18])) + 32) with 36.
  rewrite (proj2 (Z.ltb_ge _ _)) by (unfold all; rewrite length_app; lia). by rewrite Hl.
Qed.

(** A block the archive can carry. *)
Definition block_wf (b : CarBlock) : Prop :=
  cid_delimited (cb_cid b) ∧ zlen (cb_cid b) + zlen (cb_bytes b) ≤ MAX_BLOCK_SIZE.

Lemma decode_blocks_spec blocks : Forall block_wf blocks → ∀ fuel pre acc,
  (length blocks ≤ fuel)%nat →
  decode_blocks fuel (pre ++ concat (put_car_block <$> blocks)) (length pre) acc = Ok (acc ++ blocks).
Proof.
  induction 1 as [|b blocks [Hcid Hlen] Hbs IH]; intros fuel pre acc Hf.
  { cbn [fmap list_fmap concat]. rewrite !app_nil_r. destruct fuel; cbn [decode_blocks]; [done|].
    by rewrite Nat.ltb_irrefl. }
  destruct fuel as [|fuel]; [cbn in Hf; lia|]. cbn [length] in Hf. cbn [fmap list_fmap concat].
  set (rest := concat (put_car_block <$> blocks)). set (n := zlen (cb_cid b) + zlen (cb_bytes b)).
  set (data := pre ++ put_car_block b ++ rest). set (v := encode_varint n).
  assert (data = pre ++ v ++ (cb_cid b ++ cb_bytes b) ++ rest) as Hdata
    by (unfold data, put_car_block; by rewrite <- !app_assoc).
  pose proof (encode_varint_nonempty n) as Hne. fold v in Hne. unfold MAX_BLOCK_SIZE in Hlen.
  assert (length data = length pre + length v + (length (cb_cid b) + length (cb_bytes b)) + length rest)%nat as Hdl
    by (rewrite Hdata, !length_app; lia).
  cbn [decode_blocks]. rewrite (proj2 (Nat.ltb_lt _ _)) by lia.
  rewrite (reads_at read_varint v n data (length pre) pre ((cb_cid b ++ cb_bytes b) ++ rest)
    (reads_varint n ltac:(unfold n, u64_max; lia)) Hdata eq_refl). osimpl.
  rewrite (proj2 (Z.ltb_ge MAX_BLOCK_SIZE n)) by (unfold n, MAX_BLOCK_SIZE; lia).
  rewrite (proj2 (Z.ltb_ge (zlen data) _)) by (unfold n; lia).
  set (p := (length pre + length v)%nat). set (fin := (p + Z.to_nat n)%nat).
  assert (fin = p + length (cb_cid b ++ cb_bytes b))%nat as Hfin by (unfold fin, n; rewrite length_app; lia).
  rewrite (slice_at data (pre ++ v) (cb_cid b ++ cb_bytes b) rest)
    by (rewrite ?Hdata, <- ?app_assoc, ?length_app; (done || lia)).
  rewrite (Hcid (cb_bytes b)). osimpl.
  rewrite (slice_at data (pre ++ v) (cb_cid b) (cb_bytes b ++ rest))
    by (rewrite ?Hdata, <- ?app_assoc, ?length_app; (done || lia)).
  rewrite (slice_at data (pre ++ v ++ cb_cid b) (cb_bytes b) rest)
    by (rewrite ?Hdata, ?Hfin, <- ?app_assoc, ?length_app; (done || lia)).
  assert (data = (pre ++ put_car_block b) ++ rest) as Hd2 by (unfold data; by rewrite app_assoc).
  assert (fin = length (pre ++ put_car_block b)) as Hf2
    by (rewrite Hfin; unfold put_car_block; rewrite !length_app; fold n v; unfold p; lia).
  rewrite Hd2, Hf2, (IH fuel) by lia. destruct b. by rewrite <- app_assoc.
Qed.

Lemma length_blocks_le blocks : (length blocks ≤ length (concat (put_car_block <$> blocks)))%nat.
Proof.
  induction blocks as [|b blocks IH]; [done|]. cbn [fmap list_fmap concat length]. rewrite length_app.
  unfold put_car_block at 1. rewrite length_app. pose proof (encode_varint_nonempty (zlen (cb_cid b) + zlen (cb_bytes b))). lia.
Qed.

(** * Properties *)

(** An archive decodes to the roots and blocks it was encoded from, for
    every root of up to 254 bytes and every block whose identifier shows its
    length (as every computed one does) and that respects the size limit. *)
Theorem car_roundtrip root blocks
  (Hroot : ∀ c, root = Some c → zlen c < 255) (Hblocks : Forall block_wf blocks) :
  decode_car (encode_car root blocks) = Ok (roots_of root, blocks).
Proof.
  unfold decode_car, encode_car. set (h := encode_car_header root). set (rest := concat (put_car_block <$> blocks)).
  set (v := encode_varint (zlen h)).
  assert (zlen h ≤ 300) as Hh.
  { unfold h, encode_car_header. destruct root as [c|]; rewrite !length_app; [|done].
    assert (length (cbor_head 0x40 (1 + zlen c)) ≤ 3)%nat by (unfold cbor_head; repeat case_match; cbn; lia).
    specialize (Hroot c eq_refl). cbn [length]. change (length (encode_cbor_string (rs "roots"))) with 6%nat.
    change (length (encode_cbor_string (rs "version"))) with 8%nat. lia. }
  rewrite (reads_at read_varint v (zlen h) (v ++ h ++ rest) 0 [] (h ++ rest) (reads_varint (zlen h) ltac:(unfold u64_max; lia)) eq_refl eq_refl).
  osimpl. unfold add_usize. rewrite Nat.add_0_l.
  assert (length v ≤ 10)%nat as Hv.
  { unfold v, encode_varint. generalize 10%nat (zlen h). induction n as [|n IH]; intros z; cbn [varint_loop]; [done|].
    destruct (_ =? 0); cbn [length]; [lia|]. specialize (IH (Z.shiftr z 7)). lia. }
  rewrite (proj2 (Z.ltb_ge usize_max _)) by (unfold usize_max, u64_max; lia). osimpl.
  rewrite (proj2 (Z.ltb_ge (zlen (v ++ h ++ rest)) _)) by (rewrite !length_app; lia).
  replace (Z.to_nat (Z.of_nat (length v) + zlen h)) with (length (v ++ h)) by (rewrite length_app; lia).
  rewrite (slice_at _ v h rest) by (rewrite ?length_app; (done || lia)).
  assert (decode_car_header h = Ok (roots_of root)) as -> by (by apply decode_encode_header). osimpl.
  replace (v ++ h ++ rest) with ((v ++ h) ++ rest) by (by rewrite app_assoc).
  pose proof (decode_blocks_spec blocks Hblocks (length ((v ++ h) ++ rest)) (v ++ h) []) as Hb. fold rest in Hb.
  rewrite Hb; [done|]. pose proof (length_blocks_le blocks) as Hle. fold rest in Hle. rewrite length_app. lia.
Qed.

Lemma car_roundtrip_witness :
  let c := cid_for_cbor (rs "block content") in
  decode_car (encode_car (Some c) [mkBlock c (rs "block content")]) = Ok ([c], [mkBlock c (rs "block content")]).
Proof.
  intros c. apply (car_roundtrip (Some c)).
  - intros c' [= <-]. vm_compute. reflexivity.
  - constructor; [|constructor]. split; [apply cid_for_cbor_delimited|vm_compute; discriminate].
Defined.

(** A header length near the top of [usize] overflows the bounds check. *)
Theorem decode_car_length_overflow : decode_car (encode_varint u64_max) = Panic.
Proof. vm_compute. reflexivity. Qed.

(** A tenth byte past the sixty-fourth bit is accepted and its high bits dropped. *)
Theorem read_varint_drops_bits :
  read_varint (replicate 9 x80 ++ [x7e]) 0%nat = Ok (0, 10%nat).
Proof. vm_compute. reflexivity. Qed.
