(* ===== verification/AtCommit.v ===== *)
(** AtCommit: repository commits and event-stream frames of the AT Protocol
    module: [kappa-module-atproto/src/commit.rs], [dag_cbor.rs], and the reader
    of a commit's tree root in [xrpc.rs].

    The text, byte-string, array and identifier heads of these files are those
    of [AtCbor]. *)

From S2P Require Import Prelude Label Compute Cid AtCbor.

(** * Commits *)

Record UnsignedCommit := mkUnsigned {
  uc_did : rstr;
  uc_version : Z;
  uc_data : bytes;
  uc_rev : rstr;
  uc_prev : option bytes;
}.

Record Commit := mkCommit {
  c_did : rstr;
  c_version : Z;
  c_data : bytes;
  c_rev : rstr;
  c_prev : option bytes;
  c_sig : bytes;
}.

(** The unsigned integers of [commit.rs]: a [u32] fits the longest form. *)
Definition commit_uint (n : Z) : bytes :=
  if n <? 24 then [z2b n]
  else if n <? 256 then [x18; z2b n]
  else if n <? 65536 then x19 :: to_be 2 n
  else x1a :: to_be 4 n.

Definition opt_cid (cid : option bytes) : bytes :=
  match cid with Some cid => encode_cbor_cid cid | None => [CBOR_NULL] end.

Definition encode_commit_cbor (did : rstr) (version : Z) (data_cid : bytes) (rev : rstr)
  (prev_cid sig : option bytes) : bytes :=
  [match sig with Some _ => xa6 | None => xa5 end]
  ++ encode_cbor_text (rs "data") ++ encode_cbor_cid data_cid
  ++ encode_cbor_text (rs "did") ++ encode_cbor_text did
  ++ encode_cbor_text (rs "prev") ++ opt_cid prev_cid
  ++ encode_cbor_text (rs "rev") ++ encode_cbor_text rev
  ++ match sig with Some s => encode_cbor_text (rs "sig") ++ encode_cbor_bytes s | None => [] end
  ++ encode_cbor_text (rs "version") ++ commit_uint version.

Definition commit_to_cbor (c : Commit) : bytes :=
  encode_commit_cbor (c_did c) (c_version c) (c_data c) (c_rev c) (c_prev c) (Some (c_sig c)).

Definition commit_unsigned_cbor (c : Commit) : bytes :=
  encode_commit_cbor (c_did c) (c_version c) (c_data c) (c_rev c) (c_prev c) None.

Definition commit_cid `{HashCrates} (c : Commit) : bytes := cid_for_cbor (commit_to_cbor c).

Definition unsigned_to_cbor (c : UnsignedCommit) : bytes :=
  encode_commit_cbor (uc_did c) (uc_version c) (uc_data c) (uc_rev c) (uc_prev c) None.

Definition unsigned_cid `{HashCrates} (c : UnsignedCommit) : bytes := cid_for_cbor (unsigned_to_cbor c).

(** * Event frames *)

(** The byte strings and integers of [dag_cbor.rs] have longer forms. *)
Definition dag_bytes (data : bytes) : bytes :=
  (if zlen data <? 65536 then cbor_head 0x40 (zlen data) else x5a :: to_be 4 (zlen data)) ++ data.

Definition dag_uint (n : Z) : bytes :=
  if n <? 24 then [z2b n]
  else if n <? 256 then [x18; z2b n]
  else if n <? 65536 then x19 :: to_be 2 n
  else if n <? 0x100000000 then x1a :: to_be 4 n
  else x1b :: to_be 8 n.

Definition encode_header (op : Z) (frame_type : rstr) : bytes :=
  [xa2] ++ encode_cbor_text (rs "op")
  ++ (if 0 <=? op then dag_uint op
      else let n := -1 - op in if n <? 24 then [z2b (Z.lor 0x20 n)] else [x38; z2b n])
  ++ encode_cbor_text (rs "t") ++ encode_cbor_text frame_type.

Definition encode_op (op : rstr * rstr * option bytes) : bytes :=
  let '(action, path, cid) := op in
  [xa3] ++ encode_cbor_text (rs "action") ++ encode_cbor_text action
  ++ encode_cbor_text (rs "cid") ++ opt_cid cid
  ++ encode_cbor_text (rs "path") ++ encode_cbor_text path.

Definition encode_commit_body (seq : Z) (repo : rstr) (commit_cid : bytes) (rev : rstr) (since : option rstr)
  (blocks_car : bytes) (ops : list (rstr * rstr * option bytes)) : bytes :=
  [xa7]
  ++ encode_cbor_text (rs "blocks") ++ dag_bytes blocks_car
  ++ encode_cbor_text (rs "commit")
  ++ (if decide (commit_cid = []) then [CBOR_NULL] else encode_cbor_cid commit_cid)
  ++ encode_cbor_text (rs "ops") ++ encode_cbor_array_header (zlen ops) ++ concat (encode_op <$> ops)
  ++ encode_cbor_text (rs "repo") ++ encode_cbor_text repo
  ++ encode_cbor_text (rs "rev") ++ encode_cbor_text rev
  ++ encode_cbor_text (rs "seq") ++ dag_uint seq
  ++ encode_cbor_text (rs "since")
  ++ match since with Some s => encode_cbor_text s | None => [CBOR_NULL] end.

Definition encode_handle_body (seq : Z) (did handle : rstr) : bytes :=
  [xa3] ++ encode_cbor_text (rs "did") ++ encode_cbor_text did
  ++ encode_cbor_text (rs "handle") ++ encode_cbor_text handle
  ++ encode_cbor_text (rs "seq") ++ dag_uint seq.

Definition encode_identity_body (seq : Z) (did : rstr) : bytes :=
  [xa2] ++ encode_cbor_text (rs "did") ++ encode_cbor_text did
  ++ encode_cbor_text (rs "seq") ++ dag_uint seq.

Definition encode_tombstone_body (seq : Z) (did : rstr) : bytes := encode_identity_body seq did.

Definition encode_info_body (name message : rstr) : bytes :=
  [xa2] ++ encode_cbor_text (rs "message") ++ encode_cbor_text message
  ++ encode_cbor_text (rs "name") ++ encode_cbor_text name.

Definition frame (header body : bytes) : bytes := header ++ body.

(** * Reading the tree root of a commit *)

Fixpoint opt_skip_many (skip : bytes → nat → option nat) (n : nat) (data : bytes) (pos : nat) : option nat :=
  match n with
  | O => Some pos
  | S n => pos ← skip data pos; opt_skip_many skip n data pos
  end.

(** The depth of the recursion is bounded by the length of the data. *)
Fixpoint skip_cbor_value (fuel : nat) (data : bytes) (pos : nat) : option nat :=
  match fuel with
  | O => None
  | S fuel =>
      b ← data !! pos;
      let major := major_of b in
      let additional := additional_of b in
      let extra := if (24 <=? additional) && (additional <=? 27)
                   then Z.to_nat (Z.shiftl 1 (additional - 24)) else 0%nat in
      let pos := S pos in
      if (major =? 2) || (major =? 3) then
        if additional <? 24 then Some (pos + Z.to_nat additional)%nat
        else if additional =? 24 then l ← data !! pos; Some (S pos + Z.to_nat (b2z l))%nat
        else None
      else if major =? 4 then opt_skip_many (skip_cbor_value fuel) (Z.to_nat additional) data pos
      else if major =? 5 then opt_skip_many (skip_cbor_value fuel) (2 * Z.to_nat additional) data pos
      else if major =? 6 then skip_cbor_value fuel data (pos + extra)
      else Some (pos + extra)%nat
  end.

(** The value of the [data] field. *)
Definition read_data_cid (data : bytes) (pos : nat) : option bytes :=
  match data !! pos, data !! S pos with
  | Some t, Some t' =>
      if bool_decide (t = xd8) && (b2z t' =? 42) then
        let pos := S (S pos) in
        b ← data !! pos;
        let bs_len := additional_of b in
        let pos := S pos in
        if negb (major_of b =? 2) then None
        else
          '(actual_len, pos) ←
            (if bs_len <? 24 then Some (Z.to_nat bs_len, pos)
             else if bs_len =? 24 then l ← data !! pos; Some (Z.to_nat (b2z l), S pos)
             else None);
          if (length data <? pos + actual_len)%nat then None
          else Some (strip_multibase (slice data pos (pos + actual_len)))
      else None
  | _, _ => None
  end.

Fixpoint find_data (n : nat) (data : bytes) (pos : nat) : option bytes :=
  match n with
  | O => None
  | S n =>
      b ← data !! pos;
      let key_len := Z.to_nat (additional_of b) in
      let pos := S pos in
      if negb (major_of b =? 3) then None
      else if (length data <? pos + key_len)%nat then None
      else
        let key := slice data pos (pos + key_len) in
        if negb (utf8_valid key) then None
        else
          let pos := (pos + key_len)%nat in
          if decide (key = rs "data") then read_data_cid data pos
          else pos ← skip_cbor_value (length data) data pos; find_data n data pos
  end.

Definition parse_commit_data_cid (commit_bytes : bytes) : option bytes :=
  b ← commit_bytes !! 0%nat;
  if negb (major_of b =? 5) then None
  else find_data (Z.to_nat (additional_of b)) commit_bytes 1.

(** * Facts *)

Lemma to_be_inj k n n' x y : 0 ≤ n < 256 ^ Z.of_nat k → 0 ≤ n' < 256 ^ Z.of_nat k →
  to_be k n ++ x = to_be k n' ++ y → n = n' ∧ x = y.
Proof.
  intros Hn Hn' E. apply app_inj_1 in E as [E ->]; [|by rewrite !length_to_be]. split; [|done].
  rewrite <- (from_to_be k n), <- (from_to_be k n') by done. by rewrite E.
Qed.

(** The shapes of an integer head. *)
Lemma dag_uint_shape n : 0 ≤ n ≤ u64_max →
  ∃ b ext, dag_uint n = b :: ext ∧
    ((b2z b = n ∧ n < 24 ∧ ext = []) ∨ (b2z b = 24 ∧ ext = to_be 1 n ∧ n < 256) ∨
     (b2z b = 25 ∧ ext = to_be 2 n ∧ n < 65536) ∨ (b2z b = 26 ∧ ext = to_be 4 n ∧ n < 0x100000000) ∨
     (b2z b = 27 ∧ ext = to_be 8 n)).
Proof.
  intros Hn. unfold dag_uint.
  destruct (Z.ltb_spec n 24); [eexists _, _; split; [done|]; left; by rewrite b2z_z2b_small by lia|].
  destruct (Z.ltb_spec n 256); [eexists _, _; split; [done|]; tauto|].
  destruct (Z.ltb_spec n 65536); [eexists _, _; split; [done|]; tauto|].
  destruct (Z.ltb_spec n 0x100000000); [eexists _, _; split; [done|]; tauto|]. eexists _, _; split; [done|]. tauto.
Qed.

Lemma dag_uint_inj n n' x y : 0 ≤ n ≤ u64_max → 0 ≤ n' ≤ u64_max →
  dag_uint n ++ x = dag_uint n' ++ y → n = n' ∧ x = y.
Proof.
  intros Hn Hn' E. destruct (dag_uint_shape n Hn) as (b & ext & E1 & H1), (dag_uint_shape n' Hn') as (b' & ext' & E2 & H2).
  rewrite E1, E2 in E. cbn [app] in E. injection E as <- E. clear E1 E2. unfold u64_max in *.
  destruct H1 as [(A1 & L1 & ->)|[(A1 & -> & L1)|[(A1 & -> & L1)|[(A1 & -> & L1)|(A1 & ->)]]]],
    H2 as [(A2 & L2 & ->)|[(A2 & -> & L2)|[(A2 & -> & L2)|[(A2 & -> & L2)|(A2 & ->)]]]]; try lia.
  - split; [lia|done].
  - apply to_be_inj in E; [done|lia..].
  - apply to_be_inj in E; [done|lia..].
  - apply to_be_inj in E; [done|lia..].
  - apply to_be_inj in E; [done|lia..].
Qed.

Lemma commit_uint_dag n : 0 ≤ n ≤ u32_max → commit_uint n = dag_uint n.
Proof. intros Hn. unfold commit_uint, dag_uint, u32_max in *. by rewrite (proj2 (Z.ltb_lt n 0x100000000)) by lia. Qed.

Definition opt_len16 (c : option bytes) : Prop := ∀ b, c = Some b → zlen b < 65535.

Lemma opt_cid_inj c c' x y : opt_len16 c → opt_len16 c' → opt_cid c ++ x = opt_cid c' ++ y → c = c' ∧ x = y.
Proof.
  intros Hc Hc' E. destruct c as [c|], c' as [c'|]; cbn [opt_cid] in E.
  - apply encode_cbor_cid_inj in E as [-> ->]; [done|by apply Hc|by apply Hc'].
  - unfold encode_cbor_cid in E. cbn [app] in E. discriminate E.
  - unfold encode_cbor_cid in E. cbn [app] in E. discriminate E.
  - cbn [app] in E. by injection E as ->.
Qed.

(** Strip a fixed part off both sides of an equation of encodings. *)
Ltac strip_const E := apply app_inv_head in E.

(** A commit the format can carry. *)
Record commit_wf (did : rstr) (version : Z) (data : bytes) (rev : rstr) (prev sig : option bytes) : Prop := {
  cw_did : len16 did;
  cw_version : 0 ≤ version ≤ u32_max;
  cw_data : zlen data < 65535;
  cw_rev : len16 rev;
  cw_prev : opt_len16 prev;
  cw_sig : opt_len16 sig;
}.

Lemma encode_commit_inj did v d rev p sig did' v' d' rev' p' sig' :
  commit_wf did v d rev p sig → commit_wf did' v' d' rev' p' sig' →
  encode_commit_cbor did v d rev p sig = encode_commit_cbor did' v' d' rev' p' sig' →
  did = did' ∧ v = v' ∧ d = d' ∧ rev = rev' ∧ p = p' ∧ sig = sig'.
Proof.
  intros [H1 H2 H3 H4 H5 H6] [H1' H2' H3' H4' H5' H6'] E. unfold encode_commit_cbor in E.
  assert (∀ s : bytes, zlen s < 65535 → len16 s) as Hlen by (unfold len16; intros; lia).
  apply app_inj_1 in E as [Eh E]; [|done].
  assert (is_Some sig ↔ is_Some sig') as Hsig by (destruct sig, sig'; try discriminate Eh; done).
  clear Eh. strip_const E. apply encode_cbor_cid_inj in E as [-> E]; [|done..].
  strip_const E. apply encode_cbor_text_inj in E as [-> E]; [|done..].
  strip_const E. apply opt_cid_inj in E as [-> E]; [|done..].
  strip_const E. apply encode_cbor_text_inj in E as [-> E]; [|done..].
  assert (sig = sig' ∧ commit_uint v = commit_uint v') as [-> Ev].
  { destruct sig as [s|], sig' as [s'|].
    - rewrite <- !app_assoc in E. strip_const E.
      apply encode_cbor_bytes_inj in E as [-> E]; [|by apply Hlen, H6|by apply Hlen, H6']. strip_const E. done.
    - destruct (proj1 Hsig (ex_intro _ s eq_refl)) as [? [=]].
    - destruct (proj2 Hsig (ex_intro _ s' eq_refl)) as [? [=]].
    - cbn [app] in E. strip_const E. done. }
  rewrite !commit_uint_dag in Ev by done. unfold u32_max, u64_max in *.
  pose proof (dag_uint_inj v v' [] []) as Hv. rewrite !app_nil_r in Hv. unfold u64_max in Hv.
  destruct Hv as [-> _]; [lia|lia|done|]. done.
Qed.

(** * Properties *)

Definition unsigned_wf (c : UnsignedCommit) : Prop :=
  commit_wf (uc_did c) (uc_version c) (uc_data c) (uc_rev c) (uc_prev c) None.

Definition signed_wf (c : Commit) : Prop :=
  commit_wf (c_did c) (c_version c) (c_data c) (c_rev c) (c_prev c) (Some (c_sig c)).

(** The bytes that are signed determine the commit, the stored bytes
    determine commit and signature, and no stored commit can be taken for bytes
    to sign: the encodings are injective and disjoint for fields under 64 KiB. *)
Theorem commit_encoding_binding :
  (∀ c c', unsigned_wf c → unsigned_wf c' → unsigned_to_cbor c = unsigned_to_cbor c' → c = c') ∧
  (∀ c c', signed_wf c → signed_wf c' → commit_to_cbor c = commit_to_cbor c' → c = c') ∧
  (∀ c c', commit_to_cbor c ≠ unsigned_to_cbor c').
Proof.
  split_and!.
  - intros [] [] Hc Hc' E. apply (encode_commit_inj _ _ _ _ _ _ _ _ _ _ _ _ Hc Hc') in E. cbn in E. naive_solver.
  - intros [] [] Hc Hc' E. apply (encode_commit_inj _ _ _ _ _ _ _ _ _ _ _ _ Hc Hc') in E. cbn in E. naive_solver.
  - intros c c'. unfold commit_to_cbor, unsigned_to_cbor, encode_commit_cbor. discriminate.
Qed.

(** What signing a commit covers is the commit without its signature. *)
Lemma unsigned_of_commit c : commit_unsigned_cbor c =
  unsigned_to_cbor (mkUnsigned (c_did c) (c_version c) (c_data c) (c_rev c) (c_prev c)).
Proof. done. Qed.

(** The tree root is read back from a commit of either form. *)
Lemma parse_commit_data did v d rev p sig : zlen d < 255 →
  parse_commit_data_cid (encode_commit_cbor did v d rev p sig) = Some d.
Proof.
  intros Hd. unfold encode_commit_cbor.
  set (first := match sig with Some _ => xa6 | None => xa5 end).
  change (encode_cbor_text (rs "data")) with (x64 :: rs "data").
  unfold encode_cbor_cid. change 0x40 with (2 * 32).
  destruct (cbor_head_shape 2 (1 + zlen d)) as (b & ext & E & Hm & Hext); [done|lia|]. rewrite E. clear E.
  set (rest := encode_cbor_text (rs "did") ++ _). set (pre := [first; x64] ++ rs "data").
  assert (∃ n, Z.to_nat (additional_of first) = S n ∧ major_of first = 5) as (n & Hn & Hf).
  { unfold first. destruct sig; eexists; (split; [|reflexivity]); reflexivity. }
  set (all := [first] ++ (x64 :: rs "data") ++ ([xd8; z2b 42] ++ (b :: ext) ++ [x00] ++ d) ++ rest).
  assert (all = pre ++ xd8 :: z2b 42 :: b :: ext ++ (x00 :: d) ++ rest) as Hall
    by (unfold all, pre; cbn [app]; rewrite <- !app_assoc; done).
  set (tl := xd8 :: z2b 42 :: b :: ext ++ (x00 :: d) ++ rest) in Hall.
  assert (all = [] ++ first :: x64 :: rs "data" ++ tl) as Ha0 by done.
  assert (all = [first] ++ x64 :: rs "data" ++ tl) as Ha1 by done.
  assert (all = [first; x64] ++ rs "data" ++ tl) as Ha2 by done.
  assert (all = (pre ++ [xd8]) ++ z2b 42 :: b :: ext ++ (x00 :: d) ++ rest) as Ha4 by (rewrite Hall; by rewrite <- app_assoc).
  assert (all = (pre ++ [xd8; z2b 42]) ++ b :: ext ++ (x00 :: d) ++ rest) as Ha5 by (rewrite Hall; by rewrite <- app_assoc).
  assert (all = (pre ++ [xd8; z2b 42; b]) ++ ext ++ (x00 :: d) ++ rest) as Ha6 by (rewrite Hall; by rewrite <- app_assoc).
  assert (length pre = 6%nat) as Hpre by done. clearbody all.
  unfold parse_commit_data_cid. rewrite (lookup_at all [] first _ 0 Ha0 eq_refl). cbn [mbind option_bind].
  rewrite Hf, Hn. cbn [Z.eqb Pos.eqb negb find_data].
  rewrite (lookup_at all [first] x64 _ 1 Ha1 eq_refl). cbn [mbind option_bind].
  change (Z.to_nat (additional_of x64)) with 4%nat. change (negb (major_of x64 =? 3)) with false. cbv iota.
  change (2 + 4)%nat with 6%nat.
  rewrite (slice_at all [first; x64] (rs "data") tl 2 6 Ha2 eq_refl eq_refl).
  rewrite (proj2 (Nat.ltb_ge _ _)) by (rewrite Ha2; cbn; lia).
  change (negb (utf8_valid (rs "data"))) with false. rewrite decide_True by done. cbv iota.
  unfold read_data_cid.
  rewrite (lookup_at all pre xd8 _ 6 Hall eq_refl), (lookup_at all (pre ++ [xd8]) (z2b 42) _ 7 Ha4 eq_refl).
  change (bool_decide (xd8 = xd8) && (b2z (z2b 42) =? 42)) with true. cbv iota.
  rewrite (lookup_at all (pre ++ [xd8; z2b 42]) b _ 8 Ha5 eq_refl).
  cbn [mbind option_bind]. rewrite Hm. cbn [Z.eqb Pos.eqb negb].
  assert (∀ q, q = (9 + length ext)%nat → slice all q (q + length (x00 :: d)) = x00 :: d ∧
    (length all <? q + length (x00 :: d))%nat = false) as Hsl.
  { intros q ->. split.
    - apply (slice_at all (pre ++ [xd8; z2b 42; b] ++ ext) (x00 :: d) rest);
        [by rewrite Ha6, <- !app_assoc|rewrite !length_app, Hpre; cbn; lia|done].
    - apply Nat.ltb_ge. rewrite Ha6, !length_app, Hpre. cbn [length]. lia. }
  destruct Hext as [(-> & Hlt & ->)|[(-> & -> & Hr)|(_ & _ & Hr)]]; [..|lia].
  - rewrite (proj2 (Z.ltb_lt _ _)) by done. cbn [mbind option_bind].
    replace (Z.to_nat (1 + zlen d)) with (length (x00 :: d)) by (cbn; lia).
    destruct (Hsl 9%nat eq_refl) as [-> ->]. reflexivity.
  - change (24 <? 24) with false. change (24 =? 24) with true. cbv iota. cbn [app] in *.
    rewrite (lookup_at all (pre ++ [xd8; z2b 42; b]) (z2b (1 + zlen d)) _ 9 Ha6 eq_refl).
    cbn [mbind option_bind]. rewrite b2z_z2b_small by lia.
    replace (Z.to_nat (1 + zlen d)) with (length (x00 :: d)) by (cbn; lia).
    destruct (Hsl 10%nat eq_refl) as [-> ->]. reflexivity.
Qed.
