(* ===== verification/Frame.v ===== *)
(** Frame: what the operations of the in-memory store leave alone, and when they
    succeed; the lemmas the protocol modules compose handlers with.

    [keeps T s s'] says that going from [s] to [s'] blobs stay readable, tags
    outside the keys [T] are unchanged and blob metadata and uploads too;
    [room n s] that [n] more tag writes or epochs fit the 64-bit counters. *)

From S2P Require Import Prelude Label Compute Types Merkle Epoch Identity Store MemStore MemTags MemEdge.

Section frame.
Context `{HashCratesLaws} `{Dcbor} `{MemoryStoreConfig}.

(** * Blobs *)

Record blobs_kept (s s' : store) : Prop := {
  bk_ok : fs_ok (fs s) → fs_ok (fs s');
  bk_stored : ∀ c k, fs_ok (fs s) → stored_under s c k → stored_under s' c k;
}.

Lemma blobs_kept_refl s : blobs_kept s s.
Proof. done. Qed.

Lemma blobs_kept_trans s1 s2 s3 : blobs_kept s1 s2 → blobs_kept s2 s3 → blobs_kept s1 s3.
Proof. intros [Ka Kb] [Kc Kd]. split; auto. Qed.

Lemma blobs_kept_fs s s' : fs s' = fs s → blobs_kept s s'.
Proof.
  intros E. split; [by rewrite E|]. intros c k _ (a & c' & -> & Hg & Hk). exists a, c'. split_and!; [done| |done].
  revert Hg. cbn [blob_get mem_blobs]. unfold mem_blob_get. by rewrite E.
Qed.

(** The mandatory axis is never refused. *)
Lemma sha256_accepted content : ∀ a, a ∈ mandatory_axes (St := store) → hash_refused a content = false.
Proof. by intros a ->%list_elem_of_singleton. Qed.

(** Hashing and storing content never fails. *)
Lemma ingest_sha256 content s : ∃ f r, ingest_compute Sha256 content s = (set_fs f s, Ok r) ∧
  ir_kappa r = kappa_text Sha256 content ∧ blobs_kept s (set_fs f s) ∧
  (fs_ok (fs s) → stored_under (set_fs f s) content (kappa_text Sha256 content)) ∧
  (∀ a hex, fs_ok (fs s) → valid_digits a hex → label_text a hex ≠ kappa_text Sha256 content →
     blob_get (label_text a hex) (set_fs f s) = blob_get (label_text a hex) s).
Proof.
  destruct (ingest_compute Sha256 content s) as [s' r] eqn:E.
  pose proof (ingest_compute_frame _ _ _ _ _ E) as [f ->]. exists f.
  set (v := mkVerified (label_of Sha256 (digest_hex Sha256 content)) content).
  assert (vc_kappa v = Ok (kappa_text Sha256 content)) as Hk by exact (verified_ok_kappa v Sha256 content eq_refl).
  assert (∃ b, r = Ok (mkIngest (kappa_text Sha256 content) b [] None) ∧ mem_blob_put_verified v s = (set_fs f s, Ok b))
    as (b & -> & Hput).
  { revert E. unfold ingest_compute, mbind, M_bind, mret, M_ret, lift, reject_label.
    rewrite (compute_verified Sha256 content) by done. cbn [map_err]. fold v.
    rewrite Hk. cbn [map_err blob_put_verified mem_blobs].
    destruct (mem_blob_put_verified v s) as [s1 r1] eqn:Ep. rewrite (mem_put_spec v s Sha256) in Ep by done.
    case_decide; injection Ep as <- <-; cbn; intros E; (apply pair_eq in E as [E1 <-]); rewrite <- E1; by eexists. }
  eexists. split; [done|]. split; [done|].
  assert (fs_ok (fs s) → fs_ok (fs (set_fs f s)) ∧ stored_under (set_fs f s) content (kappa_text Sha256 content) ∧
    ∀ c k, stored_under s c k → stored_under (set_fs f s) c k) as Hspec.
  { intros Hs. destruct (ingest_compute_spec (St := store) Sha256 content s) as (s1 & b1 & E1 & Hs1 & Hst & Hkp);
      [exact Hs|done|apply sha256_accepted|]. rewrite E in E1. injection E1 as <- _.
    split_and!; [exact Hs1|apply Hst; by left|exact Hkp]. }
  split_and!; [split; [tauto|] |tauto|].
  - intros c k Hs. destruct (Hspec Hs) as (_ & _ & Hkk). apply Hkk.
  - intros a hex Hs Hv Hne. eapply (put_get_other (St := store) v); [exact Hs| |exact Hput|exact Hv|congruence].
    by exists Sha256.
Qed.

(** * Frames *)

Record keeps (T : list (bytes * Z)) (s s' : store) : Prop := {
  k_blobs : blobs_kept s s';
  k_tags : ∀ key, key ∉ T → tags s' !! key = tags s !! key;
  k_meta : meta s' = meta s;
  k_uploads : uploads s' = uploads s;
}.

Lemma keeps_refl T s : keeps T s s.
Proof. by split; [apply blobs_kept_refl|..]. Qed.

Lemma keeps_trans T T' s1 s2 s3 : keeps T s1 s2 → keeps T' s2 s3 → keeps (T ++ T') s1 s3.
Proof.
  intros [B1 T1 M1 U1] [B2 T2 M2 U2]. split; [by eapply blobs_kept_trans| |congruence|congruence].
  intros key Hk. rewrite elem_of_app in Hk. rewrite T2, T1 by tauto. done.
Qed.

Lemma keeps_mono T T' s s' : T ⊆ T' → keeps T s s' → keeps T' s s'.
Proof. intros Hsub [B K M U]. split; [done| |done..]. intros key Hk. apply K. set_solver. Qed.

(** Only the files changed. *)
Lemma keeps_set_fs T f s : blobs_kept s (set_fs f s) → keeps T s (set_fs f s).
Proof. by split. Qed.

(** Tag versions with at least [n] to go and sequences with at least [q]. *)
Record room (n q : nat) (s : store) : Prop := {
  rm_tags : ∀ key e, tags s !! key = Some e → te_version e ≤ u64_max - Z.of_nat n;
  rm_small : Z.of_nat n ≤ u64_max ∧ Z.of_nat q ≤ u64_max;
  rm_seq : ∀ key v, sequences s !! key = Some v → v ≤ u64_max - Z.of_nat q;
}.

Lemma room_same n q s s' : tags s' = tags s → sequences s' = sequences s → room n q s → room n q s'.
Proof. intros E1 E2 [Ht Hn Hq]. by split; rewrite ?E1, ?E2. Qed.

Lemma tag_set_total n q ns name kappa s : room (S n) q s →
  ∃ s' v, tag_set ns name kappa s = (s', Ok v) ∧ room n q s' ∧ keeps [tag_key ns name] s s' ∧
    tags s' !! tag_key ns name = Some (mkTag name kappa v) ∧ v = version_at s (tag_key ns name) + 1 ∧ fs s' = fs s.
Proof.
  intros [Ht Hn Hq]. unfold tag_set. destruct (ensure_namespace_run ns s) as (f & g & E).
  unfold mbind, M_bind. rewrite E, put_tag_run. set (s1 := set_ns_aliases f _).
  assert (next_version (tag_key ns name) s1 = Ok (version_at s (tag_key ns name) + 1) ∧
    version_at s (tag_key ns name) + 1 ≤ u64_max - Z.of_nat n) as [-> Hv].
  { unfold next_version, version_at. change (tags s1) with (tags s).
    destruct (tags s !! tag_key ns name) as [e|] eqn:He; [|split; [done|lia]].
    specialize (Ht _ _ He). split; [|lia]. apply incr_u64_ok. lia. }
  eexists _, _. split; [done|]. split_and!; [|split|by apply lookup_insert_eq|done|done].
  - split; [|lia|by intros key v Hk; specialize (Hq key v Hk); lia]. intros key e He. cbn in He.
    apply lookup_insert_Some in He as [[<- <-]|[_ He]]; [exact Hv|]. specialize (Ht _ _ He). lia.
  - by apply blobs_kept_fs.
  - intros key Hk. cbn. apply lookup_insert_ne. set_solver.
  - done.
  - done.
Qed.

Lemma bump_sequence_total n q key s : room n (S q) s →
  ∃ s' v, bump_sequence key s = (s', Ok v) ∧ room n q s' ∧ keeps [] s s' ∧ tags s' = tags s ∧ fs s' = fs s.
Proof.
  intros [Ht Hn Hq]. unfold bump_sequence. run.
  assert (default 0 (sequences s !! key) + 1 ≤ u64_max - Z.of_nat q) as Hv.
  { destruct (sequences s !! key) as [v|] eqn:E; cbn [from_option id]; [specialize (Hq _ _ E)|]; lia. }
  rewrite (proj2 (incr_u64_ok _ (default 0 (sequences s !! key) + 1))) by lia.
  eexists _, _. split; [done|]. split_and!; [|by split; [apply blobs_kept_fs|..]|done|done].
  split; [|lia|]; cbn.
  - intros k e He. specialize (Ht _ _ He). lia.
  - intros k v [[<- <-]|[_ Hk]]%lookup_insert_Some; [exact Hv|]. specialize (Hq _ _ Hk). lia.
Qed.

Definition epoch_tag (ns : NamespaceRef) : bytes * Z := tag_key ns (rs "_epoch/current").

Lemma build_total f : ∃ e, build f = Ok e.
Proof.
  unfold build, encode_leaves. destruct (merkle_root _) as [r|] eqn:E; [by eexists|].
  by apply merkle_root_None in E.
Qed.

(** Advancing an epoch succeeds and touches only the epoch's own tag. *)
Lemma epoch_advance_total n q now_ms ns mutations s : room (S n) (S q) s →
  ∃ s' k, epoch_advance now_ms ns mutations s = (s', Ok k) ∧ room n q s' ∧ keeps [epoch_tag ns] s s' ∧
    te_kappa <$> tags s' !! epoch_tag ns = Some k ∧
    ∀ a hex, fs_ok (fs s) → valid_digits a hex → label_text a hex ≠ k →
      blob_get (label_text a hex) s' = blob_get (label_text a hex) s.
Proof.
  intros Hroom. unfold epoch_advance. destruct (ensure_namespace_run ns s) as (f & g & E).
  unfold mbind at 1, M_bind at 1. rewrite E. set (s1 := set_ns_aliases f _).
  assert (room (S n) (S q) s1) as Hr1 by (by apply (room_same _ _ s)).
  destruct (bump_sequence_total _ _ (tag_key ns (rs "_epoch")) s1 Hr1) as (s2 & num & E2 & Hr2 & K2 & Ht2 & Hf2).
  unfold mbind at 1, M_bind at 1. rewrite E2.
  destruct (epoch_current_run ns s2) as (fc & E3 & _). unfold mbind at 1, M_bind at 1. rewrite E3.
  set (s3 := set_current_epochs fc s2). unfold mbind at 1, M_bind at 1, gets at 1. cbv zeta.
  destruct (build_total (mkEpochFields (ns_display ns) num (current_pointer ns s2) (state_merkle_root (collect_sorted_tags ns s3))
    (mutations_merkle_root mutations) now_ms [])) as [e Ee].
  unfold mbind at 1, M_bind at 1, lift at 1. rewrite Ee. cbn [map_err].
  destruct (ingest_sha256 (to_leaf_bytes e) s3) as (ff & r & E4 & Hk4 & B4 & _ & Ho4).
  unfold mbind at 1, M_bind at 1. rewrite E4. unfold mbind at 1, M_bind at 1, modify at 1.
  unfold mbind at 1, M_bind at 1, modify at 1.
  set (s5 := set_current_epochs _ (set_epoch_roots _ _)).
  assert (keeps [] s s5) as K5.
  { split; [|intros key _; exact (f_equal (lookup key) Ht2)|apply K2|apply K2].
    eapply blobs_kept_trans; [|eapply blobs_kept_trans; [exact B4|by apply blobs_kept_fs]].
    eapply blobs_kept_trans; [by apply (blobs_kept_fs s s1)|]. eapply blobs_kept_trans; [apply K2|by apply blobs_kept_fs]. }
  destruct (tag_set_total n q ns (rs "_epoch/current") (epoch_kappa e) s5) as (s6 & v & E6 & Hr6 & K6 & Ht6 & _ & Hf6).
  { by apply (room_same _ _ s2). }
  unfold mbind, M_bind. rewrite E6. eexists _, _. split; [done|].
  split_and!; [done|exact (keeps_trans [] _ _ _ _ K5 K6)|unfold epoch_tag; by rewrite Ht6|].
  intros a hex Hs Hv Hne. unfold epoch_kappa in Hne. rewrite kappa_from_bytes_text in Hne.
  assert (∀ t t' : store, fs t = fs t' → blob_get (label_text a hex) t = blob_get (label_text a hex) t') as Hfs
    by (intros t t' Et; cbn [blob_get mem_blobs]; unfold mem_blob_get; by rewrite Et).
  rewrite (Hfs s6 (set_fs ff s3)) by done. rewrite (Ho4 a hex); [|by rewrite (Hf2 : fs s3 = fs s)|done|done].
  by apply Hfs.
Qed.

Lemma tag_delete_run ns name s :
  ∃ s', tag_delete ns name s = (s', Ok ()) ∧ tags s' = delete (tag_key ns name) (tags s) ∧
    keeps [tag_key ns name] s s' ∧ sequences s' = sequences s.
Proof.
  eexists. split; [done|]. split_and!; [done| |done]. split; [by apply blobs_kept_fs| |done..].
  intros key Hk. cbn. apply (lookup_delete_ne (M := gmap (bytes * Z))). set_solver.
Qed.

Lemma room_delete n q s s' (keys : list (bytes * Z)) :
  (∀ key, tags s' !! key = if decide (key ∈ keys) then None else tags s !! key) → sequences s' = sequences s →
  room n q s → room n q s'.
Proof.
  intros E1 E2 [Ht Hn Hq]. split; [|done|by rewrite E2]. intros key e. rewrite E1. case_decide; [done|apply Ht].
Qed.

(** An index entry is written without touching blobs, tags or blob metadata. *)
Lemma meta_set_run ns kappa key value s :
  ∃ s', meta_set ns kappa key value s = (s', Ok ()) ∧ keeps [] s s' ∧ tags s' = tags s ∧ sequences s' = sequences s.
Proof.
  unfold meta_set. destruct (ensure_namespace_run ns s) as (f & g & E). unfold mbind, M_bind. rewrite E.
  eexists. split; [done|]. split_and!; [by split; [apply blobs_kept_fs|..]|done..].
Qed.

Lemma edge_put_total `{!IntoCbor Edge} ns edge s :
  ∃ s', edge_put ns edge s = (s', Ok ()) ∧ keeps [] s s' ∧ tags s' = tags s ∧ sequences s' = sequences s.
Proof.
  unfold edge_put. destruct (ensure_namespace_run ns s) as (f & g & E).
  unfold mbind at 1, M_bind at 1. rewrite E. set (s1 := set_ns_aliases f _). cbv zeta.
  destruct (ingest_sha256 (canonical_bytes into_cbor edge) s1) as (ff & r & E1 & _ & B & _ & _).
  unfold mbind at 1, M_bind at 1. rewrite E1. unfold mbind at 1, M_bind at 1, gets at 1. set (s2 := set_fs ff s1).
  assert (∀ s', fs s' = fs s2 → tags s' = tags s → meta s' = meta s → uploads s' = uploads s → keeps [] s s') as Hk.
  { intros s' Ef Et Em Eu. split; [|by intros key _; rewrite Et|done|done].
    eapply blobs_kept_trans; [|by apply blobs_kept_fs]. eapply blobs_kept_trans; [|exact B]. by apply blobs_kept_fs. }
  destruct (find_same _ _ _ _) as [[ekh ex]|].
  - case_decide; eexists; (split; [done|]); (split; [by apply Hk|done]).
  - unfold mbind, M_bind, modify. case_decide; eexists; (split; [done|]); (split; [by apply Hk|done]).
Qed.
End frame.

(** * The sample store has no tags *)

Lemma sample_store_tags : tags sample_store = ∅.
Proof. vm_compute. reflexivity. Qed.

Lemma sample_store_sequences : sequences sample_store = ∅.
Proof. vm_compute. reflexivity. Qed.

Lemma sample_store_wf : tags_wf sample_store.
Proof. intros u h e. rewrite sample_store_tags. by rewrite lookup_empty. Qed.

Lemma sample_store_room n q : Z.of_nat n ≤ u64_max → Z.of_nat q ≤ u64_max → room n q sample_store.
Proof.
  intros Hn Hq. split; [|done|]; intros key x; rewrite ?sample_store_tags, ?sample_store_sequences; by rewrite lookup_empty.
Qed.

Lemma room_empty n q : Z.of_nat n ≤ u64_max → Z.of_nat q ≤ u64_max → room n q empty_store.
Proof. intros Hn Hq. split; [|done|]; intros key x; cbn; by rewrite lookup_empty. Qed.
