(* ===== verification/Http.v ===== *)
(** Http: what the protocol modules share on top of the store,
    [kappa-module-oci/src/helpers.rs]: request context, query strings, error
    responses, content filters and schemas.

    The web framework, the JSON crates and the header crate are outside the
    repository: a request is the record [Cx] of what the handlers read from the
    framework, a response is what they hand back to it, and the parsers are the
    classes [JsonCrates] and [HeaderCrate]. *)

From S2P Require Import Prelude Label Compute Types Store MemStore MemTags MemNamespace.

(** The first value under a key. *)
Fixpoint assoc {A} (key : rstr) (l : list (rstr * A)) : option A :=
  match l with
  | [] => None
  | (k, v) :: l => if decide (k = key) then Some v else assoc key l
  end.

(** * JSON values *)

(** An object has each key once; a number is an integer of 64 bits, signed or
    not, or the bits of a float. *)
Inductive Json :=
| JNull
| JBool (b : bool)
| JNum (n : Z)
| JFloat (bits : Z)
| JStr (s : rstr)
| JArr (l : list Json)
| JObj (l : list (rstr * Json)).

Class JsonCrates := {
  serde_from_slice : bytes → Json + rstr;
  serde_to_string : Json → rstr;
  jsonschema_is_valid : Json → Json → bool;
}.

(** [v.get(key)] and [v[key]]. *)
Definition json_get (key : rstr) (v : Json) : option Json :=
  match v with JObj l => assoc key l | _ => None end.
Definition json_index (key : rstr) (v : Json) : Json := default JNull (json_get key v).

Definition as_str (v : Json) : option rstr := match v with JStr s => Some s | _ => None end.
Definition as_array (v : Json) : option (list Json) := match v with JArr l => Some l | _ => None end.
Definition as_u64 (v : Json) : option Z := match v with JNum n => if 0 <=? n then Some n else None | _ => None end.
Definition json_str (key : rstr) (v : Json) : option rstr := x ← json_get key v; as_str x.
Definition json_is_null (v : Json) : bool := match v with JNull => true | _ => false end.

(** * Requests and responses *)

Record Cx := mkCx {
  cx_method : rstr;
  cx_path_params : list (rstr * rstr);
  cx_query : option rstr;
  (** [headers(cx).get(name).and_then(|v| v.to_str().ok())] *)
  cx_header : rstr → option rstr;
  cx_namespace : ResolvedNamespace;
  cx_caller : option rstr;
  cx_node_anchor : option rstr;
  cx_max_blob_size : option Z;
  cx_disk_pressure : option bool;
  (** the [n]-th reading of the monotonic clock by the handler *)
  cx_instant : nat → Z;
  cx_now_ms : Z;
  (** what [NamespaceRef::generate] draws *)
  cx_gen_ms : Z;
  cx_random : bytes;
  (** the identifier [upload_begin] draws *)
  cx_upload_id : rstr;
}.

(** The body is its frames in order. *)
Record Response := mkResponse {
  r_status : Z;
  r_headers : list (rstr * rstr);
  r_body : list bytes;
}.

Definition response (status : Z) (headers : list (rstr * rstr)) (body : bytes) : Response :=
  mkResponse status headers [body].

Definition header_of (name : rstr) (r : Response) : option rstr := assoc name (r_headers r).

Definition body_of (r : Response) : bytes := concat (r_body r).

(** [bad_request(text)], [not_found()], and [bad_request] of a task's panic. *)
Inductive HttpError :=
| BadRequest (msg : rstr)
| NotFoundError
| TaskPanicked.

(** * Effects of a handler *)

Definition Handler (A : Type) : Type := store → store * outcome HttpError A.

#[export] Instance Handler_ret : MRet Handler := λ A a s, (s, Ok a).
#[export] Instance Handler_bind : MBind Handler := λ A B f m s,
  match m s with
  | (s', Ok a) => f a s'
  | (s', Err e) => (s', Err e)
  | (s', Panic) => (s', Panic)
  end.

Definition fail {A} (e : HttpError) : Handler A := λ s, (s, Err e).
Definition panic {A} : Handler A := λ s, (s, Panic).
Definition of_outcome {A} (m : outcome HttpError A) : Handler A := λ s, (s, m).

(** [spawn_blocking(m).await.map_err(bad_request)?]: a panic of the task is an
    error of the request. *)
Definition blocking {A} (m : M store A) : Handler (outcome StoreError A) := λ s,
  match m s with
  | (s', Panic) => (s', Err TaskPanicked)
  | (s', r) => (s', Ok r)
  end.

Definition store_error_str (e : StoreError) : rstr :=
  match e with
  | SIo e => rs "io error: " ++ e
  | SNotFound w => rs "not found: " ++ w
  | SConflict w => rs "conflict: " ++ w
  | SRejected w => rs "rejected: " ++ w
  | SCanonical e => rs "canonical error: " ++ e
  end.

Definition store_err (e : StoreError) : HttpError :=
  match e with
  | SNotFound _ => NotFoundError
  | SConflict _ => BadRequest (store_error_str e)
  | SRejected msg => BadRequest msg
  | _ => BadRequest (store_error_str e)
  end.

(** [... .await.map_err(bad_request)?.map_err(store_err)?]. *)
Definition call {A} (m : M store A) : Handler A :=
  r ← blocking m;
  of_outcome (map_err store_err r).

(** A store call outside of a blocking task. *)
Definition direct {A} (m : M store A) : Handler A := λ s,
  match m s with (s', r) => (s', map_err store_err r) end.

(** [let _ = spawn_blocking(m).await]: errors and panics are dropped. *)
Definition ignored {A} (m : M store A) : Handler () := λ s, ((m s).1, Ok ()).

(** * Query strings *)

Definition hex_val (b : byte) : option Z :=
  if in_range 0x30 0x39 b then Some (b2z b - 0x30)
  else if in_range 0x61 0x66 b then Some (b2z b - 0x61 + 10)
  else if in_range 0x41 0x46 b then Some (b2z b - 0x41 + 10)
  else None.

(** [String::push] of a character below U+0100. *)
Definition push_char (c : Z) : bytes :=
  if c <? 128 then [z2b c] else [z2b (Z.lor 0xC0 (Z.shiftr c 6)); z2b (Z.lor 0x80 (Z.land c 0x3F))].

Definition PERCENT : byte := x25.
Definition PLUS : byte := x2b.
Definition AMP : byte := x26.
Definition EQUALS : byte := x3d.
Definition QUOTE : byte := x22.

(** The iterator takes two bytes after every percent sign, hexadecimal or not. *)
Fixpoint percent_decode (s : rstr) : rstr :=
  match s with
  | [] => []
  | b :: rest =>
      if decide (b = PERCENT) then
        match rest with
        | [] => [PERCENT]
        | [_] => [PERCENT]
        | x :: y :: rest =>
            match hex_val x, hex_val y with
            | Some h, Some l => push_char (Z.lor (Z.shiftl h 4) l) ++ percent_decode rest
            | _, _ => PERCENT :: percent_decode rest
            end
        end
      else if decide (b = PLUS) then rs " " ++ percent_decode rest
      else push_char (b2z b) ++ percent_decode rest
  end.

(** [s.split(c)]. *)
Fixpoint split_on (c : byte) (cur s : rstr) : list rstr :=
  match s with
  | [] => [cur]
  | b :: s => if decide (b = c) then cur :: split_on c [] s else split_on c (cur ++ [b]) s
  end.

Definition pair_value (key kv : rstr) : option rstr :=
  '(k, v) ← split_once EQUALS kv;
  if decide (k = key) then Some (percent_decode v) else None.

Definition query_params_multi (cx : Cx) (key : rstr) : list rstr :=
  match cx_query cx with
  | None => []
  | Some query => omap (pair_value key) (split_on AMP [] query)
  end.

(** The loop returns at the first pair with the key. *)
Fixpoint first_value (key : rstr) (pairs : list rstr) : option rstr :=
  match pairs with
  | [] => None
  | kv :: pairs =>
      match split_once EQUALS kv with
      | Some (k, v) => if decide (k = key) then Some (percent_decode v) else first_value key pairs
      | None => first_value key pairs
      end
  end.

Definition query_param (cx : Cx) (key : rstr) : option rstr :=
  query ← cx_query cx; first_value key (split_on AMP [] query).

Definition path_param (cx : Cx) (key : rstr) : rstr :=
  default [] (assoc key (cx_path_params cx)).

(** [s.split(c).next()]. *)
Definition first_segment (c : byte) (s : rstr) : rstr :=
  match find_char c s with Some i => take i s | None => s end.

(** [s.parse::<u64>()] ([usize] is as wide): an optional plus sign, then digits. *)
Definition digit_val (b : byte) : option Z := if in_range 0x30 0x39 b then Some (b2z b - 0x30) else None.

Fixpoint parse_digits (acc : Z) (s : rstr) : option Z :=
  match s with
  | [] => Some acc
  | b :: s => d ← digit_val b; let acc := acc * 10 + d in if u64_max <? acc then None else parse_digits acc s
  end.

Definition parse_u64 (s : rstr) : option Z :=
  let s := match s with b :: rest => if decide (b = PLUS) then rest else s | [] => s end in
  if decide (s = []) then None else parse_digits 0 s.

(** * Namespace and caller *)

Definition registry_anchor (cx : Cx) : rstr :=
  let fallback := match cx_node_anchor cx with Some a => a | None => rs "oci-distribution" end in
  match cx_caller cx with
  | Some caller => if decide (caller ≠ rs "anonymous") then caller else fallback
  | None => fallback
  end.

(** [verify_kappa] in a blocking task, its error a bad request. *)
Definition verify_blocking `{HashCrates} (kappa : rstr) (content : bytes) : Handler bool := λ s,
  match verify_kappa kappa content with
  | Ok b => (s, Ok b)
  | Err e => (s, Err (BadRequest (label_error_str e)))
  | Panic => (s, Err TaskPanicked)
  end.

Section ns.
Context `{HashCrates}.

Definition resolve_ns_write (cx : Cx) : Handler NamespaceRef :=
  match cx_namespace cx with
  | RExists ns => mret ns
  | RNotFound name protocol =>
      call (namespace_resolve_or_create (cx_now_ms cx) (cx_gen_ms cx) (cx_random cx) name
              (registry_anchor cx) (Some protocol))
  | RNoNamespace => fail (BadRequest (rs "no namespace in request path"))
  end.

Definition resolve_ns_read (cx : Cx) : Handler NamespaceRef :=
  of_outcome (map_err (λ _, NotFoundError) (expect_exists (cx_namespace cx))).
End ns.

(** * Error envelopes, filters and schemas *)

(** [String::from_utf8_lossy]: how many bytes the next character takes, or how
    many a replacement character stands for. *)
Definition lossy_step (s : bytes) : bool * nat :=
  let cont lo hi n := match s !! n with Some b => in_range lo hi b | None => false end in
  match s with
  | [] => (true, 0%nat)
  | b0 :: _ =>
      if in_range 0x00 0x7F b0 then (true, 1%nat)
      else if in_range 0xC2 0xDF b0 then if cont 0x80 0xBF 1%nat then (true, 2%nat) else (false, 1%nat)
      else if in_range 0xE0 0xEF b0 then
        let lo := if bool_decide (b2z b0 = 0xE0) then 0xA0 else 0x80 in
        let hi := if bool_decide (b2z b0 = 0xED) then 0x9F else 0xBF in
        if negb (cont lo hi 1%nat) then (false, 1%nat)
        else if cont 0x80 0xBF 2%nat then (true, 3%nat) else (false, 2%nat)
      else if in_range 0xF0 0xF4 b0 then
        let lo := if bool_decide (b2z b0 = 0xF0) then 0x90 else 0x80 in
        let hi := if bool_decide (b2z b0 = 0xF4) then 0x8F else 0xBF in
        if negb (cont lo hi 1%nat) then (false, 1%nat)
        else if negb (cont 0x80 0xBF 2%nat) then (false, 2%nat)
        else if cont 0x80 0xBF 3%nat then (true, 4%nat) else (false, 3%nat)
      else (false, 1%nat)
  end.

Fixpoint lossy_loop (fuel : nat) (s : bytes) : rstr :=
  match fuel, s with
  | S fuel, _ :: _ =>
      let '(valid, n) := lossy_step s in
      (if valid : bool then take n s else [xef; xbf; xbd]) ++ lossy_loop fuel (drop n s)
  | _, _ => []
  end.
Definition from_utf8_lossy (s : bytes) : rstr := lossy_loop (length s) s.

(** [windows(n).any(|w| w == needle)] for [n = needle.len()], and [contains]. *)
Definition has_window (needle s : bytes) : bool :=
  existsb (λ i, bool_decide (take (length needle) (drop i s) = needle)) (seq 0 (S (length s) - length needle)).
Definition str_contains (needle s : rstr) : bool := has_window needle s.

Definition strip_prefix (p s : rstr) : option rstr :=
  if starts_with p s then Some (drop (length p) s) else None.

Section responses.
Context `{HashCrates} `{MemoryStoreConfig} `{JsonCrates}.

Definition oci_error (status : Z) (code message : rstr) : Response :=
  let body := JObj [(rs "errors", JArr [JObj [(rs "code", JStr code); (rs "message", JStr message)]])] in
  response status [(rs "content-type", rs "application/json")] (serde_to_string body).

(** [serde_json::from_slice(body).map_err(|e| bad_request(format!("invalid JSON: {e}")))]. *)
Definition invalid_json (e : rstr) : HttpError := BadRequest (rs "invalid JSON: " ++ e).

Definition parse_body (body : bytes) : outcome HttpError Json :=
  match serde_from_slice body with
  | inl v => Ok v
  | inr e => Err (invalid_json e)
  end.

(** One filter against the content: the reason of a rejection. *)
Definition filter_rejects (kappa : rstr) (filter_bytes content : bytes) : option rstr :=
  let rule := from_utf8_lossy filter_bytes in
  let denied := match strip_prefix (rs "deny:") rule with
                | Some needle => negb (bool_decide (needle = [])) && has_window needle content
                | None => false
                end in
  if denied then Some (rs "filter " ++ kappa ++ rs " rejected content")
  else if str_contains (rs "json-match") rule || str_contains (rs "accept_if") rule then
    match serde_from_slice rule with
    | inl filter_json =>
        accept_if ← json_get (rs "accept_if") filter_json;
        contains ← json_get (rs "contains") accept_if;
        needle ← as_str contains;
        if str_contains needle (from_utf8_lossy content) then None
        else Some (rs "filter " ++ kappa ++ rs ": "
                   ++ default (rs "filter rejected") (json_str (rs "reason") filter_json))
    | inr _ => None
    end
  else None.

(** The loop of [evaluate_filters]; a filter whose blob cannot be read is skipped. *)
Fixpoint run_filters (filters : list TagEntry) (content : bytes) (s : store) : outcome rstr () :=
  match filters with
  | [] => Ok ()
  | t :: filters =>
      match blob_get (te_kappa t) s with
      | Ok filter_bytes =>
          match filter_rejects (te_kappa t) filter_bytes content with
          | Some reason => Err reason
          | None => run_filters filters content s
          end
      | Err _ => run_filters filters content s
      | Panic => Panic
      end
  end.

Definition evaluate_filters (ns : NamespaceRef) (content : bytes) : Handler (option Response) := λ s,
  match (filters ← map_err store_error_str (tag_prefix ns (rs "_filter/") s); run_filters filters content s) with
  | Ok _ => (s, Ok None)
  | Err reason => (s, Ok (Some (oci_error 422 (rs "FILTER_REJECTED") (rs "filter rejected: " ++ reason))))
  | Panic => (s, Err TaskPanicked)
  end.

Definition schema_rejects (schema_bytes content : bytes) : bool :=
  match serde_from_slice schema_bytes with
  | inl wrapper =>
      let format := default [] (json_str (rs "format") wrapper) in
      if decide (format = rs "json-schema") then
        match json_get (rs "validation") wrapper with
        | Some validation =>
            match serde_from_slice content with
            | inl instance => negb (jsonschema_is_valid validation instance)
            | inr _ => false
            end
        | None => false
        end
      else false
  | inr _ => false
  end.

Fixpoint run_schemas (schemas : list TagEntry) (content : bytes) (s : store) : outcome rstr () :=
  match schemas with
  | [] => Ok ()
  | t :: schemas =>
      match blob_get (te_kappa t) s with
      | Ok schema_bytes =>
          if schema_rejects schema_bytes content then Err (rs "content does not match schema")
          else run_schemas schemas content s
      | Err _ => run_schemas schemas content s
      | Panic => Panic
      end
  end.

Definition validate_schemas (ns : NamespaceRef) (content : bytes) : Handler (option Response) := λ s,
  match (schemas ← map_err store_error_str (tag_prefix ns (rs "_schema/") s); run_schemas schemas content s) with
  | Ok _ => (s, Ok None)
  | Err reason => (s, Ok (Some (oci_error 422 (rs "SCHEMA_VIOLATION") reason)))
  | Panic => (s, Err TaskPanicked)
  end.
End responses.

(** * Running handlers *)

Lemma Handler_bind_ok {A B} (m : Handler A) (f : A → Handler B) s s' b :
  (m ≫= f) s = (s', Ok b) ↔ ∃ s1 a, m s = (s1, Ok a) ∧ f a s1 = (s', Ok b).
Proof. unfold mbind, Handler_bind. destruct (m s) as [s1 [a|e|]]; naive_solver. Qed.

(** The next step of a handler, once what it does is known. *)
Lemma bind_run {A B} (m : Handler A) (f : A → Handler B) s s1 a :
  m s = (s1, Ok a) → (m ≫= f) s = f a s1.
Proof. unfold mbind, Handler_bind. by intros ->. Qed.

Lemma call_ok {A} (m : M store A) s s' a : m s = (s', Ok a) → call m s = (s', Ok a).
Proof. intros E. unfold call, blocking, mbind, Handler_bind. by rewrite E. Qed.

Lemma call_ok_inv {A} (m : M store A) s s' a : call m s = (s', Ok a) → m s = (s', Ok a).
Proof.
  unfold call, blocking, mbind, Handler_bind. destruct (m s) as [s1 [x|e|]];
    unfold of_outcome, map_err; intros [= <- <-]; done.
Qed.

Lemma evaluate_filters_state `{HashCrates} `{MemoryStoreConfig} `{JsonCrates} ns content s :
  (evaluate_filters ns content s).1 = s.
Proof. unfold evaluate_filters. by repeat case_match. Qed.

Lemma validate_schemas_state `{HashCrates} `{MemoryStoreConfig} `{JsonCrates} ns content s :
  (validate_schemas ns content s).1 = s.
Proof. unfold validate_schemas. by repeat case_match. Qed.

Lemma rejection_status `{HashCrates} `{MemoryStoreConfig} `{JsonCrates} ns content s r :
  (evaluate_filters ns content s).2 = Ok (Some r) ∨ (validate_schemas ns content s).2 = Ok (Some r) →
  r_status r = 422.
Proof.
  unfold evaluate_filters, validate_schemas.
  intros [E|E]; repeat (case_match; cbn [snd] in E; try discriminate); by injection E as <-.
Qed.

(** * A sample framework *)

#[export] Instance sample_json : JsonCrates := {|
  serde_from_slice b := if decide (b = rs "{}") then inl (JObj []) else inr (rs "expected value");
  serde_to_string _ := rs "{}";
  jsonschema_is_valid _ _ := true;
|}.

(** A request with the given query and headers. *)
Definition sample_cx (query : option rstr) (headers : list (rstr * rstr)) : Cx :=
  mkCx (rs "GET") [] query (λ name, assoc name headers) RNoNamespace None None None None (λ _, 0) 0 0 [] (rs "u").
