(* ===== verification/Text.v ===== *)
(** Text: the methods of [str] the request layers and the S3 endpoints use on top
    of those of the prelude: searching, replacing, and taking off a suffix. *)

From S2P Require Import Prelude Label Http.

(** [s.find(pat)]: the first position the pattern stands at. *)
Fixpoint str_find (pat s : rstr) : option nat :=
  if starts_with pat s then Some 0%nat
  else match s with [] => None | _ :: s => S <$> str_find pat s end.

Definition strip_suffix (p s : rstr) : option rstr :=
  if ends_with p s then Some (take (length s - length p) s) else None.

(** [s.replace(from, to)] for a pattern that is not empty: matches are taken from
    the left and do not overlap; [skip] bytes of a match are still to be passed. *)
Fixpoint replace_go (from to : rstr) (skip : nat) (s : rstr) : rstr :=
  match s with
  | [] => []
  | b :: rest =>
      match skip with
      | S skip => replace_go from to skip rest
      | O => if starts_with from s then to ++ replace_go from to (length from - 1) rest
             else b :: replace_go from to 0 rest
      end
  end.
Definition str_replace (from to s : rstr) : rstr := replace_go from to 0 s.

(** [l.join(sep)]. *)
Fixpoint join (sep : rstr) (l : list rstr) : rstr :=
  match l with
  | [] => []
  | [x] => x
  | x :: l => x ++ sep ++ join sep l
  end.

(** [s.trim_matches(c)]. *)
Fixpoint trim_char_start (c : byte) (s : rstr) : rstr :=
  match s with b :: rest => if decide (b = c) then trim_char_start c rest else s | [] => [] end.
Definition trim_matches (c : byte) (s : rstr) : rstr := rev (trim_char_start c (rev (trim_char_start c s))).

(** The characters [str::trim] removes, in UTF-8. *)
Definition WHITESPACE : list bytes :=
  [[x09]; [x0a]; [x0b]; [x0c]; [x0d]; [x20]; [xc2; x85]; [xc2; xa0]; [xe1; x9a; x80];
   [xe2; x80; x80]; [xe2; x80; x81]; [xe2; x80; x82]; [xe2; x80; x83]; [xe2; x80; x84]; [xe2; x80; x85];
   [xe2; x80; x86]; [xe2; x80; x87]; [xe2; x80; x88]; [xe2; x80; x89]; [xe2; x80; x8a];
   [xe2; x80; xa8]; [xe2; x80; xa9]; [xe2; x80; xaf]; [xe2; x81; x9f]; [xe3; x80; x80]].

Fixpoint str_trim_start (fuel : nat) (s : rstr) : rstr :=
  match fuel, find (λ w, starts_with w s) WHITESPACE with
  | S fuel, Some w => str_trim_start fuel (drop (length w) s)
  | _, _ => s
  end.

Fixpoint str_trim_end (fuel : nat) (s : rstr) : rstr :=
  match fuel, find (λ w, ends_with w s) WHITESPACE with
  | S fuel, Some w => str_trim_end fuel (take (length s - length w) s)
  | _, _ => s
  end.

Definition str_trim (s : rstr) : rstr := str_trim_end (length s) (str_trim_start (length s) s).

(** * Searching *)

Lemma str_find_Some pat s i : str_find pat s = Some i →
  pat `prefix_of` drop i s ∧ ∀ j, (j < i)%nat → ¬ pat `prefix_of` drop j s.
Proof.
  revert i. induction s as [|b s IH]; intros i; cbn [str_find]; unfold starts_with.
  - case_bool_decide; [|done]. intros [= <-]. split; [done|lia].
  - case_bool_decide as Hp; [intros [= <-]; split; [done|lia]|].
    destruct (str_find pat s) as [k|]; [|done]. intros [= <-]. destruct (IH k eq_refl) as [H1 H2].
    split; [done|]. intros [|j] Hj; [done|]. apply H2. lia.
Qed.

Lemma str_find_None pat s : str_find pat s = None → ∀ j, ¬ pat `prefix_of` drop j s.
Proof.
  induction s as [|b s IH]; cbn [str_find]; unfold starts_with; case_bool_decide as Hp; try done.
  - intros _ j. by rewrite drop_nil.
  - destruct (str_find pat s); [done|]. intros _ [|j]; [done|]. by apply IH.
Qed.

(** The first occurrence, by its two defining properties. *)
Lemma str_find_first pat s i : pat `prefix_of` drop i s → (∀ j, (j < i)%nat → ¬ pat `prefix_of` drop j s) →
  str_find pat s = Some i.
Proof.
  intros Hi Hj. destruct (str_find pat s) as [k|] eqn:E; [|by destruct (str_find_None _ _ E i)].
  destruct (str_find_Some _ _ _ E) as [H1 H2]. f_equal.
  destruct (lt_eq_lt_dec k i) as [[Hlt|]|Hlt]; [by destruct (Hj k Hlt)|done|by destruct (H2 i Hlt)].
Qed.

Lemma prefix_take {A} (p s : list A) : p `prefix_of` s ↔ take (length p) s = p.
Proof.
  split; [intros [k ->]; by rewrite take_app_length|].
  intros E. exists (drop (length p) s). by rewrite <- E at 1; rewrite take_drop.
Qed.

Lemma str_contains_spec pat s : str_contains pat s = true ↔ ∃ i, (i ≤ length s)%nat ∧ pat `prefix_of` drop i s.
Proof.
  unfold str_contains, has_window. rewrite existsb_exists. split.
  - intros (i & Hi%in_seq & E%bool_decide_eq_true). exists i. split; [lia|by apply prefix_take].
  - intros (i & Hle & Hi). exists i. split; [|by apply bool_decide_eq_true, prefix_take].
    apply in_seq. apply prefix_length in Hi. rewrite length_drop in Hi. lia.
Qed.

Lemma not_contains pat s i : str_contains pat s = false → pat ≠ [] → ¬ pat `prefix_of` drop i s.
Proof.
  intros E Hne Hi. destruct (decide (i ≤ length s)%nat) as [Hle|Hgt].
  - assert (str_contains pat s = true) by (apply str_contains_spec; eauto). congruence.
  - rewrite drop_ge in Hi by lia. by apply prefix_nil_inv in Hi.
Qed.

(** A mark has no slash but at its ends. *)
Definition one_segment (mark : rstr) : bool := forallb (λ b, negb (bool_decide (b = SLASH))) (removelast (drop 1 mark)).

Lemma one_segment_lookup mark j : one_segment mark = true → (1 ≤ j)%nat → (S j < length mark)%nat →
  mark !! j ≠ Some SLASH.
Proof.
  unfold one_segment. rewrite forallb_forall. intros Hm Hj Hl Hs.
  assert (removelast (drop 1 mark) !! (j - 1)%nat = Some SLASH) as Hin.
  { rewrite removelast_firstn_len, lookup_take_lt by (rewrite length_drop; lia). rewrite lookup_drop.
    by replace (1 + (j - 1))%nat with j by lia. }
  apply list_elem_of_lookup_2, list_elem_of_In, Hm in Hin. by rewrite bool_decide_eq_true_2 in Hin.
Qed.

(** An occurrence that begins in a name followed by a slash ends there too. *)
Lemma mark_inside mark name rest i : one_segment mark = true → (i < length name)%nat →
  mark `prefix_of` drop i (name ++ SLASH :: rest) → mark `prefix_of` drop i (name ++ [SLASH]).
Proof.
  intros Hm Hi Hp. assert (length mark ≤ length name + 1 - i)%nat as Hlen.
  { destruct (decide (length mark ≤ length name + 1 - i)%nat) as [|Hgt]; [done|exfalso].
    apply (one_segment_lookup mark (length name - i) Hm); [lia|lia|]. destruct Hp as [k Hk].
    assert (drop i (name ++ SLASH :: rest) !! (length name - i)%nat = Some SLASH) as Hs.
    { rewrite lookup_drop. replace (i + (length name - i))%nat with (length name) by lia. by apply list_lookup_middle. }
    rewrite Hk, lookup_app_l in Hs by lia. done. }
  change (SLASH :: rest) with ([SLASH] ++ rest) in Hp. rewrite app_assoc, drop_app_le in Hp by (rewrite length_app; cbn; lia).
  apply prefix_take. apply prefix_take in Hp. rewrite take_app_le in Hp; [done|].
  rewrite length_drop, length_app. cbn. lia.
Qed.

(** A pattern that begins with a mark the name is free of is found after it. *)
Lemma str_find_after mark pat name rest :
  mark `prefix_of` pat → one_segment mark = true → mark ≠ [] → str_contains mark (name ++ [SLASH]) = false →
  str_find pat (name ++ SLASH :: rest) = (λ i, length name + i)%nat <$> str_find pat (SLASH :: rest).
Proof.
  intros Hpre Hone Hne Hfree.
  assert (∀ i, (i < length name)%nat → ¬ pat `prefix_of` drop i (name ++ SLASH :: rest)) as Hbefore.
  { intros i Hi Hp. apply (not_contains _ _ i Hfree Hne), (mark_inside _ _ rest); [done|done|by etrans]. }
  assert (∀ i, drop (length name + i) (name ++ SLASH :: rest) = drop i (SLASH :: rest)) as Hdrop.
  { intros i. by rewrite <- drop_drop, drop_app_length. }
  destruct (str_find pat (SLASH :: rest)) as [i|] eqn:E.
  - destruct (str_find_Some _ _ _ E) as [H1 H2]. apply str_find_first; [by rewrite Hdrop|].
    intros j Hj. destruct (decide (j < length name)%nat); [by apply Hbefore|].
    replace j with (length name + (j - length name))%nat by lia. rewrite Hdrop. apply H2. lia.
  - destruct (str_find pat (name ++ SLASH :: rest)) as [k|] eqn:Ek; [|done].
    destruct (str_find_Some _ _ _ Ek) as [H1 _].
    destruct (decide (k < length name)%nat); [by destruct (Hbefore k)|].
    replace k with (length name + (k - length name))%nat in H1 by lia. rewrite Hdrop in H1.
    by destruct (str_find_None _ _ E (k - length name)).
Qed.

Lemma strip_suffix_app p s : strip_suffix p (s ++ p) = Some s.
Proof.
  unfold strip_suffix, ends_with. rewrite bool_decide_eq_true_2 by (by exists s).
  rewrite length_app. f_equal. rewrite take_app_le by lia. rewrite take_ge; [done|lia].
Qed.

Lemma elem_of_replace_go from to b skip s : b ∈ replace_go from to skip s → b ∈ s ∨ b ∈ to.
Proof.
  revert skip. induction s as [|c s IH]; intros skip; cbn [replace_go]; [by left|].
  destruct skip as [|skip]; [case_match|].
  - rewrite elem_of_app. intros [|[|]%IH]; set_solver.
  - rewrite elem_of_cons. intros [->|[|]%IH]; set_solver.
  - intros [|]%IH; set_solver.
Qed.

Lemma strip_prefix_app p s : strip_prefix p (p ++ s) = Some s.
Proof. unfold strip_prefix, starts_with. rewrite bool_decide_eq_true_2 by (by eexists). by rewrite drop_app_length. Qed.

Lemma strip_prefix_Some p s t : strip_prefix p s = Some t ↔ s = p ++ t.
Proof.
  unfold strip_prefix, starts_with. split.
  - case_bool_decide as E; [|done]. intros [= <-]. destruct E as [k ->]. by rewrite drop_app_length.
  - intros ->. rewrite bool_decide_eq_true_2 by (by exists t). by rewrite drop_app_length.
Qed.

Lemma strip_suffix_Some p s r : strip_suffix p s = Some r → s = r ++ p.
Proof.
  unfold strip_suffix, ends_with. case_bool_decide as Hp; [|done]. intros [= <-]. destruct Hp as [k ->].
  rewrite length_app, take_app_le by lia. rewrite take_ge; [done|lia].
Qed.

(** * White space *)

(** Printable and not white space. *)
Definition graphic (b : byte) : bool := in_range 0x21 0x7E b.

Lemma graphic_not_space b w s : graphic b = true → w ∈ WHITESPACE →
  starts_with w (b :: s) = false ∧ ends_with w (s ++ [b]) = false.
Proof.
  intros Hb Hw.
  assert (Forall (λ w, (head w ≠ Some b) ∧ last w ≠ Some b ∧ w ≠ []) WHITESPACE) as Hall.
  { assert (∀ b, graphic b = true → forallb (λ w, bool_decide ((head w ≠ Some b) ∧ last w ≠ Some b ∧ w ≠ [])) WHITESPACE = true) as Hf
      by (intros [] ?; done || by vm_compute).
    apply Forall_forall. intros w' Hw'. specialize (Hf b Hb). rewrite forallb_forall in Hf.
    apply (bool_decide_unpack _). rewrite (Hf w'); [done|by apply list_elem_of_In]. }
  rewrite Forall_forall in Hall. destruct (Hall w Hw) as (H1 & H2 & H3).
  split; apply bool_decide_eq_false_2; intros [k Hk].
  - destruct w as [|x w]; [done|]. injection Hk as -> _. done.
  - destruct w as [|x w _] using rev_ind; [done|]. rewrite last_snoc in H2. rewrite app_assoc in Hk. apply app_inj_tail in Hk as [_ ->]. done.
Qed.

Lemma find_space_none b s : graphic b = true →
  find (λ w, starts_with w (b :: s)) WHITESPACE = None ∧ find (λ w, ends_with w (s ++ [b])) WHITESPACE = None.
Proof.
  intros Hb. split.
  - destruct (find _ _) as [w|] eqn:E; [|done]. apply find_some in E as [Hw%list_elem_of_In E].
    by rewrite (proj1 (graphic_not_space b w s Hb Hw)) in E.
  - destruct (find _ _) as [w|] eqn:E; [|done]. apply find_some in E as [Hw%list_elem_of_In E].
    by rewrite (proj2 (graphic_not_space b w s Hb Hw)) in E.
Qed.

Lemma trim_end_graphic fuel s b : graphic b = true → str_trim_end fuel (s ++ [b]) = s ++ [b].
Proof. intros Hb. destruct fuel; [done|]. cbn [str_trim_end]. by rewrite (proj2 (find_space_none b s Hb)). Qed.

(** A text that starts and ends with something visible is left as it is. *)
Lemma str_trim_graphic a s b : graphic a = true → graphic b = true → str_trim (a :: s ++ [b]) = a :: s ++ [b].
Proof.
  intros Ha Hb. unfold str_trim. cbn [length str_trim_start]. rewrite (proj1 (find_space_none a _ Ha)).
  by apply (trim_end_graphic _ (a :: s)).
Qed.

Lemma str_trim_visible s : s ≠ [] → forallb graphic s = true → str_trim s = s.
Proof.
  intros Hne Hs. destruct s as [|a s]; [done|]. cbn [forallb] in Hs. apply andb_true_iff in Hs as [Ha Hs].
  destruct s as [|b s _] using rev_ind.
  - unfold str_trim. cbn [length str_trim_start]. rewrite (proj1 (find_space_none a [] Ha)). by apply (trim_end_graphic _ []).
  - rewrite forallb_app in Hs. apply andb_true_iff in Hs as [_ Hb]. cbn in Hb. rewrite andb_true_r in Hb. by apply str_trim_graphic.
Qed.

(** A space in front is taken off. *)
Lemma str_trim_space a s b : graphic a = true → graphic b = true → str_trim (x20 :: a :: s ++ [b]) = a :: s ++ [b].
Proof.
  intros Ha Hb. unfold str_trim.
  assert (find (λ w, starts_with w (x20 :: a :: s ++ [b])) WHITESPACE = Some [x20]) as E.
  { cbn [find WHITESPACE]. unfold starts_with.
    repeat (rewrite bool_decide_eq_false_2 by (intros [k [=]])). rewrite bool_decide_eq_true_2 by (by eexists). done. }
  cbn [length]. cbn [str_trim_start]. rewrite E. cbn [length drop str_trim_start].
  rewrite (proj1 (find_space_none a _ Ha)). by apply (trim_end_graphic _ (a :: s)).
Qed.

(** * Splitting *)

Lemma split_on_none c cur s : c ∉ s → split_on c cur s = [cur ++ s].
Proof.
  revert cur. induction s as [|b s IH]; intros cur Hs; cbn [split_on]; [by rewrite app_nil_r|].
  rewrite decide_False by set_solver. rewrite IH by set_solver. by rewrite <- app_assoc.
Qed.

Lemma split_on_app c cur a s : c ∉ a → split_on c cur (a ++ c :: s) = (cur ++ a) :: split_on c [] s.
Proof.
  revert cur. induction a as [|b a IH]; intros cur Ha; cbn [split_on app]; [by rewrite decide_True, app_nil_r|].
  rewrite decide_False by set_solver. rewrite IH by set_solver. by rewrite <- app_assoc.
Qed.

(** * Decimal numbers read back *)

Lemma pretty_N_char_digit x : (x < 10)%N → digit_val (z2b (Z.of_N x + 48)) = Some (Z.of_N x) ∧
  Ascii.byte_of_ascii (pretty_N_char x) = z2b (Z.of_N x + 48).
Proof.
  intros Hx. pose proof (forall_small 10 (λ v, bool_decide (digit_val (z2b (v + 48)) = Some v) &&
    bool_decide (Ascii.byte_of_ascii (pretty_N_char (Z.to_N v)) = z2b (v + 48))) eq_refl (Z.of_N x) ltac:(lia)) as Hc.
  apply andb_prop in Hc as [H1%bool_decide_eq_true H2%bool_decide_eq_true]. by rewrite N2Z.id in H2.
Qed.

(** Reading what [pretty] writes for [x] adds [x] to the left of the rest. *)
Lemma parse_pretty_go x s : (Z.of_N x ≤ u64_max) →
  parse_digits 0 (rs (pretty_N_go x s)) = parse_digits (Z.of_N x) (rs s).
Proof.
  revert s. induction (N.lt_wf_0 x) as [x _ IH]. intros s Hx. destruct (decide (x = 0)%N) as [->|Hne].
  { by rewrite pretty_N_go_0. }
  rewrite pretty_N_go_step by lia. rewrite IH by first [apply N.div_lt; lia|rewrite N2Z.inj_div; Z.div_mod_to_equations; lia].
  assert (x mod 10 < 10)%N as Hm by (apply N.mod_lt; lia). destruct (pretty_N_char_digit _ Hm) as [Hd Hb].
  change (rs (String (pretty_N_char (x mod 10)) s)) with (Ascii.byte_of_ascii (pretty_N_char (x mod 10)) :: rs s).
  rewrite Hb. cbn [parse_digits]. rewrite Hd. cbn [mbind option_bind].
  replace (Z.of_N (x / 10) * 10 + Z.of_N (x mod 10)) with (Z.of_N x) by (rewrite N2Z.inj_div, N2Z.inj_mod; Z.div_mod_to_equations; lia).
  by rewrite (proj2 (Z.ltb_ge _ _)) by lia.
Qed.

Lemma parse_dec n : 0 ≤ n ≤ u64_max → parse_digits 0 (dec n) = Some n.
Proof.
  intros Hn. unfold dec. destruct n as [|p|p]; [done| |lia]. change (pretty (Z.pos p)) with (pretty_N (N.pos p)). unfold pretty_N.
  rewrite decide_False by done. rewrite parse_pretty_go by lia. done.
Qed.

Lemma parse_u64_dec n : 0 ≤ n ≤ u64_max → parse_u64 (dec n) = Some n.
Proof.
  intros Hn. pose proof (dec_digits n ltac:(lia)) as Hd. pose proof (parse_dec n Hn) as Hp.
  unfold parse_u64. destruct (dec n) as [|b l] eqn:E.
  { injection Hp as <-. by vm_compute in E. }
  assert (b ≠ PLUS) by (intros ->; by vm_compute in Hd). destruct (decide (b = PLUS)); [done|]. by rewrite decide_False.
Qed.

Lemma dec_no_nul n : 0 ≤ n → (x00 ∉ dec n) ∧ utf8_valid (dec n) = true.
Proof.
  intros Hn. pose proof (dec_digits n Hn) as Hd. rewrite forallb_forall in Hd. split.
  - intros Hin%list_elem_of_In. by specialize (Hd _ Hin).
  - apply utf8_valid_ascii, forallb_forall. intros b Hb%Hd. revert Hb. unfold is_ascii, in_range.
    rewrite !andb_true_iff, !Z.leb_le. pose proof (b2z_range b). lia.
Qed.
