(* ===== verification/OciBlob.v ===== *)
(** OciBlob: the blob endpoints of the OCI module, [kappa-module-oci/src/blob.rs],
    over the in-memory store.

    A rejected push leaves the store unchanged, an accepted one can be pulled
    back, whole or by ranges, under its digest. *)

From S2P Require Import Prelude Label Compute Types Merkle Epoch Identity Store MemStore MemTags MemEdge MemNamespace Frame Http.

Definition STREAM_CHUNK_SIZE : nat := Z.to_nat 65536.

(** * Ranges *)

Inductive RangeSpec :=
| Range (start : Z) (end_ : option Z)
| Suffix (n : Z).

Definition DASH : byte := x2d.

Definition parse_range_header (header : rstr) : option RangeSpec :=
  range ← strip_prefix (rs "bytes=") header;
  '(start_str, end_str) ← split_once DASH range;
  if decide (start_str = []) then
    suffix_len ← parse_u64 end_str;
    Some (Suffix suffix_len)
  else
    start ← parse_u64 start_str;
    end_ ← (if decide (end_str = []) then Some None else e ← parse_u64 end_str; Some (Some e));
    Some (Range start end_).

(** [total - 1] is computed for every range that is not a suffix. *)
Definition resolve_range (spec : RangeSpec) (total : Z) : outcome HttpError (Z * Z) :=
  match spec with
  | Range start end_ =>
      if total =? 0 then Panic
      else
        let end_ := match end_ with None => total - 1 | Some e => Z.min e (total - 1) end in
        if end_ <? start then Ok (start, 0) else Ok (start, end_ - start + 1)
  | Suffix n =>
      let start := Z.max 0 (total - n) in
      Ok (start, total - start)
  end.

(** The frames a reader is sent in. *)
Fixpoint stream_frames (fuel : nat) (content : bytes) : list bytes :=
  match fuel, content with
  | S fuel, _ :: _ => take STREAM_CHUNK_SIZE content :: stream_frames fuel (drop STREAM_CHUNK_SIZE content)
  | _, _ => []
  end.

Section handlers.
Context `{HashCrates} `{MemoryStoreConfig} `{JsonCrates}.

(** The stored content type, when it is there and is UTF-8. *)
Definition content_type_of (kappa : rstr) : Handler rstr :=
  r ← blocking (asks (blob_get_meta kappa (rs "content-type")));
  mret (match r with
        | Ok b => if utf8_valid b then b else rs "application/octet-stream"
        | _ => rs "application/octet-stream"
        end).

(** The stores under the verified digest and the alternate one. *)
Definition put_verified (cx : Cx) (ns : NamespaceRef) (client_digest : rstr) (content : bytes)
  : Handler Response :=
  created ← call (ingest_verified client_digest content);
  _ ← match cx_header cx (rs "content-type") with
      | Some ct => call (blob_put_meta client_digest (rs "content-type") ct)
      | None => mret ()
      end;
  _ ← match query_param cx (rs "also") with
      | Some also => r ← call (ingest_verified also content); mret ()
      | None => mret ()
      end;
  let status := if ir_newly_stored created then 201 else 200 in
  let axis := first_segment COLON client_digest in
  mret (response status
    [(rs "location", rs "/v2/" ++ ns_as_str ns ++ rs "/blobs/" ++ client_digest);
     (rs "docker-content-digest", client_digest);
     (rs "x-kappa-label", client_digest);
     (rs "x-kappa-axis", axis);
     (rs "content-length", rs "0")] []).

Definition oci_blob_put (cx : Cx) (ns : NamespaceRef) (client_digest : rstr) (content : bytes) : Handler Response :=
  let too_large := match cx_max_blob_size cx with Some max => max <? zlen content | None => false end in
  if too_large then
    mret (oci_error 413 (rs "SIZE_EXCEEDED")
            (rs "body exceeds max blob size " ++ dec (default 0 (cx_max_blob_size cx))))
  else if default false (cx_disk_pressure cx) then
    mret (oci_error 507 (rs "INSUFFICIENT_STORAGE") (rs "disk pressure: insufficient space for write"))
  else
    valid ← verify_blocking client_digest content;
    if negb valid then
      mret (oci_error 400 (rs "DIGEST_INVALID") (rs "computed digest does not match " ++ client_digest))
    else
      filtered ← evaluate_filters ns content;
      match filtered with
      | Some rejection => mret rejection
      | None =>
          schema ← validate_schemas ns content;
          match schema with
          | Some rejection => mret rejection
          | None =>
              match query_param cx (rs "also") with
              | Some also =>
                  also_valid ← verify_blocking also content;
                  if negb also_valid then
                    mret (oci_error 400 (rs "DIGEST_INVALID") (rs "also digest mismatch"))
                  else put_verified cx ns client_digest content
              | None => put_verified cx ns client_digest content
              end
          end
      end.

(** [oci_blob_get], first the range branch, then the whole blob. *)
Definition get_range (kappa ct axis : rstr) (spec : RangeSpec) : Handler Response :=
  total ← call (asks (blob_size kappa));
  '(offset, length) ← of_outcome (resolve_range spec total);
  if (total <=? offset) || (length =? 0) then
    mret (response 416 [(rs "content-range", rs "bytes */" ++ dec total)] (rs "range not satisfiable"))
  else
    let end_ := offset + length - 1 in
    slice ← call (asks (blob_get_range kappa offset length));
    mret (response 206
      [(rs "content-type", ct);
       (rs "content-length", dec (zlen slice));
       (rs "content-range", rs "bytes " ++ dec offset ++ rs "-" ++ dec end_ ++ rs "/" ++ dec total);
       (rs "docker-content-digest", kappa);
       (rs "x-kappa-label", kappa);
       (rs "x-kappa-axis", axis);
       (rs "accept-ranges", rs "bytes")] slice).

Definition blob_headers (kappa ct axis : rstr) (size : Z) : list (rstr * rstr) :=
  [(rs "content-type", ct);
   (rs "content-length", dec size);
   (rs "docker-content-digest", kappa);
   (rs "x-kappa-label", kappa);
   (rs "x-kappa-axis", axis);
   (rs "accept-ranges", rs "bytes")].

Definition get_full (kappa ct axis : rstr) : Handler Response :=
  size ← call (asks (blob_size kappa));
  reader ← call (asks (blob_get kappa));
  mret (mkResponse 200 (blob_headers kappa ct axis size) (stream_frames (length reader) reader)).

Definition oci_blob_get (cx : Cx) (kappa : rstr) : Handler Response :=
  let axis := first_segment COLON kappa in
  ct ← content_type_of kappa;
  match (range_header ← cx_header cx (rs "range"); parse_range_header range_header) with
  | Some spec => get_range kappa ct axis spec
  | None => get_full kappa ct axis
  end.

Definition oci_blob_head (kappa : rstr) : Handler Response :=
  let axis := first_segment COLON kappa in
  size ← call (asks (blob_size kappa));
  ct ← content_type_of kappa;
  mret (mkResponse 200 (blob_headers kappa ct axis size) []).

Definition oci_blob_delete (kappa : rstr) : Handler Response :=
  _ ← call (blob_delete kappa);
  mret (mkResponse 202 [] []).

Definition json_kappas (kappas : list rstr) : Response :=
  response 200 [(rs "content-type", rs "application/json")]
    (serde_to_string (JObj [(rs "kappas", JArr (JStr <$> kappas))])).

Definition oci_meta_list (cx : Cx) (ns : NamespaceRef) : Handler Response :=
  let key := default [] (query_param cx (rs "key")) in
  let value := default [] (query_param cx (rs "value")) in
  kappas ← call (asks (meta_query ns key value));
  mret (json_kappas kappas).

Definition oci_blob_list (cx : Cx) : Handler Response :=
  let prefix := default [] (query_param cx (rs "prefix")) in
  all ← call (asks blob_list);
  let kappas := if decide (prefix = []) then all else filter (λ k, starts_with prefix k = true) all in
  mret (json_kappas kappas).

(** * Routes *)

Definition oci_blob_put_route (cx : Cx) (body : bytes) : Handler Response :=
  ns ← resolve_ns_write cx;
  oci_blob_put cx ns (path_param cx (rs "kappa")) body.

Definition oci_blob_get_route (cx : Cx) : Handler Response :=
  _ ← resolve_ns_read cx;
  oci_blob_get cx (path_param cx (rs "kappa")).

Definition oci_blob_head_route (cx : Cx) : Handler Response :=
  _ ← resolve_ns_read cx;
  oci_blob_head (path_param cx (rs "kappa")).

Definition oci_blob_delete_route (cx : Cx) : Handler Response := oci_blob_delete (path_param cx (rs "kappa")).

Definition oci_meta_list_route (cx : Cx) : Handler Response :=
  ns ← resolve_ns_read cx;
  oci_meta_list cx ns.

Definition oci_blob_list_route (cx : Cx) : Handler Response := oci_blob_list cx.
End handlers.

(** * Facts *)

Lemma concat_stream_frames fuel content : (length content ≤ fuel)%nat → concat (stream_frames fuel content) = content.
Proof.
  revert content. induction fuel as [|fuel IH]; intros content Hl.
  - by destruct content; [|cbn in Hl; lia].
  - destruct content as [|b content]; [done|]. cbn [stream_frames concat].
    rewrite IH; [apply take_drop|]. rewrite length_drop. unfold STREAM_CHUNK_SIZE. cbn [length] in *. lia.
Qed.

(** The bytes a range asks for, first and last included (RFC 7233). *)
Definition range_of (spec : RangeSpec) (total : Z) : option (Z * Z) :=
  match spec with
  | Range a end_ =>
      let b := match end_ with None => total - 1 | Some e => Z.min e (total - 1) end in
      if (a <? total) && (a <=? b) then Some (a, b) else None
  | Suffix n => if (0 <? n) && (0 <? total) then Some (Z.max 0 (total - n), total - 1) else None
  end.

(** A parsed range has natural bounds. *)
Definition spec_ok (spec : RangeSpec) : Prop :=
  match spec with Range a _ => 0 ≤ a | Suffix n => 0 ≤ n end.

Lemma parse_digits_nonneg acc s n : 0 ≤ acc → parse_digits acc s = Some n → 0 ≤ n.
Proof.
  revert acc. induction s as [|b s IH]; intros acc Ha; cbn [parse_digits]; [by intros [= <-]|].
  unfold digit_val. destruct (in_range _ _ b) eqn:E; [|done]. cbn [mbind option_bind].
  unfold in_range in E. apply andb_prop in E as [E1%Z.leb_le E2%Z.leb_le].
  case_match; [done|]. apply IH. lia.
Qed.

Lemma parse_u64_nonneg s n : parse_u64 s = Some n → 0 ≤ n.
Proof.
  unfold parse_u64. case_decide; [done|]. apply parse_digits_nonneg. lia.
Qed.

Lemma parse_range_ok h spec : parse_range_header h = Some spec → spec_ok spec.
Proof.
  unfold parse_range_header. destruct (strip_prefix _ h) as [r|]; [|done]. cbn [mbind option_bind].
  destruct (split_once DASH r) as [[a b]|]; [|done]. cbn [mbind option_bind]. case_decide.
  - destruct (parse_u64 b) eqn:E; [|done]. intros [= <-]. by eapply parse_u64_nonneg.
  - destruct (parse_u64 a) eqn:E; [|done]. cbn [mbind option_bind].
    destruct (if decide (b = []) then _ else _) as [e|]; [|done]. intros [= <-]. by eapply parse_u64_nonneg.
Qed.

(** [resolve_range] selects the bytes asked for; an empty blob has none, and a
    range that is not a suffix panics on it. *)
Lemma resolve_range_spec spec total : spec_ok spec → 0 ≤ total →
  match spec, total with Range _ _, 0 => False | _, _ => True end →
  ∃ offset length, resolve_range spec total = Ok (offset, length) ∧
    match range_of spec total with
    | Some (a, b) => (total <=? offset) || (length =? 0) = false ∧ offset = a ∧ length = b - a + 1 ∧ a ≤ b < total ∧ 0 ≤ a
    | None => (total <=? offset) || (length =? 0) = true
    end.
Proof.
  intros Hok Ht Hz. destruct spec as [a e|n]; cbn [resolve_range range_of spec_ok] in *.
  - destruct (Z.eqb_spec total 0) as [->|Hne]; [done|].
    set (b := match e with None => total - 1 | Some e => Z.min e (total - 1) end).
    assert (b < total) as Hb by (unfold b; destruct e; lia).
    destruct (Z.ltb_spec b a).
    + eexists _, _. split; [done|]. rewrite (proj2 (Z.leb_gt a b)), andb_false_r by lia. by rewrite orb_true_r.
    + eexists _, _. split; [done|]. rewrite (proj2 (Z.ltb_lt a total)), (proj2 (Z.leb_le a b)) by lia. cbn [andb].
      rewrite (proj2 (Z.leb_gt _ _)), (proj2 (Z.eqb_neq _ _)) by lia. repeat split; lia.
  - eexists _, _. split; [done|]. destruct (Z.ltb_spec 0 n), (Z.ltb_spec 0 total); cbn [andb].
    + rewrite (proj2 (Z.leb_gt _ _)), (proj2 (Z.eqb_neq _ _)) by lia. repeat split; lia.
    + apply orb_true_iff. left. apply Z.leb_le. lia.
    + apply orb_true_iff. left. apply Z.leb_le. lia.
    + apply orb_true_iff. left. apply Z.leb_le. lia.
Qed.

Section facts.
Context `{HashCratesLaws} `{MemoryStoreConfig} `{JsonCrates}.

Lemma content_type_run k s : ∃ ct, content_type_of k s = (s, Ok ct).
Proof.
  unfold content_type_of, blocking, mbind, Handler_bind, asks, mret, Handler_ret, blob_get_meta, ok_or.
  destruct (meta s !! meta_key k (rs "content-type")); eauto.
Qed.

Lemma blob_get_size k s c : blob_get k s = Ok c → blob_size k s = Ok (zlen c).
Proof.
  cbn [blob_get mem_blobs]. unfold mem_blob_get, blob_size. destruct (blob_path k) as [p| |]; [|done..]. osimpl.
  destruct (fs s !! p); [|done]. by intros [= ->].
Qed.

Lemma blob_get_range_slice k s c a b : blob_get k s = Ok c → zlen c ≤ isize_max → 0 ≤ a → a ≤ b < zlen c →
  blob_get_range k a (b - a + 1) s = Ok (slice c (Z.to_nat a) (Z.to_nat (b + 1))).
Proof.
  cbn [blob_get mem_blobs]. unfold mem_blob_get, blob_get_range. destruct (blob_path k) as [p| |]; [|done..]. osimpl.
  destruct (fs s !! p); [|done]. intros [= ->] Hc Ha Hb. osimpl.
  rewrite (proj2 (Z.ltb_ge _ _)), (proj2 (Z.ltb_ge _ _)) by lia. unfold slice. f_equal.
  rewrite !Z.min_l by lia. f_equal. lia.
Qed.

(** What a push needs to be accepted. *)
Record push_allowed (cx : Cx) (ns : NamespaceRef) (digest : rstr) (content : bytes) (s : store) : Prop := {
  pa_size : ∀ max, cx_max_blob_size cx = Some max → zlen content ≤ max;
  pa_pressure : cx_disk_pressure cx ≠ Some true;
  pa_digest : verify_kappa digest content = Ok true;
  pa_filters : (evaluate_filters ns content s).2 = Ok None;
  pa_schemas : (validate_schemas ns content s).2 = Ok None;
  pa_also : ∀ also, query_param cx (rs "also") = Some also → verify_kappa also content = Ok true;
}.

(** Ingesting content under a label that verified. *)
Lemma ingest_allowed k content s : fs_ok (fs s) → verify_kappa k content = Ok true →
  ∃ s' r, ingest_verified k content s = (s', Ok r) ∧ fs_ok (fs s') ∧ stored_under s' content k ∧
    (∀ content' k', stored_under s content' k' → stored_under s' content' k') ∧
    (∃ f, s' = set_fs f s) ∧ ir_newly_stored r = negb (is_ok (blob_get k s)).
Proof.
  intros Hs (a & -> & Hr)%verify_kappa_true.
  destruct (ingest_verified_spec (St := store) a content s) as (s' & b & E & Hs' & Hst & Hkeep);
    [exact Hs|exact Hr|apply sha256_accepted|].
  eexists s', _. split_and!; [exact E|exact Hs'|by auto|exact Hkeep|by eapply ingest_verified_frame|].
  by eapply (ingest_verified_new (St := store)).
Qed.

(** What can be read stays readable with the same address. *)
Lemma stored_under_frame f content k s : fs (f s) = fs s → stored_under s content k → stored_under (f s) content k.
Proof.
  intros E (a & c & -> & Hg & Hk). exists a, c. split_and!; [done| |done]. revert Hg. cbn [blob_get mem_blobs].
  unfold mem_blob_get. by rewrite E.
Qed.

Lemma put_verified_run cx ns digest content s : fs_ok (fs s) → push_allowed cx ns digest content s →
  ∃ s' r, put_verified cx ns digest content s = (s', Ok r) ∧
    r_status r = (if is_ok (blob_get digest s) then 200 else 201) ∧
    header_of (rs "docker-content-digest") r = Some digest ∧ fs_ok (fs s') ∧
    stored_under s' content digest ∧
    (∀ also, query_param cx (rs "also") = Some also → stored_under s' content also) ∧
    (∀ content' k', stored_under s content' k' → stored_under s' content' k').
Proof.
  intros Hs Ha. unfold put_verified.
  destruct (ingest_allowed digest content s Hs (pa_digest _ _ _ _ _ Ha)) as (s1 & r1 & E1 & Hs1 & Hst1 & Hk1 & _ & Hn).
  rewrite (bind_run _ _ _ _ _ (call_ok _ _ _ _ E1)).
  set (meta := match cx_header cx (rs "content-type") with
               | Some ct => call (blob_put_meta digest (rs "content-type") ct)
               | None => mret ()
               end).
  assert (∃ f, meta s1 = (set_meta f s1, Ok ())) as [f Em].
  { unfold meta. destruct (cx_header cx (rs "content-type")) as [ct|]; [by eexists|]. exists id. by destruct s1. }
  rewrite (bind_run _ _ _ _ _ Em). set (s2 := set_meta f s1).
  assert (∀ content' k', stored_under s1 content' k' → stored_under s2 content' k') as Hk2
    by (intros content' k'; by apply (stored_under_frame (set_meta f))).
  destruct (query_param cx (rs "also")) as [also|] eqn:Eq.
  - destruct (ingest_allowed also content s2 Hs1 (pa_also _ _ _ _ _ Ha also Eq)) as (s3 & r3 & E3 & Hs3 & Hst3 & Hk3 & _ & _).
    rewrite (bind_run _ _ s2 s3 ()) by (by rewrite (bind_run _ _ _ _ _ (call_ok _ _ _ _ E3))).
    eexists s3, _. split; [done|]. split_and!; [cbn; rewrite Hn; by destruct (is_ok _)|done|done|by auto| |by auto].
    by intros also' [= <-].
  - rewrite (bind_run _ _ s2 s2 ()) by done. eexists s2, _. split; [done|].
    split_and!; [cbn; rewrite Hn; by destruct (is_ok _)|done|done|by auto|done|by auto].
Qed.

(** A push that is not allowed leaves the store alone and is not a success. *)
Lemma put_refused cx ns digest content s : fs_ok (fs s) → ¬ push_allowed cx ns digest content s →
  (oci_blob_put cx ns digest content s).1 = s ∧
  ∀ r, (oci_blob_put cx ns digest content s).2 = Ok r → r_status r ∉ [200; 201].
Proof.
  intros Hs Hn.
  assert (∀ r, r_status r = 422 → r_status r ∉ [200; 201]) as H422 by (intros r ->; by vm_compute; set_solver).
  unfold oci_blob_put.
  destruct (match cx_max_blob_size cx with Some max => _ | None => _ end) eqn:Hsz.
  { split; [done|]. intros r [= <-]. set_solver. }
  destruct (default false (cx_disk_pressure cx)) eqn:Hp.
  { split; [done|]. intros r [= <-]. set_solver. }
  unfold mbind, Handler_bind, verify_blocking.
  destruct (verify_kappa digest content) as [[]|e|] eqn:Hv; cbn [negb]; [| |done|done].
  2:{ split; [done|]. intros r [= <-]. set_solver. }
  pose proof (evaluate_filters_state ns content s) as Hf1. pose proof (rejection_status ns content s) as Hrej.
  destruct (evaluate_filters ns content s) as [s1 [[rj|]|e|]] eqn:Ef; cbn in Hf1; subst s1; [|..|done|done].
  { split; [done|]. intros r [= <-]. apply H422, Hrej. by left. }
  pose proof (validate_schemas_state ns content s) as Hf2.
  destruct (validate_schemas ns content s) as [s1 [[rj|]|e|]] eqn:Es; cbn in Hf2; subst s1; [|..|done|done].
  { split; [done|]. intros r [= <-]. apply H422, Hrej. by right. }
  assert (∀ also, query_param cx (rs "also") = Some also → verify_kappa also content ≠ Ok true) as Halso.
  { intros also Eq Hva. apply Hn. split; [|by intros E; rewrite E in Hp|done|by rewrite Ef|by rewrite Es|congruence].
    intros max Em. rewrite Em in Hsz. by apply Z.ltb_ge in Hsz. }
  destruct (query_param cx (rs "also")) as [also|] eqn:Eq.
  - specialize (Halso also eq_refl). unfold verify_blocking.
    destruct (verify_kappa also content) as [[]|e|]; cbn [negb]; [done| |done|done].
    split; [done|]. intros r [= <-]. set_solver.
  - exfalso. apply Hn. split; [|by intros E; rewrite E in Hp|done|by rewrite Ef|by rewrite Es|congruence].
    intros max Em. rewrite Em in Hsz. by apply Z.ltb_ge in Hsz.
Qed.

Lemma put_allowed cx ns digest content s : push_allowed cx ns digest content s →
  oci_blob_put cx ns digest content s = put_verified cx ns digest content s.
Proof.
  intros [Hsz Hp Hv Hf Hsc Ha]. unfold oci_blob_put.
  assert (match cx_max_blob_size cx with Some max => max <? zlen content | None => false end = false) as ->.
  { destruct (cx_max_blob_size cx) as [max|]; [|done]. apply Z.ltb_ge. by apply Hsz. }
  assert (default false (cx_disk_pressure cx) = false) as -> by (destruct (cx_disk_pressure cx) as [[]|]; done).
  unfold mbind, Handler_bind, verify_blocking. rewrite Hv. cbn [negb].
  pose proof (evaluate_filters_state ns content s) as Hf1. destruct (evaluate_filters ns content s) as [s1 r1].
  cbn in Hf, Hf1. subst s1 r1.
  pose proof (validate_schemas_state ns content s) as Hf2. destruct (validate_schemas ns content s) as [s1 r1].
  cbn in Hsc, Hf2. subst s1 r1.
  destruct (query_param cx (rs "also")) as [also|]; [|done]. by rewrite (Ha also eq_refl).
Qed.
End facts.

(** * Properties *)

(** C31: a push to the blob endpoint succeeds exactly when the size limit, disk
    pressure, digest, filters, schemas and alternate digest allow it: then the
    status tells whether the blob is new, the content can be read back under the
    digest and the alternate digest, and everything readable stays so; otherwise
    the store is unchanged and the response is not a success. *)
Theorem oci_blob_put_correct `{HashCratesLaws} `{MemoryStoreConfig} `{JsonCrates} cx ns digest content s
  (Hs : fs_ok (fs s)) :
  (push_allowed cx ns digest content s →
   ∃ s' r, oci_blob_put cx ns digest content s = (s', Ok r) ∧
     r_status r = (if is_ok (blob_get digest s) then 200 else 201) ∧
     header_of (rs "docker-content-digest") r = Some digest ∧ fs_ok (fs s') ∧
     stored_under s' content digest ∧
     (∀ also, query_param cx (rs "also") = Some also → stored_under s' content also) ∧
     (∀ content' k', stored_under s content' k' → stored_under s' content' k')) ∧
  (¬ push_allowed cx ns digest content s →
   (oci_blob_put cx ns digest content s).1 = s ∧
   ∀ r, (oci_blob_put cx ns digest content s).2 = Ok r → r_status r ∉ [200; 201]).
Proof.
  split; [|by apply put_refused]. intros Ha. rewrite put_allowed by done. by apply put_verified_run.
Qed.

(** C36: reading a stored blob: without a usable [Range] header the whole content
    is streamed; with one, the response is 206 with exactly the bytes asked for
    (clipped to the blob, a suffix counted from the end), or 416 when there are
    none; a range other than a suffix on an empty blob panics. *)
Theorem oci_blob_get_correct `{HashCratesLaws} `{MemoryStoreConfig} `{JsonCrates} cx k c s
  (Hget : blob_get k s = Ok c) (Hc : zlen c ≤ isize_max) :
  match (h ← cx_header cx (rs "range"); parse_range_header h) with
  | None => ∃ r, oci_blob_get cx k s = (s, Ok r) ∧ r_status r = 200 ∧ body_of r = c ∧
      header_of (rs "docker-content-digest") r = Some k ∧ header_of (rs "content-length") r = Some (dec (zlen c))
  | Some spec =>
      match spec, c with
      | Range _ _, [] => oci_blob_get cx k s = (s, Panic)
      | _, _ => ∃ r, oci_blob_get cx k s = (s, Ok r) ∧
          match range_of spec (zlen c) with
          | Some (a, b) => r_status r = 206 ∧ body_of r = slice c (Z.to_nat a) (Z.to_nat (b + 1)) ∧
              header_of (rs "content-range") r
              = Some (rs "bytes " ++ dec a ++ rs "-" ++ dec b ++ rs "/" ++ dec (zlen c))
          | None => r_status r = 416
          end
      end
  end.
Proof.
  unfold oci_blob_get. destruct (content_type_run k s) as [ct Ect]. rewrite (bind_run _ _ _ _ _ Ect).
  assert (call (asks (blob_size k)) s = (s, Ok (zlen c))) as Esz
    by (apply call_ok; unfold asks; by rewrite (blob_get_size _ _ _ Hget)).
  destruct (cx_header cx (rs "range") ≫= parse_range_header) as [spec|] eqn:Eh.
  2:{ unfold get_full. rewrite (bind_run _ _ _ _ _ Esz).
      rewrite (bind_run _ _ s s c) by (apply call_ok; unfold asks; by rewrite Hget).
      eexists. split; [done|]. split_and!; [done| |done..]. apply concat_stream_frames. done. }
  assert (spec_ok spec) as Hok.
  { destruct (cx_header cx (rs "range")) as [h|]; [|done]. by apply (parse_range_ok h). }
  assert (match spec, zlen c with Range _ _, 0 => False | _, _ => True end → ∃ r,
    get_range k ct (first_segment COLON k) spec s = (s, Ok r) ∧
    match range_of spec (zlen c) with
    | Some (a, b) => r_status r = 206 ∧ body_of r = slice c (Z.to_nat a) (Z.to_nat (b + 1)) ∧
        header_of (rs "content-range") r = Some (rs "bytes " ++ dec a ++ rs "-" ++ dec b ++ rs "/" ++ dec (zlen c))
    | None => r_status r = 416
    end) as Hmain.
  { intros Hcase. destruct (resolve_range_spec spec (zlen c) Hok ltac:(lia) Hcase) as (offset & len & Er & Hspec).
    unfold get_range. rewrite (bind_run _ _ _ _ _ Esz), (bind_run _ _ s s (offset, len)) by (unfold of_outcome; by rewrite Er).
    destruct (range_of spec (zlen c)) as [[a b]|]; [|rewrite Hspec; by eexists].
    destruct Hspec as (-> & -> & -> & Hb & Ha).
    rewrite (bind_run _ _ s s (slice c (Z.to_nat a) (Z.to_nat (b + 1))))
      by (apply call_ok; unfold asks; by rewrite (blob_get_range_slice _ _ _ _ _ Hget Hc Ha Hb)).
    eexists. split; [done|]. split_and!; [done|apply app_nil_r|].
    cbn. by replace (a + (b - a + 1) - 1) with b by lia. }
  destruct spec as [a e|n], c as [|x c]; [|by apply Hmain..].
  unfold get_range. by rewrite (bind_run _ _ _ _ _ Esz).
Qed.

Definition sample_digest : rstr := kappa_text Sha256 (rs "hello").

Lemma oci_blob_put_correct_witness :
  ∃ s' r, oci_blob_put (sample_cx None []) (with_name (replicate 16 x07) (rs "ns")) sample_digest (rs "hello") empty_store
    = (s', Ok r) ∧ r_status r = 201 ∧ stored_under s' (rs "hello") sample_digest.
Proof.
  destruct (proj1 (oci_blob_put_correct (sample_cx None []) (with_name (replicate 16 x07) (rs "ns")) sample_digest
    (rs "hello") empty_store ltac:(intros p c Hp; discriminate Hp))) as (s' & r & E & Hst & _ & _ & Hr & _).
  - split; try discriminate; vm_compute; reflexivity.
  - exists s', r. split_and!; [exact E|exact Hst|exact Hr].
Defined.

Lemma oci_blob_get_correct_witness :
  ∃ r, oci_blob_get (sample_cx None [(rs "range", rs "bytes=1-3")]) (kappa_text Blake3 (rs "hello")) sample_store
    = (sample_store, Ok r) ∧ r_status r = 206 ∧ body_of r = rs "ell".
Proof.
  destruct (oci_blob_get_correct (sample_cx None [(rs "range", rs "bytes=1-3")]) (kappa_text Blake3 (rs "hello")) (rs "hello")
    sample_store) as (r & E & Hs & Hb & _); [vm_compute; reflexivity|vm_compute; discriminate|].
  exists r. split_and!; [exact E|exact Hs|exact Hb].
Defined.

(** A range request on an empty blob panics, as computed with overflow checks. *)
Lemma empty_blob_range_panics `{HashCratesLaws} `{MemoryStoreConfig} `{JsonCrates} cx k s start end_
  (Hget : blob_get k s = Ok [])
  (Hr : (h ← cx_header cx (rs "range"); parse_range_header h) = Some (Range start end_)) :
  oci_blob_get cx k s = (s, Panic).
Proof.
  unfold oci_blob_get. destruct (content_type_run k s) as [ct Ect]. rewrite (bind_run _ _ _ _ _ Ect), Hr. unfold get_range.
  rewrite (bind_run _ _ s s 0) by (apply call_ok; unfold asks; by rewrite (blob_get_size _ _ _ Hget)). done.
Qed.
