(* ===== verification/OciManifest.v ===== *)
(** OciManifest: the manifest and tag-list endpoints of the OCI module,
    [kappa-module-oci/src/manifests.rs], over the in-memory store.

    A pushed manifest can be pulled by its tags and by its digest; deleting by
    digest removes every tag that points at it; a tag list is paginated. *)

From S2P Require Import Prelude Label Compute Types Merkle Epoch Identity Store MemStore MemTags MemEdge MemNamespace Frame Http OciBlob Text.

(** [str::parse::<HeaderValue>()] of the header crate. *)
Class HeaderCrate := { header_value_ok : rstr → bool }.

(** Documented: visible ASCII is accepted, control characters are not. *)
Class HeaderCrateLaws `{HeaderCrate} : Prop := {
  header_visible : ∀ v, forallb (in_range 32 126) v = true → header_value_ok v = true;
  header_control : ∀ v, existsb (in_range 0 31) (filter (λ b, b ≠ x09) v) = true → header_value_ok v = false;
}.

Definition is_digest (reference : rstr) : bool := is_ok (label_parse reference).

Definition looks_like_bad_digest (reference : rstr) : bool :=
  match split_once COLON reference with
  | Some (algo, _) =>
      bool_decide (algo ∈ [rs "sha1"; rs "sha256"; rs "blake3"; rs "sha3-256"; rs "keccak256"; rs "sha512"])
  | None => false
  end.

Section handlers.
Context `{HashCrates} `{Dcbor} `{!IntoCbor Edge} `{MemoryStoreConfig} `{JsonCrates} `{HeaderCrate}.

Definition parse_oci_subject (manifest_bytes : bytes) : option rstr :=
  match serde_from_slice manifest_bytes with
  | inl v => subject ← json_get (rs "subject") v; json_str (rs "digest") subject
  | inr _ => None
  end.

(** * PUT *)

Definition tag_mutation (ns : NamespaceRef) (tag kappa : rstr) : EpochMutation :=
  mkMutation TagSet (ns_as_str ns) tag None (Some kappa).

(** The tags are bound one task at a time. *)
Fixpoint bind_tags (ns : NamespaceRef) (kappa : rstr) (tags : list rstr) : Handler () :=
  match tags with
  | [] => mret ()
  | t :: tags => _ ← call (tag_set ns t kappa); bind_tags ns kappa tags
  end.

Definition put_headers (cx : Cx) (ns : NamespaceRef) (kappa : rstr) (body : bytes) : list (rstr * rstr) :=
  let extra_tags := query_params_multi cx (rs "tag") in
  [(rs "x-kappa-label", kappa); (rs "docker-content-digest", kappa);
   (rs "location", rs "/v2/" ++ ns_as_str ns ++ rs "/manifests/" ++ kappa); (rs "content-length", rs "0")]
  ++ (match parse_oci_subject body with Some subj => [(rs "oci-subject", subj)] | None => [] end)
  ++ (if decide (extra_tags = []) then [] else [(rs "oci-tag", join (rs ", ") extra_tags)]).

(** Every value goes through [parse().unwrap()]. *)
Definition with_headers (status : Z) (headers : list (rstr * rstr)) (body : list bytes) : Handler Response :=
  if forallb (λ h, header_value_ok h.2) headers then mret (mkResponse status headers body) else panic.

(** From the ingest on. *)
Definition manifest_store (cx : Cx) (ns : NamespaceRef) (reference content_type : rstr) (body : bytes)
  (kappa : rstr) (is_tag : bool) : Handler Response :=
  _ ← call (ingest_verified kappa body);
  _ ← call (blob_put_meta kappa (rs "content-type") content_type);
  _ ← call (_ ← blob_put_meta kappa (rs "object-type") (rs "manifest");
            meta_set ns kappa (rs "object-type") (rs "manifest"));
  let extra_tags := query_params_multi cx (rs "tag") in
  let bound := (if is_tag then [reference] else []) ++ extra_tags in
  _ ← bind_tags ns kappa bound;
  let tag_mutations := (λ t, tag_mutation ns t kappa) <$> bound in
  _ ← (if decide (tag_mutations = []) then mret ()
       else r ← call (epoch_advance (cx_now_ms cx) ns tag_mutations); mret ());
  let subject_digest := parse_oci_subject body in
  _ ← match subject_digest with
      | Some subj => ignored (edge_put ns (mkEdge kappa subj RefersTo (registry_anchor cx) None None))
      | None => mret ()
      end;
  with_headers 201 (put_headers cx ns kappa body) [].

Definition manifest_put (cx : Cx) (ns : NamespaceRef) (reference content_type : rstr) (body : bytes)
  : Handler Response :=
  if default false (cx_disk_pressure cx) then
    mret (oci_error 507 (rs "INSUFFICIENT_STORAGE") (rs "disk pressure: insufficient space for write"))
  else
    filtered ← evaluate_filters ns body;
    match filtered with
    | Some rejection => mret rejection
    | None =>
        schema ← validate_schemas ns body;
        match schema with
        | Some rejection => mret rejection
        | None =>
            if is_digest reference then
              valid ← verify_blocking reference body;
              if negb valid then
                mret (oci_error 400 (rs "DIGEST_INVALID") (rs "computed digest does not match " ++ reference))
              else manifest_store cx ns reference content_type body reference false
            else if looks_like_bad_digest reference then
              mret (oci_error 400 (rs "DIGEST_INVALID") (rs "invalid digest format: " ++ reference))
            else manifest_store cx ns reference content_type body (kappa_from_bytes body) true
        end
    end.

(** * GET and HEAD *)

Definition resolve_reference (ns : NamespaceRef) (reference : rstr) : Handler rstr :=
  if is_digest reference then mret reference
  else e ← call (asks (tag_get ns reference)); mret (te_kappa e).

Definition manifest_headers (kappa ct : rstr) (size : Z) : list (rstr * rstr) :=
  [(rs "content-type", ct); (rs "content-length", dec size);
   (rs "x-kappa-label", kappa); (rs "docker-content-digest", kappa)].

Definition manifest_get (ns : NamespaceRef) (reference : rstr) : Handler Response :=
  kappa ← resolve_reference ns reference;
  ct ← content_type_of kappa;
  size ← call (asks (blob_size kappa));
  reader ← call (asks (blob_get kappa));
  with_headers 200 (manifest_headers kappa ct size) (stream_frames (length reader) reader).

Definition manifest_head (ns : NamespaceRef) (reference : rstr) : Handler Response :=
  kappa ← resolve_reference ns reference;
  size ← call (asks (blob_size kappa));
  ct ← content_type_of kappa;
  mret (mkResponse 200 (manifest_headers kappa ct size) []).

(** * DELETE *)

Fixpoint delete_tags (ns : NamespaceRef) (tags : list rstr) : M store () :=
  match tags with
  | [] => mret ()
  | t :: tags => _ ← tag_delete ns t; delete_tags ns tags
  end.

Definition manifest_delete (cx : Cx) (ns : NamespaceRef) (reference : rstr) : Handler Response :=
  if is_digest reference then
    all_tags ← call (asks (tag_list ns));
    let tags := te_name <$> filter (λ t, te_kappa t = reference) all_tags in
    let delete_mutations :=
      (λ t, mkMutation TagDelete (ns_as_str ns) t (Some reference) None) <$> tags in
    _ ← call (_ ← delete_tags ns tags;
              _ ← blob_delete reference;
              if decide (delete_mutations = []) then mret ()
              else r ← epoch_advance (cx_now_ms cx) ns delete_mutations; mret ());
    mret (mkResponse 202 [] [])
  else
    _ ← call (_ ← tag_delete ns reference;
              r ← epoch_advance (cx_now_ms cx) ns
                    [mkMutation TagDelete (ns_as_str ns) reference None None];
              mret ());
    mret (mkResponse 202 [] []).

(** * Tag list *)

Definition tags_body (ns : NamespaceRef) (names : list rstr) : bytes :=
  serde_to_string (JObj [(rs "name", JStr (ns_as_str ns)); (rs "tags", JArr (JStr <$> names))]).

Definition desc_leb (a b : rstr) : bool := bytes_leb b a.

(** The names on the page and whether more follow. *)
Definition page (n_param : option Z) (last_param order_param after_param before_param : option rstr)
  (all_tags : list TagEntry) : list rstr * bool :=
  let names := te_name <$> filter (λ t, starts_with (rs "_") (te_name t) = false) all_tags in
  let names := match after_param with Some after => filter (λ t, bytes_ltb after t = true) names | None => names end in
  let names := match before_param with Some before => filter (λ t, bytes_ltb t before = true) names | None => names end in
  let names := if decide (order_param = Some (rs "desc")) then sort_by desc_leb names else sort_strings names in
  let names := match last_param with
               | Some l => match position (λ t, bool_decide (t = l)) names with
                           | Some pos => drop (S pos) names
                           | None => names
                           end
               | None => names
               end in
  match n_param with
  | Some limit => if limit <? zlen names then (take (Z.to_nat limit) names, true) else (names, false)
  | None => (names, false)
  end.

Definition oci_tag_list (cx : Cx) (ns : NamespaceRef) : Handler Response :=
  let n_param := n ← query_param cx (rs "n"); parse_u64 n in
  let json := [(rs "content-type", rs "application/json")] in
  if decide (n_param = Some 0) then mret (response 200 json (tags_body ns []))
  else
    all_tags ← call (asks (tag_list ns));
    let '(tag_names, has_more) :=
      page n_param (query_param cx (rs "last")) (query_param cx (rs "order")) (query_param cx (rs "after"))
        (query_param cx (rs "before")) all_tags in
    let body := tags_body ns tag_names in
    match (if has_more then last tag_names else None) with
    | Some last_tag =>
        let link := rs "</v2/" ++ ns_as_str ns ++ rs "/tags/list?last=" ++ last_tag
                    ++ rs ">; rel=" ++ [QUOTE] ++ rs "next" ++ [QUOTE] in
        mret (response 200 (json ++ [(rs "link", link)]) body)
    | None => mret (response 200 json body)
    end.

(** * Routes *)

Definition manifest_put_route (cx : Cx) (body : bytes) : Handler Response :=
  ns ← resolve_ns_write cx;
  let ct := default (rs "application/vnd.oci.image.manifest.v1+json") (cx_header cx (rs "content-type")) in
  manifest_put cx ns (path_param cx (rs "reference")) ct body.

Definition manifest_get_route (cx : Cx) : Handler Response :=
  ns ← resolve_ns_read cx;
  manifest_get ns (path_param cx (rs "reference")).

Definition manifest_head_route (cx : Cx) : Handler Response :=
  ns ← resolve_ns_read cx;
  manifest_head ns (path_param cx (rs "reference")).

Definition manifest_delete_route (cx : Cx) : Handler Response :=
  ns ← resolve_ns_write cx;
  manifest_delete cx ns (path_param cx (rs "reference")).

Definition oci_tag_list_route (cx : Cx) : Handler Response :=
  ns ← resolve_ns_read cx;
  oci_tag_list cx ns.
End handlers.

(** * Facts *)

Section facts.
Context `{HashCratesLaws} `{Dcbor} `{!IntoCbor Edge} `{MemoryStoreConfig} `{JsonCrates} `{HeaderCrate}.

(** What a manifest is stored as, and the tags bound to it. *)
Definition manifest_kappa (reference : rstr) (body : bytes) : rstr :=
  if is_digest reference then reference else kappa_from_bytes body.

Definition bound_tags (cx : Cx) (reference : rstr) : list rstr :=
  (if is_digest reference then [] else [reference]) ++ query_params_multi cx (rs "tag").

Record manifest_allowed (cx : Cx) (ns : NamespaceRef) (reference : rstr) (body : bytes) (s : store) : Prop := {
  ma_pressure : cx_disk_pressure cx ≠ Some true;
  ma_filters : (evaluate_filters ns body s).2 = Ok None;
  ma_schemas : (validate_schemas ns body s).2 = Ok None;
  ma_reference : if is_digest reference then verify_kappa reference body = Ok true
                 else looks_like_bad_digest reference = false;
}.

Lemma manifest_put_allowed cx ns reference ct body s : manifest_allowed cx ns reference body s →
  manifest_put cx ns reference ct body s
  = manifest_store cx ns reference ct body (manifest_kappa reference body) (negb (is_digest reference)) s.
Proof.
  intros [Hp Hf Hsc Hr]. unfold manifest_put, manifest_kappa.
  assert (default false (cx_disk_pressure cx) = false) as -> by (destruct (cx_disk_pressure cx) as [[]|]; done).
  unfold mbind at 1, Handler_bind at 1. pose proof (evaluate_filters_state ns body s) as Hf1.
  destruct (evaluate_filters ns body s) as [s1 r1]. cbn in Hf, Hf1. subst s1 r1.
  unfold mbind at 1, Handler_bind at 1. pose proof (validate_schemas_state ns body s) as Hf2.
  destruct (validate_schemas ns body s) as [s1 r1]. cbn in Hsc, Hf2. subst s1 r1.
  destruct (is_digest reference).
  - unfold mbind at 1, Handler_bind at 1, verify_blocking. by rewrite Hr.
  - by rewrite Hr.
Qed.

Lemma manifest_kappa_verifies cx ns reference body s : manifest_allowed cx ns reference body s →
  verify_kappa (manifest_kappa reference body) body = Ok true.
Proof.
  intros Ha. pose proof (ma_reference _ _ _ _ _ Ha) as Hr. unfold manifest_kappa.
  destruct (is_digest reference); [done|]. apply verify_kappa_true. exists Sha256.
  split; [apply kappa_from_bytes_text|done].
Qed.

Lemma bind_tags_total n q ns kappa ts s : room (length ts + n) q s →
  ∃ s', bind_tags ns kappa ts s = (s', Ok ()) ∧ room n q s' ∧ keeps (tag_key ns <$> ts) s s' ∧
    ∀ t, t ∈ ts → ∃ e, tags s' !! tag_key ns t = Some e ∧ te_kappa e = kappa.
Proof.
  revert s. induction ts as [|t ts IH]; intros s Hroom; cbn [bind_tags length] in *.
  { exists s. split_and!; [done|done|apply keeps_refl|by intros t ?%not_elem_of_nil]. }
  destruct (tag_set_total _ q ns t kappa s Hroom) as (s1 & v & E1 & Hr1 & K1 & Ht1 & _ & _).
  rewrite (bind_run _ _ _ _ _ (call_ok _ _ _ _ E1)).
  destruct (IH s1 Hr1) as (s2 & E2 & Hr2 & K2 & Ht2). exists s2.
  split_and!; [done|done|exact (keeps_trans [tag_key ns t] (tag_key ns <$> ts) _ _ _ K1 K2)|].
  intros t' [->|Hin]%elem_of_cons; [|by apply Ht2].
  destruct (decide (tag_key ns t ∈ tag_key ns <$> ts)) as [Hin|Hout].
  - apply list_elem_of_fmap in Hin as (t' & E & Hin). rewrite E. by apply Ht2.
  - exists (mkTag t kappa v). split; [|done]. by rewrite (k_tags _ _ _ K2).
Qed.

(** The metadata the store step writes. *)
Definition manifest_meta (kappa ct : rstr) (m : gmap (Z * Z) bytes) : gmap (Z * Z) bytes :=
  <[meta_key kappa (rs "object-type") := rs "manifest"]> (<[meta_key kappa (rs "content-type") := ct]> m).

(** A successful store: content readable, metadata written, tags bound. *)
Record manifest_stored (ns : NamespaceRef) (ts : list rstr) (kappa ct : rstr) (body : bytes) (s s' : store) : Prop := {
  ms_ok : fs_ok (fs s');
  ms_blob : stored_under s' body kappa;
  ms_kept : ∀ c k, stored_under s c k → stored_under s' c k;
  ms_meta : meta s' = manifest_meta kappa ct (meta s);
  ms_bound : ∀ t, t ∈ ts → tag_key ns t ≠ epoch_tag ns → ∃ e, tags s' !! tag_key ns t = Some e ∧ te_kappa e = kappa;
  ms_other : ∀ key, key ∉ tag_key ns <$> ts → key ≠ epoch_tag ns → tags s' !! key = tags s !! key;
}.

Lemma manifest_store_run cx ns reference ct body kappa is_tag s :
  let ts := (if is_tag : bool then [reference] else []) ++ query_params_multi cx (rs "tag") in
  fs_ok (fs s) → verify_kappa kappa body = Ok true → room (S (length ts)) 1 s →
  ∃ s', manifest_store cx ns reference ct body kappa is_tag s
        = with_headers 201 (put_headers cx ns kappa body) [] s' ∧
    manifest_stored ns ts kappa ct body s s'.
Proof.
  intros ts Hs Hv Hroom. unfold manifest_store. fold ts.
  destruct (ingest_allowed kappa body s Hs Hv) as (s1 & r1 & E1 & Hs1 & Hst1 & Hk1 & [f ->] & _).
  rewrite (bind_run _ _ _ _ _ (call_ok _ _ _ _ E1)).
  rewrite (bind_run _ _ _ (set_meta (<[meta_key kappa (rs "content-type") := ct]>) (set_fs f s)) ()) by done.
  set (s2 := set_meta _ (set_fs f s)). set (s3 := set_meta (<[meta_key kappa (rs "object-type") := rs "manifest"]>) s2).
  destruct (meta_set_run ns kappa (rs "object-type") (rs "manifest") s3) as (s4 & E4 & K4 & Ht4 & Hq4).
  rewrite (bind_run _ _ s2 s4 ()) by (apply call_ok; exact E4).
  assert (room (length ts + 1) 1 s4) as Hr4 by (rewrite Nat.add_1_r; by apply (room_same _ _ s)).
  destruct (bind_tags_total 1 1 ns kappa ts s4 Hr4) as (s5 & E5 & Hr5 & K5 & Hb5).
  rewrite (bind_run _ _ _ _ _ E5).
  set (adv := if decide _ then _ else _).
  assert (∃ s6, adv s5 = (s6, Ok ()) ∧ keeps [epoch_tag ns] s5 s6) as (s6 & E6 & K6).
  { unfold adv. case_decide; [exists s5; split; [done|apply keeps_refl]|].
    destruct (epoch_advance_total 0 0 (cx_now_ms cx) ns ((λ t, tag_mutation ns t kappa) <$> ts) s5 Hr5) as (s6 & k & E6 & _ & K6 & _).
    exists s6. split; [|done]. by rewrite (bind_run _ _ _ _ _ (call_ok _ _ _ _ E6)). }
  rewrite (bind_run _ _ _ _ _ E6).
  set (sub := match parse_oci_subject body with Some subj => _ | None => _ end).
  assert (∃ s7, sub s6 = (s7, Ok ()) ∧ keeps [] s6 s7) as (s7 & E7 & K7).
  { unfold sub. destruct (parse_oci_subject body) as [subj|]; [|exists s6; split; [done|apply keeps_refl]].
    destruct (edge_put_total ns (mkEdge kappa subj RefersTo (registry_anchor cx) None None) s6) as (s7 & E7 & K7 & _).
    exists s7. split; [|done]. unfold ignored. by rewrite E7. }
  rewrite (bind_run _ _ _ _ _ E7). exists s7. split; [done|].
  pose proof (keeps_trans _ _ _ _ _ K5 (keeps_trans _ _ _ _ _ K6 K7)) as K57.
  assert (keeps ((tag_key ns <$> ts) ++ [epoch_tag ns]) s3 s7) as K.
  { eapply keeps_mono; [|exact (keeps_trans _ _ _ _ _ K4 K57)]. set_solver. }
  split.
  - by apply (k_blobs _ _ _ K).
  - apply (k_blobs _ _ _ K); [done|]. apply (blobs_kept_fs (set_fs f s)); done.
  - intros c k Hc. apply (k_blobs _ _ _ K); [done|]. apply (blobs_kept_fs (set_fs f s)); [done..|]. by apply Hk1.
  - by rewrite (k_meta _ _ _ K).
  - intros t Hin Hne. destruct (Hb5 t Hin) as (e & He & Hk). exists e. split; [|done].
    rewrite (k_tags _ _ _ (keeps_trans _ _ _ _ _ K6 K7)); [done|]. set_solver.
  - intros key Hk Hne. rewrite (k_tags _ _ _ K) by set_solver. done.
Qed.

(** Pulling something whose content and type are readable. *)
Lemma manifest_get_run `{!HeaderCrateLaws} ns reference kappa ct body s :
  resolve_reference ns reference s = (s, Ok kappa) → stored_under s body kappa →
  meta s !! meta_key kappa (rs "content-type") = Some ct → utf8_valid ct = true → header_value_ok ct = true →
  header_value_ok kappa = true →
  ∃ r a, manifest_get ns reference s = (s, Ok r) ∧ r_status r = 200 ∧
    header_of (rs "docker-content-digest") r = Some kappa ∧ header_of (rs "content-type") r = Some ct ∧
    kappa = kappa_text a body ∧ kappa_text a (body_of r) = kappa.
Proof.
  intros Href (a & c & -> & Hg & Hc) Hm Hu Hh Hhk. unfold manifest_get. rewrite (bind_run _ _ _ _ _ Href).
  assert (content_type_of (kappa_text a body) s = (s, Ok ct)) as Ect.
  { unfold content_type_of, blocking, mbind, Handler_bind, asks, mret, Handler_ret, blob_get_meta, ok_or.
    by rewrite Hm, Hu. }
  rewrite (bind_run _ _ _ _ _ Ect).
  rewrite (bind_run _ _ s s (zlen c)) by (apply call_ok; unfold asks; by rewrite (blob_get_size _ _ _ Hg)).
  rewrite (bind_run _ _ s s c) by (apply call_ok; unfold asks; by rewrite Hg).
  unfold with_headers, manifest_headers. cbn [forallb snd]. rewrite Hh, Hhk.
  rewrite header_visible.
  2:{ apply forallb_forall. intros b Hb. pose proof (proj1 (forallb_forall _ _) (dec_digits (zlen c) ltac:(lia)) b Hb) as Hd.
      unfold in_range in *. apply andb_prop in Hd as [D1%Z.leb_le D2%Z.leb_le]. apply andb_true_intro. split; apply Z.leb_le; lia. }
  eexists _, a. split; [done|]. split_and!; [done..|]. unfold body_of. cbn [r_body]. by rewrite concat_stream_frames.
Qed.
End facts.

Section pull.
Context `{HashCratesLaws} `{Dcbor} `{!IntoCbor Edge} `{MemoryStoreConfig} `{JsonCrates} `{HeaderCrate}.

Lemma resolve_digest ns kappa body s : verify_kappa kappa body = Ok true →
  resolve_reference ns kappa s = (s, Ok kappa).
Proof.
  intros (a & -> & _)%verify_kappa_true. unfold resolve_reference, is_digest. by rewrite kappa_text_parse.
Qed.

Lemma resolve_tag ns t e s : is_digest t = false → tags s !! tag_key ns t = Some e →
  resolve_reference ns t s = (s, Ok (te_kappa e)).
Proof.
  intros Hd He. unfold resolve_reference. rewrite Hd.
  rewrite (bind_run _ _ s s e) by (apply call_ok; unfold asks, tag_get; by rewrite He). done.
Qed.

(** A push that is not allowed leaves the store alone. *)
Lemma manifest_put_refused cx ns reference ct body s : ¬ manifest_allowed cx ns reference body s →
  (manifest_put cx ns reference ct body s).1 = s ∧
  ∀ r, (manifest_put cx ns reference ct body s).2 = Ok r → r_status r ≠ 201.
Proof.
  intros Hn. unfold manifest_put.
  destruct (default false (cx_disk_pressure cx)) eqn:Hp; [split; [done|by intros r [= <-]]|].
  unfold mbind, Handler_bind.
  pose proof (evaluate_filters_state ns body s) as Hf1. pose proof (rejection_status ns body s) as Hrej.
  destruct (evaluate_filters ns body s) as [s1 [[rj|]|e|]] eqn:Ef; cbn in Hf1; subst s1; [|..|done|done].
  { split; [done|]. intros r [= <-]. rewrite (Hrej rj) by (by left). done. }
  pose proof (validate_schemas_state ns body s) as Hf2.
  destruct (validate_schemas ns body s) as [s1 [[rj|]|e|]] eqn:Es; cbn in Hf2; subst s1; [|..|done|done].
  { split; [done|]. intros r [= <-]. rewrite (Hrej rj) by (by right). done. }
  assert (¬ if is_digest reference then verify_kappa reference body = Ok true
            else looks_like_bad_digest reference = false) as Hr.
  { intros Hr. apply Hn. split; [by intros E; rewrite E in Hp|by rewrite Ef|by rewrite Es|done]. }
  destruct (is_digest reference).
  - unfold verify_blocking.
    destruct (verify_kappa reference body) as [[]|e|]; [done| |done..]. split; [done|by intros r [= <-]].
  - destruct (looks_like_bad_digest reference); [|done]. split; [done|by intros r [= <-]].
Qed.
End pull.

(** * Deleting *)

Section deleting.
Context `{HashCratesLaws} `{Dcbor} `{!IntoCbor Edge} `{MemoryStoreConfig} `{JsonCrates} `{HeaderCrate}.

Lemma delete_tags_run ns ts s :
  ∃ s', delete_tags ns ts s = (s', Ok ()) ∧ fs s' = fs s ∧ sequences s' = sequences s ∧
    ∀ key, tags s' !! key = if decide (key ∈ tag_key ns <$> ts) then None else tags s !! key.
Proof.
  revert s. induction ts as [|t ts IH]; intros s; cbn [delete_tags].
  { exists s. split_and!; [done..|]. intros key. by rewrite decide_False by apply not_elem_of_nil. }
  unfold mbind, M_bind. destruct (IH (set_tags (delete (tag_key ns t)) s)) as (s' & E & Hf & Hq & Ht).
  exists s'. split_and!; [exact E|by rewrite Hf|by rewrite Hq|]. intros key. rewrite Ht. cbn [tags set_tags].
  rewrite fmap_cons. destruct (decide (key ∈ tag_key ns <$> ts)) as [Hin|Hin].
  - rewrite decide_True by set_solver. done.
  - destruct (decide (key = tag_key ns t)) as [->|Hne].
    + rewrite decide_True by set_solver. apply lookup_delete_eq.
    + rewrite decide_False by set_solver. by apply lookup_delete_ne.
Qed.

(** The names of a namespace's tags that point at a digest. *)
Definition tags_at (ns : NamespaceRef) (d : rstr) (s : store) : list rstr :=
  te_name <$> filter (λ t, te_kappa t = d) (collect_sorted_tags ns s).

Lemma tags_at_keys ns d s e h : tags_wf s → tags s !! (ns_uuid ns, h) = Some e → te_kappa e = d →
  (ns_uuid ns, h) ∈ tag_key ns <$> tags_at ns d s.
Proof.
  intros Hw He Hd. destruct (Hw _ _ _ He) as [Hh _]. apply list_elem_of_fmap. exists (te_name e).
  split; [unfold tag_key; by rewrite Hh|]. apply list_elem_of_fmap. exists e. split; [done|].
  apply list_elem_of_filter. split; [done|]. unfold collect_sorted_tags. rewrite elem_of_sort_by.
  apply ns_tags_elem. eauto.
Qed.

(** The task of a delete by digest. *)
Lemma delete_task_run now ns a hex muts s : let d := label_text a hex in
  valid_digits a hex → fs_ok (fs s) → room 1 1 s →
  ∃ s', (_ ← delete_tags ns (tags_at ns d s); _ ← blob_delete d;
         if decide (muts = []) then mret () else r ← epoch_advance now ns muts; mret ()) s = (s', Ok ()) ∧
    (∀ key, key ≠ epoch_tag ns → tags s' !! key = if decide (key ∈ tag_key ns <$> tags_at ns d s) then None else tags s !! key) ∧
    (blob_get d s' = Err (SNotFound d) ∨ te_kappa <$> tags s' !! epoch_tag ns = Some d).
Proof.
  intros d Hv Hs Hroom. destruct (delete_tags_run ns (tags_at ns d s) s) as (s1 & E1 & Hf1 & Hq1 & Ht1).
  unfold mbind at 1, M_bind at 1. rewrite E1. unfold mbind at 1, M_bind at 1.
  assert (∃ g, blob_delete d s1 = (set_fs g s1, Ok ())) as [g E2].
  { cbn [blob_delete mem_blobs]. unfold mem_blob_delete, mbind, M_bind, lift, modify, d. rewrite blob_path_label by done. eauto. }
  rewrite E2. pose proof (delete_get (St := store) a hex s1 _ Hv E2) as Hgone. fold d in Hgone.
  assert (store_inv (St := store) (set_fs g s1)) as Hs2 by (eapply delete_inv; [|exact E2]; cbn; by rewrite Hf1).
  assert (room 1 1 (set_fs g s1)) as Hr2 by (by eapply (room_delete _ _ s)).
  case_decide as Hm.
  - eexists. split; [done|]. split; [|by left]. intros key _. exact (Ht1 key).
  - destruct (epoch_advance_total 0 0 now ns muts _ Hr2) as (s3 & k & E3 & _ & K3 & Hk3 & Ho3).
    unfold mbind, M_bind. rewrite E3. eexists. split; [done|]. split.
    + intros key Hne. rewrite (k_tags _ _ _ K3) by set_solver. exact (Ht1 key).
    + destruct (decide (d = k)) as [->|Hne]; [by right|left]. unfold d in *. by rewrite (Ho3 a hex).
Qed.
End deleting.

(** * Pages *)

(** All the names a list can show, in order. *)
Definition visible (all_tags : list TagEntry) : list rstr :=
  sort_strings (te_name <$> filter (λ t, starts_with (rs "_") (te_name t) = false) all_tags).

(** Asking for page after page of [n] names, each from the last name seen. *)
Fixpoint walk_pages (fuel : nat) (n : Z) (last_param : option rstr) (all_tags : list TagEntry) : list rstr :=
  match fuel with
  | O => []
  | S fuel =>
      let '(names, more) := page (Some n) last_param None None None all_tags in
      names ++ if more then walk_pages fuel n (last names) all_tags else []
  end.

Lemma page_after n last_param all_tags pre rest :
  visible all_tags = pre ++ rest → NoDup (visible all_tags) → last_param = last pre →
  page (Some n) last_param None None None all_tags
  = if n <? zlen rest then (take (Z.to_nat n) rest, true) else (rest, false).
Proof.
  intros Hv Hnd ->. unfold page. rewrite decide_False by done. fold (visible all_tags). rewrite Hv in *.
  assert (match last pre with
          | Some l => match position (λ t, bool_decide (t = l)) (pre ++ rest) with
                      | Some pos => drop (S pos) (pre ++ rest) | None => pre ++ rest end
          | None => pre ++ rest end = rest) as ->; [|done].
  destruct pre as [|x pre' _] using rev_ind; [done|]. rewrite last_snoc. rewrite <- app_assoc in *. cbn [app] in *.
  rewrite (position_app_ne _ pre' x rest); [by rewrite drop_middle| |by rewrite bool_decide_eq_true].
  apply NoDup_app in Hnd as (_ & Hout & _). apply Forall_forall. intros y Hy. apply bool_decide_eq_false.
  intros ->. apply (Hout x Hy). by left.
Qed.

Lemma walk_pages_rest fuel n pre rest all_tags : 1 ≤ n → (length rest < fuel)%nat →
  visible all_tags = pre ++ rest → NoDup (visible all_tags) →
  walk_pages fuel n (last pre) all_tags = rest.
Proof.
  intros Hn. revert pre rest. induction fuel as [|fuel IH]; intros pre rest Hf Hv Hnd; [lia|]. cbn [walk_pages].
  rewrite (page_after n (last pre) all_tags pre rest Hv Hnd eq_refl).
  destruct (Z.ltb_spec n (zlen rest)) as [Hlt|Hge]; [|apply app_nil_r].
  assert (take (Z.to_nat n) rest ≠ []) as Hne.
  { intros E. apply (f_equal length) in E. rewrite length_take in E. cbn in E. lia. }
  assert (last (take (Z.to_nat n) rest) = last (pre ++ take (Z.to_nat n) rest)) as ->.
  { rewrite last_app. destruct (last (take (Z.to_nat n) rest)) eqn:E; [done|]. by apply last_None in E. }
  rewrite (IH _ (drop (Z.to_nat n) rest)); [apply take_drop| |by rewrite <- app_assoc, take_drop|done].
  rewrite length_drop. lia.
Qed.

(** * Properties *)


(** Deleting a manifest by digest answers 202 and afterwards no tag of the
    namespace points at the digest, other tags are unchanged, and the blob is
    gone (apart from the epoch pointer, should the epoch root just written have
    that very digest). *)
Theorem manifest_delete_digest `{HashCratesLaws} `{Dcbor} `{!IntoCbor Edge} `{MemoryStoreConfig} `{JsonCrates}
  `{HeaderCrate} cx ns a hex s (Hv : valid_digits a hex) (Hs : fs_ok (fs s)) (Hw : tags_wf s) (Hroom : room 1 1 s) :
  let d := label_text a hex in
  ∃ s', manifest_delete cx ns d s = (s', Ok (mkResponse 202 [] [])) ∧
    (∀ key e, key ≠ epoch_tag ns → tags s' !! key = Some e → key.1 = ns_uuid ns → te_kappa e ≠ d) ∧
    (∀ key e, key ≠ epoch_tag ns → tags s !! key = Some e → key.1 ≠ ns_uuid ns ∨ te_kappa e ≠ d → tags s' !! key = Some e) ∧
    (blob_get d s' = Err (SNotFound d) ∨ te_kappa <$> tags s' !! epoch_tag ns = Some d).
Proof.
  intros d. unfold manifest_delete. assert (is_digest d = true) as ->.
  { unfold is_digest, d. by rewrite (proj2 (label_parse_ok _ (label_of a hex))) by eauto. }
  rewrite (bind_run _ _ s s (collect_sorted_tags ns s)) by done. cbv zeta. fold (tags_at ns d s).
  destruct (delete_task_run (cx_now_ms cx) ns a hex
    ((λ t, mkMutation TagDelete (ns_as_str ns) t (Some d) None) <$> tags_at ns d s) s Hv Hs Hroom) as (s' & E & Ht & Hb).
  rewrite (bind_run _ _ _ _ _ (call_ok _ _ _ _ E)). exists s'. split_and!; [done| | |exact Hb].
  - intros [u h] e Hne He Hu Hd. cbn in Hu. subst u. rewrite Ht in He by done. case_decide as Hin; [done|].
    apply Hin. by eapply tags_at_keys.
  - intros [u h] e Hne He Hor. rewrite Ht by done. rewrite decide_False; [done|].
    intros (t & E1 & Hin)%list_elem_of_fmap. apply list_elem_of_fmap in Hin as (e' & -> & Hin).
    apply list_elem_of_filter in Hin as [Hd Hin]. unfold collect_sorted_tags in Hin. rewrite elem_of_sort_by in Hin.
    apply ns_tags_elem in Hin as [h' He']. destruct (Hw _ _ _ He') as [Hh _]. unfold tag_key in E1. rewrite Hh in E1.
    injection E1 as -> ->. cbn in Hor. destruct Hor as [?|Hor]; [done|]. rewrite He in He'. injection He' as <-. exact (Hor Hd).
Qed.

(** A client that asks for pages of [n] tags, each from the last tag of the
    page before, sees every visible tag of the namespace once and in order. *)
Theorem tag_pages_complete `{HashCrates} n ns s (Hn : 1 ≤ n) (Hw : tags_wf s) :
  let all_tags := collect_sorted_tags ns s in
  walk_pages (S (length (visible all_tags))) n None all_tags = visible all_tags ∧
  StronglySorted bytes_le (visible all_tags) ∧ NoDup (visible all_tags) ∧
  ∀ t, t ∈ visible all_tags ↔ starts_with (rs "_") t = false ∧ ∃ e, tag_get ns t s = Ok e ∧ te_name e = t.
Proof.
  intros all_tags.
  assert (NoDup (visible all_tags)) as Hnd.
  { unfold visible, sort_strings. rewrite sort_by_perm. eapply sublist_NoDup; [|apply fmap_sublist, sublist_filter].
    unfold all_tags, collect_sorted_tags. rewrite sort_by_perm. by apply ns_tags_names. }
  split_and!; [|apply sort_strings_sorted|exact Hnd|].
  - apply (walk_pages_rest _ n []); [done|lia|done|done].
  - intros t. unfold visible, sort_strings. rewrite elem_of_sort_by, list_elem_of_fmap.
    setoid_rewrite list_elem_of_filter. unfold all_tags, collect_sorted_tags. setoid_rewrite elem_of_sort_by.
    setoid_rewrite ns_tags_elem. split.
    + intros (e & -> & Hst & h & He). split; [done|]. exists e. split; [|done]. destruct (Hw _ _ _ He) as [Hh _].
      unfold tag_get, tag_key. by rewrite Hh, He.
    + intros (Hst & e & He & <-). exists e. split_and!; [done..|]. apply ok_or_ok_inv in He. eauto.
Qed.

(** A subject or extra tag with a control character, which the request can spell
    as an escape, makes an allowed push panic after everything was stored. *)
Theorem manifest_put_header_panic `{HashCratesLaws} `{Dcbor} `{!IntoCbor Edge} `{MemoryStoreConfig} `{JsonCrates}
  `{HeaderCrate} cx ns reference ct body s
  (Hs : fs_ok (fs s)) (Hroom : room (S (length (bound_tags cx reference))) 1 s)
  (Ha : manifest_allowed cx ns reference body s)
  (Hh : forallb (λ h, header_value_ok h.2) (put_headers cx ns (manifest_kappa reference body) body) = false) :
  ∃ s', manifest_put cx ns reference ct body s = (s', Panic) ∧
    manifest_stored ns (bound_tags cx reference) (manifest_kappa reference body) ct body s s'.
Proof.
  pose proof (manifest_kappa_verifies _ _ _ _ _ Ha) as Hv. rewrite manifest_put_allowed by done.
  assert ((if negb (is_digest reference) then [reference] else []) ++ query_params_multi cx (rs "tag")
          = bound_tags cx reference) as Hts by (unfold bound_tags; by destruct (is_digest reference)).
  destruct (manifest_store_run cx ns reference ct body _ (negb (is_digest reference)) s Hs Hv) as (s' & E & Hst);
    [by rewrite Hts|]. rewrite Hts in Hst. exists s'. split; [|exact Hst]. rewrite E. unfold with_headers. by rewrite Hh.
Qed.

(** The link of a descending page drops the order: following it ends the listing
    without the names below. *)
Lemma descending_link_loses_tags :
  let all_tags := [mkTag (rs "a") [] 1; mkTag (rs "b") [] 1; mkTag (rs "c") [] 1] in
  page (Some 1) None (Some (rs "desc")) None None all_tags = ([rs "c"], true) ∧
  page None (Some (rs "c")) None None None all_tags = ([], false).
Proof. split; vm_compute; reflexivity. Qed.

(** * Witnesses *)

#[export] Instance sample_headers : HeaderCrate := {| header_value_ok := forallb (in_range 32 126) |}.
#[export] Instance sample_headers_laws : HeaderCrateLaws.
Proof.
  split; [done|]. intros v Hc. apply existsb_exists in Hc as (b & Hin & Hb).
  apply list_elem_of_In, list_elem_of_filter in Hin as [_ Hin].
  destruct (header_value_ok v) eqn:E; [|done]. exfalso. cbn in E. rewrite forallb_forall in E.
  specialize (E b (proj1 (list_elem_of_In _ _) Hin)). unfold in_range in *.
  apply andb_prop in E as [E1%Z.leb_le _], Hb as [_ Hb%Z.leb_le]. lia.
Qed.


Lemma manifest_delete_digest_witness :
  let d := kappa_text Blake3 (rs "hello") in
  ∃ s', manifest_delete (sample_cx None []) sample_ns d sample_store = (s', Ok (mkResponse 202 [] [])).
Proof.
  destruct (manifest_delete_digest (sample_cx None []) sample_ns Blake3 (digest_hex Blake3 (rs "hello")) sample_store)
    as (s' & E & _).
  - apply digest_hex_valid.
  - exact sample_store_ok.
  - exact sample_store_wf.
  - apply sample_store_room; vm_compute; discriminate.
  - exists s'. exact E.
Defined.

Lemma tag_pages_complete_witness :
  let u := ns_uuid sample_ns in
  let s := (put_tag (u, item_hash (rs "v2")) (rs "v2") (rs "k2")
             (put_tag (u, item_hash (rs "v1")) (rs "v1") (rs "k1") empty_store).1).1 in
  walk_pages 3 1 None (collect_sorted_tags sample_ns s) = visible (collect_sorted_tags sample_ns s).
Proof.
  intros u s. assert (tags_wf s) as Hw.
  { unfold s. do 2 (eapply put_tag_wf; [|apply surjective_pairing]). intros u' h e He. discriminate He. }
  exact (proj1 (tag_pages_complete 1 sample_ns s ltac:(lia) Hw)).
Defined.
