(* ===== verification/OciUpload.v ===== *)
(** OciUpload: chunked uploads of the OCI module, [kappa-module-oci/src/upload.rs],
    over the in-memory store.

    A session begun, fed in chunks and completed with the digest of what was sent
    stores exactly that; the tag that pins the session outlives it. *)

From S2P Require Import Prelude Label Compute Types Merkle Epoch Identity Store MemStore MemTags MemEdge MemNamespace MemUpload Frame Http OciBlob.

(** [str::trim] on the visible ASCII a header value consists of. *)
Definition is_space (b : byte) : bool := in_range 9 13 b || bool_decide (b = x20).

Fixpoint trim_start (s : rstr) : rstr :=
  match s with
  | b :: rest => if is_space b then trim_start rest else s
  | [] => []
  end.
Definition trim (s : rstr) : rstr := rev (trim_start (rev (trim_start s))).

Definition parse_range_start (v : rstr) : option Z :=
  let v := trim v in
  let v := match strip_prefix (rs "bytes") v with Some rest => trim rest | None => v end in
  let range := first_segment SLASH v in
  parse_u64 (trim (first_segment DASH range)).

Section handlers.
Context `{HashCrates} `{TransferCrates} `{Dcbor} `{MemoryStoreConfig} `{JsonCrates}.

Definition pin_tag (id : rstr) : rstr := rs "_upload/" ++ id.
Definition upload_location (id : rstr) : rstr := rs "/v2/_uploads/" ++ id.

(** [format!("0-{}", total.saturating_sub(1))]. *)
Definition range_text (total : Z) : rstr := rs "0-" ++ dec (Z.max 0 (total - 1)).

(** The task drops the pin of a session it can still find; its errors are ignored. *)
Definition release_upload_pin (now : Z) (id : rstr) : Handler () :=
  ignored (
    ns_str ← upload_namespace now id;
    match ns_str with
    | Some ns_str =>
        found ← gets (namespace_resolve ns_str (Some (rs "oci")));
        match found with
        | Ok ns => tag_delete ns (pin_tag id)
        | Err _ => mret ()
        | Panic => lift Panic
        end
    | None => mret ()
    end).

Definition begin_upload (cx : Cx) (ns : NamespaceRef) : Handler Response :=
  match cx_max_blob_size cx with
  | None => panic
  | Some max_size =>
      id ← call (upload_begin (cx_instant cx 0) (cx_upload_id cx) ns max_size);
      _ ← call (pin_kappa ← blob_put_computed (rs "upload-session-pin");
                tag_set ns (pin_tag id) pin_kappa);
      mret (mkResponse 202
        [(rs "location", upload_location id); (rs "x-kappa-upload-session", id);
         (rs "x-kappa-chunk-min-length", rs "0"); (rs "oci-chunk-min-length", rs "0");
         (rs "content-length", rs "0")] [])
  end.

Definition start (cx : Cx) (ns : NamespaceRef) (mount_kappa : option rstr) : Handler Response :=
  match mount_kappa with
  | Some kappa =>
      exists_ ← call (asks (blob_exists kappa));
      if exists_ : bool then
        mret (mkResponse 201
          [(rs "location", rs "/v2/" ++ ns_as_str ns ++ rs "/blobs/" ++ kappa);
           (rs "content-length", rs "0"); (rs "docker-content-digest", kappa)] [])
      else begin_upload cx ns
  | None => begin_upload cx ns
  end.

Definition out_of_order : Response := response 416 [] (rs "out-of-order chunk").

(** The response to a part the store refuses. *)
Definition part_refused (e : StoreError) : Handler Response :=
  match e with
  | SNotFound _ => fail NotFoundError
  | SConflict _ => mret out_of_order
  | SRejected msg => mret (oci_error 413 (rs "SIZE_EXCEEDED") msg)
  | e => fail (BadRequest (store_error_str e))
  end.

Definition chunk (cx : Cx) (id : rstr) (range_start : option Z) (body : bytes) : Handler Response :=
  received ← direct (upload_bytes_received (cx_instant cx 0) id);
  match received with
  | None => fail NotFoundError
  | Some received =>
      let offset := match range_start with Some start => start | None => received end in
      result ← blocking (upload_put_part (cx_instant cx 1) id offset body);
      match result with
      | Ok total =>
          mret (mkResponse 202
            [(rs "range", range_text total); (rs "location", upload_location id);
             (rs "content-length", rs "0")] [])
      | Err e => part_refused e
      | Panic => panic
      end
  end.

Definition recovery (cx : Cx) (id : rstr) : Handler Response :=
  received ← direct (upload_bytes_received (cx_instant cx 0) id);
  match received with
  | None => fail NotFoundError
  | Some received =>
      mret (mkResponse 204
        [(rs "range", range_text received); (rs "location", upload_location id);
         (rs "content-length", rs "0")] [])
  end.

(** From the capture of the namespace on. *)
Definition finish_upload (cx : Cx) (id client_digest : rstr) (content_type : option rstr) : Handler Response :=
  found ← direct (upload_namespace (cx_instant cx 3) id);
  let upload_ns := default [] found in
  result ← blocking (upload_complete (cx_instant cx 4) id (Some client_digest));
  match result with
  | Err (SRejected msg) => mret (oci_error 400 (rs "DIGEST_INVALID") msg)
  | Err e => fail (BadRequest (store_error_str e))
  | Panic => panic
  | Ok ingest_result =>
      let result_kappa := ir_kappa ingest_result in
      _ ← match content_type with
          | Some ct => call (blob_put_meta result_kappa (rs "content-type") ct)
          | None => mret ()
          end;
      _ ← release_upload_pin (cx_instant cx 5) id;
      mret (mkResponse 201
        [(rs "x-kappa-label", result_kappa); (rs "docker-content-digest", result_kappa);
         (rs "location", rs "/v2/" ++ upload_ns ++ rs "/blobs/" ++ result_kappa);
         (rs "content-length", rs "0")] [])
  end.

Definition complete (cx : Cx) (id client_digest : rstr) (content_type : option rstr) (range_start : option Z)
  (final_body : bytes) : Handler Response :=
  received ← direct (upload_bytes_received (cx_instant cx 0) id);
  match received with
  | None => fail NotFoundError
  | Some _ =>
      _ ← of_outcome (map_err (λ e, BadRequest (label_error_str e)) (label_parse client_digest));
      if decide (final_body = []) then finish_upload cx id client_digest content_type
      else
        offset ← match range_start with
                 | Some start => mret start
                 | None => r ← direct (upload_bytes_received (cx_instant cx 1) id); mret (default 0 r)
                 end;
        result ← blocking (upload_put_part (cx_instant cx 2) id offset final_body);
        match result with
        | Ok _ => finish_upload cx id client_digest content_type
        | Err e => part_refused e
        | Panic => panic
        end
  end.

(** * Routes *)

Definition start_route (cx : Cx) (body : bytes) : Handler Response :=
  ns ← resolve_ns_write cx;
  let mount := query_param cx (rs "mount") in
  match query_param cx (rs "digest") with
  | Some digest => if decide (body = []) then start cx ns mount else oci_blob_put cx ns digest body
  | None => start cx ns mount
  end.

Definition content_range (cx : Cx) : option Z := v ← cx_header cx (rs "content-range"); parse_range_start v.

Definition chunk_route (cx : Cx) (body : bytes) : Handler Response :=
  chunk cx (path_param cx (rs "id")) (content_range cx) body.

Definition recovery_route (cx : Cx) : Handler Response := recovery cx (path_param cx (rs "id")).

Definition complete_route (cx : Cx) (body : bytes) : Handler Response :=
  let client_digest :=
    match query_param cx (rs "kappa") with
    | Some k => k
    | None => default [] (query_param cx (rs "digest"))
    end in
  complete cx (path_param cx (rs "id")) client_digest (cx_header cx (rs "content-type")) (content_range cx) body.

Definition cancel_route (cx : Cx) : Handler Response :=
  let id := path_param cx (rs "id") in
  _ ← release_upload_pin (cx_instant cx 0) id;
  _ ← ignored (upload_abort id);
  mret (mkResponse 204 [] []).
End handlers.

(** * Facts *)

Section facts.
Context `{HashCratesLaws} `{TransferCrates} `{Dcbor} `{MemoryStoreConfig} `{JsonCrates}.

(** Every clock reading of the request falls before the session's timeout. *)
Definition in_time (t0 : Z) (cx : Cx) : Prop :=
  ∀ i, expired (cx_instant cx i) (mkUpload [] [] 0 t0 []) = false.

(** The session of an upload that received the given parts. *)
Record receiving (id : rstr) (t0 max : Z) (nsd : rstr) (parts : list bytes) (s : store) : Prop := {
  rc_session : ∃ ds, uploads s !! id = Some (mkUpload nsd (concat parts) max t0 ds) ∧ length ds = length parts;
}.

Lemma live_session_run id t0 max nsd parts s now : receiving id t0 max nsd parts s →
  expired now (mkUpload [] [] 0 t0 []) = false →
  ∃ session, live_session now id s = (s, Ok (Some session)) ∧ us_data session = concat parts ∧ us_namespace session = nsd.
Proof.
  intros [(ds & Hs & Hl)] Ht. unfold live_session. run. rewrite Hs.
  rewrite (Ht : expired now (mkUpload nsd (concat parts) max t0 ds) = false). by eexists.
Qed.

Lemma received_run id t0 max nsd parts s now : receiving id t0 max nsd parts s →
  expired now (mkUpload [] [] 0 t0 []) = false →
  direct (upload_bytes_received now id) s = (s, Ok (Some (zlen (concat parts)))).
Proof.
  intros Hr Ht. destruct (live_session_run _ _ _ _ _ _ _ Hr Ht) as (session & E & Hd & _).
  unfold direct, upload_bytes_received. run. rewrite E. cbn. by rewrite Hd.
Qed.

Lemma put_part_run id t0 max nsd parts s now data : receiving id t0 max nsd parts s →
  expired now (mkUpload [] [] 0 t0 []) = false → zlen parts < u32_max →
  (0 < max → zlen (concat parts) + zlen data ≤ max) →
  ∃ session, upload_put_part now id (zlen (concat parts)) data s
    = (set_uploads (<[id := session]>) s, Ok (zlen (concat (parts ++ [data])))) ∧
    receiving id t0 max nsd (parts ++ [data]) (set_uploads (<[id := session]>) s).
Proof.
  intros [(ds & Hs & Hl)] Ht Hn Hfit. unfold upload_put_part. run. rewrite Hs.
  rewrite (Ht : expired now (mkUpload nsd (concat parts) max t0 ds) = false). cbn [us_data us_max_size us_part_digests].
  rewrite Z.eqb_refl. cbn [negb].
  replace ((0 <? max) && (max <? zlen (concat parts) + zlen data)) with false
    by (symmetry; apply andb_false_iff; destruct (Z.ltb_spec 0 max); [right; apply Z.ltb_ge; auto|by left]).
  unfold next_part_number. rewrite Hl. unfold wrap. rewrite Z.mod_small by (unfold u32_max in Hn; lia).
  rewrite decide_False by lia. cbn [lift]. eexists. split.
  - rewrite concat_app, concat_cons, app_nil_r. done.
  - split. eexists. split; [cbn; rewrite lookup_insert_eq; by rewrite concat_app, concat_cons, app_nil_r|].
    rewrite !length_app. cbn. lia.
Qed.

Lemma chunk_run cx id t0 max nsd parts s body : receiving id t0 max nsd parts s → in_time t0 cx →
  zlen parts < u32_max → (0 < max → zlen (concat parts) + zlen body ≤ max) →
  ∃ s' r, chunk cx id None body s = (s', Ok r) ∧ r_status r = 202 ∧
    header_of (rs "range") r = Some (range_text (zlen (concat (parts ++ [body])))) ∧
    receiving id t0 max nsd (parts ++ [body]) s' ∧ fs s' = fs s ∧ tags s' = tags s.
Proof.
  intros Hr Ht Hn Hfit. unfold chunk. rewrite (bind_run _ _ _ _ _ (received_run _ _ _ _ _ _ _ Hr (Ht 0%nat))).
  destruct (put_part_run _ _ _ _ _ _ (cx_instant cx 1) body Hr (Ht 1%nat) Hn Hfit) as (session & E & Hr').
  rewrite (bind_run _ _ s (set_uploads (<[id := session]>) s) (Ok (zlen (concat (parts ++ [body])))))
    by (unfold blocking; by rewrite E).
  eexists _, _. split; [done|]. done.
Qed.

(** Chunk requests one after another. *)
Fixpoint send_chunks (id : rstr) (reqs : list (Cx * bytes)) : Handler (list Response) :=
  match reqs with
  | [] => mret []
  | (cx, body) :: reqs => r ← chunk cx id None body; rest ← send_chunks id reqs; mret (r :: rest)
  end.

Lemma send_chunks_run id t0 max nsd reqs parts s : receiving id t0 max nsd parts s →
  Forall (λ req, in_time t0 req.1) reqs → zlen parts + zlen reqs ≤ u32_max →
  (0 < max → zlen (concat (parts ++ reqs.*2)) ≤ max) →
  ∃ s' rs, send_chunks id reqs s = (s', Ok rs) ∧ Forall (λ r, r_status r = 202) rs ∧
    receiving id t0 max nsd (parts ++ reqs.*2) s' ∧ fs s' = fs s ∧ tags s' = tags s.
Proof.
  revert parts s. induction reqs as [|[cx body] reqs IH]; intros parts s Hr Ht Hn Hfit; cbn [send_chunks].
  { exists s, []. rewrite app_nil_r. done. }
  apply Forall_cons_1 in Ht as [Ht Hts]. cbn [fmap list_fmap snd length] in *.
  destruct (chunk_run cx id t0 max nsd parts s body Hr Ht) as (s1 & r & E & Hst & _ & Hr1 & Hf1 & Ht1); [lia| |].
  { intros Hm. specialize (Hfit Hm). rewrite concat_app in Hfit. cbn [concat] in Hfit. rewrite !length_app in Hfit. lia. }
  rewrite (bind_run _ _ _ _ _ E).
  destruct (IH (parts ++ [body]) s1 Hr1 Hts) as (s2 & rs & E2 & Hst2 & Hr2 & Hf2 & Ht2).
  { rewrite length_app. cbn [length]. lia. }
  { by rewrite <- app_assoc. }
  rewrite <- app_assoc in Hr2. cbn [app] in Hr2. rewrite (bind_run _ _ _ _ _ E2).
  eexists s2, _. split; [done|]. split_and!; [by constructor|done|congruence|congruence].
Qed.

(** Completing with the digest of the parts is ingesting them. *)
Lemma upload_complete_ingest id t0 max nsd parts s now a : receiving id t0 max nsd parts s →
  expired now (mkUpload [] [] 0 t0 []) = false → hash_refused a (concat parts) = false →
  upload_complete now id (Some (kappa_text a (concat parts))) s
  = ingest_verified (kappa_text a (concat parts)) (concat parts) (set_uploads (delete id) s).
Proof.
  intros [(ds & Hs & Hl)] Ht Hr. unfold upload_complete. run. rewrite Hs. cbn [ok_or].
  rewrite (Ht : expired now (mkUpload nsd (concat parts) max t0 ds) = false). cbn [us_data]. rewrite stream_cursor.
  assert (axis_parse (claimed_axis (Some (kappa_text a (concat parts)))) = Some a) as ->.
  { cbn [claimed_axis]. unfold kappa_text, label_text.
    rewrite split_once_app by apply colon_notin_axis. apply axis_parse_as_str. }
  rewrite Hr. cbn [reject_label map_err proof_kappa proof_primary proof_single]. by rewrite bool_decide_eq_false_2 by naive_solver.
Qed.

Lemma upload_complete_run id t0 max nsd parts s now a : receiving id t0 max nsd parts s →
  expired now (mkUpload [] [] 0 t0 []) = false → fs_ok (fs s) → hash_refused a (concat parts) = false →
  ∃ f r, upload_complete now id (Some (kappa_text a (concat parts))) s = (set_fs f (set_uploads (delete id) s), Ok r) ∧
    ir_kappa r = kappa_text a (concat parts) ∧ fs_ok (f (fs s)) ∧
    stored_under (set_fs f (set_uploads (delete id) s)) (concat parts) (kappa_text a (concat parts)).
Proof.
  intros Hrc Ht Hfs Hr. rewrite (upload_complete_ingest _ _ _ _ _ _ _ _ Hrc Ht Hr).
  destruct (ingest_verified_spec (St := store) a (concat parts) (set_uploads (delete id) s)) as (s2 & b & E & Hs2 & Hst & _);
    [exact Hfs|exact Hr|apply sha256_accepted|].
  pose proof (ingest_verified_frame _ _ _ _ _ E) as [f ->]. exists f. eexists. split; [exact E|].
  split_and!; [done|exact Hs2|apply Hst; by left].
Qed.

(** The pin of a session that is gone is not found. *)
Lemma release_gone now id s : uploads s !! id = None → release_upload_pin now id s = (s, Ok ()).
Proof. intros E. unfold release_upload_pin, ignored, upload_namespace, live_session. run. by rewrite E. Qed.

(** What a successful completion leaves. *)
Record completed (id digest : rstr) (content : bytes) (s s' : store) : Prop := {
  cp_ok : fs_ok (fs s');
  cp_stored : stored_under s' content digest;
  cp_gone : uploads s' !! id = None;
  cp_tags : tags s' = tags s;
}.

Lemma finish_upload_run cx id t0 max nsd parts s a ct : receiving id t0 max nsd parts s → in_time t0 cx →
  fs_ok (fs s) → hash_refused a (concat parts) = false →
  ∃ s' r, finish_upload cx id (kappa_text a (concat parts)) ct s = (s', Ok r) ∧ r_status r = 201 ∧
    header_of (rs "docker-content-digest") r = Some (kappa_text a (concat parts)) ∧
    completed id (kappa_text a (concat parts)) (concat parts) s s'.
Proof.
  intros Hr Ht Hfs Hrf. unfold finish_upload.
  destruct (live_session_run _ _ _ _ _ _ _ Hr (Ht 3%nat)) as (session & E3 & _ & _).
  rewrite (bind_run _ _ s s (Some (us_namespace session)))
    by (unfold direct, upload_namespace, mbind, M_bind; by rewrite E3).
  destruct (upload_complete_run _ _ _ _ _ _ _ _ Hr (Ht 4%nat) Hfs Hrf) as (f & ir & E4 & Hk & Hok & Hst).
  set (s1 := set_fs f (set_uploads (delete id) s)) in *.
  rewrite (bind_run _ _ s s1 (Ok ir)) by (unfold blocking; by rewrite E4). cbv zeta. rewrite Hk.
  set (m := match ct with Some ct => _ | None => _ end).
  assert (∃ g, m s1 = (set_meta g s1, Ok ())) as [g Em].
  { unfold m. destruct ct; [by eexists|]. exists (λ m, m). by destruct s1. }
  rewrite (bind_run _ _ _ _ _ Em).
  assert (uploads (set_meta g s1) !! id = None) as Hgone by exact (lookup_delete_eq (uploads s) id).
  rewrite (bind_run _ _ _ _ _ (release_gone (cx_instant cx 5) id _ Hgone)).
  eexists _, _. split; [done|]. split_and!; [done|done|].
  split; [exact Hok| |exact Hgone|done]. apply (blobs_kept_fs s1); done.
Qed.

Lemma complete_run cx id t0 max nsd parts s a ct final : receiving id t0 max nsd parts s → in_time t0 cx →
  fs_ok (fs s) → zlen parts < u32_max → (0 < max → zlen (concat parts) + zlen final ≤ max) →
  hash_refused a (concat parts ++ final) = false →
  ∃ s' r, complete cx id (kappa_text a (concat parts ++ final)) ct None final s = (s', Ok r) ∧ r_status r = 201 ∧
    header_of (rs "docker-content-digest") r = Some (kappa_text a (concat parts ++ final)) ∧
    completed id (kappa_text a (concat parts ++ final)) (concat parts ++ final) s s'.
Proof.
  intros Hr Ht Hfs Hn Hfit Hrf. unfold complete.
  rewrite (bind_run _ _ _ _ _ (received_run _ _ _ _ _ _ _ Hr (Ht 0%nat))).
  rewrite (bind_run _ _ s s (label_of a (digest_hex a (concat parts ++ final))))
    by (unfold of_outcome; by rewrite kappa_text_parse).
  case_decide as Hf.
  - subst final. rewrite app_nil_r in *. by eapply finish_upload_run.
  - rewrite (bind_run _ _ s s (zlen (concat parts)))
      by (by rewrite (bind_run _ _ _ _ _ (received_run _ _ _ _ _ _ _ Hr (Ht 1%nat)))).
    destruct (put_part_run _ _ _ _ _ _ (cx_instant cx 2) final Hr (Ht 2%nat) Hn Hfit) as (session & E & Hr').
    rewrite (bind_run _ _ s (set_uploads (<[id := session]>) s) (Ok (zlen (concat (parts ++ [final])))))
      by (unfold blocking; by rewrite E).
    assert (concat (parts ++ [final]) = concat parts ++ final) as Hc
      by (by rewrite concat_app, concat_cons, app_nil_r).
    rewrite <- Hc in *.
    destruct (finish_upload_run cx id t0 max nsd _ _ a ct Hr' Ht Hfs Hrf) as (s' & r & E' & Hst & Hd & [Hok Hs' Hg Htg]).
    exists s', r. split_and!; [done..|]. by split.
Qed.

Lemma begin_upload_run cx ns max s : cx_max_blob_size cx = Some max → room 1 0 s → fs_ok (fs s) →
  let id := cx_upload_id cx in
  ∃ s' r e, begin_upload cx ns s = (s', Ok r) ∧ r_status r = 202 ∧
    header_of (rs "x-kappa-upload-session") r = Some id ∧
    receiving id (cx_instant cx 0) max (ns_display ns) [] s' ∧ fs_ok (fs s') ∧
    tags s' !! tag_key ns (pin_tag id) = Some e.
Proof.
  intros Hm Hroom Hs id. unfold begin_upload. rewrite Hm.
  set (session := mkUpload (ns_display ns) [] max (cx_instant cx 0) []).
  rewrite (bind_run _ _ s (set_uploads (<[id := session]>) s) id) by done.
  set (s1 := set_uploads _ s).
  destruct (ingest_sha256 (rs "upload-session-pin") s1) as (f & r & E1 & Hk & B1 & _ & _).
  destruct (tag_set_total 0 0 ns (pin_tag id) (ir_kappa r) (set_fs f s1)) as (s2 & v & E2 & _ & K2 & Ht2 & _ & Hf2).
  { by apply (room_same _ _ s). }
  rewrite (bind_run _ _ s1 s2 v)
    by (apply call_ok; unfold blob_put_computed, mbind, M_bind, mret, M_ret; by rewrite E1, E2).
  eexists s2, _, _. split; [done|]. split_and!; [done|done| |apply (k_blobs _ _ _ K2), B1, Hs|exact Ht2].
  split. exists []. split; [|done]. rewrite (k_uploads _ _ _ K2). apply (lookup_insert_eq (M := gmap rstr)).
Qed.
End facts.

(** * Properties *)

(** An upload session works end to end: begun with a size limit, fed with
    chunks and completed with the digest of everything sent (the last piece may
    come with the completion), within the timeout and the limit, every request
    succeeds, the content is readable under the digest and the session is gone;
    but the tag that pinned the session is still there. *)
Theorem oci_upload_session `{HashCratesLaws} `{TransferCrates} `{Dcbor} `{MemoryStoreConfig} `{JsonCrates}
  cx0 cxf ns max reqs final a ct s
  (Hs : fs_ok (fs s)) (Hroom : room 1 0 s) (Hmax : cx_max_blob_size cx0 = Some max)
  (Htime : Forall (in_time (cx_instant cx0 0)) (cxf :: reqs.*1)) (Hn : zlen reqs < u32_max)
  (Hfit : 0 < max → zlen (concat reqs.*2 ++ final) ≤ max)
  (Hrf : hash_refused a (concat reqs.*2 ++ final) = false) :
  let id := cx_upload_id cx0 in
  let content := concat reqs.*2 ++ final in
  ∃ s1 r0 s2 resps s3 r,
    start cx0 ns None s = (s1, Ok r0) ∧ r_status r0 = 202 ∧
    header_of (rs "x-kappa-upload-session") r0 = Some id ∧
    send_chunks id reqs s1 = (s2, Ok resps) ∧ Forall (λ r, r_status r = 202) resps ∧
    complete cxf id (kappa_text a content) ct None final s2 = (s3, Ok r) ∧ r_status r = 201 ∧
    header_of (rs "docker-content-digest") r = Some (kappa_text a content) ∧
    stored_under s3 content (kappa_text a content) ∧ uploads s3 !! id = None ∧
    is_Some (tags s3 !! tag_key ns (pin_tag id)).
Proof.
  intros id content. apply Forall_cons_1 in Htime as [Htf Htr].
  destruct (begin_upload_run cx0 ns max s Hmax Hroom Hs) as (s1 & r0 & e & E1 & Hst0 & Hid & Hr1 & Hs1 & Hpin).
  destruct (send_chunks_run id (cx_instant cx0 0) max (ns_display ns) reqs [] s1 Hr1)
    as (s2 & resps & E2 & Hst2 & Hr2 & Hf2 & Ht2).
  { exact (proj1 (Forall_fmap fst (in_time (cx_instant cx0 0)) reqs) Htr). }
  { cbn [length]. lia. }
  { intros Hm. specialize (Hfit Hm). rewrite length_app in Hfit. cbn [app]. lia. }
  cbn [app] in Hr2.
  destruct (complete_run cxf id (cx_instant cx0 0) max (ns_display ns) reqs.*2 s2 a ct final Hr2 Htf)
    as (s3 & r & E3 & Hst3 & Hd & [Hok Hst Hg Ht]).
  { by rewrite Hf2. }
  { by rewrite length_fmap. }
  { intros Hm. specialize (Hfit Hm). rewrite length_app in Hfit. lia. }
  { done. }
  exists s1, r0, s2, resps, s3, r. split_and!; [done..|]. rewrite Ht, Ht2. by exists e.
Qed.

Definition sample_upload_cx : Cx :=
  mkCx (rs "POST") [] None (λ _, None) RNoNamespace None None (Some 100) None (λ _, 0) 0 0 [] (rs "u").

Lemma oci_upload_session_witness :
  ∃ s3 r, complete sample_upload_cx (rs "u") (kappa_text Sha256 (rs "hello")) None None (rs "lo")
      (send_chunks (rs "u") [(sample_upload_cx, rs "he"); (sample_upload_cx, rs "l")]
         (start sample_upload_cx sample_ns None empty_store).1).1 = (s3, Ok r) ∧ r_status r = 201 ∧
    is_Some (tags s3 !! tag_key sample_ns (pin_tag (rs "u"))).
Proof.
  destruct (oci_upload_session sample_upload_cx sample_upload_cx sample_ns 100
    [(sample_upload_cx, rs "he"); (sample_upload_cx, rs "l")] (rs "lo") Sha256 None empty_store)
    as (s1 & r0 & s2 & resps & s3 & r & E1 & _ & _ & E2 & _ & E3 & Hst & _ & _ & _ & Hpin).
  - intros p c Hp. discriminate Hp.
  - split; [|split; vm_compute; discriminate|]; intros key x Hx; discriminate Hx.
  - reflexivity.
  - repeat constructor; intros i; vm_compute; reflexivity.
  - vm_compute. reflexivity.
  - intros _. vm_compute. discriminate.
  - reflexivity.
  - exists s3, r. rewrite E1. cbn [fst]. cbn [cx_upload_id sample_upload_cx] in E2. rewrite E2. cbn [fst].
    split_and!; [exact E3|exact Hst|exact Hpin].
Defined.

(** Cancelling, by contrast, drops the pin when the session's namespace still
    resolves, and the session in any case. *)
Lemma cancel_releases `{HashCratesLaws} `{TransferCrates} `{Dcbor} `{MemoryStoreConfig} `{JsonCrates}
  cx id t0 max ns nsd parts s :
  path_param cx (rs "id") = id → receiving id t0 max nsd parts s → in_time t0 cx →
  namespace_resolve nsd (Some (rs "oci")) s = Ok ns →
  ∃ s', cancel_route cx s = (s', Ok (mkResponse 204 [] [])) ∧ uploads s' !! id = None ∧
    tags s' !! tag_key ns (pin_tag id) = None.
Proof.
  intros Hp Hr Ht Hn. unfold cancel_route. cbv zeta. rewrite Hp.
  destruct (live_session_run _ _ _ _ _ _ _ Hr (Ht 0%nat)) as (session & E & _ & Hns).
  rewrite (bind_run _ _ s (set_tags (delete (tag_key ns (pin_tag id))) s) ()).
  2:{ unfold release_upload_pin, ignored, upload_namespace. run. rewrite E. cbn [fmap option_fmap option_map].
      rewrite Hns, Hn. done. }
  eexists. split; [done|]. split; cbn; apply lookup_delete_eq.
Qed.
