(* ===== verification/OciTags.v ===== *)
(** OciTags: tag operations and referrers of the OCI module,
    [kappa-module-oci/src/tags.rs] and [referrers.rs], over the in-memory store.

    A conditional put compares and sets; taken apart into the calls it is made
    of, two of them can both succeed. *)

From S2P Require Import Prelude Label Compute Types Merkle Epoch Identity Store MemStore MemTags MemEdge MemNamespace Frame Http OciBlob OciManifest.

Section handlers.
Context `{HashCrates} `{Dcbor} `{!IntoCbor Edge} `{MemoryStoreConfig} `{JsonCrates}.

(** * Batches *)

Definition parse_update (entry : Json) : outcome HttpError TagUpdate :=
  name ← ok_or (as_str (json_index (rs "name") entry)) (BadRequest (rs "update missing name"));
  new_kappa ← ok_or (as_str (json_index (rs "kappa") entry)) (BadRequest (rs "update missing kappa"));
  let ev := json_index (rs "expected_version") entry in
  let expected_version := if json_is_null ev then None else as_u64 ev in
  Ok (mkTagUpdate name new_kappa expected_version).

Fixpoint parse_updates (entries : list Json) : outcome HttpError (list TagUpdate) :=
  match entries with
  | [] => Ok []
  | e :: entries => u ← parse_update e; us ← parse_updates entries; Ok (u :: us)
  end.

Definition tag_batch (cx : Cx) (ns : NamespaceRef) (body : bytes) : Handler Response :=
  v ← of_outcome (parse_body body);
  raw_updates ← of_outcome (ok_or (as_array (json_index (rs "updates") v))
                              (BadRequest (rs "missing updates array")));
  updates ← of_outcome (parse_updates raw_updates);
  let mutations :=
    (λ u, mkMutation TagSet (ns_as_str ns) (tu_name u) None (Some (tu_kappa u))) <$> updates in
  _ ← call (_ ← tag_set_batch ns updates; epoch_advance (cx_now_ms cx) ns mutations);
  mret (mkResponse 200 [(rs "content-length", rs "0")] []).

(** * Deletes *)

Definition tag_delete_prefix (cx : Cx) (ns : NamespaceRef) (prefix : rstr) : Handler Response :=
  matching ← call (asks (tag_prefix ns prefix));
  let count := zlen matching in
  let mutations :=
    (λ t, mkMutation TagDelete (ns_as_str ns) (te_name t) (Some (te_kappa t)) None) <$> matching in
  _ ← call (_ ← delete_tags ns (te_name <$> matching);
            if decide (mutations = []) then mret ()
            else r ← epoch_advance (cx_now_ms cx) ns mutations; mret ());
  mret (response 200 [(rs "content-type", rs "application/json")]
          (serde_to_string (JObj [(rs "deleted", JNum count)]))).

Definition tag_delete_by_query (cx : Cx) (ns : NamespaceRef) (name : rstr) : Handler Response :=
  _ ← call (_ ← tag_delete ns name;
            epoch_advance (cx_now_ms cx) ns [mkMutation TagDelete (ns_as_str ns) name None None]);
  mret (mkResponse 202 [] []).

(** * Reads *)

Definition tag_response (name kappa value_key : rstr) : Response :=
  response 200 [(rs "x-kappa-label", kappa); (rs "content-type", rs "application/json")]
    (serde_to_string (JObj [(rs "name", JStr name); (value_key, JStr kappa)])).

Definition tag_get_by_query (ns : NamespaceRef) (name : rstr) : Handler Response :=
  entry ← call (asks (tag_get ns name));
  mret (tag_response name (te_kappa entry) (rs "kappa")).

Definition oci_tag_get (ns : NamespaceRef) (name : rstr) (raw : bool) : Handler Response :=
  entry ← call (asks (tag_get ns name));
  mret (tag_response name (te_kappa entry) (if raw then rs "value" else rs "kappa")).

(** * Writes *)

Definition content_absent (kappa : rstr) : Response :=
  oci_error 404 (rs "TAG_CONTENT_ABSENT") (rs "content " ++ kappa ++ rs " does not exist").

(** [tag_set] then [epoch_advance], one task. *)
Definition set_and_advance (cx : Cx) (ns : NamespaceRef) (name kappa : rstr) (old : option rstr) : M store () :=
  _ ← tag_set ns name kappa;
  r ← epoch_advance (cx_now_ms cx) ns [mkMutation TagSet (ns_as_str ns) name old (Some kappa)];
  mret ().

Definition tag_create (cx : Cx) (ns : NamespaceRef) (body : bytes) : Handler Response :=
  v ← of_outcome (parse_body body);
  let name := default [] (as_str (json_index (rs "name") v)) in
  let kappa := default [] (as_str (json_index (rs "kappa") v)) in
  if decide (name = [] ∨ kappa = []) then fail (BadRequest (rs "missing name or kappa in body"))
  else
    exists_ ← call (asks (blob_exists kappa));
    if negb exists_ then mret (content_absent kappa)
    else
      _ ← call (set_and_advance cx ns name kappa None);
      mret (mkResponse 201 [(rs "content-length", rs "0")] []).

Definition label_headers (label : rstr) : list (rstr * rstr) :=
  [(rs "x-kappa-label", label); (rs "content-length", rs "0")].

Definition put_symref (cx : Cx) (ns : NamespaceRef) (name target : rstr) : Handler Response :=
  e ← call (asks (tag_get ns target));
  _ ← call (set_and_advance cx ns name (te_kappa e) None);
  mret (mkResponse 201 (label_headers (rs "ref:" ++ target)) []).

(** The compare of the If-Match task, then its set. *)
Definition if_match_check (ns : NamespaceRef) (name expected : rstr) (s : store) : bool :=
  match tag_get ns name s with
  | Ok entry => bool_decide (te_kappa entry = expected)
  | _ => false
  end.

Definition put_if_match (cx : Cx) (ns : NamespaceRef) (name kappa expected : rstr) : Handler Response :=
  result ← call (matches ← gets (if_match_check ns name expected);
                 if matches : bool then _ ← set_and_advance cx ns name kappa (Some expected); mret true
                 else mret false);
  if result : bool then mret (mkResponse 200 (label_headers kappa) [])
  else mret (response 409 [] (rs "If-Match precondition failed")).

Definition put_if_none_match (cx : Cx) (ns : NamespaceRef) (name kappa : rstr) : Handler Response :=
  result ← blocking (_ ← tag_set_batch ns [mkTagUpdate name kappa (Some 0)];
                     r ← epoch_advance (cx_now_ms cx) ns [mkMutation TagSet (ns_as_str ns) name None (Some kappa)];
                     mret ());
  match result with
  | Ok _ => mret (mkResponse 201 (label_headers kappa) [])
  | _ => mret (response 409 [] (rs "tag already exists"))
  end.

Definition put_unconditional (cx : Cx) (ns : NamespaceRef) (name kappa : rstr) : Handler Response :=
  current_exists ← (λ s, (s, Ok (is_ok (tag_get ns name s))));
  _ ← call (set_and_advance cx ns name kappa None);
  mret (mkResponse (if current_exists : bool then 200 else 201) (label_headers kappa) []).

Definition tag_put (cx : Cx) (ns : NamespaceRef) (name kappa : rstr) (symref if_match if_none_match : option rstr)
  : Handler Response :=
  match symref with
  | Some target => put_symref cx ns name target
  | None =>
      if decide (kappa = []) then fail (BadRequest (rs "missing kappa parameter"))
      else
        exists_ ← call (asks (blob_exists kappa));
        if negb exists_ then mret (content_absent kappa)
        else
          match if_match with
          | Some expected => put_if_match cx ns name kappa expected
          | None =>
              if decide (if_none_match = Some (rs "*")) then put_if_none_match cx ns name kappa
              else put_unconditional cx ns name kappa
          end
  end.

(** * Referrers *)

Definition str_or (key default_ : rstr) (v : Json) : rstr := default default_ (json_str key v).

(** The descriptor of a referring manifest, unless it is filtered out. *)
Definition descriptor (source : rstr) (body : bytes) (artifact_filter : option rstr) : option Json :=
  match serde_from_slice body with
  | inr _ => None
  | inl manifest =>
      let media_type := str_or (rs "mediaType") (rs "application/vnd.oci.image.manifest.v1+json") manifest in
      let artifact_type :=
        match json_str (rs "artifactType") manifest with
        | Some t => t
        | None => default [] (config ← json_get (rs "config") manifest; json_str (rs "mediaType") config)
        end in
      let annotations := default JNull (json_get (rs "annotations") manifest) in
      if decide (artifact_filter = None ∨ artifact_filter = Some artifact_type) then
        Some (JObj [(rs "mediaType", JStr media_type); (rs "digest", JStr source);
                    (rs "size", JNum (zlen body)); (rs "artifactType", JStr artifact_type);
                    (rs "annotations", annotations)])
      else None
  end.

Fixpoint collect_referrers (artifact_filter : option rstr) (edges : list Edge) : Handler (list Json) :=
  match edges with
  | [] => mret []
  | edge :: edges =>
      body ← blocking (asks (blob_get (e_source edge)));
      rest ← collect_referrers artifact_filter edges;
      mret (match body with
            | Ok body => match descriptor (e_source edge) body artifact_filter with Some d => d :: rest | None => rest end
            | _ => rest
            end)
  end.

Definition referrers_list (cx : Cx) (ns : NamespaceRef) (digest : rstr) : Handler Response :=
  edges ← call (asks (edge_query ns (mkQuery digest Inbound (Some RefersTo) None)));
  let artifact_filter := query_param cx (rs "artifactType") in
  descriptors ← collect_referrers artifact_filter edges;
  let index := JObj [(rs "schemaVersion", JNum 2);
                     (rs "mediaType", JStr (rs "application/vnd.oci.image.index.v1+json"));
                     (rs "manifests", JArr descriptors)] in
  mret (response 200
    ((rs "content-type", rs "application/vnd.oci.image.index.v1+json")
     :: match artifact_filter with Some _ => [(rs "oci-filters-applied", rs "artifactType")] | None => [] end)
    (serde_to_string index)).

(** * Routes *)

Definition tag_batch_route (cx : Cx) (body : bytes) : Handler Response :=
  ns ← resolve_ns_write cx;
  tag_batch cx ns body.

Definition tag_delete_prefix_route (cx : Cx) : Handler Response :=
  ns ← resolve_ns_write cx;
  let prefix := default [] (query_param cx (rs "prefix")) in
  if decide (prefix = []) then fail (BadRequest (rs "missing prefix parameter"))
  else tag_delete_prefix cx ns prefix.

Definition tag_crud_route (cx : Cx) (body : bytes) : Handler Response :=
  ns ← resolve_ns_write cx;
  if decide (cx_method cx = rs "POST") then tag_create cx ns body
  else if decide (cx_method cx = rs "GET") then
    let name := default [] (query_param cx (rs "name")) in
    if decide (name = []) then fail (BadRequest (rs "missing name parameter")) else tag_get_by_query ns name
  else if decide (cx_method cx = rs "DELETE") then
    let name := default [] (query_param cx (rs "name")) in
    if decide (name = []) then fail (BadRequest (rs "missing name parameter")) else tag_delete_by_query cx ns name
  else fail (BadRequest (rs "method not allowed")).

Definition tag_get_route (cx : Cx) : Handler Response :=
  ns ← resolve_ns_read cx;
  let raw := bool_decide (query_param cx (rs "raw") = Some (rs "true")) in
  oci_tag_get ns (path_param cx (rs "name")) raw.

Definition tag_put_route (cx : Cx) : Handler Response :=
  ns ← resolve_ns_write cx;
  tag_put cx ns (path_param cx (rs "name")) (default [] (query_param cx (rs "kappa")))
    (query_param cx (rs "symref")) (cx_header cx (rs "if-match")) (cx_header cx (rs "if-none-match")).

Definition referrers_list_route (cx : Cx) : Handler Response :=
  ns ← resolve_ns_read cx;
  referrers_list cx ns (path_param cx (rs "digest")).
End handlers.

(** * Facts *)

Section facts.
Context `{HashCratesLaws} `{Dcbor} `{!IntoCbor Edge} `{MemoryStoreConfig} `{JsonCrates}.

(** The tag is bound to the label and the other tags, apart from the epoch
    pointer, are as before. *)
Record tag_bound (ns : NamespaceRef) (name kappa : rstr) (s s' : store) : Prop := {
  tb_tag : te_kappa <$> tags s' !! tag_key ns name = Some kappa;
  tb_other : ∀ key, key ≠ tag_key ns name → key ≠ epoch_tag ns → tags s' !! key = tags s !! key;
}.

Lemma epoch_after cx ns name kappa muts s s1 : tag_key ns name ≠ epoch_tag ns → room 1 1 s1 →
  tag_bound ns name kappa s s1 →
  ∃ s' k, epoch_advance (cx_now_ms cx) ns muts s1 = (s', Ok k) ∧ tag_bound ns name kappa s s'.
Proof.
  intros Hne Hr [Ht Ho]. destruct (epoch_advance_total 0 0 (cx_now_ms cx) ns muts s1 Hr) as (s' & k & E & _ & K & _).
  exists s', k. split; [done|]. split; [by rewrite (k_tags _ _ _ K) by set_solver|].
  intros key H1' H2'. rewrite (k_tags _ _ _ K) by set_solver. by apply Ho.
Qed.

Lemma set_and_advance_run cx ns name kappa old s : tag_key ns name ≠ epoch_tag ns → room 2 1 s →
  ∃ s', set_and_advance cx ns name kappa old s = (s', Ok ()) ∧ tag_bound ns name kappa s s'.
Proof.
  intros Hne Hr. destruct (tag_set_total 1 1 ns name kappa s Hr) as (s1 & v & E1 & Hr1 & K1 & Ht1 & _).
  destruct (epoch_after cx ns name kappa [mkMutation TagSet (ns_as_str ns) name old (Some kappa)] s s1 Hne Hr1)
    as (s2 & k & E2 & Hb).
  { split; [by rewrite Ht1|]. intros key H1' _. apply (k_tags _ _ _ K1). set_solver. }
  exists s2. split; [|done]. unfold set_and_advance, mbind, M_bind. by rewrite E1, E2.
Qed.

(** The batch of one update that must create its tag. *)
Lemma create_batch_run ns name kappa s : tags_wf s →
  match tags s !! tag_key ns name with
  | None => ∃ s', tag_set_batch ns [mkTagUpdate name kappa (Some 0)] s = (s', Ok ()) ∧
      tags s' = <[tag_key ns name := mkTag name kappa 1]> (tags s) ∧ sequences s' = sequences s
  | Some _ => ∃ s' e, tag_set_batch ns [mkTagUpdate name kappa (Some 0)] s = (s', Err e) ∧ tags s' = tags s
  end.
Proof.
  intros Hw. unfold tag_set_batch. destruct (ensure_namespace_run ns s) as (f & g & E).
  unfold mbind, M_bind. rewrite E. unfold asks. cbn [check_updates tu_expected_version tu_name tags set_ns_aliases set_ns_records].
  fold (tag_key ns name). destruct (tags s !! tag_key ns name) as [e|] eqn:Et.
  - destruct (Hw _ _ _ Et) as [_ Hv]. destruct (Z.eqb_spec 0 (te_version e)) as [E0|_]; [lia|]. eauto.
  - cbn [Z.eqb]. cbn [apply_updates tu_name tu_kappa]. fold (tag_key ns name).
    unfold mbind, M_bind. rewrite put_tag_run. unfold next_version. cbn [tags set_ns_aliases set_ns_records]. rewrite Et.
    eexists. split; [done|]. done.
Qed.

Lemma exists_run kappa b s : blob_exists kappa s = Ok b → call (asks (blob_exists kappa)) s = (s, Ok b).
Proof. intros E. apply call_ok. unfold asks. by rewrite E. Qed.
End facts.

(** * Properties *)



(** The If-Match task reads the tag and writes it in separate store calls: when
    two requests read before either writes, both have seen the expected label and
    both set the tag, and the first one's write is lost. *)
Theorem if_match_race `{HashCratesLaws} `{Dcbor} `{!IntoCbor Edge} `{MemoryStoreConfig} `{JsonCrates}
  cx1 cx2 ns name k1 k2 expected s
  (Hroom : room 4 2 s) (Hne : tag_key ns name ≠ epoch_tag ns)
  (Hc : if_match_check ns name expected s = true) (Hk : k1 ≠ expected) :
  ∃ s1 s2, set_and_advance cx1 ns name k1 (Some expected) s = (s1, Ok ()) ∧
    if_match_check ns name expected s1 = false ∧
    set_and_advance cx2 ns name k2 (Some expected) s1 = (s2, Ok ()) ∧
    te_kappa <$> tags s2 !! tag_key ns name = Some k2.
Proof.
  destruct (tag_set_total 3 2 ns name k1 s Hroom) as (t1 & v1 & E1 & R1 & K1 & T1 & _).
  destruct (epoch_advance_total 2 1 (cx_now_ms cx1) ns [mkMutation TagSet (ns_as_str ns) name (Some expected) (Some k1)] t1 R1)
    as (s1 & r1 & A1 & R1' & L1 & _).
  assert (tags s1 !! tag_key ns name = Some (mkTag name k1 v1)) as Hs1
    by (rewrite (k_tags _ _ _ L1) by set_solver; exact T1).
  destruct (set_and_advance_run cx2 ns name k2 (Some expected) s1 Hne R1') as (s2 & E2 & Hb).
  exists s1, s2. split_and!.
  - unfold set_and_advance, mbind, M_bind. by rewrite E1, A1.
  - unfold if_match_check, tag_get. rewrite Hs1. cbn. by rewrite bool_decide_eq_false_2.
  - exact E2.
  - apply Hb.
Qed.
