(* ===== verification/GitRefs.v ===== *)
(** GitRefs: Git references over the tags of the in-memory store,
    [kappa-module-git/src/refs.rs].

    An update is a compare-and-swap on the reference's version; resolving follows
    symbolic references a bounded number of steps. *)

From S2P Require Import Prelude Label Compute Types Merkle Epoch Identity Store MemStore MemTags MemEdge Frame Http Text.

Definition SYMREF_PREFIX : rstr := rs "ref: ".
Definition MAX_SYMREF_DEPTH : nat := 10.

Inductive RefError :=
| RefStore (e : StoreError)
| UpdateRejected (expected actual : rstr)
| SymrefLoop (name : rstr)
| RefNotFound (name : rstr).

(** A reference operation reads and writes the store. *)
Definition RefM (A : Type) : Type := store → store * outcome RefError A.

Section refs.
Context `{HashCrates}.

(** Follow the chain from [current]; [ref_name] is where it started. *)
Fixpoint resolve_loop (fuel : nat) (ns : NamespaceRef) (ref_name current : rstr) (s : store)
  : outcome RefError (option rstr) :=
  match fuel with
  | O => Err (SymrefLoop ref_name)
  | S fuel =>
      match tag_get ns current s with
      | Ok entry =>
          match strip_prefix SYMREF_PREFIX (te_kappa entry) with
          | Some target => resolve_loop fuel ns ref_name target s
          | None => Ok (Some (te_kappa entry))
          end
      | Err (SNotFound _) => Ok None
      | Err e => Err (RefStore e)
      | Panic => Panic
      end
  end.

Definition resolve_ref (ns : NamespaceRef) (ref_name : rstr) (s : store) : outcome RefError (option rstr) :=
  resolve_loop MAX_SYMREF_DEPTH ns ref_name ref_name s.

(** [tag_set_batch] of one update, a version conflict being a rejection. *)
Definition swap (ns : NamespaceRef) (ref_name new_oid : rstr) (version : Z) (conflict : RefError) : RefM () := λ s,
  let '(s', r) := tag_set_batch ns [mkTagUpdate ref_name new_oid (Some version)] s in
  (s', map_err (λ e, match e with SConflict _ => conflict | other => RefStore other end) r).

(** The read phase of a compare-and-swap: the entry whose version is expected. *)
Definition update_check (ns : NamespaceRef) (ref_name expected : rstr) (s : store) : outcome RefError TagEntry :=
  current ← map_err (λ e, match e with
                          | SNotFound _ => UpdateRejected expected (rs "(none)")
                          | other => RefStore other
                          end) (tag_get ns ref_name s);
  resolved ← (if starts_with SYMREF_PREFIX (te_kappa current) then
                r ← resolve_ref ns ref_name s; ok_or r (RefNotFound ref_name)
              else Ok (te_kappa current));
  if decide (resolved ≠ expected) then Err (UpdateRejected expected resolved) else Ok current.

Definition update_ref (ns : NamespaceRef) (ref_name new_oid : rstr) (old_oid : option rstr) : RefM () := λ s,
  match old_oid with
  | None => swap ns ref_name new_oid 0 (UpdateRejected (rs "(none)") (rs "(exists)")) s
  | Some expected =>
      match update_check ns ref_name expected s with
      | Ok current =>
          swap ns ref_name new_oid (te_version current)
            (UpdateRejected expected (rs "(concurrent modification)")) s
      | Err e => (s, Err e)
      | Panic => (s, Panic)
      end
  end.

Definition set_symbolic_ref (ns : NamespaceRef) (name target : rstr) : RefM () := λ s,
  let '(s', r) := tag_set ns name (SYMREF_PREFIX ++ target) s in
  (s', map_err RefStore (r ≫= λ _, Ok ())).

Definition list_refs (ns : NamespaceRef) (prefix : rstr) (s : store) : outcome RefError (list (rstr * rstr)) :=
  tags ← map_err RefStore (tag_prefix ns prefix s);
  Ok ((λ t, (te_name t, te_kappa t)) <$> (tags : list TagEntry)).

Definition delete_ref (ns : NamespaceRef) (ref_name : rstr) : RefM () := λ s,
  let '(s', r) := tag_delete ns ref_name s in (s', map_err RefStore r).
End refs.

(** * Facts *)

Section facts.
Context `{HashCrates}.

(** [n] symbolic steps lead from a name to another. *)
Inductive follows (ns : NamespaceRef) (s : store) : nat → rstr → rstr → Prop :=
| follows_here name : follows ns s 0 name name
| follows_step n name e target final :
    tags s !! tag_key ns name = Some e → te_kappa e = SYMREF_PREFIX ++ target →
    follows ns s n target final → follows ns s (S n) name final.

Lemma resolve_loop_spec fuel ns start name s :
  match resolve_loop fuel ns start name s with
  | Ok (Some oid) => ∃ n final e, (n < fuel)%nat ∧ follows ns s n name final ∧
      tags s !! tag_key ns final = Some e ∧ te_kappa e = oid ∧ strip_prefix SYMREF_PREFIX oid = None
  | Ok None => ∃ n final, (n < fuel)%nat ∧ follows ns s n name final ∧ tags s !! tag_key ns final = None
  | Err e => e = SymrefLoop start ∧ ∃ final, follows ns s fuel name final
  | Panic => False
  end.
Proof.
  revert name. induction fuel as [|fuel IH]; intros name; cbn [resolve_loop].
  { split; [done|]. exists name. constructor. }
  unfold tag_get. destruct (tags s !! tag_key ns name) as [e|] eqn:Et; cbn [ok_or].
  2:{ exists 0%nat, name. split_and!; [lia|constructor|done]. }
  destruct (strip_prefix SYMREF_PREFIX (te_kappa e)) as [t|] eqn:Es.
  2:{ exists 0%nat, name, e. split_and!; [lia|constructor|done..]. }
  apply strip_prefix_Some in Es. specialize (IH t). destruct (resolve_loop fuel ns start t s) as [[oid|]|err|].
  - destruct IH as (n & final & e' & Hn & Hf & Hrest). exists (S n), final, e'. split_and!; [lia|by econstructor|tauto..].
  - destruct IH as (n & final & Hn & Hf & Hrest). exists (S n), final. split_and!; [lia|by econstructor|done].
  - destruct IH as (-> & final & Hf). split; [done|]. exists final. by econstructor.
  - done.
Qed.

(** A swap of one tag: the version decides. *)
Lemma swap_run ns name new_oid version conflict s :
  tags_wf s → version_at s (tag_key ns name) < u64_max →
  ∃ s' r, swap ns name new_oid version conflict s = (s', r) ∧
    if decide (version = version_at s (tag_key ns name))
    then r = Ok () ∧ tags s' = <[tag_key ns name := mkTag name new_oid (version + 1)]> (tags s)
    else r = Err conflict ∧ tags s' = tags s.
Proof.
  intros Hw Hv. unfold swap, tag_set_batch. destruct (ensure_namespace_run ns s) as (f & g & E).
  unfold mbind, M_bind. rewrite E. unfold asks.
  cbn [check_updates tu_expected_version tu_name tags set_ns_aliases set_ns_records]. fold (tag_key ns name).
  assert (match tags s !! tag_key ns name with Some e => te_version e | None => 0 end = version_at s (tag_key ns name)) as ->
    by done.
  case_decide as Ed.
  - subst version. rewrite Z.eqb_refl. cbn [apply_updates tu_name tu_kappa]. fold (tag_key ns name).
    unfold mbind, M_bind. rewrite put_tag_run. unfold next_version. cbn [tags set_ns_aliases set_ns_records].
    unfold version_at in *. destruct (tags s !! tag_key ns name) as [e|].
    + rewrite (proj2 (incr_u64_ok _ (te_version e + 1))) by lia. eexists _, _. split; [done|]. done.
    + eexists _, _. split; [done|]. done.
  - rewrite (proj2 (Z.eqb_neq _ _)) by done. eexists _, _. split; [done|]. done.
Qed.
End facts.

(** * Properties *)

(** Resolving a reference ends in an object only through at most nine
    symbolic steps to a tag that is not symbolic, in [None] only at the end of
    such a chain where there is no tag, and reports a loop exactly when ten steps
    can be taken. *)
Theorem resolve_ref_correct `{HashCrates} ns name s :
  match resolve_ref ns name s with
  | Ok (Some oid) => ∃ n final e, (n < MAX_SYMREF_DEPTH)%nat ∧ follows ns s n name final ∧
      tags s !! tag_key ns final = Some e ∧ te_kappa e = oid ∧ strip_prefix SYMREF_PREFIX oid = None
  | Ok None => ∃ n final, (n < MAX_SYMREF_DEPTH)%nat ∧ follows ns s n name final ∧
      tags s !! tag_key ns final = None
  | Err e => e = SymrefLoop name ∧ ∃ final, follows ns s MAX_SYMREF_DEPTH name final
  | Panic => False
  end.
Proof. apply resolve_loop_spec. Qed.

(** Updating a reference is a compare-and-swap.  With no old value the
    reference is created exactly when it does not exist; with an old value it is
    set exactly when it resolves to that value; every refusal leaves the tags as
    they were, and a success changes this reference only. *)
Theorem update_ref_correct `{HashCrates} ns name new_oid old_oid s
  (Hw : tags_wf s) (Hv : version_at s (tag_key ns name) < u64_max) :
  ∃ s' r, update_ref ns name new_oid old_oid s = (s', r) ∧
    (r = Ok () ↔ match old_oid with
                 | None => tags s !! tag_key ns name = None
                 | Some expected => is_Some (tags s !! tag_key ns name) ∧ resolve_ref ns name s = Ok (Some expected)
                 end) ∧
    match r with
    | Ok _ => ∃ v, tags s' = <[tag_key ns name := mkTag name new_oid v]> (tags s)
    | _ => tags s' = tags s
    end.
Proof.
  destruct old_oid as [expected|]; cbn [update_ref].
  - destruct (update_check ns name expected s) as [current|e|] eqn:Ec.
    + destruct (swap_run ns name new_oid (te_version current)
        (UpdateRejected expected (rs "(concurrent modification)")) s Hw Hv) as (s' & r & E & Hr).
      unfold update_check, tag_get in Ec. unfold version_at in Hr, Hv.
      destruct (tags s !! tag_key ns name) as [e|] eqn:Et; [|done]. osimpl in Ec.
      assert (current = e ∧ resolve_ref ns name s = Ok (Some expected)) as [-> Hres].
      { unfold resolve_ref, MAX_SYMREF_DEPTH. cbn [resolve_loop]. unfold tag_get. rewrite Et. cbn [ok_or].
        destruct (starts_with SYMREF_PREFIX (te_kappa e)) eqn:Es.
        - unfold resolve_ref, MAX_SYMREF_DEPTH in Ec. cbn [resolve_loop] in Ec. unfold tag_get in Ec. rewrite Et in Ec.
          cbn [ok_or] in Ec. destruct (match strip_prefix _ _ with Some t => _ | None => _ end) as [[oid|]| |]; [|done..].
          osimpl in Ec. destruct (decide (oid ≠ expected)) as [|Hd]; [done|]. injection Ec as <-. apply dec_stable in Hd. by subst.
        - osimpl in Ec. destruct (decide (te_kappa e ≠ expected)) as [|Hd]; [done|]. injection Ec as <-. apply dec_stable in Hd. subst expected.
          unfold strip_prefix. by rewrite Es. }
      rewrite decide_True in Hr by done. destruct Hr as [-> Ht]. exists s', (Ok ()). split; [exact E|]. split; [by naive_solver|eauto].
    + eexists _, _. split; [done|]. split; [|done]. split; [done|]. intros [[c Hc] Hres]. exfalso. revert Ec.
      unfold update_check, tag_get. rewrite Hc. osimpl. rewrite Hres.
      destruct (starts_with SYMREF_PREFIX (te_kappa c)) eqn:Es.
      * osimpl. by rewrite decide_False by naive_solver.
      * osimpl. revert Hres. unfold resolve_ref, MAX_SYMREF_DEPTH. cbn [resolve_loop]. unfold tag_get. rewrite Hc. cbn [ok_or].
        unfold strip_prefix. rewrite Es. intros [= <-]. by rewrite decide_False by naive_solver.
    + eexists _, _. split; [done|]. split; [|done]. split; [done|]. intros [[c Hc] Hres]. exfalso. revert Ec.
      unfold update_check, tag_get. rewrite Hc. osimpl. rewrite Hres.
      destruct (starts_with SYMREF_PREFIX (te_kappa c)); osimpl; by case_decide.
  - destruct (swap_run ns name new_oid 0 (UpdateRejected (rs "(none)") (rs "(exists)")) s Hw Hv) as (s' & r & E & Hr).
    exists s', r. split; [exact E|]. unfold version_at in Hr. destruct (tags s !! tag_key ns name) as [e|] eqn:Et.
    + destruct (Hw _ _ _ Et) as [_ He]. rewrite decide_False in Hr by lia. destruct Hr as [-> Ht]. done.
    + rewrite decide_True in Hr by done. destruct Hr as [-> Ht]. split; [done|]. eauto.
Qed.

Lemma update_ref_correct_witness :
  ∃ s' r, update_ref sample_ns (rs "refs/heads/main") (rs "sha1:aaa") None sample_store = (s', r) ∧ r = Ok ().
Proof.
  destruct (update_ref_correct sample_ns (rs "refs/heads/main") (rs "sha1:aaa") None sample_store)
    as (s' & r & E & Hr & _).
  - exact sample_store_wf.
  - vm_compute. reflexivity.
  - exists s', r. split; [exact E|]. apply Hr. vm_compute. reflexivity.
Defined.

(** Between the read and the write of a swap another writer may delete the
    reference and create it anew: versions restart at one, so the swap succeeds
    and overwrites a value that was never compared. *)
Theorem update_ref_aba `{HashCrates} ns name a b new_oid conflict s
  (Hw : tags_wf s) (Ht : tags s !! tag_key ns name = Some (mkTag name a 1)) (Ha : starts_with SYMREF_PREFIX a = false) :
  ∃ current s1 s2 s3, update_check ns name a s = Ok current ∧
    delete_ref ns name s = (s1, Ok ()) ∧ update_ref ns name b None s1 = (s2, Ok ()) ∧
    swap ns name new_oid (te_version current) conflict s2 = (s3, Ok ()) ∧
    te_kappa <$> tags s2 !! tag_key ns name = Some b ∧ te_kappa <$> tags s3 !! tag_key ns name = Some new_oid.
Proof.
  exists (mkTag name a 1).
  assert (update_check ns name a s = Ok (mkTag name a 1)) as Ec.
  { unfold update_check, tag_get. rewrite Ht. osimpl. cbn [te_kappa]. rewrite Ha. osimpl. by rewrite decide_False by naive_solver. }
  set (s1 := set_tags (delete (tag_key ns name)) s).
  assert (tags_wf s1) as Hw1.
  { intros u h e. cbn. rewrite lookup_delete_Some. intros [_ He]. by eapply Hw. }
  assert (version_at s1 (tag_key ns name) = 0) as Hv1 by (unfold version_at; cbn; by rewrite lookup_delete_eq).
  destruct (swap_run ns name b 0 (UpdateRejected (rs "(none)") (rs "(exists)")) s1 Hw1) as (s2 & r2 & E2 & Hr2);
    [rewrite Hv1; done|]. rewrite Hv1, decide_True in Hr2 by done. destruct Hr2 as [-> Ht2].
  assert (tags_wf s2) as Hw2.
  { intros u h e. rewrite Ht2, lookup_insert_Some. intros [[[= <- <-] <-]|[_ He]]; [split; [done|cbn; unfold u64_max; lia]|by eapply Hw1]. }
  assert (version_at s2 (tag_key ns name) = 1) as Hv2 by (unfold version_at; by rewrite Ht2, lookup_insert_eq).
  destruct (swap_run ns name new_oid 1 conflict s2 Hw2) as (s3 & r3 & E3 & Hr3); [rewrite Hv2; done|].
  rewrite Hv2, decide_True in Hr3 by done. destruct Hr3 as [-> Ht3].
  exists s1, s2, s3. split_and!; [done|done|exact E2|exact E3| |].
  - by rewrite Ht2, lookup_insert_eq.
  - by rewrite Ht3, lookup_insert_eq.
Qed.
