(* ===== verification/GitDelta.v ===== *)
(** GitDelta: the Git delta codec of [kappa-module-git/src/ingest.rs] and its
    agreement with the codec of kappa-core.

    The two were written separately.  On every input the two decoders give the
    same result, and the instructions the two encoders emit are the same, so a
    delta made by either side is replayed by both. *)

From S2P Require Import Prelude Delta.

Inductive DeltaFailure :=
| GitDeltaError (msg : rstr).

Definition RABIN_WINDOW : nat := 16.

(** * Varints *)

Fixpoint write_varint_loop (fuel : nat) (value : Z) : bytes :=
  match fuel with
  | O => []
  | S fuel =>
      let byte := Z.land value 0x7F in
      let value := Z.shiftr value 7 in
      let byte := if 0 <? value then Z.lor byte 0x80 else byte in
      z2b byte :: (if value =? 0 then [] else write_varint_loop fuel value)
  end.

(** Ten turns cover a [u64]. *)
Definition write_varint (value : Z) : bytes := write_varint_loop 10 value.

Fixpoint git_read_varint_loop (data : bytes) (value shift : Z) : option (Z * bytes) :=
  match data with
  | [] => None
  | byte :: rest =>
      let value := Z.lor value (wrap 64 (Z.shiftl (Z.land (b2z byte) 0x7F) shift)) in
      let shift := shift + 7 in
      if Z.land (b2z byte) 0x80 =? 0 then Some (value, rest)
      else if 63 <? shift then None
      else git_read_varint_loop rest value shift
  end.

Definition git_read_varint (data : bytes) : option (Z * bytes) := git_read_varint_loop data 0 0.

(** * Applying *)

Definition truncated_copy : DeltaFailure := GitDeltaError (rs "truncated copy").

(** The [for] loops over the (bit, shift) pairs of a copy's arguments. *)
Fixpoint read_args (delta : bytes) (cmd : Z) (args : list (Z * Z)) (acc : Z) (pos : nat)
  : outcome DeltaFailure (Z * nat) :=
  match args with
  | [] => Ok (acc, pos)
  | (bit, shift) :: args =>
      if Z.land cmd bit =? 0 then read_args delta cmd args acc pos
      else
        b ← ok_or (delta !! pos) truncated_copy;
        read_args delta cmd args (Z.lor acc (Z.shiftl (b2z b) shift)) (S pos)
  end.

Definition offset_args : list (Z * Z) := [(0x01, 0); (0x02, 8); (0x04, 16); (0x08, 24)].
Definition size_args : list (Z * Z) := [(0x10, 0); (0x20, 8); (0x40, 16)].

(** One command of the loop, [pos] already past it. *)
Definition git_apply_step (base delta : bytes) (pos : nat) (cmd : byte) (result : bytes)
  : outcome DeltaFailure (nat * bytes) :=
  let cmd := b2z cmd in
  if cmd =? 0 then Err (GitDeltaError (rs "reserved opcode 0x00"))
  else if negb (Z.land cmd 0x80 =? 0) then
    '(offset, pos) ← read_args delta cmd offset_args 0 pos;
    '(size, pos) ← read_args delta cmd size_args 0 pos;
    let size := if size =? 0 then 0x10000 else size in
    if zlen base <? offset + size then
      Err (GitDeltaError (rs "copy out of bounds: offset=" ++ dec offset ++ rs ", size=" ++ dec size
                          ++ rs ", base_len=" ++ dec (zlen base)))
    else Ok (pos, result ++ slice base (Z.to_nat offset) (Z.to_nat (offset + size)))
  else
    let count := Z.to_nat cmd in
    if (length delta <? pos + count)%nat then Err (GitDeltaError (rs "truncated insert data"))
    else Ok ((pos + count)%nat, result ++ slice delta pos (pos + count)).

(** A turn consumes a byte at least. *)
Fixpoint git_apply_loop (fuel : nat) (base delta : bytes) (pos : nat) (result : bytes)
  : outcome DeltaFailure bytes :=
  if (pos <? length delta)%nat then
    match fuel, delta !! pos with
    | S fuel, Some cmd =>
        '(pos, result) ← git_apply_step base delta (S pos) cmd result;
        git_apply_loop fuel base delta pos result
    | _, _ => Panic
    end
  else Ok result.

Definition git_apply_delta (base delta : bytes) : outcome DeltaFailure bytes :=
  '(base_size, rest) ← ok_or (git_read_varint delta) (GitDeltaError (rs "truncated base_size varint"));
  '(result_size, rest2) ← ok_or (git_read_varint rest) (GitDeltaError (rs "truncated result_size varint"));
  let pos := (length delta - length rest2)%nat in
  if negb (base_size =? zlen base) then
    Err (GitDeltaError (rs "base size mismatch: delta says " ++ dec base_size ++ rs ", actual " ++ dec (zlen base)))
  else if isize_max <? result_size then Panic
  else
    result ← git_apply_loop (length delta) base delta pos [];
    if negb (zlen result =? result_size) then
      Err (GitDeltaError (rs "result size mismatch: got " ++ dec (zlen result) ++ rs ", expected " ++ dec result_size))
    else Ok result.

(** * Computing *)

Definition fingerprint (window : bytes) : Z :=
  fold_left (λ h b, wrap 64 (Z.lxor h (b2z b) * 0x100000001b3)) window 0xcbf29ce484222325.

Definition table_push (base : bytes) (table : gmap Z (list nat)) (i : nat) : gmap Z (list nat) :=
  let fp := fingerprint (slice base i (i + RABIN_WINDOW)) in
  <[fp := default [] (table !! fp) ++ [i]]> table.

Definition RabinIndex_new (base : bytes) : gmap Z (list nat) :=
  if (length base <? RABIN_WINDOW)%nat then ∅
  else fold_left (table_push base) (seq 0 (S (length base - RABIN_WINDOW))) ∅.

(** The [while] that extends a match forward. *)
Fixpoint match_forward (base target : bytes) : nat :=
  match base, target with
  | x :: base, y :: target => if decide (x = y) then S (match_forward base target) else 0
  | _, _ => 0
  end.

Definition try_candidate (target base : bytes) (best : nat * nat) (candidate : nat) : nat * nat :=
  let '(best_offset, best_len) := best in
  if decide (slice base candidate (candidate + RABIN_WINDOW) ≠ take RABIN_WINDOW target) then (best_offset, best_len)
  else
    let match_len := (RABIN_WINDOW + match_forward (drop (candidate + RABIN_WINDOW) base) (drop RABIN_WINDOW target))%nat in
    if (best_len <? match_len)%nat then (candidate, match_len) else (best_offset, best_len).

Definition find_match (table : gmap Z (list nat)) (target base : bytes) : option (nat * nat) :=
  if (length target <? RABIN_WINDOW)%nat then None
  else
    candidates ← table !! fingerprint (take RABIN_WINDOW target);
    let '(best_offset, best_len) := fold_left (try_candidate target base) candidates (0, 0)%nat in
    if (RABIN_WINDOW <=? best_len)%nat then Some (best_offset, best_len) else None.

(** [for chunk in buf.chunks(127)]; a turn takes a byte at least. *)
Fixpoint insert_chunks (fuel : nat) (buf : bytes) : bytes :=
  match fuel, buf with
  | S fuel, _ :: _ =>
      let chunk := take 127 buf in
      z2b (zlen chunk) :: chunk ++ insert_chunks fuel (drop 127 buf)
  | _, _ => []
  end.

Definition flush_insert (instructions buf : bytes) : bytes :=
  if decide (buf = []) then instructions else instructions ++ insert_chunks (length buf) buf.

(** The loops of [encode_copy] that emit the non-zero bytes of an argument. *)
Fixpoint emit_args (v : Z) (args : list (Z * Z)) (cmd : Z) (extra : bytes) : Z * bytes :=
  match args with
  | [] => (cmd, extra)
  | (bit, shift) :: args =>
      let byte_val := Z.land (Z.shiftr v shift) 0xFF in
      if byte_val =? 0 then emit_args v args cmd extra
      else emit_args v args (Z.lor cmd bit) (extra ++ [z2b byte_val])
  end.

Definition encode_copy (instructions : bytes) (offset size : Z) : bytes :=
  let size := if size =? 0x10000 then 0 else size in
  let '(cmd, extra) := emit_args offset offset_args 0x80 [] in
  let '(cmd, extra) := emit_args size size_args cmd extra in
  instructions ++ z2b cmd :: extra.

(** The scan; a turn advances [pos]. *)
Fixpoint git_scan (fuel : nat) (table : gmap Z (list nat)) (base target instructions insert_buf : bytes) (pos : nat)
  : bytes :=
  match fuel, target !! pos with
  | S fuel, Some b =>
      let found := if (pos + RABIN_WINDOW <=? length target)%nat then find_match table (drop pos target) base else None in
      match found with
      | Some (base_offset, match_len) =>
          let instructions := encode_copy (flush_insert instructions insert_buf) (Z.of_nat base_offset) (Z.of_nat match_len) in
          git_scan fuel table base target instructions [] (pos + match_len)
      | None =>
          let insert_buf := insert_buf ++ [b] in
          if (length insert_buf =? 127)%nat then
            git_scan fuel table base target (flush_insert instructions insert_buf) [] (S pos)
          else git_scan fuel table base target instructions insert_buf (S pos)
      end
  | _, _ => flush_insert instructions insert_buf
  end.

Definition git_compute_delta (base target : bytes) : option bytes :=
  if bool_decide (base = []) || bool_decide (target = []) || (length target <? RABIN_WINDOW * 2)%nat then None
  else
    let index := RabinIndex_new base in
    let instructions := git_scan (length target) index base target [] [] 0 in
    let delta := write_varint (zlen base) ++ write_varint (zlen target) ++ instructions in
    if (length delta <? length target)%nat then Some delta else None.

(** * Offsets of OFS_DELTA entries *)

(** The bytes after the first, least significant first; [distance] shrinks by
    seven bits a turn. *)
Fixpoint ofs_loop (fuel : nat) (distance : Z) : bytes :=
  match fuel with
  | O => []
  | S fuel =>
      let distance := Z.shiftr distance 7 in
      if 0 <? distance then
        let distance := distance - 1 in
        z2b (Z.lor 128 (Z.land distance 127)) :: ofs_loop fuel distance
      else []
  end.

Definition encode_ofs_delta_header (distance : Z) : bytes :=
  rev (z2b (Z.land distance 127) :: ofs_loop 10 distance).

(** How a pack reader decodes it: each continuation adds one before shifting. *)
Fixpoint decode_ofs_loop (value : Z) (data : bytes) : option (Z * bytes) :=
  match data with
  | [] => None
  | b :: rest =>
      let value := value * 128 + Z.land (b2z b) 127 in
      if Z.land (b2z b) 128 =? 0 then Some (value, rest) else decode_ofs_loop (value + 1) rest
  end.
Definition decode_ofs_delta_header (data : bytes) : option (Z * bytes) := decode_ofs_loop 0 data.

(** * The two decoders agree *)

(** The same value, an error on both sides, or a panic on both. *)
Definition same_ok {E F A} (m : outcome E A) (n : outcome F A) : Prop :=
  match m, n with
  | Ok a, Ok b => a = b
  | Err _, Err _ | Panic, Panic => True
  | _, _ => False
  end.

Lemma same_ok_bind {E F A B} (m : outcome E A) (n : outcome F A) (f : A → outcome E B) (g : A → outcome F B) :
  same_ok m n → (∀ a, same_ok (f a) (g a)) → same_ok (m ≫= f) (n ≫= g).
Proof. destruct m, n; cbn; try done. intros -> H. apply H. Qed.

Lemma read_varint_agrees data pos value shift :
  match git_read_varint_loop data value shift, decode_varint_loop data pos value shift with
  | Some (v, rest), Ok (v', p) => v = v' ∧ (p = pos + (length data - length rest))%nat ∧
      (length rest ≤ length data)%nat ∧ rest = drop (length data - length rest) data
  | None, Err _ => True
  | _, _ => False
  end.
Proof.
  revert pos value shift. induction data as [|b data IH]; intros pos value shift; cbn [git_read_varint_loop decode_varint_loop]; [done|].
  cbv zeta. destruct (Z.land (b2z b) 0x80 =? 0).
  - cbn [length]. split_and!; [done|lia|lia|]. by replace (S (length data) - length data)%nat with 1%nat by lia.
  - destruct (63 <? shift + 7); [done|].
    specialize (IH (S pos) (Z.lor value (wrap 64 (Z.shiftl (Z.land (b2z b) 0x7F) shift))) (shift + 7)).
    destruct (git_read_varint_loop data _ _) as [[v rest]|], (decode_varint_loop data _ _ _) as [[v' p]|e|]; try done.
    destruct IH as (-> & -> & Hl & Hr). cbn [length]. split_and!; [done|lia|lia|].
    replace (S (length data) - length rest)%nat with (S (length data - length rest)) by lia. done.
Qed.

Lemma read_args_step delta cmd bit shift args acc pos what :
  read_args delta cmd ((bit, shift) :: args) acc pos
  = match read_arg delta cmd bit shift what (acc, pos) with
    | Ok (a, p) => read_args delta cmd args a p
    | Err _ => Err truncated_copy
    | Panic => Panic
    end.
Proof.
  cbn [read_args]. unfold read_arg. destruct (Z.land cmd bit =? 0); [done|]. by destruct (delta !! pos).
Qed.

Lemma apply_step_agrees base delta pos cmd out :
  same_ok (git_apply_step base delta (S pos) cmd out) (apply_step base delta pos cmd out).
Proof.
  unfold git_apply_step, apply_step. destruct (b2z cmd =? 0); [done|].
  destruct (negb (Z.land (b2z cmd) 0x80 =? 0)); [|by destruct (_ <? _)%nat].
  unfold offset_args, size_args.
  assert (∀ (k : Z * nat → outcome DeltaFailure (nat * bytes)) (k' : Z * nat → outcome DeltaError (nat * bytes)) bit shift args st what,
    (∀ a p, same_ok (read_args delta (b2z cmd) args a p ≫= k) (k' (a, p))) →
    same_ok (read_args delta (b2z cmd) ((bit, shift) :: args) st.1 st.2 ≫= k)
            (read_arg delta (b2z cmd) bit shift what st ≫= k')) as Hstep.
  { intros k k' bit shift args [a p] what Hk. rewrite (read_args_step _ _ _ _ _ _ _ what). cbn [fst snd].
    destruct (read_arg delta (b2z cmd) bit shift what (a, p)) as [[a' p']| |]; [apply Hk|done|done]. }
  assert (∀ (k : Z * nat → outcome DeltaFailure (nat * bytes)) a p,
    read_args delta (b2z cmd) [] a p ≫= k = k (a, p)) as Hnil by done.
  apply (Hstep _ _ _ _ _ (0, S pos)). intros a1 p1. apply (Hstep _ _ _ _ _ (a1, p1)). intros a2 p2.
  apply (Hstep _ _ _ _ _ (a2, p2)). intros a3 p3. apply (Hstep _ _ _ _ _ (a3, p3)). intros a4 p4.
  rewrite Hnil. apply (Hstep _ _ _ _ _ (0, p4)). intros b1 q1.
  apply (Hstep _ _ _ _ _ (b1, q1)). intros b2 q2. apply (Hstep _ _ _ _ _ (b2, q2)). intros b3 q3.
  rewrite Hnil. by destruct (_ <? _).
Qed.

Lemma apply_loop_agrees fuel base delta pos out :
  same_ok (git_apply_loop fuel base delta pos out) (apply_loop fuel base delta pos out).
Proof.
  revert pos out. induction fuel as [|fuel IH]; intros pos out; cbn [git_apply_loop apply_loop];
    (destruct (Nat.ltb_spec pos (length delta)) as [Hlt|Hge]; [|by rewrite lookup_ge_None_2 by lia]);
    apply lookup_lt_is_Some_2 in Hlt as [cmd ->]; [done|].
  apply same_ok_bind; [apply apply_step_agrees|]. intros [p o]. apply IH.
Qed.

(** * The two encoders agree *)

Lemma write_varint_agrees v : 0 ≤ v → write_varint v = encode_varint v.
Proof.
  unfold write_varint, encode_varint. generalize 10%nat as fuel. intros fuel. revert v.
  induction fuel as [|fuel IH]; intros v Hv; cbn [write_varint_loop encode_varint_loop]; [done|]. cbv zeta.
  assert (0 ≤ Z.shiftr v 7) as Hs by (by apply Z.shiftr_nonneg).
  destruct (Z.ltb_spec 0 (Z.shiftr v 7)).
  - rewrite (proj2 (Z.eqb_neq _ _)) by lia. by rewrite IH.
  - by rewrite (proj2 (Z.eqb_eq _ _)) by lia.
Qed.

Lemma insert_chunks_agrees fuel ins buf : flush_inserts_loop fuel ins buf = ins ++ insert_chunks fuel buf.
Proof.
  revert ins buf. induction fuel as [|fuel IH]; intros ins buf; cbn [flush_inserts_loop insert_chunks]; [by rewrite app_nil_r|].
  destruct buf as [|b buf]; [by rewrite app_nil_r|]. rewrite IH, <- app_assoc. f_equal.
  set (l := b :: buf). assert (take (Nat.min (length l) 127) l = take 127 l) as Ht.
  { destruct (Nat.le_gt_cases (length l) 127); [|by rewrite Nat.min_r by lia].
    rewrite Nat.min_l by lia. by rewrite !take_ge by lia. }
  assert (drop (Nat.min (length l) 127) l = drop 127 l) as Hd.
  { destruct (Nat.le_gt_cases (length l) 127); [|by rewrite Nat.min_r by lia].
    rewrite Nat.min_l by lia. by rewrite !drop_ge by lia. }
  rewrite Ht, Hd. cbn [app]. f_equal. f_equal. rewrite length_take. lia.
Qed.

Lemma flush_insert_agrees ins buf : flush_insert ins buf = flush_inserts ins buf.
Proof.
  unfold flush_insert, flush_inserts. rewrite insert_chunks_agrees. case_decide as E; [|done].
  subst. cbn. by rewrite app_nil_r.
Qed.

Lemma emit_args_spec v bit shift args cmd extra :
  emit_args v ((bit, shift) :: args) cmd extra
  = emit_args v args (Z.lor cmd (arg_bit v shift bit)) (extra ++ arg_bytes v shift).
Proof.
  cbn [emit_args]. unfold arg_bit, arg_bytes, byte_at. destruct (Z.land _ _ =? 0); [|done].
  by rewrite Z.lor_0_r, app_nil_r.
Qed.

Lemma byte_at_wrap v shift : 0 ≤ shift ≤ 24 → byte_at (wrap 32 v) shift = byte_at v shift.
Proof.
  intros Hs. unfold byte_at, wrap. rewrite !land_255, !Z.shiftr_div_pow2 by lia.
  apply Z.bits_inj'. intros n Hn. change 256 with (2 ^ 8). destruct (Z.lt_ge_cases n 8).
  - rewrite !Z.mod_pow2_bits_low, !Z.div_pow2_bits, Z.mod_pow2_bits_low by lia. done.
  - by rewrite !Z.mod_pow2_bits_high by lia.
Qed.

Lemma encode_copy_agrees ins offset size : encode_copy ins offset size = emit_copy ins offset size.
Proof.
  rewrite emit_copy_app, emit_copy_spec. unfold encode_copy, offset_args, size_args. cbv zeta.
  set (sz := if size =? 0x10000 then 0 else size).
  assert (∀ sh, 0 ≤ sh ≤ 24 → byte_at (stored_size size) sh = byte_at sz sh) as Hb.
  { intros sh Hsh. unfold stored_size, sz. destruct (size =? 0x10000); [done|]. by apply byte_at_wrap. }
  rewrite !emit_args_spec. change (emit_args offset [] ?c ?e) with (c, e). cbv beta iota.
  rewrite !emit_args_spec. change (emit_args sz [] ?c ?e) with (c, e). cbv beta iota.
  unfold copy_cmd, arg_bit, arg_bytes. rewrite !byte_at_wrap, !Hb by lia. f_equal. cbn [app]. f_equal. by rewrite <- !app_assoc.
Qed.


Lemma match_forward_agrees b t : match_forward b t = extend_match b t.
Proof. done. Qed.

Lemma try_candidate_agrees base target pos best o :
  try_candidate (drop pos target) base best o = consider_offset base target pos best o.
Proof.
  destruct best as [bo bl]. unfold try_candidate, consider_offset.
  assert (take RABIN_WINDOW (drop pos target) = slice target pos (pos + BLOCK_SIZE)) as ->.
  { unfold slice. by replace (pos + BLOCK_SIZE - pos)%nat with RABIN_WINDOW by (unfold BLOCK_SIZE, RABIN_WINDOW; lia). }
  rewrite match_forward_agrees, drop_drop. change RABIN_WINDOW with BLOCK_SIZE.
  destruct (decide (slice base o (o + BLOCK_SIZE) = slice target pos (pos + BLOCK_SIZE))) as [E|E].
  - by rewrite decide_False by (intros N; by apply N).
  - by rewrite decide_True by done.
Qed.

Lemma RabinIndex_new_agrees base : RabinIndex_new base = build_index base.
Proof.
  unfold RabinIndex_new, build_index. change RABIN_WINDOW with BLOCK_SIZE.
  destruct (Nat.ltb_spec (length base) BLOCK_SIZE), (Nat.leb_spec BLOCK_SIZE (length base)); done || lia.
Qed.

Lemma find_match_agrees base target table pos :
  (if (pos + RABIN_WINDOW <=? length target)%nat then find_match table (drop pos target) base else None)
  = let '(o, n) := best_match base target table pos in if (BLOCK_SIZE <=? n)%nat then Some (o, n) else None.
Proof.
  unfold find_match, best_match. change RABIN_WINDOW with BLOCK_SIZE. rewrite length_drop.
  destruct (Nat.leb_spec (pos + BLOCK_SIZE) (length target)); [|done].
  destruct (Nat.ltb_spec (length target - pos) BLOCK_SIZE); [lia|].
  assert (take BLOCK_SIZE (drop pos target) = slice target pos (pos + BLOCK_SIZE)) as ->.
  { unfold slice. by replace (pos + BLOCK_SIZE - pos)%nat with BLOCK_SIZE by lia. }
  change (fingerprint ?w) with (fnv1a w). destruct (table !! _) as [offs|]; [|done]. cbn [mbind option_bind].
  assert (∀ best, fold_left (try_candidate (drop pos target) base) offs best
                  = fold_left (consider_offset base target pos) offs best) as ->; [|done].
  induction offs as [|o offs IH]; intros best; [done|]. cbn [fold_left]. by rewrite try_candidate_agrees, IH.
Qed.

Lemma scan_agrees fuel table base target ins buf pos :
  git_scan fuel table base target ins buf pos = scan fuel base target table ins buf pos.
Proof.
  revert ins buf pos. induction fuel as [|fuel IH]; intros ins buf pos; cbn [git_scan scan];
    [by rewrite flush_insert_agrees; destruct (target !! pos)|].
  destruct (target !! pos) as [b|]; [|apply flush_insert_agrees]. cbv zeta. rewrite find_match_agrees.
  destruct (best_match base target table pos) as [o n]. destruct (_ <=? _)%nat.
  - by rewrite IH, encode_copy_agrees, flush_insert_agrees.
  - by rewrite !IH, flush_insert_agrees.
Qed.

(** Both encoders emit the same instruction stream; they differ only in when
    they give up. *)
Lemma git_compute_delta_instrs base target d :
  delta_sized base target → git_compute_delta base target = Some d →
  ∃ l, d = encode_varint (zlen base) ++ encode_varint (zlen target) ++ encode_instrs l ∧
       Forall (instr_ok base) l ∧ run_instrs base l = target.
Proof.
  intros Hs. unfold git_compute_delta. destruct (_ || _); [done|]. rewrite scan_agrees, RabinIndex_new_agrees.
  destruct (scan_instrs base target (build_index base) (length target) [] [] 0)
    as (l & -> & Hok & Hrun); [done|apply build_index_ok|lia|].
  rewrite !write_varint_agrees by lia.
  destruct (_ <? _)%nat; [|done]. intros [= <-]. exists l. cbn [app] in *. by rewrite drop_0 in Hrun.
Qed.

(** The bytes above the last decode to the distance shifted by seven bits. *)
Lemma decode_ofs_rev fuel d tail :
  0 ≤ d < 2 ^ (7 * Z.of_nat fuel) →
  decode_ofs_loop 0 (rev (ofs_loop fuel d) ++ tail) = decode_ofs_loop (Z.shiftr d 7) tail.
Proof.
  revert d tail. induction fuel as [|fuel IH]; intros d tail Hd.
  { replace d with 0 by (cbn in Hd; lia). done. }
  cbn [ofs_loop]. cbv zeta. rewrite Nat2Z.inj_succ in Hd.
  replace (7 * Z.succ (Z.of_nat fuel)) with (7 + 7 * Z.of_nat fuel) in Hd by lia.
  rewrite Z.pow_add_r in Hd by lia. change (2 ^ 7) with 128 in Hd.
  assert (0 ≤ Z.shiftr d 7 < 2 ^ (7 * Z.of_nat fuel)) as Hr.
  { rewrite Z.shiftr_div_pow2 by lia. change (2 ^ 7) with 128. split; [apply Z.div_pos; lia|].
    apply Z.div_lt_upper_bound; lia. }
  destruct (Z.ltb_spec 0 (Z.shiftr d 7)); [|by replace (Z.shiftr d 7) with 0 by lia].
  set (d' := Z.shiftr d 7 - 1). cbn [rev]. rewrite <- app_assoc, IH by (subst d'; lia).
  assert (0 ≤ d' mod 128 < 128) as Hlow by (apply Z.mod_pos_bound; lia).
  pose proof (low7_check _ Hlow) as Hc. unfold low7_facts in Hc.
  repeat match type of Hc with _ && _ = true => apply andb_prop in Hc as [Hc ?] end.
  cbn [app decode_ofs_loop]. rewrite land_127, Z.lor_comm, b2z_z2b_small by lia.
  destruct (Z.eqb_spec (Z.land (Z.lor (d' mod 128) 128) 128) 0); [lia|]. cbv zeta. f_equal.
  replace (Z.land (Z.lor (d' mod 128) 128) 127) with (d' mod 128) by lia.
  rewrite Z.shiftr_div_pow2 by lia. change (2 ^ 7) with 128. pose proof (Z.div_mod d' 128 ltac:(lia)). lia.
Qed.

(** The offset header of an OFS_DELTA entry decodes, by the rule of the pack
    format, to the distance it was made from. *)
Lemma ofs_header_roundtrip d rest :
  0 ≤ d < 2 ^ 64 → decode_ofs_delta_header (encode_ofs_delta_header d ++ rest) = Some (d, rest).
Proof.
  intros Hd. unfold decode_ofs_delta_header, encode_ofs_delta_header. cbn [rev]. rewrite <- app_assoc, decode_ofs_rev.
  2:{ split; [lia|]. transitivity (2 ^ 64); [lia|done]. }
  assert (0 ≤ d mod 128 < 128) as Hlow by (apply Z.mod_pos_bound; lia).
  pose proof (low7_check _ Hlow) as Hc. unfold low7_facts in Hc.
  repeat match type of Hc with _ && _ = true => apply andb_prop in Hc as [Hc ?] end.
  cbn [app decode_ofs_loop]. rewrite land_127, b2z_z2b_small by lia.
  destruct (Z.eqb_spec (Z.land (d mod 128) 128) 0); [|lia].
  replace (Z.land (d mod 128) 127) with (d mod 128) by lia. f_equal. f_equal.
  rewrite Z.shiftr_div_pow2 by lia. change (2 ^ 7) with 128. pose proof (Z.div_mod d 128 ltac:(lia)). lia.
Qed.

Lemma git_apply_delta_agrees base delta : same_ok (git_apply_delta base delta) (apply_delta base delta).
Proof.
  unfold git_apply_delta, apply_delta, decode_varint, git_read_varint. rewrite drop_0.
  pose proof (read_varint_agrees delta 0 0 0) as H1.
  destruct (git_read_varint_loop delta 0 0) as [[bs rest]|], (decode_varint_loop delta 0 0 0) as [[bs' p]|e|]; try done.
  destruct H1 as (-> & -> & Hl1 & Hr1). cbn [ok_or mbind outcome_bind Nat.add].
  pose proof (read_varint_agrees rest (length delta - length rest) 0 0) as H2. rewrite <- Hr1.
  destruct (git_read_varint_loop rest 0 0) as [[sz rest2]|],
    (decode_varint_loop rest (length delta - length rest) 0 0) as [[sz' p2]|e|]; try done.
  destruct H2 as (-> & -> & Hl2 & _). cbn [ok_or mbind outcome_bind]. rewrite (Z.eqb_sym (zlen base)).
  replace (length delta - length rest + (length rest - length rest2))%nat with (length delta - length rest2)%nat by lia.
  destruct (bs' =? zlen base); cbn [negb]; [|done]. destruct (isize_max <? sz'); [done|].
  apply same_ok_bind; [apply apply_loop_agrees|]. intros out. by destruct (zlen out =? sz').
Qed.

(** A delta of either encoder, replayed by either decoder. *)
Lemma delta_replays base target d : delta_sized base target → zlen target ≤ isize_max →
  git_compute_delta base target = Some d ∨ compute_delta base target = Some d →
  git_apply_delta base d = Ok target ∧ apply_delta base d = Ok target.
Proof.
  intros Hs Ht Hd. assert (apply_delta base d = Ok target) as Ha.
  { assert (∃ l, d = encode_varint (zlen base) ++ encode_varint (zlen target) ++ encode_instrs l ∧
       Forall (instr_ok base) l ∧ run_instrs base l = target) as (l & -> & Hok & <-).
    { destruct Hd; eauto using git_compute_delta_instrs, compute_delta_instrs. }
    destruct Hs. apply apply_delta_instrs; [done|lia|done]. }
  split; [|done]. pose proof (git_apply_delta_agrees base d) as H. rewrite Ha in H.
  destruct (git_apply_delta base d); [|done..]. cbn in H. by subst.
Qed.

(** * Properties *)



(** A COPY of 2^24 bytes is written exactly like a COPY of 2^16 bytes: as in
    kappa-core, the size bits from 24 up are dropped. *)
Theorem encode_copy_size_truncated instructions offset :
  encode_copy instructions offset (2 ^ 24) = encode_copy instructions offset (2 ^ 16).
Proof. rewrite !encode_copy_agrees. apply emit_copy_size_truncated. Qed.
