(* ===== verification/GitGraph.v ===== *)
(** GitGraph: the Git object graph in the store: the envelope codec of
    [kappa-module-git/src/envelope.rs] and the walks of
    [kappa-module-git/src/protocol.rs] that decide what a fetch sends.

    The store is seen through [get], which is [store.blob_get(k).ok()]; the walks
    only read.  Depths are counted without a width: a chain of 2^32 objects does
    not fit in a store. *)

From S2P Require Import Prelude Label Compute Types Store Gc Http Text.

(** [gix_object::Kind] and [gix_hash::Kind]. *)
Inductive Kind := KindCommit | KindTree | KindBlob | KindTag.
Inductive HashKind := HashSha1 | HashSha256.

#[export] Instance Kind_eq_dec : EqDecision Kind.
Proof. solve_decision. Defined.
#[export] Instance HashKind_eq_dec : EqDecision HashKind.
Proof. solve_decision. Defined.

Definition hash_axis (k : HashKind) : Axis := match k with HashSha1 => Sha1 | HashSha256 => Sha256 end.

Definition kind_text (k : Kind) : rstr :=
  match k with
  | KindCommit => rs "commit" | KindTree => rs "tree" | KindBlob => rs "blob" | KindTag => rs "tag"
  end.

(** The functions of the gix crates the module calls: [encode::loose_header],
    [Kind::from_bytes] and [compute_hash], the latter failing on a detected
    collision. *)
Class GixCrates `{HashCrates} := {
  loose_header : Kind → Z → bytes;
  kind_from_bytes : bytes → Kind + rstr;
  compute_hash : HashKind → Kind → bytes → bytes + rstr;
}.

(** What their documentation says: the header of a loose object is its kind, a
    space, its decimal size and a NUL; kinds are read by name; an object is hashed
    with its header in front. *)
Class GixCratesLaws `{GixCrates} : Prop := {
  loose_header_text : ∀ k n, 0 ≤ n → loose_header k n = kind_text k ++ x20 :: dec n ++ [x00];
  kind_from_text : ∀ k, kind_from_bytes (kind_text k) = inl k;
  compute_hash_spec : ∀ hk k c, hash_refused (hash_axis hk) (loose_header k (zlen c) ++ c) = false →
    compute_hash hk k c = inl (digest_of (hash_axis hk) (loose_header k (zlen c) ++ c));
}.

Inductive EnvelopeError := EnvInvalid (msg : rstr) | EnvHash (msg : rstr).

(** * Envelopes *)

Section envelope.
Context `{GixCrates}.

Definition envelope_wrap (kind : Kind) (content : bytes) : bytes := loose_header kind (zlen content) ++ content.

Definition envelope_unwrap (envelope : bytes) : outcome EnvelopeError (Kind * bytes) :=
  nul_pos ← ok_or (find_char x00 envelope) (EnvInvalid (rs "no NUL byte in envelope"));
  let header := take nul_pos envelope in
  space_pos ← ok_or (find_char x20 header) (EnvInvalid (rs "no space in header"));
  kind ← match kind_from_bytes (take space_pos header) with inl k => Ok k | inr e => Err (EnvInvalid e) end;
  let size_bytes := drop (S space_pos) header in
  if negb (utf8_valid size_bytes) then Err (EnvInvalid (rs "size not utf8"))
  else
    declared_size ← ok_or (parse_u64 size_bytes) (EnvInvalid (rs "size not decimal"));
    let content := drop (S nul_pos) envelope in
    if decide (zlen content ≠ declared_size) then
      Err (EnvInvalid (rs "declared size " ++ dec declared_size ++ rs " but content is "
                       ++ dec (zlen content) ++ rs " bytes"))
    else Ok (kind, content).

Definition git_object_id (hk : HashKind) (kind : Kind) (content : bytes) : outcome EnvelopeError rstr :=
  match compute_hash hk kind content with
  | inl id => Ok (axis_as_str (hash_axis hk) ++ COLON :: hex_encode id)
  | inr e => Err (EnvHash e)
  end.

Definition kind_from_envelope (envelope : bytes) : outcome EnvelopeError Kind :=
  r ← envelope_unwrap envelope; Ok r.1.
End envelope.

(** * Children *)

Definition hash_prefix (hk : HashKind) : rstr := match hk with HashSha1 => rs "sha1" | HashSha256 => rs "sha256" end.
Definition hash_len (hk : HashKind) : nat := match hk with HashSha1 => 20%nat | HashSha256 => 32%nat end.

Definition oid_to_kappa_string (hk : HashKind) (hex_oid : rstr) : rstr := hash_prefix hk ++ COLON :: hex_oid.

Definition kappa_to_hex_oid (kappa : rstr) : rstr :=
  match split_once COLON kappa with Some (_, hex) => hex | None => kappa end.

Definition NEWLINE : byte := x0a.

Section graph.
Context `{GixCrates}.

(** The label named after a keyword, if it is text. *)
Definition named_child (prefix rest : rstr) : list rstr :=
  if utf8_valid rest then [prefix ++ COLON :: str_trim rest] else [].

(** The header of a commit ends at the first empty line. *)
Fixpoint commit_children (prefix : rstr) (lines : list bytes) : list rstr :=
  match lines with
  | [] => []
  | line :: lines =>
      match strip_prefix (rs "tree ") line, strip_prefix (rs "parent ") line with
      | Some rest, _ | None, Some rest => named_child prefix rest ++ commit_children prefix lines
      | None, None => if decide (line = []) then [] else commit_children prefix lines
      end
  end.

Fixpoint tag_children (prefix : rstr) (lines : list bytes) : list rstr :=
  match lines with
  | [] => []
  | line :: lines =>
      match strip_prefix (rs "object ") line with
      | Some rest => named_child prefix rest ++ tag_children prefix lines
      | None => tag_children prefix lines
      end
  end.

(** The entries of a tree from a position on: mode and name up to a NUL, then the
    raw hash. *)
Fixpoint tree_children (fuel hash_len : nat) (prefix : rstr) (content : bytes) : list rstr :=
  match fuel, find_char x00 content with
  | S fuel, Some nul =>
      let tail := drop (S nul) content in
      if (length tail <? hash_len)%nat then []
      else (prefix ++ COLON :: hex_encode (take hash_len tail))
             :: tree_children fuel hash_len prefix (drop hash_len tail)
  | _, _ => []
  end.

Definition extract_children (envelope_bytes : bytes) (hash_len : nat) (prefix : rstr) : list rstr :=
  match envelope_unwrap envelope_bytes with
  | Ok (kind, content) =>
      match kind with
      | KindCommit => commit_children prefix (split_on NEWLINE [] content)
      | KindTree => tree_children (length content) hash_len prefix content
      | KindTag => tag_children prefix (split_on NEWLINE [] content)
      | KindBlob => []
      end
  | _ => []
  end.

Variable get : rstr → option bytes.
Variable object_hash : HashKind.

(** An object that can be read and has a well-formed envelope. *)
Definition object (k : rstr) : option (Kind * bytes) :=
  e ← get k; match envelope_unwrap e with Ok r => Some r | _ => None end.

Definition children (k : rstr) : list rstr :=
  match get k with
  | Some e => extract_children e (hash_len object_hash) (hash_prefix object_hash)
  | None => []
  end.

(** * Walks *)

(** The loop is that of [compute_reachable], over the children of objects. *)
Definition walk_reachable (fuel : nat) (roots : list rstr) : option (gset rstr) :=
  bfs fuel children ∅ (oid_to_kappa_string object_hash <$> roots).

Inductive FilterSpec := BlobNone | BlobLimit (limit : Z).

Record FetchOptions := mkFetch {
  deepen : option Z;
  client_shallows : gset rstr;
  fetch_filter : option FilterSpec;
}.

Record NeedState := mkNeed {
  visited : gset rstr;
  needed : list rstr;
  new_shallows : gset rstr;
  depth_map : gmap rstr Z;
  queue : list rstr;
}.

Variable opts : FetchOptions.

(** Objects the partial-clone filter leaves out. *)
Definition filtered (kind : Kind) (content : bytes) : bool :=
  match fetch_filter opts with
  | Some BlobNone => bool_decide (kind = KindBlob)
  | Some (BlobLimit limit) => bool_decide (kind = KindBlob) && (limit <? zlen content)
  | None => false
  end.

Definition at_boundary (kind : Kind) (current_depth : Z) : bool :=
  bool_decide (kind = KindCommit)
  && match deepen opts with Some max_depth => max_depth <=? current_depth | None => false end.

Definition enqueue (child : rstr) (depths : gmap rstr Z) (st : NeedState) : NeedState :=
  mkNeed (visited st) (needed st) (new_shallows st) depths (queue st ++ [child]).

(** A child of an ordinary object: its depth is set once. *)
Definition push_child (have_set : gset rstr) (current_depth : Z) (st : NeedState) (child : rstr) : NeedState :=
  if decide (child ∈ visited st ∨ child ∈ have_set) then st
  else enqueue child (match depth_map st !! child with
                      | Some _ => depth_map st
                      | None => <[child := current_depth + 1]> (depth_map st)
                      end) st.

(** A child of a commit at the boundary: not followed if it is a commit. *)
Definition push_boundary_child (have_set : gset rstr) (current_depth : Z) (st : NeedState) (child : rstr) : NeedState :=
  if decide (child ∈ visited st ∨ child ∈ have_set) then st
  else match object child with
       | Some (child_kind, _) =>
           if decide (child_kind = KindCommit) then st
           else enqueue child (<[child := current_depth]> (depth_map st)) st
       | None => st
       end.

(** One turn of the loop, for the label taken from the queue. *)
Definition need_step (have_set : gset rstr) (kappa : rstr) (st : NeedState) : NeedState :=
  if decide (kappa ∈ visited st ∨ kappa ∈ have_set) then st
  else
    let st := mkNeed ({[ kappa ]} ∪ visited st) (needed st) (new_shallows st) (depth_map st) (queue st) in
    match object kappa with
    | None => st
    | Some (kind, content) =>
        if filtered kind content then st
        else
          let st := mkNeed (visited st) (needed st ++ [kappa]) (new_shallows st) (depth_map st) (queue st) in
          let current_depth := default 0 (depth_map st !! kappa) in
          if at_boundary kind current_depth then
            let st := mkNeed (visited st) (needed st) ({[ kappa_to_hex_oid kappa ]} ∪ new_shallows st)
                        (depth_map st) (queue st) in
            fold_left (push_boundary_child have_set current_depth) (children kappa) st
          else fold_left (push_child have_set current_depth) (children kappa) st
    end.

Fixpoint need_loop (fuel : nat) (have_set : gset rstr) (st : NeedState) : option NeedState :=
  match queue st with
  | [] => Some st
  | kappa :: rest =>
      match fuel with
      | O => None
      | S fuel =>
          need_loop fuel have_set
            (need_step have_set kappa (mkNeed (visited st) (needed st) (new_shallows st) (depth_map st) rest))
      end
  end.

(** The wanted labels the client does not have, at depth 1. *)
Definition need_start (have_set : gset rstr) (wants : list rstr) : NeedState :=
  let roots := filter (λ k, k ∉ have_set) (oid_to_kappa_string object_hash <$> wants) in
  mkNeed ∅ [] ∅ (list_to_map ((λ k, (k, 1)) <$> roots)) roots.

Definition compute_need_set (fuel : nat) (wants : list rstr) (common : gset rstr) : option (list rstr * gset rstr) :=
  have_set ← walk_reachable fuel (elements common);
  st ← need_loop fuel have_set (need_start have_set wants);
  Some (needed st, new_shallows st).

(** If the reference is a tag that names a tag object, the object that names. *)
Definition peel_tag (ref_name ref_value : rstr) : option rstr :=
  if negb (starts_with (rs "refs/tags/") ref_name) then None
  else
    '(kind, content) ← object ref_value;
    if decide (kind ≠ KindTag) then None
    else
      rest ← head (omap (strip_prefix (rs "object ")) (split_on NEWLINE [] content));
      if utf8_valid rest then Some (str_trim rest) else None.
End graph.

(** * The walk of a fetch *)

Section need.
Context `{GixCrates} (get : rstr → option bytes) (hk : HashKind) (opts : FetchOptions) (have : gset rstr).

Abbreviation obj := (object get).
Abbreviation kids := (children get hk).

(** Left out of the pack: unreadable, or removed by the filter. *)
Definition excluded (k : rstr) : Prop :=
  match obj k with
  | None => True
  | Some (kind, content) => filtered opts kind content = true
  end.

Definition is_commit (k : rstr) : Prop := ∃ content, obj k = Some (KindCommit, content).

Definition accounted (st : NeedState) (k : rstr) : Prop := k ∈ visited st ∨ k ∈ have ∨ k ∈ queue st.

(** The loop invariant, [roots] being the wanted labels. *)
Record need_inv (roots : list rstr) (st : NeedState) : Prop := {
  ni_visited : ∀ k, k ∈ visited st → k ∈ needed st ∨ excluded k;
  ni_needed : ∀ k, k ∈ needed st → k ∈ visited st ∧ (k ∉ have) ∧ (¬ excluded k);
  ni_nodup : NoDup (needed st);
  ni_roots : ∀ k, k ∈ roots → accounted st k;
  ni_children : ∀ k c, k ∈ needed st → c ∈ kids k →
    accounted st c ∨ obj c = None ∨ (kappa_to_hex_oid k ∈ new_shallows st ∧ is_commit c);
  ni_reach : ∀ k, k ∈ needed st ++ queue st → reaches kids roots k;
  ni_shallow : ∀ o, o ∈ new_shallows st → is_Some (deepen opts) ∧
    ∃ k, k ∈ needed st ∧ o = kappa_to_hex_oid k ∧ is_commit k;
}.

(** Pushing children changes the queue alone. *)
Lemma push_fold (push : NeedState → rstr → NeedState) (P : rstr → Prop) `{∀ c, Decision (P c)} cs st :
  (∀ st' c, visited st' = visited st → visited (push st' c) = visited st' ∧ needed (push st' c) = needed st' ∧
     new_shallows (push st' c) = new_shallows st' ∧
     queue (push st' c) = queue st' ++ (if decide (P c) then [c] else [])) →
  let st' := fold_left push cs st in
  visited st' = visited st ∧ needed st' = needed st ∧ new_shallows st' = new_shallows st ∧
  queue st' = queue st ++ filter P cs.
Proof.
  revert st. induction cs as [|c cs IH]; intros st Hp; cbn [fold_left].
  { split_and!; [done..|]. by rewrite app_nil_r. }
  destruct (Hp st c eq_refl) as (E1 & E2 & E3 & E4). destruct (IH (push st c)) as (F1 & F2 & F3 & F4).
  { intros st' c' Hv. apply Hp. congruence. }
  cbv zeta. rewrite F1, F2, F3, F4, E1, E2, E3, E4, filter_cons. split_and!; [done..|].
  rewrite <- app_assoc. by case_decide.
Qed.

Definition fresh (st : NeedState) (c : rstr) : Prop := ¬ (c ∈ visited st ∨ c ∈ have).

Definition boundary_ok (st : NeedState) (c : rstr) : Prop :=
  fresh st c ∧ match obj c with Some (kind, _) => kind ≠ KindCommit | None => False end.

#[local] Instance fresh_dec st c : Decision (fresh st c).
Proof. unfold fresh. apply _. Defined.
#[local] Instance boundary_ok_dec st c : Decision (boundary_ok st c).
Proof. unfold boundary_ok. destruct (obj c) as [[kind ?]|]; apply _. Defined.

Lemma push_children_run d cs st :
  let st' := fold_left (push_child have d) cs st in
  visited st' = visited st ∧ needed st' = needed st ∧ new_shallows st' = new_shallows st ∧
  queue st' = queue st ++ filter (fresh st) cs.
Proof.
  apply push_fold. intros st' c Hv. unfold push_child.
  destruct (decide (fresh st c)) as [Hf|Hf]; unfold fresh in Hf; rewrite <- Hv in Hf; case_decide; try tauto.
  by rewrite app_nil_r.
Qed.

Lemma push_boundary_run d cs st :
  let st' := fold_left (push_boundary_child get have d) cs st in
  visited st' = visited st ∧ needed st' = needed st ∧ new_shallows st' = new_shallows st ∧
  queue st' = queue st ++ filter (boundary_ok st) cs.
Proof.
  apply push_fold. intros st' c Hv. unfold push_boundary_child.
  destruct (decide (boundary_ok st c)) as [Hb|Hb]; unfold boundary_ok, fresh in Hb; rewrite <- Hv in Hb.
  - destruct Hb as [Hf Hk]. rewrite decide_False by done. destruct (obj c) as [[kind ct]|]; [|done].
    by rewrite decide_False.
  - rewrite app_nil_r. case_decide as Hd; [done|]. destruct (obj c) as [[kind ct]|]; [|done].
    case_decide; [done|]. tauto.
Qed.

(** The state in which an object's children are pushed. *)
Definition visit (kappa : rstr) (shallow : bool) (st : NeedState) : NeedState :=
  mkNeed ({[ kappa ]} ∪ visited st) (needed st ++ [kappa])
    (if shallow then {[ kappa_to_hex_oid kappa ]} ∪ new_shallows st else new_shallows st) (depth_map st) (queue st).

(** A turn skips the label, leaves it out, or sends it and queues the children a
    boundary allows. *)
Lemma need_step_run kappa st :
  let st' := need_step get hk opts have kappa st in
  (kappa ∈ visited st ∨ kappa ∈ have) ∧ st' = st ∨
  fresh st kappa ∧ excluded kappa ∧ visited st' = {[ kappa ]} ∪ visited st ∧ needed st' = needed st ∧
    new_shallows st' = new_shallows st ∧ queue st' = queue st ∨
  ∃ (shallow : bool) (P : rstr → Prop) (_ : ∀ c, Decision (P c)),
    let st1 := visit kappa shallow st in
    fresh st kappa ∧ ¬ excluded kappa ∧ visited st' = visited st1 ∧ needed st' = needed st1 ∧
    new_shallows st' = new_shallows st1 ∧ queue st' = queue st1 ++ filter P (kids kappa) ∧
    (if shallow then is_Some (deepen opts) ∧ is_commit kappa ∧ ∀ c, fresh st1 c → P c ∨ obj c = None ∨ is_commit c
     else ∀ c, fresh st1 c → P c).
Proof.
  unfold need_step. case_decide as Hd; [by left|right]. unfold excluded.
  destruct (obj kappa) as [[kind content]|] eqn:Eo; [|by left].
  destruct (filtered opts kind content) eqn:Ef; [by left|right]. cbn [visited needed new_shallows depth_map queue].
  set (d := default 0 _). destruct (at_boundary opts kind d) eqn:Eb.
  - destruct (push_boundary_run d (kids kappa) (visit kappa true st)) as (E1 & E2 & E3 & E4).
    exists true, (boundary_ok (visit kappa true st)), _. split_and!; [done|congruence|done|done|done|done| | |].
    + apply andb_prop in Eb as [_ Eb]. by destruct (deepen opts).
    + apply andb_prop in Eb as [Eb%bool_decide_eq_true _]. exists content. congruence.
    + intros c Hf. unfold boundary_ok, is_commit. destruct (obj c) as [[k ct]|] eqn:Ec; [|auto].
      destruct (decide (k = KindCommit)) as [->|]; eauto.
  - destruct (push_children_run d (kids kappa) (visit kappa false st)) as (E1 & E2 & E3 & E4).
    exists false, (fresh (visit kappa false st)), _. split_and!; [done|congruence|done..].
Qed.

Lemma need_step_inv roots kappa rest st :
  queue st = kappa :: rest → need_inv roots st →
  need_inv roots (need_step get hk opts have kappa (mkNeed (visited st) (needed st) (new_shallows st) (depth_map st) rest)).
Proof.
  intros Hq [Hv Hn Hnd Hr Hc Hre Hsh]. set (st0 := mkNeed _ _ _ _ rest).
  assert (∀ k, accounted st k → k = kappa ∨ accounted st0 k) as Hacc.
  { intros k. unfold accounted. rewrite Hq, elem_of_cons. cbn. tauto. }
  assert (reaches kids roots kappa) as Hrk by (apply Hre; rewrite Hq; set_solver).
  destruct (need_step_run kappa st0) as
    [[Hskip ->]|[(Hf & Hex & E1 & E2 & E3 & E4)|(sh & P & ? & Hf & Hex & E1 & E2 & E3 & E4 & HP)]].
  - assert (∀ k, accounted st k → accounted st0 k) as Hacc'.
    { intros k [->|?]%Hacc; [|done]. unfold accounted. tauto. }
    split; auto.
    + intros k c Hk Hck. destruct (Hc k c Hk Hck) as [?|[?|?]]; auto.
    + intros k Hk. apply Hre. rewrite Hq. set_solver.
  - assert (∀ k, accounted st k → accounted (need_step get hk opts have kappa st0) k) as Hacc'.
    { intros k [->|Hk]%Hacc; unfold accounted in *; rewrite E1, E4; set_solver. }
    split; rewrite ?E1, ?E2, ?E3, ?E4; auto.
    + intros k [->%elem_of_singleton|?]%elem_of_union; auto.
    + intros k Hk. destruct (Hn k Hk) as (? & ? & ?). set_solver.
    + intros k c Hk Hck. destruct (Hc k c Hk Hck) as [?|[?|?]]; auto.
    + intros k Hk. apply Hre. rewrite Hq. set_solver.
  - set (st' := need_step get hk opts have kappa st0) in *.
    assert (∀ k, accounted st k → accounted st' k) as Hacc'.
    { intros k [->|Hk]%Hacc; unfold accounted in *; rewrite E1, E4; cbn in *; set_solver. }
    assert (∀ k, P k → k ∈ kids kappa → accounted st' k) as HaccP.
    { intros k HPk Hk. right; right. rewrite E4, elem_of_app, list_elem_of_filter. auto. }
    assert (∀ o, o ∈ new_shallows st → o ∈ new_shallows st') as Hmono by (rewrite E3; destruct sh; set_solver).
    unfold fresh in Hf. cbn [visited] in Hf.
    split; rewrite ?E1, ?E2, ?E4; cbn [visit visited needed queue]; auto.
    + intros k [->%elem_of_singleton|Hk]%elem_of_union; [set_solver|]. destruct (Hv k Hk); set_solver.
    + intros k [Hk| ->%list_elem_of_singleton]%elem_of_app; [|set_solver]. destruct (Hn k Hk) as (? & ? & ?). set_solver.
    + apply NoDup_app. split_and!; [done| |apply NoDup_singleton].
      intros k Hk ->%list_elem_of_singleton. destruct (Hn kappa Hk) as [? _]. tauto.
    + intros k c [Hk| ->%list_elem_of_singleton]%elem_of_app Hck.
      { destruct (Hc k c Hk Hck) as [?|[?|[? ?]]]; auto. }
      destruct (decide (fresh (visit kappa sh st0) c)) as [Hfc|Hfc].
      * destruct sh; [|left; by apply HaccP, Hck; apply HP].
        destruct HP as (_ & _ & HP). destruct (HP c Hfc) as [?|[?|?]]; [left; by apply HaccP|by right; left|].
        right; right. split; [|done]. rewrite E3. cbn. set_solver.
      * left. unfold fresh in Hfc. unfold accounted. rewrite E1. apply dec_stable in Hfc. tauto.
    + intros k Hk. rewrite !elem_of_app, list_elem_of_filter, list_elem_of_singleton in Hk.
      assert (k ∈ needed st ++ queue st ∨ k = kappa ∨ k ∈ kids kappa) as [?|[->|Hkc]];
        [rewrite elem_of_app, Hq; set_solver|auto|done|].
      destruct Hrk as (r & ? & ?). exists r. split; [done|]. by eapply rtc_r.
    + intros o Ho. rewrite E3 in Ho. destruct sh; cbn [visit new_shallows] in Ho.
      * destruct HP as (? & ? & _). apply elem_of_union in Ho as [->%elem_of_singleton|Ho].
        { split; [done|]. exists kappa. set_solver. }
        destruct (Hsh o Ho) as (? & k & ? & ? & ?). split; [done|]. exists k. set_solver.
      * destruct (Hsh o Ho) as (? & k & ? & ? & ?). split; [done|]. exists k. set_solver.
Qed.

Lemma need_loop_inv fuel roots st st' : need_loop get hk opts fuel have st = Some st' →
  need_inv roots st → need_inv roots st' ∧ queue st' = [].
Proof.
  revert st. induction fuel as [|fuel IH]; intros st; cbn [need_loop]; destruct (queue st) as [|kappa rest] eqn:Eq;
    [by intros [= <-]..|done|by intros [= <-]|].
  intros Hrun Hinv. apply IH in Hrun; [done|]. by apply need_step_inv.
Qed.

Lemma need_loop_total U fuel st :
  NoDup U → (∀ a b, a ∈ U → b ∈ kids a → b ∈ U) → (∀ q, q ∈ queue st → q ∈ U) →
  (length (queue st) + pending kids U (visited st) ≤ fuel)%nat → is_Some (need_loop get hk opts fuel have st).
Proof.
  intros Hnd Hcl. revert st. induction fuel as [|fuel IH]; intros st HQ Hf; cbn [need_loop];
    destruct (queue st) as [|kappa rest] eqn:Eq; [done| |done|]; cbn [length] in Hf; [lia|].
  set (st0 := mkNeed _ _ _ _ rest).
  destruct (need_step_run kappa st0) as
    [[_ ->]|[(Hfr & _ & E1 & _ & _ & E4)|(sh & P & ? & Hfr & _ & E1 & _ & _ & E4 & _)]]; apply IH.
  - intros q Hq. apply HQ. by right.
  - cbn. lia.
  - intros q Hq. rewrite E4 in Hq. apply HQ. by right.
  - rewrite E1, E4. cbn. pose proof (pending_insert kids U (visited st) kappa Hnd ltac:(set_solver)) as Hp.
    unfold fresh in Hfr. cbn in Hfr. specialize (Hp ltac:(tauto)). lia.
  - intros q Hq. rewrite E4 in Hq. apply elem_of_app in Hq as [Hq|Hq]; [apply HQ; by right|].
    apply list_elem_of_filter in Hq as [_ Hq]. eapply Hcl, Hq. set_solver.
  - rewrite E1, E4, length_app. cbn. pose proof (pending_insert kids U (visited st) kappa Hnd ltac:(set_solver)) as Hp.
    unfold fresh in Hfr. cbn in Hfr. specialize (Hp ltac:(tauto)).
    pose proof (length_filter P (kids kappa)). lia.
Qed.
End need.

(** * Envelopes read back *)

Section envelopes.
Context `{HashCratesLaws} `{!GixCrates} `{!GixCratesLaws}.

Lemma envelope_unwrap_wrap kind content :
  zlen content ≤ u64_max → envelope_unwrap (envelope_wrap kind content) = Ok (kind, content).
Proof.
  intros Hlen. unfold envelope_wrap, envelope_unwrap. rewrite loose_header_text by lia.
  destruct (dec_no_nul (zlen content) ltac:(lia)) as [Hn Hu].
  assert ((x00 ∉ kind_text kind) ∧ x20 ∉ kind_text kind) as [Hk1 Hk2].
  { split; apply (bool_decide_unpack _); by destruct kind. }
  replace ((kind_text kind ++ x20 :: dec (zlen content) ++ [x00]) ++ content)
    with ((kind_text kind ++ x20 :: dec (zlen content)) ++ x00 :: content) by (rewrite <- !app_assoc; cbn [app]; by rewrite <- app_assoc).
  rewrite find_char_app by (rewrite elem_of_app, elem_of_cons; naive_solver).
  cbn [ok_or mbind outcome_bind]. rewrite take_app_length, drop_middle, find_char_app by done.
  cbn [ok_or mbind outcome_bind]. rewrite take_app_length, drop_middle, kind_from_text. cbn [mbind outcome_bind].
  rewrite Hu. cbn [negb]. rewrite parse_u64_dec by lia. cbn [ok_or mbind outcome_bind].
  rewrite decide_False by lia. done.
Qed.

Lemma git_object_id_text hk kind content :
  hash_refused (hash_axis hk) (envelope_wrap kind content) = false →
  git_object_id hk kind content = Ok (kappa_text (hash_axis hk) (envelope_wrap kind content)).
Proof.
  intros Hr. unfold git_object_id. rewrite compute_hash_spec by done. unfold kappa_text, label_text, digest_hex.
  by rewrite hex_encode_spec.
Qed.
End envelopes.

Lemma pending_start resolve U : pending resolve U ∅ = sum_list ((λ k, length (resolve k)) <$> U).
Proof. unfold pending. by rewrite list_filter_all by set_solver. Qed.

Section fetch.
Context `{GixCrates} (get : rstr → option bytes) (hk : HashKind) (opts : FetchOptions).

Lemma no_object_no_children k : object get k = None → children get hk k = [].
Proof.
  unfold object, children, extract_children. destruct (get k) as [e|]; [|done]. cbn. by destruct (envelope_unwrap e) as [[]| |].
Qed.

Lemma need_start_inv have wants :
  need_inv get hk opts have (oid_to_kappa_string hk <$> wants) (need_start hk have wants).
Proof.
  split; cbn [need_start visited needed new_shallows queue]; try set_solver; [constructor| |].
  - intros k Hk. unfold accounted. cbn. rewrite list_elem_of_filter. destruct (decide (k ∈ have)); auto.
  - intros k [_ Hk]%list_elem_of_filter. exists k. split; [exact Hk|constructor].
Qed.

(** Without options nothing the client lacks stays behind. *)
Lemma need_all roots have st k (Hno : fetch_filter opts = None ∧ deepen opts = None)
  (Hcl : ∀ a b, a ∈ have → b ∈ children get hk a → b ∈ have) :
  need_inv get hk opts have roots st → queue st = [] → reaches (children get hk) roots k →
  k ∈ have ∨ k ∈ needed st ∨ object get k = None.
Proof.
  destruct Hno as [Hnf Hnd]. intros [Hv _ _ Hr Hc _ Hsh] Hq (r & Hroot & Hrk).
  assert (∀ a, excluded get opts a → object get a = None) as Hex.
  { intros a. unfold excluded, filtered. rewrite Hnf. by destruct (object get a) as [[]|]. }
  assert (∀ a, accounted have st a → a ∈ have ∨ a ∈ needed st ∨ object get a = None) as Hacc.
  { intros a. unfold accounted. rewrite Hq. intros [Ha|[?|?%elem_of_nil]]; [|auto|done]. destruct (Hv a Ha); auto. }
  apply Hr, Hacc in Hroot. induction Hrk as [|a b c Hab _ IH]; [done|]. apply IH. unfold edge in Hab.
  destruct Hroot as [Ha|[Ha|Ha]]; [left; by eapply Hcl| |by rewrite no_object_no_children in Hab by done; apply elem_of_nil in Hab].
  destruct (Hc a b Ha Hab) as [?|[?|[Hs _]]]; auto. destruct (Hsh _ Hs) as [[m Hm] _]. congruence.
Qed.
End fetch.

(** * Properties *)

(** What the walks choose; [fetch_closed] below states it. *)
Lemma need_set_spec `{GixCrates} (get : rstr → option bytes) hk opts fuel wants common U
  (Hnd : NoDup U) (Hclosed : ∀ a b, a ∈ U → b ∈ children get hk a → b ∈ U)
  (Hin : ∀ o, o ∈ wants ∨ o ∈ common → oid_to_kappa_string hk o ∈ U)
  (Hfuel : (length wants + size common + sum_list ((λ k, length (children get hk k)) <$> U) ≤ fuel)%nat) :
  let client_has := reaches (children get hk) (oid_to_kappa_string hk <$> elements common) in
  let wanted := reaches (children get hk) (oid_to_kappa_string hk <$> wants) in
  ∃ sent shallows, compute_need_set get hk opts fuel wants common = Some (sent, shallows) ∧ NoDup sent ∧
    (∀ k, k ∈ sent → wanted k ∧ ¬ client_has k ∧ ¬ excluded get opts k) ∧
    (∀ o, o ∈ wants → let k := oid_to_kappa_string hk o in client_has k ∨ k ∈ sent ∨ excluded get opts k) ∧
    (∀ k c, k ∈ sent → c ∈ children get hk k → client_has c ∨ c ∈ sent ∨ excluded get opts c ∨
       (kappa_to_hex_oid k ∈ shallows ∧ is_commit get c)) ∧
    (∀ o, o ∈ shallows → is_Some (deepen opts) ∧ ∃ k, k ∈ sent ∧ o = kappa_to_hex_oid k ∧ is_commit get k) ∧
    (fetch_filter opts = None → deepen opts = None →
     ∀ k, k ∈ sent ↔ wanted k ∧ ¬ client_has k ∧ is_Some (object get k)).
Proof.
  intros client_has wanted. set (cs := oid_to_kappa_string hk <$> elements common) in *.
  destruct (bfs_total (children get hk) U fuel ∅ cs Hnd Hclosed) as [have Hhave].
  { intros q (o & -> & Ho%elem_of_elements)%list_elem_of_fmap. auto. }
  { rewrite pending_start. unfold cs. rewrite length_fmap. change (length (elements common)) with (size common). lia. }
  pose proof (compute_reachable_exact _ _ _ _ Hhave) as Hex. fold client_has in Hex.
  destruct (need_loop_total get hk opts have U fuel (need_start hk have wants) Hnd Hclosed) as [st Hst].
  { intros q [_ (o & -> & Ho)%list_elem_of_fmap]%list_elem_of_filter. auto. }
  { cbn [need_start queue visited]. rewrite pending_start.
    pose proof (length_filter (λ k, k ∉ have) (oid_to_kappa_string hk <$> wants)) as Hl. rewrite length_fmap in Hl. lia. }
  destruct (need_loop_inv get hk opts have fuel _ _ _ Hst (need_start_inv get hk opts have wants)) as [Hinv Hq].
  exists (needed st), (new_shallows st). split.
  { unfold compute_need_set, walk_reachable. fold cs. rewrite Hhave. cbn [mbind option_bind]. by rewrite Hst. }
  assert (∀ k, accounted have st k → client_has k ∨ k ∈ needed st ∨ excluded get opts k) as Hacc.
  { intros k. unfold accounted. rewrite Hq. intros [Hk|[?|?%elem_of_nil]]; [|by left; apply Hex|done].
    destruct (ni_visited _ _ _ _ _ _ Hinv k Hk); auto. }
  assert (∀ k, k ∈ needed st → wanted k ∧ ¬ client_has k ∧ ¬ excluded get opts k) as Hsound.
  { intros k Hk. destruct (ni_needed _ _ _ _ _ _ Hinv k Hk) as (_ & Hh & He). rewrite <- Hex. split; [|done].
    apply (ni_reach _ _ _ _ _ _ Hinv). set_solver. }
  split_and!; [apply (ni_nodup _ _ _ _ _ _ Hinv)|done| | |apply (ni_shallow _ _ _ _ _ _ Hinv)|].
  - intros o Ho k. apply Hacc, (ni_roots _ _ _ _ _ _ Hinv). unfold k. by apply list_elem_of_fmap_2.
  - intros k c Hk Hc. destruct (ni_children _ _ _ _ _ _ Hinv k c Hk Hc) as [Ha|[Hn|?]]; [|..|tauto].
    + destruct (Hacc c Ha) as [?|[?|?]]; auto.
    + right; right; left. unfold excluded. by rewrite Hn.
  - intros Hf Hd k. split.
    + intros Hk. destruct (Hsound k Hk) as (? & ? & He). split_and!; [done..|]. unfold excluded in He.
      destruct (object get k); [by eexists|tauto].
    + intros (Hw & Hnc & [o Ho]).
      assert (∀ a b, a ∈ have → b ∈ children get hk a → b ∈ have) as Hcl.
      { intros a b Ha Hab. apply Hex in Ha as (r & ? & ?). apply Hex. exists r. split; [done|]. by eapply rtc_r. }
      destruct (need_all get hk opts _ have st k (conj Hf Hd) Hcl Hinv Hq Hw) as [?%Hex|[?|?]]; [done..|congruence].
Qed.

(** C30: what a fetch sends.  The two walks end when their fuel covers a finite
    graph that holds the wanted and the common objects, and the objects chosen are
    readable, reachable from a wanted one, not reachable from one the client has,
    not removed by the filter, and each chosen once.  Nothing is missing: a wanted
    object, and every object a chosen one names, is chosen too, or the client has
    it, or it is unreadable or filtered, or it is a parent of a commit announced as
    shallow, which happens only for a fetch with a depth.  Without depth and filter
    the choice is exactly what is readable, wanted and missing. *)
Theorem fetch_closed `{GixCrates} (get : rstr → option bytes) hk opts fuel wants common U
  (Hnd : NoDup U) (Hclosed : ∀ a b, a ∈ U → b ∈ children get hk a → b ∈ U)
  (Hin : ∀ o, o ∈ wants ∨ o ∈ common → oid_to_kappa_string hk o ∈ U)
  (Hfuel : (length wants + size common + sum_list ((λ k, length (children get hk k)) <$> U) ≤ fuel)%nat) :
  let client_has := reaches (children get hk) (oid_to_kappa_string hk <$> elements common) in
  let wanted := reaches (children get hk) (oid_to_kappa_string hk <$> wants) in
  ∃ sent shallows, compute_need_set get hk opts fuel wants common = Some (sent, shallows) ∧ NoDup sent ∧
    (∀ k, k ∈ sent → wanted k ∧ ¬ client_has k ∧ ¬ excluded get opts k) ∧
    (∀ o, o ∈ wants → let k := oid_to_kappa_string hk o in client_has k ∨ k ∈ sent ∨ excluded get opts k) ∧
    (∀ k c, k ∈ sent → c ∈ children get hk k → client_has c ∨ c ∈ sent ∨ excluded get opts c ∨
       (kappa_to_hex_oid k ∈ shallows ∧ is_commit get c)) ∧
    (∀ o, o ∈ shallows → is_Some (deepen opts) ∧ ∃ k, k ∈ sent ∧ o = kappa_to_hex_oid k ∧ is_commit get k) ∧
    (fetch_filter opts = None → deepen opts = None →
     ∀ k, k ∈ sent ↔ wanted k ∧ ¬ client_has k ∧ is_Some (object get k)).
Proof. exact (need_set_spec get hk opts fuel wants common U Hnd Hclosed Hin Hfuel). Qed.

(** * A concrete repository *)

#[export] Instance sample_gix : GixCrates := {|
  loose_header k n := kind_text k ++ x20 :: dec n ++ [x00];
  kind_from_bytes t :=
    match find (λ k, bool_decide (kind_text k = t)) [KindCommit; KindTree; KindBlob; KindTag] with
    | Some k => inl k
    | None => inr (rs "unknown object kind")
    end;
  compute_hash hk k c :=
    let e := (kind_text k ++ x20 :: dec (zlen c) ++ [x00]) ++ c in
    if hash_refused (hash_axis hk) e then inr (rs "collision") else inl (digest_of (hash_axis hk) e);
|}.

#[export] Instance sample_gix_laws : GixCratesLaws.
Proof.
  split; [done|by intros []|]. intros hk k c Hr. cbn [compute_hash sample_gix].
  change (loose_header k (zlen c)) with (kind_text k ++ x20 :: dec (zlen c) ++ [x00]) in Hr. by rewrite Hr.
Qed.

(** Two commits of one empty tree, the second on top of the first. *)
Definition sample_repo : list (rstr * bytes) :=
  [(rs "sha1:c2", envelope_wrap KindCommit (rs "tree t1" ++ NEWLINE :: rs "parent c1" ++ [NEWLINE; NEWLINE]));
   (rs "sha1:c1", envelope_wrap KindCommit (rs "tree t1" ++ [NEWLINE; NEWLINE]));
   (rs "sha1:t1", envelope_wrap KindTree [])].

Lemma fetch_closed_witness :
  let get k := assoc k sample_repo in
  let opts := mkFetch (Some 1) ∅ None in
  ∃ sent shallows, compute_need_set get HashSha1 opts 9 [rs "c2"] ∅ = Some (sent, shallows) ∧
    sent = [rs "sha1:c2"; rs "sha1:t1"] ∧ ∀ k, k ∈ sent → ¬ excluded get opts k.
Proof.
  intros get opts. set (U := [rs "sha1:c2"; rs "sha1:c1"; rs "sha1:t1"]).
  assert (Forall (λ a, Forall (λ b, b ∈ U) (children get HashSha1 a)) U) as HU by (apply (bool_decide_unpack _); by vm_compute).
  destruct (fetch_closed get HashSha1 opts 9 [rs "c2"] ∅ U) as (sent & shallows & E & _ & Hs & _).
  - apply (bool_decide_unpack _). by vm_compute.
  - intros a b Ha Hb. rewrite Forall_forall in HU. specialize (HU a Ha). rewrite Forall_forall in HU. auto.
  - intros o [->%list_elem_of_singleton|Ho]; [left|set_solver].
  - apply (bool_decide_unpack _). by vm_compute.
  - exists sent, shallows. split; [exact E|].
    assert (fst <$> compute_need_set get HashSha1 opts 9 [rs "c2"] ∅ = Some [rs "sha1:c2"; rs "sha1:t1"]) as E'
      by (by vm_compute).
    rewrite E in E'. injection E' as ->. split; [done|]. intros k Hk. by apply Hs.
Defined.

(** The depth grows at every object, not only at commits: fetched through an
    annotated tag, a depth of two sends one commit; fetched directly it sends two. *)
Theorem depth_counts_tag_objects :
  let get k := assoc k ((rs "sha1:a1", envelope_wrap KindTag (rs "object c2" ++ [NEWLINE])) :: sample_repo) in
  let opts := mkFetch (Some 2) ∅ None in
  let view := λ r : list rstr * gset rstr, (r.1, elements r.2) in
  view <$> compute_need_set get HashSha1 opts 9 [rs "a1"] ∅
  = Some ([rs "sha1:a1"; rs "sha1:c2"; rs "sha1:t1"], [rs "c2"]) ∧
  view <$> compute_need_set get HashSha1 opts 9 [rs "c2"] ∅
  = Some ([rs "sha1:c2"; rs "sha1:t1"; rs "sha1:c1"], [rs "c1"]).
Proof. by vm_compute. Qed.
