(* ===== verification/GitPack.v ===== *)
(** GitPack: packs, [kappa-module-git/src/packgen.rs] and the object half of
    [kappa-module-git/src/ingest.rs], on the in-memory store.

    A pack written from one store and ingested into another carries the objects
    over.  Reading the entries out of a pack and compressing are the crates'
    ([PackCrates]); the layout of a pack, which their law refers to, is written
    down independently of the module's encoders.  The writer is a byte vector and
    progress reports are not modelled; byte totals are counted without a width. *)

From S2P Require Import Prelude Label Compute Types Delta Merkle Epoch Identity Store MemStore MemTags MemEdge MemUpload.
From S2P Require Import Frame Http OciUpload GitDelta GitGraph.

Definition STREAMING_THRESHOLD : Z := 256 * 1024.
Definition UPLOAD_CHUNK_SIZE : Z := 64 * 1024.
Definition DELTA_WINDOW : nat := 10.

(** * The crates *)

(** [gix_pack::data::entry::Header]; a base is named by its raw object id. *)
Inductive PackHeader :=
| HBase (kind : Kind)
| HRefDelta (hk : HashKind) (base_id : bytes)
| HOfsDelta (base_distance : Z).

(** [gix_pack::data::input::Entry]. *)
Record PackEntry := mkPackEntry {
  pe_offset : Z;
  pe_header : PackHeader;
  pe_decompressed_size : Z;
  pe_compressed : option bytes;
}.

Class PackCrates `{HashCrates} := {
  (** [ZlibEncoder] over everything written; [ZlibDecoder::read_to_end]; the reads
      of a [ZlibDecoder] into a 64 KiB buffer up to the first empty one. *)
  zlib_compress : bytes → bytes;
  zlib_decompress : bytes → bytes + rstr;
  zlib_reads : bytes → list (bytes + rstr);
  (** [gix_hash::hasher] fed with bytes and finalized. *)
  gix_digest : HashKind → bytes → bytes + rstr;
  (** [BytesToEntriesIter] in verifying mode: an error of the header, or the items. *)
  pack_entries : HashKind → bytes → list (PackEntry + rstr) + rstr;
}.

(** ** The layout of a pack, as a reader decodes it *)

(** The size of an entry, little end first, from bit [shift] on. *)
Fixpoint read_size (shift acc : Z) (data : bytes) : option (Z * bytes) :=
  match data with
  | [] => None
  | b :: rest =>
      let acc := acc + Z.land (b2z b) 127 * 2 ^ shift in
      if Z.land (b2z b) 128 =? 0 then Some (acc, rest) else read_size (shift + 7) acc rest
  end.

(** Three bits of type and four of size in the first byte. *)
Definition read_entry_header (data : bytes) : option (Z * Z * bytes) :=
  match data with
  | [] => None
  | b :: rest =>
      let t := Z.land (b2z b / 16) 7 in
      let size := Z.land (b2z b) 15 in
      if Z.land (b2z b) 128 =? 0 then Some (t, size, rest)
      else '(size, rest) ← read_size 4 size rest; Some (t, size, rest)
  end.

Definition kind_type (k : Kind) : Z :=
  match k with KindCommit => 1 | KindTree => 2 | KindBlob => 3 | KindTag => 4 end.

(** The entries from offset [off] on and the bytes they lie in. *)
Inductive layout `{PackCrates} : Z → list PackEntry → bytes → Prop :=
| layout_nil off : layout off [] []
| layout_base off k hdr content es rest :
    (∀ tail, read_entry_header (hdr ++ tail) = Some (kind_type k, zlen content, tail)) →
    layout (off + zlen hdr + zlen (zlib_compress content)) es rest →
    layout off (mkPackEntry off (HBase k) (zlen content) (Some (zlib_compress content)) :: es)
      (hdr ++ zlib_compress content ++ rest)
| layout_ofs off dist hdr ofs delta es rest :
    (∀ tail, read_entry_header (hdr ++ tail) = Some (6, zlen delta, tail)) →
    (∀ tail, decode_ofs_delta_header (ofs ++ tail) = Some (dist, tail)) →
    layout (off + zlen hdr + zlen ofs + zlen (zlib_compress delta)) es rest →
    layout off (mkPackEntry off (HOfsDelta dist) (zlen delta) (Some (zlib_compress delta)) :: es)
      (hdr ++ ofs ++ zlib_compress delta ++ rest).

Definition pack_preamble (n : Z) (body : bytes) : bytes := rs "PACK" ++ to_be 4 2 ++ to_be 4 n ++ body.

(** Documented behaviour: decompression undoes compression, reading in pieces
    gives the same bytes in pieces that fit the buffer, digests are those of the
    hash, and the iterator yields the entries of a well-formed pack. *)
Class PackCratesLaws `{PackCrates} : Prop := {
  zlib_roundtrip : ∀ c, zlib_decompress (zlib_compress c) = inl c;
  zlib_reads_spec : ∀ c, ∃ chunks, zlib_reads (zlib_compress c) = inl <$> chunks ∧ concat chunks = c ∧
    Forall (λ ch, ch ≠ []) chunks;
  gix_digest_spec : ∀ hk c, hash_refused (hash_axis hk) c = false → gix_digest hk c = inl (digest_of (hash_axis hk) c);
  pack_entries_spec : ∀ hk es body, layout 12 es body → zlen es < 2 ^ 32 →
    let pre := pack_preamble (zlen es) body in
    hash_refused (hash_axis hk) pre = false →
    pack_entries hk (pre ++ digest_of (hash_axis hk) pre) = inl (inl <$> es);
}.

(** * Pack generation *)

Inductive PackGenError :=
| PGStore (e : StoreError)
| PGEnvelope (e : EnvelopeError)
| PGHash (msg : rstr).

Record PackGenerateResult := mkPackGen {
  objects_written : Z;
  bytes_written : Z;
}.

(** The loop over the remaining size; ten turns are enough for 64 bits. *)
Fixpoint entry_size_loop (fuel : nat) (size : Z) : bytes :=
  match fuel with
  | O => []
  | S fuel =>
      if 0 <? size then
        let byte := Z.land size 0x7F in
        let size := Z.shiftr size 7 in
        z2b (if 0 <? size then Z.lor byte 0x80 else byte) :: entry_size_loop fuel size
      else []
  end.

Definition encode_pack_entry_header (type_id size : Z) : bytes :=
  let first := Z.lor (Z.shiftl type_id 4) (Z.land size 0x0F) in
  let size := Z.shiftr size 4 in
  z2b (if 0 <? size then Z.lor first 0x80 else first) :: entry_size_loop 10 size.

Record PackObject := mkPackObject {
  po_kappa : rstr;
  po_kind : Kind;
  po_size : Z;
  po_name_hint : rstr;
}.

Definition kind_sort_key (k : Kind) : Z :=
  match k with KindCommit => 0 | KindTree => 1 | KindBlob => 2 | KindTag => 3 end.

(** [a] does not come after [b]: type, then name, then larger first. *)
Definition pack_object_le (a b : PackObject) : bool :=
  match Z.compare (kind_sort_key (po_kind a)) (kind_sort_key (po_kind b)) with
  | Lt => true
  | Gt => false
  | Eq =>
      if decide (po_name_hint a = po_name_hint b) then po_size b <=? po_size a
      else bytes_leb (po_name_hint a) (po_name_hint b)
  end.

Section generate.
Context `{GixCrates} `{!PackCrates} `{MemoryStoreConfig}.

Definition pack_object (s : store) (name_hints : gmap rstr rstr) (kappa : rstr) : option PackObject :=
  match blob_get kappa s with
  | Ok envelope =>
      match envelope_unwrap envelope with
      | Ok (kind, content) =>
          Some (mkPackObject kappa kind (zlen content) (default [] (name_hints !! kappa)))
      | _ => None
      end
  | _ => None
  end.

Definition sort_objects (s : store) (kappas : list rstr) (name_hints : gmap rstr rstr) : list PackObject :=
  sort_by pack_object_le (omap (pack_object s name_hints) kappas).

(** Recent objects, oldest first: kind, content and offset. *)
Definition window_t : Type := list (Kind * bytes * Z).

(** The candidates from the newest on; a later one must be strictly smaller. *)
Definition better_delta (kind : Kind) (content : bytes) (best : option (bytes * Z)) (w : Kind * bytes * Z)
  : option (bytes * Z) :=
  let '(w_kind, w_content, w_offset) := w in
  if decide (w_kind ≠ kind) then best
  else match git_compute_delta w_content content with
       | Some delta =>
           match best with
           | Some (prev, _) => if zlen delta <? zlen prev then Some (delta, w_offset) else best
           | None => Some (delta, w_offset)
           end
       | None => best
       end.

Definition best_delta (kind : Kind) (content : bytes) (window : window_t) : option (bytes * Z) :=
  if 32 <=? zlen content then fold_left (better_delta kind content) (rev window) None else None.

Definition push_window (window : window_t) (entry : Kind * bytes * Z) : window_t :=
  let window := window ++ [entry] in
  if (DELTA_WINDOW <? length window)%nat then tail window else window.

Definition write_full (kind : Kind) (content : bytes) : bytes :=
  encode_pack_entry_header (kind_type kind) (zlen content) ++ zlib_compress content.

Definition write_ofs_delta (delta : bytes) (distance : Z) : bytes :=
  encode_pack_entry_header 6 (zlen delta) ++ encode_ofs_delta_header distance ++ zlib_compress delta.

(** The bytes of one entry at [entry_offset]. *)
Definition write_object (kind : Kind) (content : bytes) (entry_offset : Z) (window : window_t) : bytes :=
  match best_delta kind content window with
  | Some (delta, base_offset) =>
      if zlen delta <? zlen content then write_ofs_delta delta (entry_offset - base_offset)
      else write_full kind content
  | None => write_full kind content
  end.

Fixpoint write_objects (objects : list PackObject) (out : bytes) (total_bytes : Z) (window : window_t) (s : store)
  : outcome PackGenError (bytes * Z) :=
  match objects with
  | [] => Ok (out, total_bytes)
  | obj :: objects =>
      let entry_offset := total_bytes in
      envelope ← map_err PGStore (blob_get (po_kappa obj) s);
      '(kind, content) ← map_err PGEnvelope (envelope_unwrap envelope);
      let entry := write_object kind content entry_offset window in
      write_objects objects (out ++ entry) (total_bytes + zlen entry)
        (push_window window (kind, content, entry_offset)) s
  end.

(** What the writer holds before the trailer, and the bytes counted. *)
Definition pack_text (s : store) (sorted : list PackObject) : outcome PackGenError (bytes * Z) :=
  write_objects sorted (pack_preamble (wrap 32 (zlen sorted)) []) 12 [] s.

Definition generate_pack_sorted (s : store) (object_kappas : list rstr) (object_hash : HashKind)
  (name_hints : gmap rstr rstr) : outcome PackGenError (bytes * PackGenerateResult) :=
  let sorted := sort_objects s object_kappas name_hints in
  '(out, total_bytes) ← pack_text s sorted;
  trailer ← match gix_digest object_hash out with inl d => Ok d | inr e => Err (PGHash e) end;
  Ok (out ++ trailer, mkPackGen (wrap 32 (zlen sorted)) (total_bytes + zlen trailer)).
End generate.

(** * Pack ingest *)

Inductive IngestError :=
| IPack (msg : rstr)
| IStore (e : StoreError)
| IEnvelope (e : EnvelopeError)
| IIo (msg : rstr)
| IDelta (msg : rstr).

Record PackIngestResult := mkPackIngest {
  objects_ingested : Z;
  objects_deduplicated : Z;
}.

(** An ingest reads and writes the store; what was stored before an error stays. *)
Definition IngestM (A : Type) : Type := store → store * outcome IngestError A.

#[export] Instance IngestM_ret : MRet IngestM := λ A a s, (s, Ok a).
#[export] Instance IngestM_bind : MBind IngestM := λ A B f m s,
  match m s with
  | (s', Ok a) => f a s'
  | (s', Err e) => (s', Err e)
  | (s', Panic) => (s', Panic)
  end.

Definition try_outcome {E A} (wrap_err : E → IngestError) (m : outcome E A) : IngestM A := λ s, (s, map_err wrap_err m).
Definition try_run {A} (m : M store A) : IngestM A := λ s, let '(s', r) := m s in (s', map_err IStore r).
Definition try_read {A} (f : store → outcome IngestError A) : IngestM A := λ s, (s, f s).

(** What the uploads of one ingest draw from outside: their identifiers and the
    readings of the monotonic clock, by upload and call. *)
Record UploadSource := mkUploadSource {
  up_id : nat → rstr;
  up_now : nat → nat → Z;
}.

Section ingest.
Context `{GixCrates} `{!PackCrates} `{TransferCrates} `{MemoryStoreConfig}.

Definition size_mismatch (got expected : Z) : IngestError :=
  IPack (rs "decompressed size mismatch: got " ++ dec got ++ rs ", expected " ++ dec expected).

Definition decompress_entry (compressed : bytes) (expected_size : Z) : outcome IngestError bytes :=
  match zlib_decompress compressed with
  | inl decompressed =>
      if decide (zlen decompressed ≠ expected_size) then Err (size_mismatch (zlen decompressed) expected_size)
      else Ok decompressed
  | inr e => Err (IIo e)
  end.

Definition compute_git_kappa (object_hash : HashKind) (kind : Kind) (content : bytes) : outcome IngestError rstr :=
  map_err IEnvelope (git_object_id object_hash kind content).

(** The reads of the decoder, each appended to the upload; the hasher is the
    bytes it was fed. *)
Fixpoint stream_parts (src : UploadSource) (i : nat) (call : nat) (upload_id : rstr) (reads : list (bytes + rstr))
  (offset total_decompressed : Z) (hashed : bytes) : IngestM (Z * bytes) :=
  match reads with
  | [] => mret (total_decompressed, hashed)
  | inr e :: _ => try_outcome id (Err (IIo e))
  | inl chunk :: reads =>
      total ← try_run (upload_put_part (up_now src i call) upload_id offset chunk);
      stream_parts src i (S call) upload_id reads total (total_decompressed + zlen chunk) (hashed ++ chunk)
  end.

Definition ingest_streaming (src : UploadSource) (i : nat) (namespace : NamespaceRef) (kind : Kind)
  (compressed : bytes) (decompressed_size : Z) (object_hash : HashKind) : IngestM rstr :=
  let header := loose_header kind decompressed_size in
  upload_id ← try_run (upload_begin (up_now src i 0) (up_id src i) namespace 0);
  offset ← try_run (upload_put_part (up_now src i 1) upload_id 0 header);
  '(total_decompressed, hashed) ← stream_parts src i 3 upload_id (zlib_reads compressed) offset 0 header;
  if decide (total_decompressed ≠ decompressed_size) then
    _ ← try_run (upload_abort upload_id);
    try_outcome id (Err (size_mismatch total_decompressed decompressed_size))
  else
    oid ← try_outcome id (match gix_digest object_hash hashed with
                          | inl d => Ok d
                          | inr e => Err (IPack (rs "hash finalize: " ++ e))
                          end);
    let kappa := axis_as_str (hash_axis object_hash) ++ COLON :: hex_encode oid in
    _ ← try_run (upload_complete (up_now src i 2) upload_id (Some kappa));
    mret kappa.

Definition no_compressed {A} (what : rstr) : IngestM A := try_outcome id (Err (IPack what)).

Definition resolve_delta (entry : PackEntry) (base_kappa : rstr) (object_hash : HashKind) : IngestM rstr :=
  match pe_compressed entry with
  | None => no_compressed (rs "delta has no compressed data")
  | Some compressed =>
      delta_data ← try_outcome id (decompress_entry compressed (pe_decompressed_size entry));
      base_envelope ← try_read (λ s,
        map_err (λ e, IDelta (rs "base " ++ base_kappa ++ rs " not found: " ++ store_error_str e)) (blob_get base_kappa s));
      '(base_kind, base_content) ← try_outcome IEnvelope (envelope_unwrap base_envelope);
      resolved ← try_outcome (λ e, match e with GitDeltaError m => IDelta m end) (git_apply_delta base_content delta_data);
      kappa ← try_outcome id (compute_git_kappa object_hash base_kind resolved);
      _ ← try_run (ingest_verified kappa (envelope_wrap base_kind resolved));
      mret kappa
  end.

(** A complete object; whether it counts as newly ingested. *)
Definition ingest_object (src : UploadSource) (i : nat) (namespace : NamespaceRef) (object_hash : HashKind)
  (kind : Kind) (entry : PackEntry) : IngestM (rstr * bool) :=
  match pe_compressed entry with
  | None => no_compressed (rs "entry has no compressed data")
  | Some compressed =>
      let decompressed_size := pe_decompressed_size entry in
      if STREAMING_THRESHOLD <? decompressed_size then
        kappa ← ingest_streaming src i namespace kind compressed decompressed_size object_hash;
        mret (kappa, true)
      else
        decompressed ← try_outcome id (decompress_entry compressed decompressed_size);
        kappa ← try_outcome id (compute_git_kappa object_hash kind decompressed);
        result ← try_run (ingest_verified kappa (envelope_wrap kind decompressed));
        mret (kappa, ir_newly_stored result)
  end.

(** A delta; the existence of its object is asked after it was stored. *)
Definition ingest_delta (entry : PackEntry) (base_kappa : rstr) (object_hash : HashKind) : IngestM (rstr * bool) :=
  kappa ← resolve_delta entry base_kappa object_hash;
  present ← try_read (λ s, match blob_exists kappa s with Ok b => Ok b | Err _ => Ok false | Panic => Panic end);
  mret (kappa, negb present).

Definition ofs_base (entry : PackEntry) (base_distance : Z) (offset_to_kappa : gmap Z rstr) : outcome IngestError rstr :=
  if pe_offset entry <? base_distance then
    Err (IDelta (rs "OFS_DELTA base_distance " ++ dec base_distance ++ rs " exceeds pack_offset " ++ dec (pe_offset entry)))
  else
    let base_offset := pe_offset entry - base_distance in
    ok_or (offset_to_kappa !! base_offset)
      (IDelta (rs "OFS_DELTA base at offset " ++ dec base_offset ++ rs " not in offset map")).

Definition ingest_entry (src : UploadSource) (i : nat) (namespace : NamespaceRef) (object_hash : HashKind)
  (entry : PackEntry) (offset_to_kappa : gmap Z rstr) : IngestM (rstr * bool) :=
  match pe_header entry with
  | HBase kind => ingest_object src i namespace object_hash kind entry
  | HRefDelta hk base_id =>
      ingest_delta entry (axis_as_str (hash_axis hk) ++ COLON :: hex_encode base_id) object_hash
  | HOfsDelta base_distance =>
      base_kappa ← try_outcome id (ofs_base entry base_distance offset_to_kappa);
      ingest_delta entry base_kappa object_hash
  end.

(** [i] numbers the entries, and so the uploads. *)
Fixpoint ingest_entries (src : UploadSource) (i : nat) (namespace : NamespaceRef) (object_hash : HashKind)
  (items : list (PackEntry + rstr)) (offset_to_kappa : gmap Z rstr) (ingested deduplicated : Z) : IngestM PackIngestResult :=
  match items with
  | [] => mret (mkPackIngest ingested deduplicated)
  | inr e :: _ => try_outcome id (Err (IPack e))
  | inl entry :: items =>
      '(kappa, new) ← ingest_entry src i namespace object_hash entry offset_to_kappa;
      ingest_entries src (S i) namespace object_hash items (<[pe_offset entry := kappa]> offset_to_kappa)
        (if new : bool then ingested + 1 else ingested) (if new then deduplicated else deduplicated + 1)
  end.

Definition ingest_pack (src : UploadSource) (namespace : NamespaceRef) (pack_stream : bytes) (object_hash : HashKind)
  : IngestM PackIngestResult :=
  match pack_entries object_hash pack_stream with
  | inr e => try_outcome id (Err (IPack e))
  | inl items => ingest_entries src 0 namespace object_hash items ∅ 0 0
  end.
End ingest.

(** * The entries of a generated pack *)

(** A byte below 128, with and without the continuation bit. *)
Lemma cont_byte x : 0 ≤ x < 128 →
  b2z (z2b x) = x ∧ Z.land x 128 = 0 ∧ b2z (z2b (Z.lor x 128)) = x + 128 ∧
  Z.land (x + 128) 128 = 128 ∧ Z.land (x + 128) 127 = x ∧ Z.land x 127 = x.
Proof.
  intros Hx. pose proof (forall_small 128 (λ x, (b2z (z2b x) =? x) && (Z.land x 128 =? 0) && (b2z (z2b (Z.lor x 128)) =? x + 128)
    && (Z.land (x + 128) 128 =? 128) && (Z.land (x + 128) 127 =? x) && (Z.land x 127 =? x)) eq_refl x Hx) as Hc.
  rewrite !andb_true_iff, !Z.eqb_eq in Hc. tauto.
Qed.

Lemma read_size_loop fuel size shift acc tail : 0 < size < 2 ^ (7 * Z.of_nat fuel) → 0 ≤ shift →
  read_size shift acc (entry_size_loop fuel size ++ tail) = Some (acc + size * 2 ^ shift, tail).
Proof.
  revert size shift acc. induction fuel as [|fuel IH]; intros size shift acc Hs Hsh; [cbn in Hs; lia|].
  cbn [entry_size_loop]. rewrite (proj2 (Z.ltb_lt _ _)) by lia. cbv zeta.
  change 0x7F with (Z.ones 7). rewrite Z.land_ones, Z.shiftr_div_pow2 by lia. change (2 ^ 7) with 128.
  pose proof (Z.mod_pos_bound size 128 ltac:(lia)) as Hm. pose proof (Z.div_mod size 128 ltac:(lia)) as Hdm.
  destruct (cont_byte (size mod 128) Hm) as (C1 & C2 & C3 & C4 & C5 & C6).
  destruct (Z.ltb_spec 0 (size / 128)) as [Hd|Hd]; cbn [app read_size]; cbv zeta.
  - rewrite C3, C4, C5. cbn [Z.eqb]. rewrite IH; [|split; [lia|]|lia].
    + f_equal. f_equal. rewrite Z.pow_add_r by lia. change (2 ^ 7) with 128. nia.
    + apply Z.div_lt_upper_bound; [lia|]. replace (128 * 2 ^ (7 * Z.of_nat fuel)) with (2 ^ (7 * Z.of_nat (S fuel))); [lia|].
      replace (7 * Z.of_nat (S fuel)) with (7 + 7 * Z.of_nat fuel) by lia. rewrite Z.pow_add_r by lia. done.
  - rewrite C1, C2, C6. cbn [Z.eqb].
    assert (size / 128 = 0) as E by (pose proof (Z.div_pos size 128); lia).
    rewrite E in Hdm. replace (size mod 128) with size by lia.
    replace (entry_size_loop fuel (size / 128)) with (@nil byte); [done|]. rewrite E. by destruct fuel.
Qed.

Lemma entry_header_roundtrip t size tail : 0 ≤ t < 8 → 0 ≤ size < 2 ^ 64 →
  read_entry_header (encode_pack_entry_header t size ++ tail) = Some (t, size, tail).
Proof.
  intros Ht Hs. unfold encode_pack_entry_header. cbv zeta.
  change 0x0F with (Z.ones 4). rewrite Z.land_ones, Z.shiftr_div_pow2, Z.shiftl_mul_pow2 by lia. change (2 ^ 4) with 16.
  pose proof (Z.mod_pos_bound size 16 ltac:(lia)) as Hm. pose proof (Z.div_mod size 16 ltac:(lia)) as Hdm.
  set (lo := size mod 16) in *.
  assert (∀ t lo, 0 ≤ t < 8 → 0 ≤ lo < 16 → Z.lor (t * 16) lo = t * 16 + lo) as Hor.
  { intros t' lo' ? ?. rewrite <- Z.add_lor_land. replace (Z.land (t' * 16) lo') with 0; [lia|]. symmetry.
    apply Z.bits_inj'. intros i Hi. rewrite Z.land_spec, Z.bits_0. change 16 with (2 ^ 4).
    destruct (Z.lt_ge_cases i 4).
    - rewrite Z.mul_pow2_bits_low by lia. done.
    - rewrite andb_comm. destruct (decide (lo' = 0)) as [->|]; [by rewrite Z.bits_0|].
      rewrite Z.bits_above_log2; [done|lia|]. apply Z.log2_lt_pow2; [lia|].
      assert (2 ^ 4 ≤ 2 ^ i) by (apply Z.pow_le_mono_r; lia). lia. }
  rewrite Hor by lia. set (x := t * 16 + lo).
  destruct (cont_byte x ltac:(lia)) as (C1 & C2 & C3 & C4 & C5 & C6).
  assert (Z.land (x / 16) 7 = t ∧ Z.land x 15 = lo ∧ Z.land ((x + 128) / 16) 7 = t ∧ Z.land (x + 128) 15 = lo) as (D1 & D2 & D3 & D4).
  { change 7 with (Z.ones 3). change 15 with (Z.ones 4). rewrite !Z.land_ones by lia. change (2 ^ 3) with 8. change (2 ^ 4) with 16.
    unfold x. repeat split; Z.div_mod_to_equations; lia. }
  destruct (Z.ltb_spec 0 (size / 16)) as [Hd|Hd]; cbn [app read_entry_header]; cbv zeta.
  - rewrite C3, C4, D3, D4. cbn [Z.eqb]. rewrite read_size_loop; [|split; [lia|]|lia].
    + cbn [mbind option_bind]. change (2 ^ 4) with 16. do 3 f_equal. lia.
    + apply Z.div_lt_upper_bound; [lia|]. transitivity (2 ^ 64); [lia|done].
  - rewrite C1, C2, D1, D2. cbn [Z.eqb]. assert (size / 16 = 0) as E by (pose proof (Z.div_pos size 16); lia). rewrite E in *.
    replace lo with size by lia. done.
Qed.

(** What the entries of a pack stand for, given the objects at earlier offsets:
    a reader's view of full objects and of deltas against an earlier entry. *)
Inductive unpacks `{PackCrates} : gmap Z (Kind * bytes) → list PackEntry → list (Kind * bytes) → Prop :=
| unpacks_nil m : unpacks m [] []
| unpacks_base m off k content es objs :
    unpacks (<[off := (k, content)]> m) es objs →
    unpacks m (mkPackEntry off (HBase k) (zlen content) (Some (zlib_compress content)) :: es) ((k, content) :: objs)
| unpacks_ofs m off dist k base delta target es objs :
    0 ≤ dist ≤ off → m !! (off - dist) = Some (k, base) → git_apply_delta base delta = Ok target →
    unpacks (<[off := (k, target)]> m) es objs →
    unpacks m (mkPackEntry off (HOfsDelta dist) (zlen delta) (Some (zlib_compress delta)) :: es) ((k, target) :: objs).

Section generated.
Context `{HashCratesLaws} `{!GixCrates} `{!GixCratesLaws} `{!PackCrates} `{!PackCratesLaws} `{MemoryStoreConfig}.

(** The window holds objects already written, before [off]. *)
Definition window_ok (m : gmap Z (Kind * bytes)) (off : Z) (window : window_t) : Prop :=
  ∀ k c o, (k, c, o) ∈ window → m !! o = Some (k, c) ∧ 0 ≤ o < off ∧ zlen c < 2 ^ 24.

Lemma window_push m off k c window next : window_ok m off window → 0 ≤ off < next → zlen c < 2 ^ 24 →
  window_ok (<[off := (k, c)]> m) next (push_window window (k, c, off)).
Proof.
  intros Hw Hn Hc k' c' o Hin.
  assert ((k', c', o) ∈ window ++ [(k, c, off)]) as Hin'.
  { unfold push_window in Hin. case_match; [|done]. destruct (window ++ [(k, c, off)]); [done|by right]. }
  apply elem_of_app in Hin' as [Ho|Ho].
  - destruct (Hw _ _ _ Ho) as (? & ? & ?). rewrite lookup_insert_ne by lia. split; [done|lia].
  - apply list_elem_of_singleton in Ho as [= -> -> ->]. rewrite lookup_insert_eq. split; [done|lia].
Qed.

Lemma best_delta_from kind content window delta base_offset :
  best_delta kind content window = Some (delta, base_offset) →
  ∃ c, (kind, c, base_offset) ∈ window ∧ git_compute_delta c content = Some delta.
Proof.
  unfold best_delta. case_match; [|done].
  assert (∀ ws best, (∀ d o, best = Some (d, o) → ∃ c, (kind, c, o) ∈ window ∧ git_compute_delta c content = Some d) →
    (∀ w, w ∈ ws → w ∈ window) →
    ∀ d o, fold_left (better_delta kind content) ws best = Some (d, o) →
    ∃ c, (kind, c, o) ∈ window ∧ git_compute_delta c content = Some d) as Hfold.
  { induction ws as [|[[wk wc] wo] ws IH]; intros best Hb Hws d o; cbn [fold_left]; [apply Hb|].
    apply IH; [|set_solver]. unfold better_delta. intros d' o'. case_decide as Hk; [apply Hb|].
    subst wk. destruct (git_compute_delta wc content) as [dl|] eqn:Ed; [|apply Hb].
    assert (∃ c, (kind, c, wo) ∈ window ∧ git_compute_delta c content = Some dl) as Hnew by (exists wc; set_solver).
    destruct best as [[pd po]|]; [case_match|]; try (by intros [= <- <-]); apply Hb. }
  apply Hfold; [done|]. intros w. by rewrite !list_elem_of_In, <- in_rev.
Qed.

(** One entry lays out as a reader expects and unpacks to its object. *)
Lemma write_object_layout kind content off window m es rest objs :
  window_ok m off window → 0 ≤ off ≤ isize_max → zlen content < 2 ^ 24 →
  let entry := write_object kind content off window in
  layout (off + zlen entry) es rest → unpacks (<[off := (kind, content)]> m) es objs →
  ∃ e, layout off (e :: es) (entry ++ rest) ∧ unpacks m (e :: es) ((kind, content) :: objs) ∧ 0 < zlen entry.
Proof.
  intros Hw Hoff Hc entry Hl Hu.
  assert (0 ≤ kind_type kind < 8) as Ht by (destruct kind; cbn; lia).
  assert (entry = write_full kind content → ∃ e, layout off (e :: es) (entry ++ rest) ∧
    unpacks m (e :: es) ((kind, content) :: objs) ∧ 0 < zlen entry) as Hfull.
  { intros ->. unfold write_full in *. eexists. rewrite <- app_assoc. split; [apply layout_base|split; [by apply unpacks_base|]].
    - intros tail. apply entry_header_roundtrip; [done|lia].
    - rewrite length_app, Nat2Z.inj_add, Z.add_assoc in Hl. exact Hl.
    - rewrite length_app. cbn. lia. }
  unfold entry, write_object in Hfull |- *. destruct (best_delta kind content window) as [[delta bo]|] eqn:Eb; [|auto].
  destruct (Z.ltb_spec (zlen delta) (zlen content)) as [Hsm|]; [|auto]. clear Hfull.
  destruct (best_delta_from _ _ _ _ _ Eb) as (c & Hin & Hd). destruct (Hw _ _ _ Hin) as (Hm & Ho & Hcc).
  assert (entry = write_ofs_delta delta (off - bo)) as E.
  { unfold entry, write_object. rewrite Eb. by rewrite (proj2 (Z.ltb_lt _ _)). }
  rewrite E in Hl. unfold write_ofs_delta in *. eexists. rewrite <- !app_assoc.
  split; [apply (layout_ofs off (off - bo))|split; [eapply (unpacks_ofs _ _ _ _ c)|]].
  - intros tail. apply entry_header_roundtrip; lia.
  - intros tail. apply ofs_header_roundtrip. unfold isize_max in Hoff. lia.
  - rewrite !length_app, !Nat2Z.inj_add, !Z.add_assoc in Hl. exact Hl.
  - lia.
  - by replace (off - (off - bo)) with bo by lia.
  - apply delta_replays; [split; lia|unfold isize_max; lia|by left].
  - done.
  - rewrite length_app. cbn. lia.
Qed.

(** Objects to write, with their kinds and contents. *)
Definition readable (s : store) (obj : PackObject) (kc : Kind * bytes) : Prop :=
  blob_get (po_kappa obj) s = Ok (envelope_wrap kc.1 kc.2) ∧ zlen kc.2 < 2 ^ 24.

Lemma write_objects_layout objects objs out total window m s :
  Forall2 (readable s) objects objs → window_ok m total window → 0 ≤ total →
  ∃ body, write_objects objects out total window s = Ok (out ++ body, total + zlen body) ∧ zlen objs ≤ zlen body ∧
    (total + zlen body ≤ isize_max → ∃ es, layout total es body ∧ unpacks m es objs ∧ length es = length objs).
Proof.
  intros Hall. revert out total window m. induction Hall as [|obj [k c] objects objs [Hget Hc] Hall IH];
    intros out total window m Hw Htot; cbn [write_objects].
  { exists []. rewrite app_nil_r. split; [by rewrite Z.add_0_r|]. split; [done|]. intros _. exists []. split_and!; constructor. }
  rewrite Hget. cbn [map_err mbind outcome_bind fst snd] in *. rewrite envelope_unwrap_wrap by (unfold u64_max; lia).
  cbn [map_err mbind outcome_bind]. cbv zeta. set (entry := write_object k c total window).
  assert (0 < zlen entry) as Hpos.
  { unfold entry, write_object, write_full, write_ofs_delta, encode_pack_entry_header.
    repeat case_match; cbn [app length]; lia. }
  destruct (IH (out ++ entry) (total + zlen entry) (push_window window (k, c, total)) (<[total := (k, c)]> m))
    as (body & E & Hn & Hes); [apply window_push; [done|lia|done]|lia|].
  exists (entry ++ body). rewrite E, <- app_assoc, length_app. split; [do 2 f_equal; lia|]. split; [cbn [length]; lia|]. intros Hle.
  destruct Hes as (es & Hl & Hu & Hlen); [lia|].
  destruct (write_object_layout k c total window m es body objs Hw ltac:(lia) Hc Hl Hu) as (e & Hl' & Hu' & _).
  exists (e :: es). split_and!; [done|done|]. cbn. lia.
Qed.
End generated.

(** * Ingesting what was generated *)

Lemma ibind_run {A B} (m : IngestM A) (f : A → IngestM B) s s1 a : m s = (s1, Ok a) → (m ≫= f) s = f a s1.
Proof. unfold mbind, IngestM_bind. by intros ->. Qed.

Lemma try_run_ok {A} (m : M store A) s s1 a : m s = (s1, Ok a) → try_run m s = (s1, Ok a).
Proof. unfold try_run. by intros ->. Qed.

Section ingesting.
Context `{HashCratesLaws} `{!GixCrates} `{!GixCratesLaws} `{!PackCrates} `{!PackCratesLaws} `{TransferCrates} `{MemoryStoreConfig}.

(** What storing [e] under its address of axis [a] does to the blobs: a content
    that was already there stays, other labels of the axis are left alone, and
    nothing is lost. *)
Record stores (a : Axis) (e : bytes) (s s' : store) : Prop := {
  st_fs : fs_ok (fs s');
  st_get : blob_get (kappa_text a e) s' = Ok (match blob_get (kappa_text a e) s with Ok c => c | _ => e end);
  st_other : ∀ hex, valid_digits a hex → label_text a hex ≠ kappa_text a e →
    blob_get (label_text a hex) s' = blob_get (label_text a hex) s;
  st_keep : ∀ c k, stored_under s c k → stored_under s' c k;
}.

Lemma mem_put_content a c s s' b :
  blob_put_verified (mkVerified (label_of a (digest_hex a c)) c) s = (s', Ok b) →
  blob_get (kappa_text a c) s' = Ok (match blob_get (kappa_text a c) s with Ok c' => c' | _ => c end).
Proof.
  cbn [blob_put_verified mem_blobs blob_get]. rewrite (mem_put_spec _ _ a) by done. cbn [vc_content].
  unfold mem_blob_get, kappa_text. rewrite blob_path_label by apply digest_hex_valid. osimpl.
  case_decide as E; intros [= <- _].
  - destruct E as [c' ->]. done.
  - apply eq_None_not_Some in E. rewrite E. cbn.
    rewrite write_atomically_lookup, decide_True by done || (intros E'; symmetry in E'; by eapply tmp_path_not_label, E'; apply digest_hex_valid).
    done.
Qed.

Lemma ingest_stores a c s : fs_ok (fs s) → hash_refused a c = false →
  ∃ f r, ingest_verified (kappa_text a c) c s = (set_fs f s, Ok r) ∧ stores a c s (set_fs f s).
Proof.
  intros Hfs Hr.
  destruct (ingest_verified_spec (St := store) a c s) as (s' & b & E & Hs' & _ & Hk); [exact Hfs|exact Hr|apply sha256_accepted|].
  pose proof (ingest_verified_frame _ _ _ _ _ E) as [f ->]. exists f. eexists. split; [exact E|].
  unfold ingest_verified in E. apply M_bind_ok in E as (s0 & v & Ev & E). unfold lift in Ev.
  assert (VerifiedContent_verify (kappa_text a c) c = Ok (mkVerified (label_of a (digest_hex a c)) c)) as Hv.
  { unfold VerifiedContent_verify. rewrite kappa_text_parse. osimpl. by rewrite (proj2 (verify_kappa_true _ _)) by eauto. }
  rewrite Hv in Ev. injection Ev as <- <-. set (v := mkVerified _ c) in *.
  apply M_bind_ok in E as (s0 & ax & Eax & E). unfold lift in Eax.
  assert (vc_axis v = Ok a) as Hax by apply label_axis_enum_of, digest_hex_valid. rewrite Hax in Eax. injection Eax as <- <-.
  apply M_bind_ok in E as (s0 & k & Ek & E). unfold lift in Ek.
  assert (vc_kappa v = Ok (kappa_text a c)) as Hkap by exact (verified_ok_kappa v a c eq_refl).
  rewrite Hkap in Ek. injection Ek as <- <-. apply M_bind_ok in E as (s1 & nb & Ep & E). apply M_bind_ok in E as (s2 & adds & Ea & E).
  injection E as Es2 _. rewrite Es2 in Ea. assert (verified_ok v) as Hvok by exact (mkVerified_ok a c Hr).
  assert (fs_ok (fs s1)) as Hfs1 by exact (put_inv (St := store) _ _ _ _ Hfs Hvok Ep).
  assert (∀ hex, valid_digits a hex → blob_get (label_text a hex) (set_fs f s) = blob_get (label_text a hex) s1) as Hadd.
  { intros hex Hd. cbn [mandatory_axes mem_blobs put_additional] in Ea. case_decide as Hsame.
    { injection Ea as -> _. done. }
    apply M_bind_ok in Ea as (s3 & v2 & Ev2 & Ea). unfold lift in Ev2. rewrite compute_verified in Ev2 by done.
    injection Ev2 as <- <-. apply M_bind_ok in Ea as (s3 & k2 & Ek2 & Ea). unfold lift in Ek2.
    set (v2 := mkVerified (label_of Sha256 (digest_hex Sha256 c)) c) in *. rewrite (verified_ok_kappa v2 Sha256 c eq_refl) in Ek2. injection Ek2 as <- <-.
    apply M_bind_ok in Ea as (s4 & b2 & Ep2 & Ea). injection Ea as Es4 _. rewrite Es4 in Ep2.
    eapply (put_get_other (St := store) v2); [exact Hfs1|exact (mkVerified_ok Sha256 c eq_refl)|exact Ep2|exact Hd|].
    rewrite (verified_ok_kappa v2 Sha256 c eq_refl). intros [= E']. unfold kappa_text in E'.
    apply label_text_inj in E' as [E' _]. congruence. }
  split; [exact Hs'| | |exact Hk].
  - unfold kappa_text at 1. rewrite Hadd by apply digest_hex_valid. exact (mem_put_content a c s s1 nb Ep).
  - intros hex Hd Hne. rewrite Hadd by done. eapply (put_get_other (St := store) v); [exact Hfs|exact Hvok|exact Ep|exact Hd|].
    rewrite Hkap. congruence.
Qed.

(** The readings of the clock fall before the sessions' timeouts. *)
Definition uploads_in_time (src : UploadSource) : Prop :=
  ∀ i call, expired (up_now src i call) (mkUpload [] [] 0 (up_now src i 0) []) = false.

Lemma stream_parts_run src i call id nsd chunks parts s tot hashed :
  uploads_in_time src → receiving id (up_now src i 0) 0 nsd parts s → zlen parts + zlen chunks ≤ u32_max →
  ∃ s', stream_parts src i call id (inl <$> chunks) (zlen (concat parts)) tot hashed s
        = (s', Ok (tot + zlen (concat chunks), hashed ++ concat chunks)) ∧
    receiving id (up_now src i 0) 0 nsd (parts ++ chunks) s' ∧ fs s' = fs s.
Proof.
  intros Ht. revert call parts s tot hashed. induction chunks as [|ch chunks IH]; intros call parts s tot hashed Hr Hn;
    cbn [fmap list_fmap stream_parts concat].
  { exists s. rewrite !app_nil_r, Z.add_0_r. done. }
  cbn [length] in Hn.
  destruct (put_part_run id _ 0 nsd parts s (up_now src i call) ch Hr (Ht i call) ltac:(lia) ltac:(lia)) as (session & E & Hr1).
  rewrite (ibind_run _ _ _ _ _ (try_run_ok _ _ _ _ E)).
  destruct (IH (S call) (parts ++ [ch]) _ (tot + zlen ch) (hashed ++ ch) Hr1) as (s' & E' & Hr' & Hf).
  { rewrite length_app. cbn [length]. lia. }
  exists s'. rewrite E'. rewrite <- app_assoc in Hr'. split_and!; [|exact Hr'|exact Hf].
  rewrite length_app, <- app_assoc. do 3 f_equal. lia.
Qed.

Lemma stores_fs a e s s0 s' : fs s0 = fs s → stores a e s0 s' → stores a e s s'.
Proof.
  intros E [Hok Hget Hoth Hkeep].
  assert (∀ k, blob_get k s0 = blob_get k s) as Hg by (intros k; cbn; unfold mem_blob_get; by rewrite E).
  split; [done|by rewrite <- Hg|intros; by rewrite <- Hg, Hoth|]. intros c k (a' & c' & -> & Hc & Hk). apply Hkeep. exists a', c'. by rewrite Hg.
Qed.

Lemma ingest_streaming_run src i ns hk k c s :
  uploads_in_time src → fs_ok (fs s) → zlen c < 2 ^ 24 → hash_refused (hash_axis hk) (envelope_wrap k c) = false →
  ∃ s', ingest_streaming src i ns k (zlib_compress c) (zlen c) hk s
        = (s', Ok (kappa_text (hash_axis hk) (envelope_wrap k c))) ∧
    stores (hash_axis hk) (envelope_wrap k c) s s'.
Proof.
  intros Ht Hfs Hc Hr. unfold ingest_streaming. set (header := loose_header k (zlen c)).
  set (s1 := set_uploads (<[up_id src i := mkUpload (ns_display ns) [] 0 (up_now src i 0) []]>) s).
  rewrite (ibind_run _ _ s s1 (up_id src i)) by done.
  assert (receiving (up_id src i) (up_now src i 0) 0 (ns_display ns) [] s1) as Hr1.
  { split. exists []. split; [cbn; by rewrite lookup_insert_eq|done]. }
  destruct (put_part_run _ _ _ _ _ _ (up_now src i 1) header Hr1 (Ht i 1%nat) ltac:(done) ltac:(lia)) as (session & E & Hr2).
  rewrite (ibind_run _ _ _ _ _ (try_run_ok _ _ _ _ E)). set (s2 := set_uploads _ s1) in *. cbn [app] in Hr2.
  destruct (zlib_reads_spec c) as (chunks & -> & Hcat & Hne).
  assert (zlen chunks ≤ zlen c) as Hlen.
  { rewrite <- Hcat. clear Hcat. induction Hne as [|ch l Hn _ IH]; [done|]. cbn [concat length]. rewrite length_app.
    destruct ch; [done|]. cbn [length]. lia. }
  destruct (stream_parts_run src i 3 (up_id src i) (ns_display ns) chunks [header] s2 0 header Ht Hr2) as (s3 & E3 & Hr3 & Hf3).
  { cbn [length]. unfold u32_max. lia. }
  rewrite (ibind_run _ _ _ _ _ E3). rewrite Hcat, Z.add_0_l, decide_False by lia. fold (envelope_wrap k c).
  assert (concat ([header] ++ chunks) = envelope_wrap k c) as Hparts by (cbn; by rewrite Hcat).
  rewrite gix_digest_spec by done. rewrite (ibind_run _ _ s3 s3 (digest_of (hash_axis hk) (envelope_wrap k c))) by done.
  cbv zeta. rewrite hex_encode_spec. fold (digest_hex (hash_axis hk) (envelope_wrap k c)).
  change (axis_as_str (hash_axis hk) ++ COLON :: digest_hex (hash_axis hk) (envelope_wrap k c)) with (kappa_text (hash_axis hk) (envelope_wrap k c)).
  pose proof (upload_complete_ingest _ _ _ _ _ _ (up_now src i 2) (hash_axis hk) Hr3 (Ht i 2%nat)) as Ec. rewrite Hparts in Ec.
  specialize (Ec Hr). set (s4 := set_uploads (delete (up_id src i)) s3) in *.
  assert (fs s4 = fs s) as Hf4 by (cbn; by rewrite Hf3).
  destruct (ingest_stores (hash_axis hk) (envelope_wrap k c) s4) as (f & r & Ei & Hst); [by rewrite Hf4|done|].
  rewrite Ei in Ec. rewrite (ibind_run _ _ _ _ _ (try_run_ok _ _ _ _ Ec)).
  exists (set_fs f s4). split; [done|]. by eapply stores_fs.
Qed.

Lemma ingest_object_run src i ns hk off k c s :
  uploads_in_time src → fs_ok (fs s) → zlen c < 2 ^ 24 → hash_refused (hash_axis hk) (envelope_wrap k c) = false →
  ∃ s' b, ingest_object src i ns hk k (mkPackEntry off (HBase k) (zlen c) (Some (zlib_compress c))) s
          = (s', Ok (kappa_text (hash_axis hk) (envelope_wrap k c), b)) ∧
    stores (hash_axis hk) (envelope_wrap k c) s s'.
Proof.
  intros Ht Hfs Hc Hr. unfold ingest_object. cbn [pe_compressed pe_decompressed_size]. cbv zeta. case_match.
  - destruct (ingest_streaming_run src i ns hk k c s Ht Hfs Hc Hr) as (s' & E & Hst).
    rewrite (ibind_run _ _ _ _ _ E). by exists s', true.
  - unfold decompress_entry. rewrite zlib_roundtrip, decide_False by auto.
    rewrite (ibind_run _ _ s s c) by done. unfold compute_git_kappa. rewrite git_object_id_text by done.
    rewrite (ibind_run _ _ s s (kappa_text (hash_axis hk) (envelope_wrap k c))) by done.
    destruct (ingest_stores (hash_axis hk) (envelope_wrap k c) s Hfs Hr) as (f & r & E & Hst).
    rewrite (ibind_run _ _ _ _ _ (try_run_ok _ _ _ _ E)). by exists (set_fs f s), (ir_newly_stored r).
Qed.

(** A delta whose base is stored; its object always counts as deduplicated. *)
Lemma ingest_delta_run hk off hdr k base delta target base_kappa s :
  fs_ok (fs s) → blob_get base_kappa s = Ok (envelope_wrap k base) → zlen base ≤ u64_max →
  git_apply_delta base delta = Ok target → hash_refused (hash_axis hk) (envelope_wrap k target) = false →
  ∃ s', ingest_delta (mkPackEntry off hdr (zlen delta) (Some (zlib_compress delta))) base_kappa hk s
          = (s', Ok (kappa_text (hash_axis hk) (envelope_wrap k target), false)) ∧
    stores (hash_axis hk) (envelope_wrap k target) s s'.
Proof.
  intros Hfs Hb Hlen Hd Hr. unfold ingest_delta, resolve_delta. cbn [pe_compressed pe_decompressed_size].
  destruct (ingest_stores (hash_axis hk) (envelope_wrap k target) s Hfs Hr) as (f & r & E & Hst).
  exists (set_fs f s). split; [|done]. set (kap := kappa_text _ _) in *.
  rewrite (ibind_run _ _ s (set_fs f s) kap).
  - rewrite (ibind_run _ _ _ (set_fs f s) true); [done|]. unfold try_read.
    pose proof (st_get _ _ _ _ Hst) as Hg. fold kap in Hg. cbn [blob_get mem_blobs] in Hg. unfold mem_blob_get in Hg. unfold blob_exists.
    destruct (blob_path kap) as [path| |]; osimpl; try done. cbn in Hg.
    unfold ok_or in Hg. case_match eqn:El; [|done]. by rewrite bool_decide_eq_true_2 by done.
  - unfold decompress_entry. rewrite zlib_roundtrip, decide_False by auto.
    rewrite (ibind_run _ _ s s delta), (ibind_run _ _ s s (envelope_wrap k base)) by (done || unfold try_read; by rewrite Hb).
    rewrite (ibind_run _ _ s s (k, base)) by (unfold try_outcome; by rewrite envelope_unwrap_wrap).
    rewrite (ibind_run _ _ s s target) by (unfold try_outcome; by rewrite Hd).
    rewrite (ibind_run _ _ s s kap) by (unfold try_outcome, compute_git_kappa; by rewrite git_object_id_text).
    by rewrite (ibind_run _ _ _ _ _ (try_run_ok _ _ _ _ E)).
Qed.

(** ** Ingesting the objects of one list *)

Definition object_kappa (hk : HashKind) (x : Kind * bytes) : rstr := kappa_text (hash_axis hk) (envelope_wrap x.1 x.2).

(** Objects of bounded size whose hashes are accepted and tell them apart. *)
Definition carriable (hk : HashKind) (all : list (Kind * bytes)) : Prop :=
  (∀ x, x ∈ all → zlen x.2 < 2 ^ 24 ∧ hash_refused (hash_axis hk) (envelope_wrap x.1 x.2) = false) ∧
  (∀ x y, x ∈ all → y ∈ all → object_kappa hk x = object_kappa hk y → envelope_wrap x.1 x.2 = envelope_wrap y.1 y.2).

(** The store holds nothing else under the addresses of the objects. *)
Definition unclashed (hk : HashKind) (all : list (Kind * bytes)) (s : store) : Prop :=
  fs_ok (fs s) ∧ ∀ x c, x ∈ all → blob_get (object_kappa hk x) s = Ok c → c = envelope_wrap x.1 x.2.

Definition held (hk : HashKind) (s : store) (x : Kind * bytes) : Prop :=
  blob_get (object_kappa hk x) s = Ok (envelope_wrap x.1 x.2).

Lemma stores_held hk all x s s' :
  carriable hk all → unclashed hk all s → x ∈ all → stores (hash_axis hk) (envelope_wrap x.1 x.2) s s' →
  unclashed hk all s' ∧ held hk s' x ∧ ∀ y, y ∈ all → held hk s y → held hk s' y.
Proof.
  intros [_ Hinj] [Hfs Hcl] Hx [Hfs' Hget Hoth _]. fold (object_kappa hk x) in Hget, Hoth.
  assert (held hk s' x) as Hhx.
  { unfold held. rewrite Hget. destruct (blob_get (object_kappa hk x) s) eqn:E; [|done|done]. f_equal. by apply Hcl. }
  assert (∀ y, y ∈ all → blob_get (object_kappa hk y) s' = blob_get (object_kappa hk y) s ∨ held hk s' y) as Hy.
  { intros y Hy. destruct (decide (object_kappa hk y = object_kappa hk x)) as [E|E].
    - right. unfold held. by rewrite E, Hhx, (Hinj x y).
    - left. unfold object_kappa, kappa_text. by rewrite Hoth by (apply digest_hex_valid || done). }
  split_and!; [split; [done|]|done|].
  - intros y c Hin Hg. destruct (Hy y Hin) as [E|E]; [rewrite E in Hg; by apply Hcl|]. unfold held in E. congruence.
  - intros y Hin Hh. unfold held in Hh |- *. destruct (Hy y Hin) as [E|E]; [by rewrite E|done].
Qed.

(** The offsets seen so far lead to stored objects. *)
Definition carried (hk : HashKind) (all : list (Kind * bytes)) (m : gmap Z (Kind * bytes)) (offs : gmap Z rstr) (s : store) : Prop :=
  ∀ off x, m !! off = Some x → x ∈ all ∧ offs !! off = Some (object_kappa hk x) ∧ held hk s x.

Lemma ingest_entry_run src i ns hk all m e es x objs offs s :
  uploads_in_time src → carriable hk all → unclashed hk all s → x ∈ all → carried hk all m offs s →
  unpacks m (e :: es) (x :: objs) →
  (∃ s' b, ingest_entry src i ns hk e offs s = (s', Ok (object_kappa hk x, b)) ∧ stores (hash_axis hk) (envelope_wrap x.1 x.2) s s') ∧
  unpacks (<[pe_offset e := x]> m) es objs.
Proof.
  intros Ht Hca [Hfs _] Hx Hm Hu. destruct (proj1 Hca x Hx) as [Hsz Hr].
  inversion Hu as [|? off k content ? ? Hu'|? off dist k base delta target ? ? Hdist Hb Hd Hu']; subst;
    cbn [fst snd pe_offset] in *; (split; [|done]); unfold ingest_entry; cbn [pe_header].
  - by apply ingest_object_run.
  - destruct (Hm _ _ Hb) as (Hin & Hoff & Hheld). destruct (proj1 Hca _ Hin) as [Hbs _]. cbn [fst snd] in *.
    rewrite (ibind_run _ _ s s (object_kappa hk (k, base))).
    2: { unfold try_outcome, ofs_base. cbn [pe_offset]. rewrite (proj2 (Z.ltb_ge _ _)) by lia. cbv zeta. by rewrite Hoff. }
    destruct (ingest_delta_run hk off (HOfsDelta dist) k base delta target (object_kappa hk (k, base)) s) as (s' & E & Hst);
      [done|done|unfold u64_max; lia|done|done|]. exists s', false. by rewrite E.
Qed.

Lemma ingest_entries_run src i ns hk all m es objs offs n d s :
  uploads_in_time src → carriable hk all → (∀ x, x ∈ objs → x ∈ all) → unclashed hk all s → carried hk all m offs s →
  unpacks m es objs →
  ∃ s' r, ingest_entries src i ns hk (inl <$> es) offs n d s = (s', Ok r) ∧ fs_ok (fs s') ∧
    Forall (held hk s') objs ∧ (∀ y, y ∈ all → held hk s y → held hk s' y) ∧
    (∀ c k, stored_under s c k → stored_under s' c k) ∧
    (∀ hex, valid_digits (hash_axis hk) hex → (∀ x, x ∈ all → label_text (hash_axis hk) hex ≠ object_kappa hk x) →
       blob_get (label_text (hash_axis hk) hex) s' = blob_get (label_text (hash_axis hk) hex) s) ∧
    objects_ingested r + objects_deduplicated r = n + d + zlen es.
Proof.
  intros Ht Hca. revert i m es offs n d s. induction objs as [|x objs IH]; intros i m es offs n d s Hin Hcl Hm Hu.
  { inversion Hu; subst. exists s, (mkPackIngest n d). split_and!; [done|apply Hcl|constructor|done|done|done|cbn; lia]. }
  assert (∃ e es', es = e :: es') as (e & es' & ->) by (inversion Hu; eauto).
  destruct (ingest_entry_run src i ns hk all m e es' x objs offs s Ht Hca Hcl ltac:(set_solver) Hm Hu) as ((s1 & b & E & Hst) & Hu').
  destruct (stores_held hk all x s s1 Hca Hcl ltac:(set_solver) Hst) as (Hcl1 & Hh1 & Hk1).
  cbn [fmap list_fmap ingest_entries]. rewrite (ibind_run _ _ _ _ _ E).
  destruct (IH (S i) (<[pe_offset e := x]> m) es' (<[pe_offset e := object_kappa hk x]> offs)
    (if b then n + 1 else n) (if b then d else d + 1) s1) as (s' & r & E' & Hfs' & Hh' & Hk' & Hst' & Hoth' & Hn);
    [set_solver|done| |done|].
  { intros off y. destruct (decide (off = pe_offset e)) as [->|Hne].
    - rewrite !lookup_insert_eq. intros [= <-]. split; [set_solver|done].
    - rewrite !lookup_insert_ne by done. intros Hy. destruct (Hm _ _ Hy) as (? & ? & ?). auto. }
  exists s', r. split_and!; [exact E'|done| |auto| | |].
  - constructor; [apply Hk'; [set_solver|done]|done].
  - intros c k Hs. by apply Hst', (st_keep _ _ _ _ Hst).
  - intros hex Hv Hne. rewrite Hoth' by done. apply (st_other _ _ _ _ Hst); [done|]. apply (Hne x). set_solver.
  - rewrite Hn. cbn [length]. destruct b; lia.
Qed.

(** * A pack carries its objects from one store to another *)

Lemma Forall_choose {A B} (Q : A → B → Prop) l : Forall (λ x, ∃ y, Q x y) l → ∃ ys, Forall2 Q l ys.
Proof. induction 1 as [|x l [y Hy] _ [ys IH]]; [by exists []|]. exists (y :: ys). by constructor. Qed.

(** A Git object under its own address, of a size the delta codec handles. *)
Definition git_blob (hk : HashKind) (s : store) (kappa : rstr) (x : Kind * bytes) : Prop :=
  kappa = object_kappa hk x ∧ held hk s x ∧ zlen x.2 < 2 ^ 24 ∧ hash_refused (hash_axis hk) (envelope_wrap x.1 x.2) = false.

Lemma sort_objects_git hk s kappas hints :
  Forall (λ kappa, ∃ x, git_blob hk s kappa x) kappas →
  ∃ objs, Forall2 (λ o x, git_blob hk s (po_kappa o) x ∧ po_kappa o ∈ kappas) (sort_objects s kappas hints) objs ∧
    length objs = length kappas ∧ ∀ kappa, kappa ∈ kappas → ∃ x, x ∈ objs ∧ git_blob hk s kappa x.
Proof.
  intros Hall. unfold sort_objects.
  assert (Forall2 (λ kappa o, po_kappa o = kappa ∧ ∃ x, git_blob hk s kappa x) kappas (omap (pack_object s hints) kappas)) as Hom.
  { induction Hall as [|kappa kappas [x (Hk & Hh & Hsz & Hr)] _ IH]; [constructor|]. cbn [omap list_omap].
    unfold pack_object at 1. subst kappa. rewrite Hh, envelope_unwrap_wrap by (unfold u64_max; lia).
    constructor; [|done]. split; [done|]. by exists x. }
  destruct (Forall_choose (λ o x, git_blob hk s (po_kappa o) x ∧ po_kappa o ∈ kappas) (sort_by pack_object_le (omap (pack_object s hints) kappas)))
    as [objs Hobjs].
  { apply Forall_forall. intros o Ho. rewrite elem_of_sort_by in Ho.
    apply list_elem_of_lookup in Ho as [j Hj]. destruct (Forall2_lookup_r _ _ _ _ _ Hom Hj) as (kappa & Hl & <- & x & Hx).
    exists x. split; [done|]. by eapply list_elem_of_lookup_2. }
  exists objs. split_and!; [done| |].
  - rewrite <- (Forall2_length _ _ _ Hobjs), length_sort_by. symmetry. by eapply Forall2_length.
  - intros kappa Hk. apply list_elem_of_lookup in Hk as [j Hj].
    destruct (Forall2_lookup_l _ _ _ _ _ Hom Hj) as (o & Ho & <- & _). apply list_elem_of_lookup_2 in Ho.
    rewrite <- elem_of_sort_by in Ho. apply list_elem_of_lookup in Ho as [j' Ho].
    destruct (Forall2_lookup_l _ _ _ _ _ Hobjs Ho) as (x & Hx & Hg & _). exists x. split; [by eapply list_elem_of_lookup_2|done].
Qed.

(** What the objects of a sender satisfy at a receiver that agrees with it. *)
Lemma git_objs_ready hk (sA sB : store) (kappas : list rstr) objs :
  fs_ok (fs sB) → (∀ x, x ∈ objs → git_blob hk sA (object_kappa hk x) x ∧ object_kappa hk x ∈ kappas) →
  (∀ kappa c, kappa ∈ kappas → blob_get kappa sB = Ok c → blob_get kappa sA = Ok c) →
  carriable hk objs ∧ unclashed hk objs sB.
Proof.
  intros Hfs Hin Hcompat. split; split; [| |done|].
  - intros x Hx. destruct (Hin x Hx) as ((_ & _ & ? & ?) & _). done.
  - intros x y Hx Hy E. destruct (Hin x Hx) as ((_ & Hhx & _) & _), (Hin y Hy) as ((_ & Hhy & _) & _).
    unfold held in Hhx, Hhy. rewrite E in Hhx. congruence.
  - intros x c Hx Hg. destruct (Hin x Hx) as ((_ & Hh & _) & Hk). specialize (Hcompat _ _ Hk Hg).
    unfold held in Hh. congruence.
Qed.

Lemma generated_length (s : store) kappas hk hints text n data r :
  pack_text s (sort_objects s kappas hints) = Ok (text, n) → hash_refused (hash_axis hk) text = false →
  generate_pack_sorted s kappas hk hints = Ok (data, r) → zlen data = zlen text + axis_digest_bytes (hash_axis hk).
Proof.
  unfold generate_pack_sorted. cbv zeta. intros -> Hr. cbn [mbind outcome_bind]. rewrite gix_digest_spec by done.
  intros [= <- _]. rewrite length_app, <- (digest_length (hash_axis hk) text). lia.
Qed.

(** The text of a pack is written without an error. *)
Lemma pack_text_written hk hints kappas (sA : store) :
  Forall (λ kappa, ∃ x, git_blob hk sA kappa x) kappas →
  ∃ text, pack_text sA (sort_objects sA kappas hints) = Ok (text, zlen text) ∧ 12 + zlen kappas ≤ zlen text.
Proof.
  intros Hall. destruct (sort_objects_git hk sA kappas hints Hall) as (objs & Hobjs & Hlen & _). unfold pack_text.
  set (sorted := sort_objects sA kappas hints) in *. set (pre := pack_preamble (wrap 32 (zlen sorted)) []).
  assert (zlen pre = 12) as Hpre by (unfold pre, pack_preamble; rewrite !length_app, !length_to_be; done).
  destruct (write_objects_layout sorted objs pre 12 [] ∅ sA) as (body & Ew & Hb & _).
  { eapply Forall2_impl; [exact Hobjs|]. intros o x ((Hk & Hh & Hsz & _) & _). split; [by rewrite Hk|done]. }
  { intros ??? Hbad. by apply not_elem_of_nil in Hbad. }
  { lia. }
  exists (pre ++ body). rewrite Ew, length_app. split; [do 2 f_equal; lia|lia].
Qed.

(** What is written is the pack of the objects, in the layout a reader expects. *)
Lemma pack_text_layout hk hints kappas (sA : store) text :
  Forall (λ kappa, ∃ x, git_blob hk sA kappa x) kappas → zlen kappas < 2 ^ 32 →
  pack_text sA (sort_objects sA kappas hints) = Ok (text, zlen text) → zlen text ≤ isize_max →
  ∃ objs es body, text = pack_preamble (zlen es) body ∧ layout 12 es body ∧ unpacks ∅ es objs ∧ length es = length kappas ∧
    (∀ x, x ∈ objs → git_blob hk sA (object_kappa hk x) x ∧ object_kappa hk x ∈ kappas) ∧
    ∀ kappa, kappa ∈ kappas → ∃ x, x ∈ objs ∧ git_blob hk sA kappa x.
Proof.
  intros Hall Hn. destruct (sort_objects_git hk sA kappas hints Hall) as (objs & Hobjs & Hlen & Hof). unfold pack_text.
  set (sorted := sort_objects sA kappas hints) in *. assert (zlen sorted = zlen kappas) as Hls.
  { rewrite (Forall2_length _ _ _ Hobjs). lia. }
  set (pre := pack_preamble (wrap 32 (zlen sorted)) []).
  assert (zlen pre = 12) as Hpre by (unfold pre, pack_preamble; rewrite !length_app, !length_to_be; done).
  destruct (write_objects_layout sorted objs pre 12 [] ∅ sA) as (body & Ew & _ & Hes).
  { eapply Forall2_impl; [exact Hobjs|]. intros o x ((Hk & Hh & Hsz & _) & _). split; [by rewrite Hk|done]. }
  { intros ??? Hbad. by apply not_elem_of_nil in Hbad. }
  { lia. }
  rewrite Ew. intros Et Hsz. assert (text = pre ++ body) as -> by congruence. rewrite length_app in Hsz. destruct Hes as (es & Hl & Hu & Hle); [lia|].
  exists objs, es, body. split_and!; [|done|done|lia| |done].
  - unfold pre, pack_preamble. rewrite <- !app_assoc. cbn [app]. do 3 f_equal.
    unfold wrap. rewrite Z.mod_small by lia. f_equal. lia.
  - intros x Hx. apply list_elem_of_lookup in Hx as [j Hj]. destruct (Forall2_lookup_r _ _ _ _ _ Hobjs Hj) as (o & _ & Hg & Hk).
    by rewrite <- (proj1 Hg).
Qed.

(** The transfer, for the text of a pack that is given. *)
Lemma pack_carries src ns hk hints kappas (sA sB : store) text :
  uploads_in_time src → fs_ok (fs sB) → Forall (λ kappa, ∃ x, git_blob hk sA kappa x) kappas →
  (∀ kappa c, kappa ∈ kappas → blob_get kappa sB = Ok c → blob_get kappa sA = Ok c) →
  pack_text sA (sort_objects sA kappas hints) = Ok (text, zlen text) →
  zlen kappas < 2 ^ 32 → hash_refused (hash_axis hk) text = false → zlen text ≤ isize_max →
  ∃ data r sB' ri, generate_pack_sorted sA kappas hk hints = Ok (data, r) ∧
    objects_written r = zlen kappas ∧ bytes_written r = zlen data ∧
    ingest_pack src ns data hk sB = (sB', Ok ri) ∧
    objects_ingested ri + objects_deduplicated ri = zlen kappas ∧
    (∀ kappa, kappa ∈ kappas → blob_get kappa sB' = blob_get kappa sA) ∧
    (∀ hex, valid_digits (hash_axis hk) hex → label_text (hash_axis hk) hex ∉ kappas →
       blob_get (label_text (hash_axis hk) hex) sB' = blob_get (label_text (hash_axis hk) hex) sB) ∧
    fs_ok (fs sB') ∧ ∀ c k, stored_under sB c k → stored_under sB' c k.
Proof.
  intros Ht HfsB Hall Hcompat Etext Hn Hr Hsz.
  destruct (pack_text_layout hk hints kappas sA text Hall Hn Etext Hsz) as (objs & es & body & -> & Hl & Hu & Hle & Hin & Hof).
  destruct (git_objs_ready hk sA sB kappas objs HfsB Hin Hcompat) as [Hca Hcl].
  destruct (ingest_entries_run src 0 ns hk objs ∅ es objs ∅ 0 0 sB) as (sB' & ri & Ei & Hfs' & Hheld & _ & Hkeep & Hoth & Hcnt);
    [done..|intros off x Hbad; by rewrite lookup_empty in Hbad|done|].
  assert (zlen (sort_objects sA kappas hints) = zlen kappas) as Hls.
  { destruct (sort_objects_git hk sA kappas hints Hall) as (objs' & Ho & Hl' & _). rewrite (Forall2_length _ _ _ Ho). lia. }
  do 2 eexists. exists sB', ri. split_and!.
  - unfold generate_pack_sorted. cbv zeta. rewrite Etext. cbn [mbind outcome_bind]. by rewrite gix_digest_spec.
  - cbn. unfold wrap. rewrite Z.mod_small; lia.
  - cbn. rewrite (length_app _ (digest_of _ _)). lia.
  - unfold ingest_pack. rewrite pack_entries_spec; [done|done|lia|done].
  - rewrite Hcnt. lia.
  - intros kappa Hk. destruct (Hof kappa Hk) as (x & Hx & -> & Hh & _).
    rewrite Forall_forall in Hheld. unfold held in *. by rewrite Hheld, Hh.
  - intros hex Hv Hnot. apply Hoth; [done|]. intros x Hx E. apply Hnot. rewrite E. apply (Hin x Hx).
  - done.
  - done.
Qed.

End ingesting.

(** * A concrete instance *)

(** A stand-in for zlib that marks every byte, and a reader of packs built on it. *)
Fixpoint sample_inflate (data : bytes) : option (bytes * bytes) :=
  match data with
  | x00 :: rest => Some ([], rest)
  | x01 :: b :: rest => '(c, rest) ← sample_inflate rest; Some (b :: c, rest)
  | _ => None
  end.

Definition sample_deflate (c : bytes) : bytes := foldr (λ b acc, x01 :: b :: acc) [x00] c.

Definition sample_kind (t : Z) : option Kind :=
  find (λ k, kind_type k =? t) [KindCommit; KindTree; KindBlob; KindTag].

Fixpoint sample_read_entries (fuel : nat) (off : Z) (data : bytes) : list (PackEntry + rstr) :=
  match fuel, data with
  | S fuel, _ :: _ =>
      match
        ('(t, size, rest) ← read_entry_header data;
         '(hdr, rest) ← match sample_kind t with
                        | Some k => Some (HBase k, rest)
                        | None => '(dist, rest) ← decode_ofs_delta_header rest; Some (HOfsDelta dist, rest)
                        end;
         '(content, rest) ← sample_inflate rest;
         Some (mkPackEntry off hdr size (Some (sample_deflate content)), rest))
      with
      | Some (e, rest) => inl e :: sample_read_entries fuel (off + zlen data - zlen rest) rest
      | None => [inr (rs "bad entry")]
      end
  | _, _ => []
  end.

#[export] Instance sample_pack_crates : PackCrates := {|
  zlib_compress := sample_deflate;
  zlib_decompress d := match sample_inflate d with Some (c, _) => inl c | None => inr (rs "corrupt") end;
  zlib_reads d := match sample_inflate d with
                  | Some ([], _) => []
                  | Some (c, _) => [inl c]
                  | None => [inr (rs "corrupt")]
                  end;
  gix_digest hk c := if hash_refused (hash_axis hk) c then inr (rs "collision") else inl (digest_of (hash_axis hk) c);
  pack_entries hk data :=
    let body := drop 12 (take (length data - Z.to_nat (axis_digest_bytes (hash_axis hk))) data) in
    inl (sample_read_entries (length body) 12 body);
|}.

Lemma sample_inflate_deflate c rest : sample_inflate (sample_deflate c ++ rest) = Some (c, rest).
Proof. induction c as [|b c IH]; [done|]. cbn [sample_deflate foldr app sample_inflate]. fold (sample_deflate c). by rewrite IH. Qed.

Lemma sample_read_layout off es body fuel : layout off es body → (length body ≤ fuel)%nat →
  sample_read_entries fuel off body = inl <$> es.
Proof.
  intros Hl. revert fuel.
  induction Hl as [off|off k hdr content es rest Hh _ IH|off dist hdr ofs delta es rest Hh Ho _ IH]; intros fuel Hf;
    [by destruct fuel|..];
    (destruct hdr as [|b hdr]; [by specialize (Hh [])|]); (destruct fuel as [|fuel]; [cbn in Hf; lia|]);
    cbn [sample_read_entries app]; rewrite ?app_comm_cons, Hh; cbn [mbind option_bind].
  - replace (sample_kind (kind_type k)) with (Some k) by (by destruct k). cbn [mbind option_bind].
    change (zlib_compress content) with (sample_deflate content) in *. rewrite sample_inflate_deflate. cbn [mbind option_bind fmap list_fmap].
    f_equal. rewrite <- (IH fuel) by (cbn in Hf; rewrite !length_app in Hf; lia). f_equal.
    rewrite !length_app. lia.
  - replace (sample_kind 6) with (@None Kind) by done. rewrite Ho. cbn [mbind option_bind].
    change (zlib_compress delta) with (sample_deflate delta) in *. rewrite sample_inflate_deflate. cbn [mbind option_bind fmap list_fmap].
    f_equal. rewrite <- (IH fuel) by (cbn in Hf; rewrite !length_app in Hf; lia). f_equal.
    rewrite !length_app. lia.
Qed.

#[export] Instance sample_pack_crates_laws : PackCratesLaws.
Proof.
  split.
  - intros c. cbn. by rewrite <- (app_nil_r (sample_deflate c)), sample_inflate_deflate.
  - intros c. cbn. rewrite <- (app_nil_r (sample_deflate c)), sample_inflate_deflate.
    destruct c as [|b c]; [by exists []|]. exists [b :: c]. split; [done|]. split; [cbn; by rewrite app_nil_r|by constructor].
  - intros hk c Hr. cbn [gix_digest sample_pack_crates]. by rewrite Hr.
  - intros hk es body Hl _ pre _. cbn [pack_entries sample_pack_crates]. f_equal.
    pose proof (digest_length (hash_axis hk) pre) as Hd. rewrite length_app.
    replace (length pre + length (digest_of (hash_axis hk) pre) - Z.to_nat (axis_digest_bytes (hash_axis hk)))%nat with (length pre) by lia.
    rewrite take_app_length. change (drop 12 pre) with body. by apply sample_read_layout.
Qed.

(** Two versions of one file, the second stored as a delta against the first. *)
Definition sample_blobs : list (Kind * bytes) :=
  [(KindBlob, rs "fn main() { println!(42); } // the first of two versions of the file");
   (KindBlob, rs "fn main() { println!(42); } // the first of two versions of the file, amended")].

Definition sample_sender : store :=
  fold_left (λ s x, (ingest_verified (object_kappa HashSha1 x) (envelope_wrap x.1 x.2) s).1) sample_blobs empty_store.

Definition sample_uploads : UploadSource := mkUploadSource (λ i, dec (Z.of_nat i)) (λ _ _, 0).

