(* ===== verification/GitProtocol.v ===== *)
(** GitProtocol: the smart-HTTP services of Git, [kappa-module-git/src/protocol.rs],
    with the hooks of [kappa-module-git/src/hooks.rs], on the in-memory store.

    Packet lines are framed and read by a crate ([PktCrates]); a response is the
    bytes written so far and an outcome, and what was written before an error stays
    written.  Hash sets are iterated in an order the model leaves open.  Progress
    callbacks of pack generation are not modelled beyond the messages they leave. *)

From S2P Require Import Prelude Label Compute Types Delta Merkle Epoch Identity Store MemStore MemTags MemEdge MemUpload Gc.
From S2P Require Import Frame Http OciUpload Text GitRefs GitDelta GitGraph GitPack.

(** * Packet lines *)

(** The two packets a reader may stop at. *)
Inductive Stop := StopFlush | StopDelim.

#[export] Instance Stop_eq_dec : EqDecision Stop.
Proof. solve_decision. Defined.

(** A line as read: data, another kind of packet, or a failure with its message. *)
Inductive PktItem :=
| PktData (data : bytes)
| PktOther
| PktFail (msg : rstr).

(** [gix_packetline]: writing a line of data and the two special packets, and
    reading lines up to a stop, with what is left after it. *)
Class PktCrates := {
  data_to_write : bytes → bytes + rstr;
  stop_to_write : Stop → bytes;
  read_lines : list Stop → bytes → list PktItem * bytes;
}.

Definition MAX_DATA_LEN : Z := 65516.

(** Documented behaviour: a line carries between one byte and [MAX_DATA_LEN] behind
    four bytes of length, the special packets are four bytes, and reading gives back
    the lines written. *)
Class PktCratesLaws `{PktCrates} : Prop := {
  data_length : ∀ d e, data_to_write d = inl e → zlen e = 4 + zlen d;
  stop_length : ∀ st, zlen (stop_to_write st) = 4;
  data_written : ∀ d, 1 ≤ zlen d ≤ MAX_DATA_LEN → ∃ e, data_to_write d = inl e;
  data_refused : ∀ d, zlen d = 0 ∨ MAX_DATA_LEN < zlen d → ∃ e, data_to_write d = inr e;
  read_back : ∀ stops stop ds es rest, stop ∈ stops →
    Forall2 (λ d e, data_to_write d = inl e) ds es →
    read_lines stops (concat es ++ stop_to_write stop ++ rest) = (PktData <$> ds, rest);
}.

(** Hash sets are iterated in an unspecified order. *)
Class HashIter := {
  set_iter : gset rstr → list rstr;
  set_iter_perm : ∀ X, set_iter X ≡ₚ elements X;
}.

Inductive ProtocolError :=
| PRef (e : RefError)
| PIngest (e : IngestError)
| PPackGen (e : PackGenError)
| PIo (msg : rstr)
| PProtocol (msg : rstr).

(** A writer: the bytes sent and an outcome. *)
Definition W (A : Type) : Type := bytes → bytes * outcome ProtocolError A.

#[export] Instance W_ret : MRet W := λ A a out, (out, Ok a).
#[export] Instance W_bind : MBind W := λ A B f m out,
  match m out with
  | (out', Ok a) => f a out'
  | (out', Err e) => (out', Err e)
  | (out', Panic) => (out', Panic)
  end.

Definition w_outcome {A} (m : outcome ProtocolError A) : W A := λ out, (out, m).

Fixpoint w_each {A} (f : A → W ()) (l : list A) : W () :=
  match l with
  | [] => mret ()
  | x :: l => _ ← f x; w_each f l
  end.

Section packets.
Context `{PktCrates}.

Definition data (d : bytes) : W () := λ out,
  match data_to_write d with inl e => (out ++ e, Ok ()) | inr m => (out, Err (PIo m)) end.

Definition stop (st : Stop) : W () := λ out, (out ++ stop_to_write st, Ok ()).

(** A packet inside a side-band channel. *)
Definition band (channel : byte) (d : bytes) : W () := data (channel :: d).
End packets.

Definition line (s : rstr) : bytes := s ++ [NEWLINE].

(** The text of a line, trimmed; [what] names it in the error. *)
Definition line_text (what : rstr) (item : PktItem) : outcome ProtocolError (option rstr) :=
  match item with
  | PktFail msg => Err (PProtocol msg)
  | PktOther => Ok None
  | PktData d => if utf8_valid d then Ok (Some (str_trim d)) else Err (PProtocol what)
  end.

(** A loop over the lines of a section; [f] says when to stop early. *)
Fixpoint fold_lines {A} (what : rstr) (f : A → rstr → A * bool) (items : list PktItem) (acc : A)
  : outcome ProtocolError A :=
  match items with
  | [] => Ok acc
  | item :: items =>
      text ← line_text what item;
      match text with
      | None => fold_lines what f items acc
      | Some t => let '(acc, stop) := f acc t in if stop : bool then Ok acc else fold_lines what f items acc
      end
  end.

(** [str::split_whitespace]: [cur] is the word being read. *)
Fixpoint words (fuel : nat) (cur s : rstr) : list rstr :=
  let word := if decide (cur = []) then [] else [cur] in
  match fuel with
  | O => word
  | S fuel =>
      match find (λ w, starts_with w s) WHITESPACE, s with
      | Some w, _ => word ++ words fuel [] (drop (length w) s)
      | None, [] => word
      | None, b :: s => words fuel (cur ++ [b]) s
      end
  end.

Definition split_whitespace (s : rstr) : list rstr := words (S (length s)) [] s.

(** [text.split('\0').next()]. *)
Definition before_nul (s : rstr) : rstr := match split_once x00 s with Some (a, _) => a | None => s end.

Definition parse_u32 (s : rstr) : option Z :=
  n ← parse_u64 s; if n <=? u32_max then Some n else None.

(** * Hooks *)

Record RefUpdate := mkRefUpdate {
  old_oid : rstr;
  new_oid : rstr;
  ref_name : rstr;
}.

Inductive HookError :=
| HookRejected (msg : rstr)
| HookTimeout (secs : Z)
| HookNotFound (name : rstr)
| HookExecutionFailed (msg : rstr)
| HookStore (e : StoreError).

(** How a script that was written to a file and started ends. *)
Inductive ScriptResult :=
| ScriptNotRun (msg : rstr)
| ScriptExited (success : bool) (status stderr : rstr)
| ScriptTimedOut
| ScriptWaitFailed (msg : rstr).

(** A process started with a script, the namespace in its environment, its
    standard input and a timeout. *)
Class HookRunner := { run_script : bytes → rstr → bytes → Z → ScriptResult }.

Definition hook_error_str (e : HookError) : rstr :=
  match e with
  | HookRejected msg => rs "hook rejected: " ++ msg
  | HookTimeout secs => rs "hook timed out after " ++ dec secs ++ rs " seconds"
  | HookNotFound name => rs "hook not found: " ++ name
  | HookExecutionFailed msg => rs "hook execution failed: " ++ msg
  | HookStore e => rs "store error: " ++ store_error_str e
  end.

Definition ref_error_str (e : RefError) : rstr :=
  match e with
  | RefStore e => rs "store error: " ++ store_error_str e
  | UpdateRejected expected actual => rs "ref update rejected: expected " ++ expected ++ rs ", actual " ++ actual
  | SymrefLoop name => rs "symbolic ref loop or depth exceeded for " ++ name
  | RefNotFound name => rs "ref not found: " ++ name
  end.

Section hooks.
Context `{HashCrates} `{MemoryStoreConfig} `{HookRunner}.

Definition hook_tag (hook_name : rstr) : rstr := rs "_hooks/" ++ hook_name.

Definition load_hook (ns : NamespaceRef) (hook_name : rstr) (s : store) : outcome HookError bytes :=
  entry ← map_err (λ _, HookNotFound hook_name) (tag_get ns (hook_tag hook_name) s);
  map_err HookStore (blob_get (te_kappa entry) s).

Definition hook_stdin (updates : list RefUpdate) : bytes :=
  concat ((λ u, line (old_oid u ++ x20 :: new_oid u ++ x20 :: ref_name u)) <$> updates).

Definition run_pre_receive (ns : NamespaceRef) (updates : list RefUpdate) (timeout_secs : Z) (s : store)
  : outcome HookError () :=
  match load_hook ns (rs "pre-receive") s with
  | Err (HookNotFound _) => Ok ()
  | Err e => Err e
  | Panic => Panic
  | Ok script =>
      match run_script script (ns_as_str ns) (hook_stdin updates) timeout_secs with
      | ScriptNotRun msg | ScriptWaitFailed msg => Err (HookExecutionFailed msg)
      | ScriptExited true _ _ => Ok ()
      | ScriptExited false status stderr =>
          Err (HookRejected (if decide (stderr = []) then rs "hook exited with status " ++ status else stderr))
      | ScriptTimedOut => Err (HookTimeout timeout_secs)
      end
  end.

Definition set_hook (ns : NamespaceRef) (hook_name : rstr) (script : bytes) : M store () :=
  let kappa := kappa_from_bytes script in
  _ ← ingest_verified kappa script;
  _ ← tag_set ns (hook_tag hook_name) kappa;
  mret ().

Definition delete_hook (ns : NamespaceRef) (hook_name : rstr) : M store () := tag_delete ns (hook_tag hook_name).
End hooks.

(** * What a walk over a store may take *)

Section walks.
Context `{GixCrates} `{MemoryStoreConfig}.

Definition blob_of (s : store) (k : rstr) : option bytes :=
  match blob_get k s with Ok e => Some e | _ => None end.

(** Enough turns for a walk from [n] roots: every stored object once with all its
    children. *)
Definition graph_fuel (hk : HashKind) (s : store) (n : nat) : nat :=
  let labels := match blob_list s with Ok ls => ls | _ => [] end in
  (n + sum_list ((λ k, length (children (blob_of s) hk k)) <$> labels))%nat.

(** [blob_exists(..).unwrap_or(false)]. *)
Definition has_blob (s : store) (k : rstr) : bool := match blob_exists k s with Ok b => b | _ => false end.
End walks.

(** * Push *)

Section push.
Context `{GixCrates} `{!PackCrates} `{TransferCrates} `{MemoryStoreConfig} `{PktCrates} `{HookRunner}.

Definition parse_commands (items : list PktItem) : outcome ProtocolError (list RefUpdate) :=
  fold_lines (rs "non-utf8 ref update") (λ acc text,
    (match split_whitespace (before_nul text) with
     | old :: new :: name :: _ => acc ++ [mkRefUpdate old new name]
     | _ => acc
     end, false)) items [].

Definition zero_oid (hk : HashKind) : rstr := replicate (hash_len hk * 2) x30.

(** The version a tag is expected to have: none for a creation; otherwise the
    version it has now. *)
Definition expected_version (ns : NamespaceRef) (hk : HashKind) (u : RefUpdate) (s : store) : option Z :=
  if decide (old_oid u = zero_oid hk) then Some 0
  else match tag_get ns (ref_name u) s with Ok entry => Some (te_version entry) | _ => Some 0 end.

Definition is_delete (hk : HashKind) (u : RefUpdate) : Prop := new_oid u = zero_oid hk.
#[export] Instance is_delete_dec hk u : Decision (is_delete hk u).
Proof. unfold is_delete. apply _. Defined.

Definition batch_of (ns : NamespaceRef) (hk : HashKind) (updates : list RefUpdate) (s : store) : list TagUpdate :=
  (λ u, mkTagUpdate (ref_name u) (hash_prefix hk ++ COLON :: new_oid u) (expected_version ns hk u s))
    <$> filter (λ u, ¬ is_delete hk u) updates.

Definition deletes_of (hk : HashKind) (updates : list RefUpdate) : list rstr :=
  ref_name <$> filter (is_delete hk) updates.

Definition HEAD : rstr := rs "HEAD".
Definition MAIN : rstr := rs "refs/heads/main".
Definition HEADS : rstr := rs "refs/heads/".

(** The branch HEAD of a new repository points at: main if it was pushed. *)
Definition default_branch (batch : list TagUpdate) : option rstr :=
  match find (λ n, bool_decide (n = MAIN)) (tu_name <$> batch) with
  | Some n => Some n
  | None => head (filter (λ n, starts_with HEADS n = true) (tu_name <$> batch))
  end.

(** A failure to set HEAD is only logged. *)
Definition set_default_head (ns : NamespaceRef) (batch : list TagUpdate) (s : store) : store * outcome RefError () :=
  match tag_get ns HEAD s with
  | Err (SNotFound _) =>
      match default_branch batch with
      | Some branch =>
          match set_symbolic_ref ns HEAD branch s with
          | (s', Panic) => (s', Panic)
          | (s', _) => (s', Ok ())
          end
      | None => (s, Ok ())
      end
  | _ => (s, Ok ())
  end.

(** The references that could not be deleted, with the reason. *)
Fixpoint delete_refs (ns : NamespaceRef) (names : list rstr) (s : store) : store * outcome RefError (list (rstr * rstr)) :=
  match names with
  | [] => (s, Ok [])
  | n :: names =>
      match delete_ref ns n s with
      | (s', Panic) => (s', Panic)
      | (s', r) =>
          let '(s'', errors) := delete_refs ns names s' in
          (s'', errors ≫= λ es, Ok (match r with Err e => (n, ref_error_str e) :: es | _ => es end))
      end
  end.

(** The status of one reference: the reason it failed, if it did. *)
Definition status_of (batch_result : outcome StoreError ()) (deletes : list rstr) (delete_errors : list (rstr * rstr))
  (name : rstr) : option rstr :=
  if decide (name ∈ deletes) then snd <$> find (λ p, bool_decide (p.1 = name)) delete_errors
  else match batch_result with Err e => Some (store_error_str e) | _ => None end.

(** Packets written to a buffer, sent as one packet of channel 1. *)
Definition nested (w : W ()) : W () := λ out,
  match w [] with
  | (inner, Ok _) => band x01 inner out
  | (_, Err e) => (out, Err e)
  | (_, Panic) => (out, Panic)
  end.

Definition forced_update (hk : HashKind) (u : RefUpdate) (s : store) : bool :=
  bool_decide (old_oid u ≠ zero_oid hk) && bool_decide (new_oid u ≠ zero_oid hk) &&
  bool_decide (oid_to_kappa_string hk (old_oid u)
    ∉ default ∅ (walk_reachable (blob_of s) hk (graph_fuel hk s 1) [new_oid u])).

Definition report_ref (hk : HashKind) (s : store) (status : rstr → option rstr) (u : RefUpdate) : W () :=
  let name := ref_name u in
  nested match status name with
         | Some err => data (line (rs "ng " ++ name ++ x20 :: err))
         | None =>
             _ ← data (line (rs "ok " ++ name));
             _ ← data (line (rs "option refname " ++ name));
             _ ← data (line (rs "option old-oid " ++ old_oid u));
             _ ← data (line (rs "option new-oid " ++ new_oid u));
             if forced_update hk u s then data (line (rs "option forced-update")) else mret ()
         end.

Definition report_status (hk : HashKind) (s : store) (status : rstr → option rstr) (updates : list RefUpdate) : W () :=
  _ ← nested (data (line (rs "unpack ok")));
  _ ← w_each (report_ref hk s status) updates;
  _ ← nested (stop StopFlush);
  stop StopFlush.

(** The answer to a push the hook declined. *)
Definition report_declined (updates : list RefUpdate) (rejection : rstr) : W () :=
  _ ← w_each (λ u, data (line (rs "ng " ++ ref_name u ++ rs " pre-receive hook declined: " ++ rejection))) updates;
  stop StopFlush.

Definition hook_rejection (r : outcome HookError ()) : outcome ProtocolError (option rstr) :=
  match r with
  | Ok _ => Ok None
  | Panic => Panic
  | Err (HookRejected msg) => Ok (Some msg)
  | Err (HookTimeout secs) => Ok (Some (rs "hook timed out after " ++ dec secs ++ rs "s"))
  | Err e => Ok (Some (hook_error_str e))
  end.

(** The references of an accepted push: the batch, HEAD of a new repository, then
    the deletions. *)
Definition update_refs (ns : NamespaceRef) (hk : HashKind) (updates : list RefUpdate) (s : store)
  : store * outcome RefError (outcome StoreError () * list (rstr * rstr)) :=
  let batch := batch_of ns hk updates s in
  match (if decide (batch = []) then (s, Ok ()) else tag_set_batch ns batch s) with
  | (s1, Panic) => (s1, Panic)
  | (s1, batch_result) =>
      match (match batch_result with Ok _ => set_default_head ns batch s1 | _ => (s1, Ok ()) end) with
      | (s2, Panic) => (s2, Panic)
      | (s2, _) =>
          let '(s3, errors) := delete_refs ns (deletes_of hk updates) s2 in
          (s3, errors ≫= λ es, Ok (batch_result, es))
      end
  end.

(** A response and the store after it; a panic sends nothing more. *)
Definition respond {E A} (wrap_err : E → ProtocolError) (r : store * outcome E A)
  (k : A → store → store * (bytes * outcome ProtocolError ())) : store * (bytes * outcome ProtocolError ()) :=
  match r with
  | (s, Ok a) => k a s
  | (s, Err e) => (s, ([], Err (wrap_err e)))
  | (s, Panic) => (s, ([], Panic))
  end.

Definition handle_receive_pack (src : UploadSource) (ns : NamespaceRef) (request : bytes) (hk : HashKind) (s : store)
  : store * (bytes * outcome ProtocolError ()) :=
  let '(items, rest) := read_lines [StopFlush] request in
  respond id (s, parse_commands items) (λ updates s,
  respond PIngest (ingest_pack src ns rest hk s) (λ _ s,
  respond id (s, hook_rejection (run_pre_receive ns updates 30 s)) (λ rejected s,
  match rejected with
  | Some rejection => (s, report_declined updates rejection [])
  | None =>
      respond PRef (update_refs ns hk updates s) (λ '(batch_result, delete_errors) s,
        (s, report_status hk s (status_of batch_result (deletes_of hk updates) delete_errors) updates []))
  end))).
End push.

(** * Advertisements *)

Section fetch.
Context `{GixCrates} `{!PackCrates} `{MemoryStoreConfig} `{PktCrates} `{HashIter}.

Definition object_format (hk : HashKind) : rstr := match hk with HashSha256 => rs "sha256" | HashSha1 => rs "sha1" end.

Definition capabilities (hk : HashKind) : rstr :=
  rs "multi_ack_detailed no-done side-band-64k thin-pack ofs-delta shallow filter report-status-v2 object-format="
  ++ object_format hk ++ rs " agent=kappa-registry".

(** A line for a reference; the first carries the capabilities. *)
Definition ref_line (hk : HashKind) (first : bool) (oid name : rstr) : bytes :=
  line (oid ++ x20 :: name ++ (if first then x00 :: capabilities hk else [])).

Definition PEELED : rstr := rs "^{}".

Fixpoint advertise_refs (hk : HashKind) (s : store) (first : bool) (refs : list (rstr * rstr)) : W () :=
  match refs with
  | [] => mret ()
  | (name, value) :: refs =>
      if starts_with SYMREF_PREFIX value then advertise_refs hk s first refs
      else
        _ ← data (ref_line hk first (kappa_to_hex_oid value) name);
        _ ← match peel_tag (blob_of s) name value with
            | Some peeled => data (line (peeled ++ x20 :: name ++ PEELED))
            | None => mret ()
            end;
        advertise_refs hk s false refs
  end.

Definition write_ref_advertisement (ns : NamespaceRef) (service : rstr) (hk : HashKind) (s : store) : W () :=
  _ ← data (line (rs "# service=" ++ service));
  _ ← stop StopFlush;
  all_refs ← w_outcome (map_err PRef (list_refs ns [] s));
  head_target ← w_outcome (map_err PRef (resolve_ref ns HEAD s));
  _ ← match head_target, all_refs with
      | None, [] => data (ref_line hk true (zero_oid hk) (rs "capabilities^{}"))
      | Some target, _ =>
          _ ← data (ref_line hk true (kappa_to_hex_oid target) HEAD);
          advertise_refs hk s false all_refs
      | None, _ => advertise_refs hk s true all_refs
      end;
  stop StopFlush.

Definition write_v2_capability_advertisement (hk : HashKind) : W () :=
  _ ← data (line (rs "version 2"));
  _ ← data (line (rs "agent=kappa-registry"));
  _ ← data (line (rs "ls-refs"));
  _ ← data (line (rs "fetch=shallow filter"));
  _ ← data (line (rs "object-format=" ++ object_format hk));
  stop StopFlush.

(** * Fetch *)

Definition parse_filter (spec : rstr) : option FilterSpec :=
  if decide (spec = rs "blob:none") then Some BlobNone
  else limit_str ← strip_prefix (rs "blob:limit=") spec; BlobLimit <$> parse_u64 limit_str.

Definition with_deepen (o : FetchOptions) (d : option Z) : FetchOptions :=
  match d with Some d => mkFetch (Some d) (client_shallows o) (fetch_filter o) | None => o end.
Definition with_filter (o : FetchOptions) (f : option FilterSpec) : FetchOptions :=
  match f with Some f => mkFetch (deepen o) (client_shallows o) (Some f) | None => o end.
Definition with_shallow (o : FetchOptions) (oid : rstr) : FetchOptions :=
  mkFetch (deepen o) ({[ oid ]} ∪ client_shallows o) (fetch_filter o).

Definition no_options : FetchOptions := mkFetch None ∅ None.

(** [rest.split_whitespace().next().unwrap_or(rest)]. *)
Definition first_word (rest : rstr) : rstr := default rest (head (split_whitespace rest)).

(** The first section of a version-1 request: what is wanted and how. *)
Definition want_line (acc : list rstr * FetchOptions) (text : rstr) : (list rstr * FetchOptions) * bool :=
  let '(wants, o) := acc in
  (match strip_prefix (rs "want ") text with
   | Some rest => (wants ++ [first_word rest], o)
   | None =>
   match strip_prefix (rs "deepen ") text with
   | Some rest => (wants, with_deepen o (parse_u32 (str_trim rest)))
   | None =>
   match strip_prefix (rs "shallow ") text with
   | Some rest => (wants, with_shallow o (str_trim rest))
   | None =>
   match strip_prefix (rs "filter ") text with
   | Some rest => (wants, with_filter o (parse_filter (str_trim rest)))
   | None => acc
   end end end end, false).

(** The second: what the client has, until it is done. *)
Definition have_line (acc : gset rstr * bool) (text : rstr) : (gset rstr * bool) * bool :=
  match strip_prefix (rs "have ") text with
  | Some rest => (({[ str_trim rest ]} ∪ acc.1, acc.2), false)
  | None => if decide (text = rs "done") then ((acc.1, true), true) else (acc, false)
  end.

(** The objects of the client that the server has too. *)
Definition common_of (hk : HashKind) (s : store) (haves : gset rstr) : gset rstr :=
  filter (λ oid, has_blob s (oid_to_kappa_string hk oid) = true) haves.

(** The objects to send; the fuel suffices for a well-formed store. *)
Definition need_of (hk : HashKind) (s : store) (opts : FetchOptions) (wants : list rstr) (common : gset rstr)
  : list rstr * gset rstr :=
  default ([], ∅)
    (compute_need_set (blob_of s) hk opts (graph_fuel hk s (length wants + size common)) wants common).

Definition CHUNK : nat := Z.to_nat (65519 - 1).

(** [pack_buf.chunks(chunk_size)]. *)
Fixpoint chunks (fuel n : nat) (l : bytes) : list bytes :=
  match fuel, l with
  | S fuel, _ :: _ => take n l :: chunks fuel n (drop n l)
  | _, _ => []
  end.

Definition send_pack (pack : bytes) : W () := w_each (band x01) (chunks (length pack) CHUNK pack).

Definition progress (msg : rstr) : W () := band x02 msg.

Definition compressed_msg (total : Z) : rstr :=
  line (rs "Compressing objects: 100% (" ++ dec total ++ x2f :: dec total ++ rs "), done.").

(** The message the callback leaves after each object: the product is computed on
    32 bits. *)
Definition progress_msg (total written : Z) : outcome ProtocolError rstr :=
  if u32_max <? written * 100 then Panic
  else let pct := if total =? 0 then 0 else written * 100 / total in
       Ok (rs "Compressing objects: " ++ dec pct ++ rs "% (" ++ dec written ++ x2f :: dec total ++ x29 :: [x0d]).

Definition acknowledge (common : gset rstr) (done : bool) : W () :=
  match set_iter common with
  | [] => data (line (rs "NAK"))
  | first :: _ =>
      _ ← w_each (λ oid, data (line (rs "ACK " ++ oid ++ rs " common"))) (set_iter common);
      if done then data (line (rs "ACK " ++ first)) else mret ()
  end.

Fixpoint progress_msgs (total : Z) (written : list Z) : outcome ProtocolError (list rstr) :=
  match written with
  | [] => Ok []
  | w :: written => msg ← progress_msg total w; msgs ← progress_msgs total written; Ok (msg :: msgs)
  end.

Definition handle_upload_pack (ns : NamespaceRef) (request : bytes) (hk : HashKind) (s : store) : W () :=
  let '(items, rest) := read_lines [StopFlush] request in
  '(wants, opts) ← w_outcome (fold_lines (rs "non-utf8 want line") want_line items ([], no_options));
  let '(items, _) := read_lines [StopFlush] rest in
  '(haves, done) ← w_outcome (fold_lines (rs "non-utf8 have line") have_line items (∅, false));
  if decide (wants = []) then
    _ ← data (line (rs "NAK"));
    stop StopFlush
  else
    let common := common_of hk s haves in
    _ ← acknowledge common done;
    let '(need_kappas, shallows) := need_of hk s opts wants common in
    _ ← w_each (λ oid, data (line (rs "shallow " ++ oid))) (set_iter shallows);
    _ ← w_each (λ oid, if has_blob s (oid_to_kappa_string hk oid) && bool_decide (oid ∉ shallows)
                       then data (line (rs "unshallow " ++ oid)) else mret ())
          (set_iter (client_shallows opts));
    let total := wrap 32 (zlen need_kappas) in
    _ ← progress (line (rs "Counting objects: " ++ dec total ++ rs ", done."));
    '(pack, r) ← w_outcome (map_err PPackGen (generate_pack_sorted s need_kappas hk ∅));
    msgs ← w_outcome (progress_msgs (objects_written r) (seqZ 1 (objects_written r)));
    _ ← w_each progress msgs;
    _ ← progress (compressed_msg total);
    _ ← send_pack pack;
    stop StopFlush.

(** ** Version 2 *)

Record LsRefs := mkLsRefs { ref_prefixes : list rstr; symrefs : bool; peel : bool }.

Definition ls_refs_line (a : LsRefs) (text : rstr) : LsRefs * bool :=
  (match strip_prefix (rs "ref-prefix ") text with
   | Some prefix => mkLsRefs (ref_prefixes a ++ [prefix]) (symrefs a) (peel a)
   | None =>
       if decide (text = rs "symrefs") then mkLsRefs (ref_prefixes a) true (peel a)
       else if decide (text = rs "peel") then mkLsRefs (ref_prefixes a) (symrefs a) true
       else a
   end, false).

Definition matches_prefix (a : LsRefs) (name : rstr) : bool :=
  bool_decide (ref_prefixes a = []) || existsb (λ p, starts_with p name) (ref_prefixes a).

(** What HEAD is a name for, when asked. *)
Definition symref_attr (ns : NamespaceRef) (a : LsRefs) (s : store) : rstr :=
  if symrefs a then
    match tag_get ns HEAD s with
    | Ok entry => if starts_with SYMREF_PREFIX (te_kappa entry)
                  then rs " symref-target:" ++ drop 5 (te_kappa entry) else []
    | _ => []
    end
  else [].

Definition list_one_ref (a : LsRefs) (s : store) (ref : rstr * rstr) : W () :=
  let '(name, value) := ref in
  if starts_with SYMREF_PREFIX value || negb (matches_prefix a name) then mret ()
  else
    let peeled := if peel a then peel_tag (blob_of s) name value else None in
    data (line (kappa_to_hex_oid value ++ x20 :: name
                ++ match peeled with Some p => rs " peeled:" ++ p | None => [] end)).

Definition ls_refs (ns : NamespaceRef) (items : list PktItem) (s : store) : W () :=
  a ← w_outcome (fold_lines (rs "non-utf8 arg") ls_refs_line items (mkLsRefs [] false false));
  all_refs ← w_outcome (map_err PRef (list_refs ns [] s));
  head_target ← w_outcome (map_err PRef (resolve_ref ns HEAD s));
  _ ← match head_target with
      | Some target =>
          if matches_prefix a HEAD
          then data (line (kappa_to_hex_oid target ++ x20 :: HEAD ++ symref_attr ns a s))
          else mret ()
      | None => mret ()
      end;
  _ ← w_each (list_one_ref a s) all_refs;
  stop StopFlush.

(** The arguments of a fetch before the delimiter. *)
Definition fetch_arg_line (acc : FetchOptions * bool) (text : rstr) : (FetchOptions * bool) * bool :=
  let '(o, no_progress) := acc in
  (if decide (text = rs "no-progress") then (o, true)
   else match strip_prefix (rs "deepen ") text with
   | Some rest => (with_deepen o (parse_u32 rest), no_progress)
   | None =>
   match strip_prefix (rs "filter ") text with
   | Some rest => (with_filter o (parse_filter rest), no_progress)
   | None => acc
   end end, false).

Record FetchLines := mkFetchLines { fl_wants : list rstr; fl_haves : gset rstr; fl_opts : FetchOptions }.

(** Wants and haves, until the client is done. *)
Definition fetch_line (acc : FetchLines) (text : rstr) : FetchLines * bool :=
  let '(mkFetchLines wants haves o) := acc in
  match strip_prefix (rs "want ") text with
  | Some rest => (mkFetchLines (wants ++ [first_word rest]) haves o, false)
  | None =>
  match strip_prefix (rs "have ") text with
  | Some rest => (mkFetchLines wants ({[ str_trim rest ]} ∪ haves) o, false)
  | None =>
  if decide (text = rs "done") then (acc, true)
  else match strip_prefix (rs "shallow ") text with
  | Some rest => (mkFetchLines wants haves (with_shallow o (str_trim rest)), false)
  | None => (acc, false)
  end end end.

Definition acknowledgments (haves common : gset rstr) : W () :=
  if decide (haves = ∅) then mret ()
  else
    _ ← data (line (rs "acknowledgments"));
    _ ← w_each (λ oid, if decide (oid ∈ common) then data (line (rs "ACK " ++ oid)) else mret ()) (set_iter haves);
    _ ← (if decide (common = ∅) then data (line (rs "NAK")) else mret ());
    _ ← data (line (rs "ready"));
    stop StopDelim.

Definition v2_fetch (args : list PktItem) (rest : bytes) (hk : HashKind) (s : store) : W () :=
  '(opts, no_progress) ← w_outcome (fold_lines (rs "non-utf8 arg") fetch_arg_line args (no_options, false));
  let '(items, _) := read_lines [StopFlush] rest in
  lines ← w_outcome (fold_lines (rs "non-utf8") fetch_line items (mkFetchLines [] ∅ opts));
  let '(mkFetchLines wants haves opts) := lines in
  if decide (wants = []) then
    _ ← data (line (rs "acknowledgments"));
    _ ← data (line (rs "NAK"));
    stop StopFlush
  else
    let common := common_of hk s haves in
    _ ← acknowledgments haves common;
    _ ← data (line (rs "packfile"));
    let '(need_kappas, shallows) := need_of hk s opts wants common in
    _ ← w_each (λ oid, band x01 (line (rs "shallow " ++ oid))) (set_iter shallows);
    '(pack, _) ← w_outcome (map_err PPackGen (generate_pack_sorted s need_kappas hk ∅));
    _ ← (if no_progress : bool then mret () else progress (compressed_msg (wrap 32 (zlen need_kappas))));
    _ ← send_pack pack;
    stop StopFlush.

(** The command is the first line of a section that may end at a delimiter. *)
Definition handle_v2_upload_pack (ns : NamespaceRef) (request : bytes) (hk : HashKind) (s : store) : W () :=
  let '(items, rest) := read_lines [StopFlush; StopDelim] request in
  command ← w_outcome (match items with
                       | [] => Ok []
                       | item :: _ => text ← line_text (rs "non-utf8 command") item; Ok (default [] text)
                       end);
  let args := tail items in
  if starts_with (rs "command=ls-refs") command then ls_refs ns args s
  else if starts_with (rs "command=fetch") command then v2_fetch args rest hk s
  else w_outcome (Err (PProtocol (rs "unknown v2 command: " ++ command))).
End fetch.

(** * What a writer sends *)

Section sends.
Context `{PktCratesLaws}.

(** The writer succeeds and sends these lines, whatever was sent before. *)
Definition sends (w : W ()) (ds : list bytes) : Prop :=
  ∀ out, ∃ es, Forall2 (λ d e, data_to_write d = inl e) ds es ∧ w out = (out ++ concat es, Ok ()).

Lemma sends_nothing : sends (mret ()) [].
Proof. intros out. exists []. split; [constructor|]. cbn. by rewrite app_nil_r. Qed.

Lemma sends_data d : 1 ≤ zlen d ≤ MAX_DATA_LEN → sends (data d) [d].
Proof.
  intros Hd out. destruct (data_written d Hd) as [e He]. exists [e]. split; [by repeat constructor|].
  unfold data. rewrite He. cbn [concat]. by rewrite app_nil_r.
Qed.

Lemma sends_bind {A} (w : W A) a (f : A → W ()) ds ds' :
  (∀ out, ∃ es, Forall2 (λ d e, data_to_write d = inl e) ds es ∧ w out = (out ++ concat es, Ok a)) →
  sends (f a) ds' → sends (w ≫= f) (ds ++ ds').
Proof.
  intros Hw Hf out. destruct (Hw out) as (es & He & E). unfold mbind, W_bind. rewrite E.
  destruct (Hf (out ++ concat es)) as (es' & He' & E'). exists (es ++ es'). split; [by apply Forall2_app|].
  rewrite E', <- app_assoc. by rewrite concat_app.
Qed.

Lemma sends_seq (w : W ()) (f : () → W ()) ds ds' : sends w ds → sends (f ()) ds' → sends (w ≫= f) (ds ++ ds').
Proof. intros Hw. by apply sends_bind. Qed.

Lemma sends_outcome {A} (m : outcome ProtocolError A) a (f : A → W ()) ds :
  m = Ok a → sends (f a) ds → sends (w_outcome m ≫= f) ds.
Proof.
  intros -> Hf. apply (sends_bind (w_outcome (Ok a)) a f [] ds); [|done].
  intros out. exists []. split; [constructor|]. cbn. by rewrite app_nil_r.
Qed.

Lemma sends_each {A} (f : A → W ()) (g : A → list bytes) l :
  Forall (λ x, sends (f x) (g x)) l → sends (w_each f l) (concat (g <$> l)).
Proof.
  induction 1 as [|x l Hx _ IH]; [apply sends_nothing|]. cbn [w_each fmap list_fmap concat]. by apply sends_seq.
Qed.

(** Lines ended by a packet the reader stops at are read back. *)
Lemma sends_then_stop w st ds stops out rest : sends w ds → st ∈ stops →
  ∃ bs, (_ ← w; stop st) out = (out ++ bs, Ok ()) ∧ read_lines stops (bs ++ rest) = (PktData <$> ds, rest).
Proof.
  intros Hw Hin. destruct (Hw out) as (es & He & E). exists (concat es ++ stop_to_write st).
  unfold mbind, W_bind. rewrite E. unfold stop. rewrite <- !app_assoc. split; [done|]. by apply read_back.
Qed.
End sends.

(** * Lines as text *)

(** A text that starts and ends with something visible, with or without a line end. *)
Lemma str_trim_line a s b : graphic a = true → graphic b = true →
  str_trim (a :: s ++ [b]) = a :: s ++ [b] ∧ str_trim (line (a :: s ++ [b])) = a :: s ++ [b].
Proof.
  intros Ha Hb. unfold str_trim, line.
  assert (∀ n t, str_trim_start n (a :: t) = a :: t) as Hst.
  { intros [|n] t; [done|]. cbn [str_trim_start]. by rewrite (proj1 (find_space_none a t Ha)). }
  cbn [app]. rewrite !Hst. split; [by apply (trim_end_graphic _ (a :: s))|].
  cbn [length str_trim_end].
  assert (find (λ w, ends_with w (a :: (s ++ [b]) ++ [NEWLINE])) WHITESPACE = Some [NEWLINE]) as ->.
  { cbn [find WHITESPACE].
    assert (∀ c t, (c ≠ NEWLINE) → ends_with [c] (t ++ [NEWLINE]) = false) as Hno.
    { intros c t Hc. apply bool_decide_eq_false_2. intros [k Hk]. by apply app_inj_tail in Hk as [_ [=]]. }
    change (a :: (s ++ [b]) ++ [NEWLINE]) with ((a :: s ++ [b]) ++ [NEWLINE]). rewrite Hno by done.
    replace (ends_with [x0a] ((a :: s ++ [b]) ++ [NEWLINE])) with true; [done|].
    symmetry. apply bool_decide_eq_true_2. by eexists. }
  change (a :: (s ++ [b]) ++ [NEWLINE]) with ((a :: s ++ [b]) ++ [NEWLINE]).
  replace (S (length ((s ++ [b]) ++ [NEWLINE])) - length [NEWLINE])%nat with (length (a :: s ++ [b])) by (rewrite length_app; cbn; lia).
  rewrite take_app_length. by apply (trim_end_graphic _ (a :: s)).
Qed.

Lemma words_graphic fuel cur s : forallb graphic s = true → (length s < fuel)%nat →
  words fuel cur s = if decide (cur ++ s = []) then [] else [cur ++ s].
Proof.
  revert cur s. induction fuel as [|fuel IH]; intros cur s Hs Hf; [lia|]. cbn [words]. destruct s as [|b s].
  - replace (find (λ w, starts_with w []) WHITESPACE) with (@None bytes) by (by vm_compute). by rewrite app_nil_r.
  - cbn [forallb] in Hs. apply andb_true_iff in Hs as [Hb Hs]. rewrite (proj1 (find_space_none b s Hb)).
    rewrite IH by (done || cbn in Hf; lia). by rewrite <- app_assoc.
Qed.

Lemma first_word_graphic s : forallb graphic s = true → first_word s = s.
Proof.
  intros Hs. unfold first_word, split_whitespace. rewrite words_graphic by (done || lia). cbn [app]. by case_decide; subst.
Qed.

(** * The walks end *)

Lemma sum_list_within {A} `{EqDecision A} (f : A → nat) (U V : list A) :
  NoDup U → (∀ x, x ∈ U → f x ≠ 0%nat → x ∈ V) → (sum_list (f <$> U) ≤ sum_list (f <$> V))%nat.
Proof.
  revert V. induction U as [|x U IH]; intros V Hnd Hin; [cbn; lia|]. apply NoDup_cons in Hnd as [Hx Hnd].
  cbn [fmap list_fmap sum_list].
  destruct (decide (f x = 0%nat)) as [E|E]; [rewrite E; apply IH; set_solver|].
  destruct (proj1 (elem_of_Permutation V x)) as [V' HV]; [apply Hin; set_solver|].
  assert (sum_list (f <$> V) = sum_list (f <$> x :: V')) as -> by (unfold sum_list; by rewrite HV).
  cbn [fmap list_fmap sum_list]. apply Nat.add_le_mono_l, IH; [done|]. intros y Hy Hf.
  assert (y ∈ V) as HyV by (apply Hin; [by right|done]). rewrite HV in HyV. apply elem_of_cons in HyV as [->|?]; [done|done].
Qed.

Section fuel.
Context `{HashCratesLaws} `{!GixCrates} `{MemoryStoreConfig}.

Lemma children_prefixed get hk a b : b ∈ children get hk a → ∃ o, b = oid_to_kappa_string hk o.
Proof.
  unfold children. destruct (get a) as [e|]; [|by intros ?%elem_of_nil]. unfold extract_children.
  assert (∀ rest, b ∈ named_child (hash_prefix hk) rest → ∃ o, b = oid_to_kappa_string hk o) as Hn.
  { intros rest. unfold named_child. case_match; [|by intros ?%elem_of_nil]. intros ->%list_elem_of_singleton. by eexists. }
  destruct (envelope_unwrap e) as [[[] c]| |]; try (by intros ?%elem_of_nil).
  - induction (split_on NEWLINE [] c) as [|l ls IH]; cbn [commit_children]; [by intros ?%elem_of_nil|].
    repeat case_match; try rewrite elem_of_app; try (by intros ?%elem_of_nil); intros Hb; destruct_or?; eauto.
  - generalize (length c). intros fuel. revert c. induction fuel as [|fuel IH]; intros c; cbn [tree_children];
      [by intros ?%elem_of_nil|]. case_match; [|by intros ?%elem_of_nil]. cbv zeta. case_match; [by intros ?%elem_of_nil|].
    intros [->|?]%elem_of_cons; [by eexists|eauto].
  - induction (split_on NEWLINE [] c) as [|l ls IH]; cbn [tag_children]; [by intros ?%elem_of_nil|].
    case_match; [|done]. rewrite elem_of_app. intros [?|?]; eauto.
Qed.

(** What can be read under a Git label is the content of that address. *)
Lemma git_label_read hk o s e : fs_ok (fs s) → blob_of s (oid_to_kappa_string hk o) = Some e →
  oid_to_kappa_string hk o = kappa_text (hash_axis hk) e ∧ blob_get (oid_to_kappa_string hk o) s = Ok e.
Proof.
  intros Hs. unfold blob_of. destruct (blob_get _ s) as [c| |] eqn:E; [|done..]. intros [= ->]. split; [|done].
  assert (oid_to_kappa_string hk o = label_text (hash_axis hk) o) as Hl by (by destruct hk). rewrite Hl in *.
  unfold kappa_text. f_equal. by apply (get_on_axis _ _ s).
Qed.

(** A finite graph around the labels a walk may meet, within the fuel. *)
Lemma graph_fuel_enough hk s roots n : fs_ok (fs s) → Forall (λ r, ∃ o, r = oid_to_kappa_string hk o) roots →
  ∃ U, NoDup U ∧ (∀ a b, a ∈ U → b ∈ children (blob_of s) hk a → b ∈ U) ∧ (∀ r, r ∈ roots → r ∈ U) ∧
    (n + sum_list ((λ k, length (children (blob_of s) hk k)) <$> U) ≤ graph_fuel hk s n)%nat.
Proof.
  intros Hs Hroots. unfold graph_fuel. destruct (blob_list_spec s Hs) as (ls & -> & _ & Hls).
  set (U := remove_dups (roots ++ concat (children (blob_of s) hk <$> ls))).
  assert (∀ a, a ∈ U → ∃ o, a = oid_to_kappa_string hk o) as Hpre.
  { intros a [Ha|Ha]%elem_of_remove_dups%elem_of_app.
    - rewrite Forall_forall in Hroots. auto.
    - apply list_elem_of_In, in_concat in Ha as (cs & Hcs & Ha). apply list_elem_of_In, list_elem_of_fmap in Hcs as (k & -> & _).
      apply list_elem_of_In in Ha. by eapply children_prefixed. }
  assert (∀ a, a ∈ U → children (blob_of s) hk a ≠ [] → a ∈ ls) as Hstored.
  { intros a Ha Hc. destruct (Hpre a Ha) as [o ->]. unfold children in Hc. destruct (blob_of s _) as [e|] eqn:E; [|done].
    destruct (git_label_read hk o s e Hs E) as [Hk Hg]. rewrite Hk in Hg |- *. apply Hls. eauto. }
  exists U. split_and!.
  - apply NoDup_remove_dups.
  - intros a b Ha Hb. apply elem_of_remove_dups, elem_of_app. right. apply list_elem_of_In, in_concat.
    exists (children (blob_of s) hk a). split; apply list_elem_of_In; [|done]. apply list_elem_of_fmap_2, Hstored; [done|].
    intros E. rewrite E in Hb. by apply elem_of_nil in Hb.
  - intros r Hr. apply elem_of_remove_dups, elem_of_app. by left.
  - apply Nat.add_le_mono_l, sum_list_within; [apply NoDup_remove_dups|]. intros x Hx Hf. apply Hstored; [done|].
    intros E. by rewrite E in Hf.
Qed.
End fuel.
