(* ===== verification/GitFetch.v ===== *)
(** GitFetch: what a fetch over the smart-HTTP protocol delivers.

    The request and the answer of [handle_upload_pack] are followed from the lines
    a client sends to the pack it reads off the side band, and the pack is ingested
    into the client's store. *)

From S2P Require Import Prelude Label Compute Types Delta Merkle Epoch Identity Store MemStore MemTags MemEdge MemUpload Gc.
From S2P Require Import Frame Http OciUpload Text GitRefs GitDelta GitGraph GitPack GitProtocol.

(** * Answers that end in a stop *)

Section answers.
Context `{PktCratesLaws}.

Definition sends_stop (w : W ()) (ds : list bytes) (st : Stop) : Prop :=
  ∀ out, ∃ es, Forall2 (λ d e, data_to_write d = inl e) ds es ∧ w out = (out ++ concat es ++ stop_to_write st, Ok ()).

Lemma sends_stop_here st : sends_stop (stop st) [] st.
Proof. intros out. exists []. split; [constructor|]. done. Qed.

Lemma sends_stop_seq (w : W ()) (f : () → W ()) ds ds' st :
  sends w ds → sends_stop (f ()) ds' st → sends_stop (w ≫= f) (ds ++ ds') st.
Proof.
  intros Hw Hf out. destruct (Hw out) as (es & He & E). unfold mbind, W_bind. rewrite E.
  destruct (Hf (out ++ concat es)) as (es' & He' & E'). exists (es ++ es'). split; [by apply Forall2_app|].
  rewrite E'. by rewrite concat_app, <- !app_assoc.
Qed.

Lemma sends_stop_read w ds st stops : sends_stop w ds st → st ∈ stops →
  ∃ bs, w [] = (bs, Ok ()) ∧ read_lines stops bs = (PktData <$> ds, []).
Proof.
  intros Hw Hin. destruct (Hw []) as (es & He & E). exists (concat es ++ stop_to_write st). split; [done|].
  rewrite <- (app_nil_r (stop_to_write st)). by apply read_back.
Qed.

(** The writer ends in an I/O error. *)
Definition breaks (w : W ()) : Prop := ∀ out, ∃ out' msg, w out = (out', Err (PIo msg)).

Lemma breaks_here (w : W ()) (f : () → W ()) : breaks w → breaks (w ≫= f).
Proof. intros Hw out. destruct (Hw out) as (out' & msg & E). exists out', msg. unfold mbind, W_bind. by rewrite E. Qed.

Lemma breaks_later (w : W ()) (f : () → W ()) ds : sends w ds → breaks (f ()) → breaks (w ≫= f).
Proof.
  intros Hw Hf out. destruct (Hw out) as (es & _ & E). destruct (Hf (out ++ concat es)) as (out' & msg & E').
  exists out', msg. unfold mbind, W_bind. by rewrite E.
Qed.

Lemma breaks_data d : MAX_DATA_LEN < zlen d → breaks (data d).
Proof.
  intros Hd out. destruct (data_refused d (or_intror Hd)) as [e E]. exists out, e. unfold data. by rewrite E.
Qed.

(** ** The pack on the side band *)

Definition demux (ds : list bytes) : bytes :=
  concat (omap (λ d, match d with x01 :: p => Some p | _ => None end) ds).

Lemma chunks_one n l fuel : l ≠ [] → (length l ≤ n)%nat → (0 < fuel)%nat → chunks fuel n l = [l].
Proof.
  intros Hl Hn Hf. destruct fuel as [|fuel]; [lia|]. destruct l as [|x l]; [done|]. cbn [chunks].
  rewrite take_ge, drop_ge by done. by destruct fuel.
Qed.

Lemma send_small_pack pack : 1 ≤ zlen pack ≤ MAX_DATA_LEN - 1 → sends (send_pack pack) [x01 :: pack].
Proof.
  intros Hp. unfold send_pack. unfold MAX_DATA_LEN in *. assert (pack ≠ []) by (intros ->; cbn in Hp; lia).
  rewrite chunks_one; [|done|unfold CHUNK; lia|lia]. cbn [w_each].
  apply (sends_seq (band x01 pack) _ [x01 :: pack] []); [|apply sends_nothing].
  apply sends_data. unfold MAX_DATA_LEN. cbn [length]. lia.
Qed.

(** A chunk of the size the code uses does not fit a line. *)
Lemma send_large_pack pack : MAX_DATA_LEN - 1 < zlen pack → breaks (send_pack pack).
Proof.
  intros Hp. unfold send_pack, MAX_DATA_LEN in *. destruct pack as [|b pack]; [cbn in Hp; lia|]. cbn [length chunks w_each].
  apply breaks_here, breaks_data. cbn [length]. rewrite length_take. cbn [length] in *. unfold MAX_DATA_LEN, CHUNK. lia.
Qed.
End answers.

(** * The lines of a request *)

Definition oid_text (hk : HashKind) (o : rstr) : Prop := valid_digits (hash_axis hk) o.

(** Capabilities after the first wanted object. *)
Definition caps_ok (caps : rstr) : Prop :=
  caps = [] ∨ ∃ c b, caps = x20 :: c ++ [b] ∧ graphic b = true ∧ forallb is_ascii c = true.

Definition want_text (w : rstr * rstr) : bytes := line (rs "want " ++ w.1 ++ w.2).
Definition have_text (o : rstr) : bytes := line (rs "have " ++ o).

Lemma hex_graphic b : is_lower_hex b = true → graphic b = true ∧ is_ascii b = true.
Proof. destruct b; done. Qed.

Lemma oid_graphic hk o : oid_text hk o → forallb graphic o = true ∧ forallb is_ascii o = true ∧ ∃ o' b, o = o' ++ [b] ∧ graphic b = true.
Proof.
  intros Hv. pose proof (valid_digits_len _ _ Hv) as Hlen. destruct Hv as [_ Hh]. rewrite forallb_forall in Hh. split_and!.
  - apply forallb_forall. intros b Hb. by apply hex_graphic, Hh.
  - apply forallb_forall. intros b Hb. by apply hex_graphic, Hh.
  - destruct o as [|b o _] using rev_ind; [cbn in Hlen; lia|]. exists o, b. split; [done|].
    apply hex_graphic, Hh, in_app_iff. right. by left.
Qed.

Lemma graphic_ascii b : graphic b = true → is_ascii b = true.
Proof. by destruct b. Qed.

(** A line of visible text, read back. *)
Lemma line_text_visible what a s b : graphic a = true → graphic b = true → forallb is_ascii s = true →
  line_text what (PktData (line (a :: s ++ [b]))) = Ok (Some (a :: s ++ [b])).
Proof.
  intros Ha Hb Hs. unfold line_text. rewrite utf8_valid_ascii; [by rewrite (proj2 (str_trim_line a s b Ha Hb))|].
  unfold line. cbn [app forallb]. rewrite (graphic_ascii a Ha), !forallb_app, Hs. cbn [forallb].
  by rewrite (graphic_ascii b Hb).
Qed.

Lemma words_first fuel cur o rest : forallb graphic o = true → (length o < fuel)%nat → cur ++ o ≠ [] →
  head (words fuel cur (o ++ x20 :: rest)) = Some (cur ++ o).
Proof.
  revert cur o. induction fuel as [|fuel IH]; intros cur o Ho Hf Hne; [lia|]. destruct o as [|b o]; cbn [app words].
  - rewrite app_nil_r in *.
    destruct (find (λ w, starts_with w (x20 :: rest)) WHITESPACE) as [w|] eqn:E; [by rewrite decide_False by done|].
    pose proof (find_none _ _ E [x20] ltac:(vm_compute; tauto)) as Hno. cbv beta in Hno. unfold starts_with in Hno.
    apply bool_decide_eq_false in Hno. destruct Hno. by exists rest.
  - cbn [forallb] in Ho. apply andb_true_iff in Ho as [Hb Ho]. rewrite (proj1 (find_space_none b _ Hb)).
    rewrite IH; [by rewrite <- app_assoc|done|cbn in Hf; lia|]. rewrite <- app_assoc. by destruct cur.
Qed.

Section parsing.
Context (hk : HashKind).

Lemma want_first_word o caps : oid_text hk o → caps_ok caps → first_word (o ++ caps) = o.
Proof.
  intros Ho Hc. destruct (oid_graphic hk o Ho) as (Hg & _ & o' & b & Eo & _). destruct Hc as [->|(c & d & -> & _)].
  - rewrite app_nil_r. by apply first_word_graphic.
  - unfold first_word, split_whitespace. rewrite words_first; [done|done|rewrite length_app; lia|]. subst. by destruct o'.
Qed.

Lemma want_text_read what o caps : oid_text hk o → caps_ok caps →
  line_text what (PktData (want_text (o, caps))) = Ok (Some (rs "want " ++ o ++ caps)).
Proof.
  intros Ho Hc. destruct (oid_graphic hk o Ho) as (_ & Ha & o' & b & -> & Hb). unfold want_text. cbn [fst snd].
  rewrite forallb_app in Ha. apply andb_true_iff in Ha as [Ha _].
  assert (∃ s d, rs "want " ++ (o' ++ [b]) ++ caps = x77 :: s ++ [d] ∧ graphic d = true ∧ forallb is_ascii s = true)
    as (s & d & -> & Hd & Hs); [|by apply line_text_visible].
  destruct Hc as [->|(c & d & -> & Hd & Hc)].
  - exists (rs "ant " ++ o'), b. rewrite app_nil_r, forallb_app, Ha. split; [|done]. by rewrite <- (app_assoc (rs "ant ")).
  - exists (rs "ant " ++ o' ++ [b] ++ x20 :: c), d. rewrite !forallb_app, Ha. cbn [forallb]. rewrite Hc, (graphic_ascii b Hb).
    split; [|done]. change (rs "want ") with (x77 :: rs "ant "). by rewrite <- !app_assoc.
Qed.

Lemma parse_wants what wants acc o :
  Forall (λ w, oid_text hk w.1 ∧ caps_ok w.2) wants →
  fold_lines what want_line (PktData <$> (want_text <$> wants)) (acc, o) = Ok (acc ++ wants.*1, o).
Proof.
  intros Hall. revert acc. induction Hall as [|[w caps] wants [Hw Hc] _ IH]; intros acc; cbn [fmap list_fmap fold_lines].
  { by rewrite app_nil_r. }
  rewrite want_text_read by done. cbn [mbind outcome_bind]. unfold want_line at 1.
  rewrite (proj2 (strip_prefix_Some (rs "want ") _ (w ++ caps))) by done. cbn [fst snd] in *. rewrite (want_first_word w caps) by done.
  rewrite IH. by rewrite <- app_assoc.
Qed.

Lemma have_text_read what o : oid_text hk o → line_text what (PktData (have_text o)) = Ok (Some (rs "have " ++ o)) ∧ str_trim o = o.
Proof.
  intros Ho. destruct (oid_graphic hk o Ho) as (Hg & Ha & o' & b & -> & Hb). pose proof (valid_digits_len _ _ Ho) as Hlen. split.
  - unfold have_text. rewrite forallb_app in Ha. apply andb_true_iff in Ha as [Ha _].
    replace (rs "have " ++ o' ++ [b]) with (x68 :: (rs "ave " ++ o') ++ [b]) by (by rewrite <- app_assoc).
    apply line_text_visible; [done|done|]. by rewrite forallb_app, Ha.
  - destruct o' as [|a o']; [cbn in Hlen; lia|]. cbn [app forallb] in Hg. apply andb_true_iff in Hg as [Hga _].
    by apply (str_trim_line a o' b).
Qed.

Definition DONE : bytes := line (rs "done").

Lemma parse_haves what haves trailing acc d :
  Forall (oid_text hk) haves →
  fold_lines what have_line ((PktData <$> (have_text <$> haves)) ++ PktData DONE :: trailing) (acc, d)
  = Ok (list_to_set haves ∪ acc, true).
Proof.
  intros Hall. revert acc d. induction Hall as [|o haves Ho _ IH]; intros acc d.
  - cbn [fmap list_fmap fold_lines app]. replace (line_text what (PktData DONE)) with (Ok (E := ProtocolError) (Some (rs "done"))) by (by vm_compute).
    cbn [mbind outcome_bind]. unfold have_line. replace (strip_prefix (rs "have ") (rs "done")) with (@None rstr) by (by vm_compute).
    cbn [list_to_set]. by rewrite decide_True, union_empty_l_L by done.
  - cbn [fmap list_fmap fold_lines app]. destruct (have_text_read what o Ho) as [-> Ht]. cbn [mbind outcome_bind]. unfold have_line at 1.
    rewrite (proj2 (strip_prefix_Some (rs "have ") _ o)) by done. rewrite Ht. cbn [fst snd]. rewrite IH. f_equal. f_equal.
    cbn [list_to_set]. set_solver.
Qed.
End parsing.

Lemma length_rs_cons c s : length (rs (String c s)) = S (length (rs s)).
Proof. done. Qed.

(** Numbers of at most [k] digits. *)
Lemma pretty_go_length k x s : (Z.of_N x < 10 ^ Z.of_nat k) → (length (rs (pretty_N_go x s)) ≤ k + length (rs s))%nat.
Proof.
  revert x s. induction k as [|k IH]; intros x s Hx.
  { replace x with 0%N by (cbn in Hx; lia). by rewrite pretty_N_go_0. }
  destruct (decide (x = 0)%N) as [->|Hne]; [rewrite pretty_N_go_0; lia|]. rewrite pretty_N_go_step by lia.
  etrans; [apply IH|rewrite length_rs_cons; lia]. rewrite N2Z.inj_div. apply Z.div_lt_upper_bound; [lia|].
  rewrite Nat2Z.inj_succ, Z.pow_succ_r in Hx by lia. done.
Qed.

Lemma dec_short n : 0 ≤ n ≤ u64_max → 1 ≤ zlen (dec n) ≤ 20.
Proof.
  intros Hn. unfold dec. destruct n as [|p|p]; [done| |lia]. change (pretty (Z.pos p)) with (pretty_N (N.pos p)). unfold pretty_N.
  rewrite decide_False by done. unfold u64_max in Hn. pose proof (pretty_go_length 20 (N.pos p) EmptyString ltac:(lia)) as Hl.
  split; [|change (length (rs EmptyString)) with 0%nat in Hl; lia]. rewrite pretty_N_go_step by done.
  assert (∀ x s, (length (rs s) ≤ length (rs (pretty_N_go x s)))%nat) as Hge.
  { intros x. induction (N.lt_wf_0 x) as [x _ IH]. intros s. destruct (decide (x = 0)%N) as [->|]; [by rewrite pretty_N_go_0|].
    rewrite pretty_N_go_step by lia. etrans; [|apply IH, N.div_lt; lia]. rewrite length_rs_cons. lia. }
  specialize (Hge (N.pos p `div` 10)%N (String (pretty_N_char (N.pos p `mod` 10)) EmptyString)).
  rewrite length_rs_cons in Hge. lia.
Qed.

(** The length of a text made of literals and numbers. *)
Ltac count_bytes :=
  repeat match goal with |- context [dec ?n] => generalize dependent (dec n); intros end;
  repeat first [rewrite length_app | progress cbn [length]]; cbn; lia.

(** * The answer to a fetch *)

Section quiet.
Context `{PktCratesLaws}.

(** Lines that carry no pack data. *)
Definition quietly (w : W ()) : Prop := ∃ ds, sends w ds ∧ Forall (λ d, head d ≠ Some x01) ds.

Lemma quiet_nothing : quietly (mret ()).
Proof. exists []. split; [apply sends_nothing|constructor]. Qed.

Lemma quiet_data d : 1 ≤ zlen d ≤ MAX_DATA_LEN → head d ≠ Some x01 → quietly (data d).
Proof. intros Hd Hh. exists [d]. split; [by apply sends_data|by repeat constructor]. Qed.

Lemma quiet_seq (w : W ()) (f : () → W ()) : quietly w → quietly (f ()) → quietly (w ≫= f).
Proof. intros (ds & Hw & Hq) (ds' & Hf & Hq'). exists (ds ++ ds'). split; [by apply sends_seq|by apply Forall_app]. Qed.

Lemma quiet_each {A} (f : A → W ()) l : (∀ x, x ∈ l → quietly (f x)) → quietly (w_each f l).
Proof.
  induction l as [|x l IH]; intros Hf; [apply quiet_nothing|]. cbn [w_each]. apply quiet_seq; [apply Hf; by left|].
  apply IH. intros y Hy. apply Hf. by right.
Qed.

Lemma demux_quiet ds ds' : Forall (λ d, head d ≠ Some x01) ds → demux (ds ++ ds') = demux ds'.
Proof.
  intros Hq. unfold demux. induction Hq as [|d ds Hd _ IH]; [done|]. cbn [app omap list_omap].
  destruct d as [|b d]; [exact IH|]. assert (b ≠ x01) by (intros ->; done). by destruct b.
Qed.

(** The answer ends with a flush and its side band carries [p]. *)
Definition delivers (w : W ()) (p : bytes) : Prop := ∃ ds, sends_stop w ds StopFlush ∧ demux ds = p.

Lemma quiet_delivers (w : W ()) (f : () → W ()) p : quietly w → delivers (f ()) p → delivers (w ≫= f) p.
Proof.
  intros (ds & Hw & Hq) (ds' & Hf & <-). exists (ds ++ ds'). split; [by apply sends_stop_seq|by apply demux_quiet].
Qed.

Lemma quiet_breaks (w : W ()) (f : () → W ()) : quietly w → breaks (f ()) → breaks (w ≫= f).
Proof. intros (ds & Hw & _). by apply breaks_later with ds. Qed.

Lemma pack_delivers pack : 1 ≤ zlen pack ≤ MAX_DATA_LEN - 1 → delivers (_ ← send_pack pack; stop StopFlush) pack.
Proof.
  intros Hp. exists ([x01 :: pack] ++ []). split; [|cbn; by rewrite app_nil_r].
  apply sends_stop_seq; [by apply send_small_pack|apply sends_stop_here].
Qed.
End quiet.

Section answer.
Context `{HashCratesLaws} `{!GixCrates} `{!GixCratesLaws} `{!PackCrates} `{!PackCratesLaws} `{TransferCrates} `{MemoryStoreConfig}.
Context `{PktCratesLaws} `{HashIter}.

(** The request of a client: objects it wants, objects it has, and the end. *)
Definition asks_for (hk : HashKind) (request : bytes) (wants : list (rstr * rstr)) (haves : list rstr) : Prop :=
  Forall (λ w, oid_text hk w.1 ∧ caps_ok w.2) wants ∧ Forall (oid_text hk) haves ∧ wants ≠ [] ∧
  ∃ rest trailing, read_lines [StopFlush] request = (PktData <$> (want_text <$> wants), rest) ∧
    (read_lines [StopFlush] rest).1 = (PktData <$> (have_text <$> haves)) ++ PktData DONE :: trailing.

Lemma oid_text_length hk o : oid_text hk o → zlen o ≤ 64.
Proof. intros [Hl _]. rewrite Hl. by destruct hk. Qed.

Lemma quiet_line s : zlen s ≤ 60000 → head (line s) ≠ Some x01 → quietly (data (line s)).
Proof. intros Hs Hh. apply quiet_data; [|done]. unfold line, MAX_DATA_LEN. rewrite length_app. cbn [length]. lia. Qed.

Lemma acknowledge_quiet hk common done : (∀ o, o ∈ common → oid_text hk o) → quietly (acknowledge common done).
Proof.
  intros Ho. unfold acknowledge. assert (∀ o, o ∈ set_iter common → zlen o ≤ 64) as Hs.
  { intros o Hin. apply (oid_text_length hk), Ho. rewrite set_iter_perm in Hin. by apply elem_of_elements. }
  destruct (set_iter common) as [|o l] eqn:El; [by apply quiet_line|]. apply quiet_seq.
  - apply quiet_each. intros o' Ho'. apply quiet_line; [|done]. rewrite !length_app. cbn. specialize (Hs o' Ho'). lia.
  - destruct done; [|apply quiet_nothing]. apply quiet_line; [|done]. rewrite length_app. cbn.
    specialize (Hs o ltac:(by left)). lia.
Qed.

Lemma quiet_progress msg : 0 ≤ zlen msg ≤ 60000 → quietly (progress msg).
Proof. intros Hm. apply quiet_data; [|done]. unfold MAX_DATA_LEN. cbn [length]. lia. Qed.

Lemma progress_msgs_quiet total ws : 0 ≤ total ≤ u32_max → Forall (λ w, 0 ≤ w ∧ w * 100 ≤ u32_max) ws →
  ∃ msgs, progress_msgs total ws = Ok msgs ∧ Forall (λ m, quietly (progress m)) msgs.
Proof.
  intros Ht. induction 1 as [|w ws Hw _ (msgs & E & Hq)]; [by exists []|]. cbn [progress_msgs]. unfold progress_msg.
  rewrite (proj2 (Z.ltb_ge _ _)) by lia. cbv zeta. cbn [mbind outcome_bind]. rewrite E. eexists. split; [done|].
  constructor; [|done]. apply quiet_progress. set (pct := if total =? 0 then 0 else w * 100 / total).
  assert (0 ≤ pct ≤ u32_max) as Hp.
  { unfold pct. destruct (Z.eqb_spec total 0); [unfold u32_max; lia|]. split; [apply Z.div_pos; lia|].
    etrans; [|apply Hw]. apply Z.div_le_upper_bound; nia. }
  unfold u32_max in *. pose proof (dec_short pct ltac:(unfold u64_max; lia)). pose proof (dec_short w ltac:(unfold u64_max; lia)).
  pose proof (dec_short total ltac:(unfold u64_max; lia)).
  count_bytes.
Qed.

Lemma compressed_quiet total : 0 ≤ total ≤ u32_max → quietly (progress (compressed_msg total)).
Proof.
  intros Ht. unfold u32_max in Ht. pose proof (dec_short total ltac:(unfold u64_max; lia)). apply quiet_progress. unfold compressed_msg, line. count_bytes.
Qed.

Lemma w_ok_bind {A B} (a : A) (f : A → W B) : w_outcome (Ok a) ≫= f = f a.
Proof. done. Qed.

(** The lines before the pack carry no data; then the pack follows and a flush,
    or the pack does not fit its line. *)
Lemma upload_answer ns request hk s wants haves pack r :
  asks_for hk request wants haves →
  let common := common_of hk s (list_to_set haves) in
  let need := need_of hk s no_options wants.*1 common in
  need.2 = ∅ → generate_pack_sorted s need.1 hk ∅ = Ok (pack, r) → objects_written r = zlen need.1 →
  zlen need.1 * 100 ≤ u32_max →
  (1 ≤ zlen pack ≤ MAX_DATA_LEN - 1 → delivers (handle_upload_pack ns request hk s) pack) ∧
  (MAX_DATA_LEN - 1 < zlen pack → breaks (handle_upload_pack ns request hk s)).
Proof.
  intros (Hw & Hh & Hne & rest & trailing & E1 & E2) common need Hsh Eg Er Hn.
  destruct (read_lines [StopFlush] rest) as [items2 rest2] eqn:Erest. cbn [fst] in E2. subst items2.
  destruct (progress_msgs_quiet (objects_written r) (seqZ 1 (objects_written r))) as (msgs & Em & Hq).
  { rewrite Er. unfold u32_max in *. lia. }
  { apply Forall_forall. intros w Hin%elem_of_seqZ. lia. }
  assert (∀ P : W () → Prop,
    (∀ (w : W ()) (f : () → W ()), quietly w → P (f ()) → P (w ≫= f)) → P (_ ← send_pack pack; stop StopFlush) →
    P (handle_upload_pack ns request hk s)) as Hskip.
  { intros P Hseq Hpack. unfold handle_upload_pack. rewrite E1, (parse_wants hk), w_ok_bind by done. cbn [app].
    rewrite Erest, (parse_haves hk), w_ok_bind, union_empty_r_L, decide_False by (done || by destruct wants).
    fold common. cbv zeta. change (need_of hk s no_options wants.*1 common) with need. destruct need as [sent shallows].
    cbn [fst snd] in *. subst shallows. rewrite Eg. cbn [map_err]. rewrite w_ok_bind, Em.
    assert (set_iter ∅ = []) as Hempty by (apply Permutation_nil_r; by rewrite set_iter_perm, elements_empty).
    cbn [client_shallows no_options]. rewrite Hempty.
    assert (0 ≤ wrap 32 (zlen sent) ≤ u32_max) as Htot.
    { unfold wrap, u32_max. pose proof (Z.mod_pos_bound (zlen sent) (2 ^ 32) ltac:(lia)). lia. }
    apply Hseq. { apply (acknowledge_quiet hk). intros o [_ Ho%elem_of_list_to_set]%elem_of_filter. rewrite Forall_forall in Hh. auto. }
    do 2 (apply Hseq; [apply quiet_nothing|]).
    apply Hseq. { apply quiet_progress. unfold line. unfold u32_max in Htot. pose proof (dec_short (wrap 32 (zlen sent)) ltac:(unfold u64_max; lia)). count_bytes. }
    rewrite !w_ok_bind. apply Hseq. { apply quiet_each. by apply Forall_forall. }
    apply Hseq; [by apply compressed_quiet|done]. }
  split; intros Hp; apply Hskip.
  - intros w f. apply quiet_delivers.
  - by apply pack_delivers.
  - apply quiet_breaks.
  - apply breaks_here. by apply send_large_pack.
Qed.
End answer.

(** * Properties *)

Section delivery.
Context `{HashCratesLaws} `{!GixCrates} `{!GixCratesLaws} `{!PackCrates} `{!PackCratesLaws} `{TransferCrates} `{MemoryStoreConfig}.
Context `{PktCratesLaws} `{HashIter}.

(** Reachable, in the server's store, from objects named by their identifiers. *)
Definition from_oids (hk : HashKind) (s : store) (oids : list rstr) : rstr → Prop :=
  reaches (children (blob_of s) hk) (oid_to_kappa_string hk <$> oids).

Lemma from_oids_prefixed hk s oids k : from_oids hk s oids k → ∃ o, k = oid_to_kappa_string hk o.
Proof.
  intros (r & (o & -> & _)%list_elem_of_fmap & Hr).
  remember (oid_to_kappa_string hk o) as a eqn:Ea. revert o Ea.
  induction Hr as [a|a b c Hab _ IH]; intros o ->; [eauto|]. destruct (children_prefixed _ _ _ _ Hab) as [o' ->]. eauto.
Qed.

(** The choice of a fetch without depth or filter: total, and exactly what is
    missing. *)
Lemma need_of_spec hk s wants common : fs_ok (fs s) →
  ∃ sent, need_of hk s no_options wants common = (sent, ∅) ∧ NoDup sent ∧
    (∀ k, k ∈ sent ↔ from_oids hk s wants k ∧ (¬ from_oids hk s (elements common) k) ∧ is_Some (object (blob_of s) k)) ∧
    ∀ k, from_oids hk s (elements common) k ∨ ¬ from_oids hk s (elements common) k.
Proof.
  intros Hs. destruct (graph_fuel_enough hk s (oid_to_kappa_string hk <$> wants ++ elements common) (length wants + size common) Hs)
    as (U & Hnd & Hcl & Hin & Hf).
  { apply Forall_forall. intros r (o & -> & _)%list_elem_of_fmap. eauto. }
  assert (∀ o, o ∈ wants ∨ o ∈ common → oid_to_kappa_string hk o ∈ U) as HU.
  { intros o Ho. apply Hin, list_elem_of_fmap_2, elem_of_app. rewrite elem_of_elements. done. }
  destruct (need_set_spec (blob_of s) hk no_options _ wants common U Hnd Hcl HU Hf) as (sent & shallows & E & Hnds & _ & _ & _ & Hsh & Hex).
  exists sent. unfold need_of. rewrite E. cbn [default]. split_and!; [|done|by apply Hex|].
  - unfold id. f_equal. apply elem_of_equiv_empty_L. intros o Ho. destruct (Hsh o Ho) as [[? [=]] _].
  - destruct (bfs_total (children (blob_of s) hk) U (graph_fuel hk s (length wants + size common)) ∅
      (oid_to_kappa_string hk <$> elements common) Hnd Hcl) as [R HR].
    { intros q (o & -> & Ho%elem_of_elements)%list_elem_of_fmap. auto. }
    { rewrite pending_start, length_fmap. change (length (elements common)) with (size common). lia. }
    intros k. unfold from_oids. rewrite <- (compute_reachable_exact _ _ _ _ HR k). destruct (decide (k ∈ R)); auto.
Qed.

(** Every Git object of the server is stored as Git writes it. *)
Definition git_store (hk : HashKind) (s : store) : Prop :=
  ∀ o, is_Some (object (blob_of s) (oid_to_kappa_string hk o)) → ∃ x, git_blob hk s (oid_to_kappa_string hk o) x.

(** The client's objects the server has too. *)
Definition shared (hk : HashKind) (s : store) (haves : list rstr) : list rstr :=
  elements (common_of hk s (list_to_set haves)).

(** What is sent, and the answer around it. *)
Lemma fetch_answer ns request hk wants haves (sA : store) :
  fs_ok (fs sA) → git_store hk sA → asks_for hk request wants haves →
  ∃ sent text, NoDup sent ∧
    (∀ k, k ∈ sent ↔ from_oids hk sA wants.*1 k ∧ (¬ from_oids hk sA (shared hk sA haves) k) ∧ is_Some (object (blob_of sA) k)) ∧
    (∀ k, from_oids hk sA (shared hk sA haves) k ∨ ¬ from_oids hk sA (shared hk sA haves) k) ∧
    Forall (λ k, ∃ x, git_blob hk sA k x) sent ∧
    pack_text sA (sort_objects sA sent ∅) = Ok (text, zlen text) ∧ 12 + zlen sent ≤ zlen text ∧
    (hash_refused (hash_axis hk) text = false → zlen text ≤ isize_max → zlen sent * 100 ≤ u32_max →
     ∃ pack r, generate_pack_sorted sA sent hk ∅ = Ok (pack, r) ∧ zlen pack = zlen text + axis_digest_bytes (hash_axis hk) ∧
       (zlen pack < MAX_DATA_LEN → delivers (handle_upload_pack ns request hk sA) pack) ∧
       (MAX_DATA_LEN ≤ zlen pack → breaks (handle_upload_pack ns request hk sA))).
Proof.
  intros HfsA Hgit Hask. destruct (need_of_spec hk sA wants.*1 (common_of hk sA (list_to_set haves)) HfsA) as (sent & En & Hnd & Hs & Hdec).
  assert (Forall (λ k, ∃ x, git_blob hk sA k x) sent) as Hall.
  { apply Forall_forall. intros k (Hk & _ & Hobj)%Hs. destruct (from_oids_prefixed _ _ _ _ Hk) as [o ->]. auto. }
  destruct (pack_text_written hk ∅ sent sA Hall) as (text & Et & Hlen). exists sent, text. split_and!; [done..|].
  intros Hr Hsz Hn. assert (∃ pack r, generate_pack_sorted sA sent hk ∅ = Ok (pack, r) ∧ objects_written r = zlen sent) as (pack & r & Eg & Er).
  { unfold generate_pack_sorted. cbv zeta. rewrite Et. cbn [mbind outcome_bind]. rewrite gix_digest_spec by done.
    do 2 eexists. split; [done|]. cbn. destruct (sort_objects_git hk sA sent ∅ Hall) as (objs & Ho & Hl & _).
    rewrite (Forall2_length _ _ _ Ho), Hl. unfold wrap, u32_max in *. apply Z.mod_small. lia. }
  exists pack, r. pose proof (generated_length _ _ _ _ _ _ _ _ Et Hr Eg) as Hpl. split_and!; [done|done|..].
  all: destruct (upload_answer ns request hk sA wants haves pack r Hask) as [Hsm Hlg];
    [by rewrite En|by rewrite En|by rewrite En|by rewrite En|]; intros Hp.
  - apply Hsm. pose proof (digest_length (hash_axis hk) text). lia.
  - apply Hlg. lia.
Qed.


(** A pack of 65516 bytes or more is cut into chunks of 65518 bytes, one byte is put
    in front, and the line is refused: such a fetch fails. *)
Theorem large_fetch_fails ns request hk wants haves (sA : store) :
  fs_ok (fs sA) → git_store hk sA → asks_for hk request wants haves →
  ∃ sent text, pack_text sA (sort_objects sA sent ∅) = Ok (text, zlen text) ∧
    (∀ k, k ∈ sent ↔ from_oids hk sA wants.*1 k ∧ (¬ from_oids hk sA (shared hk sA haves) k) ∧ is_Some (object (blob_of sA) k)) ∧
    (hash_refused (hash_axis hk) text = false → zlen text ≤ isize_max → zlen sent * 100 ≤ u32_max →
     MAX_DATA_LEN ≤ zlen text + axis_digest_bytes (hash_axis hk) →
     ∃ answer msg, handle_upload_pack ns request hk sA [] = (answer, Err (PIo msg))).
Proof.
  intros HfsA Hgit Hask. destruct (fetch_answer ns request hk wants haves sA HfsA Hgit Hask) as (sent & text & _ & Hs & _ & _ & Et & _ & Hgo).
  exists sent, text. split_and!; [done..|]. intros Hr Hi Hn Hlarge. destruct (Hgo Hr Hi Hn) as (pack & rp & _ & Hpl & _ & Hbr).
  destruct (Hbr ltac:(lia) []) as (answer & msg & E). eauto.
Qed.
End delivery.

(** * Version 2 *)

Section version2.
Context `{GixCrates} `{!PackCrates} `{MemoryStoreConfig} `{PktCrates} `{HashIter}.

Lemma fold_lines_skip {A} what (f : A → rstr → A * bool) before item t after acc :
  line_text what item = Ok (Some t) → (∀ acc, f acc t = (acc, false)) →
  fold_lines what f (before ++ item :: after) acc = fold_lines what f (before ++ after) acc.
Proof.
  intros Ht Hf. revert acc. induction before as [|i before IH]; intros acc; cbn [app fold_lines].
  - rewrite Ht. cbn [mbind outcome_bind]. by rewrite Hf.
  - destruct (line_text what i) as [[u|]| |]; cbn [mbind outcome_bind]; [|done..].
    destruct (f acc u) as [acc' []]; [done|apply IH].
Qed.

Lemma w_bind_ext {A B} (m : W A) (f g : A → W B) out : (∀ a out, f a out = g a out) → (m ≫= f) out = (m ≫= g) out.
Proof. intros Hfg. unfold mbind, W_bind. by destruct (m out) as [out' [a| |]]. Qed.

(** The options of a fetch are looked for before the delimiter that separates the
    capabilities of a version-2 request from its arguments, where no client sends
    them: a depth or a filter among the arguments has no effect, the answer is that
    of a full fetch. *)
Theorem v2_fetch_options_ignored ns hk s request request' section rest rest' before after option :
  read_lines [StopFlush; StopDelim] request = (section, rest) →
  read_lines [StopFlush; StopDelim] request' = (section, rest') →
  (read_lines [StopFlush] rest).1 = before ++ PktData (line option) :: after →
  (read_lines [StopFlush] rest').1 = before ++ after →
  option ∈ [rs "deepen 1"; rs "filter blob:none"; rs "no-progress"] →
  ∀ out, handle_v2_upload_pack ns request hk s out = handle_v2_upload_pack ns request' hk s out.
Proof.
  intros E1 E2 R1 R2 Ho out. unfold handle_v2_upload_pack. rewrite E1, E2. apply w_bind_ext. intros command out1.
  case_match; [done|]. case_match; [|done]. unfold v2_fetch. apply w_bind_ext. intros [opts np] out2.
  destruct (read_lines [StopFlush] rest) as [items r1], (read_lines [StopFlush] rest') as [items' r2]. cbn [fst] in R1, R2. subst items items'.
  assert (∃ t, line_text (rs "non-utf8") (PktData (line option)) = Ok (Some t) ∧ ∀ acc, fetch_line acc t = (acc, false)) as (t & Ht & Hf).
  { exists option. repeat (apply elem_of_cons in Ho as [->|Ho]; [split; [by vm_compute|by intros [wants haves o]]|]). by apply elem_of_nil in Ho. }
  by rewrite (fold_lines_skip _ _ _ _ _ _ _ Ht Hf).
Qed.

(** The arguments of [ls-refs], which follow the delimiter too, are never read:
    prefixes, [symrefs] and [peel] have no effect. *)
Theorem v2_ls_refs_arguments_ignored ns hk s request request' command caps rest rest' :
  read_lines [StopFlush; StopDelim] request = (PktData (line command) :: caps, rest) →
  read_lines [StopFlush; StopDelim] request' = (PktData (line command) :: caps, rest') →
  command = rs "command=ls-refs" →
  handle_v2_upload_pack ns request hk s = handle_v2_upload_pack ns request' hk s.
Proof. intros E1 E2 ->. unfold handle_v2_upload_pack. rewrite E1, E2. reflexivity. Qed.
End version2.

(** * A concrete instance *)

(** A stand-in framing: the length of the packet in four bytes, a stop being a
    length of zero or one. *)
Fixpoint sample_lines (fuel : nat) (stops : list Stop) (bs : bytes) : list PktItem * bytes :=
  match fuel with
  | O => ([], bs)
  | S fuel =>
      if zlen bs <? 4 then ([PktFail (rs "unexpected end")], [])
      else
        let n := from_be (take 4 bs) in
        let rest := drop 4 bs in
        if n =? 0 then if decide (StopFlush ∈ stops) then ([], rest) else ([PktOther], rest)
        else if n =? 1 then if decide (StopDelim ∈ stops) then ([], rest) else ([PktOther], rest)
        else let '(items, r) := sample_lines fuel stops (drop (Z.to_nat (n - 4)) rest) in
             (PktData (take (Z.to_nat (n - 4)) rest) :: items, r)
  end.

#[export] Instance sample_pkt : PktCrates := {|
  data_to_write d :=
    if decide (1 ≤ zlen d ≤ MAX_DATA_LEN) then inl (to_be 4 (zlen d + 4) ++ d) else inr (rs "bad length");
  stop_to_write st := to_be 4 (match st with StopFlush => 0 | StopDelim => 1 end);
  read_lines stops bs := sample_lines (S (length bs)) stops bs;
|}.

Lemma sample_lines_back stops st ds es rest fuel : st ∈ stops →
  Forall2 (λ d e, data_to_write d = inl e) ds es → (length ds < fuel)%nat →
  sample_lines fuel stops (concat es ++ stop_to_write st ++ rest) = (PktData <$> ds, rest).
Proof.
  intros Hst Hall. revert fuel. induction Hall as [|d e ds es Hd _ IH]; intros fuel Hf; (destruct fuel as [|fuel]; [lia|]).
  - destruct st; cbn [concat app stop_to_write sample_pkt sample_lines];
      (rewrite (proj2 (Z.ltb_ge _ _)) by (rewrite length_app, length_to_be; lia));
      rewrite take_app_length', drop_app_length', from_to_be by (apply length_to_be || done); cbn [Z.eqb]; by rewrite decide_True.
  - cbn [data_to_write sample_pkt] in Hd. case_decide as Hl; [|done].
    assert (e = to_be 4 (zlen d + 4) ++ d) as -> by congruence. cbn [concat]. rewrite <- !app_assoc.
    cbn [sample_lines]. rewrite (proj2 (Z.ltb_ge _ _)) by (rewrite length_app, length_to_be; lia). cbv zeta.
    unfold MAX_DATA_LEN in Hl. rewrite take_app_length', drop_app_length', from_to_be by (rewrite ?length_to_be; first [done|change (256 ^ Z.of_nat 4) with 4294967296; lia]).
    rewrite (proj2 (Z.eqb_neq _ 0)), (proj2 (Z.eqb_neq _ 1)) by lia.
    replace (Z.to_nat (zlen d + 4 - 4)) with (length d) by lia. rewrite take_app_length, drop_app_length, IH by (cbn in Hf; lia). done.
Qed.

#[export] Instance sample_pkt_laws : PktCratesLaws.
Proof.
  assert (∀ d e, data_to_write d = inl e → zlen e = 4 + zlen d) as Hlen.
  { intros d e. cbn [data_to_write sample_pkt]. case_decide; [|done]. intros E.
    assert (e = to_be 4 (zlen d + 4) ++ d) as -> by congruence. rewrite length_app, length_to_be. lia. }
  split.
  - exact Hlen.
  - intros st. cbn [stop_to_write sample_pkt]. by rewrite length_to_be.
  - intros d Hd. cbn [data_to_write sample_pkt]. rewrite decide_True by done. by eexists.
  - intros d Hd. cbn [data_to_write sample_pkt]. rewrite decide_False by (unfold MAX_DATA_LEN in *; lia). by eexists.
  - intros stops st ds es rest Hst Hall. apply sample_lines_back; [done..|].
    rewrite length_app. pose proof (Forall2_length _ _ _ Hall) as Hl.
    assert (length es ≤ length (concat es))%nat; [|lia]. clear Hl. induction Hall as [|d e ds es Hd _ IH]; [done|].
    cbn [concat length]. rewrite length_app. apply Hlen in Hd. lia.
Qed.

#[export, program] Instance sample_iter : HashIter := {| set_iter := elements |}.
Next Obligation. done. Qed.

Definition sample_oid (i : nat) : rstr :=
  match sample_blobs !! i with Some x => kappa_to_hex_oid (object_kappa HashSha1 x) | None => [] end.

Definition sample_client : store :=
  match head sample_blobs with
  | Some x => (ingest_verified (object_kappa HashSha1 x) (envelope_wrap x.1 x.2) empty_store).1
  | None => empty_store
  end.

(** A client that has the first version wants the second. *)
Definition sample_wants : list (rstr * rstr) := [(sample_oid 1, rs " side-band-64k ofs-delta")].

Definition sample_request : bytes :=
  ((_ ← w_each (data ∘ want_text) sample_wants; _ ← stop StopFlush;
    _ ← w_each (data ∘ have_text) [sample_oid 0]; _ ← data DONE; stop StopFlush) []).1.

Lemma sample_stores_ok : fs_ok (fs sample_sender) ∧ fs_ok (fs sample_client).
Proof.
  assert (∀ x s, fs_ok (fs s) → x ∈ sample_blobs →
    fs_ok (fs (ingest_verified (object_kappa HashSha1 x) (envelope_wrap x.1 x.2) s).1)) as Hstep.
  { intros x s Hs Hx. destruct (ingest_stores Sha1 (envelope_wrap x.1 x.2) s Hs) as (f & r & E & Hst).
    - assert (Forall (λ x, hash_refused Sha1 (envelope_wrap x.1 x.2) = false) sample_blobs) as Hall by (repeat constructor).
      rewrite Forall_forall in Hall. auto.
    - change (kappa_text Sha1 (envelope_wrap x.1 x.2)) with (object_kappa HashSha1 x) in E. rewrite E. apply Hst. }
  assert (fs_ok (fs empty_store)) as H0 by (intros p c Hp; discriminate Hp).
  split; [unfold sample_sender; cbn [fold_left sample_blobs]|]; repeat apply Hstep; try done; repeat constructor.
Qed.

(** The Git labels of a store that holds a known list of objects. *)
Lemma sha1_labels s o e (xs : list (Kind * bytes)) : fs_ok (fs s) → blob_of s (oid_to_kappa_string HashSha1 o) = Some e →
  match blob_list s with
  | Ok ls => forallb (λ k, negb (starts_with (rs "sha1:") k) || bool_decide (k ∈ object_kappa HashSha1 <$> xs)) ls
  | _ => false
  end = true →
  ∃ x, oid_to_kappa_string HashSha1 o = object_kappa HashSha1 x ∧ x ∈ xs.
Proof.
  intros Hs Ee Hc. destruct (git_label_read HashSha1 o s e Hs Ee) as [Hk Hg].
  destruct (blob_list_spec s Hs) as (ls & El & _ & Hls).
  assert (oid_to_kappa_string HashSha1 o ∈ ls) as Hin.
  { apply Hls. exists Sha1, e. split; [exact Hk|exact Hg]. }
  rewrite El, forallb_forall in Hc. specialize (Hc _ (proj1 (list_elem_of_In _ _) Hin)).
  replace (starts_with (rs "sha1:") (oid_to_kappa_string HashSha1 o)) with true in Hc
    by (symmetry; apply bool_decide_eq_true_2; by exists o).
  cbn [negb orb] in Hc. apply bool_decide_eq_true in Hc. by apply list_elem_of_fmap in Hc.
Qed.

Lemma sample_git_store : git_store HashSha1 sample_sender.
Proof.
  intros o [r Hr]. unfold object in Hr. destruct (blob_of sample_sender (oid_to_kappa_string HashSha1 o)) as [e|] eqn:Ee; [|done].
  destruct (sha1_labels sample_sender o e sample_blobs (proj1 sample_stores_ok) Ee) as (x & E & Hx); [vm_compute; reflexivity|].
  exists x. assert (Forall (λ x, held HashSha1 sample_sender x ∧ zlen x.2 < 2 ^ 24 ∧
    hash_refused (hash_axis HashSha1) (envelope_wrap x.1 x.2) = false) sample_blobs) as Hall
    by (repeat constructor; vm_compute; reflexivity).
  rewrite Forall_forall in Hall. split; [exact E|exact (Hall x Hx)].
Qed.

Lemma sample_asks : asks_for HashSha1 sample_request sample_wants [sample_oid 0].
Proof.
  assert (valid_digits Sha1 (sample_oid 0) ∧ valid_digits Sha1 (sample_oid 1)) as [H0 H1] by (vm_compute; repeat split).
  split_and!; [| |done|].
  - constructor; [|constructor]. split; [exact H1|]. right. exists (rs "side-band-64k ofs-delt"), x61. done.
  - by constructor.
  - exists (read_lines [StopFlush] sample_request).2, []. split; vm_compute; reflexivity.
Qed.

Lemma sample_agree o c c' :
  blob_get (oid_to_kappa_string HashSha1 o) sample_sender = Ok c →
  blob_get (oid_to_kappa_string HashSha1 o) sample_client = Ok c' → c' = c.
Proof.
  intros Hc Hc'.
  destruct (sha1_labels sample_client o c' (take 1 sample_blobs) (proj2 sample_stores_ok)) as (x & E & Hx);
    [unfold blob_of; by rewrite Hc'|vm_compute; reflexivity|].
  apply list_elem_of_singleton in Hx as ->. rewrite E in Hc, Hc'.
  assert (∀ a b : outcome StoreError bytes, a = Ok c → b = Ok c' → a = b → c' = c) as Heq by congruence.
  eapply Heq; [exact Hc|exact Hc'|]. vm_compute. reflexivity.
Qed.


(** Every tag of the namespace is advertised as a reference, the repository's own
    settings included: after the object format is set to SHA-256, as the registry
    stores it, the first line names [sha256] as an object. *)
Theorem settings_are_advertised :
  let s := (tag_set sample_ns (rs "_config/object_format") (rs "sha256") empty_store).1 in
  let out := (write_ref_advertisement sample_ns (rs "git-upload-pack") HashSha256 s []).1 in
  (read_lines [StopFlush] (read_lines [StopFlush] out).2).1
  = [PktData (ref_line HashSha256 true (rs "sha256") (rs "_config/object_format"))].
Proof. vm_compute. reflexivity. Qed.
