(* ===== verification/GitPush.v ===== *)
(** GitPush: what a push over the smart-HTTP protocol does to the references.

    [handle_receive_pack] ingests the pack, asks the hook, writes the references as
    one batch, points HEAD of a new repository at a branch, deletes, and reports. *)

From S2P Require Import Prelude Label Compute Types Delta Merkle Epoch Identity Store MemStore MemTags MemEdge MemUpload Gc.
From S2P Require Import Frame Http OciUpload Text GitRefs GitDelta GitGraph GitPack GitProtocol GitFetch.

(** * Ingesting a pack leaves the tags alone *)

(** Whatever its outcome, the action does not touch a tag. *)
Definition keeps_tags {A} (m : IngestM A) : Prop := ∀ s s' r, m s = (s', r) → tags s' = tags s.
Definition keeps_tags_run {A} (m : M store A) : Prop := ∀ s s' r, m s = (s', r) → tags s' = tags s.

Create HintDb keeps.

Lemma keeps_ret {A} (a : A) : keeps_tags (mret a).
Proof. by intros s s' r [= <- _]. Qed.

Lemma keeps_bind {A B} (m : IngestM A) (f : A → IngestM B) : keeps_tags m → (∀ a, keeps_tags (f a)) → keeps_tags (m ≫= f).
Proof.
  intros Hm Hf s s' r. unfold mbind, IngestM_bind. destruct (m s) as [s1 [a|e|]] eqn:E; apply Hm in E.
  - intros Hr%Hf. congruence.
  - by intros [= <- _].
  - by intros [= <- _].
Qed.

Lemma keeps_outcome {E A} (f : E → IngestError) (m : outcome E A) : keeps_tags (try_outcome f m).
Proof. by intros s s' r [= <- _]. Qed.

Lemma keeps_read {A} (f : store → outcome IngestError A) : keeps_tags (try_read f).
Proof. by intros s s' r [= <- _]. Qed.

Lemma keeps_try {A} (m : M store A) : keeps_tags_run m → keeps_tags (try_run m).
Proof. intros Hm s s' r. unfold try_run. destruct (m s) as [s1 r1] eqn:E. intros [= <- _]. by eapply Hm. Qed.

#[export] Hint Resolve keeps_ret keeps_bind keeps_outcome keeps_read keeps_try : keeps.

Section ingest.
Context `{GixCrates} `{!PackCrates} `{TransferCrates} `{MemoryStoreConfig}.

Lemma keeps_ingest_verified claimed content : keeps_tags_run (ingest_verified claimed content).
Proof. intros s s' r Hr. destruct (ingest_verified_frame _ _ _ _ _ Hr) as [f ->]. done. Qed.

Lemma keeps_upload_begin now id ns max : keeps_tags_run (upload_begin now id ns max).
Proof. intros s s' r. unfold upload_begin. run. by intros [= <- _]. Qed.

Lemma keeps_upload_put_part now id off d : keeps_tags_run (upload_put_part now id off d).
Proof.
  intros s s' r. unfold upload_put_part. run. destruct (uploads s !! id) as [session|]; [|by intros [= <- _]].
  case_match; [by intros [= <- _]|]. case_match; [by intros [= <- _]|]. cbv zeta. case_match; [by intros [= <- _]|].
  destruct (next_part_number _); by intros [= <- _].
Qed.

Lemma keeps_upload_abort id : keeps_tags_run (upload_abort id).
Proof. by intros s s' r [= <- _]. Qed.

Lemma keeps_upload_complete now id claimed : keeps_tags_run (upload_complete now id claimed).
Proof.
  intros s s' r. unfold upload_complete. run. destruct (uploads s !! id) as [session|]; cbn [ok_or]; [|by intros [= <- _]].
  case_match; [by intros [= <- _]|]. destruct (reject_label _) as [p| |]; [|by intros [= <- _]..].
  case_match; [by intros [= <- _]|]. intros Hr%keeps_ingest_verified. done.
Qed.

#[local] Hint Resolve keeps_ingest_verified keeps_upload_begin keeps_upload_put_part keeps_upload_abort keeps_upload_complete : keeps.

Lemma keeps_stream_parts src i call id reads off tot hashed : keeps_tags (stream_parts src i call id reads off tot hashed).
Proof.
  revert call off tot hashed. induction reads as [|[ch|e] reads IH]; intros; cbn [stream_parts]; eauto with keeps.
Qed.
#[local] Hint Resolve keeps_stream_parts : keeps.

Lemma keeps_ingest_entry src i ns hk e offs : keeps_tags (ingest_entry src i ns hk e offs).
Proof.
  unfold ingest_entry, ingest_object, ingest_delta, resolve_delta, ingest_streaming, no_compressed.
  destruct (pe_header e), (pe_compressed e) as [c|]; cbv zeta; repeat case_match;
    repeat (apply keeps_bind; intros; repeat case_match; eauto with keeps); eauto with keeps.
Qed.

Lemma keeps_ingest_pack src ns data hk : keeps_tags (ingest_pack src ns data hk).
Proof.
  unfold ingest_pack. destruct (pack_entries hk data) as [items|]; [|apply keeps_outcome].
  assert (∀ i offs n d, keeps_tags (ingest_entries src i ns hk items offs n d)) as Hall; [|apply Hall].
  induction items as [|[e|m] items IH]; intros; cbn [ingest_entries]; [apply keeps_ret| |apply keeps_outcome].
  apply keeps_bind; [apply keeps_ingest_entry|]. intros [kappa new]. apply IH.
Qed.
End ingest.

(** * The references *)

Lemma filter_unique {A K} `{EqDecision K} (f : A → K) (l : list A) x :
  NoDup (f <$> l) → x ∈ l → filter (λ y, f x = f y) l = [x].
Proof.
  induction l as [|y l IH]; intros Hnd Hx; [by apply elem_of_nil in Hx|]. cbn [fmap list_fmap] in Hnd.
  apply NoDup_cons in Hnd as [Hy Hnd]. apply elem_of_cons in Hx as [->|Hx].
  - rewrite filter_cons_True by done. f_equal. apply list_filter_none. intros z Hz E. apply Hy. rewrite E.
    by apply list_elem_of_fmap_2.
  - rewrite filter_cons_False by (intros E; apply Hy; rewrite <- E; by apply list_elem_of_fmap_2). by apply IH.
Qed.

Lemma unique_key {A K} `{EqDecision K} (f : A → K) (l : list A) x y :
  NoDup (f <$> l) → x ∈ l → y ∈ l → f x = f y → x = y.
Proof.
  intros Hnd Hx Hy E. assert (y ∈ filter (λ y, f x = f y) l) as Hin by (by apply list_elem_of_filter).
  rewrite filter_unique in Hin by done. by apply list_elem_of_singleton in Hin.
Qed.

Section references.
Context `{HashCrates}.

Definition ref_key (ns : NamespaceRef) (u : RefUpdate) : bytes * Z := tag_key ns (ref_name u).

(** Creations name references that do not exist. *)
Definition creatable (ns : NamespaceRef) (hk : HashKind) (updates : list RefUpdate) (s : store) : Prop :=
  ∀ u, u ∈ updates → ¬ is_delete hk u → old_oid u = zero_oid hk → tags s !! ref_key ns u = None.

Lemma delete_refs_run ns names s :
  ∃ s', delete_refs ns names s = (s', Ok []) ∧
    ∀ key, tags s' !! key = if decide (key ∈ tag_key ns <$> names) then None else tags s !! key.
Proof.
  revert s. induction names as [|n names IH]; intros s; cbn [delete_refs].
  { exists s. split; [done|]. intros key. cbn [fmap list_fmap]. by rewrite decide_False by apply not_elem_of_nil. }
  unfold delete_ref, tag_delete, modify. cbn [map_err]. set (s1 := set_tags (delete (tag_key ns n)) s).
  destruct (IH s1) as (s' & E & Ht). exists s'. rewrite E. split; [done|]. intros key. rewrite Ht. cbn [fmap list_fmap].
  destruct (decide (key = tag_key ns n)) as [->|Hne].
  - rewrite (decide_True (P := tag_key ns n ∈ tag_key ns n :: _)) by (by left). case_decide; [done|]. cbn. by rewrite lookup_delete_eq.
  - destruct (decide (key ∈ tag_key ns <$> names)) as [Hin|Hin].
    + by rewrite decide_True by (by right).
    + rewrite decide_False by (rewrite elem_of_cons; naive_solver). cbn. by rewrite lookup_delete_ne.
Qed.

Lemma default_head_run ns batch s : version_at s (tag_key ns HEAD) < u64_max →
  ∃ s', set_default_head ns batch s = (s', Ok ()) ∧
    (∀ key, key ≠ tag_key ns HEAD → tags s' !! key = tags s !! key) ∧
    tags s' !! tag_key ns HEAD =
      match tags s !! tag_key ns HEAD, default_branch batch with
      | None, Some branch => Some (mkTag HEAD (SYMREF_PREFIX ++ branch) 1)
      | e, _ => e
      end.
Proof.
  intros Hv. unfold set_default_head, tag_get. destruct (tags s !! tag_key ns HEAD) as [e|] eqn:Et; cbn [ok_or]; [eauto|].
  destruct (default_branch batch) as [branch|]; [|eauto]. unfold set_symbolic_ref, tag_set.
  destruct (ensure_namespace_run ns s) as (f & g & E). unfold mbind, M_bind. rewrite E, put_tag_run.
  unfold next_version. cbn [tags set_ns_aliases set_ns_records]. rewrite Et. cbn [map_err mbind outcome_bind].
  eexists. split; [done|]. cbn [tags set_tags set_ns_aliases set_ns_records]. split.
  - intros key Hk. by rewrite lookup_insert_ne.
  - by rewrite lookup_insert_eq.
Qed.

(** The expected version is the current one, but for the creation of a reference
    that exists. *)
Lemma expected_current ns hk u s : tags_wf s →
  ∃ v, expected_version ns hk u s = Some v ∧ 0 ≤ v ≤ u64_max ∧ 0 ≤ version_at s (ref_key ns u) ≤ u64_max ∧
    (v = version_at s (ref_key ns u) ↔ (old_oid u = zero_oid hk → tags s !! ref_key ns u = None)).
Proof.
  intros Hw. unfold expected_version, tag_get, version_at, ref_key.
  destruct (tags s !! tag_key ns (ref_name u)) as [e|] eqn:Ee; cbn [ok_or].
  - destruct (Hw _ _ _ Ee) as [_ He]. case_decide; eexists; (split; [done|]); (split; [unfold u64_max in *; lia|]); (split; [lia|]).
    + split; [lia|]. intros Hn. by specialize (Hn ltac:(done)).
    + done.
  - case_decide; exists 0; unfold u64_max; (split; [done|]); (split; [lia|]); (split; [lia|done]).
Qed.

(** What a conflict says. *)
Definition conflict_text (name : rstr) (expected current : Z) : rstr :=
  rs "tag " ++ name ++ rs ": expected version " ++ dec expected ++ rs " but current is " ++ dec current.

Lemma check_conflict uuid updates s e : check_updates uuid updates s = Err e →
  ∃ u v, u ∈ updates ∧ tu_expected_version u = Some v ∧ v ≠ version_at s (uuid, item_hash (tu_name u)) ∧
    e = SConflict (conflict_text (tu_name u) v (version_at s (uuid, item_hash (tu_name u)))).
Proof.
  induction updates as [|u l IH]; cbn [check_updates]; [done|].
  destruct (tu_expected_version u) as [ex|] eqn:Hex; [|intros (u' & v & ? & ?)%IH; exists u', v; set_solver].
  fold (version_at s (uuid, item_hash (tu_name u))). destruct (Z.eqb_spec ex (version_at s (uuid, item_hash (tu_name u)))).
  - intros (u' & v & ? & ?)%IH. exists u', v. set_solver.
  - intros [= <-]. exists u, ex. set_solver.
Qed.

(** A batch of distinct tags writes each of them once. *)
Lemma distinct_batch uuid (batch : list TagUpdate) s s' r :
  NoDup ((λ y, (uuid, item_hash (tu_name y))) <$> batch) → (∀ key, version_at s key < u64_max) →
  apply_updates uuid batch s = (s', r) →
  r = Ok () ∧
  (∀ y, y ∈ batch → let key := (uuid, item_hash (tu_name y)) in
     tags s' !! key = Some (mkTag (tu_name y) (tu_kappa y) (version_at s key + 1))) ∧
  (∀ key, (∀ y, y ∈ batch → key ≠ (uuid, item_hash (tu_name y))) → tags s' !! key = tags s !! key).
Proof.
  intros Hnd Hv Ea. set (k := λ y, (uuid, item_hash (tu_name y))).
  assert (∀ y, y ∈ batch → filter (touches uuid (k y)) batch = [y]) as Hone.
  { intros y Hy. by rewrite <- (filter_unique k batch y). }
  assert (∀ key, (∀ y, y ∈ batch → key ≠ k y) → filter (touches uuid key) batch = []) as Hnone.
  { intros key Hk. apply list_filter_none. intros y Hy E. by apply (Hk y Hy). }
  assert (∀ key, zlen (filter (touches uuid key) batch) ≤ 1) as Hle.
  { intros key. destruct (decide (key ∈ k <$> batch)) as [(y & -> & Hy)%list_elem_of_fmap|Hn]; [by rewrite Hone|].
    rewrite Hnone; [done|]. intros y Hy ->. by apply Hn, list_elem_of_fmap_2. }
  pose proof (apply_updates_fails _ _ _ _ _ Ea) as Hfail. destruct r as [[]|e|]; [|done|].
  2:{ destruct Hfail as [key Hk]. specialize (Hle key). specialize (Hv key). lia. }
  pose proof (apply_updates_run _ _ _ _ Ea) as Hrun. split_and!; [done| |].
  - intros y Hy. cbv zeta. fold (k y). by rewrite Hrun, Hone.
  - intros key Hk. by rewrite Hrun, Hnone.
Qed.

(** The batch: a conflict changes nothing, otherwise every reference is set. *)
Lemma batch_run ns hk updates s :
  tags_wf s → (∀ key, version_at s key < u64_max) → NoDup (ref_key ns <$> updates) →
  let batch := batch_of ns hk updates s in
  ∃ s' r, (if decide (batch = []) then (s, Ok ()) else tag_set_batch ns batch s) = (s', r) ∧
    match r with
    | Ok _ => creatable ns hk updates s ∧
        (∀ u, u ∈ updates → ¬ is_delete hk u →
           tags s' !! ref_key ns u = Some (mkTag (ref_name u) (oid_to_kappa_string hk (new_oid u)) (version_at s (ref_key ns u) + 1))) ∧
        (∀ key, (∀ u, u ∈ updates → ¬ is_delete hk u → key ≠ ref_key ns u) → tags s' !! key = tags s !! key)
    | Err e => (¬ creatable ns hk updates s) ∧ tags s' = tags s ∧
        ∃ u v w, u ∈ updates ∧ 0 ≤ v ≤ u64_max ∧ 0 ≤ w ≤ u64_max ∧ e = SConflict (conflict_text (ref_name u) v w)
    | Panic => False
    end.
Proof.
  intros Hw Hv Hnd batch. set (live := filter (λ u, ¬ is_delete hk u) updates).
  set (mk := λ u, mkTagUpdate (ref_name u) (oid_to_kappa_string hk (new_oid u)) (expected_version ns hk u s)).
  assert (batch = mk <$> live) as Hb by done.
  assert (∀ u, u ∈ updates → ¬ is_delete hk u → mk u ∈ batch) as Hlive
    by (intros u Hu Hd; rewrite Hb; by apply list_elem_of_fmap_2, list_elem_of_filter).
  case_decide as Hempty.
  { exists s, (Ok ()). split; [done|]. rewrite Hempty in Hlive.
    split_and!; [intros u Hu Hd|intros u Hu Hd|done]; specialize (Hlive u Hu Hd); by apply elem_of_nil in Hlive. }
  unfold tag_set_batch. destruct (ensure_namespace_run ns s) as (f & g & E). unfold mbind, M_bind. rewrite E. unfold asks.
  set (s1 := set_ns_aliases f (set_ns_records g s)). assert (∀ key, version_at s1 key = version_at s key) as Hv1 by done.
  destruct (check_updates (ns_uuid ns) batch s1) as [[]|e|] eqn:Ec;
    [|exists s1, (Err e); split; [done|]|by pose proof (check_updates_spec (ns_uuid ns) batch s1) as Hc; rewrite Ec in Hc].
  - destruct (apply_updates (ns_uuid ns) batch s1) as [s2 r] eqn:Ea. exists s2, r. split; [done|].
    destruct (distinct_batch (ns_uuid ns) batch s1 s2 r) as (-> & Hset & Hoth); [|done|done|].
    { rewrite Hb, <- list_fmap_compose. eapply sublist_NoDup; [exact Hnd|]. apply fmap_sublist, sublist_filter. }
    pose proof (check_updates_spec (ns_uuid ns) batch s1) as Hc. rewrite Ec in Hc. split_and!.
    + intros u Hu Hd. destruct (expected_current ns hk u s Hw) as (v & Ev & _ & _ & Hiff). apply Hiff.
      exact (Hc (mk u) v (Hlive u Hu Hd) Ev).
    + intros u Hu Hd. exact (Hset (mk u) (Hlive u Hu Hd)).
    + intros key Hk. apply Hoth. rewrite Hb. intros y (u & -> & [Hd Hu]%list_elem_of_filter)%list_elem_of_fmap. by apply Hk.
  - destruct (check_conflict _ _ _ _ Ec) as (y & v & Hy & Ev & Hne & ->). rewrite Hb in Hy.
    apply list_elem_of_fmap in Hy as (u & -> & [Hd Hu]%list_elem_of_filter).
    destruct (expected_current ns hk u s Hw) as (v' & Ev' & Hr1 & Hr2 & Hiff). cbn [mk tu_expected_version tu_name] in *.
    rewrite Ev' in Ev. injection Ev as <-. split_and!; [|done|].
    + intros Hcr. apply Hne, Hiff. by apply Hcr.
    + exists u, v', (version_at s (ref_key ns u)). done.
Qed.

(** An accepted push: the batch, HEAD, the deletions. *)
Lemma update_refs_run ns hk updates s :
  tags_wf s → (∀ key, version_at s key < u64_max) → NoDup (tag_key ns <$> HEAD :: (ref_name <$> updates)) →
  ∃ s' br, update_refs ns hk updates s = (s', Ok (br, [])) ∧
    (∀ u, u ∈ updates → is_delete hk u → tags s' !! ref_key ns u = None) ∧
    (∀ key, key ∉ tag_key ns <$> HEAD :: (ref_name <$> updates) → tags s' !! key = tags s !! key) ∧
    match br with
    | Ok _ => creatable ns hk updates s ∧
        (∀ u, u ∈ updates → ¬ is_delete hk u →
           tags s' !! ref_key ns u = Some (mkTag (ref_name u) (oid_to_kappa_string hk (new_oid u)) (version_at s (ref_key ns u) + 1))) ∧
        tags s' !! tag_key ns HEAD =
          match tags s !! tag_key ns HEAD, default_branch (batch_of ns hk updates s) with
          | None, Some branch => Some (mkTag HEAD (SYMREF_PREFIX ++ branch) 1)
          | e, _ => e
          end
    | Err e => (¬ creatable ns hk updates s) ∧
        (∀ u, u ∈ updates → ¬ is_delete hk u → tags s' !! ref_key ns u = tags s !! ref_key ns u) ∧
        tags s' !! tag_key ns HEAD = tags s !! tag_key ns HEAD ∧
        ∃ u v w, u ∈ updates ∧ 0 ≤ v ≤ u64_max ∧ 0 ≤ w ≤ u64_max ∧ e = SConflict (conflict_text (ref_name u) v w)
    | Panic => False
    end.
Proof.
  intros Hw Hv Hnd. cbn [fmap list_fmap] in Hnd. apply NoDup_cons in Hnd as [Hhead Hnd].
  assert (NoDup (ref_key ns <$> updates)) as Hnd' by (rewrite <- list_fmap_compose in Hnd; exact Hnd).
  assert (∀ u, u ∈ updates → ref_key ns u ∈ tag_key ns <$> (ref_name <$> updates)) as Hin
    by (intros u Hu; apply (list_elem_of_fmap_2 (tag_key ns)), list_elem_of_fmap_2, Hu).
  assert (∀ u, u ∈ updates → ref_key ns u ≠ tag_key ns HEAD) as Hneh by (intros u Hu E; apply Hhead; rewrite <- E; auto).
  assert (∀ key, key ∈ tag_key ns <$> deletes_of hk updates ↔ ∃ u, key = ref_key ns u ∧ u ∈ updates ∧ is_delete hk u) as Hdel.
  { intros key. unfold deletes_of. rewrite <- list_fmap_compose, list_elem_of_fmap. setoid_rewrite list_elem_of_filter. naive_solver. }
  assert (∀ u, u ∈ updates → ¬ is_delete hk u → ref_key ns u ∉ tag_key ns <$> deletes_of hk updates) as Hnodel.
  { intros u Hu Hd (u' & E & Hu' & Hd')%Hdel. by rewrite <- (unique_key _ _ u u' Hnd' Hu Hu' E) in Hd'. }
  assert (tag_key ns HEAD ∉ tag_key ns <$> deletes_of hk updates) as Hnohead by (intros (u & E & Hu & _)%Hdel; by apply (Hneh u Hu)).
  destruct (batch_run ns hk updates s Hw Hv Hnd') as (s1 & br & Eb & Hbr). unfold update_refs. rewrite Eb.
  destruct br as [[]|e|]; [| |done].
  - destruct Hbr as (Hcr & Hset & Hoth).
    assert (tags s1 !! tag_key ns HEAD = tags s !! tag_key ns HEAD) as Hh1 by (apply Hoth; intros u Hu _ E; by apply (Hneh u Hu)).
    destruct (default_head_run ns (batch_of ns hk updates s) s1) as (s2 & -> & Hk2 & Hh2).
    { unfold version_at. rewrite Hh1. apply Hv. }
    destruct (delete_refs_run ns (deletes_of hk updates) s2) as (s3 & -> & Hk3). eexists s3, (Ok ()). split; [done|].
    split_and!; [| |done| |].
    + intros u Hu Hd. rewrite Hk3, decide_True; [done|]. apply Hdel. eauto.
    + intros key Hk. cbn [fmap list_fmap] in Hk. apply not_elem_of_cons in Hk as [Hk1 Hkn].
      rewrite Hk3, decide_False by (intros (u & -> & Hu & _)%Hdel; auto). rewrite Hk2 by done. apply Hoth. intros u Hu _ ->. auto.
    + intros u Hu Hd. rewrite Hk3, decide_False, Hk2 by auto. by apply Hset.
    + rewrite Hk3, decide_False by done. by rewrite Hh2, Hh1.
  - destruct Hbr as (Hcr & Ht1 & Hmsg).
    destruct (delete_refs_run ns (deletes_of hk updates) s1) as (s3 & -> & Hk3). rewrite Ht1 in Hk3. eexists s3, (Err e). split; [done|].
    split_and!; [| |done| | |done].
    + intros u Hu Hd. rewrite Hk3, decide_True; [done|]. apply Hdel. eauto.
    + intros key Hk. cbn [fmap list_fmap] in Hk. apply not_elem_of_cons in Hk as [Hk1 Hkn].
      by rewrite Hk3, decide_False by (intros (u & -> & Hu & _)%Hdel; auto).
    + intros u Hu Hd. by rewrite Hk3, decide_False by auto.
    + by rewrite Hk3, decide_False.
Qed.
End references.

(** * The report *)

Section report.
Context `{PktCratesLaws}.

(** Lines inside side-band packets: what the client's demultiplexer yields. *)
Definition reports (w : W ()) (ds : list bytes) : Prop :=
  ∃ outer es, sends w outer ∧ Forall2 (λ d e, data_to_write d = inl e) ds es ∧ demux outer = concat es.

Lemma reports_nothing : reports (mret ()) [].
Proof. exists [], []. split_and!; [apply sends_nothing|constructor|done]. Qed.

Lemma reports_seq (w : W ()) (f : () → W ()) ds ds' : reports w ds → reports (f ()) ds' → reports (w ≫= f) (ds ++ ds').
Proof.
  intros (outer & es & Hw & He & Hd) (outer' & es' & Hf & He' & Hd'). exists (outer ++ outer'), (es ++ es').
  split_and!; [by apply sends_seq|by apply Forall2_app|]. unfold demux in *. by rewrite omap_app, !concat_app, Hd, Hd'.
Qed.

Lemma reports_each {A} (f : A → W ()) (g : A → list bytes) l :
  Forall (λ x, reports (f x) (g x)) l → reports (w_each f l) (concat (g <$> l)).
Proof. induction 1 as [|x l Hx _ IH]; [apply reports_nothing|]. cbn [w_each fmap list_fmap concat]. by apply reports_seq. Qed.

Lemma encoded_length ds es : Forall2 (λ d e, data_to_write d = inl e) ds es → zlen (concat es) = zlen (concat ds) + 4 * zlen ds.
Proof.
  induction 1 as [|d e ds es Hd _ IH]; [done|]. cbn [concat length]. rewrite !length_app. apply data_length in Hd. lia.
Qed.

Lemma reports_nested (w : W ()) ds : sends w ds → zlen (concat ds) + 4 * zlen ds < MAX_DATA_LEN → reports (nested w) ds.
Proof.
  intros Hw Hl. destruct (Hw []) as (es & He & E). exists [x01 :: concat es], es. split_and!; [|done|cbn; by rewrite app_nil_r].
  assert (sends (band x01 (concat es)) [x01 :: concat es]) as Hb.
  { apply sends_data. cbn [length]. rewrite Nat2Z.inj_succ, (encoded_length _ _ He). lia. }
  intros out. destruct (Hb out) as (es' & He' & E'). exists es'. split; [done|]. unfold nested. rewrite E. exact E'.
Qed.

Definition line_data (items : list PktItem) : list bytes := omap (λ i, match i with PktData d => Some d | _ => None end) items.

Lemma line_data_fmap ds : line_data (PktData <$> ds) = ds.
Proof. induction ds as [|d ds IH]; [done|]. cbn. by f_equal. Qed.

(** What the client reads: the packets of the answer, their side band, the lines in it. *)
Definition client_report (answer : bytes) : list PktItem :=
  (read_lines [StopFlush] (demux (line_data (read_lines [StopFlush] answer).1))).1.

Lemma reports_read (w : W ()) ds : reports w ds →
  ∃ answer, (_ ← w; _ ← nested (stop StopFlush); stop StopFlush) [] = (answer, Ok ()) ∧ client_report answer = PktData <$> ds.
Proof.
  intros (outer & es & Hw & He & Hd).
  assert (sends (nested (stop StopFlush)) [x01 :: stop_to_write StopFlush]) as Hf.
  { assert (sends (band x01 (stop_to_write StopFlush)) [x01 :: stop_to_write StopFlush]) as Hb; [|exact Hb].
    apply sends_data. cbn [length]. pose proof (stop_length StopFlush). unfold MAX_DATA_LEN. lia. }
  assert (sends_stop (_ ← w; _ ← nested (stop StopFlush); stop StopFlush) (outer ++ [x01 :: stop_to_write StopFlush] ++ []) StopFlush) as Hs.
  { apply sends_stop_seq; [done|]. apply sends_stop_seq; [done|apply sends_stop_here]. }
  destruct (sends_stop_read _ _ _ [StopFlush] Hs ltac:(by left)) as (answer & E & Er). exists answer. split; [done|].
  unfold client_report. rewrite Er. cbn [fst]. rewrite line_data_fmap.
  unfold demux in *. rewrite omap_app, concat_app, Hd. cbn [app omap list_omap concat]. rewrite app_nil_r.
  rewrite <- (app_nil_r (stop_to_write StopFlush)), read_back with (ds := ds) by (done || by left). done.
Qed.
End report.

(** * Properties *)

Section pushes.
Context `{GixCrates} `{!PackCrates} `{TransferCrates} `{MemoryStoreConfig} `{PktCratesLaws} `{HookRunner}.

(** The lines reported for one reference. *)
Definition status_lines (hk : HashKind) (s : store) (status : option rstr) (u : RefUpdate) : list bytes :=
  match status with
  | Some err => [line (rs "ng " ++ ref_name u ++ x20 :: err)]
  | None =>
      [line (rs "ok " ++ ref_name u); line (rs "option refname " ++ ref_name u);
       line (rs "option old-oid " ++ old_oid u); line (rs "option new-oid " ++ new_oid u)]
      ++ (if forced_update hk u s then [line (rs "option forced-update")] else [])
  end.

Definition short_update (u : RefUpdate) : Prop := zlen (ref_name u) ≤ 4096 ∧ zlen (old_oid u) ≤ 64 ∧ zlen (new_oid u) ≤ 64.

Lemma sends_line s : zlen s ≤ 60000 → sends (data (line s)) [line s].
Proof. intros Hs. apply sends_data. unfold line, MAX_DATA_LEN. rewrite length_app. cbn [length]. lia. Qed.

Lemma report_ref_reports hk s (status : rstr → option rstr) u :
  short_update u → (∀ err, status (ref_name u) = Some err → zlen err ≤ 10000) →
  reports (report_ref hk s status u) (status_lines hk s (status (ref_name u)) u).
Proof.
  intros (Hn & Ho & Hw) Herr. unfold report_ref, status_lines. cbv zeta. apply reports_nested.
  - destruct (status (ref_name u)) as [err|].
    + specialize (Herr err eq_refl). apply sends_line. rewrite !length_app. cbn. lia.
    + repeat (apply (sends_seq (data _) _ [_]); [apply sends_line; rewrite length_app; cbn; lia|]).
      destruct (forced_update hk u s); [by apply sends_line|apply sends_nothing].
  - unfold MAX_DATA_LEN, line. destruct (status (ref_name u)) as [err|].
    + specialize (Herr err eq_refl). repeat first [rewrite length_app | progress cbn [concat length]]. cbn. lia.
    + destruct (forced_update hk u s); cbn [app concat length]; repeat first [rewrite length_app | progress cbn [length]]; cbn; lia.
Qed.

Lemma report_status_reads hk s (status : rstr → option rstr) updates :
  Forall short_update updates → (∀ u err, u ∈ updates → status (ref_name u) = Some err → zlen err ≤ 10000) →
  ∃ answer, report_status hk s status updates [] = (answer, Ok ()) ∧
    client_report answer = PktData <$> line (rs "unpack ok") :: concat ((λ u, status_lines hk s (status (ref_name u)) u) <$> updates).
Proof.
  intros Hs Herr.
  assert (reports (_ ← nested (data (line (rs "unpack ok"))); w_each (report_ref hk s status) updates)
    ([line (rs "unpack ok")] ++ concat ((λ u, status_lines hk s (status (ref_name u)) u) <$> updates))) as Hr.
  { apply reports_seq; [by apply reports_nested; [apply sends_line|]|]. apply reports_each, Forall_forall. intros u Hu.
    rewrite Forall_forall in Hs. apply report_ref_reports; eauto. }
  destruct (reports_read _ _ Hr) as (answer & E & Ec). exists answer. split; [|done].
  rewrite <- E. unfold report_status, mbind, W_bind. by destruct (nested _ []) as [o [[]| |]].
Qed.

Lemma deletes_names ns hk updates u : NoDup (tag_key ns <$> HEAD :: (ref_name <$> updates)) → u ∈ updates →
  ref_name u ∈ deletes_of hk updates ↔ is_delete hk u.
Proof.
  intros Hnd Hu. cbn [fmap list_fmap] in Hnd. apply NoDup_cons in Hnd as [_ Hnd]. rewrite <- list_fmap_compose in Hnd.
  unfold deletes_of. rewrite list_elem_of_fmap. setoid_rewrite list_elem_of_filter. split; [|eauto].
  intros (u' & E & Hd & Hu'). by rewrite (unique_key _ _ u u' Hnd Hu Hu' (f_equal (tag_key ns) E)).
Qed.

(** A conflict names one of the references, so its message is short too. *)
Lemma conflict_short updates (br : outcome StoreError ()) err :
  Forall short_update updates →
  (∀ e, br = Err e → ∃ u v w, u ∈ updates ∧ 0 ≤ v ≤ u64_max ∧ 0 ≤ w ≤ u64_max ∧ e = SConflict (conflict_text (ref_name u) v w)) →
  match br with Err e => Some (store_error_str e) | _ => None end = Some err → zlen err ≤ 10000.
Proof.
  intros Hs Hbr. destruct br as [|e|]; [done| |done]. intros [= <-].
  destruct (Hbr e eq_refl) as (u & v & w & Hu & Hv & Hw & ->). rewrite Forall_forall in Hs. destruct (Hs u Hu) as (Hn & _).
  pose proof (dec_short v Hv). pose proof (dec_short w Hw). unfold store_error_str, conflict_text. rewrite !length_app. cbn. lia.
Qed.

(** C12: what an accepted push does.  The references are written all or none: they
    are, exactly when no reference the client means to create exists; then each is
    at its new object with the next version, and HEAD of a repository without one
    points at the default branch among them.  Deletions are carried out either way.
    No other tag changes, and the client reads, after [unpack ok], for each
    reference in the order of its commands, that it was updated, with its old and
    new value, or the conflict. *)
Theorem push_correct src ns request hk s s1 ri items pack updates :
  read_lines [StopFlush] request = (items, pack) → parse_commands items = Ok updates →
  ingest_pack src ns pack hk s = (s1, Ok ri) → run_pre_receive ns updates 30 s1 = Ok () →
  tags_wf s → (∀ key, version_at s key < u64_max) → NoDup (tag_key ns <$> HEAD :: (ref_name <$> updates)) →
  Forall short_update updates →
  ∃ s' answer (conflict : option rstr), handle_receive_pack src ns request hk s = (s', (answer, Ok ())) ∧
    client_report answer = PktData <$> line (rs "unpack ok") ::
      concat ((λ u, status_lines hk s' (if decide (is_delete hk u) then None else conflict) u) <$> updates) ∧
    (conflict = None ↔ creatable ns hk updates s) ∧
    (∀ u, u ∈ updates → is_delete hk u → tags s' !! ref_key ns u = None) ∧
    (∀ u, u ∈ updates → ¬ is_delete hk u → tags s' !! ref_key ns u =
       match conflict with
       | None => Some (mkTag (ref_name u) (oid_to_kappa_string hk (new_oid u)) (version_at s (ref_key ns u) + 1))
       | Some _ => tags s !! ref_key ns u
       end) ∧
    (tags s' !! tag_key ns HEAD =
       match conflict, tags s !! tag_key ns HEAD, default_branch (batch_of ns hk updates s) with
       | None, None, Some branch => Some (mkTag HEAD (SYMREF_PREFIX ++ branch) 1)
       | _, e, _ => e
       end) ∧
    ∀ key, key ∉ tag_key ns <$> HEAD :: (ref_name <$> updates) → tags s' !! key = tags s !! key.
Proof.
  intros Eread Ep Ei Eh Hw Hv Hnd Hshort. pose proof (keeps_ingest_pack _ _ _ _ _ _ _ Ei) as Ht.
  assert (∀ key, version_at s1 key = version_at s key) as Hv1 by (intros key; unfold version_at; by rewrite Ht).
  destruct (update_refs_run ns hk updates s1) as (s' & br & Eu & Hdel & Hoth & Hbr).
  { intros u h e. rewrite Ht. apply Hw. }
  { intros key. rewrite Hv1. apply Hv. }
  { done. }
  assert (batch_of ns hk updates s1 = batch_of ns hk updates s) as Hbatch
    by (unfold batch_of, expected_version, tag_get; by rewrite Ht).
  assert (creatable ns hk updates s1 ↔ creatable ns hk updates s) as Hcr by (unfold creatable; by rewrite Ht).
  set (conflict := match br with Err e => Some (store_error_str e) | _ => None end).
  assert (∀ u, u ∈ updates → status_of br (deletes_of hk updates) [] (ref_name u) = if decide (is_delete hk u) then None else conflict) as Hst.
  { intros u Hu. unfold status_of. by apply decide_ext, (deletes_names ns). }
  destruct (report_status_reads hk s' (status_of br (deletes_of hk updates) []) updates Hshort) as (answer & Er & Ec).
  { intros u err Hu. rewrite Hst by done. case_decide; [done|]. intros Hc. eapply (conflict_short updates br); [done| |exact Hc]. intros e ->. apply Hbr. }
  exists s', answer, conflict. split_and!.
  - unfold handle_receive_pack. rewrite Eread, Ep. cbn [respond]. rewrite Ei. cbn [respond]. rewrite Eh. cbn [hook_rejection respond].
    rewrite Eu. cbn [respond]. by rewrite Er.
  - rewrite Ec. do 3 f_equal. apply list_fmap_ext. intros i u Hu%list_elem_of_lookup_2. by rewrite Hst.
  - destruct br as [[]|e|]; [|cbn; naive_solver|done]. cbn. rewrite <- Hcr. naive_solver.
  - done.
  - intros u Hu Hd. destruct br as [[]|e|]; [|by rewrite <- Ht; apply Hbr|done]. rewrite <- Hv1. by apply Hbr.
  - destruct br as [[]|e|]; [|destruct Hbr as (_ & _ & -> & _); rewrite Ht; by destruct (tags s !! tag_key ns HEAD)|done].
    destruct Hbr as (_ & _ & ->). cbn. by rewrite Hbatch, Ht.
  - intros key Hk. by rewrite Hoth, Ht.
Qed.
End pushes.

Section declined.
Context `{GixCrates} `{!PackCrates} `{TransferCrates} `{MemoryStoreConfig} `{PktCratesLaws} `{HookRunner}.

(** A push the hook declines, for whatever reason, changes no tag, though its
    objects stay ingested.  The answer names every reference with the reason, but
    outside of the side band, where the client looks for the report: that is empty. *)
Theorem declined_push src ns request hk s s1 ri items pack updates e rejection :
  read_lines [StopFlush] request = (items, pack) → parse_commands items = Ok updates →
  ingest_pack src ns pack hk s = (s1, Ok ri) → run_pre_receive ns updates 30 s1 = Err e →
  hook_rejection (Err e) = Ok (Some rejection) → zlen rejection ≤ 10000 → Forall short_update updates →
  ∃ answer, handle_receive_pack src ns request hk s = (s1, (answer, Ok ())) ∧ tags s1 = tags s ∧
    read_lines [StopFlush] answer
    = (PktData <$> ((λ u, line (rs "ng " ++ ref_name u ++ rs " pre-receive hook declined: " ++ rejection)) <$> updates), []) ∧
    demux (line_data (read_lines [StopFlush] answer).1) = [].
Proof.
  intros Eread Ep Ei Eh Er Hrej Hshort. pose proof (keeps_ingest_pack _ _ _ _ _ _ _ Ei) as Ht.
  set (ng := λ u, line (rs "ng " ++ ref_name u ++ rs " pre-receive hook declined: " ++ rejection)).
  assert (sends_stop (report_declined updates rejection) (concat ((λ u, [ng u]) <$> updates) ++ []) StopFlush) as Hs.
  { apply sends_stop_seq; [|apply sends_stop_here]. apply (sends_each _ (λ u, [ng u])), Forall_forall. intros u Hu.
    rewrite Forall_forall in Hshort. destruct (Hshort u Hu) as (Hn & _). apply sends_line. rewrite !length_app. cbn. lia. }
  assert (∀ l, concat ((λ u, [ng u]) <$> l) = ng <$> l) as Hcat by (induction l as [|u l IH]; [done|]; cbn; by f_equal).
  rewrite app_nil_r, Hcat in Hs. destruct (sends_stop_read _ _ _ [StopFlush] Hs ltac:(by left)) as (answer & E & Eread').
  exists answer. rewrite Eread'. split_and!; [|done|done|].
  - unfold handle_receive_pack. rewrite Eread, Ep. cbn [respond]. rewrite Ei. cbn [respond]. rewrite Eh, Er. cbn [respond]. by rewrite E.
  - cbn [fst]. rewrite line_data_fmap, <- (app_nil_r (ng <$> updates)). rewrite demux_quiet; [done|].
    apply Forall_forall. intros d (u & -> & _)%list_elem_of_fmap. done.
Qed.

(** The old value of a command is compared with nothing unless it is zero: whatever
    the reference holds, and whatever the client last saw, it is overwritten. *)
Theorem stale_push_overwrites ns hk u e s :
  tags_wf s → (∀ key, version_at s key < u64_max) → tag_key ns (ref_name u) ≠ tag_key ns HEAD →
  tags s !! ref_key ns u = Some e → ¬ is_delete hk u → old_oid u ≠ zero_oid hk →
  ∃ s', update_refs ns hk [u] s = (s', Ok (Ok (), [])) ∧
    te_kappa <$> tags s' !! ref_key ns u = Some (oid_to_kappa_string hk (new_oid u)).
Proof.
  intros Hw Hv Hne He Hd Ho. destruct (update_refs_run ns hk [u] s Hw Hv) as (s' & br & E & _ & _ & Hbr).
  { cbn [fmap list_fmap]. apply NoDup_cons. split; [intros E%list_elem_of_singleton; congruence|apply NoDup_singleton]. }
  exists s'. assert (creatable ns hk [u] s) as Hcr by (intros u' ->%list_elem_of_singleton _ Hz; by destruct Ho).
  destruct br as [[]|err|]; [|by destruct Hbr|done]. split; [done|]. destruct Hbr as (_ & Hset & _).
  by rewrite (Hset u ltac:(by left) Hd).
Qed.
End declined.

(** * A concrete push *)

(** A hook that says what it was given and refuses. *)
#[export] Instance sample_hooks : HookRunner := {| run_script script _ stdin _ := ScriptExited false (rs "1") (script ++ stdin) |}.

Definition sample_new : rstr := replicate 40 x61.

(** Create the main branch at an object that is not in the (empty) pack. *)
Definition sample_push : bytes :=
  ((_ ← data (line (zero_oid HashSha1 ++ x20 :: sample_new ++ x20 :: MAIN ++ x00 :: rs " report-status-v2 side-band-64k"));
    stop StopFlush) []).1
  ++ match generate_pack_sorted empty_store [] HashSha1 ∅ with Ok (pack, _) => pack | _ => [] end.

Lemma push_correct_witness :
  ∃ s' answer, handle_receive_pack sample_uploads sample_ns sample_push HashSha1 empty_store = (s', (answer, Ok ())) ∧
    tags s' !! tag_key sample_ns MAIN = Some (mkTag MAIN (rs "sha1:" ++ sample_new) 1) ∧
    tags s' !! tag_key sample_ns HEAD = Some (mkTag HEAD (rs "ref: refs/heads/main") 1).
Proof.
  set (u := mkRefUpdate (zero_oid HashSha1) sample_new MAIN).
  destruct (push_correct sample_uploads sample_ns sample_push HashSha1 empty_store empty_store (mkPackIngest 0 0)
    (read_lines [StopFlush] sample_push).1 (read_lines [StopFlush] sample_push).2 [u])
    as (s' & answer & conflict & E & _ & Hc & _ & Hset & Hhead & _).
  - vm_compute. reflexivity.
  - vm_compute. reflexivity.
  - vm_compute. reflexivity.
  - vm_compute. reflexivity.
  - intros ns h e He. discriminate He.
  - intros key. reflexivity.
  - apply (bool_decide_unpack _). vm_compute. exact I.
  - repeat constructor; vm_compute; discriminate.
  - exists s', answer. split; [exact E|].
    assert (conflict = None) as ->.
    { apply Hc. intros u' _ _ _. reflexivity. }
    split; [|rewrite Hhead; vm_compute; reflexivity].
    change (tags s' !! ref_key sample_ns u = Some (mkTag MAIN (rs "sha1:" ++ sample_new) 1)).
    rewrite (Hset u ltac:(by left)); [vm_compute; reflexivity|]. intros Hd. discriminate Hd.
Defined.

(** Nothing checks that a reference leads to a stored object: the push above is
    accepted and the branch it makes cannot be fetched. *)
Theorem push_of_missing_object :
  let s' := (handle_receive_pack sample_uploads sample_ns sample_push HashSha1 empty_store).1 in
  resolve_ref sample_ns HEAD s' = Ok (Some (rs "sha1:" ++ sample_new)) ∧
  has_blob s' (rs "sha1:" ++ sample_new) = false ∧
  need_of HashSha1 s' no_options [sample_new] ∅ = ([], ∅).
Proof. vm_compute. done. Qed.

Definition sample_hooked : store := (set_hook sample_ns (rs "pre-receive") (rs "no: ") empty_store).1.

Lemma declined_push_witness :
  ∃ s1 answer, handle_receive_pack sample_uploads sample_ns sample_push HashSha1 sample_hooked = (s1, (answer, Ok ())) ∧
    tags s1 = tags sample_hooked ∧ demux (line_data (read_lines [StopFlush] answer).1) = [].
Proof.
  set (u := mkRefUpdate (zero_oid HashSha1) sample_new MAIN).
  set (msg := rs "no: " ++ hook_stdin [u]).
  destruct (declined_push sample_uploads sample_ns sample_push HashSha1 sample_hooked sample_hooked (mkPackIngest 0 0)
    (read_lines [StopFlush] sample_push).1 (read_lines [StopFlush] sample_push).2 [u] (HookRejected msg) msg)
    as (answer & E & Ht & _ & Hd).
  - vm_compute. reflexivity.
  - vm_compute. reflexivity.
  - vm_compute. reflexivity.
  - vm_compute. reflexivity.
  - reflexivity.
  - vm_compute. discriminate.
  - repeat constructor; vm_compute; discriminate.
  - exists sample_hooked, answer. split; [exact E|]. split; [exact Ht|exact Hd].
Defined.
