(* ===== verification/Auth.v ===== *)
(** Auth: authorization of the server, [kappa-server/src/auth.rs], the request
    classes of [ratelimit.rs] and the layer of [layers/auth.rs] that applies both.

    The checks read a store through the class [AuthorityStore]; its laws say what
    an edge query returns, and the in-memory store is an instance.  The grounds a
    request can be granted on are stated apart from the code ([direct_ground],
    [delegated]): the code grants on no other ground. *)

From S2P Require Import Prelude Label Compute Types Merkle Epoch Identity Store MemStore MemTags MemEdge MemNamespace Http.

(** * What the checks read *)

Class AuthorityStore (St : Type) := {
  st_namespace_resolve : rstr → option rstr → St → outcome StoreError NamespaceRef;
  st_namespace_info : rstr → option rstr → St → outcome StoreError NamespaceRecord;
  st_edge_query : NamespaceRef → EdgeQuery → St → outcome StoreError (list Edge);
}.

(** The end of an edge a query is anchored at. *)
Definition query_end (d : Direction) (e : Edge) : rstr :=
  match d with Outbound => e_source e | Inbound => e_target e end.

(** A query answers with the namespace's edges at the anchor that pass the
    filters; [st_same] is how the index compares anchors. *)
Class AuthorityStoreLaws (St : Type) `{AuthorityStore St} := {
  st_ok : St → Prop;
  st_edge : St → NamespaceRef → Edge → Prop;
  st_same : rstr → rstr → Prop;
  st_same_refl : ∀ a, st_same a a;
  st_edge_query_ok : ∀ ns q s, st_ok s → ∃ es, st_edge_query ns q s = Ok es ∧
    ∀ e, e ∈ es ↔ st_edge s ns e ∧ st_same (query_end (q_direction q) e) (q_anchor q) ∧
      (∀ r, q_relation q = Some r → e_relation e = r) ∧ (∀ a, q_asserter q = Some a → e_asserter e = a);
  st_no_panic : ∀ name p s, st_namespace_resolve name p s ≠ Panic ∧ st_namespace_info name p s ≠ Panic;
}.

(** The derived [Deserialize] of a delegation's scope. *)
Class ScopeCrate := scope_from_slice : bytes → option DelegationScope.

(** * Operation classes *)

Inductive OpClass := Exempt | Read | Write | Admin.

#[export] Instance OpClass_eq_dec : EqDecision OpClass.
Proof. solve_decision. Defined.

Definition op_is_write (op : OpClass) : bool := match op with Write | Admin => true | _ => false end.

(** [path.contains(..)]. *)
Definition classify_request (method path : rstr) : OpClass :=
  let contains p := str_contains (rs p) path in
  if bool_decide (path = rs "/v2") || bool_decide (path = rs "/v2/")
     || starts_with (rs "/v2/_health/") path || bool_decide (path = rs "/_status") then Exempt
  else if contains "/gc/pin" || contains "/gc/unpin" || contains "/gc/sweep" then Admin
  else if contains "/_transaction/begin" || ends_with (rs "/commit") path
          || (contains "/_transaction/" && bool_decide (method = rs "DELETE")) then Admin
  else if contains "/_reconcile" then Admin
  else if contains "/blobs/_cascade" then Admin
  else if contains "/tags/_prefix" then Admin
  else if bool_decide (method = rs "DELETE") then Admin
  else if bool_decide (method = rs "GET") || bool_decide (method = rs "HEAD") then Read
  else Write.

Definition RESERVED_PREFIXES : list rstr :=
  rs <$> ["kappa/protocols"; "kappa/runtimes"; "kappa/os"; "kappa/identity"; "nix"; "sesame"].

Definition is_reserved (ns : rstr) : bool := existsb (λ r, starts_with r ns) RESERVED_PREFIXES.

Inductive AuthDecision := Allowed | AllowCreateNew | AllowedViaDelegation.

Inductive AuthError :=
| Forbidden (reason : rstr)
| AuthNotFound
| AuthStore (e : StoreError).

(** The word of a class in scopes and capabilities; an exempt request needs none. *)
Definition op_word (op : OpClass) : option rstr :=
  match op with
  | Read => Some (rs "read")
  | Write => Some (rs "write")
  | Admin => Some (rs "admin")
  | Exempt => None
  end.

(** * Effects: the checks may fail, and read the system clock *)

Definition Clocked (A : Type) : Type := nat → outcome AuthError (A * nat).

#[export] Instance Clocked_ret : MRet Clocked := λ A a n, Ok (a, n).
#[export] Instance Clocked_bind : MBind Clocked := λ A B f m n, '(a, n) ← m n; f a n.

Definition deny {A} (e : AuthError) : Clocked A := λ _, Err e.

(** [if let Ok(x) = m { .. }]: an error is no value. *)
Definition attempt {A} (m : outcome StoreError A) : Clocked (option A) := λ n,
  match m with
  | Ok a => Ok (Some a, n)
  | Err _ => Ok (None, n)
  | Panic => Panic
  end.

(** [m.map_err(AuthError::Store)?]. *)
Definition try_store {A} (m : outcome StoreError A) : Clocked A := λ n, a ← map_err AuthStore m; Ok (a, n).

Definition cap_query (anchor : rstr) (asserter : option rstr) : EdgeQuery :=
  mkQuery anchor Outbound (Some Capability) asserter.

(** * Bearer tokens *)

Record BearerAuth := mkBearer {
  ba_tokens : gmap rstr rstr;
  ba_required : bool;
}.

(** A later pair of a token replaces an earlier one. *)
Definition BearerAuth_new (tokens : list (rstr * rstr)) (required : bool) : BearerAuth :=
  mkBearer (foldl (λ m '(t, a), <[t := a]> m) ∅ tokens) required.

Definition quoted (s : rstr) : rstr := QUOTE :: s ++ [QUOTE].

(** [{"errors":[{"code":code,"message":message}]}], the message not escaped. *)
Definition error_body (code message : rstr) : bytes :=
  rs "{" ++ quoted (rs "errors") ++ rs ":[{" ++ quoted (rs "code") ++ rs ":" ++ quoted code ++ rs ","
  ++ quoted (rs "message") ++ rs ":" ++ quoted message ++ rs "}]}".

Definition unauthorized : Response :=
  response 401 [(rs "www-authenticate", rs "Bearer realm=" ++ quoted (rs "kappa-registry"));
                (rs "content-type", rs "application/json")]
    (error_body (rs "UNAUTHORIZED") (rs "authentication required")).

(** The caller's anchor, or the rejection. *)
Definition bearer_check (b : BearerAuth) (path : rstr) (authorization : option rstr) : rstr + Response :=
  if negb (ba_required b) || bool_decide (ba_tokens b = ∅) then inl (rs "anonymous")
  else if bool_decide (path = rs "/_status") || bool_decide (path = rs "/v2/") || bool_decide (path = rs "/v2")
          || starts_with (rs "/v2/_health/") path then inl (rs "anonymous")
  else
    match (v ← authorization; strip_prefix (rs "Bearer ") v) with
    | Some t => match ba_tokens b !! t with Some anchor => inl anchor | None => inr unauthorized end
    | None => inr unauthorized
    end.

(** * Trust policy *)

(** [None] once fused open. *)
Definition AllowList : Type := option (gset rstr).

Definition fuse_open (_ : AllowList) : AllowList := None.

Definition believes (p : AllowList) (asserter : rstr) : bool :=
  match p with
  | None => true
  | Some trusted => bool_decide (trusted = ∅) || bool_decide (asserter ∈ trusted)
  end.

Definition fuse (p : AllowList) (grouped : list (rstr * list IdentityAssertion)) : list (rstr * list IdentityAssertion) :=
  filter (λ g, g.2 ≠ [] ∧ believes p g.1 = true) grouped.

Section auth.
Context `{AuthorityStore St} `{JsonCrates} `{ScopeCrate}.

Definition cap_permits (edge : Edge) (op : OpClass) : bool :=
  match op_word op with
  | None => true
  | Some op_str =>
      match e_metadata edge with
      | None => false
      | Some meta_bytes =>
          match serde_from_slice meta_bytes with
          | inr _ => false
          | inl parsed =>
              match (ops ← json_get (rs "ops") parsed; as_array ops) with
              | Some ops => existsb (λ v, bool_decide (as_str v = Some op_str)) ops
              | None => false
              end
          end
      end
  end.

(** * Delegation chains *)

Section delegation.
(** The readings of the system clock, in the order they are taken. *)
Context (clock : nat → Z) (s : St).

Definition now_ms : Clocked Z := λ n, Ok (clock n, S n).

(** A self-asserted capability of the anchor permits the operation. *)
Definition has_capability (ns : NamespaceRef) (anchor : rstr) (op : OpClass) : Clocked bool :=
  edges ← attempt (st_edge_query ns (cap_query anchor (Some anchor)) s);
  mret (match edges with Some edges => existsb (λ e, cap_permits e op) edges | None => false end).

Fixpoint any_capability (nss : list NamespaceRef) (anchor : rstr) (op : OpClass) : Clocked bool :=
  match nss with
  | [] => mret false
  | ns :: nss => c ← has_capability ns anchor op; if (c : bool) then mret true else any_capability nss anchor op
  end.

(** The guards on an edge that [continue]: its scope when none applies. *)
Definition admitted_scope (ns : NamespaceRef) (op_str : rstr) (now : Z) (edge : Edge) : option DelegationScope :=
  meta ← e_metadata edge;
  scope ← scope_from_slice meta;
  if negb (bool_decide (dsc_namespaces scope = []))
     && negb (existsb (λ n, starts_with n (ns_as_str ns)) (dsc_namespaces scope)) then None
  else if negb (existsb (λ o, bool_decide (o = op_str)) (dsc_operations scope)) then None
  else if match dsc_expires_at_ms scope with Some expires => expires <? now | None => false end then None
  else if decide (e_asserter edge = e_source edge) then Some scope
  else None.

(** The loop over the edges of one namespace; [up] is the recursive call. *)
Fixpoint scan_edges (up : rstr → Clocked (option Z)) (ns : NamespaceRef) (nss : list NamespaceRef) (op : OpClass)
  (op_str : rstr) (now : Z) (edges : list Edge) : Clocked (option Z) :=
  match edges with
  | [] => mret None
  | edge :: edges =>
      match admitted_scope ns op_str now edge with
      | None => scan_edges up ns nss op op_str now edges
      | Some scope =>
          c ← any_capability nss (e_source edge) op;
          if (c : bool) then mret (Some (dsc_delegation_depth scope))
          else
            parent ← up (e_source edge);
            match parent with
            | Some parent_depth =>
                if 1 <=? parent_depth then mret (Some (dsc_delegation_depth scope))
                else scan_edges up ns nss op op_str now edges
            | None => scan_edges up ns nss op op_str now edges
            end
      end
  end.

Fixpoint scan_namespaces (up : rstr → Clocked (option Z)) (ns : NamespaceRef) (nss : list NamespaceRef) (op : OpClass)
  (op_str : rstr) (now : Z) (query : EdgeQuery) (todo : list NamespaceRef) : Clocked (option Z) :=
  match todo with
  | [] => mret None
  | check_ns :: todo =>
      edges ← attempt (st_edge_query check_ns query s);
      match edges with
      | None => scan_namespaces up ns nss op op_str now query todo
      | Some edges =>
          found ← scan_edges up ns nss op op_str now edges;
          match found with
          | Some depth => mret (Some depth)
          | None => scan_namespaces up ns nss op op_str now query todo
          end
      end
  end.

(** [hops] is the number of hops still allowed, [6 - hop]. *)
Fixpoint check_delegation_inner (hops : nat) (ns : NamespaceRef) (op : OpClass) (target : rstr) : Clocked (option Z) :=
  match hops with
  | O => mret None
  | S hops =>
      match op_word op with
      | None => mret (Some u32_max)
      | Some op_str =>
          now ← now_ms;
          root_ns ← try_store (st_namespace_resolve (rs "_root") None s);
          let namespaces_to_check := [ns; root_ns] in
          let query := mkQuery target Inbound (Some Delegation) None in
          scan_namespaces (check_delegation_inner hops ns op) ns namespaces_to_check op op_str now query namespaces_to_check
      end
  end.

Definition check_delegation (ns : NamespaceRef) (op : OpClass) (target : rstr) : Clocked bool :=
  r ← check_delegation_inner 6 ns op target;
  mret (bool_decide (is_Some r)).

(** * The decision *)

(** [rfind('/')], and what is left of it. *)
Fixpoint before_last_slash (s : rstr) : option rstr :=
  match s with
  | [] => None
  | c :: s =>
      match before_last_slash s with
      | Some p => Some (c :: p)
      | None => if decide (c = SLASH) then Some [] else None
      end
  end.

(** The hierarchy walk; the name gets shorter. *)
Fixpoint walk_parents (fuel : nat) (name asserter : rstr) (op : OpClass) : Clocked bool :=
  match fuel, before_last_slash name with
  | S fuel, Some parent =>
      parent_ns ← attempt (st_namespace_resolve parent None s);
      match parent_ns with
      | Some parent_ns =>
          c ← has_capability parent_ns asserter op;
          if (c : bool) then mret true else walk_parents fuel parent asserter op
      | None => walk_parents fuel parent asserter op
      end
  | _, _ => mret false
  end.

(** The role an edge says its source holds. *)
Definition held_role (edge : Edge) : option rstr :=
  meta ← e_metadata edge;
  match serde_from_slice meta with
  | inl parsed => if decide (json_str (rs "type") parsed = Some (rs "holds-role")) then Some (e_target edge) else None
  | inr _ => None
  end.

Fixpoint walk_roles (ns : NamespaceRef) (op : OpClass) (edges : list Edge) : Clocked bool :=
  match edges with
  | [] => mret false
  | edge :: edges =>
      match held_role edge with
      | Some role_anchor =>
          c ← has_capability ns role_anchor op;
          if (c : bool) then mret true else walk_roles ns op edges
      | None => walk_roles ns op edges
      end
  end.

(** Step 3: the query is anchored at the empty string. *)
Definition seems_unclaimed (ns_ref : NamespaceRef) : Clocked bool :=
  if is_reserved (ns_as_str ns_ref) then mret false
  else
    caps ← attempt (st_edge_query ns_ref (cap_query [] None) s);
    mret (match caps with Some (_ :: _) => false | _ => true end).

(** Steps 2 to 7: an existing namespace. *)
Definition authorize_existing (ns_ref : NamespaceRef) (op : OpClass) (asserter : rstr) : Clocked AuthDecision :=
  let ns_name := ns_as_str ns_ref in
  info ← attempt (st_namespace_info ns_name None s);
  if bool_decide (nr_owner <$> info = Some asserter) then mret Allowed
  else
    unclaimed ← seems_unclaimed ns_ref;
    if (unclaimed : bool) then mret Allowed
    else
      direct ← has_capability ns_ref asserter op;
      if (direct : bool) then mret Allowed
      else
        inherited ← walk_parents (length ns_name) ns_name asserter op;
        if (inherited : bool) then mret Allowed
        else
          role_edges ← attempt (st_edge_query ns_ref (cap_query asserter None) s);
          role ← walk_roles ns_ref op (default [] role_edges);
          if (role : bool) then mret Allowed
          else
            delegated ← check_delegation ns_ref op asserter;
            if (delegated : bool) then mret AllowedViaDelegation
            else deny (Forbidden (rs "access denied")).

(** Step 1: authority on [_root]. *)
Definition root_authority (op : OpClass) (asserter : rstr) : Clocked bool :=
  root_ns ← attempt (st_namespace_resolve (rs "_root") None s);
  match root_ns with
  | None => mret false
  | Some root_ns =>
      admin ← has_capability root_ns asserter op;
      if (admin : bool) then mret true else check_delegation root_ns op asserter
  end.

Definition authorize (ns : ResolvedNamespace) (op : OpClass) (asserter : rstr) : Clocked AuthDecision :=
  if decide (op = Exempt) then mret Allowed
  else
    root ← root_authority op asserter;
    if (root : bool) then mret Allowed
    else
      match ns with
      | RExists ns_ref => authorize_existing ns_ref op asserter
      | RNotFound name _ =>
          if is_reserved name then
            deny (Forbidden (rs "reserved namespace '" ++ name ++ rs "' requires _root authority"))
          else if op_is_write op then mret AllowCreateNew
          else deny AuthNotFound
      | RNoNamespace => mret Allowed
      end.

(** * Edges that claim authority *)

Definition is_root_admin (asserter : rstr) : Clocked bool :=
  root_ns ← try_store (st_namespace_resolve (rs "_root") None s);
  direct ← has_capability root_ns asserter Admin;
  if (direct : bool) then mret true else check_delegation root_ns Admin asserter.

Definition owns_namespace (ns : ResolvedNamespace) (asserter : rstr) : Clocked bool :=
  match ns with
  | RExists ns_ref =>
      info ← attempt (st_namespace_info (ns_as_str ns_ref) None s);
      mret (bool_decide (nr_owner <$> info = Some asserter))
  | RNotFound _ _ => mret true
  | RNoNamespace => mret false
  end.

Definition check_authority_edge (ns : ResolvedNamespace) (asserter : rstr) (body : bytes) : Clocked () :=
  match serde_from_slice body with
  | inr _ => mret ()
  | inl v =>
      let relation := (r ← as_str (json_index (rs "relation") v); relation_parse r) in
      let is_capability := bool_decide (relation = Some Capability) in
      if negb is_capability && negb (bool_decide (relation = Some Delegation)) then mret ()
      else if decide (asserter = rs "anonymous") then
        deny (Forbidden (rs "capability and delegation edges require an authenticated caller"))
      else if decide (as_str (json_index (rs "source") v) ≠ Some asserter) then
        deny (Forbidden (rs "edge source must be the caller"))
      else if is_capability then
        is_owner ← owns_namespace ns asserter;
        if (is_owner : bool) then mret ()
        else
          admin ← is_root_admin asserter;
          if (admin : bool) then mret ()
          else deny (Forbidden (rs "only the namespace owner or a _root admin can create capability edges"))
      else mret ()
  end.

(** * The layer *)

(** The layer answers itself, or runs the rest with the caller's identity. *)
Inductive LayerResult :=
| Answer (r : Response)
| Proceed (asserter : rstr) (body : option bytes).

Definition denied (reason : rstr) : Response :=
  response 403 [(rs "content-type", rs "application/json")] (error_body (rs "DENIED") reason).

Definition internal_error : Response := response 500 [] (rs "internal server error").

Definition authorize_answer (e : AuthError) : Response :=
  match e with
  | AuthNotFound => response 404 [] (rs "not found")
  | Forbidden reason => denied reason
  | AuthStore _ => internal_error
  end.

Definition authority_answer (e : AuthError) : Response :=
  match e with Forbidden reason => denied reason | _ => internal_error end.

(** A check in a blocking task: the answer, or the checks that follow. *)
Definition checked {A} (answer : AuthError → Response) (m : Clocked A) (n : nat) (k : nat → LayerResult) : LayerResult :=
  match m n with
  | Ok (_, n) => k n
  | Err e => Answer (answer e)
  | Panic => Answer internal_error
  end.

Definition effective_op (method path : rstr) (detected : option DetectedOperation) : OpClass :=
  let op := classify_request method path in
  match detected with
  | Some d => if is_write d && bool_decide (op = Read) then Write else op
  | None => op
  end.

Definition is_edge_write (method path : rstr) : bool :=
  bool_decide (method = rs "PUT") && starts_with (rs "/v2/") path && ends_with (rs "/edges/") path.

(** [body] is [None] when reading it fails; only an edge write reads it here. *)
Definition auth_layer (bearer : option BearerAuth) (method path : rstr) (authorization : option rstr)
  (resolved : ResolvedNamespace) (detected : option DetectedOperation) (body : option bytes) : LayerResult :=
  match match bearer with Some b => bearer_check b path authorization | None => inl (rs "anonymous") end with
  | inr rejection => Answer rejection
  | inl asserter =>
      let op := effective_op method path detected in
      let edge_check n :=
        if is_edge_write method path then
          match body with
          | None => Answer (response 400 [] (rs "failed to read request body"))
          | Some bytes =>
              checked authority_answer (check_authority_edge resolved asserter bytes) n (λ _, Proceed asserter (Some bytes))
          end
        else Proceed asserter body in
      if decide (op = Exempt) then edge_check O
      else checked authorize_answer (authorize resolved op asserter) O edge_check
  end.
End delegation.

(** * The grounds of a grant *)

Section grounds.
Context `{!AuthorityStoreLaws St}.
Implicit Types (s : St).

(** A capability edge of the anchor, asserted by the anchor, for the operation. *)
Definition capable s (ns : NamespaceRef) (anchor : rstr) (op : OpClass) : Prop :=
  ∃ e, st_edge s ns e ∧ e_relation e = Capability ∧ e_asserter e = anchor ∧ st_same (e_source e) anchor ∧
    cap_permits e op = true.

(** [delegated clock s root ns op k target depth]: a chain of [k + 1] delegations
    to [target], each live, in scope and asserted by its own source, from a holder
    of a capability in the namespace or in the root; every delegation but the last
    allows another one. *)
Inductive delegated (clock : nat → Z) s (root ns : NamespaceRef) (op : OpClass) : nat → rstr → Z → Prop :=
| delegated_first e at_ns t word scope target :
    op_word op = Some word → at_ns ∈ [ns; root] → st_edge s at_ns e → e_relation e = Delegation →
    st_same (e_target e) target → admitted_scope ns word (clock t) e = Some scope →
    (capable s ns (e_source e) op ∨ capable s root (e_source e) op) →
    delegated clock s root ns op 0 target (dsc_delegation_depth scope)
| delegated_next e at_ns t word scope target k parent_depth :
    op_word op = Some word → at_ns ∈ [ns; root] → st_edge s at_ns e → e_relation e = Delegation →
    st_same (e_target e) target → admitted_scope ns word (clock t) e = Some scope →
    delegated clock s root ns op k (e_source e) parent_depth → 1 ≤ parent_depth →
    delegated clock s root ns op (S k) target (dsc_delegation_depth scope).

(** Proper ancestors by name: what precedes a slash. *)
Definition ancestor (name parent : rstr) : Prop := ∃ rest, name = parent ++ SLASH :: rest.

Definition is_owner s (name asserter : rstr) : Prop :=
  ∃ r, st_namespace_info name None s = Ok r ∧ nr_owner r = asserter.

(** No capability edge is anchored at the empty string. *)
Definition unclaimed s (n : NamespaceRef) : Prop :=
  is_reserved (ns_as_str n) = false ∧ ¬ ∃ e, st_edge s n e ∧ e_relation e = Capability ∧ st_same (e_source e) [].

(** A capability of an ancestor namespace, and of a role the caller holds. *)
Definition inherits s (n : NamespaceRef) (asserter : rstr) (op : OpClass) : Prop :=
  ∃ parent p, ancestor (ns_as_str n) parent ∧ st_namespace_resolve parent None s = Ok p ∧ capable s p asserter op.
Definition has_role s (n : NamespaceRef) (asserter : rstr) (op : OpClass) : Prop :=
  ∃ e role, st_edge s n e ∧ e_relation e = Capability ∧ st_same (e_source e) asserter ∧
    held_role e = Some role ∧ capable s n role op.

(** The grounds other than a delegation, in the order of the steps. *)
Definition direct_ground s (root : NamespaceRef) (ns : ResolvedNamespace) (op : OpClass) (asserter : rstr) : Prop :=
  op = Exempt ∨ capable s root asserter op ∨
  match ns with
  | RExists n =>
      is_owner s (ns_as_str n) asserter ∨ unclaimed s n ∨ capable s n asserter op
      ∨ inherits s n asserter op ∨ has_role s n asserter op
  | RNotFound name _ => is_reserved name = false ∧ op_is_write op = true
  | RNoNamespace => True
  end.
End grounds.
End auth.

(** * Running the checks *)

Lemma clocked_run {A B} (m : Clocked A) (f : A → Clocked B) n n' a :
  m n = Ok (a, n') → (m ≫= f) n = f a n'.
Proof. unfold mbind, Clocked_bind. by intros ->. Qed.

Lemma attempt_ok {A} (m : outcome StoreError A) a n : m = Ok a → attempt m n = Ok (Some a, n).
Proof. by intros ->. Qed.

Section checks.
Context `{AuthorityStore St} `{!AuthorityStoreLaws St} `{JsonCrates} `{ScopeCrate}.
Context (clock : nat → Z) (s : St) (Hs : st_ok s).

Lemma has_capability_run ns anchor op n :
  ∃ b, has_capability s ns anchor op n = Ok (b, n) ∧ (b = true ↔ capable s ns anchor op).
Proof.
  unfold has_capability. destruct (st_edge_query_ok ns (cap_query anchor (Some anchor)) s Hs) as (es & E & Hes).
  rewrite (clocked_run _ _ _ n (Some es)) by (by apply attempt_ok). eexists. split; [done|].
  rewrite existsb_exists. unfold capable. split.
  - intros (e & He%list_elem_of_In & Hp). apply Hes in He as (Hin & Hsame & Hr & Ha). exists e.
    split_and!; [done|by apply Hr|by apply Ha|done|done].
  - intros (e & Hin & Hr & Ha & Hsame & Hp). exists e. split; [|done]. apply list_elem_of_In, Hes.
    split_and!; [done|done|by intros r [= <-]|by intros a [= <-]].
Qed.

Lemma any_capability_run nss anchor op n :
  ∃ b, any_capability s nss anchor op n = Ok (b, n) ∧ (b = true ↔ ∃ ns, ns ∈ nss ∧ capable s ns anchor op).
Proof.
  induction nss as [|ns nss IH]; cbn [any_capability].
  { exists false. split; [done|]. split; [done|]. by intros (ns & Hns%elem_of_nil & _). }
  destruct (has_capability_run ns anchor op n) as (b & E & Hb). rewrite (clocked_run _ _ _ _ _ E).
  destruct b.
  - exists true. split; [done|]. split; [|done]. intros _. exists ns. split; [left|by apply Hb].
  - destruct IH as (b & E' & Hb'). exists b. split; [done|]. rewrite Hb'.
    split; intros (x & Hx & Hc); exists x; (split; [|done]); [by right|].
    apply elem_of_cons in Hx as [->|Hx]; [|done]. apply Hb in Hc. done.
Qed.

Section chains.
Context (root : NamespaceRef) (Hroot : st_namespace_resolve (rs "_root") None s = Ok root).
Context (ns : NamespaceRef) (op : OpClass) (word : rstr) (Hword : op_word op = Some word).

(** What is asked of the recursive call: it returns, and only depths of chains. *)
Definition chain_check (hops : nat) (up : rstr → Clocked (option Z)) : Prop :=
  ∀ target n, ∃ r n', up target n = Ok (r, n') ∧
    ∀ d, r = Some d → ∃ k, (k < hops)%nat ∧ delegated clock s root ns op k target d.

(** A delegation edge to the target, stored where the check looks. *)
Definition candidate_edge (target : rstr) (e : Edge) : Prop :=
  ∃ at_ns, at_ns ∈ [ns; root] ∧ st_edge s at_ns e ∧ e_relation e = Delegation ∧ st_same (e_target e) target.

Lemma scan_edges_run hops up t target es n :
  chain_check hops up → (∀ e, e ∈ es → candidate_edge target e) →
  ∃ r n', scan_edges s up ns [ns; root] op word (clock t) es n = Ok (r, n') ∧
    ∀ d, r = Some d → ∃ k, (k < S hops)%nat ∧ delegated clock s root ns op k target d.
Proof.
  intros Hup. revert n. induction es as [|e es IH]; intros n Hes; cbn [scan_edges]; [by exists None, n|].
  assert (∀ n, ∃ r n', scan_edges s up ns [ns; root] op word (clock t) es n = Ok (r, n') ∧
    ∀ d, r = Some d → ∃ k, (k < S hops)%nat ∧ delegated clock s root ns op k target d) as Hrest.
  { intros m. apply IH. intros e' He'. apply Hes. by right. }
  destruct (admitted_scope ns word (clock t) e) as [scope|] eqn:Esc; [|apply Hrest].
  destruct (Hes e) as (at_ns & Hat & Hin & Hr & Hsame); [by left|].
  destruct (any_capability_run [ns; root] (e_source e) op n) as (b & E & Hb). rewrite (clocked_run _ _ _ _ _ E).
  destruct b.
  { exists (Some (dsc_delegation_depth scope)), n. split; [done|]. intros d [= <-]. exists 0%nat. split; [lia|].
    eapply delegated_first; [done..|]. destruct Hb as [(c & Hc & Hcap) _]; [done|].
    repeat (apply elem_of_cons in Hc as [->|Hc]; [by (left + right)|]). by apply elem_of_nil in Hc. }
  destruct (Hup (e_source e) n) as (p & n1 & Ep & Hp). rewrite (clocked_run _ _ _ _ _ Ep).
  destruct p as [pd|]; [|apply Hrest]. destruct (Z.leb_spec 1 pd); [|apply Hrest].
  exists (Some (dsc_delegation_depth scope)), n1. split; [done|]. intros d [= <-].
  destruct (Hp pd eq_refl) as (k & Hk & Hd). exists (S k). split; [lia|]. by eapply delegated_next.
Qed.

Lemma scan_namespaces_run hops up t target todo n :
  chain_check hops up → (∀ x, x ∈ todo → x ∈ [ns; root]) →
  ∃ r n', scan_namespaces s up ns [ns; root] op word (clock t) (mkQuery target Inbound (Some Delegation) None) todo n
          = Ok (r, n') ∧
    ∀ d, r = Some d → ∃ k, (k < S hops)%nat ∧ delegated clock s root ns op k target d.
Proof.
  intros Hup. revert n. induction todo as [|x todo IH]; intros n Htodo; cbn [scan_namespaces]; [by exists None, n|].
  destruct (st_edge_query_ok x (mkQuery target Inbound (Some Delegation) None) s Hs) as (es & E & Hes).
  rewrite (clocked_run _ _ _ n (Some es)) by (by apply attempt_ok). cbv beta iota.
  destruct (scan_edges_run hops up t target es n Hup) as (r & n1 & Er & Hr).
  { intros e (Hin & Hsame & Hrel & _)%Hes. exists x. split_and!; [apply Htodo; by left|done|by apply Hrel|done]. }
  rewrite (clocked_run _ _ _ _ _ Er). destruct r as [d|]; [by exists (Some d), n1|].
  apply IH. intros y Hy. apply Htodo. by right.
Qed.

(** The walk returns within its hops, and what it finds is a chain. *)
Lemma check_inner_run hops : chain_check hops (check_delegation_inner clock s hops ns op).
Proof.
  induction hops as [|hops IH]; intros target n; cbn [check_delegation_inner]; [by exists None, n|].
  rewrite Hword. rewrite (clocked_run _ _ _ (S n) (clock n)) by done.
  rewrite (clocked_run _ _ _ (S n) root) by (unfold try_store; by rewrite Hroot).
  apply scan_namespaces_run; [exact IH|done].
Qed.

Lemma check_delegation_run target n :
  ∃ b n', check_delegation clock s ns op target n = Ok (b, n') ∧
    (b = true → ∃ k d, (k ≤ 5)%nat ∧ delegated clock s root ns op k target d).
Proof.
  unfold check_delegation. destruct (check_inner_run 6 target n) as (r & n' & E & Hr).
  rewrite (clocked_run _ _ _ _ _ E). eexists _, n'. split; [done|]. intros Hb%bool_decide_eq_true.
  destruct Hb as [d ->]. destruct (Hr d eq_refl) as (k & Hk & Hd). exists k, d. split; [lia|done].
Qed.
End chains.

(** * The hierarchy *)

Lemma before_last_slash_spec name :
  match before_last_slash name with
  | Some p => ∃ rest, name = p ++ SLASH :: rest ∧ SLASH ∉ rest
  | None => SLASH ∉ name
  end.
Proof.
  induction name as [|c name IH]; cbn [before_last_slash]; [set_solver|].
  destruct (before_last_slash name) as [p|].
  - destruct IH as (rest & -> & Hr). by exists rest.
  - case_decide; [subst; by exists name|set_solver].
Qed.

(** The ancestors are the name before its last slash and that name's ancestors. *)
Lemma ancestor_before name p q :
  before_last_slash name = Some p → ancestor name q ↔ q = p ∨ ancestor p q.
Proof.
  intros E. pose proof (before_last_slash_spec name) as Hs'. rewrite E in Hs'. destruct Hs' as (rest & -> & Hr).
  split.
  - intros (r & Hr'). assert (q `prefix_of` p ∨ p `prefix_of` q) as Hpre.
    { apply (prefix_weak_total _ _ (p ++ SLASH :: rest)); [by rewrite Hr'; eexists|by eexists]. }
    destruct Hpre as [[x ->]|[x ->]].
    + rewrite <- app_assoc in Hr'. apply (inj (app q)) in Hr'. destruct x as [|c x]; [left; by rewrite app_nil_r|].
      injection Hr' as -> Hr'. right. by exists x.
    + rewrite <- app_assoc in Hr'. apply (inj (app p)) in Hr'. destruct x as [|c x]; [left; by rewrite app_nil_r|].
      injection Hr' as <- Hr'. exfalso. apply Hr. rewrite Hr'. set_solver.
  - intros [->|[r ->]]; [by exists rest|]. exists (r ++ SLASH :: rest). by rewrite <- app_assoc.
Qed.

Lemma ancestor_none name q : before_last_slash name = None → ¬ ancestor name q.
Proof.
  intros E [r ->]. pose proof (before_last_slash_spec (q ++ SLASH :: r)) as Hs'. rewrite E in Hs'. set_solver.
Qed.

Lemma walk_parents_run fuel name asserter op n : (length name ≤ fuel)%nat →
  ∃ b, walk_parents s fuel name asserter op n = Ok (b, n) ∧
    (b = true ↔ ∃ parent p, ancestor name parent ∧ st_namespace_resolve parent None s = Ok p ∧ capable s p asserter op).
Proof.
  revert name. induction fuel as [|fuel IH]; intros name Hf.
  { destruct name; [|cbn in Hf; lia]. exists false. split; [done|]. split; [done|].
    intros (q & p & Hq & _). by apply ancestor_none in Hq. }
  cbn [walk_parents]. destruct (before_last_slash name) as [parent|] eqn:E.
  2:{ exists false. split; [done|]. split; [done|]. intros (q & p & Hq & _). by apply (ancestor_none _ q E) in Hq. }
  destruct (IH parent) as (b & Eb & Hb).
  { pose proof (before_last_slash_spec name) as Hs'. rewrite E in Hs'. destruct Hs' as (rest & -> & _).
    rewrite length_app in Hf. cbn in Hf. lia. }
  assert ((∃ q p, ancestor name q ∧ st_namespace_resolve q None s = Ok p ∧ capable s p asserter op) ↔
    (∃ p, st_namespace_resolve parent None s = Ok p ∧ capable s p asserter op) ∨
    (∃ q p, ancestor parent q ∧ st_namespace_resolve q None s = Ok p ∧ capable s p asserter op)) as Hsplit.
  { split.
    - intros (q & p & Hq & Hp). apply (ancestor_before _ _ _ E) in Hq as [->|Hq]; [left|right]; eauto.
    - intros [(p & Hp)|(q & p & Hq & Hp)]; [exists parent, p|exists q, p];
        (split; [apply (ancestor_before _ _ _ E); by (left + right)|done]). }
  setoid_rewrite Hsplit. destruct (st_namespace_resolve parent None s) as [p|e|] eqn:Er.
  - rewrite (clocked_run _ _ _ n (Some p)) by (by apply attempt_ok).
    destruct (has_capability_run p asserter op n) as (c & Ec & Hc). rewrite (clocked_run _ _ _ _ _ Ec).
    destruct c; [exists true; split; [done|]; split; [|done]; intros _; left; exists p; split; [done|by apply Hc]|].
    exists b. split; [done|]. rewrite Hb. split; [by right|]. intros [(p' & [= <-] & Hp)|Hq]; [|done].
    apply Hc in Hp. done.
  - rewrite (clocked_run _ _ _ n None) by done. exists b. split; [done|]. rewrite Hb.
    split; [by right|]. by intros [(p & ? & _)|Hq].
  - by destruct (proj1 (st_no_panic parent None s)).
Qed.

Lemma walk_roles_run ns op es n :
  ∃ b, walk_roles s ns op es n = Ok (b, n) ∧
    (b = true ↔ ∃ e role, e ∈ es ∧ held_role e = Some role ∧ capable s ns role op).
Proof.
  induction es as [|e es IH]; cbn [walk_roles].
  { exists false. split; [done|]. split; [done|]. by intros (e & role & He%elem_of_nil & _). }
  destruct IH as (b & Eb & Hb).
  assert ((∃ x role, x ∈ e :: es ∧ held_role x = Some role ∧ capable s ns role op) ↔
    (∃ role, held_role e = Some role ∧ capable s ns role op) ∨
    (∃ x role, x ∈ es ∧ held_role x = Some role ∧ capable s ns role op)) as Hsplit.
  { split.
    - intros (x & role & [->|Hx]%elem_of_cons & Hh); [left|right]; eauto.
    - intros [(role & Hh)|(x & role & Hx & Hh)]; [exists e, role|exists x, role]; (split; [|done]); [left|by right]. }
  setoid_rewrite Hsplit. destruct (held_role e) as [role|].
  - destruct (has_capability_run ns role op n) as (c & Ec & Hc). rewrite (clocked_run _ _ _ _ _ Ec).
    destruct c; [exists true; split; [done|]; split; [|done]; intros _; left; exists role; split; [done|by apply Hc]|].
    exists b. split; [done|]. rewrite Hb. split; [by right|]. intros [(r & [= <-] & Hp)|Hq]; [|done]. by apply Hc in Hp.
  - exists b. split; [done|]. rewrite Hb. split; [by right|]. by intros [(r & ? & _)|Hq].
Qed.

(** * The decision *)

Section decision.
Context (root : NamespaceRef) (Hroot : st_namespace_resolve (rs "_root") None s = Ok root).
Context (op : OpClass) (word : rstr) (Hword : op_word op = Some word).

Lemma seems_unclaimed_run ns n :
  ∃ b, seems_unclaimed s ns n = Ok (b, n) ∧ (b = true ↔ unclaimed s ns).
Proof.
  unfold seems_unclaimed, unclaimed. destruct (is_reserved (ns_as_str ns)); [by exists false; naive_solver|].
  destruct (st_edge_query_ok ns (cap_query [] None) s Hs) as (es & E & Hes).
  rewrite (clocked_run _ _ _ n (Some es)) by (by apply attempt_ok). eexists. split; [done|].
  assert ((∃ e, st_edge s ns e ∧ e_relation e = Capability ∧ st_same (e_source e) []) ↔ ∃ e, e ∈ es) as ->.
  { split; intros (e & He); exists e.
    - apply Hes. destruct He as (Hin & Hr & Hsame). split_and!; [done|done|by intros r [= <-]|done].
    - apply Hes in He as (Hin & Hsame & Hr & _). split_and!; [done|by apply Hr|done]. }
  destruct es as [|e es]; split; try done.
  - intros _. split; [done|]. by intros (e & He%elem_of_nil).
  - intros [_ Hno]. destruct Hno. exists e. left.
Qed.

Lemma owner_run name asserter n :
  ∃ info, attempt (st_namespace_info name None s) n = Ok (info, n) ∧
    (nr_owner <$> info = Some asserter ↔ is_owner s name asserter).
Proof.
  unfold is_owner. pose proof (proj2 (st_no_panic name None s)) as Hnp.
  destruct (st_namespace_info name None s) as [r|e|]; [exists (Some r)|exists None|done]; (split; [done|]).
  - cbn. split; [intros [= <-]; eauto|]. by intros (r' & [= <-] & <-).
  - split; [done|]. by intros (r' & ? & _).
Qed.

Lemma roles_run ns asserter n :
  ∃ es b, attempt (st_edge_query ns (cap_query asserter None) s) n = Ok (Some es, n) ∧
    walk_roles s ns op es n = Ok (b, n) ∧ (b = true ↔ has_role s ns asserter op).
Proof.
  destruct (st_edge_query_ok ns (cap_query asserter None) s Hs) as (es & E & Hes).
  destruct (walk_roles_run ns op es n) as (b & Eb & Hb). exists es, b. split; [by apply attempt_ok|]. split; [done|].
  rewrite Hb. unfold has_role. split; intros (e & role & He).
  - destruct He as (He & Hh & Hc). apply Hes in He as (Hin & Hsame & Hr & _). exists e, role.
    split_and!; [done|by apply Hr|done|done|done].
  - destruct He as (Hin & Hr & Hsame & Hh & Hc). exists e, role. split_and!; [|done|done]. apply Hes.
    split_and!; [done|done|by intros r [= <-]|done].
Qed.

Lemma authorize_existing_run ns asserter n :
  let ground := is_owner s (ns_as_str ns) asserter ∨ unclaimed s ns ∨ capable s ns asserter op
                ∨ inherits s ns asserter op ∨ has_role s ns asserter op in
  match authorize_existing clock s ns op asserter n with
  | Ok (d, _) => ground ∨ ∃ k depth, (k ≤ 5)%nat ∧ delegated clock s root ns op k asserter depth
  | Err e => ¬ ground ∧ e = Forbidden (rs "access denied")
  | Panic => False
  end.
Proof.
  cbv zeta. unfold authorize_existing.
  destruct (owner_run (ns_as_str ns) asserter n) as (info & Ei & Hi). rewrite (clocked_run _ _ _ _ _ Ei).
  case_bool_decide as Ho; [left; left; by apply Hi|]. rewrite Hi in Ho.
  destruct (seems_unclaimed_run ns n) as (bu & Eu & Hu). rewrite (clocked_run _ _ _ _ _ Eu).
  destruct bu; [left; right; left; by apply Hu|].
  destruct (has_capability_run ns asserter op n) as (bc & Ec & Hc). rewrite (clocked_run _ _ _ _ _ Ec).
  destruct bc; [left; do 2 right; left; by apply Hc|].
  destruct (walk_parents_run (length (ns_as_str ns)) (ns_as_str ns) asserter op n) as (bp & Ep & Hp); [done|].
  rewrite (clocked_run _ _ _ _ _ Ep). destruct bp; [left; do 3 right; left; by apply Hp|].
  destruct (roles_run ns asserter n) as (es & br & Ee & Er & Hr).
  rewrite (clocked_run _ _ _ _ _ Ee). cbn [from_option id default]. rewrite (clocked_run _ _ _ _ _ Er).
  destruct br; [left; do 4 right; by apply Hr|].
  destruct (check_delegation_run root Hroot ns op word Hword asserter n) as (bd & n' & Ed & Hd).
  rewrite (clocked_run _ _ _ _ _ Ed). destruct bd; [right; by apply Hd|].
  split; [|done]. intros [?|[?%Hu|[?%Hc|[?%Hp|?%Hr]]]]; done.
Qed.

Lemma root_authority_run asserter n :
  ∃ b n', root_authority clock s op asserter n = Ok (b, n') ∧ (capable s root asserter op → b = true) ∧
    (b = true → capable s root asserter op ∨
       ∃ k depth, (k ≤ 5)%nat ∧ delegated clock s root root op k asserter depth).
Proof.
  unfold root_authority. rewrite (clocked_run _ _ _ n (Some root)) by (by apply attempt_ok).
  destruct (has_capability_run root asserter op n) as (bc & Ec & Hc). rewrite (clocked_run _ _ _ _ _ Ec).
  destruct bc; [exists true, n; split_and!; [done|done|]; intros _; left; by apply Hc|].
  destruct (check_delegation_run root Hroot root op word Hword asserter n) as (bd & n' & Ed & Hd).
  exists bd, n'. split_and!; [done|intros Hcap; by apply Hc in Hcap|]. intros Hb. right. by apply Hd.
Qed.
End decision.
End checks.

Lemma authorize_grounds `{AuthorityStore St} `{!AuthorityStoreLaws St} `{JsonCrates} `{ScopeCrate}
  clock (s : St) root ns op asserter n :
  st_ok s → st_namespace_resolve (rs "_root") None s = Ok root →
  match authorize clock s ns op asserter n with
  | Ok _ => direct_ground s root ns op asserter ∨
      ∃ at_ns k depth, (at_ns = root ∨ ns = RExists at_ns) ∧ (k ≤ 5)%nat ∧
        delegated clock s root at_ns op k asserter depth
  | Err e => ¬ direct_ground s root ns op asserter ∧ ((∃ reason, e = Forbidden reason) ∨ e = AuthNotFound)
  | Panic => False
  end.
Proof.
  intros Hs Hroot. unfold authorize. destruct (decide (op = Exempt)) as [He|He]; [left; by left|].
  assert (∃ word, op_word op = Some word) as [word Hword] by (destruct op; [done|by eexists..]).
  destruct (root_authority_run clock s Hs root Hroot op word Hword asserter n) as (b & n' & E & Hb1 & Hb2).
  rewrite (clocked_run _ _ _ _ _ E). destruct b.
  { destruct (Hb2 eq_refl) as [Hc|(k & depth & Hk & Hd)]; [left; right; by left|].
    right. exists root, k, depth. auto. }
  unfold direct_ground. destruct ns as [ns|name proto|]; [| |left; by right; right].
  - pose proof (authorize_existing_run clock s Hs root Hroot op word Hword ns asserter n') as Hx. cbv zeta in Hx.
    destruct (authorize_existing clock s ns op asserter n') as [[d n'']|e|]; [|destruct Hx as [Hng ->]|done].
    + destruct Hx as [Hg|(k & depth & Hk & Hd)]; [left; tauto|]. right. exists ns, k, depth. auto.
    + split; [|left; by eexists]. intros [?|[?%Hb1|?]]; done.
  - destruct (is_reserved name); [split; [|left; by eexists]; intros [?|[?%Hb1|[??]]]; done|].
    destruct (op_is_write op); [left; by right; right|]. split; [|by right]. intros [?|[?%Hb1|[??]]]; done.
Qed.

(** * Properties *)


(** Step 3 asks for capability edges of the empty anchor instead of any anchor:
    in a namespace that is not reserved every operation is granted to everybody,
    whatever capability edges the namespace has, unless one of them has the empty
    string as its source. *)
Theorem authorize_open `{AuthorityStore St} `{!AuthorityStoreLaws St} `{JsonCrates} `{ScopeCrate}
  clock (s : St) root ns op asserter n
  (Hs : st_ok s) (Hroot : st_namespace_resolve (rs "_root") None s = Ok root)
  (Hopen : is_reserved (ns_as_str ns) = false)
  (Hcaps : ∀ e, st_edge s ns e → e_relation e = Capability → ¬ st_same (e_source e) []) :
  is_ok (authorize clock s (RExists ns) op asserter n) = true.
Proof.
  pose proof (authorize_grounds clock s root (RExists ns) op asserter n Hs Hroot) as H'.
  destruct (authorize clock s (RExists ns) op asserter n); [done| |done]. destruct H' as [Hno _]. destruct Hno.
  right. right. right. left. split; [done|]. intros (er & He & Hr & Hsame). by apply (Hcaps er).
Qed.

Lemma bearer_check_anchor b path authorization asserter :
  bearer_check b path authorization = inl asserter → asserter ≠ rs "anonymous" →
  ∃ t, authorization = Some (rs "Bearer " ++ t) ∧ ba_tokens b !! t = Some asserter.
Proof.
  unfold bearer_check. intros E Hne. destruct (negb _ || _); [congruence|].
  destruct (bool_decide (path = rs "/_status") || _ || _ || _); [congruence|].
  destruct authorization as [v|]; [|done]. cbn [mbind option_bind] in E. unfold strip_prefix in E.
  destruct (starts_with (rs "Bearer ") v) eqn:Hp; [|done]. unfold starts_with in Hp.
  apply bool_decide_eq_true in Hp as [t ->]. exists t. split; [done|].
  rewrite drop_app_length in E. by destruct (ba_tokens b !! t); congruence.
Qed.

(** What [check_authority_edge] lets through. *)
Definition authority_ground `{AuthorityStore St} `{!AuthorityStoreLaws St} `{JsonCrates} `{ScopeCrate}
  clock (s : St) (root : NamespaceRef) (ns : ResolvedNamespace) (asserter : rstr) : Prop :=
  match ns with
  | RExists n => is_owner s (ns_as_str n) asserter
  | RNotFound _ _ => True
  | RNoNamespace => False
  end
  ∨ capable s root asserter Admin ∨ ∃ k depth, (k ≤ 5)%nat ∧ delegated clock s root root Admin k asserter depth.

Lemma check_authority_edge_source `{AuthorityStore St} `{JsonCrates} `{ScopeCrate}
  clock (s : St) ns asserter body v rel n x :
  check_authority_edge clock s ns asserter body n = Ok x →
  serde_from_slice body = inl v → (w ← as_str (json_index (rs "relation") v); relation_parse w) = Some rel →
  rel ∈ [Capability; Delegation] →
  asserter ≠ rs "anonymous" ∧ as_str (json_index (rs "source") v) = Some asserter.
Proof.
  unfold check_authority_edge. intros E Hv Hrel Hin. rewrite Hv, Hrel in E. cbv zeta in E.
  assert (negb (bool_decide (Some rel = Some Capability)) && negb (bool_decide (Some rel = Some Delegation)) = false) as Hg.
  { repeat (apply elem_of_cons in Hin as [->|Hin]; [done|]). by apply elem_of_nil in Hin. }
  rewrite Hg in E. destruct (decide (asserter = rs "anonymous")) as [|Hne]; [done|].
  by destruct (decide (as_str (json_index (rs "source") v) ≠ Some asserter)) as [|Hsrc%dec_stable].
Qed.

Lemma check_authority_edge_ok `{AuthorityStore St} `{!AuthorityStoreLaws St} `{JsonCrates} `{ScopeCrate}
  clock (s : St) root ns asserter body v rel n x :
  st_ok s → st_namespace_resolve (rs "_root") None s = Ok root →
  check_authority_edge clock s ns asserter body n = Ok x →
  serde_from_slice body = inl v → (w ← as_str (json_index (rs "relation") v); relation_parse w) = Some rel →
  rel ∈ [Capability; Delegation] →
  asserter ≠ rs "anonymous" ∧ as_str (json_index (rs "source") v) = Some asserter ∧
  (rel = Capability → authority_ground clock s root ns asserter).
Proof.
  intros Hs Hroot E Hv Hrel Hin.
  destruct (check_authority_edge_source clock s ns asserter body v rel n x E Hv Hrel Hin) as [Hne Hsrc].
  split_and!; [done|done|]. intros ->. unfold check_authority_edge in E. rewrite Hv, Hrel in E. cbv zeta in E.
  rewrite bool_decide_true in E by done. cbn [negb andb] in E.
  rewrite decide_False in E by done. rewrite decide_False in E by (intros N; by apply N).
  assert (∃ b n', owns_namespace s ns asserter n = Ok (b, n') ∧ (b = true → match ns with
    | RExists m => is_owner s (ns_as_str m) asserter | RNotFound _ _ => True | RNoNamespace => False end))
    as (b & n1 & Eo & Hb).
  { unfold owns_namespace. destruct ns as [m| |]; [|by exists true, n|by exists false, n].
    destruct (owner_run s (ns_as_str m) asserter n) as (info & Ei & Hi). rewrite (clocked_run _ _ _ _ _ Ei).
    eexists _, n. split; [done|]. intros Hbd%bool_decide_eq_true. by apply Hi. }
  rewrite (clocked_run _ _ _ _ _ Eo) in E. destruct b; [left; by apply Hb|]. right.
  unfold is_root_admin in E. unfold mbind at 1, Clocked_bind at 1 in E.
  rewrite (clocked_run _ _ _ n1 root) in E by (unfold try_store; by rewrite Hroot).
  destruct (has_capability_run s Hs root asserter Admin n1) as (bc & Ec & Hc). rewrite (clocked_run _ _ _ _ _ Ec) in E.
  destruct bc; [left; by apply Hc|]. right.
  destruct (check_delegation_run clock s Hs root Hroot root Admin _ eq_refl asserter n1) as (bd & n2 & Ed & Hd).
  rewrite Ed in E. cbn in E. destruct bd; [by apply Hd|done].
Qed.

(** What the layer did before passing an edge write on. *)
Lemma auth_layer_edge `{AuthorityStore St} `{JsonCrates} `{ScopeCrate}
  clock (s : St) bearer path authorization ns detected body asserter body' :
  starts_with (rs "/v2/") path = true → ends_with (rs "/edges/") path = true →
  auth_layer clock s bearer (rs "PUT") path authorization ns detected body = Proceed asserter (Some body') →
  let op := effective_op (rs "PUT") path detected in
  match bearer with Some b => bearer_check b path authorization | None => inl (rs "anonymous") end = inl asserter ∧
  ∃ n x, body = Some body' ∧ check_authority_edge clock s ns asserter body' n = Ok x ∧
    (op = Exempt ∨ is_ok (authorize clock s ns op asserter 0%nat) = true).
Proof.
  intros Hpath Hedges Hgo op. unfold auth_layer in Hgo. cbv zeta in Hgo.
  destruct (match bearer with Some b => _ | None => _ end) as [a|] eqn:Eb; [|done].
  assert (is_edge_write (rs "PUT") path = true) as Hw by (unfold is_edge_write; by rewrite Hpath, Hedges).
  rewrite Hw in Hgo. fold op in Hgo.
  assert (∀ n, match body with
               | None => Answer (response 400 [] (rs "failed to read request body"))
               | Some bytes => checked authority_answer (check_authority_edge clock s ns a bytes) n
                                 (λ _, Proceed a (Some bytes))
               end = Proceed asserter (Some body') → ∃ x, body = Some body' ∧ a = asserter ∧
                 check_authority_edge clock s ns a body' n = Ok x) as Hk.
  { intros n. destruct body as [b|]; [|done]. unfold checked.
    destruct (check_authority_edge clock s ns a b n) as [[u n']|e|] eqn:E; [|done..].
    intros [= -> ->]. by eexists. }
  destruct (decide (op = Exempt)) as [He|He].
  - destruct (Hk _ Hgo) as (x & -> & -> & Ec). split; [done|]. exists 0%nat, x. auto.
  - unfold checked at 1 in Hgo. destruct (authorize clock s ns op a 0%nat) as [[d n1]|e|] eqn:Ea; [|done..].
    destruct (Hk _ Hgo) as (x & -> & -> & Ec). split; [done|]. exists n1, x. rewrite Ea. auto.
Qed.


(** * The in-memory store as an authority store *)

#[export] Instance mem_authority `{HashCrates} : AuthorityStore store := {|
  st_namespace_resolve := namespace_resolve;
  st_namespace_info := namespace_info;
  st_edge_query := edge_query;
|}.

#[export] Instance mem_authority_laws `{HashCrates} : AuthorityStoreLaws store.
Proof.
  refine {| st_ok := edge_inv; st_edge s ns e := ∃ h, edges s !! (ns_uuid ns, h) = Some e;
            st_same a b := item_hash a = item_hash b |}.
  - done.
  - intros ns q s Hs. destruct (edge_query_correct ns q s Hs) as (es & E & Hes). exists es. split; [exact E|].
    intros e. rewrite Hes. unfold query_end. by destruct (q_direction q).
  - intros name p s. cbn [st_namespace_resolve st_namespace_info mem_authority].
    unfold namespace_resolve, namespace_info. split.
    + by destruct (ns_aliases s !! _).
    + destruct (ns_aliases s !! _) as [u|]; [|done]. cbn. by destruct (ns_records s !! u).
Defined.

(** * A small store *)

Section sample.
(** Edges by namespace; the only name is [_root], and nobody owns it. *)
Definition edge_list : Type := list (bytes * Edge).

Definition sample_root : NamespaceRef := with_name [x00] (rs "_root").

#[local] Instance edge_list_authority : AuthorityStore edge_list := {|
  st_namespace_resolve name _ _ := if decide (name = rs "_root") then Ok sample_root else Err (SNotFound name);
  st_namespace_info name _ _ := Err (SNotFound name);
  st_edge_query ns q s :=
    Ok (filter (λ e, query_end (q_direction q) e = q_anchor q ∧ query_matches q e = true)
          (omap (λ p, if decide (p.1 = ns_uuid ns) then Some p.2 else None) s));
|}.

#[local] Instance edge_list_laws : AuthorityStoreLaws edge_list.
Proof.
  refine {| st_ok _ := True; st_edge s ns e := (ns_uuid ns, e) ∈ s; st_same := eq |}.
  - done.
  - intros ns q s _. eexists. split; [reflexivity|]. intros e. rewrite list_elem_of_filter, list_elem_of_omap.
    assert (query_matches q e = true ↔
      (∀ r, q_relation q = Some r → e_relation e = r) ∧ (∀ a, q_asserter q = Some a → e_asserter e = a)) as ->.
    { unfold query_matches. rewrite andb_true_iff.
      destruct (q_relation q), (q_asserter q); rewrite ?bool_decide_eq_true; naive_solver. }
    assert ((∃ p : bytes * Edge, p ∈ s ∧ (if decide (p.1 = ns_uuid ns) then Some p.2 else None) = Some e)
            ↔ (ns_uuid ns, e) ∈ s) as ->; [|tauto].
    split; [|intros Hin; exists (ns_uuid ns, e); by rewrite decide_True].
    intros ([u e'] & Hin & E). cbn [fst snd] in E. case_decide; naive_solver.
  - intros name p s. cbn. by case_decide.
Defined.

(** Metadata texts: a capability for everything, and a body that puts one. *)
#[local] Instance sample_auth_json : JsonCrates := {|
  serde_from_slice b :=
    if decide (b = rs "all") then
      inl (JObj [(rs "ops", JArr [JStr (rs "read"); JStr (rs "write"); JStr (rs "admin")])])
    else if decide (b = rs "put") then
      inl (JObj [(rs "relation", JStr (rs "capability")); (rs "source", JStr (rs "alice"))])
    else inr (rs "expected value");
  serde_to_string _ := rs "{}";
  jsonschema_is_valid _ _ := true;
|}.

(** A scope for writes without limit of time, of the depth its text's length is. *)
#[local] Instance sample_scope : ScopeCrate := λ b, Some (mkScope [] [rs "write"] None (zlen b)).

Definition sample_cap (who : rstr) : bytes * Edge := ([x00], mkEdge who who Capability who None (Some (rs "all"))).
Definition sample_delegation (from to scope : rstr) : bytes * Edge :=
  ([x00], mkEdge from to Delegation from None (Some scope)).


Lemma authorize_open_witness :
  is_ok (authorize (λ _, 0) [sample_cap (rs "alice")] (RExists sample_root) Write (rs "mallory") 0%nat) = true.
Proof.
  apply (authorize_open (λ _, 0) [sample_cap (rs "alice")] sample_root sample_root Write (rs "mallory") 0%nat);
    [exact I|reflexivity|reflexivity|].
  intros e He _. apply list_elem_of_singleton in He. injection He as ->. discriminate.
Defined.


(** The walk stops at the first edge that authorizes a delegator, whatever its
    depth.  Alice delegates to Bob twice, without and with the right to delegate
    further, and Bob to Carol: Carol's chain is complete, but she is refused, and
    with Alice's two edges in the other order she is not. *)
Theorem check_delegation_order_matters :
  let last := sample_delegation (rs "bob") (rs "carol") [] in
  let none := sample_delegation (rs "alice") (rs "bob") [] in
  let one := sample_delegation (rs "alice") (rs "bob") (rs "1") in
  let s := [sample_cap (rs "alice"); none; one; last] in
  let s' := [sample_cap (rs "alice"); one; none; last] in
  delegated (λ _, 0) s sample_root sample_root Write 1%nat (rs "carol") 0 ∧
  fst <$> (match check_delegation (λ _, 0) s sample_root Write (rs "carol") 0%nat with Ok r => Some r | _ => None end) = Some false ∧
  fst <$> (match check_delegation (λ _, 0) s' sample_root Write (rs "carol") 0%nat with Ok r => Some r | _ => None end) = Some true.
Proof.
  cbv zeta. split_and!; [|vm_compute; reflexivity|vm_compute; reflexivity].
  apply (delegated_next _ _ _ _ _ (sample_delegation (rs "bob") (rs "carol") []).2 sample_root 0%nat (rs "write")
           (mkScope [] [rs "write"] None 0) _ 0%nat 1); try done; [by left|set_solver|].
  apply (delegated_first _ _ _ _ _ (sample_delegation (rs "alice") (rs "bob") (rs "1")).2 sample_root 0%nat (rs "write")
           (mkScope [] [rs "write"] None 1)); try done; [by left|set_solver|].
  left. exists (sample_cap (rs "alice")).2. split_and!; try done. left.
Qed.
End sample.
