(* ===== verification/NsLayer.v ===== *)
(** NsLayer: the layer that runs before every request,
    [kappa-server/src/layers/namespace.rs]: it tells the protocol of a request,
    rewrites the public URLs of Git, Nix and bucket hosts to internal paths,
    which the router dispatches again, and finds the namespace and the intent
    the authorization layer decides on.

    The router is outside the repository: [redispatch] is the request with the
    rewritten target, and [dispatch] follows rewrites up to a bound. *)

From S2P Require Import Prelude Label Types Store MemStore MemTags MemEdge MemNamespace Http Text Auth.

Inductive DetectedProtocol := Oci | S3 | Git | Nix | Atproto | System | Unknown.

#[export] Instance DetectedProtocol_eq_dec : EqDecision DetectedProtocol.
Proof. solve_decision. Defined.

(** What the layer reads of a request; a header is absent, not text, or text. *)
Record Request := mkRequest {
  rq_method : rstr;
  rq_path : rstr;
  rq_query : option rstr;
  rq_header : rstr → option (option rstr);
}.

(** [headers.get(name).and_then(|v| v.to_str().ok())], and [contains_key]. *)
Definition header_str (hdrs : rstr → option (option rstr)) (name : rstr) : option rstr := mjoin (hdrs name).
Definition has_header (hdrs : rstr → option (option rstr)) (name : rstr) : bool := bool_decide (is_Some (hdrs name)).

(** * Detection *)

Definition header_starts (hdrs : rstr → option (option rstr)) (name p : rstr) : bool :=
  match header_str hdrs name with Some v => starts_with p v | None => false end.

Definition detect_protocol (path query : rstr) (hdrs : rstr → option (option rstr)) : DetectedProtocol :=
  let equals p := bool_decide (path = rs p) in
  let starts p := starts_with (rs p) path in
  let ends p := ends_with (rs p) path in
  let contains p := str_contains (rs p) path in
  if header_starts hdrs (rs "content-type") (rs "application/x-git-") then Git
  else if has_header hdrs (rs "x-amz-content-sha256") then S3
  else if header_starts hdrs (rs "authorization") (rs "AWS4-HMAC-SHA256") then S3
  else if str_contains (rs "service=git-upload-pack") query || str_contains (rs "service=git-receive-pack") query then Git
  else if starts "/v2/" || equals "/v2" || equals "/v2/" then Oci
  else if starts "/_git/" then Git
  else if starts "/_nix/" then Nix
  else if equals "/_status" || starts "/_status/" || equals "/openapi.json" || equals "/docs" || equals "/" || starts "/identity/" then System
  else if starts "/xrpc/" then Atproto
  else if equals "/nix-cache-info" || starts "/nix/" || ends ".narinfo" || starts "/nar/" then Nix
  else if contains "/info/refs" || ends "/git-upload-pack" || ends "/git-receive-pack" || contains "/git-lfs/"
          || contains "/info/lfs/" then Git
  else if (ends "/HEAD" || contains "/objects/" || contains "/info/packs")
          && negb (starts "/v2") && negb (starts "/nix") && negb (starts "/nar") then Git
  else Unknown.

Definition detect_operation (path query method : rstr) (protocol : DetectedProtocol) : DetectedOperation :=
  match protocol with
  | Git =>
      if str_contains (rs "service=git-receive-pack") query then OpWriteDiscovery
      else if ends_with (rs "/git-receive-pack") path || ends_with (rs "/git_receive_pack") path then OpWrite
      else OpRead
  | Nix => if decide (method = rs "PUT") then OpWrite else OpRead
  | _ => if bool_decide (method = rs "GET") || bool_decide (method = rs "HEAD") then OpRead else OpWrite
  end.

(** * Rewriting *)

(** The loop over boundaries: where the first one that occurs stands. *)
Fixpoint first_boundary (boundaries : list rstr) (s : rstr) : option nat :=
  match boundaries with
  | [] => None
  | b :: boundaries => match str_find b s with Some idx => Some idx | None => first_boundary boundaries s end
  end.

Definition strip_git (ns : rstr) : rstr := default ns (strip_suffix (rs ".git") ns).

Definition git_boundaries : list rstr :=
  rs <$> ["/info/refs"; "/git-upload-pack"; "/git-receive-pack"; "/info/lfs/objects/batch"; "/info/lfs/"; "/HEAD"; "/info/packs"].

Definition rewrite_git_to_internal (path query : rstr) : option rstr :=
  stripped ← strip_prefix (rs "/") path;
  idx ← first_boundary git_boundaries stripped;
  if decide (idx = O) then None
  else
    let ns := strip_git (take idx stripped) in
    let sub_path := str_replace (rs "git-receive-pack") (rs "git_receive_pack")
                      (str_replace (rs "git-upload-pack") (rs "git_upload_pack") (drop idx stripped)) in
    let result := rs "/_git/" ++ ns ++ sub_path in
    Some (if decide (query = []) then result else result ++ rs "?" ++ query).

Definition rewrite_nix_to_internal (path : rstr) : option rstr :=
  if decide (path = rs "/nix-cache-info") then Some (rs "/_nix/nix-cache-info")
  else if ends_with (rs ".narinfo") path then
    let stripped := default (default path (strip_prefix (rs "/") path)) (strip_prefix (rs "/nix/") path) in
    let hash := default stripped (strip_suffix (rs ".narinfo") stripped) in
    Some (rs "/_nix/narinfo/" ++ hash)
  else if starts_with (rs "/nar/") path then Some (rs "/_nix" ++ path)
  else if starts_with (rs "/nix/") path then Some (rs "/_nix" ++ drop 4 path)
  else None.

Definition extract_s3_bucket (host base_domain : rstr) : option rstr :=
  let host_no_port := first_segment COLON host in
  bucket ← strip_suffix (rs "." ++ base_domain) host_no_port;
  if negb (bool_decide (bucket = [])) && negb (str_contains (rs ".") bucket) then Some bucket else None.

(** * The namespace of a path *)

(** The loops that pass over a boundary at the very beginning. *)
Fixpoint inner_boundary (boundaries : list rstr) (s : rstr) : option nat :=
  match boundaries with
  | [] => None
  | b :: boundaries =>
      match str_find b s with
      | Some (S idx) => Some (S idx)
      | _ => inner_boundary boundaries s
      end
  end.

Definition v2_boundaries : list rstr :=
  rs <$> ["/blobs/"; "/blobs"; "/manifests/"; "/tags/"; "/tags"; "/edges/"; "/edges"; "/filters/"; "/schemas/"; "/gc/";
          "/_transaction/"; "/_sequence/"; "/_root"; "/_events"; "/_bundle/"; "/_reconcile"; "/compose/"; "/witnesses/";
          "/referrers/"; "/_crdt/"; "/_namespace"].

Definition extract_v2_namespace (path : rstr) : option (rstr * rstr) :=
  rest ← strip_prefix (rs "/v2/") path;
  if starts_with (rs "_health/") rest || starts_with (rs "_uploads/") rest || starts_with (rs "_namespaces") rest then None
  else
    idx ← inner_boundary v2_boundaries rest;
    Some (take idx rest, rs "oci").

Definition internal_boundaries : list rstr := rs <$> ["/info/"; "/git_upload_pack"; "/git_receive_pack"].

(** The boundaries of a path that was not rewritten; the name must not be empty. *)
Definition outer_boundaries : list rstr :=
  rs <$> ["/info/refs"; "/git-upload-pack"; "/git-receive-pack"; "/git-lfs/"; "/HEAD"; "/info/packs"].
Fixpoint outer_namespace (boundaries : list rstr) (stripped : rstr) : option rstr :=
  match boundaries with
  | [] => None
  | b :: boundaries =>
      match str_find b stripped with
      | Some (S idx) =>
          let ns := strip_git (take (S idx) stripped) in
          if decide (ns = []) then outer_namespace boundaries stripped else Some ns
      | _ => outer_namespace boundaries stripped
      end
  end.

Definition extract_git_namespace (path : rstr) : option (rstr * rstr) :=
  match strip_prefix (rs "/_git/") path with
  | Some rest =>
      idx ← inner_boundary internal_boundaries rest;
      Some (take idx rest, rs "git")
  | None =>
      stripped ← strip_prefix (rs "/") path;
      ns ← outer_namespace outer_boundaries stripped;
      Some (ns, rs "git")
  end.

Definition extract_s3_namespace (path : rstr) : option (rstr * rstr) :=
  rest ← strip_prefix (rs "/") path;
  if decide (rest = []) then None
  else
    let bucket := first_segment SLASH rest in
    if decide (bucket = []) then None else Some (bucket, rs "s3").

Definition extract_namespace (path : rstr) (protocol : DetectedProtocol) : option (rstr * rstr) :=
  match protocol with
  | Oci => extract_v2_namespace path
  | Git => extract_git_namespace path
  | Nix => Some (rs "_nix", rs "nix")
  | S3 => extract_s3_namespace path
  | Atproto | System | Unknown => None
  end.

(** * The layer *)

(** The layer sends the request around again, or runs the rest with the intent
    and the namespace it found. *)
Inductive NsResult :=
| Rewrite (target : rstr)
| Run (op : DetectedOperation) (ns : ResolvedNamespace).

Section layer.
Context `{AuthorityStore St}.

(** [namespace_resolve] in a blocking task: errors and panics are "not found". *)
Definition resolve_name (s : St) (name protocol : rstr) : ResolvedNamespace :=
  match st_namespace_resolve name (Some protocol) s with
  | Ok ns => RExists ns
  | _ => RNotFound name protocol
  end.

Definition resolve_from_path (s : St) (path : rstr) (protocol : DetectedProtocol) : ResolvedNamespace :=
  match extract_namespace path protocol with
  | None => RNoNamespace
  | Some (name, proto) => resolve_name s name proto
  end.

Definition with_query (path : rstr) (query : option rstr) : rstr :=
  match query with Some q => path ++ rs "?" ++ q | None => path end.

(** Phase 1: the target of a rewrite, if the protocol asks for one. *)
Definition rewrite_target (base_domain : option rstr) (rq : Request) (protocol : DetectedProtocol) : option rstr :=
  let path := rq_path rq in
  let query := default [] (rq_query rq) in
  match protocol with
  | Git => if starts_with (rs "/_git/") path then None else rewrite_git_to_internal path query
  | Nix =>
      if starts_with (rs "/_nix/") path then None
      else rewritten ← rewrite_nix_to_internal path; Some (with_query rewritten (rq_query rq))
  | S3 =>
      domain ← base_domain;
      if decide (domain = []) then None
      else
        host ← header_str (rq_header rq) (rs "host");
        bucket ← extract_s3_bucket host domain;
        Some (with_query (rs "/" ++ bucket ++ path) (rq_query rq))
  | _ => None
  end.

Definition namespace_layer (base_domain : option rstr) (s : St) (rq : Request) : NsResult :=
  let path := rq_path rq in
  let query := default [] (rq_query rq) in
  let protocol := detect_protocol path query (rq_header rq) in
  match rewrite_target base_domain rq protocol with
  | Some target => Rewrite target
  | None => Run (detect_operation path query (rq_method rq) protocol) (resolve_from_path s path protocol)
  end.

(** * Dispatching again *)

Definition QUESTION : byte := x3f.

Definition redispatch (rq : Request) (target : rstr) : Request :=
  match split_once QUESTION target with
  | Some (path, query) => mkRequest (rq_method rq) path (Some query) (rq_header rq)
  | None => mkRequest (rq_method rq) target None (rq_header rq)
  end.

(** The request that runs, with its intent and namespace, after at most
    [rewrites] rewrites. *)
Fixpoint dispatch (rewrites : nat) (base_domain : option rstr) (s : St) (rq : Request) :
  option (Request * DetectedOperation * ResolvedNamespace) :=
  match namespace_layer base_domain s rq with
  | Run op ns => Some (rq, op, ns)
  | Rewrite target =>
      match rewrites with
      | O => None
      | S rewrites => dispatch rewrites base_domain s (redispatch rq target)
      end
  end.
End layer.

(** * Rewritten requests *)

Ltac no_start :=
  apply bool_decide_eq_false_2; let Hk := fresh in first [intros [? Hk] | intros Hk]; vm_compute in Hk; discriminate Hk.

Lemma find_char_notin c s : c ∉ s → find_char c s = None.
Proof.
  intros Hc. destruct (find_char c s) as [i|] eqn:E; [|done]. apply find_char_Some in E as (pre & post & -> & _).
  set_solver.
Qed.

Lemma redispatch_with_query rq path query : QUESTION ∉ path →
  redispatch rq (with_query path query) = mkRequest (rq_method rq) path query (rq_header rq).
Proof.
  intros Hq. unfold redispatch. destruct query as [q|]; cbn [with_query].
  - change (rs "?" ++ q) with (QUESTION :: q). by rewrite split_once_app.
  - unfold split_once. by rewrite find_char_notin.
Qed.

(** A request is told apart the same way once it is on an internal path. *)
Lemma detect_git_again path query hdrs rest :
  detect_protocol path query hdrs = Git → detect_protocol (rs "/_git/" ++ rest) query hdrs = Git.
Proof.
  unfold detect_protocol. cbv zeta. intros E. case_match; [done|]. case_match; [done|]. case_match; [done|].
  case_match; [done|].
  replace (starts_with (rs "/v2/") (rs "/_git/" ++ rest)) with false by (symmetry; no_start).
  rewrite !(bool_decide_eq_false_2 (rs "/_git/" ++ rest = _)) by (intros Hk; vm_compute in Hk; discriminate Hk).
  cbv [orb]. unfold starts_with. rewrite bool_decide_eq_true_2; [done|by eexists].
Qed.

Lemma detect_nix_again path query hdrs rest :
  detect_protocol path query hdrs = Nix → detect_protocol (rs "/_nix/" ++ rest) query hdrs = Nix.
Proof.
  unfold detect_protocol. cbv zeta. intros E. case_match; [done|]. case_match; [done|]. case_match; [done|].
  case_match; [done|].
  replace (starts_with (rs "/v2/") (rs "/_nix/" ++ rest)) with false by (symmetry; no_start).
  replace (starts_with (rs "/_git/") (rs "/_nix/" ++ rest)) with false by (symmetry; no_start).
  rewrite !(bool_decide_eq_false_2 (rs "/_nix/" ++ rest = _)) by (intros Hk; vm_compute in Hk; discriminate Hk).
  cbv [orb]. unfold starts_with. rewrite bool_decide_eq_true_2; [done|by eexists].
Qed.

(** What a rewrite of Git answers, before the query is put back. *)
Lemma rewrite_git_shape path query target : QUESTION ∉ path → rewrite_git_to_internal path query = Some target →
  ∃ rest, target = with_query (rs "/_git/" ++ rest) (if decide (query = []) then None else Some query) ∧
    QUESTION ∉ rs "/_git/" ++ rest.
Proof.
  intros Hq. unfold rewrite_git_to_internal.
  destruct (strip_prefix (rs "/") path) as [st|] eqn:Es; [|done]. apply strip_prefix_Some in Es as ->.
  cbn [mbind option_bind]. destruct (first_boundary git_boundaries st) as [idx|]; [|done]. cbn [mbind option_bind].
  case_decide; [done|]. intros [= <-]. eexists. split.
  - by case_decide.
  - assert (QUESTION ∉ st) as Hst by set_solver.
    rewrite !not_elem_of_app. split_and!.
    + by vm_compute; set_solver.
    + unfold strip_git. intros Hin. apply Hst. rewrite <- (take_drop idx st). apply elem_of_app. left.
      destruct (strip_suffix _ _) as [r|] eqn:Er; cbn in Hin; [|done].
      apply strip_suffix_Some in Er. rewrite Er. set_solver.
    + unfold str_replace. intros [[Hin|Hin]%elem_of_replace_go|Hin]%elem_of_replace_go; [|by vm_compute in Hin; set_solver..].
      apply Hst. rewrite <- (take_drop idx st). set_solver.
Qed.

Lemma clean_app (p s : rstr) : bool_decide (QUESTION ∈ p) = false → QUESTION ∉ s → QUESTION ∉ p ++ s.
Proof. rewrite bool_decide_eq_false. set_solver. Qed.

Lemma rewrite_nix_shape path target : QUESTION ∉ path → rewrite_nix_to_internal path = Some target →
  ∃ rest, target = rs "/_nix/" ++ rest ∧ QUESTION ∉ target.
Proof.
  intros Hq. unfold rewrite_nix_to_internal. case_decide; [|case_match; [|case_match eqn:En; [|case_match eqn:Ex; [|done]]]].
  - intros [= <-]. exists (rs "nix-cache-info"). split; [done|]. by apply (clean_app (rs "/_nix/nix-cache-info") []); [vm_compute|set_solver].
  - intros [= <-]. eexists (rs "narinfo/" ++ _). split; [done|]. apply (clean_app (rs "/_nix/narinfo/")); [by vm_compute|].
    assert (∀ p s : rstr, QUESTION ∉ s → QUESTION ∉ default s (strip_suffix p s)) as Hsuf.
    { intros p s Hs. destruct (strip_suffix p s) as [r|] eqn:Er; [|done]. apply strip_suffix_Some in Er as ->. set_solver. }
    apply Hsuf. destruct (strip_prefix (rs "/nix/") path) as [r|] eqn:Er; cbn [from_option id].
    { apply strip_prefix_Some in Er as ->. set_solver. }
    destruct (strip_prefix (rs "/") path) as [r|] eqn:Er'; cbn [from_option id]; [|done]. apply strip_prefix_Some in Er' as ->. set_solver.
  - intros [= <-]. apply bool_decide_eq_true in En as [k ->]. exists (rs "nar/" ++ k). split; [done|].
    by apply (clean_app (rs "/_nix")); [vm_compute|].
  - intros [= <-]. apply bool_decide_eq_true in Ex as [k ->]. exists k. split; [done|].
    apply (clean_app (rs "/_nix/")); [by vm_compute|set_solver].
Qed.

Section requests.
Context `{AuthorityStore St}.
Implicit Types (s : St) (rq : Request).

(** The protocol a request is told to have. *)
Definition protocol_of rq : DetectedProtocol := detect_protocol (rq_path rq) (default [] (rq_query rq)) (rq_header rq).

(** The layer on an internal path runs the rest. *)
Lemma layer_internal base s rq protocol prefix rest :
  (protocol, prefix) ∈ [(Git, rs "/_git/"); (Nix, rs "/_nix/")] → rq_path rq = prefix ++ rest → protocol_of rq = protocol →
  namespace_layer base s rq =
    Run (detect_operation (rq_path rq) (default [] (rq_query rq)) (rq_method rq) protocol)
        (resolve_from_path s (rq_path rq) protocol).
Proof.
  unfold protocol_of, namespace_layer. intros Hin Hp Hd. rewrite Hd.
  assert (rewrite_target base rq protocol = None) as ->; [|done].
  rewrite !elem_of_cons, elem_of_nil in Hin. destruct Hin as [[= -> ->]|[[= -> ->]|[]]];
    cbn [rewrite_target]; rewrite Hp; unfold starts_with; (rewrite bool_decide_eq_true_2; [done|by eexists]).
Qed.

(** What a request has become when it runs. *)
Definition settled s rq rq' op ns : Prop :=
  rq_method rq' = rq_method rq ∧ rq_header rq' = rq_header rq ∧
  default [] (rq_query rq') = default [] (rq_query rq) ∧ protocol_of rq' = protocol_of rq ∧
  op = detect_operation (rq_path rq') (default [] (rq_query rq)) (rq_method rq) (protocol_of rq) ∧
  ns = resolve_from_path s (rq_path rq') (protocol_of rq).

(** Following one rewrite to an internal path. *)
Lemma dispatch_rewritten base s rq target path query protocol prefix rest :
  (protocol, prefix) ∈ [(Git, rs "/_git/"); (Nix, rs "/_nix/")] → protocol_of rq = protocol →
  rewrite_target base rq protocol = Some target → target = with_query path query → QUESTION ∉ path →
  path = prefix ++ rest → default [] query = default [] (rq_query rq) →
  let rq' := mkRequest (rq_method rq) path query (rq_header rq) in
  ∃ op ns, dispatch 1 base s rq = Some (rq', op, ns) ∧ settled s rq rq' op ns.
Proof.
  intros Hin Hd Ht -> Hq Hp Hquery rq'. cbn [dispatch]. unfold namespace_layer at 1.
  unfold protocol_of in Hd. rewrite Hd, Ht. rewrite redispatch_with_query by done. fold rq'.
  assert (protocol_of rq' = protocol) as Hd'.
  { unfold protocol_of, rq'. cbn. rewrite Hp, Hquery. rewrite !elem_of_cons, elem_of_nil in Hin.
    destruct Hin as [[= -> ->]|[[= -> ->]|[]]]; [by eapply detect_git_again|by eapply detect_nix_again]. }
  rewrite (layer_internal base s rq' protocol prefix rest Hin Hp Hd'). eexists _, _. split; [done|].
  unfold settled. fold (protocol_of rq) in Hd. rewrite Hd, Hd'. cbn. by rewrite Hquery.
Qed.
End requests.

(** * Git URLs *)

Inductive GitService := InfoRefs | UploadPack | ReceivePack | LfsBatch.

(** What follows the repository in a public URL, and on the internal path. *)
Definition url_suffix (svc : GitService) : rstr :=
  match svc with
  | InfoRefs => rs "/info/refs"
  | UploadPack => rs "/git-upload-pack"
  | ReceivePack => rs "/git-receive-pack"
  | LfsBatch => rs "/info/lfs/objects/batch"
  end.
Definition internal_suffix (svc : GitService) : rstr :=
  match svc with
  | UploadPack => rs "/git_upload_pack"
  | ReceivePack => rs "/git_receive_pack"
  | _ => url_suffix svc
  end.

(** What a repository name must not contain for its URLs to be read back. *)
Definition git_marks : list rstr :=
  rs <$> ["/info/"; "/git-upload-pack"; "/git-receive-pack"; "/git_upload_pack"; "/git_receive_pack"; "/HEAD"].
Definition git_clear (ns : rstr) : bool := forallb (λ mark, negb (str_contains mark (ns ++ [SLASH]))) git_marks.

Lemma git_marks_ok : forallb (λ mark, one_segment mark && negb (bool_decide (mark = []))) git_marks = true.
Proof. by vm_compute. Qed.

Lemma find_after_clear pat name rest :
  existsb (λ mark, starts_with mark pat) git_marks = true → git_clear name = true →
  str_find pat (name ++ SLASH :: rest) = (λ i, length name + i)%nat <$> str_find pat (SLASH :: rest).
Proof.
  rewrite existsb_exists. intros (mark & Hin & Hp%bool_decide_eq_true) Hclear.
  pose proof git_marks_ok as Hok. unfold git_clear in Hclear. rewrite forallb_forall in Hok, Hclear.
  specialize (Hok _ Hin). specialize (Hclear _ Hin). apply andb_true_iff in Hok as [Hone Hne].
  apply negb_true_iff in Hclear, Hne. apply bool_decide_eq_false in Hne. by apply (str_find_after mark).
Qed.

Lemma first_boundary_after boundaries name rest :
  forallb (λ b, existsb (λ mark, starts_with mark b) git_marks) boundaries = true → git_clear name = true →
  first_boundary boundaries (name ++ SLASH :: rest) = (λ i, length name + i)%nat <$> first_boundary boundaries (SLASH :: rest).
Proof.
  intros Hb Hclear. induction boundaries as [|b boundaries IH]; [done|]. apply andb_true_iff in Hb as [Hb Hbs].
  cbn [first_boundary]. rewrite find_after_clear by done. destruct (str_find b (SLASH :: rest)); [done|]. by apply IH.
Qed.

Lemma inner_boundary_after boundaries name rest :
  forallb (λ b, existsb (λ mark, starts_with mark b) git_marks) boundaries = true → git_clear name = true → name ≠ [] →
  inner_boundary boundaries (name ++ SLASH :: rest) = (λ i, length name + i)%nat <$> first_boundary boundaries (SLASH :: rest).
Proof.
  intros Hb Hclear Hne. induction boundaries as [|b boundaries IH]; [done|]. apply andb_true_iff in Hb as [Hb Hbs].
  cbn [first_boundary inner_boundary]. rewrite find_after_clear by done.
  destruct (str_find b (SLASH :: rest)); [|by apply IH]. by destruct name.
Qed.

(** The boundary is found where the suffix begins. *)
Ltac at_suffix after :=
  match goal with |- context [rs ?x] => change (rs x) with (SLASH :: drop 1 (rs x)) end;
  rewrite after by (done || by vm_compute);
  match goal with |- context [first_boundary ?b ?x] => replace (first_boundary b x) with (Some 0%nat) by (by vm_compute) end;
  cbn; f_equal; lia.

Lemma rewrite_git_service url svc query : url ≠ [] → git_clear url = true →
  rewrite_git_to_internal (rs "/" ++ url ++ url_suffix svc) query =
    Some (with_query (rs "/_git/" ++ strip_git url ++ internal_suffix svc) (if decide (query = []) then None else Some query)).
Proof.
  intros Hne Hclear. unfold rewrite_git_to_internal. rewrite strip_prefix_app. cbn [mbind option_bind].
  assert (first_boundary git_boundaries (url ++ url_suffix svc) = Some (length url)) as ->.
  { destruct svc; cbn [url_suffix]; at_suffix first_boundary_after. }
  cbn [mbind option_bind]. rewrite decide_False by (by destruct url). rewrite take_app_length, drop_app_length.
  replace (str_replace _ _ _) with (internal_suffix svc) by (by destruct svc; vm_compute).
  f_equal. by case_decide.
Qed.

Lemma extract_git_service name svc : name ≠ [] → git_clear name = true →
  extract_git_namespace (rs "/_git/" ++ name ++ internal_suffix svc) = Some (name, rs "git").
Proof.
  intros Hne Hclear. unfold extract_git_namespace. rewrite strip_prefix_app.
  assert (inner_boundary internal_boundaries (name ++ internal_suffix svc) = Some (length name)) as ->.
  { destruct svc; cbn [internal_suffix url_suffix]; at_suffix inner_boundary_after. }
  cbn [mbind option_bind]. by rewrite take_app_length.
Qed.

(** * What the layer promises *)

(** The namespace layer and the authorization layer, as the router runs them. *)
Definition front `{AuthorityStore St} `{JsonCrates} `{ScopeCrate} (clock : nat → Z) (s : St) (base : option rstr)
  (bearer : option BearerAuth) (rq : Request) (body : option bytes) : option (Request * LayerResult) :=
  settled ← dispatch 1 base s rq;
  let '(rq', op, ns) := settled in
  Some (rq', auth_layer clock s bearer (rq_method rq') (rq_path rq') (header_str (rq_header rq') (rs "authorization"))
               ns (Some op) body).

(** A request that is not S3 is sent around at most once: either the layer
    runs the rest at once, or it rewrites the URL to an internal path of the same
    protocol, with the same query, method and headers, on which it runs the rest;
    the intent and the namespace are read from the path that runs. *)
Theorem dispatch_settles `{AuthorityStore St} base (s : St) rq
  (Hq : QUESTION ∉ rq_path rq) (Hnot : protocol_of rq ≠ S3) :
  ∃ rq' op ns, dispatch 1 base s rq = Some (rq', op, ns) ∧ settled s rq rq' op ns.
Proof.
  destruct (rewrite_target base rq (protocol_of rq)) as [target|] eqn:Et.
  2:{ cbn [dispatch]. unfold namespace_layer. fold (protocol_of rq). rewrite Et. eexists _, _, _. split; [done|]. done. }
  assert (protocol_of rq = Git ∨ protocol_of rq = Nix) as [Hp|Hp]
    by (destruct (protocol_of rq) eqn:E; [done|done|by left|by right|done..]).
  - rewrite Hp in Et. pose proof Et as Et'. cbn [rewrite_target] in Et'. case_match; [done|].
    destruct (rewrite_git_shape _ _ _ Hq Et') as (rest & Htgt & Hq').
    edestruct (dispatch_rewritten base s rq target) as (op & ns & E & Hs); [left|done|done|exact Htgt|done|done| |eauto].
    case_decide as Eq; [by rewrite Eq|done].
  - rewrite Hp in Et. pose proof Et as Et'. cbn [rewrite_target] in Et'. case_match; [done|].
    destruct (rewrite_nix_to_internal (rq_path rq)) as [path|] eqn:En; [|done].
    assert (target = with_query path (rq_query rq)) as Htgt by (cbn in Et'; congruence).
    destruct (rewrite_nix_shape _ _ Hq En) as (rest & Hpath & Hq').
    edestruct (dispatch_rewritten base s rq target) as (op & ns & E & Hs);
      [right; left|done|done|exact Htgt|done|done|done|eauto].
Qed.

Lemma ends_with_app p x : ends_with p (x ++ p) = true.
Proof. apply bool_decide_eq_true_2. by eexists. Qed.

(** Two endings that differ in a byte both have. *)
Lemma no_end p x y : bool_decide (take (length y) (rev p) = take (length p) (rev y)) = false → ends_with p (x ++ y) = false.
Proof.
  rewrite bool_decide_eq_false. intros Hne. apply bool_decide_eq_false_2. intros [k Hk]. apply Hne.
  apply (f_equal (@rev byte)) in Hk. rewrite !rev_app_distr in Hk.
  apply (f_equal (take (length p `min` length y))) in Hk. rewrite !take_app_le in Hk by (rewrite length_rev; lia).
  destruct (decide (length p ≤ length y)%nat).
  - rewrite Nat.min_l in Hk by lia. rewrite (take_ge (rev p)) in Hk by (rewrite length_rev; lia).
    rewrite (take_ge (rev p)) by (rewrite length_rev; lia). done.
  - rewrite Nat.min_r in Hk by lia. rewrite (take_ge (rev y)) in Hk by (rewrite length_rev; lia).
    rewrite (take_ge (rev y)) by (rewrite length_rev; lia). done.
Qed.

Section git.
Context `{AuthorityStore St}.

(** The URL of a Git service of a repository, possibly with [.git]. *)
Definition git_url (rq : Request) (url : rstr) (svc : GitService) : Prop :=
  protocol_of rq = Git ∧ rq_path rq = rs "/" ++ url ++ url_suffix svc ∧ (QUESTION ∉ url) ∧
  starts_with (rs "/_git/") (rq_path rq) = false ∧ git_clear url = true ∧ strip_git url ≠ [] ∧ git_clear (strip_git url) = true.

Definition git_intent (rq : Request) (svc : GitService) : DetectedOperation :=
  if str_contains (rs "service=git-receive-pack") (default [] (rq_query rq)) then OpWriteDiscovery
  else match svc with ReceivePack => OpWrite | _ => OpRead end.

Lemma git_url_dispatch base (s : St) rq url svc : git_url rq url svc →
  ∃ rq', dispatch 1 base s rq = Some (rq', git_intent rq svc, resolve_name s (strip_git url) (rs "git")) ∧
    rq_path rq' = rs "/_git/" ++ strip_git url ++ internal_suffix svc ∧
    rq_method rq' = rq_method rq ∧ rq_header rq' = rq_header rq.
Proof.
  intros (Hgit & Hpath & Hq & Hext & Hurl & Hname & Hclear).
  assert (url ≠ []) as Hne by (by intros ->).
  set (query := if decide (default [] (rq_query rq) = []) then None else Some (default [] (rq_query rq))).
  set (path := rs "/_git/" ++ strip_git url ++ internal_suffix svc).
  edestruct (dispatch_rewritten base s rq (with_query path query) path query)
    as (op & ns & E & Hs); [left|done| |done| |done| |].
  - cbn [rewrite_target]. rewrite Hext, Hpath. by apply rewrite_git_service.
  - apply clean_app; [by vm_compute|]. apply not_elem_of_app. split; [|by destruct svc; refine (bool_decide_unpack _ _); vm_compute].
    unfold strip_git. destruct (strip_suffix _ url) as [r|] eqn:Er; cbn [from_option id]; [|done].
    apply strip_suffix_Some in Er as ->. set_solver.
  - unfold query. case_decide as Eq; [by rewrite Eq|done].
  - exists (mkRequest (rq_method rq) path query (rq_header rq)). split; [|done]. rewrite E. destruct Hs as (_ & _ & _ & _ & -> & ->). rewrite Hgit.
    unfold resolve_from_path. cbn [rq_path extract_namespace]. unfold path at 3.
    rewrite extract_git_service by done. do 2 f_equal.
    unfold git_intent, detect_operation. case_match; [done|]. unfold path. rewrite app_assoc.
    destruct svc; cbn [internal_suffix url_suffix]; rewrite ?ends_with_app; try rewrite orb_true_r; try done;
      rewrite !no_end by (by vm_compute); done.
Qed.
End git.

(** An internal Git path is never exempt, and a write intent is at least a write. *)
Lemma effective_op_git method rest op : is_write op = true →
  effective_op method (rs "/_git/" ++ rest) (Some op) ∈ [Write; Admin].
Proof.
  intros Hw. unfold effective_op. rewrite Hw.
  assert (classify_request method (rs "/_git/" ++ rest) ≠ Exempt) as Hne.
  { unfold classify_request. cbv zeta.
    rewrite !(bool_decide_eq_false_2 (rs "/_git/" ++ rest = _)) by (intros Hk; vm_compute in Hk; discriminate Hk).
    replace (starts_with (rs "/v2/_health/") (rs "/_git/" ++ rest)) with false by (symmetry; no_start).
    cbv [orb]. by repeat case_match. }
  destruct (classify_request _ _); [done|by left|by left|right; by left].
Qed.

(** A request that is let through was authorized, unless its class is exempt. *)
Lemma auth_layer_proceed `{AuthorityStore St} `{JsonCrates} `{ScopeCrate} clock (s : St) bearer method path authorization
  ns detected body asserter body' :
  auth_layer clock s bearer method path authorization ns detected body = Proceed asserter body' →
  effective_op method path detected = Exempt ∨
  is_ok (authorize clock s ns (effective_op method path detected) asserter 0%nat) = true.
Proof.
  unfold auth_layer. destruct (match bearer with Some _ => _ | None => _ end) as [caller|]; [|done]. cbv zeta.
  case_decide; [by left|]. unfold checked at 1.
  destruct (authorize clock s ns (effective_op method path detected) caller 0%nat) as [[d n]|e|] eqn:Ea; [|done|done].
  intros Hgo. right. assert (caller = asserter) as <-; [|by rewrite Ea].
  case_match; [|by injection Hgo]. destruct body; [|done]. unfold checked in Hgo. by repeat case_match; simplify_eq.
Qed.


(** * Requests the layer reads differently from their handlers *)

(** A request to a bucket's host is sent around for ever: the rewrite puts
    the bucket before the path and leaves the host, so the next round puts it
    there again; no number of rounds reaches a handler. *)
Theorem s3_host_never_settles `{AuthorityStore St} (s : St) rq domain host bucket n
  (Hct : header_starts (rq_header rq) (rs "content-type") (rs "application/x-git-") = false)
  (Hs3 : has_header (rq_header rq) (rs "x-amz-content-sha256") = true)
  (Hdomain : domain ≠ []) (Hhost : header_str (rq_header rq) (rs "host") = Some host)
  (Hbucket : extract_s3_bucket host domain = Some bucket) :
  dispatch n (Some domain) s rq = None.
Proof.
  assert (∀ rq', rq_header rq' = rq_header rq →
    namespace_layer (Some domain) s rq' = Rewrite (with_query (rs "/" ++ bucket ++ rq_path rq') (rq_query rq'))) as Hstep.
  { intros rq' Hh. unfold namespace_layer, detect_protocol. cbv zeta. rewrite Hh, Hct, Hs3. cbn [rewrite_target mbind option_bind].
    rewrite decide_False, Hh, Hhost by done. cbn [mbind option_bind]. by rewrite Hbucket. }
  clear Hct Hs3 Hhost. revert rq Hstep. induction n as [|n IH]; intros rq Hstep; cbn [dispatch]; rewrite Hstep by done; [done|].
  assert (∀ t, rq_header (redispatch rq t) = rq_header rq) as Hh by (intros t; unfold redispatch; by repeat case_match).
  apply IH. intros rq' Hq. apply Hstep. by rewrite Hq.
Qed.

(** The content type decides before the path does: a request for any path
    without a Git boundary that claims a Git content type has no namespace, and is
    let through for any operation and any caller the tokens admit, whatever the
    namespace in its path allows. *)
Theorem git_content_type_hides_namespace `{AuthorityStore St} `{!AuthorityStoreLaws St} `{JsonCrates} `{ScopeCrate}
  clock (s : St) root base rq body
  (Hs : st_ok s) (Hroot : st_namespace_resolve (rs "_root") None s = Ok root)
  (Hct : header_starts (rq_header rq) (rs "content-type") (rs "application/x-git-") = true)
  (Hv2 : starts_with (rs "/v2/") (rq_path rq) = true)
  (Hfirst : first_boundary git_boundaries (drop 1 (rq_path rq)) = None)
  (Houter : outer_namespace outer_boundaries (drop 1 (rq_path rq)) = None)
  (Hedge : is_edge_write (rq_method rq) (rq_path rq) = false) :
  front clock s base None rq body = Some (rq, Proceed (rs "anonymous") body).
Proof.
  apply bool_decide_eq_true in Hv2 as [k Hk].
  assert (strip_prefix (rs "/") (rq_path rq) = Some (drop 1 (rq_path rq))) as Hstrip by (rewrite Hk; apply (strip_prefix_app (rs "/"))).
  assert (starts_with (rs "/_git/") (rq_path rq) = false) as Hno by (rewrite Hk; no_start).
  unfold front. cbn [dispatch]. unfold namespace_layer. unfold detect_protocol at 1 2 3 4. cbv zeta. rewrite Hct.
  cbn [rewrite_target]. rewrite Hno. unfold rewrite_git_to_internal. rewrite Hstrip. cbn [mbind option_bind]. rewrite Hfirst.
  cbn [mbind option_bind]. unfold resolve_from_path. cbn [extract_namespace]. unfold extract_git_namespace, strip_prefix at 1.
  rewrite Hno, Hstrip. cbn [mbind option_bind]. rewrite Houter. do 2 f_equal.
  unfold auth_layer. rewrite Hedge. cbv zeta. case_decide; [done|]. unfold checked.
  set (op := effective_op _ _ _). pose proof (authorize_grounds clock s root RNoNamespace op (rs "anonymous") 0%nat Hs Hroot) as Hg.
  destruct (authorize _ _ _ _ _ _) as [[? ?]| |]; [done| |done]. destruct Hg as [Hg _]. exfalso. apply Hg.
  right. by right.
Qed.

(** * Concrete requests *)

Section sample.
#[local] Existing Instances edge_list_authority edge_list_laws sample_auth_json sample_scope.

Definition sample_headers (l : list (rstr * rstr)) (name : rstr) : option (option rstr) := Some <$> assoc name l.

Definition sample_push : Request :=
  mkRequest (rs "POST") (rs "/team/app.git/git-receive-pack") None
    (sample_headers [(rs "content-type", rs "application/x-git-receive-pack-request"); (rs "authorization", rs "Bearer t")]).

Lemma dispatch_settles_witness :
  ∃ rq' op ns, dispatch 1 None ([] : edge_list) sample_push = Some (rq', op, ns) ∧ settled [] sample_push rq' op ns.
Proof.
  apply (dispatch_settles None ([] : edge_list) sample_push); [by refine (bool_decide_unpack _ _); vm_compute|].
  intros E. vm_compute in E. discriminate E.
Defined.


Lemma s3_host_never_settles_witness :
  dispatch 100 (Some (rs "s3.example.com")) ([] : edge_list)
    (mkRequest (rs "GET") (rs "/photo.jpg") None
       (sample_headers [(rs "x-amz-content-sha256", rs "UNSIGNED-PAYLOAD"); (rs "host", rs "photos.s3.example.com:5000")])) = None.
Proof.
  apply (s3_host_never_settles _ _ (rs "s3.example.com") (rs "photos.s3.example.com:5000") (rs "photos"));
    [reflexivity|reflexivity|discriminate|reflexivity|vm_compute; reflexivity].
Defined.

(** Anybody may delete a blob of a namespace that is somebody's. *)
Lemma git_content_type_hides_namespace_witness :
  let rq := mkRequest (rs "DELETE") (rs "/v2/_root/blobs/sha256:00") None
              (sample_headers [(rs "content-type", rs "application/x-git-anything")]) in
  front (λ _, 0) [sample_cap (rs "alice")] None None rq None = Some (rq, Proceed (rs "anonymous") None).
Proof.
  intros rq. apply (git_content_type_hides_namespace (λ _, 0) [sample_cap (rs "alice")] sample_root);
    [exact I|reflexivity|reflexivity|reflexivity|vm_compute; reflexivity..].
Defined.

(** Without the content type a request is for the namespace in its path. *)
Example delete_without_git_type :
  dispatch 1 None ([] : edge_list) (mkRequest (rs "DELETE") (rs "/v2/acme/app/blobs/sha256:00") None (sample_headers []))
  = Some (mkRequest (rs "DELETE") (rs "/v2/acme/app/blobs/sha256:00") None (sample_headers []), OpWrite,
          RNotFound (rs "acme/app") (rs "oci")).
Proof. vm_compute. reflexivity. Qed.
End sample.
