(* ===== verification/DateTime.v ===== *)
(** DateTime: conversions between epoch times and texts,
    [kappa-core/src/clock/mod.rs].

    The calendar is the [chrono] crate's, a parameter; its laws say that the
    epoch has a text in every format and that the compact format is read back for
    the years it has four digits for. *)

From S2P Require Import Prelude.

Class ChronoCrate := {
  (** [NaiveDateTime::parse_from_str(s, fmt)] as a UTC timestamp, or the error's text *)
  chrono_parse : rstr → rstr → Z + rstr;
  (** [DateTime::from_timestamp(secs, nanos)] in a format *)
  chrono_format : rstr → Z → Z → option rstr;
}.

Definition COMPACT_FORMAT : rstr := rs "%Y%m%dT%H%M%SZ".

(** The last second of the year 9999. *)
Definition last_second : Z := 253402300799.

Class ChronoLaws `{ChronoCrate} : Prop := {
  chrono_epoch : ∀ fmt, is_Some (chrono_format fmt 0 0);
  chrono_compact : ∀ secs, 0 ≤ secs ≤ last_second →
    ∃ text, chrono_format COMPACT_FORMAT secs 0 = Some text ∧ chrono_parse COMPACT_FORMAT text = inl secs;
}.

Inductive ClockError := InvalidFormat (msg : rstr).

Section datetime.
Context `{ChronoCrate}.

Definition parse_datetime_to_epoch_secs (datetime : rstr) : outcome ClockError Z :=
  match chrono_parse COMPACT_FORMAT datetime with
  | inr e => Err (InvalidFormat (datetime ++ rs ": " ++ e))
  | inl epoch =>
      if epoch <? 0 then Err (InvalidFormat (datetime ++ rs " is before Unix epoch")) else Ok epoch
  end.

(** [from_timestamp(..).unwrap_or_else(|| from_timestamp(0, 0).unwrap())]. *)
Definition format_or_epoch {E} (fmt : rstr) (secs nanos : Z) : outcome E rstr :=
  match chrono_format fmt secs nanos with
  | Some text => Ok text
  | None => unwrap (chrono_format fmt 0 0)
  end.

(** [x as i64] of a [u64]. *)
Definition as_i64 (x : Z) : Z := if isize_max <? x then x - 2 ^ 64 else x.

Definition epoch_ms_to_datetime {E} (epoch_ms : Z) : outcome E rstr := format_or_epoch COMPACT_FORMAT (as_i64 (epoch_ms / 1000)) 0.

Definition epoch_secs_to_datetime {E} (epoch_secs : Z) : outcome E rstr := format_or_epoch COMPACT_FORMAT (as_i64 epoch_secs) 0.

Definition epoch_ms_to_iso8601 {E} (epoch_ms : Z) : outcome E rstr :=
  format_or_epoch (rs "%Y-%m-%dT%H:%M:%S%.3fZ") (as_i64 (epoch_ms / 1000)) (epoch_ms mod 1000 * 1000000).

Definition epoch_ms_to_http_date {E} (epoch_ms : Z) : outcome E rstr :=
  format_or_epoch (rs "%a, %d %b %Y %H:%M:%S GMT") (as_i64 (epoch_ms / 1000)) 0.
End datetime.

Lemma format_or_epoch_ok `{ChronoLaws} {E} fmt secs nanos : ∃ text, format_or_epoch (E := E) fmt secs nanos = Ok text.
Proof.
  unfold format_or_epoch. destruct (chrono_format fmt secs nanos); [by eexists|].
  destruct (chrono_epoch fmt) as [text ->]. by eexists.
Qed.

(** A time in milliseconds, written in the compact format, is read back as its
    second; a year of five digits is outside the format. *)
Lemma datetime_roundtrip `{ChronoLaws} {E} ms : 0 ≤ ms < (last_second + 1) * 1000 →
  ∃ text, epoch_ms_to_datetime (E := E) ms = Ok text ∧ parse_datetime_to_epoch_secs text = Ok (ms / 1000).
Proof.
  intros Hms. assert (0 ≤ ms / 1000 ≤ last_second) as Hs
    by (split; [apply Z.div_pos; lia|apply Z.lt_succ_r, Z.div_lt_upper_bound; unfold last_second in *; lia]).
  destruct (chrono_compact _ Hs) as (text & Hf & Hp). exists text.
  unfold epoch_ms_to_datetime, format_or_epoch, as_i64, parse_datetime_to_epoch_secs.
  replace (isize_max <? ms / 1000) with false by (symmetry; apply Z.ltb_ge; unfold isize_max, last_second in *; lia).
  rewrite Hf, Hp. by replace (ms / 1000 <? 0) with false by (symmetry; apply Z.ltb_ge; lia).
Qed.

(** * A calendar for evaluating the model

    Every text is the second it stands for, in eight bytes. *)

Section sample.
#[local] Instance sample_chrono : ChronoCrate :=
  {| chrono_parse _ s := inl (from_be s); chrono_format _ secs _ := Some (to_be 8 secs) |}.

#[local] Instance sample_chrono_laws : ChronoLaws.
Proof.
  split; [by eexists|]. intros secs Hs. eexists. split; [done|]. cbn [chrono_parse sample_chrono]. f_equal. apply from_to_be.
  unfold last_second in Hs. change (256 ^ Z.of_nat 8) with 18446744073709551616. lia.
Qed.
End sample.
