(* ===== verification/SigV4.v ===== *)
(** SigV4: request signatures, [kappa-core/src/crypto/sigv4.rs]: authorization
    headers, presigned URLs, canonical requests and the chunked bodies whose
    chunks are signed in a chain.

    The hash and HMAC crates are parameters.  A reader is the bytes it still
    holds.  Sums of 64-bit seconds panic on overflow, as with overflow checks. *)

From S2P Require Import Prelude Label Compute Types Http Text DateTime.

(** The [hmac] crate over SHA-256. *)
Class MacCrates := hmac_sha256 : bytes → bytes → bytes.
Class MacCratesLaws `{MacCrates} : Prop := hmac_length : ∀ key data, length (hmac_sha256 key data) = 32%nat.

Inductive SigV4Error :=
| MissingAuth
| MalformedAuth (msg : rstr)
| MissingHeader (name : rstr)
| SignatureMismatch
| InvalidAccessKey
| UnsupportedAlgorithm (name : rstr)
| ChunkParseFailed (msg : rstr)
| Expired
| ChunkCountExceeded (max : Z)
| ChunkSizeExceeded (size max : Z)
| TrailerTooLarge (size max : Z).

Definition AWS4_REQUEST : rstr := rs "aws4_request".
Definition ALGORITHM_HMAC_SHA256 : rstr := rs "AWS4-HMAC-SHA256".
Definition ALGORITHM_CHUNK : rstr := rs "AWS4-HMAC-SHA256-PAYLOAD".
Definition ALGORITHM_TRAILER : rstr := rs "AWS4-HMAC-SHA256-TRAILER".
Definition UNSIGNED_PAYLOAD : rstr := rs "UNSIGNED-PAYLOAD".
Definition MAX_CHUNK_SIZE : Z := 5 * 1024 * 1024 * 1024.
Definition MAX_CHUNK_COUNT : Z := 100000.
Definition MAX_TRAILER_BYTES : Z := 16 * 1024.

Definition LF : byte := x0a.
Definition CR : byte := x0d.
Definition CRLF : bytes := [CR; LF].
Definition COMMA : byte := x2c.
Definition SEMICOLON : byte := x3b.

Record CredentialResult := mkCredential {
  cr_current_secret : rstr;
  cr_previous_secret : option rstr;
  cr_principal_anchor : rstr;
}.

Record SigV4Authorization := mkAuthorization {
  sa_access_key : rstr;
  sa_date : rstr;
  sa_region : rstr;
  sa_service : rstr;
  sa_signed_headers : list rstr;
  sa_signature : rstr;
  sa_security_token : option rstr;
}.

Record PresignedUrl := mkPresigned {
  pu_access_key : rstr;
  pu_date : rstr;
  pu_region : rstr;
  pu_service : rstr;
  pu_datetime : rstr;
  pu_expires_secs : Z;
  pu_signed_headers : list rstr;
  pu_signature : rstr;
  pu_security_token : option rstr;
}.

(** * The authorization header *)

(** [s.splitn(n, c)]. *)
Fixpoint splitn (n : nat) (c : byte) (s : rstr) : list rstr :=
  match n with
  | O => []
  | S O => [s]
  | S n => match split_once c s with Some (a, rest) => a :: splitn n c rest | None => [s] end
  end.

(** The credential, the signed headers and the signature seen so far. *)
Definition auth_part (acc : option rstr * option rstr * option rstr) (part : rstr) : option rstr * option rstr * option rstr :=
  let '(credential, signed_headers, signature) := acc in
  let part := str_trim part in
  match strip_prefix (rs "Credential=") part with
  | Some val => (Some (str_trim val), signed_headers, signature)
  | None =>
      match strip_prefix (rs "SignedHeaders=") part with
      | Some val => (credential, Some (str_trim val), signature)
      | None =>
          match strip_prefix (rs "Signature=") part with
          | Some val => (credential, signed_headers, Some (str_trim val))
          | None => acc
          end
      end
  end.

(** The access key, date, region and service of a credential. *)
Definition credential_scope (cred : rstr) : option (rstr * rstr * rstr * rstr) :=
  match splitn 5 SLASH cred with
  | [key; date; region; service; last] => if decide (last = AWS4_REQUEST) then Some (key, date, region, service) else None
  | _ => None
  end.

Definition parse_authorization (auth_header : rstr) (security_token : option rstr) : outcome SigV4Error SigV4Authorization :=
  rest ← ok_or (strip_prefix ALGORITHM_HMAC_SHA256 (str_trim auth_header)) (UnsupportedAlgorithm auth_header);
  let '(credential, signed_headers, signature) :=
    foldl auth_part (None, None, None) (split_on COMMA [] (str_trim rest)) in
  cred_str ← ok_or credential (MalformedAuth (rs "missing Credential"));
  sig ← ok_or signature (MalformedAuth (rs "missing Signature"));
  sh ← ok_or signed_headers (MalformedAuth (rs "missing SignedHeaders"));
  scope ← ok_or (credential_scope cred_str) (MalformedAuth (rs "credential scope malformed: " ++ cred_str));
  let '(key, date, region, service) := scope in
  Ok (mkAuthorization key date region service (split_on SEMICOLON [] sh) sig security_token).

(** * Canonical requests *)

(** Lower case of a header name: names are ASCII. *)
Definition to_lower (b : byte) : byte := if in_range 0x41 0x5A b then z2b (b2z b + 32) else b.

Definition build_canonical_headers (headers : list (rstr * rstr)) : rstr :=
  headers ≫= λ '(name, value), (to_lower <$> name) ++ rs ":" ++ str_trim value ++ [LF].

Definition is_unreserved (b : byte) : bool :=
  in_range 0x41 0x5A b || in_range 0x61 0x7A b || in_range 0x30 0x39 b
  || existsb (λ c, bool_decide (b = c)) [x2d; x2e; x5f; x7e].

(** [format!("{:02X}", byte)]. *)
Definition hex_upper (b : byte) : rstr :=
  let digit n := if n <? 10 then z2b (48 + n) else z2b (55 + n) in
  [digit (Z.shiftr (b2z b) 4); digit (Z.land (b2z b) 15)].

Definition uri_encode (encode_slash : bool) (input : rstr) : rstr :=
  input ≫= λ b,
    if is_unreserved b then [b]
    else if bool_decide (b = SLASH) && negb encode_slash then [b]
    else PERCENT :: hex_upper b.

Definition pair_le (a b : rstr * rstr) : bool :=
  if decide (a.1 = b.1) then bytes_leb a.2 b.2 else bytes_leb a.1 b.1.

Definition build_canonical_query (params : list (rstr * rstr)) : rstr :=
  let encoded := (λ '(k, v), (uri_encode true k, uri_encode true v)) <$> filter (λ p, p.1 ≠ rs "X-Amz-Signature") params in
  join (rs "&") ((λ '(k, v), k ++ rs "=" ++ v) <$> sort_by pair_le encoded).

Definition build_canonical_request (method canonical_uri canonical_query canonical_headers signed_headers payload_hash : rstr) : rstr :=
  join [LF] [method; canonical_uri; canonical_query; canonical_headers; signed_headers; payload_hash].

Definition build_presigned_canonical_request (method canonical_uri : rstr) (query_params : list (rstr * rstr))
  (canonical_headers signed_headers : rstr) : rstr :=
  build_canonical_request method canonical_uri (build_canonical_query query_params) canonical_headers signed_headers UNSIGNED_PAYLOAD.

(** The lengths are compared first, then every byte. *)
Definition verify_signature (computed provided : rstr) : outcome SigV4Error () :=
  if decide (length computed ≠ length provided) then Err SignatureMismatch
  else if decide (computed = provided) then Ok () else Err SignatureMismatch.

Section signing.
Context `{HashCrates} `{MacCrates}.

Definition sha256_hex (data : bytes) : rstr := hex_encode (sha256_digest data).

Definition derive_signing_key (secret_key date region service : rstr) : bytes :=
  let k_date := hmac_sha256 (rs "AWS4" ++ secret_key) date in
  let k_region := hmac_sha256 k_date region in
  let k_service := hmac_sha256 k_region service in
  hmac_sha256 k_service AWS4_REQUEST.

Definition build_string_to_sign (datetime credential_scope canonical_request : rstr) : rstr :=
  join [LF] [ALGORITHM_HMAC_SHA256; datetime; credential_scope; sha256_hex canonical_request].

Definition compute_signature (signing_key : bytes) (string_to_sign : rstr) : rstr :=
  hex_encode (hmac_sha256 signing_key string_to_sign).

(** * Chunks *)

(** What the signatures of one body share. *)
Record ChunkScope := mkChunkScope {
  ck_signing_key : bytes;
  ck_datetime : rstr;
  ck_date : rstr;
  ck_region : rstr;
  ck_service : rstr;
}.

Definition scope_line (c : ChunkScope) : rstr := join (rs "/") [ck_date c; ck_region c; ck_service c; AWS4_REQUEST].

(** The empty chunk's hash is the constant of [empty_sha256]. *)
Definition create_chunk_string_to_sign (c : ChunkScope) (prev_signature : rstr) (chunk_data : bytes) : rstr :=
  join [LF] [ALGORITHM_CHUNK; ck_datetime c; scope_line c; prev_signature; sha256_hex []; sha256_hex chunk_data].

Definition compute_chunk_signature (c : ChunkScope) (prev_signature : rstr) (chunk_data : bytes) : rstr :=
  compute_signature (ck_signing_key c) (create_chunk_string_to_sign c prev_signature chunk_data).

Definition verify_chunk_signature (c : ChunkScope) (prev_signature : rstr) (chunk_data : bytes) (claimed : rstr)
  : outcome SigV4Error () := verify_signature (compute_chunk_signature c prev_signature chunk_data) claimed.

Definition create_trailer_string_to_sign (c : ChunkScope) (prev_signature : rstr) (canonical_trailers : bytes) : rstr :=
  join [LF] [ALGORITHM_TRAILER; ck_datetime c; scope_line c; prev_signature; sha256_hex canonical_trailers].

Definition compute_trailer_signature (c : ChunkScope) (prev_signature : rstr) (canonical_trailers : bytes) : rstr :=
  compute_signature (ck_signing_key c) (create_trailer_string_to_sign c prev_signature canonical_trailers).

Definition verify_trailer_signature (c : ChunkScope) (prev_signature : rstr) (canonical_trailers : bytes) (claimed : rstr)
  : outcome SigV4Error () := verify_signature (compute_trailer_signature c prev_signature canonical_trailers) claimed.
End signing.

(** * The wire format of chunks *)

Record ChunkMeta := mkChunkMeta { cm_size : Z; cm_signature : option rstr }.

Definition hex_digit_val (b : byte) : option Z := hex_val b.

(** [usize::from_str_radix(s, 16)], with the text of its error. *)
Fixpoint parse_hex_digits (acc : Z) (s : rstr) : Z + rstr :=
  match s with
  | [] => inl acc
  | b :: s =>
      match hex_digit_val b with
      | None => inr (rs "invalid digit found in string")
      | Some d =>
          let acc := acc * 16 + d in
          if usize_max <? acc then inr (rs "number too large to fit in target type") else parse_hex_digits acc s
      end
  end.
Definition from_str_radix16 (s : rstr) : Z + rstr :=
  match s with
  | [] => inr (rs "cannot parse integer from empty string")
  | [b] => match hex_digit_val b with Some d => inl d | None => inr (rs "invalid digit found in string") end
  | b :: rest => parse_hex_digits 0 (if decide (b = PLUS) then rest else s)
  end.

Definition is_ascii_hexdigit (b : byte) : bool := in_range 0x30 0x39 b || in_range 0x61 0x66 b || in_range 0x41 0x46 b.

Definition chunk_extension (ext : bytes) : outcome SigV4Error rstr :=
  if negb (utf8_valid ext) then Err (ChunkParseFailed (rs "extension not utf8"))
  else
    sig ← match strip_prefix (rs "chunk-signature=") ext with
          | Some s => Ok s
          | None =>
              match strip_prefix (rs "chunk-signature-sha256=") ext with
              | Some s => Ok s
              | None => Err (ChunkParseFailed (rs "unknown chunk extension: " ++ ext))
              end
          end;
    if forallb is_ascii_hexdigit sig then Ok sig else Err (ChunkParseFailed (rs "signature not hex")).

Definition parse_chunk_meta (line : bytes) : outcome SigV4Error ChunkMeta :=
  line ← ok_or (strip_suffix CRLF line) (ChunkParseFailed (rs "missing CRLF"));
  let '(size_part, sig_part) :=
    match split_once SEMICOLON line with Some (a, b) => (a, Some b) | None => (line, None) end in
  if negb (utf8_valid size_part) then Err (ChunkParseFailed (rs "size not utf8"))
  else
    match from_str_radix16 size_part with
    | inr e => Err (ChunkParseFailed (rs "invalid hex size '" ++ size_part ++ rs "': " ++ e))
    | inl size =>
        if MAX_CHUNK_SIZE <? size then Err (ChunkSizeExceeded size MAX_CHUNK_SIZE)
        else
          match sig_part with
          | Some ext => sig ← chunk_extension ext; Ok (mkChunkMeta size (Some sig))
          | None => Ok (mkChunkMeta size None)
          end
    end.

(** * The chunk stream *)

Record ChunkStreamParser := mkParser {
  cp_reader : bytes;
  cp_scope : ChunkScope;
  cp_prev_signature : rstr;
  cp_signed : bool;
  cp_chunk_count : Z;
  cp_finished : bool;
}.

Definition ChunkStreamParser_new (reader : bytes) (scope : ChunkScope) (seed_signature : rstr) (signed : bool) :=
  mkParser reader scope seed_signature signed 0 false.

Definition with_reader (r : bytes) (p : ChunkStreamParser) :=
  mkParser r (cp_scope p) (cp_prev_signature p) (cp_signed p) (cp_chunk_count p) (cp_finished p).
Definition with_prev (sig : rstr) (p : ChunkStreamParser) :=
  mkParser (cp_reader p) (cp_scope p) sig (cp_signed p) (cp_chunk_count p) (cp_finished p).
Definition with_count (n : Z) (p : ChunkStreamParser) :=
  mkParser (cp_reader p) (cp_scope p) (cp_prev_signature p) (cp_signed p) n (cp_finished p).
Definition with_finished (p : ChunkStreamParser) :=
  mkParser (cp_reader p) (cp_scope p) (cp_prev_signature p) (cp_signed p) (cp_chunk_count p) true.

(** The loop that reads a line byte by byte: the line and the rest, or where it
    stopped. *)
Inductive LineRead :=
| LineEnd (line rest : bytes)
| LineEof (line : bytes)
| LineTooLong (rest : bytes).

Fixpoint read_meta_line (line_buf reader : bytes) : LineRead :=
  match reader with
  | [] => LineEof line_buf
  | b :: rest =>
      let line_buf := line_buf ++ [b] in
      if decide (b = LF) then LineEnd line_buf rest
      else if 1024 <? zlen line_buf then LineTooLong rest
      else read_meta_line line_buf rest
  end.

(** [read_exact]: a short reader is read to its end. *)
Definition read_exact (n : Z) (reader : bytes) : option (bytes * bytes) :=
  if n <=? zlen reader then Some (take (Z.to_nat n) reader, drop (Z.to_nat n) reader) else None.

Definition eof_text : rstr := rs "failed to fill whole buffer".

Section stream.
Context `{HashCrates} `{MacCrates}.

(** A chunk's signature, where signatures are asked for, and the chain moved on. *)
Definition check_chunk (meta : ChunkMeta) (data : bytes) (p : ChunkStreamParser) : ChunkStreamParser * outcome SigV4Error () :=
  if cp_signed p then
    match cm_signature meta with
    | None => (p, Err (ChunkParseFailed (rs "signed mode requires chunk signature")))
    | Some claimed =>
        match verify_chunk_signature (cp_scope p) (cp_prev_signature p) data claimed with
        | Ok _ => (with_prev claimed p, Ok ())
        | Err e => (p, Err e)
        | Panic => (p, Panic)
        end
    end
  else (p, Ok ()).

Definition then_ok {A} (r : ChunkStreamParser * outcome SigV4Error ()) (a : A) : ChunkStreamParser * outcome SigV4Error A :=
  match r with
  | (p, Ok _) => (p, Ok a)
  | (p, Err e) => (p, Err e)
  | (p, Panic) => (p, Panic)
  end.

(** The data of a chunk and the line end after it. *)
Definition read_chunk_data (meta : ChunkMeta) (p : ChunkStreamParser) : ChunkStreamParser * outcome SigV4Error (option bytes) :=
  match read_exact (cm_size meta) (cp_reader p) with
  | None => (with_reader [] p, Err (ChunkParseFailed (rs "reading chunk data: " ++ eof_text)))
  | Some (data, rest) =>
      match read_exact 2 rest with
      | None => (with_reader [] p, Err (ChunkParseFailed (rs "reading chunk CRLF: " ++ eof_text)))
      | Some (crlf, rest) =>
          let p := with_reader rest p in
          if decide (crlf ≠ CRLF) then (p, Err (ChunkParseFailed (rs "missing CRLF after chunk data")))
          else then_ok (check_chunk meta data p) (Some data)
      end
  end.

Definition next_chunk (p : ChunkStreamParser) : ChunkStreamParser * outcome SigV4Error (option bytes) :=
  if cp_finished p then (p, Ok None)
  else
    let p := with_count (cp_chunk_count p + 1) p in
    if MAX_CHUNK_COUNT <? cp_chunk_count p then (p, Err (ChunkCountExceeded MAX_CHUNK_COUNT))
    else
      match read_meta_line [] (cp_reader p) with
      | LineEof line =>
          let p := with_finished (with_reader [] p) in
          if decide (line = []) then (p, Ok None)
          else (p, Err (ChunkParseFailed (rs "unexpected EOF in chunk meta")))
      | LineTooLong rest => (with_reader rest p, Err (ChunkParseFailed (rs "chunk meta line too long")))
      | LineEnd line rest =>
          let p := with_reader rest p in
          match parse_chunk_meta line with
          | Err e => (p, Err e)
          | Panic => (p, Panic)
          | Ok meta =>
              if cm_size meta =? 0 then then_ok (check_chunk meta [] (with_finished p)) None
              else read_chunk_data meta p
          end
      end.

(** * Trailers *)

(** The loop over the lines: the headers, and the last signature among them. *)
Fixpoint trailer_lines (lines : list bytes) : outcome SigV4Error (list (rstr * rstr) * option rstr) :=
  match lines with
  | [] => Ok ([], None)
  | line :: lines =>
      let line := if ends_with [CR] line then take (length line - 1) line else line in
      if decide (line = []) then trailer_lines lines
      else
        match split_once COLON line with
        | None => Err (ChunkParseFailed (rs "trailer header missing colon"))
        | Some (name, value) =>
            if negb (utf8_valid name) then Err (ChunkParseFailed (rs "trailer name not utf8"))
            else if negb (utf8_valid value) then Err (ChunkParseFailed (rs "trailer value not utf8"))
            else
              let name := to_lower <$> name in
              let value := str_trim value in
              '(entries, signature) ← trailer_lines lines;
              if decide (name = rs "x-amz-trailer-signature") then
                Ok (entries, match signature with Some s => Some s | None => Some value end)
              else Ok ((name, value) :: entries, signature)
        end
  end.

Definition name_le (a b : rstr * rstr) : bool := bytes_leb a.1 b.1.

Definition read_trailers (p : ChunkStreamParser) : ChunkStreamParser * outcome SigV4Error (list (rstr * rstr)) :=
  let buf := cp_reader p in
  if MAX_TRAILER_BYTES <? zlen buf then
    (with_reader (drop (Z.to_nat (MAX_TRAILER_BYTES + 1)) buf) p, Err (TrailerTooLarge (MAX_TRAILER_BYTES + 1) MAX_TRAILER_BYTES))
  else
    let p := with_reader [] p in
    if decide (buf = []) then (p, Ok [])
    else if decide (buf = CRLF) then (p, Ok [])
    else
      (p, '(entries, signature) ← trailer_lines (split_on LF [] buf);
          match signature with
          | None => Ok entries
          | Some claimed =>
              let entries := sort_by name_le entries in
              let canonical := entries ≫= λ '(n, v), n ++ [COLON] ++ v ++ [LF] in
              _ ← verify_trailer_signature (cp_scope p) (cp_prev_signature p) canonical claimed;
              Ok entries
          end).
End stream.

(** * Presigned URLs *)

(** The value of the last parameter of a name. *)
Definition last_param (name : rstr) (params : list (rstr * rstr)) : option rstr :=
  snd <$> last (filter (λ p, p.1 = name) params).

Definition parse_presigned_url (params : list (rstr * rstr)) : outcome SigV4Error PresignedUrl :=
  let need name := ok_or (last_param (rs name) params) (MissingHeader (rs name)) in
  algo ← need "X-Amz-Algorithm";
  if decide (algo ≠ ALGORITHM_HMAC_SHA256) then Err (UnsupportedAlgorithm algo)
  else
    cred ← need "X-Amz-Credential";
    scope ← ok_or (credential_scope cred) (MalformedAuth (rs "presigned credential malformed: " ++ cred));
    let '(key, date, region, service) := scope in
    datetime ← need "X-Amz-Date";
    exp_str ← need "X-Amz-Expires";
    expires_secs ← ok_or (parse_u64 exp_str) (MalformedAuth (rs "X-Amz-Expires not integer: " ++ exp_str));
    sh ← need "X-Amz-SignedHeaders";
    sig ← need "X-Amz-Signature";
    Ok (mkPresigned key date region service datetime expires_secs (split_on SEMICOLON [] sh) sig
          (last_param (rs "X-Amz-Security-Token") params)).

Definition clock_error_str (e : ClockError) : rstr :=
  match e with InvalidFormat m => rs "invalid datetime format: " ++ m end.

Definition check_presigned_expiration `{ChronoCrate} (signing_datetime : rstr) (expires_secs now_secs : Z) : outcome SigV4Error () :=
  signing_epoch ← map_err (λ e, MalformedAuth (clock_error_str e)) (parse_datetime_to_epoch_secs signing_datetime);
  if u64_max <? signing_epoch + expires_secs then Panic
  else if signing_epoch + expires_secs <? now_secs then Err Expired
  else Ok ().

(** * Verified streams *)

Section chains.
Context `{HashCratesLaws} `{MacCrates}.

(** The signature after a sequence of chunks, from the seed. *)
Definition chain (c : ChunkScope) (seed : rstr) (chunks : list bytes) : rstr :=
  foldl (compute_chunk_signature c) seed chunks.

Lemma verify_signature_ok a b : verify_signature a b = Ok () ↔ a = b.
Proof. unfold verify_signature. repeat case_decide; naive_solver. Qed.

Lemma signature_hex key text : forallb is_ascii_hexdigit (compute_signature key text) = true.
Proof.
  unfold compute_signature. rewrite hex_encode_spec. apply forallb_forall. intros b Hb%list_elem_of_In.
  apply list_elem_of_bind in Hb as (x & Hb & _).
  assert (∀ x, forallb is_ascii_hexdigit (hex_of_byte (b2z x)) = true) as Hx by (intros []; by vm_compute).
  specialize (Hx x). rewrite forallb_forall in Hx. by apply Hx, list_elem_of_In.
Qed.

(** A line of the stream, read. *)
Lemma read_line_ok line rest buf : LF ∉ line → zlen (buf ++ line) < 1024 →
  read_meta_line buf (line ++ LF :: rest) = LineEnd (buf ++ line ++ [LF]) rest.
Proof.
  revert buf. induction line as [|b line IH]; intros buf Hl Hn; cbn [read_meta_line app]; [done|].
  rewrite decide_False by set_solver. replace (1024 <? zlen (buf ++ [b])) with false.
  2:{ symmetry. apply Z.ltb_ge. rewrite length_app in Hn |- *. cbn [length] in Hn |- *. lia. }
  rewrite IH; [by rewrite <- !app_assoc|set_solver|]. by rewrite <- app_assoc.
Qed.

Lemma read_exact_app data rest : read_exact (zlen data) (data ++ rest) = Some (data, rest).
Proof.
  unfold read_exact. rewrite length_app. replace (_ <=? _) with true by (symmetry; apply Z.leb_le; lia).
  by rewrite Nat2Z.id, take_app_length, drop_app_length.
Qed.

Lemma read_exact_Some n r data rest : 0 ≤ n → read_exact n r = Some (data, rest) → r = data ++ rest ∧ zlen data = n.
Proof.
  unfold read_exact. intros Hn. destruct (Z.leb_spec n (zlen r)); [|done]. intros [= <- <-].
  split; [by rewrite take_drop|]. rewrite length_take. lia.
Qed.

(** The signature a chunk hands on is the chain's. *)
Lemma check_chunk_ok meta data p p' : check_chunk meta data p = (p', Ok ()) → cp_signed p = true →
  cm_signature meta = Some (cp_prev_signature p') ∧
  p' = with_prev (compute_chunk_signature (cp_scope p) (cp_prev_signature p) data) p.
Proof.
  unfold check_chunk. intros E Hs. rewrite Hs in E. destruct (cm_signature meta) as [claimed|]; [|done].
  destruct (verify_chunk_signature _ _ _ _) as [[]| |] eqn:Ev; [|done|done]. injection E as <-.
  apply verify_signature_ok in Ev. by rewrite <- Ev.
Qed.

(** * Streams as clients write them *)

Lemma signature_length `{!MacCratesLaws} key text : length (compute_signature key text) = 64%nat.
Proof.
  unfold compute_signature. rewrite hex_encode_spec. unfold hex_of_bytes.
  assert (∀ l : bytes, length (l ≫= λ b, hex_of_byte (b2z b)) = (2 * length l)%nat) as ->.
  { induction l as [|b l IH]; [done|]. rewrite bind_cons, length_app, IH. cbn [length hex_of_byte]. lia. }
  by rewrite hmac_length.
Qed.

(** A text the size of a chunk may be written as. *)
Definition size_text (t : rstr) (n : Z) : Prop :=
  from_str_radix16 t = inl n ∧ forallb is_ascii_hexdigit t = true ∧ (length t ≤ 512)%nat.

Definition meta_line (t sig : rstr) : bytes := t ++ rs ";chunk-signature=" ++ sig ++ CRLF.

Fixpoint encode_chunks (c : ChunkScope) (prev : rstr) (chunks : list (rstr * bytes)) : bytes :=
  match chunks with
  | [] => []
  | (t, d) :: chunks =>
      let sig := compute_chunk_signature c prev d in
      meta_line t sig ++ d ++ CRLF ++ encode_chunks c sig chunks
  end.

(** The last chunk is empty. *)
Definition final_chunk (c : ChunkScope) (prev t : rstr) : bytes := meta_line t (compute_chunk_signature c prev []).

(** Reading until the stream is over. *)
Fixpoint read_all (fuel : nat) (p : ChunkStreamParser) : ChunkStreamParser * outcome SigV4Error (list bytes) :=
  match fuel with
  | O => (p, Panic)
  | S fuel =>
      match next_chunk p with
      | (p, Ok None) => (p, Ok [])
      | (p, Ok (Some d)) =>
          match read_all fuel p with
          | (p, Ok ds) => (p, Ok (d :: ds))
          | (p, r) => (p, r)
          end
      | (p, Err e) => (p, Err e)
      | (p, Panic) => (p, Panic)
      end
  end.

Lemma hexdigits_facts t : forallb is_ascii_hexdigit t = true →
  forallb is_ascii t = true ∧ ∀ b, b ∈ t → (b ≠ LF) ∧ (b ≠ SEMICOLON).
Proof.
  rewrite !forallb_forall. intros Ht.
  assert (∀ b, is_ascii_hexdigit b = true → is_ascii b = true ∧ (b ≠ LF) ∧ (b ≠ SEMICOLON)) as Hb by (intros []; done).
  split; [intros b Hin; by apply Hb, Ht|]. intros b Hin%list_elem_of_In. by apply Hb, Ht.
Qed.

Lemma parse_meta_line t n sig : size_text t n → n ≤ MAX_CHUNK_SIZE → forallb is_ascii_hexdigit sig = true →
  parse_chunk_meta (meta_line t sig) = Ok (mkChunkMeta n (Some sig)).
Proof.
  intros (Hn & Ht & _) Hmax Hsig. destruct (hexdigits_facts _ Ht) as [Ht1 Ht2]. destruct (hexdigits_facts _ Hsig) as [Hs1 _].
  unfold parse_chunk_meta, meta_line. rewrite !app_assoc, strip_suffix_app. cbn [ok_or mbind outcome_bind].
  rewrite <- app_assoc. change (rs ";chunk-signature=" ++ sig) with (SEMICOLON :: rs "chunk-signature=" ++ sig).
  rewrite split_once_app by (intros Hin; by destruct (Ht2 _ Hin)). rewrite utf8_valid_ascii by done. cbn [negb]. rewrite Hn.
  replace (MAX_CHUNK_SIZE <? n) with false by (symmetry; by apply Z.ltb_ge).
  unfold chunk_extension. rewrite utf8_valid_ascii by (rewrite forallb_app, Hs1; by vm_compute).
  cbn [negb]. rewrite strip_prefix_app. cbn [mbind outcome_bind]. by rewrite Hsig.
Qed.

Section reading.
Context `{!MacCratesLaws}.

Lemma read_meta_wire t n sig rest : size_text t n → length sig = 64%nat → forallb is_ascii_hexdigit sig = true →
  read_meta_line [] (meta_line t sig ++ rest) = LineEnd (meta_line t sig) rest.
Proof.
  intros (_ & Ht & Hl) Hsl Hsig. unfold meta_line, CRLF.
  replace (t ++ rs ";chunk-signature=" ++ sig ++ [CR; LF]) with ((t ++ rs ";chunk-signature=" ++ sig ++ [CR]) ++ [LF])
    by (by rewrite <- !app_assoc).
  rewrite <- (app_assoc _ [LF] rest). cbn [app]. rewrite read_line_ok; [done| |].
  - rewrite !not_elem_of_app. split_and!.
    + intros Hin. by destruct (proj2 (hexdigits_facts _ Ht) _ Hin).
    + by refine (bool_decide_unpack _ _); vm_compute.
    + intros Hin. by destruct (proj2 (hexdigits_facts _ Hsig) _ Hin).
    + by refine (bool_decide_unpack _ _); vm_compute.
  - cbn [app]. rewrite !length_app, Hsl. change (length (rs ";chunk-signature=")) with 17%nat. cbn [length]. lia.
Qed.

(** One step over a signed chunk. *)
Lemma next_chunk_wire p t d rest :
  cp_finished p = false → cp_signed p = true → 0 ≤ cp_chunk_count p < MAX_CHUNK_COUNT →
  size_text t (zlen d) → d ≠ [] → zlen d ≤ MAX_CHUNK_SIZE →
  let sig := compute_chunk_signature (cp_scope p) (cp_prev_signature p) d in
  cp_reader p = meta_line t sig ++ d ++ CRLF ++ rest →
  next_chunk p = (mkParser rest (cp_scope p) sig true (cp_chunk_count p + 1) false, Ok (Some d)).
Proof.
  intros Hf Hs Hc Ht Hd Hmax sig Hr. unfold next_chunk. rewrite Hf. cbv zeta. cbn [with_count cp_chunk_count cp_reader].
  replace (MAX_CHUNK_COUNT <? cp_chunk_count p + 1) with false by (symmetry; apply Z.ltb_ge; lia).
  rewrite Hr, (read_meta_wire t (zlen d)) by (done || apply signature_length || apply signature_hex).
  rewrite (parse_meta_line t (zlen d)) by (done || apply signature_hex). cbn [cm_size].
  replace (zlen d =? 0) with false by (symmetry; apply Z.eqb_neq; destruct d; cbn [length]; [done|lia]).
  unfold read_chunk_data. cbn [with_reader cp_reader cm_size]. rewrite read_exact_app.
  change 2 with (zlen CRLF). rewrite read_exact_app. rewrite decide_False by (intros Hk; by apply Hk).
  unfold check_chunk. cbn [with_reader with_count cp_signed cp_scope cp_prev_signature cm_signature]. rewrite Hs.
  unfold verify_chunk_signature. fold sig. rewrite (proj2 (verify_signature_ok sig sig) eq_refl).
  cbn [then_ok]. unfold with_prev, with_reader, with_count. cbn [cp_scope cp_signed cp_chunk_count cp_finished]. by rewrite Hf, Hs.
Qed.

(** The step over the last chunk. *)
Lemma next_chunk_final p t rest :
  cp_finished p = false → cp_signed p = true → 0 ≤ cp_chunk_count p < MAX_CHUNK_COUNT → size_text t 0 →
  cp_reader p = final_chunk (cp_scope p) (cp_prev_signature p) t ++ rest →
  next_chunk p = (mkParser rest (cp_scope p) (compute_chunk_signature (cp_scope p) (cp_prev_signature p) [])
                    true (cp_chunk_count p + 1) true, Ok None).
Proof.
  intros Hf Hs Hc Ht Hr. unfold next_chunk. rewrite Hf. cbv zeta. cbn [with_count cp_chunk_count cp_reader].
  replace (MAX_CHUNK_COUNT <? cp_chunk_count p + 1) with false by (symmetry; apply Z.ltb_ge; lia).
  unfold final_chunk in Hr. rewrite Hr, (read_meta_wire t 0) by (done || apply signature_length || apply signature_hex).
  rewrite (parse_meta_line t 0) by (done || apply signature_hex). cbn [cm_size Z.eqb].
  unfold check_chunk. cbn [with_finished with_reader with_count cp_signed cp_scope cp_prev_signature cm_signature]. rewrite Hs.
  unfold verify_chunk_signature. rewrite (proj2 (verify_signature_ok _ _) eq_refl). cbn [then_ok].
  unfold with_prev, with_finished, with_reader, with_count. cbn [cp_scope cp_signed cp_chunk_count cp_finished cp_reader]. by rewrite Hs.
Qed.

Definition chunk_ok (x : rstr * bytes) : Prop := size_text x.1 (zlen x.2) ∧ x.2 ≠ [] ∧ zlen x.2 ≤ MAX_CHUNK_SIZE.

(** Reading through written chunks, to whatever follows them. *)
Lemma read_all_wire chunks fuel p rest :
  cp_finished p = false → cp_signed p = true → 0 ≤ cp_chunk_count p → cp_chunk_count p + zlen chunks ≤ MAX_CHUNK_COUNT →
  Forall chunk_ok chunks → cp_reader p = encode_chunks (cp_scope p) (cp_prev_signature p) chunks ++ rest →
  let p1 := mkParser rest (cp_scope p) (chain (cp_scope p) (cp_prev_signature p) (snd <$> chunks)) true
              (cp_chunk_count p + zlen chunks) false in
  read_all (length chunks + fuel) p =
    match read_all fuel p1 with (p2, Ok ds) => (p2, Ok ((snd <$> chunks) ++ ds)) | (p2, r) => (p2, r) end.
Proof.
  revert p. induction chunks as [|[t d] chunks IH]; intros p Hf Hs Hc0 Hc Hall Hr p1.
  - cbn [length Nat.add fmap list_fmap app]. replace p1 with p; [by destruct (read_all fuel p) as [? []]|].
    unfold p1. destruct p; cbn in *. subst. f_equal. lia.
  - apply Forall_cons in Hall as [(Ht & Hd & Hm) Hall]. cbn [fst snd] in *. cbn [length] in Hc.
    cbn [encode_chunks] in Hr. rewrite <- !app_assoc in Hr.
    cbn [length Nat.add read_all]. rewrite (next_chunk_wire p t d _ Hf Hs) by (done || lia).
    set (p' := mkParser _ _ _ _ _ _). rewrite (IH p') by (done || cbn; lia). subst p1 p'. cbn [cp_scope cp_prev_signature cp_chunk_count].
    replace (cp_chunk_count p + 1 + zlen chunks) with (cp_chunk_count p + zlen ((t, d) :: chunks)) by (cbn [length]; lia).
    cbn [fmap list_fmap snd chain foldl app]. unfold chain. by destruct (read_all fuel _) as [? []].
Qed.
End reading.
End chains.

(** * What the parser promises *)

(** The chunks of a stream with their signatures, from a signature on: every
    chunk stands behind a line with its size and the chain's signature over it;
    the stream ends at its end or with a signed empty chunk. *)
Inductive authentic `{HashCrates} `{MacCrates} (c : ChunkScope) : rstr → list bytes → bytes → bytes → Prop :=
| authentic_end prev : authentic c prev [] [] []
| authentic_final prev line rest :
    parse_chunk_meta line = Ok (mkChunkMeta 0 (Some (compute_chunk_signature c prev []))) →
    authentic c prev [] (line ++ rest) rest
| authentic_chunk prev line d ds input rest :
    parse_chunk_meta line = Ok (mkChunkMeta (zlen d) (Some (compute_chunk_signature c prev d))) →
    authentic c (compute_chunk_signature c prev d) ds input rest →
    authentic c prev (d :: ds) (line ++ d ++ CRLF ++ input) rest.

Lemma read_line_split buf r line rest : read_meta_line buf r = LineEnd line rest → ∃ l, line = buf ++ l ∧ r = l ++ rest.
Proof.
  revert buf. induction r as [|b r IH]; intros buf; cbn [read_meta_line]; [done|].
  case_decide; [intros [= <- <-]; by exists [b]|]. case_match; [done|].
  intros (l & -> & ->)%IH. exists (b :: l). by rewrite <- app_assoc.
Qed.

Lemma read_line_eof buf r : read_meta_line buf r = LineEof [] → r = [].
Proof.
  revert buf. induction r as [|b r IH]; intros buf; cbn [read_meta_line]; [done|].
  case_decide; [done|]. case_match; [done|]. intros E. specialize (IH _ E). subst. cbn in E. by destruct buf.
Qed.

Lemma parse_digits_size acc t n : 0 ≤ acc → parse_hex_digits acc t = inl n → 0 ≤ n.
Proof.
  revert acc. induction t as [|b t IH]; intros acc Ha; cbn [parse_hex_digits]; [by intros [= <-]|].
  destruct (hex_digit_val b) as [d|] eqn:E; [|done]. case_match; [done|]. apply IH.
  enough (0 ≤ d) by lia. unfold hex_digit_val, hex_val in E. pose proof (b2z_range b). unfold in_range in E.
  repeat case_match; simplify_eq; rewrite ?andb_true_iff, ?Z.leb_le in *; lia.
Qed.

Lemma parse_meta_size line m : parse_chunk_meta line = Ok m → 0 ≤ cm_size m.
Proof.
  unfold parse_chunk_meta. intros E. destruct (strip_suffix CRLF line) as [r|]; [|done]. cbn [ok_or mbind outcome_bind] in E.
  destruct (match split_once SEMICOLON r with Some _ => _ | None => _ end) as [sp gp].
  case_match; [done|]. destruct (from_str_radix16 sp) as [n|] eqn:En; [|done]. case_match; [done|].
  assert (cm_size m = n) as ->.
  { destruct gp; [|by injection E as <-]. apply bind_ok_inv in E as (sig & _ & [= <-]). done. }
  unfold from_str_radix16 in En. destruct sp as [|b [|b' sp]]; [done| |by apply (parse_digits_size 0) in En].
  destruct (hex_digit_val b) eqn:Eb; [|done]. injection En as <-. apply (parse_digits_size 0 [b]); [done|].
  cbn [parse_hex_digits]. rewrite Eb. replace (0 * 16 + z) with z by lia. replace (usize_max <? z) with false; [done|].
  symmetry. apply Z.ltb_ge. unfold hex_digit_val, hex_val in Eb. pose proof (b2z_range b).
  unfold usize_max, u64_max. repeat case_match; simplify_eq; lia.
Qed.

Section promises.
Context `{HashCratesLaws} `{MacCrates}.

(** One step of a signed stream: what was read, and the chain moved on. *)
Lemma next_chunk_inv p p' r : cp_finished p = false → cp_signed p = true → next_chunk p = (p', Ok r) →
  cp_signed p' = true ∧ cp_scope p' = cp_scope p ∧
  match r with
  | None => authentic (cp_scope p) (cp_prev_signature p) [] (cp_reader p) (cp_reader p')
  | Some d => cp_finished p' = false ∧ cp_prev_signature p' = compute_chunk_signature (cp_scope p) (cp_prev_signature p) d ∧
      ∃ line, parse_chunk_meta line = Ok (mkChunkMeta (zlen d) (Some (cp_prev_signature p'))) ∧
        cp_reader p = line ++ d ++ CRLF ++ cp_reader p'
  end.
Proof.
  intros Hf Hs. unfold next_chunk. rewrite Hf. cbv zeta. case_match; [done|].
  destruct (read_meta_line [] _) as [line rest|line|rest] eqn:El; [| |done].
  2:{ case_decide; [|done]. subst line. apply read_line_eof in El. cbn [with_count cp_reader] in El.
      intros [= <- <-]. split_and!; [done|done|]. rewrite El. constructor. }
  apply read_line_split in El as (l & -> & Hr). cbn [app with_count cp_reader] in Hr. cbn [app].
  destruct (parse_chunk_meta l) as [meta|e|] eqn:Em; [|done|done]. pose proof (parse_meta_size _ _ Em) as Hsize.
  destruct meta as [size sig]. cbn [cm_size] in *.
  destruct (Z.eqb_spec size 0) as [->|Hne].
  - destruct (check_chunk _ _ _) as [p1 [[]| |]] eqn:Ec; cbn [then_ok]; [|done|done]. intros [= <- <-].
    destruct (check_chunk_ok _ _ _ _ Ec Hs) as [Hsig ->]. cbn in Hsig. split_and!; [done|done|]. rewrite Hr.
    constructor. by rewrite Em, Hsig.
  - unfold read_chunk_data. cbn [cm_size with_reader cp_reader].
    destruct (read_exact size rest) as [[data rest1]|] eqn:E1; [|done].
    destruct (read_exact 2 rest1) as [[crlf rest2]|] eqn:E2; [|done].
    apply read_exact_Some in E1 as [-> Hd]; [|done]. apply read_exact_Some in E2 as [-> _]; [|done].
    case_decide as Hcr; [done|]. assert (crlf = CRLF) as -> by (destruct (decide (crlf = CRLF)); tauto).
    destruct (check_chunk _ _ _) as [p1 [[]| |]] eqn:Ec; cbn [then_ok]; [|done|done]. intros [= <- <-].
    destruct (check_chunk_ok _ _ _ _ Ec Hs) as [Hsig ->]. cbn in Hsig. split_and!; [done|done|done|done|].
    exists l. rewrite Hr. split; [by rewrite Em, Hsig, Hd|done].
Qed.

(** C17: Every byte a signed stream hands out is authentic: whatever the reader
    holds, when reading it through succeeds, each chunk returned stood behind a
    line with its size and the signature that the signing key gives to the chunk
    and to the signature before it, beginning with the seed of the request. *)
Theorem chunk_stream_authentic fuel p p' ds
  (Hf : cp_finished p = false) (Hs : cp_signed p = true) (Hread : read_all fuel p = (p', Ok ds)) :
  authentic (cp_scope p) (cp_prev_signature p) ds (cp_reader p) (cp_reader p').
Proof.
  revert p ds Hf Hs Hread. induction fuel as [|fuel IH]; intros p ds Hf Hs E; [done|]. cbn [read_all] in E.
  destruct (next_chunk p) as [p1 [[d|]|e|]] eqn:En; [| |done|done].
  - destruct (next_chunk_inv p p1 (Some d) Hf Hs En) as (Hs1 & Hc1 & Hf1 & Hp1 & line & Hl & Hr).
    destruct (read_all fuel p1) as [p2 [ds1| |]] eqn:Er; [|done|done]. injection E as <- <-.
    specialize (IH p1 ds1 Hf1 Hs1 Er). rewrite Hr, Hp1 in *. rewrite Hc1 in IH. by constructor.
  - injection E as <- <-. by apply (next_chunk_inv p p1 None Hf Hs En).
Qed.

(** A body written in signed chunks is read back: for chunks that are not
    empty, of any accepted size and in any hexadecimal writing of it, fewer than
    the maximum count, the parser returns the chunks in order, ends, stands where
    the trailers begin, and holds the signature of the whole chain. *)
Theorem chunk_stream_roundtrip `{!MacCratesLaws} c seed chunks last rest
  (Hall : Forall chunk_ok chunks) (Hlast : size_text last 0) (Hcount : zlen chunks < MAX_CHUNK_COUNT) :
  let datas := snd <$> chunks in
  let wire := encode_chunks c seed chunks ++ final_chunk c (chain c seed datas) last ++ rest in
  ∃ p, read_all (S (length chunks)) (ChunkStreamParser_new wire c seed true) = (p, Ok datas) ∧
    cp_finished p = true ∧ cp_reader p = rest ∧ cp_prev_signature p = chain c seed (datas ++ [[]]).
Proof.
  intros datas wire. eexists. split.
  - rewrite <- Nat.add_1_r. rewrite (read_all_wire chunks 1 _ (final_chunk c (chain c seed datas) last ++ rest));
      [|done|done|done|cbn; lia|done|done].
    cbn [read_all]. rewrite (next_chunk_final _ last rest); [|done|done|cbn; lia|done|done].
    cbv beta iota. by rewrite app_nil_r.
  - split_and!; [done|done|]. cbn. unfold chain. by rewrite foldl_app.
Qed.

(** A signed stream may be cut short: the chunks of a stream without its
    empty last chunk are all returned and the reader's end is taken for the
    body's, though nothing signed says that no chunk follows. *)
Theorem truncated_stream_accepted `{!MacCratesLaws} c seed chunks
  (Hall : Forall chunk_ok chunks) (Hcount : zlen chunks < MAX_CHUNK_COUNT) :
  ∃ p, read_all (S (length chunks)) (ChunkStreamParser_new (encode_chunks c seed chunks) c seed true) = (p, Ok (snd <$> chunks)).
Proof.
  eexists. rewrite <- Nat.add_1_r. rewrite (read_all_wire chunks 1 _ []); [|done|done|done|cbn; lia|done|by rewrite app_nil_r].
  cbn [read_all]. unfold next_chunk. cbv zeta. cbn [with_count cp_finished cp_chunk_count ChunkStreamParser_new].
  replace (MAX_CHUNK_COUNT <? 0 + zlen chunks + 1) with false by (symmetry; apply Z.ltb_ge; lia).
  cbn [with_count cp_reader read_meta_line]. rewrite decide_True by done. cbv beta iota. by rewrite app_nil_r.
Qed.
End promises.
