(* ===== verification/S3Xml.v ===== *)
(** S3Xml: the XML documents of the S3 endpoints, [kappa-module-s3/src/xml.rs].

    The XML writer is the [quick_xml] crate's: the class [XmlCrate] gives the
    bytes each event is written as. *)

From S2P Require Import Prelude Label Http SigV4.

Class XmlCrate := {
  xml_start : rstr → list (rstr * rstr) → bytes;
  xml_text : rstr → bytes;
  xml_end : rstr → bytes;
}.

(** A text whose double quotes are written as percent signs. *)
Definition quotes (s : string) : rstr := (λ b, if decide (b = PERCENT) then QUOTE else b) <$> rs s.

Definition XML_DECLARATION : rstr := quotes "<?xml version=%1.0% encoding=%UTF-8%?>".
Definition S3_XMLNS : rstr := rs "http://s3.amazonaws.com/doc/2006-03-01/".

Record ObjectEntry := mkObject {
  oe_key : rstr;
  oe_last_modified : rstr;
  oe_etag : rstr;
  oe_size : Z;
  oe_storage_class : rstr;
}.

Record ListObjectsV2Response := mkListResponse {
  lr_name : rstr;
  lr_prefix : option rstr;
  lr_delimiter : option rstr;
  lr_max_keys : Z;
  lr_is_truncated : bool;
  lr_contents : list ObjectEntry;
  lr_common_prefixes : list rstr;
  lr_next_continuation_token : option rstr;
  lr_key_count : Z;
  lr_encoding_type : option rstr;
}.

Record PartInfo := mkPart {
  pi_part_number : Z;
  pi_etag : rstr;
  pi_size : Z;
  pi_last_modified : rstr;
}.

(** Slashes are kept too. *)
Definition percent_encode_key (key : rstr) : rstr :=
  key ≫= λ b, if is_unreserved b || bool_decide (b = SLASH) then [b] else PERCENT :: hex_upper b.

Section xml.
Context `{XmlCrate}.

Definition write_text_element (name value : rstr) : bytes := xml_start name [] ++ xml_text value ++ xml_end name.

(** [if let Some(ref x) = opt { write_text_element(..) }]. *)
Definition opt_element (name : rstr) (value : option rstr) : bytes :=
  match value with Some v => write_text_element name v | None => [] end.

Definition element (name : rstr) (content : bytes) : bytes := xml_start name [] ++ content ++ xml_end name.
Definition root_element (name : rstr) (content : bytes) : bytes :=
  XML_DECLARATION ++ xml_start name [(rs "xmlns", S3_XMLNS)] ++ content ++ xml_end name.
Definition plain_root (name : rstr) (content : bytes) : bytes := XML_DECLARATION ++ element name content.

Definition object_element (encode : rstr → rstr) (e : ObjectEntry) : bytes :=
  element (rs "Contents")
    (write_text_element (rs "Key") (encode (oe_key e)) ++
     write_text_element (rs "LastModified") (oe_last_modified e) ++
     write_text_element (rs "ETag") (oe_etag e) ++
     write_text_element (rs "Size") (dec (oe_size e)) ++
     write_text_element (rs "StorageClass") (oe_storage_class e)).

Definition encode_list_objects_v2_xml (r : ListObjectsV2Response) : bytes :=
  let encode := if decide (lr_encoding_type r = Some (rs "url")) then percent_encode_key else id in
  root_element (rs "ListBucketResult")
    (write_text_element (rs "Name") (lr_name r) ++
     opt_element (rs "Prefix") (lr_prefix r) ++
     write_text_element (rs "MaxKeys") (dec (lr_max_keys r)) ++
     write_text_element (rs "KeyCount") (dec (lr_key_count r)) ++
     write_text_element (rs "IsTruncated") (if lr_is_truncated r then rs "true" else rs "false") ++
     opt_element (rs "Delimiter") (lr_delimiter r) ++
     opt_element (rs "EncodingType") (lr_encoding_type r) ++
     opt_element (rs "NextContinuationToken") (lr_next_continuation_token r) ++
     (lr_contents r ≫= object_element encode) ++
     (lr_common_prefixes r ≫= λ cp, element (rs "CommonPrefixes") (write_text_element (rs "Prefix") (encode cp)))).

Definition encode_s3_error_xml (code message : rstr) : bytes :=
  plain_root (rs "Error") (write_text_element (rs "Code") code ++ write_text_element (rs "Message") message).

Definition encode_delete_result_xml (deleted : list rstr) (errors : list (rstr * rstr * rstr)) : bytes :=
  plain_root (rs "DeleteResult")
    ((deleted ≫= λ key, element (rs "Deleted") (write_text_element (rs "Key") key)) ++
     (errors ≫= λ '(key, code, message),
        element (rs "Error")
          (write_text_element (rs "Key") key ++ write_text_element (rs "Code") code ++ write_text_element (rs "Message") message))).

Definition encode_initiate_multipart_xml (bucket key upload_id : rstr) : bytes :=
  root_element (rs "InitiateMultipartUploadResult")
    (write_text_element (rs "Bucket") bucket ++ write_text_element (rs "Key") key ++ write_text_element (rs "UploadId") upload_id).

Definition encode_complete_multipart_xml (bucket key etag : rstr) : bytes :=
  root_element (rs "CompleteMultipartUploadResult")
    (write_text_element (rs "Bucket") bucket ++ write_text_element (rs "Key") key ++ write_text_element (rs "ETag") etag).

Definition encode_list_parts_xml (parts : list PartInfo) : bytes :=
  plain_root (rs "ListPartsResult")
    (parts ≫= λ part,
       element (rs "Part")
         (write_text_element (rs "PartNumber") (dec (pi_part_number part)) ++
          write_text_element (rs "ETag") (pi_etag part) ++
          write_text_element (rs "Size") (dec (pi_size part)) ++
          (if decide (pi_last_modified part = []) then [] else write_text_element (rs "LastModified") (pi_last_modified part)))).

Definition encode_copy_result_xml (etag last_modified : rstr) : bytes :=
  plain_root (rs "CopyObjectResult") (write_text_element (rs "ETag") etag ++ write_text_element (rs "LastModified") last_modified).
End xml.
