(* ===== verification/SigLayer.v ===== *)
(** SigLayer: the check of request signatures in front of the S3 endpoints,
    [kappa-server/src/layers/sigv4.rs].

    The credential store and the region come from the application's context and
    may be missing; the headers are read through the request. *)

From S2P Require Import Prelude Label Compute Types Http Text DateTime SigV4 S3Xml NsLayer.

Record S3Principal := mkPrincipal { sp_access_key_id : rstr; sp_principal_anchor : rstr }.

(** [a=b] pairs of a query; a name without a value is dropped. *)
Definition query_pairs (query : rstr) : list (rstr * rstr) :=
  omap (split_once EQUALS) (filter (λ p, p ≠ []) (split_on AMP [] query)).

(** The signed headers that are there, by name. *)
Definition signed_values (rq : Request) (names : list rstr) : list (rstr * rstr) :=
  sort_by name_le (omap (λ name, v ← header_str (rq_header rq) name; Some (name, v)) names).

Definition s3_error_response `{XmlCrate} (status : Z) (code message : rstr) : Response :=
  response status [(rs "content-type", rs "application/xml")] (encode_s3_error_xml code message).

Section layer.
Context `{HashCrates} `{MacCrates} `{XmlCrate} `{ChronoCrate}.

Definition credential_scope_text (date region service : rstr) : rstr :=
  join (rs "/") [date; region; service; rs "aws4_request"].

(** What the header's signature is to sign. *)
Definition header_string_to_sign (rq : Request) (auth : SigV4Authorization) : rstr :=
  let payload_hash := default UNSIGNED_PAYLOAD (header_str (rq_header rq) (rs "x-amz-content-sha256")) in
  let canonical_request :=
    build_canonical_request (rq_method rq) (rq_path rq) (build_canonical_query (query_pairs (default [] (rq_query rq))))
      (build_canonical_headers (signed_values rq (sa_signed_headers auth))) (join (rs ";") (sa_signed_headers auth)) payload_hash in
  build_string_to_sign (default [] (header_str (rq_header rq) (rs "x-amz-date")))
    (credential_scope_text (sa_date auth) (sa_region auth) (sa_service auth)) canonical_request.

Definition header_signature (rq : Request) (auth : SigV4Authorization) (secret : rstr) : rstr :=
  compute_signature (derive_signing_key secret (sa_date auth) (sa_region auth) (sa_service auth)) (header_string_to_sign rq auth).

Definition forbidden (code message : rstr) : outcome Response (option S3Principal) := Err (s3_error_response 403 code message).

Definition verify_header (lookup : rstr → option CredentialResult) (rq : Request) (auth : rstr) : outcome Response (option S3Principal) :=
  match parse_authorization auth (header_str (rq_header rq) (rs "x-amz-security-token")) with
  | Panic => Panic
  | Err _ => forbidden (rs "InvalidSignature") (rs "malformed Authorization header")
  | Ok parsed =>
      match lookup (sa_access_key parsed) with
      | None => forbidden (rs "InvalidAccessKeyId") (rs "access key not found")
      | Some cred =>
          let principal := mkPrincipal (sa_access_key parsed) (cr_principal_anchor cred) in
          let matches secret := is_ok (verify_signature (header_signature rq parsed secret) (sa_signature parsed)) in
          if matches (cr_current_secret cred) then Ok (Some principal)
          else if match cr_previous_secret cred with Some prev => matches prev | None => false end then Ok (Some principal)
          else forbidden (rs "SignatureDoesNotMatch")
                 (rs "The request signature we calculated does not match the signature you provided.")
      end
  end.

Definition presigned_string_to_sign (rq : Request) (params : list (rstr * rstr)) (parsed : PresignedUrl) : rstr :=
  let canonical_request :=
    build_presigned_canonical_request (rq_method rq) (rq_path rq) params
      (build_canonical_headers (signed_values rq (pu_signed_headers parsed))) (join (rs ";") (pu_signed_headers parsed)) in
  build_string_to_sign (pu_datetime parsed)
    (credential_scope_text (pu_date parsed) (pu_region parsed) (pu_service parsed)) canonical_request.

(** The key is derived for the configured region and [s3], the scope is the URL's. *)
Definition verify_presigned (lookup : rstr → option CredentialResult) (region : rstr) (now_secs : Z) (rq : Request)
  : outcome Response (option S3Principal) :=
  let params := query_pairs (default [] (rq_query rq)) in
  match parse_presigned_url params with
  | Panic => Panic
  | Err _ => forbidden (rs "InvalidSignature") (rs "malformed presigned URL")
  | Ok parsed =>
      match check_presigned_expiration (pu_datetime parsed) (pu_expires_secs parsed) now_secs with
      | Panic => Panic
      | Err _ => forbidden (rs "ExpiredToken") (rs "presigned URL has expired")
      | Ok _ =>
          match lookup (pu_access_key parsed) with
          | None => forbidden (rs "InvalidAccessKeyId") (rs "access key not found")
          | Some cred =>
              let signing_key := derive_signing_key (cr_current_secret cred) (pu_date parsed) region (rs "s3") in
              if is_ok (verify_signature (compute_signature signing_key (presigned_string_to_sign rq params parsed)) (pu_signature parsed))
              then Ok (Some (mkPrincipal (pu_access_key parsed) (cr_principal_anchor cred)))
              else forbidden (rs "SignatureDoesNotMatch") (rs "presigned URL signature mismatch")
          end
      end
  end.

(** [Ok None] passes the request on; an error is the response to send. *)
Definition verify_request (lookup : option (rstr → option CredentialResult)) (region : option rstr) (now_secs : Z) (rq : Request)
  : outcome Response (option S3Principal) :=
  match lookup with
  | None => Ok None
  | Some lookup =>
      let has_presigned := str_contains (rs "X-Amz-Algorithm") (default [] (rq_query rq)) in
      match header_str (rq_header rq) (rs "authorization") with
      | Some auth =>
          if starts_with (rs "AWS4-HMAC-SHA256") auth then verify_header lookup rq auth else Ok None
      | None => if has_presigned then verify_presigned lookup (default (rs "us-east-1") region) now_secs rq else Ok None
      end
  end.
End layer.

(** * Requests as clients sign them *)

(** A field of the header: visible, and without the separators. *)
Definition field (s : rstr) : Prop := s ≠ [] ∧ forallb graphic s = true ∧ (SLASH ∉ s) ∧ (COMMA ∉ s) ∧ (SEMICOLON ∉ s).

Definition authorization_text (auth : SigV4Authorization) : rstr :=
  rs "AWS4-HMAC-SHA256 Credential=" ++ join (rs "/") [sa_access_key auth; sa_date auth; sa_region auth; sa_service auth; AWS4_REQUEST]
  ++ rs ", SignedHeaders=" ++ join (rs ";") (sa_signed_headers auth) ++ rs ", Signature=" ++ sa_signature auth.

Definition auth_wf (auth : SigV4Authorization) : Prop :=
  field (sa_access_key auth) ∧ field (sa_date auth) ∧ field (sa_region auth) ∧ field (sa_service auth) ∧
  field (sa_signature auth) ∧ sa_signed_headers auth ≠ [] ∧ Forall field (sa_signed_headers auth).

Lemma join_cons sep x l : l ≠ [] → join sep (x :: l) = x ++ sep ++ join sep l.
Proof. by destruct l. Qed.

Lemma split_join c l : l ≠ [] → Forall (λ x, c ∉ x) l → split_on c [] (join [c] l) = l.
Proof.
  intros Hne. induction l as [|x l IH]; [done|]. intros [Hx Hl]%Forall_cons. destruct l as [|y l].
  - by apply split_on_none.
  - rewrite join_cons by done. cbn [app]. rewrite split_on_app by done. cbn [app]. f_equal. by apply IH.
Qed.

Lemma join_fields l : l ≠ [] → Forall field l →
  (join (rs ";") l ≠ []) ∧ forallb graphic (join (rs ";") l) = true ∧ (COMMA ∉ join (rs ";") l).
Proof.
  intros Hne. induction l as [|x l IH]; [done|]. intros [(Hx1 & Hx2 & _ & Hx3 & _) Hl]%Forall_cons. destruct l as [|y l].
  - done.
  - rewrite join_cons by done. destruct IH as (H1 & H2 & H3); [done|done|]. split_and!.
    + by destruct x.
    + rewrite !forallb_app, Hx2, H2. done.
    + rewrite !not_elem_of_app. split_and!; [done|by refine (bool_decide_unpack _ _); vm_compute|done].
Qed.

Lemma credential_scope_ok key date region service : field key → field date → field region → field service →
  credential_scope (join (rs "/") [key; date; region; service; AWS4_REQUEST]) = Some (key, date, region, service).
Proof.
  intros (_ & _ & H1 & _) (_ & _ & H2 & _) (_ & _ & H3 & _) (_ & _ & H4 & _).
  unfold credential_scope. cbn [join]. change (rs "/") with [SLASH]. cbn [splitn app].
  rewrite (split_once_app SLASH key) by done. cbn [splitn]. rewrite (split_once_app SLASH date) by done. cbn [splitn].
  rewrite (split_once_app SLASH region) by done. cbn [splitn]. rewrite (split_once_app SLASH service) by done. done.
Qed.

(** A visible text behind a known word, trimmed with a space in front. *)
Lemma trim_word w v : match w with a :: _ => graphic a | [] => false end = true → v ≠ [] → forallb graphic v = true →
  str_trim (w ++ v) = w ++ v ∧ str_trim (x20 :: w ++ v) = w ++ v.
Proof.
  destruct w as [|a w]; [done|]. intros Ha Hv Hg. destruct v as [|b v _] using rev_ind; [done|].
  rewrite forallb_app in Hg. apply andb_true_iff in Hg as [_ Hb].
  cbn in Hb. rewrite andb_true_r in Hb. rewrite app_assoc. split; [by apply str_trim_graphic|by apply str_trim_space].
Qed.

(** A part of the header puts its value down; the other two stay. *)
Lemma auth_part_credential acc v : v ≠ [] → forallb graphic v = true →
  auth_part acc (rs "Credential=" ++ v) = (Some v, acc.1.2, acc.2).
Proof.
  intros Hv Hg. destruct acc as [[c h] g]. unfold auth_part. rewrite (proj1 (trim_word (rs "Credential=") v eq_refl Hv Hg)).
  by rewrite strip_prefix_app, str_trim_visible.
Qed.

Lemma auth_part_headers acc v : v ≠ [] → forallb graphic v = true →
  auth_part acc (rs " SignedHeaders=" ++ v) = (acc.1.1, Some v, acc.2).
Proof.
  intros Hv Hg. destruct acc as [[c h] g]. unfold auth_part.
  change (rs " SignedHeaders=" ++ v) with (x20 :: rs "SignedHeaders=" ++ v).
  rewrite (proj2 (trim_word (rs "SignedHeaders=") v eq_refl Hv Hg)).
  replace (strip_prefix (rs "Credential=") (rs "SignedHeaders=" ++ v)) with (@None rstr)
    by (unfold strip_prefix, starts_with; rewrite bool_decide_eq_false_2; [done|intros [k [=]]]).
  by rewrite strip_prefix_app, str_trim_visible.
Qed.

Lemma auth_part_signature acc v : v ≠ [] → forallb graphic v = true →
  auth_part acc (rs " Signature=" ++ v) = (acc.1.1, acc.1.2, Some v).
Proof.
  intros Hv Hg. destruct acc as [[c h] g]. unfold auth_part.
  change (rs " Signature=" ++ v) with (x20 :: rs "Signature=" ++ v).
  rewrite (proj2 (trim_word (rs "Signature=") v eq_refl Hv Hg)).
  replace (strip_prefix (rs "Credential=") (rs "Signature=" ++ v)) with (@None rstr)
    by (unfold strip_prefix, starts_with; rewrite bool_decide_eq_false_2; [done|intros [k [=]]]).
  replace (strip_prefix (rs "SignedHeaders=") (rs "Signature=" ++ v)) with (@None rstr)
    by (unfold strip_prefix, starts_with; rewrite bool_decide_eq_false_2; [done|intros [k [=]]]).
  by rewrite strip_prefix_app, str_trim_visible.
Qed.

Lemma parse_authorization_text auth : auth_wf auth → parse_authorization (authorization_text auth) (sa_security_token auth) = Ok auth.
Proof.
  intros (Hk & Hd & Hr & Hsv & Hsig & Hne & Hhs). destruct (join_fields _ Hne Hhs) as (Hj1 & Hj2 & Hj3).
  destruct Hsig as (Hs1 & Hs2 & _ & Hs3 & _).
  set (cred := join (rs "/") [sa_access_key auth; sa_date auth; sa_region auth; sa_service auth; AWS4_REQUEST]).
  set (sh := join (rs ";") (sa_signed_headers auth)) in *. set (sig := sa_signature auth) in *.
  assert (cred ≠ [] ∧ forallb graphic cred = true ∧ (COMMA ∉ cred)) as (Hc1 & Hc2 & Hc3).
  { destruct Hk as (K1 & K2 & _ & K3 & _), Hd as (D1 & D2 & _ & D3 & _), Hr as (R1 & R2 & _ & R3 & _), Hsv as (V1 & V2 & _ & V3 & _).
    unfold cred. cbn [join]. split_and!; [by destruct (sa_access_key auth)| |].
    - rewrite !forallb_app, K2, D2, R2, V2. by vm_compute.
    - rewrite !not_elem_of_app. split_and!; try done; by refine (bool_decide_unpack _ _); vm_compute. }
  unfold parse_authorization.
  assert (str_trim (authorization_text auth) = authorization_text auth) as ->.
  { unfold authorization_text. fold cred sh sig. rewrite !app_assoc.
    exact (proj1 (trim_word ((((rs "AWS4-HMAC-SHA256 Credential=" ++ cred) ++ rs ", SignedHeaders=") ++ sh) ++ rs ", Signature=") sig
             eq_refl Hs1 Hs2)). }
  unfold authorization_text. fold cred sh sig.
  change (rs "AWS4-HMAC-SHA256 Credential=") with (ALGORITHM_HMAC_SHA256 ++ rs " Credential=").
  rewrite <- app_assoc, strip_prefix_app. cbn [ok_or mbind outcome_bind].
  assert (str_trim (rs " Credential=" ++ cred ++ rs ", SignedHeaders=" ++ sh ++ rs ", Signature=" ++ sig)
          = rs "Credential=" ++ cred ++ rs ", SignedHeaders=" ++ sh ++ rs ", Signature=" ++ sig) as ->.
  { change (rs " Credential=") with (x20 :: rs "Credential="). cbn [app]. rewrite !app_assoc.
    exact (proj2 (trim_word ((((rs "Credential=" ++ cred) ++ rs ", SignedHeaders=") ++ sh) ++ rs ", Signature=") sig eq_refl Hs1 Hs2)). }
  change (rs ", SignedHeaders=") with (COMMA :: rs " SignedHeaders="). change (rs ", Signature=") with (COMMA :: rs " Signature=").
  rewrite (app_assoc (rs "Credential=") cred). cbn [app].
  rewrite split_on_app by (rewrite not_elem_of_app; split; [by refine (bool_decide_unpack _ _); vm_compute|done]). cbn [app].
  rewrite (app_assoc (rs " SignedHeaders=") sh).
  rewrite split_on_app by (rewrite not_elem_of_app; split; [by refine (bool_decide_unpack _ _); vm_compute|done]). cbn [app].
  rewrite split_on_none by (rewrite not_elem_of_app; split; [by refine (bool_decide_unpack _ _); vm_compute|done]).
  cbn [app foldl]. rewrite auth_part_credential, auth_part_headers, auth_part_signature by done. cbn [fst snd ok_or mbind outcome_bind].
  unfold cred. rewrite credential_scope_ok by done. cbn [ok_or mbind outcome_bind]. unfold sh.
  change (rs ";") with [SEMICOLON]. rewrite split_join; [by destruct auth|done|].
  apply (Forall_impl _ _ _ Hhs). by intros x (_ & _ & _ & _ & ?).
Qed.

(** * What the layer promises *)

Section promises.
Context `{HashCrates} `{MacCrates} `{XmlCrate} `{ChronoCrate}.


(** A parameter without a value is not signed: putting [&policy], [&acl] or
    any other name without an equals sign after a query leaves the signature of
    the request as it was. *)
Theorem bare_parameter_unsigned rq query name auth secret
  (Hname : EQUALS ∉ name) (Hamp : AMP ∉ name) :
  let with_query q := mkRequest (rq_method rq) (rq_path rq) (Some q) (rq_header rq) in
  header_signature (with_query (query ++ AMP :: name)) auth secret = header_signature (with_query query) auth secret.
Proof.
  intros with_query. unfold header_signature, header_string_to_sign, with_query. cbn [rq_query rq_method rq_path rq_header from_option id].
  assert (query_pairs (query ++ AMP :: name) = query_pairs query) as E; [|unfold signed_values; cbn [rq_header]; by rewrite E].
  unfold query_pairs.
  assert (∀ cur, split_on AMP cur (query ++ AMP :: name) = split_on AMP cur query ++ [name]) as ->.
  { induction query as [|b query IH]; intros cur; cbn [split_on app].
    - rewrite decide_True by done. by rewrite split_on_none.
    - case_decide; [cbn [app]; by rewrite IH|by apply IH]. }
  rewrite filter_app, omap_app. replace (omap (split_once EQUALS) (filter (λ p, p ≠ []) [name])) with (@nil (rstr * rstr)); [by rewrite app_nil_r|].
  rewrite filter_cons. case_decide; [|done]. cbn. unfold split_once. by rewrite find_char_notin.
Qed.

(** A presigned URL whose credential is percent-encoded, as the slashes in a
    query parameter are by clients, is refused as malformed. *)
Theorem encoded_credential_refused params
  (Halgo : last_param (rs "X-Amz-Algorithm") params = Some ALGORITHM_HMAC_SHA256)
  (Hcred : ∀ cred, last_param (rs "X-Amz-Credential") params = Some cred → SLASH ∉ cred) :
  ∃ e, parse_presigned_url params = Err e.
Proof.
  unfold parse_presigned_url. rewrite Halgo. cbn [ok_or mbind outcome_bind]. rewrite decide_False by (intros Hk; by apply Hk).
  destruct (last_param (rs "X-Amz-Credential") params) as [cred|]; cbn [ok_or mbind outcome_bind]; [|by eexists].
  unfold credential_scope. cbn [splitn]. unfold split_once. rewrite find_char_notin by (by apply Hcred). cbn. by eexists.
Qed.
End promises.

(** * Concrete requests *)

Section sample.
#[local] Instance sample_mac : MacCrates := λ key data, pad_digest 32 (key ++ data).
#[local] Instance sample_mac_laws : MacCratesLaws.
Proof. intros key data. unfold hmac_sha256, sample_mac, pad_digest. rewrite length_take, length_app, length_replicate. lia. Qed.
#[local] Instance sample_xml : XmlCrate :=
  {| xml_start n _ := rs "<" ++ n ++ rs ">"; xml_text t := t; xml_end n := rs "</" ++ n ++ rs ">" |}.
#[local] Existing Instance sample_chrono.

Definition sample_chunk_scope : ChunkScope := mkChunkScope (rs "key") (rs "20130524T000000Z") (rs "20130524") (rs "us-east-1") (rs "s3").
Definition sample_chunks : list (rstr * bytes) := [(rs "5", rs "hello"); (rs "06", rs " world")].

Lemma sample_chunks_ok : Forall chunk_ok sample_chunks ∧ size_text (rs "0") 0.
Proof.
  split; [repeat constructor; try (vm_compute; done)|]; try (cbn; unfold MAX_CHUNK_SIZE; lia); try done.
  split_and!; [done|done|cbn; lia].
Qed.

Lemma chunk_stream_roundtrip_witness :
  ∃ p, read_all 3 (ChunkStreamParser_new
         (encode_chunks sample_chunk_scope (rs "seed") sample_chunks
          ++ final_chunk sample_chunk_scope (chain sample_chunk_scope (rs "seed") [rs "hello"; rs " world"]) (rs "0") ++ rs "trailer")
         sample_chunk_scope (rs "seed") true) = (p, Ok [rs "hello"; rs " world"]) ∧
    cp_finished p = true ∧ cp_reader p = rs "trailer" ∧
    cp_prev_signature p = chain sample_chunk_scope (rs "seed") [rs "hello"; rs " world"; []].
Proof.
  exact (chunk_stream_roundtrip sample_chunk_scope (rs "seed") sample_chunks (rs "0") (rs "trailer")
           (proj1 sample_chunks_ok) (proj2 sample_chunks_ok) eq_refl).
Defined.

Lemma truncated_stream_accepted_witness :
  ∃ p, read_all 3 (ChunkStreamParser_new (encode_chunks sample_chunk_scope (rs "seed") sample_chunks) sample_chunk_scope (rs "seed") true)
    = (p, Ok [rs "hello"; rs " world"]).
Proof. exact (truncated_stream_accepted sample_chunk_scope (rs "seed") sample_chunks (proj1 sample_chunks_ok) eq_refl). Defined.

Lemma chunk_stream_authentic_witness :
  authentic sample_chunk_scope (rs "seed") [rs "hello"; rs " world"] (encode_chunks sample_chunk_scope (rs "seed") sample_chunks) [].
Proof.
  apply (chunk_stream_authentic 3
    (ChunkStreamParser_new (encode_chunks sample_chunk_scope (rs "seed") sample_chunks) sample_chunk_scope (rs "seed") true)
    (mkParser [] sample_chunk_scope (chain sample_chunk_scope (rs "seed") [rs "hello"; rs " world"]) true 3 true) [rs "hello"; rs " world"]);
    [reflexivity|reflexivity|vm_compute; reflexivity].
Defined.

Definition sample_auth (rq : Request) (secret : rstr) : SigV4Authorization :=
  let auth sig := mkAuthorization (rs "AKID") (rs "20130524") (rs "us-east-1") (rs "s3") [rs "host"; rs "x-amz-date"] sig None in
  auth (header_signature rq (auth []) secret).

Definition sample_unsigned : Request :=
  mkRequest (rs "GET") (rs "/photos/cat.jpg") (Some (rs "versionId=3"))
    (sample_headers [(rs "host", rs "example.com"); (rs "x-amz-date", rs "20130524T000000Z")]).
Definition sample_signed : Request :=
  mkRequest (rs "GET") (rs "/photos/cat.jpg") (Some (rs "versionId=3"))
    (sample_headers [(rs "host", rs "example.com"); (rs "x-amz-date", rs "20130524T000000Z");
                     (rs "authorization", authorization_text (sample_auth sample_unsigned (rs "secret")))]).


Lemma bare_parameter_unsigned_witness :
  header_signature (mkRequest (rs "GET") (rs "/photos") (Some (rs "list-type=2&policy")) (rq_header sample_unsigned))
    (sample_auth sample_unsigned (rs "secret")) (rs "secret") =
  header_signature (mkRequest (rs "GET") (rs "/photos") (Some (rs "list-type=2")) (rq_header sample_unsigned))
    (sample_auth sample_unsigned (rs "secret")) (rs "secret").
Proof.
  apply (bare_parameter_unsigned (mkRequest (rs "GET") (rs "/photos") None (rq_header sample_unsigned)) (rs "list-type=2") (rs "policy"));
    refine (bool_decide_unpack _ _); vm_compute; exact I.
Defined.

Lemma encoded_credential_refused_witness :
  ∃ e, parse_presigned_url [(rs "X-Amz-Algorithm", rs "AWS4-HMAC-SHA256");
         (rs "X-Amz-Credential", rs "AKID%2F20130524%2Fus-east-1%2Fs3%2Faws4_request")] = Err e.
Proof.
  apply encoded_credential_refused; [reflexivity|]. intros cred [= <-]. refine (bool_decide_unpack _ _); vm_compute; exact I.
Defined.
End sample.
