(* ===== verification/S3List.v ===== *)
(** S3List: listing the objects of a bucket, [kappa-module-s3/src/list.rs], over
    the in-memory store.

    Following continuation tokens to the end lists every key with the prefix once
    and in order; with a delimiter, one page that holds everything rolls keys up
    by the text before their first delimiter.  Base64 is the [base64_simd]
    crate's. *)

From S2P Require Import Prelude Label Compute Types Merkle Epoch Identity Store MemStore MemTags Http Text DateTime SigV4 S3Xml.

Class Base64Crate := {
  base64_encode : bytes → rstr;
  base64_decode : rstr → option bytes;
}.
Class Base64Laws `{Base64Crate} : Prop := base64_decode_encode : ∀ b, base64_decode (base64_encode b) = Some b.

Record ListObjectsV2Request := mkListRequest {
  lq_bucket : rstr;
  lq_prefix : option rstr;
  lq_delimiter : option rstr;
  lq_max_keys : Z;
  lq_continuation_token : option rstr;
  lq_start_after : option rstr;
  lq_encoding_type : option rstr;
  lq_fetch_owner : bool;
}.

(** The variables of the loop. *)
Record ListState := mkListState {
  ls_contents : list ObjectEntry;
  ls_common_prefixes : list rstr;
  ls_seen_prefixes : gset rstr;
  ls_last_key : option rstr;
  ls_total_count : Z;
}.

Section listing.
Context `{HashCrates} `{MemoryStoreConfig} `{Base64Crate} `{ChronoCrate}.

Definition encode_continuation_token (last_key : rstr) : rstr := base64_encode last_key.

(** [String::from_utf8(b).ok()]. *)
Definition from_utf8 (b : bytes) : option rstr := if utf8_valid b then Some b else None.

Definition decode_continuation_token (token : rstr) : rstr := default [] (b ← base64_decode token; from_utf8 b).

(** [m.ok()]. *)
Definition ok_val {A} (m : outcome StoreError A) : outcome StoreError (option A) :=
  match m with Ok a => Ok (Some a) | Err _ => Ok None | Panic => Panic end.

(** A metadata value that is text. *)
Definition meta_text (kappa key : rstr) (s : store) : outcome StoreError (option rstr) :=
  v ← ok_val (blob_get_meta kappa key s);
  Ok (b ← v; from_utf8 b).

Definition default_last_modified : rstr := rs "2026-01-01T00:00:00.000Z".

Definition object_entry (tag : TagEntry) (s : store) : outcome StoreError ObjectEntry :=
  size ← ok_val (blob_size (te_kappa tag) s);
  created ← meta_text (te_kappa tag) (rs "_s3_created_ms") s;
  last_modified ← match (ms_str ← created; parse_u64 ms_str) with
                  | Some ms => epoch_ms_to_iso8601 ms
                  | None => Ok default_last_modified
                  end;
  etag ← meta_text (te_kappa tag) (rs "_s3_etag") s;
  Ok (mkObject (te_name tag) last_modified (default (QUOTE :: te_kappa tag ++ [QUOTE]) etag) (default 0 size) (rs "STANDARD")).

(** What a key is rolled up to. *)
Definition rollup (prefix : rstr) (delimiter : option rstr) (key : rstr) : option rstr :=
  delim ← delimiter;
  let suffix := drop (length prefix) key in
  delim_pos ← str_find delim suffix;
  Some (prefix ++ take delim_pos suffix ++ delim).

Fixpoint list_loop (prefix : rstr) (delimiter : option rstr) (max_keys : Z) (s : store) (tags : list TagEntry) (st : ListState)
  : outcome StoreError ListState :=
  match tags with
  | [] => Ok st
  | tag :: tags =>
      if max_keys <=? ls_total_count st then Ok st
      else
        match rollup prefix delimiter (te_name tag) with
        | Some common_prefix =>
            if decide (common_prefix ∈ ls_seen_prefixes st) then list_loop prefix delimiter max_keys s tags st
            else
              list_loop prefix delimiter max_keys s tags
                (mkListState (ls_contents st) (ls_common_prefixes st ++ [common_prefix]) ({[ common_prefix ]} ∪ ls_seen_prefixes st)
                   (Some (te_name tag)) (ls_total_count st + 1))
        | None =>
            e ← object_entry tag s;
            list_loop prefix delimiter max_keys s tags
              (mkListState (ls_contents st ++ [e]) (ls_common_prefixes st) (ls_seen_prefixes st) (Some (te_name tag))
                 (ls_total_count st + 1))
        end
  end.

Definition resume_after (rq : ListObjectsV2Request) : option rstr :=
  match lq_continuation_token rq with
  | Some token => Some (decode_continuation_token token)
  | None => lq_start_after rq
  end.

(** The two filters: the prefix, and the position to go on after. *)
Definition listed (prefix : rstr) (after : option rstr) (tag : TagEntry) : bool :=
  starts_with prefix (te_name tag) && match after with Some a => bytes_ltb a (te_name tag) | None => true end.

Definition list_objects_v2 (ns : NamespaceRef) (rq : ListObjectsV2Request) (s : store) : outcome StoreError ListObjectsV2Response :=
  all_tags ← tag_list ns s;
  let prefix := default [] (lq_prefix rq) in
  let filtered := filter (λ tag, listed prefix (resume_after rq) tag = true) all_tags in
  st ← list_loop prefix (lq_delimiter rq) (lq_max_keys rq) s filtered (mkListState [] [] ∅ None 0);
  let is_truncated := (lq_max_keys rq <=? ls_total_count st) && (ls_total_count st <? zlen filtered) in
  let next_token := if is_truncated then encode_continuation_token <$> ls_last_key st else None in
  Ok (mkListResponse (lq_bucket rq) (lq_prefix rq) (lq_delimiter rq) (lq_max_keys rq) is_truncated (ls_contents st)
        (ls_common_prefixes st) next_token (wrap 32 (ls_total_count st)) (lq_encoding_type rq)).
End listing.

(** * Keys in order *)

Section order.
Context `{HashCrates}.

Definition name_lt (a b : TagEntry) : Prop := bytes_lt (te_name a) (te_name b).

Lemma tags_in_order ns s : tags_wf s → StronglySorted name_lt (collect_sorted_tags ns s).
Proof.
  intros Hw. assert (StronglySorted (λ a b, bytes_le (te_name a) (te_name b)) (collect_sorted_tags ns s)) as Hs.
  { apply (sort_by_sorted tag_name_le); unfold tag_name_le; [intros x y; apply bytes_leb_total|intros x y z; apply bytes_leb_trans]. }
  assert (NoDup (te_name <$> collect_sorted_tags ns s)) as Hnd
    by (unfold collect_sorted_tags; rewrite sort_by_perm; by apply ns_tags_names).
  induction Hs as [|a l Hl IH Ha]; [constructor|]. rewrite fmap_cons, NoDup_cons in Hnd. destruct Hnd as [Hni Hnd].
  constructor; [by apply IH|]. apply Forall_forall. intros b Hb. rewrite Forall_forall in Ha. apply bytes_lt_alt.
  split; [by apply Ha|]. intros E. apply Hni. rewrite E. by apply list_elem_of_fmap_2.
Qed.

Lemma sorted_filter (P : TagEntry → Prop) `{∀ x, Decision (P x)} l : StronglySorted name_lt l → StronglySorted name_lt (filter P l).
Proof.
  induction 1 as [|a l Hl IH Ha]; [constructor|]. rewrite filter_cons. case_decide; [|done]. constructor; [done|].
  apply Forall_forall. intros b Hb. apply list_elem_of_filter in Hb as [_ Hb]. rewrite Forall_forall in Ha. by apply Ha.
Qed.

(** What comes after an element of a sorted list. *)
Lemma filter_after l1 x l2 : StronglySorted name_lt (l1 ++ x :: l2) →
  filter (λ y, bytes_ltb (te_name x) (te_name y) = true) (l1 ++ x :: l2) = l2.
Proof.
  intros Hs. rewrite filter_app, filter_cons.
  assert (Forall (λ y, name_lt y x) l1 ∧ Forall (λ y, name_lt x y) l2) as [H1 H2].
  { induction l1 as [|a l1 IH]; cbn [app] in Hs; apply StronglySorted_inv in Hs as [Hs Ha]; [done|].
    destruct (IH Hs) as [I1 I2]. split; [|done]. constructor; [|done]. rewrite Forall_forall in Ha. apply Ha. set_solver. }
  rewrite Forall_forall in H1, H2. rewrite list_filter_none, decide_False, list_filter_all; [done|done|..].
  - intros Hlt. by destruct (proj1 (bytes_lt_alt _ _) Hlt).
  - intros y Hy Hlt. apply bytes_lt_alt in Hlt as [Hle _].
    by destruct (proj1 (bytes_lt_alt _ _) (bytes_lt_le_trans _ _ _ (H1 y Hy) Hle)).
Qed.
End order.

(** * Pages *)

Section pages.
Context `{HashCrates} `{MemoryStoreConfig} `{Base64Crate} `{ChronoLaws}.
Implicit Types (s : store).

Lemma object_entry_ok tag s : ∃ e, object_entry tag s = Ok e ∧ oe_key e = te_name tag.
Proof.
  unfold object_entry.
  assert (∃ v, ok_val (blob_size (te_kappa tag) s) = Ok v) as [v ->].
  { unfold blob_size, blob_path, blob_path_for. destruct (split_kappa (te_kappa tag)) as [[algo hex]|]; [|by eexists].
    osimpl. destruct (zlen hex <? 4); [by eexists|]. destruct (negb _); [by eexists|]. osimpl. destruct (fs s !! _); by eexists. }
  assert (∀ key, ∃ t, meta_text (te_kappa tag) key s = Ok t) as Hm.
  { intros key. unfold meta_text, blob_get_meta. destruct (meta s !! _); by eexists. }
  osimpl. destruct (Hm (rs "_s3_created_ms")) as [created ->]. osimpl. destruct (Hm (rs "_s3_etag")) as [etag Ee].
  destruct (created ≫= _) as [ms|].
  - unfold epoch_ms_to_iso8601. edestruct (format_or_epoch_ok (E := StoreError)) as [text ->]. osimpl. rewrite Ee. by eexists.
  - osimpl. rewrite Ee. by eexists.
Qed.

(** Without a delimiter the loop takes keys up to the maximum. *)
Lemma loop_plain prefix max s l st : ls_total_count st ≤ max →
  let page := take (Z.to_nat (max - ls_total_count st)) l in
  ∃ es, oe_key <$> es = te_name <$> page ∧
    list_loop prefix None max s l st =
      Ok (mkListState (ls_contents st ++ es) (ls_common_prefixes st) (ls_seen_prefixes st)
            (match last page with Some t => Some (te_name t) | None => ls_last_key st end) (ls_total_count st + zlen es)).
Proof.
  revert st. induction l as [|t l IH]; intros st Hle page.
  { exists []. subst page. rewrite take_nil. split; [done|]. cbn [list_loop last length]. rewrite app_nil_r, Z.add_0_r. by destruct st. }
  cbn [list_loop]. destruct (Z.leb_spec max (ls_total_count st)).
  { exists []. subst page. replace (Z.to_nat (max - ls_total_count st)) with 0%nat by lia. split; [done|].
    cbn [take last length]. rewrite app_nil_r, Z.add_0_r. by destruct st. }
  destruct (object_entry_ok t s) as (e & He & Hk). cbn [rollup mbind option_bind]. rewrite He. osimpl.
  set (st' := mkListState _ _ _ _ _). destruct (IH st') as (es & Hes & E); [cbn; lia|]. exists (e :: es).
  subst page. replace (Z.to_nat (max - ls_total_count st)) with (S (Z.to_nat (max - ls_total_count st'))) by (cbn; lia).
  cbn [take]. split; [cbn [fmap list_fmap]; by rewrite Hk, Hes|]. rewrite E. unfold st'. cbn [ls_contents ls_common_prefixes ls_seen_prefixes
    ls_last_key ls_total_count]. f_equal. f_equal; [by rewrite <- app_assoc| |cbn [length]; lia].
  rewrite last_cons. by destruct (last _).
Qed.

(** The names of a page, whether more follow, and where it ends. *)
Lemma page_plain ns rq s : lq_delimiter rq = None → 0 < lq_max_keys rq ≤ u32_max →
  let filtered := filter (λ tag, listed (default [] (lq_prefix rq)) (resume_after rq) tag = true) (collect_sorted_tags ns s) in
  let page := take (Z.to_nat (lq_max_keys rq)) filtered in
  ∃ r, list_objects_v2 ns rq s = Ok r ∧ oe_key <$> lr_contents r = te_name <$> page ∧ lr_common_prefixes r = [] ∧
    lr_is_truncated r = bool_decide (lq_max_keys rq < zlen filtered) ∧ lr_key_count r = zlen (lr_contents r) ∧
    lr_next_continuation_token r = if lr_is_truncated r then (encode_continuation_token ∘ te_name) <$> last page else None.
Proof.
  intros Hd Hmax filtered page. unfold list_objects_v2, tag_list. osimpl. rewrite Hd. fold filtered.
  destruct (loop_plain (default [] (lq_prefix rq)) (lq_max_keys rq) s filtered (mkListState [] [] ∅ None 0)) as (es & Hes & ->); [cbn; lia|].
  cbn [ls_total_count] in *. rewrite Z.sub_0_r in *. fold page in Hes |- *. osimpl.
  assert (length es = length page) as Hlen by (by rewrite <- (length_fmap oe_key), Hes, length_fmap).
  assert (zlen es = Z.min (lq_max_keys rq) (zlen filtered)) as Hz by (rewrite Hlen; unfold page; rewrite length_take; lia).
  cbn [ls_contents ls_common_prefixes ls_last_key ls_total_count app]. rewrite Z.add_0_l.
  assert ((lq_max_keys rq <=? zlen es) && (zlen es <? zlen filtered) = bool_decide (lq_max_keys rq < zlen filtered)) as Ht.
  { rewrite Hz. case_bool_decide; [apply andb_true_iff; rewrite Z.leb_le, Z.ltb_lt; lia|].
    apply andb_false_iff. rewrite Z.ltb_ge. right. lia. }
  eexists. split; [done|]. cbn. rewrite Ht. split_and!; [done|done|done| |].
  - unfold wrap. apply Z.mod_small. unfold u32_max in *. lia.
  - case_bool_decide; [|done]. by destruct (last page).
Qed.

(** A client that follows the tokens. *)
Definition with_token (rq : ListObjectsV2Request) (token : rstr) : ListObjectsV2Request :=
  mkListRequest (lq_bucket rq) (lq_prefix rq) (lq_delimiter rq) (lq_max_keys rq) (Some token) (lq_start_after rq)
    (lq_encoding_type rq) (lq_fetch_owner rq).

Fixpoint list_pages (fuel : nat) (ns : NamespaceRef) (rq : ListObjectsV2Request) (s : store) : outcome StoreError (list ListObjectsV2Response) :=
  match fuel with
  | O => Panic
  | S fuel =>
      r ← list_objects_v2 ns rq s;
      match lr_next_continuation_token r with
      | Some token => rest ← list_pages fuel ns (with_token rq token) s; Ok (r :: rest)
      | None => Ok [r]
      end
  end.

Definition page_ok (max : Z) (r : ListObjectsV2Response) : Prop :=
  zlen (lr_contents r) ≤ max ∧ lr_common_prefixes r = [] ∧ lr_key_count r = zlen (lr_contents r).
End pages.

Section promises.
Context `{HashCrates} `{MemoryStoreConfig} `{Base64Laws} `{ChronoLaws}.
Implicit Types (s : store).

Definition matching (ns : NamespaceRef) (rq : ListObjectsV2Request) s : list TagEntry :=
  filter (λ tag, listed (default [] (lq_prefix rq)) (resume_after rq) tag = true) (collect_sorted_tags ns s).

(** What is left after a page is the rest of the list. *)
Lemma matching_rest ns rq s l1 x l2 : tags_wf s → matching ns rq s = l1 ++ x :: l2 → utf8_valid (te_name x) = true →
  matching ns (with_token rq (encode_continuation_token (te_name x))) s = l2.
Proof.
  intros Hw Hm Hu.
  assert (resume_after (with_token rq (encode_continuation_token (te_name x))) = Some (te_name x)) as Hres.
  { unfold resume_after, decode_continuation_token, encode_continuation_token. cbn [lq_continuation_token with_token].
    rewrite (base64_decode_encode (te_name x)). cbn [mbind option_bind]. unfold from_utf8. by rewrite Hu. }
  unfold matching. rewrite Hres. cbn [lq_prefix with_token].
  rewrite <- (filter_after l1 x l2) by (rewrite <- Hm; by apply sorted_filter, tags_in_order).
  rewrite <- Hm. unfold matching. rewrite list_filter_filter. apply list_filter_iff. intros t.
  assert (listed (default [] (lq_prefix rq)) (resume_after rq) x = true) as Hx.
  { enough (x ∈ matching ns rq s) as Hin by (by apply list_elem_of_filter in Hin as [? _]). rewrite Hm. set_solver. }
  unfold listed in *. rewrite !andb_true_iff in *. split; [|tauto]. intros [Hp Hlt]. split_and!; [done|done|].
  destruct (resume_after rq) as [a|]; [|done]. destruct Hx as [_ Hx].
  apply (bytes_le_lt_trans a (te_name x)); [|done]. by apply bytes_lt_alt in Hx as [? _].
Qed.

Lemma list_pages_run fuel ns rq s :
  tags_wf s → (∀ t, t ∈ collect_sorted_tags ns s → utf8_valid (te_name t) = true) →
  lq_delimiter rq = None → 0 < lq_max_keys rq ≤ u32_max → (length (matching ns rq s) < fuel)%nat →
  ∃ pages, list_pages fuel ns rq s = Ok pages ∧
    (pages ≫= λ r, oe_key <$> lr_contents r) = te_name <$> matching ns rq s ∧ Forall (page_ok (lq_max_keys rq)) pages.
Proof.
  intros Hw Hu. revert rq. induction fuel as [|fuel IH]; intros rq Hd Hmax Hf; [lia|]. cbn [list_pages].
  destruct (page_plain ns rq s Hd Hmax) as (r & -> & Hk & Hcp & Ht & Hc & Htok). fold (matching ns rq s) in *. osimpl.
  set (page := take _ (matching ns rq s)) in *.
  assert (zlen (lr_contents r) ≤ lq_max_keys rq) as Hlen.
  { replace (length (lr_contents r)) with (length page) by (by rewrite <- (length_fmap te_name), <- Hk, length_fmap).
    unfold page. rewrite length_take. lia. }
  destruct (bool_decide (lq_max_keys rq < zlen (matching ns rq s))) eqn:Eb.
  2:{ rewrite Htok, Ht. eexists. split; [done|]. apply bool_decide_eq_false in Eb. cbn [mbind list_bind]. rewrite app_nil_r, Hk.
      split; [unfold page; rewrite take_ge by lia; done|]. by repeat constructor. }
  apply bool_decide_eq_true in Eb. rewrite Htok, Ht.
  destruct (last page) as [x|] eqn:Ex.
  2:{ apply last_None in Ex. apply (f_equal length) in Ex. unfold page in Ex. rewrite length_take in Ex. cbn in Ex. lia. }
  apply last_Some in Ex as [l1 Hl1]. cbn [fmap option_fmap option_map compose].
  assert (matching ns rq s = l1 ++ x :: drop (Z.to_nat (lq_max_keys rq)) (matching ns rq s)) as Hsplit.
  { rewrite <- (take_drop (Z.to_nat (lq_max_keys rq)) (matching ns rq s)) at 1. fold page. rewrite Hl1. by rewrite <- app_assoc. }
  assert (utf8_valid (te_name x) = true) as Hux.
  { apply Hu. enough (x ∈ matching ns rq s) as Hin by (by apply list_elem_of_filter in Hin as [_ ?]). rewrite Hsplit. set_solver. }
  pose proof (matching_rest ns rq s _ _ _ Hw Hsplit Hux) as Hrest.
  destruct (IH (with_token rq (encode_continuation_token (te_name x)))) as (pages & -> & Hkeys & Hok); [done|done| |].
  { rewrite Hrest, length_drop. lia. }
  osimpl. eexists. split; [done|]. cbn [mbind list_bind]. fold (mbind (M := list) (λ r, oe_key <$> lr_contents r)).
  rewrite Hk. split; [|by constructor]. change (list_bind _ _ _ pages) with (pages ≫= λ r, oe_key <$> lr_contents r).
  rewrite Hkeys, Hrest. unfold page. by rewrite <- fmap_app, take_drop.
Qed.

(** C34: A client that follows the continuation tokens lists the bucket: for every
    prefix, start and page size, the pages together hold each key with the prefix
    after the start exactly once, in order, no page more than was asked for, and
    the tokens come to an end. *)
Theorem list_pages_complete ns rq s
  (Hw : tags_wf s) (Hu : ∀ t, t ∈ collect_sorted_tags ns s → utf8_valid (te_name t) = true)
  (Hd : lq_delimiter rq = None) (Hmax : 0 < lq_max_keys rq ≤ u32_max) :
  ∃ pages, list_pages (S (length (matching ns rq s))) ns rq s = Ok pages ∧
    (pages ≫= λ r, oe_key <$> lr_contents r) = te_name <$> matching ns rq s ∧
    NoDup (te_name <$> matching ns rq s) ∧ Forall (page_ok (lq_max_keys rq)) pages.
Proof.
  destruct (list_pages_run (S (length (matching ns rq s))) ns rq s) as (pages & E & Hkeys & Hok); [done|done|done|done|lia|].
  exists pages. split_and!; [done|done| |done].
  pose proof (sorted_filter (λ tag, listed (default [] (lq_prefix rq)) (resume_after rq) tag = true) _ (tags_in_order ns s Hw)) as Hs.
  fold (matching ns rq s) in Hs. clear -Hs. induction Hs as [|a l Hl IH Ha]; [constructor|]. rewrite fmap_cons. constructor; [|done].
  rewrite list_elem_of_fmap. intros (b & E & Hb). rewrite Forall_forall in Ha. specialize (Ha b Hb). unfold name_lt in Ha.
  rewrite E in Ha. by destruct (proj1 (bytes_lt_alt _ _) Ha).
Qed.

(** The loop, when the maximum is out of reach. *)
Lemma loop_rollup prefix delimiter max s l st : ls_total_count st + zlen l ≤ max →
  ls_seen_prefixes st = list_to_set (ls_common_prefixes st) → NoDup (ls_common_prefixes st) →
  ∃ st', list_loop prefix delimiter max s l st = Ok st' ∧ ls_total_count st' ≤ ls_total_count st + zlen l ∧
    oe_key <$> ls_contents st' =
      (oe_key <$> ls_contents st) ++ (te_name <$> filter (λ t, rollup prefix delimiter (te_name t) = None) l) ∧
    NoDup (ls_common_prefixes st') ∧
    ∀ p, p ∈ ls_common_prefixes st' ↔ p ∈ ls_common_prefixes st ∨ ∃ t, t ∈ l ∧ rollup prefix delimiter (te_name t) = Some p.
Proof.
  revert st. induction l as [|t l IH]; intros st Hmax Hseen Hnd.
  { exists st. cbn. rewrite app_nil_r. split_and!; [done|lia|done|done|]. intros p. split; [by left|]. intros [|(t & Ht & _)]; [done|set_solver]. }
  cbn [list_loop length] in *. destruct (Z.leb_spec max (ls_total_count st)); [lia|]. rewrite filter_cons.
  destruct (rollup prefix delimiter (te_name t)) as [cp|] eqn:Er.
  - rewrite (decide_False (P := Some cp = None)) by done. case_decide as Hin.
    + destruct (IH st) as (st' & E & Hc & Hk & Hn & Hp); [lia|done|done|]. exists st'.
      split_and!; [done|lia|done|done|]. intros p. rewrite Hp. split; [intros [|(x & Hx & Hr)]; [by left|right; exists x; set_solver]|].
      intros [|(x & [->|Hx]%elem_of_cons & Hr)]; [by left| |right; by exists x]. left. rewrite Hseen in Hin. set_solver.
    + set (st1 := mkListState _ _ _ _ _). destruct (IH st1) as (st' & E & Hc & Hk & Hn & Hp); subst st1; cbn in *.
      { lia. }
      { rewrite Hseen, list_to_set_app_L. set_solver. }
      { apply NoDup_app. split_and!; [done| |apply NoDup_singleton]. rewrite Hseen in Hin. set_solver. }
      exists st'. split_and!; [done|lia|done|done|]. intros p. rewrite Hp, elem_of_app, list_elem_of_singleton.
      split; [intros [[?| ->]|(x & Hx & Hr)]; [by left|right; exists t; set_solver|right; exists x; set_solver]|].
      intros [|(x & [->|Hx]%elem_of_cons & Hr)]; [by left; left| |right; by exists x]. left. right. congruence.
  - rewrite (decide_True (P := @None rstr = None)) by done. destruct (object_entry_ok t s) as (e & -> & He). osimpl.
    set (st1 := mkListState _ _ _ _ _). destruct (IH st1) as (st' & E & Hc & Hk & Hn & Hp); subst st1; cbn [ls_total_count ls_contents ls_seen_prefixes ls_common_prefixes] in *; [lia|done|done|].
    exists st'. split_and!; [done|lia| |done|].
    + rewrite Hk, fmap_app, <- app_assoc. cbn [fmap list_fmap app]. by rewrite He.
    + intros p. rewrite Hp. split; [intros [|(x & Hx & Hr)]; [by left|right; exists x; set_solver]|].
      intros [|(x & [->|Hx]%elem_of_cons & Hr)]; [by left|congruence|right; by exists x].
Qed.

(** A page that is large enough holds the whole rolled-up listing: the keys
    with no delimiter after the prefix in order, and for the others the text up to
    their first delimiter, each once; it is not truncated and has no token. *)
Theorem list_rollup_complete ns rq s
  (Hmax : zlen (matching ns rq s) ≤ lq_max_keys rq) :
  ∃ r, list_objects_v2 ns rq s = Ok r ∧ lr_is_truncated r = false ∧ lr_next_continuation_token r = None ∧
    oe_key <$> lr_contents r = te_name <$> filter (λ t, rollup (default [] (lq_prefix rq)) (lq_delimiter rq) (te_name t) = None) (matching ns rq s) ∧
    NoDup (lr_common_prefixes r) ∧
    ∀ p, p ∈ lr_common_prefixes r ↔
      ∃ t, t ∈ matching ns rq s ∧ rollup (default [] (lq_prefix rq)) (lq_delimiter rq) (te_name t) = Some p.
Proof.
  unfold list_objects_v2, tag_list. osimpl. fold (matching ns rq s).
  destruct (loop_rollup (default [] (lq_prefix rq)) (lq_delimiter rq) (lq_max_keys rq) s (matching ns rq s) (mkListState [] [] ∅ None 0))
    as (st & -> & Hc & Hk & Hn & Hp); [done|done|constructor|]. cbn [ls_total_count ls_contents ls_common_prefixes] in *. osimpl.
  assert ((lq_max_keys rq <=? ls_total_count st) && (ls_total_count st <? zlen (matching ns rq s)) = false) as ->.
  { apply andb_false_iff. destruct (Z.leb_spec (lq_max_keys rq) (ls_total_count st)); [right; apply Z.ltb_ge; lia|by left]. }
  eexists. split; [done|]. cbn. split_and!; [done|done|done|done|]. intros p. rewrite Hp. split; [|by right].
  intros [Hin|Hex]; [by apply elem_of_nil in Hin|done].
Qed.
End promises.

(** * A small bucket *)

Section sample.
#[local] Instance sample_base64 : Base64Crate := {| base64_encode b := b; base64_decode := Some |}.
#[local] Instance sample_base64_laws : Base64Laws.
Proof. done. Qed.
#[local] Existing Instances sample_chrono sample_chrono_laws.

Definition sample_bucket : NamespaceRef := with_name (replicate 16 x07) (rs "photos").
Definition sample_objects (keys : list rstr) : store :=
  foldl (λ s key, (tag_set sample_bucket key (rs "sha256:aaa") s).1) empty_store keys.
Definition sample_request (delimiter : option rstr) (max : Z) : ListObjectsV2Request :=
  mkListRequest (rs "photos") None delimiter max None None None false.

(** With a delimiter the pages repeat common prefixes: the token is the first
    key that was rolled up, and the keys behind it are rolled up to the same prefix
    again on the next page. *)
Theorem pages_repeat_prefixes :
  match list_pages 3 sample_bucket (sample_request (Some (rs "/")) 1) (sample_objects [rs "a/1"; rs "a/2"]) with
  | Ok pages => lr_common_prefixes <$> pages = [[rs "a/"]; [rs "a/"]]
  | _ => False
  end.
Proof. vm_compute. reflexivity. Qed.

Lemma list_rollup_complete_witness :
  ∃ r, list_objects_v2 sample_bucket (sample_request (Some (rs "/")) 10) (sample_objects [rs "a/1"; rs "a/2"; rs "b"]) = Ok r ∧
    lr_is_truncated r = false ∧ oe_key <$> lr_contents r = [rs "b"].
Proof.
  destruct (list_rollup_complete sample_bucket (sample_request (Some (rs "/")) 10) (sample_objects [rs "a/1"; rs "a/2"; rs "b"]))
    as (r & E & Ht & _ & Hk & _); [vm_compute; discriminate|].
  exists r. split; [exact E|]. split; [exact Ht|]. rewrite Hk. vm_compute. reflexivity.
Defined.

Lemma list_pages_complete_witness :
  ∃ pages, list_pages 4 sample_bucket (sample_request None 2) (sample_objects [rs "a"; rs "c"; rs "b"]) = Ok pages ∧
    (pages ≫= λ r, oe_key <$> lr_contents r) = [rs "a"; rs "b"; rs "c"].
Proof.
  destruct (list_pages_complete sample_bucket (sample_request None 2) (sample_objects [rs "a"; rs "c"; rs "b"])) as (pages & E & Hk & _).
  - assert (∀ n k s, tags_wf s → tags_wf (tag_set sample_bucket n k s).1) as Hp.
    { intros n k s Hw. unfold tag_set. do_ensure sample_bucket s. unfold mbind, M_bind. rewrite E.
      destruct (put_tag (tag_key sample_bucket n) n k (set_ns_aliases f (set_ns_records g s))) as [s' r] eqn:Ep.
      by eapply put_tag_wf; [|exact Ep]. }
    apply Hp, Hp, Hp. by intros u h e He.
  - intros t Ht. assert (t ∈ collect_sorted_tags sample_bucket (sample_objects [rs "a"; rs "c"; rs "b"]) →
      forallb (λ t, utf8_valid (te_name t)) (collect_sorted_tags sample_bucket (sample_objects [rs "a"; rs "c"; rs "b"])) = true →
      utf8_valid (te_name t) = true) as Hall by (intros Hin; rewrite forallb_forall; intros Hf; apply Hf; by apply list_elem_of_In).
    apply Hall; [exact Ht|vm_compute; reflexivity].
  - reflexivity.
  - split; vm_compute; [reflexivity|discriminate].
  - exists pages. split; [exact E|]. rewrite Hk. vm_compute. reflexivity.
Defined.
End sample.
