(* ===== verification/S3Policy.v ===== *)
(** S3Policy: what the S3 endpoints of [kappa-server/src/main.rs] share: the
    query of a request, the action it stands for, the bucket policy, the check in
    front of the handlers and the bucket's namespace.

    A request is read through [Request], as the layers in front do; what the
    handlers take from the framework besides is the record [Cx] of the other
    endpoints. *)

From S2P Require Import Prelude Label Compute Types Merkle Epoch Identity Store MemStore MemTags MemNamespace Http Text DateTime SigV4 S3Xml.
From S2P Require Import NsLayer SigLayer S3List.

Record S3Cx := mkS3Cx {
  s3_request : Request;
  s3_cx : Cx;
  (** the credential store and the region, when the application registers them *)
  s3_lookup : option (rstr → option CredentialResult);
  s3_region : option rstr;
}.

(** [headers.get(name).and_then(|v| v.to_str().ok())]. *)
Definition s3_header (c : S3Cx) (name : rstr) : option rstr := header_str (rq_header (s3_request c)) name.
Definition s3_param (c : S3Cx) (name : rstr) : rstr := path_param (s3_cx c) name.

(** * Queries *)

(** The loop: an escape is taken when two digits follow it. *)
Fixpoint decode_bytes (s : bytes) : bytes :=
  match s with
  | [] => []
  | b :: rest =>
      let plain := (if decide (b = PLUS) then x20 else b) :: decode_bytes rest in
      match rest with
      | x :: y :: rest' =>
          if decide (b = PERCENT) then
            match hex_val x, hex_val y with
            | Some hi, Some lo => z2b (Z.lor (Z.shiftl hi 4) lo) :: decode_bytes rest'
            | _, _ => plain
            end
          else plain
      | _ => plain
      end
  end.

(** A decoded text that is not UTF-8 is dropped for the encoded one. *)
Definition s3_percent_decode (s : rstr) : rstr := let r := decode_bytes s in if utf8_valid r then r else s.

Definition query_entry (pair : rstr) : rstr * rstr :=
  match split_once EQUALS pair with
  | Some (k, v) => (s3_percent_decode k, s3_percent_decode v)
  | None => (s3_percent_decode pair, [])
  end.

(** A later value of a name replaces an earlier one. *)
Definition parse_s3_query (rq : Request) : gmap rstr rstr :=
  match rq_query rq with
  | Some query => foldl (λ m pair, let '(k, v) := query_entry pair in <[k := v]> m) ∅ (split_on AMP [] query)
  | None => ∅
  end.

(** * Actions *)

(** The first of the names that the query has. *)
Fixpoint first_action (query : gmap rstr rstr) (table : list (string * string)) (otherwise : string) : rstr :=
  match table with
  | [] => rs otherwise
  | (name, action) :: table => if decide (is_Some (query !! rs name)) then rs action else first_action query table otherwise
  end.

Definition derive_s3_action (method : rstr) (query : gmap rstr rstr) : rstr :=
  if decide (method = rs "GET") then
    first_action query [("tagging", "s3:GetObjectTagging"); ("acl", "s3:GetObjectAcl"); ("versioning", "s3:GetBucketVersioning");
                        ("lifecycle", "s3:GetLifecycleConfiguration"); ("cors", "s3:GetBucketCors"); ("policy", "s3:GetBucketPolicy");
                        ("attributes", "s3:GetObjectAttributes")]%string "s3:GetObject"
  else if decide (method = rs "PUT") then
    first_action query [("tagging", "s3:PutObjectTagging"); ("versioning", "s3:PutBucketVersioning");
                        ("lifecycle", "s3:PutLifecycleConfiguration"); ("cors", "s3:PutBucketCors");
                        ("policy", "s3:PutBucketPolicy")]%string "s3:PutObject"
  else if decide (method = rs "DELETE") then
    first_action query [("tagging", "s3:DeleteObjectTagging"); ("lifecycle", "s3:DeleteLifecycleConfiguration");
                        ("cors", "s3:DeleteBucketCors"); ("policy", "s3:DeleteBucketPolicy")]%string "s3:DeleteObject"
  else if decide (method = rs "HEAD") then rs "s3:GetObject"
  else if decide (method = rs "POST") then
    first_action query [("uploads", "s3:PutObject"); ("delete", "s3:DeleteObject")]%string "s3:PutObject"
  else rs "s3:*".

(** * Bucket policies *)

Definition stmt_effect (stmt : Json) : rstr := default [] (e ← json_get (rs "Effect") stmt; as_str e).

(** [None] is the statement the loop passes over. *)
Definition stmt_actions (stmt : Json) : option (list rstr) :=
  match json_get (rs "Action") stmt with
  | Some (JStr s) => Some [s]
  | Some (JArr l) => Some (omap as_str l)
  | _ => None
  end.

Definition action_matches (action a : rstr) : bool :=
  bool_decide (a = rs "*") || bool_decide (a = action) || (ends_with (rs "*") a && starts_with (take (length a - 1) a) action).

Inductive Verdict := ExplicitDeny | ImplicitDeny | NoObjection.

#[export] Instance Verdict_eq_dec : EqDecision Verdict.
Proof. solve_decision. Defined.

Fixpoint scan_statements (action : rstr) (statements : list Json) (any_allow : bool) : bool * bool :=
  match statements with
  | [] => (false, any_allow)
  | stmt :: statements =>
      match stmt_actions stmt with
      | None => scan_statements action statements any_allow
      | Some actions =>
          if existsb (action_matches action) actions then
            if decide (stmt_effect stmt = rs "Deny") then (true, any_allow)
            else scan_statements action statements (any_allow || bool_decide (stmt_effect stmt = rs "Allow"))
          else scan_statements action statements any_allow
      end
  end.

Definition policy_verdict (action : rstr) (statements : list Json) : Verdict :=
  let '(denied, any_allow) := scan_statements action statements false in
  if denied : bool then ExplicitDeny
  else if negb (bool_decide (statements = [])) && negb any_allow then ImplicitDeny
  else NoObjection.

(** [store.f(..).ok()] outside of a task. *)
Definition try_ok {A} (m : outcome StoreError A) : outcome HttpError (option A) :=
  match m with Ok a => Ok (Some a) | Err _ => Ok None | Panic => Panic end.

Section policy.
Context `{HashCrates} `{MemoryStoreConfig} `{JsonCrates} `{XmlCrate}.

Definition xml_error (status : Z) (code message : string) : Response := s3_error_response status (rs code) (rs message).

Definition access_denied (message : string) : Response := xml_error 403 "AccessDenied" message.

(** The statements of the bucket's policy, if all of it can be read. *)
Definition bucket_statements (bucket : rstr) (s : store) : outcome HttpError (option (list Json)) :=
  b ← try_ok (namespace_resolve bucket (Some (rs "s3")) s);
  match b with
  | None => Ok None
  | Some b =>
      entry ← try_ok (tag_get b (rs "_config/policy") s);
      match entry with
      | None => Ok None
      | Some entry =>
          policy_bytes ← try_ok (blob_get (te_kappa entry) s);
          Ok (bytes ← policy_bytes;
              policy ← match serde_from_slice bytes with inl v => Some v | inr _ => None end;
              st ← json_get (rs "Statement") policy;
              as_array st)
      end
  end.

Definition evaluate_bucket_policy (bucket action : rstr) (s : store) : outcome HttpError (option Response) :=
  statements ← bucket_statements bucket s;
  Ok (statements ← statements;
      match policy_verdict action statements with
      | ExplicitDeny => Some (access_denied "Access Denied by bucket policy")
      | ImplicitDeny => Some (access_denied "Access Denied by bucket policy (implicit deny)")
      | NoObjection => None
      end).

(** * In front of the handlers *)

Context `{MacCrates} `{ChronoCrate}.

Definition s3_auth_check (c : S3Cx) : Handler (option Response) := λ s,
  match verify_request (s3_lookup c) (s3_region c) (cx_now_ms (s3_cx c) / 1000) (s3_request c) with
  | Panic => (s, Panic)
  | Err resp => (s, Ok (Some resp))
  | Ok _ =>
      match assoc (rs "bucket") (cx_path_params (s3_cx c)) with
      | Some b =>
          (s, evaluate_bucket_policy b (derive_s3_action (rq_method (s3_request c)) (parse_s3_query (s3_request c))) s)
      | None => (s, Ok None)
      end
  end.

(** [if let Some(r) = s3_auth_check(cx) { return Ok(r); }]. *)
Definition checked_first (c : S3Cx) (k : Handler Response) : Handler Response :=
  r ← s3_auth_check c;
  match r with Some r => mret r | None => k end.

Definition s3_bucket_read (c : S3Cx) : Handler NamespaceRef :=
  match cx_namespace (s3_cx c) with
  | RExists ns => mret ns
  | _ => fail NotFoundError
  end.

Definition s3_bucket_write (c : S3Cx) : Handler NamespaceRef :=
  match cx_namespace (s3_cx c) with
  | RExists ns => mret ns
  | RNotFound name protocol =>
      r ← blocking (namespace_resolve_or_create (cx_now_ms (s3_cx c)) (cx_gen_ms (s3_cx c)) (cx_random (s3_cx c))
                      name (rs "_s3") (Some protocol));
      of_outcome (map_err (λ e, BadRequest (store_error_str e)) r)
  | RNoNamespace => fail NotFoundError
  end.
End policy.

(** * Policies decide by what matches *)

Definition matches_action (action : rstr) (stmt : Json) : Prop :=
  ∃ actions, stmt_actions stmt = Some actions ∧ existsb (action_matches action) actions = true.

Lemma scan_statements_spec action statements acc :
  let '(denied, any_allow) := scan_statements action statements acc in
  (denied = true ↔ ∃ stmt, stmt ∈ statements ∧ matches_action action stmt ∧ stmt_effect stmt = rs "Deny") ∧
  (denied = false → any_allow = true ↔ acc = true ∨ ∃ stmt, stmt ∈ statements ∧ matches_action action stmt ∧ stmt_effect stmt = rs "Allow").
Proof.
  revert acc. induction statements as [|stmt statements IH]; intros acc; cbn [scan_statements].
  { split; [split; [done|]|]; [intros (x & Hx & _); set_solver|]. intros _. split; [by left|]. intros [|(x & Hx & _)]; [done|set_solver]. }
  assert (∀ b, ¬ matches_action action stmt →
    let '(denied, any_allow) := scan_statements action statements b in
    (denied = true ↔ ∃ x, x ∈ stmt :: statements ∧ matches_action action x ∧ stmt_effect x = rs "Deny") ∧
    (denied = false → any_allow = true ↔ b = true ∨ ∃ x, x ∈ stmt :: statements ∧ matches_action action x ∧ stmt_effect x = rs "Allow")) as Hskip.
  { intros b Hno. specialize (IH b). destruct (scan_statements action statements b) as [d a]. destruct IH as [I1 I2].
    setoid_rewrite elem_of_cons. split.
    - rewrite I1. split; [intros (x & Hx & Hm); exists x; tauto|]. intros (x & [->|Hx] & Hm & He); [done|eauto].
    - intros Hd. rewrite (I2 Hd). split; [intros [|(x & Hx & Hm)]; [by left|right; exists x; tauto]|].
      intros [|(x & [->|Hx] & Hm & He)]; [by left|done|right; eauto]. }
  destruct (stmt_actions stmt) as [actions|] eqn:Ea; [|apply Hskip; intros (a & Ha & _); congruence].
  destruct (existsb (action_matches action) actions) eqn:Em; [|apply Hskip; intros (a & Ha & Hm); congruence].
  assert (matches_action action stmt) as Hmatch by (by exists actions).
  case_decide as Hdeny; [split; [|done]; split; [intros _; exists stmt; set_solver|done]|].
  specialize (IH (acc || bool_decide (stmt_effect stmt = rs "Allow"))).
  destruct (scan_statements action statements _) as [d a]. destruct IH as [I1 I2]. setoid_rewrite elem_of_cons. split.
  - rewrite I1. split; [intros (x & Hx & Hm); exists x; tauto|]. intros (x & [->|Hx] & Hm & He); [done|eauto].
  - intros Hd. rewrite (I2 Hd), orb_true_iff, bool_decide_eq_true.
    split; [intros [[|Hal]|(x & Hx & Hm)]; [by left|right; exists stmt; tauto|right; exists x; tauto]|].
    intros [|(x & [->|Hx] & Hm & He)]; [left; by left|left; by right|right; eauto].
Qed.

(** A policy decides by its matching statements alone, in whatever order they
    stand: one that denies refuses the request; otherwise one that allows lets it
    pass; a policy with statements none of which allows refuses it. *)
Theorem policy_verdict_correct action statements :
  let deny := ∃ stmt, stmt ∈ statements ∧ matches_action action stmt ∧ stmt_effect stmt = rs "Deny" in
  let allow := ∃ stmt, stmt ∈ statements ∧ matches_action action stmt ∧ stmt_effect stmt = rs "Allow" in
  match policy_verdict action statements with
  | ExplicitDeny => deny
  | ImplicitDeny => ¬ deny ∧ ¬ allow ∧ statements ≠ []
  | NoObjection => ¬ deny ∧ (allow ∨ statements = [])
  end.
Proof.
  intros deny allow. unfold policy_verdict. pose proof (scan_statements_spec action statements false) as Hs.
  destruct (scan_statements action statements false) as [d a]. destruct Hs as [Hd Ha]. fold deny in Hd. fold allow in Ha.
  destruct d; [by apply Hd|]. specialize (Ha eq_refl).
  assert (¬ deny) as Hnd by (intros Hk%Hd; done).
  assert (a = true ↔ allow) as Haa by (rewrite Ha; naive_solver).
  destruct a; [rewrite andb_false_r; split; [done|left; by apply Haa]|]. rewrite andb_true_r.
  assert (¬ allow) as Hna by (intros Hk%Haa; done). case_bool_decide; cbn [negb]; [split; [done|by right]|done].
Qed.

(** Only the effect and the action of a statement are read: a policy that
    speaks of one principal, resource or condition decides the same for all. *)
Theorem policy_ignores_principal action statements statements'
  (Hsame : (λ stmt, (stmt_effect stmt, stmt_actions stmt)) <$> statements = (λ stmt, (stmt_effect stmt, stmt_actions stmt)) <$> statements') :
  policy_verdict action statements = policy_verdict action statements'.
Proof.
  assert (∀ acc, scan_statements action statements acc = scan_statements action statements' acc) as Hscan.
  { revert statements' Hsame. induction statements as [|x l IH]; intros [|y l'] E acc; [done|done|done|].
    injection E as Hx Hy E. cbn [scan_statements]. rewrite Hx, Hy. rewrite !(IH l' E). by repeat case_match. }
  unfold policy_verdict. rewrite Hscan.
  assert (bool_decide (statements = []) = bool_decide (statements' = [])) as ->; [|done].
  destruct statements, statements'; done.
Qed.

Lemma policy_ignores_principal_witness :
  let allow who := JObj [(rs "Effect", JStr (rs "Allow")); (rs "Action", JStr (rs "s3:*")); (rs "Principal", JStr who)] in
  policy_verdict (rs "s3:PutObject") [allow (rs "alice")] = policy_verdict (rs "s3:PutObject") [allow (rs "nobody")].
Proof. intros allow. apply policy_ignores_principal. reflexivity. Defined.

(** * Escapes *)

Lemma decode_plain b rest : b ≠ PERCENT → b ≠ PLUS → decode_bytes (b :: rest) = b :: decode_bytes rest.
Proof.
  intros Hp Hq. destruct rest as [|x [|y rest]]; cbn [decode_bytes]; rewrite (decide_False (P := b = PLUS)) by done; [done|done|].
  by rewrite decide_False.
Qed.

(** A key written with percent escapes for a listing is read back by the
    decoder of queries. *)
Theorem percent_roundtrip key (Hkey : utf8_valid key = true) : s3_percent_decode (percent_encode_key key) = key.
Proof.
  assert (decode_bytes (percent_encode_key key) = key) as E; [|unfold s3_percent_decode; by rewrite E, Hkey].
  clear Hkey. induction key as [|b key IH]; [done|]. unfold percent_encode_key in *. rewrite bind_cons.
  set (rest := key ≫= _) in *. clearbody rest.
  assert (∀ b, (is_unreserved b || bool_decide (b = SLASH) = true → b ≠ PERCENT ∧ b ≠ PLUS) ∧
     match hex_upper b with [x; y] => match hex_val x, hex_val y with
       | Some hi, Some lo => z2b (Z.lor (Z.shiftl hi 4) lo) = b | _, _ => False end | _ => False end) as Hall
    by (intros []; vm_compute; (split; [done|reflexivity])).
  destruct (Hall b) as [H1 H2]. destruct (is_unreserved b || bool_decide (b = SLASH)) eqn:Eb.
  - destruct (H1 eq_refl) as [Hp1 Hp2]. cbn [app]. by rewrite decode_plain, IH.
  - destruct (hex_upper b) as [|x [|y [|]]] eqn:Eh; [done|done| |done]. cbn [app decode_bytes].
    destruct (hex_val x), (hex_val y); try done. rewrite decide_True by done. by rewrite H2, IH.
Qed.

Lemma percent_roundtrip_witness : s3_percent_decode (percent_encode_key (rs "a b/c+d%20")) = rs "a b/c+d%20".
Proof. apply percent_roundtrip. reflexivity. Defined.
