(* ===== verification/S3Objects.v ===== *)
(** S3Objects: the object and bucket endpoints of the S3 interface in
    [kappa-server/src/main.rs], over the in-memory store.

    Objects are tags of the bucket's namespace.  Versions are a part of the store
    the in-memory store leaves to the trait's default methods; the handlers are
    written against the class [KappaVersions]. *)

From S2P Require Import Prelude Label Compute Types Merkle Epoch Identity Store MemStore MemTags MemNamespace MemUpload Frame Http Text DateTime.
From S2P Require Import OciBlob OciManifest SigV4 S3Xml NsLayer SigLayer S3List S3Policy.

Class KappaVersions := {
  version_put : NamespaceRef → rstr → rstr → option rstr → M store rstr;
  version_get : NamespaceRef → rstr → option rstr → store → outcome StoreError VersionEntry;
  version_delete : NamespaceRef → rstr → option rstr → M store DeleteResult;
}.

Definition not_implemented : StoreError := SRejected (rs "versioning not implemented").

(** The default methods of the trait. *)
#[export] Instance default_versions : KappaVersions := {|
  version_put _ _ _ _ := throw not_implemented;
  version_get _ _ _ _ := Err not_implemented;
  version_delete _ _ _ := throw not_implemented;
|}.

(** * Bodies and tasks *)

(** The frames of a request's body; [None] is a frame that fails. *)
Definition Body : Type := list (option bytes).

(** [to_bytes(body, limit)]. *)
Definition to_bytes (limit : Z) (body : Body) : option bytes :=
  frames ← mapM id body;
  let content := concat frames in
  if limit <? zlen content then None else Some content.

(** [.map(|b| b.to_vec()).unwrap_or_default()]. *)
Definition body_or_empty (limit : Z) (body : Body) : bytes := default [] (to_bytes limit body).

(** A blocking task whose panic the handler sees as an error: [None]. *)
Definition task {A} (m : M store A) : Handler (option (outcome StoreError A)) := λ s,
  match m s with
  | (s', Panic) => (s', Ok None)
  | (s', r) => (s', Ok (Some r))
  end.

(** [let _ = m], in a task. *)
Definition drop_error {A} (m : M store A) : M store () := λ s,
  match m s with
  | (s', Panic) => (s', Panic)
  | (s', _) => (s', Ok ())
  end.

(** * Texts in XML bodies *)

(** The text between the first [open] and the next [close]. *)
Definition between (open close : rstr) (block : rstr) : option rstr :=
  i ← str_find open block;
  let rest := drop (i + length open) block in
  e ← str_find close rest;
  Some (take e rest).

(** The loops over the blocks of a body: each block's inside, in order, up to the
    first that is not closed. *)
Fixpoint blocks (fuel : nat) (open close : rstr) (remaining : rstr) : list rstr :=
  match fuel with
  | O => []
  | S fuel =>
      match str_find open remaining with
      | None => []
      | Some start =>
          let after := drop (start + length open) remaining in
          match str_find close after with
          | None => []
          | Some e => take e after :: blocks fuel open close (drop (e + length close) after)
          end
      end
  end.
Definition all_blocks (open close : rstr) (body : rstr) : list rstr := blocks (S (length body)) open close body.

(** At most ten tags are kept. *)
Definition parse_tags (body : rstr) : list (rstr * rstr) :=
  take 10 (omap (λ block, k ← between (rs "<Key>") (rs "</Key>") block;
                          v ← between (rs "<Value>") (rs "</Value>") block; Some (k, v))
             (all_blocks (rs "<Tag>") (rs "</Tag>") body)).

(** [Vec<(String, String)>] in JSON. *)
Definition tags_to_json (tags : list (rstr * rstr)) : Json := JArr ((λ '(k, v), JArr [JStr k; JStr v]) <$> tags).
Definition tag_of_json (j : Json) : option (rstr * rstr) :=
  match j with JArr [JStr k; JStr v] => Some (k, v) | _ => None end.
Definition tags_of_json (j : Json) : option (list (rstr * rstr)) :=
  match j with JArr l => mapM tag_of_json l | _ => None end.

Definition xml_ct : list (rstr * rstr) := [(rs "content-type", rs "application/xml")].
Definition xml_ok (content : bytes) : Response := response 200 xml_ct content.
Definition no_content : Response := mkResponse 204 [] [].
Definition plain_status (status : Z) : Response := mkResponse status [] [].

Section handlers.
Context `{HashCrates} `{TransferCrates} `{MemoryStoreConfig} `{JsonCrates} `{XmlCrate} `{HeaderCrate} `{MacCrates} `{ChronoCrate}.
Context `{Base64Crate} `{KappaVersions}.

(** * Objects *)

Definition md5_etag (content : bytes) : rstr := QUOTE :: hex_encode (md5_digest content) ++ [QUOTE].

Definition put_opt_meta (kappa key : rstr) (value : option bytes) : M store () :=
  match value with Some v => drop_error (blob_put_meta kappa key v) | None => mret () end.

(** A new version, or the tag where there are no versions. *)
Definition put_version (bucket : NamespaceRef) (key kappa etag : rstr) : M store rstr := λ s,
  match version_put bucket key kappa (Some etag) s with
  | (s', Err (SRejected _)) => (_ ← tag_set bucket key kappa; mret (rs "null")) s'
  | r => r
  end.

(** What the task of a PUT stores: the content, its metadata and the key. *)
Definition put_object_task (now_ms : Z) (bucket : NamespaceRef) (key : rstr) (content : bytes) (ct sse : option rstr) : M store (rstr * rstr) :=
  ingest ← ingest_verified (kappa_from_bytes content) content;
  let etag := md5_etag content in
  _ ← drop_error (blob_put_meta (ir_kappa ingest) (rs "_s3_created_ms") (dec now_ms));
  _ ← drop_error (blob_put_meta (ir_kappa ingest) (rs "_s3_etag") etag);
  _ ← put_opt_meta (ir_kappa ingest) (rs "content-type") ct;
  _ ← put_opt_meta (ir_kappa ingest) (rs "_s3_sse") sse;
  vid ← put_version bucket key (ir_kappa ingest) etag;
  mret (etag, vid).

Definition opt_header (name : rstr) (value : option rstr) : list (rstr * rstr) :=
  match value with Some v => [(name, v)] | None => [] end.
Definition version_header (vid : rstr) : list (rstr * rstr) :=
  if decide (vid = rs "null") then [] else [(rs "x-amz-version-id", vid)].

(** The digest in [x-amz-content-sha256], when the header asks for a check. *)
Definition sha256_wrong (expected : option rstr) (content : bytes) : bool :=
  match expected with
  | Some e =>
      negb (bool_decide (e = rs "UNSIGNED-PAYLOAD")) && negb (starts_with (rs "STREAMING-") e) && negb (bool_decide (e = []))
      && negb (bool_decide (sha256_hex content = e))
  | None => false
  end.

Definition md5_wrong (expected : option rstr) (content : bytes) : bool :=
  match expected with Some e => negb (bool_decide (base64_encode (md5_digest content) = e)) | None => false end.

Definition s3_put_object (c : S3Cx) (body : Body) : Handler Response :=
  checked_first c (
    bucket_ns ← s3_bucket_write c;
    if has_header (rq_header (s3_request c)) (rs "x-amz-server-side-encryption-customer-algorithm") then
      mret (xml_error 400 "InvalidArgument" "SSE-C is not supported. Use SSE-S3 (AES256).")
    else
      let sse_algo := s3_header c (rs "x-amz-server-side-encryption") in
      exists_ ← task (asks (namespace_exists (s3_param c (rs "bucket")) (Some (rs "s3"))));
      if negb (bool_decide (exists_ = Some (Ok true))) then
        mret (xml_error 404 "NoSuchBucket" "The specified bucket does not exist.")
      else
        let content := body_or_empty (256 * 1024 * 1024) body in
        if md5_wrong (s3_header c (rs "content-md5")) content then
          mret (xml_error 400 "BadDigest" "The Content-MD5 you specified did not match what we received.")
        else if sha256_wrong (s3_header c (rs "x-amz-content-sha256")) content then
          mret (xml_error 400 "XAmzContentSHA256Mismatch" "The provided x-amz-content-sha256 header does not match the body.")
        else
          result ← task (put_object_task (cx_now_ms (s3_cx c)) bucket_ns (s3_param c (rs "key")) content
                           (s3_header c (rs "content-type")) sse_algo);
          match result with
          | Some (Ok (etag, vid)) =>
              with_headers 200 ([(rs "etag", etag)] ++ version_header vid ++ opt_header (rs "x-amz-server-side-encryption") sse_algo) []
          | _ => mret (xml_error 500 "InternalError" "put failed")
          end).

(** The label of a version, or of the tag where there are no versions. *)
Definition object_kappa (bucket : NamespaceRef) (key : rstr) (version_id : option rstr) (s : store) : outcome StoreError (rstr * rstr) :=
  match version_get bucket key version_id s with
  | Ok ve =>
      kappa ← ok_or (ve_kappa ve)
                (SNotFound (ns_display bucket ++ rs "/" ++ key ++ rs " (delete marker: " ++ ve_version_id ve ++ rs ")"));
      Ok (kappa, ve_version_id ve)
  | Err (SRejected _) => entry ← tag_get bucket key s; Ok (te_kappa entry, rs "null")
  | Err e => Err e
  | Panic => Panic
  end.

Record ObjectHead := mkHead {
  oh_kappa : rstr;
  oh_version : rstr;
  oh_content_type : option rstr;
  oh_etag : option rstr;
  oh_created : option rstr;
}.

Definition object_head (kappa vid : rstr) (s : store) : outcome StoreError ObjectHead :=
  ct ← meta_text kappa (rs "content-type") s;
  etag ← meta_text kappa (rs "_s3_etag") s;
  created ← meta_text kappa (rs "_s3_created_ms") s;
  Ok (mkHead kappa vid ct etag created).

Definition get_object_task (bucket : NamespaceRef) (key : rstr) (version_id : option rstr) (s : store)
  : outcome StoreError (ObjectHead * bytes * option rstr) :=
  '(kappa, vid) ← object_kappa bucket key version_id s;
  content ← blob_get kappa s;
  sse ← meta_text kappa (rs "_s3_sse") s;
  head ← object_head kappa vid s;
  Ok (head, content, sse).

Definition entity_headers (h : ObjectHead) (size : Z) : list (rstr * rstr) :=
  [(rs "content-type", default (rs "application/octet-stream") (oh_content_type h));
   (rs "etag", default (QUOTE :: oh_kappa h ++ [QUOTE]) (oh_etag h));
   (rs "content-length", dec size)].

(** [Last-Modified] of a GET. *)
Definition last_modified (created : option rstr) : Handler (list (rstr * rstr)) :=
  match (ms_str ← created; parse_u64 ms_str) with
  | Some ms => d ← of_outcome (epoch_ms_to_http_date ms); mret [(rs "last-modified", d)]
  | None => mret []
  end.

(** A HEAD goes through the compact text and back. *)
Definition head_last_modified (created : option rstr) : Handler (list (rstr * rstr)) :=
  match (ms_str ← created; parse_u64 ms_str) with
  | Some ms =>
      dt ← of_outcome (epoch_ms_to_datetime ms);
      match parse_datetime_to_epoch_secs dt with
      | Ok secs =>
          mret (match chrono_format (rs "%a, %d %b %Y %H:%M:%S GMT") (as_i64 secs) 0 with
                | Some d => [(rs "last-modified", d)]
                | None => []
                end)
      | Err _ => mret []
      | Panic => panic
      end
  | None => mret []
  end.

(** The identifier the error text of a delete marker carries. *)
Definition marker_version (msg : rstr) : option rstr :=
  i ← str_find (rs "delete marker: ") msg;
  let rest := drop (i + length (rs "delete marker: ")) msg in
  strip_suffix (rs ")") (match str_find (rs "delete marker: ") rest with Some j => take j rest | None => rest end).

Definition no_such_key (msg : rstr) : Handler Response :=
  with_headers 404
    (xml_ct ++ (if str_contains (rs "delete marker:") msg then
                  [(rs "x-amz-delete-marker", rs "true")] ++ opt_header (rs "x-amz-version-id") (marker_version msg)
                else []))
    [encode_s3_error_xml (rs "NoSuchKey") (rs "The specified key does not exist.")].

Definition key_not_found : Response := xml_error 404 "NoSuchKey" "key not found".

(** [?uploadId]: the parts are always reported as none. *)
Definition list_parts (c : S3Cx) (upload_id : rstr) : Handler Response :=
  result ← task (received ← upload_bytes_received (cx_instant (s3_cx c) 0) upload_id;
                 match received with
                 | None => throw (SNotFound (rs "upload " ++ upload_id))
                 | Some _ => mret ([] : list PartInfo)
                 end);
  match result with
  | Some (Ok parts) => mret (xml_ok (encode_list_parts_xml parts))
  | _ => mret (xml_error 404 "NoSuchUpload" "upload not found")
  end.

Definition tagging_xml (tags : list (rstr * rstr)) : rstr :=
  quotes "<?xml version=%1.0% encoding=%UTF-8%?><Tagging><TagSet>"
  ++ (tags ≫= λ '(k, v), rs "<Tag><Key>" ++ k ++ rs "</Key><Value>" ++ v ++ rs "</Value></Tag>")
  ++ rs "</TagSet></Tagging>".

Definition get_tagging (bucket : NamespaceRef) (key : rstr) : Handler Response :=
  result ← task (asks (λ s, entry ← tag_get bucket key s;
                            match blob_get_meta (te_kappa entry) (rs "_s3_tags") s with
                            | Err (SNotFound _) => Ok (rs "[]")
                            | r => r
                            end));
  match result with
  | Some (Ok raw) =>
      let tags := default [] (match serde_from_slice raw with inl j => tags_of_json j | inr _ => None end) in
      mret (xml_ok (tagging_xml tags))
  | _ => mret key_not_found
  end.

Definition get_attributes (c : S3Cx) (bucket : NamespaceRef) (key : rstr) : Handler Response :=
  let requested := default (rs "ETag,ObjectSize,StorageClass") (s3_header c (rs "x-amz-object-attributes")) in
  let wants name := str_contains (rs name) requested in
  result ← task (asks (λ s, entry ← tag_get bucket key s; size ← blob_size (te_kappa entry) s; Ok (te_kappa entry, size)));
  match result with
  | Some (Ok (kappa, size)) =>
      mret (xml_ok
        (quotes "<?xml version=%1.0% encoding=%UTF-8%?><GetObjectAttributesResponse>"
         ++ (if wants "ETag" then rs "<ETag>" ++ QUOTE :: kappa ++ QUOTE :: rs "</ETag>" else [])
         ++ (if wants "ObjectSize" then rs "<ObjectSize>" ++ dec size ++ rs "</ObjectSize>" else [])
         ++ (if wants "StorageClass" then rs "<StorageClass>STANDARD</StorageClass>" else [])
         ++ rs "</GetObjectAttributesResponse>"))
  | _ => mret key_not_found
  end.

Definition s3_get_object (c : S3Cx) : Handler Response :=
  checked_first c (
    bucket_ns ← s3_bucket_read c;
    let key := s3_param c (rs "key") in
    let query := parse_s3_query (s3_request c) in
    match query !! rs "uploadId" with
    | Some upload_id => list_parts c upload_id
    | None =>
        if decide (is_Some (query !! rs "tagging")) then get_tagging bucket_ns key
        else if decide (is_Some (query !! rs "attributes")) then get_attributes c bucket_ns key
        else
          result ← task (asks (get_object_task bucket_ns key (query !! rs "versionId")));
          match result with
          | Some (Ok (head, content, sse)) =>
              modified ← last_modified (oh_created head);
              with_headers 200 (entity_headers head (zlen content) ++ modified ++ version_header (oh_version head)
                                ++ opt_header (rs "x-amz-server-side-encryption") sse) [content]
          | Some (Err (SNotFound msg)) => no_such_key msg
          | _ => mret (xml_error 500 "InternalError" "get failed")
          end
    end).

Definition head_object_task (bucket : NamespaceRef) (key : rstr) (version_id : option rstr) (s : store)
  : outcome StoreError (ObjectHead * Z) :=
  '(kappa, vid) ← object_kappa bucket key version_id s;
  size ← blob_size kappa s;
  head ← object_head kappa vid s;
  Ok (head, size).

Definition s3_head_object (c : S3Cx) : Handler Response :=
  checked_first c (
    bucket_ns ← s3_bucket_read c;
    let query := parse_s3_query (s3_request c) in
    result ← task (asks (head_object_task bucket_ns (s3_param c (rs "key")) (query !! rs "versionId")));
    match result with
    | Some (Ok (head, size)) =>
        modified ← head_last_modified (oh_created head);
        with_headers 200 (entity_headers head size ++ modified ++ version_header (oh_version head)) []
    | Some (Err (SNotFound msg)) =>
        if str_contains (rs "delete marker:") msg then mret (mkResponse 404 [(rs "x-amz-delete-marker", rs "true")] [])
        else mret (plain_status 404)
    | _ => mret (plain_status 500)
    end).

Definition delete_object_task (bucket : NamespaceRef) (key : rstr) (version_id : option rstr) : M store DeleteResult := λ s,
  match version_delete bucket key version_id s with
  | (s', Err (SRejected _)) => (_ ← tag_delete bucket key; mret (mkDeleteResult (rs "null") false)) s'
  | r => r
  end.

Definition s3_delete_object (c : S3Cx) : Handler Response :=
  bucket_ns ← s3_bucket_write c;
  let query := parse_s3_query (s3_request c) in
  result ← task (delete_object_task bucket_ns (s3_param c (rs "key")) (query !! rs "versionId"));
  match result with
  | Some (Ok dr) =>
      with_headers 204 ((if dr_is_delete_marker dr then [(rs "x-amz-delete-marker", rs "true")] else [])
                        ++ version_header (dr_version_id dr)) []
  | _ => mret no_content
  end.

Definition s3_copy_object (c : S3Cx) : Handler Response :=
  bucket_ns ← s3_bucket_write c;
  let key := s3_param c (rs "key") in
  let copy_source := default [] (s3_header c (rs "x-amz-copy-source")) in
  result ← task (
    let source := default copy_source (strip_prefix (rs "/") copy_source) in
    '(src_bucket, src_key) ← lift (ok_or (split_once SLASH source) (SRejected (rs "invalid copy source")));
    src_ns ← asks (namespace_resolve src_bucket (Some (rs "s3")));
    src_entry ← asks (tag_get src_ns src_key);
    _ ← tag_set bucket_ns key (te_kappa src_entry);
    _ ← drop_error (blob_put_meta (te_kappa src_entry) (rs "_s3_created_ms") (dec (cx_now_ms (s3_cx c))));
    mret (te_kappa src_entry));
  match result with
  | Some (Ok kappa) => mret (xml_ok (encode_copy_result_xml (QUOTE :: kappa ++ [QUOTE]) []))
  | Some (Err (SNotFound _)) => mret (xml_error 404 "NoSuchKey" "source key not found")
  | _ => mret (xml_error 500 "InternalError" "copy failed")
  end.

Definition s3_put_tagging (c : S3Cx) (body : Body) : Handler Response :=
  bucket_ns ← s3_bucket_write c;
  let tags := parse_tags (from_utf8_lossy (body_or_empty (128 * 1024) body)) in
  result ← task (entry ← asks (tag_get bucket_ns (s3_param c (rs "key")));
                 blob_put_meta (te_kappa entry) (rs "_s3_tags") (serde_to_string (tags_to_json tags)));
  match result with
  | Some (Ok _) => mret (plain_status 200)
  | _ => mret (xml_error 500 "InternalError" "put tagging failed")
  end.

Definition s3_delete_tagging (c : S3Cx) : Handler Response :=
  bucket_ns ← s3_bucket_write c;
  _ ← task (found ← gets (tag_get bucket_ns (s3_param c (rs "key")));
            match found with
            | Ok entry => drop_error (blob_delete_meta (te_kappa entry) (rs "_s3_tags"))
            | _ => mret ()
            end);
  mret no_content.
End handlers.

(** * What a PUT leaves is what a GET shows *)

Section facts.
Context `{HashCratesLaws} `{TransferCrates} `{MemoryStoreConfig} `{JsonCrates} `{XmlCrate} `{HeaderCrateLaws} `{MacCrates} `{ChronoLaws}.
Context `{Base64Crate}.
#[local] Existing Instance default_versions.

Definition OBJECT_META : list rstr := [rs "_s3_created_ms"; rs "_s3_etag"; rs "content-type"; rs "_s3_sse"].

(** The names of an object's metadata have different hashes. *)
Definition meta_names : Prop := NoDup (item_hash <$> OBJECT_META).

Lemma meta_names_ne i j a b k : meta_names → OBJECT_META !! i = Some a → OBJECT_META !! j = Some b → i ≠ j →
  meta_key k a ≠ meta_key k b.
Proof.
  intros Hn Hi Hj Hij [= Hh]. apply Hij. eapply (NoDup_lookup _ _ _ (item_hash a) Hn); rewrite list_lookup_fmap.
  - by rewrite Hi.
  - rewrite Hj. cbn. by rewrite Hh.
Qed.

(** The object that content and its metadata make. *)
Record object_at (ns : NamespaceRef) (key : rstr) (content : bytes) (etag created : rstr) (ct sse : option rstr) (s : store) : Prop := {
  oa_ok : fs_ok (fs s);
  oa_stored : stored_under s content (kappa_text Sha256 content);
  oa_tag : ∃ v, tags s !! tag_key ns key = Some (mkTag key (kappa_text Sha256 content) v);
  oa_etag : meta s !! meta_key (kappa_text Sha256 content) (rs "_s3_etag") = Some etag;
  oa_created : meta s !! meta_key (kappa_text Sha256 content) (rs "_s3_created_ms") = Some created;
  oa_ct : meta s !! meta_key (kappa_text Sha256 content) (rs "content-type") = ct;
  oa_sse : meta s !! meta_key (kappa_text Sha256 content) (rs "_s3_sse") = sse;
}.

Lemma kappa_verifies content : verify_kappa (kappa_text Sha256 content) content = Ok true.
Proof. apply verify_kappa_true. by exists Sha256. Qed.

Lemma put_opt_meta_run kappa key value s : ∃ s', put_opt_meta kappa key value s = (s', Ok ()) ∧ fs s' = fs s ∧ tags s' = tags s ∧
  sequences s' = sequences s ∧ meta s' = match value with Some v => <[meta_key kappa key := v]> (meta s) | None => meta s end.
Proof. destruct value; eexists; (split; [done|]); done. Qed.

Lemma put_object_task_run now ns key content ct sse s : fs_ok (fs s) → room 1 0 s → meta_names →
  let old name := meta s !! meta_key (kappa_text Sha256 content) name in
  ∃ s', put_object_task now ns key content ct sse s = (s', Ok (md5_etag content, rs "null")) ∧
    object_at ns key content (md5_etag content) (dec now)
      (match ct with Some v => Some v | None => old (rs "content-type") end)
      (match sse with Some v => Some v | None => old (rs "_s3_sse") end) s' ∧
    (∀ c k, stored_under s c k → stored_under s' c k) ∧
    (∀ k, k ≠ tag_key ns key → tags s' !! k = tags s !! k).
Proof.
  intros Hs Hroom Hn old. unfold put_object_task. rewrite kappa_from_bytes_text. set (k := kappa_text Sha256 content) in *.
  destruct (ingest_allowed k content s Hs (kappa_verifies content)) as (s1 & r & E1 & Hs1 & Hst1 & Hk1 & [f ->] & _).
  assert (ir_kappa r = k) as Hk.
  { pose proof (ingest_verified_spec (St := store) Sha256 content s Hs eq_refl (sha256_accepted content)) as (s' & b & E & _).
    change (ingest_verified k content s = (s', Ok (mkIngest k b [] None))) in E. rewrite E1 in E. by injection E as _ ->. }
  unfold mbind at 1, M_bind at 1. rewrite E1. cbv zeta. rewrite Hk. unfold mbind at 1, M_bind at 1, drop_error at 1, blob_put_meta at 1.
  unfold mbind at 1, M_bind at 1, drop_error at 1, blob_put_meta at 1. unfold modify.
  set (s2 := set_meta _ (set_meta _ (set_fs f s))).
  destruct (put_opt_meta_run k (rs "content-type") ct s2) as (s3 & E3 & Hf3 & Ht3 & Hq3 & Hm3).
  unfold mbind at 1, M_bind at 1. rewrite E3.
  destruct (put_opt_meta_run k (rs "_s3_sse") sse s3) as (s4 & E4 & Hf4 & Ht4 & Hq4 & Hm4).
  unfold mbind at 1, M_bind at 1. rewrite E4.
  destruct (tag_set_total 0 0 ns key k s4) as (s5 & v & E5 & _ & K5 & Ht5 & _ & Hf5).
  { apply (room_same _ _ s); [by rewrite Ht4, Ht3|by rewrite Hq4, Hq3|done]. }
  unfold put_version, mbind, M_bind, version_put, default_versions, throw. rewrite E5. exists s5. split; [done|].
  assert (fs s5 = f (fs s)) as Hff by (by rewrite Hf5, Hf4, Hf3).
  assert (∀ i a w, OBJECT_META !! i = Some a → i ≠ 2%nat → i ≠ 3%nat → meta s2 !! meta_key k a = w → meta s5 !! meta_key k a = w) as Hold.
  { intros i a w Hi Hi2 Hi3 Hw. rewrite (k_meta _ _ _ K5), Hm4, Hm3.
    assert (meta_key k (rs "content-type") ≠ meta_key k a) by (by apply (meta_names_ne 2 i)).
    assert (meta_key k (rs "_s3_sse") ≠ meta_key k a) by (by apply (meta_names_ne 3 i)).
    destruct ct, sse; rewrite ?lookup_insert_ne by done; done. }
  split_and!.
  - split.
    + by rewrite Hff.
    + apply (blobs_kept_fs (set_fs f s)); [exact Hff|exact Hs1|exact Hst1].
    + by exists v.
    + apply (Hold 1%nat); [done|done|done|apply lookup_insert_eq].
    + apply (Hold 0%nat); [done|done|done|]. cbn. rewrite lookup_insert_ne by (by apply (meta_names_ne 1 0)). apply lookup_insert_eq.
    + rewrite (k_meta _ _ _ K5), Hm4, Hm3.
      assert (meta_key k (rs "_s3_sse") ≠ meta_key k (rs "content-type")) by (by apply (meta_names_ne 3 2)).
      assert (meta s2 !! meta_key k (rs "content-type") = old (rs "content-type")) as Ho
        by (cbn; by rewrite !lookup_insert_ne by first [by apply (meta_names_ne 1 2)|by apply (meta_names_ne 0 2)]).
      destruct sse; rewrite ?lookup_insert_ne by done; destruct ct; rewrite ?lookup_insert_eq; done.
    + rewrite (k_meta _ _ _ K5), Hm4. destruct sse; [apply lookup_insert_eq|]. rewrite Hm3.
      assert (meta_key k (rs "content-type") ≠ meta_key k (rs "_s3_sse")) by (by apply (meta_names_ne 2 3)).
      assert (meta s2 !! meta_key k (rs "_s3_sse") = old (rs "_s3_sse")) as Ho
        by (cbn; by rewrite !lookup_insert_ne by first [by apply (meta_names_ne 1 3)|by apply (meta_names_ne 0 3)]).
      destruct ct; rewrite ?lookup_insert_ne by done; done.
  - intros c k' Hc. apply (blobs_kept_fs (set_fs f s)); [exact Hff|exact Hs1|by apply Hk1].
  - intros k' Hne. rewrite (k_tags _ _ _ K5) by set_solver. by rewrite Ht4, Ht3.
Qed.

(** A PUT that nothing in front of the store refuses. *)
Record put_allowed (c : S3Cx) (ns : NamespaceRef) (content : bytes) (s : store) : Prop := {
  pl_check : s3_auth_check c s = (s, Ok None);
  pl_ns : cx_namespace (s3_cx c) = RExists ns;
  pl_ssec : has_header (rq_header (s3_request c)) (rs "x-amz-server-side-encryption-customer-algorithm") = false;
  pl_exists : namespace_exists (s3_param c (rs "bucket")) (Some (rs "s3")) s = Ok true;
  pl_md5 : md5_wrong (s3_header c (rs "content-md5")) content = false;
  pl_sha256 : sha256_wrong (s3_header c (rs "x-amz-content-sha256")) content = false;
  pl_now : 0 ≤ cx_now_ms (s3_cx c) ≤ u64_max;
  (** the values that go back into headers, the request's and those already stored *)
  pl_values : ∀ name v, name ∈ [rs "content-type"; rs "x-amz-server-side-encryption"] → s3_header c name = Some v →
    header_value_ok v = true ∧ utf8_valid v = true;
  pl_old : ∀ name v, name ∈ [rs "content-type"; rs "_s3_sse"] →
    meta s !! meta_key (kappa_text Sha256 content) name = Some v → header_value_ok v = true;
  pl_date : ∀ d, epoch_ms_to_http_date (E := HttpError) (cx_now_ms (s3_cx c)) = Ok d → header_value_ok d = true;
}.

(** A GET of the object itself that nothing in front of the store refuses. *)
Record get_allowed (c : S3Cx) (ns : NamespaceRef) (key : rstr) (s : store) : Prop := {
  gl_check : s3_auth_check c s = (s, Ok None);
  gl_ns : cx_namespace (s3_cx c) = RExists ns;
  gl_key : s3_param c (rs "key") = key;
  gl_query : ∀ name, name ∈ [rs "uploadId"; rs "tagging"; rs "attributes"] → parse_s3_query (s3_request c) !! name = None;
}.

(** The query asks for the object itself. *)
Lemma get_allowed_plain {c ns key s} : get_allowed c ns key s → let query := parse_s3_query (s3_request c) in
  query !! rs "uploadId" = None ∧ query !! rs "tagging" = None ∧ query !! rs "attributes" = None.
Proof. intros [_ _ _ Hq]. split_and!; apply Hq; set_solver. Qed.

Lemma visible_hex b : forallb (in_range 32 126) (hex_encode b) = true.
Proof.
  assert (∀ x, forallb (in_range 32 126) (hex_of_byte (b2z x)) = true) as Hx by (intros []; reflexivity).
  rewrite hex_encode_spec. unfold hex_of_bytes. induction b as [|x b IH]; [done|]. rewrite bind_cons, forallb_app, Hx. exact IH.
Qed.

Lemma visible_dec n : 0 ≤ n → forallb (in_range 32 126) (dec n) = true.
Proof.
  intros Hn. apply forallb_forall. intros b Hb. pose proof (proj1 (forallb_forall _ _) (dec_digits n Hn) b Hb) as Hd.
  unfold in_range in *. lia.
Qed.

Lemma md5_etag_ok content : header_value_ok (md5_etag content) = true ∧ utf8_valid (md5_etag content) = true.
Proof.
  assert (forallb (in_range 32 126) (md5_etag content) = true) as Hv.
  { unfold md5_etag. change (QUOTE :: ?l) with ([QUOTE] ++ l). by rewrite !forallb_app, visible_hex. }
  split; [by apply header_visible|]. apply utf8_valid_ascii. revert Hv. rewrite !forallb_forall. intros Hv b Hb%Hv.
  revert Hb. unfold is_ascii, in_range. lia.
Qed.

Lemma checked_run c k s : s3_auth_check c s = (s, Ok None) → checked_first c k s = k s.
Proof. intros E. unfold checked_first. by rewrite (bind_run _ _ _ _ _ E). Qed.

Lemma task_ok {A} (m : M store A) s s' a : m s = (s', Ok a) → task m s = (s', Ok (Some (Ok a))).
Proof. intros E. unfold task. by rewrite E. Qed.

Lemma meta_text_run kappa key s : meta_text kappa key s = Ok (b ← meta s !! meta_key kappa key; from_utf8 b).
Proof. unfold meta_text, blob_get_meta. by destruct (meta s !! meta_key kappa key). Qed.

Lemma from_utf8_value (m : option rstr) v : (∀ w, m = Some w → header_value_ok w = true) → (b ← m; from_utf8 b) = Some v →
  header_value_ok v = true.
Proof. destruct m as [w|]; [|done]. cbn. unfold from_utf8. destruct (utf8_valid w); [|done]. intros Hm [= <-]. by apply Hm. Qed.

(** What the task of a GET reads. *)
Lemma get_task_run ns key content etag created ct sse version_id s : object_at ns key content etag created ct sse s →
  utf8_valid etag = true → utf8_valid created = true →
  ∃ body, kappa_text Sha256 body = kappa_text Sha256 content ∧
    get_object_task ns key version_id s =
      Ok (mkHead (kappa_text Sha256 content) (rs "null") (b ← ct; from_utf8 b) (Some etag) (Some created), body, (b ← sse; from_utf8 b)).
Proof.
  intros [_ (a & body & Ek & Hb & Hk) (v & Ht) Etag Ecr Ect Esse] He Hc. exists body.
  assert (a = Sha256) as -> by (by apply label_text_inj in Ek as [-> _]). split; [done|].
  unfold get_object_task, object_kappa, version_get, default_versions, not_implemented, tag_get. rewrite Ht. osimpl. cbn [te_kappa].
  rewrite Hb. osimpl. unfold object_head. rewrite !meta_text_run. osimpl. rewrite Etag, Ecr, Ect, Esse. osimpl.
  cbn [option_bind]. unfold from_utf8 at 2 3. by rewrite He, Hc.
Qed.

(** Reading an object back. *)
Lemma get_object_run c ns key content etag now ct sse s : get_allowed c ns key s →
  object_at ns key content etag (dec now) ct sse s → 0 ≤ now ≤ u64_max →
  header_value_ok etag = true ∧ utf8_valid etag = true →
  (∀ v, ct = Some v → header_value_ok v = true) → (∀ v, sse = Some v → header_value_ok v = true) →
  (∀ d, epoch_ms_to_http_date (E := HttpError) now = Ok d → header_value_ok d = true) →
  ∃ r, s3_get_object c s = (s, Ok r) ∧ r_status r = 200 ∧
    kappa_text Sha256 (body_of r) = kappa_text Sha256 content ∧
    header_of (rs "etag") r = Some etag ∧ header_of (rs "content-length") r = Some (dec (zlen (body_of r))) ∧
    (∀ v, ct = Some v → utf8_valid v = true → header_of (rs "content-type") r = Some v).
Proof.
  intros Hg Ho Hnow [He1 He2] Hct Hsse Hdate. unfold s3_get_object. rewrite (checked_run _ _ _ (gl_check _ _ _ _ Hg)).
  rewrite (bind_run _ _ s s ns) by (unfold s3_bucket_read; by rewrite (gl_ns _ _ _ _ Hg)). rewrite (gl_key _ _ _ _ Hg). cbv zeta.
  destruct (get_allowed_plain Hg) as (-> & -> & ->). rewrite !decide_False by (by intros [? ?]).
  edestruct (get_task_run ns key content etag (dec now)) as (body & Hk & E); [exact Ho|done|apply dec_no_nul; lia|].
  rewrite (bind_run _ _ _ _ _ (task_ok _ _ _ _ (f_equal (pair s) E))). cbn [oh_created oh_version oh_content_type oh_etag].
  destruct (format_or_epoch_ok (E := HttpError) (rs "%a, %d %b %Y %H:%M:%S GMT") (as_i64 (now / 1000)) 0) as [d Hd].
  rewrite (bind_run _ _ s s [(rs "last-modified", d)]).
  2:{ unfold last_modified. cbn [mbind option_bind]. rewrite parse_u64_dec by done.
      rewrite (bind_run _ _ s s d); [done|]. unfold of_outcome, epoch_ms_to_http_date. by rewrite Hd. }
  unfold with_headers, entity_headers, version_header. rewrite decide_True by done. cbn [app forallb snd oh_content_type oh_etag oh_kappa].
  change (default (QUOTE :: kappa_text Sha256 content ++ [QUOTE]) (Some etag)) with etag.
  rewrite He1, (Hdate _ Hd), (header_visible (dec _)) by (apply visible_dec; lia).
  change (λ b : rstr, from_utf8 b) with from_utf8.
  assert (header_value_ok (default (rs "application/octet-stream") (ct ≫= from_utf8)) = true) as ->.
  { destruct (ct ≫= from_utf8) as [v|] eqn:Ev; [by apply (from_utf8_value ct v)|]. by apply header_visible. }
  assert (forallb (λ h : rstr * rstr, header_value_ok h.2) (opt_header (rs "x-amz-server-side-encryption") (sse ≫= from_utf8)) = true) as ->.
  { destruct (sse ≫= from_utf8) as [v|] eqn:Ev; [|done]. cbn. by rewrite (from_utf8_value sse v). }
  cbn [andb]. eexists. split; [done|]. unfold body_of. cbn [r_body concat]. rewrite app_nil_r.
  split_and!; [done|done|done|done|]. intros v -> Hv. cbn. unfold from_utf8. by rewrite Hv.
Qed.

(** The metadata a PUT leaves: the request's value, or what was there. *)
Definition header_or_old (c : S3Cx) (header name : rstr) (content : bytes) (s : store) : option rstr :=
  match s3_header c header with Some v => Some v | None => meta s !! meta_key (kappa_text Sha256 content) name end.

Definition LIMIT : Z := 256 * 1024 * 1024.

Lemma put_object_run c ns body s : let content := body_or_empty LIMIT body in
  put_allowed c ns content s → fs_ok (fs s) → room 1 0 s → meta_names →
  ∃ s' r, s3_put_object c body s = (s', Ok r) ∧ r_status r = 200 ∧ header_of (rs "etag") r = Some (md5_etag content) ∧
    object_at ns (s3_param c (rs "key")) content (md5_etag content) (dec (cx_now_ms (s3_cx c)))
      (header_or_old c (rs "content-type") (rs "content-type") content s)
      (header_or_old c (rs "x-amz-server-side-encryption") (rs "_s3_sse") content s) s' ∧
    (∀ c k, stored_under s c k → stored_under s' c k) ∧
    (∀ k, k ≠ tag_key ns (s3_param c (rs "key")) → tags s' !! k = tags s !! k).
Proof.
  intros content Hp Hs Hroom Hn. unfold s3_put_object. rewrite (checked_run _ _ _ (pl_check _ _ _ _ Hp)).
  rewrite (bind_run _ _ s s ns) by (unfold s3_bucket_write; by rewrite (pl_ns _ _ _ _ Hp)).
  rewrite (pl_ssec _ _ _ _ Hp). cbv zeta.
  rewrite (bind_run _ _ _ _ _ (task_ok _ _ _ _ (f_equal (pair s) (pl_exists _ _ _ _ Hp)))).
  rewrite bool_decide_eq_true_2 by done. cbn [negb]. fold LIMIT. fold content.
  rewrite (pl_md5 _ _ _ _ Hp), (pl_sha256 _ _ _ _ Hp).
  destruct (put_object_task_run (cx_now_ms (s3_cx c)) ns (s3_param c (rs "key")) content (s3_header c (rs "content-type"))
    (s3_header c (rs "x-amz-server-side-encryption")) s Hs Hroom Hn) as (s' & E & Ho & Hk & Ht).
  rewrite (bind_run _ _ _ _ _ (task_ok _ _ _ _ E)).
  unfold with_headers, version_header. rewrite decide_True by done. cbn [app forallb snd].
  rewrite (proj1 (md5_etag_ok content)).
  assert (forallb (λ h : rstr * rstr, header_value_ok h.2)
    (opt_header (rs "x-amz-server-side-encryption") (s3_header c (rs "x-amz-server-side-encryption"))) = true) as ->.
  { destruct (s3_header c (rs "x-amz-server-side-encryption")) as [v|] eqn:Ev; [|done]. cbn.
    by rewrite (proj1 (pl_values _ _ _ _ Hp (rs "x-amz-server-side-encryption") v ltac:(set_solver) Ev)). }
  cbn [andb]. eexists s', _. split; [done|]. done.
Qed.

Lemma put_values_ok c ns content s name header : put_allowed c ns content s →
  (header, name) ∈ [(rs "content-type", rs "content-type"); (rs "x-amz-server-side-encryption", rs "_s3_sse")] →
  ∀ v, header_or_old c header name content s = Some v → header_value_ok v = true.
Proof.
  intros Hp Hin v. unfold header_or_old.
  assert (header ∈ [rs "content-type"; rs "x-amz-server-side-encryption"] ∧ name ∈ [rs "content-type"; rs "_s3_sse"]) as [H1' H2'] by set_solver.
  destruct (s3_header c header) as [w|] eqn:Ew.
  - intros [= <-]. by apply (pl_values _ _ _ _ Hp header).
  - by apply (pl_old _ _ _ _ Hp name).
Qed.


(** A body that is too large, or that fails on the way, is not refused: the
    request is answered with 200 and the key is bound to the empty object. *)
Theorem oversized_put_stores_empty c ns body s
  (Hbody : to_bytes LIMIT body = None) (Hput : put_allowed c ns [] s)
  (Hfs : fs_ok (fs s)) (Hroom : room 1 0 s) (Hnames : meta_names) :
  ∃ s' r, s3_put_object c body s = (s', Ok r) ∧ r_status r = 200 ∧
    te_kappa <$> tags s' !! tag_key ns (s3_param c (rs "key")) = Some (kappa_text Sha256 []).
Proof.
  assert (body_or_empty LIMIT body = []) as Eb by (unfold body_or_empty; by rewrite Hbody).
  pose proof (put_object_run c ns body s) as Hrun. rewrite Eb in Hrun. cbv zeta in Hrun.
  destruct (Hrun Hput Hfs Hroom Hnames) as (s' & r & E & Hst & _ & Ho & _). exists s', r. split_and!; [done..|].
  destruct (oa_tag _ _ _ _ _ _ _ _ Ho) as (v & ->). done.
Qed.

(** A deleted object is gone: the DELETE answers 204, a GET or a HEAD of the
    key then answers 404, and every other key is what it was. *)
Theorem s3_delete_get c ns s (Hns : cx_namespace (s3_cx c) = RExists ns)
  (Hmark : str_contains (rs "delete marker:") (ns_display ns ++ rs "/" ++ s3_param c (rs "key")) = false) :
  ∃ s' r, s3_delete_object c s = (s', Ok r) ∧ r_status r = 204 ∧
    (∀ k, k ≠ tag_key ns (s3_param c (rs "key")) → tags s' !! k = tags s !! k) ∧
    ∀ c', get_allowed c' ns (s3_param c (rs "key")) s' →
      (∃ r', s3_get_object c' s' = (s', Ok r') ∧ r_status r' = 404) ∧
      (∃ r', s3_head_object c' s' = (s', Ok r') ∧ r_status r' = 404).
Proof.
  unfold s3_delete_object. rewrite (bind_run _ _ s s ns) by (unfold s3_bucket_write; by rewrite Hns). cbv zeta.
  set (key := s3_param c (rs "key")) in *. set (s' := set_tags (delete (tag_key ns key)) s).
  assert (∀ vid, delete_object_task ns key vid s = (s', Ok (mkDeleteResult (rs "null") false))) as Hd by done.
  rewrite (bind_run _ _ _ _ _ (task_ok _ _ _ _ (Hd _))). unfold with_headers, version_header. cbn [dr_is_delete_marker dr_version_id app].
  rewrite decide_True by done. cbn [forallb]. eexists s', _. split; [done|]. split_and!; [done| |].
  { intros k Hk. cbn. apply (lookup_delete_ne (M := gmap (bytes * Z))). congruence. }
  intros c' Hg. assert (tag_get ns key s' = Err (SNotFound (ns_display ns ++ rs "/" ++ key))) as Ht.
  { unfold tag_get. cbn. by rewrite (lookup_delete_eq (M := gmap (bytes * Z))). }
  assert (∀ vid, object_kappa ns key vid s' = Err (SNotFound (ns_display ns ++ rs "/" ++ key))) as Hok.
  { intros vid. unfold object_kappa, version_get, default_versions, not_implemented. by rewrite Ht. }
  assert (∀ c', s3_bucket_read c' s' = match cx_namespace (s3_cx c') with RExists ns => (s', Ok ns) | _ => (s', Err NotFoundError) end)
    as Hread by (intros c0; unfold s3_bucket_read; by destruct (cx_namespace (s3_cx c0))).
  split.
  - unfold s3_get_object. rewrite (checked_run _ _ _ (gl_check _ _ _ _ Hg)).
    rewrite (bind_run _ _ s' s' ns) by (by rewrite Hread, (gl_ns _ _ _ _ Hg)). rewrite (gl_key _ _ _ _ Hg). cbv zeta.
    destruct (get_allowed_plain Hg) as (-> & -> & ->). rewrite !decide_False by (by intros [? ?]).
    unfold get_object_task, asks, task, mbind, Handler_bind. rewrite Hok. osimpl. cbn [mbind outcome_bind].
    unfold no_such_key. rewrite Hmark. unfold with_headers, xml_ct. cbn [app forallb snd]. rewrite header_visible by done. by eexists.
  - unfold s3_head_object. rewrite (checked_run _ _ _ (gl_check _ _ _ _ Hg)).
    rewrite (bind_run _ _ s' s' ns) by (by rewrite Hread, (gl_ns _ _ _ _ Hg)). rewrite (gl_key _ _ _ _ Hg). cbv zeta.
    unfold head_object_task, asks, task, mbind, Handler_bind. rewrite Hok. cbn [mbind outcome_bind]. rewrite Hmark. by eexists.
Qed.
End facts.

(** * A small bucket *)

Section sample.
#[local] Existing Instances sample_mac sample_xml sample_base64 default_versions.

(** Times as their seconds. *)
#[local] Instance sample_calendar : ChronoCrate := {|
  chrono_parse _ text := match parse_u64 text with Some n => inl n | None => inr (rs "not a number") end;
  chrono_format _ secs _ := Some (dec secs);
|}.
#[local] Instance sample_calendar_laws : ChronoLaws.
Proof.
  split; [by eexists|]. intros secs Hs. exists (dec secs). split; [done|]. cbn [chrono_parse sample_calendar].
  rewrite parse_u64_dec; [done|]. unfold last_second, u64_max in *. lia.
Qed.

Definition sample_created : store * outcome StoreError NamespaceRef :=
  namespace_create 0 0 (replicate 8 x07) (rs "photos") (rs "_s3") (Some (rs "s3")) empty_store.
Definition sample_s3_ns : NamespaceRef := match sample_created.2 with Ok ns => ns | _ => sample_bucket end.

(** A request for an object of the bucket. *)
Definition sample_s3_cx (method : string) (key : string) (query : option rstr) (headers : list (rstr * rstr)) : S3Cx :=
  mkS3Cx (mkRequest (rs method) (rs "/photos/" ++ rs key) query (NsLayer.sample_headers headers))
    (mkCx (rs method) [(rs "bucket", rs "photos"); (rs "key", rs key)] query (λ name, assoc name headers)
       (RExists sample_s3_ns) None None (Some 1000) None (λ _, 0) 86400000 0 [] (rs "u"))
    None None.

(** A PUT with a content type, without digests to check. *)
Definition sample_put (key ct : string) : S3Cx := sample_s3_cx "PUT" key None [(rs "content-type", rs ct)].
Definition sample_get (key : string) : S3Cx := sample_s3_cx "GET" key None [].

Lemma sample_put_allowed key content : put_allowed (sample_put key "image/png") sample_s3_ns content sample_created.1.
Proof.
  split; try (vm_compute; reflexivity).
  - vm_compute. split; discriminate.
  - intros name v. rewrite !elem_of_cons. intros [->|[->|Hn]] Hv; [| |by apply elem_of_nil in Hn].
    + vm_compute in Hv. injection Hv as <-. vm_compute. split; reflexivity.
    + vm_compute in Hv. discriminate Hv.
  - intros name v _ Hv. assert (meta sample_created.1 = ∅) as Em by (vm_compute; reflexivity). rewrite Em, lookup_empty in Hv. discriminate Hv.
  - intros d Hd. vm_compute in Hd. injection Hd as <-. vm_compute. reflexivity.
Qed.

Lemma sample_created_ok : fs_ok (fs sample_created.1) ∧ room 1 0 sample_created.1 ∧ meta_names.
Proof.
  split_and!; [|split|].
  - intros p x Hp. assert (fs sample_created.1 = ∅) as Ef by (vm_compute; reflexivity). rewrite Ef, lookup_empty in Hp. discriminate Hp.
  - assert (tags sample_created.1 = ∅) as -> by (vm_compute; reflexivity). intros k e. rewrite lookup_empty. discriminate.
  - vm_compute. split; discriminate.
  - assert (sequences sample_created.1 = ∅) as -> by (vm_compute; reflexivity). intros k e. rewrite lookup_empty. discriminate.
  - apply (bool_decide_unpack _). vm_compute. exact I.
Qed.


Lemma oversized_put_stores_empty_witness :
  ∃ s' r, s3_put_object (sample_put "cat" "image/png") [Some (rs "me"); None] sample_created.1 = (s', Ok r) ∧ r_status r = 200.
Proof.
  destruct sample_created_ok as (Hfs & Hroom & Hn).
  destruct (oversized_put_stores_empty (sample_put "cat" "image/png") sample_s3_ns [Some (rs "me"); None] sample_created.1
    eq_refl (sample_put_allowed _ _) Hfs Hroom Hn) as (s' & r & E & Hr & _). exists s', r. split; [exact E|exact Hr].
Defined.

Lemma s3_delete_get_witness :
  ∃ s' r, s3_delete_object (sample_s3_cx "DELETE" "cat" None []) sample_created.1 = (s', Ok r) ∧ r_status r = 204.
Proof.
  destruct (s3_delete_get (sample_s3_cx "DELETE" "cat" None []) sample_s3_ns sample_created.1) as (s' & r & E & Hr & _);
    [reflexivity|vm_compute; reflexivity|]. exists s', r. split; [exact E|exact Hr].
Defined.

(** The headers of a GET after PUTs. *)
Definition get_after (puts : list (S3Cx * bytes)) (c : S3Cx) (name : string) : option rstr :=
  match s3_get_object c (foldl (λ s '(c, content), (s3_put_object c [Some content] s).1) sample_created.1 puts) with
  | (_, Ok r) => header_of (rs name) r
  | _ => None
  end.

(** The metadata belongs to the content and not to the key: putting the same
    bytes under another key with another content type changes the type the first
    key is served with. *)
Theorem objects_share_metadata :
  get_after [(sample_put "cat" "image/png", rs "meow")] (sample_get "cat") "content-type" = Some (rs "image/png") ∧
  get_after [(sample_put "cat" "image/png", rs "meow"); (sample_put "dog" "text/html", rs "meow")] (sample_get "cat") "content-type"
    = Some (rs "text/html").
Proof. vm_compute. split; reflexivity. Qed.
End sample.
