(* ===== verification/S3Multipart.v ===== *)
(** S3Multipart: multipart uploads of the S3 interface in
    [kappa-server/src/main.rs], over the upload sessions of the in-memory store. *)

From S2P Require Import Prelude Label Compute Types Merkle Epoch Identity Store MemStore MemTags MemNamespace MemUpload Frame Http Text DateTime.
From S2P Require Import OciBlob OciManifest OciUpload SigV4 S3Xml NsLayer SigLayer S3List S3Policy S3Objects.

(** [s.parse::<u32>()]. *)
Definition parse_u32 (s : rstr) : option Z := n ← parse_u64 s; if u32_max <? n then None else Some n.

(** The parts a client lists, by number; ties stay in the order of the body. *)
Definition client_parts (body : rstr) : list (Z * rstr) :=
  sort_by (λ a b, a.1 <=? b.1)
    (omap (λ block, pn ← between (rs "<PartNumber>") (rs "</PartNumber>") block;
                    pn ← parse_u32 pn;
                    etag ← between (rs "<ETag>") (rs "</ETag>") block;
                    Some (pn, etag))
       (all_blocks (rs "<Part>") (rs "</Part>") body)).

(** The numbers must increase: the first two that do not. *)
Fixpoint order_error (parts : list (Z * rstr)) : option rstr :=
  match parts with
  | (p, _) :: ((q, _) :: _) as parts' =>
      if q <=? p then
        Some (rs "InvalidPartOrder: part " ++ dec q ++ rs " listed before or equal to part " ++ dec p)
      else match parts with _ :: rest => order_error rest | [] => None end
  | _ => None
  end.

Definition part_error (stored : list (Z * rstr * Z)) (part : Z * rstr) : option rstr :=
  let '(pn, client_etag) := part in
  match find (λ x, bool_decide (x.1.1 = pn)) stored with
  | None => Some (rs "InvalidPart: part " ++ dec pn ++ rs " was not uploaded")
  | Some (_, stored_etag, _) =>
      let ce := trim_matches QUOTE client_etag in
      let se := trim_matches QUOTE stored_etag in
      if decide (ce ≠ se) then
        Some (rs "InvalidPart: ETag mismatch for part " ++ dec pn ++ rs ": client=" ++ ce ++ rs ", stored=" ++ se)
      else None
  end.

(** What is wrong with a list of parts, if anything is. *)
Definition validate_parts (parts : list (Z * rstr)) (stored : list (Z * rstr * Z)) : option rstr :=
  if decide (stored = []) then Some (rs "NoSuchUpload")
  else match order_error parts with
       | Some e => Some e
       | None => head (omap (part_error stored) parts)
       end.

Section multipart.
Context `{HashCrates} `{TransferCrates} `{MemoryStoreConfig} `{XmlCrate}.

Definition s3_initiate_multipart (c : S3Cx) : Handler Response :=
  bucket_ns ← s3_bucket_write c;
  match cx_max_blob_size (s3_cx c) with
  | None => panic
  | Some max_size =>
      result ← task (upload_begin (cx_instant (s3_cx c) 0) (cx_upload_id (s3_cx c)) bucket_ns max_size);
      match result with
      | Some (Ok upload_id) =>
          mret (xml_ok (encode_initiate_multipart_xml (s3_param c (rs "bucket")) (s3_param c (rs "key")) upload_id))
      | _ => mret (xml_error 500 "InternalError" "initiate failed")
      end
  end.

(** The loop over the frames, from the [n]-th reading of the clock: the error
    that ends it.  A frame that fails ends it without one. *)
Fixpoint put_frames (c : S3Cx) (n : nat) (upload_id : rstr) (offset : Z) (body : Body) : Handler (option StoreError) :=
  match body with
  | [] => mret None
  | None :: _ => mret None
  | Some chunk :: body =>
      result ← task (upload_put_part (cx_instant (s3_cx c) n) upload_id offset chunk);
      match result with
      | Some (Ok new_total) => put_frames c (S n) upload_id new_total body
      | Some (Err e) => mret (Some e)
      | _ => mret (Some (SIo (rs "task panicked")))
      end
  end.

(** [query.get("uploadId").cloned().unwrap_or_default()]. *)
Definition upload_id_of (c : S3Cx) : rstr := default [] (parse_s3_query (s3_request c) !! rs "uploadId").

(** The part number is not read. *)
Definition s3_upload_part (c : S3Cx) (body : Body) : Handler Response :=
  let upload_id := upload_id_of c in
  received ← direct (upload_bytes_received (cx_instant (s3_cx c) 0) upload_id);
  error ← put_frames c 1 upload_id (default 0 received) body;
  match error with
  | Some e => mret (s3_error_response 500 (rs "InternalError") (store_error_str e))
  | None => mret (mkResponse 200 [(rs "etag", quotes "%part%")] [])
  end.

Definition complete_task (c : S3Cx) (bucket : NamespaceRef) (key upload_id : rstr) (ct : option rstr) : M store rstr :=
  ingest_result ← upload_complete (cx_instant (s3_cx c) 0) upload_id None;
  _ ← tag_set bucket key (ir_kappa ingest_result);
  _ ← drop_error (blob_put_meta (ir_kappa ingest_result) (rs "_s3_created_ms") (dec (cx_now_ms (s3_cx c))));
  let etag := default (QUOTE :: ir_kappa ingest_result ++ [QUOTE]) (ir_etag ingest_result) in
  _ ← drop_error (blob_put_meta (ir_kappa ingest_result) (rs "_s3_etag") etag);
  _ ← put_opt_meta (ir_kappa ingest_result) (rs "content-type") ct;
  mret etag.

Definition s3_complete_multipart (c : S3Cx) (body : Body) : Handler Response :=
  bucket_ns ← s3_bucket_write c;
  let key := s3_param c (rs "key") in
  let upload_id := upload_id_of c in
  let parts := client_parts (from_utf8_lossy (body_or_empty (10 * 1024 * 1024) body)) in
  refused ← (if decide (parts = []) then mret None else λ s, (s, Ok (validate_parts parts (upload_part_info upload_id s))));
  match refused with
  | Some msg =>
      let code := if starts_with (rs "InvalidPartOrder") msg then rs "InvalidPartOrder" else rs "InvalidPart" in
      mret (s3_error_response 400 code msg)
  | None =>
      result ← task (complete_task c bucket_ns key upload_id (s3_header c (rs "content-type")));
      match result with
      | Some (Ok etag) => mret (xml_ok (encode_complete_multipart_xml (s3_param c (rs "bucket")) key etag))
      | _ => mret (xml_error 500 "InternalError" "complete failed")
      end
  end.

Definition s3_abort_multipart (c : S3Cx) : Handler Response :=
  _ ← task (upload_abort (upload_id_of c));
  mret no_content.
End multipart.

(** * A session is the concatenation of what arrives *)

Section session.
Context `{HashCratesLaws} `{TransferCrates} `{MemoryStoreConfig} `{XmlCrate}.

Lemma put_frames_run c n id t0 max nsd parts frames s : receiving id t0 max nsd parts s → in_time t0 (s3_cx c) →
  zlen parts + zlen frames ≤ u32_max → (0 < max → zlen (concat (parts ++ frames)) ≤ max) →
  ∃ g, put_frames c n id (zlen (concat parts)) (Some <$> frames) s = (set_uploads g s, Ok None) ∧
    receiving id t0 max nsd (parts ++ frames) (set_uploads g s).
Proof.
  revert n parts s. induction frames as [|data frames IH]; intros n parts s Hr Ht Hn Hfit; cbn [fmap list_fmap put_frames].
  { exists (λ m, m). rewrite app_nil_r. by destruct s. }
  cbn [length] in Hn.
  destruct (put_part_run id t0 max nsd parts s (cx_instant (s3_cx c) n) data Hr (Ht n)) as (session & E & Hr1); [lia| |].
  { intros Hm. specialize (Hfit Hm). rewrite concat_app in Hfit. cbn [concat] in Hfit. rewrite !length_app in Hfit. lia. }
  rewrite (bind_run _ _ _ _ _ (task_ok _ _ _ _ E)).
  destruct (IH (S n) (parts ++ [data]) _ Hr1 Ht) as (g & E2 & Hr2).
  { rewrite length_app. cbn [length]. lia. }
  { by rewrite <- app_assoc. }
  rewrite <- app_assoc in Hr2. exists (g ∘ <[id := session]>). by rewrite E2.
Qed.

(** A part adds its frames, whatever its number. *)
Lemma upload_part_run c id t0 max nsd parts frames s : upload_id_of c = id → receiving id t0 max nsd parts s → in_time t0 (s3_cx c) →
  zlen parts + zlen frames ≤ u32_max → (0 < max → zlen (concat (parts ++ frames)) ≤ max) →
  ∃ g r, s3_upload_part c (Some <$> frames) s = (set_uploads g s, Ok r) ∧ r_status r = 200 ∧
    receiving id t0 max nsd (parts ++ frames) (set_uploads g s).
Proof.
  intros Hid Hr Ht Hn Hfit. unfold s3_upload_part. rewrite Hid.
  rewrite (bind_run _ _ _ _ _ (received_run _ _ _ _ _ _ _ Hr (Ht 0%nat))). cbn [default from_option].
  destruct (put_frames_run c 1 id t0 max nsd parts frames s Hr Ht Hn Hfit) as (g & E & Hr').
  rewrite (bind_run _ _ _ _ _ E). by eexists _, _.
Qed.

(** The parts of a session, one request after another. *)
Fixpoint upload_parts (reqs : list (S3Cx * list bytes)) : Handler (list Response) :=
  match reqs with
  | [] => mret []
  | (c, frames) :: reqs => r ← s3_upload_part c (Some <$> frames); rest ← upload_parts reqs; mret (r :: rest)
  end.

Lemma upload_parts_run id t0 max nsd reqs parts s : receiving id t0 max nsd parts s →
  Forall (λ req, upload_id_of req.1 = id ∧ in_time t0 (s3_cx req.1)) reqs →
  zlen parts + zlen (concat reqs.*2) ≤ u32_max → (0 < max → zlen (concat (parts ++ concat reqs.*2)) ≤ max) →
  ∃ g rs, upload_parts reqs s = (set_uploads g s, Ok rs) ∧ Forall (λ r, r_status r = 200) rs ∧
    receiving id t0 max nsd (parts ++ concat reqs.*2) (set_uploads g s).
Proof.
  revert parts s. induction reqs as [|[c frames] reqs IH]; intros parts s Hr Ht Hn Hfit; cbn [upload_parts].
  { exists (λ m, m), []. rewrite app_nil_r. by destruct s. }
  apply Forall_cons_1 in Ht as [[Hid Ht] Hts]. cbn [fmap list_fmap snd fst concat] in *. rewrite length_app in Hn.
  destruct (upload_part_run c id t0 max nsd parts frames s Hid Hr Ht) as (g & r & E & Hst & Hr1); [lia| |].
  { intros Hm. specialize (Hfit Hm). rewrite app_assoc, concat_app, length_app in Hfit. lia. }
  rewrite (bind_run _ _ _ _ _ E). destruct (IH (parts ++ frames) _ Hr1 Hts) as (g2 & rs & E2 & Hst2 & Hr2).
  { rewrite length_app. lia. }
  { by rewrite <- app_assoc. }
  rewrite <- app_assoc in Hr2. rewrite (bind_run _ _ _ _ _ E2). exists (g2 ∘ g), (r :: rs). split; [done|]. split; [by constructor|done].
Qed.

(** Without a claim the content is addressed by its SHA-256. *)
Lemma complete_unclaimed id t0 max nsd parts s now : receiving id t0 max nsd parts s →
  expired now (mkUpload [] [] 0 t0 []) = false → fs_ok (fs s) →
  ∃ f r, upload_complete now id None s = (set_fs f (set_uploads (delete id) s), Ok r) ∧
    ir_kappa r = kappa_text Sha256 (concat parts) ∧ ir_etag r = None ∧ fs_ok (f (fs s)) ∧
    stored_under (set_fs f (set_uploads (delete id) s)) (concat parts) (kappa_text Sha256 (concat parts)).
Proof.
  intros [(ds & Hs & Hl)] Ht Hfs. unfold upload_complete. run. rewrite Hs. cbn [ok_or].
  rewrite (Ht : expired now (mkUpload nsd (concat parts) max t0 ds) = false). cbn [us_data]. rewrite stream_cursor.
  change (axis_parse (claimed_axis None)) with (Some Sha256). change (hash_refused Sha256 (concat parts)) with false.
  cbn [reject_label map_err proof_kappa proof_primary proof_single].
  destruct (ingest_verified_spec (St := store) Sha256 (concat parts) (set_uploads (delete id) s)) as (s2 & b & E & Hs2 & Hst & _);
    [exact Hfs|done|apply sha256_accepted|].
  pose proof (ingest_verified_frame _ _ _ _ _ E) as [f ->]. exists f. eexists. split; [exact E|].
  split_and!; [done|done|exact Hs2|apply Hst; by left].
Qed.

Definition kappa_etag (content : bytes) : rstr := QUOTE :: kappa_text Sha256 content ++ [QUOTE].

Lemma complete_task_run c ns key id t0 max nsd parts ct s : receiving id t0 max nsd parts s → in_time t0 (s3_cx c) →
  fs_ok (fs s) → room 1 0 s → meta_names → let content := concat parts in
  let old name := meta s !! meta_key (kappa_text Sha256 content) name in
  ∃ s', complete_task c ns key id ct s = (s', Ok (kappa_etag content)) ∧ uploads s' !! id = None ∧
    object_at ns key content (kappa_etag content) (dec (cx_now_ms (s3_cx c)))
      (match ct with Some v => Some v | None => old (rs "content-type") end) (old (rs "_s3_sse")) s' ∧
    (∀ k, k ≠ tag_key ns key → tags s' !! k = tags s !! k).
Proof.
  intros Hr Ht Hfs Hroom Hn content old. unfold complete_task. set (k := kappa_text Sha256 content) in *.
  destruct (complete_unclaimed _ _ _ _ _ _ _ Hr (Ht 0%nat) Hfs) as (f & r & E1 & Hk & He & Hok & Hst). fold content k in Hk, Hst.
  unfold mbind at 1, M_bind at 1. rewrite E1. rewrite Hk, He. set (s1 := set_fs f _) in *.
  destruct (tag_set_total 0 0 ns key k s1) as (s2 & v & E2 & _ & K2 & Ht2 & _ & Hf2); [by apply (room_same _ _ s)|].
  unfold mbind at 1, M_bind at 1. rewrite E2. unfold mbind at 1, M_bind at 1, drop_error at 1, blob_put_meta at 1.
  cbv zeta. change (default (QUOTE :: k ++ [QUOTE]) None) with (kappa_etag content).
  unfold mbind at 1, M_bind at 1, drop_error at 1, blob_put_meta at 1. unfold modify. set (s3 := set_meta _ (set_meta _ s2)).
  destruct (put_opt_meta_run k (rs "content-type") ct s3) as (s4 & E4 & Hf4 & Ht4 & _ & Hm4).
  unfold mbind, M_bind. rewrite E4. exists s4. split; [done|].
  assert (uploads s4 = uploads s3) as Hu4 by (unfold put_opt_meta in E4; destruct ct; injection E4 as <-; done).
  assert (meta s2 = meta s) as Em2 by exact (k_meta _ _ _ K2).
  assert (∀ i a w, OBJECT_META !! i = Some a → i ≠ 2%nat → meta s3 !! meta_key k a = w → meta s4 !! meta_key k a = w) as Hold.
  { intros i a w Hi Hi2 Hw. rewrite Hm4. destruct ct; [|done]. by rewrite lookup_insert_ne by (by apply (meta_names_ne 2 i)). }
  split_and!.
  - rewrite Hu4. change (uploads s2 !! id = None). rewrite (k_uploads _ _ _ K2). exact (lookup_delete_eq (uploads s) id).
  - split.
    + rewrite Hf4. change (fs_ok (fs s2)). by rewrite Hf2.
    + apply (blobs_kept_fs s1); [by rewrite Hf4|done|done].
    + exists v. by rewrite Ht4.
    + apply (Hold 1%nat); [done|done|apply lookup_insert_eq].
    + apply (Hold 0%nat); [done|done|]. cbn. rewrite lookup_insert_ne by (by apply (meta_names_ne 1 0)). apply lookup_insert_eq.
    + rewrite Hm4. destruct ct; [apply lookup_insert_eq|]. cbn.
      by rewrite !lookup_insert_ne, Em2 by first [by apply (meta_names_ne 1 2)|by apply (meta_names_ne 0 2)].
    + apply (Hold 3%nat); [done|done|]. cbn. by rewrite !lookup_insert_ne, Em2 by first [by apply (meta_names_ne 1 3)|by apply (meta_names_ne 0 3)].
  - intros k' Hne. rewrite Ht4. change (tags s2 !! k' = tags s !! k'). rewrite (k_tags _ _ _ K2) by set_solver. done.
Qed.
End session.

(** * Properties *)

Section promises.
Context `{HashCratesLaws} `{TransferCrates} `{MemoryStoreConfig} `{JsonCrates} `{XmlCrate} `{HeaderCrateLaws} `{MacCrates} `{ChronoLaws}.
Context `{Base64Crate}.
#[local] Existing Instance default_versions.

Lemma kappa_etag_ok content : header_value_ok (kappa_etag content) = true ∧ utf8_valid (kappa_etag content) = true.
Proof.
  assert (forallb (in_range 32 126) (kappa_etag content) = true) as Hv.
  { unfold kappa_etag, kappa_text, label_text, digest_hex. rewrite <- (hex_encode_spec (digest_of Sha256 content)).
    change (QUOTE :: ?l) with ([QUOTE] ++ l). rewrite !forallb_app. cbn [forallb]. by rewrite visible_hex. }
  split; [by apply header_visible|]. apply utf8_valid_ascii. revert Hv. rewrite !forallb_forall. intros Hv b Hb%Hv.
  revert Hb. unfold is_ascii, in_range. lia.
Qed.

(** A multipart upload completed without a list of parts makes an object of
    everything that was sent, in the order it arrived: every request of the session
    answers 200, the session is gone, and a GET of the key returns the concatenation
    of the frames, by its digest, with the type given at the completion. *)
Theorem s3_multipart_session c0 reqs cf ns max s
  (Hfs : fs_ok (fs s)) (Hroom : room 1 0 s) (Hnames : meta_names)
  (Hns0 : cx_namespace (s3_cx c0) = RExists ns) (Hmax : cx_max_blob_size (s3_cx c0) = Some max)
  (Hreqs : Forall (λ c, upload_id_of c = cx_upload_id (s3_cx c0) ∧ in_time (cx_instant (s3_cx c0) 0) (s3_cx c)) (cf :: reqs.*1))
  (Hn : zlen (concat reqs.*2) ≤ u32_max) (Hfit : 0 < max → zlen (concat (concat reqs.*2)) ≤ max)
  (Hnsf : cx_namespace (s3_cx cf) = RExists ns) (Hnow : 0 ≤ cx_now_ms (s3_cx cf) ≤ u64_max) :
  let content := concat (concat reqs.*2) in
  let key := s3_param cf (rs "key") in
  ∃ s1 r0 s2 resps s3 r,
    s3_initiate_multipart c0 s = (s1, Ok r0) ∧ r_status r0 = 200 ∧
    upload_parts reqs s1 = (s2, Ok resps) ∧ Forall (λ r, r_status r = 200) resps ∧
    s3_complete_multipart cf [] s2 = (s3, Ok r) ∧ r_status r = 200 ∧ uploads s3 !! cx_upload_id (s3_cx c0) = None ∧
    ∀ c, get_allowed c ns key s3 →
      (∀ v name, name ∈ [rs "content-type"; rs "_s3_sse"] → meta s3 !! meta_key (kappa_text Sha256 content) name = Some v →
         header_value_ok v = true) →
      (∀ d, epoch_ms_to_http_date (E := HttpError) (cx_now_ms (s3_cx cf)) = Ok d → header_value_ok d = true) →
      ∃ r', s3_get_object c s3 = (s3, Ok r') ∧ r_status r' = 200 ∧ kappa_text Sha256 (body_of r') = kappa_text Sha256 content ∧
        ∀ ct, s3_header cf (rs "content-type") = Some ct → utf8_valid ct = true → header_of (rs "content-type") r' = Some ct.
Proof.
  intros content key. apply Forall_cons_1 in Hreqs as [[Hidf Htf] Hreqs]. set (id := cx_upload_id (s3_cx c0)) in *.
  set (s1 := set_uploads (<[id := mkUpload (ns_display ns) [] max (cx_instant (s3_cx c0) 0) []]>) s).
  assert (∃ r0, s3_initiate_multipart c0 s = (s1, Ok r0) ∧ r_status r0 = 200) as (r0 & E1 & Hst1).
  { unfold s3_initiate_multipart. rewrite (bind_run _ _ s s ns) by (unfold s3_bucket_write; by rewrite Hns0). rewrite Hmax.
    rewrite (bind_run _ _ s s1 (Some (Ok id))) by done. by eexists. }
  assert (receiving id (cx_instant (s3_cx c0) 0) max (ns_display ns) [] s1) as Hr1.
  { split. exists []. split; [apply (lookup_insert_eq (M := gmap rstr))|done]. }
  destruct (upload_parts_run _ _ _ _ reqs _ _ Hr1) as (g & resps & E2 & Hst2 & Hr2); [by apply Forall_fmap in Hreqs|done|done|].
  cbn [app] in Hr2. set (s2 := set_uploads g s1) in *.
  destruct (complete_task_run cf ns key id _ _ _ _ (s3_header cf (rs "content-type")) s2 Hr2 Htf Hfs) as (s3 & E3 & Hg & Ho & _);
    [by apply (room_same _ _ s)|done|].
  assert (∃ r, s3_complete_multipart cf [] s2 = (s3, Ok r) ∧ r_status r = 200) as (r & E4 & Hst4).
  { unfold s3_complete_multipart. rewrite (bind_run _ _ s2 s2 ns) by (unfold s3_bucket_write; by rewrite Hnsf). cbv zeta.
    change (client_parts _) with (@nil (Z * rstr)). rewrite decide_True by done. rewrite (bind_run _ _ s2 s2 None) by done. rewrite Hidf.
    rewrite (bind_run _ _ _ _ _ (task_ok _ _ _ _ E3)). by eexists. }
  exists s1, r0, s2, resps, s3, r. split_and!; [done..|].
  intros c Hget Hvals Hdate. fold content in Ho.
  destruct (get_object_run _ _ _ _ _ _ _ _ _ Hget Ho Hnow (kappa_etag_ok content)) as (r' & E' & Hst' & Hk & _ & _ & Hct).
  - intros v Hv. apply (Hvals v (rs "content-type")); [set_solver|]. by rewrite (oa_ct _ _ _ _ _ _ _ _ Ho).
  - intros v Hv. apply (Hvals v (rs "_s3_sse")); [set_solver|]. by rewrite (oa_sse _ _ _ _ _ _ _ _ Ho).
  - exact Hdate.
  - exists r'. split_and!; [done..|]. intros ct Ec. rewrite Ec in Hct. by apply Hct.
Qed.

(** * Lists of parts *)

Lemma trim_start_sub c s b : b ∈ trim_char_start c s → b ∈ s.
Proof. induction s as [|x s IH]; cbn [trim_char_start]; [done|]. case_decide; [|done]. intros Hb. right. by apply IH. Qed.

Lemma trim_sub c s b : b ∈ trim_matches c s → b ∈ s.
Proof.
  unfold trim_matches. rewrite list_elem_of_In, <- in_rev, <- list_elem_of_In. intros Hb%trim_start_sub.
  rewrite list_elem_of_In, <- in_rev, <- list_elem_of_In in Hb. by apply trim_start_sub in Hb.
Qed.

Lemma head_omap_some {A B} (f : A → option B) l x : x ∈ l → is_Some (f x) → is_Some (head (omap f l)).
Proof.
  induction 1 as [x l|x y l _ IH]; cbn; intros Hx; [destruct Hx as [w ->]; by eexists|]. destruct (f y); [by eexists|by apply IH].
Qed.

(** The tag an upload of a part answers with is never one the store keeps. *)
Lemma returned_part_error id s pn : is_Some (part_error (upload_part_info id s) (pn, quotes "%part%")).
Proof.
  unfold part_error. destruct (find _ (upload_part_info id s)) as [[[p etag] size]|] eqn:Ef; [|by eexists].
  apply find_some in Ef as [Hin%list_elem_of_In _]. rewrite decide_True; [by eexists|]. intros E.
  unfold upload_part_info in Hin. destruct (uploads s !! id) as [session|]; [|by apply elem_of_nil in Hin].
  apply list_elem_of_fmap in Hin as ([[pn' md5] size'] & Heq & _). injection Heq as -> -> ->.
  assert (x70 ∈ MemUpload.QUOTE :: hex_encode md5 ++ [MemUpload.QUOTE]) as Hp.
  { apply (trim_sub QUOTE). rewrite <- E. vm_compute. by left. }
  assert (forallb is_lower_hex (hex_encode md5) = true) as Hh by (rewrite hex_encode_spec; apply hex_of_bytes_valid).
  rewrite elem_of_cons, elem_of_app, list_elem_of_singleton in Hp. destruct Hp as [[=]|[Hp|[=]]].
  rewrite forallb_forall in Hh. specialize (Hh _ (proj1 (list_elem_of_In _ _) Hp)). discriminate Hh.
Qed.

(** The tag that every upload of a part answers with is refused when the
    completion lists it, as clients do: the answer is 400 and nothing changes,
    whatever was uploaded. *)
Theorem returned_etag_refused c body ns pn s (Hns : cx_namespace (s3_cx c) = RExists ns)
  (Hlisted : (pn, quotes "%part%") ∈ client_parts (from_utf8_lossy (body_or_empty (10 * 1024 * 1024) body))) :
  ∃ r, s3_complete_multipart c body s = (s, Ok r) ∧ r_status r = 400.
Proof.
  unfold s3_complete_multipart. rewrite (bind_run _ _ s s ns) by (unfold s3_bucket_write; by rewrite Hns). cbv zeta.
  set (parts := client_parts _) in *. clearbody parts. rewrite decide_False by (intros ->; by apply elem_of_nil in Hlisted).
  assert (is_Some (validate_parts parts (upload_part_info (upload_id_of c) s))) as [msg E].
  { unfold validate_parts. case_decide; [by eexists|]. destruct (order_error parts); [by eexists|].
    eapply head_omap_some; [exact Hlisted|apply returned_part_error]. }
  rewrite (bind_run _ _ s s (Some msg)) by (by rewrite E). by eexists.
Qed.
End promises.

(** * A small session *)

Section sample.
#[local] Existing Instances sample_mac sample_xml sample_base64 default_versions sample_calendar sample_calendar_laws.

Definition sample_part (query : string) : S3Cx := sample_s3_cx "PUT" "cat" (Some (rs query)) [].

Lemma s3_multipart_session_witness :
  let c0 := sample_s3_cx "POST" "cat" (Some (rs "uploads")) [] in
  let reqs := [(sample_part "partNumber=1&uploadId=u", [rs "me"; rs "o"]); (sample_part "partNumber=2&uploadId=u", [rs "w"])] in
  ∃ s3 r, s3_complete_multipart (sample_part "uploadId=u") [] (upload_parts reqs (s3_initiate_multipart c0 sample_created.1).1).1 = (s3, Ok r)
    ∧ r_status r = 200.
Proof.
  intros c0 reqs. destruct sample_created_ok as (Hfs & Hroom & Hn).
  destruct (s3_multipart_session c0 reqs (sample_part "uploadId=u") sample_s3_ns 1000 sample_created.1 Hfs Hroom Hn)
    as (s1 & r0 & s2 & resps & s3 & r & E1 & _ & E2 & _ & E3 & Hst & _).
  - reflexivity.
  - reflexivity.
  - repeat constructor; try (intros i); vm_compute; reflexivity.
  - vm_compute. discriminate.
  - intros _. vm_compute. discriminate.
  - reflexivity.
  - vm_compute. split; discriminate.
  - exists s3, r. rewrite E1. cbn [fst]. rewrite E2. split; [exact E3|exact Hst].
Defined.

Lemma returned_etag_refused_witness :
  let body := rs "<CompleteMultipartUpload><Part><PartNumber>1</PartNumber><ETag>" ++ quotes "%part%" ++ rs "</ETag></Part></CompleteMultipartUpload>" in
  ∃ r, s3_complete_multipart (sample_part "uploadId=u") [Some body] sample_created.1 = (sample_created.1, Ok r) ∧ r_status r = 400.
Proof.
  intros body. apply (returned_etag_refused _ _ sample_s3_ns 1); [reflexivity|].
  assert (client_parts (from_utf8_lossy (body_or_empty (10 * 1024 * 1024) [Some body])) = [(1, quotes "%part%")]) as ->
    by (vm_compute; reflexivity). left.
Defined.

(** The number of a part is not read: the second part, uploaded first, comes
    first in the object. *)
Theorem part_number_ignored :
  let s := (s3_initiate_multipart (sample_s3_cx "POST" "cat" (Some (rs "uploads")) []) sample_created.1).1 in
  let s := (s3_upload_part (sample_part "partNumber=2&uploadId=u") [Some (rs "ow")] s).1 in
  let s := (s3_upload_part (sample_part "partNumber=1&uploadId=u") [Some (rs "me")] s).1 in
  let s := (s3_complete_multipart (sample_part "uploadId=u") [] s).1 in
  match (s3_get_object (sample_get "cat") s).2 with Ok r => body_of r = rs "owme" | _ => False end.
Proof. vm_compute. reflexivity. Qed.
End sample.
