(* ===== verification/S3Buckets.v ===== *)
(** S3Buckets: the bucket endpoints of the S3 interface, the handlers that choose
    among the others by the query, and the lifecycle task, all of
    [kappa-server/src/main.rs], over the in-memory store. *)

From S2P Require Import Prelude Label Compute Types Merkle Epoch Identity Store MemStore MemTags MemNamespace MemUpload Gc Frame Http Text DateTime.
From S2P Require Import OciBlob OciManifest OciUpload SigV4 S3Xml NsLayer SigLayer S3List S3Policy S3Objects S3Multipart.

Definition mul_u64 (x y : Z) : outcome StoreError Z := if u64_max <? x * y then Panic else Ok (x * y).
Definition sub_u64 (x y : Z) : outcome StoreError Z := if x <? y then Panic else Ok (x - y).

Section buckets.
Context `{HashCrates} `{TransferCrates} `{MemoryStoreConfig} `{JsonCrates} `{XmlCrate} `{HeaderCrate} `{MacCrates} `{ChronoCrate}.
Context `{Base64Crate} `{KappaVersions} `{HexDecode}.

(** * Buckets *)

Definition list_request (bucket : rstr) (query : gmap rstr rstr) : ListObjectsV2Request :=
  mkListRequest bucket (query !! rs "prefix") (query !! rs "delimiter")
    (default 1000 (v ← query !! rs "max-keys"; parse_u32 v))
    (query !! rs "continuation-token") (query !! rs "start-after") (query !! rs "encoding-type") false.

Definition s3_list_objects (c : S3Cx) : Handler Response :=
  checked_first c (
    bucket_ns ← s3_bucket_read c;
    let req := list_request (s3_param c (rs "bucket")) (parse_s3_query (s3_request c)) in
    result ← task (asks (list_objects_v2 bucket_ns req));
    match result with
    | Some (Ok resp) => mret (xml_ok (encode_list_objects_v2_xml resp))
    | _ => mret (xml_error 500 "InternalError" "list failed")
    end).

Definition no_such_bucket : Response := xml_error 404 "NoSuchBucket" "The specified bucket does not exist.".

Definition BUCKET_MARKER : rstr := rs "_bucket_marker".
Definition MARKER_KAPPA : rstr := rs "sha256:0000000000000000000000000000000000000000000000000000000000000000".

Definition s3_create_bucket (c : S3Cx) : Handler Response :=
  bucket_ns ← s3_bucket_write c;
  _ ← ignored (tag_set bucket_ns BUCKET_MARKER MARKER_KAPPA);
  mret (plain_status 200).

Definition s3_head_bucket (c : S3Cx) : Handler Response :=
  checked_first c (
    _ ← s3_bucket_read c;
    exists_ ← task (asks (namespace_exists (s3_param c (rs "bucket")) (Some (rs "s3"))));
    if bool_decide (exists_ = Some (Ok true)) then mret (plain_status 200) else mret no_such_bucket).

Definition delete_bucket_task (bucket : NamespaceRef) : M store () :=
  tags ← asks (tag_list bucket);
  if decide (filter (λ t, te_name t ≠ BUCKET_MARKER) tags = []) then drop_error (tag_delete bucket BUCKET_MARKER)
  else throw (SConflict (rs "BucketNotEmpty")).

Definition s3_delete_bucket (c : S3Cx) : Handler Response :=
  bucket_ns ← s3_bucket_write c;
  result ← task (delete_bucket_task bucket_ns);
  match result with
  | Some (Ok _) => mret no_content
  | Some (Err (SConflict _)) => mret (xml_error 409 "BucketNotEmpty" "The bucket you tried to delete is not empty.")
  | Some (Err (SNotFound _)) => mret no_such_bucket
  | _ => mret (xml_error 500 "InternalError" "delete bucket failed")
  end.

(** Every alias of every namespace of the protocol. *)
Definition list_buckets_xml (namespaces : list NamespaceRecord) : rstr :=
  quotes "<?xml version=%1.0% encoding=%UTF-8%?>"
  ++ quotes "<ListAllMyBucketsResult xmlns=%http://s3.amazonaws.com/doc/2006-03-01/%>" ++ rs "<Buckets>"
  ++ (namespaces ≫= λ rec, nr_aliases rec ≫= λ alias,
        rs "<Bucket><Name>" ++ alias ++ rs "</Name><CreationDate>2026-01-01T00:00:00.000Z</CreationDate></Bucket>")
  ++ rs "</Buckets></ListAllMyBucketsResult>".

Definition s3_list_buckets (c : S3Cx) : Handler Response :=
  checked_first c (
    result ← task (asks (namespace_list (Some (rs "s3"))));
    match result with
    | Some (Ok namespaces) => mret (xml_ok (list_buckets_xml namespaces))
    | _ => mret (plain_status 500)
    end).

(** The keys are taken as they stand, escapes included. *)
Definition keys_to_delete (body : rstr) : list rstr := all_blocks (rs "<Key>") (rs "</Key>") body.

Fixpoint delete_keys (bucket : NamespaceRef) (keys : list rstr) (deleted : list rstr) (errors : list (rstr * rstr * rstr))
  : M store (list rstr * list (rstr * rstr * rstr)) := λ s,
  match keys with
  | [] => (s, Ok (deleted, errors))
  | key :: keys =>
      match tag_delete bucket key s with
      | (s', Ok _) => delete_keys bucket keys (deleted ++ [key]) errors s'
      | (s', Err e) => delete_keys bucket keys deleted (errors ++ [(key, rs "InternalError", store_error_str e)]) s'
      | (s', Panic) => (s', Panic)
      end
  end.

Definition s3_delete_objects (c : S3Cx) (body : Body) : Handler Response :=
  checked_first c (
    bucket_ns ← s3_bucket_write c;
    let keys := keys_to_delete (from_utf8_lossy (body_or_empty (10 * 1024 * 1024) body)) in
    result ← task (delete_keys bucket_ns keys [] []);
    match result with
    | Some (Ok (deleted, errors)) => mret (xml_ok (encode_delete_result_xml deleted errors))
    | _ => mret (xml_error 500 "InternalError" "batch delete failed")
    end).

(** * Configuration *)

Definition versioning_status (body : rstr) : rstr :=
  if str_contains (rs "<Status>Enabled</Status>") body then rs "enabled"
  else if str_contains (rs "<Status>Suspended</Status>") body then rs "suspended"
  else rs "unversioned".

(** The status stands in the place of the tag's label. *)
Definition s3_put_versioning (c : S3Cx) (body : Body) : Handler Response :=
  bucket_ns ← s3_bucket_write c;
  let status_value := versioning_status (from_utf8_lossy (body_or_empty (64 * 1024) body)) in
  _ ← ignored (tag_set bucket_ns (rs "_config/versioning") status_value);
  mret (plain_status 200).

Definition versioning_xml (status_str : rstr) : rstr :=
  quotes "<?xml version=%1.0% encoding=%UTF-8%?><VersioningConfiguration xmlns=%http://s3.amazonaws.com/doc/2006-03-01/%>"
  ++ (if decide (status_str = rs "enabled") then rs "<Status>Enabled</Status>"
      else if decide (status_str = rs "suspended") then rs "<Status>Suspended</Status>" else [])
  ++ rs "</VersioningConfiguration>".

Definition s3_get_versioning (c : S3Cx) : Handler Response :=
  bucket_ns ← s3_bucket_read c;
  result ← task (asks (λ s, match tag_get bucket_ns (rs "_config/versioning") s with
                            | Ok entry => Ok (te_kappa entry)
                            | Err (SNotFound _) => Ok []
                            | Err e => Err e
                            | Panic => Panic
                            end));
  mret (xml_ok (versioning_xml (match result with Some (Ok s) => s | _ => [] end))).

Definition config_tag (config_key : string) : rstr := rs "_config/" ++ rs config_key.

Definition s3_put_bucket_config (c : S3Cx) (body : Body) (config_key : string) : Handler Response :=
  bucket_ns ← s3_bucket_write c;
  let body_bytes := body_or_empty (256 * 1024) body in
  _ ← ignored (let kappa := kappa_from_bytes body_bytes in
               _ ← drop_error (ingest_verified kappa body_bytes);
               tag_set bucket_ns (config_tag config_key) kappa);
  mret (plain_status 200).

Definition s3_get_bucket_config (c : S3Cx) (config_key : string) : Handler Response :=
  bucket_ns ← s3_bucket_read c;
  result ← task (asks (λ s, entry ← tag_get bucket_ns (config_tag config_key) s; blob_get (te_kappa entry) s));
  match result with
  | Some (Ok content) => mret (xml_ok content)
  | _ => mret (s3_error_response 404 (rs "NoSuchConfiguration") (rs config_key ++ rs " configuration not found"))
  end.

Definition s3_delete_bucket_config (c : S3Cx) (config_key : string) : Handler Response :=
  bucket_ns ← s3_bucket_write c;
  _ ← ignored (tag_delete bucket_ns (config_tag config_key));
  mret no_content.

(** * Choosing a handler *)

Definition s3_query_text (c : S3Cx) : rstr := default [] (rq_query (s3_request c)).

Definition s3_post_object (c : S3Cx) (body : Body) : Handler Response :=
  checked_first c (
    let query := s3_query_text c in
    if str_contains (rs "uploads") query then s3_initiate_multipart c
    else if str_contains (rs "uploadId") query then s3_complete_multipart c body
    else mret (plain_status 400)).

Definition s3_put_or_copy_or_part (c : S3Cx) (body : Body) : Handler Response :=
  checked_first c (
    let q := s3_query_text c in
    if str_contains (rs "tagging") q then s3_put_tagging c body
    else if has_header (rq_header (s3_request c)) (rs "x-amz-copy-source") then s3_copy_object c
    else if str_contains (rs "partNumber") q then s3_upload_part c body
    else s3_put_object c body).

Definition s3_delete_or_abort (c : S3Cx) : Handler Response :=
  checked_first c (
    let q := s3_query_text c in
    if str_contains (rs "tagging") q then s3_delete_tagging c
    else if str_contains (rs "uploadId") q then s3_abort_multipart c
    else s3_delete_object c).

(** The first of the names that the query has. *)
Fixpoint first_config (query : gmap rstr rstr) (names : list string) : option string :=
  match names with
  | [] => None
  | name :: names => if decide (is_Some (query !! rs name)) then Some name else first_config query names
  end.

Definition s3_put_bucket_dispatch (c : S3Cx) (body : Body) : Handler Response :=
  checked_first c (
    let query := parse_s3_query (s3_request c) in
    if decide (is_Some (query !! rs "versioning")) then s3_put_versioning c body
    else match first_config query ["lifecycle"; "cors"; "policy"; "acl"]%string with
         | Some config_key => s3_put_bucket_config c body config_key
         | None => s3_create_bucket c
         end).

Definition s3_get_bucket_dispatch (c : S3Cx) : Handler Response :=
  checked_first c (
    let query := parse_s3_query (s3_request c) in
    if decide (is_Some (query !! rs "versioning")) then s3_get_versioning c
    else match first_config query ["lifecycle"; "cors"; "policy"; "acl"]%string with
         | Some config_key => s3_get_bucket_config c config_key
         | None => s3_list_objects c
         end).

Definition s3_delete_bucket_dispatch (c : S3Cx) : Handler Response :=
  checked_first c (
    let query := parse_s3_query (s3_request c) in
    match first_config query ["lifecycle"; "cors"; "policy"]%string with
    | Some config_key => s3_delete_bucket_config c config_key
    | None => s3_delete_bucket c
    end).

(** The handler a method is routed to, for an object and for a bucket. *)
Definition s3_object_route (c : S3Cx) (body : Body) : option (Handler Response) :=
  let method := rq_method (s3_request c) in
  if decide (method = rs "PUT") then Some (s3_put_or_copy_or_part c body)
  else if decide (method = rs "GET") then Some (s3_get_object c)
  else if decide (method = rs "HEAD") then Some (s3_head_object c)
  else if decide (method = rs "DELETE") then Some (s3_delete_or_abort c)
  else if decide (method = rs "POST") then Some (s3_post_object c body)
  else None.

Definition s3_bucket_route (c : S3Cx) (body : Body) : option (Handler Response) :=
  let method := rq_method (s3_request c) in
  if decide (method = rs "GET") then Some (s3_get_bucket_dispatch c)
  else if decide (method = rs "PUT") then Some (s3_put_bucket_dispatch c body)
  else if decide (method = rs "HEAD") then Some (s3_head_bucket c)
  else if decide (method = rs "DELETE") then Some (s3_delete_bucket_dispatch c)
  else if decide (method = rs "POST") then Some (s3_delete_objects c body)
  else None.

(** * Lifecycle *)

(** [days * 86400 * 1000]. *)
Definition days_ms (days : Z) : outcome StoreError Z := secs ← mul_u64 days 86400; mul_u64 secs 1000.

Definition tag_created (tag : TagEntry) (s : store) : outcome StoreError Z :=
  created ← meta_text (te_kappa tag) (rs "_s3_created_ms") s;
  Ok (default 0 (ms_str ← created; parse_u64 ms_str)).

(** One object; the age the log line computes is taken before the deletion. *)
Definition expire_tag (now_ms threshold_ms : Z) (ns : NamespaceRef) (tag : TagEntry) : M store () :=
  if starts_with (rs "_") (te_name tag) then mret ()
  else
    created_ms ← asks (tag_created tag);
    if (0 <? created_ms) && (threshold_ms <=? (now_ms - created_ms) `max` 0) then
      _ ← lift (sub_u64 now_ms created_ms);
      drop_error (tag_delete ns (te_name tag))
    else if threshold_ms =? 0 then drop_error (tag_delete ns (te_name tag))
    else mret ().

Fixpoint expire_tags (now_ms threshold_ms : Z) (ns : NamespaceRef) (tags : list TagEntry) : M store () :=
  match tags with
  | [] => mret ()
  | tag :: tags => _ ← expire_tag now_ms threshold_ms ns tag; expire_tags now_ms threshold_ms ns tags
  end.

(** The number between two marks of the configuration. *)
Definition config_days (open close config : rstr) : option Z := t ← between open close config; parse_u64 t.

Definition lifecycle_expire (now_ms : Z) (ns : NamespaceRef) (config : rstr) : M store () :=
  match config_days (rs "<Days>") (rs "</Days>") config with
  | Some days =>
      threshold_ms ← lift (days_ms days);
      tags ← asks (tag_list ns);
      expire_tags now_ms threshold_ms ns tags
  | None => mret ()
  end.

Definition lifecycle_abort (now : Z) (config : rstr) : M store () :=
  if str_contains (rs "<AbortIncompleteMultipartUpload>") config then
    match config_days (rs "<DaysAfterInitiation>") (rs "</DaysAfterInitiation>") config with
    | Some days => timeout ← lift (mul_u64 days 86400); _ ← upload_evict_expired now timeout; mret ()
    | None => mret ()
    end
  else mret ().

(** The namespace of a record, if its identifier can be read. *)
Definition record_ns (rec : NamespaceRecord) : option NamespaceRef :=
  let uuid_bytes := default [] (hex_decode (nr_uuid_hex rec)) in
  if decide (length uuid_bytes = 16%nat) then Some (with_name uuid_bytes (default (nr_uuid_hex rec) (head (nr_aliases rec))))
  else None.

Definition lifecycle_config (ns : NamespaceRef) (s : store) : outcome StoreError (option bytes) :=
  entry ← ok_val (tag_get ns (rs "_config/lifecycle") s);
  match entry with
  | Some entry => ok_val (blob_get (te_kappa entry) s)
  | None => Ok None
  end.

Definition lifecycle_record (now_ms now : Z) (rec : NamespaceRecord) : M store () :=
  match record_ns rec with
  | None => mret ()
  | Some ns =>
      config ← asks (lifecycle_config ns);
      match config with
      | None => mret ()
      | Some config_bytes =>
          let config_str := from_utf8_lossy config_bytes in
          _ ← lifecycle_expire now_ms ns config_str;
          lifecycle_abort now config_str
      end
  end.

(** The [n]-th namespace reads the clocks at [now_ms n] and [now n]. *)
Fixpoint lifecycle_records (now_ms now : nat → Z) (n : nat) (records : list NamespaceRecord) : M store () :=
  match records with
  | [] => mret ()
  | rec :: records => _ ← lifecycle_record (now_ms n) (now n) rec; lifecycle_records now_ms now (S n) records
  end.

Definition lifecycle_pass (now_ms now : nat → Z) : M store () :=
  namespaces ← asks (namespace_list None);
  lifecycle_records now_ms now 0 namespaces.
End buckets.

(** * Expiry *)

Section expiry.
Context `{HashCratesLaws} `{TransferCrates} `{MemoryStoreConfig} `{XmlCrate} `{HeaderCrate} `{ChronoCrate}.

(** When the object was stored, 0 if that is not known. *)
Definition created_of (s : store) (tag : TagEntry) : Z :=
  default 0 (ms_str ← (b ← meta s !! meta_key (te_kappa tag) (rs "_s3_created_ms"); from_utf8 b); parse_u64 ms_str).

Lemma tag_created_run tag s : tag_created tag s = Ok (created_of s tag).
Proof. unfold tag_created. by rewrite meta_text_run. Qed.

(** What the task is meant to delete: objects older than the threshold, and with a
    threshold of zero all. *)
Definition expires (now threshold : Z) (s : store) (tag : TagEntry) : bool :=
  negb (starts_with (rs "_") (te_name tag)) &&
  ((threshold =? 0) || (0 <? created_of s tag) && (threshold <=? now - created_of s tag)).

Lemma expire_tag_run now threshold ns tag s : 0 ≤ threshold → (threshold = 0 → created_of s tag ≤ now) →
  expire_tag now threshold ns tag s =
    ((if expires now threshold s tag then set_tags (delete (tag_key ns (te_name tag))) s else s), Ok ()).
Proof.
  intros Hth Hnow. unfold expire_tag, expires. destruct (starts_with (rs "_") (te_name tag)); [done|].
  unfold mbind, M_bind, asks. rewrite tag_created_run. cbn [negb andb]. set (created := created_of s tag) in *.
  destruct (Z.ltb_spec 0 created); cbn [andb].
  - destruct (Z.leb_spec threshold ((now - created) `max` 0)); cbn [orb].
    + unfold lift, sub_u64. destruct (Z.eqb_spec threshold 0) as [->|].
      * specialize (Hnow eq_refl). by rewrite (proj2 (Z.ltb_ge now created)) by lia.
      * rewrite (proj2 (Z.ltb_ge now created)) by lia. by rewrite (proj2 (Z.leb_le _ _)) by lia.
    + destruct (Z.eqb_spec threshold 0); [lia|]. by rewrite (proj2 (Z.leb_gt _ _)) by lia.
  - rewrite orb_false_r. by destruct (threshold =? 0).
Qed.

Lemma expire_tags_run now threshold ns l s : 0 ≤ threshold → (threshold = 0 → ∀ t, t ∈ l → created_of s t ≤ now) →
  let gone := (λ t, tag_key ns (te_name t)) <$> filter (λ t, expires now threshold s t = true) l in
  ∃ g, expire_tags now threshold ns l s = (set_tags g s, Ok ()) ∧
    ∀ k, tags (set_tags g s) !! k = if decide (k ∈ gone) then None else tags s !! k.
Proof.
  intros Hth. revert s. induction l as [|t l IH]; intros s Hnow gone; cbn [expire_tags].
  { exists (λ m, m). split; [by destruct s|]. intros k. subst gone. cbn. rewrite decide_False; [done|]. apply not_elem_of_nil. }
  unfold mbind, M_bind. rewrite expire_tag_run; [|done|intros E; by apply Hnow; [|left]].
  subst gone. rewrite filter_cons. destruct (expires now threshold s t) eqn:Ex.
  - rewrite decide_True by done. destruct (IH (set_tags (delete (tag_key ns (te_name t))) s)) as (g & E & Hg).
    { intros Ez t' Ht'. change (created_of s t' ≤ now). apply Hnow; [done|]. by right. }
    exists (g ∘ delete (tag_key ns (te_name t))). split; [exact E|]. intros k. cbn [fmap list_fmap].
    etransitivity; [exact (Hg k)|].
    destruct (decide (k ∈ _)) as [Hk|Hk]; [by rewrite decide_True by (by right)|].
    destruct (decide (k = tag_key ns (te_name t))) as [->|Hne].
    + rewrite decide_True by left. apply (lookup_delete_eq (M := gmap (bytes * Z))).
    + rewrite decide_False by (by intros [|]%elem_of_cons). by apply (lookup_delete_ne (M := gmap (bytes * Z))).
  - rewrite decide_False by congruence. apply IH. intros Ez t' Ht'. apply Hnow; [done|]. by right.
Qed.

Lemma collect_elem ns s e : tags_wf s → e ∈ collect_sorted_tags ns s ↔ tags s !! tag_key ns (te_name e) = Some e.
Proof.
  intros Hw. unfold collect_sorted_tags. rewrite elem_of_sort_by, ns_tags_elem. split; [|by eexists].
  intros [h Hh]. destruct (Hw _ _ _ Hh) as [Hi _]. unfold tag_key. by rewrite Hi.
Qed.

(** One pass over a bucket with an expiry rule deletes an object if and only
    if its age has reached the number of days (every object when that number is
    zero), keeps the configuration and touches nothing else of the store. *)
Theorem lifecycle_expire_correct now ns config days s
  (Hdays : config_days (rs "<Days>") (rs "</Days>") config = Some days) (Hfit : days * 86400000 ≤ u64_max)
  (Hpos : 0 ≤ days) (Hclock : days = 0 → ∀ t, t ∈ collect_sorted_tags ns s → created_of s t ≤ now) (Hwf : tags_wf s) :
  ∃ g, lifecycle_expire now ns config s = (set_tags g s, Ok ()) ∧
    (∀ name e, tags s !! tag_key ns name = Some e →
       tags (set_tags g s) !! tag_key ns name = if expires now (days * 86400000) s e then None else Some e) ∧
    (∀ k, tags s !! k = None → tags (set_tags g s) !! k = None) ∧
    (∀ u h, u ≠ ns_uuid ns → tags (set_tags g s) !! (u, h) = tags s !! (u, h)).
Proof.
  unfold lifecycle_expire. rewrite Hdays. unfold days_ms, mul_u64. rewrite (proj2 (Z.ltb_ge _ _)) by lia. osimpl.
  rewrite (proj2 (Z.ltb_ge _ _)) by lia. replace (days * 86400 * 1000) with (days * 86400000) by lia.
  destruct (expire_tags_run now (days * 86400000) ns (collect_sorted_tags ns s) s) as (g & E & Hg); [lia| |].
  { intros Ez. apply Hclock. lia. }
  exists g. split; [exact E|]. set (gone := _ <$> _) in Hg. split_and!.
  - intros name e He. rewrite Hg, He. case_decide as Hin.
    + apply list_elem_of_fmap in Hin as (t & Ek & Ht). apply list_elem_of_filter in Ht as [Hx Ht].
      apply collect_elem in Ht; [|done]. rewrite <- Ek, He in Ht. injection Ht as ->. by rewrite Hx.
    + destruct (expires now (days * 86400000) s e) eqn:Ex; [|done]. destruct Hin.
      assert (tag_key ns name = tag_key ns (te_name e)) as Ek by (destruct (Hwf _ _ _ He) as [Hh _]; unfold tag_key; by rewrite Hh).
      apply list_elem_of_fmap. exists e. split; [done|]. apply list_elem_of_filter. split; [done|].
      apply collect_elem; [done|]. by rewrite <- Ek.
  - intros k Hk. rewrite Hg, Hk. by case_decide.
  - intros u h Hu. rewrite Hg. rewrite decide_False; [done|]. intros (t & Ek & _)%list_elem_of_fmap. unfold tag_key in Ek. congruence.
Qed.
End expiry.

(** * Buckets and batches *)

Section promises.
Context `{HashCratesLaws} `{TransferCrates} `{MemoryStoreConfig} `{JsonCrates} `{XmlCrate} `{HeaderCrateLaws} `{MacCrates} `{ChronoLaws}.
Context `{Base64Crate} `{HexDecode}.
#[local] Existing Instance default_versions.

Lemma delete_keys_run ns keys deleted errors s :
  ∃ g, delete_keys ns keys deleted errors s = (set_tags g s, Ok (deleted ++ keys, errors)) ∧
    ∀ k, tags (set_tags g s) !! k = if decide (k ∈ tag_key ns <$> keys) then None else tags s !! k.
Proof.
  revert deleted s. induction keys as [|key keys IH]; intros deleted s; cbn [delete_keys].
  { exists (λ m, m). rewrite app_nil_r. split; [by destruct s|]. intros k. by rewrite decide_False by apply not_elem_of_nil. }
  destruct (IH (deleted ++ [key]) (set_tags (delete (tag_key ns key)) s)) as (g & E & Hg).
  exists (g ∘ delete (tag_key ns key)). rewrite <- app_assoc in E. split; [exact E|]. intros k. etransitivity; [exact (Hg k)|].
  cbn [fmap list_fmap]. destruct (decide (k ∈ tag_key ns <$> keys)) as [Hk|Hk]; [by rewrite decide_True by (by right)|].
  destruct (decide (k = tag_key ns key)) as [->|Hne].
  - rewrite decide_True by left. apply (lookup_delete_eq (M := gmap (bytes * Z))).
  - rewrite decide_False by (by intros [|]%elem_of_cons). by apply (lookup_delete_ne (M := gmap (bytes * Z))).
Qed.

(** A batch deletion removes every key the body names and nothing else; and a
    request without the parameter [delete] is one too, though the policy was asked
    about [s3:PutObject]: who may write may delete. *)
Theorem batch_delete_asks_for_put c body ns s
  (Hcheck : s3_auth_check c s = (s, Ok None)) (Hns : cx_namespace (s3_cx c) = RExists ns)
  (Hpost : rq_method (s3_request c) = rs "POST") (Hquery : rq_query (s3_request c) = None) :
  let keys := keys_to_delete (from_utf8_lossy (body_or_empty (10 * 1024 * 1024) body)) in
  derive_s3_action (rq_method (s3_request c)) (parse_s3_query (s3_request c)) = rs "s3:PutObject" ∧
  ∃ h s' r, s3_bucket_route c body = Some h ∧ h s = (s', Ok r) ∧ r_status r = 200 ∧
    ∀ k, tags s' !! k = if decide (k ∈ tag_key ns <$> keys) then None else tags s !! k.
Proof.
  intros keys. split; [unfold parse_s3_query; by rewrite Hpost, Hquery|].
  exists (s3_delete_objects c body). unfold s3_bucket_route. rewrite Hpost.
  destruct (delete_keys_run ns keys [] [] s) as (g & E & Hg). exists (set_tags g s).
  unfold s3_delete_objects. rewrite (checked_run _ _ _ Hcheck), (bind_run _ _ s s ns) by (unfold s3_bucket_write; by rewrite Hns).
  cbv zeta. fold keys. rewrite (bind_run _ _ _ _ _ (task_ok _ _ _ _ E)). eexists. split; [done|]. split_and!; [done|done|exact Hg].
Qed.

(** Deleting a bucket is refused with 409, and changes nothing, while a tag
    other than the marker is left; otherwise it answers 204 and takes the marker
    away.  The namespace stays in both cases: the bucket can still be seen and
    written to. *)
Theorem delete_bucket_correct c ns s (Hns : cx_namespace (s3_cx c) = RExists ns) (Hwf : tags_wf s) :
  ∃ s' r, s3_delete_bucket c s = (s', Ok r) ∧
    (∀ name protocol, namespace_exists name protocol s' = namespace_exists name protocol s) ∧
    ((∃ e, tags s !! tag_key ns (te_name e) = Some e ∧ te_name e ≠ BUCKET_MARKER) ∧ r_status r = 409 ∧ s' = s ∨
     (∀ name e, tags s !! tag_key ns name = Some e → te_name e = BUCKET_MARKER) ∧ r_status r = 204 ∧
       ∀ name, tags s' !! tag_key ns name = None).
Proof.
  unfold s3_delete_bucket. rewrite (bind_run _ _ s s ns) by (unfold s3_bucket_write; by rewrite Hns).
  set (others := filter (λ t, te_name t ≠ BUCKET_MARKER) (collect_sorted_tags ns s)).
  destruct (decide (others = [])) as [Eo|Hne].
  - assert (delete_bucket_task ns s = (set_tags (delete (tag_key ns BUCKET_MARKER)) s, Ok ())) as E.
    { unfold delete_bucket_task, mbind, M_bind, asks, tag_list. fold others. by rewrite decide_True. }
    rewrite (bind_run _ _ _ _ _ (task_ok _ _ _ _ E)). eexists _, _. split; [done|]. split; [done|]. right.
    assert (∀ name e, tags s !! tag_key ns name = Some e → te_name e = BUCKET_MARKER) as Hm.
    { intros name e He. destruct (decide (te_name e = BUCKET_MARKER)); [done|]. exfalso.
      assert (e ∈ others) as Hin; [|rewrite Eo in Hin; by apply elem_of_nil in Hin]. apply list_elem_of_filter. split; [done|].
      apply collect_elem; [done|]. destruct (Hwf _ _ _ He) as [Hh _]. unfold tag_key in *. by rewrite Hh. }
    split_and!; [exact Hm|done|]. intros name. cbn.
    destruct (tags s !! tag_key ns name) as [e|] eqn:He.
    + specialize (Hm _ _ He). destruct (Hwf _ _ _ He) as [Hh _]. rewrite Hm in Hh. unfold tag_key. rewrite <- Hh.
      apply (lookup_delete_eq (M := gmap (bytes * Z))).
    + apply (lookup_delete_None (M := gmap (bytes * Z))). by right.
  - assert (task (delete_bucket_task ns) s = (s, Ok (Some (Err (SConflict (rs "BucketNotEmpty")))))) as E.
    { unfold task, delete_bucket_task, mbind, M_bind, asks, tag_list. fold others. by rewrite decide_False. }
    rewrite (bind_run _ _ _ _ _ E). eexists _, _. split; [done|]. split; [done|]. left.
    destruct others as [|e l] eqn:El; [done|]. assert (e ∈ others) as Hin by (rewrite El; left).
    apply list_elem_of_filter in Hin as [Hn Hin]. apply collect_elem in Hin; [|done]. split_and!; [by exists e|done|done].
Qed.

(** The configuration of a bucket is an object like any other: writing the key
    [_config/policy] replaces the policy, and what the check asks about is
    [s3:PutObject]. *)
Theorem object_key_is_policy c ns body content s
  (Hbody : to_bytes LIMIT body = Some content) (Hput : put_allowed c ns content s)
  (Hfs : fs_ok (fs s)) (Hroom : room 1 0 s) (Hnames : meta_names)
  (Hmethod : rq_method (s3_request c) = rs "PUT") (Hquery : rq_query (s3_request c) = None)
  (Hkey : s3_param c (rs "key") = rs "_config/policy") :
  derive_s3_action (rq_method (s3_request c)) (parse_s3_query (s3_request c)) = rs "s3:PutObject" ∧
  ∃ s' r, s3_put_object c body s = (s', Ok r) ∧ r_status r = 200 ∧
    ∀ c', cx_namespace (s3_cx c') = RExists ns →
      ∃ r', s3_get_bucket_config c' "policy" s' = (s', Ok r') ∧ r_status r' = 200 ∧
        kappa_text Sha256 (body_of r') = kappa_text Sha256 content.
Proof.
  split; [unfold parse_s3_query; by rewrite Hmethod, Hquery|].
  assert (body_or_empty LIMIT body = content) as Eb by (unfold body_or_empty; by rewrite Hbody).
  pose proof (put_object_run c ns body s) as Hrun. rewrite Eb in Hrun. cbv zeta in Hrun.
  destruct (Hrun Hput Hfs Hroom Hnames) as (s' & r & E & Hst & _ & Ho & _). exists s', r. split_and!; [done..|].
  intros c' Hns. destruct Ho as [_ (a & bytes & Ek & Hb & Hk) (v & Ht) _ _ _ _]. rewrite Hkey in Ht.
  assert (a = Sha256) as -> by (by apply label_text_inj in Ek as [-> _]).
  unfold s3_get_bucket_config. rewrite (bind_run _ _ s' s' ns) by (unfold s3_bucket_read; by rewrite Hns).
  rewrite (bind_run _ _ s' s' (Some (Ok bytes))).
  { eexists. split; [done|]. unfold body_of. cbn [r_body concat xml_ok response]. rewrite app_nil_r. split; [done|exact Hk]. }
  apply task_ok. unfold asks, tag_get. change (config_tag "policy") with (rs "_config/policy"). rewrite Ht. osimpl.
  cbn [te_kappa]. by rewrite Hb.
Qed.
End promises.

(** * A small bucket *)

Section sample.
#[local] Existing Instances sample_mac sample_xml sample_base64 default_versions sample_calendar sample_calendar_laws.

(** The bucket with an object, and with a lifecycle configuration. *)
Definition sample_with_object : store := (s3_put_object (sample_put "cat" "image/png") [Some (rs "meow")] sample_created.1).1.
Definition sample_lifecycle (config : string) : store :=
  (s3_put_bucket_config (sample_put "" "application/xml") [Some (rs config)] "lifecycle" sample_with_object).1.
Definition a_day_later : nat → Z := λ _, 2 * 86400000.
Definition has_object (key : string) (s : store) : bool := is_ok (tag_get sample_s3_ns (rs key) s).

Lemma sample_with_object_wf : tags_wf sample_with_object.
Proof.
  assert (∃ k, map_to_list (tags sample_with_object) = [(tag_key sample_s3_ns (rs "cat"), mkTag (rs "cat") k 1)]) as [k Et]
    by (eexists; vm_compute; reflexivity).
  intros u h e He. apply elem_of_map_to_list in He. rewrite Et in He. apply list_elem_of_singleton in He.
  injection He as -> -> ->. split; [vm_compute; reflexivity|vm_compute; split; discriminate].
Qed.

Lemma lifecycle_expire_correct_witness :
  ∃ g, lifecycle_expire (a_day_later 0) sample_s3_ns (rs "<Days>1</Days>") sample_with_object = (set_tags g sample_with_object, Ok ()).
Proof.
  destruct (lifecycle_expire_correct (a_day_later 0) sample_s3_ns (rs "<Days>1</Days>") 1 sample_with_object) as (g & E & _).
  - vm_compute. reflexivity.
  - vm_compute. discriminate.
  - lia.
  - intros Hz. discriminate Hz.
  - apply sample_with_object_wf.
  - exists g. exact E.
Defined.

Lemma batch_delete_asks_for_put_witness :
  let c := sample_s3_cx "POST" "" None [] in
  ∃ h s' r, s3_bucket_route c [Some (rs "<Delete><Object><Key>cat</Key></Object></Delete>")] = Some h ∧
    h sample_with_object = (s', Ok r) ∧ r_status r = 200.
Proof.
  intros c. destruct (batch_delete_asks_for_put c [Some (rs "<Delete><Object><Key>cat</Key></Object></Delete>")] sample_s3_ns
    sample_with_object) as (_ & h & s' & r & Eh & E & Hr & _); [vm_compute; reflexivity|reflexivity|reflexivity|reflexivity|].
  exists h, s', r. split; [exact Eh|]. split; [exact E|exact Hr].
Defined.

Lemma delete_bucket_correct_witness :
  ∃ s' r, s3_delete_bucket (sample_s3_cx "DELETE" "" None []) sample_with_object = (s', Ok r) ∧
    namespace_exists (rs "photos") (Some (rs "s3")) s' = namespace_exists (rs "photos") (Some (rs "s3")) sample_with_object.
Proof.
  destruct (delete_bucket_correct (sample_s3_cx "DELETE" "" None []) sample_s3_ns sample_with_object eq_refl sample_with_object_wf)
    as (s' & r & E & Hex & _). exists s', r. split; [exact E|]. apply Hex.
Defined.

Lemma object_key_is_policy_witness :
  ∃ s' r, s3_put_object (sample_put "_config/policy" "image/png") [Some (rs "{}")] sample_created.1 = (s', Ok r) ∧ r_status r = 200.
Proof.
  destruct sample_created_ok as (Hfs & Hroom & Hn).
  destruct (object_key_is_policy (sample_put "_config/policy" "image/png") sample_s3_ns [Some (rs "{}")] (rs "{}") sample_created.1
    eq_refl (sample_put_allowed _ _) Hfs Hroom Hn eq_refl eq_refl eq_refl) as (_ & s' & r & E & Hr & _).
  exists s', r. split; [exact E|exact Hr].
Defined.

(** Neither the filter nor the status of a lifecycle rule is read: a disabled
    rule for another prefix, or a rule that only moves objects to another storage
    class, deletes the object. *)
Theorem lifecycle_ignores_rules :
  has_object "cat" sample_with_object = true ∧
  Forall (λ config, has_object "cat" (lifecycle_pass a_day_later (λ _, 0) (sample_lifecycle config)).1 = false)
    ["<Rule><Filter><Prefix>logs/</Prefix></Filter><Status>Disabled</Status><Expiration><Days>1</Days></Expiration></Rule>";
     "<Rule><Status>Enabled</Status><Transition><Days>1</Days><StorageClass>GLACIER</StorageClass></Transition></Rule>"]%string.
Proof. split; [vm_compute; reflexivity|]. do 2 (apply Forall_cons_2; [vm_compute; reflexivity|]). apply Forall_nil_2. Qed.

(** The rule of one bucket that aborts incomplete uploads drops the uploads of
    every other namespace too. *)
Theorem lifecycle_aborts_other_uploads :
  let config := "<AbortIncompleteMultipartUpload><DaysAfterInitiation>1</DaysAfterInitiation></AbortIncompleteMultipartUpload>"%string in
  let s := (upload_begin 0 (rs "u") (with_name (replicate 16 x09) (rs "other")) 1000 (sample_lifecycle config)).1 in
  is_Some (uploads s !! rs "u") ∧ uploads (lifecycle_pass a_day_later (λ _, 2 * 86400 * 1000000000) s).1 !! rs "u" = None.
Proof. vm_compute. split; [by eexists|reflexivity]. Qed.

(** What a PUT does is chosen by looking for words anywhere in the query, what
    the policy is asked about by the names of its parameters: a request that names
    no tagging replaces the tags of an object as [s3:PutObject]. *)
Theorem dispatch_by_substring body s :
  let c := sample_s3_cx "PUT" "cat" (Some (rs "x=tagging")) [] in
  derive_s3_action (rs "PUT") (parse_s3_query (s3_request c)) = rs "s3:PutObject" ∧
  s3_put_or_copy_or_part c body s = checked_first c (s3_put_tagging c body) s.
Proof. split; vm_compute; reflexivity. Qed.

(** The listing of a bucket shows its marker and its configuration as objects. *)
Theorem listing_shows_configuration :
  let s := (s3_create_bucket (sample_put "" "text/plain") (sample_lifecycle "<Days>1</Days>")).1 in
  match list_objects_v2 sample_s3_ns (list_request (rs "photos") ∅) s with
  | Ok r => oe_key <$> lr_contents r = [rs "_bucket_marker"; rs "_config/lifecycle"; rs "cat"]
  | _ => False
  end.
Proof. vm_compute. reflexivity. Qed.
End sample.
