(* ===== verification/Aead.v ===== *)
(** Aead: encryption at rest.  The key service of [kappa-core/src/crypto/kms.rs],
    the framed blob encryption of [kappa-core/src/crypto/aead.rs], the reader
    over encrypted files of [kappa-store-redb/src/frame_reader.rs] and the table
    encryption of [kappa-store-redb/src/encrypted.rs].

    The cipher and the key derivation are crates: the classes [AeadCrate] and
    [DeriveKey].  A file is its bytes. *)

From S2P Require Import Prelude Label Compute Types Identity.

(** [rekindle_aead]: AES-256-GCM with the tag apart from the ciphertext; an error
    is its text. *)
Class AeadCrate := {
  aes_key_new : bytes → bool;
  seal_detached : bytes → bytes → bytes → bytes → (bytes * bytes) + rstr;
  open_detached : bytes → bytes → bytes → bytes → bytes → bytes + rstr;
  nonce_len : nat;
}.

(** The longest message AES-GCM takes. *)
Definition gcm_limit : Z := 68719476704.

Class AeadLaws `{AeadCrate} : Prop := {
  nonce_len_12 : nonce_len = 12%nat;
  seal_open : ∀ key nonce aad pt, length nonce = 12%nat → zlen pt ≤ gcm_limit →
    ∃ ct tag, seal_detached key nonce aad pt = inl (ct, tag) ∧ length ct = length pt ∧
      length tag = 16%nat ∧ open_detached key nonce aad ct tag = inl pt;
}.

(** [blake3::derive_key]. *)
Class DeriveKey := derive_key : rstr → bytes → bytes.

(** [x.map_err(...)?] on a result of a crate. *)
Definition of_sum {E F A} (f : F → E) (r : A + F) : outcome E A :=
  match r with inl a => Ok a | inr e => Err (f e) end.

(** [a + b] on an unsigned integer up to [max]; the overflow check of a debug
    build panics. *)
Definition add_to {E} (max a b : Z) : outcome E Z := if max <? a + b then Panic else Ok (a + b).

Definition SigningFailed (msg : rstr) : CryptoError := OtherCrypto (rs "signing failed: " ++ msg).

(** * Keys *)

Section kms.
Context `{HashCrates} `{DeriveKey}.

(** The erased markers are files of one directory. *)
Record FileKms := mkKms { root_secret : bytes; erased_dir : gset rstr }.

Definition FileKms_new (secret : bytes) : FileKms := mkKms secret ∅.

Definition erased_marker_path (namespace subject : rstr) : rstr :=
  hex_of_bytes (blake3_hash (namespace ++ rs "/" ++ subject)) ++ rs ".erased".

Definition is_erased (namespace subject : rstr) (k : FileKms) : outcome CryptoError bool :=
  Ok (bool_decide (erased_marker_path namespace subject ∈ erased_dir k)).

Definition derive_subject_key (namespace subject : rstr) (k : FileKms) : outcome CryptoError bytes :=
  erased ← is_erased namespace subject k;
  if (erased : bool) then Err InvalidKey
  else Ok (derive_key (rs "kappa-kms::" ++ namespace ++ rs "/" ++ subject) (root_secret k)).

Definition erase_subject_key (namespace subject : rstr) (k : FileKms) : FileKms * outcome CryptoError () :=
  (mkKms (root_secret k) ({[erased_marker_path namespace subject]} ∪ erased_dir k), Ok ()).
End kms.

(** * Framed blobs *)

Definition FRAME_SIZE : Z := 65536.
Definition FRAME_TAG_SIZE : Z := 16.
Definition FRAME_DISK_SIZE : Z := FRAME_SIZE + FRAME_TAG_SIZE.

(** [&l[a..b]] with both ends in range. *)
Definition zslice (l : bytes) (a b : Z) : bytes := slice l (Z.to_nat a) (Z.to_nat b).

Record EncryptedBlob := mkEncrypted { disk_bytes : bytes; base_nonce : bytes; plaintext_size : Z }.

(** What a reader yields: the bytes of a read, or an error; an empty read and
    the end of the list are the end of the file. *)
Inductive read_event := RData (c : bytes) | RErr (e : rstr).

Section blobs.
Context `{AeadCrate} `{HashCrates} `{DeriveKey}.

(** A [BlobEncryptor] is its key. *)
Definition BlobEncryptor_new (k : FileKms) (namespace : rstr) : outcome CryptoError bytes :=
  derived ← derive_subject_key namespace (rs "_blob_encryption") k;
  if decide (length derived = 32%nat) then
    if aes_key_new derived then Ok derived else Err InvalidKey
  else Err InvalidKey.

Definition clone_for_reader (key : bytes) : outcome CryptoError bytes :=
  if aes_key_new key then Ok key else Err InvalidKey.

Definition frame_nonce (base : bytes) (frame_index : Z) : bytes := base ++ to_be 4 frame_index.

Definition frame_plaintext_size (size frame_index : Z) : Z :=
  Z.min FRAME_SIZE (Z.max 0 (size - frame_index * FRAME_SIZE)).

Definition decrypt_frame (key : bytes) (sigma : rstr) (base : bytes) (frame_index : Z) (frame_data : bytes)
  : outcome CryptoError bytes :=
  if zlen frame_data <? FRAME_TAG_SIZE then Err (SigningFailed (rs "frame too short for tag"))
  else
    let tag := take 16 frame_data in
    let ciphertext := drop 16 frame_data in
    of_sum (λ e, SigningFailed (rs "frame " ++ dec frame_index ++ rs " decrypt: " ++ e))
      (open_detached key (frame_nonce base frame_index) sigma ciphertext tag).

(** One round of the loop of [encrypt]: the index is truncated to 32 bits. *)
Definition seal_frame (key : bytes) (sigma : rstr) (base plaintext : bytes) (i : Z) : outcome CryptoError bytes :=
  let start := i * FRAME_SIZE in
  let stop := Z.min (start + FRAME_SIZE) (zlen plaintext) in
  let frame_plaintext := zslice plaintext start stop in
  let nonce := frame_nonce base (wrap 32 i) in
  sealed ← of_sum (λ e, SigningFailed (rs "frame " ++ dec i ++ rs " seal: " ++ e))
             (seal_detached key nonce sigma frame_plaintext);
  Ok (sealed.2 ++ sealed.1).

Fixpoint seal_frames (key : bytes) (sigma : rstr) (base plaintext : bytes) (n : nat) (i : Z)
  : outcome CryptoError bytes :=
  match n with
  | O => Ok []
  | S n =>
      frame ← seal_frame key sigma base plaintext i;
      rest ← seal_frames key sigma base plaintext n (i + 1);
      Ok (frame ++ rest)
  end.

Definition frame_count (plaintext : bytes) : Z :=
  if decide (plaintext = []) then 1 else (zlen plaintext + FRAME_SIZE - 1) / FRAME_SIZE.

(** [encrypt] with the eight bytes [getrandom] fills in, or its error. *)
Definition encrypt (key : bytes) (random : bytes + rstr) (sigma : rstr) (plaintext : bytes)
  : outcome CryptoError EncryptedBlob :=
  base ← of_sum (λ e, OtherCrypto (rs "key generation failed: " ++ e)) random;
  disk ← seal_frames key sigma base plaintext (Z.to_nat (frame_count plaintext)) 0;
  Ok (mkEncrypted disk base (zlen plaintext)).

(** The inner loop of [encrypt_streaming]: fill one frame. *)
Fixpoint fill_frame (reader : list read_event) (frame : bytes) : outcome CryptoError (bytes * list read_event) :=
  if FRAME_SIZE <=? zlen frame then Ok (frame, reader)
  else match reader with
  | [] => Ok (frame, [])
  | RErr e :: _ => Err (SigningFailed (rs "read: " ++ e))
  | RData [] :: rest => Ok (frame, rest)
  | RData c :: rest =>
      let room := Z.to_nat (FRAME_SIZE - zlen frame) in
      if (length c <=? room)%nat then fill_frame rest (frame ++ c)
      else Ok (frame ++ take room c, RData (drop room c) :: rest)
  end.

(** [write_all], which may fail depending on what was written before. *)
Definition write_all (fault : bytes → option rstr) (what : rstr) (out data : bytes) : outcome CryptoError bytes :=
  match fault out with
  | Some e => Err (SigningFailed (rs "write " ++ what ++ rs ": " ++ e))
  | None => Ok (out ++ data)
  end.

(** The outer loop, with fuel for the number of frames; it ends at the first
    frame that is not full. *)
Fixpoint encrypt_frames (fuel : nat) (key : bytes) (sigma : rstr) (base : bytes) (fault : bytes → option rstr)
  (reader : list read_event) (out : bytes) (frame_index size : Z) : outcome CryptoError (bytes * Z) :=
  match fuel with
  | O => Panic
  | S fuel =>
      filled ← fill_frame reader [];
      let '(frame, reader) := filled in
      let frame_len := zlen frame in
      if bool_decide (frame_len = 0) && (0 <? frame_index) then Ok (out, size)
      else
        sealed ← of_sum (λ e, SigningFailed (rs "frame " ++ dec frame_index ++ rs " seal: " ++ e))
                   (seal_detached key (frame_nonce base frame_index) sigma frame);
        out ← write_all fault (rs "tag") out sealed.2;
        out ← write_all fault (rs "ct") out sealed.1;
        size ← add_to u64_max size frame_len;
        frame_index ← add_to u32_max frame_index 1;
        if decide (frame_len = 0) then Ok (out, size)
        else if frame_len <? FRAME_SIZE then Ok (out, size)
        else encrypt_frames fuel key sigma base fault reader out frame_index size
  end.

Definition reader_content (reader : list read_event) : bytes :=
  concat ((λ e, match e with RData c => c | RErr _ => [] end) <$> reader).

(** [encrypt_streaming]: what the writer holds, the base nonce and the size. *)
Definition encrypt_streaming (key : bytes) (random : bytes + rstr) (sigma : rstr) (reader : list read_event)
  (fault : bytes → option rstr) (out : bytes) : outcome CryptoError (bytes * (bytes * Z)) :=
  base ← of_sum (λ e, OtherCrypto (rs "key generation failed: " ++ e)) random;
  r ← encrypt_frames (S (length (reader_content reader))) key sigma base fault reader out 0 0;
  Ok (r.1, (base, r.2)).

(** The loop of [decrypt_all]; the position advances by at least the tag. *)
Fixpoint decrypt_frames (fuel : nat) (key : bytes) (sigma : rstr) (disk base : bytes) (size : Z)
  (plaintext : bytes) (pos frame_index : Z) : outcome CryptoError bytes :=
  match fuel with
  | O => Panic
  | S fuel =>
      if pos <? zlen disk then
        let remaining_pt := Z.max 0 (size - zlen plaintext) in
        let frame_ct_len := Z.min FRAME_SIZE remaining_pt in
        let frame_disk_len := FRAME_TAG_SIZE + frame_ct_len in
        if zlen disk <? pos + frame_disk_len then Err (SigningFailed (rs "truncated frame"))
        else
          frame_pt ← decrypt_frame key sigma base frame_index (zslice disk pos (pos + frame_disk_len));
          frame_index ← add_to u32_max frame_index 1;
          decrypt_frames fuel key sigma disk base size (plaintext ++ frame_pt) (pos + frame_disk_len) frame_index
      else Ok plaintext
  end.

Definition decrypt_all (key : bytes) (sigma : rstr) (disk base : bytes) (size : Z) : outcome CryptoError bytes :=
  plaintext ← decrypt_frames (S (length disk)) key sigma disk base size [] 0 0;
  if decide (zlen plaintext = size) then Ok plaintext
  else Err (SigningFailed (rs "decrypted " ++ dec (zlen plaintext) ++ rs " bytes but expected " ++ dec size)).

(** The frames of [decrypt_range], concatenated. *)
Fixpoint range_frames (key : bytes) (sigma : rstr) (disk base : bytes) (size : Z) (n : nat) (fi : Z)
  : outcome CryptoError bytes :=
  match n with
  | O => Ok []
  | S n =>
      let frame_pt_len := frame_plaintext_size size fi in
      let frame_disk_len := FRAME_TAG_SIZE + frame_pt_len in
      let disk_offset := fi * FRAME_DISK_SIZE in
      if zlen disk <? disk_offset + frame_disk_len then
        Err (SigningFailed (rs "frame " ++ dec fi ++ rs " beyond disk (offset=" ++ dec disk_offset
               ++ rs ", len=" ++ dec frame_disk_len ++ rs ", total=" ++ dec (zlen disk) ++ rs ")"))
      else
        frame_pt ← decrypt_frame key sigma base fi (zslice disk disk_offset (disk_offset + frame_disk_len));
        rest ← range_frames key sigma disk base size n (fi + 1);
        Ok (frame_pt ++ rest)
  end.

Definition decrypt_range (key : bytes) (sigma : rstr) (disk base : bytes) (size offset length_ : Z)
  : outcome CryptoError bytes :=
  if size <=? offset then Ok []
  else
    let actual_length := Z.min length_ (size - offset) in
    if decide (actual_length = 0) then Ok []
    else
      let start_frame := wrap 32 (offset / FRAME_SIZE) in
      let end_frame := wrap 32 ((offset + actual_length - 1) / FRAME_SIZE) in
      frames ← range_frames key sigma disk base size (Z.to_nat (end_frame - start_frame + 1)) start_frame;
      let slice_start := offset - start_frame * FRAME_SIZE in
      let slice_end := slice_start + actual_length in
      if zlen frames <? slice_end then Panic else Ok (zslice frames slice_start slice_end).
End blobs.

(** * Reading an encrypted file *)

Inductive IoError := IoUnexpectedEof | IoInvalidInput (msg : rstr) | IoOther (msg : rstr).

Inductive SeekFrom := SeekStart (p : Z) | SeekEnd (p : Z) | SeekCurrent (p : Z).

Record FrameDecryptingReader := mkReader {
  fr_file : bytes;
  fr_encryptor : bytes;
  fr_base_nonce : bytes;
  fr_sigma : rstr;
  fr_plaintext_size : Z;
  fr_position : Z;
  fr_frame_buf : bytes;
  fr_cached_frame : option Z;
}.

(** [as i64]. *)
Definition to_i64 (z : Z) : Z := let w := wrap 64 z in if isize_max <? w then w - 2 ^ 64 else w.

Section reader.
Context `{AeadCrate}.

Definition FrameDecryptingReader_new (file encryptor base : bytes) (sigma : rstr) (size : Z)
  : FrameDecryptingReader := mkReader file encryptor base sigma size 0 [] None.

Definition set_frame (buf : bytes) (cached : option Z) (r : FrameDecryptingReader) : FrameDecryptingReader :=
  mkReader (fr_file r) (fr_encryptor r) (fr_base_nonce r) (fr_sigma r) (fr_plaintext_size r) (fr_position r)
    buf cached.
Definition set_position (p : Z) (r : FrameDecryptingReader) : FrameDecryptingReader :=
  mkReader (fr_file r) (fr_encryptor r) (fr_base_nonce r) (fr_sigma r) (fr_plaintext_size r) p
    (fr_frame_buf r) (fr_cached_frame r).

(** The frame buffer is replaced only after the frame decrypts. *)
Definition ensure_frame (frame_index : Z) (r : FrameDecryptingReader)
  : outcome IoError FrameDecryptingReader :=
  if decide (fr_cached_frame r = Some frame_index) then Ok r
  else
    let pt_size := frame_plaintext_size (fr_plaintext_size r) frame_index in
    let disk_frame_size := FRAME_TAG_SIZE + pt_size in
    let disk_offset := frame_index * FRAME_DISK_SIZE in
    if zlen (fr_file r) <? disk_offset + disk_frame_size then Err IoUnexpectedEof
    else
      plaintext ← map_err (λ e, IoOther (rs "frame " ++ dec frame_index ++ rs " decrypt: " ++ crypto_error_str e))
        (decrypt_frame (fr_encryptor r) (fr_sigma r) (fr_base_nonce r) frame_index
           (zslice (fr_file r) disk_offset (disk_offset + disk_frame_size)));
      Ok (set_frame plaintext (Some frame_index) r).

(** [read] into a buffer of [buf_len] bytes: the reader after it, and the bytes
    read. *)
Definition reader_read (buf_len : nat) (r : FrameDecryptingReader)
  : outcome IoError (FrameDecryptingReader * bytes) :=
  if fr_plaintext_size r <=? fr_position r then Ok (r, [])
  else
    let frame_index := wrap 32 (fr_position r / FRAME_SIZE) in
    let offset_in_frame := Z.to_nat (fr_position r mod FRAME_SIZE) in
    r ← ensure_frame frame_index r;
    if (length (fr_frame_buf r) <? offset_in_frame)%nat then Panic
    else
      let available := (length (fr_frame_buf r) - offset_in_frame)%nat in
      let to_copy := Nat.min available buf_len in
      let data := slice (fr_frame_buf r) offset_in_frame (offset_in_frame + to_copy) in
      Ok (set_position (fr_position r + Z.of_nat to_copy) r, data).

(** [plaintext_size as i64 + p]; the overflow check of a debug build panics. *)
Definition add_i64 (a b : Z) : outcome IoError Z :=
  if (isize_max <? a + b) || (a + b <? - isize_max - 1) then Panic else Ok (a + b).

Definition reader_seek (pos : SeekFrom) (r : FrameDecryptingReader)
  : outcome IoError (FrameDecryptingReader * Z) :=
  new_pos ← match pos with
            | SeekStart p => Ok (to_i64 p)
            | SeekEnd p => add_i64 (to_i64 (fr_plaintext_size r)) p
            | SeekCurrent p => add_i64 (to_i64 (fr_position r)) p
            end;
  if new_pos <? 0 then Err (IoInvalidInput (rs "seek to negative position"))
  else
    let new_frame := wrap 32 (new_pos / FRAME_SIZE) in
    let r := if decide (fr_cached_frame r = Some new_frame) then r else set_frame (fr_frame_buf r) None r in
    Ok (set_position new_pos r, new_pos).

(** [read] until the end of the file, with a buffer of [buf_len] bytes. *)
Fixpoint reader_drain (fuel : nat) (buf_len : nat) (r : FrameDecryptingReader) : outcome IoError bytes :=
  match fuel with
  | O => Panic
  | S fuel =>
      step ← reader_read buf_len r;
      if decide (step.2 = []) then Ok []
      else rest ← reader_drain fuel buf_len step.1; Ok (step.2 ++ rest)
  end.
End reader.

(** * Table values *)

Inductive EncryptionError := KeyInit | SealFailed | AuthFailed | TruncatedValue.

Definition encryption_error_str (e : EncryptionError) : rstr :=
  match e with
  | KeyInit => rs "AEAD key initialization failed"
  | SealFailed => rs "AEAD seal failed"
  | AuthFailed => rs "AEAD authentication failed"
  | TruncatedValue => rs "stored value too short for tag"
  end.

Section tables.
Context `{AeadCrate} `{KeyedHash} `{HashCrates}.

(** A [TableEncryptor] is its namespace key. *)
Definition TableEncryptor_new (ns_key : bytes) : outcome EncryptionError bytes :=
  if aes_key_new ns_key then Ok ns_key else Err KeyInit.

Definition hmac_key (ns_key : bytes) (plaintext_key : rstr) : rstr :=
  hex_encode (keyed_hash ns_key plaintext_key).

Definition nonce_for_key (ns_key : bytes) (plaintext_key : rstr) : bytes :=
  take 16 (keyed_hash ns_key (rs "nonce:" ++ plaintext_key)).

Definition encrypt_value (ns_key : bytes) (plaintext_key : rstr) (value : bytes) : outcome EncryptionError bytes :=
  let nonce := nonce_for_key ns_key plaintext_key in
  sealed ← of_sum (λ _, SealFailed) (seal_detached ns_key (take nonce_len nonce) plaintext_key value);
  Ok (sealed.2 ++ sealed.1).

Definition decrypt_value (ns_key : bytes) (plaintext_key : rstr) (stored : bytes) : outcome EncryptionError bytes :=
  if zlen stored <? 16 then Err TruncatedValue
  else
    let tag := take 16 stored in
    let ciphertext := drop 16 stored in
    let nonce := nonce_for_key ns_key plaintext_key in
    of_sum (λ _, AuthFailed) (open_detached ns_key (take nonce_len nonce) plaintext_key ciphertext tag).
End tables.

(** * Slices *)

Lemma length_zslice l a b : 0 ≤ a ≤ b → b ≤ zlen l → zlen (zslice l a b) = b - a.
Proof. intros Ha Hb. unfold zslice, slice. rewrite length_take, length_drop. lia. Qed.

Lemma zslice_app_r (l k : bytes) a b : 0 ≤ a → zslice (l ++ k) (zlen l + a) (zlen l + b) = zslice k a b.
Proof.
  intros Ha. unfold zslice, slice. rewrite (Z2Nat.inj_add (zlen l) a), Nat2Z.id, <- drop_drop, drop_app_length by lia.
  destruct (decide (0 ≤ b)).
  - f_equal. rewrite Z2Nat.inj_add by lia. lia.
  - replace (Z.to_nat (zlen l + b) - _)%nat with 0%nat by lia. by replace (Z.to_nat b - _)%nat with 0%nat by lia.
Qed.

Lemma zslice_app_l (l k : bytes) : zslice (l ++ k) 0 (zlen l) = l.
Proof. unfold zslice, slice. rewrite Nat2Z.id, Nat.sub_0_r. apply take_app_length. Qed.

Lemma zslice_zslice l a b x y : 0 ≤ a → 0 ≤ x → a + y ≤ b → zslice (zslice l a b) x y = zslice l (a + x) (a + y).
Proof.
  intros Ha Hx Hy. unfold zslice, slice. rewrite skipn_firstn_comm, drop_drop, take_take.
  f_equal; [lia|]. f_equal. lia.
Qed.

Lemma zslice_take_drop l a b : 0 ≤ a ≤ b → zslice l a b = take (Z.to_nat (b - a)) (drop (Z.to_nat a) l).
Proof. intros Ha. unfold zslice, slice. f_equal. lia. Qed.

Lemma zslice_join l a b c : 0 ≤ a ≤ b → b ≤ c → zslice l a b ++ zslice l b c = zslice l a c.
Proof.
  intros Ha Hb. rewrite !zslice_take_drop by lia.
  replace (Z.to_nat (c - a)) with (Z.to_nat (b - a) + Z.to_nat (c - b))%nat by lia.
  assert (drop (Z.to_nat b) l = drop (Z.to_nat (b - a)) (drop (Z.to_nat a) l)) as -> by (rewrite drop_drop; f_equal; lia).
  apply take_take_drop.
Qed.

(** * What the frames hold *)

(** The plaintext of one frame. *)
Definition frame_chunk (pt : bytes) (i : Z) : bytes := zslice pt (i * FRAME_SIZE) (Z.min (i * FRAME_SIZE + FRAME_SIZE) (zlen pt)).

(** The sizes the frame index can count. *)
Definition fits (pt : bytes) : Prop := zlen pt ≤ FRAME_SIZE * u32_max.

Ltac sizes := unfold fits, frame_plaintext_size, FRAME_DISK_SIZE, FRAME_TAG_SIZE, FRAME_SIZE, u32_max, u64_max, gcm_limit in *.

Lemma frame_count_spec pt : 1 ≤ frame_count pt ∧ zlen pt ≤ frame_count pt * FRAME_SIZE ∧
  (frame_count pt - 1) * FRAME_SIZE ≤ Z.max 0 (zlen pt - 1).
Proof.
  unfold frame_count. case_decide as E; [subst; done|].
  assert (1 ≤ zlen pt) by (destruct pt; [done|cbn; lia]). sizes.
  pose proof (Z.div_mod (zlen pt + 65536 - 1) 65536 ltac:(lia)).
  pose proof (Z.mod_pos_bound (zlen pt + 65536 - 1) 65536 ltac:(lia)). lia.
Qed.

Lemma frame_count_fits pt : fits pt → frame_count pt ≤ u32_max.
Proof. intros Hf. pose proof (frame_count_spec pt). sizes. lia. Qed.

Lemma length_chunk pt i : 0 ≤ i < frame_count pt → zlen (frame_chunk pt i) = frame_plaintext_size (zlen pt) i.
Proof.
  intros Hi. pose proof (frame_count_spec pt). unfold frame_chunk. rewrite length_zslice; sizes; lia.
Qed.

Section frames.
Context `{AeadLaws} (key base : bytes) (sigma : rstr) (Hbase : length base = 8%nat).

Lemma frame_nonce_length i : length (frame_nonce base i) = 12%nat.
Proof using Hbase. unfold frame_nonce. rewrite length_app, length_to_be, Hbase. done. Qed.

(** A sealed frame opens to its frame_chunk. *)
Lemma seal_frame_spec pt i : fits pt → 0 ≤ i < frame_count pt →
  ∃ f ct tag, seal_frame key sigma base pt i = Ok f ∧ f = tag ++ ct ∧
    seal_detached key (frame_nonce base i) sigma (frame_chunk pt i) = inl (ct, tag) ∧
    zlen f = 16 + frame_plaintext_size (zlen pt) i ∧ decrypt_frame key sigma base i f = Ok (frame_chunk pt i).
Proof using Hbase H0.
  intros Hf Hi. pose proof (frame_count_fits pt Hf) as Hc.
  destruct (seal_open key (frame_nonce base i) sigma (frame_chunk pt i) (frame_nonce_length i)) as (ct & tag & Hs & Hl & Ht & Ho).
  { rewrite length_chunk by done. sizes. lia. }
  exists (tag ++ ct), ct, tag. split_and!; [|done|done| |].
  - unfold seal_frame. fold (frame_chunk pt i). unfold wrap. rewrite Z.mod_small by (sizes; lia). by rewrite Hs.
  - rewrite length_app, Ht, Nat2Z.inj_add, Hl, length_chunk by done. done.
  - unfold decrypt_frame. rewrite length_app, Ht. rewrite (proj2 (Z.ltb_ge _ _)) by (sizes; lia).
    rewrite take_app_length', drop_app_length' by done. by rewrite Ho.
Qed.

(** Where the frames are on disk. *)
Definition layout (pt disk : bytes) : Prop :=
  zlen disk = frame_count pt * 16 + zlen pt ∧
  ∀ i, 0 ≤ i < frame_count pt →
    i * FRAME_DISK_SIZE + (16 + frame_plaintext_size (zlen pt) i) ≤ zlen disk ∧
    decrypt_frame key sigma base i
      (zslice disk (i * FRAME_DISK_SIZE) (i * FRAME_DISK_SIZE + (16 + frame_plaintext_size (zlen pt) i))) = Ok (frame_chunk pt i).

Lemma seal_frames_layout pt n i : fits pt → 0 ≤ i → i + Z.of_nat n = frame_count pt →
  ∃ disk, seal_frames key sigma base pt n i = Ok disk ∧
    zlen disk = Z.of_nat n * 16 + Z.max 0 (zlen pt - i * FRAME_SIZE) ∧
    ∀ k, i ≤ k < frame_count pt →
      (k - i) * FRAME_DISK_SIZE + (16 + frame_plaintext_size (zlen pt) k) ≤ zlen disk ∧
      decrypt_frame key sigma base k
        (zslice disk ((k - i) * FRAME_DISK_SIZE) ((k - i) * FRAME_DISK_SIZE + (16 + frame_plaintext_size (zlen pt) k)))
      = Ok (frame_chunk pt k).
Proof using Hbase H0.
  intros Hf. pose proof (frame_count_spec pt) as Hc. revert i. induction n as [|n IH]; intros i Hi Hn; cbn [seal_frames].
  { exists []. split_and!; [done| |lia]. cbn. sizes. lia. }
  destruct (seal_frame_spec pt i Hf) as (f & ct & tag & -> & _ & _ & Hl & Hd); [lia|].
  destruct (IH (i + 1)) as (disk & -> & Hlen & Hk); [lia..|]. exists (f ++ disk). split; [done|].
  assert (zlen (f ++ disk) = zlen f + zlen disk) as -> by (rewrite length_app; lia).
  split; [rewrite Hl, Hlen; sizes; lia|]. intros k Hkr. destruct (decide (k = i)) as [->|Hne].
  - rewrite Z.sub_diag, Z.mul_0_l, !Z.add_0_l, <- Hl. split; [lia|]. by rewrite zslice_app_l.
  - destruct (Hk k) as [Hle Hdk]; [lia|].
    assert ((k - i) * FRAME_DISK_SIZE = zlen f + (k - (i + 1)) * FRAME_DISK_SIZE) as -> by (rewrite Hl; sizes; lia).
    split; [lia|]. rewrite <- Z.add_assoc, zslice_app_r by (sizes; lia). done.
Qed.

Lemma encrypt_layout pt : fits pt →
  ∃ disk, seal_frames key sigma base pt (Z.to_nat (frame_count pt)) 0 = Ok disk ∧ layout pt disk.
Proof using Hbase H0.
  intros Hf. pose proof (frame_count_spec pt) as Hc.
  destruct (seal_frames_layout pt (Z.to_nat (frame_count pt)) 0 Hf) as (disk & Hs & Hl & Hk); [lia|lia|].
  exists disk. split; [done|]. split; [sizes; lia|]. intros i Hi. specialize (Hk i). rewrite Z.sub_0_r in Hk. by apply Hk.
Qed.

(** The bytes of the first frames. *)
Lemma take_chunk pt i : 0 ≤ i < frame_count pt →
  zslice pt 0 (Z.min (i * FRAME_SIZE) (zlen pt)) ++ frame_chunk pt i
  = zslice pt 0 (Z.min ((i + 1) * FRAME_SIZE) (zlen pt)).
Proof.
  intros Hi. pose proof (frame_count_spec pt) as Hc. unfold frame_chunk. rewrite Z.min_l by (sizes; lia).
  rewrite zslice_join by (sizes; lia). do 2 f_equal. sizes. lia.
Qed.

Lemma decrypt_frames_layout pt disk fuel i : fits pt → layout pt disk → 0 ≤ i ≤ frame_count pt →
  (Z.to_nat (frame_count pt - i) < fuel)%nat →
  decrypt_frames fuel key sigma disk base (zlen pt) (zslice pt 0 (Z.min (i * FRAME_SIZE) (zlen pt)))
    (Z.min (i * FRAME_DISK_SIZE) (zlen disk)) i = Ok pt.
Proof.
  intros Hf [Hl Hd]. pose proof (frame_count_spec pt) as Hc. pose proof (frame_count_fits pt Hf) as Hcf.
  revert i. induction fuel as [|fuel IH]; intros i Hi Hfuel; [lia|]. cbn [decrypt_frames].
  destruct (decide (i = frame_count pt)) as [->|Hne].
  - rewrite (proj2 (Z.ltb_ge _ _)) by (sizes; lia). rewrite Z.min_r by (sizes; lia).
    f_equal. unfold zslice, slice. rewrite Nat2Z.id, Nat.sub_0_r. apply take_ge. cbn. lia.
  - destruct (Hd i) as [Hle Hdec]; [lia|]. rewrite (Z.min_l (i * FRAME_DISK_SIZE)) by (sizes; lia).
    rewrite (proj2 (Z.ltb_lt _ _)) by (sizes; lia).
    rewrite length_zslice, Z.sub_0_r by (sizes; lia).
    assert (FRAME_TAG_SIZE + Z.min FRAME_SIZE (Z.max 0 (zlen pt - Z.min (i * FRAME_SIZE) (zlen pt)))
            = 16 + frame_plaintext_size (zlen pt) i) as E by (sizes; lia).
    rewrite E, (proj2 (Z.ltb_ge _ _)), Hdec by lia. cbn [mbind outcome_bind]. unfold add_to.
    rewrite (proj2 (Z.ltb_ge _ _)) by lia. cbn [mbind outcome_bind]. rewrite take_chunk by lia.
    replace (i * FRAME_DISK_SIZE + (16 + frame_plaintext_size (zlen pt) i)) with (Z.min ((i + 1) * FRAME_DISK_SIZE) (zlen disk)) by (sizes; lia).
    apply IH; lia.
Qed.

Lemma decrypt_all_layout pt disk : fits pt → layout pt disk → decrypt_all key sigma disk base (zlen pt) = Ok pt.
Proof.
  intros Hf Hd. pose proof (frame_count_spec pt) as Hc. unfold decrypt_all.
  pose proof (decrypt_frames_layout pt disk (S (length disk)) 0 Hf Hd) as E. rewrite !Z.mul_0_l, !Z.min_l in E by lia. change (zslice pt 0 0) with (@nil byte) in E.
  rewrite E; [|lia|destruct Hd as [Hl _]; lia]. cbn [mbind outcome_bind]. by rewrite decide_True.
Qed.

Lemma range_frames_layout pt disk n fi : layout pt disk → 0 ≤ fi → fi + Z.of_nat n ≤ frame_count pt →
  range_frames key sigma disk base (zlen pt) n fi
  = Ok (zslice pt (Z.min (fi * FRAME_SIZE) (zlen pt)) (Z.min ((fi + Z.of_nat n) * FRAME_SIZE) (zlen pt))).
Proof.
  intros [Hl Hd]. pose proof (frame_count_spec pt) as Hc. revert fi. induction n as [|n IH]; intros fi Hfi Hn; cbn [range_frames].
  { rewrite Z.add_0_r. unfold zslice, slice. by rewrite Nat.sub_diag. }
  destruct (Hd fi) as [Hle Hdec]; [lia|]. change (FRAME_TAG_SIZE + frame_plaintext_size (zlen pt) fi) with (16 + frame_plaintext_size (zlen pt) fi).
  rewrite (proj2 (Z.ltb_ge _ _)), Hdec by lia. cbn [mbind outcome_bind]. rewrite IH by lia. cbn [mbind outcome_bind]. f_equal.
  unfold frame_chunk. rewrite (Z.min_l (fi * FRAME_SIZE)) by (sizes; lia).
  replace (fi * FRAME_SIZE + FRAME_SIZE) with ((fi + 1) * FRAME_SIZE) by lia.
  rewrite zslice_join by (sizes; lia). do 2 f_equal. lia.
Qed.

Lemma decrypt_range_layout pt disk offset len : fits pt → layout pt disk → 0 ≤ offset → 0 ≤ len →
  decrypt_range key sigma disk base (zlen pt) offset len
  = Ok (take (Z.to_nat len) (drop (Z.to_nat offset) pt)).
Proof.
  intros Hf Hd Ho Hlen. pose proof (frame_count_spec pt) as Hc. pose proof (frame_count_fits pt Hf) as Hcf.
  unfold decrypt_range. destruct (Z.leb_spec (zlen pt) offset) as [Hge|Hlt].
  { rewrite drop_ge, take_nil by lia. done. }
  case_decide as E0.
  { assert (len = 0) as -> by lia. done. }
  set (al := Z.min len (zlen pt - offset)) in *. assert (0 < al ∧ offset + al ≤ zlen pt) as [Ha1 Ha2] by lia.
  assert (0 ≤ offset / FRAME_SIZE ≤ (offset + al - 1) / FRAME_SIZE) as Hq.
  { split; [apply Z.div_pos; sizes; lia|apply Z.div_le_mono; sizes; lia]. }
  assert ((offset + al - 1) / FRAME_SIZE < frame_count pt) as Hq2 by (apply Z.div_lt_upper_bound; sizes; lia).
  unfold wrap. rewrite !Z.mod_small by (sizes; lia).
  rewrite range_frames_layout by (done || lia). cbn [mbind outcome_bind].
  pose proof (Z.div_mod offset FRAME_SIZE ltac:(done)) as D1.
  pose proof (Z.div_mod (offset + al - 1) FRAME_SIZE ltac:(done)) as D2.
  pose proof (Z.mod_pos_bound offset FRAME_SIZE ltac:(done)). pose proof (Z.mod_pos_bound (offset + al - 1) FRAME_SIZE ltac:(done)).
  set (s := offset / FRAME_SIZE) in *. set (e := (offset + al - 1) / FRAME_SIZE) in *.
  rewrite Z2Nat.id by lia. replace (s + (e - s + 1)) with (e + 1) by lia.
  rewrite (Z.min_l (s * FRAME_SIZE)) by lia.
  rewrite length_zslice by (sizes; lia). rewrite (proj2 (Z.ltb_ge _ _)) by lia. f_equal.
  rewrite zslice_zslice by (clear - Ho Hlen Hq D1 D2 H1 H2 Ha1 Ha2; clearbody s e al; sizes; lia). replace (s * FRAME_SIZE + (offset - s * FRAME_SIZE)) with offset by lia.
  replace (s * FRAME_SIZE + (offset - s * FRAME_SIZE + al)) with (offset + al) by lia.
  rewrite zslice_take_drop by lia. replace (offset + al - offset) with al by lia.
  unfold al. destruct (Z.le_ge_cases len (zlen pt - offset)) as [Hm|Hm].
  - by rewrite Z.min_l.
  - rewrite Z.min_r, !take_ge by (rewrite ?length_drop; lia). done.
Qed.
End frames.

(** * Streaming *)

(** Reads that succeed and are not the end of the file. *)
Definition live (e : read_event) : Prop := match e with RData c => c ≠ [] | RErr _ => False end.

Lemma fill_frame_live reader frame : Forall live reader → zlen frame ≤ FRAME_SIZE →
  ∃ reader', fill_frame reader frame
    = Ok (frame ++ take (Z.to_nat (FRAME_SIZE - zlen frame)) (reader_content reader), reader') ∧
    Forall live reader' ∧ reader_content reader' = drop (Z.to_nat (FRAME_SIZE - zlen frame)) (reader_content reader).
Proof.
  intros Hr. revert frame. induction Hr as [|e reader He Hr IH]; intros frame Hf; cbn [fill_frame].
  all: destruct (Z.leb_spec FRAME_SIZE (zlen frame)) as [Hge|Hlt].
  all: try (replace (Z.to_nat (FRAME_SIZE - zlen frame)) with 0%nat by lia; rewrite app_nil_r; eexists; split_and!; [done|by constructor|done]).
  { exists []. cbn [reader_content concat fmap list_fmap]. by rewrite take_nil, drop_nil, app_nil_r. }
  destruct e as [c|]; [|done]. destruct c as [|b c']; [done|]. set (c := b :: c') in *.
  set (room := Z.to_nat (FRAME_SIZE - zlen frame)).
  change (reader_content (RData c :: reader)) with (c ++ reader_content reader).
  destruct (Nat.leb_spec (length c) room) as [Hfit|Hbig].
  - destruct (IH (frame ++ c)) as (reader' & -> & Hl & Hc); [rewrite length_app; lia|]. exists reader'.
    assert (Z.to_nat (FRAME_SIZE - zlen (frame ++ c)) = (room - length c)%nat) as E by (rewrite length_app; lia).
    rewrite E in *. split_and!; [|done|].
    + rewrite take_app_ge by done. by rewrite <- app_assoc.
    + rewrite drop_app_ge by done. done.
  - eexists. split_and!; [by rewrite take_app_le by lia|constructor; [|done]|].
    + cbn [live]. intros E%(f_equal length). rewrite length_drop in E. change (length (@nil byte)) with 0%nat in E. lia.
    + rewrite drop_app_le by lia. done.
Qed.

Lemma drop_chunk pt i : 0 ≤ i < frame_count pt →
  take (Z.to_nat FRAME_SIZE) (drop (Z.to_nat (i * FRAME_SIZE)) pt) = frame_chunk pt i.
Proof.
  intros Hi. pose proof (frame_count_spec pt). unfold frame_chunk.
  destruct (Z.le_ge_cases (i * FRAME_SIZE + FRAME_SIZE) (zlen pt)) as [Hm|Hm].
  - rewrite Z.min_l, zslice_take_drop by (done || sizes; lia). do 2 f_equal. lia.
  - rewrite Z.min_r, zslice_take_drop by (done || sizes; lia). rewrite !take_ge; [done|rewrite length_drop; sizes; lia..].
Qed.

Lemma take_same_length {A} (l : list A) a b : Nat.min a (length l) = Nat.min b (length l) → take a l = take b l.
Proof.
  intros E. destruct (Nat.le_ge_cases a (length l)), (Nat.le_ge_cases b (length l)).
  - f_equal. lia.
  - rewrite (take_ge l b) by done. apply take_ge. lia.
  - rewrite (take_ge l a) by done. symmetry. apply take_ge. lia.
  - by rewrite !take_ge.
Qed.

Section streaming.
Context `{AeadLaws} (key base : bytes) (sigma : rstr) (Hbase : length base = 8%nat).

Lemma stream_frames_run pt fuel reader out i : fits pt → Forall live reader → 0 ≤ i ≤ frame_count pt →
  reader_content reader = drop (Z.to_nat (i * FRAME_SIZE)) pt → (i = frame_count pt → zlen pt = i * FRAME_SIZE) →
  (length (reader_content reader) < fuel)%nat →
  ∃ disk, seal_frames key sigma base pt (Z.to_nat (frame_count pt - i)) i = Ok disk ∧
    encrypt_frames fuel key sigma base (λ _, None) reader out i (i * FRAME_SIZE) = Ok (out ++ disk, zlen pt).
Proof using Hbase H0.
  intros Hf. pose proof (frame_count_spec pt) as Hc. pose proof (frame_count_fits pt Hf) as Hcf.
  revert reader out i. induction fuel as [|fuel IH]; intros reader out i Hr Hi Hcont Hend Hfuel; [lia|].
  cbn [encrypt_frames].
  destruct (fill_frame_live reader [] Hr) as (reader' & -> & Hr' & Hc'); [sizes; cbn; lia|].
  change (FRAME_SIZE - zlen (@nil byte)) with FRAME_SIZE in *. rewrite app_nil_l. rewrite Hcont in *. cbn [mbind outcome_bind].
  destruct (decide (i = frame_count pt)) as [->|Hne].
  { specialize (Hend eq_refl). rewrite Z.sub_diag. exists []. split; [done|].
    rewrite drop_ge, take_nil by lia. rewrite bool_decide_eq_true_2 by done.
    rewrite (proj2 (Z.ltb_lt _ _)) by lia. cbn [andb]. rewrite app_nil_r, Hend. done. }
  assert (0 ≤ i < frame_count pt) as Hlt by lia.
  rewrite drop_chunk, length_chunk by done.
  destruct (seal_frame_spec key base sigma Hbase pt i Hf Hlt) as (f & ct & tag & Hsf & -> & Hs & _ & _).
  assert (bool_decide (frame_plaintext_size (zlen pt) i = 0) && (0 <? i) = false) as ->.
  { case_bool_decide as E; [|done]. cbn [andb]. apply Z.ltb_ge. sizes. lia. }
  rewrite Hs. cbn [of_sum mbind outcome_bind write_all fst snd]. unfold add_to.
  rewrite (proj2 (Z.ltb_ge u64_max _)) by (sizes; lia). cbn [mbind outcome_bind].
  rewrite (proj2 (Z.ltb_ge u32_max _)) by lia. cbn [mbind outcome_bind].
  replace (Z.to_nat (frame_count pt - i)) with (S (Z.to_nat (frame_count pt - (i + 1)))) by lia.
  cbn [seal_frames]. rewrite Hsf. cbn [mbind outcome_bind].
  destruct (decide (frame_plaintext_size (zlen pt) i < FRAME_SIZE)) as [Hshort|Hfull].
  - assert (frame_count pt = i + 1) as E by (sizes; lia). rewrite E, Z.sub_diag. exists (tag ++ ct).
    split; [change (Z.to_nat 0) with 0%nat; cbn [seal_frames mbind outcome_bind]; by rewrite app_nil_r|]. assert (i * FRAME_SIZE + frame_plaintext_size (zlen pt) i = zlen pt) as -> by (sizes; lia).
    rewrite <- app_assoc. case_decide; [done|]. by rewrite (proj2 (Z.ltb_lt _ _)).
  - assert (frame_plaintext_size (zlen pt) i = FRAME_SIZE) as Efull by (sizes; lia). rewrite Efull.
    rewrite decide_False by (sizes; lia). rewrite Z.ltb_irrefl.
    destruct (IH reader' ((out ++ tag) ++ ct) (i + 1)) as (disk & -> & Hrun); [done|lia| |sizes; lia| |].
    + rewrite Hc', drop_drop. f_equal. sizes. lia.
    + rewrite Hc', length_drop. sizes. rewrite length_drop in *. lia.
    + exists ((tag ++ ct) ++ disk). split; [done|]. replace (i * FRAME_SIZE + FRAME_SIZE) with ((i + 1) * FRAME_SIZE) by lia.
      rewrite Hrun. by rewrite <- !app_assoc.
Qed.
End streaming.

(** * The reader *)

Section reading.
Context `{AeadLaws}.

(** A reader over an encryption of [pt], whose cached frame is one of its frames. *)
Definition reads (pt : bytes) (r : FrameDecryptingReader) : Prop :=
  fr_plaintext_size r = zlen pt ∧ 0 ≤ fr_position r ∧
  layout (fr_encryptor r) (fr_base_nonce r) (fr_sigma r) pt (fr_file r) ∧
  ∀ i, fr_cached_frame r = Some i → 0 ≤ i < frame_count pt ∧ fr_frame_buf r = frame_chunk pt i.

Lemma ensure_frame_reads pt r i : reads pt r → 0 ≤ i < frame_count pt →
  ∃ r', ensure_frame i r = Ok r' ∧ reads pt r' ∧ fr_frame_buf r' = frame_chunk pt i ∧ fr_position r' = fr_position r.
Proof.
  intros (Hs & Hp & Hl & Hc) Hi. unfold ensure_frame. case_decide as E.
  { exists r. destruct (Hc i E) as [_ Hb]. split_and!; done. }
  destruct (proj2 Hl i Hi) as [Hle Hd]. rewrite Hs. change FRAME_TAG_SIZE with 16.
  rewrite (proj2 (Z.ltb_ge _ _)), Hd by lia. cbn [map_err mbind outcome_bind]. eexists. split; [done|].
  split; [|done]. split_and!; [done..|]. intros j [= <-]. done.
Qed.

Lemma reader_read_reads pt r n : fits pt → reads pt r →
  ∃ r', reader_read n r = Ok (r', take (Nat.min n (Z.to_nat (FRAME_SIZE - fr_position r mod FRAME_SIZE)))
                                   (drop (Z.to_nat (fr_position r)) pt)) ∧ reads pt r' ∧
    fr_position r' = fr_position r + zlen (take (Nat.min n (Z.to_nat (FRAME_SIZE - fr_position r mod FRAME_SIZE)))
                                   (drop (Z.to_nat (fr_position r)) pt)).
Proof.
  intros Hf Hr. pose proof (frame_count_spec pt) as Hc. pose proof (frame_count_fits pt Hf) as Hcf.
  pose proof Hr as (Hs & Hp & _). unfold reader_read. rewrite Hs. set (p := fr_position r) in *.
  destruct (Z.leb_spec (zlen pt) p) as [Hge|Hlt].
  { exists r. rewrite drop_ge, take_nil by lia. cbn [length]. rewrite Z.add_0_r. done. }
  pose proof (Z.div_mod p FRAME_SIZE ltac:(done)) as D. pose proof (Z.mod_pos_bound p FRAME_SIZE ltac:(done)) as Dm.
  set (i := p / FRAME_SIZE) in *. set (o := p mod FRAME_SIZE) in *.
  assert (0 ≤ i < frame_count pt) as Hi.
  { split; [apply Z.div_pos; sizes; lia|apply Z.div_lt_upper_bound; sizes; lia]. }
  unfold wrap. rewrite Z.mod_small by (sizes; lia).
  destruct (ensure_frame_reads pt r i Hr Hi) as (r1 & -> & Hr1 & Hb & Hpos). cbn [mbind outcome_bind]. rewrite Hb, Hpos.
  pose proof (length_chunk pt i Hi) as Hlc.
  rewrite (proj2 (Nat.ltb_ge _ _)) by (sizes; lia).
  assert (slice (frame_chunk pt i) (Z.to_nat o) (Z.to_nat o + Nat.min (length (frame_chunk pt i) - Z.to_nat o) n)
          = take (Nat.min n (Z.to_nat (FRAME_SIZE - o))) (drop (Z.to_nat p) pt)) as E.
  { rewrite <- (drop_chunk pt i Hi). unfold slice. rewrite skipn_firstn_comm, drop_drop, take_take.
    assert (Z.to_nat (i * FRAME_SIZE) + Z.to_nat o = Z.to_nat p)%nat as -> by (clear - D Dm Hi; clearbody i o; sizes; lia).
    assert (length (drop (Z.to_nat (i * FRAME_SIZE)) pt) = Z.to_nat o + length (drop (Z.to_nat p) pt))%nat as EL.
    { rewrite !length_drop. clear - D Dm Hi Hlt. clearbody i o. sizes. lia. }
    apply take_same_length. rewrite length_take, EL. generalize (length (drop (Z.to_nat p) pt)). intros L.
    assert (Z.to_nat FRAME_SIZE = Z.to_nat o + Z.to_nat (FRAME_SIZE - o))%nat as -> by (clear - Dm; clearbody o; lia).
    generalize (Z.to_nat (FRAME_SIZE - o)) (Z.to_nat o). clear. lia. }
  rewrite E. eexists. split; [done|]. split.
  - destruct Hr1 as (A1 & _ & A3 & A4). split_and!; [done|cbn; lia|done|done].
  - cbn [fr_position set_position]. rewrite length_take, length_drop. sizes. lia.
Qed.

Lemma reader_drain_reads pt r n fuel : fits pt → reads pt r → (0 < n)%nat →
  (Z.to_nat (zlen pt - fr_position r) < fuel)%nat →
  reader_drain fuel n r = Ok (drop (Z.to_nat (fr_position r)) pt).
Proof.
  intros Hf. revert r. induction fuel as [|fuel IH]; intros r Hr Hn Hfuel; [lia|]. cbn [reader_drain].
  destruct (reader_read_reads pt r n Hf Hr) as (r' & -> & Hr' & Hp). cbn [mbind outcome_bind fst snd].
  set (k := Nat.min n _) in *. assert (1 ≤ k)%nat as Hk.
  { unfold k. pose proof (Z.mod_pos_bound (fr_position r) FRAME_SIZE ltac:(done)). lia. }
  destruct Hr as (_ & Hpos & _). case_decide as E.
  - apply (f_equal length) in E. rewrite length_take, length_drop in E. cbn in E. by rewrite drop_ge by lia.
  - rewrite IH; [|done|done|].
    + cbn [mbind outcome_bind]. f_equal. rewrite <- (take_drop k (drop (Z.to_nat (fr_position r)) pt)) at 2. f_equal.
      rewrite Hp, drop_drop, length_take, length_drop.
      destruct (Nat.le_ge_cases k (length pt - Z.to_nat (fr_position r))).
      * f_equal. lia.
      * rewrite !drop_ge; [done|lia|lia].
    + assert (1 ≤ length (take k (drop (Z.to_nat (fr_position r)) pt)))%nat by (destruct (take k _); [done|cbn; lia]).
      rewrite length_take, length_drop in *. lia.
Qed.
End reading.

Section table_facts.
Context `{AeadLaws} `{KeyedHashLaws}.

Lemma encrypt_value_opens ns_key key value : zlen value ≤ gcm_limit →
  ∃ stored, encrypt_value ns_key key value = Ok stored ∧ zlen stored = zlen value + 16 ∧
    decrypt_value ns_key key stored = Ok value.
Proof.
  intros Hv.
  assert (length (take nonce_len (nonce_for_key ns_key key)) = 12%nat) as Hn.
  { unfold nonce_for_key. rewrite nonce_len_12, !length_take, keyed_hash_length. done. }
  destruct (seal_open ns_key _ key value Hn Hv) as (ct & tag & Hs & Hl & Ht & Ho).
  exists (tag ++ ct). unfold encrypt_value, decrypt_value. rewrite Hs. split_and!; [done|rewrite length_app; lia|].
  rewrite (proj2 (Z.ltb_ge _ _)) by (rewrite length_app; lia). rewrite take_app_length', drop_app_length' by done.
  by rewrite Ho.
Qed.
End table_facts.

(** * Properties *)

Section sample_cipher.
(** A cipher for evaluating examples: the ciphertext is the plaintext reversed
    and the tag repeats the nonce and the end of the associated data. *)
#[export] Instance sample_aead : AeadCrate := {|
  aes_key_new k := bool_decide (length k = 32%nat);
  seal_detached key nonce aad pt :=
    if decide (length nonce = 12%nat) then inl (rev pt, take 16 (nonce ++ take 4 (rev aad) ++ repeat x00 16)) else inr (rs "nonce");
  open_detached key nonce aad ct tag :=
    if decide (tag = take 16 (nonce ++ take 4 (rev aad) ++ repeat x00 16)) then inl (rev ct) else inr (rs "tag");
  nonce_len := 12;
|}.

#[export] Instance sample_aead_laws : AeadLaws.
Proof.
  split; [done|]. intros key nonce aad pt Hn _. cbn. rewrite decide_True by done. eexists _, _. split; [done|].
  rewrite length_rev. split; [done|]. split; [rewrite length_take, !length_app, Hn; cbn [repeat length]; lia|].
  rewrite decide_True, rev_involutive by done. done.
Qed.

#[export] Instance sample_derive_key : DeriveKey := λ context secret, take 32 (context ++ secret ++ repeat x00 32).
End sample_cipher.



(** The reader over an encrypted file is a reader over its plaintext.  From
    any position, cached frame or not, [read] returns bytes of the plaintext from
    that position, as many as the buffer and the frame allow and none only at the
    end or for an empty buffer, and advances by as many; reading on to the end
    returns the rest; and [seek] to a position that a signed offset can express
    moves there, also past the end. *)
Theorem frame_reader_correct `{AeadLaws} pt r (Hf : fits pt) (Hr : reads pt r) :
  (∀ n, ∃ r' data, reader_read n r = Ok (r', data) ∧ reads pt r' ∧
     data = take (length data) (drop (Z.to_nat (fr_position r)) pt) ∧ (length data ≤ n)%nat ∧
     (data = [] → n = 0%nat ∨ zlen pt ≤ fr_position r) ∧ fr_position r' = fr_position r + zlen data) ∧
  (∀ n, (0 < n)%nat → reader_drain (S (length pt)) n r = Ok (drop (Z.to_nat (fr_position r)) pt)) ∧
  (∀ p, 0 ≤ p ≤ isize_max → ∃ r', reader_seek (SeekStart p) r = Ok (r', p) ∧ reads pt r' ∧ fr_position r' = p).
Proof.
  pose proof Hr as (Hs & Hp & Hl & Hc). split_and!.
  - intros n. destruct (reader_read_reads pt r n Hf Hr) as (r' & E & Hr' & Hpos). eexists r', _. split; [exact E|].
    set (k := Nat.min n _) in *. split_and!; [done| | | |done].
    + apply take_same_length. rewrite length_take. lia.
    + rewrite length_take. lia.
    + intros E0%(f_equal length). rewrite length_take, length_drop in E0. change (length (@nil byte)) with 0%nat in E0.
      pose proof (Z.mod_pos_bound (fr_position r) FRAME_SIZE ltac:(done)). lia.
  - intros n Hn. apply (reader_drain_reads pt r n); [done..|lia].
  - intros p Hpr. unfold reader_seek, to_i64, wrap. rewrite Z.mod_small by (unfold isize_max in *; lia).
    rewrite (proj2 (Z.ltb_ge _ _)) by lia. cbn [mbind outcome_bind]. rewrite (proj2 (Z.ltb_ge _ _)) by lia.
    eexists. split; [done|]. split; [|done]. case_decide; (split_and!; [done|cbn; lia|done|]); [done|by intros i [=]].
Qed.

Lemma frame_reader_correct_witness :
  ∃ disk, reads (rs "hello") (mkReader disk (repeat x01 32) (repeat x07 8) (rs "sha256:ab") 5 2 [] None) ∧
    reader_drain 6 2 (mkReader disk (repeat x01 32) (repeat x07 8) (rs "sha256:ab") 5 2 [] None) = Ok (rs "llo").
Proof.
  assert (fits (rs "hello")) as Hf by (unfold fits; vm_compute; discriminate).
  destruct (encrypt_layout (repeat x01 32) (repeat x07 8) (rs "sha256:ab") eq_refl (rs "hello") Hf) as (disk & _ & Hl).
  exists disk. assert (reads (rs "hello") (mkReader disk (repeat x01 32) (repeat x07 8) (rs "sha256:ab") 5 2 [] None)) as Hr.
  { split_and!; [reflexivity|cbn; lia|exact Hl|by intros i [=]]. }
  split; [exact Hr|]. destruct (frame_reader_correct _ _ Hf Hr) as (_ & H2 & _). apply (H2 2%nat). lia.
Defined.

(** A table value is read back under its key. *)
Theorem table_value_roundtrip `{AeadLaws} `{KeyedHashLaws} ns_key key value (Hv : zlen value ≤ gcm_limit) :
  ∃ stored, encrypt_value ns_key key value = Ok stored ∧ zlen stored = zlen value + 16 ∧
    decrypt_value ns_key key stored = Ok value.
Proof. by apply encrypt_value_opens. Qed.

Lemma table_value_roundtrip_witness :
  ∃ stored, encrypt_value (repeat x01 32) (rs "k") (rs "v") = Ok stored ∧
    decrypt_value (repeat x01 32) (rs "k") stored = Ok (rs "v").
Proof.
  destruct (table_value_roundtrip (repeat x01 32) (rs "k") (rs "v")) as (st & H1 & _ & H2).
  - unfold gcm_limit. cbn. lia.
  - by exists st.
Defined.

(** Erasing a subject's key makes it underivable, and with it the key of every
    other pair that is spelt the same around the slash: the subject ["b/c"] of
    namespace ["a"] is the subject ["c"] of namespace ["a/b"]. *)
Theorem erasure_crosses_namespaces `{HashCrates} `{DeriveKey} k k' (ns mid subject : rstr)
  (Hrun : erase_subject_key (ns ++ rs "/" ++ mid) subject k = (k', Ok ())) :
  derive_subject_key (ns ++ rs "/" ++ mid) subject k' = Err InvalidKey ∧
  derive_subject_key ns (mid ++ rs "/" ++ subject) k' = Err InvalidKey ∧
  (is_erased ns (mid ++ rs "/" ++ subject) k = Ok false →
   derive_subject_key ns (mid ++ rs "/" ++ subject) k = derive_subject_key (ns ++ rs "/" ++ mid) subject k).
Proof.
  assert ((ns ++ rs "/" ++ mid) ++ rs "/" ++ subject = ns ++ rs "/" ++ mid ++ rs "/" ++ subject) as E
    by (by rewrite <- !app_assoc).
  apply pair_eq in Hrun as [<- _]. unfold derive_subject_key, is_erased, erased_marker_path. cbn [erased_dir mbind outcome_bind].
  rewrite E. split_and!.
  - rewrite bool_decide_eq_true_2 by (apply elem_of_union_l; by apply elem_of_singleton). done.
  - rewrite bool_decide_eq_true_2 by (apply elem_of_union_l; by apply elem_of_singleton). done.
  - done.
Qed.

Lemma erasure_crosses_namespaces_witness :
  let k' := (erase_subject_key (rs "a" ++ rs "/" ++ rs "b") (rs "c") (FileKms_new (repeat x01 32))).1 in
  derive_subject_key (rs "a") (rs "b" ++ rs "/" ++ rs "c") k' = Err InvalidKey.
Proof.
  intros k'. destruct (erasure_crosses_namespaces (FileKms_new (repeat x01 32)) k' (rs "a") (rs "b") (rs "c") eq_refl)
    as (_ & Hd & _). exact Hd.
Defined.
