(* ===== verification/RedbTable.v ===== *)
(** RedbTable: the database of [PersistentStore], [kappa-store-redb/src]: its
    tables ([tables.rs]), transactions, ordered scans and value encryption
    ([lib.rs]).

    [redb] is a crate: a table is a finite map from its keys, a multimap table a
    finite map to sets.  A range visits the keys in the order of their bytes; a
    write transaction that is not committed leaves nothing.  Failures of the disk
    are not modelled. *)

From S2P Require Import Prelude Label Compute Types Identity Store MemTags Gc Http Aead.

(** * The tables *)

Record tables := mkTables {
  t_tags : gmap rstr rstr;
  t_edges : gmap rstr bytes;
  t_edge_fwd : gmap rstr (gset rstr);
  t_edge_rev : gmap rstr (gset rstr);
  t_edge_rel : gmap rstr (gset rstr);
  t_edge_asr : gmap rstr (gset rstr);
  t_sequences : gmap rstr bytes;
  t_blob_meta : gmap rstr bytes;
  t_ns_meta : gmap rstr (gset rstr);
  t_namespaces : gset rstr;
  t_namespace_aliases : gmap rstr bytes;
  t_namespace_records : gmap bytes bytes;
  t_alias_history : gmap bytes bytes;
  t_epoch_current : gmap rstr rstr;
  t_binding_records : gmap rstr bytes;
  t_credentials : gmap rstr bytes;
  t_versions : gmap bytes bytes;
  t_compression_records : gmap rstr bytes;
  t_identity_bindings : gmap rstr (gset rstr);
  t_identity_successions : gmap rstr rstr;
  t_assertion_inbound : gmap rstr (gset rstr);
}.

Definition empty_tables : tables := mkTables ∅ ∅ ∅ ∅ ∅ ∅ ∅ ∅ ∅ ∅ ∅ ∅ ∅ ∅ ∅ ∅ ∅ ∅ ∅ ∅ ∅.

(** Table updates. *)
Definition on_tags (f : gmap rstr rstr → gmap rstr rstr) (d : tables) : tables :=
  mkTables (f (t_tags d)) (t_edges d) (t_edge_fwd d) (t_edge_rev d) (t_edge_rel d) (t_edge_asr d) (t_sequences d) (t_blob_meta d) (t_ns_meta d) (t_namespaces d) (t_namespace_aliases d) (t_namespace_records d) (t_alias_history d) (t_epoch_current d) (t_binding_records d) (t_credentials d) (t_versions d) (t_compression_records d) (t_identity_bindings d) (t_identity_successions d) (t_assertion_inbound d).
Definition on_edges (f : gmap rstr bytes → gmap rstr bytes) (d : tables) : tables :=
  mkTables (t_tags d) (f (t_edges d)) (t_edge_fwd d) (t_edge_rev d) (t_edge_rel d) (t_edge_asr d) (t_sequences d) (t_blob_meta d) (t_ns_meta d) (t_namespaces d) (t_namespace_aliases d) (t_namespace_records d) (t_alias_history d) (t_epoch_current d) (t_binding_records d) (t_credentials d) (t_versions d) (t_compression_records d) (t_identity_bindings d) (t_identity_successions d) (t_assertion_inbound d).
Definition on_edge_fwd (f : gmap rstr (gset rstr) → gmap rstr (gset rstr)) (d : tables) : tables :=
  mkTables (t_tags d) (t_edges d) (f (t_edge_fwd d)) (t_edge_rev d) (t_edge_rel d) (t_edge_asr d) (t_sequences d) (t_blob_meta d) (t_ns_meta d) (t_namespaces d) (t_namespace_aliases d) (t_namespace_records d) (t_alias_history d) (t_epoch_current d) (t_binding_records d) (t_credentials d) (t_versions d) (t_compression_records d) (t_identity_bindings d) (t_identity_successions d) (t_assertion_inbound d).
Definition on_edge_rev (f : gmap rstr (gset rstr) → gmap rstr (gset rstr)) (d : tables) : tables :=
  mkTables (t_tags d) (t_edges d) (t_edge_fwd d) (f (t_edge_rev d)) (t_edge_rel d) (t_edge_asr d) (t_sequences d) (t_blob_meta d) (t_ns_meta d) (t_namespaces d) (t_namespace_aliases d) (t_namespace_records d) (t_alias_history d) (t_epoch_current d) (t_binding_records d) (t_credentials d) (t_versions d) (t_compression_records d) (t_identity_bindings d) (t_identity_successions d) (t_assertion_inbound d).
Definition on_edge_rel (f : gmap rstr (gset rstr) → gmap rstr (gset rstr)) (d : tables) : tables :=
  mkTables (t_tags d) (t_edges d) (t_edge_fwd d) (t_edge_rev d) (f (t_edge_rel d)) (t_edge_asr d) (t_sequences d) (t_blob_meta d) (t_ns_meta d) (t_namespaces d) (t_namespace_aliases d) (t_namespace_records d) (t_alias_history d) (t_epoch_current d) (t_binding_records d) (t_credentials d) (t_versions d) (t_compression_records d) (t_identity_bindings d) (t_identity_successions d) (t_assertion_inbound d).
Definition on_edge_asr (f : gmap rstr (gset rstr) → gmap rstr (gset rstr)) (d : tables) : tables :=
  mkTables (t_tags d) (t_edges d) (t_edge_fwd d) (t_edge_rev d) (t_edge_rel d) (f (t_edge_asr d)) (t_sequences d) (t_blob_meta d) (t_ns_meta d) (t_namespaces d) (t_namespace_aliases d) (t_namespace_records d) (t_alias_history d) (t_epoch_current d) (t_binding_records d) (t_credentials d) (t_versions d) (t_compression_records d) (t_identity_bindings d) (t_identity_successions d) (t_assertion_inbound d).
Definition on_sequences (f : gmap rstr bytes → gmap rstr bytes) (d : tables) : tables :=
  mkTables (t_tags d) (t_edges d) (t_edge_fwd d) (t_edge_rev d) (t_edge_rel d) (t_edge_asr d) (f (t_sequences d)) (t_blob_meta d) (t_ns_meta d) (t_namespaces d) (t_namespace_aliases d) (t_namespace_records d) (t_alias_history d) (t_epoch_current d) (t_binding_records d) (t_credentials d) (t_versions d) (t_compression_records d) (t_identity_bindings d) (t_identity_successions d) (t_assertion_inbound d).
Definition on_blob_meta (f : gmap rstr bytes → gmap rstr bytes) (d : tables) : tables :=
  mkTables (t_tags d) (t_edges d) (t_edge_fwd d) (t_edge_rev d) (t_edge_rel d) (t_edge_asr d) (t_sequences d) (f (t_blob_meta d)) (t_ns_meta d) (t_namespaces d) (t_namespace_aliases d) (t_namespace_records d) (t_alias_history d) (t_epoch_current d) (t_binding_records d) (t_credentials d) (t_versions d) (t_compression_records d) (t_identity_bindings d) (t_identity_successions d) (t_assertion_inbound d).
Definition on_ns_meta (f : gmap rstr (gset rstr) → gmap rstr (gset rstr)) (d : tables) : tables :=
  mkTables (t_tags d) (t_edges d) (t_edge_fwd d) (t_edge_rev d) (t_edge_rel d) (t_edge_asr d) (t_sequences d) (t_blob_meta d) (f (t_ns_meta d)) (t_namespaces d) (t_namespace_aliases d) (t_namespace_records d) (t_alias_history d) (t_epoch_current d) (t_binding_records d) (t_credentials d) (t_versions d) (t_compression_records d) (t_identity_bindings d) (t_identity_successions d) (t_assertion_inbound d).
Definition on_namespaces (f : gset rstr → gset rstr) (d : tables) : tables :=
  mkTables (t_tags d) (t_edges d) (t_edge_fwd d) (t_edge_rev d) (t_edge_rel d) (t_edge_asr d) (t_sequences d) (t_blob_meta d) (t_ns_meta d) (f (t_namespaces d)) (t_namespace_aliases d) (t_namespace_records d) (t_alias_history d) (t_epoch_current d) (t_binding_records d) (t_credentials d) (t_versions d) (t_compression_records d) (t_identity_bindings d) (t_identity_successions d) (t_assertion_inbound d).
Definition on_namespace_aliases (f : gmap rstr bytes → gmap rstr bytes) (d : tables) : tables :=
  mkTables (t_tags d) (t_edges d) (t_edge_fwd d) (t_edge_rev d) (t_edge_rel d) (t_edge_asr d) (t_sequences d) (t_blob_meta d) (t_ns_meta d) (t_namespaces d) (f (t_namespace_aliases d)) (t_namespace_records d) (t_alias_history d) (t_epoch_current d) (t_binding_records d) (t_credentials d) (t_versions d) (t_compression_records d) (t_identity_bindings d) (t_identity_successions d) (t_assertion_inbound d).
Definition on_namespace_records (f : gmap bytes bytes → gmap bytes bytes) (d : tables) : tables :=
  mkTables (t_tags d) (t_edges d) (t_edge_fwd d) (t_edge_rev d) (t_edge_rel d) (t_edge_asr d) (t_sequences d) (t_blob_meta d) (t_ns_meta d) (t_namespaces d) (t_namespace_aliases d) (f (t_namespace_records d)) (t_alias_history d) (t_epoch_current d) (t_binding_records d) (t_credentials d) (t_versions d) (t_compression_records d) (t_identity_bindings d) (t_identity_successions d) (t_assertion_inbound d).
Definition on_alias_history (f : gmap bytes bytes → gmap bytes bytes) (d : tables) : tables :=
  mkTables (t_tags d) (t_edges d) (t_edge_fwd d) (t_edge_rev d) (t_edge_rel d) (t_edge_asr d) (t_sequences d) (t_blob_meta d) (t_ns_meta d) (t_namespaces d) (t_namespace_aliases d) (t_namespace_records d) (f (t_alias_history d)) (t_epoch_current d) (t_binding_records d) (t_credentials d) (t_versions d) (t_compression_records d) (t_identity_bindings d) (t_identity_successions d) (t_assertion_inbound d).
Definition on_epoch_current (f : gmap rstr rstr → gmap rstr rstr) (d : tables) : tables :=
  mkTables (t_tags d) (t_edges d) (t_edge_fwd d) (t_edge_rev d) (t_edge_rel d) (t_edge_asr d) (t_sequences d) (t_blob_meta d) (t_ns_meta d) (t_namespaces d) (t_namespace_aliases d) (t_namespace_records d) (t_alias_history d) (f (t_epoch_current d)) (t_binding_records d) (t_credentials d) (t_versions d) (t_compression_records d) (t_identity_bindings d) (t_identity_successions d) (t_assertion_inbound d).
Definition on_binding_records (f : gmap rstr bytes → gmap rstr bytes) (d : tables) : tables :=
  mkTables (t_tags d) (t_edges d) (t_edge_fwd d) (t_edge_rev d) (t_edge_rel d) (t_edge_asr d) (t_sequences d) (t_blob_meta d) (t_ns_meta d) (t_namespaces d) (t_namespace_aliases d) (t_namespace_records d) (t_alias_history d) (t_epoch_current d) (f (t_binding_records d)) (t_credentials d) (t_versions d) (t_compression_records d) (t_identity_bindings d) (t_identity_successions d) (t_assertion_inbound d).
Definition on_credentials (f : gmap rstr bytes → gmap rstr bytes) (d : tables) : tables :=
  mkTables (t_tags d) (t_edges d) (t_edge_fwd d) (t_edge_rev d) (t_edge_rel d) (t_edge_asr d) (t_sequences d) (t_blob_meta d) (t_ns_meta d) (t_namespaces d) (t_namespace_aliases d) (t_namespace_records d) (t_alias_history d) (t_epoch_current d) (t_binding_records d) (f (t_credentials d)) (t_versions d) (t_compression_records d) (t_identity_bindings d) (t_identity_successions d) (t_assertion_inbound d).
Definition on_versions (f : gmap bytes bytes → gmap bytes bytes) (d : tables) : tables :=
  mkTables (t_tags d) (t_edges d) (t_edge_fwd d) (t_edge_rev d) (t_edge_rel d) (t_edge_asr d) (t_sequences d) (t_blob_meta d) (t_ns_meta d) (t_namespaces d) (t_namespace_aliases d) (t_namespace_records d) (t_alias_history d) (t_epoch_current d) (t_binding_records d) (t_credentials d) (f (t_versions d)) (t_compression_records d) (t_identity_bindings d) (t_identity_successions d) (t_assertion_inbound d).
Definition on_compression_records (f : gmap rstr bytes → gmap rstr bytes) (d : tables) : tables :=
  mkTables (t_tags d) (t_edges d) (t_edge_fwd d) (t_edge_rev d) (t_edge_rel d) (t_edge_asr d) (t_sequences d) (t_blob_meta d) (t_ns_meta d) (t_namespaces d) (t_namespace_aliases d) (t_namespace_records d) (t_alias_history d) (t_epoch_current d) (t_binding_records d) (t_credentials d) (t_versions d) (f (t_compression_records d)) (t_identity_bindings d) (t_identity_successions d) (t_assertion_inbound d).
Definition on_identity_bindings (f : gmap rstr (gset rstr) → gmap rstr (gset rstr)) (d : tables) : tables :=
  mkTables (t_tags d) (t_edges d) (t_edge_fwd d) (t_edge_rev d) (t_edge_rel d) (t_edge_asr d) (t_sequences d) (t_blob_meta d) (t_ns_meta d) (t_namespaces d) (t_namespace_aliases d) (t_namespace_records d) (t_alias_history d) (t_epoch_current d) (t_binding_records d) (t_credentials d) (t_versions d) (t_compression_records d) (f (t_identity_bindings d)) (t_identity_successions d) (t_assertion_inbound d).
Definition on_identity_successions (f : gmap rstr rstr → gmap rstr rstr) (d : tables) : tables :=
  mkTables (t_tags d) (t_edges d) (t_edge_fwd d) (t_edge_rev d) (t_edge_rel d) (t_edge_asr d) (t_sequences d) (t_blob_meta d) (t_ns_meta d) (t_namespaces d) (t_namespace_aliases d) (t_namespace_records d) (t_alias_history d) (t_epoch_current d) (t_binding_records d) (t_credentials d) (t_versions d) (t_compression_records d) (t_identity_bindings d) (f (t_identity_successions d)) (t_assertion_inbound d).
Definition on_assertion_inbound (f : gmap rstr (gset rstr) → gmap rstr (gset rstr)) (d : tables) : tables :=
  mkTables (t_tags d) (t_edges d) (t_edge_fwd d) (t_edge_rev d) (t_edge_rel d) (t_edge_asr d) (t_sequences d) (t_blob_meta d) (t_ns_meta d) (t_namespaces d) (t_namespace_aliases d) (t_namespace_records d) (t_alias_history d) (t_epoch_current d) (t_binding_records d) (t_credentials d) (t_versions d) (t_compression_records d) (t_identity_bindings d) (t_identity_successions d) (f (t_assertion_inbound d)).

(** * Transactions *)

(** A write transaction: its changes are kept when it commits, and dropped with
    it when the function returns early or panics. *)
Definition write_txn {A} (m : M tables A) : M tables A := λ d,
  match m d with
  | (d', Ok a) => (d', Ok a)
  | (_, r) => (d, r)
  end.

(** [insert] and [remove] on a multimap table. *)
Definition multimap_insert (key value : rstr) (m : gmap rstr (gset rstr)) : gmap rstr (gset rstr) :=
  <[key := {[value]} ∪ default ∅ (m !! key)]> m.
Definition multimap_remove (key value : rstr) (m : gmap rstr (gset rstr)) : gmap rstr (gset rstr) :=
  <[key := default ∅ (m !! key) ∖ {[value]}]> m.

(** [get] on a multimap table: the values in their order. *)
Definition multimap_get (key : rstr) (m : gmap rstr (gset rstr)) : list rstr :=
  sort_strings (elements (default ∅ (m !! key))).

(** * Ordered scans *)

Definition key_le {V} (a b : bytes * V) : bool := bytes_leb a.1 b.1.

(** [table.iter()]. *)
Definition table_iter {V} (m : gmap bytes V) : list (bytes * V) := sort_by key_le (map_to_list m).

Definition in_key_range (start : bytes) (stop : option bytes) (k : bytes) : bool :=
  bytes_leb start k && match stop with Some e => bytes_ltb k e | None => true end.

(** [table.range(start..end)] and [table.range(start..)]. *)
Definition table_range {V} (start : bytes) (stop : option bytes) (m : gmap bytes V) : list (bytes * V) :=
  filter (λ kv, in_key_range start stop kv.1 = true) (table_iter m).

(** The loop works from the last byte; the list here is the prefix reversed. *)
Fixpoint successor_loop (rprefix : bytes) : option bytes :=
  match rprefix with
  | [] => None
  | b :: rest => if b2z b <? 0xFF then Some (rev (z2b (b2z b + 1) :: rest)) else successor_loop rest
  end.
Definition prefix_successor (prefix : bytes) : option bytes := successor_loop (rev prefix).

(** [std::io::Error::other(e.to_string())]. *)
Definition io_other (msg : rstr) : StoreError := SIo msg.

(** The texts of the errors of [hex::decode] and [String::from_utf8]. *)
Class ErrorTexts := { hex_error : rstr → rstr; utf8_error : bytes → rstr }.

(** * Encrypted values *)

Definition NUL : byte := x00.

(** [format!("{}\x00{}", a, b)]. *)
Definition join_key (a b : rstr) : rstr := a ++ NUL :: b.

Section values.
Context `{AeadCrate} `{KeyedHash} `{HashCrates} `{HexDecode} `{ErrorTexts}.
(** [self.table_encryptor]. *)
Context (enc : option bytes).

Definition seal_bytes (db_key : rstr) (value : bytes) : outcome StoreError bytes :=
  match enc with
  | Some ns_key => map_err (λ e, io_other (encryption_error_str e)) (encrypt_value ns_key db_key value)
  | None => Ok value
  end.

Definition open_bytes (db_key : rstr) (raw : bytes) : outcome StoreError bytes :=
  match enc with
  | Some ns_key => map_err (λ e, io_other (encryption_error_str e)) (decrypt_value ns_key db_key raw)
  | None => Ok raw
  end.

(** Tables of strings hold the hex digits of the sealed bytes. *)
Definition seal_str (db_key value : rstr) : outcome StoreError rstr :=
  match enc with
  | Some ns_key =>
      sealed ← map_err (λ e, io_other (encryption_error_str e)) (encrypt_value ns_key db_key value);
      Ok (hex_encode sealed)
  | None => Ok value
  end.

Definition open_str (db_key raw : rstr) : outcome StoreError rstr :=
  match enc with
  | Some ns_key =>
      encrypted ← ok_or (hex_decode raw) (io_other (hex_error raw));
      plaintext ← map_err (λ e, io_other (encryption_error_str e)) (decrypt_value ns_key db_key encrypted);
      if utf8_valid plaintext then Ok plaintext else Err (io_other (utf8_error plaintext))
  | None => Ok raw
  end.
End values.

(** * What a scan visits *)

(** The successor from the front: a byte above the prefix is added at the last
    place that is not [0xFF]. *)
Fixpoint successor_front (p : bytes) : option bytes :=
  match p with
  | [] => None
  | b :: p =>
      match successor_front p with
      | Some e => Some (b :: e)
      | None => if b2z b <? 0xFF then Some [z2b (b2z b + 1)] else None
      end
  end.

Lemma successor_loop_snoc l b :
  successor_loop (l ++ [b]) = match successor_loop l with
                              | Some e => Some (b :: e)
                              | None => if b2z b <? 0xFF then Some [z2b (b2z b + 1)] else None
                              end.
Proof.
  induction l as [|c l IH]; cbn [successor_loop app]; [done|].
  destruct (b2z c <? 255); [|done]. by rewrite app_comm_cons, rev_app_distr.
Qed.

Lemma prefix_successor_front p : prefix_successor p = successor_front p.
Proof.
  unfold prefix_successor. induction p as [|b p IH]; cbn [rev successor_front]; [done|].
  by rewrite successor_loop_snoc, IH.
Qed.

Lemma starts_with_cons b p c k : starts_with (b :: p) (c :: k) = bool_decide (b = c) && starts_with p k.
Proof.
  unfold starts_with. apply eq_iff_eq_true. rewrite andb_true_iff, !bool_decide_eq_true. split.
  - intros [x [= -> ->]]. split; [done|by exists x].
  - intros [-> [x ->]]. by exists x.
Qed.

(** The scanned range holds exactly the keys with the prefix, also at the top of
    the key space. *)
Lemma prefix_range_exact p k : in_key_range p (prefix_successor p) k = starts_with p k.
Proof.
  rewrite prefix_successor_front. revert k. induction p as [|b p IH]; intros k.
  { unfold in_key_range, starts_with. cbn. by rewrite bool_decide_eq_true_2 by apply prefix_nil. }
  destruct k as [|c k].
  { unfold in_key_range, starts_with. cbn. rewrite bool_decide_eq_false_2; [done|]. intros [x [=]]. }
  rewrite starts_with_cons. specialize (IH k). unfold in_key_range in *. cbn [successor_front].
  pose proof (b2z_range b) as Hb. pose proof (b2z_range c) as Hc.
  assert (∀ e, bytes_ltb (c :: k) (b :: e) = (b2z c <? b2z b) || (bool_decide (b = c) && bytes_ltb k e)) as Hlt.
  { intros e. unfold bytes_ltb. cbn [bytes_leb]. case_bool_decide as E; [subst; by rewrite Z.ltb_irrefl|].
    assert (b2z b ≠ b2z c) by (intros ?%b2z_inj; done).
    destruct (Z.ltb_spec (b2z b) (b2z c)), (Z.ltb_spec (b2z c) (b2z b)); done || lia. }
  cbn [bytes_leb]. case_bool_decide as E; cbn [andb].
  - subst c. rewrite Z.ltb_irrefl. rewrite <- IH. destruct (successor_front p) as [e|]; [by rewrite Hlt, Z.ltb_irrefl|].
    destruct (Z.ltb_spec (b2z b) 255); [|done].
    unfold bytes_ltb at 1. cbn [bytes_leb]. rewrite b2z_z2b, Z.mod_small by lia.
    rewrite (proj2 (Z.ltb_ge (b2z b + 1) (b2z b))), (proj2 (Z.ltb_lt (b2z b) (b2z b + 1))) by lia. done.
  - assert (b2z b ≠ b2z c) by (intros ?%b2z_inj; done).
    destruct (Z.ltb_spec (b2z b) (b2z c)) as [Hbc|Hbc].
    + cbn [andb]. destruct (successor_front p) as [e|].
      { rewrite Hlt. rewrite (proj2 (Z.ltb_ge (b2z c) (b2z b))) by lia. done. }
      rewrite (proj2 (Z.ltb_lt (b2z b) 255)) by lia. unfold bytes_ltb. cbn [bytes_leb].
      rewrite b2z_z2b, Z.mod_small by lia. destruct (Z.ltb_spec (b2z b + 1) (b2z c)); [done|].
      by rewrite (proj2 (Z.ltb_ge (b2z c) (b2z b + 1))) by lia.
    + rewrite (proj2 (Z.ltb_lt (b2z c) (b2z b))) by lia. done.
Qed.

Section scans.
Context {V : Type}.
Implicit Types (m : gmap bytes V).

Lemma table_range_elem start stop m k v :
  (k, v) ∈ table_range start stop m ↔ m !! k = Some v ∧ in_key_range start stop k = true.
Proof.
  unfold table_range, table_iter. rewrite list_elem_of_filter, elem_of_sort_by, elem_of_map_to_list. naive_solver.
Qed.

Lemma table_iter_keys m : NoDup (table_iter m).*1.
Proof. unfold table_iter. rewrite sort_by_perm. apply NoDup_fst_map_to_list. Qed.

Lemma strongly_sorted_filter {A} (R : A → A → Prop) (P : A → Prop) `{∀ x, Decision (P x)} l :
  StronglySorted R l → StronglySorted R (filter P l).
Proof.
  induction 1 as [|x l Hl IH Hx]; [constructor|]. destruct (decide (P x)).
  - rewrite filter_cons_True by done. constructor; [done|]. rewrite Forall_forall in *. intros y Hy.
    apply Hx. by apply list_elem_of_filter in Hy as [_ Hy].
  - by rewrite filter_cons_False.
Qed.

(** A scan is strictly increasing. *)
Lemma table_range_sorted start stop m : StronglySorted bytes_lt (table_range start stop m).*1.
Proof.
  assert (StronglySorted bytes_lt (table_iter m).*1) as Hs.
  { assert (StronglySorted (λ a b, key_le a b = true) (table_iter m)) as Hle.
    { apply sort_by_sorted; unfold key_le; [intros x y; apply bytes_leb_total|intros x y z; apply bytes_leb_trans]. }
    pose proof (table_iter_keys m) as Hn. induction Hle as [|x l Hl IH Hx]; [constructor|].
    cbn in Hn. apply NoDup_cons in Hn as [Hx1 Hn]. constructor; [by apply IH|]. apply Forall_forall.
    intros k [y [-> Hy]]%list_elem_of_fmap. rewrite Forall_forall in Hx. apply bytes_lt_alt. split; [by apply Hx|].
    intros E. apply Hx1. rewrite E. by apply list_elem_of_fmap_2. }
  unfold table_range. generalize (table_iter m) Hs. clear. intros l.
  induction l as [|[k v] l IH]; [done|]. cbn [fmap list_fmap fst]. intros Hs. apply StronglySorted_inv in Hs as [Hs Hk].
  destruct (decide (in_key_range start stop k = true)).
  - rewrite filter_cons_True by done. constructor; [by apply IH|]. rewrite Forall_forall in *. intros y Hy.
    apply Hk. apply list_elem_of_fmap in Hy as [z [-> Hz]]. apply list_elem_of_filter in Hz as [_ Hz].
    by apply list_elem_of_fmap_2.
  - rewrite filter_cons_False by done. by apply IH.
Qed.

(** Two scans with the same entries are the same. *)
Lemma sorted_keys_eq (l k : list (bytes * V)) :
  StronglySorted bytes_lt l.*1 → StronglySorted bytes_lt k.*1 → (∀ x, x ∈ l ↔ x ∈ k) → l = k.
Proof.
  revert k. induction l as [|[a v] l IH]; intros [|[b w] k] Hl Hk Heq; [done| | |].
  1, 2: exfalso; set_solver.
  cbn in Hl, Hk. apply StronglySorted_inv in Hl as [Hl Ha], Hk as [Hk Hb]. rewrite Forall_forall in Ha, Hb.
  assert ((a, v) = (b, w)) as E.
  { assert ((a, v) ∈ (b, w) :: k) as [|Hin1]%elem_of_cons by (apply Heq; set_solver); [done|].
    assert ((b, w) ∈ (a, v) :: l) as [|Hin2]%elem_of_cons by (apply Heq; set_solver); [done|].
    apply (list_elem_of_fmap_2 fst) in Hin1, Hin2. destruct (bytes_lt_irrefl a).
    etrans; [apply Ha, Hin2|apply Hb, Hin1]. }
  injection E as <- <-. f_equal. apply IH; [done..|]. intros x.
  assert (∀ l', (∀ y, y ∈ l'.*1 → bytes_lt a y) → x ∈ l' → x ≠ (a, v)) as Hne.
  { intros l' Hl' Hx ->. apply (list_elem_of_fmap_2 fst) in Hx. by apply (bytes_lt_irrefl a), Hl'. }
  split; intros Hx.
  - assert (x ∈ (a, v) :: k) as [->|]%elem_of_cons by (apply Heq; set_solver); [|done]. by destruct (Hne l Ha Hx).
  - assert (x ∈ (a, v) :: l) as [->|]%elem_of_cons by (apply Heq; set_solver); [|done]. by destruct (Hne k Hb Hx).
Qed.
End scans.

(** * Sealed values *)

Section sealed.
Context `{AeadLaws} `{KeyedHashLaws} `{HashCratesLaws} `{HexDecodeLaws} `{ErrorTexts}.

Lemma seal_open_bytes enc key v : zlen v ≤ gcm_limit →
  ∃ raw, seal_bytes enc key v = Ok raw ∧ open_bytes enc key raw = Ok v.
Proof.
  intros Hv. unfold seal_bytes, open_bytes. destruct enc as [ns_key|]; [|by exists v].
  destruct (encrypt_value_opens ns_key key v Hv) as (st & -> & _ & Hd). exists st. by rewrite Hd.
Qed.

Lemma seal_open_str enc key v : zlen v ≤ gcm_limit → utf8_valid v = true →
  ∃ raw, seal_str enc key v = Ok raw ∧ open_str enc key raw = Ok v.
Proof.
  intros Hv Hu. unfold seal_str, open_str. destruct enc as [ns_key|]; [|by exists v].
  destruct (seal_open_bytes (Some ns_key) key v Hv) as (raw & Hs & Ho). unfold seal_bytes, open_bytes in *.
  exists (hex_encode raw). rewrite Hs. split; [done|].
  rewrite hex_encode_spec, hex_decode_encode. cbn [ok_or mbind outcome_bind]. rewrite Ho. cbn. by rewrite Hu.
Qed.
End sealed.
