(* ===== verification/RedbTags.v ===== *)
(** RedbTags: tags, sequences and metadata in the database,
    [kappa-store-redb/src/tag.rs], [namespace.rs] (sequences), [blob.rs]
    (metadata) and [lib.rs] (the assertion index).

    Keys join the namespace's text and the name with a null byte.  The encryptor
    [enc] is [self.table_encryptor]. *)

From S2P Require Import Prelude Label Compute Types Identity Store MemStore MemTags Gc Http Text Aead RedbTable.

(** [rsplit_once(c)]: around the last occurrence. *)
Fixpoint rsplit_once (c : byte) (s : rstr) : option (rstr * rstr) :=
  match s with
  | [] => None
  | b :: s =>
      match rsplit_once c s with
      | Some (p, q) => Some (b :: p, q)
      | None => if decide (b = c) then Some ([], s) else None
      end
  end.

Definition parse_version (val : rstr) : Z :=
  default 0 (pq ← rsplit_once NUL val; parse_u64 pq.2).

Definition parse_entry (name val : rstr) : outcome StoreError TagEntry :=
  kv ← ok_or (rsplit_once NUL val) (io_other (rs "corrupted tag value"));
  version ← ok_or (parse_u64 kv.2) (io_other (rs "corrupted tag version"));
  Ok (mkTag name kv.1 version).

Section tags.
Context `{AeadCrate} `{KeyedHash} `{HashCrates} `{HexDecode} `{ErrorTexts}.
Context (enc : option bytes).

(** [ns_table.insert(ns, ())]. *)
Definition touch_namespace (ns : rstr) : M tables () := modify (on_namespaces (λ m, {[ns]} ∪ m)).

(** The version of the stored text, which is the ciphertext when one is kept. *)
Definition stored_version (db_key : rstr) (d : tables) : Z :=
  default 0 (parse_version <$> t_tags d !! db_key).

Definition write_tag (ns name kappa : rstr) : M tables Z :=
  let db_key := join_key ns name in
  current_version ← gets (stored_version db_key);
  version ← lift (incr_u64 current_version);
  db_value ← lift (seal_str enc db_key (join_key kappa (dec version)));
  _ ← modify (on_tags (<[db_key := db_value]>));
  mret version.

Definition tag_set_impl (ns name kappa : rstr) : M tables Z :=
  write_txn (_ ← touch_namespace ns; write_tag ns name kappa).

Definition tag_get_impl (ns name : rstr) (d : tables) : outcome StoreError TagEntry :=
  let db_key := join_key ns name in
  raw_value ← ok_or (t_tags d !! db_key) (SNotFound (ns ++ rs "/" ++ name));
  decrypted_value ← open_str enc db_key raw_value;
  parse_entry name decrypted_value.

Definition tag_delete_impl (ns name : rstr) : M tables () :=
  write_txn (modify (on_tags (delete (join_key ns name)))).

(** The loop over a range: [name_of] strips the key, or fails. *)
Fixpoint read_tags (name_of : rstr → outcome StoreError rstr) (rows : list (rstr * rstr))
  : outcome StoreError (list TagEntry) :=
  match rows with
  | [] => Ok []
  | (key, raw) :: rows =>
      name ← name_of key;
      decrypted ← open_str enc key raw;
      entry ← parse_entry name decrypted;
      rest ← read_tags name_of rows;
      Ok (entry :: rest)
  end.

(** The rows before the first whose key lacks the prefix. *)
Fixpoint while_prefix {V} (prefix : rstr) (rows : list (rstr * V)) : list (rstr * V) :=
  match rows with
  | [] => []
  | (key, v) :: rows => if starts_with prefix key then (key, v) :: while_prefix prefix rows else []
  end.

(** The scan of [tag_list_impl] and [tag_prefix_impl]. *)
Definition scan_tags (db_prefix ns_prefix : rstr) (d : tables) : outcome StoreError (list TagEntry) :=
  match prefix_successor db_prefix with
  | Some end_bytes =>
      if utf8_valid end_bytes then
        read_tags (λ key, ok_or (strip_prefix ns_prefix key) (io_other (rs "prefix mismatch")))
          (table_range db_prefix (Some end_bytes) (t_tags d))
      else Err (io_other (rs "utf8"))
  | None =>
      read_tags (λ key, unwrap (strip_prefix ns_prefix key))
        (while_prefix db_prefix (table_range db_prefix None (t_tags d)))
  end.

Definition tag_list_impl (ns : rstr) (d : tables) : outcome StoreError (list TagEntry) :=
  scan_tags (join_key ns []) (join_key ns []) d.

Definition tag_prefix_impl (ns prefix : rstr) (d : tables) : outcome StoreError (list TagEntry) :=
  scan_tags (join_key ns prefix) (join_key ns []) d.

(** Phase 1: every expected version is the stored one. *)
Fixpoint check_batch (ns : rstr) (updates : list TagUpdate) (d : tables) : outcome StoreError () :=
  match updates with
  | [] => Ok ()
  | u :: rest =>
      match tu_expected_version u with
      | Some expected =>
          let current := stored_version (join_key ns (tu_name u)) d in
          if current =? expected then check_batch ns rest d
          else Err (SConflict (rs "tag " ++ tu_name u ++ rs ": expected version " ++ dec expected
                               ++ rs " but current is " ++ dec current))
      | None => check_batch ns rest d
      end
  end.

(** Phase 2: the writes. *)
Fixpoint apply_batch (ns : rstr) (updates : list TagUpdate) : M tables () :=
  match updates with
  | [] => mret ()
  | u :: rest => _ ← write_tag ns (tu_name u) (tu_kappa u); apply_batch ns rest
  end.

Definition tag_set_batch_impl (ns : rstr) (updates : list TagUpdate) : M tables () :=
  write_txn (_ ← touch_namespace ns; _ ← asks (check_batch ns updates); apply_batch ns updates).

(** * Sequences *)

Definition decode_seq_value (db_key : rstr) (raw : bytes) : outcome StoreError Z :=
  bs ← open_bytes enc db_key raw;
  if decide (length bs = 8%nat) then Ok (from_be bs)
  else Err (io_other (rs "sequence value not 8 bytes")).

Definition encode_seq_value (db_key : rstr) (value : Z) : outcome StoreError bytes :=
  seal_bytes enc db_key (to_be 8 value).

Definition sequence_current_impl (ns name : rstr) (d : tables) : outcome StoreError Z :=
  let db_key := join_key ns name in
  match t_sequences d !! db_key with
  | Some raw => decode_seq_value db_key raw
  | None => Ok 0
  end.

(** The increment inside a transaction. *)
Definition next_in_sequence (ns name : rstr) : M tables Z :=
  let db_key := join_key ns name in
  current ← asks (sequence_current_impl ns name);
  value ← lift (incr_u64 current);
  encoded ← lift (encode_seq_value db_key value);
  _ ← modify (on_sequences (<[db_key := encoded]>));
  mret value.

Definition sequence_next_impl (ns name : rstr) : M tables Z :=
  write_txn (_ ← touch_namespace ns; next_in_sequence ns name).

(** * Metadata *)

Definition blob_put_meta_impl (kappa key : rstr) (value : bytes) : M tables () :=
  let db_key := join_key kappa key in
  stored_value ← lift (seal_bytes enc db_key value);
  write_txn (modify (on_blob_meta (<[db_key := stored_value]>))).

Definition blob_get_meta_impl (kappa key : rstr) (d : tables) : outcome StoreError bytes :=
  let db_key := join_key kappa key in
  raw ← ok_or (t_blob_meta d !! db_key) (SNotFound (rs "meta " ++ kappa ++ rs ":" ++ key));
  open_bytes enc db_key raw.

Definition blob_delete_meta_impl (kappa key : rstr) : M tables () :=
  write_txn (modify (on_blob_meta (delete (join_key kappa key)))).

Definition meta_set_impl (ns kappa key value : rstr) : M tables () :=
  write_txn (
    _ ← touch_namespace ns;
    let db_key := join_key ns (join_key key value) in
    stored_kappa ← lift (seal_str enc db_key kappa);
    modify (on_ns_meta (multimap_insert db_key stored_kappa))).

(** Every value of every row, decrypted. *)
Fixpoint read_values (db_key : rstr) (raws : list rstr) : outcome StoreError (list rstr) :=
  match raws with
  | [] => Ok []
  | raw :: raws => v ← open_str enc db_key raw; rest ← read_values db_key raws; Ok (v :: rest)
  end.

Fixpoint read_rows (rows : list (rstr * gset rstr)) : outcome StoreError (list rstr) :=
  match rows with
  | [] => Ok []
  | (key, values) :: rows =>
      vs ← read_values key (sort_strings (elements values));
      rest ← read_rows rows;
      Ok (vs ++ rest)
  end.

Definition meta_query_impl (ns key value : rstr) (d : tables) : outcome StoreError (list rstr) :=
  results ←
    (if decide (value = []) then
       let prefix := join_key ns (join_key key []) in
       match prefix_successor prefix with
       | Some end_bytes =>
           if utf8_valid end_bytes then read_rows (table_range prefix (Some end_bytes) (t_ns_meta d))
           else Err (io_other (rs "utf8"))
       | None => read_rows (while_prefix prefix (table_range prefix None (t_ns_meta d)))
       end
     else
       let db_key := join_key ns (join_key key value) in
       read_values db_key (multimap_get db_key (t_ns_meta d)));
  Ok (sort_dedup results).

(** * The assertion index *)

Definition redb_assertion_index_put (subject facet assertion_kappa : rstr) : M tables () :=
  write_txn (modify (on_assertion_inbound (multimap_insert (join_key subject facet) assertion_kappa))).

Definition assertion_index_query (subject facet : rstr) (d : tables) : outcome StoreError (list rstr) :=
  Ok (multimap_get (join_key subject facet) (t_assertion_inbound d)).

Definition redb_assertion_index_query_subject (subject : rstr) (d : tables) : outcome StoreError (list rstr) :=
  let prefix := join_key subject [] in
  let rows := match prefix_successor prefix with
              | Some e => table_range prefix (Some (from_utf8_lossy e)) (t_assertion_inbound d)
              | None => table_range prefix None (t_assertion_inbound d)
              end in
  Ok (sort_dedup (concat ((λ row, sort_strings (elements row.2)) <$> rows))).
End tags.

(** * The stored form *)

Lemma utf8_valid_app a b : utf8_valid a = true → utf8_valid (a ++ b) = utf8_valid b.
Proof.
  remember (length a) as n eqn:Hn. revert a Hn. induction (lt_wf n) as [n _ IH]. intros a ->.
  destruct a as [|b0 r0]; [done|]. cbn [utf8_valid app].
  destruct (in_range 0 127 b0); [apply (IH (length r0)); cbn; (lia || done)|].
  destruct r0 as [|b1 r1]; [done|]. cbn [app].
  destruct (in_range 194 223 b0).
  { intros [-> Hr]%andb_prop. cbn [andb]. apply (IH (length r1)); cbn; (lia || done). }
  destruct r1 as [|b2 r2]; [done|]. cbn [app].
  destruct (in_range 224 239 b0).
  { intros [Hh Hr]%andb_prop. rewrite Hh. cbn [andb]. apply (IH (length r2)); cbn; (lia || done). }
  destruct r2 as [|b3 r3]; [done|]. cbn [app].
  intros [Hh Hr]%andb_prop. rewrite Hh. cbn [andb]. apply (IH (length r3)); cbn; (lia || done).
Qed.

Lemma rsplit_once_app c p q : c ∉ q → rsplit_once c (p ++ c :: q) = Some (p, q).
Proof.
  intros Hq. assert (rsplit_once c q = None) as Hn.
  { induction q as [|b q IH]; [done|]. cbn [rsplit_once]. rewrite IH by set_solver. rewrite decide_False by set_solver. done. }
  induction p as [|b p IH]; cbn [rsplit_once app]; [by rewrite Hn, decide_True|]. by rewrite IH.
Qed.

Lemma rsplit_once_none c s : c ∉ s → rsplit_once c s = None.
Proof.
  induction s as [|b s IH]; [done|]. intros Hs. cbn [rsplit_once]. rewrite IH by set_solver.
  by rewrite decide_False by set_solver.
Qed.

Lemma join_key_inj a b a' b' : NUL ∉ a → NUL ∉ a' → join_key a b = join_key a' b' → a = a' ∧ b = b'.
Proof.
  unfold join_key. intros Ha Ha' E. assert (split_once NUL (a ++ NUL :: b) = split_once NUL (a' ++ NUL :: b')) as Hs by (by rewrite E).
  rewrite !split_once_app in Hs by done. by injection Hs as -> ->.
Qed.

(** The text of an entry. *)
Definition tag_text (kv : rstr * Z) : rstr := join_key kv.1 (dec kv.2).

Lemma parse_version_text kv : 0 ≤ kv.2 ≤ u64_max → parse_version (tag_text kv) = kv.2.
Proof.
  intros Hv. unfold parse_version, tag_text, join_key. destruct (dec_no_nul kv.2) as [Hn _]; [lia|].
  rewrite rsplit_once_app by done. cbn [mbind option_bind snd]. by rewrite parse_u64_dec.
Qed.

Lemma parse_entry_text name kv : 0 ≤ kv.2 ≤ u64_max → parse_entry name (tag_text kv) = Ok (mkTag name kv.1 kv.2).
Proof.
  intros Hv. unfold parse_entry, tag_text, join_key. destruct (dec_no_nul kv.2) as [Hn _]; [lia|].
  rewrite rsplit_once_app by done. osimpl. cbn [snd fst]. by rewrite parse_u64_dec.
Qed.

(** * The abstract tag store

    A finite map from namespace and name to label and version. *)

Abbreviation tag_spec := (gmap (rstr * rstr) (rstr * Z)).

Definition spec_version (A : tag_spec) (ns name : rstr) : Z := default 0 (snd <$> A !! (ns, name)).

Definition spec_get (A : tag_spec) (ns name : rstr) : outcome StoreError TagEntry :=
  match A !! (ns, name) with
  | Some (kappa, version) => Ok (mkTag name kappa version)
  | None => Err (SNotFound (ns ++ rs "/" ++ name))
  end.

(** One version step, unless the counter is at its end. *)
Definition spec_set (ns name kappa : rstr) (A : tag_spec) : tag_spec * outcome StoreError Z :=
  let version := spec_version A ns name in
  if version =? u64_max then (A, Panic) else (<[(ns, name) := (kappa, version + 1)]> A, Ok (version + 1)).

(** All updates, or none. *)
Fixpoint spec_sets (ns : rstr) (updates : list TagUpdate) (A : tag_spec) : tag_spec * outcome StoreError () :=
  match updates with
  | [] => (A, Ok ())
  | u :: rest =>
      match spec_set ns (tu_name u) (tu_kappa u) A with
      | (A', Ok _) => spec_sets ns rest A'
      | (A', Err e) => (A', Err e)
      | (A', Panic) => (A', Panic)
      end
  end.

Definition stale (A : tag_spec) (ns : rstr) (u : TagUpdate) : Prop :=
  match tu_expected_version u with Some v => v ≠ spec_version A ns (tu_name u) | None => False end.
#[export] Instance stale_dec A ns u : Decision (stale A ns u).
Proof. unfold stale. destruct (tu_expected_version u); apply _. Defined.

Definition spec_batch (ns : rstr) (updates : list TagUpdate) (A : tag_spec) : tag_spec * outcome StoreError () :=
  match list_find (stale A ns) updates with
  | Some (_, u) =>
      (A, Err (SConflict (rs "tag " ++ tu_name u ++ rs ": expected version " ++ dec (default 0 (tu_expected_version u))
                          ++ rs " but current is " ++ dec (spec_version A ns (tu_name u)))))
  | None =>
      match spec_sets ns updates A with
      | (A', Ok _) => (A', Ok ())
      | (_, r) => (A, r)
      end
  end.

(** The table holds the map, in plain text. *)
Definition represents (d : tables) (A : tag_spec) : Prop :=
  (∀ ns name, NUL ∉ ns → t_tags d !! join_key ns name = tag_text <$> A !! (ns, name)) ∧
  (∀ ns name kv, A !! (ns, name) = Some kv → 1 ≤ kv.2 ≤ u64_max).

Section refinement.
Context `{AeadCrate} `{KeyedHash} `{HashCrates} `{HexDecode} `{ErrorTexts}.

Lemma represents_version d A ns name : represents d A → NUL ∉ ns →
  stored_version (join_key ns name) d = spec_version A ns name ∧ 0 ≤ spec_version A ns name ≤ u64_max.
Proof.
  intros [Hr Hv] Hns. unfold stored_version, spec_version. rewrite Hr by done.
  destruct (A !! (ns, name)) as [kv|] eqn:E; [|done]. cbn. specialize (Hv _ _ _ E). rewrite parse_version_text; lia.
Qed.

Lemma represents_get d A ns name : represents d A → NUL ∉ ns → tag_get_impl None ns name d = spec_get A ns name.
Proof.
  intros [Hr Hv] Hns. unfold tag_get_impl, spec_get. rewrite Hr by done. destruct (A !! (ns, name)) as [[k v]|] eqn:E; [|done].
  cbn [fmap option_fmap option_map ok_or mbind outcome_bind open_str]. specialize (Hv _ _ _ E). cbn in Hv. rewrite parse_entry_text by (cbn; lia). done.
Qed.

Lemma represents_insert d A ns name kv : represents d A → NUL ∉ ns → 1 ≤ kv.2 ≤ u64_max →
  represents (on_tags (<[join_key ns name := tag_text kv]>) d) (<[(ns, name) := kv]> A).
Proof.
  intros [Hr Hv] Hns Hkv. split.
  - intros ns' name' Hns'. cbn [t_tags on_tags]. destruct (decide ((ns', name') = (ns, name))) as [[= -> ->]|Hne].
    + by rewrite !lookup_insert_eq.
    + rewrite !lookup_insert_ne; [by apply Hr|done|]. intros E. apply Hne. by apply join_key_inj in E as [-> ->].
  - intros ns' name' kv' [[_ <-]|[_ E]]%lookup_insert_Some; [done|]. by apply (Hv ns' name').
Qed.

Lemma write_tag_refines d A ns name kappa : represents d A → NUL ∉ ns →
  ∃ d', write_tag None ns name kappa d = (d', (spec_set ns name kappa A).2) ∧
    represents d' (spec_set ns name kappa A).1.
Proof.
  intros Hr Hns. destruct (represents_version d A ns name Hr Hns) as [E Hb].
  unfold write_tag, spec_set. run. rewrite E. unfold incr_u64. destruct (Z.eqb_spec (spec_version A ns name) u64_max); [by exists d|].
  cbn [seal_str]. eexists. split; [done|]. apply (represents_insert _ _ _ _ (kappa, spec_version A ns name + 1)); [done..|]. cbn. lia.
Qed.

Lemma apply_batch_refines d A ns updates : represents d A → NUL ∉ ns →
  ∃ d', apply_batch None ns updates d = (d', (spec_sets ns updates A).2) ∧ represents d' (spec_sets ns updates A).1.
Proof.
  intros Hr Hns. revert d A Hr. induction updates as [|u rest IH]; intros d A Hr; cbn [apply_batch spec_sets]; [by exists d|].
  destruct (write_tag_refines d A ns (tu_name u) (tu_kappa u) Hr Hns) as (d1 & Hrun & Hr1).
  unfold mbind, M_bind. rewrite Hrun. destruct (spec_set ns (tu_name u) (tu_kappa u) A) as [A1 [v|e|]]; cbn [fst snd] in *;
    [by apply IH|by exists d1..].
Qed.

Lemma check_batch_refines d A ns updates : represents d A → NUL ∉ ns →
  check_batch ns updates d =
  match list_find (stale A ns) updates with
  | Some (_, u) => Err (SConflict (rs "tag " ++ tu_name u ++ rs ": expected version " ++ dec (default 0 (tu_expected_version u))
                          ++ rs " but current is " ++ dec (spec_version A ns (tu_name u))))
  | None => Ok ()
  end.
Proof.
  intros Hr Hns. induction updates as [|u rest IH]; [done|]. cbn [check_batch list_find].
  destruct (decide (stale A ns u)) as [Hs|Hs]; unfold stale in Hs.
  - destruct (tu_expected_version u) as [v|]; [|done]. destruct (represents_version d A ns (tu_name u) Hr Hns) as [-> _].
    rewrite (proj2 (Z.eqb_neq _ _)) by done. done.
  - assert (check_batch ns rest d = match prod_map S id <$> list_find (stale A ns) rest with
      | Some (_, u0) => Err (SConflict (rs "tag " ++ tu_name u0 ++ rs ": expected version " ++ dec (default 0 (tu_expected_version u0))
                          ++ rs " but current is " ++ dec (spec_version A ns (tu_name u0))))
      | None => Ok () end) as E by (rewrite IH; by destruct (list_find _ rest) as [[]|]).
    destruct (tu_expected_version u) as [v|]; [|exact E]. destruct (represents_version d A ns (tu_name u) Hr Hns) as [-> _].
    rewrite (proj2 (Z.eqb_eq _ _)); [exact E|]. destruct (decide (v = spec_version A ns (tu_name u))); [done|tauto].
Qed.
End refinement.

(** * Listing *)

Lemma join_key_app ns a b : join_key ns (a ++ b) = join_key ns a ++ b.
Proof. unfold join_key. by rewrite <- app_assoc. Qed.

Lemma join_key_nil ns a : join_key ns a = join_key ns [] ++ a.
Proof. apply (join_key_app ns [] a). Qed.

Lemma prefix_successor_some ns q : ∃ e, prefix_successor (join_key ns q) = Some e.
Proof.
  rewrite prefix_successor_front. unfold join_key. induction ns as [|b ns IH]; cbn [successor_front app].
  - destruct (successor_front q); eauto.
  - destruct IH as [e ->]. eauto.
Qed.

Lemma prefix_successor_ns ns : prefix_successor (join_key ns []) = Some (ns ++ [x01]).
Proof. unfold prefix_successor, join_key. rewrite rev_app_distr. cbn. by rewrite rev_involutive. Qed.

Lemma starts_with_join ns q name : starts_with (join_key ns q) (join_key ns name) = starts_with q name.
Proof.
  unfold starts_with. apply bool_decide_ext. rewrite (join_key_nil ns q), (join_key_nil ns name). split.
  - intros [k E]. rewrite <- app_assoc in E. apply app_inv_head in E. by exists k.
  - intros [k ->]. exists k. by rewrite <- app_assoc.
Qed.

Lemma sorted_fmap_inv {A B} (f : A → B) (R : B → B → Prop) l :
  StronglySorted R (f <$> l) ↔ StronglySorted (λ x y, R (f x) (f y)) l.
Proof.
  induction l as [|x l IH]; [split; constructor|]. cbn [fmap list_fmap]. split; intros [Hl Hx]%StronglySorted_inv.
  - constructor; [by apply IH|]. rewrite Forall_fmap in Hx. exact Hx.
  - constructor; [by apply IH|]. rewrite Forall_fmap. exact Hx.
Qed.

Section listing.
Context `{AeadCrate} `{KeyedHash} `{HashCrates} `{HexDecode} `{ErrorTexts}.

(** A row of the table and the entry it is read as. *)
Definition row_entry (A : tag_spec) (ns : rstr) (row : rstr * rstr) (e : TagEntry) : Prop :=
  row.1 = join_key ns (te_name e) ∧ A !! (ns, te_name e) = Some (te_kappa e, te_version e).

Lemma read_tags_rows A ns rows name_of :
  (∀ ns name kv, A !! (ns, name) = Some kv → 1 ≤ kv.2 ≤ u64_max) →
  (∀ name, name_of (join_key ns name) = Ok name) →
  (∀ row, row ∈ rows → ∃ name kv, row = (join_key ns name, tag_text kv) ∧ A !! (ns, name) = Some kv) →
  ∃ l, read_tags None name_of rows = Ok l ∧ Forall2 (row_entry A ns) rows l.
Proof.
  intros Hv Hn. induction rows as [|row rows IH]; intros Hrows; [exists []; split; [done|constructor]|]. cbn [read_tags].
  destruct (Hrows row) as (name & [k v] & -> & E); [set_solver|]. destruct IH as (l & -> & Hl); [set_solver|].
  exists (mkTag name k v :: l). rewrite Hn. cbn [mbind outcome_bind open_str].
  rewrite parse_entry_text by (specialize (Hv _ _ _ E); lia). split; [done|]. by constructor.
Qed.

Lemma scan_tags_refines d A ns prefix : represents d A → NUL ∉ ns →
  (∀ e, prefix_successor (join_key ns prefix) = Some e → utf8_valid e = true) →
  ∃ l, scan_tags None (join_key ns prefix) (join_key ns []) d = Ok l ∧
    StronglySorted (λ a b, bytes_lt (te_name a) (te_name b)) l ∧
    ∀ e, e ∈ l ↔ prefix `prefix_of` te_name e ∧ A !! (ns, te_name e) = Some (te_kappa e, te_version e).
Proof.
  intros [Hr Hv] Hns Hu. destruct (prefix_successor_some ns prefix) as [stop Es].
  unfold scan_tags. rewrite Es, (Hu _ Es). set (rows := table_range _ _ _).
  assert (∀ k v, (k, v) ∈ rows ↔ ∃ name kv, k = join_key ns name ∧ v = tag_text kv ∧ A !! (ns, name) = Some kv ∧
            prefix `prefix_of` name) as Hrows.
  { intros k v. unfold rows. rewrite table_range_elem, <- Es, prefix_range_exact. split.
    - intros [Hk Hp]. assert (∃ name, k = join_key ns name) as [name ->].
      { unfold starts_with in Hp. apply bool_decide_eq_true in Hp as [x ->]. exists (prefix ++ x). by rewrite join_key_app. }
      rewrite Hr in Hk by done. destruct (A !! (ns, name)) as [kv|] eqn:E; [|done]. injection Hk as <-.
      rewrite starts_with_join in Hp. apply bool_decide_eq_true in Hp. by exists name, kv.
    - intros (name & kv & -> & -> & E & Hp). rewrite Hr, E by done. split; [done|]. rewrite starts_with_join. by apply bool_decide_eq_true. }
  destruct (read_tags_rows A ns rows (λ key, ok_or (strip_prefix (join_key ns []) key) (io_other (rs "prefix mismatch"))) Hv)
    as (l & -> & Hl).
  { intros name. by rewrite (join_key_nil ns name), strip_prefix_app. }
  { intros [k v] (name & kv & -> & -> & E & _)%Hrows. by exists name, kv. }
  exists l. split; [done|]. split.
  - assert (rows.*1 = (λ e, join_key ns (te_name e)) <$> l) as E.
    { clear - Hl. induction Hl as [|row e rows l [E _] _ IH]; [done|]. cbn. by rewrite E, IH. }
    pose proof (table_range_sorted (join_key ns prefix) (Some stop) (t_tags d)) as Hs. fold rows in Hs.
    rewrite E, sorted_fmap_inv in Hs. clear - Hs. induction Hs as [|x l Hl IH Hx]; constructor; [done|].
    eapply Forall_impl; [exact Hx|]. intros y. cbn. rewrite !(join_key_nil ns (te_name _)). by rewrite bytes_lt_app_l.
  - intros e. split.
    + intros He. apply list_elem_of_lookup in He as [i Hi].
      destruct (Forall2_lookup_r _ _ _ _ _ Hl Hi) as ([k v] & Hrow & Hk & E). cbn in Hk. subst k.
      apply list_elem_of_lookup_2, Hrows in Hrow as (name & kv & Ek & _ & _ & Hp). apply join_key_inj in Ek as [_ Ek]; [|done..]. split; [by rewrite Ek|exact E].
    + intros [Hp E]. assert ((join_key ns (te_name e), tag_text (te_kappa e, te_version e)) ∈ rows) as Hin by (apply Hrows; by exists (te_name e), (te_kappa e, te_version e)).
      apply list_elem_of_lookup in Hin as [i Hi]. destruct (Forall2_lookup_l _ _ _ _ _ Hl Hi) as (e' & He' & Hk & E').
      cbn in Hk. apply join_key_inj in Hk as [_ Hn]; [|done..]. rewrite <- Hn in E'. rewrite E in E'. injection E' as E1 E2.
      apply list_elem_of_lookup_2 in He'. by destruct e, e'; cbn in *; subst.
Qed.
End listing.

(** * Properties *)

#[export] Instance sample_texts : ErrorTexts := {| hex_error _ := rs "hex"; utf8_error _ := rs "utf-8" |}.

(** C24: the tag table refines a finite map.  Without an encryptor, whatever map
    the table represents: reading, setting (with the version one above, a counter
    at its end panicking with nothing written), deleting and the conditional
    batch return what the map operations return and leave a table that represents
    the map they leave, so a batch with a stale expected version, or one that
    panics, changes no tag; and listing returns exactly the namespace's entries,
    each once, in increasing order of name. *)
Theorem redb_tags_refine `{AeadCrate} `{KeyedHash} `{HashCrates} `{HexDecode} `{ErrorTexts} d A ns
  (Hr : represents d A) (Hns : NUL ∉ ns) (Hu : utf8_valid ns = true) :
  (∀ name, tag_get_impl None ns name d = spec_get A ns name) ∧
  (∀ name kappa, ∃ d', tag_set_impl None ns name kappa d = (d', (spec_set ns name kappa A).2) ∧
     represents d' (spec_set ns name kappa A).1) ∧
  (∀ name, ∃ d', tag_delete_impl ns name d = (d', Ok ()) ∧ represents d' (delete (ns, name) A)) ∧
  (∀ updates, ∃ d', tag_set_batch_impl None ns updates d = (d', (spec_batch ns updates A).2) ∧
     represents d' (spec_batch ns updates A).1) ∧
  ∃ l, tag_list_impl None ns d = Ok l ∧ StronglySorted (λ a b, bytes_lt (te_name a) (te_name b)) l ∧
    ∀ e, e ∈ l ↔ A !! (ns, te_name e) = Some (te_kappa e, te_version e).
Proof.
  assert (represents (on_namespaces (λ m, {[ns]} ∪ m) d) A) as Hr1 by exact Hr.
  split_and!.
  - intros name. by apply represents_get.
  - intros name kappa. destruct (write_tag_refines _ A ns name kappa Hr1 Hns) as (d' & Hw & Hr').
    unfold tag_set_impl, write_txn, touch_namespace. run. rewrite Hw.
    unfold spec_set in *. destruct (spec_version A ns name =? u64_max); cbn [fst snd] in *; by eexists.
  - intros name. eexists. split; [done|]. destruct Hr as [Hr Hv]. split.
    + intros ns' name' Hns'. cbn [t_tags on_tags]. destruct (decide ((ns', name') = (ns, name))) as [[= -> ->]|Hne].
      * by rewrite !lookup_delete_eq.
      * rewrite !lookup_delete_ne; [by apply Hr|done|]. intros E. apply Hne. by apply join_key_inj in E as [-> ->].
    + intros ns' name' kv [_ E]%lookup_delete_Some. by apply (Hv ns' name').
  - intros updates. unfold tag_set_batch_impl, write_txn, touch_namespace, spec_batch. run.
    rewrite (check_batch_refines _ A ns updates Hr1 Hns). destruct (list_find (stale A ns) updates) as [[i u]|]; [by exists d|].
    destruct (apply_batch_refines _ A ns updates Hr1 Hns) as (d' & -> & Hr').
    destruct (spec_sets ns updates A) as [A' [[]| |]]; cbn [fst snd] in *; [by exists d'|by exists d..].
  - destruct (scan_tags_refines d A ns [] Hr Hns) as (l & Hl & Hs & He).
    { intros e. rewrite prefix_successor_ns. intros [= <-]. rewrite utf8_valid_app by done. done. }
    exists l. split_and!; [done..|]. intros e. rewrite He. split; [by intros [_ ?]|]. intros ?. split; [apply prefix_nil|done].
Qed.

Lemma redb_tags_refine_witness :
  ∃ d', tag_set_impl None (rs "ns") (rs "latest") (rs "k1") empty_tables = (d', Ok 1) ∧
    represents d' {[ (rs "ns", rs "latest") := (rs "k1", 1) ]}.
Proof.
  assert (represents empty_tables ∅) as Hr by (split; [intros; by rewrite !lookup_empty|intros ??? []%lookup_empty_Some]).
  destruct (redb_tags_refine empty_tables ∅ (rs "ns") Hr) as (_ & Hset & _).
  - vm_compute. intros Hin. repeat (apply elem_of_cons in Hin as [[=]|Hin]). by apply elem_of_nil in Hin.
  - reflexivity.
  - destruct (Hset (rs "latest") (rs "k1")) as (d' & H1 & H2). exists d'. split; [exact H1|exact H2].
Defined.

(** Texts of lower-case hex digits hold no null byte. *)
Lemma hex_no_nul bs : NUL ∉ hex_of_bytes bs.
Proof.
  intros Hin. pose proof (proj1 (hex_of_bytes_valid bs)) as Hh. rewrite forallb_forall in Hh.
  apply list_elem_of_In, Hh in Hin. by vm_compute in Hin.
Qed.

(** With an encryptor the stored text is the ciphertext's digits, in which no
    version is found: setting a tag again answers version 1 again, and a batch
    that expects the version [tag_get] reports is refused as a conflict with
    version 0. *)
Theorem encrypted_tags_stay_at_one `{AeadLaws} `{KeyedHashLaws} `{HashCratesLaws} `{HexDecodeLaws} `{ErrorTexts}
  key ns name k1 k2 d d1 v1
  (Hrun : tag_set_impl (Some key) ns name k1 d = (d1, Ok v1))
  (Hk1 : zlen k1 ≤ 1000) (Hk2 : zlen k2 ≤ 1000) (Hu : utf8_valid k1 = true)
  (Hd : ∀ raw, t_tags d !! join_key ns name = Some raw → NUL ∉ raw) :
  tag_get_impl (Some key) ns name d1 = Ok (mkTag name k1 1) ∧
  (tag_set_impl (Some key) ns name k2 d1).2 = Ok 1 ∧
  ∃ msg, tag_set_batch_impl (Some key) ns [mkTagUpdate name k2 (Some 1)] d1 = (d1, Err (SConflict msg)).
Proof.
  assert (∀ d', (∀ raw, t_tags d' !! join_key ns name = Some raw → NUL ∉ raw) → stored_version (join_key ns name) d' = 0) as Hz.
  { intros d' Hd'. unfold stored_version. destruct (t_tags d' !! join_key ns name) as [raw|]; [|done].
    cbn. unfold parse_version. by rewrite rsplit_once_none by (by apply Hd'). }
  assert (∀ k, zlen k ≤ 1000 → zlen (join_key k (dec 1)) ≤ gcm_limit) as Hlen.
  { intros k Hk. unfold join_key. rewrite length_app. change (zlen k ≤ 1000) in Hk. unfold gcm_limit.
    change (length (NUL :: dec 1)) with 2%nat. lia. }
  assert (∀ k d', zlen k ≤ 1000 → (∀ raw, t_tags d' !! join_key ns name = Some raw → NUL ∉ raw) →
    ∃ raw, seal_str (Some key) (join_key ns name) (join_key k (dec 1)) = Ok raw ∧ (NUL ∉ raw) ∧
      tag_set_impl (Some key) ns name k d'
      = (on_tags (<[join_key ns name := raw]>) (on_namespaces (λ m, {[ns]} ∪ m) d'), Ok 1)) as Hset.
  { intros k d' Hk Hd'. destruct (encrypt_value_opens key (join_key ns name) (join_key k (dec 1)) (Hlen k Hk)) as (st & Hs & _ & _).
    exists (hex_encode st). unfold tag_set_impl, write_txn, touch_namespace, write_tag. run.
    assert (stored_version (join_key ns name) (on_namespaces (λ m, {[ns]} ∪ m) d') = 0) as -> by (by apply Hz).
    cbn [incr_u64 Z.eqb Z.add u64_max]. unfold seal_str. change (0 + 1) with 1. rewrite Hs.
    split; [done|]. split; [rewrite hex_encode_spec; apply hex_no_nul|done]. }
  destruct (Hset k1 d Hk1 Hd) as (raw & Hraw & Hn & E). rewrite E in Hrun. injection Hrun as <- <-.
  assert (∀ r, t_tags (on_tags (<[join_key ns name:=raw]>) (on_namespaces (λ m, {[ns]} ∪ m) d)) !! join_key ns name = Some r → NUL ∉ r) as Hd1.
  { cbn [t_tags on_tags]. rewrite lookup_insert_eq. by intros r [= <-]. }
  split_and!.
  - destruct (dec_no_nul 1) as [_ Hdu]; [lia|].
    destruct (seal_open_str (Some key) (join_key ns name) (join_key k1 (dec 1)) (Hlen k1 Hk1)) as (raw' & Hs' & Ho).
    { unfold join_key. rewrite utf8_valid_app by done. done. }
    rewrite Hraw in Hs'. injection Hs' as <-. unfold tag_get_impl. cbn [t_tags on_tags]. rewrite lookup_insert_eq. osimpl.
    rewrite Ho. osimpl. by apply (parse_entry_text name (k1, 1)).
  - destruct (Hset k2 _ Hk2 Hd1) as (raw2 & _ & _ & ->). done.
  - unfold tag_set_batch_impl, write_txn, touch_namespace. run. cbn [check_batch tu_expected_version tu_name].
    rewrite Hz by exact Hd1. by eexists.
Qed.

Lemma encrypted_tags_stay_at_one_witness :
  ∃ d1, (tag_set_impl (Some (repeat x01 32)) (rs "ns") (rs "latest") (rs "k2") d1).2 = Ok 1 ∧
    tag_get_impl (Some (repeat x01 32)) (rs "ns") (rs "latest") d1 = Ok (mkTag (rs "latest") (rs "k1") 1).
Proof.
  destruct (tag_set_impl (Some (repeat x01 32)) (rs "ns") (rs "latest") (rs "k1") empty_tables) as [d1 r] eqn:E.
  assert ((tag_set_impl (Some (repeat x01 32)) (rs "ns") (rs "latest") (rs "k1") empty_tables).2 = Ok 1) as Hr by (vm_compute; reflexivity).
  rewrite E in Hr. cbn [snd] in Hr. subst r. exists d1.
  destruct (encrypted_tags_stay_at_one _ _ _ _ (rs "k2") _ _ _ E) as (H1 & H2 & _).
  - vm_compute. discriminate.
  - vm_compute. discriminate.
  - reflexivity.
  - intros raw. vm_compute. discriminate.
  - split; [exact H2|exact H1].
Defined.

(** A prefix that ends in the last byte of a character like U+00BF has a
    successor that is no text, and the listing by prefix fails, whatever tags
    there are. *)
Theorem tag_prefix_refuses_prefix `{AeadCrate} `{KeyedHash} `{HashCrates} `{HexDecode} `{ErrorTexts} enc ns p d :
  tag_prefix_impl enc ns (p ++ [xc2; xbf]) d = Err (io_other (rs "utf8")) ∨ utf8_valid (join_key ns p) = false.
Proof.
  destruct (utf8_valid (join_key ns p)) eqn:Hu; [left|by right]. unfold tag_prefix_impl, scan_tags.
  assert (prefix_successor (join_key ns (p ++ [xc2; xbf])) = Some (join_key ns p ++ [xc2; xc0])) as ->.
  { rewrite join_key_app. unfold prefix_successor. rewrite rev_app_distr. cbn. by rewrite rev_involutive, <- app_assoc. }
  by rewrite utf8_valid_app.
Qed.
