(* ===== verification/RedbBlob.v ===== *)
(** RedbBlob: the blobs of [PersistentStore], [kappa-store-redb/src/blob.rs],
    and its ingest methods in [lib.rs].

    Without encryption a blob lies at the path of its label.  With encryption the
    ciphertext lies at the path of its own SHA-256 label and a binding record maps
    the blob's label to it.  A hard link is a second path to the same bytes: files
    are replaced, never written in place. *)

From S2P Require Import Prelude Label Compute Types Merkle Epoch Identity Store MemStore MemTags MemUpload Gc Http Aead RedbTable RedbTags.

(** * Records *)

(** [as u16] of a length, then two bytes. *)
Definition u16_be (n : Z) : bytes := to_be 2 (wrap 16 n).

Definition encode_binding (kappa : rstr) (base : bytes) (size : Z) : bytes :=
  base ++ to_be 8 size ++ u16_be (zlen kappa) ++ kappa.

Record DecodedBinding := mkBinding { db_kappa : rstr; db_base_nonce : bytes; db_plaintext_size : Z }.

Section records.
Context `{ErrorTexts}.

Definition decode_binding (data : bytes) : outcome StoreError DecodedBinding :=
  if zlen data <? 18 then Err (io_other (rs "binding record too short"))
  else
    let base := zslice data 0 8 in
    let size := from_be (zslice data 8 16) in
    let kappa_len := from_be (zslice data 16 18) in
    if zlen data <? 18 + kappa_len then Err (io_other (rs "binding record truncated"))
    else
      let kappa := zslice data 18 (18 + kappa_len) in
      if utf8_valid kappa then Ok (mkBinding kappa base size) else Err (io_other (utf8_error kappa)).

Definition encode_compression_record (kappa algo : rstr) (uncompressed_size : Z) : bytes :=
  z2b (zlen algo) :: algo ++ u16_be (zlen kappa) ++ kappa ++ to_be 8 uncompressed_size.

Record DecodedCompression := mkCompression { dc_kappa : rstr; dc_algorithm : rstr; dc_uncompressed_size : Z }.

Definition decode_compression_record (data : bytes) : outcome StoreError DecodedCompression :=
  match data with
  | [] => Err (io_other (rs "compression record empty"))
  | b :: _ =>
      let algo_len := b2z b in
      if zlen data <? 1 + algo_len + 2 then Err (io_other (rs "compression record truncated"))
      else
        let algorithm := zslice data 1 (1 + algo_len) in
        if utf8_valid algorithm then
          let kappa_len := from_be (zslice data (1 + algo_len) (1 + algo_len + 2)) in
          let kappa_start := 1 + algo_len + 2 in
          if zlen data <? kappa_start + kappa_len + 8 then Err (io_other (rs "compression record truncated"))
          else
            let kappa := zslice data kappa_start (kappa_start + kappa_len) in
            if utf8_valid kappa then
              let size_start := kappa_start + kappa_len in
              Ok (mkCompression kappa algorithm (from_be (zslice data size_start (size_start + 8))))
            else Err (io_other (utf8_error kappa))
        else Err (io_other (utf8_error algorithm))
  end.
End records.

(** * The store *)

Record PartDigests := mkPart {
  pd_part_number : Z;
  pd_offset : Z;
  pd_size : Z;
  pd_md5 : bytes;
  pd_crc32c : Z;
  pd_crc64nvme : Z;
}.

(** An upload's data is the file [staging/id]; the running hashers are empty
    between parts. *)
Record DiskUploadSession := mkDiskUpload {
  du_namespace : rstr;
  du_offset : Z;
  du_max_size : Z;
  du_created_at : Z;
  du_part_digests : list PartDigests;
}.

Record pstore := mkPstore {
  db : tables;
  files : gmap rstr bytes;
  staging : gmap rstr bytes;
  epoch_cache : gmap rstr EpochRoot;
  upload_sessions : gmap rstr DiskUploadSession;
}.

Definition set_db (f : tables → tables) (s : pstore) : pstore :=
  mkPstore (f (db s)) (files s) (staging s) (epoch_cache s) (upload_sessions s).
Definition set_files (f : gmap rstr bytes → gmap rstr bytes) (s : pstore) : pstore :=
  mkPstore (db s) (f (files s)) (staging s) (epoch_cache s) (upload_sessions s).
Definition set_staging (f : gmap rstr bytes → gmap rstr bytes) (s : pstore) : pstore :=
  mkPstore (db s) (files s) (f (staging s)) (epoch_cache s) (upload_sessions s).
Definition set_epoch_cache (f : gmap rstr EpochRoot → gmap rstr EpochRoot) (s : pstore) : pstore :=
  mkPstore (db s) (files s) (staging s) (f (epoch_cache s)) (upload_sessions s).
Definition set_sessions (f : gmap rstr DiskUploadSession → gmap rstr DiskUploadSession) (s : pstore) : pstore :=
  mkPstore (db s) (files s) (staging s) (epoch_cache s) (f (upload_sessions s)).

(** A database operation of the store. *)
Definition on_db {A} (m : M tables A) : M pstore A := λ s,
  let '(d, r) := m (db s) in (set_db (λ _, d) s, r).

(** The keys of an open store. *)
Record StoreKeys := mkKeys {
  encryption_key : option bytes;
  blob_encryptor : option bytes;
  table_encryptor : option bytes;
}.

Section blobs.
Context `{AeadCrate} `{KeyedHash} `{HashCrates} `{HexDecode} `{ErrorTexts} `{DeriveKey} `{MemoryStoreConfig} `{TransferCrates}.

(** The keys [PersistentStore::new] derives; [markers] is what is in the
    directory of erased subjects. *)
Definition open_keys (markers : gset rstr) (key : option bytes) : outcome StoreError StoreKeys :=
  match key with
  | Some k =>
      blob ← map_err (λ e, io_other (crypto_error_str e)) (BlobEncryptor_new (mkKms k markers) (rs "_default"));
      table ← map_err (λ e, io_other (encryption_error_str e)) (TableEncryptor_new k);
      Ok (mkKeys key (Some blob) (Some table))
  | None => Ok (mkKeys None None None)
  end.

(** An open store over the database and the blobs on disk: staged files are
    removed, caches and sessions are empty. *)
Definition PersistentStore_open (d : tables) (blobs : gmap rstr bytes) : pstore := mkPstore d blobs ∅ ∅ ∅.

Context (keys : StoreKeys).
(** The random bytes drawn when the blob with a given label is encrypted. *)
Context (rnd : rstr → bytes + rstr).

(** Place bytes at a path, unless the path exists. *)
Definition place (path : rstr) (content : bytes) : M pstore bool :=
  present ← gets (λ s, bool_decide (is_Some (files s !! path)));
  if present : bool then mret false
  else _ ← modify (set_files (write_atomically path content)); mret true.

Definition bind_record (sigma : rstr) (rec : bytes) : M pstore () :=
  on_db (write_txn (modify (on_binding_records (<[sigma := rec]>)))).

Definition blob_put_impl (verified : VerifiedContent) : M pstore bool :=
  sigma ← lift (reject_label (vc_kappa verified));
  let content := vc_content verified in
  match blob_encryptor keys with
  | Some key =>
      encrypted ← lift (map_err (λ e, io_other (crypto_error_str e)) (encrypt key (rnd sigma) sigma content));
      let kappa := kappa_from_bytes (disk_bytes encrypted) in
      path ← lift (blob_path kappa);
      newly_placed ← place path (disk_bytes encrypted);
      _ ← bind_record sigma (encode_binding kappa (base_nonce encrypted) (plaintext_size encrypted));
      mret newly_placed
  | None =>
      path ← lift (blob_path sigma);
      place path content
  end.

(** [std::fs::read]. *)
Definition read_file (path sigma : rstr) (s : pstore) : outcome StoreError bytes :=
  ok_or (files s !! path) (SNotFound sigma).

(** The binding of a label. *)
Definition binding_of (sigma : rstr) (s : pstore) : outcome StoreError DecodedBinding :=
  val ← ok_or (t_binding_records (db s) !! sigma) (SNotFound sigma);
  decode_binding val.

Definition blob_get_impl (sigma : rstr) (s : pstore) : outcome StoreError bytes :=
  match blob_encryptor keys with
  | Some key =>
      b ← binding_of sigma s;
      path ← blob_path (db_kappa b);
      disk ← read_file path sigma s;
      map_err (λ e, io_other (crypto_error_str e))
        (decrypt_all key sigma disk (db_base_nonce b) (db_plaintext_size b))
  | None => path ← blob_path sigma; read_file path sigma s
  end.

Definition blob_exists_impl (sigma : rstr) (s : pstore) : outcome StoreError bool :=
  if bool_decide (is_Some (t_compression_records (db s) !! sigma)) then Ok true
  else match encryption_key keys with
  | Some _ => Ok (bool_decide (is_Some (t_binding_records (db s) !! sigma)))
  | None => path ← blob_path sigma; Ok (bool_decide (is_Some (files s !! path)))
  end.

Definition blob_delete_impl (sigma : rstr) : M pstore () :=
  match encryption_key keys with
  | Some _ =>
      found ← gets (λ s, t_binding_records (db s) !! sigma);
      match found with
      | Some v =>
          b ← lift (decode_binding v);
          _ ← on_db (write_txn (modify (on_binding_records (delete sigma))));
          path ← lift (blob_path (db_kappa b));
          modify (set_files (delete path))
      | None => mret ()
      end
  | None => path ← lift (blob_path sigma); modify (set_files (delete path))
  end.

Definition blob_size_impl (sigma : rstr) (s : pstore) : outcome StoreError Z :=
  match t_compression_records (db s) !! sigma with
  | Some val => cr ← decode_compression_record val; Ok (dc_uncompressed_size cr)
  | None =>
      match encryption_key keys with
      | Some _ => b ← binding_of sigma s; Ok (db_plaintext_size b)
      | None => path ← blob_path sigma; content ← read_file path sigma s; Ok (zlen content)
      end
  end.

(** What [blob_open] returns: a file, or a reader that decrypts one. *)
Inductive BlobHandle := PlainFile (content : bytes) | Decrypting (r : FrameDecryptingReader).

Definition blob_open_impl (sigma : rstr) (s : pstore) : outcome StoreError BlobHandle :=
  match blob_encryptor keys with
  | Some key =>
      b ← binding_of sigma s;
      path ← blob_path (db_kappa b);
      file ← read_file path sigma s;
      reader_enc ← map_err (λ e, io_other (crypto_error_str e)) (clone_for_reader key);
      Ok (Decrypting (FrameDecryptingReader_new file reader_enc (db_base_nonce b) sigma (db_plaintext_size b)))
  | None => path ← blob_path sigma; file ← read_file path sigma s; Ok (PlainFile file)
  end.

Definition blob_get_range_impl (sigma : rstr) (offset length_ : Z) (s : pstore) : outcome StoreError bytes :=
  match blob_encryptor keys with
  | Some key =>
      b ← binding_of sigma s;
      path ← blob_path (db_kappa b);
      disk ← read_file path sigma s;
      map_err (λ e, io_other (crypto_error_str e))
        (decrypt_range key sigma disk (db_base_nonce b) (db_plaintext_size b) offset length_)
  | None =>
      path ← blob_path sigma;
      content ← read_file path sigma s;
      if isize_max <? offset then Err (SIo (rs "Invalid argument (os error 22)"))
      else if isize_max <? length_ then Panic
      else Ok (take (Z.to_nat (Z.min length_ (zlen content - offset)))
                 (drop (Z.to_nat (Z.min offset (zlen content))) content))
  end.

Definition blob_list_impl (s : pstore) : outcome StoreError (list rstr) :=
  match encryption_key keys with
  | Some _ => Ok (sort_strings ((table_iter (t_binding_records (db s))).*1))
  | None => Ok (sort_strings (omap (λ '(path, _), listed_label path) (map_to_list (files s))))
  end.

(** * Ingest *)

(** [let _ = std::fs::hard_link(primary, alt)] when [alt] does not exist. *)
Definition link_file (primary alt : rstr) : M pstore () :=
  modify (set_files (λ m, match m !! alt, m !! primary with
                          | None, Some c => <[alt := c]> m
                          | _, _ => m
                          end)).

(** The loop over the mandatory axes other than the client's. *)
Fixpoint link_additional (kappa : rstr) (client_axis : Axis) (content : bytes) (axes : list Axis) : M pstore (list rstr) :=
  match axes with
  | [] => mret []
  | axis :: axes =>
      if decide (axis = client_axis) then link_additional kappa client_axis content axes
      else
        additional ← lift (reject_label (VerifiedContent_compute axis content));
        additional_kappa ← lift (reject_label (vc_kappa additional));
        _ ← match encryption_key keys with
            | Some _ => _ ← blob_put_impl additional; mret ()
            | None =>
                primary_path ← lift (blob_path kappa);
                alt_path ← lift (blob_path additional_kappa);
                link_file primary_path alt_path
            end;
        rest ← link_additional kappa client_axis content axes;
        mret (additional_kappa :: rest)
  end.

(** The trait's default. *)
Definition redb_mandatory_axes : list Axis := [Sha256].

Definition redb_ingest_verified (claimed : rstr) (content : bytes) : M pstore IngestResult :=
  verified ← lift (reject_label (VerifiedContent_verify claimed content));
  client_axis ← lift (reject_label (vc_axis verified));
  kappa ← lift (reject_label (vc_kappa verified));
  newly_stored ← blob_put_impl verified;
  additional_kappas ← link_additional kappa client_axis content redb_mandatory_axes;
  mret (with_additional (IngestResult_new kappa newly_stored) additional_kappas).

Definition redb_ingest_compute (axis : Axis) (content : bytes) : M pstore IngestResult :=
  verified ← lift (reject_label (VerifiedContent_compute axis content));
  kappa ← lift (reject_label (vc_kappa verified));
  newly_stored ← blob_put_impl verified;
  additional_kappas ← link_additional kappa axis content redb_mandatory_axes;
  mret (with_additional (IngestResult_new kappa newly_stored) additional_kappas).

(** * Compressed content *)

Definition ingest_compressed_impl (uncompressed_hash : rstr) (compressed_content : bytes) (compression : rstr)
  (uncompressed_size : Z) : M pstore IngestResult :=
  let kappa := kappa_from_bytes compressed_content in
  path ← lift (blob_path kappa);
  newly_stored ← place path compressed_content;
  _ ← on_db (write_txn (modify (on_compression_records
        (<[uncompressed_hash := encode_compression_record kappa compression uncompressed_size]>))));
  mret (IngestResult_new kappa newly_stored).

Definition compressed_of (uncompressed_hash : rstr) (s : pstore) : outcome StoreError (DecodedCompression * bytes) :=
  val ← ok_or (t_compression_records (db s) !! uncompressed_hash) (SNotFound uncompressed_hash);
  cr ← decode_compression_record val;
  path ← blob_path (dc_kappa cr);
  file ← read_file path uncompressed_hash s;
  Ok (cr, file).

Definition blob_open_compressed_impl (uncompressed_hash : rstr) (s : pstore) : outcome StoreError bytes :=
  r ← compressed_of uncompressed_hash s; Ok r.2.

Definition decompress (data : bytes) (algorithm : rstr) : outcome StoreError bytes :=
  let wrapped (tag : rstr) (r : bytes + rstr) := of_sum (λ e, io_other (tag ++ rs " decompress: " ++ e)) r in
  if decide (algorithm = rs "none") then Ok data
  else if decide (algorithm = rs "zstd") then wrapped (rs "zstd") (zstd_decode_all data)
  else if decide (algorithm = rs "xz" ∨ algorithm = rs "lzma") then wrapped (rs "xz") (xz_read_to_end data)
  else if decide (algorithm = rs "bzip2") then wrapped (rs "bzip2") (bz_read_to_end data)
  else Err (SRejected (rs "unsupported compression algorithm: " ++ algorithm)).

Definition blob_open_decompressed_impl (uncompressed_hash : rstr) (s : pstore) : outcome StoreError bytes :=
  r ← compressed_of uncompressed_hash s;
  decompress r.2 (dc_algorithm r.1).
End blobs.

(** * Round trips of the records *)

Lemma zslice_at (pre m post : bytes) a b : a = zlen pre → b = zlen pre + zlen m → zslice (pre ++ m ++ post) a b = m.
Proof. intros -> ->. unfold zslice. apply slice_app; lia. Qed.

Lemma from_be_u16 n : 0 ≤ n ≤ u16_max → from_be (u16_be n) = n.
Proof.
  intros Hn. unfold u16_be, wrap. unfold u16_max in Hn. rewrite Z.mod_small by lia. apply from_to_be.
  change (256 ^ Z.of_nat 2) with 65536. lia.
Qed.

Lemma from_be_u64 n : 0 ≤ n ≤ u64_max → from_be (to_be 8 n) = n.
Proof. intros Hn. unfold u64_max in Hn. apply from_to_be. change (256 ^ Z.of_nat 8) with 18446744073709551616. lia. Qed.

Lemma length_u16 n : length (u16_be n) = 2%nat.
Proof. apply length_to_be. Qed.

Section roundtrips.
Context `{ErrorTexts}.

Lemma binding_roundtrip kappa base size : length base = 8%nat → 0 ≤ size ≤ u64_max → zlen kappa ≤ u16_max →
  utf8_valid kappa = true → decode_binding (encode_binding kappa base size) = Ok (mkBinding kappa base size).
Proof.
  intros Hb Hs Hk Hu. unfold decode_binding. set (data := encode_binding kappa base size).
  assert (zlen data = 18 + zlen kappa) as Hl.
  { unfold data, encode_binding. rewrite !length_app, length_u16, length_to_be, Hb. lia. }
  assert (zslice data 0 8 = base) as -> by (apply (zslice_at [] base); cbn; lia).
  assert (zslice data 8 16 = to_be 8 size) as -> by (apply (zslice_at base); rewrite ?length_to_be; lia).
  assert (data = (base ++ to_be 8 size) ++ u16_be (zlen kappa) ++ kappa) as E1 by (unfold data, encode_binding; by rewrite <- !app_assoc).
  assert (data = (base ++ to_be 8 size ++ u16_be (zlen kappa)) ++ kappa ++ []) as E2
    by (unfold data, encode_binding; by rewrite app_nil_r, <- !app_assoc).
  assert (zslice data 16 18 = u16_be (zlen kappa)) as ->.
  { rewrite E1. apply zslice_at; rewrite length_app, length_to_be, ?length_u16; lia. }
  rewrite from_be_u16, from_be_u64 by lia.
  assert (zslice data 18 (18 + zlen kappa) = kappa) as ->.
  { rewrite E2. apply zslice_at; rewrite !length_app, length_to_be, length_u16; lia. }
  rewrite !(proj2 (Z.ltb_ge _ _)) by lia. by rewrite Hu.
Qed.

Lemma compression_roundtrip kappa algo size : zlen algo ≤ 255 → zlen kappa ≤ u16_max → 0 ≤ size ≤ u64_max →
  utf8_valid kappa = true → utf8_valid algo = true →
  decode_compression_record (encode_compression_record kappa algo size) = Ok (mkCompression kappa algo size).
Proof.
  intros Ha Hk Hs Hu Hua. unfold decode_compression_record. set (data := encode_compression_record kappa algo size).
  assert (zlen data = 1 + zlen algo + 2 + zlen kappa + 8) as Hl.
  { unfold data, encode_compression_record. cbn [length]. rewrite !length_app, length_u16, length_to_be. lia. }
  assert (data = z2b (zlen algo) :: algo ++ u16_be (zlen kappa) ++ kappa ++ to_be 8 size) as E by done.
  rewrite E at 1. rewrite b2z_z2b, Z.mod_small by lia.
  assert (zslice data 1 (1 + zlen algo) = algo) as ->.
  { rewrite E. apply (zslice_at [z2b (zlen algo)]); done. }
  assert (zslice data (1 + zlen algo) (1 + zlen algo + 2) = u16_be (zlen kappa)) as ->.
  { rewrite E. change (z2b (zlen algo) :: algo ++ ?r) with ((z2b (zlen algo) :: algo) ++ r).
    apply zslice_at; cbn [length]; rewrite ?length_u16; lia. }
  rewrite from_be_u16 by lia.
  assert (zslice data (1 + zlen algo + 2) (1 + zlen algo + 2 + zlen kappa) = kappa) as ->.
  { rewrite E. change (z2b (zlen algo) :: algo ++ ?r) with ((z2b (zlen algo) :: algo) ++ r).
    rewrite app_assoc. apply zslice_at; rewrite length_app, length_u16; cbn [length]; lia. }
  assert (zslice data (1 + zlen algo + 2 + zlen kappa) (1 + zlen algo + 2 + zlen kappa + 8) = to_be 8 size) as ->.
  { assert (data = ((z2b (zlen algo) :: algo) ++ u16_be (zlen kappa) ++ kappa) ++ to_be 8 size ++ []) as ->
      by (rewrite E, app_nil_r, <- !app_assoc; done).
    apply zslice_at; rewrite !length_app, length_u16, ?length_to_be; cbn [length]; lia. }
  rewrite from_be_u64 by lia. rewrite !(proj2 (Z.ltb_ge _ _)) by lia. by rewrite Hua, Hu.
Qed.
End roundtrips.

(** * Encrypted blobs *)

Section encrypted.
Context `{AeadLaws} `{KeyedHash} `{HashCratesLaws} `{HexDecode} `{ErrorTexts} `{DeriveKey} `{MemoryStoreConfig} `{TransferCrates}.

Lemma place_run path c s :
  place path c s = if decide (is_Some (files s !! path)) then (s, Ok false)
                   else (set_files (write_atomically path c) s, Ok true).
Proof.
  unfold place. run. case_decide as E; [by rewrite bool_decide_eq_true_2|by rewrite bool_decide_eq_false_2].
Qed.

(** What is at a blob path after placing bytes at one. *)
Lemma write_atomically_label a hex c m b bhex : valid_digits b bhex →
  write_atomically (label_path blob_root a hex) c m !! label_path blob_root b bhex
  = if decide (label_path blob_root b bhex = label_path blob_root a hex) then Some c else m !! label_path blob_root b bhex.
Proof. intros Hv. apply write_atomically_lookup. intros E. symmetry in E. by eapply tmp_path_not_label, E. Qed.

Lemma kappa_path_text c : blob_path (kappa_from_bytes c) = Ok (label_path blob_root Sha256 (digest_hex Sha256 c)).
Proof. rewrite kappa_from_bytes_text. apply blob_path_label, digest_hex_valid. Qed.

Lemma kappa_text_small a c : zlen (kappa_text a c) ≤ u16_max ∧ utf8_valid (kappa_text a c) = true.
Proof.
  split; [|apply label_text_ascii, digest_hex_valid]. unfold kappa_text, label_text. rewrite length_app. cbn [length].
  destruct (digest_hex_valid a c) as [Hl _]. rewrite Nat2Z.inj_add, Nat2Z.inj_succ, Hl. destruct a; cbn; unfold u16_max; lia.
Qed.

(** The bytes already at the place of a ciphertext, if any, are that ciphertext. *)
Definition no_collision (disk : bytes) (s : pstore) : Prop :=
  ∀ c, files s !! label_path blob_root Sha256 (digest_hex Sha256 disk) = Some c → c = disk.

(** A label bound to an encryption of some content. *)
Definition bound (key : bytes) (sigma : rstr) (content : bytes) (s : pstore) : Prop :=
  ∃ disk base, length base = 8%nat ∧ fits content ∧
    t_binding_records (db s) !! sigma = Some (encode_binding (kappa_from_bytes disk) base (zlen content)) ∧
    files s !! label_path blob_root Sha256 (digest_hex Sha256 disk) = Some disk ∧
    layout key base sigma content disk.

Lemma bound_binding key sigma content s : bound key sigma content s →
  ∃ disk base, binding_of sigma s = Ok (mkBinding (kappa_from_bytes disk) base (zlen content)) ∧ length base = 8%nat ∧ fits content ∧
    files s !! label_path blob_root Sha256 (digest_hex Sha256 disk) = Some disk ∧ layout key base sigma content disk.
Proof.
  intros (disk & base & Hb & Hf & Hr & Hp & Hl). exists disk, base. split; [|done]. unfold binding_of. rewrite Hr. osimpl.
  destruct (kappa_text_small Sha256 disk) as [H1' H2']. apply binding_roundtrip; rewrite ?kappa_from_bytes_text; try done.
  sizes. lia.
Qed.

Lemma bound_reads keys key sigma content s : blob_encryptor keys = Some key → bound key sigma content s →
  blob_get_impl keys sigma s = Ok content ∧
  (∀ offset len, 0 ≤ offset → 0 ≤ len →
     blob_get_range_impl keys sigma offset len s = Ok (take (Z.to_nat len) (drop (Z.to_nat offset) content))) ∧
  (aes_key_new key = true → ∃ r, blob_open_impl keys sigma s = Ok (Decrypting r) ∧ reads content r ∧ fr_position r = 0).
Proof.
  intros Hk (disk & base & Hbind & Hb & Hf & Hp & Hl)%bound_binding.
  unfold blob_get_impl, blob_get_range_impl, blob_open_impl, read_file. rewrite Hk, Hbind. osimpl. cbn [db_kappa db_base_nonce db_plaintext_size].
  rewrite kappa_path_text. osimpl. rewrite Hp. osimpl. split_and!.
  - by rewrite decrypt_all_layout.
  - intros offset len Ho Hlen. by rewrite decrypt_range_layout.
  - intros Ha. unfold clone_for_reader. rewrite Ha. osimpl. eexists. split; [done|]. split; [|done].
    split_and!; [done..|by intros i [=]].
Qed.

Lemma encrypted_put keys rnd key v a base s : blob_encryptor keys = Some key →
  vc_label v = label_of a (digest_hex a (vc_content v)) → rnd (kappa_text a (vc_content v)) = inl base →
  length base = 8%nat → fits (vc_content v) → fs_ok (files s) →
  ∃ disk, encrypt key (inl base) (kappa_text a (vc_content v)) (vc_content v) = Ok (mkEncrypted disk base (zlen (vc_content v))) ∧
    layout key base (kappa_text a (vc_content v)) (vc_content v) disk ∧
    ∃ f b, blob_put_impl keys rnd v s = (set_db (on_binding_records (<[kappa_text a (vc_content v) :=
                encode_binding (kappa_from_bytes disk) base (zlen (vc_content v))]>)) (set_files f s), Ok b) ∧
      f = (if decide (is_Some (files s !! label_path blob_root Sha256 (digest_hex Sha256 disk))) then id
           else write_atomically (label_path blob_root Sha256 (digest_hex Sha256 disk)) disk) ∧
      fs_ok (f (files s)).
Proof.
  intros Hk Hlab Hrnd Hb Hf Hs. set (content := vc_content v) in *. set (sigma := kappa_text a content) in *.
  destruct (encrypt_layout key base sigma Hb content Hf) as (disk & Hseal & Hlay). exists disk.
  assert (encrypt key (inl base) sigma content = Ok (mkEncrypted disk base (zlen content))) as Henc.
  { unfold encrypt. cbn [of_sum mbind outcome_bind]. by rewrite Hseal. }
  split; [done|]. split; [done|]. unfold blob_put_impl. rewrite (verified_ok_kappa v a content Hlab).
  unfold mbind, M_bind, lift, reject_label, mret, M_ret. cbn [map_err]. fold sigma. rewrite Hk, Hrnd. fold content. rewrite Henc. cbn [map_err disk_bytes base_nonce plaintext_size].
  rewrite kappa_path_text, place_run. case_decide as E.
  - exists id, false. split_and!; [by destruct s|done|exact Hs].
  - eexists _, true. split_and!; [done|done|]. by apply write_atomically_ok.
Qed.
End encrypted.

(** * Plain blobs *)

Definition plain_keys : StoreKeys := mkKeys None None None.

Section plain.
Context `{AeadCrate} `{KeyedHash} `{HashCratesLaws} `{HexDecode} `{ErrorTexts} `{DeriveKey} `{MemoryStoreConfig} `{TransferCrates}.

(** The in-memory store with the same files. *)
Definition as_mem (s : pstore) : store := set_fs (λ _, files s) empty_store.

#[export] Instance plain_blobs : KappaBlobs pstore := {|
  mandatory_axes := redb_mandatory_axes;
  blob_put_verified := blob_put_impl plain_keys (λ _, inr []);
  blob_get := blob_get_impl plain_keys;
  blob_delete := blob_delete_impl plain_keys;
|}.

Lemma plain_put v rnd s :
  blob_put_impl plain_keys rnd v s
  = (set_files (λ _, fs (mem_blob_put_verified v (as_mem s)).1) s, (mem_blob_put_verified v (as_mem s)).2).
Proof.
  unfold blob_put_impl, mem_blob_put_verified. run. destruct (reject_label (vc_kappa v)) as [k| |]; [|by destruct s..].
  cbn [blob_encryptor plain_keys]. destruct (blob_path k) as [p| |]; [|by destruct s..]. unfold place. run.
  change (fs (as_mem s)) with (files s). destruct (bool_decide (is_Some (files s !! p))); by destruct s.
Qed.

Lemma plain_get k s : blob_get_impl plain_keys k s = mem_blob_get k (as_mem s).
Proof. done. Qed.

Lemma plain_delete k s :
  blob_delete_impl plain_keys k s
  = (set_files (λ _, fs (mem_blob_delete k (as_mem s)).1) s, (mem_blob_delete k (as_mem s)).2).
Proof.
  unfold blob_delete_impl, mem_blob_delete. run. cbn [encryption_key plain_keys].
  destruct (blob_path k) as [p| |]; by destruct s.
Qed.

Lemma as_mem_get k s m : mem_blob_get k (as_mem (set_files (λ _, fs m) s)) = mem_blob_get k m.
Proof. done. Qed.

(** A run of the in-memory operation behind one of the plain store. *)
Ltac as_mem_run E :=
  lazymatch goal with |- context [mem_blob_put_verified ?v ?m] => destruct (mem_blob_put_verified v m) as [? ?] eqn:E
  | |- context [mem_blob_delete ?v ?m] => destruct (mem_blob_delete v m) as [? ?] eqn:E end;
  cbn [fst snd]; intros [= <- ->].

Ltac plain_simpl s :=
  cbn [blob_get blob_put_verified blob_delete plain_blobs];
  try match goal with Hs : (λ _, _) s |- _ => change (@store_inv store _ _ mem_blobs_laws (as_mem s)) in Hs end.

(** The unencrypted persistent store keeps the promises of the blob interface. *)
#[export] Program Instance plain_blobs_laws : KappaBlobsLaws pstore := {| store_inv s := fs_ok (files s) |}.
Next Obligation.
  intros v s Hs Hv. plain_simpl s. rewrite plain_put. destruct (put_total v (as_mem s) Hs Hv) as (m & b & Hb). change (mem_blob_put_verified v (as_mem s) = (m, Ok b)) in Hb. rewrite Hb. by eexists _, b.
Qed.
Next Obligation.
  intros v s s' r Hs Hv. plain_simpl s. rewrite plain_put. as_mem_run E. exact (put_inv v (as_mem s) _ _ Hs Hv E).
Qed.
Next Obligation.
  intros a hex s c Hs Hv. plain_simpl s. rewrite plain_get. exact (get_addressed a hex (as_mem s) c Hs Hv).
Qed.
Next Obligation.
  intros v s s' b k Hs Hv. plain_simpl s. rewrite plain_put, plain_get. as_mem_run E. exact (put_get v (as_mem s) _ _ k Hs Hv E).
Qed.
Next Obligation.
  intros v s s' r a hex Hs Hv. plain_simpl s. rewrite plain_put, !plain_get. as_mem_run E. exact (put_get_other v (as_mem s) _ _ a hex Hs Hv E).
Qed.
Next Obligation.
  intros v s s' b k Hs Hv. plain_simpl s. rewrite plain_put, !plain_get. as_mem_run E. exact (put_new v (as_mem s) _ _ k Hs Hv E).
Qed.
Next Obligation.
  intros k s s' r Hs. plain_simpl s. rewrite plain_delete. as_mem_run E. exact (delete_inv k (as_mem s) _ _ Hs E).
Qed.
Next Obligation.
  intros a hex s s' Hv. plain_simpl s. rewrite plain_delete, plain_get. as_mem_run E. exact (delete_get a hex (as_mem s) _ Hv E).
Qed.
Next Obligation.
  intros a hex a' hex' s s' r Hv Hv' Hne. plain_simpl s. rewrite plain_delete, !plain_get. as_mem_run E.
  exact (delete_get_other a hex a' hex' (as_mem s) _ _ Hv Hv' Hne E).
Qed.
End plain.

(** * Hard links instead of copies *)

Section links.
Context `{AeadCrate} `{KeyedHash} `{HashCratesLaws} `{HexDecode} `{ErrorTexts} `{DeriveKey} `{MemoryStoreConfig} `{TransferCrates}.

Lemma verify_shape claimed c v : VerifiedContent_verify claimed c = Ok v →
  ∃ a, v = mkVerified (label_of a (digest_hex a c)) c.
Proof.
  intros Hv. unfold VerifiedContent_verify in Hv. destruct (label_parse claimed) as [l| |] eqn:Hl; [|done..]. osimpl in Hv.
  destruct (verify_kappa claimed c) as [[]| |] eqn:Hk; [|simpl in Hv; inv_ok|done..]. simpl in Hv. injection Hv as <-.
  apply verify_kappa_true in Hk as (a & -> & _). rewrite kappa_text_parse in Hl. injection Hl as <-. by exists a.
Qed.

Lemma blob_path_kappa a c : blob_path (kappa_text a c) = Ok (label_path blob_root a (digest_hex a c)).
Proof. apply blob_path_label, digest_hex_valid. Qed.

(** Files the rename leaves no trace in: no temporary file was there. *)
Lemma write_fresh m a hex c : fs_ok m → write_atomically (label_path blob_root a hex) c m = <[label_path blob_root a hex := c]> m.
Proof.
  intros Hm. unfold write_atomically. f_equal. apply delete_insert_id. destruct (m !! tmp_path _) as [x|] eqn:E; [|done].
  destruct (Hm _ _ E) as [b Hb]. by destruct (tmp_path_not_label (label_path blob_root a hex) b (digest_hex b x) (digest_hex_valid b x)).
Qed.

Lemma link_additional_put rnd a content axes s : fs_ok (files s) →
  files s !! label_path blob_root a (digest_hex a content) = Some content →
  link_additional plain_keys rnd (kappa_text a content) a content axes s = put_additional a content axes s.
Proof.
  revert s. induction axes as [|axis axes IH]; intros s Hs Hp; cbn [link_additional put_additional]; [done|].
  case_decide as Ea; [by apply IH|]. destruct (hash_refused axis content) eqn:Hr.
  { rewrite compute_refused by done. done. }
  rewrite compute_verified by done. set (v := mkVerified _ content).
  assert (vc_kappa v = Ok (kappa_text axis content)) as Hk by exact (verified_ok_kappa v axis content eq_refl).
  unfold mbind, M_bind, mret, M_ret, lift, reject_label. cbn [map_err]. rewrite Hk. cbn [map_err encryption_key plain_keys].
  rewrite !blob_path_kappa. cbn [blob_put_verified plain_blobs]. rewrite plain_put.
  rewrite (mem_put_spec v (as_mem s) axis) by done. change (fs (as_mem s)) with (files s). change (vc_content v) with content.
  set (alt := label_path blob_root axis (digest_hex axis content)). unfold link_file, modify.
  destruct (files s !! alt) as [x|] eqn:Ealt.
  - rewrite decide_True by eauto. cbn [fst snd]. change (fs (as_mem s)) with (files s).
    assert (set_files (λ m, match m !! alt with Some _ => m | None => match m !! label_path blob_root a (digest_hex a content) with
              Some c => <[alt:=c]> m | None => m end end) s = s) as E1 by (unfold set_files; rewrite Ealt; by destruct s).
    rewrite E1. replace (set_files (λ _, files s) s) with s by (by destruct s). rewrite (IH s Hs Hp). done.
  - rewrite decide_False by (intros [? ?]; congruence). cbn [fst snd fs set_fs as_mem].
    assert (write_atomically alt content (files s) = <[alt := content]> (files s)) as Hw by (by apply write_fresh).
    set (s1 := set_files (λ _, write_atomically alt content (files s)) s).
    assert (set_files (λ m, match m !! alt with Some _ => m | None => match m !! label_path blob_root a (digest_hex a content) with
              Some c => <[alt:=c]> m | None => m end end) s = s1) as E1.
    { unfold s1, set_files. by rewrite Ealt, Hp, Hw. }
    rewrite E1. rewrite (IH s1); [done| |].
    + cbn. by apply write_atomically_ok.
    + cbn [files s1 set_files]. rewrite Hw. destruct (decide (alt = label_path blob_root a (digest_hex a content))) as [<-|Hne].
      * by rewrite lookup_insert_eq.
      * by rewrite lookup_insert_ne.
Qed.

Lemma plain_ingest_tail rnd a content s : fs_ok (files s) →
  (∀ c, files s !! label_path blob_root a (digest_hex a content) = Some c → c = content) →
  let v := mkVerified (label_of a (digest_hex a content)) content in
  ∀ s1 b axes, blob_put_impl plain_keys rnd v s = (s1, Ok b) →
    link_additional plain_keys rnd (kappa_text a content) a content axes s1 = put_additional a content axes s1.
Proof.
  intros Hs Hc v s1 b axes. rewrite plain_put, (mem_put_spec v (as_mem s) a) by done. change (fs (as_mem s)) with (files s).
  change (vc_content v) with content. case_decide as E; cbn [fst snd fs set_fs as_mem]; intros [= <- <-].
  - apply link_additional_put; [done|]. destruct E as [c E]. change (files s !! label_path blob_root a (digest_hex a content) = Some content). by rewrite E, (Hc c E).
  - apply link_additional_put; [by apply write_atomically_ok|]. cbn [files set_files]. rewrite write_fresh by done. by rewrite lookup_insert_eq.
Qed.
End links.

(** * Properties *)

(** The persistent store's own ingest, which links the file to the paths of
    the mandatory axes instead of storing the content again, does what the
    trait's default does: unless the content's path already holds other bytes
    (a collision), it returns the same result and leaves the same files and
    tables, on every claim and axis, refused ones included. *)
Theorem redb_ingest_is_default `{AeadCrate} `{KeyedHash} `{HashCratesLaws} `{HexDecode} `{ErrorTexts} `{MemoryStoreConfig}
  rnd content s (Hs : fs_ok (files s))
  (Hc : ∀ a c, files s !! label_path blob_root a (digest_hex a content) = Some c → c = content) :
  (∀ claimed, redb_ingest_verified plain_keys rnd claimed content s = ingest_verified claimed content s) ∧
  (∀ axis, redb_ingest_compute plain_keys rnd axis content s = ingest_compute axis content s).
Proof.
  assert (∀ a s1 b, let v := mkVerified (label_of a (digest_hex a content)) content in
    vc_axis v = Ok a ∧ vc_kappa v = Ok (kappa_text a content) ∧
    blob_put_impl plain_keys rnd v s = blob_put_verified v s ∧
    (blob_put_impl plain_keys rnd v s = (s1, Ok b) →
     link_additional plain_keys rnd (kappa_text a content) a content redb_mandatory_axes s1
     = put_additional a content mandatory_axes s1)) as Hv.
  { intros a s1 b v. split_and!.
    - apply label_axis_enum_of, digest_hex_valid.
    - exact (verified_ok_kappa v a content eq_refl).
    - cbn [blob_put_verified plain_blobs]. by rewrite !plain_put.
    - apply (plain_ingest_tail rnd a content s Hs (Hc a)). }
  split.
  - intros claimed. unfold redb_ingest_verified, ingest_verified, mbind, M_bind, lift, reject_label, mret, M_ret.
    destruct (VerifiedContent_verify claimed content) as [v|e|] eqn:Ev; [|done..]. cbn [map_err].
    destruct (verify_shape _ _ _ Ev) as [a ->].
    destruct (Hv a s true) as (-> & -> & Hput & _). cbn [map_err].  rewrite Hput.
    destruct (blob_put_verified _ s) as [s1 [b| |]] eqn:Eb; [|done..].
    destruct (Hv a s1 b) as (_ & _ & _ & Htail).  by rewrite (Htail Hput).
  - intros axis. unfold redb_ingest_compute, ingest_compute, mbind, M_bind, lift, reject_label, mret, M_ret.
    destruct (hash_refused axis content) eqn:Hr; [by rewrite compute_refused|]. rewrite compute_verified by done. cbn [map_err].
    destruct (Hv axis s true) as (_ & -> & Hput & _). cbn [map_err].  rewrite Hput.
    destruct (blob_put_verified _ s) as [s1 [b| |]] eqn:Eb; [|done..].
    destruct (Hv axis s1 b) as (_ & _ & _ & Htail).  by rewrite (Htail Hput).
Qed.

(** The store of a fresh directory. *)
Definition fresh_store : pstore := PersistentStore_open empty_tables ∅.

Lemma redb_ingest_is_default_witness :
  redb_ingest_compute plain_keys (λ _, inr []) Sha512 (rs "x") fresh_store = ingest_compute Sha512 (rs "x") fresh_store.
Proof.
  destruct (redb_ingest_is_default (λ _, inr []) (rs "x") fresh_store) as [_ Hi].
  - intros p c Hp. discriminate Hp.
  - intros a c Hp. discriminate Hp.
  - apply (Hi Sha512).
Defined.

(** C27: a blob put in an encrypted store is stored and read.  With eight random
    bytes and content the frames can count, the put succeeds; reading the label
    gives the content back, a range read the bytes of the range, the size is the
    content's, and opening it gives a reader over the content; every file still
    lies at the path of its own SHA-256 hash; what could be read before is read
    as before; and after a delete the label is not found. *)
Theorem encrypted_blob_correct `{AeadLaws} `{KeyedHash} `{HashCratesLaws} `{ErrorTexts} `{MemoryStoreConfig}
  k0 key tk rnd a content base s
  (Hr : rnd (kappa_text a content) = inl base) (Hb : length base = 8%nat) (Hf : fits content) (Hs : fs_ok (files s))
  (Hn : ∀ e, encrypt key (inl base) (kappa_text a content) content = Ok e → no_collision (disk_bytes e) s)
  (Hz : t_compression_records (db s) !! kappa_text a content = None) (Hk : aes_key_new key = true) :
  let keys := mkKeys (Some k0) (Some key) tk in
  let sigma := kappa_text a content in
  ∃ s' b, blob_put_impl keys rnd (mkVerified (label_of a (digest_hex a content)) content) s = (s', Ok b) ∧
    fs_ok (files s') ∧
    blob_get_impl keys sigma s' = Ok content ∧ blob_size_impl keys sigma s' = Ok (zlen content) ∧
    (∀ offset len, 0 ≤ offset → 0 ≤ len →
       blob_get_range_impl keys sigma offset len s' = Ok (take (Z.to_nat len) (drop (Z.to_nat offset) content))) ∧
    (∃ r, blob_open_impl keys sigma s' = Ok (Decrypting r) ∧ reads content r ∧ fr_position r = 0) ∧
    (∀ sigma' c, sigma' ≠ sigma → bound key sigma' c s → blob_get_impl keys sigma' s' = Ok c) ∧
    ∃ s2, blob_delete_impl keys sigma s' = (s2, Ok ()) ∧ blob_get_impl keys sigma s2 = Err (SNotFound sigma).
Proof.
  intros keys sigma. fold sigma in Hz. set (v := mkVerified _ content).
  destruct (encrypted_put keys rnd key v a base s eq_refl eq_refl Hr Hb Hf Hs) as (disk & Henc & Hlay & f & b & Hrun & Ef & Hok).
  change (vc_content v) with content in *. fold sigma in Henc, Hlay, Hrun. specialize (Hn _ Henc).
  set (path := label_path blob_root Sha256 (digest_hex Sha256 disk)) in *.
  assert (f (files s) !! path = Some disk) as Hpath.
  { rewrite Ef. case_decide as E; [destruct E as [c E]; cbn; by rewrite E, (Hn c E)|].
    unfold path. by rewrite write_fresh, lookup_insert_eq. }
  set (s' := set_db _ _) in *. exists s', b.
  assert (bound key sigma content s') as Hbd.
  { exists disk, base. split_and!; [done|done| |done|done]. cbn. by rewrite lookup_insert_eq. }
  destruct (bound_reads keys key sigma content s' eq_refl Hbd) as (Hg & Hrange & Hopen).
  destruct (bound_binding key sigma content s' Hbd) as (disk2 & base2 & Hbind & _).
  assert (∀ p c, files s !! p = Some c → f (files s) !! p = Some c) as Hkeep.
  { intros p c Hp. rewrite Ef. case_decide as E; [done|]. destruct (Hs _ _ Hp) as [a' ->].
    unfold path. rewrite write_atomically_label by apply digest_hex_valid. rewrite decide_False; [done|]. intros E'. apply E. fold path in E'. rewrite <- E'. eauto. }
  split_and!; [done..| |done|by apply Hopen| |].
  - unfold blob_size_impl. cbn [db s' set_db set_files t_compression_records on_binding_records encryption_key keys].
    rewrite Hz, Hbind. done.
  - intros sigma' c Hne (disk' & base' & H1' & H2' & H3' & H4' & H5').
    apply (bound_reads keys key sigma' c s' eq_refl). exists disk', base'. split_and!; [done|done| |by apply Hkeep|done].
    cbn. by rewrite lookup_insert_ne.
  - eexists. split.
    + unfold blob_delete_impl. run. cbn [encryption_key keys]. cbn [db s' set_db t_binding_records on_binding_records]. rewrite lookup_insert_eq.
      unfold binding_of in Hbind. cbn [db s' set_db t_binding_records on_binding_records] in Hbind. rewrite lookup_insert_eq in Hbind. osimpl in Hbind.
      rewrite Hbind. cbn [db_kappa]. unfold on_db, write_txn. rewrite kappa_path_text. done.
    + unfold blob_get_impl, binding_of. cbn [blob_encryptor keys db set_files set_db t_binding_records on_binding_records].
      by rewrite lookup_delete_eq.
Qed.

(** A store opened with a key. *)
Definition sample_keys : StoreKeys := mkKeys (Some (repeat x02 32)) (Some (repeat x01 32)) (Some (repeat x02 32)).

Lemma encrypted_blob_correct_witness :
  ∃ s' b, blob_put_impl sample_keys (λ _, inl (repeat x07 8)) (mkVerified (label_of Sha512 (digest_hex Sha512 (rs "x"))) (rs "x")) fresh_store
          = (s', Ok b) ∧
    blob_get_impl sample_keys (kappa_text Sha512 (rs "x")) s' = Ok (rs "x").
Proof.
  destruct (encrypted_blob_correct (repeat x02 32) (repeat x01 32) (Some (repeat x02 32)) (λ _, inl (repeat x07 8)) Sha512 (rs "x")
    (repeat x07 8) fresh_store eq_refl eq_refl) as (s' & b & H1 & _ & H2 & _).
  - unfold fits. vm_compute. discriminate.
  - intros p c Hp. discriminate Hp.
  - intros e _ c Hp. discriminate Hp.
  - reflexivity.
  - reflexivity.
  - exists s', b. split; [exact H1|exact H2].
Defined.
