(* ===== verification/RedbEdge.v ===== *)
(** RedbEdge: edges in the database, [kappa-store-redb/src/edge.rs].

    An edge is stored as a blob and, in canonical form, in the table of edges
    under its namespace and its first label; four multimap indexes find the labels
    by source, target, relation and asserter. *)

From S2P Require Import Prelude Label Compute Types Merkle Epoch Identity Store MemStore MemTags MemEdge MemUpload Gc Http Aead RedbTable RedbTags RedbBlob.

Section edges.
Context `{AeadCrate} `{KeyedHash} `{HashCrates} `{HexDecode} `{ErrorTexts} `{MemoryStoreConfig} `{Dcbor} `{!IntoCbor Edge} `{!EdgeFromCbor}.
Context (keys : StoreKeys) (rnd : rstr → bytes + rstr).

Definition decode_edge (bs : bytes) : outcome StoreError Edge :=
  map_err (λ e, io_other (canonical_error_str e)) (from_canonical edge_of_cbor bs).

(** Indexes by kind. *)
Definition table_index (d : tables) (i : index_kind) : gmap rstr (gset rstr) :=
  match i with Fwd => t_edge_fwd d | Rev => t_edge_rev d | Rel => t_edge_rel d | Asr => t_edge_asr d end.
Definition index_name (i : index_kind) (e : Edge) : rstr :=
  match i with
  | Fwd => e_source e
  | Rev => e_target e
  | Rel => relation_as_str (e_relation e)
  | Asr => e_asserter e
  end.

Inductive UpsertAction := Skip | Update (existing_key : rstr) | Insert.

(** The scan for an edge of the same identity; an entry that does not decode is
    passed over, one that does not decrypt is an error. *)
Fixpoint upsert_action (ns : rstr) (edge : Edge) (candidates : list rstr) (d : tables) : outcome StoreError UpsertAction :=
  match candidates with
  | [] => Ok Insert
  | ek :: rest =>
      let existing_key := join_key ns ek in
      match t_edges d !! existing_key with
      | Some raw_bytes =>
          decrypted ← open_bytes (table_encryptor keys) existing_key raw_bytes;
          match decode_edge decrypted with
          | Ok existing =>
              if decide (same_edge existing edge) then
                if decide (e_value_kappa existing = e_value_kappa edge ∧ e_metadata existing = e_metadata edge)
                then Ok Skip else Ok (Update existing_key)
              else upsert_action ns edge rest d
          | Err _ => upsert_action ns edge rest d
          | Panic => Panic
          end
      | None => upsert_action ns edge rest d
      end
  end.

(** The insertions into the table of edges and its four indexes. *)
Definition insert_edge_rows (ns : rstr) (edge : Edge) (edge_bytes : bytes) (edge_kappa : rstr) : M tables () :=
  let edge_key := join_key ns edge_kappa in
  stored_bytes ← lift (seal_bytes (table_encryptor keys) edge_key edge_bytes);
  _ ← modify (on_edges (<[edge_key := stored_bytes]>));
  _ ← modify (on_edge_fwd (multimap_insert (join_key ns (e_source edge)) edge_kappa));
  _ ← modify (on_edge_rev (multimap_insert (join_key ns (e_target edge)) edge_kappa));
  _ ← modify (on_edge_rel (multimap_insert (join_key ns (relation_as_str (e_relation edge))) edge_kappa));
  modify (on_edge_asr (multimap_insert (join_key ns (e_asserter edge)) edge_kappa)).

(** The body of the put's transaction. *)
Definition upsert_edge (ns : rstr) (edge : Edge) (edge_bytes : bytes) (edge_kappa : rstr) : M tables () :=
  _ ← touch_namespace ns;
  action ← asks (λ d, upsert_action ns edge (multimap_get (join_key ns (e_source edge)) (t_edge_fwd d)) d);
  match action with
  | Skip => mret ()
  | Update existing_key =>
      stored_bytes ← lift (seal_bytes (table_encryptor keys) existing_key edge_bytes);
      modify (on_edges (<[existing_key := stored_bytes]>))
  | Insert =>
      _ ← insert_edge_rows ns edge edge_bytes edge_kappa;
      if decide (e_relation edge ∈ inbound_relations) then
        modify (on_assertion_inbound
          (multimap_insert (join_key (e_target edge) (relation_as_str (e_relation edge))) edge_kappa))
      else mret ()
  end.

Definition edge_put_impl (ns : rstr) (edge : Edge) : M pstore () :=
  let edge_bytes := canonical_bytes into_cbor edge in
  ingested ← redb_ingest_compute keys rnd Sha256 edge_bytes;
  on_db (write_txn (upsert_edge ns edge edge_bytes (ir_kappa ingested))).

(** The edges under the given labels, in order. *)
Fixpoint load_edges (ns : rstr) (kappas : list rstr) (d : tables) : outcome StoreError (list Edge) :=
  match kappas with
  | [] => Ok []
  | ek :: rest =>
      let edge_key := join_key ns ek in
      match t_edges d !! edge_key with
      | Some raw_bytes =>
          decrypted ← open_bytes (table_encryptor keys) edge_key raw_bytes;
          edge ← decode_edge decrypted;
          edges ← load_edges ns rest d;
          Ok (edge :: edges)
      | None => load_edges ns rest d
      end
  end.

Definition edge_query_impl (ns : rstr) (q : EdgeQuery) (d : tables) : outcome StoreError (list Edge) :=
  let index_key := join_key ns (q_anchor q) in
  let edge_kappas := match q_direction q with
                     | Outbound => multimap_get index_key (t_edge_fwd d)
                     | Inbound => multimap_get index_key (t_edge_rev d)
                     end in
  edges ← load_edges ns edge_kappas d;
  Ok (filter (λ e, query_matches q e = true) edges).

(** Phase 1 of the batch: the blobs, outside the transaction. *)
Fixpoint prepare_edges (edges : list Edge) : M pstore (list (Edge * bytes * rstr)) :=
  match edges with
  | [] => mret []
  | edge :: rest =>
      let edge_bytes := canonical_bytes into_cbor edge in
      ingested ← redb_ingest_compute keys rnd Sha256 edge_bytes;
      prepared ← prepare_edges rest;
      mret ((edge, edge_bytes, ir_kappa ingested) :: prepared)
  end.

(** Phase 2: every edge is inserted, without looking for one it replaces. *)
Fixpoint insert_edges (ns : rstr) (prepared : list (Edge * bytes * rstr)) : M tables () :=
  match prepared with
  | [] => mret ()
  | (edge, edge_bytes, edge_kappa) :: rest => _ ← insert_edge_rows ns edge edge_bytes edge_kappa; insert_edges ns rest
  end.

Definition edge_put_batch_impl (ns : rstr) (edges : list Edge) : M pstore () :=
  if decide (edges = []) then mret ()
  else
    prepared ← prepare_edges edges;
    on_db (write_txn (_ ← touch_namespace ns; insert_edges ns prepared)).

(** The first candidate with the given ends and relation. *)
Fixpoint find_candidate (ns source target : rstr) (relation : EdgeRelation) (candidates : list rstr) (d : tables)
  : outcome StoreError (option (rstr * Edge)) :=
  match candidates with
  | [] => Ok None
  | ek :: rest =>
      let edge_key := join_key ns ek in
      match t_edges d !! edge_key with
      | Some raw_bytes =>
          decrypted ← open_bytes (table_encryptor keys) edge_key raw_bytes;
          edge ← decode_edge decrypted;
          if decide (e_source edge = source ∧ e_target edge = target ∧ e_relation edge = relation)
          then Ok (Some (ek, edge)) else find_candidate ns source target relation rest d
      | None => find_candidate ns source target relation rest d
      end
  end.

(** The removals from the table of edges and its four indexes. *)
Definition remove_edge_rows (ns : rstr) (edge : Edge) (edge_kappa : rstr) : M tables () :=
  _ ← modify (on_edges (delete (join_key ns edge_kappa)));
  _ ← modify (on_edge_fwd (multimap_remove (join_key ns (e_source edge)) edge_kappa));
  _ ← modify (on_edge_rev (multimap_remove (join_key ns (e_target edge)) edge_kappa));
  _ ← modify (on_edge_rel (multimap_remove (join_key ns (relation_as_str (e_relation edge))) edge_kappa));
  modify (on_edge_asr (multimap_remove (join_key ns (e_asserter edge)) edge_kappa)).

(** The blob is deleted after the transaction commits. *)
Definition edge_delete_impl (ns source target : rstr) (relation : EdgeRelation) : M pstore () :=
  removed ← on_db (write_txn (
    found ← asks (λ d, find_candidate ns source target relation (multimap_get (join_key ns source) (t_edge_fwd d)) d);
    match found with
    | Some (edge_kappa, edge) => _ ← remove_edge_rows ns edge edge_kappa; mret (Some edge_kappa)
    | None => mret None
    end));
  match removed with
  | Some edge_kappa => blob_delete_impl keys edge_kappa
  | None => mret ()
  end.
End edges.

(** * Multimaps *)

Definition values_at (m : gmap rstr (gset rstr)) (k : rstr) : gset rstr := default ∅ (m !! k).

Lemma multimap_get_elem k m x : x ∈ multimap_get k m ↔ x ∈ values_at m k.
Proof. unfold multimap_get, sort_strings, values_at. by rewrite elem_of_sort_by, elem_of_elements. Qed.

Lemma multimap_insert_elem k v m k' x :
  x ∈ values_at (multimap_insert k v m) k' ↔ (k' = k ∧ x = v) ∨ x ∈ values_at m k'.
Proof.
  unfold values_at, multimap_insert. destruct (decide (k' = k)) as [->|Hne].
  - rewrite lookup_insert_eq. cbn. set_solver.
  - rewrite lookup_insert_ne by done. naive_solver.
Qed.

Lemma multimap_remove_elem k v m k' x :
  x ∈ values_at (multimap_remove k v m) k' ↔ x ∈ values_at m k' ∧ ¬ (k' = k ∧ x = v).
Proof.
  unfold values_at, multimap_remove. destruct (decide (k' = k)) as [->|Hne].
  - rewrite lookup_insert_eq. cbn. set_solver.
  - rewrite lookup_insert_ne by done. naive_solver.
Qed.

(** * The index invariant *)

Section invariant.
Context `{AeadLaws} `{KeyedHashLaws} `{HashCratesLaws} `{HexDecode} `{ErrorTexts} `{MemoryStoreConfig} `{Dcbor} `{!IntoCbor Edge} `{!EdgeFromCbor}.
Context (keys : StoreKeys).

(** The edge a namespace's table holds under a label. *)
Definition stored_edge (d : tables) (ns ek : rstr) (e : Edge) : Prop :=
  ∃ raw bs, t_edges d !! join_key ns ek = Some raw ∧ open_bytes (table_encryptor keys) (join_key ns ek) raw = Ok bs ∧
    decode_edge bs = Ok e.

Definition has_edge (d : tables) (ns : rstr) (e : Edge) : Prop := ∃ ek, stored_edge d ns ek e.

Definition indexed (d : tables) (ns : rstr) (i : index_kind) (name ek : rstr) : Prop :=
  ek ∈ values_at (table_index d i) (join_key ns name).

(** Every edge is in all four indexes, every indexed label leads to an edge with
    that name, and no two labels hold edges of one identity. *)
Record redb_edges_ok (d : tables) (ns : rstr) : Prop := {
  re_complete : ∀ ek e i, stored_edge d ns ek e → indexed d ns i (index_name i e) ek;
  re_sound : ∀ i name ek, indexed d ns i name ek → ∃ e, stored_edge d ns ek e ∧ index_name i e = name;
  re_unique : ∀ ek ek' e e', stored_edge d ns ek e → stored_edge d ns ek' e' → same_edge e e' → ek = ek';
}.

Lemma stored_edge_det d ns ek e e' : stored_edge d ns ek e → stored_edge d ns ek e' → e = e'.
Proof. intros (r & b & E1 & E2 & E3) (r' & b' & E1' & E2' & E3'). congruence. Qed.

Lemma same_edge_index a b i : same_edge a b → index_name i a = index_name i b.
Proof. intros (E1 & E2 & E3 & E4). destruct i; cbn; congruence. Qed.

(** The scan over labels that all hold edges. *)
Lemma upsert_action_spec ns edge cands d : (∀ ek, ek ∈ cands → ∃ e, stored_edge d ns ek e) →
  match upsert_action keys ns edge cands d with
  | Ok Skip => ∃ ek, stored_edge d ns ek edge
  | Ok (Update k) => ∃ ek e, k = join_key ns ek ∧ stored_edge d ns ek e ∧ same_edge e edge
  | Ok Insert => ∀ ek e, ek ∈ cands → stored_edge d ns ek e → ¬ same_edge e edge
  | _ => False
  end.
Proof.
  induction cands as [|ek cands IH]; intros Hc; cbn [upsert_action]; [set_solver|].
  destruct (Hc ek) as [e He]; [set_solver|]. pose proof He as (raw & bs & E1 & E2 & E3).
  rewrite E1, E2. cbn [mbind outcome_bind]. rewrite E3. case_decide as Hs.
  - case_decide as Hv; [|by exists ek, e]. exists ek. assert (e = edge) as <-; [|done].
    destruct Hs as (S1 & S2 & S3 & S4), Hv as [V1 V2]. destruct e, edge; cbn in *. congruence.
  - specialize (IH (λ k Hk, Hc k (list_elem_of_further _ _ _ Hk))).
    destruct (upsert_action keys ns edge cands d) as [[]| |]; try done.
    intros ek' e' [->|Hin]%elem_of_cons Hst; [|by eapply IH]. by rewrite (stored_edge_det _ _ _ _ _ Hst He).
Qed.
Lemma candidates_stored d ns i name : redb_edges_ok d ns →
  ∀ ek, ek ∈ multimap_get (join_key ns name) (table_index d i) → ∃ e, stored_edge d ns ek e.
Proof. intros Hok ek Hin%multimap_get_elem. destruct (re_sound _ _ Hok i name ek Hin) as (e & He & _). eauto. Qed.

(** Storing one edge. *)
Lemma stored_insert d d' ns ek0 raw bs edge :
  t_edges d' = <[join_key ns ek0 := raw]> (t_edges d) → open_bytes (table_encryptor keys) (join_key ns ek0) raw = Ok bs →
  decode_edge bs = Ok edge → NUL ∉ ns →
  ∀ ns' ek e, NUL ∉ ns' → stored_edge d' ns' ek e ↔
    (ns' = ns ∧ ek = ek0 ∧ e = edge) ∨ (¬ (ns' = ns ∧ ek = ek0) ∧ stored_edge d ns' ek e).
Proof.
  intros Ht Ho Hd Hns ns' ek e Hns'. unfold stored_edge. rewrite Ht.
  destruct (decide (ns' = ns ∧ ek = ek0)) as [[-> ->]|Hne].
  - rewrite lookup_insert_eq. split.
    + intros (r & b & [= <-] & E2 & E3). left. split_and!; [done..|congruence].
    + intros [(_ & _ & ->)|[[] _]]; [by exists raw, bs|done].
  - rewrite lookup_insert_ne by (intros E; apply Hne; apply join_key_inj in E as [-> ->]; done). split; [by right|].
    intros [(-> & -> & _)|[_ Hs]]; [by destruct Hne|done].
Qed.

(** The label, when in use, is in use by an edge of the same identity. *)
Definition label_free (d : tables) (ns ek : rstr) (edge : Edge) : Prop :=
  ∀ e, stored_edge d ns ek e → same_edge e edge.

(** The namespace afterwards: the edge in place of any of its identity. *)
Definition put_result (d d' : tables) (ns : rstr) (edge : Edge) : Prop :=
  redb_edges_ok d' ns ∧
  (∀ e, has_edge d' ns e ↔ e = edge ∨ (has_edge d ns e ∧ ¬ same_edge e edge)) ∧
  (∀ ns' ek e, NUL ∉ ns' → ns' ≠ ns → stored_edge d' ns' ek e ↔ stored_edge d ns' ek e).

(** In place of a stored edge of the same identity. *)
Lemma put_in_place d d' ns edge ek0 e0 raw bs :
  redb_edges_ok d ns → NUL ∉ ns → stored_edge d ns ek0 e0 → same_edge e0 edge →
  t_edges d' = <[join_key ns ek0 := raw]> (t_edges d) → open_bytes (table_encryptor keys) (join_key ns ek0) raw = Ok bs →
  decode_edge bs = Ok edge → (∀ i, table_index d' i = table_index d i) → put_result d d' ns edge.
Proof.
  intros Hok Hns Hst Hsame Ht Ho Hd Hi. pose proof (stored_insert d d' ns ek0 raw bs edge Ht Ho Hd Hns) as Hs.
  split_and!; [split| |].
  - intros ek e i [(_ & -> & ->)|[_ He]]%Hs; [|unfold indexed; rewrite Hi; by apply Hok|done].
    unfold indexed. rewrite Hi, <- (same_edge_index e0 edge i Hsame). by apply Hok.
  - unfold indexed. intros i name ek. rewrite Hi. intros [e [He Hn]]%(re_sound _ _ Hok).
    destruct (decide (ek = ek0)) as [->|Hne].
    + exists edge. split; [apply Hs; [done|by left]|]. rewrite (stored_edge_det _ _ _ _ _ He Hst) in Hn.
      by rewrite <- (same_edge_index e0 edge i Hsame).
    + exists e. split; [|done]. apply Hs; [done|]. right. split; [naive_solver|done].
  - assert (∀ ek e, stored_edge d' ns ek e → ∃ e', stored_edge d ns ek e' ∧ same_edge e' e) as Hold.
    { intros ek e [(_ & -> & ->)|[_ He]]%Hs; [by exists e0|exists e; split; [done|by split_and!]|done]. }
    intros ek ek' e e' (x & Hx & Sx)%Hold (y & Hy & Sy)%Hold Hee. apply (re_unique _ _ Hok ek ek' x y); [done..|].
    eapply same_edge_trans; [exact Sx|]. eapply same_edge_trans; [exact Hee|by apply same_edge_sym].
  - intros e. split.
    + intros [ek [(_ & -> & ->)|[Hne He]]%Hs]; [by left| |done]. right. split; [by exists ek|]. intros Hse.
      apply Hne. split; [done|]. apply (re_unique _ _ Hok ek ek0 e e0); [done..|].
      eapply same_edge_trans; [exact Hse|by apply same_edge_sym].
    + intros [->|[[ek He] Hns']]; [exists ek0; apply Hs; [done|by left]|]. exists ek. apply Hs; [done|]. right. split; [|done].
      intros [_ ->]. rewrite (stored_edge_det _ _ _ _ _ He Hst) in Hns'. done.
  - intros ns' ek e Hns' Hne. rewrite (Hs ns' ek e Hns'). naive_solver.
Qed.

(** Under a label of its own. *)
Lemma put_new_label d d' ns edge ek0 raw bs :
  redb_edges_ok d ns → NUL ∉ ns → (∀ ek e, stored_edge d ns ek e → ¬ same_edge e edge) → label_free d ns ek0 edge →
  t_edges d' = <[join_key ns ek0 := raw]> (t_edges d) → open_bytes (table_encryptor keys) (join_key ns ek0) raw = Ok bs →
  decode_edge bs = Ok edge →
  (∀ i, table_index d' i = multimap_insert (join_key ns (index_name i edge)) ek0 (table_index d i)) → put_result d d' ns edge.
Proof.
  intros Hok Hns Hnone Hfree Ht Ho Hd Hi. pose proof (stored_insert d d' ns ek0 raw bs edge Ht Ho Hd Hns) as Hs.
  assert (∀ e, ¬ stored_edge d ns ek0 e) as Hno by (intros e He; by apply (Hnone ek0 e), Hfree).
  split_and!; [split| |].
  - intros ek e i [(_ & -> & ->)|[_ He]]%Hs; unfold indexed; [| |done]; rewrite Hi, multimap_insert_elem; [by left|right]. by apply Hok.
  - unfold indexed. intros i name ek. rewrite Hi, multimap_insert_elem. intros [[E ->]|Hin].
    + apply join_key_inj in E as [_ ->]; [|done..]. exists edge. split; [apply Hs; [done|by left]|done].
    + apply (re_sound _ _ Hok) in Hin as [e [He Hn]]. exists e. split; [|done]. apply Hs; [done|]. right. split; [|done].
      intros [_ ->]. by destruct (Hno e).
  - intros ek ek' e e' [(_ & -> & ->)|[_ He]]%Hs; [| |done]; intros [(_ & -> & ->)|[_ He']]%Hs; try done.
    + intros Hse. destruct (Hnone _ _ He'). by apply same_edge_sym.
    + intros Hse. by destruct (Hnone _ _ He).
    + by apply (re_unique _ _ Hok).
  - intros e. split.
    + intros [ek [(_ & -> & ->)|[Hne He]]%Hs]; [by left| |done]. right. split; [by exists ek|by apply (Hnone ek)].
    + intros [->|[[ek He] _]]; [exists ek0; apply Hs; [done|by left]|]. exists ek. apply Hs; [done|]. right. split; [|done].
      intros [_ ->]. by destruct (Hno e).
  - intros ns' ek e Hns' Hne. rewrite (Hs ns' ek e Hns'). naive_solver.
Qed.

Lemma upsert_edge_run ns edge d : redb_edges_ok d ns → NUL ∉ ns →
  decode_edge (canonical_bytes into_cbor edge) = Ok edge → zlen (canonical_bytes into_cbor edge) ≤ gcm_limit →
  label_free d ns (edge_kappa edge) edge →
  ∃ d', upsert_edge keys ns edge (canonical_bytes into_cbor edge) (edge_kappa edge) d = (d', Ok ()) ∧ put_result d d' ns edge.
Proof.
  intros Hok Hns Hdec Hlen Hfree. set (bs := canonical_bytes into_cbor edge) in *. unfold upsert_edge, touch_namespace. run.
  set (d1 := on_namespaces _ d). change (t_edge_fwd d1) with (t_edge_fwd d).
  assert (redb_edges_ok d1 ns) as Hok1 by (destruct Hok; by constructor).
  pose proof (candidates_stored d1 ns Fwd (e_source edge) Hok1) as Hcand. cbn [table_index] in Hcand.
  pose proof (upsert_action_spec ns edge (multimap_get (join_key ns (e_source edge)) (t_edge_fwd d)) d1) as Hact.
  destruct (upsert_action keys ns edge _ d1) as [[|k|]|e|].
  - destruct Hact as [ek Hst]; [exact Hcand|].
    exists d1. split; [done|]. split_and!; [done| |done]. intros e. split.
    + intros [ek' He]. destruct (decide (same_edge e edge)) as [Hse|Hse]; [left|right; split; [by exists ek'|done]].
      assert (ek' = ek) as -> by (eapply (re_unique _ _ Hok1); eauto). by apply (stored_edge_det d1 ns ek).
    + intros [->|[He _]]; [by exists ek|exact He].
  - destruct Hact as (ek & e & -> & Hst & Hse); [exact Hcand|].
    destruct (seal_open_bytes (table_encryptor keys) (join_key ns ek) bs Hlen) as (raw & -> & Ho).
    eexists. split; [done|]. by eapply (put_in_place d1 _ ns edge ek e raw bs).
  - assert (∀ ek e, stored_edge d1 ns ek e → ¬ same_edge e edge) as Hnone.
    { intros ek e He Hse. refine (Hact Hcand ek e _ He Hse). apply multimap_get_elem. pose proof (re_complete _ _ Hok1 ek e Fwd He) as Hi. cbn in Hi. destruct Hse as (Es & _). by rewrite Es in Hi. }
    unfold insert_edge_rows. run. destruct (seal_open_bytes (table_encryptor keys) (join_key ns (edge_kappa edge)) bs Hlen) as (raw & -> & Ho).
    case_decide; (eexists; split; [done|]; eapply (put_new_label d1 _ ns edge (edge_kappa edge) raw bs); try done; by intros []).
  - by destruct Hact.
  - by destruct Hact.
Qed.
(** * Queries *)

Lemma load_edges_spec ns ks d : (∀ ek, ek ∈ ks → ∃ e, stored_edge d ns ek e) →
  ∃ l, load_edges keys ns ks d = Ok l ∧ ∀ e, e ∈ l ↔ ∃ ek, ek ∈ ks ∧ stored_edge d ns ek e.
Proof.
  induction ks as [|ek ks IH]; intros Hc; cbn [load_edges]; [exists []; split; [done|set_solver]|].
  destruct (Hc ek) as [e He]; [set_solver|]. pose proof He as (raw & bs & E1 & E2 & E3).
  destruct IH as (l & Hl & Hin); [set_solver|]. exists (e :: l). rewrite E1, E2. cbn [mbind outcome_bind]. rewrite E3. cbn [mbind outcome_bind].
  rewrite Hl. split; [done|]. intros e'. rewrite elem_of_cons, Hin. split.
  - intros [->|(ek' & H1' & H2')]; [exists ek|exists ek']; set_solver.
  - intros (ek' & [->|Hk]%elem_of_cons & Hs'); [left; by apply (stored_edge_det d ns ek)|right; eauto].
Qed.

Lemma edge_query_spec ns q d : redb_edges_ok d ns →
  ∃ l, edge_query_impl keys ns q d = Ok l ∧
    ∀ e, e ∈ l ↔ has_edge d ns e ∧ q_anchor q = match q_direction q with Outbound => e_source e | Inbound => e_target e end ∧
                 query_matches q e = true.
Proof.
  intros Hok. unfold edge_query_impl. set (i := match q_direction q with Outbound => Fwd | Inbound => Rev end).
  destruct (load_edges_spec ns (multimap_get (join_key ns (q_anchor q)) (table_index d i)) d) as (l & Hl & Hin).
  { by apply candidates_stored. }
  exists (filter (λ e, query_matches q e = true) l). split.
  { unfold i in Hl. destruct (q_direction q); cbn [table_index] in Hl; by rewrite Hl. }
  intros e. rewrite list_elem_of_filter, Hin. setoid_rewrite multimap_get_elem. split.
  - intros [Hm (ek & Hi & He)]. split_and!; [by exists ek| |done]. destruct (re_sound _ _ Hok i _ ek Hi) as (e' & He' & Hn).
    rewrite (stored_edge_det _ _ _ _ _ He He'). unfold i in Hn. by destruct (q_direction q); rewrite <- Hn.
  - intros ([ek He] & Ha & Hm). split; [done|]. exists ek. split; [|done]. pose proof (re_complete _ _ Hok ek e i He) as Hi.
    unfold indexed in Hi. rewrite Ha. unfold i in *. by destruct (q_direction q).
Qed.

(** * Deletion *)

Definition has_ends (source target : rstr) (relation : EdgeRelation) (e : Edge) : Prop :=
  e_source e = source ∧ e_target e = target ∧ e_relation e = relation.

Lemma find_candidate_spec ns src tgt rel cands d : (∀ ek, ek ∈ cands → ∃ e, stored_edge d ns ek e) →
  match find_candidate keys ns src tgt rel cands d with
  | Ok (Some (ek, e)) => stored_edge d ns ek e ∧ has_ends src tgt rel e
  | Ok None => ∀ ek e, ek ∈ cands → stored_edge d ns ek e → ¬ has_ends src tgt rel e
  | _ => False
  end.
Proof.
  induction cands as [|ek cands IH]; intros Hc; cbn [find_candidate]; [set_solver|].
  destruct (Hc ek) as [e He]; [set_solver|]. pose proof He as (raw & bs & E1 & E2 & E3).
  rewrite E1, E2. cbn [mbind outcome_bind]. rewrite E3. cbn [mbind outcome_bind]. case_decide as Hs; [done|].
  specialize (IH (λ k Hk, Hc k (list_elem_of_further _ _ _ Hk))).
  destruct (find_candidate keys ns src tgt rel cands d) as [[[]|]| |]; try done.
  intros ek' e' [->|Hin]%elem_of_cons Hst; [|by eapply IH]. by rewrite (stored_edge_det _ _ _ _ _ Hst He).
Qed.

Lemma remove_edge_run ns edge ek0 d : redb_edges_ok d ns → NUL ∉ ns → stored_edge d ns ek0 edge →
  ∃ d', remove_edge_rows ns edge ek0 d = (d', Ok ()) ∧ redb_edges_ok d' ns ∧
    ∀ ns' ek e, NUL ∉ ns' → stored_edge d' ns' ek e ↔ stored_edge d ns' ek e ∧ ¬ (ns' = ns ∧ ek = ek0).
Proof.
  intros Hok Hns Hst. unfold remove_edge_rows. run. eexists. split; [done|]. set (d' := on_edge_asr _ _).
  assert (∀ ns' ek e, NUL ∉ ns' → stored_edge d' ns' ek e ↔ stored_edge d ns' ek e ∧ ¬ (ns' = ns ∧ ek = ek0)) as Hs.
  { intros ns' ek e Hns'. unfold stored_edge. change (t_edges d') with (delete (join_key ns ek0) (t_edges d)).
    destruct (decide (ns' = ns ∧ ek = ek0)) as [[-> ->]|Hne].
    - rewrite lookup_delete_eq. naive_solver.
    - rewrite lookup_delete_ne by (intros E; apply Hne; apply join_key_inj in E as [-> ->]; done). naive_solver. }
  assert (∀ i, table_index d' i = multimap_remove (join_key ns (index_name i edge)) ek0 (table_index d i)) as Hi by (by intros []).
  split; [|exact Hs]. split.
  - intros ek e i [He Hne]%Hs; [|done]. unfold indexed. rewrite Hi, multimap_remove_elem. split; [by apply Hok|]. naive_solver.
  - unfold indexed. intros i name ek. rewrite Hi, multimap_remove_elem. intros [(e & He & Hn)%(re_sound _ _ Hok) Hne].
    exists e. split; [|done]. apply Hs; [done|]. split; [done|]. intros [_ ->]. apply Hne.
    by rewrite <- (stored_edge_det _ _ _ _ _ He Hst), Hn.
  - intros ek ek' e e' [He _]%Hs [He' _]%Hs; [|done..]. by apply (re_unique _ _ Hok).
Qed.
End invariant.

(** * What an ingest does to the tables *)

(** Only binding records differ. *)
Definition db_frame (s s' : pstore) : Prop := ∃ f, db s' = on_binding_records f (db s).

#[export] Instance db_frame_preorder : PreOrder db_frame.
Proof.
  split.
  - intros s. exists id. by destruct (db s).
  - intros s1 s2 s3 [f E1] [g E2]. exists (λ m, g (f m)). by rewrite E2, E1.
Qed.

Section frames.
Context `{AeadCrate} `{KeyedHash} `{HashCratesLaws} `{HexDecode} `{ErrorTexts} `{MemoryStoreConfig}.

Lemma set_files_frame f s : db_frame s (set_files f s).
Proof. exists id. change (db s = on_binding_records id (db s)). by destruct (db s). Qed.

Lemma blob_put_frame keys rnd v s s' r : blob_put_impl keys rnd v s = (s', r) → db_frame s s'.
Proof.
  unfold blob_put_impl. run. destruct (reject_label (vc_kappa v)) as [k| |]; [|by intros [= <- <-]..].
  destruct (blob_encryptor keys) as [key|].
  - destruct (map_err _ _) as [e| |]; [|by intros [= <- <-]..]. destruct (blob_path _) as [p| |]; [|by intros [= <- <-]..].
    rewrite place_run. case_decide; intros [= <- <-]; by eexists.
  - destruct (blob_path k) as [p| |]; [|by intros [= <- <-]..]. rewrite place_run.
    case_decide; intros [= <- <-]; [done|apply set_files_frame].
Qed.

Lemma link_additional_frame keys rnd k a c axes s s' r : link_additional keys rnd k a c axes s = (s', r) → db_frame s s'.
Proof.
  revert s s' r. induction axes as [|axis axes IH]; intros s s' r; cbn [link_additional]; [by intros [= <- <-]|].
  case_decide; [by apply IH|]. unfold mbind, M_bind, lift, mret, M_ret.
  destruct (reject_label (VerifiedContent_compute axis c)) as [v| |]; [|by intros [= <- <-]..].
  destruct (reject_label (vc_kappa v)) as [kv| |]; [|by intros [= <- <-]..].
  destruct (encryption_key keys) as [k0|].
  - destruct (blob_put_impl keys rnd v s) as [s1 [b| |]] eqn:Ep; apply blob_put_frame in Ep; [|by intros [= <- <-]..].
    destruct (link_additional keys rnd k a c axes s1) as [s2 [l| |]] eqn:El; apply IH in El; intros [= <- <-]; by etrans.
  - destruct (blob_path k) as [p| |]; [|by intros [= <- <-]..]. destruct (blob_path kv) as [q| |]; [|by intros [= <- <-]..].
    unfold link_file, modify. set (s1 := set_files _ s).
    destruct (link_additional keys rnd k a c axes s1) as [s2 [l| |]] eqn:El; apply IH in El; intros [= <- <-];
      (etrans; [|exact El]; apply set_files_frame).
Qed.

Lemma redb_ingest_frame keys rnd a c s s' r : redb_ingest_compute keys rnd a c s = (s', r) →
  db_frame s s' ∧ ∀ x, r = Ok x → ir_kappa x = kappa_text a c.
Proof.
  unfold redb_ingest_compute, mbind, M_bind, lift, mret, M_ret, reject_label.
  destruct (hash_refused a c) eqn:Hr; [rewrite compute_refused by done; by intros [= <- <-]|].
  rewrite compute_verified by done. cbn [map_err]. set (v := mkVerified _ c). rewrite (verified_ok_kappa v a c eq_refl). cbn [map_err].
  destruct (blob_put_impl keys rnd v s) as [s1 [b| |]] eqn:Ep; apply blob_put_frame in Ep; [|by intros [= <- <-]..].
  destruct (link_additional _ _ _ _ _ _ s1) as [s2 [l| |]] eqn:El; apply link_additional_frame in El; intros [= <- <-];
    (split; [by etrans|]); [by intros x [= <-]|done..].
Qed.

Lemma blob_delete_frame keys k s s' r : blob_delete_impl keys k s = (s', r) → db_frame s s'.
Proof.
  unfold blob_delete_impl. run. destruct (encryption_key keys).
  - destruct (t_binding_records (db s) !! k) as [v|]; [|by intros [= <- <-]].
    destruct (decode_binding v) as [b| |]; [|by intros [= <- <-]..]. unfold on_db, write_txn.
    destruct (blob_path (db_kappa b)) as [p| |]; intros [= <- <-]; by eexists.
  - destruct (blob_path k) as [p| |]; intros [= <- <-]; [apply set_files_frame|done..].
Qed.
End frames.

(** * Properties *)

(** Storing an edge keeps the indexes true and puts it in the place of an
    edge of the same source, target, relation and asserter.  If the edge can be
    read back from its canonical form and its blob can be stored, the put
    succeeds; the namespace then holds the edge and its former edges of other
    identities, and nothing else; the edges of other namespaces are untouched;
    and any query, by source or by target, with any filter, returns exactly the
    matching edges of the namespace. *)
Theorem redb_edge_put_correct `{AeadLaws} `{KeyedHashLaws} `{HashCratesLaws} `{HexDecode} `{ErrorTexts} `{MemoryStoreConfig}
  `{Dcbor} `{!IntoCbor Edge} `{!EdgeFromCbor} keys rnd ns edge s s1 r
  (Hok : redb_edges_ok keys (db s) ns) (Hns : NUL ∉ ns)
  (Hdec : decode_edge (canonical_bytes into_cbor edge) = Ok edge)
  (Hlen : zlen (canonical_bytes into_cbor edge) ≤ gcm_limit)
  (Hfree : label_free keys (db s) ns (edge_kappa edge) edge)
  (Hing : redb_ingest_compute keys rnd Sha256 (canonical_bytes into_cbor edge) s = (s1, Ok r)) :
  ∃ s', edge_put_impl keys rnd ns edge s = (s', Ok ()) ∧ redb_edges_ok keys (db s') ns ∧
    (∀ e, has_edge keys (db s') ns e ↔ e = edge ∨ (has_edge keys (db s) ns e ∧ ¬ same_edge e edge)) ∧
    (∀ ns' e, NUL ∉ ns' → ns' ≠ ns → has_edge keys (db s') ns' e ↔ has_edge keys (db s) ns' e) ∧
    ∀ q, ∃ l, edge_query_impl keys ns q (db s') = Ok l ∧
      ∀ e, e ∈ l ↔ has_edge keys (db s') ns e ∧ q_anchor q = match q_direction q with Outbound => e_source e | Inbound => e_target e end ∧
                   query_matches q e = true.
Proof.
  destruct (redb_ingest_frame _ _ _ _ _ _ _ Hing) as [[f Ef] Hk]. specialize (Hk _ eq_refl).
  assert (redb_edges_ok keys (db s1) ns) as Hok1 by (rewrite Ef; destruct Hok; by constructor).
  assert (label_free keys (db s1) ns (edge_kappa edge) edge) as Hfree1 by (by rewrite Ef).
  destruct (upsert_edge_run keys ns edge (db s1) Hok1 Hns Hdec Hlen Hfree1) as (d' & Hrun & Hok' & Hhas & Hother).
  unfold edge_put_impl, mbind, M_bind. rewrite Hing. unfold on_db, write_txn.
  rewrite Hk, <- kappa_from_bytes_text. fold (edge_kappa edge). rewrite Hrun. eexists. split; [done|]. cbn [db set_db].
  assert (∀ ns' ek e, stored_edge keys (db s1) ns' ek e ↔ stored_edge keys (db s) ns' ek e) as Hst by (intros; by rewrite Ef).
  assert (∀ ns' e, has_edge keys (db s1) ns' e ↔ has_edge keys (db s) ns' e) as Hh.
  { intros ns' e. unfold has_edge. by setoid_rewrite Hst. }
  split_and!; [done| | |by intros q; apply edge_query_spec].
  - intros e. by rewrite Hhas, Hh.
  - intros ns' e Hn Hne. unfold has_edge. setoid_rewrite (λ ek, Hother ns' ek e Hn Hne). by setoid_rewrite Hst.
Qed.

(** Deleting removes one edge with the given ends and relation, the one with
    the least label when several asserters share them, and no other; without one
    it changes no edge.  The indexes stay true. *)
Theorem redb_edge_delete_correct `{AeadLaws} `{KeyedHashLaws} `{HashCratesLaws} `{HexDecode} `{ErrorTexts} `{MemoryStoreConfig}
  `{Dcbor} `{!IntoCbor Edge} `{!EdgeFromCbor} keys ns src tgt rel s s' r
  (Hok : redb_edges_ok keys (db s) ns) (Hns : NUL ∉ ns) (Hrun : edge_delete_impl keys ns src tgt rel s = (s', r)) :
  redb_edges_ok keys (db s') ns ∧
  ((∃ e, has_edge keys (db s) ns e ∧ has_ends src tgt rel e ∧
     ∀ e', has_edge keys (db s') ns e' ↔ has_edge keys (db s) ns e' ∧ e' ≠ e) ∨
   ((∀ e, has_edge keys (db s) ns e → ¬ has_ends src tgt rel e) ∧ r = Ok () ∧
     ∀ e', has_edge keys (db s') ns e' ↔ has_edge keys (db s) ns e')).
Proof.
  revert Hrun. unfold edge_delete_impl, mbind, M_bind, on_db, write_txn, asks, mret, M_ret.
  pose proof (candidates_stored keys (db s) ns Fwd src Hok) as Hcand. cbn [table_index] in Hcand.
  pose proof (find_candidate_spec keys ns src tgt rel _ (db s) Hcand) as Hf.
  destruct (find_candidate _ _ _ _ _ _ _) as [[[ek e]|]| |]; [| |done..].
  - destruct Hf as [Hst He]. destruct (remove_edge_run keys ns e ek (db s) Hok Hns Hst) as (d' & -> & Hok' & Hs).
    intros Hd. apply blob_delete_frame in Hd as [f Ef]. cbn [db set_db] in Ef. split; [rewrite Ef; destruct Hok'; by constructor|].
    left. exists e. split_and!; [by exists ek|done|]. intros e'.
    assert (has_edge keys (db s') ns e' ↔ has_edge keys d' ns e') as -> by (by rewrite Ef).
    unfold has_edge. setoid_rewrite (λ k, Hs ns k e' Hns). split.
    + intros (k & Hk & Hne). split; [by exists k|]. intros ->. apply Hne. split; [done|].
      apply (re_unique _ _ _ Hok k ek e e); [done..|by split_and!].
    + intros [[k Hk] Hne]. exists k. split; [done|]. intros [_ ->]. by destruct Hne, (stored_edge_det _ _ _ _ _ _ Hk Hst).
  - intros [= <- <-]. split; [by destruct Hok; constructor|]. right. split_and!; [|done|done].
    intros e [ek Hst] He. apply (Hf ek e); [|done..]. apply multimap_get_elem.
    pose proof (re_complete _ _ _ Hok ek e Fwd Hst) as Hi. destruct He as [Es _]. by rewrite <- Es.
Qed.

(** The batch does not look for edges it replaces: two edges of one identity,
    under two labels, are both stored, where two single puts would leave the
    second alone; and a query by their source returns both. *)
Theorem edge_batch_duplicates `{AeadLaws} `{KeyedHashLaws} `{HashCratesLaws} `{HexDecode} `{ErrorTexts} `{MemoryStoreConfig}
  `{Dcbor} `{!IntoCbor Edge} `{!EdgeFromCbor} keys rnd ns e1 e2 s s'
  (Hns : NUL ∉ ns) (Hlab : edge_kappa e1 ≠ edge_kappa e2)
  (Hdec : ∀ e, e = e1 ∨ e = e2 → decode_edge (canonical_bytes into_cbor e) = Ok e ∧ zlen (canonical_bytes into_cbor e) ≤ gcm_limit)
  (Hrun : edge_put_batch_impl keys rnd ns [e1; e2] s = (s', Ok ())) :
  has_edge keys (db s') ns e1 ∧ has_edge keys (db s') ns e2.
Proof.
  unfold edge_put_batch_impl in Hrun. rewrite decide_False in Hrun by done. cbn [prepare_edges] in Hrun.
  apply M_bind_ok in Hrun as (s1 & prep & Hprep & Hrun).
  apply M_bind_ok in Hprep as (sa & ra & Ha & Hprep). apply M_bind_ok in Hprep as (sb & l & Hb & Hprep). injection Hprep as <- <-.
  apply M_bind_ok in Hb as (sc & rb & Hc & Hb). apply M_bind_ok in Hb as (sd & l' & Hd & Hb). injection Hd as <- <-. injection Hb as <- <-.
  apply redb_ingest_frame in Ha as [_ Ka], Hc as [_ Kb]. specialize (Ka _ eq_refl). specialize (Kb _ eq_refl).
  rewrite Ka, Kb, <- !kappa_from_bytes_text in Hrun. fold (edge_kappa e1) (edge_kappa e2) in Hrun.
  destruct (Hdec e1) as [D1 L1]; [by left|]. destruct (Hdec e2) as [D2 L2]; [by right|].
  revert Hrun. unfold on_db, write_txn, touch_namespace. cbn [insert_edges]. unfold insert_edge_rows. run.
  destruct (seal_open_bytes (table_encryptor keys) (join_key ns (edge_kappa e1)) _ L1) as (r1 & -> & O1).
  destruct (seal_open_bytes (table_encryptor keys) (join_key ns (edge_kappa e2)) _ L2) as (r2 & -> & O2).
  intros [= <-]. cbn [db set_db]. unfold has_edge, stored_edge.
  cbn [t_edges on_edges on_edge_fwd on_edge_rev on_edge_rel on_edge_asr on_namespaces]. split.
  - exists (edge_kappa e1), r1, (canonical_bytes into_cbor e1). split_and!; [|done..].
    rewrite lookup_insert_ne, lookup_insert_eq; [done|]. intros E. apply join_key_inj in E as [_ E]; done.
  - exists (edge_kappa e2), r2, (canonical_bytes into_cbor e2). split_and!; [|done..]. by rewrite lookup_insert_eq.
Qed.

(** An edge is its value here. *)
#[local] Instance value_edge_cbor : IntoCbor Edge := λ e, SText (default [] (e_value_kappa e)).
#[local] Instance value_edge_decoder : EdgeFromCbor := λ c,
  match c with SText t => inl (mkEdge (rs "a") (rs "b") Owns (rs "me") (Some t) None) | _ => inr (rs "not an edge") end.

Definition value_edge (v : rstr) : Edge := mkEdge (rs "a") (rs "b") Owns (rs "me") (Some v) None.

Lemma nul_notin_ns : NUL ∉ rs "ns".
Proof. vm_compute. intros Hin. repeat (apply elem_of_cons in Hin as [[=]|Hin]). by apply elem_of_nil in Hin. Qed.

Lemma edge_batch_duplicates_witness :
  ∃ s', edge_put_batch_impl plain_keys (λ _, inr []) (rs "ns") [value_edge (rs "v1"); value_edge (rs "v2")] fresh_store = (s', Ok ()) ∧
    has_edge plain_keys (db s') (rs "ns") (value_edge (rs "v1")) ∧ has_edge plain_keys (db s') (rs "ns") (value_edge (rs "v2")).
Proof.
  destruct (edge_put_batch_impl plain_keys (λ _, inr []) (rs "ns") [value_edge (rs "v1"); value_edge (rs "v2")] fresh_store) as [s' r] eqn:E.
  assert ((edge_put_batch_impl plain_keys (λ _, inr []) (rs "ns") [value_edge (rs "v1"); value_edge (rs "v2")] fresh_store).2 = Ok ()) as Hr
    by (vm_compute; reflexivity). rewrite E in Hr. cbn [snd] in Hr. subst r.
  exists s'. split; [reflexivity|]. refine (edge_batch_duplicates plain_keys (λ _, inr []) (rs "ns") (value_edge (rs "v1")) (value_edge (rs "v2")) fresh_store s' nul_notin_ns _ _ _); [|intros e [->| ->]|exact E].
  - vm_compute. discriminate.
  - split; [reflexivity|vm_compute; discriminate].
  - split; [reflexivity|vm_compute; discriminate].
Defined.

Lemma empty_edges_ok keys ns : redb_edges_ok keys empty_tables ns.
Proof.
  split.
  - by intros ek e i (raw & bs & E & _).
  - intros [] name ek; unfold indexed, values_at; cbn; rewrite lookup_empty; set_solver.
  - by intros ek ek' e e' (raw & bs & E & _).
Qed.

Lemma redb_edge_put_correct_witness :
  ∃ s', edge_put_impl plain_keys (λ _, inr []) (rs "ns") (value_edge (rs "v1")) fresh_store = (s', Ok ()) ∧
    ∃ l, edge_query_impl plain_keys (rs "ns") (mkQuery (rs "a") Outbound None None) (db s') = Ok l ∧ value_edge (rs "v1") ∈ l.
Proof.
  destruct (redb_ingest_compute plain_keys (λ _, inr []) Sha256 (canonical_bytes into_cbor (value_edge (rs "v1"))) fresh_store) as [s1 r] eqn:E.
  assert (is_ok (redb_ingest_compute plain_keys (λ _, inr []) Sha256 (canonical_bytes into_cbor (value_edge (rs "v1"))) fresh_store).2 = true) as Hr
    by (vm_compute; reflexivity). rewrite E in Hr. destruct r as [r| |]; [|discriminate Hr..].
  destruct (redb_edge_put_correct plain_keys (λ _, inr []) (rs "ns") (value_edge (rs "v1")) fresh_store s1 r
    (empty_edges_ok plain_keys (rs "ns")) nul_notin_ns) as (s' & Hrun & _ & Hhas & _ & Hq).
  - vm_compute. reflexivity.
  - vm_compute. discriminate.
  - intros e (raw & bs & Hb & _). discriminate Hb.
  - exact E.
  - exists s'. split; [exact Hrun|]. destruct (Hq (mkQuery (rs "a") Outbound None None)) as (l & Hl & Hin).
    exists l. split; [exact Hl|]. apply Hin. split; [apply Hhas; by left|]. split; reflexivity.
Defined.
