(* ===== verification/RedbUpload.v ===== *)
(** RedbUpload: uploads of [PersistentStore], [kappa-store-redb/src/lib.rs].

    The data of an upload is a file of the staging directory; completing it
    computes the digests of the file, moves it (or its encryption) to its place
    and records the parts. *)

From S2P Require Import Prelude Label Compute Types Merkle Epoch Identity Store MemStore MemTags MemEdge MemUpload Gc Http Aead RedbTable RedbTags RedbBlob RedbEdge.

(** [crc_fast]: the checksum of a concatenation from the checksums. *)
Class CrcCombine := checksum_combine : AttestationDigest → Z → Z → Z → Z.

(** [created_at.elapsed() > Duration::from_secs(timeout)]. *)
Definition session_older (now timeout : Z) (session : DiskUploadSession) : bool :=
  timeout * 1000000000 <? Z.max 0 (now - du_created_at session).

Section uploads.
Context `{AeadCrate} `{KeyedHash} `{HashCrates} `{HexDecode} `{ErrorTexts} `{MemoryStoreConfig} `{ChecksumCrates} `{CrcCombine}.
Context `{Dcbor} `{!IntoCbor Edge} `{!EdgeFromCbor} `{JsonCrates}.
Context (keys : StoreKeys) (rnd : rstr → bytes + rstr).

Definition session_expired (now : Z) (session : DiskUploadSession) : bool :=
  match upload_timeout_secs with
  | Some timeout => session_older now timeout session
  | None => false
  end.

(** [OpenOptions::new().create(true).write(true).truncate(false)]. *)
Definition create_staging (id : rstr) : M pstore () :=
  modify (set_staging (λ m, match m !! id with Some _ => m | None => <[id := []]> m end)).

Definition redb_upload_begin (now : Z) (id : rstr) (namespace : NamespaceRef) (max_size : Z) : M pstore rstr :=
  _ ← create_staging id;
  _ ← modify (set_sessions (<[id := mkDiskUpload (ns_as_str namespace) 0 max_size now []]>));
  mret id.

Definition no_such_file : StoreError := SIo (rs "No such file or directory (os error 2)").

Definition drop_session (id : rstr) : M pstore () :=
  _ ← modify (set_sessions (delete id));
  modify (set_staging (delete id)).

Definition redb_upload_put_part (now : Z) (upload_id : rstr) (offset : Z) (data : bytes) : M pstore Z :=
  found ← gets (λ s, upload_sessions s !! upload_id);
  match found with
  | None => throw (upload_not_found upload_id)
  | Some session =>
      if session_expired now session then _ ← drop_session upload_id; throw (upload_expired upload_id)
      else if negb (offset =? du_offset session) then
        throw (SConflict (rs "out-of-order: expected offset " ++ dec (du_offset session) ++ rs ", got " ++ dec offset))
      else
        new_total ← lift (add_to u64_max (du_offset session) (zlen data));
        if (0 <? du_max_size session) && (du_max_size session <? new_total) then
          throw (SRejected (rs "upload exceeds max size " ++ dec (du_max_size session)))
        else
          staged ← asks (λ s, ok_or (staging s !! upload_id) no_such_file);
          _ ← modify (set_staging (<[upload_id := staged ++ data]>));
          part_number ← lift (add_to u32_max (wrap 32 (zlen (du_part_digests session))) 1);
          let part := mkPart part_number (du_offset session) (zlen data) (Types.md5_digest data)
                        (crc_checksum Crc32c data) (crc_checksum Crc64Nvme data) in
          _ ← modify (set_sessions (<[upload_id := mkDiskUpload (du_namespace session) new_total (du_max_size session)
                                       (du_created_at session) (du_part_digests session ++ [part])]>));
          mret new_total
  end.

(** [vec![&algo]], then the mandatory axes it lacks. *)
Definition upload_axes (algo : rstr) : list rstr :=
  foldl (λ axes a, if bool_decide (axis_as_str a ∈ axes) then axes else axes ++ [axis_as_str a]) [algo] redb_mandatory_axes.

Definition combined_crc (alg : AttestationDigest) (crc : PartDigests → Z) (parts : list PartDigests) : option Z :=
  match parts with
  | [] => None
  | p :: rest => Some (foldl (λ running pd, checksum_combine alg running (crc pd) (pd_size pd)) (crc p) rest)
  end.

Definition compute_composite_etag (parts : list PartDigests) : option rstr :=
  if decide (parts = []) then None
  else Some (QUOTE :: hex_encode (Types.md5_digest (concat (pd_md5 <$> parts))) ++ rs "-" ++ dec (zlen parts) ++ [QUOTE]).

Definition part_json (p : PartDigests) : Json :=
  JObj [(rs "part_number", JNum (pd_part_number p)); (rs "offset", JNum (pd_offset p)); (rs "size", JNum (pd_size p));
        (rs "md5", JStr (hex_encode (pd_md5 p))); (rs "crc32c", JNum (pd_crc32c p)); (rs "crc64nvme", JNum (pd_crc64nvme p))].

(** [let _ = m] and [if let Ok(x) = m]: the changes an error leaves stay. *)
Definition attempted {A} (m : M pstore A) : M pstore (option A) := λ s,
  match m s with
  | (s', Ok a) => (s', Ok (Some a))
  | (s', Err _) => (s', Ok None)
  | (s', Panic) => (s', Panic)
  end.

Definition persist_part_manifest (object_kappa : rstr) (parts : list PartDigests) : M pstore () :=
  if decide (parts = []) then mret ()
  else
    let manifest_json := JObj [(rs "parts", JArr (part_json <$> parts)); (rs "total_parts", JNum (zlen parts))] in
    stored ← attempted (redb_ingest_compute keys rnd Sha256 (serde_to_string manifest_json));
    match stored with
    | Some manifest_result =>
        _ ← attempted (edge_put_impl keys rnd (rs "_manifests")
              (mkEdge object_kappa (ir_kappa manifest_result) ChunkManifest (rs "_system") None None));
        mret ()
    | None => mret ()
    end.

(** The entity tag, the checksums and the manifest of a completed upload. *)
Definition finish_redb_upload (result : IngestResult) (parts : list PartDigests) : M pstore IngestResult :=
  let result := match compute_composite_etag parts with Some etag => with_etag result etag | None => result end in
  _ ← match combined_crc Crc32c pd_crc32c parts with
      | Some crc => _ ← attempted (on_db (blob_put_meta_impl (table_encryptor keys) (ir_kappa result) (rs "_s3_checksum_crc32c")
                                (to_be 4 (wrap 32 crc)))); mret ()
      | None => mret ()
      end;
  _ ← match combined_crc Crc64Nvme pd_crc64nvme parts with
      | Some crc => _ ← attempted (on_db (blob_put_meta_impl (table_encryptor keys) (ir_kappa result) (rs "_s3_checksum_crc64nvme")
                                (to_be 8 crc))); mret ()
      | None => mret ()
      end;
  _ ← persist_part_manifest (ir_kappa result) parts;
  mret result.

(** [staging_path.with_extension("ct.tmp")]. *)
Definition ct_tmp (id : rstr) : rstr := id ++ rs ".ct.tmp".

(** [rename] of a staged file to a blob path, unless that exists: then the
    staged file is removed. *)
Definition move_staged (file path : rstr) (content : bytes) : M pstore bool :=
  present ← gets (λ s, bool_decide (is_Some (files s !! path)));
  _ ← modify (set_staging (delete file));
  if present : bool then mret false else _ ← modify (set_files (<[path := content]>)); mret true.

(** The hard links of the additional labels. *)
Fixpoint link_labels (blob : rstr) (additional : list rstr) : M pstore () :=
  match additional with
  | [] => mret ()
  | k :: rest => alt_path ← lift (blob_path k); _ ← link_file blob alt_path; link_labels blob rest
  end.

Definition complete_encrypted (key : bytes) (id final_digest : rstr) (additional : list rstr) (content : bytes)
  (parts : list PartDigests) : M pstore IngestResult :=
  ct ← lift (map_err (λ e, io_other (crypto_error_str e))
         (encrypt_streaming key (rnd final_digest) final_digest [RData content] (λ _, None) []));
  let '(disk, (base, size)) := ct in
  _ ← modify (set_staging (<[ct_tmp id := disk]>));
  ct_proof ← lift (reject_label (streaming_compute_kappa (rs "sha256") (cursor disk)));
  let kappa := proof_kappa ct_proof in
  path ← lift (blob_path kappa);
  newly_stored ← move_staged (ct_tmp id) path disk;
  let rec := encode_binding kappa base size in
  _ ← on_db (write_txn (modify (on_binding_records
        (λ m, foldl (λ m sigma, <[sigma := rec]> m) (<[final_digest := rec]> m) additional))));
  _ ← modify (set_staging (delete id));
  finish_redb_upload (with_additional (IngestResult_new kappa newly_stored) additional) parts.

Definition complete_plain (id final_digest : rstr) (additional : list rstr) (content : bytes)
  (parts : list PartDigests) : M pstore IngestResult :=
  path ← lift (blob_path final_digest);
  newly_stored ← move_staged id path content;
  _ ← link_labels path additional;
  finish_redb_upload (with_additional (IngestResult_new final_digest newly_stored) additional) parts.

Definition redb_upload_complete (now : Z) (upload_id : rstr) (claimed_digest : option rstr) : M pstore IngestResult :=
  session ← asks (λ s, ok_or (upload_sessions s !! upload_id) (upload_not_found upload_id));
  _ ← modify (set_sessions (delete upload_id));
  if session_expired now session then
    _ ← modify (set_staging (delete upload_id));
    throw (upload_expired upload_id)
  else
    content ← asks (λ s, ok_or (staging s !! upload_id) no_such_file);
    proof ← lift (reject_label (streaming_compute_multi (upload_axes (claimed_axis claimed_digest)) (cursor content)));
    let mismatch := match claimed_digest with
                    | Some claimed => bool_decide (proof_kappa proof ≠ claimed)
                    | None => false
                    end in
    if mismatch then
      _ ← modify (set_staging (delete upload_id));
      throw (SRejected (rs "digest mismatch: expected " ++ default [] claimed_digest ++ rs ", computed " ++ proof_kappa proof))
    else
      let additional := (proof_additional proof).*2 in
      match blob_encryptor keys with
      | Some key => complete_encrypted key upload_id (proof_kappa proof) additional content (du_part_digests session)
      | None => complete_plain upload_id (proof_kappa proof) additional content (du_part_digests session)
      end.

Definition redb_upload_abort (upload_id : rstr) : M pstore () :=
  found ← gets (λ s, upload_sessions s !! upload_id);
  match found with Some _ => drop_session upload_id | None => mret () end.

(** The session behind a query, dropped when expired. *)
Definition redb_live_session (now : Z) (upload_id : rstr) : M pstore (option DiskUploadSession) :=
  found ← gets (λ s, upload_sessions s !! upload_id);
  match found with
  | Some session => if session_expired now session then _ ← drop_session upload_id; mret None else mret (Some session)
  | None => mret None
  end.

Definition redb_upload_bytes_received (now : Z) (upload_id : rstr) : M pstore (option Z) :=
  session ← redb_live_session now upload_id; mret (du_offset <$> session).
Definition redb_upload_namespace (now : Z) (upload_id : rstr) : M pstore (option rstr) :=
  session ← redb_live_session now upload_id; mret (du_namespace <$> session).

Definition redb_upload_part_info (upload_id : rstr) (s : pstore) : list (Z * rstr * Z) :=
  match upload_sessions s !! upload_id with
  | Some session => (λ pd, (pd_part_number pd, QUOTE :: hex_encode (pd_md5 pd) ++ [QUOTE], pd_size pd)) <$> du_part_digests session
  | None => []
  end.

Definition redb_upload_evict_expired (now timeout_secs : Z) : M pstore Z :=
  before ← gets (λ s, Z.of_nat (size (upload_sessions s)));
  expired ← gets (λ s, (map_to_list (filter (λ e, session_older now timeout_secs e.2 = true) (upload_sessions s))).*1);
  _ ← modify (set_sessions (λ m, foldr delete m expired));
  _ ← modify (set_staging (λ m, foldr delete m expired));
  after ← gets (λ s, Z.of_nat (size (upload_sessions s)));
  mret (before - after).
End uploads.

(** * What completing leaves in place *)

(** Files at blob paths stay, and so do staged files and sessions. *)
Record keeps (root : rstr) (s s' : pstore) : Prop := {
  keeps_files : ∀ a hex c, valid_digits a hex → files s !! label_path root a hex = Some c →
    files s' !! label_path root a hex = Some c;
  keeps_staging : staging s' = staging s;
  keeps_sessions : upload_sessions s' = upload_sessions s;
}.

#[export] Instance keeps_preorder root : PreOrder (keeps root).
Proof.
  split; [by constructor|]. intros s1 s2 s3 [F1 S1 U1] [F2 S2 U2]. split; [by eauto|congruence|congruence].
Qed.

(** An operation that keeps them and does not panic. *)
Definition quiet (root : rstr) {A} (m : M pstore A) : Prop := ∀ s, keeps root s (m s).1 ∧ (m s).2 ≠ Panic.

Lemma quiet_bind root {A B} (m : M pstore A) (f : A → M pstore B) : quiet root m → (∀ a, quiet root (f a)) → quiet root (m ≫= f).
Proof.
  intros Hm Hf s. unfold mbind, M_bind. destruct (Hm s) as [Hk Hp]. destruct (m s) as [s1 [a| |]]; [|done..].
  destruct (Hf a s1) as [Hk' Hp']. split; [by etrans|done].
Qed.
Lemma quiet_ret root {A} (a : A) : quiet root (mret (M := M pstore) a). Proof. done. Qed.
Lemma quiet_lift root {A} (o : outcome StoreError A) : o ≠ Panic → quiet root (lift o).
Proof. intros Ho s. by destruct o. Qed.
Lemma quiet_db root {A} (m : M tables A) : (∀ d, (m d).2 ≠ Panic) → quiet root (on_db m).
Proof. intros Hm s. unfold on_db. specialize (Hm (db s)). by destruct (m (db s)) as [d r]. Qed.

(** One that also succeeds, with a result that satisfies [P]. *)
Definition sure (root : rstr) {A} (m : M pstore A) (P : A → Prop) : Prop := ∀ s, ∃ s' a, m s = (s', Ok a) ∧ keeps root s s' ∧ P a.

Lemma sure_bind root {A B} (m : M pstore A) (f : A → M pstore B) P : sure root m (λ _, True) → (∀ a, sure root (f a) P) → sure root (m ≫= f) P.
Proof.
  intros Hm Hf s. unfold mbind, M_bind. destruct (Hm s) as (s1 & a & -> & Hk & _). destruct (Hf a s1) as (s2 & b & -> & Hk2 & HP).
  eexists _, _. split_and!; [done|by etrans|done].
Qed.
Lemma sure_ret root {A} (a : A) (P : A → Prop) : P a → sure root (mret (M := M pstore) a) P.
Proof. intros HP s. by exists s, a. Qed.
Lemma sure_weaken root {A} (m : M pstore A) (P : A → Prop) : sure root m P → sure root m (λ _, True).
Proof. intros Hm s. destruct (Hm s) as (s' & a & E & Hk & _). eauto. Qed.

Section quiet.
Context `{AeadCrate} `{KeyedHash} `{HashCratesLaws} `{HexDecode} `{ErrorTexts} `{MemoryStoreConfig}.

Lemma quiet_place a hex c : quiet blob_root (place (label_path blob_root a hex) c).
Proof.
  intros s. rewrite place_run. case_decide as E; [done|]. split; [|done]. split; [|done..].
  intros b bhex x Hb Hx. cbn [files set_files fst]. rewrite write_atomically_label by done. rewrite decide_False; [done|].
  intros Eq. apply E. rewrite <- Eq. eauto.
Qed.

Lemma quiet_link p q : quiet blob_root (link_file p q).
Proof.
  intros s. split; [|done]. split; [|done..]. intros b bhex x Hb Hx. unfold link_file, modify. cbn [files set_files fst].
  destruct (files s !! q) as [y|] eqn:Eq; [done|]. destruct (files s !! p); [|done].
  rewrite lookup_insert_ne; [done|]. intros ->. congruence.
Qed.
End quiet.

Section finishing.
Context `{AeadCrate} `{KeyedHash} `{HashCratesLaws} `{HexDecode} `{ErrorTexts} `{MemoryStoreConfig} `{ChecksumCrates} `{CrcCombine}.
Context `{Dcbor} `{!IntoCbor Edge} `{!EdgeFromCbor} `{JsonCrates}.

Lemma decode_edge_no_panic bs : decode_edge bs ≠ Panic.
Proof. unfold decode_edge, from_canonical. destruct (try_from_data bs) as [c|e]; [|done]. by destruct (edge_of_cbor c). Qed.

Lemma quiet_put rnd a c : quiet blob_root (blob_put_impl plain_keys rnd (mkVerified (label_of a (digest_hex a c)) c)).
Proof.
  intros s. unfold blob_put_impl, mbind, M_bind, lift, reject_label. set (v := mkVerified _ c).
  rewrite (verified_ok_kappa v a c eq_refl). cbn [map_err blob_encryptor plain_keys]. rewrite blob_path_kappa. apply quiet_place.
Qed.

Lemma quiet_link_additional rnd k a c axes : quiet blob_root (link_additional plain_keys rnd (kappa_text k c) a c axes).
Proof.
  induction axes as [|axis axes IH]; cbn [link_additional]; [apply quiet_ret|]. case_decide; [done|].
  destruct (hash_refused axis c) eqn:Hr; [rewrite compute_refused by done; intros s; split; [reflexivity|done]|].
  rewrite compute_verified by done. set (v := mkVerified _ c). intros s. unfold mbind, M_bind, lift, reject_label. cbn [map_err].
  rewrite (verified_ok_kappa v axis c eq_refl). cbn [map_err encryption_key plain_keys]. rewrite !blob_path_kappa. revert s.
  change (quiet blob_root (link_file (label_path blob_root k (digest_hex k c)) (label_path blob_root axis (digest_hex axis c)) ≫= λ _,
    link_additional plain_keys rnd (kappa_text k c) a c axes ≫= λ rest, mret (kappa_text axis c :: rest))).
  apply quiet_bind; [apply quiet_link|]. intros _. apply quiet_bind; [done|intros; apply quiet_ret].
Qed.

Lemma quiet_ingest rnd a c : quiet blob_root (redb_ingest_compute plain_keys rnd a c).
Proof.
  unfold redb_ingest_compute. destruct (hash_refused a c) eqn:Hr; [rewrite compute_refused by done; intros s; split; [reflexivity|done]|].
  rewrite compute_verified by done. set (v := mkVerified _ c). intros s. unfold mbind, M_bind, lift, reject_label. cbn [map_err].
  rewrite (verified_ok_kappa v a c eq_refl). cbn [map_err]. revert s.
  change (quiet blob_root (blob_put_impl plain_keys rnd v ≫= λ newly,
    link_additional plain_keys rnd (kappa_text a c) a c redb_mandatory_axes ≫= λ additional,
    mret (with_additional (IngestResult_new (kappa_text a c) newly) additional))).
  apply quiet_bind; [apply quiet_put|]. intros b. apply quiet_bind; [apply quiet_link_additional|intros; apply quiet_ret].
Qed.

Lemma upsert_action_no_panic ns edge cands d : upsert_action plain_keys ns edge cands d ≠ Panic.
Proof.
  induction cands as [|ek cands IH]; cbn [upsert_action]; [done|]. destruct (t_edges d !! _) as [raw|]; [|done].
  cbn. pose proof (decode_edge_no_panic raw). destruct (decode_edge raw); repeat case_decide; done.
Qed.

Lemma quiet_edge_put rnd ns edge : quiet blob_root (edge_put_impl plain_keys rnd ns edge).
Proof.
  unfold edge_put_impl. apply quiet_bind; [apply quiet_ingest|]. intros r. apply quiet_db. intros d. unfold write_txn, upsert_edge. run.
  pose proof (upsert_action_no_panic ns edge) as Hu.
  unfold touch_namespace, modify in *. match goal with |- context [upsert_action ?k ?n ?e ?c ?d'] => specialize (Hu c d'); destruct (upsert_action k n e c d') as [[]| |] end;
    try done. unfold insert_edge. run. cbn. by case_decide.
Qed.

Lemma quiet_meta k key v : quiet blob_root (on_db (blob_put_meta_impl (table_encryptor plain_keys) k key v)).
Proof. by apply quiet_db. Qed.

(** What the tail of a completion returns. *)
Definition finished (result : IngestResult) (parts : list PartDigests) : IngestResult :=
  match compute_composite_etag parts with Some etag => with_etag result etag | None => result end.

Lemma sure_ok_of {A B} (m : M pstore A) (r : B) : quiet blob_root m → sure blob_root (_ ← attempted m; mret r) (λ x, x = r).
Proof.
  intros Hm s. unfold mbind, M_bind, attempted, mret, M_ret. destruct (Hm s) as [Hk Hp].
  destruct (m s) as [s1 [a| |]]; [eauto..|done].
Qed.

Lemma sure_manifest rnd k parts : sure blob_root (persist_part_manifest plain_keys rnd k parts) (λ _, True).
Proof.
  unfold persist_part_manifest. case_decide; [by apply sure_ret|]. intros s. unfold mbind, M_bind, attempted at 1, mret, M_ret.
  destruct (quiet_ingest rnd Sha256 (serde_to_string (JObj [(rs "parts", JArr (part_json <$> parts)); (rs "total_parts", JNum (zlen parts))])) s) as [Hk Hp].
  destruct (redb_ingest_compute _ _ _ _ s) as [s1 [r| |]]; cbn [fst snd] in *; [|by eexists _, _|done].
  destruct (sure_ok_of (edge_put_impl plain_keys rnd (rs "_manifests")
     (mkEdge k (ir_kappa r) ChunkManifest (rs "_system") None None)) () (quiet_edge_put _ _ _) s1) as (s2 & x & E & Hk2 & _).
  exists s2, x. split_and!; [exact E|by etrans|done].
Qed.

(** The tail of a completion changes no stored file and returns the result,
    whatever fails in it. *)
Lemma finish_redb_run rnd result parts : sure blob_root (finish_redb_upload plain_keys rnd result parts) (λ r, r = finished result parts).
Proof.
  unfold finish_redb_upload. fold (finished result parts).
  apply sure_bind; [destruct (combined_crc Crc32c _ _); [by eapply sure_weaken, sure_ok_of, quiet_meta|by apply sure_ret]|intros _].
  apply sure_bind; [destruct (combined_crc Crc64Nvme _ _); [by eapply sure_weaken, sure_ok_of, quiet_meta|by apply sure_ret]|intros _].
  apply sure_bind; [apply sure_manifest|intros _; by apply sure_ret].
Qed.
End finishing.

(** * An upload from its first part to its completion *)

Section whole.
Context `{AeadCrate} `{KeyedHash} `{HashCratesLaws} `{HexDecode} `{ErrorTexts} `{MemoryStoreConfig} `{ChecksumCrates} `{CrcCombine}.
Context `{Dcbor} `{!IntoCbor Edge} `{!EdgeFromCbor} `{JsonCrates}.

(** The parts sent one after the other, each where the one before ends. *)
Fixpoint put_parts (now : Z) (id : rstr) (offset : Z) (parts : list bytes) : M pstore () :=
  match parts with
  | [] => mret ()
  | data :: rest => total ← redb_upload_put_part now id offset data; put_parts now id total rest
  end.

(** The session and the staged file after some parts. *)
Record staged (s : pstore) (id : rstr) (session : DiskUploadSession) (content : bytes) : Prop := {
  staged_session : upload_sessions s !! id = Some session;
  staged_file : staging s !! id = Some content;
  staged_offset : du_offset session = zlen content;
}.

Definition same_blobs (s s' : pstore) : Prop := files s' = files s ∧ db s' = db s.

Lemma redb_put_part_run now id data s session content :
  staged s id session content → session_expired now session = false →
  zlen (content ++ data) ≤ u64_max → zlen (du_part_digests session) < u32_max →
  (0 < du_max_size session → zlen (content ++ data) ≤ du_max_size session) →
  ∃ s' session', redb_upload_put_part now id (zlen content) data s = (s', Ok (zlen (content ++ data))) ∧
    staged s' id session' (content ++ data) ∧ same_blobs s s' ∧
    zlen (du_part_digests session') = zlen (du_part_digests session) + 1 ∧
    du_max_size session' = du_max_size session ∧ du_created_at session' = du_created_at session.
Proof.
  intros [Hs Hf Ho] Hexp Hu Hn Hm. rewrite length_app, Nat2Z.inj_add in *. unfold redb_upload_put_part. run. rewrite Hs, Hexp, Ho, Z.eqb_refl. cbn [negb].
  unfold add_to. rewrite (proj2 (Z.ltb_ge _ _)) by lia.
  replace ((0 <? du_max_size session) && (du_max_size session <? zlen content + zlen data)) with false.
  2:{ symmetry. apply andb_false_iff. rewrite !Z.ltb_ge. lia. }
  rewrite Hf. cbn [ok_or]. unfold wrap. rewrite Z.mod_small by (unfold u32_max in Hn; lia).
  rewrite (proj2 (Z.ltb_ge _ _)) by lia. eexists _, _. split; [done|]. split.
  - split; cbn [upload_sessions staging set_sessions set_staging]; [by rewrite lookup_insert_eq|by rewrite lookup_insert_eq|].
    cbn [du_offset]. rewrite length_app. lia.
  - split_and!; [done..| |done|done]. cbn [du_part_digests]. rewrite length_app. cbn [length]. lia.
Qed.

Lemma put_parts_run now id parts s session content :
  staged s id session content → session_expired now session = false →
  zlen (content ++ concat parts) ≤ u64_max → zlen (du_part_digests session) + zlen parts ≤ u32_max →
  (0 < du_max_size session → zlen (content ++ concat parts) ≤ du_max_size session) →
  ∃ s' session', put_parts now id (zlen content) parts s = (s', Ok ()) ∧
    staged s' id session' (content ++ concat parts) ∧ same_blobs s s' ∧ du_created_at session' = du_created_at session.
Proof.
  revert s session content. induction parts as [|data parts IH]; intros s session content Hst Hexp Hu Hn Hm; cbn [put_parts concat].
  { exists s, session. by rewrite app_nil_r. }
  cbn [concat length] in *. rewrite !length_app in *.
  destruct (redb_put_part_run now id data s session content) as (s1 & session1 & E & Hst1 & [Hf1 Hd1] & Hn1 & Hm1 & Hc1);
    rewrite ?length_app; try lia; [done|done|].
  unfold mbind, M_bind. rewrite E. rewrite app_assoc.
  destruct (IH s1 session1 (content ++ data) Hst1) as (s2 & session2 & E2 & Hst2 & [Hf2 Hd2] & Hc2); rewrite ?length_app; try lia.
  - unfold session_expired, session_older in *. by rewrite Hc1.
  - exists s2, session2. rewrite <- (length_app content data), E2. split_and!; [done..| | ]; [split|]; congruence.
Qed.

(** What the streaming digest of a staged file is. *)
Lemma upload_proof a content :
  hash_refused a content = false →
  streaming_compute_multi (upload_axes (axis_as_str a)) (cursor content)
  = Ok (proof_multi (kappa_text a content) (if decide (a = Sha256) then [] else [axis_entry content Sha256])).
Proof.
  intros Hr. destruct (cursor_reads_concat (S (length content)) content) as (cs & Hcs & Hc); [lia|].
  pose proof (streaming_compute_multi_correct a (if decide (a = Sha256) then [] else [Sha256]) (cursor content) cs Hcs) as E.
  rewrite Hc in E. replace (upload_axes (axis_as_str a)) with (axis_as_str <$> a :: (if decide (a = Sha256) then [] else [Sha256])).
  - rewrite E; [by destruct a|]. intros Hin. destruct (decide (a = Sha1)) as [->|Hne]; [done|]. exfalso. revert Hin. case_decide; set_solver.
  - by destruct a.
Qed.

Lemma move_staged_run id path content s : (∀ c, files s !! path = Some c → c = content) →
  ∃ new, move_staged id path content s
         = (set_files (<[path := content]>) (set_staging (delete id) s), Ok new).
Proof.
  intros Hc. unfold move_staged. run. case_bool_decide as E; eexists; [|done]. destruct E as [c E].
  rewrite <- (Hc c E). unfold set_files, set_staging. cbn. by rewrite insert_id.
Qed.

(** Moving a staged file and linking its other label. *)
Lemma complete_plain_run rnd id a content parts s :
  (∀ b c, files s !! label_path blob_root b (digest_hex b content) = Some c → c = content) →
  let additional := if decide (a = Sha256) then [] else [kappa_text Sha256 content] in
  ∃ s' new, complete_plain plain_keys rnd id (kappa_text a content) additional content parts s
              = (s', Ok (finished (with_additional (IngestResult_new (kappa_text a content) new) additional) parts)) ∧
    (∀ b, b = a ∨ b = Sha256 → files s' !! label_path blob_root b (digest_hex b content) = Some content) ∧
    (∀ b hex c, valid_digits b hex → files s !! label_path blob_root b hex = Some c → files s' !! label_path blob_root b hex = Some c) ∧
    staging s' = delete id (staging s) ∧ upload_sessions s' = upload_sessions s.
Proof.
  intros Hcol additional. unfold complete_plain. run. rewrite blob_path_kappa.
  set (path := label_path blob_root a (digest_hex a content)).
  destruct (move_staged_run id path content s) as [new E]; [intros c; apply Hcol|]. rewrite E. clear E.
  set (s1 := set_files _ _).
  assert (files s1 !! path = Some content) as Hp by (cbn; by rewrite lookup_insert_eq).
  assert (∀ b hex c, files s !! label_path blob_root b hex = Some c → files s1 !! label_path blob_root b hex = Some c) as Hk.
  { intros b hex c Hf. cbn. destruct (decide (path = label_path blob_root b hex)) as [E|Hne]; [|by rewrite lookup_insert_ne].
    rewrite <- E in *. rewrite lookup_insert_eq. by rewrite (Hcol a c Hf). }
  assert (∃ s2, link_labels path additional s1 = (s2, Ok ()) ∧ keeps blob_root s1 s2 ∧
    (∀ b, b = a ∨ b = Sha256 → files s2 !! label_path blob_root b (digest_hex b content) = Some content)) as (s2 & E2 & Hk2 & Hr2).
  { unfold additional. case_decide as Ea; cbn [link_labels].
    - exists s1. split_and!; [done..|]. by intros b [-> | ->]; [|rewrite <- Ea].
    - run. rewrite blob_path_kappa. eexists. split; [done|]. split; [apply quiet_link|]. intros b Hb.
      unfold link_file, modify. cbn [files set_files fst]. set (alt := label_path blob_root Sha256 _). fold path. rewrite Hp.
      destruct Hb as [-> | ->].
      + fold path. destruct (files s1 !! alt) eqn:Ealt; [done|]. rewrite lookup_insert_ne; [done|]. intros Eq. by rewrite Eq, Hp in Ealt.
      + fold alt. destruct (files s1 !! alt) as [c|] eqn:Ealt; [|by rewrite lookup_insert_eq]. rewrite Ealt. f_equal.
        unfold s1 in Ealt. cbn in Ealt. apply lookup_insert_Some in Ealt as [[_ <-]|[_ Ealt]]; [done|]. by apply (Hcol Sha256). }
  rewrite E2. destruct (finish_redb_run rnd (with_additional (IngestResult_new (kappa_text a content) new) additional) parts s2)
    as (s3 & r & E3 & [Hf3 Hst3 Hse3] & ->). rewrite E3. destruct Hk2 as [Hf2 Hst2 Hse2].
  exists s3, new. split_and!; [done|..].
  - intros b Hb. apply Hf3; [apply digest_hex_valid|by apply Hr2].
  - eauto.
  - by rewrite Hst3, Hst2.
  - by rewrite Hse3, Hse2.
Qed.
End whole.

(** * Properties *)


#[local] Instance sample_sums : ChecksumCrates := {| Types.md5_digest := pad_digest 16; crc_checksum _ data := zlen data |}.
#[local] Instance sample_combine : CrcCombine := λ _ a b _, a + b.
#[local] Instance sample_edge_cbor : IntoCbor Edge := λ e, SText (e_target e).
#[local] Instance sample_edge_decoder : EdgeFromCbor := λ _, inr (rs "not an edge").


(** A cipher whose tag shows the beginning of the associated data. *)
#[local] Instance aad_cipher : AeadCrate := {|
  aes_key_new k := bool_decide (length k = 32%nat);
  seal_detached key nonce aad pt := inl (rev pt, take 16 (aad ++ repeat x00 16));
  open_detached key nonce aad ct tag := if decide (tag = take 16 (aad ++ repeat x00 16)) then inl (rev ct) else inr (rs "tag");
  nonce_len := 12;
|}.

(** Completing an upload of an encrypted store answers with the address of the
    ciphertext, under which no blob is found, and the content's SHA-256 label is
    bound to a ciphertext that was sealed for the claimed label, so reading it
    fails to decrypt; only the claimed label reads the content. *)
Lemma encrypted_upload_labels :
  let content := rs "hello" in
  let claimed := kappa_text Sha512 content in
  match (_ ← redb_upload_begin 0 (rs "u") (with_name [x00] (rs "n")) 10; _ ← put_parts 0 (rs "u") 0 [content];
         redb_upload_complete sample_keys (λ _, inl (repeat x07 8)) 0 (rs "u") (Some claimed)) fresh_store with
  | (s', Ok r) =>
      ir_kappa r ≠ claimed ∧ blob_get_impl sample_keys (ir_kappa r) s' = Err (SNotFound (ir_kappa r)) ∧
      blob_get_impl sample_keys claimed s' = Ok content ∧
      ir_additional_kappas r = [kappa_text Sha256 content] ∧
      is_ok (blob_get_impl sample_keys (kappa_text Sha256 content) s') = false
  | _ => False
  end.
Proof. vm_compute. split_and!; [discriminate|reflexivity..]. Qed.
