(* ===== verification/RedbVersions.v ===== *)
(** RedbVersions: version chains of the persistent store,
    [kappa-store-redb/src/versions.rs].

    A version is a row whose key is the namespace, the object's key and the
    inverted time, so that a scan meets the newest version first; the versioning
    state of a namespace is a tag.  The clock and the identifiers drawn are
    arguments. *)

From S2P Require Import Prelude Label Compute Types Merkle Epoch Identity Store MemStore MemTags MemUpload Gc Http Aead RedbTable RedbTags RedbBlob.

(** The derived JSON form of a version entry. *)
Class VersionJson := {
  version_to_vec : VersionEntry → bytes;
  version_from_slice : bytes → VersionEntry + rstr;
}.
Class VersionJsonLaws `{VersionJson} : Prop := {
  version_json_roundtrip : ∀ e, version_from_slice (version_to_vec e) = inl e;
}.

#[export] Instance versioning_state_dec : EqDecision VersioningState.
Proof. solve_decision. Defined.

Definition version_prefix (ns key : rstr) : bytes := ns ++ NUL :: key ++ [NUL].

(** [!timestamp_ms] on 64 bits. *)
Definition version_composite_key (ns key : rstr) (timestamp_ms : Z) : bytes :=
  ns ++ NUL :: key ++ NUL :: to_be 8 (u64_max - timestamp_ms).

Section versions.
Context `{AeadCrate} `{KeyedHash} `{HashCrates} `{HexDecode} `{ErrorTexts} `{MemoryStoreConfig} `{VersionJson}.
Context (keys : StoreKeys).
Let enc := table_encryptor keys.

Definition versioning_state (ns : rstr) (s : pstore) : outcome StoreError VersioningState :=
  match tag_get_impl enc ns (rs "_config/versioning") (db s) with
  | Ok entry =>
      if decide (te_kappa entry = rs "enabled") then Ok VEnabled
      else if decide (te_kappa entry = rs "suspended") then Ok VSuspended
      else Ok Unversioned
  | Err (SNotFound _) => Ok Unversioned
  | Err e => Err e
  | Panic => Panic
  end.

Definition serialize_version_entry (entry : VersionEntry) : bytes := version_to_vec entry.
Definition deserialize_version_entry (bs : bytes) : outcome StoreError VersionEntry := of_sum io_other (version_from_slice bs).

(** The rows of one object, newest first. *)
Definition version_rows (ns key : rstr) (d : tables) : list (bytes * bytes) :=
  let prefix := version_prefix ns key in table_range prefix (prefix_successor prefix) (t_versions d).

Definition insert_version (ns key : rstr) (entry : VersionEntry) : M pstore () :=
  on_db (write_txn (modify (on_versions
    (<[version_composite_key ns key (ve_timestamp_ms entry) := serialize_version_entry entry]>)))).

(** The keys of the rows with the identifier [null]. *)
Fixpoint null_rows (rows : list (bytes * bytes)) : outcome StoreError (list bytes) :=
  match rows with
  | [] => Ok []
  | (k, v) :: rows =>
      entry ← deserialize_version_entry v;
      rest ← null_rows rows;
      Ok (if decide (ve_version_id entry = rs "null") then k :: rest else rest)
  end.

Definition version_remove_null (ns key : rstr) : M pstore () :=
  on_db (write_txn (
    keys_to_remove ← asks (λ d, null_rows (version_rows ns key d));
    modify (on_versions (λ m, foldl (λ m k, delete k m) m keys_to_remove)))).

(** [self.blob_size_impl(kappa).unwrap_or(0)]. *)
Definition size_or_zero (kappa : rstr) (s : pstore) : outcome StoreError Z :=
  match blob_size_impl keys kappa s with Ok n => Ok n | Err _ => Ok 0 | Panic => Panic end.

Definition version_put_impl (now_ms : Z) (uuid ns key kappa : rstr) (etag : option rstr) : M pstore rstr :=
  state ← asks (versioning_state ns);
  match state with
  | Unversioned => _ ← on_db (tag_set_impl enc ns key kappa); mret (rs "null")
  | VEnabled =>
      size ← asks (size_or_zero kappa);
      _ ← insert_version ns key (mkVersion uuid (Some kappa) false now_ms size etag);
      _ ← on_db (tag_set_impl enc ns key kappa);
      mret uuid
  | VSuspended =>
      size ← asks (size_or_zero kappa);
      _ ← version_remove_null ns key;
      _ ← insert_version ns key (mkVersion (rs "null") (Some kappa) false now_ms size etag);
      _ ← on_db (tag_set_impl enc ns key kappa);
      mret (rs "null")
  end.

(** The first row with an identifier, with its key. *)
Fixpoint find_version (vid : rstr) (rows : list (bytes * bytes)) : outcome StoreError (option (bytes * VersionEntry)) :=
  match rows with
  | [] => Ok None
  | (k, v) :: rows =>
      entry ← deserialize_version_entry v;
      if decide (ve_version_id entry = vid) then Ok (Some (k, entry)) else find_version vid rows
  end.

Definition version_get_impl (ns key : rstr) (version_id : option rstr) (s : pstore) : outcome StoreError VersionEntry :=
  state ← versioning_state ns s;
  if decide (state = Unversioned) then
    tag ← tag_get_impl enc ns key (db s);
    size ← size_or_zero (te_kappa tag) s;
    Ok (mkVersion (rs "null") (Some (te_kappa tag)) false 0 size None)
  else
    match version_id with
    | Some vid =>
        found ← find_version vid (version_rows ns key (db s));
        match found with
        | Some (_, entry) => Ok entry
        | None => Err (SNotFound (rs "version " ++ vid ++ rs " of " ++ ns ++ rs "/" ++ key))
        end
    | None =>
        match version_rows ns key (db s) with
        | (_, v) :: _ =>
            entry ← deserialize_version_entry v;
            if ve_is_delete_marker entry then
              Err (SNotFound (ns ++ rs "/" ++ key ++ rs " (delete marker: " ++ ve_version_id entry ++ rs ")"))
            else Ok entry
        | [] => Err (SNotFound (ns ++ rs "/" ++ key))
        end
    end.

Definition version_delete_impl (now_ms : Z) (uuid ns key : rstr) (version_id : option rstr) : M pstore DeleteResult :=
  state ← asks (versioning_state ns);
  if decide (state = Unversioned) then
    _ ← on_db (tag_delete_impl ns key); mret (mkDeleteResult (rs "null") false)
  else
    match version_id with
    | None =>
        _ ← insert_version ns key (mkVersion uuid None true now_ms 0 None);
        _ ← on_db (tag_delete_impl ns key);
        mret (mkDeleteResult uuid true)
    | Some vid =>
        on_db (write_txn (
          found ← asks (λ d, find_version vid (version_rows ns key d));
          match found with
          | Some (k, entry) => _ ← modify (on_versions (delete k)); mret (mkDeleteResult vid (ve_is_delete_marker entry))
          | None => mret (mkDeleteResult vid false)
          end))
    end.

(** The loop of the listing: it stops before reading an entry past [max]. *)
Fixpoint read_versions (max : nat) (rows : list (bytes * bytes)) : outcome StoreError (list VersionEntry) :=
  match max, rows with
  | O, _ | _, [] => Ok []
  | S max, (_, v) :: rows =>
      entry ← deserialize_version_entry v;
      rest ← read_versions max rows;
      Ok (entry :: rest)
  end.

Definition version_list_impl (ns key : rstr) (max : Z) (s : pstore) : outcome StoreError (list VersionEntry) :=
  state ← versioning_state ns s;
  if decide (state = Unversioned) then Ok []
  else read_versions (Z.to_nat max) (version_rows ns key (db s)).
End versions.

(** * Keys in order *)

(** Numbers in big-endian form are ordered like the numbers. *)
Lemma to_be_lt n a b : 0 ≤ a → a < b → b < 256 ^ Z.of_nat n → bytes_lt (to_be n a) (to_be n b).
Proof.
  revert a b. induction n as [|n IH]; intros a b Ha Hab Hb; [cbn in Hb; lia|]. cbn [to_be].
  rewrite Nat2Z.inj_succ, Z.pow_succ_r in Hb by lia.
  assert (a / 256 ≤ b / 256) as Hle by (apply Z.div_le_mono; lia).
  destruct (decide (a / 256 = b / 256)) as [E|Hne].
  - rewrite E. apply bytes_lt_app_l. unfold bytes_lt, bytes_ltb. cbn [bytes_leb]. rewrite !b2z_z2b.
    assert (a mod 256 < b mod 256) by (rewrite (Z.div_mod a 256), (Z.div_mod b 256) in Hab by lia; lia).
    rewrite (proj2 (Z.ltb_ge _ _)) by lia. by rewrite (proj2 (Z.ltb_lt _ _)).
  - apply bytes_lt_app_r; [by rewrite !length_to_be|]. apply IH; [apply Z.div_pos; lia|lia|]. apply Z.div_lt_upper_bound; lia.
Qed.

Lemma composite_prefix ns key t : version_composite_key ns key t = version_prefix ns key ++ to_be 8 (u64_max - t).
Proof. unfold version_composite_key, version_prefix. rewrite <- app_assoc. cbn. by rewrite <- app_assoc. Qed.

Lemma composite_join ns key t : version_composite_key ns key t = join_key ns (join_key key (to_be 8 (u64_max - t))).
Proof. done. Qed.

(** A newer version has a smaller key. *)
Lemma composite_lt ns key t t' : 0 ≤ t ≤ u64_max → 0 ≤ t' ≤ u64_max →
  bytes_lt (version_composite_key ns key t) (version_composite_key ns key t') ↔ t' < t.
Proof.
  intros Ht Ht'. rewrite !composite_prefix, bytes_lt_app_l. unfold u64_max in *.
  assert (∀ x y, 0 ≤ x ≤ 18446744073709551615 → 0 ≤ y ≤ 18446744073709551615 → y < x →
    bytes_lt (to_be 8 (18446744073709551615 - x)) (to_be 8 (18446744073709551615 - y))) as Hlt.
  { intros x y Hx Hy Hxy. apply to_be_lt; [lia..|]. change (256 ^ Z.of_nat 8) with 18446744073709551616. lia. }
  split; [|by apply Hlt]. intros Hb. destruct (Z.lt_trichotomy t t') as [Hc|[->|Hc]]; [exfalso|exfalso|done].
  - apply (bytes_lt_irrefl (to_be 8 (18446744073709551615 - t))). etrans; [exact Hb|by apply Hlt].
  - by apply (bytes_lt_irrefl _ Hb).
Qed.

Lemma composite_inj ns key ns' key' t t' : NUL ∉ ns → NUL ∉ key → NUL ∉ ns' → NUL ∉ key' → 0 ≤ t ≤ u64_max → 0 ≤ t' ≤ u64_max →
  version_composite_key ns key t = version_composite_key ns' key' t' → ns = ns' ∧ key = key' ∧ t = t'.
Proof.
  intros Hn Hk Hn' Hk' Ht Ht'. rewrite !composite_join. intros [-> [-> E]%join_key_inj]%join_key_inj; [|done..].
  split_and!; [done..|]. apply (f_equal from_be) in E. rewrite !from_be_u64 in E by lia. lia.
Qed.

Lemma prefix_of_composite ns key ns' key' t : NUL ∉ ns → NUL ∉ key → NUL ∉ ns' → NUL ∉ key' →
  starts_with (version_prefix ns key) (version_composite_key ns' key' t) = true ↔ ns' = ns ∧ key' = key.
Proof.
  intros Hn Hk Hn' Hk'. unfold starts_with. rewrite bool_decide_eq_true. split.
  - intros [x E]. rewrite composite_join in E. unfold version_prefix in E. rewrite <- app_assoc in E. cbn in E. rewrite <- app_assoc in E.
    apply (join_key_inj ns' _ ns (key ++ NUL :: x)) in E as [-> E]; [|done..]. by apply (join_key_inj key' _ key x) in E as [-> _].
  - intros [-> ->]. rewrite composite_prefix. by eexists.
Qed.

(** * Histories *)

Section histories.
Context `{AeadCrate} `{KeyedHash} `{HashCrates} `{HexDecode} `{ErrorTexts} `{MemoryStoreConfig} `{VersionJsonLaws}.

(** The versions of an object, newest first. *)
Definition history (ns key : rstr) (d : tables) : list VersionEntry :=
  omap (λ r, match deserialize_version_entry r.2 with Ok e => Some e | _ => None end) (version_rows ns key d).

Definition named (ns key : rstr) : Prop := (NUL ∉ ns) ∧ (NUL ∉ key).
Definition version_row (ns key : rstr) (e : VersionEntry) : (bytes * bytes)%type :=
  (version_composite_key ns key (ve_timestamp_ms e), serialize_version_entry e).

(** Every row is the entry of some object at its time. *)
Definition versions_ok (d : tables) : Prop := ∀ k v, t_versions d !! k = Some v →
  ∃ ns key e, named ns key ∧ 0 ≤ ve_timestamp_ms e ≤ u64_max ∧ (k, v) = version_row ns key e.

Lemma deserialize_row ns key e : deserialize_version_entry (version_row ns key e).2 = Ok e.
Proof. unfold deserialize_version_entry, version_row, serialize_version_entry. cbn. by rewrite version_json_roundtrip. Qed.

Lemma version_rows_elem ns key d k v :
  (k, v) ∈ version_rows ns key d ↔ t_versions d !! k = Some v ∧ starts_with (version_prefix ns key) k = true.
Proof. unfold version_rows. by rewrite table_range_elem, prefix_range_exact. Qed.

Lemma rows_of_entries (rows : list (bytes * bytes)) ns key : (∀ kv, kv ∈ rows → ∃ e, kv = version_row ns key e) →
  rows = version_row ns key <$> omap (λ r, match deserialize_version_entry r.2 with Ok e => Some e | _ => None end) rows.
Proof.
  induction rows as [|r rows IH]; intros Hr; [done|]. destruct (Hr r) as [e ->]; [left|]. cbn [omap list_omap].
  rewrite deserialize_row. cbn. f_equal. apply IH. intros kv Hkv. apply Hr. by right.
Qed.

Lemma history_rows ns key d : versions_ok d → named ns key → version_rows ns key d = version_row ns key <$> history ns key d.
Proof.
  intros Hok [Hn Hk]. apply rows_of_entries. intros [k v] [Hl Hs]%version_rows_elem.
  destruct (Hok _ _ Hl) as (ns' & key' & e & [Hn' Hk'] & _ & [= -> ->]). apply prefix_of_composite in Hs as [-> ->]; [|done..]. by exists e.
Qed.

Lemma history_elem ns key d e : versions_ok d → named ns key →
  e ∈ history ns key d ↔ 0 ≤ ve_timestamp_ms e ≤ u64_max ∧
    t_versions d !! version_composite_key ns key (ve_timestamp_ms e) = Some (serialize_version_entry e).
Proof.
  intros Hok [Hn Hk]. assert (e ∈ history ns key d ↔ version_row ns key e ∈ version_rows ns key d) as ->.
  { rewrite history_rows by done. rewrite list_elem_of_fmap. split; [eauto|]. intros (e' & E & He').
    apply (f_equal (λ r, deserialize_version_entry r.2)) in E. rewrite !deserialize_row in E. by injection E as ->. }
  unfold version_row. rewrite version_rows_elem. split.
  - intros [Hl _]. split; [|done]. destruct (Hok _ _ Hl) as (ns' & key' & e' & [Hn' Hk'] & Ht & E).
    change (version_row ns key e = version_row ns' key' e') in E. apply (f_equal (λ r, deserialize_version_entry r.2)) in E.
    rewrite !deserialize_row in E. by injection E as ->.
  - intros [Ht Hl]. split; [done|]. by apply prefix_of_composite.
Qed.

(** Newest first, no two of the same time. *)
Lemma history_sorted ns key d : versions_ok d → named ns key →
  StronglySorted (λ e e', ve_timestamp_ms e' < ve_timestamp_ms e) (history ns key d).
Proof.
  intros Hok Hnk. pose proof (table_range_sorted (version_prefix ns key) (prefix_successor (version_prefix ns key)) (t_versions d)) as Hs.
  fold (version_rows ns key d) in Hs. rewrite history_rows in Hs by done.
  rewrite <- list_fmap_compose in Hs. apply (sorted_fmap_inv (fst ∘ version_row ns key) bytes_lt) in Hs.
  assert (∀ e, e ∈ history ns key d → 0 ≤ ve_timestamp_ms e ≤ u64_max) as Ht by (intros e He; by apply history_elem in He as [? _]).
  revert Hs Ht. generalize (history ns key d). clear. intros h. induction h as [|e h IH]; intros Hs Ht; constructor;
    apply StronglySorted_inv in Hs as [Hs He].
  - apply IH; [done|]. intros x Hx. apply Ht. by right.
  - rewrite Forall_forall in *. intros x Hx. apply (composite_lt ns key); [apply Ht; by left|apply Ht; by right|]. by apply He.
Qed.

Lemma rows_insert_newest ns key d e : versions_ok d → named ns key → 0 ≤ ve_timestamp_ms e ≤ u64_max →
  (∀ e', e' ∈ history ns key d → ve_timestamp_ms e' < ve_timestamp_ms e) →
  let d' := on_versions (<[version_composite_key ns key (ve_timestamp_ms e) := serialize_version_entry e]>) d in
  version_rows ns key d' = version_row ns key e :: version_rows ns key d.
Proof.
  intros Hok Hnk Ht Hnew d'. apply sorted_keys_eq.
  - apply table_range_sorted.
  - cbn [fmap list_fmap]. constructor; [apply table_range_sorted|]. apply Forall_forall. intros k.
    rewrite history_rows by done. rewrite <- list_fmap_compose. intros [e' [-> He']]%list_elem_of_fmap. cbn.
    apply composite_lt; [done|by apply history_elem in He' as [? _]|by apply Hnew].
  - intros [k v]. rewrite elem_of_cons, !version_rows_elem. cbn [t_versions d' on_versions]. rewrite lookup_insert_Some. split.
    + intros [[[<- <-]|[Hne Hl]] Hs]; [by left|by right].
    + intros [[= -> ->]|[Hl Hs]]; [split; [by left|by apply prefix_of_composite; destruct Hnk]|]. split; [|done]. right. split; [|done].
      intros <-. assert ((version_composite_key ns key (ve_timestamp_ms e), v) ∈ version_rows ns key d) as Hin by (by apply version_rows_elem).
      rewrite history_rows in Hin by done. apply list_elem_of_fmap in Hin as (e' & [= E ->] & He').
      destruct Hnk. apply composite_inj in E as (_ & _ & E); [|done..|by apply history_elem in He' as [? _]].
      specialize (Hnew _ He'). lia.
Qed.

Lemma versions_ok_insert ns key d e : versions_ok d → named ns key → 0 ≤ ve_timestamp_ms e ≤ u64_max →
  versions_ok (on_versions (<[version_composite_key ns key (ve_timestamp_ms e) := serialize_version_entry e]>) d).
Proof.
  intros Hok Hnk Ht k v. cbn [t_versions on_versions]. intros [[<- <-]|[_ Hl]]%lookup_insert_Some; [by exists ns, key, e|by apply Hok].
Qed.

Lemma history_insert_newest ns key d e : versions_ok d → named ns key → 0 ≤ ve_timestamp_ms e ≤ u64_max →
  (∀ e', e' ∈ history ns key d → ve_timestamp_ms e' < ve_timestamp_ms e) →
  history ns key (on_versions (<[version_composite_key ns key (ve_timestamp_ms e) := serialize_version_entry e]>) d)
  = e :: history ns key d.
Proof.
  intros Hok Hnk Ht Hnew. unfold history at 1. rewrite rows_insert_newest by done. cbn [omap list_omap]. by rewrite deserialize_row.
Qed.

(** Rows of other objects are not met. *)
Lemma rows_other (ns key ns' key' : rstr) (t : Z) (f : gmap bytes bytes → gmap bytes bytes) (d : tables) : named ns key → named ns' key' → (ns', key') ≠ (ns, key) →
  (∀ k, k ≠ version_composite_key ns key t → f (t_versions d) !! k = t_versions d !! k) →
  history ns' key' (on_versions f d) = history ns' key' d.
Proof.
  intros [Hn Hk] [Hn' Hk'] Hne Hf. unfold history. f_equal. apply sorted_keys_eq; [apply table_range_sorted..|].
  intros [k v]. rewrite !version_rows_elem. cbn [t_versions on_versions].
  destruct (decide (k = version_composite_key ns key t)) as [->|Hkne]; [|by rewrite Hf].
  split; intros [_ Hs]; exfalso; apply prefix_of_composite in Hs as [-> ->]; done.
Qed.

Lemma find_version_history vid ns key h :
  find_version vid (version_row ns key <$> h)
  = Ok ((λ e, (version_composite_key ns key (ve_timestamp_ms e), e)) <$> (snd <$> list_find (λ e, ve_version_id e = vid) h)).
Proof.
  induction h as [|e h IH]; [done|]. cbn [fmap list_fmap find_version version_row list_find].
  pose proof (deserialize_row ns key e) as E. cbn in E. rewrite E. osimpl. case_decide; [done|].
  rewrite IH. by destruct (list_find _ h) as [[i x]|].
Qed.

Lemma read_versions_history max ns key h : read_versions max (version_row ns key <$> h) = Ok (take max h).
Proof.
  revert max. induction h as [|e h IH]; intros [|max]; [done..|]. cbn [fmap list_fmap read_versions version_row take].
  pose proof (deserialize_row ns key e) as E. cbn in E. rewrite E. osimpl. by rewrite IH.
Qed.

Lemma history_delete ns key d e : versions_ok d → named ns key → e ∈ history ns key d →
  let d' := on_versions (delete (version_composite_key ns key (ve_timestamp_ms e))) d in
  versions_ok d' ∧ history ns key d' = filter (λ e', ve_timestamp_ms e' ≠ ve_timestamp_ms e) (history ns key d).
Proof.
  intros Hok Hnk He d'. assert (versions_ok d') as Hok'.
  { intros k v. cbn [t_versions d' on_versions]. intros [_ Hl]%lookup_delete_Some. by apply Hok. }
  split; [done|]. pose proof (proj1 (history_elem ns key d e Hok Hnk) He) as [Ht _].
  assert (version_rows ns key d' = version_row ns key <$> filter (λ e', ve_timestamp_ms e' ≠ ve_timestamp_ms e) (history ns key d)) as Hr.
  { apply sorted_keys_eq; [apply table_range_sorted| |].
    - rewrite <- list_fmap_compose. apply (sorted_fmap_inv (fst ∘ version_row ns key) bytes_lt). apply strongly_sorted_filter.
      apply (sorted_fmap_inv (fst ∘ version_row ns key) bytes_lt). rewrite list_fmap_compose, <- history_rows by done. apply table_range_sorted.
    - intros [k v]. rewrite version_rows_elem. cbn [t_versions d' on_versions]. rewrite lookup_delete_Some, list_elem_of_fmap. split.
      + intros [[Hne Hl] Hs]. assert ((k, v) ∈ version_rows ns key d) as Hin by (by apply version_rows_elem).
        rewrite history_rows in Hin by done. apply list_elem_of_fmap in Hin as (e' & [= -> ->] & He'). exists e'. split; [done|].
        apply list_elem_of_filter. split; [|done]. intros E. apply Hne. by rewrite E.
      + intros (e' & [= -> ->] & [Hne He']%list_elem_of_filter). pose proof (proj1 (history_elem ns key d e' Hok Hnk) He') as [Ht' Hl'].
        destruct Hnk as [Hn Hk]. split; [|by apply prefix_of_composite]. split; [|done]. intros E. apply Hne.
        apply composite_inj in E as (_ & _ & E); done. }
  unfold history at 1. rewrite Hr. clear Hr. generalize (filter (λ e', ve_timestamp_ms e' ≠ ve_timestamp_ms e) (history ns key d)).
  intros h. induction h as [|x h IH]; [done|]. cbn [fmap list_fmap omap list_omap]. rewrite deserialize_row. f_equal. exact IH.
Qed.
End histories.

(** * Properties *)

Section props.
Context `{AeadCrate} `{KeyedHash} `{HashCrates} `{HexDecode} `{ErrorTexts} `{MemoryStoreConfig} `{VersionJsonLaws}.
Context (keys : StoreKeys).

Definition config_key : rstr := rs "_config/versioning".

(** A change of another tag leaves the versioning state. *)
Lemma state_other ns d s : t_tags d !! join_key ns config_key = t_tags (db s) !! join_key ns config_key →
  versioning_state keys ns (set_db (λ _, d) s) = versioning_state keys ns s.
Proof. intros E. unfold versioning_state, tag_get_impl. cbn [db set_db]. fold config_key. by rewrite E. Qed.

Lemma join_key_ne ns (key : rstr) : key ≠ config_key → join_key ns key ≠ join_key ns config_key.
Proof. intros Hne [= E]%app_inv_head. by apply Hne. Qed.

(** A tag is set whatever versions there are. *)
Lemma tag_set_versions ns key kappa f d v : (tag_set_impl (table_encryptor keys) ns key kappa d).2 = Ok v → key ≠ config_key →
  ∃ d', tag_set_impl (table_encryptor keys) ns key kappa (on_versions f d) = (d', Ok v) ∧ t_versions d' = f (t_versions d) ∧
    t_tags d' !! join_key ns config_key = t_tags d !! join_key ns config_key.
Proof.
  intros Hv Hne. unfold tag_set_impl, write_txn, write_tag, touch_namespace in *. run_in Hv. run.
  unfold stored_version in *. cbn [t_tags on_versions on_namespaces] in *. destruct (incr_u64 _) as [n| |]; [|done..].
  destruct (seal_str _ _ _) as [x| |]; [|done..]. cbn in Hv |- *. injection Hv as ->. eexists. split_and!; [done|done|].
  cbn. rewrite lookup_insert_ne by (by apply join_key_ne). done.
Qed.

Lemma get_history ns key s : versions_ok (db s) → named ns key → versioning_state keys ns s = Ok VEnabled →
  let h := history ns key (db s) in
  (∀ max, version_list_impl keys ns key max s = Ok (take (Z.to_nat max) h)) ∧
  (∀ vid, version_get_impl keys ns key (Some vid) s
          = match list_find (λ e, ve_version_id e = vid) h with
            | Some (_, e) => Ok e
            | None => Err (SNotFound (rs "version " ++ vid ++ rs " of " ++ ns ++ rs "/" ++ key))
            end) ∧
  version_get_impl keys ns key None s
  = match h with
    | e :: _ => if ve_is_delete_marker e then Err (SNotFound (ns ++ rs "/" ++ key ++ rs " (delete marker: " ++ ve_version_id e ++ rs ")"))
                else Ok e
    | [] => Err (SNotFound (ns ++ rs "/" ++ key))
    end.
Proof.
  intros Hok Hnk Hst h. unfold version_list_impl, version_get_impl. rewrite Hst. osimpl.
  rewrite !decide_False by done. rewrite history_rows by done. fold h. split_and!.
  - intros max. apply read_versions_history.
  - intros vid. rewrite find_version_history. osimpl. by destruct (list_find _ h) as [[i e]|].
  - destruct h as [|e h']; [done|]. cbn [fmap list_fmap version_row]. pose proof (deserialize_row ns key e) as E. cbn in E. rewrite E. done.
Qed.

Lemma history_ext ns key d d' : t_versions d' = t_versions d → history ns key d' = history ns key d.
Proof. intros E. unfold history, version_rows. by rewrite E. Qed.

(** What the insertion of a newest version does to the versions. *)
Lemma newest_inserted ns key d d' e : versions_ok d → named ns key → 0 ≤ ve_timestamp_ms e ≤ u64_max →
  (∀ e', e' ∈ history ns key d → ve_timestamp_ms e' < ve_timestamp_ms e) →
  t_versions d' = <[version_composite_key ns key (ve_timestamp_ms e) := serialize_version_entry e]> (t_versions d) →
  versions_ok d' ∧ history ns key d' = e :: history ns key d ∧
  ∀ ns' key', named ns' key' → (ns', key') ≠ (ns, key) → history ns' key' d' = history ns' key' d.
Proof.
  intros Hok Hnk Ht Hnew E. set (d1 := on_versions (<[version_composite_key ns key (ve_timestamp_ms e) := serialize_version_entry e]>) d).
  change (t_versions d' = t_versions d1) in E. split_and!.
  - intros k v. rewrite E. by apply versions_ok_insert.
  - rewrite (history_ext ns key d1 d' E). by apply history_insert_newest.
  - intros ns' key' Hnk' Hne. rewrite (history_ext ns' key' d1 d' E).
    apply (rows_other ns key ns' key' (ve_timestamp_ms e)); [done..|]. intros k Hk. by rewrite lookup_insert_ne.
Qed.
End props.


(** A form of the entries for evaluating examples: the bits of a number. *)
Fixpoint bits_of (p : positive) : bytes :=
  match p with xH => [] | xO p => x00 :: bits_of p | xI p => x01 :: bits_of p end.
Fixpoint of_bits (bs : bytes) : positive :=
  match bs with [] => xH | b :: bs => if decide (b = x00) then xO (of_bits bs) else xI (of_bits bs) end.

Lemma of_bits_bits p : of_bits (bits_of p) = p.
Proof. induction p as [p IH|p IH|]; cbn; by rewrite ?IH. Qed.

#[local] Instance version_eq_dec : EqDecision VersionEntry.
Proof. solve_decision. Defined.
#[local] Instance version_countable : Countable VersionEntry := inj_countable'
  (λ e, (ve_version_id e, ve_kappa e, ve_is_delete_marker e, ve_timestamp_ms e, ve_size e, ve_etag e))
  (λ '(a, b, c, d, x, y), mkVersion a b c d x y) ltac:(by intros []).
#[local] Instance sample_version_json : VersionJson := {|
  version_to_vec e := bits_of (encode e);
  version_from_slice bs := match decode (of_bits bs) with Some e => inl e | None => inr (rs "json") end |}.
#[local] Instance sample_version_laws : VersionJsonLaws.
Proof. split. intros e. cbn. by rewrite of_bits_bits, decode_encode. Qed.

Definition versioned_store : pstore :=
  (on_db (tag_set_impl None (rs "b") (rs "_config/versioning") (rs "enabled")) fresh_store).1.


(** Two puts in the same millisecond: the second takes the place of the first,
    whose identifier is no longer found. *)
Lemma same_millisecond_replaces :
  let put vid kappa := version_put_impl plain_keys 7 vid (rs "b") (rs "k") kappa None in
  match (_ ← put (rs "v1") (rs "sha256:01"); put (rs "v2") (rs "sha256:02")) versioned_store with
  | (s', Ok vid) => vid = rs "v2" ∧ ve_version_id <$> history (rs "b") (rs "k") (db s') = [rs "v2"] ∧
      is_ok (version_get_impl plain_keys (rs "b") (rs "k") (Some (rs "v1")) s') = false
  | _ => False
  end.
Proof. vm_compute. split_and!; reflexivity. Qed.

(** Deleting the current version by its identifier leaves the tag on it. *)
Lemma delete_current_keeps_tag :
  match (_ ← version_put_impl plain_keys 7 (rs "v1") (rs "b") (rs "k") (rs "sha256:01") None;
         _ ← version_put_impl plain_keys 8 (rs "v2") (rs "b") (rs "k") (rs "sha256:02") None;
         version_delete_impl plain_keys 9 (rs "v3") (rs "b") (rs "k") (Some (rs "v2"))) versioned_store with
  | (s', Ok _) =>
      ve_kappa <$> history (rs "b") (rs "k") (db s') = [Some (rs "sha256:01")] ∧
      tag_get_impl None (rs "b") (rs "k") (db s') = Ok (mkTag (rs "k") (rs "sha256:02") 2)
  | _ => False
  end.
Proof. vm_compute. split_and!; reflexivity. Qed.
