(* ===== verification/RedbEpoch.v ===== *)
(** RedbEpoch: epochs of the persistent store, [kappa-store-redb/src/epoch.rs].

    An advance stores the new root as a blob while its write transaction is open.
    A database has one writer: a second [begin_write] waits until the first
    transaction ends.  [None] stands for an operation that waits for itself. *)

From S2P Require Import Prelude Label Compute Types Merkle Epoch Identity Store MemStore MemTags MemUpload Gc Http Aead RedbTable RedbTags RedbBlob.

Section epochs.
Context `{AeadCrate} `{KeyedHash} `{HashCrates} `{HexDecode} `{ErrorTexts} `{MemoryStoreConfig} `{Dcbor}.
Context (keys : StoreKeys) (rnd : rstr → bytes + rstr).
Let enc := table_encryptor keys.

(** [ingest_compute] while a write transaction is open: storing an encrypted
    blob begins another one for its binding record. *)
Definition ingest_in_txn (content : bytes) (s : pstore) : option (pstore * outcome StoreError IngestResult) :=
  match blob_encryptor keys with
  | None => Some (redb_ingest_compute keys rnd Sha256 content s)
  | Some key =>
      let before : outcome StoreError rstr :=
        verified ← reject_label (VerifiedContent_compute Sha256 content);
        sigma ← reject_label (vc_kappa verified);
        encrypted ← map_err (λ e, io_other (crypto_error_str e)) (encrypt key (rnd sigma) sigma content);
        blob_path (kappa_from_bytes (disk_bytes encrypted)) in
      match before with
      | Ok _ => None
      | Err e => Some (s, Err e)
      | Panic => Some (s, Panic)
      end
  end.

(** The pointer of a namespace. *)
Definition epoch_pointer (ns : rstr) (d : tables) : outcome StoreError (option rstr) :=
  match t_epoch_current d !! ns with
  | Some raw => decrypted ← open_str enc ns raw; Ok (Some decrypted)
  | None => Ok None
  end.

Definition epoch_current_impl (ns : rstr) (s : pstore) : outcome StoreError (option rstr) := epoch_pointer ns (db s).

(** The part of the transaction before the blob is stored. *)
Definition advance_pending (ns : rstr) : M tables (Z * option rstr) :=
  _ ← touch_namespace ns;
  epoch_number ← next_in_sequence enc ns (rs "_epoch");
  prev_root_kappa ← asks (epoch_pointer ns);
  mret (epoch_number, prev_root_kappa).

(** The part after it, up to the commit. *)
Definition advance_commit (ns : rstr) (epoch_root : EpochRoot) (kappa : rstr) (pending : tables) : M pstore rstr :=
  stored_kappa ← lift (seal_str enc ns kappa);
  _ ← modify (set_epoch_cache (<[kappa := epoch_root]>));
  _ ← modify (set_db (λ _, on_epoch_current (<[ns := stored_kappa]>) pending));
  mret kappa.

Definition epoch_advance_impl (now_ms : Z) (ns : rstr) (mutations : list EpochMutation) (s : pstore)
  : option (pstore * outcome StoreError rstr) :=
  match tag_list_impl enc ns (db s) with
  | Err e => Some (s, Err e)
  | Panic => Some (s, Panic)
  | Ok sorted_tags =>
      let state_root := state_merkle_root sorted_tags in
      let mutations_root := mutations_merkle_root mutations in
      match advance_pending ns (db s) with
      | (_, Err e) => Some (s, Err e)
      | (_, Panic) => Some (s, Panic)
      | (pending, Ok (epoch_number, prev_root_kappa)) =>
          match build (mkEpochFields ns epoch_number prev_root_kappa state_root mutations_root now_ms []) with
          | Ok epoch_root =>
              match ingest_in_txn (to_leaf_bytes epoch_root) s with
              | None => None
              | Some (s1, Ok result) => Some (advance_commit ns epoch_root (ir_kappa result) pending s1)
              | Some (s1, Err e) => Some (s1, Err e)
              | Some (s1, Panic) => Some (s1, Panic)
              end
          | _ => Some (s, Panic)
          end
      end
  end.

Definition epoch_get_impl (kappa : rstr) : M pstore EpochRoot :=
  cached ← gets (λ s, epoch_cache s !! kappa);
  match cached with
  | Some root => mret root
  | None =>
      blob ← asks (blob_get_impl keys kappa);
      root ← lift (map_err (λ e, io_other (epoch_error_str e)) (from_leaf_bytes blob));
      _ ← modify (set_epoch_cache (<[kappa := root]>));
      mret root
  end.
End epochs.

Section facts.
Context `{AeadCrate} `{KeyedHash} `{HashCratesLaws} `{HexDecode} `{ErrorTexts} `{MemoryStoreConfig} `{Dcbor}.

(** Ingesting in a plain store: the content is at its path, the rest is as
    before. *)
Lemma plain_ingest_sha256 rnd c s : (∀ x, files s !! label_path blob_root Sha256 (digest_hex Sha256 c) = Some x → x = c) →
  ∃ f new, redb_ingest_compute plain_keys rnd Sha256 c s = (set_files f s, Ok (IngestResult_new (kappa_from_bytes c) new)) ∧
    f (files s) !! label_path blob_root Sha256 (digest_hex Sha256 c) = Some c.
Proof.
  intros Hc. unfold redb_ingest_compute, mbind, M_bind, lift, reject_label, mret, M_ret. rewrite compute_verified by reflexivity. cbn [map_err].
  set (v := mkVerified _ c). rewrite (verified_ok_kappa v Sha256 c eq_refl). cbn [map_err].
  unfold blob_put_impl, mbind, M_bind, lift, reject_label. rewrite (verified_ok_kappa v Sha256 c eq_refl). cbn [map_err blob_encryptor plain_keys].
  rewrite blob_path_kappa, place_run. assert (∀ k s, link_additional plain_keys rnd k Sha256 c redb_mandatory_axes s = (s, Ok [])) as Hl by done.
  change (vc_content v) with c. rewrite kappa_from_bytes_text. case_decide as E; rewrite Hl.
  - exists id, false. split; [by destruct s|]. destruct E as [x E]. unfold id. rewrite E. by rewrite (Hc x E).
  - eexists _, true. split; [done|]. rewrite write_atomically_label by apply digest_hex_valid. by rewrite decide_True.
Qed.

Lemma pending_run ns d n : sequence_current_impl None ns (rs "_epoch") d = Ok n → n ≠ u64_max →
  advance_pending plain_keys ns d
  = (on_sequences (<[join_key ns (rs "_epoch") := to_be 8 (n + 1)]>) (on_namespaces (λ m, {[ns]} ∪ m) d),
     Ok (n + 1, t_epoch_current d !! ns)).
Proof.
  intros Hn Hm. unfold advance_pending, next_in_sequence, touch_namespace. run.
  change (sequence_current_impl (table_encryptor plain_keys) ns (rs "_epoch") (on_namespaces (λ m, {[ns]} ∪ m) d))
    with (sequence_current_impl None ns (rs "_epoch") d). rewrite Hn. unfold incr_u64. rewrite (proj2 (Z.eqb_neq _ _)) by done.
  cbn. unfold epoch_pointer. cbn. by destruct (t_epoch_current d !! ns).
Qed.
End facts.

(** * Properties *)

(** Advancing an epoch of an unencrypted persistent store appends to the
    namespace's chain: the new root has the next number, links to the current
    one, and commits to the tags and the mutations; its label, the address of its
    serialization, becomes the current pointer, the sequence moves by one, and
    both the running store and one reopened over the same disk and database read
    the same root back. *)
Theorem redb_epoch_chain `{AeadCrate} `{KeyedHash} `{HashCratesLaws} `{HexDecode} `{ErrorTexts} `{MemoryStoreConfig} `{DcborLaws}
  rnd now_ms ns mutations s tags n (Ht : tag_list_impl None ns (db s) = Ok tags)
  (Hn : sequence_current_impl None ns (rs "_epoch") (db s) = Ok n) (Hb : 0 ≤ n < u64_max)
  (Hc : ∀ e x, files s !! label_path blob_root Sha256 (digest_hex Sha256 (to_leaf_bytes e)) = Some x → x = to_leaf_bytes e)
  (Hf : fields_ok (mkEpochFields ns (n + 1) (t_epoch_current (db s) !! ns) (state_merkle_root tags) (mutations_merkle_root mutations) now_ms [])) :
  ∃ s' e, epoch_advance_impl plain_keys rnd now_ms ns mutations s = Some (s', Ok (epoch_kappa e)) ∧
    er_fields e = mkEpochFields ns (n + 1) (t_epoch_current (db s) !! ns) (state_merkle_root tags) (mutations_merkle_root mutations) now_ms [] ∧
    merkle_root (encode_leaves (er_fields e)) = Some (er_root_hash e) ∧
    epoch_current_impl plain_keys ns s' = Ok (Some (epoch_kappa e)) ∧
    sequence_current_impl None ns (rs "_epoch") (db s') = Ok (n + 1) ∧
    (epoch_get_impl plain_keys (epoch_kappa e) s').2 = Ok e ∧
    let reopened := PersistentStore_open (db s') (files s') in
    epoch_current_impl plain_keys ns reopened = Ok (Some (epoch_kappa e)) ∧
    (epoch_get_impl plain_keys (epoch_kappa e) reopened).2 = Ok e.
Proof.
  unfold epoch_advance_impl. change (table_encryptor plain_keys) with (@None bytes). rewrite Ht, (pending_run ns (db s) n Hn) by lia.
  set (fields := mkEpochFields _ _ _ _ _ _ _) in *. destruct (build_ok fields) as (root & Hroot & Eb).
  destruct (epoch_roundtrip fields [] Hf eq_refl) as (e & E & _ & Hrt). rewrite Eb in E. injection E as <-. rewrite Eb.
  set (e := mkEpochRoot fields root [] (encode_leaves fields)) in *. change (with_signature e []) with e in Hrt.
  unfold ingest_in_txn. cbn [blob_encryptor plain_keys].
  destruct (plain_ingest_sha256 rnd (to_leaf_bytes e) s (Hc e)) as (f & new & -> & Hp). eexists _, e. split; [done|].
  assert (∀ s', files s' = f (files s) → epoch_cache s' !! epoch_kappa e = None ∨ epoch_cache s' !! epoch_kappa e = Some e →
    (epoch_get_impl plain_keys (epoch_kappa e) s').2 = Ok e) as Hget.
  { intros s' Hs' Hcache. unfold epoch_get_impl. run. destruct Hcache as [-> | ->]; [|done].
    unfold blob_get_impl, read_file. cbn [blob_encryptor plain_keys]. assert (blob_path (epoch_kappa e) = Ok (label_path blob_root Sha256 (digest_hex Sha256 (to_leaf_bytes e)))) as -> by apply kappa_path_text. osimpl. rewrite Hs', Hp. osimpl.
    by rewrite Hrt. }
  split_and!; [done|done| | |apply Hget; [done|right]| |by apply Hget; [|left]].
  - unfold epoch_current_impl, epoch_pointer. cbn. by rewrite lookup_insert_eq.
  - unfold sequence_current_impl. cbn -[to_be]. rewrite lookup_insert_eq. unfold decode_seq_value. cbn [open_bytes mbind outcome_bind].
    rewrite decide_True by apply length_to_be. rewrite from_be_u64 by lia. done.
  - cbn. by rewrite lookup_insert_eq.
  - unfold epoch_current_impl, epoch_pointer. cbn. by rewrite lookup_insert_eq.
Qed.

(** With blob encryption an advance never returns: when the serialized root
    can be encrypted, storing it begins a second write transaction inside the
    first, which waits for itself. *)
Theorem encrypted_advance_waits `{AeadLaws} `{KeyedHash} `{HashCratesLaws} `{HexDecode} `{ErrorTexts} `{MemoryStoreConfig} `{Dcbor}
  keys key rnd now_ms ns mutations s tags pending n prev (Hk : blob_encryptor keys = Some key)
  (Ht : tag_list_impl (table_encryptor keys) ns (db s) = Ok tags)
  (Hp : advance_pending keys ns (db s) = (pending, Ok (n, prev)))
  (Hr : ∀ sigma, ∃ base, rnd sigma = inl base ∧ length base = 8%nat)
  (Hf : ∀ e, build (mkEpochFields ns n prev (state_merkle_root tags) (mutations_merkle_root mutations) now_ms []) = Ok e → fits (to_leaf_bytes e)) :
  epoch_advance_impl keys rnd now_ms ns mutations s = None.
Proof.
  unfold epoch_advance_impl. rewrite Ht, Hp. set (fields := mkEpochFields _ _ _ _ _ _ _) in *.
  destruct (build_ok fields) as (root & _ & Eb). rewrite Eb. specialize (Hf _ Eb). set (e := mkEpochRoot _ _ _ _) in *.
  unfold ingest_in_txn. rewrite Hk. rewrite compute_verified by reflexivity. cbn [reject_label map_err mbind outcome_bind].
  set (v := mkVerified _ _). rewrite (verified_ok_kappa v Sha256 (to_leaf_bytes e) eq_refl). cbn [reject_label map_err mbind outcome_bind].
  destruct (Hr (kappa_text Sha256 (to_leaf_bytes e))) as (base & -> & Hb).
  destruct (encrypt_layout key base (kappa_text Sha256 (to_leaf_bytes e)) Hb (to_leaf_bytes e) Hf) as (disk & Hs & _).
  unfold encrypt. cbn [of_sum mbind outcome_bind]. rewrite Hs. cbn [mbind outcome_bind map_err disk_bytes]. by rewrite kappa_path_text.
Qed.

Lemma redb_epoch_chain_witness :
  ∃ s' e, epoch_advance_impl plain_keys (λ _, inr []) 1700 (rs "b") [] fresh_store = Some (s', Ok (epoch_kappa e)) ∧
    (epoch_get_impl plain_keys (epoch_kappa e) (PersistentStore_open (db s') (files s'))).2 = Ok e.
Proof.
  destruct (redb_epoch_chain (λ _, inr []) 1700 (rs "b") [] fresh_store [] 0) as (s' & e & E & _ & _ & _ & _ & _ & _ & Hg).
  - vm_compute. reflexivity.
  - vm_compute. reflexivity.
  - vm_compute. split; [discriminate|reflexivity].
  - intros e x Hx. discriminate Hx.
  - split; [reflexivity|split; vm_compute; discriminate|intros k Hk; discriminate Hk|reflexivity|reflexivity|split; vm_compute; discriminate|reflexivity|].
    repeat constructor.
  - exists s', e. split; [exact E|exact Hg].
Defined.

Lemma encrypted_advance_waits_witness :
  epoch_advance_impl sample_keys (λ _, inl (repeat x07 8)) 1700 (rs "b") [] fresh_store = None.
Proof.
  refine (encrypted_advance_waits sample_keys (repeat x01 32) (λ _, inl (repeat x07 8)) 1700 (rs "b") [] fresh_store []
    (advance_pending sample_keys (rs "b") (db fresh_store)).1 1 None _ _ _ _ _).
  - reflexivity.
  - vm_compute. reflexivity.
  - vm_compute. reflexivity.
  - intros sigma. exists (repeat x07 8). split; reflexivity.
  - intros e He. vm_compute in He. injection He as <-. vm_compute. discriminate.
Defined.
