(* ===== verification/RedbNamespace.v ===== *)
(** RedbNamespace: the namespace registry of the persistent store,
    [kappa-store-redb/src/namespace.rs], and the succession chains of [lib.rs].

    Aliases map to UUIDs, UUIDs to records in JSON; every change appends an event
    under the UUID and the time.  Times and random bytes are arguments. *)

From S2P Require Import Prelude Label Compute Types Merkle Epoch Identity Store MemStore MemTags MemIdentity MemNamespace MemUpload Gc Http Aead RedbTable RedbTags RedbBlob RedbVersions.

Record AliasEvent := mkAliasEvent {
  ae_action : rstr;
  ae_alias : rstr;
  ae_actor : rstr;
  ae_timestamp_ms : Z;
  ae_detail : option rstr;
}.

(** The derived JSON forms. *)
Class RegistryJson := {
  record_to_vec : NamespaceRecord → bytes;
  record_from_slice : bytes → NamespaceRecord + rstr;
  event_to_vec : AliasEvent → bytes;
}.
Class RegistryJsonLaws `{RegistryJson} : Prop := {
  record_json_roundtrip : ∀ r, record_from_slice (record_to_vec r) = inl r;
}.

Section registry.
Context `{RegistryJson}.

Definition parse_record (data : bytes) : outcome StoreError NamespaceRecord := of_sum io_other (record_from_slice data).
Definition encode_record (record : NamespaceRecord) : bytes := record_to_vec record.

(** [uuid.copy_from_slice(val.value())]: a panic on other lengths. *)
Definition copy16 (b : bytes) : outcome StoreError bytes := if decide (length b = 16%nat) then Ok b else Panic.

Definition alias_uuid (key : rstr) (d : tables) : outcome StoreError bytes :=
  val ← ok_or (t_namespace_aliases d !! key) (alias_not_found key);
  copy16 val.

Definition load_record (uuid : bytes) (d : tables) : outcome StoreError NamespaceRecord :=
  val ← ok_or (t_namespace_records d !! uuid) (record_not_found uuid);
  parse_record val.

Definition store_record (uuid : bytes) (record : NamespaceRecord) : M tables () :=
  modify (on_namespace_records (<[uuid := encode_record record]>)).

(** The history key is the UUID and the time. *)
Definition push_event (uuid : bytes) (event : AliasEvent) : M tables () :=
  modify (on_alias_history (<[uuid ++ to_be 8 (ae_timestamp_ms event) := event_to_vec event]>)).

Definition alias_taken (key : rstr) (d : tables) : bool := bool_decide (is_Some (t_namespace_aliases d !! key)).

Definition scoped_protocols : list rstr := [rs "oci"; rs "s3"; rs "git"; rs "nix"].

(** The checks against aliases of the other scope. *)
Definition cross_collision (name : rstr) (protocol : option rstr) (d : tables) : option StoreError :=
  match protocol with
  | Some _ =>
      if alias_taken name d then Some (SConflict (rs "namespace alias collides with global alias: " ++ name)) else None
  | None =>
      proto ← head (filter (λ p, alias_taken (p ++ rs ":" ++ name) d = true) scoped_protocols);
      Some (SConflict (rs "namespace alias collides with " ++ proto ++ rs "-scoped alias: " ++ name))
  end.

Definition namespace_create_impl (now_ms gen_ms : Z) (random : bytes) (name owner : rstr) (protocol : option rstr) : M tables NamespaceRef :=
  let key := alias_key name protocol in
  write_txn (
    taken ← gets (alias_taken key);
    if taken : bool then throw (SConflict (rs "namespace alias already exists: " ++ key))
    else
      collision ← gets (cross_collision name protocol);
      match collision with
      | Some e => throw e
      | None =>
          let ns := generate gen_ms random name in
          let uuid := ns_uuid ns in
          _ ← modify (on_namespace_aliases (<[key := uuid]>));
          _ ← store_record uuid (mkNsRecord (uuid_hex ns) owner now_ms protocol [name] false);
          _ ← push_event uuid (mkAliasEvent (rs "create") name owner now_ms protocol);
          mret ns
      end).

Definition namespace_resolve_impl (name : rstr) (protocol : option rstr) (d : tables) : outcome StoreError NamespaceRef :=
  let key := alias_key name protocol in
  bs ← ok_or (t_namespace_aliases d !! key) (alias_not_found key);
  if decide (length bs = 16%nat) then Ok (with_name bs name) else Err (io_other (rs "alias UUID not 16 bytes")).

Definition namespace_rename_impl (now_ms : Z) (old_name new_name actor : rstr) (protocol : option rstr) : M tables () :=
  let old_key := alias_key old_name protocol in
  let new_key := alias_key new_name protocol in
  write_txn (
    uuid ← asks (alias_uuid old_key);
    taken ← gets (alias_taken new_key);
    if taken : bool then throw (SConflict (rs "target alias already exists: " ++ new_key))
    else
      record ← asks (load_record uuid);
      if decide (nr_owner record = actor) then
        _ ← modify (on_namespace_aliases (λ m, <[new_key := uuid]> (delete old_key m)));
        _ ← store_record uuid (set_aliases (λ l, filter (λ a, a ≠ old_name) l ++ [new_name]) record);
        push_event uuid (mkAliasEvent (rs "rename") new_name actor now_ms (Some old_name))
      else throw (owner_error (rs " can rename") (nr_owner record) actor)).

Definition namespace_add_alias_impl (now_ms : Z) (uuid : bytes) (alias actor : rstr) (protocol : option rstr) : M tables () :=
  let key := alias_key alias protocol in
  write_txn (
    record ← asks (load_record uuid);
    if decide (nr_owner record = actor) then
      taken ← gets (alias_taken key);
      if taken : bool then throw (SConflict (rs "alias already exists: " ++ key))
      else
        _ ← modify (on_namespace_aliases (<[key := uuid]>));
        _ ← store_record uuid (set_aliases (λ l, if decide (alias ∈ l) then l else l ++ [alias]) record);
        push_event uuid (mkAliasEvent (rs "add_alias") alias actor now_ms protocol)
    else throw (owner_error (rs " can add alias") (nr_owner record) actor)).

(** The loops of [identity_succession_resolve] and [identity_succession_chain]. *)
Definition redb_succession_resolve (anchor : rstr) (d : tables) : outcome StoreError rstr :=
  resolve_loop 10 (t_identity_successions d) anchor [anchor].
Definition redb_succession_chain (anchor : rstr) (d : tables) : outcome StoreError (list rstr) :=
  chain_loop 10 (t_identity_successions d) [anchor] anchor [anchor].

Definition namespace_transfer_impl (now_ms : Z) (uuid : bytes) (new_owner actor : rstr) : M tables () :=
  record ← asks (load_record uuid);
  _ ← (if decide (nr_owner record = actor) then mret ()
       else
         resolved ← asks (redb_succession_resolve (nr_owner record));
         if decide (resolved = actor) then mret ()
         else throw (owner_error (rs " (or successor) can transfer") (nr_owner record) actor));
  let old_owner := nr_owner record in
  write_txn (
    record ← asks (load_record uuid);
    _ ← store_record uuid (set_owner new_owner record);
    push_event uuid (mkAliasEvent (rs "transfer") (default [] (head (nr_aliases record))) actor now_ms
                       (Some (old_owner ++ rs " -> " ++ new_owner)))).

Definition namespace_info_impl (name : rstr) (protocol : option rstr) (d : tables) : outcome StoreError NamespaceRecord :=
  uuid ← alias_uuid (alias_key name protocol) d;
  load_record uuid d.

Definition keep_record (protocol : option rstr) (rec : NamespaceRecord) : bool :=
  negb (nr_tombstoned rec) && match protocol with Some p => bool_decide (nr_protocol rec = Some p) | None => true end.

Definition namespace_list_impl_v2 (protocol : option rstr) (d : tables) : outcome StoreError (list NamespaceRecord) :=
  let records := omap (λ kv, match parse_record kv.2 with
                             | Ok rec => if keep_record protocol rec then Some rec else None
                             | _ => None
                             end) (table_iter (t_namespace_records d)) in
  Ok (sort_by first_alias_le records).

Definition namespace_exists_impl_v2 (name : rstr) (protocol : option rstr) (d : tables) : outcome StoreError bool :=
  Ok (alias_taken (alias_key name protocol) d).

Definition namespace_delete_impl (now_ms : Z) (name actor : rstr) (protocol : option rstr) : M tables () :=
  write_txn (
    uuid ← asks (alias_uuid (alias_key name protocol));
    record ← asks (load_record uuid);
    if decide (nr_owner record = actor) then
      _ ← modify (on_namespace_aliases (λ m, foldl (λ m k, delete k m) m (delete_keys record)));
      _ ← store_record uuid (set_tombstoned record);
      push_event uuid (mkAliasEvent (rs "delete") name actor now_ms None)
    else throw (owner_error (rs " can delete") (nr_owner record) actor)).
End registry.

Section creation.
Context `{RegistryJson}.

Definition redb_resolve_or_create (now_ms gen_ms : Z) (random : bytes) (name owner : rstr) (protocol : option rstr) : M tables NamespaceRef := λ d,
  match namespace_resolve_impl name protocol d with
  | Ok ns => (d, Ok ns)
  | Err (SNotFound _) =>
      match namespace_create_impl now_ms gen_ms random name owner protocol d with
      | (d', Ok ns) => (d', Ok ns)
      | (d', Err (SConflict _)) => (d', namespace_resolve_impl name protocol d')
      | (d', Err e) => (d', Err e)
      | (d', Panic) => (d', Panic)
      end
  | Err e => (d, Err e)
  | Panic => (d, Panic)
  end.
End creation.

(** * The in-memory registry as the specification *)

(** An operation on the database at time [now] (a creation at its own), and its
    result in memory. *)
Definition redb_ns_op `{RegistryJson} (now : Z) (op : ns_op) : M tables () :=
  match op with
  | OpEnsure _ => mret ()
  | OpCreate t ms rnd name owner p => _ ← namespace_create_impl t ms rnd name owner p; mret ()
  | OpResolveOrCreate t ms rnd name owner p => _ ← redb_resolve_or_create t ms rnd name owner p; mret ()
  | OpRename old new actor p => namespace_rename_impl now old new actor p
  | OpAddAlias u alias actor p => namespace_add_alias_impl now u alias actor p
  | OpTransfer u new actor => namespace_transfer_impl now u new actor
  | OpDelete name actor p => namespace_delete_impl now name actor p
  end.

Definition mem_ns_ok (op : ns_op) (s : store) : bool :=
  match op with
  | OpEnsure ns => is_ok (ensure_namespace ns s).2
  | OpCreate now ms rnd name owner p => is_ok (namespace_create now ms rnd name owner p s).2
  | OpResolveOrCreate now ms rnd name owner p => is_ok (namespace_resolve_or_create now ms rnd name owner p s).2
  | OpRename old new actor p => is_ok (namespace_rename old new actor p s).2
  | OpAddAlias u alias actor p => is_ok (namespace_add_alias u alias actor p s).2
  | OpTransfer u new actor => is_ok (namespace_transfer u new actor s).2
  | OpDelete name actor p => is_ok (namespace_delete name actor p s).2
  end.

Section refinement.
Context `{RegistryJsonLaws}.

(** The tables hold the registry of [s]. *)
Record registry_of (d : tables) (s : store) : Prop := {
  ro_aliases : t_namespace_aliases d = ns_aliases s;
  ro_records : t_namespace_records d = encode_record <$> ns_records s;
  ro_successions : t_identity_successions d = identity_successions s;
  ro_uuids : ∀ key u, ns_aliases s !! key = Some u → length u = 16%nat;
  ro_inv : alias_inv s;
}.

Lemma load_record_of d s u : registry_of d s → load_record u d = ok_or (ns_records s !! u) (record_not_found u).
Proof.
  intros Hr. unfold load_record. rewrite (ro_records _ _ Hr), lookup_fmap. destruct (ns_records s !! u) as [r|]; [|done].
  cbn. unfold parse_record, encode_record. by rewrite record_json_roundtrip.
Qed.

Lemma alias_uuid_of d s key : registry_of d s → alias_uuid key d = ok_or (ns_aliases s !! key) (alias_not_found key).
Proof.
  intros Hr. unfold alias_uuid. rewrite (ro_aliases _ _ Hr). destruct (ns_aliases s !! key) as [u|] eqn:E; [|done].
  cbn. unfold copy16. by rewrite decide_True by (by eapply ro_uuids).
Qed.

Lemma alias_taken_of d s key : registry_of d s → alias_taken key d = bool_decide (is_Some (ns_aliases s !! key)).
Proof. intros Hr. unfold alias_taken. by rewrite (ro_aliases _ _ Hr). Qed.

Lemma resolve_of d s name p : registry_of d s → namespace_resolve_impl name p d = namespace_resolve name p s.
Proof.
  intros Hr. unfold namespace_resolve_impl, namespace_resolve. rewrite (ro_aliases _ _ Hr).
  destruct (ns_aliases s !! alias_key name p) as [u|] eqn:E; [|done]. cbn. by rewrite decide_True by (by eapply ro_uuids).
Qed.

Lemma generate_length ms random name : length random = 8%nat → length (ns_uuid (generate ms random name)) = 16%nat.
Proof.
  intros Hr. cbn [ns_uuid generate]. unfold set_bits.
  by rewrite length_alter, length_app, length_take, length_alter, length_app, length_drop, length_to_be, Hr.
Qed.

(** UUIDs an operation is given or draws have 16 bytes. *)
Definition sized (op : ns_op) : Prop :=
  match op with
  | OpEnsure _ => False
  | OpCreate _ _ rnd _ _ _ | OpResolveOrCreate _ _ rnd _ _ _ => length rnd = 8%nat
  | OpAddAlias u _ _ _ => length u = 16%nat
  | _ => True
  end.

(** Both sides after a step. *)
Lemma registry_step op d s d' : registry_of d s → draws_fresh op s →
  t_namespace_aliases d' = ns_aliases (run_ns_op op s) → t_namespace_records d' = encode_record <$> ns_records (run_ns_op op s) →
  t_identity_successions d' = t_identity_successions d → identity_successions (run_ns_op op s) = identity_successions s →
  (∀ key u, ns_aliases (run_ns_op op s) !! key = Some u → ns_aliases s !! key = Some u ∨ length u = 16%nat) →
  registry_of d' (run_ns_op op s).
Proof.
  intros Hr Hf Ha Hrec Hs Hs' Hu. split; [done|done|by rewrite Hs, Hs', (ro_successions _ _ Hr)| |].
  - intros key u [Hk|Hk]%Hu; [by eapply ro_uuids|done].
  - eapply step_ok_inv; [by apply run_ns_op_step, Hf; apply Hr|apply Hr].
Qed.

(** The outcome of an operation beside the one in memory: a success is the same
    step, a failure changes nothing. *)
Definition simulates (op : ns_op) (d : tables) (s : store) (res : tables * outcome StoreError ()) : Prop :=
  match res.2 with
  | Ok () => mem_ns_ok op s = true ∧ registry_of res.1 (run_ns_op op s)
  | _ => res.1 = d
  end.

Lemma rename_sim now old new actor p d s : registry_of d s →
  simulates (OpRename old new actor p) d s (redb_ns_op now (OpRename old new actor p) d) ∧
  (mem_ns_ok (OpRename old new actor p) s = true → (redb_ns_op now (OpRename old new actor p) d).2 = Ok ()).
Proof.
  intros Hr. unfold simulates. cbn [redb_ns_op mem_ns_ok]. unfold namespace_rename_impl, namespace_rename, write_txn. run.
  rewrite (alias_uuid_of d s) by done. destruct (ns_aliases s !! alias_key old p) as [u|] eqn:Eu; [|done]. cbn [ok_or].
  rewrite (alias_taken_of d s) by done. destruct (bool_decide _) eqn:Et; [done|]. rewrite (load_record_of d s) by done.
  destruct (ro_inv _ _ Hr _ _ Eu) as [r Er]. rewrite Er. cbn [ok_or]. destruct (decide (nr_owner r = actor)) as [Ho|Ho]; [|done].
  split; [|done]. cbn [snd fst]. split; [done|].
  assert (run_ns_op (OpRename old new actor p) s = set_ns_aliases (λ m, <[alias_key new p := u]> (delete (alias_key old p) m))
    (set_ns_records (<[u := set_aliases (λ l, filter (λ a, a ≠ old) l ++ [new]) r]>) s)) as E.
  { cbn [run_ns_op]. unfold namespace_rename. run. rewrite Eu. cbn [ok_or]. by rewrite Et, Er, decide_True by done. }
  apply (registry_step _ d s); rewrite ?E; try done.
  - cbn. by rewrite (ro_aliases _ _ Hr).
  - cbn. by rewrite (ro_records _ _ Hr), fmap_insert.
  - cbn. intros k v [[<- <-]|[_ [_ Hl]%lookup_delete_Some]]%lookup_insert_Some; [right; by eapply ro_uuids|by left].
Qed.

Lemma add_alias_sim now u alias actor p d s : registry_of d s → length u = 16%nat →
  simulates (OpAddAlias u alias actor p) d s (redb_ns_op now (OpAddAlias u alias actor p) d) ∧
  (mem_ns_ok (OpAddAlias u alias actor p) s = true → (redb_ns_op now (OpAddAlias u alias actor p) d).2 = Ok ()).
Proof.
  intros Hr Hu. unfold simulates. cbn [redb_ns_op mem_ns_ok]. unfold namespace_add_alias_impl, namespace_add_alias, write_txn. run.
  rewrite (load_record_of d s) by done.
  destruct (ns_records s !! u) as [r|] eqn:Er; cbn [ok_or]; [|by destruct (bool_decide _); rewrite ?Er].
  destruct (decide (nr_owner r = actor)) as [Ho|Ho]; [|by destruct (bool_decide _); rewrite ?Er; cbn [ok_or]; rewrite ?decide_False]. rewrite (alias_taken_of d s) by done.
  destruct (bool_decide _) eqn:Et; [done|]. rewrite Er. cbn [ok_or]. rewrite decide_True by done. split; [|done]. cbn [snd fst]. split; [done|].
  assert (run_ns_op (OpAddAlias u alias actor p) s = set_ns_aliases (<[alias_key alias p := u]>)
    (set_ns_records (<[u := set_aliases (λ l, if decide (alias ∈ l) then l else l ++ [alias]) r]>) s)) as E.
  { cbn [run_ns_op]. unfold namespace_add_alias. run. by rewrite Et, Er; cbn [ok_or]; rewrite decide_True by done. }
  apply (registry_step _ d s); rewrite ?E; try done.
  - cbn. by rewrite (ro_aliases _ _ Hr).
  - cbn. by rewrite (ro_records _ _ Hr), fmap_insert.
  - cbn. intros k v [[<- <-]|[_ Hl]]%lookup_insert_Some; [by right|by left].
Qed.

Lemma transfer_sim now u new actor d s : registry_of d s →
  simulates (OpTransfer u new actor) d s (redb_ns_op now (OpTransfer u new actor) d) ∧
  (mem_ns_ok (OpTransfer u new actor) s = true → (redb_ns_op now (OpTransfer u new actor) d).2 = Ok ()).
Proof.
  intros Hr. unfold simulates. cbn [redb_ns_op mem_ns_ok]. unfold namespace_transfer_impl, namespace_transfer, write_txn. run.
  rewrite (load_record_of d s) by done. destruct (ns_records s !! u) as [r|] eqn:Er; cbn [ok_or]; [|done].
  assert (redb_succession_resolve (nr_owner r) d = identity_succession_resolve (nr_owner r) s) as Es
    by (unfold redb_succession_resolve, identity_succession_resolve; by rewrite (ro_successions _ _ Hr)).
  assert (nr_owner r = actor ∨ identity_succession_resolve (nr_owner r) s = Ok actor →
    registry_of (on_alias_history (<[u ++ to_be 8 now := event_to_vec (mkAliasEvent (rs "transfer") (default [] (head (nr_aliases r))) actor now
        (Some (nr_owner r ++ rs " -> " ++ new)))]>) (on_namespace_records (<[u := encode_record (set_owner new r)]>) d))
      (run_ns_op (OpTransfer u new actor) s)) as Hstep.
  { intros Ho. assert (run_ns_op (OpTransfer u new actor) s = set_ns_records (<[u := set_owner new r]>) s) as E.
    { cbn [run_ns_op]. unfold namespace_transfer. run. rewrite Er. cbn [ok_or]. case_decide; [done|].
      destruct Ho as [?|Ho]; [done|]. by rewrite Ho, decide_True. }
    apply (registry_step _ d s); rewrite ?E; try done.
    - cbn. by rewrite (ro_aliases _ _ Hr).
    - cbn. by rewrite (ro_records _ _ Hr), fmap_insert.
    - intros k v Hk. by left. }
  destruct (decide (nr_owner r = actor)) as [Ho|Ho].
  - rewrite (load_record_of d s), Er by done. cbn [ok_or snd fst]. split; [|done]. split; [done|]. apply Hstep. by left.
  - rewrite Es. destruct (identity_succession_resolve (nr_owner r) s) as [x|e|]; [|done..].
    destruct (decide (x = actor)) as [->|]; [|done]. rewrite (load_record_of d s), Er by done. cbn [ok_or snd fst]. split; [|done].
    split; [done|]. apply Hstep. by right.
Qed.

Lemma delete_sim now name actor p d s : registry_of d s →
  simulates (OpDelete name actor p) d s (redb_ns_op now (OpDelete name actor p) d) ∧
  (mem_ns_ok (OpDelete name actor p) s = true → (redb_ns_op now (OpDelete name actor p) d).2 = Ok ()).
Proof.
  intros Hr. unfold simulates. cbn [redb_ns_op mem_ns_ok]. unfold namespace_delete_impl, namespace_delete, write_txn. run.
  rewrite (alias_uuid_of d s) by done. destruct (ns_aliases s !! alias_key name p) as [u|] eqn:Eu; [|done]. cbn [ok_or].
  rewrite (load_record_of d s) by done. destruct (ns_records s !! u) as [r|] eqn:Er; cbn [ok_or]; [|done].
  destruct (decide (nr_owner r = actor)) as [Ho|Ho]; [|done]. split; [|done]. cbn [snd fst]. split; [done|].
  assert (run_ns_op (OpDelete name actor p) s = set_ns_records (<[u := set_tombstoned r]>)
    (set_ns_aliases (λ m, foldl (λ m k, delete k m) m (delete_keys r)) s)) as E.
  { cbn [run_ns_op]. unfold namespace_delete. run. rewrite Eu. cbn [ok_or]. by rewrite Er; cbn [ok_or]; rewrite decide_True by done. }
  apply (registry_step _ d s); rewrite ?E; try done.
  - cbn. by rewrite (ro_aliases _ _ Hr).
  - cbn. by rewrite (ro_records _ _ Hr), fmap_insert.
  - cbn. intros k v. rewrite foldl_delete_lookup. case_decide; [done|by left].
Qed.

Lemma create_run now ms rnd name owner p d s : registry_of d s → length rnd = 8%nat →
  ns_records s !! ns_uuid (generate ms rnd name) = None →
  match namespace_create_impl now ms rnd name owner p d with
  | (d', Ok ns) => is_ok (namespace_create now ms rnd name owner p s).2 = true ∧ ns = generate ms rnd name ∧
      registry_of d' (namespace_create now ms rnd name owner p s).1
  | (d', Err e) => d' = d ∧ (∃ m, e = SConflict m) ∧ (ns_aliases s !! alias_key name p ≠ None ∨ cross_collision name p d ≠ None)
  | (_, Panic) => False
  end.
Proof.
  intros Hr Hrnd Hf. unfold namespace_create_impl, namespace_create, write_txn. run.
  rewrite (alias_taken_of d s) by done. destruct (bool_decide _) eqn:Et.
  { apply bool_decide_eq_true in Et as [u Et]. split_and!; [done|eauto|left; by rewrite Et]. }
  destruct (cross_collision name p d) as [e|] eqn:Ec.
  { split_and!; [done| |by right]. unfold cross_collision in Ec. destruct p; [destruct (alias_taken _ _); [|done]|].
    - injection Ec as <-. eauto.
    - destruct (head _); [|done]. injection Ec as <-. eauto. }
  split_and!; [done|done|]. cbn [fst]. set (op := OpCreate now ms rnd name owner p).
  assert ((namespace_create now ms rnd name owner p s).1 = run_ns_op op s) as E0 by done.
  unfold namespace_create in E0. run_in E0. rewrite Et in E0. cbn [fst] in E0. rewrite E0.
  apply (registry_step op d s); rewrite <- ?E0; try done.
  - cbn. by rewrite (ro_aliases _ _ Hr).
  - cbn. by rewrite (ro_records _ _ Hr), fmap_insert.
  - cbn. intros k v [[<- <-]|[_ Hl]]%lookup_insert_Some; [right; exact (generate_length ms rnd name Hrnd)|by left].
Qed.

Lemma create_sim now t ms rnd name owner p d s : registry_of d s → length rnd = 8%nat →
  ns_records s !! ns_uuid (generate ms rnd name) = None →
  simulates (OpCreate t ms rnd name owner p) d s (redb_ns_op now (OpCreate t ms rnd name owner p) d) ∧
  simulates (OpResolveOrCreate t ms rnd name owner p) d s (redb_ns_op now (OpResolveOrCreate t ms rnd name owner p) d).
Proof.
  intros Hr Hrnd Hf. pose proof (create_run t ms rnd name owner p d s Hr Hrnd Hf) as Hc. unfold simulates.
  cbn [redb_ns_op mem_ns_ok run_ns_op]. unfold redb_resolve_or_create, namespace_resolve_or_create.
  unfold mbind, M_bind, mret, M_ret. rewrite (resolve_of d s) by done. split.
  - destruct (namespace_create_impl t ms rnd name owner p d) as [d' [ns|e|]]; [|by destruct Hc as [-> _]|done].
    by destruct Hc as (Hm & _ & Hreg).
  - unfold namespace_resolve. destruct (ns_aliases s !! alias_key name p) as [u|] eqn:Eu; cbn [ok_or mbind outcome_bind]; [done|].
    unfold alias_not_found at 1 2 3. destruct (namespace_create_impl t ms rnd name owner p d) as [d' [ns|e|]]; [|..|done].
    + destruct Hc as (Hm & _ & Hreg). cbn [fst snd]. destruct (namespace_create t ms rnd name owner p s) as [s' [x| |]]; done.
    + destruct Hc as (-> & [m ->] & _). rewrite (resolve_of d s) by done. unfold namespace_resolve. rewrite Eu. done.
Qed.
End refinement.

(** * Properties *)

(** C25: the registry in the database implements the registry in memory.  Over
    tables that hold a registry, the reads answer as in memory; a change that
    succeeds is the change the in-memory registry makes, and leaves tables that
    hold the result; one that fails changes nothing; a rename, a new alias, a
    transfer and a deletion succeed exactly when they do in memory; and a creation
    under a free alias succeeds unless the name is taken in the other scope. *)
Theorem redb_namespaces_refine `{RegistryJsonLaws} d s now op
  (Hr : registry_of d s) (Hs : sized op) (Hf : draws_fresh op s) :
  (∀ name p, namespace_resolve_impl name p d = namespace_resolve name p s ∧
     namespace_info_impl name p d = namespace_info name p s ∧
     namespace_exists_impl_v2 name p d = namespace_exists name p s) ∧
  match (redb_ns_op now op d).2 with
  | Ok () => mem_ns_ok op s = true ∧ registry_of (redb_ns_op now op d).1 (run_ns_op op s)
  | _ => (redb_ns_op now op d).1 = d
  end ∧
  match op with
  | OpCreate _ _ _ name _ p => mem_ns_ok op s = true → cross_collision name p d = None → (redb_ns_op now op d).2 = Ok ()
  | OpResolveOrCreate _ _ _ name _ p =>
      is_Some (ns_aliases s !! alias_key name p) ∨ cross_collision name p d = None → (redb_ns_op now op d).2 = Ok ()
  | _ => mem_ns_ok op s = true → (redb_ns_op now op d).2 = Ok ()
  end.
Proof.
  split_and!.
  - intros name p. split_and!; [by apply resolve_of| |unfold namespace_exists_impl_v2; by rewrite (alias_taken_of d s)].
    unfold namespace_info_impl, namespace_info. rewrite (alias_uuid_of d s) by done.
    destruct (ns_aliases s !! alias_key name p) as [u|]; [|done]. cbn [ok_or mbind outcome_bind]. by apply load_record_of.
  - destruct op as [ns|t ms rnd name owner p|t ms rnd name owner p|old new actor p|u alias actor p|u new actor|name actor p]; [done|..].
    + by apply (create_sim now t ms rnd name owner p d s).
    + by apply (create_sim now t ms rnd name owner p d s).
    + by apply rename_sim.
    + by apply add_alias_sim.
    + by apply transfer_sim.
    + by apply delete_sim.
  - destruct op as [ns|t ms rnd name owner p|t ms rnd name owner p|old new actor p|u alias actor p|u new actor|name actor p]; [done|..].
    + pose proof (create_run t ms rnd name owner p d s Hr Hs Hf) as Hc. cbn [redb_ns_op mem_ns_ok]. unfold mbind, M_bind, mret, M_ret.
      intros Hm Hcol. destruct (namespace_create_impl t ms rnd name owner p d) as [d' [ns|e|]]; [done| |done].
      destruct Hc as (_ & _ & [Ht|Ht]); [|done]. exfalso. unfold namespace_create in Hm. run_in Hm.
      by rewrite bool_decide_eq_true_2 in Hm by (by apply not_eq_None_Some).
    + pose proof (create_run t ms rnd name owner p d s Hr Hs Hf) as Hc. cbn [redb_ns_op]. unfold redb_resolve_or_create, mbind, M_bind, mret, M_ret.
      rewrite (resolve_of d s) by done. unfold namespace_resolve. destruct (ns_aliases s !! alias_key name p) as [u|] eqn:Eu; cbn [ok_or mbind outcome_bind]; [done|].
      intros [[? [=]]|Hcol]. unfold alias_not_found at 1. destruct (namespace_create_impl t ms rnd name owner p d) as [d' [ns|e|]]; [done| |done].
      by destruct Hc as (_ & _ & [Ht|Ht]).
    + by apply rename_sim.
    + by apply add_alias_sim.
    + by apply transfer_sim.
    + by apply delete_sim.
Qed.

#[local] Instance ns_record_eq_dec : EqDecision NamespaceRecord.
Proof. solve_decision. Defined.
#[local] Instance ns_record_countable : Countable NamespaceRecord := inj_countable'
  (λ r, (nr_uuid_hex r, nr_owner r, nr_created_at_ms r, nr_protocol r, nr_aliases r, nr_tombstoned r))
  (λ '(a, b, c, d, x, y), mkNsRecord a b c d x y) ltac:(by intros []).
#[local] Instance sample_registry_json : RegistryJson := {|
  record_to_vec r := bits_of (encode r);
  record_from_slice bs := match decode (of_bits bs) with Some r => inl r | None => inr (rs "json") end;
  event_to_vec e := ae_action e |}.
#[local] Instance sample_registry_laws : RegistryJsonLaws.
Proof. split. intros r. cbn. by rewrite of_bits_bits, decode_encode. Qed.

Lemma redb_namespaces_refine_witness :
  ∃ r, namespace_info_impl (rs "app") None
         (redb_ns_op 5 (OpCreate 1 1 (rs "abcdefgh") (rs "app") (rs "alice") None) empty_tables).1 = Ok r ∧ nr_owner r = rs "alice".
Proof.
  set (op := OpCreate 1 1 (rs "abcdefgh") (rs "app") (rs "alice") None).
  destruct (redb_namespaces_refine empty_tables empty_store 5 op) as (_ & Hstep & Hok).
  - split; [reflexivity|symmetry; exact (fmap_empty encode_record)|reflexivity|intros k u Hk; discriminate Hk|intros k u Hk; discriminate Hk].
  - reflexivity.
  - reflexivity.
  - rewrite Hok in Hstep by (vm_compute; reflexivity). destruct Hstep as [_ Hreg].
    destruct (redb_namespaces_refine (redb_ns_op 5 op empty_tables).1 (run_ns_op op empty_store) 6 (OpDelete (rs "x") (rs "y") None) Hreg I I)
      as (Hread & _). destruct (Hread (rs "app") None) as (_ & -> & _). eexists. split; vm_compute; reflexivity.
Defined.

(** A name taken without a protocol blocks the same name of a protocol: the
    scoped name is neither found nor created, though nobody else creates it. *)
Lemma scoped_name_blocked :
  let d := (redb_ns_op 1 (OpCreate 1 1 (rs "abcdefgh") (rs "app") (rs "alice") None) empty_tables).1 in
  redb_resolve_or_create 2 2 (rs "ijklmnop") (rs "app") (rs "bob") (Some (rs "s3")) d = (d, Err (alias_not_found (rs "s3:app"))).
Proof. vm_compute. reflexivity. Qed.
