(* ===== verification/RedbIdentity.v ===== *)
(** RedbIdentity: identity bindings and successions of the persistent store,
    [kappa-store-redb/src/lib.rs], and the credentials of its S3 principals,
    [credentials.rs].

    A binding is a JSON text under its source; a credential is a JSON record
    under its access key, sealed when the tables are encrypted. *)

From S2P Require Import Prelude Label Compute Types Merkle Epoch Identity Store MemStore MemTags MemIdentity MemUpload Gc Http SigV4 S3List Aead RedbTable RedbTags RedbBlob RedbEdge RedbVersions.

(** The derived JSON form of a binding, and [v["target"].as_str()] of a text. *)
Class BindingJson := {
  binding_to_string : IdentityBinding → rstr;
  binding_from_str : rstr → IdentityBinding + rstr;
  json_target : rstr → option rstr;
}.
Class BindingJsonLaws `{BindingJson} : Prop := {
  binding_json_roundtrip : ∀ b, binding_from_str (binding_to_string b) = inl b;
  binding_json_target : ∀ b, json_target (binding_to_string b) = Some (ib_target b);
}.

(** * Bindings *)

Section bindings.
Context `{HashCrates} `{Dcbor} `{!IntoCbor IdentityBinding} `{BindingJson}.

(** The stored texts with a target. *)
Definition has_target (target text : rstr) : bool := bool_decide (json_target text = Some target).

Definition redb_binding_put (binding : IdentityBinding) : M tables rstr :=
  let kappa := kappa_from_value binding in
  let binding_json := binding_to_string binding in
  existing_json ← gets (λ d, head (filter (λ t, has_target (ib_target binding) t = true)
                               (multimap_get (ib_source binding) (t_identity_bindings d))));
  match existing_json with
  | Some old_json =>
      if decide (old_json = binding_json) then mret kappa
      else write_txn (
        _ ← modify (on_identity_bindings (λ m,
              multimap_insert (ib_source binding) binding_json (multimap_remove (ib_source binding) old_json m)));
        mret kappa)
  | None => write_txn (_ ← modify (on_identity_bindings (multimap_insert (ib_source binding) binding_json)); mret kappa)
  end.

(** The texts that parse. *)
Definition parse_bindings (texts : list rstr) : list IdentityBinding :=
  omap (λ t, match binding_from_str t with inl b => Some b | inr _ => None end) texts.

Definition redb_binding_get (subject : rstr) (d : tables) : outcome StoreError (list IdentityBinding) :=
  Ok (parse_bindings (multimap_get subject (t_identity_bindings d))).

Definition redb_binding_delete (subject target : rstr) : M tables () :=
  to_remove ← gets (λ d, filter (λ t, has_target target t = true) (multimap_get subject (t_identity_bindings d)));
  if decide (to_remove = []) then mret ()
  else write_txn (modify (on_identity_bindings (λ m, foldl (λ m t, multimap_remove subject t m) m to_remove))).

Definition redb_binding_list_by_asserter (asserter : rstr) (d : tables) : outcome StoreError (list IdentityBinding) :=
  Ok (concat ((λ kv, filter (λ b, ib_target b = asserter) (parse_bindings (sort_strings (elements kv.2))))
              <$> table_iter (t_identity_bindings d))).
End bindings.

(** * Successions *)

Section successions.
Context `{AeadCrate} `{KeyedHash} `{HashCrates} `{HexDecode} `{ErrorTexts} `{MemoryStoreConfig}.
Context `{Dcbor} `{!IntoCbor IdentitySuccession} `{!IntoCbor Watermark}.
Context (keys : StoreKeys) (rnd : rstr → bytes + rstr).

Definition redb_succession_put (now_ms : Z) (succession : IdentitySuccession) : M pstore rstr :=
  if decide (is_old_anchor succession = is_new_anchor succession)
  then throw (SRejected (rs "cannot succeed to self"))
  else
    let kappa := kappa_from_value succession in
    _ ← on_db (write_txn (modify (on_identity_successions (<[is_old_anchor succession := is_new_anchor succession]>))));
    let wm_bytes := canonical_bytes into_cbor (succession_watermark now_ms succession) in
    let wm_kappa := kappa_from_bytes wm_bytes in
    _ ← ignore (redb_ingest_verified keys rnd wm_kappa wm_bytes);
    let wm_tag := rs "watermark/" ++ wm_kappa in
    _ ← ignore (on_db (tag_set_impl (table_encryptor keys) (is_old_anchor succession) wm_tag wm_kappa));
    mret kappa.
End successions.

(** * Credentials *)

Record Credential := mkCred {
  cd_access_key_id : rstr;
  cd_secret_access_key : rstr;
  cd_previous_secret : option rstr;
  cd_previous_secret_expires_ms : option Z;
  cd_principal_anchor : rstr;
  cd_created_ms : Z;
  cd_active : bool;
}.

Class CredentialJson := {
  credential_to_vec : Credential → bytes;
  credential_from_slice : bytes → Credential + rstr;
}.
Class CredentialJsonLaws `{CredentialJson} : Prop := {
  credential_json_roundtrip : ∀ c, credential_from_slice (credential_to_vec c) = inl c;
}.

(** [str::to_uppercase] of hex digits. *)
Definition upper_byte (b : byte) : byte := if (97 <=? b2z b) && (b2z b <=? 122) then z2b (b2z b - 32) else b.

Section credentials.
Context `{AeadCrate} `{KeyedHash} `{HashCrates} `{ErrorTexts} `{Base64Crate} `{CredentialJson}.
Context (enc : option bytes).

Definition credential_store (cred : Credential) : M tables () :=
  stored ← lift (seal_bytes enc (cd_access_key_id cred) (credential_to_vec cred));
  write_txn (modify (on_credentials (<[cd_access_key_id cred := stored]>))).

Definition credential_load (access_key_id : rstr) (d : tables) : outcome StoreError Credential :=
  raw ← ok_or (t_credentials d !! access_key_id) (SNotFound (rs "credential " ++ access_key_id));
  decrypted ← open_bytes enc access_key_id raw;
  of_sum io_other (credential_from_slice decrypted).

(** The identifier from fifteen random bytes. *)
Definition access_key_of (random : bytes) : rstr := rs "KAPPA" ++ (upper_byte <$> hex_encode (take 10 random)).

(** [key_random] and [secret_random] are what [getrandom] returns. *)
Definition credential_create (now_ms : Z) (key_random secret_random : bytes + rstr) (principal : rstr) : M tables Credential :=
  access_key_bytes ← lift (of_sum io_other key_random);
  secret_bytes ← lift (of_sum io_other secret_random);
  let cred := mkCred (access_key_of access_key_bytes) (base64_encode secret_bytes) None None principal now_ms true in
  _ ← credential_store cred;
  mret cred.

Definition credential_rotate (now_ms : Z) (secret_random : bytes + rstr) (access_key_id : rstr) : M tables Credential :=
  cred ← asks (credential_load access_key_id);
  expires ← lift (add_to u64_max now_ms 300000);
  new_secret_bytes ← lift (of_sum io_other secret_random);
  let cred := mkCred (cd_access_key_id cred) (base64_encode new_secret_bytes) (Some (cd_secret_access_key cred)) (Some expires)
                (cd_principal_anchor cred) (cd_created_ms cred) (cd_active cred) in
  _ ← credential_store cred;
  mret cred.

Definition credential_deactivate (access_key_id : rstr) : M tables () :=
  cred ← asks (credential_load access_key_id);
  credential_store (mkCred (cd_access_key_id cred) (cd_secret_access_key cred) (cd_previous_secret cred)
    (cd_previous_secret_expires_ms cred) (cd_principal_anchor cred) (cd_created_ms cred) false).

Definition lookup_credential (now_ms : Z) (d : tables) (access_key_id : rstr) : option CredentialResult :=
  match credential_load access_key_id d with
  | Ok cred =>
      if negb (cd_active cred) then None
      else
        let previous_secret :=
          match cd_previous_secret cred, cd_previous_secret_expires_ms cred with
          | Some prev, Some expires => if now_ms <=? expires then Some prev else None
          | _, _ => None
          end in
        Some (mkCredential (cd_secret_access_key cred) previous_secret (cd_principal_anchor cred))
  | _ => None
  end.
End credentials.

(** The rows of a table. *)
Lemma elem_of_iter {V} (m : gmap bytes V) k v : (k, v) ∈ table_iter m ↔ m !! k = Some v.
Proof. unfold table_iter. by rewrite elem_of_sort_by, elem_of_map_to_list. Qed.

Lemma remove_all_elem (ts : list rstr) (subject : rstr) m src t :
  t ∈ values_at (foldl (λ m x, multimap_remove subject x m) m ts) src ↔ t ∈ values_at m src ∧ (src = subject → t ∉ ts).
Proof.
  revert m. induction ts as [|x ts IH]; intros m; cbn [foldl]; [set_solver|]. rewrite IH, multimap_remove_elem. set_solver.
Qed.

(** * Bindings in the table *)

Section binding_facts.
Context `{HashCrates} `{Dcbor} `{!IntoCbor IdentityBinding} `{BindingJsonLaws}.

Definition binding_stored (d : tables) (b : IdentityBinding) : Prop :=
  binding_to_string b ∈ values_at (t_identity_bindings d) (ib_source b).

(** Texts are bindings under their source, one for each target. *)
Record bindings_ok (d : tables) : Prop := {
  bk_texts : ∀ src t, t ∈ values_at (t_identity_bindings d) src → ∃ b, t = binding_to_string b ∧ ib_source b = src;
  bk_unique : ∀ b b', binding_stored d b → binding_stored d b' → ib_source b = ib_source b' → ib_target b = ib_target b' → b = b';
}.

Lemma binding_text_inj b b' : binding_to_string b = binding_to_string b' → b = b'.
Proof. intros E. apply (f_equal binding_from_str) in E. rewrite !binding_json_roundtrip in E. by injection E. Qed.

Lemma has_target_text target b : has_target target (binding_to_string b) = true ↔ ib_target b = target.
Proof. unfold has_target. rewrite bool_decide_eq_true, binding_json_target. split; [by intros [=]|by intros ->]. Qed.

Lemma parse_bindings_elem texts b : (∀ t, t ∈ texts → ∃ b, t = binding_to_string b) →
  b ∈ parse_bindings texts ↔ binding_to_string b ∈ texts.
Proof.
  intros Ht. unfold parse_bindings. rewrite list_elem_of_omap. split.
  - intros (t & Hin & E). destruct (Ht t Hin) as [b' ->]. rewrite binding_json_roundtrip in E. by injection E as ->.
  - intros Hin. exists (binding_to_string b). by rewrite binding_json_roundtrip.
Qed.

Lemma binding_get_elem d subject : bindings_ok d →
  ∃ l, redb_binding_get subject d = Ok l ∧ ∀ b, b ∈ l ↔ binding_stored d b ∧ ib_source b = subject.
Proof.
  intros Hok. eexists. split; [done|]. intros b. rewrite parse_bindings_elem.
  - rewrite multimap_get_elem. unfold binding_stored. split; [|by intros [? <-]]. intros Hin.
    destruct (bk_texts _ Hok _ _ Hin) as (b' & E & <-). apply binding_text_inj in E as ->. done.
  - intros t [b' [-> _]]%multimap_get_elem%(bk_texts _ Hok). by exists b'.
Qed.

(** The first stored text with a target, if any, is the only one. *)
Lemma existing_spec d src target : bindings_ok d →
  match head (filter (λ t, has_target target t = true) (multimap_get src (t_identity_bindings d))) with
  | Some t => ∃ b, t = binding_to_string b ∧ binding_stored d b ∧ ib_source b = src ∧ ib_target b = target
  | None => ∀ b, binding_stored d b → ib_source b = src → ib_target b ≠ target
  end.
Proof.
  intros Hok. destruct (filter _ _) as [|t l] eqn:E; cbn [head].
  - intros b Hb <- Ht. assert (binding_to_string b ∈ filter (λ t, has_target target t = true) (multimap_get (ib_source b) (t_identity_bindings d))) as Hin.
    { apply list_elem_of_filter. split; [by apply has_target_text|by apply multimap_get_elem]. }
    rewrite E in Hin. by apply elem_of_nil in Hin.
  - assert (t ∈ filter (λ t, has_target target t = true) (multimap_get src (t_identity_bindings d))) as Hin by (rewrite E; left).
    apply list_elem_of_filter in Hin as [Ht Hin]. apply multimap_get_elem in Hin. destruct (bk_texts _ Hok _ _ Hin) as (b & -> & <-).
    exists b. by rewrite has_target_text in Ht.
Qed.

(** The table after the entry of a source and target was replaced or added. *)
Lemma binding_replaced d d' b : bindings_ok d →
  (∀ src t, t ∈ values_at (t_identity_bindings d') src ↔
     (src = ib_source b ∧ t = binding_to_string b) ∨
     (t ∈ values_at (t_identity_bindings d) src ∧ ∀ b', t = binding_to_string b' → src = ib_source b → ib_target b' ≠ ib_target b)) →
  bindings_ok d' ∧
  ∀ b', binding_stored d' b' ↔ b' = b ∨ (binding_stored d b' ∧ (ib_source b', ib_target b') ≠ (ib_source b, ib_target b)).
Proof.
  intros Hok Hval. assert (∀ b', binding_stored d' b' ↔ b' = b ∨ (binding_stored d b' ∧ (ib_source b', ib_target b') ≠ (ib_source b, ib_target b))) as Hst.
  { intros b'. unfold binding_stored. rewrite Hval. split.
    - intros [[E1 E2%binding_text_inj]|[Hin Hne]]; [by left|right]. split; [done|]. intros [= E1 E2]. by apply (Hne b').
    - intros [->|[Hin Hne]]; [by left|right]. split; [done|]. intros b'' <-%binding_text_inj E1 E2. apply Hne. congruence. }
  split; [|done]. split.
  - intros src t [[-> ->]|[Hin _]]%Hval; [by exists b|by apply (bk_texts _ Hok)].
  - intros b1 b2 H1' H2' Es Et. apply Hst in H1', H2'. destruct H1' as [->|[H1' Hn1]], H2' as [->|[H2' Hn2]].
    + done.
    + destruct Hn2. congruence.
    + destruct Hn1. congruence.
    + by apply (bk_unique _ Hok).
Qed.
Lemma list_by_asserter_elem d asserter : bindings_ok d →
  ∃ l, redb_binding_list_by_asserter asserter d = Ok l ∧ ∀ b, b ∈ l ↔ binding_stored d b ∧ ib_target b = asserter.
Proof.
  intros Hok. eexists. split; [done|]. intros b. rewrite list_elem_of_In, in_concat. split.
  - intros (l & (kv & -> & Hkv)%list_elem_of_In%list_elem_of_fmap & [Ht Hb]%list_elem_of_In%list_elem_of_filter).
    split; [|done]. destruct kv as [src ts]. apply elem_of_iter in Hkv. apply parse_bindings_elem in Hb.
    + unfold sort_strings in Hb. rewrite elem_of_sort_by, elem_of_elements in Hb. cbn in Hb.
      assert (binding_to_string b ∈ values_at (t_identity_bindings d) src) as Hin by (unfold values_at; by rewrite Hkv).
      destruct (bk_texts _ Hok _ _ Hin) as (b' & E & <-). by apply binding_text_inj in E as ->.
    + intros t Hin. unfold sort_strings in Hin. rewrite elem_of_sort_by, elem_of_elements in Hin. cbn in Hin.
      destruct (bk_texts _ Hok src t) as (b' & -> & _); [unfold values_at; by rewrite Hkv|by exists b'].
  - intros [Hb Ht]. unfold binding_stored, values_at in Hb. destruct (t_identity_bindings d !! ib_source b) as [ts|] eqn:E; [|cbn in Hb; set_solver].
    exists (filter (λ b, ib_target b = asserter) (parse_bindings (sort_strings (elements ts)))). split.
    + apply list_elem_of_In, list_elem_of_fmap. exists (ib_source b, ts). split; [done|]. by apply elem_of_iter.
    + apply list_elem_of_In, list_elem_of_filter. split; [done|]. apply parse_bindings_elem; unfold sort_strings.
      * intros t. rewrite elem_of_sort_by, elem_of_elements. intros Hin.
         destruct (bk_texts _ Hok (ib_source b) t) as (b' & -> & _); [unfold values_at; by rewrite E|by exists b'].
      * by rewrite elem_of_sort_by, elem_of_elements.
Qed.

(** A stored text's binding has the source it is under. *)
Lemma stored_source d src b : bindings_ok d → binding_to_string b ∈ values_at (t_identity_bindings d) src →
  ib_source b = src ∧ binding_stored d b.
Proof. intros Hok Hin. destruct (bk_texts _ Hok _ _ Hin) as (b' & ->%binding_text_inj & <-). done. Qed.

Lemma binding_put_run d b : bindings_ok d →
  ∃ d', redb_binding_put b d = (d', Ok (kappa_from_value b)) ∧ bindings_ok d' ∧
    ∀ b', binding_stored d' b' ↔ b' = b ∨ (binding_stored d b' ∧ (ib_source b', ib_target b') ≠ (ib_source b, ib_target b)).
Proof.
  intros Hok. unfold redb_binding_put. run. pose proof (existing_spec d (ib_source b) (ib_target b) Hok) as Hex.
  destruct (head _) as [old|].
  - destruct Hex as (b0 & -> & Hst & Hs & Ht). case_decide as E.
    + apply binding_text_inj in E as ->. exists d. split_and!; [done|done|]. intros b'. split.
      * intros Hb'. destruct (decide (b' = b)) as [->|Hne]; [by left|right]. split; [done|]. intros [= E1 E2]. apply Hne.
         by apply (bk_unique _ Hok).
      * by intros [->|[? _]].
    + eexists. split; [done|]. apply (binding_replaced d); [done|]. intros src t. cbn [t_identity_bindings on_identity_bindings].
      rewrite multimap_insert_elem, multimap_remove_elem. apply or_iff_compat_l. split.
      * intros [Hin Hne]. split; [done|]. intros b' -> ->. intros Et. apply Hne. split; [done|]. f_equal.
         destruct (stored_source _ _ _ Hok Hin) as [Hs' Hst']. apply (bk_unique _ Hok); [done|done|by rewrite Hs'|by rewrite Ht].
      * intros [Hin Hne]. split; [done|]. intros [-> ->]. by apply (Hne b0).
  - eexists. split; [done|]. apply (binding_replaced d); [done|]. intros src t. cbn [t_identity_bindings on_identity_bindings].
    rewrite multimap_insert_elem. apply or_iff_compat_l. split; [|tauto]. intros Hin. split; [done|]. intros b' -> ->.
    destruct (stored_source _ _ _ Hok Hin) as [Hs' Hst']. by apply Hex.
Qed.

Lemma binding_delete_run d subject target : bindings_ok d →
  ∃ d', redb_binding_delete subject target d = (d', Ok ()) ∧ bindings_ok d' ∧
    ∀ b', binding_stored d' b' ↔ binding_stored d b' ∧ (ib_source b', ib_target b') ≠ (subject, target).
Proof.
  intros Hok. unfold redb_binding_delete. run. set (ts := filter _ _).
  assert (∀ b, binding_to_string b ∈ ts ↔ ib_target b = target ∧ binding_to_string b ∈ values_at (t_identity_bindings d) subject) as Hts.
  { intros b. unfold ts. by rewrite list_elem_of_filter, has_target_text, multimap_get_elem. }
  assert (∃ d', (if decide (ts = []) then λ d, (d, Ok ())
      else write_txn (λ d, (on_identity_bindings (λ m, foldl (λ m t, multimap_remove subject t m) m ts) d, Ok ()))) d = (d', Ok ()) ∧
    ∀ src t, t ∈ values_at (t_identity_bindings d') src ↔ t ∈ values_at (t_identity_bindings d) src ∧ (src = subject → t ∉ ts)) as (d' & E & Hv).
  { case_decide as E; [exists d; split; [done|]; rewrite E; set_solver|]. eexists. split; [done|]. intros src t. apply remove_all_elem. }
  exists d'. split; [exact E|]. assert (∀ b', binding_stored d' b' ↔ binding_stored d b' ∧ (ib_source b', ib_target b') ≠ (subject, target)) as Hst.
  { intros b'. unfold binding_stored. rewrite Hv. split; intros [Hin Hne]; (split; [done|]).
    - intros [= <- Et]. by apply Hne, Hts.
    - intros Es [Et _]%Hts. apply Hne. by rewrite Es, Et. }
  split; [|done]. split.
  - intros src t [Hin _]%Hv. by apply (bk_texts _ Hok).
  - intros b1 b2 [H1' _]%Hst [H2' _]%Hst. by apply (bk_unique _ Hok).
Qed.
End binding_facts.

(** * Properties *)

(** Identity bindings in the database.  A put stores the binding, in place of
    the one of the same source and target if there is one, and leaves the others;
    the bindings of a subject are exactly the stored ones with that source, those
    of an asserter the stored ones with that target; a delete removes the binding
    of a subject and target and no other. *)
Theorem redb_bindings_correct `{HashCrates} `{Dcbor} `{!IntoCbor IdentityBinding} `{BindingJsonLaws} d (Hok : bindings_ok d) :
  (∀ subject, ∃ l, redb_binding_get subject d = Ok l ∧ ∀ b, b ∈ l ↔ binding_stored d b ∧ ib_source b = subject) ∧
  (∀ asserter, ∃ l, redb_binding_list_by_asserter asserter d = Ok l ∧ ∀ b, b ∈ l ↔ binding_stored d b ∧ ib_target b = asserter) ∧
  (∀ b, ∃ d', redb_binding_put b d = (d', Ok (kappa_from_value b)) ∧ bindings_ok d' ∧
     ∀ b', binding_stored d' b' ↔ b' = b ∨ (binding_stored d b' ∧ (ib_source b', ib_target b') ≠ (ib_source b, ib_target b))) ∧
  (∀ subject target, ∃ d', redb_binding_delete subject target d = (d', Ok ()) ∧ bindings_ok d' ∧
     ∀ b', binding_stored d' b' ↔ binding_stored d b' ∧ (ib_source b', ib_target b') ≠ (subject, target)).
Proof.
  split_and!.
  - intros subject. by apply binding_get_elem.
  - intros asserter. by apply list_by_asserter_elem.
  - intros b. by apply binding_put_run.
  - intros subject target. by apply binding_delete_run.
Qed.

(** A credential the cipher can seal. *)
Definition small `{CredentialJson} (c : Credential) : Prop := zlen (credential_to_vec c) ≤ gcm_limit.

(** The life of an access key.  A credential that was created is found with
    its secret and principal and no previous secret; after a rotation the new
    secret is current, and the old one is accepted for five minutes and no longer;
    a deactivated credential is not found; and no other access key is affected.
    This holds with and without encryption of the tables. *)
Theorem credential_lifecycle `{AeadLaws} `{KeyedHashLaws} `{HashCratesLaws} `{ErrorTexts} `{Base64Crate} `{CredentialJsonLaws}
  enc d :
  (∀ now key_random secret_random principal,
     let c := mkCred (access_key_of key_random) (base64_encode secret_random) None None principal now true in
     small c → ∃ d', credential_create enc now (inl key_random) (inl secret_random) principal d = (d', Ok c) ∧
     (∀ t, lookup_credential enc t d' (access_key_of key_random) = Some (mkCredential (base64_encode secret_random) None principal)) ∧
     (∀ t k, k ≠ access_key_of key_random → lookup_credential enc t d' k = lookup_credential enc t d k)) ∧
  (∀ c, credential_load enc (cd_access_key_id c) d = Ok c →
     (∀ now secret_random, 0 ≤ now → now + 300000 ≤ u64_max →
        let c' := mkCred (cd_access_key_id c) (base64_encode secret_random) (Some (cd_secret_access_key c)) (Some (now + 300000))
                    (cd_principal_anchor c) (cd_created_ms c) (cd_active c) in
        small c' → ∃ d', credential_rotate enc now (inl secret_random) (cd_access_key_id c) d = (d', Ok c') ∧
        (∀ t, cd_active c = true → lookup_credential enc t d' (cd_access_key_id c)
              = Some (mkCredential (base64_encode secret_random) (if t <=? now + 300000 then Some (cd_secret_access_key c) else None)
                        (cd_principal_anchor c))) ∧
        (∀ t k, k ≠ cd_access_key_id c → lookup_credential enc t d' k = lookup_credential enc t d k)) ∧
     let c' := mkCred (cd_access_key_id c) (cd_secret_access_key c) (cd_previous_secret c) (cd_previous_secret_expires_ms c)
                 (cd_principal_anchor c) (cd_created_ms c) false in
     (small c' → ∃ d', credential_deactivate enc (cd_access_key_id c) d = (d', Ok ()) ∧
       (∀ t, lookup_credential enc t d' (cd_access_key_id c) = None) ∧
       (∀ t k, k ≠ cd_access_key_id c → lookup_credential enc t d' k = lookup_credential enc t d k))).
Proof.
  assert (∀ c, small c → ∃ d', credential_store enc c d = (d', Ok ()) ∧ credential_load enc (cd_access_key_id c) d' = Ok c ∧
    ∀ t k, k ≠ cd_access_key_id c → lookup_credential enc t d' k = lookup_credential enc t d k) as Hstore.
  { intros c Hsmall. unfold credential_store. run. destruct (seal_open_bytes enc (cd_access_key_id c) (credential_to_vec c) Hsmall) as (raw & -> & Ho).
    eexists. split; [done|]. split.
    - unfold credential_load. cbn. rewrite lookup_insert_eq. cbn. rewrite Ho. cbn. by rewrite credential_json_roundtrip.
    - intros t k Hne. unfold lookup_credential, credential_load. cbn. by rewrite lookup_insert_ne. }
  split.
  - intros now kr sr principal c Hsmall. unfold credential_create. run. cbn [of_sum]. fold c.
    destruct (Hstore c Hsmall) as (d' & -> & Hl & Ho). exists d'. split_and!; [done| |done].
    intros t. unfold lookup_credential. change (access_key_of kr) with (cd_access_key_id c). by rewrite Hl.
  - intros c Hc. split.
    + intros now sr Hnow Hmax c' Hsmall. unfold credential_rotate. run. rewrite Hc. unfold add_to. rewrite (proj2 (Z.ltb_ge _ _)) by lia. cbn [of_sum].
      fold c'. destruct (Hstore c' Hsmall) as (d' & -> & Hl & Ho). exists d'. split_and!; [done| |done].
      intros t Ha. unfold lookup_credential. change (cd_access_key_id c) with (cd_access_key_id c'). rewrite Hl. cbn. by rewrite Ha.
    + intros c' Hsmall. unfold credential_deactivate. run. rewrite Hc. fold c'. destruct (Hstore c' Hsmall) as (d' & -> & Hl & Ho).
      exists d'. split_and!; [done| |done]. intros t. unfold lookup_credential. change (cd_access_key_id c) with (cd_access_key_id c'). by rewrite Hl.
Qed.

#[local] Instance credential_eq_dec : EqDecision Credential.
Proof. solve_decision. Defined.
#[local] Instance credential_countable : Countable Credential := inj_countable'
  (λ c, (cd_access_key_id c, cd_secret_access_key c, cd_previous_secret c, cd_previous_secret_expires_ms c, cd_principal_anchor c,
         cd_created_ms c, cd_active c))
  (λ '(a, b, c, d, x, y, z), mkCred a b c d x y z) ltac:(by intros []).
#[local] Instance sample_credential_json : CredentialJson := {|
  credential_to_vec c := bits_of (encode c);
  credential_from_slice bs := match decode (of_bits bs) with Some c => inl c | None => inr (rs "json") end |}.
#[local] Instance sample_credential_laws : CredentialJsonLaws.
Proof. split. intros c. cbn. by rewrite of_bits_bits, decode_encode. Qed.
#[local] Instance sample_base64 : Base64Crate := {| base64_encode b := b; base64_decode s := Some s |}.

Lemma credential_lifecycle_witness :
  ∃ d' c, credential_create (Some (repeat x02 32)) 5 (inl (repeat x0a 15)) (inl (repeat x0b 30)) (rs "alice") empty_tables = (d', Ok c) ∧
    lookup_credential (Some (repeat x02 32)) 6 d' (cd_access_key_id c) = Some (mkCredential (repeat x0b 30) None (rs "alice")).
Proof.
  destruct (credential_lifecycle (Some (repeat x02 32)) empty_tables) as [Hc _].
  destruct (Hc 5 (repeat x0a 15) (repeat x0b 30) (rs "alice")) as (d' & E & Hl & _).
  - vm_compute. discriminate.
  - eexists d', _. split; [exact E|apply Hl].
Defined.

Definition text_binding (t : rstr) : IdentityBinding := Identity.mkBinding t t t 0 0.

#[local] Instance binding_countable : Countable IdentityBinding := inj_countable'
  (λ b, (ib_source b, ib_target b, ib_method b, ib_trust_level b, ib_verified_at_ms b))
  (λ '(a, b, c, d, x), Identity.mkBinding a b c d x) ltac:(by intros []).
#[local] Instance sample_binding_json : BindingJson := {|
  binding_to_string b := bits_of (encode b);
  binding_from_str bs := match decode (of_bits bs) with Some b => inl b | None => inr (rs "json") end;
  json_target bs := ib_target <$> decode (A := IdentityBinding) (of_bits bs) |}.
#[local] Instance sample_binding_laws : BindingJsonLaws.
Proof. split; intros b; cbn; by rewrite of_bits_bits, decode_encode. Qed.
#[local] Instance binding_cbor : IntoCbor IdentityBinding := λ b, SText (ib_target b).

Lemma redb_bindings_correct_witness :
  ∃ d', redb_binding_put (text_binding (rs "a")) empty_tables = (d', Ok (kappa_from_value (text_binding (rs "a")))) ∧
    ∃ l, redb_binding_get (rs "a") d' = Ok l ∧ text_binding (rs "a") ∈ l.
Proof.
  assert (bindings_ok empty_tables) as Hok.
  { split; [intros src t Ht; exfalso; unfold values_at in Ht; cbn in Ht; rewrite lookup_empty in Ht; by apply elem_of_empty in Ht|].
    intros b b' Hb. exfalso. unfold binding_stored, values_at in Hb. cbn in Hb. rewrite lookup_empty in Hb. by apply elem_of_empty in Hb. }
  destruct (redb_bindings_correct empty_tables Hok) as (_ & _ & Hput & _). destruct (Hput (text_binding (rs "a"))) as (d' & E & Hok' & Hst).
  exists d'. split; [exact E|]. destruct (redb_bindings_correct d' Hok') as (Hget & _). destruct (Hget (rs "a")) as (l & El & Hl).
  exists l. split; [exact El|]. apply Hl. split; [apply Hst; left; reflexivity|reflexivity].
Defined.
