(* ===== verification/NixRefs.v ===== *)
(** NixRefs: reference scanning and verification of Nix archives,
    [kappa-module-nix/src/refs.rs].

    A scan finds exactly the candidates that stand in the data; a scan in chunks
    finds the same ones when every chunk between the first and the last is at
    least as long as the tail that is kept, and misses a hash that is spread over
    shorter ones.  Verification accepts an archive when it decompresses to
    something with the claimed hash in which every claimed reference stands. *)

From S2P Require Import Prelude Label Compute Types Store MemUpload Http Text Tid.

(** * The [nix_derivation] crate *)

Class NixCrates := {
  StorePath : Type;
  (** [StorePath::from_str], the text of its error, [Display] and [digest]. *)
  store_path_from_str : rstr → StorePath + rstr;
  store_path_display : StorePath → rstr;
  store_path_digest : StorePath → bytes;
  (** [nixbase32::encode]. *)
  nixbase32_encode : bytes → rstr;
  (** [NixHash::parse]: only whether it fails, and the text of its error, is used. *)
  nix_hash_parse : rstr → () + rstr;
}.

(** A store path reads back from what it prints, which is made of the characters
    the path grammar allows. *)
Class NixCratesLaws `{NixCrates} : Prop := {
  store_path_roundtrip : ∀ p, store_path_from_str (store_path_display p) = inl p;
  store_path_graphic : ∀ p, forallb (λ b, graphic b && negb (bool_decide (b ∈ rs ";,"))) (store_path_display p) = true;
}.

Definition STORE_PATH_HASH_LEN : nat := 32.

Inductive VerifyError :=
| NarHashMismatch (expected computed : rstr)
| ReferencesMismatch (narinfo scanned : list rstr)
| Decompression (e : rstr).

(** [b'0'..=b'9' | b'a'..=b'd' | b'f'..=b'n' | b'p'..=b's' | b'v'..=b'z']. *)
Definition is_nixbase32_byte (b : byte) : bool :=
  in_range 0x30 0x39 b || in_range 0x61 0x64 b || in_range 0x66 0x6E b || in_range 0x70 0x73 b || in_range 0x76 0x7A b.

(** * Scanning *)

(** One turn of the loop: the first byte, the last byte, then the whole window. *)
Definition scan_window (candidate_set : gset rstr) (data : bytes) (found : gset rstr) (window_start : nat) : gset rstr :=
  if negb (default false (is_nixbase32_byte <$> data !! window_start)) then found
  else
    let window := slice data window_start (window_start + STORE_PATH_HASH_LEN) in
    if negb (default false (is_nixbase32_byte <$> window !! (STORE_PATH_HASH_LEN - 1)%nat)) then found
    else if utf8_valid window && bool_decide (window ∈ candidate_set) then {[ window ]} ∪ found
    else found.

(** The set is emptied into a vector in some order, which is then sorted. *)
Definition scan_references (data : bytes) (candidates : list rstr) : list rstr :=
  if bool_decide (candidates = []) || (length data <? STORE_PATH_HASH_LEN)%nat then []
  else
    let found := foldl (scan_window (list_to_set candidates) data) ∅ (seq 0 (S (length data - STORE_PATH_HASH_LEN))) in
    sort_strings (elements found).

Definition scan_references_chunked (chunk tail : bytes) (candidates : list rstr) : list rstr * bytes :=
  let overlap_found :=
    if negb (bool_decide (tail = [])) && negb (bool_decide (chunk = [])) then
      let overlap_take := Nat.min (STORE_PATH_HASH_LEN - 1) (length chunk) in
      scan_references (tail ++ take overlap_take chunk) candidates
    else [] in
  let main_found := scan_references chunk candidates in
  let main_found := sort_dedup (main_found ++ overlap_found) in
  let new_tail_start := (length chunk - (STORE_PATH_HASH_LEN - 1))%nat in
  (main_found, drop new_tail_start chunk).

(** * Verification of an archive *)

Section verify.
Context `{HashCrates} `{TransferCrates} `{NixCrates}.

Definition decompress (data : bytes) (compression : rstr) : outcome VerifyError bytes :=
  let read (name : rstr) (r : bytes + rstr) :=
    match r with inl out => Ok out | inr e => Err (Decompression (name ++ rs ": " ++ e)) end in
  if decide (compression = rs "none") then Ok data
  else if decide (compression = rs "zstd") then read (rs "zstd") (zstd_decode_all data)
  else if decide (compression = rs "xz" ∨ compression = rs "lzma") then read (rs "xz") (xz_read_to_end data)
  else if decide (compression = rs "bzip2") then read (rs "bzip2") (bz_read_to_end data)
  else Err (Decompression (rs "unsupported compression: " ++ compression)).

(** The hash part of a base name, [{hash}-{name}]; the slice of the string panics
    inside a character. *)
Definition reference_hash (basename : rstr) : outcome VerifyError (option rstr) :=
  if (STORE_PATH_HASH_LEN <? length basename)%nat && bool_decide (basename !! STORE_PATH_HASH_LEN = Some x2d) then
    if is_char_boundary basename STORE_PATH_HASH_LEN then Ok (Some (take STORE_PATH_HASH_LEN basename)) else Panic
  else Ok None.

Fixpoint claimed_hashes (claimed_references : list rstr) : outcome VerifyError (list rstr) :=
  match claimed_references with
  | [] => Ok []
  | basename :: rest =>
      h ← reference_hash basename;
      hs ← claimed_hashes rest;
      Ok (match h with Some h => h :: hs | None => hs end)
  end.

Definition nar_hash_of (nar : bytes) : rstr := rs "sha256:" ++ nixbase32_encode (sha256_digest nar).

Definition decompress_and_verify (compressed_data : bytes) (compression expected_nar_hash : rstr)
  (claimed_references : list rstr) : outcome VerifyError () :=
  decompressed ← decompress compressed_data compression;
  let computed_hash := nar_hash_of decompressed in
  if negb (bool_decide (computed_hash = expected_nar_hash)) then Err (NarHashMismatch expected_nar_hash computed_hash)
  else
    claimed ← claimed_hashes claimed_references;
    let claimed := sort_dedup claimed in
    let scanned := scan_references decompressed claimed in
    if forallb (λ c, bool_decide (c ∈ scanned)) claimed then Ok ()
    else Err (ReferencesMismatch claimed scanned).
End verify.

(** * What a scan finds *)

(** A text the scanner can recognise. *)
Definition scannable (h : rstr) : Prop :=
  length h = STORE_PATH_HASH_LEN ∧ utf8_valid h = true ∧
  default false (is_nixbase32_byte <$> h !! 0%nat) = true ∧ default false (is_nixbase32_byte <$> h !! 31%nat) = true.

(** The text stands in the data. *)
Definition stands_in (h data : bytes) : Prop := ∃ pre post, data = pre ++ h ++ post.

#[local] Instance scannable_dec h : Decision (scannable h).
Proof. unfold scannable. apply _. Defined.

Lemma slice_stands (h data : bytes) : length h = STORE_PATH_HASH_LEN →
  stands_in h data ↔ ∃ i, (i + STORE_PATH_HASH_LEN ≤ length data)%nat ∧ slice data i (i + STORE_PATH_HASH_LEN) = h.
Proof.
  intros Hl. split.
  - intros (pre & post & ->). exists (length pre). rewrite !length_app. split; [lia|]. apply slice_app; lia.
  - intros (i & Hi & <-). exists (take i data), (drop (i + STORE_PATH_HASH_LEN) data). unfold slice.
    replace (i + STORE_PATH_HASH_LEN - i)%nat with STORE_PATH_HASH_LEN by lia.
    rewrite <- drop_drop, take_drop, take_drop. done.
Qed.

(** One turn adds the window when it is a candidate the scanner can recognise. *)
Lemma elem_of_scan_window cands data found i h : (i + STORE_PATH_HASH_LEN ≤ length data)%nat →
  h ∈ scan_window cands data found i ↔
  h ∈ found ∨ (h = slice data i (i + STORE_PATH_HASH_LEN) ∧ h ∈ cands ∧ scannable h).
Proof.
  intros Hi. set (w := slice data i (i + STORE_PATH_HASH_LEN)).
  assert (length w = STORE_PATH_HASH_LEN) as Hw
    by (subst w; unfold slice; rewrite length_take, length_drop; lia).
  assert (w !! 0%nat = data !! i) as H0.
  { subst w. unfold slice. rewrite lookup_take_lt by (unfold STORE_PATH_HASH_LEN; lia). rewrite lookup_drop. f_equal. lia. }
  unfold scan_window. fold w. rewrite <- H0.
  destruct (default false (is_nixbase32_byte <$> w !! 0%nat)) eqn:E0; cbn [negb].
  2: { unfold scannable. split; [by left|]. intros [?|(-> & _ & _ & _ & ? & _)]; [done|congruence]. }
  change (STORE_PATH_HASH_LEN - 1)%nat with 31%nat.
  destruct (default false (is_nixbase32_byte <$> w !! 31%nat)) eqn:E1; cbn [negb].
  2: { unfold scannable. split; [by left|]. intros [?|(-> & _ & _ & _ & _ & ?)]; [done|congruence]. }
  destruct (utf8_valid w) eqn:Eu; cbn [andb].
  2: { unfold scannable. split; [by left|]. intros [?|(-> & _ & _ & ? & _)]; [done|congruence]. }
  case_bool_decide as Hc.
  - unfold scannable. rewrite elem_of_union, elem_of_singleton. split.
    + intros [->|]; [right|by left]. done.
    + intros [|(-> & _)]; [by right|by left].
  - split; [by left|]. intros [|(-> & ? & _)]; done.
Qed.

Lemma elem_of_scan_fold cands data idxs found h : Forall (λ i, (i + STORE_PATH_HASH_LEN ≤ length data)%nat) idxs →
  h ∈ foldl (scan_window cands data) found idxs ↔
  h ∈ found ∨ ∃ i, i ∈ idxs ∧ h = slice data i (i + STORE_PATH_HASH_LEN) ∧ h ∈ cands ∧ scannable h.
Proof.
  intros Hall. revert found. induction Hall as [|i idxs Hi _ IH]; intros found; cbn [foldl].
  - split; [by left|]. intros [|(i & Hi & _)]; [done|]. by apply not_elem_of_nil in Hi.
  - rewrite IH, elem_of_scan_window by done. set_solver.
Qed.

(** A scan finds the candidates that stand in the data, and nothing else. *)
Lemma elem_of_scan data cands h :
  h ∈ scan_references data cands ↔ h ∈ cands ∧ scannable h ∧ stands_in h data.
Proof.
  unfold scan_references. destruct (_ || _) eqn:E.
  - split; [intros Hin; by apply not_elem_of_nil in Hin|]. intros (Hc & [Hl _] & pre & post & ->).
    rewrite !length_app, Hl in E. apply orb_true_iff in E as [->%bool_decide_eq_true|E%Nat.ltb_lt]; [set_solver|lia].
  - apply orb_false_iff in E as [_ E%Nat.ltb_ge]. unfold sort_strings. rewrite elem_of_sort_by, elem_of_elements.
    rewrite elem_of_scan_fold by (apply Forall_forall; intros i Hi%elem_of_seq; lia). rewrite elem_of_empty.
    split.
    + intros [[]|(i & Hi%elem_of_seq & Hh & Hc & Hs)]. rewrite elem_of_list_to_set in Hc. split_and!; [done..|].
      apply slice_stands; [by destruct Hs|]. exists i. split; [lia|done].
    + intros (Hc & Hs & Hst). right. destruct (proj1 (slice_stands h data (proj1 Hs)) Hst) as (i & Hi & <-).
      exists i. rewrite elem_of_seq, elem_of_list_to_set. split_and!; [lia|lia|done..].
Qed.

Lemma scan_references_sorted data cands :
  StronglySorted bytes_le (scan_references data cands) ∧ NoDup (scan_references data cands).
Proof.
  unfold scan_references. case_match; [split; constructor|]. split; [apply sort_strings_sorted|].
  unfold sort_strings. rewrite sort_by_perm. apply NoDup_elements.
Qed.

(** * Scanning in chunks *)

Lemma stands_in_app h a b c : stands_in h b → stands_in h (a ++ b ++ c).
Proof. intros (pre & post & ->). exists (a ++ pre), (post ++ c). by rewrite <- !app_assoc. Qed.

Lemma app_cases {A} (a b c d : list A) : a ++ b = c ++ d →
  (∃ k, a = c ++ k ∧ d = k ++ b) ∨ (∃ k, c = a ++ k ∧ b = k ++ d).
Proof.
  revert c. induction a as [|x a IH]; intros c E; [right; by exists c|].
  destruct c as [|y c]; [left; by exists (x :: a)|]. injection E as -> E.
  destruct (IH c E) as [(k & -> & ->)|(k & -> & ->)]; [left|right]; by exists k.
Qed.

(** A hash that begins in the tail and ends in the chunk ends in the part of the
    chunk that is scanned with the tail. *)
Lemma stands_overlap h tail chunk : length h = STORE_PATH_HASH_LEN → (length tail ≤ 31)%nat →
  stands_in h (tail ++ chunk) → stands_in h (tail ++ take 31 chunk) ∨ stands_in h chunk.
Proof.
  unfold STORE_PATH_HASH_LEN. intros Hl Ht (pre & post & E).
  destruct (app_cases tail chunk pre (h ++ post) E) as [(k & -> & E2)|(k & -> & ->)]; [|right; by exists k, post].
  rewrite length_app in Ht.
  destruct (app_cases h post k chunk E2) as [(h' & -> & ->)|(k' & Hk & _)].
  - destruct (decide (k = [])) as [->|Hne]; [right; by exists [], post|left].
    assert (0 < length k)%nat by (destruct k; [done|cbn; lia]). rewrite length_app in Hl.
    exists pre, (take (31 - length h') post). rewrite take_app_ge by lia. by rewrite <- !app_assoc.
  - apply (f_equal length) in Hk. rewrite length_app in Hk. lia.
Qed.

(** A hash that ends behind a chunk begins in the tail that is kept of it. *)
Lemma stands_later h x c y : length h = STORE_PATH_HASH_LEN → x = [] ∨ (31 ≤ length c)%nat →
  stands_in h (x ++ c ++ y) → stands_in h (x ++ c) ∨ stands_in h (drop (length c - 31) c ++ y).
Proof.
  unfold STORE_PATH_HASH_LEN. intros Hl Hc (pre & post & E). rewrite !app_assoc in E.
  destruct (app_cases (x ++ c) y (pre ++ h) post E) as [(k & E2 & _)|(k & E2 & ->)].
  { left. exists pre, k. by rewrite app_assoc. }
  destruct (decide (k = [])) as [->|Hk]; [left; exists pre, []; rewrite !app_nil_r in *; done|].
  assert (0 < length k)%nat by (destruct k; [done|cbn; lia]).
  right. set (t := drop (length c - 31) c).
  rewrite <- (take_drop (length c - 31) c) in E2. fold t in E2. rewrite <- !app_assoc in E2.
  assert (∃ p, t ++ k = p ++ h) as [p Hp].
  { destruct (app_cases pre h (x ++ take (length c - 31) c) (t ++ k)) as [(j & -> & Hj)|(j & Hj & Hh)].
    - by rewrite E2, <- app_assoc.
    - by exists j.
    - destruct j as [|b j]; [by exists []|exfalso].
      apply (f_equal length) in Hh. rewrite !length_app in Hh. cbn in Hh. subst t. rewrite length_drop in Hh.
      destruct Hc as [->|]; [|lia]. apply (f_equal length) in Hj. rewrite !length_app, length_take in Hj. cbn in Hj. lia. }
  exists p, post. rewrite !app_assoc. by rewrite Hp.
Qed.

(** A stream is scanned by handing each call the tail of the one before. *)
Fixpoint scan_stream (chunks : list bytes) (tail : bytes) (candidates : list rstr) : list rstr :=
  match chunks with
  | [] => []
  | chunk :: rest =>
      let '(found, tail) := scan_references_chunked chunk tail candidates in
      found ++ scan_stream rest tail candidates
  end.

Lemma elem_of_scan_chunk chunk tail cands h : (length tail ≤ 31)%nat →
  h ∈ (scan_references_chunked chunk tail cands).1 ↔ h ∈ cands ∧ scannable h ∧ stands_in h (tail ++ chunk).
Proof.
  intros Ht. unfold scan_references_chunked. cbn [fst]. rewrite elem_of_sort_dedup, elem_of_app, elem_of_scan.
  change (STORE_PATH_HASH_LEN - 1)%nat with 31%nat.
  assert (take (31 `min` length chunk) chunk = take 31 chunk) as ->.
  { destruct (Nat.min_spec 31 (length chunk)) as [[_ ->]|[Hge ->]]; [done|]. rewrite !take_ge by lia. done. }
  split.
  - intros [(Hc & Hs & Hst)|Hin].
    + split_and!; [done..|]. apply (stands_in_app h tail _ []) in Hst. by rewrite app_nil_r in Hst.
    + case_match; [|by apply not_elem_of_nil in Hin]. apply elem_of_scan in Hin as (Hc & Hs & Hst).
      split_and!; [done..|]. apply (stands_in_app h [] _ (drop 31 chunk)) in Hst.
      cbn in Hst. by rewrite <- app_assoc, take_drop in Hst.
  - intros (Hc & Hs & Hst). destruct (stands_overlap h tail chunk (proj1 Hs) Ht Hst) as [Ho|]; [|by left].
    destruct (decide (tail = [])) as [->|Hnt]; [left; split_and!; done|].
    destruct (decide (chunk = [])) as [->|Hnc]; [|right].
    + exfalso. destruct Ho as (pre & post & E). apply (f_equal length) in E. destruct Hs as [Hl _]. unfold STORE_PATH_HASH_LEN in Hl.
      rewrite !length_app, Hl, take_nil in E. cbn in E. lia.
    + rewrite !bool_decide_eq_false_2 by done. cbn [negb andb]. by apply elem_of_scan.
Qed.

(** Middle chunks as long as the tail leave no gap. *)
Fixpoint no_gap (tail : bytes) (chunks : list bytes) : Prop :=
  match chunks with
  | c :: (_ :: _) as rest => (tail = [] ∨ (31 ≤ length c)%nat) ∧ no_gap (drop (length c - 31) c) rest
  | _ => True
  end.

Lemma elem_of_scan_stream chunks tail cands h : (length tail ≤ 31)%nat → no_gap tail chunks →
  h ∈ scan_stream chunks tail cands ↔ h ∈ cands ∧ scannable h ∧ stands_in h (tail ++ concat chunks).
Proof.
  revert tail. induction chunks as [|c cs IH]; intros tail Ht Hgap; cbn [scan_stream concat].
  - split; [intros Hin; by apply not_elem_of_nil in Hin|]. intros (_ & [Hl _] & pre & post & E). exfalso.
    apply (f_equal length) in E. unfold STORE_PATH_HASH_LEN in Hl. rewrite !length_app, Hl in E. cbn in E. lia.
  - assert (no_gap (drop (length c - 31) c) cs ∧ (cs = [] ∨ tail = [] ∨ (31 ≤ length c)%nat)) as [Hrest Hc].
    { destruct cs as [|c' cs]; [by split; [|left]|]. destruct Hgap as [Hg1 Hg2]. split; [done|by right]. }
    destruct (scan_references_chunked c tail cands) as [found t'] eqn:E.
    assert (t' = drop (length c - 31) c) as -> by (unfold scan_references_chunked in E; by simplify_eq).
    rewrite elem_of_app, IH by (try rewrite length_drop; first [done|lia]).
    pose proof (elem_of_scan_chunk c tail cands h Ht) as Hf. rewrite E in Hf. cbn [fst] in Hf. rewrite Hf. split.
    + intros [(H1 & H2 & H3)|(H1 & H2 & H3)]; split_and!; try done.
      * apply (stands_in_app h [] _ (concat cs)) in H3. cbn in H3. by rewrite <- app_assoc in H3.
      * apply (stands_in_app h (tail ++ take (length c - 31) c) _ []) in H3. rewrite app_nil_r, <- app_assoc in H3.
        rewrite (app_assoc (take _ _)), take_drop in H3. done.
    + intros (H1 & H2 & H3). destruct Hc as [->|Hc].
      * left. rewrite app_nil_r in H3. done.
      * destruct (stands_later h tail c (concat cs) (proj1 H2) Hc H3); [left|right]; done.
Qed.

(** A scan finds exactly the candidate hashes that stand in the data, each once
    and in order; and a stream scanned in chunks yields the same ones as the whole
    of it, provided each chunk between the first and the last has at least the 31
    bytes that are kept of a chunk for the next call. *)
Theorem scan_finds_references (data : bytes) (candidates : list rstr) (first last : bytes) (middle : list bytes) :
  Forall (λ c, (31 ≤ length c)%nat) middle → data = concat (first :: middle ++ [last]) →
  (∀ h, h ∈ scan_references data candidates ↔ h ∈ candidates ∧ scannable h ∧ stands_in h data) ∧
  StronglySorted bytes_le (scan_references data candidates) ∧ NoDup (scan_references data candidates) ∧
  (∀ h, h ∈ scan_stream (first :: middle ++ [last]) [] candidates ↔ h ∈ scan_references data candidates).
Proof.
  intros Hm ->. split; [intros h; apply elem_of_scan|].
  destruct (scan_references_sorted (concat (first :: middle ++ [last])) candidates) as [H1 H2]. split_and!; [done..|].
  intros h. rewrite elem_of_scan, elem_of_scan_stream; [done|cbn; lia|].
  assert (∀ t, no_gap t (middle ++ [last])) as Hmid.
  { clear H1 H2. induction Hm as [|c cs Hc _ IH]; intros t; [done|]. cbn [app no_gap].
    destruct (cs ++ [last]) eqn:Ecs; [done|]. split; [by right|apply IH]. }
  specialize (Hmid (drop (length first - 31) first)). cbn [no_gap]. destruct (middle ++ [last]); [done|]. split; [by left|done].
Qed.

Definition sample_hash : rstr := rs "r5sjd57x0r07bwgipryaxqdkx1gglhiy".

(** A hash cut in two is found, and one that is cut in three by a short chunk is missed. *)
Example scan_finds_references_witness :
  scan_references (rs "prefix" ++ sample_hash ++ rs "suffix") [sample_hash] = [sample_hash] ∧
  sample_hash ∈ scan_stream [rs "prefix" ++ take 16 sample_hash; drop 16 sample_hash ++ rs "suffix"] [] [sample_hash].
Proof.
  split; [vm_compute; reflexivity|].
  apply (scan_finds_references (rs "prefix" ++ sample_hash ++ rs "suffix") [sample_hash]
    (rs "prefix" ++ take 16 sample_hash) (drop 16 sample_hash ++ rs "suffix") []); [constructor|vm_compute; reflexivity|].
  vm_compute. constructor.
Defined.

Example short_chunk_hides_reference :
  let chunks := [take 10 sample_hash; slice sample_hash 10 20; drop 20 sample_hash] in
  concat chunks = sample_hash ∧ scan_references (concat chunks) [sample_hash] = [sample_hash] ∧
  scan_stream chunks [] [sample_hash] = [].
Proof. by vm_compute. Qed.

(** * Verification *)

(** The hash part of a reference. *)
Definition hash_part (basename : rstr) : option rstr :=
  if (STORE_PATH_HASH_LEN <? length basename)%nat && bool_decide (basename !! STORE_PATH_HASH_LEN = Some x2d)
  then Some (take STORE_PATH_HASH_LEN basename) else None.

(** The slice ends before a dash, so it never cuts a character. *)
Lemma reference_hash_ok basename : reference_hash basename = Ok (hash_part basename).
Proof.
  unfold reference_hash, hash_part. destruct (_ && _) eqn:E; [|done].
  apply andb_true_iff in E as [_ E%bool_decide_eq_true]. unfold is_char_boundary. by rewrite E.
Qed.

Lemma claimed_hashes_ok refs : claimed_hashes refs = Ok (omap hash_part refs).
Proof.
  induction refs as [|r refs IH]; [done|]. cbn [claimed_hashes]. rewrite reference_hash_ok, IH. osimpl.
  cbn. by destruct (hash_part r).
Qed.

Section verify_laws.
Context `{HashCrates} `{TransferCrates} `{NixCrates}.

(** Verification accepts an archive exactly when it decompresses to content with
    the claimed hash in which every claimed reference stands; it never panics; and
    what it reports otherwise says which of these failed.  References that stand in
    the content and are not claimed are not looked for. *)
Theorem nar_verification (data : bytes) (compression expected : rstr) (refs : list rstr) :
  (decompress_and_verify data compression expected refs = Ok () ↔
    ∃ nar, decompress data compression = Ok nar ∧ nar_hash_of nar = expected ∧
      ∀ r h, r ∈ refs → hash_part r = Some h → scannable h ∧ stands_in h nar) ∧
  match decompress_and_verify data compression expected refs with
  | Ok () => True
  | Err (Decompression e) => decompress data compression = Err (Decompression e)
  | Err (NarHashMismatch e c) =>
      e = expected ∧ c ≠ expected ∧ ∃ nar, decompress data compression = Ok nar ∧ c = nar_hash_of nar
  | Err (ReferencesMismatch claimed scanned) => ∃ r h, r ∈ refs ∧ hash_part r = Some h ∧ h ∈ claimed ∧ h ∉ scanned
  | Panic => False
  end.
Proof.
  unfold decompress_and_verify.
  assert (decompress data compression ≠ Panic ∧ ∀ e, decompress data compression = Err e → ∃ t, e = Decompression t) as [Hp He].
  { unfold decompress. repeat case_match; split; try done; intros ? [= <-]; eauto. }
  destruct (decompress data compression) as [nar|e|]; osimpl; [|destruct (He e eq_refl) as [t ->]; naive_solver|done].
  case_bool_decide as Hh; cbn [negb]; [|naive_solver].
  rewrite claimed_hashes_ok. osimpl. destruct (forallb _ _) eqn:Ef.
  - split; [|done]. split; [intros _|done]. exists nar. split_and!; [done..|]. intros r h Hr Hrh.
    rewrite forallb_forall in Ef. assert (h ∈ sort_dedup (omap hash_part refs)) as Hin
      by (apply elem_of_sort_dedup, list_elem_of_omap; eauto).
    apply list_elem_of_In, Ef, bool_decide_eq_true, elem_of_scan in Hin. naive_solver.
  - assert (∃ h, h ∈ sort_dedup (omap hash_part refs) ∧ h ∉ scan_references nar (sort_dedup (omap hash_part refs))) as (h & Hc & Hs).
    { apply not_true_iff_false in Ef. rewrite forallb_forall in Ef.
      destruct (decide (Exists (λ h, h ∉ scan_references nar (sort_dedup (omap hash_part refs))) (sort_dedup (omap hash_part refs)))) as [Hx|Hx].
      - apply Exists_exists in Hx. naive_solver.
      - destruct Ef. intros x Hx2%list_elem_of_In. apply bool_decide_eq_true. destruct (decide (x ∈ scan_references nar (sort_dedup (omap hash_part refs)))); [done|].
        destruct Hx. apply Exists_exists. eauto. }
    assert (∃ r, r ∈ refs ∧ hash_part r = Some h) as (r & Hr & Hrh) by (by apply elem_of_sort_dedup, list_elem_of_omap in Hc).
    split; [|by exists r, h]. split; [done|]. intros (nar' & [= <-] & _ & Hall). destruct (Hall r h Hr Hrh).
    destruct Hs. apply elem_of_scan. naive_solver.
Qed.
End verify_laws.
