(* ===== verification/NixInfo.v ===== *)
(** NixInfo: the narinfo text of the Nix binary cache, [kappa-module-nix/src/narinfo.rs],
    and its keys and signatures, [kappa-module-nix/src/sign.rs].

    A well-formed narinfo reads back from the text written for it, and whatever a
    text without carriage returns parses to is well-formed.  The fingerprint that
    is signed determines the signed fields when no reference has a comma in it. *)

From S2P Require Import Prelude Label Compute Types Store MemUpload Http Text Tid NixRefs.

Inductive NarInfoError :=
| MissingField (f : rstr)
| InvalidStorePath (e : rstr)
| InvalidHash (e : rstr)
| InvalidNarSize (e : rstr)
| InvalidFileSize (e : rstr)
| DuplicateField (f : rstr)
| NarInfoParse (e : rstr).

(** [s.parse::<u64>()] with the text of its error. *)
Fixpoint parse_digits_err (acc : Z) (s : rstr) : Z + rstr :=
  match s with
  | [] => inl acc
  | b :: s =>
      match digit_val b with
      | None => inr (rs "invalid digit found in string")
      | Some d =>
          let acc := acc * 10 + d in
          if u64_max <? acc then inr (rs "number too large to fit in target type") else parse_digits_err acc s
      end
  end.
Definition parse_u64_err (s : rstr) : Z + rstr :=
  match s with
  | [] => inr (rs "cannot parse integer from empty string")
  | b :: rest =>
      if decide (b = PLUS) then
        match rest with [] => inr (rs "invalid digit found in string") | _ => parse_digits_err 0 rest end
      else parse_digits_err 0 s
  end.

Definition NEWLINE : byte := x0a.
Definition RETURN : byte := x0d.
Definition SPACE : byte := x20.

(** [text.lines()]: a line ends at a newline, with a carriage return before it
    taken off; what follows the last newline is a line unless it is empty. *)
Definition strip_return (s : rstr) : rstr := default s (strip_suffix [RETURN] s).
Fixpoint lines_go (cur s : rstr) : list rstr :=
  match s with
  | [] => if decide (cur = []) then [] else [cur]
  | b :: s => if decide (b = NEWLINE) then strip_return cur :: lines_go [] s else lines_go (cur ++ [b]) s
  end.
Definition str_lines (s : rstr) : list rstr := lines_go [] s.

(** [&s[i..]]. *)
Definition str_from {E} (s : rstr) (i : nat) : outcome E rstr :=
  if (i <=? length s)%nat && is_char_boundary s i then Ok (drop i s) else Panic.

Section narinfo.
Context `{NixCrates}.

Record NarInfo := mkNarInfo {
  ni_store_path : StorePath;
  ni_url : rstr;
  ni_compression : rstr;
  ni_file_hash : option rstr;
  ni_file_size : option Z;
  ni_nar_hash : rstr;
  ni_nar_size : Z;
  ni_references : list rstr;
  ni_deriver : option rstr;
  ni_signatures : list rstr;
  ni_ca : option rstr;
}.

(** The local variables of the parser. *)
Record NarFields := mkNarFields {
  nf_store_path : option StorePath;
  nf_url : option rstr;
  nf_compression : option rstr;
  nf_file_hash : option rstr;
  nf_file_size : option Z;
  nf_nar_hash : option rstr;
  nf_nar_size : Z;
  nf_references : option (list rstr);
  nf_deriver : option rstr;
  nf_signatures : list rstr;
  nf_ca : option rstr;
}.
Definition nar_fields0 : NarFields := mkNarFields None None None None None None 0 None None [] None.

(** The value of a line: after the colon and one more character, or what little
    there is after the colon. *)
Definition line_value (line : rstr) (colon_pos : nat) : outcome NarInfoError rstr :=
  if (colon_pos + 2 <? length line)%nat then str_from line (colon_pos + 2)
  else if (colon_pos + 1 <? length line)%nat then
    v ← str_from line (colon_pos + 1); Ok (str_trim_start (length v) v)
  else Ok [].

Definition of_result {A} (f : rstr → NarInfoError) (r : A + rstr) : outcome NarInfoError A :=
  match r with inl a => Ok a | inr e => Err (f e) end.

Definition set_field (f : NarFields) (key value : rstr) : outcome NarInfoError NarFields :=
  let '(mkNarFields sp url comp fh fsz nh nsz refs der sigs ca) := f in
  if decide (key = rs "StorePath") then
    p ← of_result InvalidStorePath (store_path_from_str value);
    Ok (mkNarFields (Some p) url comp fh fsz nh nsz refs der sigs ca)
  else if decide (key = rs "URL") then Ok (mkNarFields sp (Some value) comp fh fsz nh nsz refs der sigs ca)
  else if decide (key = rs "Compression") then
    let comp := Some (if decide (value = []) then rs "bzip2" else value) in
    Ok (mkNarFields sp url comp fh fsz nh nsz refs der sigs ca)
  else if decide (key = rs "FileHash") then
    _ ← of_result InvalidHash (nix_hash_parse value);
    Ok (mkNarFields sp url comp (Some value) fsz nh nsz refs der sigs ca)
  else if decide (key = rs "FileSize") then
    n ← of_result InvalidFileSize (parse_u64_err value);
    Ok (mkNarFields sp url comp fh (Some n) nh nsz refs der sigs ca)
  else if decide (key = rs "NarHash") then
    _ ← of_result InvalidHash (nix_hash_parse value);
    Ok (mkNarFields sp url comp fh fsz (Some value) nsz refs der sigs ca)
  else if decide (key = rs "NarSize") then
    n ← of_result InvalidNarSize (parse_u64_err value);
    Ok (mkNarFields sp url comp fh fsz nh n refs der sigs ca)
  else if decide (key = rs "References") then
    match refs with
    | Some _ => Err (DuplicateField (rs "References"))
    | None =>
        let refs := if decide (value = []) then [] else split_on SPACE [] value in
        Ok (mkNarFields sp url comp fh fsz nh nsz (Some refs) der sigs ca)
    end
  else if decide (key = rs "Deriver") then
    let der := if decide (value = rs "unknown-deriver") then None else Some value in
    Ok (mkNarFields sp url comp fh fsz nh nsz refs der sigs ca)
  else if decide (key = rs "Sig") then Ok (mkNarFields sp url comp fh fsz nh nsz refs der (sigs ++ [value]) ca)
  else if decide (key = rs "CA") then
    match ca with
    | Some _ => Err (DuplicateField (rs "CA"))
    | None => Ok (mkNarFields sp url comp fh fsz nh nsz refs der sigs (Some value))
    end
  else Ok f.

Fixpoint parse_lines (f : NarFields) (lines : list rstr) : outcome NarInfoError NarFields :=
  match lines with
  | [] => Ok f
  | line :: rest =>
      if decide (line = []) then parse_lines f rest
      else match find_char COLON line with
           | None => Err (NarInfoParse (rs "no colon in line: " ++ line))
           | Some colon_pos =>
               value ← line_value line colon_pos;
               f ← set_field f (take colon_pos line) value;
               parse_lines f rest
           end
  end.

Definition finish_fields (f : NarFields) : outcome NarInfoError NarInfo :=
  let compression := default (rs "bzip2") (nf_compression f) in
  let references := default [] (nf_references f) in
  store_path ← ok_or (nf_store_path f) (MissingField (rs "StorePath"));
  nar_hash ← ok_or (nf_nar_hash f) (MissingField (rs "NarHash"));
  url ← ok_or (nf_url f) (MissingField (rs "URL"));
  if decide (url = []) then Err (MissingField (rs "URL"))
  else if nf_nar_size f =? 0 then Err (MissingField (rs "NarSize"))
  else Ok (mkNarInfo store_path url compression (nf_file_hash f) (nf_file_size f) nar_hash (nf_nar_size f)
             references (nf_deriver f) (nf_signatures f) (nf_ca f)).

Definition parse_narinfo (text : rstr) : outcome NarInfoError NarInfo :=
  f ← parse_lines nar_fields0 (str_lines text);
  finish_fields f.

(** One field of the output. *)
Definition info_line (key : string) (value : rstr) : rstr := rs key ++ rs ": " ++ value ++ [NEWLINE].
Definition opt_line (key : string) (value : option rstr) : rstr :=
  match value with Some v => info_line key v | None => [] end.

Definition to_narinfo_string (n : NarInfo) : rstr :=
  info_line "StorePath" (store_path_display (ni_store_path n))
  ++ info_line "URL" (ni_url n)
  ++ info_line "Compression" (ni_compression n)
  ++ opt_line "FileHash" (ni_file_hash n)
  ++ opt_line "FileSize" (dec <$> ni_file_size n)
  ++ info_line "NarHash" (ni_nar_hash n)
  ++ info_line "NarSize" (dec (ni_nar_size n))
  ++ info_line "References" (join [SPACE] (ni_references n))
  ++ opt_line "Deriver" (ni_deriver n)
  ++ concat (info_line "Sig" <$> ni_signatures n)
  ++ opt_line "CA" (ni_ca n).

Definition fingerprint (n : NarInfo) : rstr :=
  let refs_full := (λ basename, rs "/nix/store/" ++ basename) <$> ni_references n in
  rs "1;" ++ store_path_display (ni_store_path n) ++ rs ";" ++ ni_nar_hash n ++ rs ";" ++ dec (ni_nar_size n)
  ++ rs ";" ++ join (rs ",") refs_full.

Definition store_path_hash (n : NarInfo) : rstr := nixbase32_encode (store_path_digest (ni_store_path n)).
End narinfo.

(** * Keys and signatures *)

(** [base64::engine::general_purpose::STANDARD], with the text of a decoding error. *)
Class Base64Standard := {
  std_encode : bytes → rstr;
  std_decode : rstr → bytes + rstr;
}.
Class Base64StandardLaws `{Base64Standard} : Prop := std_decode_encode : ∀ b, std_decode (std_encode b) = inl b.

Inductive SignError :=
| InvalidKeyFormat
| Base64Error (e : rstr)
| WrongKeyLength (expected got : Z).

Section keys.
Context `{Base64Standard}.

Definition decode_base64 (encoded : rstr) : outcome SignError bytes :=
  match std_decode encoded with inl b => Ok b | inr e => Err (Base64Error e) end.

Definition parse_nix_key (key_str : rstr) : outcome SignError (rstr * bytes) :=
  '(name, encoded) ← ok_or (split_once COLON key_str) InvalidKeyFormat;
  b ← decode_base64 encoded;
  Ok (name, b).

(** [try_into::<[u8; n]>()]. *)
Definition exactly (n : nat) (b : bytes) : outcome SignError bytes :=
  if decide (length b = n) then Ok b else Err (WrongKeyLength (Z.of_nat n) (zlen b)).

Definition parse_public_key (key_str : rstr) : outcome SignError (rstr * bytes) :=
  '(name, b) ← parse_nix_key key_str;
  key ← exactly 32 b;
  Ok (name, key).

Definition parse_secret_key (key_str : rstr) : outcome SignError (rstr * bytes) :=
  '(name, b) ← parse_nix_key key_str;
  key ← exactly 64 b;
  Ok (name, key).

Definition secret_key_seed (secret_key : bytes) : bytes := take 32 secret_key.

Definition format_signature (key_name : rstr) (signature_bytes : bytes) : rstr :=
  key_name ++ [COLON] ++ std_encode signature_bytes.

Definition parse_signature (sig_field : rstr) : outcome SignError (rstr * bytes) :=
  '(name, encoded) ← ok_or (split_once COLON sig_field) InvalidKeyFormat;
  b ← decode_base64 encoded;
  sig ← exactly 64 b;
  Ok (name, sig).
End keys.

(** * Lines *)

(** What a line of the text can hold as its value: it begins a character, has no
    newline in it and no carriage return at its end. *)
Definition value_ok (v : rstr) : Prop :=
  default true ((λ b, negb (in_range 0x80 0xBF b)) <$> head v) = true ∧ NEWLINE ∉ v ∧ last v ≠ Some RETURN.

Definition key_ok (key : string) : bool :=
  negb (bool_decide (rs key = [])) && forallb (λ b, negb (bool_decide (b ∈ [COLON; NEWLINE]))) (rs key).

Lemma key_ok_spec key : key_ok key = true → rs key ≠ [] ∧ COLON ∉ rs key ∧ NEWLINE ∉ rs key.
Proof.
  unfold key_ok. rewrite andb_true_iff, negb_true_iff, bool_decide_eq_false, forallb_forall. intros [Hne Hall].
  split_and!; [done|intros Hin%list_elem_of_In%Hall; by vm_compute in Hin..].
Qed.

Lemma lines_go_app cur line rest : NEWLINE ∉ line →
  lines_go cur (line ++ NEWLINE :: rest) = strip_return (cur ++ line) :: lines_go [] rest.
Proof.
  revert cur. induction line as [|b line IH]; intros cur Hn; cbn [app lines_go].
  - by rewrite decide_True, app_nil_r.
  - rewrite decide_False by set_solver. rewrite IH by set_solver. by rewrite <- app_assoc.
Qed.

Lemma strip_return_none s : last s ≠ Some RETURN → strip_return s = s.
Proof.
  intros Hl. unfold strip_return, strip_suffix, ends_with. case_bool_decide as E; [|done].
  destruct E as [k ->]. by rewrite last_snoc in Hl.
Qed.

Lemma is_char_boundary_app a b : is_char_boundary (a ++ b) (length a) = default true ((λ c, negb (in_range 0x80 0xBF c)) <$> head b).
Proof.
  unfold is_char_boundary. destruct b as [|c b]; cbn.
  - rewrite app_nil_r, lookup_ge_None_2 by lia. apply Nat.eqb_refl.
  - by rewrite list_lookup_middle.
Qed.

Lemma str_from_app {E} a b : default true ((λ c, negb (in_range 0x80 0xBF c)) <$> head b) = true →
  str_from (E := E) (a ++ b) (length a) = Ok b.
Proof.
  intros Hb. unfold str_from. rewrite is_char_boundary_app, Hb, drop_app_length.
  by rewrite (proj2 (Nat.leb_le _ _)) by (rewrite length_app; lia).
Qed.

Section reading.
Context `{NixCrates}.

(** A line written for a key and a value is read as that key and that value. *)
Lemma parse_info_line f key v rest : key_ok key = true → value_ok v →
  parse_lines f (str_lines (info_line key v ++ rest))
  = (f ← set_field f (rs key) v; parse_lines f (str_lines rest)).
Proof.
  intros (Hne & Hc & Hn)%key_ok_spec (Hh & Hv & Hr). unfold str_lines, info_line.
  replace ((rs key ++ rs ": " ++ v ++ [NEWLINE]) ++ rest) with ((rs key ++ COLON :: SPACE :: v) ++ NEWLINE :: rest)
    by (by rewrite <- !app_assoc).
  rewrite lines_go_app by (rewrite elem_of_app; set_solver). cbn [app]. rewrite strip_return_none.
  2: { rewrite last_app. destruct v as [|b v _] using rev_ind; [done|].
       change (COLON :: SPACE :: v ++ [b]) with ((COLON :: SPACE :: v) ++ [b]). rewrite last_snoc. by rewrite last_snoc in Hr. }
  cbn [parse_lines]. rewrite decide_False by (destruct (rs key); done). rewrite find_char_app by done. rewrite take_app_length.
  assert (line_value (rs key ++ COLON :: SPACE :: v) (length (rs key)) = Ok v) as ->; [|done].
  unfold line_value. rewrite length_app. cbn [length]. destruct v as [|b v].
  - rewrite (proj2 (Nat.ltb_ge _ _)) by (cbn; lia). rewrite (proj2 (Nat.ltb_lt _ _)) by (cbn; lia).
    change (COLON :: [SPACE]) with ([COLON] ++ [SPACE]). rewrite app_assoc.
    replace (length (rs key) + 1)%nat with (length (rs key ++ [COLON])) by (rewrite length_app; done).
    rewrite str_from_app by done. done.
  - rewrite (proj2 (Nat.ltb_lt _ _)) by (cbn; lia). change (COLON :: SPACE :: b :: v) with ([COLON; SPACE] ++ b :: v). rewrite app_assoc.
    replace (length (rs key) + 2)%nat with (length (rs key ++ [COLON; SPACE])) by (rewrite length_app; done).
    by rewrite str_from_app.
Qed.

(** The same for a field that may be absent. *)
Lemma parse_opt_line f key v rest : key_ok key = true → (∀ x, v = Some x → value_ok x) →
  parse_lines f (str_lines (opt_line key v ++ rest))
  = (f ← (match v with Some x => set_field f (rs key) x | None => Ok f end); parse_lines f (str_lines rest)).
Proof. intros Hk Hv. destruct v as [x|]; [|done]. cbn [opt_line]. by apply parse_info_line; [|apply Hv]. Qed.

Lemma parse_sig_lines sp url comp fh fsz nh nsz refs der sigs0 ca sigs rest : Forall value_ok sigs →
  parse_lines (mkNarFields sp url comp fh fsz nh nsz refs der sigs0 ca) (str_lines (concat (info_line "Sig" <$> sigs) ++ rest))
  = parse_lines (mkNarFields sp url comp fh fsz nh nsz refs der (sigs0 ++ sigs) ca) (str_lines rest).
Proof.
  intros Hs. revert sigs0. induction Hs as [|v sigs Hv _ IH]; intros sigs0; [by rewrite app_nil_r|].
  cbn [fmap list_fmap concat]. rewrite <- app_assoc, parse_info_line by done.
  change (set_field _ (rs "Sig") v) with (Ok (E := NarInfoError) (mkNarFields sp url comp fh fsz nh nsz refs der (sigs0 ++ [v]) ca)).
  osimpl. rewrite IH. by rewrite <- app_assoc.
Qed.
End reading.

(** * Numbers and lists in a line *)

Lemma parse_digits_err_ok acc s n : parse_digits_err acc s = inl n ↔ parse_digits acc s = Some n.
Proof.
  revert acc. induction s as [|b s IH]; intros acc; cbn [parse_digits_err parse_digits]; [naive_solver|].
  destruct (digit_val b); cbn [mbind option_bind]; [|done]. case_match; [done|apply IH].
Qed.

Lemma parse_u64_err_ok s n : parse_u64_err s = inl n ↔ parse_u64 s = Some n.
Proof.
  unfold parse_u64_err, parse_u64. destruct s as [|b s]; [by rewrite decide_True|].
  case_decide; [|rewrite decide_False by done; apply parse_digits_err_ok].
  destruct s; [by rewrite decide_True|]. rewrite decide_False by done. apply parse_digits_err_ok.
Qed.

Lemma parse_digits_range acc s n : 0 ≤ acc ≤ u64_max → parse_digits acc s = Some n → 0 ≤ n ≤ u64_max.
Proof.
  revert acc. induction s as [|b s IH]; intros acc Ha; cbn [parse_digits]; [naive_solver|].
  unfold digit_val, in_range. case_match eqn:Eb; cbn [mbind option_bind]; [|done].
  apply andb_true_iff in Eb as [E1%Z.leb_le E2%Z.leb_le]. case_match eqn:El; [done|]. apply Z.ltb_ge in El.
  apply IH. lia.
Qed.

Lemma parse_u64_err_range s n : parse_u64_err s = inl n → 0 ≤ n ≤ u64_max.
Proof.
  intros E%parse_u64_err_ok. unfold parse_u64 in E. repeat case_match; simplify_eq;
    (eapply parse_digits_range; [|done]; unfold u64_max; lia).
Qed.

Lemma dec_value_ok n : 0 ≤ n → value_ok (dec n).
Proof.
  intros Hn. pose proof (dec_digits n Hn) as Hd. rewrite forallb_forall in Hd. split_and!.
  - destruct (dec n) as [|b l]; [done|]. assert (in_range 48 57 b = true) as Hb by (apply Hd; by left). cbn.
    revert Hb. unfold in_range. rewrite !andb_true_iff, !Z.leb_le, negb_true_iff, andb_false_iff, !Z.leb_gt. lia.
  - intros Hin%list_elem_of_In%Hd. done.
  - intros Hl. apply last_Some_elem_of, list_elem_of_In, Hd in Hl. done.
Qed.

Lemma split_on_join c l : l ≠ [] → Forall (λ x, c ∉ x) l → split_on c [] (join [c] l) = l.
Proof.
  intros Hne Hl. induction Hl as [|x l Hx Hl IH]; [done|]. destruct l as [|y l]; [by apply split_on_none|].
  change (join [c] (x :: y :: l)) with (x ++ c :: join [c] (y :: l)). rewrite split_on_app by done. cbn [app]. f_equal.
  by apply IH.
Qed.

Lemma join_nil c l : join [c] l = [] ↔ l = [] ∨ l = [[]].
Proof. destruct l as [|x [|y l]]; cbn; [naive_solver..|]. split; [by destruct x|naive_solver]. Qed.

(** * Writing and reading back *)

Section roundtrip.
Context `{NixCratesLaws}.

(** What a narinfo must satisfy to be told apart from others by its text. *)
Record narinfo_wf (n : NarInfo) : Prop := {
  nw_url : ni_url n ≠ [] ∧ value_ok (ni_url n);
  nw_compression : ni_compression n ≠ [] ∧ value_ok (ni_compression n);
  nw_file_hash : ∀ h, ni_file_hash n = Some h → value_ok h ∧ nix_hash_parse h = inl ();
  nw_file_size : ∀ z, ni_file_size n = Some z → 0 ≤ z ≤ u64_max;
  nw_nar_hash : value_ok (ni_nar_hash n) ∧ nix_hash_parse (ni_nar_hash n) = inl ();
  nw_nar_size : 0 < ni_nar_size n ≤ u64_max;
  nw_references : ni_references n ≠ [[]] ∧ Forall (λ r, SPACE ∉ r) (ni_references n)
    ∧ value_ok (join [SPACE] (ni_references n));
  nw_deriver : ∀ d, ni_deriver n = Some d → value_ok d ∧ d ≠ rs "unknown-deriver";
  nw_signatures : Forall value_ok (ni_signatures n);
  nw_ca : ∀ c, ni_ca n = Some c → value_ok c;
}.

Lemma graphic_value_ok s : forallb graphic s = true → value_ok s.
Proof.
  rewrite forallb_forall. intros Hs. assert (∀ b, b ∈ s → graphic b = true) as Hg by (intros b Hb%list_elem_of_In; auto).
  split_and!.
  - destruct s as [|b s]; [done|]. specialize (Hg b ltac:(by left)). cbn. revert Hg. unfold graphic, in_range.
    rewrite !andb_true_iff, !Z.leb_le, negb_true_iff, andb_false_iff, !Z.leb_gt. lia.
  - intros Hin%Hg. done.
  - intros Hl%last_Some_elem_of%Hg. done.
Qed.

Lemma store_path_value_ok p : value_ok (store_path_display p).
Proof.
  apply graphic_value_ok, forallb_forall. intros b Hb. pose proof (store_path_graphic p) as Hg. rewrite forallb_forall in Hg.
  by apply Hg, andb_true_iff in Hb as [? _].
Qed.

Lemma references_read refs : refs ≠ [[]] → Forall (λ r, SPACE ∉ r) refs →
  (if decide (join [SPACE] refs = []) then [] else split_on SPACE [] (join [SPACE] refs)) = refs.
Proof.
  intros Hne Hall. case_decide as E; [apply join_nil in E as [->|]; done|]. apply split_on_join; [|done]. by intros ->.
Qed.

(** Find the branch of a literal key. *)
Ltac pick_field := unfold set_field at 1; repeat rewrite decide_False by discriminate;
  rewrite (decide_True (P := _ = _)) by reflexivity.
(** Step over the line of one field. *)
Ltac take_line Hv := rewrite parse_info_line by first [reflexivity|exact Hv]; pick_field.

Section optional.
Context (sp : option StorePath) (url comp nh : option rstr) (nsz : Z) (refs : option (list rstr)) (sigs : list rstr).

Lemma set_file_hash fh fsz der ca : (∀ x, fh = Some x → value_ok x ∧ nix_hash_parse x = inl ()) →
  (match fh with Some x => set_field (mkNarFields sp url comp None fsz nh nsz refs der sigs ca) (rs "FileHash") x
   | None => Ok (mkNarFields sp url comp None fsz nh nsz refs der sigs ca) end)
  = Ok (mkNarFields sp url comp fh fsz nh nsz refs der sigs ca).
Proof. intros Hx. destruct fh as [x|]; [|done]. pick_field. by destruct (Hx x eq_refl) as [_ ->]. Qed.

Lemma set_file_size fh fsz der ca : (∀ z, fsz = Some z → 0 ≤ z ≤ u64_max) →
  (match dec <$> fsz with Some x => set_field (mkNarFields sp url comp fh None nh nsz refs der sigs ca) (rs "FileSize") x
   | None => Ok (mkNarFields sp url comp fh None nh nsz refs der sigs ca) end)
  = Ok (mkNarFields sp url comp fh fsz nh nsz refs der sigs ca).
Proof.
  intros Hx. destruct fsz as [z|]; [|done]. cbn [fmap option_fmap option_map]. pick_field.
  by rewrite (proj2 (parse_u64_err_ok _ z)) by (by apply parse_u64_dec, Hx).
Qed.

Lemma set_deriver fh fsz der ca : (∀ d, der = Some d → value_ok d ∧ d ≠ rs "unknown-deriver") →
  (match der with Some x => set_field (mkNarFields sp url comp fh fsz nh nsz refs None sigs ca) (rs "Deriver") x
   | None => Ok (mkNarFields sp url comp fh fsz nh nsz refs None sigs ca) end)
  = Ok (mkNarFields sp url comp fh fsz nh nsz refs der sigs ca).
Proof. intros Hx. destruct der as [x|]; [|done]. pick_field. destruct (Hx x eq_refl). by rewrite decide_False. Qed.

Lemma set_ca fh fsz der ca :
  (match ca with Some x => set_field (mkNarFields sp url comp fh fsz nh nsz refs der sigs None) (rs "CA") x
   | None => Ok (mkNarFields sp url comp fh fsz nh nsz refs der sigs None) end)
  = Ok (mkNarFields sp url comp fh fsz nh nsz refs der sigs ca).
Proof. destruct ca as [x|]; [|done]. by pick_field. Qed.
End optional.

Lemma narinfo_read_back (n : NarInfo) : narinfo_wf n → parse_narinfo (to_narinfo_string n) = Ok n.
Proof.
  destruct n as [sp url comp fh fsz nh nsz refs der sigs ca]. unfold parse_narinfo, to_narinfo_string, nar_fields0.
  intros [[Hu1 Hu2] [Hc1 Hc2] Hfh Hfs [Hn1 Hn2] Hns (Hr1 & Hr2 & Hr3) Hd Hsg Hca].
  cbn [ni_store_path ni_url ni_compression ni_file_hash ni_file_size ni_nar_hash ni_nar_size ni_references ni_deriver ni_signatures ni_ca] in *.
  take_line (store_path_value_ok sp). rewrite store_path_roundtrip. cbn [of_result]. osimpl.
  take_line Hu2. osimpl.
  take_line Hc2. rewrite (decide_False (P := comp = [])) by done. osimpl.
  rewrite parse_opt_line, set_file_hash by first [reflexivity|exact Hfh|intros x Hx; apply (Hfh x Hx)]. osimpl.
  rewrite parse_opt_line, set_file_size by first [reflexivity|exact Hfs|intros x (z & Hz & ->)%fmap_Some; apply dec_value_ok, (Hfs z Hz)]. osimpl.
  take_line Hn1. rewrite Hn2. cbn [of_result]. osimpl.
  take_line (dec_value_ok nsz ltac:(lia)). rewrite (proj2 (parse_u64_err_ok _ nsz)) by (apply parse_u64_dec; lia). cbn [of_result]. osimpl.
  take_line Hr3. rewrite references_read by done. osimpl.
  rewrite parse_opt_line, set_deriver by first [reflexivity|exact Hd|intros x Hx; apply (Hd x Hx)]. osimpl.
  rewrite parse_sig_lines by done. cbn [app]. rewrite <- (app_nil_r (opt_line _ _)).
  rewrite parse_opt_line, set_ca by first [reflexivity|exact Hca]. osimpl. change (str_lines []) with (@nil rstr). cbn [parse_lines]. osimpl.
  unfold finish_fields.
  cbn [nf_store_path nf_url nf_compression nf_file_hash nf_file_size nf_nar_hash nf_nar_size nf_references nf_deriver nf_signatures nf_ca default].
  osimpl. rewrite decide_False by exact Hu1. by rewrite (proj2 (Z.eqb_neq _ _)) by lia.
Qed.

(** * What a text can parse to *)

(** The variables of the parser hold values that lines can hold. *)
Record fields_wf (f : NarFields) : Prop := {
  fw_url : ∀ x, nf_url f = Some x → value_ok x;
  fw_compression : ∀ x, nf_compression f = Some x → x ≠ [] ∧ value_ok x;
  fw_file_hash : ∀ h, nf_file_hash f = Some h → value_ok h ∧ nix_hash_parse h = inl ();
  fw_file_size : ∀ z, nf_file_size f = Some z → 0 ≤ z ≤ u64_max;
  fw_nar_hash : ∀ h, nf_nar_hash f = Some h → value_ok h ∧ nix_hash_parse h = inl ();
  fw_nar_size : 0 ≤ nf_nar_size f ≤ u64_max;
  fw_references : ∀ l, nf_references f = Some l → l ≠ [[]] ∧ Forall (λ r, SPACE ∉ r) l ∧ value_ok (join [SPACE] l);
  fw_deriver : ∀ d, nf_deriver f = Some d → value_ok d ∧ d ≠ rs "unknown-deriver";
  fw_signatures : Forall value_ok (nf_signatures f);
  fw_ca : ∀ c, nf_ca f = Some c → value_ok c;
}.

Lemma of_result_ok {A} g (r : A + rstr) a : of_result g r = Ok a ↔ r = inl a.
Proof. destruct r; cbn; naive_solver. Qed.

Lemma split_on_pieces c cur s : c ∉ cur → Forall (λ r, c ∉ r) (split_on c cur s) ∧ join [c] (split_on c cur s) = cur ++ s.
Proof.
  revert cur. induction s as [|b s IH]; intros cur Hc; cbn [split_on].
  - split; [by constructor|]. cbn. by rewrite app_nil_r.
  - case_decide as E.
    + subst b. destruct (IH [] ltac:(set_solver)) as [H1 H2]. split; [by constructor|].
      destruct (split_on c [] s) as [|x l] eqn:Es; [by destruct s; cbn in Es; repeat case_match|].
      change (join [c] (cur :: x :: l)) with (cur ++ c :: join [c] (x :: l)). by rewrite H2.
    + destruct (IH (cur ++ [b])) as [H1 H2]; [set_solver|]. split; [done|]. by rewrite H2, <- app_assoc.
Qed.

Lemma value_ok_nil : value_ok [].
Proof. split_and!; [done|set_solver|done]. Qed.
Lemma value_ok_bzip2 : value_ok (rs "bzip2").
Proof. by apply graphic_value_ok. Qed.

Lemma set_field_wf f key v f' : value_ok v → fields_wf f → set_field f key v = Ok f' → fields_wf f'.
Proof.
  intros Hv [H1 H2 H3 H4 H5 H6 H7 H8 H9 H10] E.
  destruct f as [sp url comp fh fsz nh nsz refs der sigs ca]. unfold set_field in E.
  cbn [nf_store_path nf_url nf_compression nf_file_hash nf_file_size nf_nar_hash nf_nar_size nf_references nf_deriver nf_signatures nf_ca] in *.
  repeat case_decide; [..|].
  all: repeat match goal with
  | H : (_ ≫= _) = Ok _ |- _ => apply bind_ok_inv in H as (? & [= ?]%of_result_ok & H)
  | H : match ?o with Some _ => Err _ | None => Ok _ end = Ok _ |- _ => destruct o; [done|]
  | u : () |- _ => destruct u
  end; simplify_eq; constructor;
  cbn [nf_store_path nf_url nf_compression nf_file_hash nf_file_size nf_nar_hash nf_nar_size nf_references nf_deriver nf_signatures nf_ca];
  try done.
  - by intros ? [= <-].
  - intros ? [= <-]. split; [done|apply value_ok_bzip2].
  - by intros ? [= <-].
  - by intros ? [= <-].
  - intros ? [= <-]. by eapply parse_u64_err_range.
  - by intros ? [= <-].
  - by eapply parse_u64_err_range.
  - intros ? [= <-]. split_and!; [done|constructor|apply value_ok_nil].
  - intros ? [= <-]. destruct (split_on_pieces SPACE [] v ltac:(set_solver)) as [Hp Hj]. rewrite Hj. split_and!; [|done..].
    intros Hs. rewrite Hs in Hj. cbn in Hj. congruence.
  - by intros ? [= <-].
  - apply Forall_app. split; [done|by constructor].
  - by intros ? [= <-].
Qed.

Lemma lines_go_clean cur s l : NEWLINE ∉ cur → RETURN ∉ cur → RETURN ∉ s → l ∈ lines_go cur s → NEWLINE ∉ l ∧ RETURN ∉ l.
Proof.
  revert cur. induction s as [|b s IH]; intros cur Hn Hr Hs Hl; cbn [lines_go] in Hl.
  - case_decide; set_solver.
  - apply not_elem_of_cons in Hs as [Hb Hs]. case_decide as E.
    + apply elem_of_cons in Hl as [->|Hl]; [|apply (IH []); set_solver].
      rewrite strip_return_none; [done|]. by intros Hl%last_Some_elem_of.
    + apply (IH (cur ++ [b])); set_solver.
Qed.

Lemma str_from_head {E} s i v : str_from (E := E) s i = Ok v →
  v = drop i s ∧ default true ((λ b, negb (in_range 0x80 0xBF b)) <$> head v) = true.
Proof.
  unfold str_from. case_match eqn:Eb; [|done]. intros [= <-]. split; [done|].
  apply andb_true_iff in Eb as [_ Eb]. unfold is_char_boundary in Eb. rewrite head_lookup, lookup_drop, Nat.add_0_r.
  by destruct (s !! i).
Qed.

Lemma clean_value_ok v : default true ((λ b, negb (in_range 0x80 0xBF b)) <$> head v) = true →
  NEWLINE ∉ v → RETURN ∉ v → value_ok v.
Proof. intros H1 H2 H3. split_and!; [done..|]. by intros Hl%last_Some_elem_of. Qed.

Lemma elem_of_drop_in {A} (x : A) i l : x ∈ drop i l → x ∈ l.
Proof. intros Hx. rewrite <- (take_drop i l). by apply elem_of_app; right. Qed.

Lemma line_value_clean line i v : NEWLINE ∉ line → RETURN ∉ line → line_value line i = Ok v → value_ok v.
Proof.
  intros Hn Hr E. unfold line_value in E. case_match eqn:E1.
  - apply str_from_head in E as [-> Hh]. apply clean_value_ok; [done|by intros ?%elem_of_drop_in..].
  - case_match eqn:E2; [|simplify_eq; apply value_ok_nil].
    apply bind_ok_inv in E as (w & [-> Hh]%str_from_head & [= <-]). apply Nat.ltb_ge in E1. apply Nat.ltb_lt in E2.
    assert (∃ b, drop (i + 1) line = [b]) as [b Hb].
    { assert (length (drop (i + 1) line) = 1)%nat by (rewrite length_drop; lia).
      destruct (drop (i + 1) line) as [|b [|]]; try done. by exists b. }
    assert (b ∈ line) by (apply (elem_of_drop_in _ (i + 1)); rewrite Hb; by left).
    rewrite Hb in *. cbn [length str_trim_start]. destruct (find _ _) as [w|]; [|by apply clean_value_ok; [|set_solver..]].
    destruct w as [|? w]; cbn [length drop]; [by apply clean_value_ok; [|set_solver..]|]. rewrite drop_nil. apply value_ok_nil.
Qed.

Lemma parse_lines_wf f lines f' : Forall (λ l, NEWLINE ∉ l ∧ RETURN ∉ l) lines → fields_wf f →
  parse_lines f lines = Ok f' → fields_wf f'.
Proof.
  intros Hl. revert f. induction Hl as [|line lines [Hn Hr] _ IH]; intros f Hf E; cbn [parse_lines] in E; [by simplify_eq|].
  case_decide; [by eapply IH|]. destruct (find_char COLON line); [|done].
  apply bind_ok_inv in E as (v & Hv%line_value_clean & E); [|done..]. apply bind_ok_inv in E as (f1 & Hf1 & E).
  eapply IH; [|done]. by eapply set_field_wf.
Qed.

Lemma nar_fields0_wf : fields_wf nar_fields0.
Proof. constructor; cbn; try done; constructor. Qed.

Lemma parsed_wf text n : RETURN ∉ text → parse_narinfo text = Ok n → narinfo_wf n.
Proof.
  intros Ht E. unfold parse_narinfo in E. apply bind_ok_inv in E as (f & Hf & E).
  apply parse_lines_wf in Hf as [H1 H2 H3 H4 H5 H6 H7 H8 H9 H10]; [|apply Forall_forall; intros l; apply lines_go_clean; set_solver|apply nar_fields0_wf].
  unfold finish_fields in E. inv_ok.
  match goal with Hz : (_ =? 0) = false |- _ => apply Z.eqb_neq in Hz end.
  constructor; cbn [ni_store_path ni_url ni_compression ni_file_hash ni_file_size ni_nar_hash ni_nar_size ni_references ni_deriver ni_signatures ni_ca];
    try done; [split; [done|by apply H1]| |by apply H5|lia|].
  - destruct (nf_compression f) as [c|]; cbn; [by apply H2|]. split; [done|apply value_ok_bzip2].
  - destruct (nf_references f) as [l|]; cbn; [by apply H7|]. split_and!; [done|constructor|apply value_ok_nil].
Qed.

(** C22: A well-formed narinfo reads back from the text written for it; and every
    narinfo that parses from a text without carriage returns is well-formed, so
    what the cache writes for it parses to the same narinfo again. *)
Theorem narinfo_codec (n : NarInfo) (text : rstr) :
  (narinfo_wf n → parse_narinfo (to_narinfo_string n) = Ok n) ∧
  (RETURN ∉ text → parse_narinfo text = Ok n → narinfo_wf n ∧ parse_narinfo (to_narinfo_string n) = Ok n).
Proof.
  split; [apply narinfo_read_back|]. intros Ht E. pose proof (parsed_wf text n Ht E) as Hw.
  split; [done|by apply narinfo_read_back].
Qed.

(** * The parser and characters of more than one byte *)

Lemma ascii_no_panic {E} s i : forallb is_ascii s = true → (i ≤ length s)%nat → str_from (E := E) s i = Ok (drop i s).
Proof.
  intros Ha Hi. unfold str_from, is_char_boundary. rewrite (proj2 (Nat.leb_le _ _)) by done.
  destruct (s !! i) as [b|] eqn:Eb.
  - rewrite forallb_forall in Ha. apply list_elem_of_lookup_2, list_elem_of_In, Ha in Eb.
    assert (in_range 0x80 0xBF b = false) as ->; [|done]. revert Eb. unfold is_ascii, in_range.
    rewrite andb_true_iff, andb_false_iff, !Z.leb_le, !Z.leb_gt. lia.
  - apply lookup_ge_None in Eb. by rewrite (proj2 (Nat.eqb_eq _ _)) by lia.
Qed.

Lemma set_field_no_panic f key v : set_field f key v ≠ Panic.
Proof.
  destruct f. unfold set_field, of_result. repeat case_decide; repeat (case_match; osimpl); done.
Qed.

Lemma parse_lines_no_panic f lines : Forall (λ l, forallb is_ascii l = true) lines → parse_lines f lines ≠ Panic.
Proof.
  intros Hl. revert f. induction Hl as [|line lines Ha _ IH]; intros f; cbn [parse_lines]; [done|].
  case_decide; [apply IH|]. destruct (find_char COLON line) as [i|]; [|done].
  assert (∃ v, line_value line i = Ok v) as [v ->].
  { unfold line_value. case_match eqn:E1; [apply Nat.ltb_lt in E1; rewrite ascii_no_panic by (done || lia); eauto|].
    case_match eqn:E2; [|eauto]. apply Nat.ltb_lt in E2. rewrite ascii_no_panic by (done || lia). osimpl. eauto. }
  osimpl. pose proof (set_field_no_panic f (take i line) v). destruct (set_field f (take i line) v); osimpl; [apply IH|done..].
Qed.

Lemma lines_go_ascii cur s : forallb is_ascii cur = true → forallb is_ascii s = true →
  Forall (λ l, forallb is_ascii l = true) (lines_go cur s).
Proof.
  revert cur. induction s as [|b s IH]; intros cur Hc Hs; cbn [lines_go].
  - case_decide; [constructor|by constructor].
  - cbn [forallb] in Hs. apply andb_true_iff in Hs as [Hb Hs]. case_decide.
    + constructor; [|by apply IH]. unfold strip_return, strip_suffix. case_match; [|done]. cbn [default].
      rewrite forallb_forall in *. intros x Hx. apply Hc. rewrite <- (take_drop (length cur - length [RETURN]) cur).
      apply in_app_iff. by left.
    + apply IH; [|done]. rewrite forallb_app, Hc. cbn. by rewrite Hb.
Qed.

(** A text of ASCII characters is parsed or refused. *)
Lemma ascii_parses text : forallb is_ascii text = true → parse_narinfo text ≠ Panic.
Proof.
  intros Ha. unfold parse_narinfo. pose proof (parse_lines_no_panic nar_fields0 (str_lines text) (lines_go_ascii [] text eq_refl Ha)).
  destruct (parse_lines _ _) as [f| |]; osimpl; [|done..]. unfold finish_fields. repeat (case_match || osimpl || unfold ok_or); done.
Qed.

(** * The fingerprint *)

Lemma cut_inj (c : byte) a a' r r' : c ∉ a → c ∉ a' → a ++ c :: r = a' ++ c :: r' → a = a' ∧ r = r'.
Proof.
  intros Ha Ha' E. pose proof (split_once_app c a r Ha) as H1. rewrite E, split_once_app in H1 by done. by injection H1 as -> ->.
Qed.

Lemma dec_inj_u64 a b : 0 ≤ a ≤ u64_max → 0 ≤ b ≤ u64_max → dec a = dec b → a = b.
Proof. intros Ha Hb E. apply parse_u64_dec in Ha, Hb. rewrite E in Ha. congruence. Qed.

Lemma full_refs_inj l l' : Forall (λ r, x2c ∉ r) l → Forall (λ r, x2c ∉ r) l' →
  join (rs ",") ((λ r, rs "/nix/store/" ++ r) <$> l) = join (rs ",") ((λ r, rs "/nix/store/" ++ r) <$> l') → l = l'.
Proof.
  change (rs ",") with [x2c]. intros Hl Hl' E.
  assert (∀ l, Forall (λ r, x2c ∉ r) l → Forall (λ r, x2c ∉ r) ((λ r, rs "/nix/store/" ++ r) <$> l)) as Hf.
  { intros k Hk. apply Forall_fmap. eapply Forall_impl; [exact Hk|]. intros r Hr Hin. apply elem_of_app in Hin as [Hin|]; [|done].
    apply list_elem_of_In in Hin. by repeat (destruct Hin as [|Hin]; [done|]). }
  assert ((λ r, rs "/nix/store/" ++ r) <$> l = (λ r, rs "/nix/store/" ++ r) <$> l') as Em.
  { destruct l as [|x l], l' as [|y l']; [done|cbn in E; by destruct (_ <$> l')|cbn in E; by destruct (_ <$> l)|].
    rewrite <- (split_on_join x2c (_ <$> x :: l)), E, split_on_join; [done|done|by apply Hf|done|by apply Hf]. }
  apply list_fmap_eq_inj in Em; [done|]. intros a b. apply app_inv_head.
Qed.

(** The fingerprint that signatures cover determines the store path, the hash, the
    size and the references of a narinfo, provided the hash has no semicolon and no
    reference a comma. *)
Theorem fingerprint_injective (n m : NarInfo) :
  x3b ∉ ni_nar_hash n → x3b ∉ ni_nar_hash m → 0 ≤ ni_nar_size n ≤ u64_max → 0 ≤ ni_nar_size m ≤ u64_max →
  Forall (λ r, x2c ∉ r) (ni_references n) → Forall (λ r, x2c ∉ r) (ni_references m) →
  fingerprint n = fingerprint m →
  ni_store_path n = ni_store_path m ∧ ni_nar_hash n = ni_nar_hash m ∧ ni_nar_size n = ni_nar_size m ∧
  ni_references n = ni_references m.
Proof.
  intros Hh Hh' Hs Hs' Hr Hr' E. unfold fingerprint in E. apply app_inv_head in E.
  assert (∀ p, x3b ∉ store_path_display p) as Hp.
  { intros p Hin%list_elem_of_In. pose proof (store_path_graphic p) as Hg. rewrite forallb_forall in Hg. by apply Hg in Hin. }
  assert (∀ z, 0 ≤ z → x3b ∉ dec z) as Hz.
  { intros z Hz Hin%list_elem_of_In. pose proof (dec_digits z Hz) as Hd. rewrite forallb_forall in Hd. by apply Hd in Hin. }
  change (rs ";") with [x3b] in E. cbn [app] in E.
  apply cut_inj in E as [E1 E]; [|by apply Hp..]. apply cut_inj in E as [E2 E]; [|done..].
  apply cut_inj in E as [E3 E]; [|by apply Hz; lia..]. split_and!; [|done|by apply dec_inj_u64|by apply full_refs_inj].
  pose proof (store_path_roundtrip (ni_store_path n)) as Hn. rewrite E1, store_path_roundtrip in Hn. by injection Hn.
Qed.
End roundtrip.

(** * Signatures *)

Section signature_laws.
Context `{Base64StandardLaws}.

(** A signature line reads back when the name has no colon, and what reads has the
    length of its kind. *)
Theorem nix_keys_read_back (name : rstr) (b : bytes) : COLON ∉ name →
  (length b = 64%nat → parse_signature (format_signature name b) = Ok (name, b)
     ∧ parse_secret_key (format_signature name b) = Ok (name, b)) ∧
  (length b = 32%nat → parse_public_key (format_signature name b) = Ok (name, b)) ∧
  (length b ≠ 64%nat → parse_signature (format_signature name b) = Err (WrongKeyLength 64 (zlen b))) ∧
  (∀ s n k, parse_secret_key s = Ok (n, k) → length (secret_key_seed k) = 32%nat).
Proof.
  intros Hc. unfold parse_signature, parse_secret_key, parse_public_key, parse_nix_key, format_signature, decode_base64. cbn [app].
  rewrite split_once_app by done. osimpl. rewrite std_decode_encode. osimpl. unfold exactly. split_and!.
  - intros ->. by rewrite decide_True.
  - intros ->. by rewrite decide_True.
  - intros. by rewrite decide_False.
  - intros s n k E. inv_ok. case_decide; [|done]. simplify_eq. unfold secret_key_seed. rewrite length_take. lia.
Qed.
End signature_laws.

(** * Samples *)

(** Two store paths. *)
Definition sample_nix : NixCrates := {|
  StorePath := bool;
  store_path_display p := if p then rs "/nix/store/r5sjd57x0r07bwgipryaxqdkx1gglhiy-libidn2-2.3.2"
                          else rs "/nix/store/aaaaaaaaaaaaaaaaaaaaaaaaaaaaaaaa-test";
  store_path_from_str s := if decide (s = rs "/nix/store/r5sjd57x0r07bwgipryaxqdkx1gglhiy-libidn2-2.3.2") then inl true
                           else if decide (s = rs "/nix/store/aaaaaaaaaaaaaaaaaaaaaaaaaaaaaaaa-test") then inl false
                           else inr (rs "bad path");
  store_path_digest p := [if p then x01 else x00];
  nixbase32_encode b := hex_of_bytes b;
  nix_hash_parse s := if starts_with (rs "sha256:") s then inl () else inr (rs "bad hash");
|}.
#[local] Existing Instance sample_nix.
Lemma sample_nix_laws : NixCratesLaws.
Proof. split; intros []; by vm_compute. Qed.
#[local] Existing Instance sample_nix_laws.

Definition sample_text : rstr :=
  info_line "StorePath" (rs "/nix/store/r5sjd57x0r07bwgipryaxqdkx1gglhiy-libidn2-2.3.2")
  ++ info_line "URL" (rs "nar/010z.nar.xz") ++ info_line "Compression" (rs "xz")
  ++ info_line "FileSize" (rs "63248") ++ info_line "NarHash" (rs "sha256:1npw") ++ info_line "NarSize" (rs "260816")
  ++ info_line "References" (rs "0z7sqj4pilbqyp45ix5b0mdgn9xlb024-libunistring r5sjd57x0r07bwgipryaxqdkx1gglhiy-libidn2-2.3.2")
  ++ info_line "Sig" (rs "cache.nixos.org-1:G9Px").
Definition sample_info : NarInfo :=
  mkNarInfo (H := sample_nix) true (rs "nar/010z.nar.xz") (rs "xz") None (Some 63248) (rs "sha256:1npw") 260816
    [rs "0z7sqj4pilbqyp45ix5b0mdgn9xlb024-libunistring"; rs "r5sjd57x0r07bwgipryaxqdkx1gglhiy-libidn2-2.3.2"]
    None [rs "cache.nixos.org-1:G9Px"] None.

Lemma narinfo_codec_witness :
  parse_narinfo sample_text = Ok sample_info ∧ to_narinfo_string sample_info = sample_text ∧
  narinfo_wf sample_info ∧ parse_narinfo (to_narinfo_string sample_info) = Ok sample_info.
Proof.
  assert (parse_narinfo sample_text = Ok sample_info) as E by (vm_compute; reflexivity).
  split; [exact E|split; [vm_compute; reflexivity|]].
  apply (proj2 (narinfo_codec sample_info sample_text)); [|exact E].
  intros Hin. apply (bool_decide_eq_true_2 (RETURN ∈ sample_text)) in Hin. vm_compute in Hin. discriminate Hin.
Defined.

(** A narinfo signed with references [a] and [b], and one with the single reference
    [a,/nix/store/b], have the same fingerprint. *)
Example comma_forges_reference :
  let info refs := mkNarInfo (H := sample_nix) false (rs "nar/x") (rs "none") None None (rs "sha256:0") 1 refs None [] None in
  fingerprint (info [rs "a"; rs "b"]) = fingerprint (info [rs "a,/nix/store/b"]) ∧
  parse_narinfo (to_narinfo_string (info [rs "a,/nix/store/b"])) = Ok (info [rs "a,/nix/store/b"]).
Proof. by vm_compute. Qed.

Definition other_info : NarInfo :=
  mkNarInfo (H := sample_nix) true (rs "nar/other") (rs "none") None None (rs "sha256:1npw") 260816
    (ni_references sample_info) None [] None.

Lemma fingerprint_injective_witness :
  fingerprint sample_info = fingerprint other_info ∧ ni_store_path sample_info = ni_store_path other_info ∧
  ni_nar_hash sample_info = ni_nar_hash other_info ∧ ni_nar_size sample_info = ni_nar_size other_info ∧
  ni_references sample_info = ni_references other_info.
Proof.
  split; [vm_compute; reflexivity|].
  assert (∀ (c : byte) (s : rstr), bool_decide (c ∈ s) = false → c ∉ s) as Hno by (intros c s; apply bool_decide_eq_false_1).
  apply (fingerprint_injective sample_info other_info);
    try (apply Hno; vm_compute; reflexivity); try (cbn; unfold u64_max; lia);
    try (repeat constructor; apply Hno; vm_compute; reflexivity).
Defined.

(** A character of two bytes right after the colon stops the parser. *)
Example parse_narinfo_panics : parse_narinfo (rs "URL:" ++ [xc3; xa9]) = Panic.
Proof. by vm_compute. Qed.

(** Without the space, the first character of the value is lost. *)
Example colon_without_space : line_value (rs "URL:nar/x") 3 = Ok (rs "ar/x").
Proof. by vm_compute. Qed.
