(* ===== verification/NixServer.v ===== *)
(** NixServer: the Nix binary cache of the server, [kappa-server/src/main.rs], over
    the in-memory store, with the registry of identity resolvers,
    [kappa-core/src/identity/resolver.rs], and the resolver of Nix keys,
    [kappa-server/src/resolvers.rs].

    A narinfo is accepted next to its archive only when the archive verifies, and
    then both are served as they were sent; an archive that arrives later drops the
    narinfos it contradicts.  The signatures of a narinfo are recorded, and vouched
    for, without being checked. *)

From S2P Require Import Prelude Label Compute Types Merkle Epoch Identity Store MemStore MemTags MemEdge MemNamespace MemIdentity MemUpload Frame Http Text.
From S2P Require Import S3List S3Objects NixRefs NixInfo.

(** * Resolvers of external identifiers *)

Record ResolvedIdentity := mkResolved {
  ri_anchor : rstr;
  ri_public_key : bytes;
  ri_algorithm : rstr;
  ri_service_endpoint : option rstr;
  ri_handle : rstr;
  ri_evidence : option bytes;
}.

(** A resolver: what it handles, and what it answers. *)
Record ExternalIdentifierResolver := mkResolver {
  er_id_type : rstr;
  er_accepts : rstr → bool;
  er_resolve : rstr → option ResolvedIdentity + rstr;
  er_cache_ttl_secs : Z;
}.

Definition ResolverRegistry : Type := list ExternalIdentifierResolver.
Definition registry_new : ResolverRegistry := [].
Definition registry_add (registry : ResolverRegistry) (r : ExternalIdentifierResolver) : ResolverRegistry := registry ++ [r].

Definition registry_resolve (registry : ResolverRegistry) (identifier : rstr) : option ResolvedIdentity + rstr :=
  match find (λ r, er_accepts r identifier) registry with
  | Some r => er_resolve r identifier
  | None => inl None
  end.

Section nix.
Context `{HashCrates} `{TransferCrates} `{Dcbor} `{MemoryStoreConfig} `{NixCrates}.
Context `{!IntoCbor Edge} `{!IntoCbor IdentityBinding} `{!IntoCbor AnchorInput}.

(** [NixKeyResolver] over its configured keys. *)
Fixpoint nix_key_lookup (keys : list (rstr * bytes)) (identifier : rstr) : option ResolvedIdentity :=
  match keys with
  | [] => None
  | (name, pubkey) :: rest =>
      if decide (name = identifier)
      then Some (mkResolved (compute_anchor (rs "ed25519") pubkey) pubkey (rs "ed25519") None name None)
      else nix_key_lookup rest identifier
  end.

Definition nix_key_resolver (keys : list (rstr * bytes)) : ExternalIdentifierResolver :=
  mkResolver (rs "nix-key")
    (λ identifier, existsb (λ '(name, _), bool_decide (name = identifier)) keys)
    (λ identifier, inl (nix_key_lookup keys identifier))
    u64_max.

(** [NixKeyResolver::from_env] on the value of [KAPPA_NIX_TRUSTED_KEYS]. *)
Definition nix_keys_from_env `{Base64Crate} (raw : rstr) : list (rstr * bytes) :=
  omap (λ entry, '(name, b64) ← split_once COLON entry; pubkey ← base64_decode b64; Some (name, pubkey))
    (filter (λ s, s ≠ []) (split_on x2c [] raw)).

(** * Texts of errors *)

(** The texts of [FromUtf8Error] and of [{:?}] for a vector of strings. *)
Class NixTexts := { from_utf8_error : bytes → rstr; strings_debug : list rstr → rstr }.
Context `{NixTexts}.

Definition narinfo_error_str (e : NarInfoError) : rstr :=
  match e with
  | MissingField f => rs "missing mandatory field: " ++ f
  | InvalidStorePath e => rs "invalid store path: " ++ e
  | InvalidHash e => rs "invalid hash: " ++ e
  | InvalidNarSize e => rs "invalid NarSize: " ++ e
  | InvalidFileSize e => rs "invalid FileSize: " ++ e
  | DuplicateField f => rs "duplicate field: " ++ f
  | NarInfoParse e => rs "parse error: " ++ e
  end.

Definition verify_error_str (e : VerifyError) : rstr :=
  match e with
  | NarHashMismatch expected computed => rs "NarHash mismatch: expected " ++ expected ++ rs ", computed " ++ computed
  | ReferencesMismatch narinfo scanned =>
      rs "references mismatch: narinfo claims " ++ strings_debug narinfo ++ rs ", scan found " ++ strings_debug scanned
  | Decompression e => rs "decompression error: " ++ e
  end.

(** * Reading *)

(** [KAPPA_NIX_PRIORITY]. *)
Definition nix_cache_info (priority : option rstr) : Handler Response :=
  let priority := default (rs "30") priority in
  let body := rs "StoreDir: /nix/store" ++ [NEWLINE] ++ rs "WantMassQuery: 1" ++ [NEWLINE]
              ++ rs "Priority: " ++ priority ++ [NEWLINE] in
  mret (response 200 [(rs "content-type", rs "text/x-nix-cache-info")] body).

Definition narinfo_tag (hash : rstr) : rstr := rs "narinfo:" ++ hash.
Definition nar_tag (path : rstr) : rstr := rs "nar:" ++ path.

Definition nix_narinfo_get (cx : Cx) : Handler Response :=
  nix_ns ← resolve_ns_read cx;
  result ← task (entry ← asks (tag_get nix_ns (narinfo_tag (path_param cx (rs "hash"))));
                 asks (blob_get (te_kappa entry)));
  mret (match result with
        | Some (Ok content) =>
            response 200 [(rs "content-type", rs "text/x-nix-narinfo"); (rs "cache-control", rs "max-age=600")] content
        | _ => response 404 [] []
        end).

Definition nix_narinfo_head (cx : Cx) : Handler Response :=
  nix_ns ← resolve_ns_read cx;
  result ← task (entry ← asks (tag_get nix_ns (narinfo_tag (path_param cx (rs "hash"))));
                 asks (blob_size (te_kappa entry)));
  mret (match result with
        | Some (Ok size) =>
            response 200 [(rs "content-type", rs "text/x-nix-narinfo"); (rs "content-length", dec size)] []
        | _ => response 404 [] []
        end).

Definition nix_nar_get (cx : Cx) : Handler Response :=
  nix_ns ← resolve_ns_read cx;
  result ← task (entry ← asks (tag_get nix_ns (nar_tag (path_param cx (rs "path"))));
                 asks (blob_open_compressed (te_kappa entry)));
  mret (match result with
        | Some (Ok content) => response 200 [(rs "content-type", rs "application/x-nix-nar")] content
        | _ => response 404 [] []
        end).

(** * Writing a narinfo *)

Definition reject {A E} (prefix : rstr) (text : E → rstr) (m : outcome E A) : M store A :=
  lift (map_err (λ e, SRejected (prefix ++ text e)) m).

(** [url.strip_prefix("nar/").unwrap_or(url)]. *)
Definition nar_path_of (n : NarInfo) : rstr := default (ni_url n) (strip_prefix (rs "nar/") (ni_url n)).

(** The archive, when it is there, must verify; it is then tagged by its hash. *)
Definition verify_stored_nar (nix_ns : NamespaceRef) (narinfo : NarInfo) : M store () :=
  found ← gets (tag_get nix_ns (nar_tag (nar_path_of narinfo)));
  match found with
  | Ok nar_entry =>
      nar_bytes ← asks (blob_get (te_kappa nar_entry));
      _ ← reject (rs "NAR verification failed: ") verify_error_str
            (decompress_and_verify nar_bytes (ni_compression narinfo) (ni_nar_hash narinfo) (ni_references narinfo));
      _ ← ignore (ingest_compressed (ni_nar_hash narinfo) nar_bytes (ni_compression narinfo) (ni_nar_size narinfo));
      _ ← tag_set nix_ns (nar_tag (nar_path_of narinfo)) (ni_nar_hash narinfo);
      mret ()
  | _ => mret ()
  end.

(** The edges to the referenced store paths; the slice ends before a dash. *)
Definition reference_edges (kappa : rstr) (references : list rstr) : list Edge :=
  omap (λ basename,
    if (32 <? length basename)%nat && bool_decide (basename !! 32%nat = Some x2d)
    then Some (mkEdge kappa (rs "storepath:" ++ take 32 basename) RefersTo (rs "_nix") None None)
    else None) references.

Definition deriver_edge (kappa deriver : rstr) : Edge :=
  mkEdge kappa (rs "deriver:" ++ deriver) DerivedFrom (rs "_nix") None None.

Definition sig_meta_key (i : nat) : rstr := rs "_nix_sig_" ++ dec (Z.of_nat i).

(** The signatures as metadata of the blob, and the names of their keys. *)
Fixpoint store_signatures (kappa : rstr) (i : nat) (signatures : list rstr) : M store (list rstr) :=
  match signatures with
  | [] => mret []
  | sig :: rest =>
      _ ← blob_put_meta kappa (sig_meta_key i) sig;
      names ← store_signatures kappa (S i) rest;
      mret (match split_once COLON sig with Some (key_name, _) => key_name :: names | None => names end)
  end.

Definition narinfo_put_task (nix_ns : NamespaceRef) (url_hash : rstr) (narinfo_bytes : bytes)
  : M store (rstr * list rstr) :=
  narinfo_text ← (if utf8_valid narinfo_bytes then mret narinfo_bytes
                  else throw (SRejected (rs "narinfo is not valid UTF-8: " ++ from_utf8_error narinfo_bytes)));
  narinfo ← reject (rs "narinfo parse error: ") narinfo_error_str (parse_narinfo narinfo_text);
  let store_hash := store_path_hash narinfo in
  if negb (bool_decide (url_hash = store_hash)) then
    throw (SRejected (rs "URL hash " ++ url_hash ++ rs " does not match store path hash " ++ store_hash))
  else
    _ ← verify_stored_nar nix_ns narinfo;
    narinfo_result ← ingest_compute Sha256 narinfo_bytes;
    let kappa := ir_kappa narinfo_result in
    _ ← tag_set nix_ns (narinfo_tag store_hash) kappa;
    let edges := reference_edges kappa (ni_references narinfo) in
    _ ← (if decide (edges = []) then mret () else edge_put_batch nix_ns edges);
    _ ← (match ni_deriver narinfo with Some deriver => edge_put nix_ns (deriver_edge kappa deriver) | None => mret () end);
    sig_key_names ← store_signatures kappa 0 (ni_signatures narinfo);
    mret (kappa, sig_key_names).

(** The binding of a key's name to its anchor, and the anchor's assertion about the
    narinfo. *)
Definition nix_binding (key_name anchor : rstr) (now_ms : Z) : IdentityBinding :=
  mkBinding key_name anchor (rs "nix-key") 3 now_ms.
Definition nix_assertion (key_name anchor narinfo_kappa : rstr) : Edge :=
  mkEdge anchor narinfo_kappa Assertion anchor None (Some (rs "nix-sig:" ++ key_name)).

Fixpoint assert_signers (registry : ResolverRegistry) (nix_ns : NamespaceRef) (now_ms : Z) (kappa : rstr)
  (sig_key_names : list rstr) : Handler () :=
  match sig_key_names with
  | [] => mret ()
  | key_name :: rest =>
      _ ← (match registry_resolve registry key_name with
           | inl (Some found) =>
               ignored (_ ← identity_binding_put nix_ns (nix_binding key_name (ri_anchor found) now_ms);
                        edge_put nix_ns (nix_assertion key_name (ri_anchor found) kappa))
           | _ => mret ()
           end);
      assert_signers registry nix_ns now_ms kappa rest
  end.

Definition nix_narinfo_put (nix_resolver : option ResolverRegistry) (cx : Cx) (body : Body) : Handler Response :=
  let url_hash := path_param cx (rs "hash") in
  nix_ns ← resolve_ns_read cx;
  let narinfo_bytes := body_or_empty (64 * 1024) body in
  result ← task (narinfo_put_task nix_ns url_hash narinfo_bytes);
  _ ← (match result, nix_resolver with
       | Some (Ok (kappa, sig_key_names)), Some registry => assert_signers registry nix_ns (cx_now_ms cx) kappa sig_key_names
       | _, _ => mret ()
       end);
  mret (match result with
        | Some (Ok _) => response 201 [] []
        | Some (Err (SRejected msg)) => response 400 [] msg
        | _ => response 500 [] []
        end).

(** * Writing an archive *)

(** A narinfo that names the archive is verified against it, and dropped when it
    fails. *)
Definition verify_narinfo_tag (nix_ns : NamespaceRef) (path : rstr) (content : bytes) (tag : TagEntry) : M store () :=
  if negb (starts_with (rs "narinfo:") (te_name tag)) then mret ()
  else
    found ← gets (blob_get (te_kappa tag));
    match found with
    | Panic => lift Panic
    | Err _ => mret ()
    | Ok narinfo_bytes =>
        if negb (utf8_valid narinfo_bytes) then mret ()
        else match parse_narinfo narinfo_bytes with
             | Panic => lift Panic
             | Err _ => mret ()
             | Ok narinfo =>
                 if decide (nar_path_of narinfo = path) then
                   match decompress_and_verify content (ni_compression narinfo) (ni_nar_hash narinfo) (ni_references narinfo) with
                   | Ok () =>
                       _ ← ignore (ingest_compressed (ni_nar_hash narinfo) content (ni_compression narinfo) (ni_nar_size narinfo));
                       ignore (tag_set nix_ns (nar_tag path) (ni_nar_hash narinfo))
                   | Err _ => ignore (tag_delete nix_ns (te_name tag))
                   | Panic => lift Panic
                   end
                 else mret ()
             end
    end.

Fixpoint verify_narinfo_tags (nix_ns : NamespaceRef) (path : rstr) (content : bytes) (tags : list TagEntry) : M store () :=
  match tags with
  | [] => mret ()
  | tag :: rest => _ ← verify_narinfo_tag nix_ns path content tag; verify_narinfo_tags nix_ns path content rest
  end.

Definition nar_put_task (nix_ns : NamespaceRef) (path : rstr) (content : bytes) : M store () :=
  let nar_kappa := kappa_from_bytes content in
  _ ← ingest_verified nar_kappa content;
  _ ← tag_set nix_ns (nar_tag path) nar_kappa;
  listed ← gets (tag_list nix_ns);
  match listed with
  | Ok tags => verify_narinfo_tags nix_ns path content tags
  | Err _ => mret ()
  | Panic => lift Panic
  end.

Definition nix_nar_put (cx : Cx) (body : Body) : Handler Response :=
  let path := path_param cx (rs "path") in
  nix_ns ← resolve_ns_read cx;
  let content := body_or_empty (10 * 1024 * 1024 * 1024) body in
  result ← task (nar_put_task nix_ns path content);
  mret (match result with Some (Ok _) => response 201 [] [] | _ => response 500 [] [] end).
End nix.

(** * What the steps of a handler leave alone *)

(** Blobs, tags and records of compression stay. *)
Record nix_quiet `{HashCrates} `{MemoryStoreConfig} (s s' : store) : Prop := {
  nq_blobs : blobs_kept s s';
  nq_tags : tags s' = tags s;
  nq_records : compression_records s' = compression_records s;
}.

Section quiet.
Context `{HashCratesLaws} `{TransferCrates} `{Dcbor} `{MemoryStoreConfig} `{NixCrates}.
Context `{!IntoCbor Edge} `{!IntoCbor IdentityBinding} `{!IntoCbor AnchorInput} `{NixTexts}.

#[local] Instance nix_quiet_preorder : PreOrder nix_quiet.
Proof.
  split; [intros s; split; [apply blobs_kept_refl|done..]|].
  intros s1 s2 s3 [B1 T1 R1] [B2 T2 R2]. split; [by eapply blobs_kept_trans|congruence..].
Qed.

Lemma edge_put_quiet ns edge s : ∃ s', edge_put ns edge s = (s', Ok ()) ∧ nix_quiet s s'.
Proof.
  destruct (edge_put_total ns edge s) as (s' & E & [B _ _ _] & Ht & _). exists s'. split; [done|]. split; [done|done|].
  revert E. unfold edge_put. destruct (ensure_namespace_run ns s) as (f & g & En).
  unfold mbind at 1, M_bind at 1. rewrite En. set (s1 := set_ns_aliases f _). cbv zeta.
  destruct (ingest_sha256 (canonical_bytes into_cbor edge) s1) as (ff & r & E1 & _).
  unfold mbind at 1, M_bind at 1. rewrite E1. unfold mbind at 1, M_bind at 1, gets at 1.
  destruct (find_same _ _ _ _) as [[ekh ex]|]; [case_decide; by intros [= <-]|].
  unfold mbind, M_bind, modify. case_decide; by intros [= <-].
Qed.

Lemma edge_batch_quiet ns es s : ∃ s', edge_put_batch ns es s = (s', Ok ()) ∧ nix_quiet s s'.
Proof.
  revert s. induction es as [|e es IH]; intros s; [by exists s|]. destruct (edge_put_quiet ns e s) as (s1 & E1 & Q1).
  destruct (IH s1) as (s2 & E2 & Q2). exists s2. split; [|by etrans]. cbn [edge_put_batch]. unfold mbind, M_bind. by rewrite E1.
Qed.

(** The names of the keys of the signatures. *)
Definition key_names (sigs : list rstr) : list rstr := omap (λ sig, fst <$> split_once COLON sig) sigs.

Lemma store_signatures_quiet kappa i sigs s :
  ∃ s', store_signatures kappa i sigs s = (s', Ok (key_names sigs)) ∧ nix_quiet s s'.
Proof.
  revert i s. induction sigs as [|sig sigs IH]; intros i s; [by exists s|].
  set (s1 := set_meta (<[meta_key kappa (sig_meta_key i) := sig]>) s).
  destruct (IH (S i) s1) as (s2 & E2 & Q2). exists s2. split.
  - cbn [store_signatures]. unfold mbind, M_bind, blob_put_meta, modify. fold s1. rewrite E2. unfold key_names. cbn [omap list_omap].
    by destruct (split_once COLON sig) as [[]|].
  - etrans; [|exact Q2]. by split; [apply blobs_kept_fs|..].
Qed.

Lemma assert_signers_quiet registry ns now kappa names s :
  ∃ s', assert_signers registry ns now kappa names s = (s', Ok ()) ∧ nix_quiet s s'.
Proof.
  revert s. induction names as [|name names IH]; intros s; [by exists s|]. cbn [assert_signers].
  destruct (registry_resolve registry name) as [[identity|]|]; [|by destruct (IH s) as (s2 & E2 & Q2); exists s2..].
  set (s1 := (identity_binding_put ns (nix_binding name (ri_anchor identity) now) s).1).
  destruct (edge_put_quiet ns (nix_assertion name (ri_anchor identity) kappa) s1) as (s2 & E2 & Q2).
  destruct (IH s2) as (s3 & E3 & Q3). exists s3. split.
  - unfold mbind at 1, Handler_bind at 1, ignored, mbind at 1, M_bind at 1.
    change (identity_binding_put ns (nix_binding name (ri_anchor identity) now) s) with (s1, Ok (E := StoreError) (kappa_from_value (nix_binding name (ri_anchor identity) now))).
    cbn beta iota zeta. rewrite E2. cbn [fst]. exact E3.
  - etrans; [|exact Q3]. etrans; [|exact Q2]. by split; [apply blobs_kept_fs|..].
Qed.

(** * Accepting a narinfo *)

(** The narinfo of a request: its text is UTF-8, parses, and its store path has the
    hash of the URL. *)
Definition narinfo_request (cx : Cx) (body : Body) (ns : NamespaceRef) (text : bytes) (n : NarInfo) : Prop :=
  cx_namespace cx = RExists ns ∧ body_or_empty (64 * 1024) body = text ∧ utf8_valid text = true ∧
  parse_narinfo text = Ok n ∧ path_param cx (rs "hash") = store_path_hash n.

(** The verdict on an archive. *)
Definition nar_verdict (n : NarInfo) (content : bytes) : outcome VerifyError () :=
  decompress_and_verify content (ni_compression n) (ni_nar_hash n) (ni_references n).

(** The cache serves an archive and a narinfo. *)
Definition serves_nar (ns : NamespaceRef) (path : rstr) (content : bytes) (s : store) : Prop :=
  ∀ cx, cx_namespace cx = RExists ns → path_param cx (rs "path") = path →
    nix_nar_get cx s = (s, Ok (response 200 [(rs "content-type", rs "application/x-nix-nar")] content)).
Definition serves_narinfo (ns : NamespaceRef) (hash : rstr) (text : bytes) (s : store) : Prop :=
  ∀ cx, cx_namespace cx = RExists ns → path_param cx (rs "hash") = hash →
    ∃ r, nix_narinfo_get cx s = (s, Ok r) ∧ r_status r = 200 ∧ kappa_text Sha256 (body_of r) = kappa_text Sha256 text.

Lemma resolve_run cx ns s : cx_namespace cx = RExists ns → resolve_ns_read cx s = (s, Ok ns).
Proof. intros E. unfold resolve_ns_read. by rewrite E. Qed.

Lemma serves_nar_intro ns path content s k c a z : tags s !! tag_key ns (nar_tag path) = Some k →
  compression_records s !! te_kappa k = Some (c, a, content, z) → serves_nar ns path content s.
Proof.
  intros Ht Hr cx Hns <-. unfold nix_nar_get. rewrite (bind_run _ _ _ _ _ (resolve_run cx ns s Hns)).
  rewrite (bind_run _ _ _ s (Some (Ok content))); [done|]. apply task_ok. unfold mbind, M_bind, asks, tag_get, blob_open_compressed.
  rewrite Ht. cbn [ok_or]. by rewrite Hr.
Qed.

Lemma serves_narinfo_intro ns hash text s k : tags s !! tag_key ns (narinfo_tag hash) = Some k →
  te_kappa k = kappa_text Sha256 text → stored_under s text (kappa_text Sha256 text) → serves_narinfo ns hash text s.
Proof.
  intros Ht Hk (a & c & Ha & Hg & Hc) cx Hns <-. unfold nix_narinfo_get. rewrite (bind_run _ _ _ _ _ (resolve_run cx ns s Hns)).
  rewrite (bind_run _ _ _ s (Some (Ok c))).
  - eexists. split; [done|]. split; [done|]. unfold body_of. cbn [r_body response concat]. rewrite app_nil_r.
    unfold kappa_text in Ha, Hc. apply label_text_inj in Ha as [<- _]. exact Hc.
  - apply task_ok. unfold mbind, M_bind, asks, tag_get. rewrite Ht. cbn [ok_or]. by rewrite Hk, Hg.
Qed.

(** Files that are there stay as they are; the compressed content is one of them
    already when it was stored before. *)
Lemma ingest_compressed_run h c algo z s : fs_ok (fs s) →
  let path := label_path blob_root Sha256 (digest_hex Sha256 c) in
  ∃ f r, ingest_compressed h c algo z s
    = (set_compression_records (<[h := (kappa_text Sha256 c, algo, c, z)]>) (set_fs f s), Ok r) ∧
    blobs_kept s (set_fs f s) ∧ (is_Some (fs s !! path) → f (fs s) = fs s).
Proof.
  intros Hs path. unfold ingest_compressed. rewrite kappa_from_bytes_text. cbv zeta.
  assert (blob_path (kappa_text Sha256 c) = Ok path) as Hbp by apply blob_path_label, digest_hex_valid.
  set (v := mkVerified (label_of Sha256 (digest_hex Sha256 c)) c).
  assert (verified_ok v) as Hv by (by exists Sha256).
  assert (∀ s' r, mem_blob_put_verified v s = (s', r) → blobs_kept s s') as Hkept.
  { intros s' r Hp. split; [intros _; exact (put_inv (St := store) v s s' r Hs Hv Hp)|].
    intros c' k _. by apply (put_keeps v s s' r). }
  rewrite (mem_put_spec v s Sha256 eq_refl) in Hkept. cbn [vc_content v] in Hkept. fold path in Hkept.
  unfold mbind at 1, M_bind at 1, lift at 1. rewrite Hbp.
  unfold mbind at 1, M_bind at 1, gets at 1. cbn beta iota. case_bool_decide as Hp; [rewrite decide_True in Hkept by done|rewrite decide_False in Hkept by done].
  - exists id, (IngestResult_new (kappa_text Sha256 c) true). split_and!; [by destruct s|by destruct s; eapply Hkept|done].
  - exists (write_atomically path c), (IngestResult_new (kappa_text Sha256 c) true). split_and!; [done|by eapply Hkept|done].
Qed.

Lemma tag_set_records ns name kappa s : compression_records (tag_set ns name kappa s).1 = compression_records s.
Proof.
  unfold tag_set. destruct (ensure_namespace_run ns s) as (f & g & E). unfold mbind, M_bind. rewrite E, put_tag_run.
  by destruct (next_version _ _).
Qed.

(** An archive that verifies is tagged by its hash and recorded. *)
Lemma verify_stored_nar_ok n q ns info e content s : fs_ok (fs s) → room (S n) q s →
  tags s !! tag_key ns (nar_tag (nar_path_of info)) = Some e → blob_get (te_kappa e) s = Ok content →
  nar_verdict info content = Ok () →
  ∃ s' v, verify_stored_nar ns info s = (s', Ok ()) ∧ room n q s' ∧ blobs_kept s s' ∧
    tags s' !! tag_key ns (nar_tag (nar_path_of info)) = Some (mkTag (nar_tag (nar_path_of info)) (ni_nar_hash info) v) ∧
    compression_records s' !! ni_nar_hash info
      = Some (kappa_text Sha256 content, ni_compression info, content, ni_nar_size info).
Proof.
  intros Hs Hroom Ht Hg Hv. unfold verify_stored_nar. unfold mbind at 1, M_bind at 1, gets at 1, tag_get. rewrite Ht. cbn [ok_or].
  unfold mbind at 1, M_bind at 1, asks at 1. rewrite Hg. unfold nar_verdict in Hv.
  unfold mbind at 1, M_bind at 1, reject, lift. rewrite Hv. cbn [map_err].
  destruct (ingest_compressed_run (ni_nar_hash info) content (ni_compression info) (ni_nar_size info) s Hs) as (f & r & E1 & B1 & _).
  unfold mbind at 1, M_bind at 1, ignore. rewrite E1. set (s1 := set_compression_records _ _).
  destruct (tag_set_total n q ns (nar_tag (nar_path_of info)) (ni_nar_hash info) s1) as (s2 & v & E2 & R2 & [B2 _ _ _] & T2 & _ & _).
  { by apply (room_same _ _ s). }
  exists s2, v. unfold mbind at 1, M_bind at 1. rewrite E2. split_and!; [done|done| |done|].
  - eapply blobs_kept_trans; [|exact B2]. eapply blobs_kept_trans; [exact B1|by apply blobs_kept_fs].
  - pose proof (tag_set_records ns (nar_tag (nar_path_of info)) (ni_nar_hash info) s1) as Hr. rewrite E2 in Hr. cbn [fst] in Hr.
    rewrite Hr. by apply lookup_insert_eq.
Qed.

(** What follows the check of the archive. *)
Lemma narinfo_put_after q ns text info s s1 cx body registry : narinfo_request cx body ns text info →
  verify_stored_nar ns info s = (s1, Ok ()) → fs_ok (fs s1) → room 1 q s1 →
  ∃ s', nix_narinfo_put registry cx body s = (s', Ok (response 201 [] [])) ∧
    serves_narinfo ns (store_path_hash info) text s' ∧ blobs_kept s1 s' ∧
    (∀ key, key ≠ tag_key ns (narinfo_tag (store_path_hash info)) → tags s' !! key = tags s1 !! key) ∧
    compression_records s' = compression_records s1.
Proof.
  intros (Hns & Hb & Hu & Hp & Hh) Hver Hs1 Hroom. unfold nix_narinfo_put. rewrite Hb, Hh.
  rewrite (bind_run _ _ _ _ _ (resolve_run cx ns s Hns)).
  destruct (ingest_sha256 text s1) as (f & r & E2 & Hk & B2 & St2 & _). set (s2 := set_fs f s1).
  destruct (tag_set_total 0 q ns (narinfo_tag (store_path_hash info)) (ir_kappa r) s2) as (s3 & v & E3 & _ & [B3 T3 _ _] & Tk3 & _ & _).
  { by apply (room_same _ _ s1). }
  pose proof (tag_set_records ns (narinfo_tag (store_path_hash info)) (ir_kappa r) s2) as R3. rewrite E3 in R3. cbn [fst] in R3.
  assert (∃ s4, (if decide (reference_edges (ir_kappa r) (ni_references info) = []) then mret () else
    edge_put_batch ns (reference_edges (ir_kappa r) (ni_references info))) s3 = (s4, Ok ()) ∧ nix_quiet s3 s4) as (s4 & E4 & Q4).
  { case_decide; [by exists s3|]. apply edge_batch_quiet. }
  assert (∃ s5, (match ni_deriver info with Some d => edge_put ns (deriver_edge (ir_kappa r) d) | None => mret () end) s4 = (s5, Ok ())
    ∧ nix_quiet s4 s5) as (s5 & E5 & Q5).
  { destruct (ni_deriver info); [apply edge_put_quiet|by exists s4]. }
  destruct (store_signatures_quiet (ir_kappa r) 0 (ni_signatures info) s5) as (s6 & E6 & Q6).
  assert (narinfo_put_task ns (store_path_hash info) text s = (s6, Ok (ir_kappa r, key_names (ni_signatures info)))) as Etask.
  { unfold narinfo_put_task. rewrite Hu. unfold mbind at 1, M_bind at 1, mret at 1, M_ret at 1.
    unfold mbind at 1, M_bind at 1, reject, lift. rewrite Hp. cbn [map_err]. cbv zeta. rewrite bool_decide_eq_true_2 by done. cbn [negb].
    unfold mbind at 1, M_bind at 1. rewrite Hver. unfold mbind at 1, M_bind at 1. rewrite E2. fold s2.
    unfold mbind at 1, M_bind at 1. rewrite E3. unfold mbind at 1, M_bind at 1. rewrite E4.
    unfold mbind at 1, M_bind at 1. rewrite E5. unfold mbind, M_bind. by rewrite E6. }
  rewrite (bind_run _ _ _ _ _ (task_ok _ _ _ _ Etask)). cbn beta iota.
  assert (∃ s7, (match registry with Some registry => assert_signers registry ns (cx_now_ms cx) (ir_kappa r) (key_names (ni_signatures info))
    | None => mret () end) s6 = (s7, Ok ()) ∧ nix_quiet s6 s7) as (s7 & E7 & Q7).
  { destruct registry; [apply assert_signers_quiet|by exists s6]. }
  rewrite (bind_run _ _ _ _ _ E7). exists s7.
  assert (nix_quiet s3 s7) as [B7 T7 R7] by (etrans; [exact Q4|]; etrans; [exact Q5|]; by etrans; [exact Q6|]).
  assert (blobs_kept s2 s7) as B27 by (by eapply blobs_kept_trans).
  split; [done|]. split_and!.
  - eapply (serves_narinfo_intro _ _ _ _ (mkTag (narinfo_tag (store_path_hash info)) (ir_kappa r) v)); [by rewrite T7|done|].
    apply (bk_stored _ _ B27); [apply (bk_ok _ _ B2), Hs1|by apply St2].
  - by eapply blobs_kept_trans.
  - intros key Hne. rewrite T7, T3 by set_solver. done.
  - by rewrite R7, R3.
Qed.

Lemma verify_no_panic data comp h refs : decompress_and_verify data comp h refs ≠ Panic.
Proof.
  unfold decompress_and_verify. assert (decompress data comp ≠ Panic) as Hd by (unfold decompress; by repeat case_match).
  destruct (decompress data comp); osimpl; [|done..]. case_match; [done|]. rewrite claimed_hashes_ok. osimpl. by case_match.
Qed.

(** The request is refused before anything is written. *)
Lemma narinfo_put_refused ns text info s s1 e cx body registry : narinfo_request cx body ns text info →
  verify_stored_nar ns info s = (s1, Err e) →
  nix_narinfo_put registry cx body s = (s1, Ok (match e with SRejected msg => response 400 [] msg | _ => response 500 [] [] end)).
Proof.
  intros (Hns & Hb & Hu & Hp & Hh) Hver. unfold nix_narinfo_put. rewrite Hb, Hh.
  rewrite (bind_run _ _ _ _ _ (resolve_run cx ns s Hns)).
  rewrite (bind_run _ _ _ s1 (Some (Err e))).
  - cbn beta iota. destruct registry; (rewrite (bind_run _ _ _ s1 ()) by done); by destruct e.
  - unfold task. assert (narinfo_put_task ns (store_path_hash info) text s = (s1, Err e)) as ->; [|done].
    unfold narinfo_put_task. rewrite Hu. unfold mbind at 1, M_bind at 1, mret at 1, M_ret at 1.
    unfold mbind at 1, M_bind at 1, reject, lift. rewrite Hp. cbn [map_err]. cbv zeta. rewrite bool_decide_eq_true_2 by done. cbn [negb].
    unfold mbind at 1, M_bind at 1. by rewrite Hver.
Qed.


(** Once the archive is tagged by its hash, which is no address of a blob, the same
    narinfo is refused: it cannot be replaced, say to add a signature. *)
Theorem narinfo_put_again_refused (registry : option ResolverRegistry) (cx : Cx) (body : Body) (ns : NamespaceRef)
  (text : bytes) (info : NarInfo) (s : store) (e : TagEntry) (nar : bytes)
  (Hreq : narinfo_request cx body ns text info) (Hfs : fs_ok (fs s))
  (Hlen : length (nixbase32_encode (sha256_digest nar)) = 52%nat)
  (Htag : tags s !! tag_key ns (nar_tag (nar_path_of info)) = Some e) (Hk : te_kappa e = nar_hash_of nar) :
  ∃ r, nix_narinfo_put registry cx body s = (s, Ok r) ∧ (r_status r = 400 ∨ r_status r = 500).
Proof.
  assert (∃ err, blob_get (te_kappa e) s = Err err) as [err Hg].
  { cbn [blob_get mem_blobs]. destruct (mem_blob_get (te_kappa e) s) as [c|err|] eqn:Eg; [|by exists err|].
    - exfalso. rewrite Hk in Eg. apply (get_on_axis Sha256) in Eg; [|done]. apply (f_equal length) in Eg.
      pose proof (digest_hex_valid Sha256 c) as [Hz _]. change (zlen (digest_hex Sha256 c) = 64) in Hz. lia.
    - unfold mem_blob_get, blob_path, blob_path_for, ok_or, map_err in Eg. exfalso. repeat case_match; simplify_eq/=; repeat case_match; done. }
  rewrite (narinfo_put_refused ns text info s s err); [|done|].
  - eexists. split; [done|]. destruct err; [by right|by right|by right|by left|by right].
  - unfold verify_stored_nar. unfold mbind at 1, M_bind at 1, gets at 1, tag_get. rewrite Htag. cbn [ok_or].
    unfold mbind at 1, M_bind at 1, asks at 1. by rewrite Hg.
Qed.

(** * Accepting an archive *)

(** Storing content adds its file, or nothing when it is there. *)
Lemma ingest_verified_files c s : fs_ok (fs s) →
  let path := label_path blob_root Sha256 (digest_hex Sha256 c) in
  ∃ f r, ingest_verified (kappa_from_bytes c) c s = (set_fs f s, Ok r) ∧ is_Some (f (fs s) !! path) ∧
    fs_ok (f (fs s)) ∧ ∀ p b, fs s !! p = Some b → f (fs s) !! p = Some b.
Proof.
  intros Hs path. set (v := mkVerified (label_of Sha256 (digest_hex Sha256 c)) c).
  assert (VerifiedContent_verify (kappa_text Sha256 c) c = Ok v) as Hv.
  { unfold VerifiedContent_verify. rewrite kappa_text_parse. osimpl. by rewrite (proj2 (verify_kappa_true _ _)) by (exists Sha256; done). }
  assert (vc_axis v = Ok Sha256) as Hax by apply label_axis_enum_of, digest_hex_valid.
  assert (vc_kappa v = Ok (kappa_text Sha256 c)) as Hk by exact (verified_ok_kappa v Sha256 c eq_refl).
  unfold ingest_verified, mbind, M_bind, mret, M_ret, lift, reject_label. rewrite kappa_from_bytes_text, Hv. cbn [map_err].
  rewrite Hax, Hk. cbn [map_err blob_put_verified mem_blobs mandatory_axes put_additional].
  rewrite (mem_put_spec v s Sha256 eq_refl). cbn [vc_content v]. fold path. case_decide as Hp; cbn.
  - exists id. eexists. split; [by destruct s|]. split_and!; [done|done|auto].
  - exists (write_atomically path c). eexists. split; [done|]. split_and!.
    + unfold write_atomically. rewrite lookup_insert_eq. by eexists.
    + by apply write_atomically_ok.
    + intros p b Hpb. rewrite write_atomically_lookup.
      * case_decide as E; [|done]. subst p. destruct Hp. by eexists.
      * intros ->. destruct (Hs _ _ Hpb) as [a Ha]. by apply tmp_path_not_label in Ha; [|apply digest_hex_valid].
Qed.

(** What becomes of a tag when the archive arrives: the verdict on its narinfo, if
    it is one and names the archive. *)
Definition tag_narinfo (path : rstr) (s : store) (tag : TagEntry) : option NarInfo :=
  if starts_with (rs "narinfo:") (te_name tag) then
    match blob_get (te_kappa tag) s with
    | Ok b => if utf8_valid b then
                match parse_narinfo b with
                | Ok n => if decide (nar_path_of n = path) then Some n else None
                | _ => None
                end
              else None
    | _ => None
    end
  else None.

(** The stored narinfos do not stop the parser. *)
Definition parses_safely (s : store) (tag : TagEntry) : Prop :=
  ∀ b, starts_with (rs "narinfo:") (te_name tag) = true → blob_get (te_kappa tag) s = Ok b → utf8_valid b = true →
    parse_narinfo b ≠ Panic.

(** The archive is tagged by a hash that is recorded with its content. *)
Definition nar_recorded (ns : NamespaceRef) (path : rstr) (content : bytes) (s : store) : Prop :=
  ∃ e c a z, tags s !! tag_key ns (nar_tag path) = Some e ∧ compression_records s !! te_kappa e = Some (c, a, content, z).

Lemma mem_blob_get_no_panic k s : mem_blob_get k s ≠ Panic.
Proof.
  unfold mem_blob_get, blob_path, blob_path_for, ok_or, map_err. intros E. repeat case_match; simplify_eq/=; repeat case_match; done.
Qed.

Section deferred.
Context (ns : NamespaceRef) (path : rstr) (content : bytes).
Abbreviation cpath := (label_path blob_root Sha256 (digest_hex Sha256 content)).
Abbreviation nkey := (tag_key ns (nar_tag path)).

Lemma verify_tag_step n q tag s : fs_ok (fs s) → is_Some (fs s !! cpath) → room (S n) q s → parses_safely s tag →
  ∃ s', verify_narinfo_tag ns path content tag s = (s', Ok ()) ∧ fs s' = fs s ∧ room n q s' ∧
    match (λ n, nar_verdict n content) <$> tag_narinfo path s tag with
    | Some (Ok ()) => nar_recorded ns path content s' ∧ ∀ key, key ≠ nkey → tags s' !! key = tags s !! key
    | Some _ => tags s' = delete (tag_key ns (te_name tag)) (tags s) ∧ compression_records s' = compression_records s
    | None => s' = s
    end.
Proof.
  intros Hs Hc Hroom Hsafe. unfold verify_narinfo_tag, tag_narinfo, parses_safely in *.
  assert (room n q s) as Hroom' by (destruct Hroom as [A B C]; split; [intros key x Hx; specialize (A key x Hx)|..]; lia || done).
  destruct (starts_with _ _); cbn [negb]; [|by exists s].
  unfold mbind at 1, M_bind at 1, gets at 1. destruct (blob_get (te_kappa tag) s) as [b|e|] eqn:Eb; [|by exists s|by apply mem_blob_get_no_panic in Eb].
  destruct (utf8_valid b) eqn:Eu; cbn [negb]; [|by exists s].
  specialize (Hsafe b eq_refl eq_refl Eu). destruct (parse_narinfo b) as [info|e|]; [|by exists s|done].
  case_decide as Ep; [|by exists s].
  cbn [fmap option_fmap option_map]. unfold nar_verdict.
  pose proof (verify_no_panic content (ni_compression info) (ni_nar_hash info) (ni_references info)) as Hnp.
  destruct (decompress_and_verify content (ni_compression info) (ni_nar_hash info) (ni_references info)) as [[]|e|] eqn:Ev; [| |done].
  - destruct (ingest_compressed_run (ni_nar_hash info) content (ni_compression info) (ni_nar_size info) s Hs) as (f & r & E1 & _ & Hf).
    unfold mbind, M_bind, ignore. rewrite E1. set (s1 := set_compression_records _ _).
    destruct (tag_set_total n q ns (nar_tag path) (ni_nar_hash info) s1) as (s2 & v & E2 & R2 & [_ K2 _ _] & T2 & _ & F2);
      [by apply (room_same _ _ s)|].
    pose proof (tag_set_records ns (nar_tag path) (ni_nar_hash info) s1) as Hr. rewrite E2 in Hr. cbn [fst] in Hr.
    rewrite E2. exists s2. split_and!; [done| |done| |].
    + rewrite F2. by apply Hf.
    + eexists _, _, _, _. split; [exact T2|]. rewrite Hr. by apply lookup_insert_eq.
    + intros key Hne. rewrite K2 by set_solver. done.
  - eexists. split; [done|]. split_and!; [done| |done|done].
    destruct Hroom' as [A B C]. split; [|done|done]. intros key x Hx. cbn in Hx.
    apply lookup_delete_Some in Hx as [_ Hx]. by apply (A key x).
Qed.

Definition fails (s : store) (tag : TagEntry) : Prop := ∃ n e, tag_narinfo path s tag = Some n ∧ nar_verdict n content = Err e.
Definition passes (s : store) (tag : TagEntry) : Prop := ∃ n, tag_narinfo path s tag = Some n ∧ nar_verdict n content = Ok ().

Lemma tag_narinfo_fs s s' tag : fs s' = fs s → tag_narinfo path s' tag = tag_narinfo path s tag.
Proof. intros E. unfold tag_narinfo. cbn [blob_get mem_blobs]. unfold mem_blob_get. by rewrite E. Qed.

Lemma parses_safely_fs s s' tag : fs s' = fs s → parses_safely s tag → parses_safely s' tag.
Proof. intros E. unfold parses_safely. cbn [blob_get mem_blobs]. unfold mem_blob_get. by rewrite E. Qed.

(** The whole loop: what fails is dropped, everything else but the tag of the
    archive stays, and the archive is recorded when something passes. *)
Lemma verify_tags_run q l s : fs_ok (fs s) → is_Some (fs s !! cpath) → room (length l) q s → Forall (parses_safely s) l →
  (∀ t, t ∈ l → is_Some (tag_narinfo path s t) → tag_key ns (te_name t) ≠ nkey) →
  ∃ s', verify_narinfo_tags ns path content l s = (s', Ok ()) ∧
    (∀ t, t ∈ l → fails s t → tags s' !! tag_key ns (te_name t) = None) ∧
    (∀ key, key ≠ nkey → tags s !! key = None → tags s' !! key = None) ∧
    (∀ key, key ≠ nkey → (∀ t, t ∈ l → fails s t → tag_key ns (te_name t) ≠ key) → tags s' !! key = tags s !! key) ∧
    (nar_recorded ns path content s → nar_recorded ns path content s') ∧
    (Exists (passes s) l → nar_recorded ns path content s').
Proof.
  revert s. induction l as [|t l IH]; intros s Hs Hc Hroom Hsafe Hkeys.
  { exists s. split_and!; [done|set_solver|done|done|done|]. intros Hx. by inversion Hx. }
  apply Forall_cons in Hsafe as [Ht Hl].
  destruct (verify_tag_step (length l) q t s Hs Hc Hroom Ht) as (s1 & E1 & F1 & R1 & Hstep).
  destruct (IH s1) as (s2 & E2 & I1 & I2 & I3 & I4 & I5); [by rewrite F1..|done| | |].
  { eapply Forall_impl; [exact Hl|]. intros x. by apply parses_safely_fs. }
  { intros x Hx Hn. apply Hkeys; [by right|]. by rewrite <- (tag_narinfo_fs s s1). }
  assert (∀ x, fails s1 x ↔ fails s x) as Hfails by (intros x; unfold fails; by rewrite (tag_narinfo_fs s s1)).
  assert (∀ x, passes s1 x ↔ passes s x) as Hpasses by (intros x; unfold passes; by rewrite (tag_narinfo_fs s s1)).
  exists s2. cbn [verify_narinfo_tags]. unfold mbind, M_bind. rewrite E1. split; [done|].
  assert ((∀ key, key ≠ nkey → tags s !! key = None → tags s1 !! key = None) ∧
    (fails s t → tags s1 !! tag_key ns (te_name t) = None) ∧
    (∀ key, key ≠ nkey → (fails s t → tag_key ns (te_name t) ≠ key) → tags s1 !! key = tags s !! key) ∧
    (nar_recorded ns path content s → nar_recorded ns path content s1) ∧ (passes s t → nar_recorded ns path content s1)) as (J1 & J2 & J3 & J4 & J5).
  { unfold fails, passes. specialize (Hkeys t ltac:(by left)). destruct (tag_narinfo path s t) as [n|] eqn:En; cbn in Hstep.
    2: { subst s1. split_and!; [done|intros (? & ? & ? & ?); done|done|done|intros (? & ? & ?); done]. }
    specialize (Hkeys ltac:(by eexists)). destruct (nar_verdict n content) as [[]|e|] eqn:Ev; [| |by apply verify_no_panic in Ev].
    - destruct Hstep as [Hrec Hsame]. split_and!; [intros key Hk; by rewrite Hsame|intros (n' & e' & [= <-] & ?); congruence|auto|auto|auto].
    - destruct Hstep as [Ht1 Hr1]. rewrite Ht1. split_and!.
      + intros key _ Hk. apply lookup_delete_None. by right.
      + intros _. apply lookup_delete_eq.
      + intros key _ Hk. apply (lookup_delete_ne (M := gmap (bytes * Z))). apply Hk. eauto.
      + intros (x & c & a & z & Hx1 & Hx2). exists x, c, a, z. rewrite Ht1, Hr1. split; [|done].
        by rewrite (lookup_delete_ne (M := gmap (bytes * Z))).
      + intros (n' & [= <-] & ?). congruence. }
  split_and!.
  - intros x [->|Hx]%elem_of_cons Hf; [|by apply I1, Hfails].
    apply I2; [|by apply J2]. destruct Hf as (n & e & Hn & _). apply Hkeys; [by left|by rewrite Hn].
  - auto.
  - intros key Hk Hno. rewrite I3 by first [done|intros x Hx Hf; apply Hno; [by right|by apply Hfails]].
    apply J3; [done|]. apply Hno. by left.
  - auto.
  - intros [Hx|Hx]%Exists_cons; [auto|]. apply I5. eapply Exists_impl; [exact Hx|]. intros x. by apply Hpasses.
Qed.
End deferred.

Lemma listed_tags ns s : tags_wf s → (length (collect_sorted_tags ns s) ≤ size (tags s))%nat ∧
  ∀ t, t ∈ collect_sorted_tags ns s ↔ tags s !! tag_key ns (te_name t) = Some t.
Proof.
  intros Hw. unfold collect_sorted_tags, ns_tags. split.
  - rewrite length_sort_by, length_fmap, <- length_map_to_list. apply length_filter.
  - intros t. rewrite elem_of_sort_by, list_elem_of_fmap. split.
    + intros ([[u h] e] & -> & [Hu Hin]%list_elem_of_filter). cbn in *. apply elem_of_map_to_list in Hin.
      destruct (Hw u h e Hin) as [<- _]. subst u. exact Hin.
    + intros Ht. exists (tag_key ns (te_name t), t). split; [done|]. apply list_elem_of_filter. split; [done|].
      by apply elem_of_map_to_list.
Qed.

Lemma room_weaken n m q s : (m ≤ n)%nat → room n q s → room m q s.
Proof. intros Hm [A B C]. split; [intros key x Hx; specialize (A key x Hx); lia|lia|done]. Qed.

Lemma nar_tag_not_narinfo path : starts_with (rs "narinfo:") (nar_tag path) = false.
Proof. apply bool_decide_eq_false_2. intros [k Hk]. discriminate Hk. Qed.

(** Every narinfo in the cache is there and parses without a panic. *)
Definition narinfos_ok (ns : NamespaceRef) (s : store) : Prop :=
  ∀ t, tags s !! tag_key ns (te_name t) = Some t → starts_with (rs "narinfo:") (te_name t) = true →
    ∃ b, blob_get (te_kappa t) s = Ok b ∧ parse_narinfo b ≠ Panic.

(** The archive is stored and tagged by its address; files that were there stay. *)
Lemma store_nar_run n ns path content s : fs_ok (fs s) → tags_wf s → room (S n) 0 s →
  ∃ s1 r s2 v, ingest_verified (kappa_from_bytes content) content s = (s1, Ok r) ∧
    tag_set ns (nar_tag path) (kappa_from_bytes content) s1 = (s2, Ok v) ∧
    tags s2 = <[tag_key ns (nar_tag path) := mkTag (nar_tag path) (kappa_from_bytes content) v]> (tags s) ∧
    fs_ok (fs s2) ∧ is_Some (fs s2 !! label_path blob_root Sha256 (digest_hex Sha256 content)) ∧ tags_wf s2 ∧ room n 0 s2 ∧
    (∀ k b, blob_get k s = Ok b → blob_get k s2 = Ok b).
Proof.
  intros Hfs Hwf Hroom. destruct (ingest_verified_files content s Hfs) as (f & r & E1 & Hc & Hfs1 & Hmono).
  set (s1 := set_fs f s). destruct (tag_set_total n 0 ns (nar_tag path) (kappa_from_bytes content) s1)
    as (s2 & v & E2 & R2 & [_ K2 _ _] & T2 & _ & F2); [by apply (room_same _ _ s)|].
  exists s1, r, s2, v. split_and!; [done|done| |by rewrite F2|by rewrite F2| |done|].
  - apply map_eq. intros key. destruct (decide (key = tag_key ns (nar_tag path))) as [->|Hne].
    + by rewrite T2, lookup_insert_eq.
    + rewrite lookup_insert_ne by done. rewrite K2 by set_solver. done.
  - unfold tag_set in E2. destruct (ensure_namespace_run ns s1) as (g & h & En). unfold mbind, M_bind in E2. rewrite En in E2.
    by apply put_tag_wf in E2.
  - intros k b. cbn [blob_get mem_blobs]. unfold mem_blob_get. rewrite F2. destruct (blob_path k); [|done..]. osimpl.
    rewrite !ok_or_ok_inv. apply Hmono.
Qed.

(** An archive that arrives is stored and tagged, and the narinfos waiting for it
    are settled: one that the archive contradicts is dropped; one that it confirms
    stays, and the archive is then served as it was sent; no other tag changes. *)
Theorem nar_put_settles (cx : Cx) (body : Body) (ns : NamespaceRef) (s : store)
  (Hns : cx_namespace cx = RExists ns) (Hfs : fs_ok (fs s)) (Hwf : tags_wf s) (Hroom : room (2 + size (tags s)) 0 s)
  (Hinfos : narinfos_ok ns s)
  (Hkeys : ∀ t, tags s !! tag_key ns (te_name t) = Some t → starts_with (rs "narinfo:") (te_name t) = true →
     tag_key ns (te_name t) ≠ tag_key ns (nar_tag (path_param cx (rs "path")))) :
  let path := path_param cx (rs "path") in
  let content := body_or_empty (10 * 1024 * 1024 * 1024) body in
  ∃ s', nix_nar_put cx body s = (s', Ok (response 201 [] [])) ∧
    (∀ t n, tags s !! tag_key ns (te_name t) = Some t → tag_narinfo path s t = Some n →
       match nar_verdict n content with
       | Ok () => tags s' !! tag_key ns (te_name t) = Some t ∧ serves_nar ns path content s'
       | _ => tags s' !! tag_key ns (te_name t) = None
       end) ∧
    (∀ key, key ≠ tag_key ns (nar_tag path) →
       (∀ t, tags s !! tag_key ns (te_name t) = Some t → fails path content s t → tag_key ns (te_name t) ≠ key) →
       tags s' !! key = tags s !! key).
Proof.
  intros path content.
  destruct (store_nar_run (1 + size (tags s)) ns path content s Hfs Hwf Hroom) as (s1 & r & s2 & v & E1 & E2 & Ht2 & Hfs2 & Hc & Hwf2 & R2 & Hmono).
  assert (∀ t, tags s2 !! tag_key ns (te_name t) = Some t → is_Some (tag_narinfo path s2 t) →
    tags s !! tag_key ns (te_name t) = Some t) as Hold.
  { intros t Ht Hn. destruct (decide (tag_key ns (te_name t) = tag_key ns (nar_tag path))) as [Hk|Hne].
    - rewrite Hk, Ht2, lookup_insert_eq in Ht. injection Ht as <-. unfold tag_narinfo in Hn. cbn [te_name] in Hn. rewrite nar_tag_not_narinfo in Hn. by destruct Hn.
    - rewrite Ht2, lookup_insert_ne in Ht by done. done. }
  assert (∀ t, tags s !! tag_key ns (te_name t) = Some t → tag_narinfo path s2 t = tag_narinfo path s t) as Hsame.
  { intros t Ht. unfold tag_narinfo. destruct (starts_with _ _) eqn:Es; [|done].
    destruct (Hinfos t Ht Es) as (b & Hb & _). by rewrite Hb, (Hmono _ _ Hb). }
  destruct (listed_tags ns s2 Hwf2) as [Hlen Hlist].
  assert (size (tags s2) ≤ 1 + size (tags s))%nat as Hsize by (rewrite Ht2, map_size_insert; case_match; cbn; lia).
  destruct (verify_tags_run ns path content 0 (collect_sorted_tags ns s2) s2) as (s3 & E3 & V1 & _ & V3 & _ & V5);
    [done|done|by eapply room_weaken; [|exact R2]; lia|..].
  { apply Forall_forall. intros t Ht%Hlist b Es Hb _. destruct (decide (tag_key ns (te_name t) = tag_key ns (nar_tag path))) as [Hk|Hne].
    - rewrite Hk, Ht2, lookup_insert_eq in Ht. injection Ht as <-. cbn [te_name] in Es. by rewrite nar_tag_not_narinfo in Es.
    - rewrite Ht2, lookup_insert_ne in Ht by done. destruct (Hinfos t Ht Es) as (b' & Hb' & Hp).
      rewrite (Hmono _ _ Hb') in Hb. by injection Hb as <-. }
  { intros t Ht%Hlist Hn. assert (starts_with (rs "narinfo:") (te_name t) = true) as Es by (unfold tag_narinfo in Hn; destruct (starts_with _ _); [done|by destruct Hn]).
    apply Hkeys; [by apply Hold|done]. }
  assert (∀ t, t ∈ collect_sorted_tags ns s2 → fails path content s2 t → tags s !! tag_key ns (te_name t) = Some t ∧ fails path content s t) as Hfail.
  { intros t Ht%Hlist Hf. assert (tags s !! tag_key ns (te_name t) = Some t) as Hts by (apply Hold; [done|]; destruct Hf as (n & e & -> & _); done).
    split; [done|]. unfold fails in *. by rewrite <- Hsame. }
  exists s3. split_and!.
  - unfold nix_nar_put. rewrite (bind_run _ _ _ _ _ (resolve_run cx ns s Hns)). cbv zeta. fold path content.
    rewrite (bind_run _ _ _ s3 (Some (Ok ()))); [done|]. apply task_ok. unfold nar_put_task.
    unfold mbind at 1, M_bind at 1. rewrite E1. unfold mbind at 1, M_bind at 1. rewrite E2.
    unfold mbind at 1, M_bind at 1, gets at 1, tag_list. exact E3.
  - intros t n Ht Hn. assert (starts_with (rs "narinfo:") (te_name t) = true) as Es by (unfold tag_narinfo in Hn; by destruct (starts_with _ _)).
    pose proof (Hkeys t Ht Es) as Hne. assert (tags s2 !! tag_key ns (te_name t) = Some t) as Ht3 by (by rewrite Ht2, lookup_insert_ne).
    destruct (nar_verdict n content) as [[]|e|] eqn:Ev; [split| |by apply verify_no_panic in Ev].
    + rewrite V3, Ht3; [done|done|]. intros x Hx Hf E. destruct (Hfail x Hx Hf) as [Hxs (n' & e & Hn' & He)].
      rewrite E, Ht in Hxs. injection Hxs as <-. rewrite Hn in Hn'. congruence.
    + destruct V5 as (x & c & a & z & Hx1 & Hx2); [|by eapply serves_nar_intro].
      apply Exists_exists. exists t. split; [by apply Hlist|]. exists n. by rewrite Hsame.
    + apply V1; [by apply Hlist|]. exists n, e. by rewrite Hsame.
  - intros key Hk Hno. rewrite V3, Ht2, lookup_insert_ne; [done|done|done|].
    intros t Ht Hf. destruct (Hfail t Ht Hf). by apply Hno.
Qed.
End quiet.

(** * Samples *)

#[local] Existing Instances sample_nix sample_nix_laws.
#[local] Instance sample_nix_texts : NixTexts := {| from_utf8_error _ := rs "utf-8"; strings_debug _ := rs "[]" |}.
#[local] Instance sample_anchor_cbor : IntoCbor AnchorInput := λ a, SText (ai_algorithm a).

Definition sample_nar : bytes := rs "an archive".
Definition sample_nix_cx (key value : string) : Cx :=
  mkCx (rs "PUT") [(rs key, rs value)] None (λ _, None) (RExists sample_ns) None None None None (λ _, 0) 7 0 [] [].
(** The hash of the second sample path. *)
Definition sample_put_cx : Cx := sample_nix_cx "hash" "00".
Definition sample_nar_cx : Cx := sample_nix_cx "path" "x.nar".
Definition sample_body (b : bytes) : Body := [Some b].
Definition sample_narinfo (nar_hash sig : rstr) : bytes :=
  info_line "StorePath" (rs "/nix/store/aaaaaaaaaaaaaaaaaaaaaaaaaaaaaaaa-test") ++ info_line "URL" (rs "nar/x.nar")
  ++ info_line "Compression" (rs "none") ++ info_line "NarHash" nar_hash ++ info_line "NarSize" (rs "10")
  ++ info_line "References" [] ++ info_line "Sig" sig.
Definition sample_parsed (nar_hash sig : rstr) : NarInfo :=
  mkNarInfo (H := sample_nix) false (rs "nar/x.nar") (rs "none") None None nar_hash 10 [] None [sig] None.
(** A store with one blob and a tag that names it. *)
Definition one_blob (name : rstr) (content : bytes) : store :=
  set_tags (<[tag_key sample_ns name := mkTag name (kappa_text Sha256 content) 1]>)
    (set_fs (<[label_path blob_root Sha256 (digest_hex Sha256 content) := content]>) empty_store).
Definition cached_nar : store := one_blob (nar_tag (rs "x.nar")) sample_nar.

(** Anybody can name a trusted key: the narinfo is then asserted by its anchor. *)
Example forged_signature_asserted :
  let text := sample_narinfo (nar_hash_of sample_nar) (rs "trusted:forged") in
  let registry := [nix_key_resolver [(rs "trusted", rs "key")]] in
  let anchor := compute_anchor (rs "ed25519") (rs "key") in
  let '(s, r) := nix_narinfo_put (Some registry) sample_put_cx (sample_body text) cached_nar in
  r = Ok (response 201 [] []) ∧
  edge_query sample_ns (mkQuery anchor Outbound (Some Assertion) None) s
    = Ok [nix_assertion (rs "trusted") anchor (kappa_text Sha256 text)].
Proof. by vm_compute. Qed.

Lemma one_blob_fs name c : fs_ok (fs (one_blob name c)).
Proof. intros p x. cbn. intros [[<- <-]|[_ Hx]]%lookup_insert_Some; [by exists Sha256|by rewrite lookup_empty in Hx]. Qed.

Lemma one_blob_tags name c key t : tags (one_blob name c) !! key = Some t →
  key = tag_key sample_ns name ∧ t = mkTag name (kappa_text Sha256 c) 1.
Proof. cbn. intros [[<- <-]|[_ Hx]]%lookup_insert_Some; [done|by rewrite lookup_empty in Hx]. Qed.

Lemma one_blob_tag name c : tags (one_blob name c) !! tag_key sample_ns name = Some (mkTag name (kappa_text Sha256 c) 1).
Proof. apply lookup_insert_eq. Qed.

Lemma one_blob_room n name c : (n ≤ 5)%nat → room n 0 (one_blob name c).
Proof.
  intros Hn. split; [|unfold u64_max; lia|intros k v; cbn; by rewrite lookup_empty].
  intros key e [_ ->]%one_blob_tags. cbn. unfold u64_max. lia.
Qed.


(** A narinfo that waits for an archive with another hash. *)
Definition waiting_text : bytes := sample_narinfo (rs "sha256:wrong") (rs "k:s").
Definition waiting : store := one_blob (narinfo_tag (rs "00")) waiting_text.
Definition waiting_tag : TagEntry := mkTag (narinfo_tag (rs "00")) (kappa_text Sha256 waiting_text) 1.

Lemma nar_put_settles_witness :
  serves_narinfo sample_ns (rs "00") waiting_text waiting ∧
  ∃ s', nix_nar_put sample_nar_cx (sample_body sample_nar) waiting = (s', Ok (response 201 [] [])) ∧
    tags s' !! tag_key sample_ns (narinfo_tag (rs "00")) = None.
Proof.
  split.
  { eapply (serves_narinfo_intro _ _ _ _ waiting_tag); [exact (one_blob_tag (narinfo_tag (rs "00")) waiting_text)|reflexivity|].
    exists Sha256, waiting_text. split; [reflexivity|]. split; [vm_compute; reflexivity|reflexivity]. }
  assert (∀ t, tags waiting !! tag_key sample_ns (te_name t) = Some t → t = waiting_tag) as Honly
    by exact (λ t Ht, proj2 (one_blob_tags (narinfo_tag (rs "00")) waiting_text _ t Ht)).
  destruct (nar_put_settles sample_nar_cx (sample_body sample_nar) sample_ns waiting) as (s' & E & Hset & _).
  - reflexivity.
  - exact (one_blob_fs (narinfo_tag (rs "00")) waiting_text).
  - intros u h e He. destruct (one_blob_tags (narinfo_tag (rs "00")) waiting_text _ e He) as [[= -> ->] ->]. split; [reflexivity|split; vm_compute; discriminate].
  - apply (one_blob_room _ (narinfo_tag (rs "00")) waiting_text). vm_compute. repeat constructor.
  - intros t Ht _. rewrite (Honly t Ht). exists waiting_text. split; vm_compute; [reflexivity|discriminate].
  - intros t Ht _. rewrite (Honly t Ht). vm_compute. discriminate.
  - exists s'. split; [exact E|].
    specialize (Hset waiting_tag (sample_parsed (rs "sha256:wrong") (rs "k:s"))).
    assert (∃ e, nar_verdict (sample_parsed (rs "sha256:wrong") (rs "k:s")) (body_or_empty (10 * 1024 * 1024 * 1024) (sample_body sample_nar)) = Err e)
      as [e Hv] by (eexists; vm_compute; reflexivity).
    rewrite Hv in Hset. apply Hset; [exact (one_blob_tag (narinfo_tag (rs "00")) waiting_text)|vm_compute; reflexivity].
Defined.

(** An archive is served only once a narinfo has confirmed it. *)
Example nar_served_after_narinfo :
  let text := sample_narinfo (nar_hash_of sample_nar) (rs "k:s") in
  let s1 := (nix_nar_put sample_nar_cx (sample_body sample_nar) empty_store).1 in
  let s2 := (nix_narinfo_put None sample_put_cx (sample_body text) s1).1 in
  (nix_nar_get sample_nar_cx s1).2 = Ok (response 404 [] []) ∧
  (nix_nar_get sample_nar_cx s2).2 = Ok (response 200 [(rs "content-type", rs "application/x-nix-nar")] sample_nar).
Proof. by vm_compute. Qed.
