(* ===== verification/Counter.v ===== *)
(** Counter: the persistent counter, [kappa-core/src/counter.rs], and the version
    marker of the store, [kappa-core/src/version.rs].

    Used by one thread, the counter's file always holds the last value that was
    handed out, whatever file operations fail, so a restart continues from it.
    Between threads the file is renamed in any order, and a restart can hand out a
    value a second time. *)

From S2P Require Import Prelude Label Types Store Http Text NixInfo.

(** * The file of a counter *)

(** The directory of a persistent counter: the content of its file, and of the
    temporary file next to it, which has another name unless the counter's own file
    ends in [.tmp]. *)
Record CounterDir := mkCounterDir { cd_file : option bytes; cd_tmp : option bytes }.
Definition counter_dir0 : CounterDir := mkCounterDir None None.

Inductive CounterError :=
| CounterIo (e : rstr)
| Corrupted.

(** What may go wrong with the files; a write that fails has written something. *)
Inductive IoFault :=
| NoFault
| CreateDirFails (e : rstr)
| WriteFails (written : option bytes) (e : rstr)
| RenameFails (e : rstr).

Record SoftwareCounter := mkCounter { sc_value : Z; sc_persistent : bool }.

Definition counter_text (v : Z) : bytes := dec v ++ [NEWLINE].

(** [read_to_string] refuses what is not UTF-8. *)
Definition counter_new (persistent : bool) (read_fault : option rstr) (d : CounterDir) : outcome CounterError SoftwareCounter :=
  initial ← (match persistent, cd_file d with
             | true, Some data =>
                 match read_fault with
                 | Some e => Err (CounterIo e)
                 | None =>
                     if utf8_valid data then ok_or (parse_u64 (str_trim data)) Corrupted
                     else Err (CounterIo (rs "stream did not contain valid UTF-8"))
                 end
             | _, _ => Ok 0
             end);
  Ok (mkCounter initial persistent).

(** The write and the rename of [increment]. *)
Definition persist_value (fault : IoFault) (v : Z) (d : CounterDir) : CounterDir * outcome CounterError () :=
  match fault with
  | CreateDirFails e => (d, Err (CounterIo e))
  | WriteFails written e => (mkCounterDir (cd_file d) (match written with Some b => Some b | None => cd_tmp d end), Err (CounterIo e))
  | RenameFails e => (mkCounterDir (cd_file d) (Some (counter_text v)), Err (CounterIo e))
  | NoFault => (mkCounterDir (Some (counter_text v)) None, Ok ())
  end.

(** [fetch_add] wraps; the addition that follows it does not. *)
Definition counter_increment (fault : IoFault) (c : SoftwareCounter) (d : CounterDir)
  : SoftwareCounter * CounterDir * outcome CounterError Z :=
  let c' := mkCounter (wrap 64 (sc_value c + 1)) (sc_persistent c) in
  if sc_value c =? u64_max then (c', d, Panic)
  else
    let new_val := sc_value c + 1 in
    if sc_persistent c then
      let '(d, r) := persist_value fault new_val d in
      (c', d, _ ← r; Ok new_val)
    else (c', d, Ok new_val).

Definition counter_current (c : SoftwareCounter) : outcome CounterError Z := Ok (sc_value c).

(** * Threads *)

(** Where a thread is in [increment]: the value it has to write, or to rename. *)
Inductive IncPc := IncIdle | IncFetched (v : Z) | IncWritten (v : Z).

Record CounterSystem := mkCounterSystem { cs_value : Z; cs_dir : CounterDir; cs_pc : nat → IncPc }.

Definition set_pc (i : nat) (p : IncPc) (pc : nat → IncPc) : nat → IncPc := λ j, if decide (j = i) then p else pc j.

(** The steps of [increment] between which other threads run. *)
Inductive inc_step : CounterSystem → CounterSystem → Prop :=
| inc_fetch i v d pc : pc i = IncIdle → v < u64_max →
    inc_step (mkCounterSystem v d pc) (mkCounterSystem (v + 1) d (set_pc i (IncFetched (v + 1)) pc))
| inc_write i v w d pc : pc i = IncFetched w →
    inc_step (mkCounterSystem v d pc)
      (mkCounterSystem v (mkCounterDir (cd_file d) (Some (counter_text w))) (set_pc i (IncWritten w) pc))
| inc_rename i v w d t pc : pc i = IncWritten w → cd_tmp d = Some t →
    inc_step (mkCounterSystem v d pc) (mkCounterSystem v (mkCounterDir (Some t) None) (set_pc i IncIdle pc))
| inc_rename_lost i v w d pc : pc i = IncWritten w → cd_tmp d = None →
    inc_step (mkCounterSystem v d pc) (mkCounterSystem v d (set_pc i IncIdle pc)).

Definition counter_init (v : Z) (d : CounterDir) : CounterSystem := mkCounterSystem v d (λ _, IncIdle).

(** * The version marker *)

Definition STORE_FORMAT_VERSION : Z := 5.
Definition parse_version (s : rstr) : option Z := n ← parse_u64 s; if u32_max <? n then None else Some n.

(** What may go wrong with the marker's file. *)
Inductive MarkerFault :=
| MarkerFine
| MarkerRead (e : rstr)
| MarkerDir (e : rstr)
| MarkerWrite (written : option bytes) (e : rstr).

(** [{:?}] of a string. *)
Class StrDebug := str_debug : rstr → rstr.

(** The marker is [store_root/format_version]; the state is its content. *)
Definition check_or_write_version `{StrDebug} (fault : MarkerFault) (marker : option bytes)
  : option bytes * outcome StoreError () :=
  match marker with
  | Some stored =>
      (marker,
       match fault with
       | MarkerRead e => Err (SIo e)
       | _ =>
           if negb (utf8_valid stored) then Err (SIo (rs "stream did not contain valid UTF-8"))
           else
             stored_version ← ok_or (parse_version (str_trim stored))
               (SRejected (rs "corrupt format version file: " ++ str_debug (str_trim stored)));
             if stored_version =? STORE_FORMAT_VERSION then Ok ()
             else Err (SRejected (rs "store format version " ++ dec stored_version ++ rs " is not supported (current: "
                                  ++ dec STORE_FORMAT_VERSION ++ rs ")"))
       end)
  | None =>
      match fault with
      | MarkerDir e => (None, Err (SIo e))
      | MarkerWrite written e => (written, Err (SIo e))
      | _ => (Some (counter_text STORE_FORMAT_VERSION), Ok ())
      end
  end.

(** * Reading back what was written *)

Lemma digit_graphic b : in_range 48 57 b = true → graphic b = true.
Proof. unfold graphic, in_range. rewrite !andb_true_iff, !Z.leb_le. lia. Qed.

(** A number followed by a newline reads as the number. *)
Lemma counter_text_read v : 0 ≤ v ≤ u64_max → parse_u64 (str_trim (counter_text v)) = Some v ∧ utf8_valid (counter_text v) = true.
Proof.
  intros Hv. pose proof (dec_digits v ltac:(lia)) as Hd. pose proof (parse_u64_dec v Hv) as Hp. unfold counter_text.
  assert (dec v ≠ []) as Hne by (intros E; by rewrite E in Hp).
  assert (forallb graphic (dec v) = true) as Hg.
  { rewrite forallb_forall in Hd |- *. intros b Hb. by apply digit_graphic, Hd. }
  split.
  - replace (str_trim (dec v ++ [NEWLINE])) with (dec v); [done|].
    destruct (dec v) as [|a l] eqn:E; [done|]. clear Hp Hd Hne. cbn [forallb] in Hg. apply andb_true_iff in Hg as [Ha Hl].
    unfold str_trim. cbn [app length str_trim_start]. rewrite (proj1 (find_space_none a _ Ha)).
    rewrite length_app, Nat.add_1_r. cbn [str_trim_end].
    assert (find (λ w, ends_with w (a :: l ++ [NEWLINE])) WHITESPACE = Some [NEWLINE]) as ->.
    { unfold NEWLINE, WHITESPACE. cbn [find].
      assert (ends_with [x09] (a :: l ++ [x0a]) = false) as ->.
      { apply bool_decide_eq_false_2. intros [k Hk]. change (a :: l ++ [x0a]) with ((a :: l) ++ [x0a]) in Hk. by apply app_inj_tail in Hk as [_ ?]. }
      assert (ends_with [x0a] (a :: l ++ [x0a]) = true) as ->; [|done]. apply bool_decide_eq_true_2. by exists (a :: l). }
    cbn [length]. rewrite length_app, Nat.add_1_r. replace (S (S (length l)) - 1)%nat with (S (length l)) by lia. cbn [take]. rewrite take_app_length.
    destruct l as [|b l _] using rev_ind; [symmetry; exact (trim_end_graphic 1 [] a Ha)|].
    rewrite forallb_app in Hl. apply andb_true_iff in Hl as [_ Hb]. cbn in Hb. rewrite andb_true_r in Hb.
    symmetry. exact (trim_end_graphic (S (length (l ++ [b]))) (a :: l) b Hb).
  - apply utf8_valid_ascii. rewrite forallb_app. apply andb_true_iff. split; [|done].
    rewrite forallb_forall in Hd |- *. intros b Hb%Hd. revert Hb. unfold is_ascii, in_range. rewrite !andb_true_iff, !Z.leb_le. lia.
Qed.

(** * One thread *)

Fixpoint run_increments (faults : list IoFault) (c : SoftwareCounter) (d : CounterDir)
  : SoftwareCounter * CounterDir * list (outcome CounterError Z) :=
  match faults with
  | [] => (c, d, [])
  | f :: faults =>
      let '(c, d, r) := counter_increment f c d in
      let '(c, d, l) := run_increments faults c d in
      (c, d, r :: l)
  end.

(** A restart finds a value: the file is absent and the value zero, or it holds the
    text of the value. *)
Definition dir_holds (w : Z) (d : CounterDir) : Prop :=
  0 ≤ w ≤ u64_max ∧ (cd_file d = None ∧ w = 0 ∨ ∃ b, cd_file d = Some b ∧ parse_u64 (str_trim b) = Some w ∧ utf8_valid b = true).

Lemma dir_holds_new w d : dir_holds w d → counter_new true None d = Ok (mkCounter w true).
Proof.
  intros [_ [[E ->]|(b & E & Hp & Hu)]]; unfold counter_new; rewrite E; [done|]. by rewrite Hu, Hp.
Qed.

Lemma counter_new_holds d c : counter_new true None d = Ok c → sc_persistent c = true ∧ dir_holds (sc_value c) d.
Proof.
  unfold counter_new. destruct (cd_file d) as [b|] eqn:E; osimpl; [|intros [= <-]; split; [done|]; split; [unfold u64_max; cbn; lia|by left]].
  destruct (utf8_valid b) eqn:Hu; osimpl; [|done]. destruct (parse_u64 (str_trim b)) as [v|] eqn:Hp; osimpl; [|done].
  intros [= <-]. split; [done|]. split; [|right; by exists b]. cbn.
  apply (parse_u64_err_range (str_trim b)). by apply parse_u64_err_ok.
Qed.

Lemma counter_increment_step f c d w : sc_persistent c = true → dir_holds w d → w ≤ sc_value c < u64_max →
  ∃ d' r, counter_increment f c d = (mkCounter (sc_value c + 1) true, d', r) ∧
    match r with
    | Ok v => v = sc_value c + 1 ∧ dir_holds v d'
    | Err _ => f ≠ NoFault ∧ cd_file d' = cd_file d
    | Panic => False
    end.
Proof.
  intros Hp [Hr Hd] Hw. unfold counter_increment. rewrite Hp. rewrite (proj2 (Z.eqb_neq _ _)) by lia.
  assert (wrap 64 (sc_value c + 1) = sc_value c + 1) as -> by (unfold wrap; apply Z.mod_small; unfold u64_max in *; lia).
  destruct f; cbn; eexists _, _; (split; [done|]); cbn; try done.
  split; [done|]. destruct (counter_text_read (sc_value c + 1)) as [H1 H2]; [lia|]. split; [lia|]. right. by eexists.
Qed.

Lemma run_increments_spec faults c d w c' d' results :
  sc_persistent c = true → dir_holds w d → w ≤ sc_value c → sc_value c + zlen faults ≤ u64_max →
  run_increments faults c d = (c', d', results) →
  sc_value c' = sc_value c + zlen faults ∧
  (∀ i f r, faults !! i = Some f → results !! i = Some r →
     r = Ok (sc_value c + Z.of_nat i + 1) ∨ (f ≠ NoFault ∧ ∃ e, r = Err e)) ∧
  ∃ w', dir_holds w' d' ∧ w ≤ w' ≤ sc_value c' ∧ ∀ v, Ok v ∈ results → v ≤ w'.
Proof.
  revert c d w results. induction faults as [|f faults IH]; intros c d w results Hp Hd Hw Hfit E; cbn [run_increments length] in *.
  { injection E as <- <- <-. split_and!; [lia|done|]. exists w. split_and!; [done|lia|lia|set_solver]. }
  destruct (counter_increment_step f c d w Hp Hd) as (d1 & r & E1 & Hr); [lia|]. rewrite E1 in E.
  destruct (run_increments faults (mkCounter (sc_value c + 1) true) d1) as [[c2 d2] l] eqn:E2. injection E as <- <- <-.
  set (w1 := match r with Ok v => v | _ => w end).
  assert (dir_holds w1 d1 ∧ w ≤ w1 ≤ sc_value c + 1) as [Hd1 Hw1].
  { unfold w1. destruct r as [v|e|]; [|split; [|lia]|done].
    - destruct Hr as [-> Hr]. split; [done|lia].
    - destruct Hr as [_ Hr]. unfold dir_holds in *. by rewrite Hr. }
  destruct (IH (mkCounter (sc_value c + 1) true) d1 w1 l eq_refl Hd1) as (V & R & w' & Hw' & Hb & Hmax); [cbn; lia|cbn; lia|exact E2|]. cbn [sc_value] in *.
  split_and!; [lia| |].
  - intros [|i] g x; cbn [lookup list_lookup].
    + intros [= <-] [= <-]. destruct r as [v|e|]; [left|right|done]; [|destruct Hr; eauto]. destruct Hr as [-> _]. f_equal. lia.
    + intros Hg Hx. destruct (R i g x Hg Hx) as [->|?]; [left; f_equal; lia|by right].
  - exists w'. split_and!; [done|lia|lia|]. intros v [Hv|Hv]%elem_of_cons; [|by apply Hmax]. subst r. cbn in w1. lia.
Qed.



(** * Several threads *)

Definition holds_value (p : IncPc) (v : Z) : Prop := p = IncFetched v ∨ p = IncWritten v.

(** Every text in the directory is that of a value handed out before. *)
Record system_ok (v0 : Z) (s : CounterSystem) : Prop := {
  so_range : 0 ≤ v0 ≤ cs_value s ∧ cs_value s ≤ u64_max;
  so_file : ∃ w, dir_holds w (cs_dir s) ∧ w ≤ cs_value s;
  so_tmp : ∀ t, cd_tmp (cs_dir s) = Some t → ∃ w, t = counter_text w ∧ 0 ≤ w ≤ cs_value s;
  so_pc : ∀ i v, holds_value (cs_pc s i) v → v0 < v ≤ cs_value s;
  so_distinct : ∀ i j v, holds_value (cs_pc s i) v → holds_value (cs_pc s j) v → i = j;
}.

Lemma set_pc_holds i p pc j v : holds_value (set_pc i p pc j) v → (j = i ∧ holds_value p v) ∨ (j ≠ i ∧ holds_value (pc j) v).
Proof. unfold set_pc. case_decide; auto. Qed.

Lemma inc_step_ok v0 s s' : inc_step s s' → system_ok v0 s → system_ok v0 s'.
Proof.
  intros Hstep [Hr Hf Ht Hpc Hd]. destruct Hstep as [i v d pc Hi Hlt|i v w d pc Hi|i v w d t pc Hi Htmp|i v w d pc Hi Htmp]; cbn in *.
  - split; cbn; [lia|destruct Hf as (w & Hw & ?); exists w; split; [done|lia]|intros t Hx; destruct (Ht t Hx) as (w & -> & ?); exists w; split; [done|lia]|..].
    + intros j x [[-> Hx]|[_ Hx]]%set_pc_holds; [destruct Hx; simplify_eq; lia|apply Hpc in Hx; lia].
    + intros j k x [[-> Hx]|[Hj Hx]]%set_pc_holds [[-> Hy]|[Hk Hy]]%set_pc_holds; [done| | |by eapply Hd];
        [apply Hpc in Hy; destruct Hx; simplify_eq; lia|apply Hpc in Hx; destruct Hy; simplify_eq; lia].
  - assert (v0 < w ≤ v) as Hw by (apply (Hpc i); by left).
    split; cbn; [done|done|intros t [= <-]; exists w; split; [done|lia]|..].
    + intros j x [[-> Hx]|[_ Hx]]%set_pc_holds; [destruct Hx; simplify_eq; lia|by apply Hpc in Hx].
    + assert (∀ k x, holds_value (set_pc i (IncWritten w) pc k) x → holds_value (pc k) x) as Hback
        by (intros k x [[-> Hx]|[_ Hx]]%set_pc_holds; [destruct Hx; simplify_eq; by left|done]).
      intros j k x Hx%Hback Hy%Hback. by eapply Hd.
  - assert (∀ k x, holds_value (set_pc i IncIdle pc k) x → holds_value (pc k) x) as Hback
      by (intros k x [[-> [Hx|Hx]]|[_ Hx]]%set_pc_holds; done).
    destruct (Ht t Htmp) as (u & -> & Hu). destruct (counter_text_read u) as [H1 H2]; [lia|].
    split; cbn; [done| |done|intros j x Hx%Hback; by apply Hpc in Hx|intros j k x Hx%Hback Hy%Hback; by eapply Hd].
    exists u. split; [|lia]. split; [lia|]. right. by eexists.
  - assert (∀ k x, holds_value (set_pc i IncIdle pc k) x → holds_value (pc k) x) as Hback
      by (intros k x [[-> [Hx|Hx]]|[_ Hx]]%set_pc_holds; done).
    split; cbn; [done|done|done|intros j x Hx%Hback; by apply Hpc in Hx|intros j k x Hx%Hback Hy%Hback; by eapply Hd].
Qed.

(** However threads interleave, no two of them hold the same value, and a restart
    never fails: the file is never torn, and holds no more than the counter. *)
Theorem counter_threads_safe (d : CounterDir) (c : SoftwareCounter) (s : CounterSystem)
  (Hnew : counter_new true None d = Ok c) (Htmp : cd_tmp d = None)
  (Hreach : rtc inc_step (counter_init (sc_value c) d) s) :
  (∀ i j v, holds_value (cs_pc s i) v → holds_value (cs_pc s j) v → i = j) ∧
  ∃ w, counter_new true None (cs_dir s) = Ok (mkCounter w true) ∧ w ≤ cs_value s.
Proof.
  destruct (counter_new_holds _ _ Hnew) as [_ Hd].
  assert (system_ok (sc_value c) s) as [_ (w & Hw & Hle) _ _ Hdist].
  { refine (rtc_ind_r (λ s, system_ok (sc_value c) s) _ _ _ s Hreach).
    - split; cbn; [destruct Hd; lia|exists (sc_value c); split; [done|lia]|by rewrite Htmp|by intros i v [|]|by intros i j v [|]].
    - intros s1 s2 _ Hst Hok. by eapply inc_step_ok. }
  split; [done|]. exists w. split; [by apply dir_holds_new|done].
Qed.

(** Two threads: the first to fetch renames last, so a restart hands out 2 again. *)
Example counter_threads_repeat : ∃ s, rtc inc_step (counter_init 0 counter_dir0) s ∧
  cs_value s = 2 ∧ (∀ i, cs_pc s i = IncIdle) ∧
  counter_new true None (cs_dir s) = Ok (mkCounter 1 true) ∧
  (counter_increment NoFault (mkCounter 1 true) (cs_dir s)).2 = Ok 2.
Proof.
  eexists. split.
  { eapply rtc_l; [apply (inc_fetch 0 0); done|]. eapply rtc_l; [apply (inc_fetch 1 1); done|].
    eapply rtc_l; [by apply (inc_write 1 2 2)|]. eapply rtc_l; [by eapply (inc_rename 1 2 2)|].
    eapply rtc_l; [by apply (inc_write 0 2 1)|]. eapply rtc_l; [by eapply (inc_rename 0 2 1)|]. apply rtc_refl. }
  split; [done|]. split; [|by vm_compute]. intros i. cbn. unfold set_pc. by repeat case_decide.
Qed.

(** * The version marker *)

(** The first use of a store writes the version; a store with the version is opened;
    anything else is refused; and a marker that is there is never changed. *)
Theorem version_marker_correct `{StrDebug} (marker : option bytes) :
  match marker with
  | None => check_or_write_version MarkerFine None = (Some (counter_text STORE_FORMAT_VERSION), Ok ()) ∧
      check_or_write_version MarkerFine (check_or_write_version MarkerFine None).1
        = (Some (counter_text STORE_FORMAT_VERSION), Ok ())
  | Some stored => ∀ fault, (check_or_write_version fault marker).1 = marker ∧
      ((check_or_write_version fault marker).2 = Ok () ↔
         (∀ e, fault ≠ MarkerRead e) ∧ utf8_valid stored = true ∧ parse_version (str_trim stored) = Some STORE_FORMAT_VERSION) ∧
      (check_or_write_version fault marker).2 ≠ Panic
  end.
Proof.
  destruct marker as [stored|]; [|split; by vm_compute]. intros fault. cbn [check_or_write_version fst snd]. split; [done|].
  destruct fault as [|e| |];
    try (destruct (utf8_valid stored); cbn [negb]; [|split; [split; [done|naive_solver]|done]];
         destruct (parse_version (str_trim stored)) as [v|]; osimpl; [|split; [split; [done|naive_solver]|done]];
         destruct (Z.eqb_spec v STORE_FORMAT_VERSION) as [->|Hne]; (split; [split|done]); [done|done|done|naive_solver]).
  split; [|done]. split; [done|]. intros [Hno _]. by destruct (Hno e).
Qed.
