(* ===== verification/DistEdge.v ===== *)
(** DistEdge: the edge endpoints of [kappa-module-distribution/src/edge.rs], with
    the request helpers of its [lib.rs], over the in-memory store.

    Behind the authorization layer the endpoint keeps an invariant: every
    capability and delegation edge was asserted by its own source. *)

From S2P Require Import Prelude Label Compute Types Merkle Epoch Identity Store MemStore MemTags MemEdge MemNamespace Frame Http Auth.

(** [x.ok()] of a store call inside a task; a panic ends the task. *)
Definition ok_of {A} (m : outcome StoreError A) : outcome StoreError (option A) :=
  match m with
  | Ok a => Ok (Some a)
  | Err _ => Ok None
  | Panic => Panic
  end.

Definition dist_registry_anchor (cx : Cx) : rstr :=
  let fallback := match cx_node_anchor cx with Some a => a | None => rs "kappa-distribution" end in
  match cx_caller cx with
  | Some caller => if decide (caller ≠ rs "anonymous") then caller else fallback
  | None => fallback
  end.

Section handlers.
Context `{HashCrates} `{Dcbor} `{!IntoCbor Edge} `{!EdgeFromCbor} `{MemoryStoreConfig} `{JsonCrates} `{ScopeCrate}.

Definition dist_resolve_ns_write (cx : Cx) : Handler NamespaceRef :=
  match cx_namespace cx with
  | RExists ns => mret ns
  | RNotFound name protocol =>
      call (namespace_resolve_or_create (cx_now_ms cx) (cx_gen_ms cx) (cx_random cx) name
              (dist_registry_anchor cx) (Some protocol))
  | RNoNamespace => fail (BadRequest (rs "no namespace in request path"))
  end.

Definition error_response (status : Z) (code message : rstr) : Response :=
  let body := JObj [(rs "errors", JArr [JObj [(rs "code", JStr code); (rs "message", JStr message)]])] in
  response status [(rs "content-type", rs "application/json")] (serde_to_string body).

(** [v[key].as_str().ok_or_else(|| bad_request(msg))?]. *)
Definition required (key msg : rstr) (v : Json) : Handler rstr :=
  of_outcome (ok_or (as_str (json_index key v)) (BadRequest msg)).

(** [v[key].as_array()] with its strings. *)
Definition string_array (key : rstr) (v : Json) : list rstr :=
  match as_array (json_index key v) with Some a => omap as_str a | None => [] end.

(** * Create *)

Definition edge_scope (e : Edge) : option DelegationScope := m ← e_metadata e; scope_from_slice m.

(** The first edge of a list with a scope decides. *)
Definition first_scope (es : list Edge) : option DelegationScope := head (omap edge_scope es).

Definition root_depth (delegator : rstr) (root_ns : NamespaceRef) (s : store) : outcome StoreError (option Z) :=
  caps ← ok_of (edge_query root_ns (cap_query delegator (Some delegator)) s);
  match caps with
  | Some (_ :: _) => Ok (Some u32_max)
  | _ =>
      del_edges ← ok_of (edge_query root_ns (mkQuery delegator Inbound (Some Delegation) None) s);
      Ok (scope ← first_scope (default [] del_edges); Some (Z.min u32_max (dsc_delegation_depth scope + 1)))
  end.

(** How deep the delegator may delegate. *)
Definition delegator_depth (ns : NamespaceRef) (delegator : rstr) (s : store) : outcome StoreError Z :=
  info ← ok_of (namespace_info (ns_as_str ns) None s);
  if decide (nr_owner <$> info = Some delegator) then Ok u32_max
  else
    root_ns ← ok_of (namespace_resolve (rs "_root") None s);
    on_root ← match root_ns with Some root_ns => root_depth delegator root_ns s | None => Ok None end;
    match on_root with
    | Some depth => Ok depth
    | None =>
        es ← ok_of (edge_query ns (mkQuery delegator Inbound (Some Delegation) None) s);
        Ok (match first_scope (default [] es) with Some scope => dsc_delegation_depth scope | None => 0 end)
    end.

Definition depth_exceeded (message : rstr) : Response := error_response 403 (rs "DELEGATION_DEPTH_EXCEEDED") message.

(** The refusal of a delegation edge, if any. *)
Definition depth_refusal (ns : NamespaceRef) (edge : Edge) : Handler (option Response) :=
  if decide (e_relation edge = Delegation) then
    match edge_scope edge with
    | None => mret None
    | Some scope =>
        depth_result ← call (asks (delegator_depth ns (e_source edge)));
        if depth_result =? 0 then
          mret (Some (depth_exceeded (rs "delegator has depth=0 and cannot re-delegate")))
        else if depth_result <=? dsc_delegation_depth scope then
          mret (Some (depth_exceeded (rs "new delegation depth " ++ dec (dsc_delegation_depth scope)
                                       ++ rs " exceeds delegator remaining depth " ++ dec (depth_result - 1))))
        else mret None
    end
  else mret None.

(** Capabilities, delegations and assertions name anchors, not blobs. *)
Definition skip_source_check (r : EdgeRelation) : bool :=
  bool_decide (r = Capability) || bool_decide (r = Delegation) || bool_decide (r = Assertion).

(** From the edge on. *)
Definition store_edge (ns : NamespaceRef) (edge : Edge) : Handler Response :=
  refusal ← depth_refusal ns edge;
  match refusal with
  | Some r => mret r
  | None =>
      let ek := edge_kappa edge in
      _ ← call (edge_put ns edge);
      _ ← call (_ ← blob_put_meta ek (rs "object-type") (rs "edge");
                meta_set ns ek (rs "object-type") (rs "edge"));
      mret (mkResponse 201 [(rs "x-kappa-label", ek); (rs "content-length", rs "0")] [])
  end.

Definition put_edge (cx : Cx) (ns : NamespaceRef) (body : bytes) : Handler Response :=
  v ← of_outcome (parse_body body);
  source ← required (rs "source") (rs "missing source") v;
  relation_str ← required (rs "relation") (rs "missing relation") v;
  target ← required (rs "target") (rs "missing target") v;
  relation ← of_outcome (ok_or (relation_parse relation_str) (BadRequest (rs "unknown relation: " ++ relation_str)));
  present ← (if skip_source_check relation then mret true else call (asks (blob_exists source)));
  if negb present then mret (error_response 400 (rs "EDGE_SOURCE_ABSENT") (rs "source kappa does not exist"))
  else
    let metadata := serde_to_string <$> json_get (rs "metadata") v in
    store_edge ns (mkEdge source target relation (dist_registry_anchor cx) None metadata).

(** * Query *)

Definition same_triple (a b : Edge) : bool :=
  bool_decide (e_source a = e_source b) && bool_decide (e_target a = e_target b)
  && bool_decide (e_relation a = e_relation b).

Definition merge_edges (out inb : list Edge) : list Edge :=
  foldl (λ out edge, if existsb (λ e, same_triple e edge) out then out else out ++ [edge]) out inb.

Definition query_both (ns : NamespaceRef) (anchor : rstr) (relation : option EdgeRelation) (s : store)
  : outcome StoreError (list Edge) :=
  out ← edge_query ns (mkQuery anchor Outbound relation None) s;
  inb ← edge_query ns (mkQuery anchor Inbound relation None) s;
  Ok (merge_edges out inb).

Definition edge_json (e : Edge) : Json :=
  JObj [(rs "edge_kappa", JStr (edge_kappa e)); (rs "source", JStr (e_source e)); (rs "target", JStr (e_target e));
        (rs "relation", JStr (relation_as_str (e_relation e))); (rs "asserter", JStr (e_asserter e));
        (rs "metadata", match e_metadata e with
                        | Some b => match serde_from_slice b with inl v => v | inr _ => JObj [] end
                        | None => JObj []
                        end)].

Definition json_response (status : Z) (v : Json) : Response :=
  response status [(rs "content-type", rs "application/json")] (serde_to_string v).

Definition query_edges (ns : NamespaceRef) (anchor direction_str : rstr) (relation_str : option rstr) (n : option Z)
  : Handler Response :=
  let relation := (r ← relation_str; relation_parse r) in
  es ← (if decide (direction_str = rs "both") then call (asks (query_both ns anchor relation))
        else
          let direction := if decide (direction_str = rs "inbound") then Inbound else Outbound in
          call (asks (edge_query ns (mkQuery anchor direction relation None))));
  let es := match n with Some limit => take (Z.to_nat limit) es | None => es end in
  mret (json_response 200 (JObj [(rs "edges", JArr (edge_json <$> es))])).

(** * Delete *)

Definition read_edge (ek : rstr) (s : store) : outcome StoreError Edge :=
  bytes ← blob_get ek s;
  map_err (λ e, SRejected (rs "failed to decode edge blob: " ++ canonical_error_str e)) (from_canonical edge_of_cbor bytes).

Definition delete_edge (ns : NamespaceRef) (ek : rstr) : Handler Response :=
  edge ← blocking (asks (read_edge ek));
  match edge with
  | Ok edge =>
      _ ← call (edge_delete ns (e_source edge) (e_target edge) (e_relation edge));
      mret (mkResponse 202 [] [])
  | _ => fail NotFoundError
  end.

(** * Diff *)

(** The targets of a root's edges, nothing when the query fails. *)
Definition targets_of (ns : NamespaceRef) (root : rstr) (s : store) : outcome StoreError (list rstr) :=
  es ← ok_of (edge_query ns (mkQuery root Outbound None None) s);
  Ok (e_target <$> default [] es).

Fixpoint have_set (ns : NamespaceRef) (have : list rstr) (s : store) : outcome StoreError (gset rstr) :=
  match have with
  | [] => Ok ∅
  | root :: have =>
      ts ← targets_of ns root s;
      rest ← have_set ns have s;
      Ok (list_to_set ts ∪ {[root]} ∪ rest)
  end.

Fixpoint want_list (ns : NamespaceRef) (have : gset rstr) (want : list rstr) (s : store) : outcome StoreError (list rstr) :=
  match want with
  | [] => Ok []
  | root :: want =>
      ts ← targets_of ns root s;
      rest ← want_list ns have want s;
      Ok (filter (λ k, k ∉ have) (ts ++ [root]) ++ rest)
  end.

Definition edge_diff (ns : NamespaceRef) (have want : list rstr) (s : store) : outcome StoreError (list rstr) :=
  hs ← have_set ns have s;
  ws ← want_list ns hs want s;
  Ok (sort_dedup ws).

Definition diff_edges (ns : NamespaceRef) (body : bytes) : Handler Response :=
  v ← of_outcome (parse_body body);
  result ← call (asks (edge_diff ns (string_array (rs "have") v) (string_array (rs "want") v)));
  mret (json_response 200 (JObj [(rs "diff", JArr (JStr <$> result))])).

(** * Routes *)

Definition edge_put_route (cx : Cx) (body : bytes) : Handler Response :=
  ns ← dist_resolve_ns_write cx; put_edge cx ns body.

Definition edge_query_route (cx : Cx) : Handler Response :=
  ns ← resolve_ns_read cx;
  query_edges ns (path_param cx (rs "edge_key")) (default (rs "outbound") (query_param cx (rs "direction")))
    (query_param cx (rs "relation")) (n ← query_param cx (rs "n"); parse_u64 n).

Definition edge_delete_route (cx : Cx) : Handler Response :=
  ns ← dist_resolve_ns_write cx; delete_edge ns (path_param cx (rs "edge_key")).

Definition edge_diff_route (cx : Cx) (body : bytes) : Handler Response :=
  ns ← resolve_ns_read cx; diff_edges ns body.
End handlers.

(** * What the endpoint writes *)

Section facts.
Context `{HashCratesLaws} `{Dcbor} `{!IntoCbor Edge} `{!EdgeFromCbor} `{MemoryStoreConfig} `{JsonCrates} `{ScopeCrate}.

(** A handler stops at a step, or goes on from its result. *)
Lemma bind_cases {A B} (m : Handler A) (f : A → Handler B) s s' r : (m ≫= f) s = (s', r) →
  s' = (m s).1 ∨ ∃ s1 a, m s = (s1, Ok a) ∧ f a s1 = (s', r).
Proof. unfold mbind, Handler_bind. destruct (m s) as [s1 [a|e|]]; cbn; [eauto|intros [= -> _]; by left..]. Qed.

Lemma outcome_cases {A B} (m : outcome HttpError A) (f : A → Handler B) s s' r :
  (of_outcome m ≫= f) s = (s', r) → s' = s ∨ ∃ a, m = Ok a ∧ f a s = (s', r).
Proof. unfold mbind, Handler_bind, of_outcome. destruct m; [eauto|intros [= -> _]; by left..]. Qed.

Lemma edge_put_edges ns e s s' r key x :
  edge_put ns e s = (s', r) → edges s' !! key = Some x → x = e ∨ edges s !! key = Some x.
Proof.
  intros E. destruct (edge_put_total ns e s) as (s1 & E1 & _). rewrite E1 in E. injection E as <- <-.
  apply edge_put_run in E1 as (s0 & He & _ & Hrun). destruct (find_same _ _ _ _) as [[h ex]|].
  - case_decide; subst s1; rewrite <- He; [by right|]. cbn. rewrite lookup_insert_Some. naive_solver.
  - destruct Hrun as [f ->]. cbn [edges set_assertion_inbound]. rewrite insert_edge_edges, <- He, lookup_insert_Some.
    naive_solver.
Qed.

Lemma call_state {A} (m : M store A) s : (call m s).1 = (m s).1.
Proof. unfold call, blocking, mbind, Handler_bind. destruct (m s) as [s1 [a|e|]]; done. Qed.

Lemma depth_refusal_state ns e s : (depth_refusal ns e s).1 = s.
Proof.
  unfold depth_refusal. case_decide; [|done]. destruct (edge_scope e); [|done].
  unfold mbind, Handler_bind. pose proof (call_state (asks (delegator_depth ns (e_source e))) s) as Hc.
  destruct (call (asks (delegator_depth ns (e_source e))) s) as [s1 [dp|err|]]; cbn in Hc; subst; try done.
  by destruct (dp =? 0); [|destruct (dp <=? _)].
Qed.

Lemma meta_edges ns ek k v s s' r :
  (_ ← blob_put_meta ek k v; meta_set ns ek k v : M store ()) s = (s', r) → edges s' = edges s.
Proof.
  unfold mbind, M_bind, blob_put_meta, modify. set (s1 := set_meta _ s). unfold meta_set.
  destruct (ensure_namespace_run ns s1) as (f & g & E). unfold mbind, M_bind. rewrite E. by intros [= <- _].
Qed.

Lemma store_edge_edges ns e s s' r key x :
  store_edge ns e s = (s', r) → edges s' !! key = Some x → x = e ∨ edges s !! key = Some x.
Proof.
  unfold store_edge. intros [Hs|(s1 & a & E1 & E)]%bind_cases Hx.
  { subst. rewrite depth_refusal_state in Hx. by right. }
  pose proof (depth_refusal_state ns e s) as Hd. rewrite E1 in Hd. cbn in Hd. subst s1.
  destruct a as [resp|]; [injection E as <- _; by right|].
  apply bind_cases in E as [->|(s2 & u & E2 & E)].
  { rewrite call_state in Hx. destruct (edge_put ns e s) as [s1 r1] eqn:Ep. by eapply edge_put_edges. }
  apply call_ok_inv in E2. assert (edges s' = edges s2) as Heq.
  { assert (∃ s3 r3, (_ ← blob_put_meta (edge_kappa e) (rs "object-type") (rs "edge");
      meta_set ns (edge_kappa e) (rs "object-type") (rs "edge") : M store ()) s2 = (s3, r3)) as (s3 & r3 & E3)
      by (destruct ((_ ← blob_put_meta _ _ _; _ : M store ()) s2); eauto).
    apply bind_cases in E as [->|(s4 & u4 & E4 & E)].
    - rewrite call_state, E3. by eapply meta_edges.
    - injection E as <- _. apply call_ok_inv in E4. by eapply meta_edges. }
  rewrite Heq in Hx. by eapply edge_put_edges.
Qed.

(** A new edge carries the request's source and relation and the caller. *)
Lemma put_edge_edges cx ns body s s' r key x :
  put_edge cx ns body s = (s', r) → edges s' !! key = Some x →
  edges s !! key = Some x ∨
  ∃ v, serde_from_slice body = inl v ∧ as_str (json_index (rs "source") v) = Some (e_source x) ∧
    (w ← as_str (json_index (rs "relation") v); relation_parse w) = Some (e_relation x) ∧
    e_asserter x = dist_registry_anchor cx.
Proof.
  unfold put_edge, parse_body, required. intros E Hx.
  apply outcome_cases in E as [->|(v & Ev & E)]; [by left|].
  destruct (serde_from_slice body) as [v'|] eqn:Ev'; [|done]. injection Ev as <-.
  apply outcome_cases in E as [->|(src & Es%ok_or_ok_inv & E)]; [by left|].
  apply outcome_cases in E as [->|(rel & Er%ok_or_ok_inv & E)]; [by left|].
  apply outcome_cases in E as [->|(tgt & Et%ok_or_ok_inv & E)]; [by left|].
  apply outcome_cases in E as [->|(rl & Ep%ok_or_ok_inv & E)]; [by left|].
  set (probe := if skip_source_check rl then _ else _) in E.
  assert ((probe s).1 = s) as Hp by (unfold probe; destruct (skip_source_check rl); [done|by rewrite call_state]).
  apply bind_cases in E as [->|(s1 & b & E1 & E)]; [left; by rewrite <- Hp|].
  rewrite E1 in Hp. cbn in Hp. subst s1. destruct b; cbn [negb] in E; [|injection E as <- _; by left].
  destruct (store_edge_edges _ _ _ _ _ _ _ E Hx) as [->|Hold]; [right|by left].
  exists v'. cbn [e_source e_relation e_asserter]. rewrite Er. done.
Qed.

Lemma resolve_write_edges cx s : edges (dist_resolve_ns_write cx s).1 = edges s.
Proof.
  unfold dist_resolve_ns_write. destruct (cx_namespace cx) as [ns|name p|]; [done| |done].
  rewrite call_state. unfold namespace_resolve_or_create.
  destruct (namespace_resolve name (Some p) s) as [|[]|]; try done.
  unfold namespace_create, mbind, M_bind, gets, modify, throw. cbv zeta. by case_bool_decide.
Qed.

(** The status the endpoint answers an edge with. *)
Definition put_status (present : bool) (ns : NamespaceRef) (e : Edge) (s : store) : Z :=
  if negb present then 400
  else
    match edge_scope e, delegator_depth ns (e_source e) s with
    | Some scope, Ok depth =>
        if decide (e_relation e = Delegation) then if dsc_delegation_depth scope <? depth then 201 else 403 else 201
    | _, _ => 201
    end.

Lemma edge_query_total ns q s : ∃ es, edge_query ns q s = Ok es.
Proof. by eexists. Qed.

Lemma delegator_depth_total ns delegator s : ∃ depth, delegator_depth ns delegator s = Ok depth.
Proof.
  unfold delegator_depth, root_depth, namespace_info, namespace_resolve.
  destruct (ns_aliases s !! alias_key (ns_as_str ns) None) as [u|]; cbn [ok_or mbind outcome_bind ok_of];
    [destruct (ns_records s !! u) as [rec|]; cbn [ok_or mbind outcome_bind ok_of]|];
    (case_decide; [by eexists|]); (destruct (ns_aliases s !! alias_key (rs "_root") None); cbn [ok_or mbind outcome_bind ok_of]);
    repeat first [ progress cbn [mbind outcome_bind ok_of edge_query] | case_match; simplify_eq ]; by eexists.
Qed.

Lemma depth_refusal_run ns e s : (∀ scope, edge_scope e = Some scope → 0 ≤ dsc_delegation_depth scope) →
  ∃ o, depth_refusal ns e s = (s, Ok o) ∧
    match o with Some r => r_status r = 403 | None => True end ∧ (o = None ↔ put_status true ns e s = 201).
Proof.
  intros Hpos. unfold depth_refusal, put_status. cbn [negb].
  destruct (delegator_depth_total ns (e_source e) s) as [depth Ed]. rewrite Ed.
  destruct (decide (e_relation e = Delegation)) as [Hd|Hd]; [|exists None; split_and!; [done|done|]; by destruct (edge_scope e)].
  destruct (edge_scope e) as [scope|] eqn:Esc; [|by exists None].
  specialize (Hpos scope eq_refl).
  rewrite (bind_run _ _ s s depth) by (apply call_ok; unfold asks; by rewrite Ed).
  destruct (Z.eqb_spec depth 0) as [->|Hne].
  { eexists. split; [done|]. split; [done|]. destruct (Z.ltb_spec (dsc_delegation_depth scope) 0); [lia|done]. }
  destruct (Z.leb_spec depth (dsc_delegation_depth scope)); destruct (Z.ltb_spec (dsc_delegation_depth scope) depth); try lia;
    (eexists; split; [done|done]).
Qed.

(** An admitted edge is stored, and the store is otherwise as [edge_put] left it. *)
Lemma store_edge_run ns e s : edge_inv s → slot_ok s ns e → put_status true ns e s = 201 →
  (∀ scope, edge_scope e = Some scope → 0 ≤ dsc_delegation_depth scope) →
  ∃ s' r, store_edge ns e s = (s', Ok r) ∧ r_status r = 201 ∧ header_of (rs "x-kappa-label") r = Some (edge_kappa e) ∧
    edge_inv s' ∧ (∃ h, edges s' !! (ns_uuid ns, h) = Some e) ∧
    (∀ u h x, edges s !! (u, h) = Some x → (u = ns_uuid ns ∧ same_edge x e) ∨ edges s' !! (u, h) = Some x) ∧
    blob_get_meta (edge_kappa e) (rs "object-type") s' = Ok (rs "edge").
Proof.
  intros Hinv Hslot Hst Hpos. unfold store_edge. destruct (depth_refusal_run ns e s Hpos) as (o & Eo & _ & Ho).
  rewrite (bind_run _ _ _ _ _ Eo). apply Ho in Hst as ->.
  destruct (edge_put_total ns e s) as (s1 & E1 & _). rewrite (bind_run _ _ _ _ _ (call_ok _ _ _ _ E1)).
  destruct (edge_put_spec ns e s s1 Hinv Hslot E1) as (Hinv1 & Hin & _ & Hold).
  set (s2 := set_meta (<[meta_key (edge_kappa e) (rs "object-type") := rs "edge"]>) s1).
  unfold meta_set. destruct (ensure_namespace_run ns s2) as (f & g & E2).
  rewrite (bind_run _ _ s1 (set_ns_meta (push_at (ns_uuid ns, item_hash (rs "object-type"), item_hash (rs "edge")) (edge_kappa e))
    (set_ns_aliases f (set_ns_records g s2))) ()).
  - eexists _, _. split; [done|]. split_and!; [done|done| |exact Hin|exact Hold|].
    + eapply edge_inv_frame; [| |exact Hinv1]; [done|by intros []].
    + unfold blob_get_meta. cbn. by rewrite lookup_insert_eq.
  - apply call_ok. unfold mbind, M_bind, blob_put_meta, modify. fold s2. by rewrite E2.
Qed.

(** * Queries and diffs *)

Lemma merge_edges_sub out inb e : e ∈ merge_edges out inb → e ∈ out ∨ e ∈ inb.
Proof.
  unfold merge_edges. revert out. induction inb as [|x inb IH]; intros out; [by left|]. cbn [foldl].
  intros [Hin|Hin]%IH; [|right; by right]. destruct (existsb _ out); [by left|]. set_solver.
Qed.

Lemma merge_edges_keeps out inb e : e ∈ out → e ∈ merge_edges out inb.
Proof.
  unfold merge_edges. revert out. induction inb as [|x inb IH]; intros out Hin; [done|]. cbn [foldl]. apply IH.
  destruct (existsb _ out); [done|]. set_solver.
Qed.

Lemma merge_edges_covers out inb e : e ∈ inb → ∃ e', e' ∈ merge_edges out inb ∧ same_triple e' e = true.
Proof.
  revert out. induction inb as [|x inb IH]; intros out; [by intros Hin%elem_of_nil|].
  intros [->|Hin]%elem_of_cons; [|by apply (IH _ Hin)]. change (merge_edges out (x :: inb)) with
    (merge_edges (if existsb (λ e, same_triple e x) out then out else out ++ [x]) inb).
  destruct (existsb (λ e, same_triple e x) out) eqn:Eb.
  - apply existsb_exists in Eb as (e' & He'%list_elem_of_In & Ht). exists e'. split; [by apply merge_edges_keeps|done].
  - exists x. split; [apply merge_edges_keeps; set_solver|]. unfold same_triple. by rewrite !bool_decide_true.
Qed.

(** A root and the targets of its edges. *)
Definition near (ns : NamespaceRef) (roots : list rstr) (s : store) (k : rstr) : Prop :=
  ∃ root, root ∈ roots ∧ (k = root ∨ ∃ e h, edges s !! (ns_uuid ns, h) = Some e ∧
    item_hash (e_source e) = item_hash root ∧ e_target e = k).

Lemma near_cons ns root roots s k :
  near ns (root :: roots) s k ↔ near ns [root] s k ∨ near ns roots s k.
Proof. unfold near. set_solver. Qed.

Lemma targets_of_run ns root s : edge_inv s →
  ∃ ts, targets_of ns root s = Ok ts ∧ ∀ k, k = root ∨ k ∈ ts ↔ near ns [root] s k.
Proof.
  intros Hinv. unfold targets_of.
  destruct (edge_query_correct ns (mkQuery root Outbound None None) s Hinv) as (es & E & Hes). rewrite E.
  cbn [ok_of mbind outcome_bind from_option id default]. eexists. split; [done|]. intros k. unfold near.
  rewrite list_elem_of_fmap. setoid_rewrite Hes. cbn [q_direction q_anchor q_relation q_asserter]. split.
  - intros [->|(e & -> & (h & Hh) & Hk & _)]; exists root; (split; [left|]); [by left|right; eauto].
  - intros (r & Hr%list_elem_of_singleton & [->|(e & h & Hh & Hk & <-)]); subst; [by left|right].
    exists e. split_and!; [done|eauto|done|done|done].
Qed.

Lemma have_set_run ns have s : edge_inv s →
  ∃ hs, have_set ns have s = Ok hs ∧ ∀ k, k ∈ hs ↔ near ns have s k.
Proof.
  intros Hinv. induction have as [|root have (hs & E & Hhs)]; cbn [have_set].
  { exists ∅. split; [done|]. intros k. split; [set_solver|]. by intros (r & Hr%elem_of_nil & _). }
  destruct (targets_of_run ns root s Hinv) as (ts & Et & Hts). rewrite Et, E. cbn [mbind outcome_bind].
  eexists. split; [done|]. intros k. rewrite near_cons, <- Hts, <- Hhs. set_solver.
Qed.

Lemma want_list_run ns hs want s : edge_inv s →
  ∃ ws, want_list ns hs want s = Ok ws ∧ ∀ k, k ∈ ws ↔ near ns want s k ∧ k ∉ hs.
Proof.
  intros Hinv. induction want as [|root want (ws & E & Hws)]; cbn [want_list].
  { exists []. split; [done|]. intros k. split; [set_solver|]. by intros [(r & Hr%elem_of_nil & _) _]. }
  destruct (targets_of_run ns root s Hinv) as (ts & Et & Hts). rewrite Et, E. cbn [mbind outcome_bind].
  eexists. split; [done|]. intros k. rewrite elem_of_app, list_elem_of_filter, elem_of_app, list_elem_of_singleton, Hws.
  rewrite near_cons, <- Hts. tauto.
Qed.
End facts.

(** Authority edges asserted by their own source. *)
Definition authority_self_asserted (s : store) : Prop :=
  ∀ key e, edges s !! key = Some e → e_relation e ∈ [Capability; Delegation] → e_asserter e = e_source e.

(** * Properties *)

(** Behind the authorization layer, the edge endpoint never records a
    capability or delegation that its own source did not make: a PUT passed on by
    [auth_layer] and handled with the caller it identified keeps every authority
    edge of the store self-asserted, whatever the body. *)
Theorem edge_endpoint_self_asserted `{HashCratesLaws} `{Dcbor} `{!IntoCbor Edge} `{MemoryStoreConfig}
  `{JsonCrates} `{ScopeCrate}
  clock s bearer path authorization detected body asserter body' cx s' r
  (Hself : authority_self_asserted s)
  (Hpath : starts_with (rs "/v2/") path = true) (Hedges : ends_with (rs "/edges/") path = true)
  (Hgo : auth_layer clock s bearer (rs "PUT") path authorization (cx_namespace cx) detected body
         = Proceed asserter (Some body'))
  (Hcx : cx_caller cx = Some asserter) (Hput : edge_put_route cx body' s = (s', r)) :
  authority_self_asserted s'.
Proof.
  destruct (auth_layer_edge _ _ _ _ _ _ _ _ _ _ Hpath Hedges Hgo) as (_ & n & x & _ & Ec & _).
  intros key e He Hrel. unfold edge_put_route in Hput. apply bind_cases in Hput as [->|(s1 & ns & E1 & E)].
  { rewrite resolve_write_edges in He. by eapply Hself. }
  pose proof (resolve_write_edges cx s) as Hr. rewrite E1 in Hr. cbn [fst] in Hr.
  destruct (put_edge_edges _ _ _ _ _ _ _ _ E He) as [Hold|(v & Hv & Hsrc & Hre & ->)].
  { rewrite Hr in Hold. by eapply Hself. }
  destruct (check_authority_edge_source _ _ _ _ _ _ _ _ _ Ec Hv Hre Hrel) as [Hne Hs'].
  unfold dist_registry_anchor. rewrite Hcx, decide_True by done. congruence.
Qed.

(** A well-formed put of an edge answers 400 when a content edge's source is
    not stored, 403 when a delegation is as deep as its delegator may go or
    deeper, both leaving the store as it was, and 201 otherwise; then the label
    returned is the edge's, the indexes stay in step, the edge is found from both
    its ends, and no edge of another identity is lost. *)
Theorem edge_endpoint_correct `{HashCratesLaws} `{Dcbor} `{!IntoCbor Edge} `{!EdgeFromCbor} `{MemoryStoreConfig}
  `{JsonCrates} `{ScopeCrate} cx ns body s v src tgt relation_str rel present
  (Hv : serde_from_slice body = inl v)
  (Hsrc : as_str (json_index (rs "source") v) = Some src) (Htgt : as_str (json_index (rs "target") v) = Some tgt)
  (Hrs : as_str (json_index (rs "relation") v) = Some relation_str) (Hrel : relation_parse relation_str = Some rel)
  (Hpresent : if skip_source_check rel then present = true else blob_exists src s = Ok present) :
  let e := mkEdge src tgt rel (dist_registry_anchor cx) None (serde_to_string <$> json_get (rs "metadata") v) in
  edge_inv s → slot_ok s ns e → (∀ scope, edge_scope e = Some scope → 0 ≤ dsc_delegation_depth scope) →
  ∃ s' r, put_edge cx ns body s = (s', Ok r) ∧ r_status r = put_status present ns e s ∧
    if r_status r =? 201 then
      header_of (rs "x-kappa-label") r = Some (edge_kappa e) ∧ edge_inv s' ∧
      (∀ d, ∃ es, edge_query ns (mkQuery (query_end d e) d (Some rel) None) s' = Ok es ∧ e ∈ es) ∧
      (∀ u h x, edges s !! (u, h) = Some x → (u = ns_uuid ns ∧ same_edge x e) ∨ edges s' !! (u, h) = Some x)
    else s' = s.
Proof.
  intros e Hinv Hslot Hpos. unfold put_edge, parse_body, required. rewrite Hv.
  rewrite (bind_run _ _ s s v) by done. rewrite (bind_run _ _ s s src) by (unfold of_outcome; by rewrite Hsrc).
  rewrite (bind_run _ _ s s relation_str) by (unfold of_outcome; by rewrite Hrs).
  rewrite (bind_run _ _ s s tgt) by (unfold of_outcome; by rewrite Htgt).
  rewrite (bind_run _ _ s s rel) by (unfold of_outcome; by rewrite Hrel).
  rewrite (bind_run _ _ s s present).
  2:{ destruct (skip_source_check rel); [by subst|]. apply call_ok. unfold asks. by rewrite Hpresent. }
  destruct present; cbn [negb]; [|eexists s, _; split; [done|]; done]. fold e.
  destruct (decide (put_status true ns e s = 201)) as [Hst|Hst].
  - destruct (store_edge_run ns e s Hinv Hslot Hst Hpos) as (s' & r & E & Hr & Hl & Hinv' & Hin & Hold & _).
    exists s', r. split; [done|]. rewrite Hr, Hst. split; [done|]. cbn [Z.eqb Pos.eqb]. split_and!; [done|done| |done].
    intros d. destruct (edge_query_correct ns (mkQuery (query_end d e) d (Some rel) None) s' Hinv') as (es & Eq & Hes).
    exists es. split; [done|]. apply Hes. split; [done|]. cbn [q_direction q_anchor q_relation q_asserter].
    split; [by destruct d|]. split; [by intros r0 [= <-]|done].
  - unfold store_edge. destruct (depth_refusal_run ns e s Hpos) as (o & Eo & Ho & Hiff).
    rewrite (bind_run _ _ _ _ _ Eo). destruct o as [r|]; [|by destruct Hst; apply Hiff].
    exists s, r. split; [done|]. rewrite Ho. split; [|done]. revert Hst. unfold put_status. cbn [negb].
    by repeat case_match.
Qed.

(** The diff endpoint lists, once each, exactly the wanted roots and
    the targets of their edges that are neither roots the client has nor targets of
    those roots' edges; it follows edges one step. *)
Theorem edge_diff_correct `{HashCratesLaws} ns have want s (Hinv : edge_inv s) :
  ∃ l, edge_diff ns have want s = Ok l ∧ NoDup l ∧
    ∀ k, k ∈ l ↔ near ns want s k ∧ ¬ near ns have s k.
Proof.
  unfold edge_diff. destruct (have_set_run ns have s Hinv) as (hs & Eh & Hh). rewrite Eh. cbn [mbind outcome_bind].
  destruct (want_list_run ns hs want s Hinv) as (ws & Ew & Hw). rewrite Ew. cbn [mbind outcome_bind].
  eexists. split; [done|]. split; [apply NoDup_sort_dedup|].
  intros k. by rewrite elem_of_sort_dedup, Hw, Hh.
Qed.

(** A query in both directions keeps one edge per source, target and relation: of
    two inbound edges that differ in their asserter, which an inbound query both
    returns, the second is dropped. *)
Theorem query_both_drops_asserter e1 e2 :
  same_triple e1 e2 = true → merge_edges [] [e1; e2] = [e1].
Proof. intros Ht. unfold merge_edges. cbn. by rewrite Ht. Qed.

(** * A sample request *)

Section sample.
#[local] Instance sample_edge_json : JsonCrates := {|
  serde_from_slice b :=
    if decide (b = rs "put") then
      inl (JObj [(rs "relation", JStr (rs "capability")); (rs "source", JStr (rs "alice")); (rs "target", JStr (rs "bob"))])
    else inr (rs "expected value");
  serde_to_string _ := rs "{}";
  jsonschema_is_valid _ _ := true;
|}.
#[local] Instance sample_edge_scope : ScopeCrate := λ _, None.
#[local] Instance sample_edge_decoder : EdgeFromCbor := λ _, inr (rs "not an edge").

Definition sample_edge_cx : Cx :=
  mkCx (rs "PUT") [] None (λ _, None) (RNotFound (rs "x") (rs "kappa")) (Some (rs "alice")) None None None (λ _, 0) 0 0 [] (rs "u").

Lemma edge_endpoint_self_asserted_witness :
  authority_self_asserted (edge_put_route sample_edge_cx (rs "put") empty_store).1.
Proof.
  eapply (edge_endpoint_self_asserted (λ _, 0) empty_store (Some (BearerAuth_new [(rs "t", rs "alice")] true))
            (rs "/v2/x/edges/") (Some (rs "Bearer t")) None (Some (rs "put")) (rs "alice") (rs "put") sample_edge_cx).
  - intros key e He. discriminate He.
  - reflexivity.
  - reflexivity.
  - vm_compute. reflexivity.
  - reflexivity.
  - apply surjective_pairing.
Defined.

Lemma edge_endpoint_correct_witness : ∃ s' r,
  put_edge sample_edge_cx sample_ns (rs "put") empty_store = (s', Ok r) ∧ r_status r = 201.
Proof.
  destruct (edge_endpoint_correct sample_edge_cx sample_ns (rs "put") empty_store
    (JObj [(rs "relation", JStr (rs "capability")); (rs "source", JStr (rs "alice")); (rs "target", JStr (rs "bob"))])
    (rs "alice") (rs "bob") (rs "capability") Capability true) as (s' & r & E & Hr & _);
    [reflexivity|reflexivity|reflexivity|reflexivity|reflexivity|reflexivity|apply empty_edge_inv| | |].
  - intros x Hx. discriminate Hx.
  - intros scope Hx. discriminate Hx.
  - exists s', r. split; [exact E|]. rewrite Hr. vm_compute. reflexivity.
Defined.
End sample.
