(* ===== verification/DistGc.v ===== *)
(** DistGc: pins, sweeps and cascades of the distribution module,
    [kappa-module-distribution/src/gc.rs] and [cascade.rs], over the in-memory
    store.

    The sweep of a namespace collects its roots from that namespace and deletes
    from the blobs of all of them. *)

From S2P Require Import Prelude Label Compute Types Merkle Epoch Identity Store MemStore MemTags MemEdge MemIdentity MemNamespace Gc Frame Http Auth DistEdge.

Record SweepResult := mkSweepResult {
  sw_scanned : Z;
  sw_reachable : Z;
  sw_evicted : Z;
}.

Section gc.
Context `{HashCrates} `{Dcbor} `{!IntoCbor Edge} `{MemoryStoreConfig} `{JsonCrates}.

(** * Pins *)

Definition pin_tag_name (kappa : rstr) : rstr := rs "_pin/" ++ kappa.
Definition released_tag_name (pin_kappa : rstr) : rstr := rs "_released/" ++ pin_kappa.

Definition pin_doc (kappa : rstr) (ttl : Z) (controller : rstr) : Json :=
  JObj [(rs "kappa", JStr kappa); (rs "ttl", JNum ttl); (rs "controller", JStr controller)].

Definition pin (ns : NamespaceRef) (body : bytes) : Handler Response :=
  v ← of_outcome (parse_body body);
  kappa ← required (rs "kappa") (rs "missing kappa") v;
  let ttl := default 0 (as_u64 (json_index (rs "ttl") v)) in
  let controller := default [] (as_str (json_index (rs "controller") v)) in
  let pin_content := serde_to_string (pin_doc kappa ttl controller) in
  pin_kappa ← call (pk ← blob_put_computed pin_content;
                    _ ← tag_set ns (pin_tag_name kappa) pk;
                    mret pk);
  _ ← call (_ ← blob_put_meta pin_kappa (rs "object-type") (rs "pin");
            meta_set ns pin_kappa (rs "object-type") (rs "pin"));
  mret (mkResponse 201 [(rs "x-kappa-label", pin_kappa); (rs "content-length", rs "0")] []).

(** A pin's document, when its blob is readable and parses. *)
Definition pin_meta (pin_kappa : rstr) (s : store) : outcome StoreError (option Json) :=
  pin_bytes ← ok_of (blob_get pin_kappa s);
  Ok (b ← pin_bytes; match serde_from_slice b with inl v => Some v | inr _ => None end).

Definition controller_of (doc : option Json) : rstr :=
  default [] (m ← doc; as_str (json_index (rs "controller") m)).

(** The task of [unpin]. *)
Definition unpin_task (ns : NamespaceRef) (pk : rstr) (release : bool) : M store () :=
  let released_tag := released_tag_name pk in
  was_released ← asks (λ s, o ← ok_of (tag_get ns released_tag s); Ok (bool_decide (is_Some o)));
  pins ← asks (tag_prefix ns (rs "_pin/"));
  match head (filter (λ t, te_kappa t = pk) pins) with
  | None => throw (SNotFound pk)
  | Some pin_tag =>
      doc ← asks (pin_meta pk);
      let ctrl := controller_of doc in
      if negb (bool_decide (ctrl = [])) && negb release && negb was_released then throw (SConflict ctrl)
      else if negb (bool_decide (ctrl = [])) && release then
        marker ← blob_put_computed (rs "released");
        _ ← tag_set ns released_tag marker;
        mret ()
      else
        _ ← tag_delete ns (te_name pin_tag);
        ignore (tag_delete ns released_tag)
  end.

Definition unpin (ns : NamespaceRef) (body : bytes) : Handler Response :=
  v ← of_outcome (parse_body body);
  pin_kappa ← required (rs "pin_kappa") (rs "missing pin_kappa") v;
  let release := bool_decide (as_str (json_index (rs "release") v) = Some (rs "true")) in
  result ← blocking (unpin_task ns pin_kappa release);
  match result with
  | Ok _ => mret (mkResponse 200 [] [])
  | Err (SConflict msg) =>
      mret (error_response 409 (rs "FINALIZER_OUTSTANDING") (rs "finalizer " ++ msg ++ rs " blocks unpin"))
  | Err (SNotFound _) => mret (error_response 404 (rs "BLOB_UNKNOWN") (rs "pin not found"))
  | Err e => fail (BadRequest (store_error_str e))
  | Panic => panic
  end.

(** * Sweeps *)

(** What a pin keeps: the label in its document, and its own blob. *)
Fixpoint pin_roots (pins : list TagEntry) (s : store) : outcome StoreError (list rstr) :=
  match pins with
  | [] => Ok []
  | t :: pins =>
      doc ← pin_meta (te_kappa t) s;
      rest ← pin_roots pins s;
      Ok ((match (m ← doc; as_str (json_index (rs "kappa") m)) with Some k => [k] | None => [] end)
          ++ te_kappa t :: rest)
  end.

(** The targets of the namespace's edges that keep their target alive. *)
Definition live_targets (ns : NamespaceRef) (s : store) (kappa : rstr) : list rstr :=
  match edge_query ns (mkQuery kappa Outbound None None) s with
  | Ok es => e_target <$> filter (λ e, gc_reachable (e_relation e) = true) es
  | _ => []
  end.

Fixpoint evict_blobs (reachable : gset rstr) (blobs : list rstr) : M store Z :=
  match blobs with
  | [] => mret 0
  | kappa :: blobs =>
      if decide (kappa ∈ reachable) then evict_blobs reachable blobs
      else
        _ ← ignore (blob_delete kappa);
        n ← evict_blobs reachable blobs;
        mret (1 + n)
  end.

(** [fuel] bounds the walk over the edges. *)
Definition run_sweep (fuel : nat) (ns : NamespaceRef) (sweep_id : rstr) : M store SweepResult :=
  tags ← asks (tag_list ns);
  pins ← asks (tag_prefix ns (rs "_pin/"));
  pinned ← asks (pin_roots pins);
  current ← λ s, match epoch_current ns s with
                 | (s', Ok c) => (s', Ok c)
                 | (s', Err _) => (s', Ok None)
                 | (s', Panic) => (s', Panic)
                 end;
  let roots : gset rstr := list_to_set ((te_kappa <$> tags) ++ pinned ++ option_list current) in
  reachable ← (λ s, (s, unwrap (compute_reachable fuel (elements roots) (live_targets ns s))));
  all_blobs ← asks blob_list;
  evicted ← evict_blobs reachable all_blobs;
  let result := mkSweepResult (zlen all_blobs) (Z.of_nat (size reachable)) evicted in
  let status_json := JObj [(rs "last_sweep", JStr sweep_id); (rs "objects_scanned", JNum (sw_scanned result));
                           (rs "objects_reachable", JNum (sw_reachable result));
                           (rs "objects_evicted", JNum (sw_evicted result))] in
  _ ← ignore (status_kappa ← blob_put_computed (serde_to_string status_json);
              _ ← tag_set ns (rs "_gc/last_sweep") status_kappa; mret ());
  mret result.

(** [sweep_id] is the identifier [Uuid::new_v4] draws. *)
Definition gc_sweep (fuel : nat) (ns : NamespaceRef) (sweep_id : rstr) : Handler Response :=
  result ← call (run_sweep fuel ns sweep_id);
  mret (json_response 202 (JObj [(rs "sweep_id", JStr sweep_id); (rs "objects_scanned", JNum (sw_scanned result));
                                 (rs "objects_reachable", JNum (sw_reachable result));
                                 (rs "objects_evicted", JNum (sw_evicted result))])).

(** * Status *)

(** [v[key] = x]: a null becomes an object, another value panics. *)
Fixpoint assoc_set {A} (key : rstr) (x : A) (l : list (rstr * A)) : list (rstr * A) :=
  match l with
  | [] => [(key, x)]
  | (k, y) :: l => if decide (k = key) then (key, x) :: l else (k, y) :: assoc_set key x l
  end.
Definition json_set (key : rstr) (x v : Json) : outcome StoreError Json :=
  match v with
  | JNull => Ok (JObj [(key, x)])
  | JObj l => Ok (JObj (assoc_set key x l))
  | _ => Panic
  end.

Fixpoint finalizers (pins : list TagEntry) (s : store) : outcome StoreError (list Json) :=
  match pins with
  | [] => Ok []
  | t :: pins =>
      doc ← pin_meta (te_kappa t) s;
      rest ← finalizers pins s;
      let ctrl := controller_of doc in
      if decide (ctrl = []) then Ok rest
      else Ok (JObj [(rs "kappa", JStr (default [] (m ← doc; as_str (json_index (rs "kappa") m))));
                     (rs "controller", JStr ctrl)] :: rest)
  end.

Definition no_sweep_yet : Json :=
  JObj [(rs "objects_scanned", JNum 0); (rs "objects_reachable", JNum 0); (rs "objects_evicted", JNum 0)].

Definition last_sweep (ns : NamespaceRef) (s : store) : outcome StoreError (option Json) :=
  entry ← ok_of (tag_get ns (rs "_gc/last_sweep") s);
  match entry with Some e => pin_meta (te_kappa e) s | None => Ok None end.

Definition status_task (ns : NamespaceRef) (s : store) : outcome StoreError Json :=
  pins ← ok_of (tag_prefix ns (rs "_pin/") s);
  let pins := default [] pins in
  fin ← finalizers pins s;
  sweep_result ← last_sweep ns s;
  result ← json_set (rs "pin_count") (JNum (zlen pins)) (default no_sweep_yet sweep_result);
  json_set (rs "pending_finalizers") (JArr fin) result.

Definition gc_status (ns : NamespaceRef) : Handler Response :=
  status ← call (asks (status_task ns)); mret (json_response 200 status).

(** * Cascades *)

Fixpoint delete_reachable (reachable : list rstr) : M store Z :=
  match reachable with
  | [] => mret 0
  | kappa :: reachable =>
      deleted ← (λ s, match blob_delete kappa s with
                      | (s', Ok _) => (s', Ok 1)
                      | (s', Err _) => (s', Ok 0)
                      | (s', Panic) => (s', Panic)
                      end);
      n ← delete_reachable reachable;
      mret (deleted + n)
  end.

Definition all_targets (ns : NamespaceRef) (s : store) (kappa : rstr) : list rstr :=
  match edge_query ns (mkQuery kappa Outbound None None) s with
  | Ok es => e_target <$> es
  | _ => []
  end.

Definition cascade_task (fuel : nat) (ns : NamespaceRef) (roots : list rstr) : M store (Z * Z) :=
  reachable ← (λ s, (s, unwrap (compute_reachable fuel roots (all_targets ns s))));
  deleted ← delete_reachable (elements reachable);
  mret (deleted, Z.of_nat (size reachable)).

Definition cascade (fuel : nat) (ns : NamespaceRef) (body : bytes) : Handler Response :=
  v ← of_outcome (parse_body body);
  let roots := string_array (rs "roots") v in
  if decide (roots = []) then fail (BadRequest (rs "empty roots list"))
  else
    r ← call (cascade_task fuel ns roots);
    mret (json_response 200 (JObj [(rs "deleted", JNum r.1); (rs "reachable", JNum r.2)])).

(** * Routes *)

Definition pin_route (cx : Cx) (body : bytes) : Handler Response := ns ← dist_resolve_ns_write cx; pin ns body.
Definition unpin_route (cx : Cx) (body : bytes) : Handler Response := ns ← dist_resolve_ns_write cx; unpin ns body.
Definition sweep_route (fuel : nat) (sweep_id : rstr) (cx : Cx) : Handler Response :=
  ns ← dist_resolve_ns_write cx; gc_sweep fuel ns sweep_id.
Definition status_route (cx : Cx) : Handler Response := ns ← resolve_ns_read cx; gc_status ns.
Definition cascade_route (fuel : nat) (cx : Cx) (body : bytes) : Handler Response :=
  ns ← dist_resolve_ns_write cx; cascade fuel ns body.
End gc.

(** * What a sweep keeps *)

Section facts.
Context `{HashCratesLaws} `{Dcbor} `{!IntoCbor Edge} `{MemoryStoreConfig} `{JsonCrates}.

Lemma mem_get_no_panic k s : blob_get k s ≠ Panic.
Proof.
  cbn [blob_get mem_blobs]. unfold mem_blob_get, blob_path, blob_path_for.
  destruct (split_kappa k) as [[algo hex]|]; [|done]. osimpl.
  destruct (zlen hex <? 4); [done|]. destruct (negb _); [done|]. osimpl. by destruct (fs s !! _).
Qed.

(** The document of a pin whose blob reads. *)
Definition doc_of (s : store) (pin_kappa : rstr) : option Json :=
  match blob_get pin_kappa s with
  | Ok b => match serde_from_slice b with inl v => Some v | inr _ => None end
  | _ => None
  end.

Lemma pin_meta_run k s : pin_meta k s = Ok (doc_of s k).
Proof.
  unfold pin_meta, doc_of. pose proof (mem_get_no_panic k s). by destruct (blob_get k s).
Qed.

(** Kept by the pins of the namespace. *)
Definition pinned (s : store) (ns : NamespaceRef) (k : rstr) : Prop :=
  ∃ h e, tags s !! (ns_uuid ns, h) = Some e ∧ starts_with (rs "_pin/") (te_name e) = true ∧
    (k = te_kappa e ∨ ∃ v, doc_of s (te_kappa e) = Some v ∧ as_str (json_index (rs "kappa") v) = Some k).

Lemma pin_roots_run pins s : ∃ l, pin_roots pins s = Ok l ∧
  ∀ k, k ∈ l ↔ ∃ t, t ∈ pins ∧ (k = te_kappa t ∨
    ∃ v, doc_of s (te_kappa t) = Some v ∧ as_str (json_index (rs "kappa") v) = Some k).
Proof.
  induction pins as [|t pins (l & E & Hl)]; cbn [pin_roots].
  { exists []. split; [done|]. intros k. split; [set_solver|]. by intros (t & Ht%elem_of_nil & _). }
  rewrite pin_meta_run. cbn [mbind outcome_bind]. rewrite E. cbn [mbind outcome_bind]. eexists. split; [done|].
  intros k. rewrite elem_of_app, elem_of_cons, Hl.
  assert (k ∈ match (m ← doc_of s (te_kappa t); as_str (json_index (rs "kappa") m)) with Some k => [k] | None => [] end
          ↔ ∃ v, doc_of s (te_kappa t) = Some v ∧ as_str (json_index (rs "kappa") v) = Some k) as ->.
  { destruct (doc_of s (te_kappa t)) as [v|]; cbn [mbind option_bind]; [|set_solver].
    destruct (as_str (json_index (rs "kappa") v)) eqn:Ek; set_solver. }
  set_solver.
Qed.

(** A root of the namespace's sweep: tagged, pinned, or its current epoch. *)
Definition sweep_root (s : store) (ns : NamespaceRef) (k : rstr) : Prop :=
  (∃ h e, tags s !! (ns_uuid ns, h) = Some e ∧ te_kappa e = k) ∨ pinned s ns k ∨ current_pointer ns s = Some k.

Lemma evict_agrees R blobs s s' n b :
  sweep_blobs R blobs s = (s', Ok (n, b)) → evict_blobs R blobs s = (s', Ok n).
Proof.
  revert s s' n b. induction blobs as [|k blobs IH]; intros s s' n b; cbn [sweep_blobs evict_blobs]; [by intros [= <- <- <-]|].
  case_decide; [apply IH|]. run. unfold ignore. destruct (blob_delete k s) as [s1 [u|e|]]; [|done..].
  destruct (sweep_blobs R blobs s1) as [s2 [[n' b']|e|]] eqn:E; [|done..].
  intros [= <- <- <-]. by rewrite (IH _ _ _ _ E).
Qed.

Lemma evict_fs_ok R blobs s s' n : evict_blobs R blobs s = (s', Ok n) → fs_ok (fs s) → fs_ok (fs s').
Proof.
  revert s s' n. induction blobs as [|k blobs IH]; intros s s' n; cbn [evict_blobs]; [by intros [= <- <-]|].
  case_decide; [apply IH|]. run. unfold ignore. destruct (blob_delete k s) as [s1 r] eqn:Ed. intros E Hs.
  assert (fs_ok (fs s1)) as Hs1.
  { revert Ed. cbn [blob_delete mem_blobs]. unfold mem_blob_delete. run. destruct (blob_path k) as [p|e|]; cbn;
      intros [= <- _]; [|done..]. cbn. intros q c Hq. apply lookup_delete_Some in Hq as [_ Hq]. by apply Hs. }
  destruct r; [| |done]; (destruct (evict_blobs R blobs s1) as [s2 [m|e'|]] eqn:E2; [|done..]);
    injection E as <- _; by eapply IH.
Qed.

Lemma live_targets_same ns s s' k : edges s' = edges s → fwd_index s' = fwd_index s →
  live_targets ns s' k = live_targets ns s k.
Proof. intros E1 E2. unfold live_targets, edge_query. cbn [q_direction]. by rewrite E1, E2. Qed.
End facts.

Section sweeping.
Context `{HashCratesLaws} `{Dcbor} `{!IntoCbor Edge} `{MemoryStoreConfig} `{JsonCrates}.

(** Storing the status neither fails nor changes another blob. *)
Lemma record_status_run n q ns status s : room (S n) q s → fs_ok (fs s) →
  ∃ s', ignore (k ← blob_put_computed status; _ ← tag_set ns (rs "_gc/last_sweep") k; mret () : M store ()) s = (s', Ok ()) ∧
    ∀ a hex, valid_digits a hex → label_text a hex ≠ kappa_text Sha256 status →
      blob_get (label_text a hex) s' = blob_get (label_text a hex) s.
Proof.
  intros Hroom Hfs. destruct (ingest_sha256 status s) as (f & r & E & Hk & _ & _ & Ho).
  destruct (tag_set_total n q ns (rs "_gc/last_sweep") (ir_kappa r) (set_fs f s)) as (s' & v & Et & _ & _ & _ & _ & Hfs').
  { by apply (room_same _ _ s). }
  exists s'. split.
  - unfold ignore, blob_put_computed, mbind, M_bind. rewrite E. unfold mret at 1, M_ret at 1. by rewrite Et.
  - intros a hex Hv Hne. rewrite <- (Ho a hex) by done. cbn [blob_get mem_blobs]. unfold mem_blob_get. by rewrite Hfs'.
Qed.

Lemma tagged_list ns s k :
  k ∈ te_kappa <$> collect_sorted_tags ns s ↔ ∃ h e, tags s !! (ns_uuid ns, h) = Some e ∧ te_kappa e = k.
Proof.
  rewrite list_elem_of_fmap. unfold collect_sorted_tags. setoid_rewrite elem_of_sort_by.
  setoid_rewrite ns_tags_elem. naive_solver.
Qed.

(** The set of roots the task collects. *)
Lemma sweep_roots_run ns s : ∃ l,
  pin_roots (sort_by tag_name_le (filter (λ e, starts_with (rs "_pin/") (te_name e) = true) (ns_tags ns s))) s = Ok l ∧
  ∀ k, k ∈ (list_to_set ((te_kappa <$> collect_sorted_tags ns s) ++ l ++ option_list (current_pointer ns s)) : gset rstr)
       ↔ sweep_root s ns k.
Proof.
  destruct (pin_roots_run (sort_by tag_name_le (filter (λ e, starts_with (rs "_pin/") (te_name e) = true) (ns_tags ns s))) s)
    as (l & E & Hl). exists l. split; [done|]. intros k.
  rewrite elem_of_list_to_set, !elem_of_app, tagged_list, Hl. unfold sweep_root, pinned.
  assert (k ∈ option_list (current_pointer ns s) ↔ current_pointer ns s = Some k) as ->
    by (destruct (current_pointer ns s); set_solver).
  setoid_rewrite elem_of_sort_by. setoid_rewrite list_elem_of_filter. setoid_rewrite ns_tags_elem. naive_solver.
Qed.
End sweeping.

(** * Properties *)

(** The sweep of a namespace completes when its fuel covers a finite graph that
    holds the namespace's roots; every blob reachable from a tag, a pin or the
    current epoch of that namespace along its collectable edges reads as before, and
    every other blob of the store is gone, the blobs of other namespaces included;
    only the label of the sweep's own report is exempt. *)
Theorem ns_sweep_correct `{HashCratesLaws} `{Dcbor} `{!IntoCbor Edge} `{MemoryStoreConfig} `{JsonCrates}
  fuel ns sweep_id U s
  (Hfs : fs_ok (fs s)) (Hroom : room 1 0 s) (Hnd : NoDup U) (Hroots : ∀ r, sweep_root s ns r → r ∈ U)
  (Hclosed : ∀ a b, a ∈ U → b ∈ live_targets ns s a → b ∈ U)
  (Hfuel : (length U + sum_list ((λ k, length (live_targets ns s k)) <$> U) ≤ fuel)%nat) :
  ∃ s' res report, run_sweep fuel ns sweep_id s = (s', Ok res) ∧
    ∀ a hex, valid_digits a hex →
      let k := label_text a hex in
      let live := ∃ r, sweep_root s ns r ∧ rtc (λ x y, y ∈ live_targets ns s x) r k in
      k ≠ kappa_text Sha256 report →
      (live → blob_get k s' = blob_get k s) ∧ (¬ live → blob_get k s' = Err (SNotFound k)).
Proof.
  destruct (sweep_roots_run ns s) as (pins & Ep & Hset). destruct (epoch_current_run ns s) as (f & Ec & _).
  set (s1 := set_current_epochs f s) in *.
  set (roots := list_to_set ((te_kappa <$> collect_sorted_tags ns s) ++ pins ++ option_list (current_pointer ns s)) : gset rstr) in *.
  destruct (bfs_total (live_targets ns s1) U fuel ∅ (elements roots) Hnd Hclosed) as [R HR].
  { intros q Hq%elem_of_elements. by apply Hroots, Hset. }
  { unfold pending. rewrite list_filter_all by set_solver.
    assert (length (elements roots) ≤ length U)%nat; [|change (live_targets ns s1) with (live_targets ns s); lia].
    apply submseteq_length, NoDup_submseteq; [apply NoDup_elements|]. intros q Hq%elem_of_elements. by apply Hroots, Hset. }
  pose proof (compute_reachable_exact (live_targets ns s1) fuel (elements roots) R HR) as Hex.
  destruct (blob_list_spec s1 Hfs) as (ls & Hls & _ & Hin).
  destruct (sweep_blobs_run R ls s1) as (s2 & f2 & b & Hsw & -> & Hget).
  { intros k (a & c & -> & _)%Hin. exists a, (digest_hex a c). split; [done|apply digest_hex_valid]. }
  apply evict_agrees in Hsw.
  set (report := serde_to_string (JObj [(rs "last_sweep", JStr sweep_id); (rs "objects_scanned", JNum (zlen ls));
    (rs "objects_reachable", JNum (Z.of_nat (size R))); (rs "objects_evicted", JNum (zlen (filter (λ k, k ∉ R) ls)))])).
  assert (fs_ok (fs (set_fs f2 s1))) as Hfs2 by (by eapply evict_fs_ok).
  destruct (record_status_run 0 0 ns report (set_fs f2 s1)) as (s3 & Es & Hkeep);
    [by apply (room_same _ _ s)|exact Hfs2|].
  exists s3, (mkSweepResult (zlen ls) (Z.of_nat (size R)) (zlen (filter (λ k, k ∉ R) ls))), report. split.
  { unfold run_sweep. run. unfold tag_list, tag_prefix. rewrite Ep, Ec. cbv zeta. fold roots.
    unfold compute_reachable. rewrite HR. cbn [unwrap]. rewrite Hls, Hsw. cbn [sw_scanned sw_reachable sw_evicted].
    fold report. revert Es. unfold mbind, M_bind, mret, M_ret. intros ->. done. }
  intros a hex Hv k live Hne. specialize (Hkeep a hex Hv Hne). specialize (Hget a hex Hv). fold k in Hkeep, Hget.
  rewrite Hkeep, Hget.
  assert (k ∈ R ↔ live) as Hlive.
  { rewrite Hex. unfold reaches, live. setoid_rewrite elem_of_elements. by setoid_rewrite Hset. }
  split; intros Hl.
  - by rewrite decide_False by (rewrite list_elem_of_filter; tauto).
  - case_decide as Hd; [done|]. destruct (mem_get_cases a hex s1 Hv) as [[c Hc]|Hn]; [|exact Hn].
    destruct Hd. apply list_elem_of_filter. split; [tauto|]. apply Hin. exists a, c. split; [|exact Hc].
    by eapply (get_addressed a hex s1 c).
Qed.

(** A pin makes its label a root of the namespace's sweeps: what [pin] stores is
    found again under the pin's tag, or another content with the same SHA-256 label
    was already there. *)
Theorem pin_is_root `{HashCratesLaws} `{Dcbor} `{!IntoCbor Edge} `{MemoryStoreConfig} `{JsonCrates}
  ns body v kappa s
  (Hfs : fs_ok (fs s)) (Hroom : room 1 0 s)
  (Hv : serde_from_slice body = inl v) (Hk : as_str (json_index (rs "kappa") v) = Some kappa)
  (Hjson : ∀ ttl ctrl, serde_from_slice (serde_to_string (pin_doc kappa ttl ctrl)) = inl (pin_doc kappa ttl ctrl)) :
  ∃ s' r pk, pin ns body s = (s', Ok r) ∧ r_status r = 201 ∧ header_of (rs "x-kappa-label") r = Some pk ∧
    (sweep_root s' ns kappa ∨
     ∃ c c', blob_get pk s' = Ok c' ∧ c ≠ c' ∧ kappa_text Sha256 c = pk ∧ kappa_text Sha256 c' = pk).
Proof.
  unfold pin, parse_body, required. rewrite Hv. rewrite (bind_run _ _ s s v) by done.
  rewrite (bind_run _ _ s s kappa) by (unfold of_outcome; by rewrite Hk). cbv zeta.
  set (ttl := default 0 _). set (ctrl := default [] _). set (content := serde_to_string (pin_doc kappa ttl ctrl)).
  destruct (ingest_sha256 content s) as (f & ir & E & Hik & B & Hst & _). specialize (Hst Hfs).
  destruct (tag_set_total 0 0 ns (pin_tag_name kappa) (ir_kappa ir) (set_fs f s)) as (s2 & ver & Et & _ & _ & Htag & _ & Hfs2).
  { by apply (room_same _ _ s). }
  rewrite (bind_run _ _ s s2 (ir_kappa ir)).
  2:{ apply call_ok. unfold blob_put_computed, mbind, M_bind. rewrite E. unfold mret at 1, M_ret at 1. by rewrite Et. }
  destruct (meta_set_run ns (ir_kappa ir) (rs "object-type") (rs "pin")
    (set_meta (<[meta_key (ir_kappa ir) (rs "object-type") := rs "pin"]>) s2)) as (s3 & E3 & K3 & Ht3 & _).
  rewrite (bind_run _ _ s2 s3 ()) by (apply call_ok; exact E3).
  eexists s3, _, (ir_kappa ir). split; [done|]. split; [done|]. split; [done|].
  assert (stored_under s3 content (ir_kappa ir)) as (a & c & Ha & Hget & Hc).
  { rewrite Hik. apply (k_blobs _ _ _ K3).
    - change (fs_ok (fs s2)). rewrite Hfs2. by apply (bk_ok _ _ B).
    - apply (blobs_kept_fs (set_fs f s)); [done|by apply (bk_ok _ _ B)|done]. }
  assert (a = Sha256) as -> by (rewrite Hik in Ha; by apply label_text_inj in Ha as [-> _]).
  destruct (decide (content = c)) as [<-|Hne]; [left|right; exists content, c; by rewrite Hik in *].
  right. left. destruct (tag_key ns (pin_tag_name kappa)) as [u h] eqn:Ekey.
  assert (u = ns_uuid ns) as -> by (by injection Ekey as <- _).
  exists h, (mkTag (pin_tag_name kappa) (ir_kappa ir) ver). split; [rewrite Ht3; exact Htag|].
  split; [unfold starts_with, pin_tag_name; apply bool_decide_eq_true_2; by eexists|]. right.
  exists (pin_doc kappa ttl ctrl). split; [|done]. unfold doc_of. cbn [te_kappa]. rewrite Hget. unfold content. by rewrite Hjson.
Qed.

(** * Samples *)

Lemma ns_sweep_correct_witness :
  ∃ s' res, run_sweep 1 (NamespaceRef_new sample_gc_ns) (rs "id") sample_gc_store = (s', Ok res) ∧
    blob_get (kappa_text Blake3 (rs "hello")) s' = Ok (rs "hello").
Proof.
  assert (current_pointer (NamespaceRef_new sample_gc_ns) sample_gc_store = None) as Hp by (vm_compute; reflexivity).
  assert (∀ h e, tags sample_gc_store !! (sample_gc_ns, h) = Some e →
            e = mkTag (rs "latest") (kappa_text Blake3 (rs "hello")) 1) as Htags.
  { intros h e Ht. unfold sample_gc_store in Ht. cbn [tags set_tags set_ns_records] in Ht.
    apply lookup_insert_Some in Ht as [[_ <-]|[_ Ht]]; [reflexivity|]. rewrite sample_store_tags in Ht. discriminate Ht. }
  assert (∀ k, live_targets (NamespaceRef_new sample_gc_ns) sample_gc_store k = []) as Hlt.
  { intros k. assert (fwd_index sample_gc_store = ∅) as E by (vm_compute; reflexivity).
    unfold live_targets, edge_query, indexed_at. cbn [q_direction]. rewrite E, lookup_empty. reflexivity. }
  destruct (ns_sweep_correct 1 (NamespaceRef_new sample_gc_ns) (rs "id") [kappa_text Blake3 (rs "hello")] sample_gc_store)
    as (s' & res & report & Hrun & Hk).
  - exact sample_store_ok.
  - split; [|split; vm_compute; discriminate|].
    + intros [u h] e Ht. unfold sample_gc_store in Ht. cbn [tags set_tags set_ns_records] in Ht.
      apply lookup_insert_Some in Ht as [[_ <-]|[_ Ht]]; [vm_compute; discriminate|].
      rewrite sample_store_tags in Ht. discriminate Ht.
    + intros key x Hx. change (sequences sample_store !! key = Some x) in Hx. rewrite sample_store_sequences in Hx. discriminate Hx.
  - apply NoDup_singleton.
  - intros r [(h & e & Ht & <-)|[(h & e & Ht & Hpin & _)|Hc]].
    + apply Htags in Ht as ->. by left.
    + apply Htags in Ht as ->. vm_compute in Hpin. discriminate Hpin.
    + rewrite Hp in Hc. discriminate Hc.
  - intros a b _. rewrite Hlt. by intros Hb%elem_of_nil.
  - cbn [fmap list_fmap]. rewrite Hlt. cbn. lia.
  - exists s', res. split; [exact Hrun|].
    destruct (Hk Blake3 (digest_hex Blake3 (rs "hello")) (digest_hex_valid Blake3 (rs "hello"))) as [Hlive _].
    { intros E. apply label_text_inj in E as [E _]. discriminate E. }
    unfold kappa_text. rewrite Hlive; [vm_compute; reflexivity|].
    exists (kappa_text Blake3 (rs "hello")). split; [|apply rtc_refl]. left.
    exists (item_hash (rs "latest")), (mkTag (rs "latest") (kappa_text Blake3 (rs "hello")) 1).
    split; [unfold sample_gc_store; apply lookup_insert_eq|reflexivity].
Defined.

(** The sweep of an unrelated namespace deletes the blob this one has tagged; the
    tag stays and dangles. *)
Theorem sweep_deletes_other_namespaces :
  let other := NamespaceRef_new (replicate 16 x08) in
  let s' := (run_sweep 1 other (rs "id") sample_gc_store).1 in
  blob_get (kappa_text Blake3 (rs "hello")) sample_gc_store = Ok (rs "hello") ∧
  blob_get (kappa_text Blake3 (rs "hello")) s' = Err (SNotFound (kappa_text Blake3 (rs "hello"))) ∧
  te_kappa <$> tags s' !! (sample_gc_ns, item_hash (rs "latest")) = Some (kappa_text Blake3 (rs "hello")).
Proof. vm_compute. done. Qed.
