(* ===== verification/DistMore.v ===== *)
(** DistMore: the remaining request endpoints of [kappa-module-distribution/src]:
    sequences, filters, schemas, namespace roots, bundles, reconciliation and
    transactions, over the in-memory store.

    A filter that is registered is enforced on what is pushed afterwards; a bundle
    made from one store and ingested by another carries every object over; and of
    two stores that reconcile, each learns what the other lacks in a range. *)

From S2P Require Import Prelude Label Compute Types Delta Bundle Merkle Epoch Identity Store MemStore MemTags MemEdge MemNamespace Gc Transaction Frame Http Text Auth DistEdge.

Definition json_ok (headers : list (rstr * rstr)) (status : Z) (body : bytes) : Response :=
  response status ((rs "content-type", rs "application/json") :: headers) body.

Definition as_bool (v : Json) : option bool := match v with JBool b => Some b | _ => None end.

(** [chunks(n)]. *)
Fixpoint chunks_go {A} (fuel n : nat) (l : list A) : list (list A) :=
  match fuel, l with
  | S fuel, _ :: _ => take n l :: chunks_go fuel n (drop n l)
  | _, _ => []
  end.
Definition chunks {A} (n : nat) (l : list A) : list (list A) := chunks_go (length l) n l.

Definition delta_error_str (e : DeltaError) : rstr :=
  match e with
  | Truncated what => rs "truncated delta: " ++ what
  | VarintOverflow => rs "varint overflow"
  | BaseSizeMismatch expected got => rs "base size mismatch: expected " ++ dec expected ++ rs ", got " ++ dec got
  | CopyOutOfBounds offset size base_len =>
      rs "copy out of bounds: offset " ++ dec offset ++ rs ", size " ++ dec size ++ rs ", base len " ++ dec base_len
  | ReservedOpcode => rs "reserved opcode 0x00"
  | ResultSizeMismatch expected got => rs "result size mismatch: expected " ++ dec expected ++ rs ", got " ++ dec got
  end.

Definition bundle_error_str (e : BundleError) : rstr :=
  match e with
  | BTruncated what => rs "bundle truncated: " ++ what
  | TrailerMismatch => rs "bundle trailer SHA-256 mismatch"
  | KappaMismatch k => rs "bundle kappa mismatch: " ++ k
  | DeltaInNoDeltaBundle => rs "delta entry in non-delta bundle"
  | DecodeLimitExceeded => rs "bundle decode limit exceeded (" ++ dec DECODE_MAX_BYTES ++ rs " bytes)"
  | UnsupportedEntryType t => rs "unsupported entry type: 0x" ++ hex_of_byte (b2z t)
  | UnresolvableBase k => rs "unresolvable delta base: " ++ k
  | BDelta e => rs "delta error: " ++ delta_error_str e
  | BLabel e => rs "kappa label error: " ++ label_error_str e
  | BInvalid msg => rs "bad bundle: " ++ msg
  end.

Definition txn_error_str (e : TransactionError) : rstr :=
  match e with
  | TxnIo msg => rs "io error: " ++ msg
  | TxnNotFound => rs "transaction not found"
  | AtCapacity max => rs "max concurrent transactions (" ++ dec max ++ rs ") reached"
  | PerTxnLimitExceeded max => rs "per-transaction staging limit (" ++ dec max ++ rs " bytes) exceeded"
  | GlobalLimitExceeded max => rs "global staging limit (" ++ dec max ++ rs " bytes) exceeded"
  | TxnDigestMismatch kappa => rs "content hash mismatch for " ++ kappa
  | TxnInvalidLabel kappa reason => rs "invalid kappa-label " ++ kappa ++ rs ": " ++ reason
  end.

(** The node's key, as [root] uses it; signing may fail. *)
Record NodeSigner := mkSigner {
  sn_anchor : rstr;
  sn_algorithm : rstr;
  sn_public_key : bytes;
  sn_sign : bytes → option bytes;
}.

Section handlers.
Context `{HashCrates} `{Dcbor} `{!IntoCbor Edge} `{MemoryStoreConfig} `{JsonCrates}.

(** * Sequences *)

Definition sequence_body (name : rstr) (val : Z) : bytes :=
  serde_to_string (JObj [(rs "name", JStr name); (rs "value", JNum val)]).

Definition next_route (cx : Cx) : Handler Response :=
  ns ← dist_resolve_ns_write cx;
  let name := path_param cx (rs "name") in
  val ← call (sequence_next ns name);
  mret (json_ok [] 200 (sequence_body name val)).

Definition current_route (cx : Cx) : Handler Response :=
  ns ← resolve_ns_read cx;
  let name := path_param cx (rs "name") in
  val ← call (asks (sequence_current ns name));
  mret (json_ok [] 200 (sequence_body name val)).

(** * Filters and schemas *)

Definition filter_tag (scope : rstr) : rstr := rs "_filter/" ++ scope.
Definition schema_tag (scope : rstr) : rstr := rs "_schema/" ++ scope.

(** Store the object, tag it, and index its type. *)
Definition put_tagged (ns : NamespaceRef) (tag object_type : rstr) (content : bytes) : Handler rstr :=
  kappa ← call (k ← blob_put_computed content; _ ← tag_set ns tag k; mret k);
  _ ← call (_ ← blob_put_meta kappa (rs "object-type") object_type;
            meta_set ns kappa (rs "object-type") object_type);
  mret kappa.

Definition created_label (kappa : rstr) : Response :=
  mkResponse 201 [(rs "x-kappa-label", kappa); (rs "content-length", rs "0")] [].

Definition register_filter (cx : Cx) (body : bytes) : Handler Response :=
  ns ← dist_resolve_ns_write cx;
  let scope := path_param cx (rs "filter_key") in
  kappa ← put_tagged ns (filter_tag scope) (rs "filter") body;
  mret (created_label kappa).

Definition scope_record (prefix : rstr) (t : TagEntry) : Json :=
  JObj [(rs "scope", JStr (default (te_name t) (strip_prefix prefix (te_name t)))); (rs "kappa", JStr (te_kappa t))].

Definition list_scopes (prefix key : rstr) (cx : Cx) : Handler Response :=
  ns ← resolve_ns_read cx;
  found ← call (asks (tag_prefix ns prefix));
  mret (json_ok [] 200 (serde_to_string (JObj [(key, JArr (scope_record prefix <$> found))]))).
Definition list_filters (cx : Cx) : Handler Response := list_scopes (rs "_filter/") (rs "filters") cx.

(** The first filter with the key as its address or scope, or the scope itself. *)
Definition delete_filter_task (ns : NamespaceRef) (filter_key : rstr) : M store () :=
  filters ← asks (tag_prefix ns (rs "_filter/"));
  match find (λ f, bool_decide (te_kappa f = filter_key) || bool_decide (te_name f = filter_tag filter_key)) filters with
  | Some f => tag_delete ns (te_name f)
  | None => tag_delete ns (filter_tag filter_key)
  end.

Definition delete_filter (cx : Cx) : Handler Response :=
  ns ← dist_resolve_ns_write cx;
  _ ← call (delete_filter_task ns (path_param cx (rs "filter_key")));
  mret (mkResponse 202 [] []).

Definition schema_at (ns : NamespaceRef) (scope : rstr) (s : store) : outcome StoreError (option rstr) :=
  o ← ok_of (tag_get ns (schema_tag scope) s); Ok (option_map te_kappa o).

(** A schema that replaces another derives from it. *)
Definition register_schema (cx : Cx) (body : bytes) : Handler Response :=
  ns ← dist_resolve_ns_write cx;
  let scope := path_param cx (rs "scope") in
  old ← call (asks (schema_at ns scope));
  kappa ← put_tagged ns (schema_tag scope) (rs "schema") body;
  _ ← (match old with
       | Some old_k =>
           if decide (old_k ≠ kappa)
           then ignored (edge_put ns (mkEdge kappa old_k DerivedFrom (dist_registry_anchor cx) None None))
           else mret ()
       | None => mret ()
       end);
  mret (created_label kappa).

Definition get_schema (cx : Cx) : Handler Response :=
  ns ← resolve_ns_read cx;
  '(kappa, content) ← call (entry ← asks (tag_get ns (schema_tag (path_param cx (rs "scope"))));
                            content ← asks (blob_get (te_kappa entry));
                            mret (te_kappa entry, content));
  mret (response 200 [(rs "content-length", dec (zlen content)); (rs "x-kappa-label", kappa);
                      (rs "content-type", rs "application/octet-stream")] content).

Definition list_schemas (cx : Cx) : Handler Response := list_scopes (rs "_schema/") (rs "schemas") cx.

(** * Namespace roots *)

Definition is_public (t : TagEntry) : bool := negb (starts_with (rs "_") (te_name t)).

Definition opt_str (o : option rstr) : Json := match o with Some s => JStr s | None => JNull end.

Definition namespace_root (signer : option NodeSigner) (timestamp : rstr) (cx : Cx) : Handler Response :=
  ns ← resolve_ns_read cx;
  let want_signed := bool_decide (query_param cx (rs "signed") = Some (rs "true")) in
  '(root_kappa, tag_count) ← call (root ← epoch_current ns;
                                   tags ← asks (tag_list ns);
                                   mret (root, zlen (filter (λ t, is_public t = true) tags)));
  let unsigned := json_ok [] 200 (serde_to_string (JObj [(rs "root", opt_str root_kappa); (rs "count", JNum tag_count)])) in
  mret (match want_signed, root_kappa, signer with
        | true, Some rk, Some ni =>
            let message := ns_as_str ns ++ [x0a] ++ rk ++ [x0a] ++ timestamp in
            let signature := default [] (sn_sign ni message) in
            json_ok [] 200 (serde_to_string (JObj
              [(rs "namespace", JStr (ns_as_str ns)); (rs "root", JStr rk); (rs "count", JNum tag_count);
               (rs "timestamp", JStr timestamp); (rs "algorithm", JStr (sn_algorithm ni));
               (rs "public_key", JStr (hex_encode (sn_public_key ni))); (rs "signature", JStr (hex_encode signature));
               (rs "signer_anchor", JStr (sn_anchor ni))]))
        | _, _, _ => unsigned
        end).

Definition proof_task (ns : NamespaceRef) (name : rstr) : M store Json :=
  current ← epoch_current ns;
  root_kappa ← lift (ok_or current (SNotFound (rs "no epoch root")));
  epoch ← epoch_get root_kappa;
  tags ← asks (tag_list ns);
  let public_tags := filter (λ t, is_public t = true) tags in
  index ← lift (ok_or (position (λ t, bool_decide (te_name t = name)) public_tags)
                  (SNotFound (rs "tag " ++ name ++ rs " not found")));
  mret (JObj [(rs "root", JStr root_kappa); (rs "epoch_number", JNum (f_epoch_number (er_fields epoch)));
              (rs "tag_name", JStr name); (rs "tag_index", JNum (Z.of_nat index));
              (rs "timestamp_ms", JNum (f_timestamp_ms (er_fields epoch)))]).

Definition namespace_proof (cx : Cx) : Handler Response :=
  ns ← resolve_ns_read cx;
  result ← call (proof_task ns (path_param cx (rs "name")));
  mret (json_ok [] 200 (serde_to_string result)).

(** * Bundles *)

Fixpoint read_objects (kappas : list rstr) (s : store) : outcome StoreError (list (rstr * bytes)) :=
  match kappas with
  | [] => Ok []
  | k :: rest =>
      content ← blob_get k s;
      objects ← read_objects rest s;
      Ok ((k, content) :: objects)
  end.

Definition bundle_create (cx : Cx) (body : bytes) : Handler Response :=
  ns ← dist_resolve_ns_write cx;
  v ← of_outcome (parse_body body);
  let kappas := string_array (rs "kappas") v in
  let delta := default false (as_bool (json_index (rs "delta") v)) in
  if decide (kappas = []) then fail (BadRequest (rs "empty kappas list"))
  else
    bundle ← call (objects ← asks (read_objects kappas); mret (encode objects delta));
    mret (response 200 [(rs "content-type", rs "application/x-kappa-bundle")] bundle).

Fixpoint ingest_entries (entries : list BundleEntry) : M store (list rstr) :=
  match entries with
  | [] => mret []
  | entry :: rest =>
      _ ← ingest_verified (be_kappa entry) (be_content entry);
      kappas ← ingest_entries rest;
      mret (be_kappa entry :: kappas)
  end.

(** Bases are looked up in the store. *)
Definition base_in_store (s : store) : BaseResolver :=
  Some (λ kappa, match blob_get kappa s with Ok content => Some content | _ => None end).

Definition bundle_ingest (cx : Cx) (body : bytes) : Handler Response :=
  ns ← dist_resolve_ns_write cx;
  ingested ← call (entries ← asks (λ s, map_err (λ e, SRejected (bundle_error_str e)) (decode body (base_in_store s)));
                   ingest_entries entries);
  mret (json_ok [] 200 (serde_to_string (JObj [(rs "ingested", JArr (JStr <$> ingested))]))).

(** * Reconciliation *)

Definition name_in_range (lower upper : rstr) (t : TagEntry) : bool :=
  is_public t && bytes_leb lower (te_name t) && bytes_ltb (te_name t) upper.

(** The addresses bound to the public names of a range, in the order of the names. *)
Definition items_in_range (ns : NamespaceRef) (lower upper : rstr) (s : store) : outcome StoreError (list rstr) :=
  tags ← tag_list ns s;
  Ok (map te_kappa (List.filter (name_in_range lower upper) tags)).

Definition items_fingerprint (items : list rstr) : bytes := blake3_hash (join (rs ",") items).

Definition PAYLOAD_THRESHOLD : nat := 32.

Definition items_body (lower upper : rstr) (items : list rstr) : Json :=
  JObj [(rs "type", JStr (rs "items")); (rs "lower", JStr lower); (rs "upper", JStr upper); (rs "items", JArr (JStr <$> items))].

Definition sub_range (lower upper : rstr) (parts : list (list rstr)) (i : nat) (chunk : list rstr) : option Json :=
  if decide (chunk = []) then None
  else
    let sub_lower := match i with O => lower | S _ => default [] (head chunk) end in
    let sub_upper := if (length parts <=? i + 1)%nat then upper
                     else default upper (c ← parts !! (i + 1)%nat; head c) in
    Some (JObj [(rs "type", JStr (rs "fingerprint")); (rs "lower", JStr sub_lower); (rs "upper", JStr sub_upper);
                (rs "fingerprint", JStr (hex_encode (items_fingerprint chunk))); (rs "count", JNum (zlen chunk))]).

Definition sub_ranges (lower upper : rstr) (items : list rstr) : list Json :=
  let parts := chunks ((length items + 3) / 4)%nat items in
  omap id (imap (sub_range lower upper parts) parts).

Definition handle_fingerprint `{HexDecode} (ns : NamespaceRef) (v : Json) : Handler Response :=
  lower ← required (rs "lower") (rs "missing lower") v;
  upper ← required (rs "upper") (rs "missing upper") v;
  peer_fp_hex ← required (rs "fingerprint") (rs "missing fingerprint") v;
  items ← call (asks (items_in_range ns lower upper));
  let our_fp := items_fingerprint items in
  peer_fp ← of_outcome (ok_or (hex_decode peer_fp_hex) (BadRequest (rs "invalid fingerprint hex")));
  mret (json_ok [] 200 (serde_to_string (
    if (length peer_fp =? 32)%nat && bool_decide (our_fp = peer_fp)
    then JObj [(rs "type", JStr (rs "done")); (rs "lower", JStr lower); (rs "upper", JStr upper)]
    else if (length items <=? PAYLOAD_THRESHOLD)%nat then items_body lower upper items
    else JObj [(rs "type", JStr (rs "subdivide")); (rs "ranges", JArr (sub_ranges lower upper items))]))).

Definition handle_items_request (ns : NamespaceRef) (v : Json) : Handler Response :=
  lower ← required (rs "lower") (rs "missing lower") v;
  upper ← required (rs "upper") (rs "missing upper") v;
  items ← call (asks (items_in_range ns lower upper));
  mret (json_ok [] 200 (serde_to_string (items_body lower upper items))).

Definition handle_items (ns : NamespaceRef) (v : Json) : Handler Response :=
  lower ← required (rs "lower") (rs "missing lower") v;
  upper ← required (rs "upper") (rs "missing upper") v;
  let peer_items := string_array (rs "items") v in
  our_items ← call (asks (items_in_range ns lower upper));
  let new_for_peer := filter (λ k, k ∉ (list_to_set peer_items : gset rstr)) our_items in
  mret (json_ok [] 200 (serde_to_string (items_body lower upper new_for_peer))).

Definition reconcile_route `{HexDecode} (cx : Cx) (body : bytes) : Handler Response :=
  ns ← dist_resolve_ns_write cx;
  v ← of_outcome (parse_body body);
  msg_type ← required (rs "type") (rs "missing type field") v;
  if decide (msg_type = rs "fingerprint") then handle_fingerprint ns v
  else if decide (msg_type = rs "items_request") then handle_items_request ns v
  else if decide (msg_type = rs "items") then handle_items ns v
  else fail (BadRequest (rs "unknown reconcile message type: " ++ msg_type)).

(** * Transactions *)

(** A request sees the transaction manager and the store. *)
Definition TxnHandler (A : Type) : Type := manager → store → manager * store * outcome HttpError A.

(** [resolve_ns_write_async] comes first; a call to the manager follows, its errors
    bad requests. *)
Definition with_txn {A} (cx : Cx) (f : NamespaceRef → manager → store → manager * store * outcome TransactionError A)
  : TxnHandler A := λ m s,
  match dist_resolve_ns_write cx s with
  | (s, Ok ns) =>
      match f ns m s with
      | (m, s, Ok a) => (m, s, Ok a)
      | (m, s, Err e) => (m, s, Err (BadRequest (txn_error_str e)))
      | (m, s, Panic) => (m, s, Err TaskPanicked)
      end
  | (s, Err e) => (m, s, Err e)
  | (s, Panic) => (m, s, Panic)
  end.

Definition txn_answer {A} (f : A → Response) (h : TxnHandler A) : TxnHandler Response := λ m s,
  match h m s with
  | (m, s, Ok a) => (m, s, Ok (f a))
  | (m, s, Err e) => (m, s, Err e)
  | (m, s, Panic) => (m, s, Panic)
  end.

Context `{TxnLimits}.

(** [id] is the identifier [begin] draws. *)
Definition begin_route (id : rstr) (cx : Cx) : TxnHandler Response :=
  txn_answer (λ txn_id, json_ok [] 201 (serde_to_string (JObj [(rs "transaction_id", JStr txn_id)])))
    (with_txn cx (λ ns m s, let '(m, r) := begin id (cx_instant cx 0) (ns_as_str ns) m in (m, s, r))).

Definition put_route (cx : Cx) (body : bytes) : TxnHandler Response :=
  let kappa := path_param cx (rs "kappa") in
  txn_answer (λ created : bool, mkResponse (if created then 201 else 200)
                [(rs "x-kappa-label", kappa); (rs "content-length", rs "0")] [])
    (with_txn cx (λ _ m s, let '(m, r) := put (path_param cx (rs "id")) kappa body m in (m, s, r))).

Definition commit_route (cx : Cx) : TxnHandler Response :=
  txn_answer (λ promoted, json_ok [] 200 (serde_to_string (JObj [(rs "promoted", JArr (JStr <$> promoted))])))
    (with_txn cx (λ _ m s, commit (path_param cx (rs "id")) m s)).

Definition abort_route (cx : Cx) : TxnHandler Response :=
  txn_answer (λ _ : (), mkResponse 204 [] [])
    (with_txn cx (λ _ m s, let '(m, r) := abort (path_param cx (rs "id")) m in (m, s, r))).
End handlers.

(** * Registered filters *)

Lemma lossy_ascii s : forallb is_ascii s = true → from_utf8_lossy s = s.
Proof.
  unfold from_utf8_lossy. induction s as [|b s IH]; intros Ha; [done|]. cbn [forallb] in Ha. apply andb_true_iff in Ha as [Hb Hs].
  cbn [length lossy_loop]. unfold is_ascii in Hb. unfold lossy_step. rewrite Hb. change (drop 1 (b :: s)) with s. by rewrite IH.
Qed.

Section filters.
Context `{HashCratesLaws} `{Dcbor} `{!IntoCbor Edge} `{MemoryStoreConfig} `{JsonCrates}.

(** The file of the content is written, or was there. *)
Lemma ingest_writes content s : let path := label_path blob_root Sha256 (digest_hex Sha256 content) in
  ∃ f r, ingest_compute Sha256 content s = (set_fs f s, Ok r) ∧ ir_kappa r = kappa_text Sha256 content ∧
    (is_Some (fs s !! path) ∧ f (fs s) = fs s ∨ fs s !! path = None ∧ f (fs s) = write_atomically path content (fs s)).
Proof.
  intros path. set (v := mkVerified (label_of Sha256 (digest_hex Sha256 content)) content).
  assert (vc_kappa v = Ok (kappa_text Sha256 content)) as Hk by exact (verified_ok_kappa v Sha256 content eq_refl).
  unfold ingest_compute, mbind, M_bind, mret, M_ret, lift, reject_label. rewrite (compute_verified Sha256 content) by done. cbn [map_err]. fold v.
  rewrite Hk. cbn [map_err blob_put_verified mem_blobs mandatory_axes put_additional]. rewrite (mem_put_spec v s Sha256 eq_refl).
  cbn [vc_content v]. fold path. case_decide as Hp; cbn.
  - exists id. eexists. split; [by destruct s|]. split; [done|by left].
  - exists (write_atomically path content). eexists. split; [done|]. split; [done|right]. split; [by apply eq_None_not_Some|done].
Qed.

(** Nothing else is stored under the address of the content. *)
Definition own_address (content : bytes) (s : store) : Prop :=
  ∀ c, blob_get (kappa_text Sha256 content) s = Ok c → c = content.

(** What is hashed and stored is read back from every store with these files. *)
Lemma ingest_reads content s : own_address content s →
  ∃ f r, ingest_compute Sha256 content s = (set_fs f s, Ok r) ∧ ir_kappa r = kappa_text Sha256 content ∧
    blobs_kept s (set_fs f s) ∧ ∀ s', fs s' = fs (set_fs f s) → blob_get (kappa_text Sha256 content) s' = Ok content.
Proof.
  intros Hown. destruct (ingest_writes content s) as (f & r & E & Hk & Hf).
  destruct (ingest_sha256 content s) as (f' & r' & E' & _ & B & _). rewrite E in E'. apply pair_eq in E' as [E' _].
  exists f, r. split_and!; [done|done|by rewrite E'|]. intros s' Es. revert Hown. unfold own_address. cbn [blob_get mem_blobs].
  unfold mem_blob_get. rewrite Es. cbn [fs set_fs].
  rewrite (blob_path_label Sha256 _ (digest_hex_valid Sha256 content) : blob_path (kappa_text Sha256 content) = _). osimpl. intros Hown.
  destruct Hf as [[[c Hc] Hf]|[_ Hf]]; rewrite Hf.
  - rewrite Hc in *. by rewrite (Hown c eq_refl).
  - unfold write_atomically. by rewrite lookup_insert_eq.
Qed.

(** Storing, tagging and indexing succeeds, and leaves the object under its tag. *)
Lemma put_tagged_run n q ns tag ot content s : own_address content s → room (S n) q s →
  ∃ s' v, put_tagged ns tag ot content s = (s', Ok (kappa_text Sha256 content)) ∧ room n q s' ∧
    blob_get (kappa_text Sha256 content) s' = Ok content ∧
    tags s' !! tag_key ns tag = Some (mkTag tag (kappa_text Sha256 content) v) ∧
    (∀ key, key ≠ tag_key ns tag → tags s' !! key = tags s !! key).
Proof.
  intros Hown Hroom. destruct (ingest_reads content s Hown) as (f & r & E1 & Hk & _ & Hf). set (s1 := set_fs f s).
  destruct (tag_set_total n q ns tag (ir_kappa r) s1) as (s2 & v & E2 & R2 & [_ T2 _ _] & Tk & _ & F2); [by apply (room_same _ _ s)|].
  set (s3 := set_meta (<[meta_key (kappa_text Sha256 content) (rs "object-type") := ot]>) s2).
  destruct (ensure_namespace_run ns s3) as (g & h & E3).
  set (s4 := set_ns_meta (push_at (ns_uuid ns, item_hash (rs "object-type"), item_hash ot) (kappa_text Sha256 content)) (set_ns_aliases g (set_ns_records h s3))).
  exists s4, v. unfold put_tagged.
  assert (call (k ← blob_put_computed content; _ ← tag_set ns tag k; mret k) s = (s2, Ok (kappa_text Sha256 content))) as C1.
  { apply call_ok. unfold blob_put_computed, mbind, M_bind. rewrite E1. cbn. fold s1. by rewrite E2, Hk. }
  assert (call (_ ← blob_put_meta (kappa_text Sha256 content) (rs "object-type") ot;
    meta_set ns (kappa_text Sha256 content) (rs "object-type") ot) s2 = (s4, Ok ())) as C2.
  { apply call_ok. unfold meta_set, mbind, M_bind, blob_put_meta, modify. fold s3. by rewrite E3. }
  rewrite (bind_run _ _ _ _ _ C1), (bind_run _ _ _ _ _ C2).
  split_and!; [done|by apply (room_same _ _ s2)| |by cbn; rewrite Tk, Hk|intros key Hne; cbn; rewrite T2 by set_solver; done].
  by apply Hf.
Qed.

Lemma run_filters_rejects filters content s t b reason : t ∈ filters → blob_get (te_kappa t) s = Ok b →
  filter_rejects (te_kappa t) b content = Some reason → ∃ reason', run_filters filters content s = Err reason'.
Proof.
  intros Hin Hb Hr. assert (∀ k, blob_get k s ≠ Panic) as Hnp.
  { intros k. cbn [blob_get mem_blobs]. unfold mem_blob_get, blob_path, blob_path_for, ok_or, map_err. intros E.
    repeat case_match; simplify_eq/=; repeat case_match; done. }
  induction filters as [|t' filters IH]; [by apply not_elem_of_nil in Hin|]. cbn [run_filters].
  apply elem_of_cons in Hin as [<-|Hin]; [rewrite Hb, Hr; by eexists|].
  destruct (blob_get (te_kappa t') s) as [b'| |] eqn:E; [|auto|by apply Hnp in E].
  destruct (filter_rejects _ b' content); [by eexists|auto].
Qed.

(** A filter that is registered is enforced: once a client has registered a rule
    that denies a text under some scope of a namespace, every content with that text
    in it is refused there with status 422, whatever other filters there are. *)
Theorem registered_filter_enforced (cx : Cx) (ns : NamespaceRef) (needle content : bytes) (s : store)
  (Hns : cx_namespace cx = RExists ns) (Hroom : room 1 0 s) (Hown : own_address (rs "deny:" ++ needle) s)
  (Hne : needle ≠ []) (Hascii : forallb is_ascii needle = true)
  (Hin : ∃ pre post, content = pre ++ needle ++ post) :
  ∃ s' r, register_filter cx (rs "deny:" ++ needle) s = (s', Ok (created_label (kappa_text Sha256 (rs "deny:" ++ needle)))) ∧
    evaluate_filters ns content s' = (s', Ok (Some r)) ∧ r_status r = 422.
Proof.
  set (rule := rs "deny:" ++ needle) in *. set (scope := path_param cx (rs "filter_key")).
  destruct (put_tagged_run 0 0 ns (filter_tag scope) (rs "filter") rule s Hown Hroom) as (s1 & v & E & _ & Hg & Ht & _).
  set (t := mkTag (filter_tag scope) (kappa_text Sha256 rule) v) in *.
  assert (∃ reason, filter_rejects (te_kappa t) rule content = Some reason) as [reason Hr].
  { unfold filter_rejects. rewrite lossy_ascii by (unfold rule; by rewrite forallb_app, Hascii).
    unfold rule at 1. rewrite strip_prefix_app, bool_decide_eq_false_2 by done. cbn [negb andb].
    assert (has_window needle content = true) as ->; [|by eexists]. destruct Hin as (pre & post & ->).
    apply (str_contains_spec needle). exists (length pre). rewrite !length_app, drop_app_length. split; [lia|by eexists]. }
  destruct (run_filters_rejects (sort_by tag_name_le (filter (λ e, starts_with (rs "_filter/") (te_name e) = true) (ns_tags ns s1)))
    content s1 t rule reason) as [reason' Er].
  { apply elem_of_sort_by, list_elem_of_filter. split; [by apply bool_decide_eq_true_2; eexists|].
    unfold ns_tags. apply list_elem_of_fmap. exists (tag_key ns (filter_tag scope), t). split; [done|].
    apply list_elem_of_filter. split; [done|]. by apply elem_of_map_to_list. }
  { exact Hg. }
  { exact Hr. }
  exists s1. eexists. split; [|split].
  - unfold register_filter. fold scope. rewrite (bind_run _ _ _ s ns) by (unfold dist_resolve_ns_write; by rewrite Hns).
    cbv zeta. by rewrite (bind_run _ _ _ _ _ E).
  - unfold evaluate_filters, tag_prefix. osimpl. by rewrite Er.
  - done.
Qed.
End filters.

(** * Bundles between stores *)

Section bundles.
Context `{HashCratesLaws} `{Dcbor} `{!IntoCbor Edge} `{MemoryStoreConfig} `{JsonCrates}.

Lemma read_objects_ok objects s : (∀ k c, (k, c) ∈ objects → blob_get k s = Ok c) → read_objects objects.*1 s = Ok objects.
Proof.
  induction objects as [|[k c] objects IH]; intros Hg; [done|]. cbn [fmap list_fmap read_objects fst].
  rewrite (Hg k c) by (by left). osimpl. rewrite IH by (intros; apply Hg; by right). done.
Qed.

(** Entries addressed by their labels are all stored, and what was stored stays. *)
Lemma ingest_bundle_run entries s : fs_ok (fs s) → Forall entry_addressed entries →
  ∃ s', ingest_entries entries s = (s', Ok (be_kappa <$> entries)) ∧ fs_ok (fs s') ∧
    (∀ e, e ∈ entries → stored_under s' (be_content e) (be_kappa e)) ∧
    (∀ c k, stored_under s c k → stored_under s' c k).
Proof.
  intros Hs Hall. revert s Hs. induction Hall as [|[k c] entries (a & Hk & Hr) _ IH]; intros s Hs; [exists s; set_solver|].
  cbn in Hk, Hr. subst k.
  destruct (ingest_verified_spec (St := store) a c s) as (s1 & b & E1 & Hs1 & St1 & K1); [exact Hs|exact Hr|apply sha256_accepted|].
  destruct (IH s1 Hs1) as (s2 & E2 & Hs2 & St2 & K2). exists s2. cbn [ingest_entries be_kappa be_content fmap list_fmap].
  unfold mbind, M_bind. rewrite E1, E2. split_and!; [done|done| |auto].
  intros e [->|He]%elem_of_cons; [|by apply St2]. apply K2, St1. by left.
Qed.

(** A bundle carries objects from one store to another: the bundle that one server
    makes of objects it holds is accepted by another, which answers with the same
    addresses up to order, then holds each of the objects, and still has everything it
    had. *)
Theorem bundle_transfer (cx cx2 : Cx) (ns ns2 : NamespaceRef) (body : bytes) (v : Json) (objects : list (rstr * bytes)) (s s2 : store)
  (Hns : cx_namespace cx = RExists ns) (Hns2 : cx_namespace cx2 = RExists ns2)
  (Hbody : serde_from_slice body = inl v) (Hkappas : string_array (rs "kappas") v = objects.*1) (Hne : objects ≠ [])
  (Hheld : ∀ k c, (k, c) ∈ objects → blob_get k s = Ok c) (Hobj : bundle_objects objects)
  (Hlen : zlen (encode objects (default false (as_bool (json_index (rs "delta") v)))) ≤ usize_max) (Hfs : fs_ok (fs s2)) :
  ∃ bundle s2' kappas,
    bundle_create cx body s = (s, Ok (response 200 [(rs "content-type", rs "application/x-kappa-bundle")] bundle)) ∧
    bundle_ingest cx2 bundle s2
      = (s2', Ok (json_ok [] 200 (serde_to_string (JObj [(rs "ingested", JArr (JStr <$> kappas))])))) ∧
    kappas ≡ₚ objects.*1 ∧ (∀ k c, (k, c) ∈ objects → stored_under s2' c k) ∧
    (∀ c k, stored_under s2 c k → stored_under s2' c k).
Proof.
  set (delta := default false _) in *.
  destruct (bundle_decodes objects delta (base_in_store s2) Hobj Hlen) as (entries & Hdec & Hperm & _).
  destruct (ingest_bundle_run entries s2 Hfs) as (s3 & E3 & _ & St3 & K3).
  { rewrite Hperm. apply Forall_fmap, Forall_forall. intros [k c] Hin. by apply (bo_addressed _ Hobj). }
  exists (encode objects delta), s3, (be_kappa <$> entries). split_and!.
  - unfold bundle_create. rewrite (bind_run _ _ _ s ns) by (unfold dist_resolve_ns_write; by rewrite Hns).
    rewrite (bind_run _ _ _ s v) by (unfold of_outcome, parse_body; by rewrite Hbody). cbv zeta. fold delta. rewrite Hkappas.
    rewrite decide_False by (by destruct objects). rewrite (bind_run _ _ _ s (encode objects delta)); [done|].
    apply call_ok. unfold mbind, M_bind, asks. by rewrite (read_objects_ok objects s Hheld).
  - unfold bundle_ingest. rewrite (bind_run _ _ _ s2 ns2) by (unfold dist_resolve_ns_write; by rewrite Hns2).
    rewrite (bind_run _ _ _ s3 (be_kappa <$> entries)); [done|]. apply call_ok. unfold mbind, M_bind, asks. by rewrite Hdec.
  - rewrite Hperm, <- list_fmap_compose. replace (be_kappa ∘ (λ '(k, c), mkEntry k c) <$> objects) with (objects.*1); [done|].
    apply list_fmap_ext. by intros ? [].
  - intros k c Hin. apply (St3 (mkEntry k c)). rewrite Hperm. apply list_elem_of_fmap. by exists (k, c).
  - exact K3.
Qed.
End bundles.

(** * Reconciling a range *)

Section reconciling.
Context `{HashCratesLaws} `{Dcbor} `{!IntoCbor Edge} `{MemoryStoreConfig} `{JsonCrates} `{HexDecodeLaws}.

(** The message one server sends about a range. *)
Definition fingerprint_message (lower upper : rstr) (items : list rstr) (v : Json) : Prop :=
  as_str (json_index (rs "lower") v) = Some lower ∧ as_str (json_index (rs "upper") v) = Some upper ∧
  as_str (json_index (rs "fingerprint") v) = Some (hex_of_bytes (items_fingerprint items)).

Lemma required_run key msg v x s : as_str (json_index key v) = Some x → required key msg v s = (s, Ok x).
Proof. intros E. unfold required, of_outcome. by rewrite E. Qed.

Lemma items_run ns lower upper s : ∃ items, items_in_range ns lower upper s = Ok items ∧
  items = map te_kappa (List.filter (name_in_range lower upper) (collect_sorted_tags ns s)).
Proof. unfold items_in_range, tag_list. osimpl. eauto. Qed.

(** A fingerprint of the same addresses is answered with [done]; otherwise a small
    range is answered with its addresses, and an items message with exactly the
    addresses the sender does not have. *)
Theorem reconcile_answers (ns : NamespaceRef) (lower upper : rstr) (items peer : list rstr) (v : Json) (s : store)
  (Hours : items_in_range ns lower upper s = Ok items) (Hmsg : fingerprint_message lower upper peer v) :
  (items_fingerprint items = items_fingerprint peer →
     handle_fingerprint ns v s = (s, Ok (json_ok [] 200 (serde_to_string
       (JObj [(rs "type", JStr (rs "done")); (rs "lower", JStr lower); (rs "upper", JStr upper)]))))) ∧
  (items_fingerprint items ≠ items_fingerprint peer → (length items ≤ PAYLOAD_THRESHOLD)%nat →
     handle_fingerprint ns v s = (s, Ok (json_ok [] 200 (serde_to_string (items_body lower upper items))))) ∧
  (∀ w, as_str (json_index (rs "lower") w) = Some lower → as_str (json_index (rs "upper") w) = Some upper →
     string_array (rs "items") w = peer →
     ∃ new, handle_items ns w s = (s, Ok (json_ok [] 200 (serde_to_string (items_body lower upper new)))) ∧
       (∀ k, k ∈ new ↔ k ∈ items ∧ k ∉ peer)).
Proof.
  destruct Hmsg as (Hlo & Hup & Hfp).
  assert (length (items_fingerprint peer) = 32%nat) as Hlen.
  { pose proof (digest_length Blake3 (join (rs ",") peer)) as Hd. change (zlen (items_fingerprint peer) = 32) in Hd. lia. }
  assert (handle_fingerprint ns v s = (s, Ok (json_ok [] 200 (serde_to_string (
    if bool_decide (items_fingerprint items = items_fingerprint peer)
    then JObj [(rs "type", JStr (rs "done")); (rs "lower", JStr lower); (rs "upper", JStr upper)]
    else if (length items <=? PAYLOAD_THRESHOLD)%nat then items_body lower upper items
    else JObj [(rs "type", JStr (rs "subdivide")); (rs "ranges", JArr (sub_ranges lower upper items))]))))) as Hrun.
  { unfold handle_fingerprint. rewrite (bind_run _ _ _ _ _ (required_run _ _ _ _ _ Hlo)), (bind_run _ _ _ _ _ (required_run _ _ _ _ _ Hup)),
      (bind_run _ _ _ _ _ (required_run _ _ _ _ _ Hfp)).
    rewrite (bind_run _ _ _ s items) by (apply call_ok; unfold asks; by rewrite Hours). cbv zeta.
    rewrite (bind_run _ _ _ s (items_fingerprint peer)) by (unfold of_outcome; by rewrite hex_decode_encode).
    by rewrite Hlen. }
  split_and!.
  - intros E. by rewrite Hrun, bool_decide_eq_true_2.
  - intros E Hl. by rewrite Hrun, bool_decide_eq_false_2, (proj2 (Nat.leb_le _ _)).
  - intros w Hwl Hwu Hwi. eexists. split.
    + unfold handle_items. rewrite (bind_run _ _ _ _ _ (required_run _ _ _ _ _ Hwl)), (bind_run _ _ _ _ _ (required_run _ _ _ _ _ Hwu)).
      cbv zeta. rewrite (bind_run _ _ _ s items) by (apply call_ok; unfold asks; by rewrite Hours). by rewrite Hwi.
    + intros k. rewrite list_elem_of_filter, elem_of_list_to_set. tauto.
Qed.
End reconciling.

(** * Samples *)

#[local] Instance sample_more_json : JsonCrates := {|
  serde_from_slice b := if decide (b = rs "objects")
    then inl (JObj [(rs "kappas", JArr [JStr (kappa_text Sha256 (rs "one")); JStr (kappa_text Sha256 (rs "two"))]); (rs "delta", JBool true)])
    else inr (rs "bad");
  serde_to_string v := match v with JObj l => concat (fst <$> l) | _ => [] end;
  jsonschema_is_valid _ _ := true;
|}.

Definition sample_more_cx : Cx :=
  mkCx (rs "PUT") [(rs "filter_key", rs "all")] None (λ _, None) (RExists sample_ns) None None None None (λ _, 0) 7 0 [] [].

Lemma registered_filter_enforced_witness :
  ∃ s' r, register_filter sample_more_cx (rs "deny:secret") empty_store
      = (s', Ok (created_label (kappa_text Sha256 (rs "deny:secret")))) ∧
    evaluate_filters sample_ns (rs "a secret text") s' = (s', Ok (Some r)) ∧ r_status r = 422.
Proof.
  apply (registered_filter_enforced sample_more_cx sample_ns (rs "secret") (rs "a secret text") empty_store).
  - reflexivity.
  - apply room_empty; vm_compute; discriminate.
  - intros c Hc. vm_compute in Hc. discriminate Hc.
  - discriminate.
  - reflexivity.
  - exists (rs "a "), (rs " text"). reflexivity.
Defined.

Definition two_objects : list (rstr * bytes) := [(kappa_text Sha256 (rs "one"), rs "one"); (kappa_text Sha256 (rs "two"), rs "two")].
Definition two_stored : store := (ingest_compute Sha256 (rs "two") (ingest_compute Sha256 (rs "one") empty_store).1).1.

Lemma bundle_transfer_witness :
  ∃ bundle s2' kappas,
    bundle_create sample_more_cx (rs "objects") two_stored
      = (two_stored, Ok (response 200 [(rs "content-type", rs "application/x-kappa-bundle")] bundle)) ∧
    bundle_ingest sample_more_cx bundle empty_store
      = (s2', Ok (json_ok [] 200 (serde_to_string (JObj [(rs "ingested", JArr (JStr <$> kappas))])))) ∧
    kappas ≡ₚ two_objects.*1 ∧ (∀ k c, (k, c) ∈ two_objects → stored_under s2' c k) ∧
    (∀ c k, stored_under empty_store c k → stored_under s2' c k).
Proof.
  assert (∀ P : rstr → bytes → Prop, P (kappa_text Sha256 (rs "one")) (rs "one") → P (kappa_text Sha256 (rs "two")) (rs "two") →
    ∀ k c, (k, c) ∈ two_objects → P k c) as Hcase.
  { intros P H1 H2 k c Hin. apply elem_of_cons in Hin as [[= -> ->]|Hin]; [exact H1|].
    apply list_elem_of_singleton in Hin as [= -> ->]. exact H2. }
  eapply (bundle_transfer sample_more_cx sample_more_cx sample_ns sample_ns (rs "objects") _ two_objects two_stored empty_store).
  - reflexivity.
  - reflexivity.
  - vm_compute. reflexivity.
  - vm_compute. reflexivity.
  - discriminate.
  - apply Hcase; vm_compute; reflexivity.
  - split.
    + apply Hcase; exists Sha256; split; reflexivity.
    + intros k c c' H1 H2. revert k c H1 c' H2. apply (Hcase (λ k c, ∀ c', (k, c') ∈ two_objects → c = c')).
      * intros c' Hin. apply elem_of_cons in Hin as [[= ->]|Hin]; [reflexivity|]. apply list_elem_of_singleton in Hin. vm_compute in Hin. discriminate Hin.
      * intros c' Hin. apply elem_of_cons in Hin as [Hin|Hin]; [vm_compute in Hin; discriminate Hin|]. apply list_elem_of_singleton in Hin as [= ->]. reflexivity.
    + apply Hcase; vm_compute; reflexivity.
    + vm_compute. reflexivity.
    + vm_compute. discriminate.
  - vm_compute. discriminate.
  - intros p c Hp. discriminate Hp.
Defined.

(** Thirty-three names, each bound to an address. *)
Definition many_names : list (rstr * rstr) := (λ i, (rs "t" ++ dec (Z.of_nat i + 10), rs "k" ++ dec (Z.of_nat i + 10))) <$> seq 0 33.
Definition many_tags : store := foldl (λ s '(name, kappa), (tag_set sample_ns name kappa s).1) empty_store many_names.

Definition sub_bounds (v : Json) : option (rstr * rstr * rstr) :=
  lower ← json_str (rs "lower") v; upper ← json_str (rs "upper") v; fp ← json_str (rs "fingerprint") v; Some (lower, upper, fp).

(** The ranges of a subdivision are bounded by addresses, while ranges are of names: a
    server with the very same tags finds other addresses in them than were
    fingerprinted, here none at all in the second. *)
Example subdivision_by_address :
  match items_in_range sample_ns (rs "a") (rs "z") many_tags with
  | Ok items =>
      length items = 33%nat ∧
      match omap sub_bounds (sub_ranges (rs "a") (rs "z") items) with
      | _ :: (lower, upper, fp) :: _ =>
          lower = rs "k19" ∧ upper = rs "k28" ∧ items_in_range sample_ns lower upper many_tags = Ok [] ∧
          fp ≠ hex_encode (items_fingerprint [])
      | _ => False
      end
  | _ => False
  end.
Proof. vm_compute. repeat split; discriminate. Qed.
