(* ===== verification/Akd.v ===== *)
(** Akd: the auditable key directory, [kappa-akd/src/lib.rs]: the storage adapter
    that the [akd] crate keeps its records in, its checkpoint in the store, and the
    manager that the identity endpoints call.

    The adapter answers the crate's retrieval flags as the crate's interface
    describes them, and a directory restarted over the store finds the state of its
    last publication.  A lookup checks the proof it makes for the wrong label, and
    so finds nothing of what is published. *)

From S2P Require Import Prelude Label Compute Types Merkle Epoch Identity Store MemStore MemTags MemEdge Frame Http DistMore.

(** * The [akd] crate *)

(** Its records, and the keys they are stored under. *)
Class AkdCrate := {
  value_state : Type;
  vs_username : value_state → bytes;
  vs_epoch : value_state → Z;
  vs_version : value_state → Z;
  vs_value : value_state → bytes;
  (** the records of the tree, with [get_full_binary_id] *)
  tree_record : Type;
  full_binary_id : tree_record → bytes;
  (** a [StorageKey] of a kind of record, with [get_full_binary_key_id], whether
      the kind is that of value states, and the texts that name it *)
  storage_key : Type;
  full_binary_key_id : storage_key → bytes;
  of_value_states : storage_key → bool;
  storage_key_debug : storage_key → rstr;
  value_state_debug : storage_key → rstr;
  label_debug : bytes → rstr;
  (** [ValueState::key_from_full_binary] *)
  key_from_full_binary : bytes → option (bytes * Z);
}.

Section akd.
Context `{AkdCrate}.

Inductive DbRecord :=
| RValueState (v : value_state)
| RTree (r : tree_record).

Inductive ValueStateRetrievalFlag :=
| SpecificVersion (version : Z)
| SpecificEpoch (epoch : Z)
| LeqEpoch (epoch : Z)
| MaxEpoch
| MinEpoch.

(** * The storage adapter *)

Record AkdState := mkAkd {
  ak_db : gmap bytes DbRecord;
  ak_users : gmap bytes (gmap Z value_state);
}.

Definition akd_state_new : AkdState := mkAkd ∅ ∅.

(** [StorageError::NotFound(text)]. *)
Definition StorageError : Type := rstr.

Definition get_internal (st : AkdState) (id : storage_key) : outcome StorageError DbRecord :=
  let bin_id := full_binary_key_id id in
  let in_tree := ok_or (ak_db st !! bin_id) (storage_key_debug id) in
  if of_value_states id then
    match key_from_full_binary bin_id with
    | Some (username, epoch) =>
        match ak_users st !! username ≫= lookup epoch with
        | Some found => Ok (RValueState found)
        | None => Err (value_state_debug id)
        end
    | None => in_tree
    end
  else in_tree.

Definition set_record (st : AkdState) (record : DbRecord) : AkdState :=
  match record with
  | RValueState v =>
      let states := default ∅ (ak_users st !! vs_username v) in
      mkAkd (ak_db st) (<[vs_username v := <[vs_epoch v := v]> states]> (ak_users st))
  | RTree r => mkAkd (<[full_binary_id r := record]> (ak_db st)) (ak_users st)
  end.

Definition batch_set (records : list DbRecord) (st : AkdState) : AkdState := foldl set_record st records.

Definition batch_get (st : AkdState) (ids : list storage_key) : list DbRecord :=
  omap (λ id, match get_internal st id with Ok r => Some r | _ => None end) ids.

Definition epoch_leb (a b : value_state) : bool := vs_epoch a <=? vs_epoch b.

(** The states of a user, by epoch. *)
Definition get_user_data (st : AkdState) (username : bytes) : outcome StorageError (list value_state) :=
  match ak_users st !! username with
  | Some result => Ok (sort_by epoch_leb (snd <$> map_to_list result))
  | None => Err (label_debug username)
  end.

(** [Iterator::max_by] keeps the last of equal elements, [min_by] the first. *)
Definition max_by_epoch (l : list value_state) : option value_state :=
  foldl (λ acc v, match acc with Some a => if vs_epoch a <=? vs_epoch v then Some v else Some a | None => Some v end) None l.
Definition min_by_epoch (l : list value_state) : option value_state :=
  foldl (λ acc v, match acc with Some a => if vs_epoch v <? vs_epoch a then Some v else Some a | None => Some v end) None l.

(** The loop over the states, with its tracker. *)
Fixpoint scan_states (flag : ValueStateRetrievalFlag) (tracked_epoch : Z) (tracker : option value_state)
  (l : list value_state) : option value_state :=
  match l with
  | [] => tracker
  | kvp :: rest =>
      match flag with
      | SpecificVersion version =>
          if version =? vs_version kvp then Some kvp else scan_states flag tracked_epoch tracker rest
      | LeqEpoch epoch =>
          if epoch =? vs_epoch kvp then Some kvp
          else if vs_epoch kvp <? epoch then
            if (tracked_epoch =? 0) || (tracked_epoch <? vs_epoch kvp)
            then scan_states flag (vs_epoch kvp) (Some kvp) rest
            else scan_states flag tracked_epoch tracker rest
          else scan_states flag tracked_epoch tracker rest
      | SpecificEpoch epoch =>
          if epoch =? vs_epoch kvp then Some kvp else scan_states flag tracked_epoch tracker rest
      | _ => scan_states flag tracked_epoch tracker rest
      end
  end.

Definition get_user_state (st : AkdState) (username : bytes) (flag : ValueStateRetrievalFlag)
  : outcome StorageError value_state :=
  intermediate ← get_user_data st username;
  let found := match flag with
               | MaxEpoch => max_by_epoch intermediate
               | MinEpoch => min_by_epoch intermediate
               | _ => scan_states flag 0 None intermediate
               end in
  ok_or found (label_debug username).

Fixpoint get_user_state_versions (st : AkdState) (keys : list bytes) (flag : ValueStateRetrievalFlag)
  (acc : gmap bytes (Z * bytes)) : gmap bytes (Z * bytes) :=
  match keys with
  | [] => acc
  | username :: rest =>
      get_user_state_versions st rest flag
        (match get_user_state st username flag with
         | Ok result => <[vs_username result := (vs_version result, vs_value result)]> acc
         | _ => acc
         end)
  end.

(** * Checkpoints *)

Record AkdCheckpoint := mkCheckpoint {
  ck_db : list (bytes * DbRecord);
  ck_user_info : list (bytes * gmap Z value_state);
}.

(** The order in which a [DashMap] is iterated, and the [postcard] encoding. *)
Class CheckpointCrates := {
  dash_iter : ∀ {A}, gmap bytes A → list (bytes * A);
  postcard_to_allocvec : AkdCheckpoint → bytes + rstr;
  postcard_from_bytes : bytes → AkdCheckpoint + rstr;
}.
Class CheckpointLaws `{CheckpointCrates} : Prop := {
  dash_iter_perm : ∀ {A} (m : gmap bytes A), dash_iter m ≡ₚ map_to_list m;
  postcard_decode : ∀ c b, postcard_to_allocvec c = inl b → postcard_from_bytes b = inl c;
}.

(** Inserted one after another. *)
Definition from_checkpoint (c : AkdCheckpoint) : AkdState :=
  mkAkd (list_to_map (reverse (ck_db c))) (list_to_map (reverse (ck_user_info c))).

Section manager.
Context `{HashCrates} `{KeyedHash} `{MemoryStoreConfig} `{CheckpointCrates}.

Definition akd_checkpoint (namespace : rstr) (st : AkdState) : M store () :=
  let checkpoint := mkCheckpoint (dash_iter (ak_db st)) (dash_iter (ak_users st)) in
  bytes ← lift match postcard_to_allocvec checkpoint with
               | inl b => Ok b
               | inr e => Err (SRejected (rs "checkpoint serialize: " ++ e))
               end;
  kappa ← blob_put_computed bytes;
  _ ← tag_set (deterministic namespace) (rs "_akd/checkpoint") kappa;
  mret ().

Definition akd_recover (namespace : rstr) (s : store) : outcome StoreError AkdState :=
  entry ← tag_get (deterministic namespace) (rs "_akd/checkpoint") s;
  bytes ← blob_get (te_kappa entry) s;
  match postcard_from_bytes bytes with
  | inl checkpoint => Ok (from_checkpoint checkpoint)
  | inr e => Err (SRejected (rs "checkpoint deserialize: " ++ e))
  end.

(** * The manager *)

(** [Directory] over the adapter: what it does to the adapter's state, and what it
    answers.  Errors are their texts. *)
Class AkdDirectory := {
  lookup_proof : Type;
  proof_value : lookup_proof → bytes;
  lookup_proof_json : lookup_proof → Json + rstr;
  append_only_proof : Type;
  append_only_json : append_only_proof → Json + rstr;
  dir_new : AkdState → AkdState + rstr;
  dir_publish : list (bytes * bytes) → AkdState → AkdState * ((Z * bytes) + rstr);
  (** the proof, and the epoch with the hash of its root *)
  dir_lookup : bytes → AkdState → (lookup_proof * (Z * bytes)) + rstr;
  dir_public_key : bytes + rstr;
  dir_audit : Z → Z → AkdState → append_only_proof + rstr;
  (** [akd::client::lookup_verify]: epoch, version and value *)
  lookup_verify : bytes → bytes → Z → bytes → lookup_proof → (Z * Z * bytes) + rstr;
}.

Inductive AkdManagerError :=
| AkdFailed (e : rstr)
| AkdStoreError (e : StoreError)
| AkdSerialization (e : rstr).

Definition akd_error_str (e : AkdManagerError) : rstr :=
  match e with
  | AkdFailed e => rs "AKD error: " ++ e
  | AkdStoreError e => rs "store error: " ++ store_error_str e
  | AkdSerialization e => rs "serialization error: " ++ e
  end.

Record LookupResult := mkLookup { lk_epoch : Z; lk_version : Z; lk_value : bytes; lk_proof_json : Json }.
Record AuditResult := mkAudit { au_start_epoch : Z; au_end_epoch : Z; au_proof_json : Json }.

Context `{AkdDirectory}.

Definition of_sum {A} (f : rstr → AkdManagerError) (r : A + rstr) : outcome AkdManagerError A :=
  match r with inl a => Ok a | inr e => Err (f e) end.

Definition akd_manager_new (namespace : rstr) (s : store) : outcome AkdManagerError AkdState :=
  let adapter := match akd_recover namespace s with Ok a => a | _ => akd_state_new end in
  of_sum AkdFailed (dir_new adapter).

Definition akd_publish (namespace : rstr) (entries : list (bytes * bytes)) (st : AkdState) (s : store)
  : AkdState * store * outcome AkdManagerError (Z * bytes) :=
  let '(st', r) := dir_publish entries st in
  match r with
  | inr e => (st', s, Err (AkdFailed e))
  | inl epoch_hash =>
      match akd_checkpoint namespace st' s with
      | (s', Ok _) => (st', s', Ok epoch_hash)
      | (s', Err e) => (st', s', Err (AkdStoreError e))
      | (s', Panic) => (st', s', Panic)
      end
  end.

Definition akd_lookup (label : bytes) (st : AkdState) : outcome AkdManagerError LookupResult :=
  '(proof, (epoch, hash)) ← of_sum AkdFailed (dir_lookup label st);
  public_key ← of_sum AkdFailed dir_public_key;
  '(epoch, version, value) ←
    of_sum (λ e, AkdSerialization (rs "verification error: " ++ e))
      (lookup_verify public_key hash epoch (proof_value proof) proof);
  proof_json ← of_sum AkdSerialization (lookup_proof_json proof);
  Ok (mkLookup epoch version value proof_json).

Definition akd_get_public_key : outcome AkdManagerError bytes := of_sum AkdFailed dir_public_key.

Definition akd_audit (start_epoch end_epoch : Z) (st : AkdState) : outcome AkdManagerError AuditResult :=
  proof ← of_sum AkdFailed (dir_audit start_epoch end_epoch st);
  proof_json ← of_sum AkdSerialization (append_only_json proof);
  Ok (mkAudit start_epoch end_epoch proof_json).
End manager.
End akd.

(** * What the adapter answers *)

Section storage.
Context `{AkdCrate}.

(** The states of a user are filed under their own name and epoch. *)
Definition users_ok (st : AkdState) : Prop :=
  ∀ u m e v, ak_users st !! u = Some m → m !! e = Some v → vs_username v = u ∧ vs_epoch v = e.

(** The state that a flag asks for, among those of a user. *)
Definition flag_spec (flag : ValueStateRetrievalFlag) (states : value_state → Prop) (v : value_state) : Prop :=
  states v ∧
  match flag with
  | SpecificVersion n => vs_version v = n ∧ ∀ w, states w → vs_version w = n → vs_epoch v ≤ vs_epoch w
  | SpecificEpoch e => vs_epoch v = e
  | LeqEpoch e => vs_epoch v ≤ e ∧ ∀ w, states w → vs_epoch w ≤ e → vs_epoch w ≤ vs_epoch v
  | MaxEpoch => ∀ w, states w → vs_epoch w ≤ vs_epoch v
  | MinEpoch => ∀ w, states w → vs_epoch v ≤ vs_epoch w
  end.

Definition states_of (st : AkdState) (u : bytes) (v : value_state) : Prop :=
  ∃ m e, ak_users st !! u = Some m ∧ m !! e = Some v.

#[local] Abbreviation by_epoch := (StronglySorted (λ a b, vs_epoch a < vs_epoch b)).

Lemma by_epoch_cons v l : by_epoch (v :: l) → by_epoch l ∧ ∀ w, w ∈ l → vs_epoch v < vs_epoch w.
Proof. intros [Hl Hv]%StronglySorted_inv. split; [done|]. by rewrite Forall_forall in Hv. Qed.

Lemma max_by_epoch_last l v : by_epoch (l ++ [v]) → max_by_epoch (l ++ [v]) = Some v.
Proof.
  intros Hs. unfold max_by_epoch. rewrite foldl_app. cbn [foldl].
  destruct (foldl _ None l) as [a|] eqn:E; [|done].
  assert (a ∈ l) as Ha.
  { clear Hs. revert a E. induction l as [|x l IH] using rev_ind; intros a; [done|]. rewrite foldl_app. cbn [foldl].
    destruct (foldl _ None l) as [b|]; [case_match|]; intros [= <-]; set_solver. }
  assert (vs_epoch a < vs_epoch v) as Hlt.
  { apply list_elem_of_split in Ha as (l1 & l2 & ->). rewrite <- (app_assoc l1) in Hs. cbn in Hs.
    assert (by_epoch (a :: l2 ++ [v])) as Hs2 by (clear -Hs; induction l1; [done|]; apply by_epoch_cons in Hs as [Hs _]; auto).
    apply by_epoch_cons in Hs2 as [_ Hlt]. apply Hlt. set_solver. }
  by rewrite (proj2 (Z.leb_le _ _)) by lia.
Qed.

Lemma min_by_epoch_head v l : by_epoch (v :: l) → min_by_epoch (v :: l) = Some v.
Proof.
  intros [_ Hl]%by_epoch_cons. unfold min_by_epoch. cbn [foldl]. induction l as [|w l IH]; [done|]. cbn [foldl].
  pose proof (Hl w ltac:(set_solver)). rewrite (proj2 (Z.ltb_ge _ _)) by lia. apply IH. set_solver.
Qed.

(** The loop over the states in order of their epochs ends at the state asked for;
    [t] is what the tracker holds. *)
Definition tracked_ok (flag : ValueStateRetrievalFlag) (tracked : Z) (t : option value_state) (l : list value_state) : Prop :=
  match flag, t with
  | LeqEpoch e, Some w => vs_epoch w = tracked ∧ tracked < e ∧ ∀ x, x ∈ l → tracked < vs_epoch x
  | LeqEpoch _, None => tracked = 0
  | _, _ => t = None
  end.

Lemma scan_states_spec flag l tracked t : by_epoch l → tracked_ok flag tracked t l → flag ≠ MaxEpoch → flag ≠ MinEpoch →
  match scan_states flag tracked t l with
  | Some v => flag_spec flag (λ w, t = Some w ∨ w ∈ l) v
  | None => ∀ v, ¬ flag_spec flag (λ w, t = Some w ∨ w ∈ l) v
  end.
Proof.
  revert tracked t. induction l as [|x l IH]; intros tracked t Hs Ht Hmax Hmin.
  { assert (∀ w, w ∉ @nil value_state) as Hnil by (intros w Hw; by apply elem_of_nil in Hw).
    destruct flag, t as [w|]; cbn in *; try done; try (intros v [[?|?%Hnil] _]; done).
    split; [by left|]. split; [lia|]. intros ? [[= <-]|?%Hnil]; [lia|done]. }
  apply by_epoch_cons in Hs as [Hs Hx].
  assert (∀ w, w ∈ x :: l → w = x ∨ w ∈ l) as Hcons by (intros w; by rewrite elem_of_cons).
  assert (x ∈ x :: l ∧ ∀ w, w ∈ l → w ∈ x :: l) as [Hxin Hin] by (split; [by left|by right]).
  destruct flag as [n|e|e| |]; cbn [scan_states]; [| | |done|done].
  - assert (t = None) as -> by done. destruct (Z.eqb_spec n (vs_version x)) as [E|E].
    { split; [by right|]. split; [done|]. intros w [|[->|Hw]%Hcons] _; [done|lia|specialize (Hx _ Hw); lia]. }
    specialize (IH tracked None Hs eq_refl Hmax Hmin). destruct (scan_states _ _ _ l) as [v|].
    + destruct IH as ([|Hv] & Hn & Hle); [done|]. split; [auto|]. split; [done|].
      intros w [|[->|Hw]%Hcons] Hwn; [done|congruence|auto].
    + intros v ([|[->|Hv]%Hcons] & Hn & Hle); [done|congruence|]. apply (IH v). split; [by right|]. split; [done|].
      intros w [|Hw] Hwn; auto.
  - assert (t = None) as -> by done. destruct (Z.eqb_spec e (vs_epoch x)) as [E|E]; [by split; [right|]|].
    specialize (IH tracked None Hs eq_refl Hmax Hmin). destruct (scan_states _ _ _ l) as [v|].
    + destruct IH as ([|Hv] & He); [done|]. split; auto.
    + intros v ([|[->|Hv]%Hcons] & He); [done|congruence|]. apply (IH v). split; [by right|done].
  - destruct (Z.eqb_spec e (vs_epoch x)) as [E|E].
    { split; [by right|]. split; [lia|]. intros w Hw He. lia. }
    destruct (Z.ltb_spec (vs_epoch x) e) as [Hlt|Hge].
    + assert ((tracked =? 0) || (tracked <? vs_epoch x) = true ∧ ∀ w, t = Some w → vs_epoch w < vs_epoch x) as [-> Hprev].
      { destruct t as [w|]; cbn in Ht; [destruct Ht as (Hw & _ & Hall); specialize (Hall x Hxin)|subst tracked; done].
        split; [apply orb_true_iff; right; by apply Z.ltb_lt|by intros ? [= <-]; lia]. }
      specialize (IH (vs_epoch x) (Some x) Hs ltac:(by cbn) Hmax Hmin). destruct (scan_states _ _ _ l) as [v|].
      * destruct IH as (Hv & He & Hle). assert (vs_epoch x ≤ vs_epoch v) by (apply Hle; [by left|lia]).
        split; [destruct Hv as [[= <-]|Hv]; auto|]. split; [done|].
        intros w [Hw|[->|Hw]%Hcons] Hwe; [specialize (Hprev w Hw); lia|done|auto].
      * intros v (Hv & He & Hle). assert (vs_epoch x ≤ vs_epoch v) by (apply Hle; [by right|lia]).
        apply (IH v). split; [destruct Hv as [Hw|[->|Hw]%Hcons]; [specialize (Hprev _ Hw); lia|by left|by right]|].
        split; [done|]. intros w [[= <-]|Hw] Hwe; auto.
    + specialize (IH tracked t Hs). cbn in IH. destruct (scan_states _ _ _ l) as [v|].
      * destruct IH as (Hv & He & Hle); [destruct t; cbn in *; naive_solver|done|done|]. split; [naive_solver|]. split; [done|].
        intros w [Hw|[->|Hw]%Hcons] Hwe; [auto|lia|auto].
      * intros v (Hv & He & Hle). eapply (IH ltac:(destruct t; cbn in *; naive_solver) Hmax Hmin v).
        split; [destruct Hv as [Hv|[->|Hv]%Hcons]; [by left|lia|by right]|]. split; [done|]. intros w [Hw|Hw] Hwe; auto.
Qed.
(** The states of a user, in strict order of their epochs. *)
Lemma user_data_sorted st u l : users_ok st → get_user_data st u = Ok l →
  by_epoch l ∧ ∀ v, v ∈ l ↔ states_of st u v.
Proof.
  unfold get_user_data. intros Hok Hl. destruct (ak_users st !! u) as [m|] eqn:Hu; [|done]. injection Hl as <-.
  set (vals := snd <$> map_to_list m). set (l := sort_by epoch_leb vals).
  assert (∀ v, v ∈ l ↔ states_of st u v) as Hin.
  { intros v. unfold l, vals. rewrite elem_of_sort_by, list_elem_of_fmap. split.
    - intros ([e w] & -> & He%elem_of_map_to_list). by exists m, e.
    - intros (m' & e & Hm & He). rewrite Hu in Hm. injection Hm as <-. exists (e, v). split; [done|]. by apply elem_of_map_to_list. }
  split; [|done].
  assert (NoDup (vs_epoch <$> l)) as Hnd.
  { unfold l. rewrite (sort_by_perm epoch_leb vals). unfold vals. rewrite <- list_fmap_compose.
    rewrite (list_fmap_ext _ fst); [apply NoDup_fst_map_to_list|].
    intros i [e v] Hi%list_elem_of_lookup_2%elem_of_map_to_list. cbn. by apply (Hok u m e v). }
  assert (StronglySorted (λ a b, epoch_leb a b = true) l) as Hs
    by (apply sort_by_sorted; unfold epoch_leb; [intros a b|intros a b c]; lia).
  clearbody l. clear -Hs Hnd. induction Hs as [|v l Hl IH Hv]; [constructor|]. cbn in Hnd. apply NoDup_cons in Hnd as [Hnv Hnd].
  constructor; [auto|]. rewrite Forall_forall in *. intros w Hw. specialize (Hv w Hw). unfold epoch_leb in Hv.
  assert (vs_epoch v ≠ vs_epoch w) by (intros E; apply Hnv; rewrite E; by apply list_elem_of_fmap_2). lia.
Qed.

Lemma flag_spec_ext flag P Q v : (∀ w, P w ↔ Q w) → flag_spec flag P v → flag_spec flag Q v.
Proof. intros E [Hv Hs]. split; [by apply E|]. destruct flag; naive_solver. Qed.

(** At most one state answers a flag. *)
Lemma flag_spec_unique flag st u v w : users_ok st → flag_spec flag (states_of st u) v → flag_spec flag (states_of st u) w → v = w.
Proof.
  intros Hok [Hv Sv] [Hw Sw]. assert (vs_epoch v = vs_epoch w) as E.
  { destruct flag; [destruct Sv as [? Sv], Sw as [? Sw]|congruence|destruct Sv as [? Sv], Sw as [? Sw]|..];
      pose proof (Sv w Hw); pose proof (Sw v Hv); try lia. }
  destruct Hv as (m & e & Hm & He), Hw as (m' & e' & Hm' & He'). rewrite Hm in Hm'. injection Hm' as <-.
  destruct (Hok _ _ _ _ Hm He), (Hok _ _ _ _ Hm He'). congruence.
Qed.

Lemma user_state_found st u l flag : users_ok st → get_user_data st u = Ok l →
  match match flag with MaxEpoch => max_by_epoch l | MinEpoch => min_by_epoch l | _ => scan_states flag 0 None l end with
  | Some v => flag_spec flag (states_of st u) v
  | None => ∀ v, ¬ flag_spec flag (states_of st u) v
  end.
Proof.
  intros Hok Hl. destruct (user_data_sorted st u l Hok Hl) as [Hs Hin].
  destruct (decide (l = [])) as [->|Hne].
  { assert (∀ v, ¬ flag_spec flag (states_of st u) v) as Hno by (intros v [Hv%Hin _]; by apply elem_of_nil in Hv). by destruct flag. }
  assert (flag ≠ MaxEpoch → flag ≠ MinEpoch → match scan_states flag 0 None l with
    | Some v => flag_spec flag (states_of st u) v | None => ∀ v, ¬ flag_spec flag (states_of st u) v end) as Hscan.
  { intros Hmax Hmin. assert (∀ w, None = Some w ∨ w ∈ l ↔ states_of st u w) as E by (intros w; rewrite <- Hin; naive_solver).
    pose proof (scan_states_spec flag l 0 None Hs ltac:(by destruct flag) Hmax Hmin) as Hsp. destruct (scan_states _ _ _ l) as [v|].
    - exact (flag_spec_ext _ _ _ _ E Hsp).
    - intros v Hv. apply (Hsp v). eapply flag_spec_ext; [|exact Hv]. intros w. by rewrite E. }
  destruct flag as [n|e|e| |]; [by apply Hscan..| |].
  - destruct (exists_last Hne) as (l' & v & ->). rewrite max_by_epoch_last by done.
    split; [apply Hin; set_solver|]. intros w Hw%Hin. apply elem_of_app in Hw as [Hw|Hw%list_elem_of_singleton]; [|subst; lia].
    clear -Hs Hw. induction l' as [|x l' IH]; [by apply elem_of_nil in Hw|]. cbn in Hs. apply by_epoch_cons in Hs as [Hs Hx].
    apply elem_of_cons in Hw as [->|Hw]; [|auto]. specialize (Hx v ltac:(set_solver)). lia.
  - destruct l as [|v l]; [done|]. rewrite min_by_epoch_head by done. split; [apply Hin; by left|].
    apply by_epoch_cons in Hs as [_ Hx]. intros w [->|Hw]%Hin%elem_of_cons; [lia|]. specialize (Hx w Hw). lia.
Qed.

Lemma set_record_ok st r : users_ok st → users_ok (set_record st r).
Proof.
  intros Hok. destruct r as [v|r]; [|done]. intros u m e w Hu He. cbn in Hu.
  apply lookup_insert_Some in Hu as [[<- <-]|[_ Hu]]; [|by eapply Hok].
  apply lookup_insert_Some in He as [[<- <-]|[_ He]]; [done|].
  destruct (ak_users st !! vs_username v) as [m|] eqn:Hm; cbn in He; [by eapply Hok|by rewrite lookup_empty in He].
Qed.

Lemma batch_set_ok records st : users_ok st → users_ok (batch_set records st).
Proof. unfold batch_set. revert st. induction records as [|r records IH]; intros st Hok; [done|]. apply IH. by apply set_record_ok. Qed.

(** The adapter that starts empty and is written by the directory keeps the states of
    every user under their own name and epoch; asked with a retrieval flag for the
    state of a user, it answers with the one the flag describes (the state of the
    greatest epoch, of the least, of the greatest up to a bound, of an epoch, or the
    earliest of a version), and with an error exactly when there is none. *)
Theorem akd_storage_correct (records : list DbRecord) (u : bytes) (flag : ValueStateRetrievalFlag) (v : value_state) :
  let st := batch_set records akd_state_new in
  users_ok st ∧
  (get_user_state st u flag = Ok v ↔ flag_spec flag (states_of st u) v) ∧
  ((∀ w, ¬ flag_spec flag (states_of st u) w) ↔ get_user_state st u flag = Err (label_debug u)).
Proof.
  intros st. assert (users_ok st) as Hok by (apply batch_set_ok; intros ? ? ? ? E; cbn in E; by rewrite lookup_empty in E).
  split; [done|]. clearbody st. unfold get_user_state. destruct (get_user_data st u) as [l|e|] eqn:Hd.
  - osimpl. pose proof (user_state_found st u l flag Hok Hd) as Hf. cbv zeta. destruct (match flag with MaxEpoch => _ | _ => _ end) as [w|]; cbn [ok_or].
    + split; [|naive_solver]. split; [naive_solver|]. intros Hv. f_equal. by eapply flag_spec_unique.
    + split; [|done]. split; [done|]. intros Hv. by apply Hf in Hv.
  - unfold get_user_data in Hd. destruct (ak_users st !! u) as [m|] eqn:Hu; [done|]. injection Hd as <-. osimpl.
    assert (∀ w, ¬ flag_spec flag (states_of st u) w) as Hno by (intros w [(m & e & Hm & _) _]; congruence). naive_solver.
  - unfold get_user_data in Hd. by destruct (ak_users st !! u).
Qed.
End storage.

(** * Restarts *)

Section restart.
Context `{HashCratesLaws} `{KeyedHash} `{Dcbor} `{MemoryStoreConfig} `{AkdCrate} `{!CheckpointCrates} `{!CheckpointLaws} `{!AkdDirectory}.

Lemma checkpoint_map {A} (m : gmap bytes A) : list_to_map (reverse (dash_iter m)) = m.
Proof.
  rewrite <- (list_to_map_to_list m) at 2. apply list_to_map_proper; [|by rewrite reverse_Permutation, dash_iter_perm].
  rewrite reverse_Permutation, dash_iter_perm. apply NoDup_fst_map_to_list.
Qed.

Lemma from_checkpoint_of st : from_checkpoint (mkCheckpoint (dash_iter (ak_db st)) (dash_iter (ak_users st))) = st.
Proof. unfold from_checkpoint. cbn [ck_db ck_user_info]. rewrite !checkpoint_map. by destruct st. Qed.

(** Publishing to the directory checkpoints its whole state in the store: the
    publication succeeds, the manager that starts over this store recovers exactly
    the state of the running one, in whatever order the tables were written out, and
    blobs and other tags stay. *)
Theorem akd_survives_restart (ns : rstr) (entries : list (bytes * bytes)) (st st' : AkdState) (h : Z * bytes) (b : bytes) (s : store)
  (Hpub : dir_publish entries st = (st', inl h))
  (Henc : postcard_to_allocvec (mkCheckpoint (dash_iter (ak_db st')) (dash_iter (ak_users st'))) = inl b)
  (Hown : own_address b s) (Hroom : room 1 0 s) :
  ∃ s', akd_publish ns entries st s = (st', s', Ok h) ∧ akd_recover ns s' = Ok st' ∧
    akd_manager_new ns s' = of_sum AkdFailed (dir_new st') ∧
    keeps [tag_key (deterministic ns) (rs "_akd/checkpoint")] s s'.
Proof.
  destruct (ingest_reads b s Hown) as (f & r & E1 & Hk & B & Hget).
  destruct (tag_set_total 0 0 (deterministic ns) (rs "_akd/checkpoint") (ir_kappa r) (set_fs f s)) as (s2 & v & E2 & _ & K & Tk & _ & F2);
    [by apply (room_same _ _ s)|].
  assert (akd_checkpoint ns st' s = (s2, Ok ())) as Hck.
  { unfold akd_checkpoint. cbv zeta. rewrite Henc. unfold blob_put_computed, mbind, M_bind, lift, mret, M_ret. rewrite E1. cbv beta iota. by rewrite E2. }
  assert (akd_recover ns s2 = Ok st') as Hrec.
  { unfold akd_recover, tag_get. rewrite Tk. osimpl. cbn [te_kappa]. rewrite Hk, Hget by done. osimpl.
    rewrite (postcard_decode _ _ Henc). by rewrite from_checkpoint_of. }
  exists s2. split_and!; [unfold akd_publish; by rewrite Hpub, Hck|done|unfold akd_manager_new; by rewrite Hrec|].
  exact (keeps_trans [] _ _ _ _ (keeps_set_fs _ _ _ B) K).
Qed.

(** Documented behaviour of the directory: a proof is bound to the label it was made
    for and verifies for it, and what was published is looked up. *)
Class AkdDirectoryLaws : Prop := {
  proof_bound : ∀ l st p eh pk hash e l' r, dir_lookup l st = inl (p, eh) → lookup_verify pk hash e l' p = inl r → l' = l;
  proof_verifies : ∀ l st p e hash pk, dir_lookup l st = inl (p, (e, hash)) → dir_public_key = inl pk →
    ∃ version, lookup_verify pk hash e l p = inl (e, version, proof_value p);
  published_found : ∀ l v st st' h, dir_publish [(l, v)] st = (st', inl h) →
    ∃ p eh, dir_lookup l st' = inl (p, eh) ∧ proof_value p = v;
}.

Lemma of_sum_ok {A} (f : rstr → AkdManagerError) (r : A + rstr) a : of_sum f r = Ok a → r = inl a.
Proof. destruct r; [by intros [= ->]|done]. Qed.

(** A lookup verifies the proof for the value in the place of the label, and so
    succeeds only where the two are the same: whatever else was published under a
    label, its lookup fails. *)
Theorem lookup_of_published (Hlaws : AkdDirectoryLaws) (l v : bytes) (st st' : AkdState) (h : Z * bytes)
  (Hpub : dir_publish [(l, v)] st = (st', inl h)) :
  (v ≠ l → ∃ e, akd_lookup l st' = Err e) ∧
  (∀ r, akd_lookup l st' = Ok r → v = l ∧ lk_value r = l).
Proof.
  destruct (published_found l v st st' h Hpub) as (p & [e hash] & Hl & Hv).
  assert (∀ r, akd_lookup l st' = Ok r → v = l ∧ lk_value r = l) as Hok.
  { intros r Hr. unfold akd_lookup in Hr. rewrite Hl in Hr. cbn [of_sum] in Hr. osimpl in Hr.
    destruct dir_public_key as [pk|] eqn:Hpk; cbn [of_sum] in Hr; osimpl in Hr; [|done].
    destruct (lookup_verify pk hash e (proof_value p) p) as [[[e' ver] val]|] eqn:Hver; cbn [of_sum] in Hr; osimpl in Hr; [|done].
    pose proof (proof_bound l st' p _ pk hash e _ _ Hl Hver) as E. split; [congruence|].
    destruct (proof_verifies l st' p e hash pk Hl Hpk) as [ver' Hver']. rewrite E in Hver. rewrite Hver in Hver'. injection Hver' as -> -> ->.
    destruct (lookup_proof_json p); cbn [of_sum] in Hr; osimpl in Hr; [|done]. injection Hr as <-. exact E. }
  split; [|exact Hok]. intros Hne. destruct (akd_lookup l st') as [r|e'|] eqn:E; [by destruct (Hok r eq_refl)|by eexists|].
  exfalso. revert E. unfold akd_lookup, of_sum. rewrite Hl. osimpl. destruct dir_public_key as [pk|]; osimpl; [|done].
  destruct (lookup_verify _ _ _ _ _) as [[[] ]|]; osimpl; [|done]. by destruct (lookup_proof_json p).
Qed.
End restart.

(** * Samples *)

(** A directory that keeps one state for each label, and proofs that show label and
    value. *)
Definition sample_akd : AkdCrate := {|
  value_state := bytes * bytes; vs_username := fst; vs_epoch _ := 0; vs_version _ := 1; vs_value := snd;
  tree_record := unit; full_binary_id _ := [];
  storage_key := bytes; full_binary_key_id k := k; of_value_states _ := true;
  storage_key_debug k := k; value_state_debug k := k; label_debug l := l; key_from_full_binary k := Some (k, 0);
|}.
#[local] Existing Instance sample_akd.

#[local] Instance sample_record_dec : EqDecision DbRecord.
Proof. intros [v|r] [v'|r']; [|by right..|]; [destruct (decide (v = v' :> bytes * bytes))|destruct r, r'; by left]; [left|right]; congruence. Defined.
#[local] Instance sample_states_dec : EqDecision (gmap Z value_state) := gmap_eq_dec (A := bytes * bytes) _.
#[local] Instance sample_checkpoint_dec : EqDecision AkdCheckpoint.
Proof. solve_decision. Defined.

Definition sample_label : bytes := rs "bob/key".
Definition sample_published : AkdState := set_record akd_state_new (RValueState (sample_label, rs "sha256:x")).
Definition sample_checkpoint : AkdCheckpoint :=
  mkCheckpoint (map_to_list (ak_db sample_published)) (map_to_list (ak_users sample_published)).

#[local] Instance sample_postcard : CheckpointCrates := {|
  dash_iter A m := map_to_list m;
  postcard_to_allocvec c := if decide (c = sample_checkpoint) then inl (rs "ck") else inr (rs "too long");
  postcard_from_bytes b := if decide (b = rs "ck") then inl sample_checkpoint else inr (rs "unexpected end");
|}.
#[local] Instance sample_postcard_laws : CheckpointLaws.
Proof.
  split; [done|]. intros c b. cbn [postcard_to_allocvec postcard_from_bytes sample_postcard].
  case_decide as Hc; [|done]. intros [= <-]. by subst c.
Qed.

#[local] Instance sample_directory : AkdDirectory := {|
  lookup_proof := bytes * bytes; proof_value := snd; lookup_proof_json _ := inl JNull;
  append_only_proof := unit; append_only_json _ := inl JNull;
  dir_new st := inl st;
  dir_publish entries st := (batch_set (RValueState <$> entries) st, inl (1, []));
  dir_lookup l st := match ak_users st !! l ≫= lookup 0 with Some v => inl (l, snd v, (1, [])) | None => inr (rs "no such label") end;
  dir_public_key := inl [];
  dir_audit _ _ _ := inl ();
  lookup_verify _ _ e l p := if decide (l = fst p) then inl (e, 1, snd p) else inr (rs "bad proof");
|}.

Lemma sample_directory_laws : AkdDirectoryLaws.
Proof.
  split.
  - intros l st p eh pk hash e l' r. cbn. destruct (_ ≫= _); [|done]. intros [= <- <-]. cbn. by case_decide.
  - intros l st p e hash pk. cbn. destruct (_ ≫= _) as [v|]; [|done]. intros [= <- <- <-] _. exists 1. cbn. by rewrite decide_True.
  - intros l v st st' h. cbn. intros [= <- <-]. exists (l, v), (1, []). cbn. rewrite lookup_insert_eq. cbn. by rewrite lookup_insert_eq.
Qed.

Lemma akd_survives_restart_witness :
  ∃ s', akd_publish (rs "_akd/identity") [(sample_label, rs "sha256:x")] akd_state_new empty_store = (sample_published, s', Ok (1, [])) ∧
    akd_recover (rs "_akd/identity") s' = Ok sample_published ∧
    akd_manager_new (rs "_akd/identity") s' = of_sum AkdFailed (dir_new sample_published) ∧
    keeps [tag_key (deterministic (rs "_akd/identity")) (rs "_akd/checkpoint")] empty_store s'.
Proof.
  apply (akd_survives_restart (rs "_akd/identity") [(sample_label, rs "sha256:x")] akd_state_new sample_published (1, []) (rs "ck") empty_store).
  - reflexivity.
  - vm_compute. reflexivity.
  - intros c Hc. vm_compute in Hc. discriminate Hc.
  - apply room_empty; vm_compute; discriminate.
Defined.

Lemma lookup_of_published_witness : ∃ e, akd_lookup sample_label sample_published = Err e.
Proof.
  apply (lookup_of_published sample_directory_laws sample_label (rs "sha256:x") akd_state_new sample_published (1, [])); [reflexivity|discriminate].
Defined.
