(* ===== verification/IdFrame.v ===== *)
(** IdFrame: which operations of the in-memory store leave the blobs as they are and
    the index of assertions, but for the edges that [edge_put] enters there; the
    lemmas the identity endpoints are verified with. *)

From S2P Require Import Prelude Label Compute Types Merkle Epoch Identity Store MemStore MemTags MemEdge MemNamespace MemIdentity Gc Frame Http Text Auth DistEdge DistMore Akd.

(** * What the operations of the store leave alone *)

Section stays.
Context `{HashCratesLaws} `{Dcbor} `{MemoryStoreConfig} `{!IntoCbor Edge}.

(** An entry of the index of what is asserted about a subject. *)
Definition indexed_in (s : store) (key k : rstr) : Prop := ∃ ks, assertion_inbound s !! key = Some ks ∧ k ∈ ks.

(** Blobs stay as they are, and the index gains edges only. *)
Record stays (s s' : store) : Prop := {
  sy_ok : fs_ok (fs s) → fs_ok (fs s');
  sy_blobs : ∀ x c, fs_ok (fs s) → blob_get (kappa_text Sha256 x) s = Ok c → blob_get (kappa_text Sha256 x) s' = Ok c;
  sy_indexed : ∀ key k, indexed_in s key k → indexed_in s' key k;
  sy_index : ∀ key k, indexed_in s' key k → indexed_in s key k ∨ ∃ e, k = edge_kappa e;
}.

#[export] Instance stays_preorder : PreOrder stays.
Proof.
  split; [intros s; split; auto|]. intros s1 s2 s3 [O1 B1 I1 J1] [O2 B2 I2 J2]. split; [tauto| |auto|].
  - intros x c Hs Hc. apply B2; [tauto|]. by apply B1.
  - intros key k [Hk|Hk]%J2; [by apply J1|by right].
Qed.

Lemma stays_fs s s' : fs s' = fs s → assertion_inbound s' = assertion_inbound s → stays s s'.
Proof.
  intros E EI. split; [by rewrite E|..]; [|unfold indexed_in; rewrite EI; auto..].
  intros x c _. cbn [blob_get mem_blobs]. unfold mem_blob_get. by rewrite E.
Qed.

Definition staying {A} (m : M store A) : Prop := ∀ s, stays s (m s).1.

Lemma staying_bind {A B} (m : M store A) (f : A → M store B) : staying m → (∀ a, staying (f a)) → staying (m ≫= f).
Proof.
  intros Hm Hf s. specialize (Hm s). unfold mbind, M_bind. destruct (m s) as [s1 [a|e|]]; cbn in *; [|done|done].
  etrans; [exact Hm|]. apply Hf.
Qed.
Lemma staying_ret {A} (a : A) : staying (mret a).
Proof. intros s. reflexivity. Qed.
Lemma staying_lift {A} (r : outcome StoreError A) : staying (lift r).
Proof. intros s. reflexivity. Qed.
Lemma staying_throw {A} (e : StoreError) : staying (throw (A := A) e).
Proof. intros s. reflexivity. Qed.
Lemma staying_gets {A} (f : store → A) : staying (gets f).
Proof. intros s. reflexivity. Qed.
Lemma staying_asks {A} (f : store → outcome StoreError A) : staying (asks f).
Proof. intros s. reflexivity. Qed.
Lemma staying_modify f : (∀ s, fs (f s) = fs s ∧ assertion_inbound (f s) = assertion_inbound s) → staying (modify f).
Proof. intros Hf s. destruct (Hf s) as [? ?]. by apply stays_fs. Qed.

Lemma staying_ensure ns : staying (ensure_namespace ns).
Proof. intros s. destruct (ensure_namespace_run ns s) as (f & g & ->). by apply stays_fs. Qed.

Lemma staying_ingest content : staying (ingest_compute Sha256 content).
Proof.
  intros s. destruct (ingest_writes content s) as (f & r & E & _ & Hf). rewrite E. cbn [fst].
  destruct (ingest_sha256 content s) as (f' & r' & E' & _ & B & _ & Hother). rewrite E in E'. apply pair_eq in E' as [E' _]. rewrite <- E' in *.
  split; [apply B| |by auto|by auto]. intros x c Hs Hc.
  destruct (decide (kappa_text Sha256 x = kappa_text Sha256 content)) as [Ek|Hne].
  - rewrite Ek in *. revert Hc. cbn [blob_get mem_blobs]. unfold mem_blob_get. cbn [fs set_fs].
    rewrite (blob_path_label Sha256 _ (digest_hex_valid Sha256 content) : blob_path (kappa_text Sha256 content) = _). osimpl.
    destruct Hf as [[_ ->]|[-> _]]; [done|]. done.
  - rewrite <- Hc. apply Hother; [done|apply digest_hex_valid|done].
Qed.
End stays.

(** Splits a computation into its steps. *)
Ltac staying := repeat match goal with
  | |- staying (modify (set_assertion_inbound _)) => fail 1
  | |- staying (modify _) => apply staying_modify; by intros
  | |- staying (_ ≫= _) => apply staying_bind; [|intros ?]
  | |- staying (match _ with _ => _ end) => case_match
  | |- staying _ => first [apply staying_ret | apply staying_lift | apply staying_throw | apply staying_gets | apply staying_asks | apply staying_ensure]
  | |- staying (ingest_compute Sha256 _) => apply staying_ingest
  end.

Section stays_ops.
Context `{HashCratesLaws} `{Dcbor} `{MemoryStoreConfig} `{!IntoCbor Edge}.

(** Content under its own address is stored like content whose address is computed. *)
Lemma ingest_verified_computed content s :
  ingest_verified (kappa_text Sha256 content) content s = ingest_compute Sha256 content s.
Proof.
  assert (VerifiedContent_verify (kappa_text Sha256 content) content = Ok (mkVerified (label_of Sha256 (digest_hex Sha256 content)) content)) as Hv.
  { unfold VerifiedContent_verify. rewrite kappa_text_parse. osimpl. by rewrite (proj2 (verify_kappa_true _ _)) by eauto. }
  unfold ingest_verified, ingest_compute. rewrite Hv, (compute_verified Sha256 content) by done.
  unfold mbind, M_bind, lift, reject_label. cbn [map_err]. unfold vc_axis. cbn [vc_label].
  by rewrite label_axis_enum_of by apply digest_hex_valid.
Qed.

Lemma staying_ingest_verified content : staying (ingest_verified (kappa_text Sha256 content) content).
Proof. intros s. rewrite ingest_verified_computed. apply staying_ingest. Qed.

Lemma staying_put_tag key name kappa : staying (put_tag key name kappa).
Proof. intros s. rewrite put_tag_run. destruct (next_version key s); by apply stays_fs. Qed.

Lemma staying_tag_set ns name kappa : staying (tag_set ns name kappa).
Proof. unfold tag_set. apply staying_bind; [apply staying_ensure|intros _; apply staying_put_tag]. Qed.

Lemma staying_tag_delete ns name : staying (tag_delete ns name).
Proof. intros s. by apply stays_fs. Qed.

Lemma staying_blob_put_meta kappa key value : staying (blob_put_meta kappa key value).
Proof. intros s. by apply stays_fs. Qed.

Lemma staying_index_edge edge key : staying (modify (set_assertion_inbound (push_at key (edge_kappa edge)))).
Proof.
  intros s. unfold modify, push_at. cbn [fst]. split; [done|done|..]; unfold indexed_in; cbn [assertion_inbound set_assertion_inbound].
  - intros key' k (ks & Hks & Hk). destruct (decide (key' = key)) as [->|Hne]; [|by exists ks; rewrite lookup_insert_ne].
    eexists. rewrite lookup_insert_eq. split; [done|]. rewrite Hks. cbn. set_solver.
  - intros key' k (ks & Hks & Hk). apply lookup_insert_Some in Hks as [[<- <-]|[_ Hks]]; [|left; by exists ks].
    apply elem_of_app in Hk as [Hk|Hk%list_elem_of_singleton]; [|right; by exists edge]. left.
    destruct (assertion_inbound s !! key) as [ks|]; [by exists ks|by apply elem_of_nil in Hk].
Qed.

Lemma staying_edge_put ns edge : staying (edge_put ns edge).
Proof.
  unfold edge_put. staying. apply staying_index_edge.
Qed.

Lemma staying_bump key : staying (bump_sequence key).
Proof. unfold bump_sequence. staying. Qed.

Lemma staying_epoch_current ns : staying (epoch_current ns).
Proof. unfold epoch_current. staying. Qed.

Lemma staying_epoch_advance now_ms ns mutations : staying (epoch_advance now_ms ns mutations).
Proof.
  unfold epoch_advance. staying; [apply staying_bump|apply staying_epoch_current|apply staying_tag_set].
Qed.
End stays_ops.
