(* ===== verification/IdentityHttp.v ===== *)
(** IdentityHttp: the identity endpoints, [kappa-module-identity/src/lib.rs], over the
    in-memory store: assertions, their resolution, revocations, watermarks, anchors,
    bindings, successions and handles.

    An assertion is filed under the anchor of the key that signed it, so what a
    subject resolves to are assertions whose asserters signed them; a revocation or
    watermark reaches the assertions of its signer only.  Bindings and handles are
    taken from whoever sends them. *)

From S2P Require Import Prelude Label Compute Types Merkle Epoch Identity Store MemStore MemTags MemEdge MemNamespace MemIdentity Gc Frame Http Text Auth DistEdge DistMore Akd IdFrame RedbVersions.

(** [TryFrom<CBOR>] of the codable types, whose decoders are derived. *)
Class FromCbor `{Dcbor} (T : Type) := from_cbor : cbor → T + rstr.

(** * Handle records, [kappa-core/src/identity/handle.rs] *)

Inductive HandleLiveness := HActive | HExpired | HUnverified.

#[export] Instance HandleLiveness_eq_dec : EqDecision HandleLiveness.
Proof. solve_decision. Defined.

Record HandleRecord := mkHandle {
  hr_anchor : rstr;
  hr_handle : rstr;
  hr_protocol : rstr;
  hr_claimed_at_ms : Z;
  hr_verified_at_ms : option Z;
  hr_verification_method : rstr;
  hr_liveness : HandleLiveness;
}.

(** The derived [serde_json] codec of the records. *)
Class HandleJson := {
  handle_to_vec : HandleRecord → bytes;
  handle_from_slice : bytes → option HandleRecord;
}.
Class HandleJsonLaws `{HandleJson} : Prop := handle_reads_back : ∀ r, handle_from_slice (handle_to_vec r) = Some r.

Section endpoints.
Context `{HashCrates} `{KeyedHash} `{Dcbor} `{MemoryStoreConfig} `{JsonCrates} `{HexDecode} `{SignatureCrates}.
Context `{!IntoCbor IdentityAssertion} `{!IntoCbor SignableAssertion} `{!IntoCbor AnchorInput} `{!IntoCbor RevocationRec}
        `{!IntoCbor IdentitySuccession} `{!IntoCbor Watermark} `{!IntoCbor IdentityBinding} `{!IntoCbor Edge}.
Context `{!FromCbor IdentityAssertion} `{!FromCbor RevocationRec} `{!FromCbor Watermark} `{HandleJson}.

Definition identity_store_err (e : StoreError) : HttpError :=
  match e with SNotFound _ => NotFoundError | _ => BadRequest (store_error_str e) end.

Definition identity_call {A} (m : M store A) : Handler A :=
  r ← blocking m;
  of_outcome (map_err identity_store_err r).

(** A hex field of a request. *)
Definition hex_field (v : Json) (key : rstr) : outcome rstr bytes :=
  h ← ok_or (as_str (json_index key v)) (rs "missing " ++ key);
  ok_or (hex_decode h) (rs "invalid " ++ key ++ rs " hex").

Definition verified_signer (v : Json) (key_field signature_field : rstr) (message : bytes) : outcome rstr (rstr * bytes) :=
  algorithm ← ok_or (as_str (json_index (rs "algorithm") v)) (rs "missing algorithm");
  public_key ← hex_field v key_field;
  signature ← hex_field v signature_field;
  anchor ← map_err (λ e, rs "signature verification failed: " ++ crypto_error_str e)
             (asserter_from_signature algorithm public_key message signature);
  Ok (anchor, signature).

Definition str_field (key dflt : rstr) (v : Json) : rstr := default dflt (as_str (json_index key v)).
Definition u64_or_zero (key : rstr) (v : Json) : Z := default 0 (as_u64 (json_index key v)).

Definition kappa_answer (kappa : rstr) : Response := json_response 201 (JObj [(rs "kappa", JStr kappa)]).

(** A hex string that [bad_request] names. *)
Definition hex_param (key : rstr) (v : Json) : Handler bytes :=
  h ← required key (rs "missing " ++ key) v;
  of_outcome (ok_or (hex_decode h) (BadRequest (rs "invalid " ++ key ++ rs " hex"))).

(** * Whoami *)

Definition whoami_handler (node : option (NodeSigner * TrustPosition)) : Handler Response :=
  match node with
  | Some (id, position) =>
      mret (json_response 200 (JObj [(rs "anchor", JStr (sn_anchor id)); (rs "algorithm", JStr (sn_algorithm id));
                                     (rs "trust_position", JStr (position_as_str position))]))
  | None => mret (json_response 503 (JObj [(rs "error", JStr (rs "node identity not bootstrapped"))]))
  end.

(** * Assert *)

(** The assertion of a request with the anchor of the key that signed it. *)
Definition parse_assertion (v : Json) : Handler IdentityAssertion :=
  algorithm ← required (rs "algorithm") (rs "missing algorithm") v;
  public_key_bytes ← hex_param (rs "public_key") v;
  subject ← required (rs "subject") (rs "missing subject") v;
  facet ← required (rs "facet") (rs "missing facet") v;
  let value := str_field (rs "value") [] v in
  let value_bytes := default value (hex_decode value) in
  let basis := str_field (rs "basis") (rs "self-asserted") v in
  let valid_from_ms := u64_or_zero (rs "valid_from_ms") v in
  let valid_until_ms := as_u64 (json_index (rs "valid_until_ms") v) in
  signature ← hex_param (rs "signature") v;
  let unsigned asserter := mkAssertion asserter subject facet value_bytes basis valid_from_ms valid_until_ms signature in
  asserter ← of_outcome (map_err (λ e, BadRequest (rs "signature verification failed: " ++ crypto_error_str e))
               (asserter_from_signature algorithm public_key_bytes (assertion_signable_bytes (unsigned [])) signature));
  mret (unsigned asserter).

Definition akd_label (v : Json) (a : IdentityAssertion) : rstr :=
  match as_str (json_index (rs "audience") v) with
  | Some audience => derive_audience_label (as_subject a) audience ++ rs "/" ++ as_facet a
  | None => as_subject a ++ rs "/" ++ as_facet a
  end.

(** A record of an anchor is stored, typed and tagged in the anchor's namespace. *)
Definition file_record (ns : NamespaceRef) (kind kappa : rstr) (content : bytes) : M store () :=
  _ ← ingest_verified kappa content;
  _ ← blob_put_meta kappa (rs "object-type") kind;
  _ ← tag_set ns (kind ++ rs "/" ++ kappa) kappa;
  mret ().

Definition anchor_edge (ns : NamespaceRef) (relation : EdgeRelation) (target kappa : rstr) : Edge :=
  mkEdge (ns_as_str ns) target relation (ns_as_str ns) (Some kappa) None.
Definition record_mutation (ns : NamespaceRef) (op : MutationOp) (tag kappa : rstr) : EpochMutation :=
  mkMutation op (ns_as_str ns) tag None (Some kappa).

Definition assert_task (now_ms : Z) (a : IdentityAssertion) (k : rstr) (ab : bytes) : M store () :=
  let ns := deterministic (as_asserter a) in
  _ ← file_record ns (rs "assertion") k ab;
  _ ← assertion_index_put (as_subject a) (as_facet a) k;
  _ ← edge_put ns (anchor_edge ns Assertion (as_subject a) k);
  _ ← epoch_advance now_ms ns [record_mutation ns AssertionPublish (rs "assertion/" ++ k) k];
  mret ().

Definition assert_store (cx : Cx) (body : bytes) : Handler (rstr * rstr) :=
  v ← of_outcome (parse_body body);
  a ← parse_assertion v;
  let assertion_bytes := canonical_bytes into_cbor a in
  let kappa := kappa_from_bytes assertion_bytes in
  _ ← identity_call (assert_task (cx_now_ms cx) a kappa assertion_bytes);
  mret (kappa, akd_label v a).

(** The assertion is stored first; a publication that fails is only logged. *)
Definition assert_handler `{AkdCrate} `{!CheckpointCrates} `{!AkdDirectory} (akd_ns : rstr) (cx : Cx) (body : bytes)
  (akd : option AkdState) (s : store) : option AkdState * store * outcome HttpError Response :=
  match assert_store cx body s with
  | (s', Ok (kappa, label)) =>
      match akd with
      | Some st =>
          match akd_publish akd_ns [(label, kappa)] st s' with
          | (st', s2, Panic) => (Some st', s2, Panic)
          | (st', s2, _) => (Some st', s2, Ok (kappa_answer kappa))
          end
      | None => (None, s', Ok (kappa_answer kappa))
      end
  | (s', Err e) => (akd, s', Err e)
  | (s', Panic) => (akd, s', Panic)
  end.

(** * Resolve *)

(** What is stored under a label, where it is the encoding of such a record. *)
Definition read_record {T} `{!FromCbor T} (s : store) (kappa : rstr) : option T :=
  match blob_get kappa s with
  | Ok blob => match from_canonical from_cbor blob with Ok a => Some a | _ => None end
  | _ => None
  end.

Fixpoint read_voids (asserters : list rstr) (s : store) : outcome StoreError (list RevocationRec * list Watermark) :=
  match asserters with
  | [] => Ok ([], [])
  | asserter :: rest =>
      let ns := deterministic asserter in
      rev_tags ← tag_prefix ns (rs "revocation/") s;
      wm_tags ← tag_prefix ns (rs "watermark/") s;
      '(revocations, watermarks) ← read_voids rest s;
      Ok (omap (read_record s ∘ te_kappa) rev_tags ++ revocations, omap (read_record s ∘ te_kappa) wm_tags ++ watermarks)
  end.

Definition resolve_task (subject : rstr) (at_ms : option Z) (s : store) : outcome StoreError ResolutionResult :=
  assertion_kappas ← assertion_index_query_subject subject s;
  let assertions : list IdentityAssertion := omap (read_record s) assertion_kappas in
  '(revocations, watermarks) ← read_voids (sort_dedup (as_asserter <$> assertions)) s;
  Ok match at_ms with
     | Some ts => resolve_at assertions revocations watermarks ts
     | None => resolve_all assertions revocations watermarks
     end.

Definition assertion_json (a : IdentityAssertion) : Json :=
  JObj [(rs "asserter", JStr (as_asserter a)); (rs "subject", JStr (as_subject a)); (rs "facet", JStr (as_facet a));
        (rs "basis", JStr (as_basis a)); (rs "valid_from_ms", JNum (as_valid_from_ms a))].

Definition resolve_handler (asserter_filter : option (rstr → bool)) (cx : Cx) : Handler Response :=
  let subject := path_param cx (rs "subject") in
  let at_ms := t ← assoc (rs "at_ms") (cx_path_params cx); parse_u64 t in
  result ← identity_call (asks (resolve_task subject at_ms));
  let result := filter_valid result asserter_filter in
  mret (json_response 200 (JObj [(rs "subject", JStr subject); (rs "valid", JArr (assertion_json <$> res_valid result));
    (rs "revoked_count", JNum (zlen (res_revoked result))); (rs "watermarked_count", JNum (zlen (res_watermarked result)))])).

(** * Revoke *)

Definition parse_reason (s : rstr) : RevocationReason :=
  if decide (s = rs "key-compromise") then RKeyCompromise
  else if decide (s = rs "erroneous") then RErroneous
  else if decide (s = rs "privilege-withdrawn") then RPrivilegeWithdrawn
  else if decide (s = rs "cessation-of-operation") then RCessationOfOperation
  else RSuperseded.

(** The anchor of the key that signed [message]; a stated asserter must be the same. *)
Definition signing_asserter (v : Json) (message : bytes) : Handler (rstr * bytes) :=
  '(asserter, signature) ← of_outcome (map_err BadRequest (verified_signer v (rs "public_key") (rs "signature") message));
  match as_str (json_index (rs "asserter") v) with
  | Some a => if decide (a ≠ asserter) then fail (BadRequest (rs "asserter does not match signing key")) else mret (asserter, signature)
  | None => mret (asserter, signature)
  end.

Definition parse_revocation (v : Json) : Handler RevocationRec :=
  assertion_kappa ← required (rs "assertion_kappa") (rs "missing assertion_kappa") v;
  let reason := parse_reason (str_field (rs "reason") (rs "superseded") v) in
  let revoked_at_ms := u64_or_zero (rs "revoked_at_ms") v in
  let revocation := mkRevocation [] assertion_kappa reason revoked_at_ms [] in
  '(asserter, signature) ← signing_asserter v (revocation_signable_bytes revocation);
  mret (mkRevocation asserter assertion_kappa reason revoked_at_ms signature).

Definition revoke_task (now_ms : Z) (r : RevocationRec) (k : rstr) (rb : bytes) : M store () :=
  let ns := deterministic (rv_asserter r) in
  _ ← file_record ns (rs "revocation") k rb;
  _ ← edge_put ns (anchor_edge ns Revocation (rv_assertion_kappa r) k);
  _ ← epoch_advance now_ms ns [record_mutation ns RevocationPublish (rs "revocation/" ++ k) k];
  mret ().

Definition revoke_handler (cx : Cx) (body : bytes) : Handler Response :=
  v ← of_outcome (parse_body body);
  revocation ← parse_revocation v;
  let rev_bytes := canonical_bytes into_cbor revocation in
  let kappa := kappa_from_bytes rev_bytes in
  _ ← identity_call (revoke_task (cx_now_ms cx) revocation kappa rev_bytes);
  mret (kappa_answer kappa).

(** * Absence and audit *)

Definition absence_handler `{AkdCrate} `{!CheckpointCrates} `{!AkdDirectory} (akd : option AkdState) (cx : Cx) : Handler Response :=
  let subject := path_param cx (rs "subject") in
  let facet := path_param cx (rs "facet") in
  match akd with
  | None =>
      mret (json_response 503 (JObj [(rs "subject", JStr subject); (rs "facet", JStr facet); (rs "proof_available", JBool false);
                                     (rs "reason", JStr (rs "AKD directory not initialized"))]))
  | Some st =>
      match akd_lookup (subject ++ rs "/" ++ facet) st with
      | Ok result =>
          mret (json_response 200 (JObj [(rs "subject", JStr subject); (rs "facet", JStr facet); (rs "exists", JBool true);
                                         (rs "epoch", JNum (lk_epoch result)); (rs "proof", lk_proof_json result)]))
      | Err _ =>
          mret (json_response 200 (JObj [(rs "subject", JStr subject); (rs "facet", JStr facet); (rs "exists", JBool false);
                                         (rs "proof", JStr (rs "nonmembership"))]))
      | Panic => panic
      end
  end.

Definition audit_handler `{AkdCrate} `{!CheckpointCrates} `{!AkdDirectory} (akd : option AkdState) (cx : Cx) : Handler Response :=
  let start_str := path_param cx (rs "start") in
  let end_str := path_param cx (rs "end") in
  start ← of_outcome (ok_or (parse_u64 start_str) (BadRequest (rs "invalid start epoch: " ++ start_str)));
  end_ ← of_outcome (ok_or (parse_u64 end_str) (BadRequest (rs "invalid end epoch: " ++ end_str)));
  match akd with
  | None => fail (BadRequest (rs "AKD directory not initialized"))
  | Some st =>
      result ← of_outcome (map_err (λ e, BadRequest (rs "audit proof generation failed: " ++ akd_error_str e)) (akd_audit start end_ st));
      mret (json_response 200 (JObj [(rs "start_epoch", JNum (au_start_epoch result)); (rs "end_epoch", JNum (au_end_epoch result));
                                     (rs "proof", au_proof_json result)]))
  end.

(** * Watermark *)

Definition parse_watermark (v : Json) : Handler Watermark :=
  invalidate_before_ms ← of_outcome (ok_or (as_u64 (json_index (rs "invalidate_before_ms") v)) (BadRequest (rs "missing invalidate_before_ms")));
  let reason := str_field (rs "reason") (rs "unspecified") v in
  let set_at_ms := u64_or_zero (rs "set_at_ms") v in
  '(asserter, _) ← signing_asserter v (canonical_bytes into_cbor (mkWatermark [] invalidate_before_ms reason set_at_ms));
  mret (mkWatermark asserter invalidate_before_ms reason set_at_ms).

Definition watermark_task (now_ms : Z) (w : Watermark) (k : rstr) (wb : bytes) : M store () :=
  let ns := deterministic (wm_asserter w) in
  _ ← file_record ns (rs "watermark") k wb;
  _ ← epoch_advance now_ms ns [record_mutation ns RevocationPublish (rs "watermark/" ++ k) k];
  mret ().

Definition watermark_handler (cx : Cx) (body : bytes) : Handler Response :=
  v ← of_outcome (parse_body body);
  watermark ← parse_watermark v;
  let wm_bytes := canonical_bytes into_cbor watermark in
  let kappa := kappa_from_bytes wm_bytes in
  _ ← identity_call (watermark_task (cx_now_ms cx) watermark kappa wm_bytes);
  mret (kappa_answer kappa).

(** * Anchors *)

Definition anchor_spec (anchor algorithm public_key endpoint : rstr) : Json :=
  JObj [(rs "anchor", JStr anchor); (rs "algorithm", JStr algorithm); (rs "public_key", JStr public_key); (rs "endpoint", JStr endpoint)].

Definition anchor_task (anchor endpoint : rstr) (spec_bytes : bytes) : M store rstr :=
  let kappa := kappa_from_bytes spec_bytes in
  _ ← ingest_verified kappa spec_bytes;
  _ ← blob_put_meta kappa (rs "object-type") (rs "anchor-spec");
  let ns := deterministic anchor in
  _ ← tag_set ns (rs "anchor/spec") kappa;
  if decide (endpoint = []) then mret kappa
  else _ ← tag_set ns (rs "anchor/endpoint") kappa; mret kappa.

Definition anchor_handler (body : bytes) : Handler Response :=
  v ← of_outcome (parse_body body);
  algorithm ← required (rs "algorithm") (rs "missing algorithm") v;
  public_key_hex ← required (rs "public_key") (rs "missing public_key") v;
  public_key_bytes ← of_outcome (ok_or (hex_decode public_key_hex) (BadRequest (rs "invalid public_key hex")));
  let endpoint := str_field (rs "endpoint") [] v in
  let anchor := compute_anchor algorithm public_key_bytes in
  _ ← identity_call (anchor_task anchor endpoint (serde_to_string (anchor_spec anchor algorithm public_key_hex endpoint)));
  mret (json_response 201 (JObj [(rs "anchor", JStr anchor)])).

(** * Bindings *)

Definition binding_put_handler (body : bytes) : Handler Response :=
  v ← of_outcome (parse_body body);
  source ← required (rs "source") (rs "missing source") v;
  target ← required (rs "target") (rs "missing target") v;
  let binding := mkBinding source target (str_field (rs "method") (rs "self-asserted") v)
                   (default 1 (as_u64 (json_index (rs "trust_level") v))) (u64_or_zero (rs "verified_at_ms") v) in
  result ← identity_call (identity_binding_put (deterministic target) binding);
  mret (kappa_answer result).

Definition binding_json (b : IdentityBinding) : Json :=
  JObj [(rs "source", JStr (ib_source b)); (rs "target", JStr (ib_target b)); (rs "method", JStr (ib_method b));
        (rs "trust_level", JNum (ib_trust_level b)); (rs "verified_at_ms", JNum (ib_verified_at_ms b))].

Definition bindings_answer (bindings : list IdentityBinding) : Response :=
  json_response 200 (JObj [(rs "bindings", JArr (binding_json <$> bindings))]).

Definition binding_get_handler (cx : Cx) : Handler Response :=
  bindings ← identity_call (asks (identity_binding_get (path_param cx (rs "source"))));
  mret (bindings_answer bindings).

Definition binding_delete_handler (body : bytes) : Handler Response :=
  v ← of_outcome (parse_body body);
  source ← required (rs "source") (rs "missing source") v;
  target ← required (rs "target") (rs "missing target") v;
  _ ← identity_call (identity_binding_delete (deterministic target) source target);
  mret (response 204 [] []).

Definition binding_list_by_asserter_handler (cx : Cx) : Handler Response :=
  bindings ← identity_call (asks (identity_binding_list_by_asserter (path_param cx (rs "anchor"))));
  mret (bindings_answer bindings).

(** * Successions *)

(** A succession that both keys signed. *)
Definition parse_succession (v : Json) : Handler IdentitySuccession :=
  old_anchor ← required (rs "old_anchor") (rs "missing old_anchor") v;
  new_anchor ← required (rs "new_anchor") (rs "missing new_anchor") v;
  let reason := str_field (rs "reason") (rs "rotation") v in
  let effective_at_ms := u64_or_zero (rs "effective_at_ms") v in
  let succession := mkSuccession old_anchor new_anchor reason effective_at_ms in
  let message := succession_signable_bytes (succession [] []) in
  '(old_signer, old_signature) ← of_outcome (map_err BadRequest (verified_signer v (rs "old_public_key") (rs "old_signature") message));
  '(new_signer, new_signature) ← of_outcome (map_err BadRequest (verified_signer v (rs "new_public_key") (rs "new_signature") message));
  if decide (old_signer ≠ old_anchor) then fail (BadRequest (rs "old_signature is not from old_anchor"))
  else if decide (new_signer ≠ new_anchor) then fail (BadRequest (rs "new_signature is not from new_anchor"))
  else mret (succession old_signature new_signature).

Definition succession_put_handler (cx : Cx) (body : bytes) : Handler Response :=
  v ← of_outcome (parse_body body);
  succession ← parse_succession v;
  result ← identity_call (identity_succession_put (cx_now_ms cx) succession);
  mret (kappa_answer result).

Definition succession_resolve_handler (cx : Cx) : Handler Response :=
  current ← identity_call (asks (identity_succession_resolve (path_param cx (rs "anchor"))));
  mret (json_response 200 (JObj [(rs "current", JStr current)])).

Definition succession_chain_handler (cx : Cx) : Handler Response :=
  chain ← identity_call (asks (identity_succession_chain (path_param cx (rs "anchor"))));
  mret (json_response 200 (JObj [(rs "chain", JArr (JStr <$> chain))])).

(** * Handles *)

Definition handle_key (protocol handle : rstr) : rstr := rs "handle:" ++ protocol ++ rs ":" ++ handle.
Definition anchor_key (anchor : rstr) : rstr := rs "anchor:" ++ anchor.
Definition GRACE_MS : Z := 7 * 24 * 3600 * 1000.

(** Another anchor's claim stands, unless it was never verified and the grace period
    is over. *)
Definition claim_stands (anchor : rstr) (now_ms : Z) (existing : HandleRecord) : bool :=
  negb (bool_decide (hr_anchor existing = anchor)) &&
  (negb (bool_decide (hr_liveness existing = HUnverified)) || (Z.max 0 (now_ms - hr_claimed_at_ms existing) <? GRACE_MS)).

Definition claim_conflict (record : HandleRecord) (existing : HandleRecord) : StoreError :=
  SConflict (rs "handle " ++ hr_protocol record ++ rs ":" ++ hr_handle record ++ rs " already claimed by " ++ hr_anchor existing).

(** The claim that stands in the way of [record]. *)
Definition check_claim (handles_ns : NamespaceRef) (record : HandleRecord) (s : store) : outcome StoreError () :=
  match tag_get handles_ns (handle_key (hr_protocol record) (hr_handle record)) s with
  | Ok existing_entry =>
      existing_bytes ← blob_get (te_kappa existing_entry) s;
      match handle_from_slice existing_bytes with
      | Some existing =>
          if claim_stands (hr_anchor record) (hr_claimed_at_ms record) existing then Err (claim_conflict record existing) else Ok ()
      | None => Ok ()
      end
  | _ => Ok ()
  end.

Definition claim_task (record : HandleRecord) : M store rstr :=
  handles_ns ← asks (namespace_resolve (rs "_handles") None);
  let tag_key := handle_key (hr_protocol record) (hr_handle record) in
  _ ← asks (check_claim handles_ns record);
  ingest ← ingest_compute Sha256 (handle_to_vec record);
  _ ← tag_set handles_ns tag_key (ir_kappa ingest);
  let reverse_key := anchor_key (hr_anchor record) in
  existing_reverse ← gets (λ s, match tag_get handles_ns reverse_key s with Ok e => te_kappa e | _ => [] end);
  let new_reverse := if decide (existing_reverse = []) then tag_key else existing_reverse ++ rs "," ++ tag_key in
  reverse_ingest ← ingest_compute Sha256 new_reverse;
  _ ← tag_set handles_ns reverse_key (ir_kappa reverse_ingest);
  mret (ir_kappa ingest).

Definition parse_claim (now_ms : Z) (v : Json) : Handler HandleRecord :=
  handle ← required (rs "handle") (rs "missing handle") v;
  let protocol := str_field (rs "protocol") (rs "atproto") v in
  anchor ← required (rs "anchor") (rs "missing anchor") v;
  let verification_method := str_field (rs "verification_method") (rs "unverified") v in
  mret (mkHandle anchor handle protocol now_ms None verification_method HUnverified).

Definition handle_claim_handler (cx : Cx) (body : bytes) : Handler Response :=
  v ← of_outcome (parse_body body);
  record ← parse_claim (cx_now_ms cx) v;
  result ← blocking (claim_task record);
  match result with
  | Ok kappa => mret (json_response 201 (JObj [(rs "kappa", JStr kappa); (rs "liveness", JStr (rs "unverified"))]))
  | Err (SConflict msg) => mret (json_response 409 (JObj [(rs "error", JStr (rs "conflict")); (rs "message", JStr msg)]))
  | Err e => mret (response 500 [] (store_error_str e))
  | Panic => panic
  end.

Definition handle_get_task (tag : rstr) (s : store) : outcome StoreError bytes :=
  handles_ns ← namespace_resolve (rs "_handles") None s;
  entry ← tag_get handles_ns tag s;
  blob_get (te_kappa entry) s.

Definition handle_get_handler (cx : Cx) : Handler Response :=
  result ← identity_call (asks (handle_get_task (handle_key (path_param cx (rs "protocol")) (path_param cx (rs "handle")))));
  mret (response 200 [(rs "content-type", rs "application/json")] result).

Definition KEY_SEPARATOR : byte := x2c.

(** The record filed under a handle key, where there is one. *)
Definition handle_record_at (handles_ns : NamespaceRef) (s : store) (key : rstr) : option Json :=
  match tag_get handles_ns key s with
  | Ok he =>
      match blob_get (te_kappa he) s with
      | Ok data => match serde_from_slice data with inl record => Some record | inr _ => None end
      | _ => None
      end
  | _ => None
  end.

Definition handles_of_anchor (anchor : rstr) (s : store) : outcome StoreError (list Json) :=
  handles_ns ← namespace_resolve (rs "_handles") None s;
  entry ← tag_get handles_ns (anchor_key anchor) s;
  blob ← blob_get (te_kappa entry) s;
  let handle_keys := if utf8_valid blob then blob else [] in
  Ok (omap (handle_record_at handles_ns s) (split_on KEY_SEPARATOR [] handle_keys)).

Definition handle_by_anchor_handler (cx : Cx) : Handler Response :=
  result ← identity_call (asks (handles_of_anchor (path_param cx (rs "anchor"))));
  mret (json_response 200 (JObj [(rs "handles", JArr result)])).

Definition handle_delete_handler (cx : Cx) : Handler Response :=
  _ ← identity_call (
    handles_ns ← asks (namespace_resolve (rs "_handles") None);
    tag_delete handles_ns (handle_key (path_param cx (rs "protocol")) (path_param cx (rs "handle"))));
  mret (response 204 [] []).
End endpoints.

(** * The index holds signed assertions *)

Section signed.
Context `{HashCratesLaws} `{KeyedHash} `{Dcbor} `{MemoryStoreConfig} `{JsonCrates} `{HexDecode} `{SignatureCrates}.
Context `{!IntoCbor IdentityAssertion} `{!IntoCbor SignableAssertion} `{!IntoCbor AnchorInput} `{!IntoCbor RevocationRec}
        `{!IntoCbor IdentitySuccession} `{!IntoCbor Watermark} `{!IntoCbor IdentityBinding} `{!IntoCbor Edge}.
Context `{!FromCbor IdentityAssertion} `{!FromCbor RevocationRec} `{!FromCbor Watermark} `{HandleJson}.
Context `{AkdCrate} `{!CheckpointCrates} `{!AkdDirectory}.

(** The asserter is the anchor of a key that signed the assertion; the signature is
    made before the asserter is known, over an empty one. *)
Definition signed_assertion (a : IdentityAssertion) : Prop :=
  ∃ algorithm public_key, asserter_from_signature algorithm public_key
    (assertion_signable_bytes (mkAssertion [] (as_subject a) (as_facet a) (as_value a) (as_basis a) (as_valid_from_ms a)
                                 (as_valid_until_ms a) (as_signature a))) (as_signature a) = Ok (as_asserter a).

(** What the index holds under a key. *)
Definition index_entry (key k : rstr) : Prop :=
  (∃ a, signed_assertion a ∧ k = assertion_kappa a ∧ key = inbound_key (as_subject a) (as_facet a)) ∨ (∃ e, k = edge_kappa e).

Record index_ok (s : store) : Prop := {
  ix_files : fs_ok (fs s);
  ix_entries : ∀ key k, indexed_in s key k → index_entry key k;
}.

(** Decomposes a successful run of a handler into the steps it is made of. *)
Ltac hinv E := repeat match type of E with
  | (of_outcome _ ≫= _) _ = (_, Ok _) =>
      let E' := fresh "E" in let Ho := fresh "Ho" in
      apply Handler_bind_ok in E as (? & ? & E' & E); unfold of_outcome in E'; apply pair_eq in E' as [<- Ho]
  | ((_ ≫= _) ≫= _) _ = (_, Ok _) =>
      let E' := fresh "E" in apply Handler_bind_ok in E as (? & ? & E' & E); hinv E'
  | of_outcome _ _ = (_, Ok _) => let Ho := fresh "Ho" in unfold of_outcome in E; apply pair_eq in E as [<- Ho]
  | (let '(_, _) := ?p in _) _ = (_, Ok _) => destruct p
  | mret _ _ = (_, Ok _) => unfold mret, Handler_ret in E; apply pair_eq in E as [<- E]
  end.

Definition hstays {A} (h : Handler A) : Prop := ∀ s, stays s (h s).1.

Lemma hstays_bind {A B} (m : Handler A) (f : A → Handler B) : hstays m → (∀ a, hstays (f a)) → hstays (m ≫= f).
Proof.
  intros Hm Hf s. specialize (Hm s). unfold mbind, Handler_bind. destruct (m s) as [s1 [a|e|]]; cbn in *; [|done|done].
  etrans; [exact Hm|]. apply Hf.
Qed.
Lemma hstays_ret {A} (a : A) : hstays (mret a).
Proof. intros s. reflexivity. Qed.
Lemma hstays_of {A} (m : outcome HttpError A) : hstays (of_outcome m).
Proof. intros s. reflexivity. Qed.
Lemma hstays_blocking {A} (m : M store A) : staying m → hstays (blocking m).
Proof. intros Hm s. specialize (Hm s). unfold blocking. by destruct (m s) as [s1 []]. Qed.
Lemma hstays_call {A} (m : M store A) : staying m → hstays (identity_call m).
Proof. intros Hm. apply hstays_bind; [by apply hstays_blocking|intros; apply hstays_of]. Qed.

Lemma parse_assertion_signed v s s' a : parse_assertion v s = (s', Ok a) → s' = s ∧ signed_assertion a.
Proof.
  unfold parse_assertion, hex_param, required. intros E. hinv E. injection E as <-. split; [done|].
  inv_ok. by eexists _, _.
Qed.

Lemma parse_assertion_state v s : (parse_assertion v s).1 = s.
Proof.
  unfold parse_assertion, hex_param, required, mbind, Handler_bind, of_outcome.
  repeat (case_match; simplify_eq/=; try done).
Qed.

(** Every other write of the endpoints leaves the blobs and the index alone. *)
Lemma staying_file_record ns kind content : staying (file_record ns kind (kappa_from_bytes content) content).
Proof.
  rewrite kappa_from_bytes_text. unfold file_record, blob_put_meta.
  staying; [apply staying_ingest_verified|apply staying_tag_set].
Qed.

Lemma staying_revoke now_ms r rb : staying (revoke_task now_ms r (kappa_from_bytes rb) rb).
Proof. unfold revoke_task. cbv zeta. staying; [apply staying_file_record|apply staying_edge_put|apply staying_epoch_advance]. Qed.

Lemma staying_watermark now_ms w wb : staying (watermark_task now_ms w (kappa_from_bytes wb) wb).
Proof. unfold watermark_task. cbv zeta. staying; [apply staying_file_record|apply staying_epoch_advance]. Qed.

Lemma staying_anchor anchor endpoint spec : staying (anchor_task anchor endpoint spec).
Proof.
  unfold anchor_task, blob_put_meta. cbv zeta. rewrite kappa_from_bytes_text.
  staying; [apply staying_ingest_verified|apply staying_tag_set..].
Qed.

Lemma staying_ignore {A} (m : M store A) : staying m → staying (ignore m).
Proof. intros Hm s. specialize (Hm s). unfold ignore. by destruct (m s) as [s1 []]. Qed.

Lemma staying_succession now_ms succession : staying (identity_succession_put now_ms succession).
Proof.
  unfold identity_succession_put. cbv zeta. rewrite !kappa_from_bytes_text.
  staying; apply staying_ignore; [apply staying_ingest_verified|apply staying_tag_set].
Qed.

Lemma staying_claim record : staying (claim_task record).
Proof. unfold claim_task. cbv zeta. staying; apply staying_tag_set. Qed.

Lemma staying_checkpoint ns st : staying (akd_checkpoint ns st).
Proof. unfold akd_checkpoint, blob_put_computed. cbv zeta. staying. apply staying_tag_set. Qed.

Ltac hstays := repeat match goal with
  | |- hstays (_ ≫= _) => apply hstays_bind; [|intros ?]
  | |- hstays (let '(_, _) := ?p in _) => destruct p
  | |- hstays (match _ with _ => _ end) => case_match
  | |- hstays (identity_call _) => apply hstays_call
  | |- hstays (blocking _) => apply hstays_blocking
  | |- hstays _ => first [apply hstays_ret | apply hstays_of]
  end.

Lemma hstays_revoke cx body : hstays (revoke_handler cx body).
Proof.
  unfold revoke_handler, parse_revocation, signing_asserter, required. cbv zeta. hstays. apply staying_revoke.
Qed.
Lemma hstays_watermark cx body : hstays (watermark_handler cx body).
Proof. unfold watermark_handler, parse_watermark, signing_asserter. cbv zeta. hstays. apply staying_watermark. Qed.
Lemma hstays_anchor body : hstays (anchor_handler body).
Proof. unfold anchor_handler, required. cbv zeta. hstays. apply staying_anchor. Qed.
Lemma hstays_binding_put body : hstays (binding_put_handler body).
Proof. unfold binding_put_handler, required, identity_binding_put. cbv zeta. hstays. staying. Qed.
Lemma hstays_binding_delete body : hstays (binding_delete_handler body).
Proof. unfold binding_delete_handler, required, identity_binding_delete. hstays. staying. Qed.
Lemma hstays_succession cx body : hstays (succession_put_handler cx body).
Proof. unfold succession_put_handler, parse_succession, required. cbv zeta. hstays. apply staying_succession. Qed.
Lemma hstays_claim cx body : hstays (handle_claim_handler cx body).
Proof. unfold handle_claim_handler, parse_claim, required. cbv zeta. hstays. apply staying_claim. Qed.
Lemma hstays_handle_delete cx : hstays (handle_delete_handler cx).
Proof. unfold handle_delete_handler. hstays. staying. apply staying_tag_delete. Qed.

(** The writes of the identity endpoints, and whatever else happens to the store as
    long as it files content under its address and indexes nothing but edges. *)
Inductive id_step : store → store → Prop :=
| step_assert akd_ns cx body akd akd' s s' r : assert_handler akd_ns cx body akd s = (akd', s', r) → id_step s s'
| step_revoke cx body s : id_step s (revoke_handler cx body s).1
| step_watermark cx body s : id_step s (watermark_handler cx body s).1
| step_anchor body s : id_step s (anchor_handler body s).1
| step_binding_put body s : id_step s (binding_put_handler body s).1
| step_binding_delete body s : id_step s (binding_delete_handler body s).1
| step_succession cx body s : id_step s (succession_put_handler cx body s).1
| step_claim cx body s : id_step s (handle_claim_handler cx body s).1
| step_handle_delete cx s : id_step s (handle_delete_handler cx s).1
| step_other s s' : (fs_ok (fs s) → fs_ok (fs s')) →
    (∀ key k, indexed_in s' key k → indexed_in s key k ∨ ∃ e, k = edge_kappa e) → id_step s s'.

Lemma index_ok_stays s s' : stays s s' → index_ok s → index_ok s'.
Proof.
  intros [O _ _ J] [Hf Hi]. split; [by apply O|]. intros key k [Hk|Hk]%J; [by apply Hi|by right].
Qed.

Lemma index_ok_put a s : signed_assertion a → index_ok s →
  index_ok (assertion_index_put (as_subject a) (as_facet a) (assertion_kappa a) s).1.
Proof.
  intros Ha [Hf Hi]. split; [done|]. intros key k (ks & Hks & Hk). cbn in Hks. unfold push_at in Hks.
  apply lookup_insert_Some in Hks as [[<- <-]|[_ Hks]]; [|apply Hi; by exists ks].
  apply elem_of_app in Hk as [Hk|Hk%list_elem_of_singleton]; [|subst; left; by exists a]. apply Hi.
  destruct (assertion_inbound s !! _) as [ks|] eqn:E; [by exists ks|by apply elem_of_nil in Hk].
Qed.

(** Whatever part of the task runs. *)
Lemma index_ok_task now_ms a s : signed_assertion a → index_ok s →
  index_ok (assert_task now_ms a (assertion_kappa a) (canonical_bytes into_cbor a) s).1.
Proof.
  intros Ha Hs. unfold assert_task. cbv zeta. set (ns := deterministic _).
  pose proof (staying_file_record ns (rs "assertion") (canonical_bytes into_cbor a) s) as Hf.
  unfold mbind at 1, M_bind at 1. change (kappa_from_bytes (canonical_bytes into_cbor a)) with (assertion_kappa a) in Hf.
  destruct (file_record _ _ _ _ s) as [s1 [u|e|]]; cbn [fst] in *; [|by eapply index_ok_stays..].
  apply (index_ok_stays _ _ Hf) in Hs. apply (index_ok_put a) in Hs; [|done].
  unfold mbind at 1, M_bind at 1. destruct (assertion_index_put _ _ _ s1) as [s2 r2] eqn:E2. injection E2 as <- <-. cbn [fst] in Hs.
  eapply index_ok_stays; [|exact Hs]. clear Hf Hs. match goal with |- stays ?x _ => generalize x end.
  change (staying (_ ← edge_put ns (anchor_edge ns Assertion (as_subject a) (assertion_kappa a));
    _ ← epoch_advance now_ms ns [record_mutation ns AssertionPublish (rs "assertion/" ++ assertion_kappa a) (assertion_kappa a)]; mret ())).
  staying; [apply staying_edge_put|apply staying_epoch_advance].
Qed.

Lemma index_ok_assert cx body s : index_ok s → index_ok (assert_store cx body s).1.
Proof.
  intros Hs. unfold assert_store. unfold mbind at 1, Handler_bind at 1. destruct (of_outcome (parse_body body) s) as [s0 [v|e|]] eqn:Ev;
    injection Ev as <- Ev; [|done..].
  pose proof (parse_assertion_state v s) as Hst. unfold mbind at 1, Handler_bind at 1.
  destruct (parse_assertion v s) as [s1 [a|e|]] eqn:Ea; cbn [fst] in *; subst s1; [|done..].
  apply parse_assertion_signed in Ea as [_ Ha]. cbv zeta. pose proof (index_ok_task (cx_now_ms cx) a s Ha Hs) as Ht.
  unfold identity_call, blocking, mbind, Handler_bind, of_outcome. change (kappa_from_bytes (canonical_bytes into_cbor a)) with (assertion_kappa a).
  destruct (assert_task _ _ _ _ s) as [s1 [u|e|]]; exact Ht.
Qed.

Lemma index_ok_step s s' : id_step s s' → index_ok s → index_ok s'.
Proof.
  intros Hstep. destruct Hstep as [akd_ns cx body akd akd' s s' r E|cx body s|cx body s|body s|body s|body s|cx body s|cx body s|cx s|s s' Hf Hi].
  - intros Hs. apply (index_ok_assert cx body) in Hs. unfold assert_handler in E.
    destruct (assert_store cx body s) as [s1 [[kappa label]|e|]]; cbn [fst] in Hs; [|injection E as <- <- <-; done..].
    destruct akd as [st|]; [|injection E as <- <- <-; done].
    assert (∀ st' s2 r2, akd_publish akd_ns [(label, kappa)] st s1 = (st', s2, r2) → index_ok s2) as Hp.
    { intros st' s2 r2. unfold akd_publish. destruct (dir_publish _ st) as [st1 [h|e]]; [|by intros [= <- <- <-]].
      pose proof (staying_checkpoint akd_ns st1 s1) as Hc. destruct (akd_checkpoint akd_ns st1 s1) as [s3 [[]|e|]]; intros [= <- <- <-];
        by eapply index_ok_stays. }
    destruct (akd_publish _ _ st s1) as [[st' s2] [h|e|]] eqn:Ep; injection E as <- <- <-; by eapply Hp.
  - apply index_ok_stays, hstays_revoke.
  - apply index_ok_stays, hstays_watermark.
  - apply index_ok_stays, hstays_anchor.
  - apply index_ok_stays, hstays_binding_put.
  - apply index_ok_stays, hstays_binding_delete.
  - apply index_ok_stays, hstays_succession.
  - apply index_ok_stays, hstays_claim.
  - apply index_ok_stays, hstays_handle_delete.
  - intros [Hfs Hix]. split; [by apply Hf|]. intros key k [Hk|Hk]%Hi; [by apply Hix|by right].
Qed.

(** * What a subject resolves to *)

Definition assertions_about (subject : rstr) (s : store) : list IdentityAssertion :=
  match assertion_index_query_subject subject s with Ok ks => omap (read_record s) ks | _ => [] end.

Lemma read_voids_total asserters s : ∃ revs wms, read_voids asserters s = Ok (revs, wms).
Proof.
  induction asserters as [|x l (revs & wms & IH)]; [by eexists _, _|]. cbn [read_voids]. unfold tag_prefix. osimpl. rewrite IH. by eexists _, _.
Qed.

Lemma resolve_task_run subject at_ms s : ∃ revs wms,
  read_voids (sort_dedup (as_asserter <$> assertions_about subject s)) s = Ok (revs, wms) ∧
  resolve_task subject at_ms s = Ok (resolve_at (assertions_about subject s) revs wms (default u64_max at_ms)).
Proof.
  destruct (read_voids_total (sort_dedup (as_asserter <$> assertions_about subject s)) s) as (revs & wms & E).
  exists revs, wms. split; [done|]. unfold resolve_task. unfold assertions_about, assertion_index_query_subject in *. osimpl. cbv zeta.
  rewrite E. osimpl. by destruct at_ms.
Qed.

(** About the subject, or about one that goes on after it with a NUL: the index is
    searched for what begins with the subject and a NUL. *)
Definition listed_under (subject : rstr) (a : IdentityAssertion) : Prop :=
  as_subject a = subject ∨ ∃ rest, as_subject a = subject ++ [x00] ++ rest.

Lemma inbound_prefix subject a : x00 ∉ subject → starts_with (subject ++ [x00]) (inbound_key (as_subject a) (as_facet a)) = true →
  listed_under subject a.
Proof.
  intros Hn Hp. apply bool_decide_eq_true in Hp as [rest Hp]. unfold inbound_key in Hp. rewrite <- app_assoc in Hp.
  destruct (app_eq_inv _ _ _ _ Hp) as [(l & E1 & E2)|(l & E1 & E2)].
  - destruct l as [|b l]; [left; by rewrite E1, app_nil_r|]. cbn in E2. injection E2 as <- E2. right. by exists l.
  - destruct l as [|b l]; [left; by rewrite E1, app_nil_r|]. cbn in E2. injection E2 as <- E2. rewrite E1 in Hn. set_solver.
Qed.

(** Stored content with the address of other content. *)
Definition collides_in (s : store) (x c : bytes) : Prop :=
  blob_get (kappa_text Sha256 x) s = Ok c ∧ kappa_text Sha256 c = kappa_text Sha256 x ∧ c ≠ x.

Lemma read_indexed {T} `{!FromCbor T} x s (t : T) : fs_ok (fs s) → read_record s (kappa_from_bytes x) = Some t →
  from_canonical from_cbor x = Ok t ∨ ∃ c, collides_in s x c.
Proof.
  rewrite kappa_from_bytes_text. unfold read_record. intros Hs Hr. destruct (blob_get (kappa_text Sha256 x) s) as [c|e|] eqn:Hc; [|done..].
  destruct (decide (c = x)) as [->|Hne]; [left; by destruct (from_canonical from_cbor x) as [t'| |]; simplify_eq/=|].
  right. exists c. split_and!; [done| |done]. symmetry.
  exact (get_addressed (St := store) Sha256 (digest_hex Sha256 x) s c Hs (digest_hex_valid Sha256 x) Hc).
Qed.

(** An assertion as it is read back from the encoding of a signed one about the subject. *)
Definition vouched_for (subject : rstr) (a : IdentityAssertion) : Prop :=
  ∃ a0, signed_assertion a0 ∧ listed_under subject a0 ∧ from_canonical from_cbor (canonical_bytes into_cbor a0) = Ok a.

Lemma about_vouched subject s a : x00 ∉ subject → index_ok s →
  (∀ e b, from_canonical from_cbor (canonical_bytes into_cbor (e : Edge)) ≠ Ok (b : IdentityAssertion)) →
  a ∈ assertions_about subject s → vouched_for subject a ∨ ∃ x c, collides_in s x c.
Proof.
  intros Hn [Hf Hi] Hedge Ha. unfold assertions_about, assertion_index_query_subject in Ha.
  apply list_elem_of_omap in Ha as (k & Hk & Hr). rewrite elem_of_sort_dedup in Hk.
  apply list_elem_of_In, in_concat in Hk as (ks & Hks%list_elem_of_In & Hk%list_elem_of_In). apply list_elem_of_fmap in Hks as ([key ks'] & -> & Hks).
  apply list_elem_of_filter in Hks as [Hpre Hks%elem_of_map_to_list]. cbn in Hpre, Hk.
  destruct (Hi key k) as [(a0 & Hs0 & -> & ->)|[e ->]]; [by exists ks'|..].
  - destruct (read_indexed (canonical_bytes into_cbor a0) s a Hf Hr) as [Hd|[c Hc]]; [left|right; by eexists _, _].
    exists a0. split_and!; [done|by apply inbound_prefix|done].
  - destruct (read_indexed (canonical_bytes into_cbor e) s a Hf Hr) as [Hd|[c Hc]]; [by apply Hedge in Hd|right; by eexists _, _].
Qed.

(** C18: However assertions, revocations, watermarks, anchors, bindings, successions and
    handles are sent to the identity endpoints, and whatever else is stored meanwhile,
    a subject without a NUL resolves, and every assertion the answer counts as valid,
    revoked or watermarked was signed by the key of its asserter and is about the
    subject, or stored content is shown that shares its SHA-256 address with other
    content.  The encoding of an edge is assumed not to read as an assertion: the one
    has a number where the other has a text. *)
Theorem resolved_assertions_signed (s : store) (subject : rstr) (at_ms : option Z)
  (Hreach : rtc id_step empty_store s) (Hsubject : x00 ∉ subject)
  (Hedge : ∀ e b, from_canonical from_cbor (canonical_bytes into_cbor (e : Edge)) ≠ Ok (b : IdentityAssertion)) :
  ∃ res, resolve_task subject at_ms s = Ok res ∧
    ∀ a, a ∈ res_valid res ∨ a ∈ (res_revoked res).*1 ∨ a ∈ (res_watermarked res).*1 →
      vouched_for subject a ∨ ∃ x c, collides_in s x c.
Proof.
  assert (index_ok s) as Hs.
  { refine (rtc_ind_r index_ok empty_store _ (λ y z _ Hstep, index_ok_step y z Hstep) s Hreach).
    split; [intros p c E; cbn in E; by rewrite lookup_empty in E|]. intros key k (ks & E & _). cbn in E. by rewrite lookup_empty in E. }
  destruct (resolve_task_run subject at_ms s) as (revs & wms & _ & E). eexists. split; [exact E|]. intros a Ha.
  destruct (resolve_at_classified revs wms (default u64_max at_ms) (assertions_about subject s)) as (Hv & Hr & Hw & _).
  apply about_vouched; [done|done|done|]. destruct Ha as [Ha|[Ha|Ha]]; [apply Hv in Ha|apply Hr in Ha|apply Hw in Ha]; tauto.
Qed.

(** * Publishing and revoking *)

(** A record is readable and tagged in the namespace of its anchor; other namespaces
    keep their tags. *)
Record filed (ns : NamespaceRef) (kind content : rstr) (s s' : store) : Prop := {
  fd_stays : stays s s';
  fd_blob : blob_get (kappa_from_bytes content) s' = Ok content;
  fd_tag : ∃ v, tags s' !! tag_key ns (kind ++ rs "/" ++ kappa_from_bytes content)
             = Some (mkTag (kind ++ rs "/" ++ kappa_from_bytes content) (kappa_from_bytes content) v);
  fd_others : ∀ key, key.1 ≠ ns_uuid ns → tags s' !! key = tags s !! key;
}.

Lemma file_record_run n q ns kind content s : fs_ok (fs s) → own_address content s → room (S n) q s →
  ∃ s', file_record ns kind (kappa_from_bytes content) content s = (s', Ok ()) ∧ room n q s' ∧ filed ns kind content s s'.
Proof.
  intros Hs Hown Hroom. pose proof (staying_file_record ns kind content s) as Hst. unfold file_record in *.
  rewrite kappa_from_bytes_text in *. destruct (ingest_reads content s Hown) as (f & r & E1 & _ & _ & Hget).
  set (s2 := set_meta (<[meta_key (kappa_text Sha256 content) (rs "object-type") := kind]>) (set_fs f s)).
  destruct (tag_set_total n q ns (kind ++ rs "/" ++ kappa_text Sha256 content) (kappa_text Sha256 content) s2)
    as (s3 & v & E3 & R3 & [_ K3 _ _] & T3 & _ & F3); [by apply (room_same _ _ s)|].
  unfold blob_put_meta, mbind, M_bind, modify in *. rewrite ingest_verified_computed, E1 in *. cbv beta iota in *. fold s2 in Hst |- *.
  rewrite E3 in *. exists s3. split; [done|]. split; [done|]. split; rewrite ?kappa_from_bytes_text; [exact Hst|by apply Hget|by eexists|].
  intros key Hk. rewrite K3; [done|]. intros ->%list_elem_of_singleton. by apply Hk.
Qed.

Lemma filed_edge ns kind content e s s1 : fs_ok (fs s) → filed ns kind content s s1 →
  ∃ s2, edge_put ns e s1 = (s2, Ok ()) ∧ filed ns kind content s s2 ∧ tags s2 = tags s1 ∧ sequences s2 = sequences s1.
Proof.
  intros Hs [St Bl Tg Ot]. destruct (edge_put_total ns e s1) as (s2 & E & _ & Ht & Hq). exists s2. split; [done|]. split; [|done].
  pose proof (staying_edge_put ns e s1) as Se. rewrite E in Se. cbn in Se.
  split; [by etrans| |by rewrite Ht|by intros key Hk; rewrite Ht, Ot].
  rewrite kappa_from_bytes_text in *. apply Se; [by apply St|done].
Qed.

Lemma filed_epoch n q now_ms ns kind content ms s s1 : fs_ok (fs s) → room (S n) (S q) s1 →
  tag_key ns (kind ++ rs "/" ++ kappa_from_bytes content) ≠ epoch_tag ns → filed ns kind content s s1 →
  ∃ s2 k, epoch_advance now_ms ns ms s1 = (s2, Ok k) ∧ filed ns kind content s s2.
Proof.
  intros Hs Hroom Hne [St Bl [v Tg] Ot]. destruct (epoch_advance_total n q now_ms ns ms s1 Hroom) as (s2 & k & E & _ & [_ K _ _] & _).
  exists s2, k. split; [done|]. pose proof (staying_epoch_advance now_ms ns ms s1) as Se. rewrite E in Se. cbn in Se.
  split; [by etrans| |exists v; rewrite K; [done|by rewrite list_elem_of_singleton]|].
  - rewrite kappa_from_bytes_text in *. apply Se; [by apply St|done].
  - intros key Hk. rewrite K; [by apply Ot|]. intros ->%list_elem_of_singleton. by apply Hk.
Qed.

(** What an endpoint needs to file a record: nothing else under its address, counters
    that are not at their limits, and no clash of its tag with that of the epoch. *)
Record can_file (ns : NamespaceRef) (kind content : rstr) (s : store) : Prop := {
  cf_files : fs_ok (fs s);
  cf_own : own_address content s;
  cf_room : room 2 1 s;
  cf_tag : tag_key ns (kind ++ rs "/" ++ kappa_from_bytes content) ≠ epoch_tag ns;
}.

Lemma revoke_task_run now_ms r s : let rb := canonical_bytes into_cbor r in
  can_file (deterministic (rv_asserter r)) (rs "revocation") rb s →
  ∃ s', revoke_task now_ms r (kappa_from_bytes rb) rb s = (s', Ok ()) ∧ filed (deterministic (rv_asserter r)) (rs "revocation") rb s s'.
Proof.
  intros rb [Hs Hown Hroom Hne]. unfold revoke_task. cbv zeta. set (ns := deterministic _) in *.
  destruct (file_record_run 1 1 ns (rs "revocation") rb s Hs Hown Hroom) as (s1 & E1 & R1 & F1).
  destruct (filed_edge ns _ _ (anchor_edge ns Revocation (rv_assertion_kappa r) (kappa_from_bytes rb)) _ _ Hs F1) as (s2 & E2 & F2 & T2 & Q2).
  destruct (filed_epoch 0 0 now_ms ns _ _ [record_mutation ns RevocationPublish (rs "revocation/" ++ kappa_from_bytes rb) (kappa_from_bytes rb)] _ _
    Hs (room_same _ _ _ _ T2 Q2 R1) Hne F2) as (s3 & k & E3 & F3).
  exists s3. split; [|done]. unfold mbind, M_bind. by rewrite E1, E2, E3.
Qed.

Lemma tag_prefixed ns prefix s h t : tags s !! (ns_uuid ns, h) = Some t → starts_with prefix (te_name t) = true →
  ∃ l, tag_prefix ns prefix s = Ok l ∧ t ∈ l.
Proof.
  intros Ht Hp. eexists. split; [done|]. apply elem_of_sort_by, list_elem_of_filter. split; [done|]. apply ns_tags_elem. by exists h.
Qed.

(** The revocations of every asserter are read. *)
Lemma read_voids_revocations l s revs wms x t r : read_voids l s = Ok (revs, wms) → x ∈ l →
  (∃ h, tags s !! (ns_uuid (deterministic x), h) = Some t) → starts_with (rs "revocation/") (te_name t) = true →
  read_record s (te_kappa t) = Some r → r ∈ revs.
Proof.
  intros Hl Hx [h Ht] Hp Hr. revert revs wms Hl. induction l as [|y l IH]; intros revs wms Hl; [by apply elem_of_nil in Hx|].
  cbn [read_voids] in Hl. destruct (read_voids_total l s) as (revs' & wms' & E'). unfold tag_prefix in Hl. osimpl in Hl. rewrite E' in Hl.
  osimpl in Hl. injection Hl as <- <-. apply elem_of_app. apply elem_of_cons in Hx as [<-|Hx]; [left|right; by eapply IH].
  apply list_elem_of_omap. exists t. split; [|done]. destruct (tag_prefixed _ _ _ _ _ Ht Hp) as (tl & Etl & Hin). unfold tag_prefix in Etl.
  by injection Etl as ->.
Qed.

(** A filed revocation leaves nothing valid that it revokes. *)
Lemma filed_revokes r s s' subject at_ms : from_canonical from_cbor (canonical_bytes into_cbor r) = Ok r →
  filed (deterministic (rv_asserter r)) (rs "revocation") (canonical_bytes into_cbor r) s s' →
  ∃ res, resolve_task subject at_ms s' = Ok res ∧ ∀ a, a ∈ res_valid res → ¬ revokes a r.
Proof.
  intros Hdec [_ Bl [v Tg] _]. destruct (resolve_task_run subject at_ms s') as (revs & wms & Ev & E). eexists. split; [exact E|].
  intros a Ha Hrev. destruct (resolve_at_classified revs wms (default u64_max at_ms) (assertions_about subject s')) as (Hv & _).
  apply Hv in Ha as (Hin & _ & Hno & _). apply (Hno r); [|done].
  refine (read_voids_revocations _ _ _ _ (rv_asserter r) _ r Ev _ (ex_intro _ _ Tg) _ _).
  - apply elem_of_sort_dedup. destruct Hrev as [_ ->]. by apply list_elem_of_fmap_2.
  - apply bool_decide_eq_true. by eexists.
  - unfold read_record. cbn [te_kappa]. by rewrite Bl, Hdec.
Qed.

(** The record was signed by the key of the anchor it speaks for. *)
Definition signed_by (asserter : rstr) (message signature : bytes) : Prop :=
  ∃ algorithm public_key, asserter_from_signature algorithm public_key message signature = Ok asserter.

Lemma verified_signer_signed v kf sf message anchor signature :
  verified_signer v kf sf message = Ok (anchor, signature) → signed_by anchor message signature.
Proof. unfold verified_signer. intros E. inv_ok. by eexists _, _. Qed.

Lemma signing_asserter_signed v message s s' asserter signature :
  signing_asserter v message s = (s', Ok (asserter, signature)) → s' = s ∧ signed_by asserter message signature.
Proof.
  unfold signing_asserter. intros E. hinv E. inv_ok.
  match goal with Hv : verified_signer _ _ _ _ = _ |- _ => apply verified_signer_signed in Hv end.
  destruct (as_str _); [case_decide|]; unfold mret, Handler_ret, fail in E; simplify_eq; done.
Qed.

Lemma parse_revocation_signed v s s' r : parse_revocation v s = (s', Ok r) →
  s' = s ∧ signed_by (rv_asserter r) (revocation_signable_bytes (mkRevocation [] (rv_assertion_kappa r) (rv_reason r) (rv_revoked_at_ms r) [])) (rv_signature r).
Proof.
  unfold parse_revocation, required. cbv zeta. intros E. hinv E. apply Handler_bind_ok in E as (s1 & [asserter signature] & Es & E).
  apply signing_asserter_signed in Es as [-> Hs]. hinv E. by injection E as <-.
Qed.

Lemma hstate_of {A B} (m : Handler A) (f : A → Handler B) s : (m s).1 = s →
  (∃ a, m s = (s, Ok a) ∧ (m ≫= f) s = f a s) ∨ ((m ≫= f) s).1 = s ∧ ∀ b, (m ≫= f) s ≠ (s, Ok b).
Proof.
  intros Hm. unfold mbind, Handler_bind. destruct (m s) as [s1 [a|e|]]; cbn in Hm; subst s1; [left; by exists a|by right..].
Qed.

Lemma parse_revocation_state v s : (parse_revocation v s).1 = s.
Proof.
  unfold parse_revocation, signing_asserter, required, mbind, Handler_bind, of_outcome, mret, Handler_ret, fail.
  repeat (case_match; simplify_eq/=; try done).
Qed.

Lemma identity_call_ok {A} (m : M store A) s s' a : m s = (s', Ok a) → identity_call m s = (s', Ok a).
Proof. intros E. unfold identity_call, blocking, mbind, Handler_bind. by rewrite E. Qed.

(** C19: A revocation that is accepted was signed by the key of the asserter it speaks
    for; the request is answered with its address, and from then on no subject
    resolves to a valid assertion of that asserter with the revoked address, at any
    time; the namespaces of other anchors, where their revocations and watermarks
    are, keep their tags.  A request without such a signature, or with one of another
    key than that of the asserter it names, changes nothing. *)
Theorem revocation_correct (cx : Cx) (body : bytes) (v : Json) (s : store) (Hbody : parse_body body = Ok v) :
  (∀ r, parse_revocation v s = (s, Ok r) →
     can_file (deterministic (rv_asserter r)) (rs "revocation") (canonical_bytes into_cbor r) s →
     from_canonical from_cbor (canonical_bytes into_cbor r) = Ok r →
     signed_by (rv_asserter r)
       (revocation_signable_bytes (mkRevocation [] (rv_assertion_kappa r) (rv_reason r) (rv_revoked_at_ms r) [])) (rv_signature r) ∧
     ∃ s', revoke_handler cx body s = (s', Ok (kappa_answer (kappa_from_bytes (canonical_bytes into_cbor r)))) ∧
       (∀ subject at_ms, ∃ res, resolve_task subject at_ms s' = Ok res ∧ ∀ a, a ∈ res_valid res → ¬ revokes a r) ∧
       (∀ key, key.1 ≠ ns_uuid (deterministic (rv_asserter r)) → tags s' !! key = tags s !! key)) ∧
  ((∀ r, parse_revocation v s ≠ (s, Ok r)) → (revoke_handler cx body s).1 = s).
Proof.
  split.
  - intros r Hr Hcan Hdec. apply parse_revocation_signed in Hr as Hsig. split; [by apply Hsig|].
    destruct (revoke_task_run (cx_now_ms cx) r s Hcan) as (s' & E & Hf). exists s'.
    split_and!; [|intros; by eapply filed_revokes|apply Hf].
    unfold revoke_handler. rewrite (bind_run _ _ _ s v) by (unfold of_outcome; by rewrite Hbody). rewrite (bind_run _ _ _ _ _ Hr). cbv zeta.
    by rewrite (bind_run _ _ _ _ _ (identity_call_ok _ _ _ _ E)).
  - intros Hno. unfold revoke_handler. rewrite (bind_run _ _ _ s v) by (unfold of_outcome; by rewrite Hbody).
    destruct (hstate_of (parse_revocation v) (λ revocation,
      let rev_bytes := canonical_bytes into_cbor revocation in let kappa := kappa_from_bytes rev_bytes in
      _ ← identity_call (revoke_task (cx_now_ms cx) revocation kappa rev_bytes); mret (kappa_answer kappa)) s
      (parse_revocation_state v s)) as [(r & Hr & _)|[Hs _]]; [by apply Hno in Hr|done].
Qed.

Lemma assert_task_run now_ms a s : let ab := canonical_bytes into_cbor a in
  can_file (deterministic (as_asserter a)) (rs "assertion") ab s →
  ∃ s', assert_task now_ms a (kappa_from_bytes ab) ab s = (s', Ok ()) ∧ blob_get (kappa_from_bytes ab) s' = Ok ab ∧
    indexed_in s' (inbound_key (as_subject a) (as_facet a)) (kappa_from_bytes ab).
Proof.
  intros ab [Hs Hown Hroom Hne]. unfold assert_task. cbv zeta. set (ns := deterministic _) in *.
  destruct (file_record_run 1 1 ns (rs "assertion") ab s Hs Hown Hroom) as (s1 & E1 & R1 & F1).
  set (s2 := (assertion_index_put (as_subject a) (as_facet a) (kappa_from_bytes ab) s1).1).
  assert (filed ns (rs "assertion") ab s2 s2) as F2 by (split; [reflexivity|apply F1|apply F1|done]).
  assert (fs_ok (fs s2)) as Hs2 by (exact (sy_ok _ _ (fd_stays _ _ _ _ _ F1) Hs)).
  destruct (filed_edge ns _ _ (anchor_edge ns Assertion (as_subject a) (kappa_from_bytes ab)) _ _ Hs2 F2) as (s3 & E3 & F3 & T3 & Q3).
  destruct (filed_epoch 0 0 now_ms ns _ _ [record_mutation ns AssertionPublish (rs "assertion/" ++ kappa_from_bytes ab) (kappa_from_bytes ab)] _ _
    Hs2 (room_same _ _ _ _ T3 Q3 (room_same _ _ s1 s2 eq_refl eq_refl R1)) Hne F3) as (s4 & k & E4 & [St Bl _ _]).
  exists s4. split_and!; [|exact Bl|].
  - unfold mbind, M_bind. assert (assertion_index_put (as_subject a) (as_facet a) (kappa_from_bytes ab) s1 = (s2, Ok ())) as Ei by done.
    by rewrite E1, Ei, E3, E4.
  - apply (sy_indexed _ _ St). cbn. unfold indexed_in, push_at. cbn. eexists. rewrite lookup_insert_eq. split; [done|]. set_solver.
Qed.

Lemma indexed_about subject key k s a : indexed_in s key k → starts_with (subject ++ [x00]) key = true →
  read_record s k = Some a → a ∈ assertions_about subject s.
Proof.
  intros (ks & Hks & Hk) Hp Hr. unfold assertions_about, assertion_index_query_subject. apply list_elem_of_omap. exists k. split; [|done].
  apply elem_of_sort_dedup, list_elem_of_In, in_concat. exists ks. split; [|by apply list_elem_of_In]. apply list_elem_of_In, list_elem_of_fmap.
  exists (key, ks). split; [done|]. apply list_elem_of_filter. split; [done|]. by apply elem_of_map_to_list.
Qed.

(** An assertion that is accepted was signed by the key of the anchor it is filed
    under; the request is answered with its address, and its subject, asked about any
    time within its validity, resolves to a result that counts it, as valid, revoked or
    watermarked. *)
Theorem assertion_resolves (cx : Cx) (body : bytes) (v : Json) (a : IdentityAssertion) (s : store)
  (Hbody : parse_body body = Ok v) (Hparse : parse_assertion v s = (s, Ok a))
  (Hcan : can_file (deterministic (as_asserter a)) (rs "assertion") (canonical_bytes into_cbor a) s)
  (Hdec : from_canonical from_cbor (canonical_bytes into_cbor a) = Ok a) :
  signed_assertion a ∧
  ∃ s', assert_store cx body s = (s', Ok (assertion_kappa a, akd_label v a)) ∧
    ∀ at_ms, in_window (default u64_max at_ms) a → ∃ res, resolve_task (as_subject a) at_ms s' = Ok res ∧
      (a ∈ res_valid res ∨ a ∈ (res_revoked res).*1 ∨ a ∈ (res_watermarked res).*1).
Proof.
  split; [by eapply parse_assertion_signed|]. destruct (assert_task_run (cx_now_ms cx) a s Hcan) as (s' & E & Bl & Hin). exists s'. split.
  - unfold assert_store. rewrite (bind_run _ _ _ s v) by (unfold of_outcome; by rewrite Hbody). rewrite (bind_run _ _ _ _ _ Hparse). cbv zeta.
    by rewrite (bind_run _ _ _ _ _ (identity_call_ok _ _ _ _ E)).
  - intros at_ms Hw. destruct (resolve_task_run (as_subject a) at_ms s') as (revs & wms & _ & Er). eexists. split; [exact Er|].
    assert (a ∈ assertions_about (as_subject a) s') as Ha.
    { eapply indexed_about; [exact Hin| |unfold read_record; by rewrite Bl, Hdec].
      apply bool_decide_eq_true. exists (as_facet a). unfold inbound_key. by rewrite <- app_assoc. }
    destruct (resolve_at_classified revs wms (default u64_max at_ms) (assertions_about (as_subject a) s')) as (Hv & Hr & Hm & _).
    rewrite Hv, Hr, Hm. destruct (decide (Exists (revokes a) revs)) as [Hx|Hx].
    { apply Exists_exists in Hx as (r & Hr1 & Hr2). right. left. split_and!; [done|done|by exists r]. }
    assert (∀ r, r ∈ revs → ¬ revokes a r) as Hno by (intros r Hr1 Hr2; apply Hx, Exists_exists; by exists r).
    destruct (decide (Exists (watermarks_out a) wms)) as [Hy|Hy].
    { apply Exists_exists in Hy as (w & Hw1 & Hw2). right. right. split_and!; [done|done|done|by exists w]. }
    left. split_and!; [done|done|done|]. intros w Hw1 Hw2. apply Hy, Exists_exists. by exists w.
Qed.

(** * Successions *)

Lemma parse_succession_signed v s s' su : parse_succession v s = (s', Ok su) →
  s' = s ∧ signed_by (is_old_anchor su) (succession_signable_bytes su) (is_old_signature su) ∧
  signed_by (is_new_anchor su) (succession_signable_bytes su) (is_new_signature su).
Proof.
  unfold parse_succession, required. cbv zeta. intros E. hinv E.
  inv_ok.
  repeat match goal with Hv : verified_signer _ _ _ _ = _ |- _ => apply verified_signer_signed in Hv end.
  destruct (decide (_ ≠ _)) as [|D1] in E; [done|]. destruct (decide (_ ≠ _)) as [|D2] in E; [done|].
  apply dec_stable in D1. apply dec_stable in D2. subst. hinv E. by injection E as <-.
Qed.

Lemma parse_succession_state v s : (parse_succession v s).1 = s.
Proof.
  unfold parse_succession, required, mbind, Handler_bind, of_outcome, mret, Handler_ret, fail.
  repeat (case_match; simplify_eq/=; try done).
Qed.

Lemma succession_put_run now_ms su s : room 1 0 s → is_old_anchor su ≠ is_new_anchor su →
  ∃ s', identity_succession_put now_ms su s = (s', Ok (kappa_from_value su)) ∧
    identity_successions s' = <[is_old_anchor su := is_new_anchor su]> (identity_successions s).
Proof.
  intros Hroom Hne. unfold identity_succession_put. rewrite decide_False by done. cbv zeta. rewrite !kappa_from_bytes_text.
  set (wb := canonical_bytes into_cbor _). set (s1 := set_identity_successions (<[is_old_anchor su := is_new_anchor su]>) s).
  destruct (ingest_sha256 wb s1) as (f & r & E2 & _). set (s2 := set_fs f s1).
  destruct (ensure_namespace_run (deterministic (is_old_anchor su)) s2) as (g & h & E3). set (s3 := set_ns_aliases g (set_ns_records h s2)).
  destruct (tag_set_total 0 0 (deterministic (is_old_anchor su)) (rs "watermark/" ++ kappa_text Sha256 wb) (kappa_text Sha256 wb) s3)
    as (s4 & v & E4 & _); [by apply (room_same _ _ s)|].
  exists s4. split.
  - unfold mbind, M_bind, modify. fold s1. unfold ignore at 1. rewrite ingest_verified_computed, E2. fold s2. rewrite E3. fold s3.
    unfold ignore. by rewrite E4.
  - revert E4. unfold tag_set. destruct (ensure_namespace_run (deterministic (is_old_anchor su)) s3) as (g' & h' & E5).
    unfold mbind, M_bind. rewrite E5, put_tag_run. destruct (next_version _ _); by intros [= <- _].
Qed.


(** * Handles *)

(** No claim of another anchor stands in the way. *)
Definition claimable (ns : NamespaceRef) (record : HandleRecord) (s : store) : Prop :=
  ∀ e, tag_get ns (handle_key (hr_protocol record) (hr_handle record)) s = Ok e →
    ∃ b, blob_get (te_kappa e) s = Ok b ∧
      ∀ existing, handle_from_slice b = Some existing → claim_stands (hr_anchor record) (hr_claimed_at_ms record) existing = false.

Lemma check_claim_ok ns record s : claimable ns record s → check_claim ns record s = Ok ().
Proof.
  intros Hc. unfold check_claim. destruct (tag_get _ _ s) as [e|e|] eqn:E; [|done..]. destruct (Hc e E) as (b & Hb & Hst).
  rewrite Hb. osimpl. destruct (handle_from_slice b) as [ex|] eqn:Ex; [|done]. by rewrite (Hst ex).
Qed.

(** Tagging in the namespace of the handles keeps its name. *)
Lemma handles_kept ns name kappa s s' r : namespace_resolve (rs "_handles") None s = Ok ns → tag_set ns name kappa s = (s', r) →
  namespace_resolve (rs "_handles") None s' = Ok ns.
Proof.
  intros Hns. assert (∃ u, ns = with_name u (rs "_handles") ∧ ns_aliases s !! rs "_handles" = Some u) as (u & -> & Hu).
  { unfold namespace_resolve, alias_key in Hns. osimpl in Hns. destruct (ns_aliases s !! rs "_handles") as [u|] eqn:E; [|done].
    injection Hns as <-. by exists u. }
  assert (∀ s1, ns_aliases s1 !! rs "_handles" = Some u → namespace_resolve (rs "_handles") None s1 = Ok (with_name u (rs "_handles"))) as Hres
    by (intros s1 E; unfold namespace_resolve, alias_key; by rewrite E).
  unfold tag_set, ensure_namespace, mbind, M_bind, gets, modify, mret, M_ret. cbv zeta.
  destruct (bool_decide _); [|rewrite decide_False by done]; rewrite put_tag_run; destruct (next_version _ _); intros [= <- <-]; apply Hres; cbn;
    rewrite ?lookup_insert_eq; done.
Qed.

Lemma claim_task_run ns record s : namespace_resolve (rs "_handles") None s = Ok ns → claimable ns record s → fs_ok (fs s) →
  own_address (handle_to_vec record) s → room 2 0 s →
  let key := tag_key ns (handle_key (hr_protocol record) (hr_handle record)) in
  let rkey := tag_key ns (anchor_key (hr_anchor record)) in key ≠ rkey →
  ∃ s' v, claim_task record s = (s', Ok (kappa_text Sha256 (handle_to_vec record))) ∧
    tags s' !! key = Some (mkTag (handle_key (hr_protocol record) (hr_handle record)) (kappa_text Sha256 (handle_to_vec record)) v) ∧
    blob_get (kappa_text Sha256 (handle_to_vec record)) s' = Ok (handle_to_vec record) ∧
    namespace_resolve (rs "_handles") None s' = Ok ns ∧ ∀ k, k ≠ key → k ≠ rkey → tags s' !! k = tags s !! k.
Proof.
  intros Hns Hcl Hfs Hown Hroom key rkey Hne. unfold claim_task. cbv zeta.
  destruct (ingest_reads _ _ Hown) as (f & r & E1 & Hk & B1 & Hget). set (s1 := set_fs f s).
  destruct (tag_set_total 1 0 ns (handle_key (hr_protocol record) (hr_handle record)) (ir_kappa r) s1)
    as (s2 & v & E2 & R2 & [_ T2 _ _] & Tk & _ & F2); [by apply (room_same _ _ s)|].
  set (old := match tag_get ns (anchor_key (hr_anchor record)) s2 with Ok e => te_kappa e | _ => [] end).
  set (rev := if decide (old = []) then handle_key (hr_protocol record) (hr_handle record)
              else old ++ rs "," ++ handle_key (hr_protocol record) (hr_handle record)).
  destruct (ingest_sha256 rev s2) as (g & r3 & E3 & _). set (s3 := set_fs g s2).
  pose proof (staying_ingest rev s2) as S3. rewrite E3 in S3. cbn [fst] in S3. fold s3 in S3.
  destruct (tag_set_total 0 0 ns (anchor_key (hr_anchor record)) (ir_kappa r3) s3) as (s4 & v4 & E4 & _ & [_ T4 _ _] & _ & _ & F4);
    [by apply (room_same _ _ s2)|].
  pose proof (staying_tag_set ns (anchor_key (hr_anchor record)) (ir_kappa r3) s3) as S4. rewrite E4 in S4. cbn [fst] in S4.
  exists s4, v. split_and!.
  - unfold mbind, M_bind, asks, gets. rewrite Hns. rewrite check_claim_ok by done. rewrite E1. fold s1. rewrite E2. fold old. fold rev.
    rewrite E3. fold s3. rewrite E4. unfold mret, M_ret. by rewrite Hk.
  - rewrite T4 by (rewrite list_elem_of_singleton; done). change (tags s3) with (tags s2). unfold key. by rewrite Tk, Hk.
  - assert (fs_ok (fs s2)) as Hf2 by (rewrite F2; by apply B1).
    apply S4; [by apply S3|]. apply S3; [done|]. by apply Hget.
  - eapply handles_kept; [|exact E4]. exact (handles_kept _ _ _ s1 _ _ Hns E2).
  - intros k H1k H2k. rewrite T4 by (by rewrite list_elem_of_singleton). change (tags s3) with (tags s2). by rewrite T2 by (by rewrite list_elem_of_singleton).
Qed.

Lemma claim_handler_run cx body v record s : parse_body body = Ok v → parse_claim (cx_now_ms cx) v s = (s, Ok record) →
  handle_claim_handler cx body s = (blocking (claim_task record) ≫= λ result, match result with
    | Ok kappa => mret (json_response 201 (JObj [(rs "kappa", JStr kappa); (rs "liveness", JStr (rs "unverified"))]))
    | Err (SConflict msg) => mret (json_response 409 (JObj [(rs "error", JStr (rs "conflict")); (rs "message", JStr msg)]))
    | Err e => mret (response 500 [] (store_error_str e))
    | Panic => panic
    end) s.
Proof.
  intros Hb Hp. unfold handle_claim_handler. rewrite (bind_run _ _ _ s v) by (unfold of_outcome; by rewrite Hb).
  by rewrite (bind_run _ _ _ _ _ Hp).
Qed.

(** A handle that no other anchor holds can be claimed: the claim is answered with
    201, the handle then reads as the record of the claim, and only the tags of the
    handle and of the anchor change.  For seven days another anchor's claim of the
    handle is answered with 409 and changes nothing. *)
Theorem handle_claim_correct (Hjson : HandleJsonLaws) (cx : Cx) (body : bytes) (v : Json) (record : HandleRecord) (ns : NamespaceRef) (s : store)
  (Hbody : parse_body body = Ok v) (Hclaim : parse_claim (cx_now_ms cx) v s = (s, Ok record))
  (Hns : namespace_resolve (rs "_handles") None s = Ok ns) (Hfree : claimable ns record s)
  (Hfs : fs_ok (fs s)) (Hown : own_address (handle_to_vec record) s) (Hroom : room 2 0 s)
  (Hkeys : tag_key ns (handle_key (hr_protocol record) (hr_handle record)) ≠ tag_key ns (anchor_key (hr_anchor record))) :
  ∃ s' r, handle_claim_handler cx body s = (s', Ok r) ∧ r_status r = 201 ∧
    handle_get_task (handle_key (hr_protocol record) (hr_handle record)) s' = Ok (handle_to_vec record) ∧
    (∀ cx2 body2 v2 record2, parse_body body2 = Ok v2 → parse_claim (cx_now_ms cx2) v2 s' = (s', Ok record2) →
       hr_protocol record2 = hr_protocol record → hr_handle record2 = hr_handle record → hr_anchor record2 ≠ hr_anchor record →
       cx_now_ms cx2 < cx_now_ms cx + GRACE_MS →
       ∃ r2, handle_claim_handler cx2 body2 s' = (s', Ok r2) ∧ r_status r2 = 409) ∧
    (∀ k, k ≠ tag_key ns (handle_key (hr_protocol record) (hr_handle record)) → k ≠ tag_key ns (anchor_key (hr_anchor record)) →
       tags s' !! k = tags s !! k).
Proof.
  destruct (claim_task_run ns record s Hns Hfree Hfs Hown Hroom Hkeys) as (s' & ver & E & Tk & Hg & Hns' & Ht).
  assert (∀ now v s s' r, parse_claim now v s = (s', Ok r) → hr_claimed_at_ms r = now) as Hnow.
  { intros now v0 s0 s1 r Hp. unfold parse_claim, required in Hp. hinv Hp. by injection Hp as <-. }
  exists s'. eexists. split; [rewrite (claim_handler_run _ _ _ _ _ Hbody Hclaim); unfold blocking, mbind, Handler_bind; by rewrite E|].
  split; [done|].
  assert (tag_get ns (handle_key (hr_protocol record) (hr_handle record)) s'
    = Ok (mkTag (handle_key (hr_protocol record) (hr_handle record)) (kappa_text Sha256 (handle_to_vec record)) ver)) as Hget
    by (unfold tag_get; by rewrite Tk).
  split; [unfold handle_get_task; rewrite Hns'; osimpl; rewrite Hget; osimpl; exact Hg|]. split; [|done].
  intros cx2 body2 v2 record2 Hb2 Hc2 Hp2 Hh2 Hne Htime.
  assert (claim_task record2 s' = (s', Err (claim_conflict record2 record))) as E2.
  { unfold claim_task, mbind, M_bind, asks. rewrite Hns'. unfold check_claim. rewrite Hp2, Hh2, Hget. osimpl. cbn [te_kappa]. rewrite Hg. osimpl.
    rewrite handle_reads_back. assert (claim_stands (hr_anchor record2) (hr_claimed_at_ms record2) record = true) as ->; [|done].
    unfold claim_stands. rewrite bool_decide_eq_false_2 by congruence. rewrite (Hnow _ _ _ _ _ Hc2), (Hnow _ _ _ _ _ Hclaim).
    cbn [negb andb]. apply orb_true_iff. right. unfold GRACE_MS in *. lia. }
  eexists. split; [rewrite (claim_handler_run _ _ _ _ _ Hb2 Hc2); unfold blocking, mbind, Handler_bind; rewrite E2; done|done].
Qed.

(** * Absence *)

Lemma kappa_no_slash x : SLASH ∉ kappa_text Sha256 x.
Proof.
  unfold kappa_text, label_text. rewrite not_elem_of_app. split; [apply slash_notin_axis|].
  rewrite not_elem_of_cons. split; [done|]. destruct (digest_hex_valid Sha256 x) as [_ Hd]. intros Hin.
  rewrite forallb_forall in Hd. apply list_elem_of_In, Hd in Hin. done.
Qed.

(** Of an assertion that was published in the directory the absence endpoint says that
    there is none. *)
Theorem published_reported_absent (Hlaws : AkdDirectoryLaws) (akd_ns : rstr) (cx cx' : Cx) (body : bytes) (v : Json) (a : IdentityAssertion)
  (st st' : AkdState) (h : Z * bytes) (s s1 s2 : store)
  (Hbody : parse_body body = Ok v) (Hparse : parse_assertion v s = (s, Ok a)) (Haud : as_str (json_index (rs "audience") v) = None)
  (Hstore : assert_store cx body s = (s1, Ok (assertion_kappa a, akd_label v a)))
  (Hpub : dir_publish [(akd_label v a, assertion_kappa a)] st = (st', inl h))
  (Hsubject : path_param cx' (rs "subject") = as_subject a) (Hfacet : path_param cx' (rs "facet") = as_facet a) :
  (∃ s', (assert_handler akd_ns cx body (Some st) s).1 = (Some st', s')) ∧
  absence_handler (Some st') cx' s2 = (s2, Ok (json_response 200 (JObj [(rs "subject", JStr (as_subject a)); (rs "facet", JStr (as_facet a));
    (rs "exists", JBool false); (rs "proof", JStr (rs "nonmembership"))]))).
Proof.
  split.
  - unfold assert_handler. rewrite Hstore. unfold akd_publish. rewrite Hpub.
    destruct (akd_checkpoint akd_ns st' s1) as [s3 [[]|e|]]; by eexists.
  - assert (akd_label v a = as_subject a ++ rs "/" ++ as_facet a) as Hl by (unfold akd_label; by rewrite Haud). rewrite Hl in Hpub.
    unfold absence_handler. rewrite Hsubject, Hfacet.
    destruct (proj1 (lookup_of_published Hlaws _ _ _ _ _ Hpub)) as [e ->]; [|done].
    unfold assertion_kappa. rewrite kappa_from_bytes_text. intros Hk. apply (kappa_no_slash (canonical_bytes into_cbor a)). rewrite Hk.
    rewrite !elem_of_app. right. left. by left.
Qed.
End signed.

(** * Samples *)

#[local] Existing Instance sample_akd.
#[local] Existing Instance sample_postcard.
#[local] Existing Instance sample_directory.
#[local] Instance id_signable : IntoCbor SignableAssertion := λ a, SText (rs "sign " ++ sa_subject a ++ sa_asserter a).
#[local] Instance id_anchor : IntoCbor AnchorInput := λ i, SText (ai_algorithm i ++ ai_public_key i).
#[local] Instance id_revocation : IntoCbor RevocationRec := λ r, SText (rs "revoke " ++ rv_assertion_kappa r).
#[local] Instance id_succession : IntoCbor IdentitySuccession := λ su, SText (is_old_anchor su ++ is_new_anchor su).
#[local] Instance id_watermark : IntoCbor Watermark := λ w, SText (wm_asserter w).

(** A key, and an assertion and a revocation it signed. *)
Definition id_key : bytes := [x07].
Definition id_asserter : rstr := compute_anchor (rs "ed25519") id_key.
Definition id_signature : bytes := rs "`sign bob".
Definition id_assertion : IdentityAssertion :=
  mkAssertion id_asserter (rs "bob") (rs "role") [] (rs "self-asserted") 0 None id_signature.
Definition id_rev_signature : bytes := rs "`revoke " ++ assertion_kappa id_assertion.
Definition id_revoked : RevocationRec := mkRevocation id_asserter (assertion_kappa id_assertion) RSuperseded 0 id_rev_signature.

#[local] Instance id_assertion_of : FromCbor IdentityAssertion := λ c,
  match c with SText t => if decide (t = rs "bob") then inl id_assertion else inr (rs "wrong type") | _ => inr (rs "wrong type") end.
#[local] Instance id_revocation_of : FromCbor RevocationRec := λ c,
  match c with SText t => if decide (t = rs "revoke " ++ assertion_kappa id_assertion) then inl id_revoked else inr (rs "wrong type") | _ => inr (rs "wrong type") end.
#[local] Instance id_watermark_of : FromCbor Watermark := λ c, inr (rs "wrong type").

(** A successor, with both signatures, and two handles of one anchor. *)
Definition id_key2 : bytes := [x08].
Definition id_successor : rstr := compute_anchor (rs "ed25519") id_key2.
Definition id_succ_signature : bytes := rs "`" ++ id_asserter ++ id_successor.
Definition id_claim (protocol handle anchor : string) : Json :=
  JObj [(rs "handle", JStr (rs handle)); (rs "protocol", JStr (rs protocol)); (rs "anchor", JStr (rs anchor))].

Definition id_requests : list (rstr * Json) := [
  (rs "assert", JObj [(rs "algorithm", JStr (rs "ed25519")); (rs "public_key", JStr (hex_of_bytes id_key)); (rs "subject", JStr (rs "bob"));
                      (rs "facet", JStr (rs "role")); (rs "signature", JStr (hex_of_bytes id_signature))]);
  (rs "revoke", JObj [(rs "algorithm", JStr (rs "ed25519")); (rs "public_key", JStr (hex_of_bytes id_key));
                      (rs "assertion_kappa", JStr (assertion_kappa id_assertion)); (rs "signature", JStr (hex_of_bytes id_rev_signature))]);
  (rs "succeed", JObj [(rs "algorithm", JStr (rs "ed25519")); (rs "old_anchor", JStr id_asserter); (rs "new_anchor", JStr id_successor);
                       (rs "old_public_key", JStr (hex_of_bytes id_key)); (rs "new_public_key", JStr (hex_of_bytes id_key2));
                       (rs "old_signature", JStr (hex_of_bytes id_succ_signature)); (rs "new_signature", JStr (hex_of_bytes id_succ_signature))]);
  (rs "first", id_claim "dns" "alice.example" "a"); (rs "second", id_claim "mail" "alice.test" "a"); (rs "other", id_claim "dns" "alice.example" "b");
  (rs "bind", JObj [(rs "source", JStr (rs "mallory@example.com")); (rs "target", JStr id_asserter)])].

#[local] Instance id_json : JsonCrates := {|
  serde_from_slice b := match assoc b id_requests with Some v => inl v | None => inl (JStr b) end;
  serde_to_string v := match v with JObj l => concat (fst <$> l) | _ => [] end;
  jsonschema_is_valid _ _ := true;
|}.
#[local] Instance id_record_eq_dec : EqDecision HandleRecord.
Proof. solve_decision. Defined.
#[local] Instance id_liveness_countable : Countable HandleLiveness := inj_countable'
  (λ l, match l with HActive => 0 | HExpired => 1 | HUnverified => 2 end)
  (λ n, if n =? 0 then HActive else if n =? 1 then HExpired else HUnverified) ltac:(by intros []).
#[local] Instance id_record_countable : Countable HandleRecord := inj_countable'
  (λ r, (hr_anchor r, hr_handle r, hr_protocol r, hr_claimed_at_ms r, hr_verified_at_ms r, hr_verification_method r, hr_liveness r))
  (λ '(a, h, p, c, x, m, l), mkHandle a h p c x m l) ltac:(by intros []).
#[local] Instance id_handles : HandleJson := {|
  handle_to_vec r := bits_of (encode r);
  handle_from_slice b := decode (of_bits b);
|}.
#[local] Instance id_handles_laws : HandleJsonLaws.
Proof. intros r. cbn. by rewrite of_bits_bits, decode_encode. Qed.

Definition id_cx (params : list (rstr * rstr)) : Cx :=
  mkCx (rs "POST") params None (λ _, None) RNoNamespace None None None None (λ _, 0) 0 0 [] [].

Definition id_body (name : string) : Json := default JNull (assoc (rs name) id_requests).
Definition asserted : store := (assert_store (id_cx []) (rs "assert") empty_store).1.

Lemma asserted_run : assert_store (id_cx []) (rs "assert") empty_store
  = (asserted, Ok (assertion_kappa id_assertion, akd_label (id_body "assert") id_assertion)).
Proof. apply injective_projections; cbn [fst snd]; [unfold asserted; exact eq_refl|vm_compute; reflexivity]. Qed.

Lemma empty_files : fs_ok (fs empty_store).
Proof. intros p c E. cbn in E. discriminate E. Qed.

Lemma resolved_assertions_signed_witness :
  ∃ res, resolve_task (rs "bob") None asserted = Ok res ∧
    ∀ a, a ∈ res_valid res ∨ a ∈ (res_revoked res).*1 ∨ a ∈ (res_watermarked res).*1 →
      vouched_for (rs "bob") a ∨ ∃ x c, collides_in asserted x c.
Proof.
  apply (resolved_assertions_signed asserted (rs "bob") None).
  - apply rtc_once. eapply (step_assert [] (id_cx []) (rs "assert") None None). unfold assert_handler. rewrite asserted_run. reflexivity.
  - intros Hin. repeat (apply elem_of_cons in Hin as [Hin|Hin]; [discriminate Hin|]). by apply elem_of_nil in Hin.
  - intros e b. unfold from_canonical, canonical_bytes, into_cbor, sample_edge_cbor. cbn [to_cbor_data try_from_data sample_dcbor from_cbor].
    unfold from_cbor, id_assertion_of. case_decide as E; [|discriminate]. exfalso.
    assert (x00 ∈ rs "bob") as Hin by (rewrite <- E; set_solver).
    repeat (apply elem_of_cons in Hin as [Hin|Hin]; [discriminate Hin|]). by apply elem_of_nil in Hin.
Defined.

Lemma assertion_resolves_witness :
  signed_assertion id_assertion ∧
  ∃ s', assert_store (id_cx []) (rs "assert") empty_store = (s', Ok (assertion_kappa id_assertion, akd_label (id_body "assert") id_assertion)) ∧
    ∀ at_ms, in_window (default u64_max at_ms) id_assertion → ∃ res, resolve_task (rs "bob") at_ms s' = Ok res ∧
      (id_assertion ∈ res_valid res ∨ id_assertion ∈ (res_revoked res).*1 ∨ id_assertion ∈ (res_watermarked res).*1).
Proof.
  apply (assertion_resolves (id_cx []) (rs "assert") (id_body "assert") id_assertion empty_store).
  - vm_compute. reflexivity.
  - apply injective_projections; cbn [fst snd]; vm_compute; reflexivity.
  - split; [exact empty_files|intros c Hc; vm_compute in Hc; discriminate Hc|apply room_empty; vm_compute; discriminate|].
    intros E. apply (f_equal snd) in E. vm_compute in E. discriminate E.
  - vm_compute. reflexivity.
Defined.

Lemma revocation_correct_witness :
  ∃ s', revoke_handler (id_cx []) (rs "revoke") empty_store = (s', Ok (kappa_answer (kappa_from_bytes (canonical_bytes into_cbor id_revoked)))) ∧
    (∀ subject at_ms, ∃ res, resolve_task subject at_ms s' = Ok res ∧ ∀ a, a ∈ res_valid res → ¬ revokes a id_revoked).
Proof.
  destruct (revocation_correct (id_cx []) (rs "revoke") (id_body "revoke") empty_store) as [Hok _]; [vm_compute; reflexivity|].
  destruct (Hok id_revoked) as (_ & s' & E & Hres & _).
  - apply injective_projections; cbn [fst snd]; vm_compute; reflexivity.
  - split; [exact empty_files|intros c Hc; vm_compute in Hc; discriminate Hc|apply room_empty; vm_compute; discriminate|].
    intros E. apply (f_equal snd) in E. vm_compute in E. discriminate E.
  - vm_compute. reflexivity.
  - exists s'. split; [exact E|exact Hres].
Defined.

Definition id_su : IdentitySuccession :=
  mkSuccession id_asserter id_successor (rs "rotation") 0 id_succ_signature id_succ_signature.


Definition with_handles : store := set_ns_aliases (<[rs "_handles" := replicate 16 x01]>) empty_store.
Definition id_record : HandleRecord := mkHandle (rs "a") (rs "alice.example") (rs "dns") 0 None (rs "unverified") HUnverified.

Lemma handle_claim_correct_witness :
  ∃ s' r, handle_claim_handler (id_cx []) (rs "first") with_handles = (s', Ok r) ∧ r_status r = 201 ∧
    ∃ r2, handle_claim_handler (id_cx []) (rs "other") s' = (s', Ok r2) ∧ r_status r2 = 409.
Proof.
  destruct (handle_claim_correct id_handles_laws (id_cx []) (rs "first") (id_body "first") id_record (with_name (replicate 16 x01) (rs "_handles")) with_handles)
    as (s' & r & E & Hr & _ & Hother & _).
  - vm_compute. reflexivity.
  - apply injective_projections; cbn [fst snd]; vm_compute; reflexivity.
  - vm_compute. reflexivity.
  - intros e He. vm_compute in He. discriminate He.
  - intros p c Hp. cbn in Hp. discriminate Hp.
  - intros c Hc. vm_compute in Hc. discriminate Hc.
  - split; [intros key e He; cbn in He; discriminate He|vm_compute; split; discriminate|intros key v Hv; cbn in Hv; discriminate Hv].
  - intros Ek. apply (f_equal snd) in Ek. vm_compute in Ek. discriminate Ek.
  - exists s', r. split; [exact E|]. split; [exact Hr|].
    apply (Hother (id_cx []) (rs "other") (id_body "other") (mkHandle (rs "b") (rs "alice.example") (rs "dns") 0 None (rs "unverified") HUnverified)).
    + vm_compute. reflexivity.
    + reflexivity.
    + reflexivity.
    + reflexivity.
    + discriminate.
    + vm_compute. reflexivity.
Defined.

Lemma published_reported_absent_witness :
  let st' := (dir_publish [(akd_label (id_body "assert") id_assertion, assertion_kappa id_assertion)] akd_state_new).1 in
  ∃ s', (assert_handler (rs "_akd/identity") (id_cx []) (rs "assert") (Some akd_state_new) empty_store).1 = (Some st', s').
Proof.
  apply (published_reported_absent sample_directory_laws (rs "_akd/identity") (id_cx [])
    (id_cx [(rs "subject", rs "bob"); (rs "facet", rs "role")]) (rs "assert") (id_body "assert") id_assertion akd_state_new
    (dir_publish [(akd_label (id_body "assert") id_assertion, assertion_kappa id_assertion)] akd_state_new).1 (1, []) empty_store asserted empty_store).
  - vm_compute. reflexivity.
  - apply injective_projections; cbn [fst snd]; vm_compute; reflexivity.
  - reflexivity.
  - exact asserted_run.
  - reflexivity.
  - reflexivity.
  - reflexivity.
Defined.

(** The signature that is stored with an assertion does not verify for it: it was made
    before the asserter was filled in. *)
Example stored_signature_unverifiable :
  signed_assertion id_assertion ∧
  asserter_from_signature (rs "ed25519") id_key (assertion_signable_bytes id_assertion) (as_signature id_assertion) = Err InvalidSignature.
Proof. split; [exists (rs "ed25519"), id_key; vm_compute; reflexivity|vm_compute; reflexivity]. Qed.

(** A binding to an anchor is entered without a signature of the anchor's key. *)
Example binding_without_signature :
  let s := (binding_put_handler (rs "bind") empty_store).1 in
  json_index (rs "signature") (id_body "bind") = JNull ∧
  identity_binding_get (rs "mallory@example.com") s
    = Ok [mkBinding (rs "mallory@example.com") id_asserter (rs "self-asserted") 1 0].
Proof. split; vm_compute; reflexivity. Qed.

(** Of two handles that an anchor claims only the later one is listed for it: the list
    is begun again with the address of the old list in the place of its contents. *)
Example second_handle_only :
  let text : HandleJson := {| handle_to_vec r := hr_handle r; handle_from_slice b := None |} in
  let s := (@handle_claim_handler _ _ id_json text (id_cx []) (rs "first") with_handles).1 in
  let s := (@handle_claim_handler _ _ id_json text (id_cx []) (rs "second") s).1 in
  handle_get_task (handle_key (rs "dns") (rs "alice.example")) s = Ok (rs "alice.example") ∧
  handles_of_anchor (rs "a") s = Ok [JStr (rs "alice.test")].
Proof. split; vm_compute; reflexivity. Qed.
