(* ===== verification/Compose.v ===== *)
(** Compose: composition of labels, [kappa-module-distribution/src/compose.rs].

    An operation maps its operands to a canonical form, which is stored with a
    witness and edges back to the operands.  Each form forgets something: the
    order of two operands, a label against its complement, the order of a digest's
    quarters. *)

From S2P Require Import Prelude Label Compute Types Merkle Epoch Identity Store MemStore MemTags MemEdge MemIdentity MemNamespace Gc Frame Http OciBlob Auth DistEdge.

(** * Canonical forms *)

Definition canonical_g2 (a b : rstr) : bytes :=
  let ab := a ++ b in
  let ba := b ++ a in
  if bytes_leb ab ba then ab else ba.

Definition label_bad_request {A} (m : outcome LabelError A) : outcome HttpError A :=
  map_err (λ e, BadRequest (label_error_str e)) m.

Definition canonical_f4 (a : rstr) : outcome HttpError bytes :=
  kappa ← label_bad_request (label_parse a);
  comp ← label_bad_request (label_complement kappa);
  text ← label_bad_request (label_as_str comp);
  Ok (default [] (head (sort_strings [a; text]))).

(** What follows the first colon. *)
Definition hex_part (a : rstr) : rstr := match split_once COLON a with Some (_, h) => h | None => [] end.

Definition PERMS4 : list (list nat) :=
  [[0; 1; 2; 3]; [0; 1; 3; 2]; [0; 2; 1; 3]; [0; 2; 3; 1]; [0; 3; 1; 2]; [0; 3; 2; 1];
   [1; 0; 2; 3]; [1; 0; 3; 2]; [1; 2; 0; 3]; [1; 2; 3; 0]; [1; 3; 0; 2]; [1; 3; 2; 0];
   [2; 0; 1; 3]; [2; 0; 3; 1]; [2; 1; 0; 3]; [2; 1; 3; 0]; [2; 3; 0; 1]; [2; 3; 1; 0];
   [3; 0; 1; 2]; [3; 0; 2; 1]; [3; 1; 0; 2]; [3; 1; 2; 0]; [3; 2; 0; 1]; [3; 2; 1; 0]]%nat.

Definition quarters (digest : bytes) : list bytes :=
  let q := (length digest / 4)%nat in
  (λ i, slice digest (i * q) ((i + 1) * q)) <$> [0; 1; 2; 3]%nat.

(** The quarters in the order of a permutation. *)
Definition arrange (qs : list bytes) (perm : list nat) : bytes :=
  concat ((λ idx, default [] (qs !! idx)) <$> perm).

(** The loop keeps the least candidate so far. *)
Definition least_step (qs : list bytes) (best : option bytes) (perm : list nat) : option bytes :=
  let cand := arrange qs perm in
  match best with
  | None => Some cand
  | Some b => if bytes_ltb cand b then Some cand else Some b
  end.
Definition least_arrangement (qs : list bytes) : option bytes := fold_left (least_step qs) PERMS4 None.

Section forms.
Context `{HexDecode} `{HashCrates}.

Definition decode_operand (a : rstr) : outcome HttpError bytes :=
  ok_or (hex_decode (hex_part a)) (BadRequest (rs "bad hex in operand")).

Definition canonical_e6 (a : rstr) : outcome HttpError bytes :=
  digest ← decode_operand a;
  first ← ok_or (head digest) (BadRequest (rs "empty digest"));
  let tag := if b2z first mod 9 <=? 7 then 0x05 else 0x06 in
  Ok (z2b tag :: a).

Definition canonical_e7 (a : rstr) : outcome HttpError bytes :=
  axis ← ok_or (axis_of a) (BadRequest (rs "no axis"));
  digest ← decode_operand a;
  if bool_decide (digest = []) || negb (length digest mod 4 =? 0)%nat then
    Err (BadRequest (rs "digest not divisible by 4"))
  else
    best ← unwrap (least_arrangement (quarters digest));
    Ok (axis ++ rs ":" ++ hex_encode best).

(** The operation on its operands. *)
Definition canonical_form (op_token : rstr) (operands : list rstr) : outcome HttpError bytes :=
  let unary name (f : rstr → outcome HttpError bytes) :=
    match operands with
    | [a] => f a
    | _ => Err (BadRequest (name ++ rs " requires 1 operand"))
    end in
  if decide (op_token = rs "g2") then
    match operands with
    | [a; b] => Ok (canonical_g2 a b)
    | _ => Err (BadRequest (rs "g2 requires 2 operands"))
    end
  else if decide (op_token = rs "f4") then unary (rs "f4") canonical_f4
  else if decide (op_token = rs "e6") then unary (rs "e6") canonical_e6
  else if decide (op_token = rs "e7") then unary (rs "e7") canonical_e7
  else if decide (op_token = rs "e8") then unary (rs "e8") (λ a, Ok a)
  else Err (BadRequest (rs "unknown operation")).
End forms.

(** [u16::to_le_bytes]. *)
Definition le16 (n : Z) : bytes := [z2b (Z.land n 0xff); z2b (Z.land (Z.shiftr n 8) 0xff)].

Definition witness_blob (label_width fingerprint_width : Z) (trace : bytes) : bytes :=
  le16 label_width ++ le16 fingerprint_width ++ le16 1 ++ trace.

(** * Handlers *)

Section handlers.
Context `{HashCrates} `{Dcbor} `{!IntoCbor Edge} `{MemoryStoreConfig} `{JsonCrates} `{HexDecode}.

(** [compute_kappa(axis, content)] as text, its error a bad request. *)
Definition label_for (axis : rstr) (content : bytes) : outcome HttpError rstr :=
  k ← label_bad_request (compute_kappa axis content);
  label_bad_request (label_as_str k).

(** Content under its label, with its kind in the blob's and the namespace's metadata. *)
Definition store_typed (ns : NamespaceRef) (kappa kind : rstr) (content : bytes) : Handler () :=
  _ ← call (ingest_verified kappa content);
  call (_ ← blob_put_meta kappa (rs "object-type") kind; meta_set ns kappa (rs "object-type") kind).

Fixpoint link_operands (ns : NamespaceRef) (asserter composed op_token : rstr) (operands : list rstr) : Handler () :=
  match operands with
  | [] => mret ()
  | operand :: operands =>
      let metadata := serde_to_string (JObj [(rs "operation", JStr op_token)]) in
      _ ← ignored (edge_put ns (mkEdge composed operand ComposedOf asserter None (Some metadata)));
      link_operands ns asserter composed op_token operands
  end.

Definition first_axis (operands : list rstr) : rstr := default (rs "sha256") (o ← head operands; axis_of o).

Definition compose (cx : Cx) (ns : NamespaceRef) (op_token : rstr) (body : bytes) : Handler Response :=
  v ← of_outcome (parse_body body);
  let operands := string_array (rs "operands") v in
  if decide (operands = []) then fail (BadRequest (rs "no operands"))
  else
    let axis := first_axis operands in
    if negb (forallb (λ op, bool_decide (axis_of op = Some axis)) (tail operands)) then
      mret (error_response 422 (rs "AXIS_MISMATCH") (rs "composition operands differ in sigma-axis"))
    else
      canon ← of_outcome (canonical_form op_token operands);
      composed_kappa ← of_outcome (label_for axis canon);
      _ ← store_typed ns composed_kappa (rs "composition") canon;
      let witness_data := witness_blob 71 32 canon in
      witness_kappa ← of_outcome (label_for axis witness_data);
      _ ← store_typed ns witness_kappa (rs "witness") witness_data;
      let asserter := dist_registry_anchor cx in
      _ ← link_operands ns asserter composed_kappa op_token operands;
      _ ← ignored (edge_put ns (mkEdge witness_kappa composed_kappa WitnessReceipt asserter None None));
      mret (json_response 200 (JObj [(rs "composed", JStr composed_kappa); (rs "witness", JStr witness_kappa);
                                     (rs "operands", JArr (JStr <$> operands)); (rs "operation", JStr op_token)])).

Definition compose_witness (ns : NamespaceRef) (kappa : rstr) : Handler Response :=
  es ← call (asks (edge_query ns (mkQuery kappa Inbound (Some WitnessReceipt) None)));
  witness_kappa ← of_outcome (ok_or (e_source <$> head es) NotFoundError);
  content ← call (asks (blob_get witness_kappa));
  mret (response 200 [(rs "content-length", dec (zlen content)); (rs "x-kappa-label", witness_kappa);
                      (rs "content-type", rs "application/octet-stream")] content).

Definition compose_route (cx : Cx) (body : bytes) : Handler Response :=
  ns ← dist_resolve_ns_write cx; compose cx ns (path_param cx (rs "op")) body.

Definition compose_witness_route (cx : Cx) : Handler Response :=
  ns ← resolve_ns_read cx; compose_witness ns (path_param cx (rs "kappa")).
End handlers.

(** * What the forms forget *)

Lemma canonical_g2_comm a b : canonical_g2 a b = canonical_g2 b a.
Proof.
  unfold canonical_g2. destruct (bytes_leb (a ++ b) (b ++ a)) eqn:E1, (bytes_leb (b ++ a) (a ++ b)) eqn:E2; try done.
  - by apply bytes_leb_antisym.
  - destruct (bytes_leb_total (a ++ b) (b ++ a)); congruence.
Qed.

Lemma sort_pair_comm a b : sort_strings [a; b] = sort_strings [b; a].
Proof.
  unfold sort_strings, sort_by. cbn. destruct (bytes_leb a b) eqn:E1, (bytes_leb b a) eqn:E2; try done.
  - by rewrite (bytes_leb_antisym a b E1 E2).
  - destruct (bytes_leb_total a b); congruence.
Qed.

Lemma canonical_f4_complement ax hex hex' :
  valid_digits ax hex → valid_digits ax hex' → complement_pairs hex = Ok hex' → complement_pairs hex' = Ok hex →
  canonical_f4 (label_text ax hex) = Ok (default [] (head (sort_strings [label_text ax hex; label_text ax hex']))).
Proof.
  intros Hv Hv' Hc Hc'. unfold canonical_f4.
  assert (label_parse (label_text ax hex) = Ok (label_of ax hex)) as -> by (apply label_parse_ok; by eauto).
  cbn [label_bad_request map_err mbind outcome_bind].
  destruct (label_complement_of ax hex Hv) as (h & _ & Hc1 & _ & E). rewrite Hc in Hc1. injection Hc1 as <-. rewrite E.
  cbn [label_bad_request map_err mbind outcome_bind]. rewrite label_as_str_of by done. done.
Qed.

Section quarters.

(** The least arrangement is the minimum of all. *)
Lemma least_fold qs perms best :
  let cands := arrange qs <$> perms in
  match fold_left (least_step qs) perms best with
  | Some b => (b ∈ cands ∨ best = Some b) ∧ (∀ c, c ∈ cands → bytes_le b c) ∧ (∀ b0, best = Some b0 → bytes_le b b0)
  | None => perms = [] ∧ best = None
  end.
Proof.
  cbv zeta. revert best. induction perms as [|p perms IH]; intros best; cbn [fold_left fmap list_fmap].
  { destruct best as [b|]; [|done]. split_and!; [by right|by intros c Hc%elem_of_nil|by intros b0 [= <-]]. }
  specialize (IH (least_step qs best p)).
  assert (∃ b1, least_step qs best p = Some b1 ∧ (b1 = arrange qs p ∨ best = Some b1) ∧ bytes_le b1 (arrange qs p) ∧
    ∀ b0, best = Some b0 → bytes_le b1 b0) as (b1 & Eb & Hb1 & Hle & Hle0).
  { unfold least_step. destruct best as [b0|]; [|eexists; split_and!; [done|by left|done|done]].
    unfold bytes_ltb. destruct (bytes_leb b0 (arrange qs p)) eqn:El; cbn [negb].
    - exists b0. split_and!; [done|by right|done|by intros b' [= <-]].
    - exists (arrange qs p). split_and!; [done|by left|done|]. intros b' [= <-].
      destruct (bytes_leb_total (arrange qs p) b0); [done|congruence]. }
  rewrite Eb in IH. destruct (fold_left (least_step qs) perms (Some b1)) as [b|] eqn:Ef; rewrite Eb, Ef; [|by destruct IH].
  destruct IH as (H1 & H2 & H3). specialize (H3 b1 eq_refl). split_and!.
  - destruct H1 as [H1|[= <-]]; [left; by right|]. destruct Hb1 as [->|Hb1]; [left; by left|by right].
  - intros c [->|Hc]%elem_of_cons; [by transitivity b1|by apply H2].
  - intros b0 Hb0. transitivity b1; [done|by apply Hle0].
Qed.

Lemma least_spec qs : ∃ b, least_arrangement qs = Some b ∧ b ∈ arrange qs <$> PERMS4 ∧
  ∀ c, c ∈ arrange qs <$> PERMS4 → bytes_le b c.
Proof.
  unfold least_arrangement. pose proof (least_fold qs PERMS4 None) as Hf. cbv zeta in Hf.
  destruct (fold_left (least_step qs) PERMS4 None) as [b|]; [|by destruct Hf]. exists b. split; [done|].
  destruct Hf as ([Hin|?] & Hle & _); done.
Qed.

(** [σ] after [τ]. *)
Definition after (σ τ : list nat) : list nat := (λ j, default 0%nat (σ !! j)) <$> τ.

Lemma perms4_shape p : p ∈ PERMS4 → length p = 4%nat ∧ ∀ j, j ∈ p → (j < 4)%nat.
Proof.
  intros Hp. assert (forallb (λ p, (length p =? 4)%nat && forallb (λ j, (j <? 4)%nat) p) PERMS4 = true) as Hall
    by (vm_compute; reflexivity).
  rewrite forallb_forall in Hall. apply list_elem_of_In in Hp. specialize (Hall p Hp).
  apply andb_prop in Hall as [Hl Hj]. apply Nat.eqb_eq in Hl. split; [done|].
  intros j Hin. rewrite forallb_forall in Hj. apply list_elem_of_In in Hin. by apply Nat.ltb_lt, Hj.
Qed.

(** The permutations are a group under composition: composing on the left by one of
    them permutes them. *)
Lemma perms4_after σ p : σ ∈ PERMS4 → p ∈ PERMS4 ↔ ∃ τ, τ ∈ PERMS4 ∧ p = after σ τ.
Proof.
  intros Hσ.
  assert (forallb (λ σ, forallb (λ τ, bool_decide (after σ τ ∈ PERMS4)) PERMS4
                        && forallb (λ p, bool_decide (p ∈ after σ <$> PERMS4)) PERMS4) PERMS4 = true) as Hall
    by (vm_compute; reflexivity).
  rewrite forallb_forall in Hall. apply list_elem_of_In in Hσ. specialize (Hall σ Hσ).
  apply andb_prop in Hall as [H1 H2]. rewrite forallb_forall in H1, H2. split.
  - intros Hp%list_elem_of_In. specialize (H2 p Hp). apply bool_decide_eq_true, list_elem_of_fmap in H2 as (τ & -> & Hτ).
    by exists τ.
  - intros (τ & Hτ%list_elem_of_In & ->). by apply (bool_decide_eq_true_1 _ (H1 τ Hτ)).
Qed.

Definition reorder (qs : list bytes) (σ : list nat) : list bytes := (λ i, default [] (qs !! i)) <$> σ.

Lemma arrange_reorder qs σ τ : σ ∈ PERMS4 → τ ∈ PERMS4 → arrange (reorder qs σ) τ = arrange qs (after σ τ).
Proof.
  intros Hσ Hτ. unfold arrange, after. rewrite <- list_fmap_compose. f_equal. apply list_fmap_ext. intros i j Hj.
  unfold reorder, Basics.compose. rewrite list_lookup_fmap.
  assert ((j < length σ)%nat) as Hlt.
  { destruct (perms4_shape σ Hσ) as [-> _]. eapply (perms4_shape τ Hτ). by eapply list_elem_of_lookup_2. }
  apply lookup_lt_is_Some_2 in Hlt as [x Hx]. by rewrite Hx.
Qed.

(** Reordering the quarters does not change the least arrangement. *)
Lemma least_reorder qs σ : σ ∈ PERMS4 → least_arrangement (reorder qs σ) = least_arrangement qs.
Proof.
  intros Hσ. destruct (least_spec (reorder qs σ)) as (b & Eb & Hb & Hle), (least_spec qs) as (b' & Eb' & Hb' & Hle').
  assert (∀ c, c ∈ arrange (reorder qs σ) <$> PERMS4 ↔ c ∈ arrange qs <$> PERMS4) as Hsame.
  { intros c. rewrite !list_elem_of_fmap. split.
    - intros (τ & -> & Hτ). exists (after σ τ). split; [by apply arrange_reorder|]. apply (perms4_after σ _ Hσ). eauto.
    - intros (p & -> & (τ & Hτ & ->)%(perms4_after σ _ Hσ)). exists τ. split; [|done]. by rewrite arrange_reorder. }
  rewrite Eb, Eb'. f_equal. apply (anti_symm bytes_le); [apply Hle, Hsame, Hb'|apply Hle', Hsame, Hb].
Qed.

Lemma quarters_concat (qs : list bytes) n :
  length qs = 4%nat → (∀ q, q ∈ qs → length q = n) → length (concat qs) = (4 * n)%nat ∧ quarters (concat qs) = qs.
Proof.
  destruct qs as [|q0 [|q1 [|q2 [|q3 [|]]]]]; try done. intros _ Hq.
  assert (length q0 = n ∧ length q1 = n ∧ length q2 = n ∧ length q3 = n) as (L0 & L1 & L2 & L3)
    by (split_and!; apply Hq; set_solver).
  assert (length (concat [q0; q1; q2; q3]) = (4 * n)%nat) as Hl by (cbn [concat]; rewrite !length_app; cbn; lia).
  split; [done|]. unfold quarters. rewrite Hl. rewrite Nat.mul_comm, Nat.div_mul by done. cbn [fmap list_fmap concat].
  rewrite app_nil_r. unfold slice. f_equal; [|f_equal; [|f_equal; [|f_equal]]].
  - rewrite Nat.mul_0_l, drop_0. replace ((0 + 1) * n - 0)%nat with (length q0) by lia. apply take_app_length.
  - replace (1 * n)%nat with (length q0) by lia. rewrite drop_app_length.
    replace ((1 + 1) * n - length q0)%nat with (length q1) by lia. apply take_app_length.
  - rewrite app_assoc. replace (2 * n)%nat with (length (q0 ++ q1)) by (rewrite length_app; lia). rewrite drop_app_length.
    replace ((2 + 1) * n - length (q0 ++ q1))%nat with (length q2) by (rewrite length_app; lia). apply take_app_length.
  - rewrite !app_assoc. replace (3 * n)%nat with (length ((q0 ++ q1) ++ q2)) by (rewrite !length_app; lia). rewrite drop_app_length.
    apply take_ge. rewrite !length_app. lia.
Qed.
End quarters.

Section operands.
Context `{HexDecodeLaws} `{HashCratesLaws}.

Lemma split_label ax hex : split_once COLON (label_text ax hex) = Some (axis_as_str ax, hex).
Proof. apply split_once_app, colon_notin_axis. Qed.

Lemma axis_of_text ax hex : axis_of (label_text ax hex) = Some (axis_as_str ax).
Proof. unfold axis_of. by rewrite split_label. Qed.

Lemma decode_operand_label ax bs : decode_operand (label_text ax (hex_of_bytes bs)) = Ok bs.
Proof. unfold decode_operand, hex_part. by rewrite split_label, hex_decode_encode. Qed.

Lemma canonical_e7_label ax (qs : list bytes) n : length qs = 4%nat → (0 < n)%nat → (∀ q, q ∈ qs → length q = n) →
  canonical_e7 (label_text ax (hex_of_bytes (concat qs)))
  = (best ← unwrap (least_arrangement qs); Ok (axis_as_str ax ++ rs ":" ++ hex_encode best)).
Proof.
  intros H4 Hn Hq. destruct (quarters_concat qs n H4 Hq) as [Hl Hqs]. unfold canonical_e7.
  rewrite axis_of_text, decode_operand_label. cbn [ok_or mbind outcome_bind].
  rewrite bool_decide_eq_false_2 by (intros E; rewrite E in Hl; cbn in Hl; lia).
  rewrite Hl, Nat.mul_comm, Nat.Div0.mod_mul. cbn [orb negb Nat.eqb]. by rewrite Hqs.
Qed.

(** Both labels a composition stores are those of their content. *)
Lemma label_for_axis ax content : hash_refused ax content = false →
  label_for (axis_as_str ax) content = Ok (kappa_text ax content) ∧ verify_kappa (kappa_text ax content) content = Ok true.
Proof.
  intros Hr. split; [|apply verify_kappa_true; by exists ax].
  unfold label_for. rewrite compute_kappa_axis, Hr. cbn [label_bad_request map_err mbind outcome_bind].
  by rewrite label_as_str_of by apply digest_hex_valid.
Qed.
End operands.

Section storing.
Context `{HashCratesLaws} `{Dcbor} `{!IntoCbor Edge} `{MemoryStoreConfig} `{JsonCrates} `{HexDecode}.

Lemma store_typed_run ns kappa kind content s : fs_ok (fs s) → verify_kappa kappa content = Ok true →
  ∃ s', store_typed ns kappa kind content s = (s', Ok ()) ∧ fs_ok (fs s') ∧ stored_under s' content kappa ∧
    ∀ c k, stored_under s c k → stored_under s' c k.
Proof.
  intros Hs Hv. unfold store_typed.
  destruct (ingest_allowed kappa content s Hs Hv) as (s1 & r1 & E1 & Hs1 & Hst1 & Hk1 & _ & _).
  rewrite (bind_run _ _ _ _ _ (call_ok _ _ _ _ E1)).
  set (s2 := set_meta (<[meta_key kappa (rs "object-type") := kind]>) s1).
  destruct (meta_set_run ns kappa (rs "object-type") kind s2) as (s3 & E3 & K3 & _).
  exists s3. split; [apply call_ok; exact E3|].
  assert (∀ c k, stored_under s1 c k → stored_under s3 c k) as Hkeep.
  { intros c k Hc. apply (k_blobs _ _ _ K3); [exact Hs1|]. by apply (stored_under_frame (set_meta _)). }
  split_and!; [by apply (k_blobs _ _ _ K3)|by apply Hkeep|]. intros c k Hc. by apply Hkeep, Hk1.
Qed.

Lemma ignored_put_run ns e s : fs_ok (fs s) →
  ∃ s', ignored (edge_put ns e) s = (s', Ok ()) ∧ fs_ok (fs s') ∧ ∀ c k, stored_under s c k → stored_under s' c k.
Proof.
  intros Hs. destruct (edge_put_total ns e s) as (s' & E & K & _). exists s'. unfold ignored. rewrite E.
  split_and!; [done|by apply (k_blobs _ _ _ K)|]. intros c k. by apply (k_blobs _ _ _ K).
Qed.

Lemma link_operands_run ns asserter composed op operands s : fs_ok (fs s) →
  ∃ s', link_operands ns asserter composed op operands s = (s', Ok ()) ∧ fs_ok (fs s') ∧
    ∀ c k, stored_under s c k → stored_under s' c k.
Proof.
  revert s. induction operands as [|o operands IH]; intros s Hs; cbn [link_operands]; [by exists s|].
  destruct (ignored_put_run ns (mkEdge composed o ComposedOf asserter None
    (Some (serde_to_string (JObj [(rs "operation", JStr op)])))) s Hs) as (s1 & E1 & Hs1 & K1).
  rewrite (bind_run _ _ _ _ _ E1). destruct (IH s1 Hs1) as (s2 & E2 & Hs2 & K2). exists s2. split_and!; [done|done|].
  intros c k Hc. by apply K2, K1.
Qed.
End storing.

(** * Properties *)

(** Each composition depends only on what it is meant to keep: [g2] not on the
    order of its operands, [f4] not on whether it is given a label or its
    complement, [e7] not on the order of the digest's four quarters. *)
Theorem compose_forms_invariant `{HexDecodeLaws} `{HashCratesLaws} :
  (∀ a b, canonical_form (rs "g2") [a; b] = canonical_form (rs "g2") [b; a]) ∧
  (∀ ax hex, valid_digits ax hex → ∃ hex', label_complement (label_of ax hex) = Ok (label_of ax hex') ∧
     is_ok (canonical_form (rs "f4") [label_text ax hex]) = true ∧
     canonical_form (rs "f4") [label_text ax hex] = canonical_form (rs "f4") [label_text ax hex']) ∧
  (∀ ax (qs : list bytes) n σ, length qs = 4%nat → (0 < n)%nat → (∀ q, q ∈ qs → length q = n) → σ ∈ PERMS4 →
     is_ok (canonical_form (rs "e7") [label_text ax (hex_of_bytes (concat qs))]) = true ∧
     canonical_form (rs "e7") [label_text ax (hex_of_bytes (concat (reorder qs σ)))]
     = canonical_form (rs "e7") [label_text ax (hex_of_bytes (concat qs))]).
Proof.
  unfold canonical_form. split_and!.
  - intros a b. cbn [decide decide_rel]. rewrite !decide_True by done. by rewrite canonical_g2_comm.
  - intros ax hex Hv. destruct (label_complement_of ax hex Hv) as (hex' & Hv' & Hc & Hc' & E). exists hex'.
    split; [done|]. rewrite !decide_False, !decide_True by done.
    rewrite (canonical_f4_complement ax hex hex') by done. rewrite (canonical_f4_complement ax hex' hex) by done.
    split; [done|]. by rewrite sort_pair_comm.
  - intros ax qs n σ H4 Hn Hq Hσ. rewrite !decide_False, !decide_True by done.
    destruct (perms4_shape σ Hσ) as [Hl Hj].
    rewrite (canonical_e7_label ax qs n H4 Hn Hq). rewrite (canonical_e7_label ax (reorder qs σ) n).
    + rewrite least_reorder by done. destruct (least_spec qs) as (b & -> & _). done.
    + unfold reorder. by rewrite length_fmap.
    + done.
    + intros q (j & -> & Hin)%list_elem_of_fmap. assert (j < length qs)%nat as Hlt by (rewrite H4; by apply Hj).
      apply lookup_lt_is_Some_2 in Hlt as [x Hx]. rewrite Hx. cbn. apply Hq. by eapply list_elem_of_lookup_2.
Qed.

(** Composing operands of one axis whose canonical form exists answers 200,
    stores the form and its witness under their own labels of that axis, and keeps
    every blob that was there. *)
Theorem compose_correct `{HashCratesLaws} `{Dcbor} `{!IntoCbor Edge} `{MemoryStoreConfig} `{JsonCrates} `{HexDecode}
  cx ns op_token body v ax canon s
  (Hfs : fs_ok (fs s)) (Hv : serde_from_slice body = inl v) (Hne : string_array (rs "operands") v ≠ [])
  (Hax : ∀ o, o ∈ string_array (rs "operands") v → axis_of o = Some (axis_as_str ax))
  (Hform : canonical_form op_token (string_array (rs "operands") v) = Ok canon)
  (Hok : hash_refused ax canon = false ∧ hash_refused ax (witness_blob 71 32 canon) = false) :
  ∃ s' r, compose cx ns op_token body s = (s', Ok r) ∧ r_status r = 200 ∧ fs_ok (fs s') ∧
    stored_under s' canon (kappa_text ax canon) ∧
    stored_under s' (witness_blob 71 32 canon) (kappa_text ax (witness_blob 71 32 canon)) ∧
    ∀ c k, stored_under s c k → stored_under s' c k.
Proof.
  destruct Hok as [Hok1 Hok2]. unfold compose, parse_body. rewrite Hv. rewrite (bind_run _ _ s s v) by done. cbv zeta.
  set (operands := string_array (rs "operands") v) in *. rewrite decide_False by done.
  assert (first_axis operands = axis_as_str ax) as ->.
  { unfold first_axis. destruct operands as [|o l]; [done|]. cbn. by rewrite (Hax o) by left. }
  assert (forallb (λ op, bool_decide (axis_of op = Some (axis_as_str ax))) (tail operands) = true) as ->.
  { apply forallb_forall. intros o Ho%list_elem_of_In. apply bool_decide_eq_true, Hax.
    destruct operands; [done|by right]. }
  cbn [negb]. rewrite (bind_run _ _ s s canon) by (unfold of_outcome; by rewrite Hform).
  destruct (label_for_axis ax canon Hok1) as [El1 Hver1], (label_for_axis ax (witness_blob 71 32 canon) Hok2) as [El2 Hver2].
  rewrite (bind_run _ _ s s (kappa_text ax canon)) by (unfold of_outcome; by rewrite El1).
  destruct (store_typed_run ns _ (rs "composition") canon s Hfs Hver1) as (s1 & E1 & Hs1 & Hst1 & K1).
  rewrite (bind_run _ _ _ _ _ E1).
  rewrite (bind_run _ _ s1 s1 (kappa_text ax (witness_blob 71 32 canon))) by (unfold of_outcome; by rewrite El2).
  destruct (store_typed_run ns _ (rs "witness") (witness_blob 71 32 canon) s1 Hs1 Hver2) as (s2 & E2 & Hs2 & Hst2 & K2).
  rewrite (bind_run _ _ _ _ _ E2).
  destruct (link_operands_run ns (dist_registry_anchor cx) (kappa_text ax canon) op_token operands s2 Hs2) as (s3 & E3 & Hs3 & K3).
  rewrite (bind_run _ _ _ _ _ E3).
  destruct (ignored_put_run ns (mkEdge (kappa_text ax (witness_blob 71 32 canon)) (kappa_text ax canon) WitnessReceipt
    (dist_registry_anchor cx) None None) s3 Hs3) as (s4 & E4 & Hs4 & K4).
  rewrite (bind_run _ _ _ _ _ E4). eexists s4, _. split; [done|]. split; [done|]. split; [done|].
  split_and!; [by apply K4, K3, K2|by apply K4, K3|]. intros c k Hc. by apply K4, K3, K2, K1.
Qed.

Lemma compose_forms_invariant_witness :
  canonical_form (rs "e7") [label_text Sha256 (hex_of_bytes [x02; x01; x03; x04])]
  = canonical_form (rs "e7") [label_text Sha256 (hex_of_bytes [x01; x02; x03; x04])].
Proof.
  apply (proj2 (proj2 compose_forms_invariant) Sha256 [[x01]; [x02]; [x03]; [x04]] 1%nat [1; 0; 2; 3]%nat);
    [reflexivity|lia| |apply (bool_decide_unpack _); vm_compute; exact I].
  intros q Hq. repeat (apply elem_of_cons in Hq as [->|Hq]; [reflexivity|]). by apply elem_of_nil in Hq.
Defined.

Section sample.
Definition sample_operand : rstr := kappa_text Sha256 (rs "hello").

#[local] Instance sample_compose_json : JsonCrates := {|
  serde_from_slice _ := inl (JObj [(rs "operands", JArr [JStr sample_operand])]);
  serde_to_string _ := rs "{}";
  jsonschema_is_valid _ _ := true;
|}.

Lemma compose_correct_witness : ∃ s' r,
  compose (sample_cx None []) (NamespaceRef_new sample_gc_ns) (rs "e8") (rs "x") sample_store = (s', Ok r) ∧
  stored_under s' sample_operand (kappa_text Sha256 sample_operand).
Proof.
  destruct (compose_correct (sample_cx None []) (NamespaceRef_new sample_gc_ns) (rs "e8") (rs "x")
    (JObj [(rs "operands", JArr [JStr sample_operand])]) Sha256 sample_operand sample_store) as (s' & r & E & _ & _ & Hst & _).
  - exact sample_store_ok.
  - reflexivity.
  - discriminate.
  - intros o Ho. apply list_elem_of_singleton in Ho as ->. vm_compute. reflexivity.
  - reflexivity.
  - split; vm_compute; reflexivity.
  - exists s', r. split; [exact E|exact Hst].
Defined.
End sample.
